(* ===== verification/_CoqProject ===== *)
-Q . S2P
Prelude.v
Arith.v
Cid.v
Schema.v
Manifest.v
Core.v
Engine.v
EngineWorld.v
Dir.v
HeadModel.v
Lookup.v
Apply.v
ApplyCorrect.v
Truncate.v
Lifecycle.v
Enumerate.v
EnumerateCorrect.v
Store.v
EpochConcurrency.v
Ledger.v
Policy.v
Reconcile.v
Staging.v
GC.v
Ingest.v
GCCorrect.v
GCRun.v
IngestCorrect.v
IngestLife.v
Merkle.v
StoreAccess.v
Json.v
JsonDecode.v
Publication.v
PublicationJson.v
Claims.v
ClaimsCorrect.v
Arbitration.v
ArbitrationCorrect.v
Wire.v
Checkpoint.v
CheckpointCorrect.v
FollowState.v
FollowStateCorrect.v
SourceState.v
SourceStateCorrect.v
SourceSteps.v
SourceMigration.v
ConflictState.v
ConflictCodec.v
ConflictInv.v
ConflictLatch.v
ConflictRuntime.v
ConflictSteps.v
ConflictRestart.v
Replica.v
ReplicaCodec.v
ReplicaCorrect.v
ReplicaSafety.v
ReplicaSteps.v
ReplicaRuns.v
Generations.v
GenerationsCorrect.v
Snapshot.v
Tracker.v
TrackerCorrect.v
Instances.v
StoreInstances.v
Demo.v
Witnesses.v
StoreWitnesses.v
GCWitnesses.v
IngestWitnesses.v
ManifestWitnesses.v
FollowWitnesses.v
StateWitnesses.v
SourceWitnesses.v
TrackerWitnesses.v
ReplicaWitnesses.v
