(* ===== verification/Prelude.v ===== *)
(** * A verification of bloar

    bloar archives Ethereum blobs.  A head is an index from slots to blobs: an
    immutable DAG of content-addressed blocks (head object, directory pages,
    segments of rows, blobs) with one mutable root.  A daemon takes blobs in,
    applies rows to heads, serves lookups, pins what each head's retention policy
    keeps, and collects the rest.  This library translates the core of the Go
    program into executable Rocq definitions, component by component, and proves
    what makes it correct.

    ** The parts and where they are modelled

    - Prelude.v: 64-bit arithmetic, the error values of the program ([err]), the
      state-and-error monad in which stateful code is written, list lemmas.
    - Cid.v: CIDs, IPLD nodes and the interfaces of third-party code (hash,
      DAG-CBOR codec, block store) as classes with their documented laws.
    - Arith.v: archive/arith.go.  Schema.v: schema/schema.go, cid.go, encode.go,
      decode.go.  Manifest.v: schema/manifest.go.
    - Core.v: core/core.go, pointer.go, cache.go: node stores, pointers, the node
      cache; [NodeWorld] is the interface the engine gives to them.
    - The archive engine, package archive.  Engine.v: the state of a head, loading
      and publishing (archive.go, structure_cache.go); EngineWorld.v: the engine as
      a [NodeWorld]; Dir.v: dir.go; Lookup.v: lookup.go; Apply.v: apply.go,
      errors.go, generation.go; Truncate.v: truncate.go; Enumerate.v: enumerate.go
      and the segment proofs of structure_cache.go.
    - HeadModel.v: the abstract specification of a head, [hmodel] (parameters, last
      covered slot, rows), and [canon_state], the one concrete state that
      represents it.
    - The block store, package store.  Store.v: validate.go and the epoch
      coordinator of epoch.go, one call at a time; EpochConcurrency.v: its locking,
      as a step relation with every interleaving.
    - Ledger.v: catalog/catalog.go and catalog/ledger.go over an ordered key-value
      store; [pinLedger] is the interface the reconciler uses.
    - Retention, package pinning.  Policy.v: policy.go; Reconcile.v: reconcile.go
      and follow.go; Staging.v: staging.go; GC.v: gc.go and the gate of gate.go.
    - Ingest.v: ingest/ingest.go and ingest/rebuild.go.
    - Json.v and JsonDecode.v: the JSON and hex encodings of the Go standard library,
      rendering and parsing.  Wire.v: encoding/binary and byte slices.  Publication.v
      and PublicationJson.v: the signed publication document, its contract and its
      lines read back (server/publication.go, parseBeaconRoot of
      server/generations.go).
    - Generations.v: the writer's durable records (server/generations.go, roots.go,
      manifests.go, publications.go).
    - The follower's comparison of writers, package follow.  Claims.v: equivalence.go
      and the loaded claims of source_continuity.go, with the link walk of sync.go
      and manifest.go; Arbitration.v: arbitration.go.
    - The follower's memory, follow/state.go.  Checkpoint.v: the checkpoint records in
      their four versions; FollowState.v: floors, delegation, segment proofs and the
      admission of a document.
    - The follower's source sets.  SourceState.v: follow/source_state.go, the marker of
      the acknowledged roster, the bindings of source IDs and publication keys, the
      floors of each source, activation and the migration of the single-source memory,
      and source_admission.go.  ConflictState.v: follow/conflict_state.go, the evidence
      of a conflict, its canonical bytes, latching, clearing and the validation at start;
      ConflictRuntime.v: follow/conflict_runtime.go, the durable cut of a poll and the
      loading of the latches.
    - Replica.v: the retention controller of a replica over a Kubo node it does not own,
      package replica: generations and their anchors (generation.go), the durable ledger
      (state.go) and the calls (controller.go).
    - The optimistic tip, package index/unfinalized.  Snapshot.v: snapshot.go, the
      bounded walk behind the chain head; Tracker.v: tracker.go.

    ** How they interact

    A put (Ingest.v) writes blocks through the application's view of the block
    store (Store.v), catalogues them and pins them in staging (Ledger.v,
    Staging.v).  An apply (Apply.v) resolves versioned hashes through the catalog,
    touches the blobs, builds segments and directory pages (Core.v, Dir.v) and
    publishes a head object.  The reconciler (Reconcile.v) enumerates a head
    (Enumerate.v), asks its policy for pins (Policy.v) and brings the ledger to
    them.  A collection (GC.v) reconciles every head, marks what the pins reach and
    offers the rest to the epoch of the block store, which refuses whatever the
    application touched meanwhile.  A writer publishes its roots in a signed document
    (Publication.v); a follower loads the roots the documents of several writers name,
    truncates the longer head over a scratch store (Claims.v runs Truncate.v there)
    to see whether it continues the shorter one, and adopts the maximum
    (Arbitration.v).  What it adopts it remembers in one batch of checkpoints and
    floors (FollowState.v), from which it resumes and below which it never falls.  With
    several sources the floors are kept per source under permanent bindings
    (SourceState.v), and a contradiction that arbitration finds is latched in one batch
    with the floors of the sources it names (ConflictRuntime.v): the head is frozen until
    an operator clears that very evidence.  A replica prepares the generation of heads it
    is about to follow, which pins it in the node, before the follower's checkpoint is
    written, and commits it afterwards (Replica.v).  A
    tracker (Tracker.v) has the archive select a snapshot of the unfinalized chain
    (Snapshot.v) as the next generation of a mutable head; the writer commits root and
    generation record together (Generations.v) and burns a revision for every
    document it signs.

    ** What is proved

    - Heads (ApplyCorrect.v, Truncate.v, Lookup.v, Lifecycle.v): the operations
      refine the abstract head.  Each takes the canonical state of an abstract head
      to the canonical state of the head the operation means, or fails and leaves
      the published head as it was, so a root depends on content alone: applying
      batch by batch, building a generation and truncating meet in one root, and a
      published root loads back.  Lookups answer what the abstract head holds.
    - Enumeration (EnumerateCorrect.v): what a successful walk of an arbitrary,
      untrusted root guarantees (what it lists is what the directory holds, is stored
      under its CID and decodes to rows of its window; a cached proof stands for a read
      only within its collection generation), and that it lists a canonical head exactly.
    - Codecs (Schema.v, Manifest.v, Ledger.v): decoding inverts encoding, a CID
      determines the object, ledger rows and pin values round-trip, prefix scans
      are exact.
    - Retention (Policy.v, Reconcile.v, Staging.v): what each policy pins, that a
      pass is crash-ordered and idempotent, the life of a staging pin.
    - Collection (GCCorrect.v, GCRun.v): for every schedule of application
      operations the mark is exactly what the pins reach, the run deletes nothing
      live and nothing touched, deletes what the application leaves alone during the
      run, whatever earlier epochs touched, and fails on a block missing from a written
      head.
    - Concurrency (EpochConcurrency.v, IngestCorrect.v): in every interleaving a
      touched block stays stored, the shard locks do not deadlock and the threads
      drain; the verification fan-out agrees with the serial loop.
    - Intake (IngestCorrect.v, IngestLife.v): refused puts leave no trace, accepted ones
      are stored, catalogued and pinned and change no other block or row; until its pins
      expire a put survives every sequence of operations of the archive, collections
      among them, that does not drop its own pins; rebuild recovers the catalog.
    - Publication and arbitration (Merkle.v, Publication.v, ClaimsCorrect.v,
      ArbitrationCorrect.v): a root determines the head; a document that passes the
      contract leaves no gap between its finalized and unfinalized heads; two claims
      are ordered exactly as their heads and manifests are by inclusion, missing
      evidence is charged to the side that lacks it, and comparing them writes nothing to
      the live store (StoreAccess.v); the selected claim is the maximum of those proved,
      conflicts and incomparable pairs are real, and the order of the observations is
      irrelevant.  The signed bytes of a document determine it (PublicationJson.v).
    - The follower's memory (CheckpointCorrect.v, FollowStateCorrect.v): checkpoints
      read back in every version and those of versions 3 and 4 have one spelling; no
      sequence of operations lowers a floor; admitting a document is all or nothing and
      leaves every other row; the bounded set of IPNS floors never forgets the delegated
      name.
    - Source sets and conflicts (SourceStateCorrect.v, SourceSteps.v, SourceMigration.v,
      ConflictCodec.v, ConflictInv.v, ConflictLatch.v, ConflictSteps.v,
      ConflictRestart.v): records read back; over any sequence of activations, admissions,
      observations, latches and clears, however each ends, no binding, roster revision,
      store feature or floor is undone, and a latch goes away only by a clear that names
      its evidence; the validation at start accepts every store the program leaves and
      loads exactly the active latches; migration copies and changes nothing it copies.
    - The replica (ReplicaCodec.v, ReplicaCorrect.v, ReplicaSafety.v, ReplicaSteps.v,
      ReplicaRuns.v): the ledger reads back and an anchor names one generation; over any
      run of calls, however each ends, beside other clients of the node, an owned committed
      generation stays recursively pinned, a borrowed one while the client it is borrowed
      from keeps it ([BorrowMode] says whether it does) and Recover is refused otherwise,
      no pin under the reserved name is orphaned and no other pin is touched; what
      Prepare, Commit and the check at restart establish.
    - The writer's records (GenerationsCorrect.v): a generation is selected by an
      atomic compare-and-set, no head rolls back or changes its kind, no revision is
      handed out twice, and the digest of a request identifies it.
    - The optimistic tip (Snapshot.v, TrackerCorrect.v): a snapshot is exactly the
      ancestry of the head inside its window and the walk ends; whatever a step meets,
      it asks only for complete snapshots whose window overlaps the finalized head as the
      archive reported it; the cheap path agrees with the full one wherever that one gets
      past its own checks; exactly the missing blobs are supplied;
      an observed reorganization is one, with its depth.

    The theorems with hypotheses are applied to concrete data in Witnesses.v,
    StoreWitnesses.v, GCWitnesses.v, IngestWitnesses.v, ManifestWitnesses.v,
    FollowWitnesses.v, StateWitnesses.v, SourceWitnesses.v, ReplicaWitnesses.v and
    TrackerWitnesses.v, over the concrete
    stores, hash and codec of Instances.v, StoreInstances.v and Demo.v.

    ** Bounds and fuel

    A [uint64] is a [Z] in [0, 2^64) with its wrap-around written out.  Loops that
    are not structural take fuel, and running out is an error of its own
    ([EDiverges]) that theorems on results exclude.  The window loop of an apply gets
    one more than the number of windows it passes; the directory walks are bounded
    by the depth of the tree; the shrink loop by the depth; the mark loop by a
    parameter, for which [mark_terminates] gives a bound that is enough: with at
    most P pins in a head and N links in a node over a link-closed set of U CIDs,
    P + N * U iterations.  The manifest walk of a claim has the code's own bound of
    4096 hops.  The JSON parser gets one more than twice the length of its input, and
    [parse_fuel] shows that more changes nothing; the walk behind the chain head gets
    one step per slot ([walk_ends]) and the puts of missing blobs one round per blob.
    The memory budgets of the enumeration are the code's own
    constants.

    ** Parameters

    SHA-256 (as an injective function into an abstract type of digests; a multihash of any
    other prefix is taken to name one content too), DAG-CBOR,
    boxo's block store over flatfs and over a map, the LRU of hashicorp, Pebble, KZG of
    go-ethereum, ed25519, the text form of CIDs and the names of IPNS; the pins of a
    Kubo node behind the replica's Backend interface.  The beacon
    node, the blob sources and the archive client of the tracker are interfaces in the
    code and here; what is relied on is that a root names one header.
    Each is a class whose laws state documented behaviour; operations of stores may
    fail at any call.  Instances.v and StoreInstances.v show that the laws can hold.

    ** Not modelled

    Logging, metrics and contexts (cancellation is a failing store call); opening
    stores on disk (store/store.go); the periodic drivers of the collector and the
    reconciler, which only decide when a pass happens; the handlers of the HTTP
    server and its read limiter; the polling, fetching and promotion of the follower
    and the claims it rebuilds from checkpoints, which are loops over network calls; the
    finalized indexers and the HTTP clients; the peer-to-peer layer and the Kubo client,
    which are glue over third-party network libraries; the commands, census and metrics.
    Of these the poll of the follower (follow/follow.go, source_finalized_poll.go), the
    registry of served heads (server/heads.go) and the read limiter have logic of their
    own. *)
From Stdlib Require Export Lia ZArith.
From stdpp Require Export base tactics gmap strings numbers option sorting.
From stdpp Require Export list.

#[global] Open Scope Z_scope.

(** * Unsigned 64-bit arithmetic

    Go's [uint64] is a [Z] in [0, 2^64); every operation that can leave the
    range wraps. *)

Definition maxUint64 : Z := 2 ^ 64 - 1.
Definition maxInt64 : Z := 2 ^ 63 - 1.

Definition u64 (x : Z) : Z := x mod 2 ^ 64.
(** [int64(x)] of a [uint64]. *)
Definition int64 (x : Z) : Z := if x <? 2 ^ 63 then x else x - 2 ^ 64.
Definition is_u64 (x : Z) : Prop := 0 <= x < 2 ^ 64.

Definition add64 (a b : Z) : Z := u64 (a + b).
Definition sub64 (a b : Z) : Z := u64 (a - b).
Definition mul64 (a b : Z) : Z := u64 (a * b).
(** A Go shift by 64 or more yields 0. *)
Definition shl64 (a n : Z) : Z := if 64 <=? n then 0 else u64 (Z.shiftl a n).
Definition shr64 (a n : Z) : Z := Z.shiftr a n.
(** [bits.Len64]: the number of bits needed to write [x]. *)
Definition len64 (x : Z) : Z := if x =? 0 then 0 else Z.log2 x + 1.

Create HintDb u64.

Lemma u64_small x : is_u64 x -> u64 x = x.
Proof. unfold is_u64, u64. intros. by apply Z.mod_small. Qed.

Lemma u64_range x : is_u64 (u64 x).
Proof. unfold is_u64, u64. apply Z.mod_pos_bound. lia. Qed.

Lemma add64_small a b : is_u64 (a + b) -> add64 a b = a + b.
Proof. apply u64_small. Qed.

Lemma sub64_small a b : is_u64 (a - b) -> sub64 a b = a - b.
Proof. apply u64_small. Qed.

Lemma mul64_small a b : is_u64 (a * b) -> mul64 a b = a * b.
Proof. apply u64_small. Qed.

Lemma shr64_div a n : 0 <= n -> shr64 a n = a / 2 ^ n.
Proof. intros. unfold shr64. by apply Z.shiftr_div_pow2. Qed.

Lemma shl64_small a n :
  0 <= n < 64 -> is_u64 (a * 2 ^ n) -> shl64 a n = a * 2 ^ n.
Proof.
  intros Hn Hr. unfold shl64. rewrite (proj2 (Z.leb_gt _ _)) by lia.
  rewrite Z.shiftl_mul_pow2 by lia. by apply u64_small.
Qed.

Lemma land_ones_mod a n : 0 <= n -> Z.land a (2 ^ n - 1) = a mod 2 ^ n.
Proof.
  intros. rewrite <- Z.land_ones by lia. f_equal.
  rewrite Z.ones_equiv. lia.
Qed.

Lemma pow2_pos n : 0 < 2 ^ n \/ n < 0.
Proof. destruct (Z_lt_dec n 0); [by right|]. left. apply Z.pow_pos_nonneg; lia. Qed.

Lemma pow2_pos' n : 0 <= n -> 0 < 2 ^ n.
Proof. intros. apply Z.pow_pos_nonneg; lia. Qed.

Lemma pow2_lt_64 n : 0 <= n < 64 -> 0 < 2 ^ n <= 2 ^ 63.
Proof.
  intros. split; [apply pow2_pos'; lia|]. apply Z.pow_le_mono_r; lia.
Qed.

#[export] Hint Resolve u64_range pow2_pos' : u64.

(** * Results and the state-and-error monad

    A Go function that returns [(T, error)] is a [result]; one that also
    mutates the state [W] it is a method of is an [M W T].  As in Go, an error
    does not roll the state back: the effects that happened before it stay. *)

Inductive result (E A : Type) : Type :=
| Ok (a : A)
| Err (e : E).
Arguments Ok {E A} _.
Arguments Err {E A} _.

Definition rbind {E A B} (m : result E A) (k : A -> result E B) : result E B :=
  match m with Ok a => k a | Err e => Err e end.

Definition is_ok {E A} (m : result E A) : bool :=
  match m with Ok _ => true | Err _ => false end.

#[global] Instance result_eq_dec {E A} `{EqDecision E, EqDecision A} :
  EqDecision (result E A).
Proof. solve_decision. Defined.

(** The error classes the program distinguishes.  A wrapper built with
    [fmt.Errorf("...%w")] keeps the class of what it wraps, which is what
    [errors.Is]/[errors.As] see, so the model keeps the class and drops the
    text.  The payload string names the check that failed. *)
Inductive err : Type :=
| EConflict (reason : string)            (* *archive.ConflictError *)
| EMissingBlobs (vhs : list (list Z))    (* ConflictError wrapping MissingBlobsError *)
| ETooLarge (kind : string) (encoded : Z)(* *archive.IndexNodeTooLargeError *)
| EInternal (what : string)              (* "archive: internal: ..." *)
| ENotFound                              (* ipld.ErrNotFound *)
| ECorrupt                               (* *store.CorruptError *)
| EIO                                    (* any other backend failure *)
| ECancelled                             (* ctx.Err() *)
| EUnknownVersion (obj : string) (got : Z)
| EInvalid (what : string)               (* a refused argument or block *)
| EDirty                                 (* core.ErrDirty *)
| EEmpty                                 (* core.ErrEmpty *)
| EValidation (index : Z) (reason : string) (* *ingest.ValidationError *)
| EEpochActive (id : Z)                  (* *store.ErrEpochActive *)
| EEpochEnded                            (* store.ErrEpochEnded *)
| EDiverges.                             (* a loop of the source does not end *)

#[global] Instance err_eq_dec : EqDecision err.
Proof. solve_decision. Defined.

Abbreviation res := (result err).

Definition M (W A : Type) : Type := W -> res A * W.

Definition ret {W A} (a : A) : M W A := fun w => (Ok a, w).
Definition fail {W A} (e : err) : M W A := fun w => (Err e, w).
Definition bind {W A B} (m : M W A) (k : A -> M W B) : M W B :=
  fun w => match m w with
           | (Ok a, w') => k a w'
           | (Err e, w') => (Err e, w')
           end.
Definition lift {W A} (r : res A) : M W A := fun w => (r, w).
Definition gets {W A} (f : W -> A) : M W A := fun w => (Ok (f w), w).
Definition modify {W} (f : W -> W) : M W unit := fun w => (Ok tt, f w).

Declare Scope go_scope.
Delimit Scope go_scope with go.
Notation "x <-- m ;; k" := (bind m (fun x => k))
  (at level 100, m at next level, right associativity) : go_scope.
Notation "'let*' p ':=' m 'in' k" := (bind m (fun x => match x with p => k end))
  (at level 100, p pattern, m at next level, right associativity) : go_scope.
Notation "m ;;; k" := (bind m (fun _ => k))
  (at level 100, right associativity) : go_scope.
Notation "x <-? m ;; k" := (rbind m (fun x => k))
  (at level 100, m at next level, right associativity) : go_scope.
(** The early return [if b { return e }; k]. *)
Notation "'refuse_if' b 'with' e ;; k" := (if b then Err e else k)
  (at level 100, b at next level, e at next level, right associativity) : go_scope.
Notation "'fail_if' b 'with' e ;; k" := (if b then fail e else k)
  (at level 100, b at next level, e at next level, right associativity) : go_scope.
#[global] Open Scope go_scope.

(** [for _, x := range l { if err := f(x); err != nil { return err } }] *)
Fixpoint mfor {W A} (f : A -> M W unit) (l : list A) : M W unit :=
  match l with
  | [] => ret tt
  | x :: l' => f x ;;; mfor f l'
  end.

Fixpoint mmap {W A B} (f : A -> M W B) (l : list A) : M W (list B) :=
  match l with
  | [] => ret []
  | x :: l' => y <-- f x ;; ys <-- mmap f l' ;; ret (y :: ys)
  end.

Fixpoint rmap {A B} (f : A -> res B) (l : list A) : res (list B) :=
  match l with
  | [] => Ok []
  | x :: l' => y <-? f x ;; ys <-? rmap f l' ;; Ok (y :: ys)
  end.

(** [x, err := m] where the caller looks at the error itself. *)
Definition attempt {W A} (m : M W A) : M W (res A) :=
  fun w => let '(r, w') := m w in (Ok r, w').

(** [defer f()] around [m]: the effect runs on every exit. *)
Definition finally {W A} (m : M W A) (f : W -> W) : M W A :=
  fun w => let '(r, w') := m w in (r, f w').

(** Inversion of a run of [bind]: the workhorse of every proof about [M]. *)
Lemma bind_run {W A B} (m : M W A) (k : A -> M W B) w r w' :
  bind m k w = (r, w') ->
  (exists a w1, m w = (Ok a, w1) /\ k a w1 = (r, w')) \/
  (exists e, m w = (Err e, w') /\ r = Err e).
Proof.
  unfold bind. destruct (m w) as [[a|e] w1]; intros H; [left; eauto|right].
  injection H as <- <-. eauto.
Qed.

Lemma bind_run_ok {W A B} (m : M W A) (k : A -> M W B) w b w' :
  bind m k w = (Ok b, w') ->
  exists a w1, m w = (Ok a, w1) /\ k a w1 = (Ok b, w').
Proof. intros [?|(e & _ & He)]%bind_run; [done|discriminate]. Qed.

Lemma bind_eq_ok {W A B} (m : M W A) (k : A -> M W B) w a w1 : m w = (Ok a, w1) -> bind m k w = k a w1.
Proof. unfold bind. by intros ->. Qed.
Lemma bind_eq_err {W A B} (m : M W A) (k : A -> M W B) w e w1 : m w = (Err e, w1) -> bind m k w = (Err e, w1).
Proof. unfold bind. by intros ->. Qed.

Lemma bind_run_attempt {W A B} (m : M W A) (k : res A -> M W B) w r w' :
  bind (attempt m) k w = (r, w') -> exists x w1, m w = (x, w1) /\ k x w1 = (r, w').
Proof. unfold bind, attempt. destruct (m w) as [x w1]. eauto. Qed.

Lemma rbind_ok {E A B} (m : result E A) (k : A -> result E B) b :
  rbind m k = Ok b -> exists a, m = Ok a /\ k a = Ok b.
Proof. destruct m; simpl; [eauto|discriminate]. Qed.

(** ** Runs that stay in a relation

    Every run of [m], however it ends, moves the world within the preorder [R]: the
    frame rules of the development. *)
Section Moves.
Context {W : Type} (R : relation W) `{PR : !PreOrder R}.

Definition moves {A} (m : M W A) : Prop := forall w r w', m w = (r, w') -> R w w'.

Lemma moves_bind {A B} (m : M W A) (k : A -> M W B) :
  moves m -> (forall a, moves (k a)) -> moves (bind m k).
Proof.
  intros Hm Hk w r w' H. apply bind_run in H as [(a & w1 & H1 & H2)|(e & H1 & _)].
  - transitivity w1; [by eapply Hm|by eapply Hk].
  - by eapply Hm.
Qed.

Lemma moves_same {A} (m : M W A) : (forall w, R w (snd (m w))) -> moves m.
Proof. intros Hm w r w' H. specialize (Hm w). by rewrite H in Hm. Qed.

Lemma moves_ret {A} (a : A) : moves (ret a).
Proof. by apply moves_same. Qed.
Lemma moves_fail {A} e : moves (@fail W A e).
Proof. by apply moves_same. Qed.
Lemma moves_lift {A} (x : res A) : moves (lift x).
Proof. by apply moves_same. Qed.
Lemma moves_gets {A} (f : W -> A) : moves (gets f).
Proof. by apply moves_same. Qed.
Lemma moves_modify f : (forall w, R w (f w)) -> moves (modify f).
Proof. intros. by apply moves_same. Qed.

Lemma moves_attempt {A} (m : M W A) : moves m -> moves (attempt m).
Proof.
  intros Hm w r w'. unfold attempt. destruct (m w) as [x w1] eqn:E. intros [= <- <-]. by eapply Hm.
Qed.

Lemma moves_finally {A} (m : M W A) f : moves m -> (forall w, R w (f w)) -> moves (finally m f).
Proof.
  intros Hm Hf w r w'. unfold finally. destruct (m w) as [x w1] eqn:E. intros [= <- <-].
  transitivity w1; [by eapply Hm|done].
Qed.

Lemma moves_mfor {A} (f : A -> M W unit) l : (forall a, moves (f a)) -> moves (mfor f l).
Proof. intros Hf. induction l; simpl; [apply moves_ret|]. apply moves_bind; auto. Qed.
End Moves.

Create HintDb moves.
#[export] Hint Resolve moves_ret moves_fail moves_lift moves_gets moves_attempt moves_finally moves_mfor : moves.
#[export] Hint Extern 1 (PreOrder _) => typeclasses eauto : moves.

(** Walks through binds, branches and matches to the primitive operations, which
    the database [moves] or a hypothesis settles. *)
Ltac moves_tac :=
  repeat (cbv zeta; intros;
    first [ solve [auto with moves nocore]
          | apply moves_bind
          | apply moves_finally
          | case_match ]).

(** * Lists *)

Lemma filter_all {A} (P : A -> Prop) `{!forall x, Decision (P x)} (l : list A) :
  Forall P l -> filter P l = l.
Proof. induction 1 as [|x l Hx _ IH]; [done|]. rewrite filter_cons_True by done. by rewrite IH. Qed.

Lemma filter_none {A} (P : A -> Prop) `{!forall x, Decision (P x)} (l : list A) :
  Forall (fun x => ~ P x) l -> filter P l = [].
Proof. induction 1 as [|x l Hx _ IH]; [done|]. by rewrite filter_cons_False. Qed.

Lemma filter_comp {A} (P Q : A -> Prop) `{!forall x, Decision (P x), !forall x, Decision (Q x)} (l : list A) :
  (forall x, P x -> Q x) -> filter P (filter Q l) = filter P l.
Proof.
  intros HPQ. induction l as [|x l IH]; [done|]. rewrite (filter_cons Q), (filter_cons P).
  destruct (decide (Q x)), (decide (P x)); rewrite ?filter_cons_True, ?filter_cons_False by done;
    rewrite ?IH; try done. exfalso. auto.
Qed.
