(* ===== verification/Arith.v ===== *)
(** The address arithmetic of the head engine: archive/arith.go.

    A slot's route through the directory is computed, never searched.  The
    section [Defs] translates the Go functions over [uint64]; the rest shows
    that, in the range the engine uses them, they compute what the directory's
    geometry needs: windows tile the slots, [pathDigits] is the base-2^fanout
    expansion, [canonicalDepth] is the least depth that holds [n] entries. *)
From S2P Require Import Prelude.

(** ord returns the window of 2^segBits slots that [slot] belongs to. *)
Definition ord (slot segBits : Z) : Z := shr64 slot segBits.

Definition windowStart (w segBits : Z) : Z := shl64 w segBits.

Definition windowEnd (w segBits : Z) : Z := sub64 (shl64 (add64 w 1) segBits) 1.

(** (2^fanoutBits)^d, saturating at MaxUint64. *)
Definition capacity (d fanoutBits : Z) : Z :=
  let bits := mul64 fanoutBits d in
  if negb (fanoutBits =? 0) && negb (bits / fanoutBits =? d) then maxUint64
  else if 64 <=? bits then maxUint64
  else shl64 1 bits.

Definition canonicalDepth (n fanoutBits : Z) : Z :=
  if n =? 0 then 0 else
  let needed := len64 (sub64 n 1) in
  if needed =? 0 then 1 else
  sub64 (add64 needed fanoutBits) 1 / fanoutBits.

(** The page-counting loop.  [None] is a loop that does not end within the
    fuel; [canonicalDirectoryPages_sum] shows it cannot happen for a fanout
    of at least one bit. *)
Fixpoint pagesLoop (fuel : nat) (n fanoutBits depth pages : Z) : option Z :=
  match fuel with
  | O => None
  | S fuel' =>
    let cap := capacity depth fanoutBits in
    let atDepth := if cap <? n then 1 + (n - 1) / cap else 1 in
    if maxUint64 - atDepth <? pages then Some maxUint64 else
    let pages := pages + atDepth in
    if n <=? cap then Some pages
    else pagesLoop fuel' n fanoutBits (depth + 1) pages
  end.

Definition canonicalDirectoryPages (n fanoutBits : Z) : option Z :=
  if n =? 0 then Some 0 else pagesLoop 65 n fanoutBits 1 0.

(** [i] in base 2^fanoutBits, most significant digit first, padded to [depth]
    digits; [None] when it does not fit.  The loop fills the digits from the
    least significant one. *)
Fixpoint digitLoop (level : nat) (fanoutBits rest : Z) (digits : list Z) : list Z * Z :=
  match level with
  | O => (digits, rest)
  | S level' =>
    let mask := sub64 (shl64 1 fanoutBits) 1 in
    digitLoop level' fanoutBits (shr64 rest fanoutBits) (Z.land rest mask :: digits)
  end.

Definition pathDigits (i depth fanoutBits : Z) : option (list Z) :=
  if depth =? 0 then (if i =? 0 then Some [] else None)
  else if 64 <? depth then None
  else let '(digits, rest) := digitLoop (Z.to_nat depth) fanoutBits i [] in
       if rest =? 0 then Some digits else None.

Fixpoint allZero (digits : list Z) : bool :=
  match digits with
  | [] => true
  | d :: ds => if negb (d =? 0) then false else allZero ds
  end.

(** ** Windows *)

(** The head parameters a published head can carry: [New] refuses others. *)
Definition seg_ok (k : Z) : Prop := 0 <= k <= 63.
Definition fan_ok (fb : Z) : Prop := 1 <= fb <= 32.

Lemma ord_div slot k : seg_ok k -> ord slot k = slot / 2 ^ k.
Proof. intros [? _]. by apply shr64_div. Qed.

Lemma ord_u64 slot k : seg_ok k -> is_u64 slot -> is_u64 (ord slot k).
Proof.
  intros Hk [? ?]. rewrite ord_div by done. destruct Hk.
  assert (0 < 2 ^ k) by (apply pow2_pos'; lia).
  split; [apply Z.div_pos; lia|].
  apply Z.div_lt_upper_bound; nia.
Qed.

(** A window whose first slot is a [uint64] has an exact start and end. *)
Lemma windowStart_exact w k :
  seg_ok k -> 0 <= w -> w * 2 ^ k < 2 ^ 64 -> windowStart w k = w * 2 ^ k.
Proof.
  intros [? ?] ? ?. apply shl64_small; [lia|].
  assert (0 < 2 ^ k) by (apply pow2_pos'; lia). split; nia.
Qed.

Lemma windowEnd_exact w k :
  seg_ok k -> 0 <= w -> (w + 1) * 2 ^ k <= 2 ^ 64 ->
  windowEnd w k = (w + 1) * 2 ^ k - 1.
Proof.
  intros [? ?] ? Hle. unfold windowEnd, shl64.
  assert (0 < 2 ^ k) by (apply pow2_pos'; lia).
  rewrite (proj2 (Z.leb_gt _ _)) by lia.
  unfold add64, sub64, u64.
  rewrite Z.shiftl_mul_pow2 by lia.
  rewrite Z.mul_mod_idemp_l by lia.
  rewrite Zminus_mod_idemp_l.
  apply Z.mod_small. nia.
Qed.

Lemma ord_window slot k :
  seg_ok k -> 0 <= slot -> ord slot k * 2 ^ k <= slot < (ord slot k + 1) * 2 ^ k.
Proof.
  intros Hk ?. rewrite ord_div by done. destruct Hk.
  assert (0 < 2 ^ k) by (apply pow2_pos'; lia).
  pose proof (Z.div_mod slot (2 ^ k)). pose proof (Z.mod_pos_bound slot (2 ^ k)). nia.
Qed.

Lemma ord_unique slot w k :
  seg_ok k -> w * 2 ^ k <= slot < (w + 1) * 2 ^ k -> ord slot k = w.
Proof.
  intros Hk ?. rewrite ord_div by done. destruct Hk.
  assert (0 < 2 ^ k) by (apply pow2_pos'; lia).
  symmetry. apply (Z.div_unique _ _ w (slot - w * 2 ^ k)); nia.
Qed.

Lemma ord_mono a b k : seg_ok k -> a <= b -> ord a k <= ord b k.
Proof.
  intros Hk ?. rewrite !ord_div by done. destruct Hk.
  apply Z.div_le_mono; [apply pow2_pos'; lia|lia].
Qed.

(** ** Capacity *)

Lemma capacity_exact (d : nat) fb :
  fan_ok fb -> fb * Z.of_nat d < 64 -> capacity (Z.of_nat d) fb = 2 ^ (fb * Z.of_nat d).
Proof.
  intros [? ?] ?. unfold capacity.
  rewrite mul64_small by (unfold is_u64; nia).
  rewrite (Z.mul_comm fb) at 1. rewrite Z.div_mul by lia. rewrite Z.eqb_refl, andb_false_r.
  rewrite (proj2 (Z.leb_gt _ _)) by nia.
  assert (2 ^ (fb * Z.of_nat d) < 2 ^ 64) by (apply Z.pow_lt_mono_r; nia).
  assert (0 < 2 ^ (fb * Z.of_nat d)) by (apply pow2_pos'; nia).
  rewrite shl64_small; unfold is_u64; nia.
Qed.

Lemma capacity_sat (d : nat) fb :
  fan_ok fb -> (d <= 64)%nat -> 64 <= fb * Z.of_nat d -> capacity (Z.of_nat d) fb = maxUint64.
Proof.
  intros [? ?] ? ?. unfold capacity.
  rewrite mul64_small by (unfold is_u64; nia).
  rewrite (Z.mul_comm fb), Z.div_mul by lia. rewrite Z.eqb_refl, andb_false_r.
  by rewrite (proj2 (Z.leb_le _ _)) by nia.
Qed.

(** Comparing a [uint64] with [capacity] is comparing it with the true
    capacity: what saturation has to get right. *)
Lemma capacity_le (d : nat) fb n :
  fan_ok fb -> (d <= 64)%nat -> is_u64 n ->
  n <= capacity (Z.of_nat d) fb <-> n <= 2 ^ (fb * Z.of_nat d).
Proof.
  intros Hf Hd [? ?]. destruct (Z_lt_dec (fb * Z.of_nat d) 64).
  - by rewrite capacity_exact.
  - rewrite capacity_sat by (done || lia). split; intros; [|unfold maxUint64; lia].
    assert (2 ^ 64 <= 2 ^ (fb * Z.of_nat d)) by (apply Z.pow_le_mono_r; lia). lia.
Qed.

(** ** Digits *)

(** The reference expansion: the most significant digit is the quotient by the
    capacity of a child. *)
Fixpoint digitsOf (fb : Z) (d : nat) (i : Z) : list Z :=
  match d with
  | O => []
  | S d' => i / 2 ^ (fb * Z.of_nat d') :: digitsOf fb d' (i mod 2 ^ (fb * Z.of_nat d'))
  end.

Lemma digitsOf_length fb d i : length (digitsOf fb d i) = d.
Proof. revert i. induction d; intros; simpl; [done|]. by rewrite IHd. Qed.

Definition digits_ok (fb : Z) (d : nat) (i : Z) : Prop := 0 <= i < 2 ^ (fb * Z.of_nat d).

Lemma pow2_succ fb (d : nat) : 0 <= fb -> 2 ^ (fb * Z.of_nat (S d)) = 2 ^ fb * 2 ^ (fb * Z.of_nat d).
Proof. intros. rewrite <- Z.pow_add_r by nia. f_equal. lia. Qed.

Lemma digitsOf_snoc fb d i :
  0 < fb -> digits_ok fb (S d) i ->
  digitsOf fb (S d) i = digitsOf fb d (i / 2 ^ fb) ++ [i mod 2 ^ fb].
Proof.
  intros Hfb. revert i. induction d as [|d IH]; intros i [Hi Hlt].
  { simpl. rewrite Z.mul_0_r, Z.pow_0_r, Z.div_1_r.
    rewrite Z.mod_small; [done|]. rewrite Z.mul_1_r in Hlt. done. }
  set (P := 2 ^ (fb * Z.of_nat d)) in *. set (B := 2 ^ fb) in *.
  assert (0 < P) by (apply pow2_pos'; nia). assert (0 < B) by (apply pow2_pos'; lia).
  assert (HP : 2 ^ (fb * Z.of_nat (S d)) = B * P) by (apply pow2_succ; lia).
  change (digitsOf fb (S (S d)) i) with
    (i / 2 ^ (fb * Z.of_nat (S d)) :: digitsOf fb (S d) (i mod 2 ^ (fb * Z.of_nat (S d)))).
  rewrite IH; [|split; [apply Z.mod_pos_bound; lia|apply Z.mod_pos_bound; lia]].
  change (digitsOf fb (S d) (i / B)) with (i / B / P :: digitsOf fb d ((i / B) mod P)).
  rewrite HP. rewrite <- app_comm_cons.
  f_equal; [by rewrite Z.div_div by lia|].
  f_equal; [f_equal|f_equal].
  - rewrite Z.rem_mul_r by lia. rewrite (Z.add_comm (i mod B)), (Z.mul_comm B).
    rewrite Z.div_add_l by lia. rewrite (Z.div_small (i mod B)) by (apply Z.mod_pos_bound; lia).
    lia.
  - rewrite Z.rem_mul_r by lia.
    rewrite (Z.mul_comm B), Z.mod_add by lia. apply Z.mod_mod. lia.
Qed.

Lemma digitLoop_spec fb d i acc :
  fan_ok fb -> 0 <= i ->
  digitLoop d fb i acc =
    (digitsOf fb d (i mod 2 ^ (fb * Z.of_nat d)) ++ acc, i / 2 ^ (fb * Z.of_nat d)).
Proof.
  intros [? ?]. revert i acc. induction d as [|d IH]; intros i acc Hi.
  { simpl. rewrite Z.mul_0_r, Z.pow_0_r, Z.div_1_r. done. }
  assert (0 < 2 ^ fb) by (apply pow2_pos'; lia).
  assert (0 < 2 ^ (fb * Z.of_nat d)) by (apply pow2_pos'; nia).
  assert (Hm : sub64 (shl64 1 fb) 1 = 2 ^ fb - 1).
  { rewrite shl64_small; unfold is_u64.
    - rewrite sub64_small; [lia|]. unfold is_u64. rewrite Z.mul_1_l.
      assert (2 ^ fb <= 2 ^ 32) by (apply Z.pow_le_mono_r; lia). lia.
    - lia.
    - assert (2 ^ fb <= 2 ^ 32) by (apply Z.pow_le_mono_r; lia). lia. }
  cbn [digitLoop]. rewrite Hm, land_ones_mod, shr64_div by lia.
  rewrite IH by (apply Z.div_pos; lia). f_equal.
  - rewrite (digitsOf_snoc fb d (i mod _)) by (lia || (split; apply Z.mod_pos_bound; apply pow2_pos'; nia)).
    rewrite <- app_assoc. cbn [app]. rewrite pow2_succ by lia.
    rewrite Z.rem_mul_r by lia. f_equal.
    + f_equal. rewrite (Z.add_comm (i mod _)), (Z.mul_comm (2 ^ fb)).
      rewrite Z.div_add_l by lia. rewrite (Z.div_small (i mod _)) by (apply Z.mod_pos_bound; lia).
      lia.
    + f_equal. rewrite (Z.mul_comm (2 ^ fb)), Z.mod_add by lia. symmetry. apply Z.mod_mod. lia.
  - rewrite pow2_succ, Z.div_div by lia. done.
Qed.

(** The depth-[d] digits exist exactly for the indices a depth-[d] directory
    can address, and are the reference expansion. *)
Lemma pathDigits_some i (d : nat) fb :
  fan_ok fb -> (1 <= d <= 64)%nat -> digits_ok fb d i ->
  pathDigits i (Z.of_nat d) fb = Some (digitsOf fb d i).
Proof.
  intros Hf Hd [Hi Hlt]. unfold pathDigits.
  rewrite (proj2 (Z.eqb_neq _ _)) by lia.
  rewrite (proj2 (Z.ltb_ge _ _)) by lia.
  rewrite Nat2Z.id, digitLoop_spec by done.
  rewrite Z.div_small, Z.mod_small by done.
  by rewrite app_nil_r.
Qed.

Lemma pathDigits_none i (d : nat) fb :
  fan_ok fb -> (1 <= d <= 64)%nat -> 2 ^ (fb * Z.of_nat d) <= i ->
  pathDigits i (Z.of_nat d) fb = None.
Proof.
  intros Hf Hd Hi. unfold pathDigits.
  assert (0 < 2 ^ (fb * Z.of_nat d)) by (apply pow2_pos'; destruct Hf; nia).
  rewrite (proj2 (Z.eqb_neq _ _)) by lia.
  rewrite (proj2 (Z.ltb_ge _ _)) by lia.
  rewrite Nat2Z.id, digitLoop_spec by (done || lia).
  assert (0 < i / 2 ^ (fb * Z.of_nat d)) by (apply Z.div_str_pos; lia).
  by rewrite (proj2 (Z.eqb_neq _ _)) by lia.
Qed.

Lemma allZero_digitsOf fb d i :
  0 < fb -> digits_ok fb d i -> allZero (digitsOf fb d i) = (i =? 0).
Proof.
  intros Hfb. revert i. induction d as [|d IH]; intros i [Hi Hlt].
  { rewrite Z.mul_0_r in Hlt. assert (i = 0) as -> by (change (2 ^ 0) with 1 in Hlt; lia). done. }
  set (P := 2 ^ (fb * Z.of_nat d)) in *.
  assert (0 < P) by (apply pow2_pos'; nia).
  cbn [digitsOf allZero]. fold P.
  pose proof (Z.div_mod i P ltac:(lia)) as Hdm.
  pose proof (Z.mod_pos_bound i P ltac:(lia)) as Hb.
  rewrite IH by done.
  destruct (Z.eqb_spec (i / P) 0) as [Hq|Hne]; simpl.
  - rewrite Hq, Z.mul_0_r in Hdm. destruct (Z.eqb_spec (i mod P) 0), (Z.eqb_spec i 0); (done || lia).
  - symmetry. apply Z.eqb_neq. intros ->. rewrite Z.div_0_l in Hne; lia.
Qed.

(** ** Depth *)

Lemma len64_le x b : 0 <= x -> 0 <= b -> len64 x <= b <-> x < 2 ^ b.
Proof.
  intros Hx Hb. unfold len64. destruct (Z.eqb_spec x 0) as [->|].
  - split; intros; [apply pow2_pos'; lia|lia].
  - rewrite (Z.log2_lt_pow2 x b) by lia. lia.
Qed.

Lemma len64_bound n : 0 < n < 2 ^ 64 -> 0 <= len64 (n - 1) <= 64.
Proof.
  intros. split; [|apply len64_le; lia].
  unfold len64. case_match; [lia|]. pose proof (Z.log2_nonneg (n - 1)). lia.
Qed.

Lemma canonicalDepth_le n (d : nat) fb :
  fan_ok fb -> is_u64 n -> (1 <= d)%nat ->
  canonicalDepth n fb <= Z.of_nat d <-> n <= 2 ^ (fb * Z.of_nat d).
Proof.
  intros [? ?] [? ?] ?. unfold canonicalDepth.
  assert (0 < 2 ^ (fb * Z.of_nat d)) by (apply pow2_pos'; nia).
  destruct (Z.eqb_spec n 0); [lia|].
  rewrite sub64_small by (unfold is_u64; lia).
  pose proof (len64_bound n ltac:(lia)) as Hl.
  destruct (Z.eqb_spec (len64 (n - 1)) 0) as [Hz|].
  { assert (n - 1 < 2 ^ 0) by (apply len64_le; lia). change (2 ^ 0) with 1 in *. lia. }
  rewrite add64_small by (unfold is_u64; lia). rewrite sub64_small by (unfold is_u64; lia).
  transitivity (len64 (n - 1) <= fb * Z.of_nat d).
  - split; intros Hle.
    + pose proof (Z.mul_div_le (len64 (n - 1) + fb - 1) fb ltac:(lia)).
      pose proof (Z.mod_pos_bound (len64 (n - 1) + fb - 1) fb ltac:(lia)).
      pose proof (Z.div_mod (len64 (n - 1) + fb - 1) fb ltac:(lia)). nia.
    + apply Z.lt_succ_r. apply Z.div_lt_upper_bound; nia.
  - rewrite len64_le by nia. lia.
Qed.

Lemma canonicalDepth_pos n fb : fan_ok fb -> is_u64 n -> 0 < n -> 1 <= canonicalDepth n fb <= 64.
Proof.
  intros Hf Hn Hp. split.
  - unfold canonicalDepth. cbv zeta. rewrite (proj2 (Z.eqb_neq n 0)) by lia.
    destruct (Z.eqb_spec (len64 (sub64 n 1)) 0); [lia|]. destruct Hf, Hn.
    rewrite (sub64_small n 1) in * by (unfold is_u64; lia).
    pose proof (len64_bound n ltac:(lia)) as Hl.
    rewrite add64_small by (unfold is_u64; lia). rewrite sub64_small by (unfold is_u64; lia).
    apply Z.div_le_lower_bound; lia.
  - change 64 with (Z.of_nat 64). apply canonicalDepth_le; [done..|lia|].
    destruct Hf, Hn. transitivity (2 ^ 64); [lia|]. apply Z.pow_le_mono_r; lia.
Qed.

(** ** Logical pages *)

(** The pages of one level: ceil(n / capacity). *)
Definition pagesAt (n fb : Z) (d : nat) : Z := (n - 1) / 2 ^ (fb * Z.of_nat d) + 1.

(** The pages of levels [d], [d+1], ..., [d+len-1]. *)
Fixpoint pagesSum (n fb : Z) (d len : nat) : Z :=
  match len with
  | O => 0
  | S len' => pagesAt n fb d + pagesSum n fb (S d) len'
  end.

Lemma pagesAt_step n fb (d : nat) :
  fan_ok fb -> is_u64 n -> 0 < n -> (d <= 64)%nat ->
  (if capacity (Z.of_nat d) fb <? n then 1 + (n - 1) / capacity (Z.of_nat d) fb else 1)
  = pagesAt n fb d.
Proof.
  intros Hf Hn Hp Hd. unfold pagesAt.
  pose proof (capacity_le d fb n Hf Hd Hn) as Hc.
  destruct (Z.ltb_spec (capacity (Z.of_nat d) fb) n) as [Hlt|Hge].
  - destruct (Z_lt_dec (fb * Z.of_nat d) 64).
    + rewrite capacity_exact by done. lia.
    + rewrite capacity_sat in Hlt by (done || lia). destruct Hn. unfold maxUint64 in Hlt. lia.
  - rewrite Z.div_small; [lia|]. apply Hc in Hge. lia.
Qed.

Lemma pagesAt_bound n fb d : fan_ok fb -> 0 < n -> 1 <= pagesAt n fb d <= n.
Proof.
  intros [? ?] ?. unfold pagesAt.
  assert (0 < 2 ^ (fb * Z.of_nat d)) by (apply pow2_pos'; nia).
  split; [pose proof (Z.div_pos (n - 1) (2 ^ (fb * Z.of_nat d))); lia|].
  assert ((n - 1) / 2 ^ (fb * Z.of_nat d) <= n - 1); [|lia].
  apply Z.div_le_upper_bound; nia.
Qed.

(** The loop, started at depth [d] with [pages] counted, adds the pages of the
    remaining [len] levels, where [d + len] is one past the canonical depth. *)
Lemma pagesLoop_sum fuel n fb (d len : nat) pages :
  fan_ok fb -> 0 < n -> n * 64 < 2 ^ 64 -> (1 <= d)%nat ->
  Z.of_nat (d + len) = canonicalDepth n fb -> (len < fuel)%nat -> 0 <= pages ->
  pages + n * Z.of_nat (S len) < 2 ^ 64 ->
  pagesLoop fuel n fb (Z.of_nat d) pages = Some (pages + pagesSum n fb d (S len)).
Proof.
  intros Hf Hn Hbig. assert (Hu : is_u64 n) by (unfold is_u64; lia).
  pose proof (canonicalDepth_pos n fb Hf Hu Hn).
  revert fuel d pages. induction len as [|len IH]; intros fuel d pages Hd Hcd Hfu Hp Hb;
    (destruct fuel as [|fuel]; [lia|]); cbn [pagesLoop];
    rewrite pagesAt_step by (done || lia);
    pose proof (pagesAt_bound n fb d Hf Hn);
    rewrite (proj2 (Z.ltb_ge _ _)) by (unfold maxUint64; nia).
  - rewrite (proj2 (Z.leb_le _ _)).
    + simpl. f_equal. lia.
    + apply capacity_le; [done|lia|done|]. apply canonicalDepth_le; [done..|lia].
  - rewrite (proj2 (Z.leb_gt _ _)).
    + replace (Z.of_nat d + 1) with (Z.of_nat (S d)) by lia.
      rewrite IH by (lia || nia). simpl. f_equal. lia.
    + apply Z.nle_gt. rewrite (capacity_le d fb n) by (done || lia).
      rewrite <- canonicalDepth_le by (done || lia). lia.
Qed.

(** Every head the engine can build has at most 2^20 sealed windows
    (MaxEnumerationOutputs), far below the bound here. *)
Lemma canonicalDirectoryPages_sum n fb :
  fan_ok fb -> 0 < n -> n * 64 < 2 ^ 64 ->
  canonicalDirectoryPages n fb = Some (pagesSum n fb 1 (Z.to_nat (canonicalDepth n fb))).
Proof.
  intros Hf Hn Hb. unfold canonicalDirectoryPages.
  rewrite (proj2 (Z.eqb_neq _ _)) by lia.
  assert (Hu : is_u64 n) by (unfold is_u64; lia).
  pose proof (canonicalDepth_pos n fb Hf Hu Hn).
  destruct (Z.to_nat (canonicalDepth n fb)) as [|len] eqn:E; [lia|].
  change 1 with (Z.of_nat 1) at 1.
  rewrite (pagesLoop_sum 65 n fb 1 len 0) by (done || lia || nia). f_equal.
Qed.
