(* ===== verification/Cid.v ===== *)
(** CIDs, the IPLD data model and the interfaces of the third-party code the
    program stands on.

    Nothing here is code of the repository: go-cid/go-multihash, the DAG-CBOR
    codec of go-ipld-prime and the boxo blockstore are parameters, given as
    classes whose laws state what the program relies on:
    - [Multihash]: [cid.Prefix.Sum] and the collision freedom of sha2-256, on
      an abstract type of digests (an idealised hash, as usual for
      content-addressed data: an injective function into 32 bytes does not
      exist, one into an abstract type does);
    - [DagCbor]: decoding an encoding gives the same node with its map entries
      in canonical (RFC 7049) order;
    - [Blockstore]: a validating block store whose operations may fail. *)
From Stdlib Require Import Ascii.
From Stdlib Require Strings.Byte.
From S2P Require Import Prelude.

Abbreviation byte := Byte.byte.
Abbreviation bytes := (list byte).

#[global] Instance byte_eq_dec : EqDecision byte := Byte.byte_eq_dec.
#[global] Program Instance byte_countable : Countable byte :=
  inj_countable Byte.to_N (fun n => Byte.of_N n) _.
Next Obligation. intros x. apply Byte.of_to_N. Qed.

(** ** CIDs *)

Record MhDigest (D : Type) : Type := mkMh { mhType : Z; mhLength : Z; mhDigest : D }.
Arguments mkMh {D}. Arguments mhType {D}. Arguments mhLength {D}. Arguments mhDigest {D}.

(** A defined CID; [cid.Undef] is [None] of the type [Cid] below. *)
Record CidOf (D : Type) : Type := mkCid { cidVersion : Z; cidCodec : Z; cidHash : MhDigest D }.
Arguments mkCid {D}. Arguments cidVersion {D}. Arguments cidCodec {D}. Arguments cidHash {D}.

#[global] Instance mh_eq_dec {D} `{EqDecision D} : EqDecision (MhDigest D).
Proof. solve_decision. Defined.
#[global] Instance cid_eq_dec {D} `{EqDecision D} : EqDecision (CidOf D).
Proof. solve_decision. Defined.
#[global] Program Instance mh_countable {D} `{Countable D} : Countable (MhDigest D) :=
  inj_countable' (fun m => (mhType m, mhLength m, mhDigest m))
                 (fun '(a, b, c) => mkMh a b c) _.
Next Obligation. by intros D ? ? []. Qed.
#[global] Program Instance cid_countable {D} `{Countable D} : Countable (CidOf D) :=
  inj_countable' (fun c => (cidVersion c, cidCodec c, cidHash c))
                 (fun '(a, b, c) => mkCid a b c) _.
Next Obligation. by intros D ? ? []. Qed.

Record Prefix : Type := mkPrefix
  { pVersion : Z; pCodec : Z; pMhType : Z; pMhLength : Z }.

Definition cid_Raw : Z := 0x55.
Definition cid_DagCBOR : Z := 0x71.
Definition SHA2_256 : Z := 0x12.

Definition cid_prefix {D} (c : CidOf D) : Prefix :=
  mkPrefix (cidVersion c) (cidCodec c) (mhType (cidHash c)) (mhLength (cidHash c)).

Class Multihash : Type := {
  Digest : Type;
  #[global] Digest_eq_dec :: EqDecision Digest;
  #[global] Digest_countable :: Countable Digest;
  sha256 : bytes -> Digest;
  (** [cid.Prefix.Sum]; [None] is its error. *)
  prefix_sum : Prefix -> bytes -> option (CidOf Digest);
  sha256_inj : forall a b, sha256 a = sha256 b -> a = b;
  (** Collision freedom: one multihash, one content.  The CIDs the program computes are all
      sha2-256; of the other prefixes a CID in a fetched block may name, some of them with
      short digests, this is an idealization. *)
  prefix_sum_inj : forall p q a b c c',
    prefix_sum p a = Some c -> prefix_sum q b = Some c' -> cidHash c = cidHash c' -> a = b;
  prefix_sum_sha256 : forall codec len data,
    len = -1 \/ len = 32 ->
    prefix_sum (mkPrefix 1 codec SHA2_256 len) data
    = Some (mkCid 1 codec (mkMh SHA2_256 32 (sha256 data)))
}.

Abbreviation CidV := (CidOf Digest).
Abbreviation Cid := (option (CidOf Digest)).

Section Cids.
Context `{MH : Multihash}.

Definition Undef : Cid := None.
Definition Defined (c : Cid) : bool := match c with Some _ => true | None => false end.

(** [c] is the address of [data] under its own prefix. *)
Definition addresses (c : CidV) (data : bytes) : Prop :=
  prefix_sum (cid_prefix c) data = Some c.

(** The two prefixes of the DAG: CIDv1 sha2-256/32, raw or dag-cbor. *)
Definition v1sha (codec : Z) (c : CidV) : Prop :=
  cidVersion c = 1 /\ cidCodec c = codec /\
  mhType (cidHash c) = SHA2_256 /\ mhLength (cidHash c) = 32.

Lemma addresses_v1sha codec c data :
  v1sha codec c ->
  addresses c data <-> c = mkCid 1 codec (mkMh SHA2_256 32 (sha256 data)).
Proof.
  intros (Hv & Hc & Ht & Hl). unfold addresses, cid_prefix.
  rewrite Hv, Hc, Ht, Hl, prefix_sum_sha256 by auto. split; congruence.
Qed.

(** Two blocks with one sha2-256 address are one block. *)
Lemma addresses_inj codec c a b :
  v1sha codec c -> addresses c a -> addresses c b -> a = b.
Proof.
  intros Hc Ha Hb. apply (addresses_v1sha codec) in Ha; [|done].
  apply (addresses_v1sha codec) in Hb; [|done].
  apply sha256_inj. congruence.
Qed.

Lemma v1sha_sum codec len data c :
  len = -1 \/ len = 32 -> prefix_sum (mkPrefix 1 codec SHA2_256 len) data = Some c ->
  v1sha codec c /\ addresses c data.
Proof.
  intros Hl. rewrite prefix_sum_sha256 by done. intros [= <-].
  split; [done|]. unfold addresses, cid_prefix. simpl. by rewrite prefix_sum_sha256 by auto.
Qed.
End Cids.

(** ** The IPLD data model (datamodel.Node) *)

Set Warnings "-register-all".
Section Nodes.
Context `{MH : Multihash}.

Inductive Node : Type :=
| NNull
| NBool (b : bool)
| NInt (z : Z)
| NFloat (bits : Z)
| NString (s : string)
| NBytes (b : bytes)
| NList (l : list Node)
| NMap (l : list (string * Node))
| NLink (c : CidV).

(** RFC 7049 canonical key order: shorter keys first, then bytewise. *)
Fixpoint string_ltb (a b : string) : bool :=
  match a, b with
  | EmptyString, EmptyString => false
  | EmptyString, String _ _ => true
  | String _ _, EmptyString => false
  | String x a', String y b' =>
    if (N_of_ascii x <? N_of_ascii y)%N then true
    else if (N_of_ascii y <? N_of_ascii x)%N then false
    else string_ltb a' b'
  end.

Definition key_ltb (a b : string) : bool :=
  if (String.length a <? String.length b)%nat then true
  else if (String.length b <? String.length a)%nat then false
  else string_ltb a b.

Fixpoint insert_entry {A} (e : string * A) (l : list (string * A)) : list (string * A) :=
  match l with
  | [] => [e]
  | e' :: l' => if key_ltb (fst e') (fst e) then e' :: insert_entry e l' else e :: l
  end.

Definition sort_entries {A} (l : list (string * A)) : list (string * A) :=
  fold_right insert_entry [] l.

(** The node a canonical encoding stands for. *)
Fixpoint node_canon (n : Node) : Node :=
  match n with
  | NList l => NList (map node_canon l)
  | NMap l => NMap (sort_entries (map (fun '(k, v) => (k, node_canon v)) l))
  | _ => n
  end.

(** The nodes every DAG-CBOR encoder accepts: integers of the data model
    (int64), maps without duplicate keys, no floats needed. *)
Fixpoint node_ok (n : Node) : Prop :=
  match n with
  | NInt z => - 2 ^ 63 <= z < 2 ^ 63
  | NFloat _ => False
  | NList l => fold_right (fun n P => node_ok n /\ P) True l
  | NMap l => NoDup (map fst l) /\ fold_right (fun '(_, n) P => node_ok n /\ P) True l
  | _ => True
  end.

Lemma node_ok_list l : node_ok (NList l) <-> Forall node_ok l.
Proof.
  induction l as [|n l IH]; simpl.
  - split; [constructor|done].
  - rewrite Forall_cons_iff. simpl in IH. by rewrite IH.
Qed.
End Nodes.

Class DagCbor `{Multihash} : Type := {
  cbor_encode : Node -> option bytes;
  cbor_decode : bytes -> option Node;
  cbor_roundtrip : forall n, node_ok n ->
    exists b, cbor_encode n = Some b /\ cbor_decode b = Some (node_canon n)
}.

(** ** The blockstore *)

(** The operations the head engine uses.  [bs_ctx] is [ctx.Err()]: the caller's
    context can be cancelled at any point. *)
Class Blockstore `{Multihash} (S : Type) : Type := {
  bs_get : Cid -> M S bytes;
  bs_put : CidV -> bytes -> M S unit;
  bs_ctx : M S unit
}.

(** What the engine relies on: a block that is read hashes to the CID it was
    requested under (the validating store), a stored block stays stored, and a
    successful put stores.  [bs_live] are the states in which the backend does
    not fail. *)
Class BlockstoreOk `{MH : Multihash} (S : Type) `{!Blockstore S} : Type := {
  bs_has : S -> CidV -> bytes -> Prop;
  bs_live : S -> Prop;
  get_sound : forall c s d s', bs_get c s = (Ok d, s') ->
    exists v, c = Some v /\ addresses v d /\ bs_has s' v d;
  get_frame : forall c s r s', bs_get c s = (r, s') ->
    (forall v d, bs_has s v d -> bs_has s' v d) /\ (bs_live s -> bs_live s');
  put_frame : forall c x s r s', bs_put c x s = (r, s') -> addresses c x ->
    (forall v d, bs_has s v d -> bs_has s' v d) /\ (bs_live s -> bs_live s');
  ctx_frame : forall s r s', bs_ctx s = (r, s') ->
    (forall v d, bs_has s v d -> bs_has s' v d) /\ (bs_live s -> bs_live s');
  put_has : forall c x s s', bs_put c x s = (Ok tt, s') -> addresses c x -> bs_has s' c x;
  get_live : forall v d s, bs_live s -> bs_has s v d -> fst (bs_get (Some v) s) = Ok d;
  put_live : forall c x s, bs_live s -> addresses c x -> fst (bs_put c x s) = Ok tt;
  ctx_live : forall s, bs_live s -> fst (bs_ctx s) = Ok tt;
  (** The errors of the backend are its own: absence, corruption, I/O, or the
      caller's cancellation. *)
  get_err : forall c s e s', bs_get c s = (Err e, s') ->
    e = ENotFound \/ e = ECorrupt \/ e = EIO \/ e = ECancelled;
  put_err : forall c x s e s', bs_put c x s = (Err e, s') -> e = EIO \/ e = ECancelled;
  ctx_err : forall s e s', bs_ctx s = (Err e, s') -> e = ECancelled
}.
