(* ===== verification/Schema.v ===== *)
(** The wire types of the archive DAG and their canonical encoding:
    schema/schema.go, schema/cid.go, schema/encode.go, schema/decode.go.

    The codec is modelled at the level of the IPLD data model: an encoder
    builds the [Node] it hands to DAG-CBOR, a decoder reads the [Node] DAG-CBOR
    returns.  The theorems: decoding inverts encoding, a decoder only returns
    objects their [Validate] accepts, and a CID determines the object. *)
From Stdlib Require Import Ascii.
From Stdlib Require Strings.Byte.
From S2P Require Import Prelude Cid.

Definition BlobSize : Z := 131072.
Definition VersionedHashSize : nat := 32.
Definition MaxBlobsPerSlotCeiling : Z := 128.
Definition SchemaVersion : Z := 1.

(** [len(x)] of a slice or string, as Go's [int]. *)
Definition len {A} (l : list A) : Z := Z.of_nat (length l).

(** [VersionedHash] is the Go array type [32]byte: a byte list of that length. *)
Record VersionedHash : Type := mkVH
  { vh_bytes : bytes; vh_len : Nat.eqb (length vh_bytes) VersionedHashSize = true }.

Lemma vh_eq a b : vh_bytes a = vh_bytes b -> a = b.
Proof.
  destruct a as [x Hx], b as [y Hy]. simpl. intros ->. f_equal. apply eq_pi, _.
Qed.
#[global] Instance VersionedHash_eq_dec : EqDecision VersionedHash.
Proof.
  intros a b. destruct (decide (vh_bytes a = vh_bytes b)) as [H|H].
  - left. by apply vh_eq.
  - right. by intros ->.
Defined.

(** The head-name grammar [a-z0-9][a-z0-9-]*. *)
Definition lower_alnum (c : ascii) : bool :=
  let n := N_of_ascii c in
  ((97 <=? n) && (n <=? 122) || (48 <=? n) && (n <=? 57))%N%bool.
Definition name_char (c : ascii) : bool := lower_alnum c || Ascii.eqb c "-"%char.

Fixpoint all_chars (p : ascii -> bool) (s : string) : bool :=
  match s with EmptyString => true | String c s' => p c && all_chars p s' end.

Definition headNameRE (s : string) : bool :=
  match s with EmptyString => false | String c s' => lower_alnum c && all_chars name_char s' end.

Definition ValidateHeadName (name : string) : res unit :=
  if negb (headNameRE name) then Err (EInvalid "head name") else Ok tt.

Section Schema.
Context `{MH : Multihash}.

(** schema.Head, the root object of one head. *)
Record Head : Type := mkHead {
  Name : string; Net : string; OriginSlot : Z; SyncedTo : option Z;
  SegBits : Z; FanoutBits : Z; DirDepth : Z; Dir : Cid; Open : Cid }.

Record RefEntry : Type := mkRef { VH : VersionedHash; Blob : Cid }.
Record Row : Type := mkRow { Slot : Z; Entries : list RefEntry }.
Record Segment : Type := mkSegment { Slot0 : Z; Rows : list Row }.
Record DirNode : Type := mkDirNode { Kids : list Cid }.

#[global] Instance RefEntry_eq_dec : EqDecision RefEntry.
Proof. solve_decision. Defined.
#[global] Instance Row_eq_dec : EqDecision Row.
Proof. solve_decision. Defined.

(** ** Validation *)

Definition Head_Validate (h : Head) : res unit :=
  _ <-? ValidateHeadName (Name h) ;;
  refuse_if Bool.eqb (DirDepth h =? 0) (Defined (Dir h)) with EInvalid "dir iff dir_depth" ;;
  match SyncedTo h with
  | Some s => if s <? OriginSlot h then Err (EInvalid "synced_to precedes origin_slot") else Ok tt
  | None => Ok tt
  end.

Fixpoint validateEntries (es : list RefEntry) : res unit :=
  match es with
  | [] => Ok tt
  | e :: es' => if negb (Defined (Blob e)) then Err (EInvalid "undefined blob link")
                else validateEntries es'
  end.

(** The loop over rows; [prev] is the slot of the row before, if any. *)
Fixpoint validateRows (slot0 : Z) (prev : option Z) (rows : list Row) : res unit :=
  match rows with
  | [] => Ok tt
  | r :: rows' =>
    refuse_if match prev with Some p => Slot r <=? p | None => false end
      with EInvalid "rows not strictly ascending" ;;
    refuse_if Slot r <? slot0 with EInvalid "row before the window start" ;;
    refuse_if len (Entries r) =? 0 with EInvalid "row has no entries" ;;
    refuse_if MaxBlobsPerSlotCeiling <? len (Entries r) with EInvalid "row above the blob ceiling" ;;
    _ <-? validateEntries (Entries r) ;;
    validateRows slot0 (Some (Slot r)) rows'
  end.

Definition Segment_Validate (s : Segment) : res unit := validateRows (Slot0 s) None (Rows s).

Definition DirNode_Validate (d : DirNode) : res unit := Ok tt.

(** ** CIDs *)

Definition blobPrefix : Prefix := mkPrefix 1 cid_Raw SHA2_256 (-1).
Definition nodePrefix : Prefix := mkPrefix 1 cid_DagCBOR SHA2_256 (-1).

Definition sumWith (p : Prefix) (data : bytes) : res Cid :=
  match prefix_sum p data with Some c => Ok (Some c) | None => Err (EInvalid "hashing") end.

Definition BlobCID (data : bytes) : res Cid :=
  refuse_if negb (len data =? BlobSize) with EInvalid "blob size" ;;
  sumWith blobPrefix data.

Definition NodeCID (block : bytes) : res Cid := sumWith nodePrefix block.

(** ** Encoding *)

Context `{CB : !DagCbor}.

Definition encodeNode (n : Node) : res (bytes * Cid) :=
  match cbor_encode n with
  | None => Err (EInvalid "encoding dag-cbor")
  | Some block => c <-? NodeCID block ;; Ok (block, c)
  end.

Definition checkCBORInt (v : Z) : res unit :=
  if maxInt64 <? v then Err (EInvalid "exceeds the maximum DAG-CBOR integer") else Ok tt.

Definition nullableInt (v : option Z) : Node :=
  match v with None => NNull | Some z => NInt z end.

Definition nullableLink (c : Cid) : Node :=
  match c with None => NNull | Some c => NLink c end.

Definition head_node (h : Head) : Node :=
  NMap [("v", NInt SchemaVersion); ("name", NString (Name h)); ("net", NString (Net h));
        ("origin_slot", NInt (OriginSlot h)); ("synced_to", nullableInt (SyncedTo h));
        ("seg_bits", NInt (SegBits h)); ("fanout_bits", NInt (FanoutBits h));
        ("dir_depth", NInt (DirDepth h)); ("dir", nullableLink (Dir h));
        ("open", nullableLink (Open h))]%string.

Definition EncodeHead (h : Head) : res (bytes * Cid) :=
  _ <-? Head_Validate h ;;
  _ <-? checkCBORInt (OriginSlot h) ;;
  _ <-? checkCBORInt (SegBits h) ;;
  _ <-? checkCBORInt (FanoutBits h) ;;
  _ <-? checkCBORInt (DirDepth h) ;;
  _ <-? match SyncedTo h with Some s => checkCBORInt s | None => Ok tt end ;;
  encodeNode (head_node h).

(** qp.Link of an undefined CID does not arise: [Segment_Validate] refused it. *)
Definition entry_node (e : RefEntry) : Node :=
  NList [NBytes (vh_bytes (VH e)); nullableLink (Blob e)].

Definition row_node (r : Row) : Node :=
  NList [NInt (Slot r); NList (map entry_node (Entries r))].

Definition segment_node (s : Segment) : Node :=
  NMap [("v", NInt SchemaVersion); ("slot0", NInt (Slot0 s));
        ("rows", NList (map row_node (Rows s)))]%string.

Fixpoint checkSlots (rows : list Row) : res unit :=
  match rows with
  | [] => Ok tt
  | r :: rows' => _ <-? checkCBORInt (Slot r) ;; checkSlots rows'
  end.

Definition EncodeSegment (s : Segment) : res (bytes * Cid) :=
  _ <-? Segment_Validate s ;;
  _ <-? checkCBORInt (Slot0 s) ;;
  _ <-? checkSlots (Rows s) ;;
  encodeNode (segment_node s).

(** [n := len(kids); for n > 0 && !kids[n-1].Defined() { n-- }; kids[:n]] *)
Fixpoint trimTrailingNulls (kids : list Cid) : list Cid :=
  match kids with
  | [] => []
  | k :: kids' =>
    match trimTrailingNulls kids' with
    | [] => if Defined k then [k] else []
    | t => k :: t
    end
  end.

Definition dirnode_node (kids : list Cid) : Node :=
  NMap [("v", NInt SchemaVersion); ("kids", NList (map nullableLink kids))]%string.

Definition EncodeDirNode (d : DirNode) : res (bytes * Cid) :=
  _ <-? DirNode_Validate d ;;
  encodeNode (dirnode_node (trimTrailingNulls (Kids d))).

(** ** Decoding *)

Definition decodeNode (block : bytes) : res Node :=
  match cbor_decode block with Some n => Ok n | None => Err (EInvalid "decoding dag-cbor") end.

Definition headKeys : list string :=
  ["v"; "name"; "net"; "origin_slot"; "synced_to"; "seg_bits"; "fanout_bits"; "dir_depth"; "dir"; "open"]%string.
Definition segmentKeys : list string := ["v"; "slot0"; "rows"]%string.
Definition dirNodeKeys : list string := ["v"; "kids"]%string.

Definition contains (l : list string) (k : string) : bool := existsb (String.eqb k) l.

(** The Go map [fields]: an association list, the last binding of a key
    first. *)
Fixpoint lookupField (fields : list (string * Node)) (k : string) : option Node :=
  match fields with
  | [] => None
  | (k', v) :: fields' => if String.eqb k k' then Some v else lookupField fields' k
  end.

Fixpoint collectFields (want : list string) (l fields : list (string * Node))
  : res (list (string * Node)) :=
  match l with
  | [] => Ok fields
  | (k, v) :: l' =>
    if negb (contains want k) then Err (EInvalid "unknown field")
    else collectFields want l' ((k, v) :: fields)
  end.

Fixpoint requireFields (want : list string) (fields : list (string * Node)) : res unit :=
  match want with
  | [] => Ok tt
  | k :: want' => match lookupField fields k with
                  | None => Err (EInvalid "missing field")
                  | Some _ => requireFields want' fields
                  end
  end.

Definition mapFields (n : Node) (want : list string) : res (list (string * Node)) :=
  match n with
  | NMap l => fields <-? collectFields want l [] ;;
              _ <-? requireFields want fields ;; Ok fields
  | _ => Err (EInvalid "must be a map")
  end.

(** A key [mapFields] has checked to be present. *)
Definition field (fields : list (string * Node)) (k : string) : Node :=
  default NNull (lookupField fields k).

Definition AsInt (n : Node) : res Z :=
  match n with NInt z => Ok z | _ => Err (EInvalid "must be an integer") end.

Definition checkVersion (obj : string) (n : Node) : res unit :=
  v <-? AsInt n ;;
  if negb (v =? SchemaVersion) then Err (EUnknownVersion obj v) else Ok tt.

Definition fieldString (n : Node) : res string :=
  match n with NString s => Ok s | _ => Err (EInvalid "must be a string") end.

Definition fieldUint (n : Node) : res Z :=
  i <-? AsInt n ;;
  if i <? 0 then Err (EInvalid "must not be negative") else Ok i.

Definition fieldNullableUint (n : Node) : res (option Z) :=
  match n with NNull => Ok None | _ => v <-? fieldUint n ;; Ok (Some v) end.

Definition fieldLink (n : Node) : res Cid :=
  match n with NLink c => Ok (Some c) | _ => Err (EInvalid "must be a link") end.

Definition fieldNullableLink (n : Node) : res Cid :=
  match n with NNull => Ok None | _ => fieldLink n end.

Definition DecodeHead (block : bytes) : res Head :=
  n <-? decodeNode block ;;
  fields <-? mapFields n headKeys ;;
  _ <-? checkVersion "head" (field fields "v") ;;
  name <-? fieldString (field fields "name") ;;
  net <-? fieldString (field fields "net") ;;
  origin <-? fieldUint (field fields "origin_slot") ;;
  synced <-? fieldNullableUint (field fields "synced_to") ;;
  segBits <-? fieldUint (field fields "seg_bits") ;;
  fanoutBits <-? fieldUint (field fields "fanout_bits") ;;
  dirDepth <-? fieldUint (field fields "dir_depth") ;;
  dir <-? fieldNullableLink (field fields "dir") ;;
  open <-? fieldNullableLink (field fields "open") ;;
  let h := mkHead name net origin synced segBits fanoutBits dirDepth dir open in
  _ <-? Head_Validate h ;;
  Ok h.

Definition decodeRefEntry (n : Node) : res RefEntry :=
  match n with
  | NList l =>
    match l with
    | [vhNode; blobNode] =>
      match vhNode with
      | NBytes b =>
        match Sumbool.sumbool_of_bool (Nat.eqb (length b) VersionedHashSize) with
        | left H => blob <-? fieldLink blobNode ;; Ok (mkRef (mkVH b H) blob)
        | right _ => Err (EInvalid "vh must be 32 bytes")
        end
      | _ => Err (EInvalid "vh must be a byte string")
      end
    | _ => Err (EInvalid "must have exactly 2 elements")
    end
  | _ => Err (EInvalid "must be a list")
  end.

Definition decodeRow (n : Node) : res Row :=
  match n with
  | NList l =>
    match l with
    | [slotNode; entriesNode] =>
      slot <-? fieldUint slotNode ;;
      match entriesNode with
      | NList es => entries <-? rmap decodeRefEntry es ;; Ok (mkRow slot entries)
      | _ => Err (EInvalid "entries must be a list")
      end
    | _ => Err (EInvalid "must have exactly 2 elements")
    end
  | _ => Err (EInvalid "must be a list")
  end.

Definition DecodeSegment (block : bytes) : res Segment :=
  n <-? decodeNode block ;;
  fields <-? mapFields n segmentKeys ;;
  _ <-? checkVersion "segment" (field fields "v") ;;
  slot0 <-? fieldUint (field fields "slot0") ;;
  match field fields "rows" with
  | NList rowNodes =>
    rows <-? rmap decodeRow rowNodes ;;
    let s := mkSegment slot0 rows in
    _ <-? Segment_Validate s ;;
    Ok s
  | _ => Err (EInvalid "rows must be a list")
  end.

Definition DecodeDirNode (block : bytes) : res DirNode :=
  n <-? decodeNode block ;;
  fields <-? mapFields n dirNodeKeys ;;
  _ <-? checkVersion "dirnode" (field fields "v") ;;
  match field fields "kids" with
  | NList kidNodes =>
    kids <-? rmap fieldNullableLink kidNodes ;;
    let d := mkDirNode (trimTrailingNulls kids) in
    _ <-? DirNode_Validate d ;;
    Ok d
  | _ => Err (EInvalid "kids must be a list")
  end.

(** ** Encoding and decoding are inverse *)

(** [c] is the CID of the index block [b]. *)
Definition node_cid (c : Cid) (b : bytes) : Prop :=
  exists v, c = Some v /\ v1sha cid_DagCBOR v /\ addresses v b.

Lemma node_cid_inj c b b' : node_cid c b -> node_cid c b' -> b = b'.
Proof.
  intros (v & -> & Hv & Ha) (v' & [= <-] & _ & Ha'). by eapply addresses_inj.
Qed.

Lemma NodeCID_ok b : exists c, NodeCID b = Ok c /\ node_cid c b.
Proof.
  unfold NodeCID, sumWith, nodePrefix.
  destruct (prefix_sum _ b) as [c|] eqn:E.
  - exists (Some c). split; [done|]. exists c. split; [done|].
    eapply v1sha_sum; [|done]. auto.
  - by rewrite prefix_sum_sha256 in E by auto.
Qed.

Lemma encodeNode_ok n :
  node_ok n -> exists b c, encodeNode n = Ok (b, c) /\ node_cid c b /\
    decodeNode b = Ok (node_canon n).
Proof.
  intros (b & He & Hd)%cbor_roundtrip. destruct (NodeCID_ok b) as (c & Hc & Hn).
  exists b, c. unfold encodeNode, decodeNode. by rewrite He, Hd, Hc.
Qed.

Lemma encodeNode_inv n b c :
  node_ok n -> encodeNode n = Ok (b, c) ->
  node_cid c b /\ decodeNode b = Ok (node_canon n).
Proof. intros (b' & c' & He & ? & ?)%encodeNode_ok. rewrite He. by intros [= <- <-]. Qed.

Lemma checkCBORInt_ok v : checkCBORInt v = Ok tt <-> v <= maxInt64.
Proof. unfold checkCBORInt. destruct (Z.ltb_spec maxInt64 v); split; (done || lia). Qed.

Lemma fieldUint_int z : 0 <= z -> fieldUint (NInt z) = Ok z.
Proof. intros. unfold fieldUint. simpl. by rewrite (proj2 (Z.ltb_ge _ _)) by lia. Qed.

Lemma fieldNullableUint_int o :
  (forall z, o = Some z -> 0 <= z) -> fieldNullableUint (nullableInt o) = Ok o.
Proof.
  intros H. destruct o as [z|]; [|done]. simpl. by rewrite fieldUint_int by auto.
Qed.

Lemma fieldNullableLink_link c : fieldNullableLink (nullableLink c) = Ok c.
Proof. by destruct c. Qed.

(** A Go [uint64] field is not negative. *)
Definition head_u64 (h : Head) : Prop :=
  0 <= OriginSlot h /\ 0 <= SegBits h /\ 0 <= FanoutBits h /\ 0 <= DirDepth h /\
  (forall z, SyncedTo h = Some z -> 0 <= z).
Definition segment_u64 (s : Segment) : Prop :=
  0 <= Slot0 s /\ Forall (fun r => 0 <= Slot r) (Rows s).

Lemma EncodeHead_inv h b c :
  EncodeHead h = Ok (b, c) ->
  Head_Validate h = Ok tt /\ OriginSlot h <= maxInt64 /\ SegBits h <= maxInt64 /\
  FanoutBits h <= maxInt64 /\ DirDepth h <= maxInt64 /\
  (forall z, SyncedTo h = Some z -> z <= maxInt64) /\ encodeNode (head_node h) = Ok (b, c).
Proof.
  unfold EncodeHead. intros ([] & Hv & H)%rbind_ok.
  repeat (apply rbind_ok in H as ([] & ?%checkCBORInt_ok & H)).
  apply rbind_ok in H as ([] & Hs & H). repeat split; try done.
  intros z Hz. rewrite Hz in Hs. by apply checkCBORInt_ok.
Qed.

Lemma head_node_ok h :
  head_u64 h -> OriginSlot h <= maxInt64 -> SegBits h <= maxInt64 ->
  FanoutBits h <= maxInt64 -> DirDepth h <= maxInt64 ->
  (forall z, SyncedTo h = Some z -> z <= maxInt64) -> node_ok (head_node h).
Proof.
  unfold maxInt64. intros (? & ? & ? & ? & Hz) ? ? ? ? Hm. split.
  { apply (bool_decide_unpack _). vm_compute. done. }
  simpl. repeat split; try lia; try done.
  - destruct (SyncedTo h) as [z|]; [|done]. simpl.
    specialize (Hz z eq_refl). specialize (Hm z eq_refl). lia.
  - by destruct (Dir h).
  - by destruct (Open h).
Qed.

Lemma canon_link c : node_canon (nullableLink c) = nullableLink c.
Proof. by destruct c. Qed.
Lemma canon_int o : node_canon (nullableInt o) = nullableInt o.
Proof. by destruct o. Qed.

Lemma head_canon h :
  node_canon (head_node h) =
  NMap [("v", NInt SchemaVersion); ("dir", nullableLink (Dir h)); ("net", NString (Net h));
        ("name", NString (Name h)); ("open", nullableLink (Open h)); ("seg_bits", NInt (SegBits h));
        ("dir_depth", NInt (DirDepth h)); ("synced_to", nullableInt (SyncedTo h));
        ("fanout_bits", NInt (FanoutBits h)); ("origin_slot", NInt (OriginSlot h))]%string.
Proof.
  unfold head_node. cbn [node_canon map]. rewrite !canon_link, canon_int. reflexivity.
Qed.

Lemma DecodeHead_encoded h b c :
  head_u64 h -> EncodeHead h = Ok (b, c) -> DecodeHead b = Ok h /\ node_cid c b.
Proof.
  intros Hu (Hv & ? & ? & ? & ? & ? & He)%EncodeHead_inv.
  apply encodeNode_inv in He as [Hc Hd]; [|by apply head_node_ok].
  split; [|done]. unfold DecodeHead. rewrite Hd, head_canon. cbn [rbind].
  destruct Hu as (? & ? & ? & ? & Hz).
  cbn -[fieldUint fieldNullableUint fieldNullableLink Head_Validate nullableLink nullableInt].
  rewrite !fieldUint_int, !fieldNullableLink_link, fieldNullableUint_int by done.
  cbn -[Head_Validate].
  assert (Heta : mkHead (Name h) (Net h) (OriginSlot h) (SyncedTo h) (SegBits h) (FanoutBits h)
    (DirDepth h) (Dir h) (Open h) = h) by by destruct h.
  by rewrite Heta, Hv.
Qed.

(** *** Segments *)

Definition entries_ok (es : list RefEntry) : Prop := Forall (fun e => Defined (Blob e) = true) es.

(** What [Segment_Validate] accepts, row by row. *)
Inductive rows_ok (slot0 : Z) : option Z -> list Row -> Prop :=
| rows_ok_nil prev : rows_ok slot0 prev []
| rows_ok_cons prev r rows :
    (forall p, prev = Some p -> p < Slot r) -> slot0 <= Slot r ->
    0 < len (Entries r) <= MaxBlobsPerSlotCeiling -> entries_ok (Entries r) ->
    rows_ok slot0 (Some (Slot r)) rows -> rows_ok slot0 prev (r :: rows).

Lemma validateEntries_ok es : validateEntries es = Ok tt <-> entries_ok es.
Proof.
  induction es as [|e es IH]; simpl; [by split; [constructor|]|].
  unfold entries_ok in *. rewrite Forall_cons_iff, <- IH.
  destruct (Defined (Blob e)); simpl; [tauto|]. split; [done|by intros [? _]].
Qed.

Lemma validateRows_ok slot0 prev rows :
  validateRows slot0 prev rows = Ok tt <-> rows_ok slot0 prev rows.
Proof.
  revert prev. induction rows as [|r rows IH]; intros prev; cbn [validateRows].
  { split; [constructor|done]. }
  assert (Hp : match prev with Some p => Slot r <=? p | None => false end = false
               <-> forall p, prev = Some p -> p < Slot r).
  { destruct prev as [p|]; [|done]. rewrite Z.leb_gt. split; [by intros ? ? [= <-]|by auto]. }
  assert (Hl : 0 <= len (Entries r)) by (unfold len; lia).
  split.
  - destruct (match prev with Some _ => _ | None => _ end) eqn:E; [done|].
    pose proof (proj1 Hp eq_refl).
    destruct (Z.ltb_spec (Slot r) slot0); [done|].
    destruct (Z.eqb_spec (len (Entries r)) 0); [done|].
    destruct (Z.ltb_spec MaxBlobsPerSlotCeiling (len (Entries r))); [done|].
    intros ([] & ?%validateEntries_ok & ?%IH)%rbind_ok. constructor; (done || lia).
  - inversion 1; subst. rewrite (proj2 Hp) by done.
    rewrite (proj2 (Z.ltb_ge _ _)), (proj2 (Z.eqb_neq _ _)), (proj2 (Z.ltb_ge _ _)) by lia.
    rewrite (proj2 (validateEntries_ok _)) by done. by apply IH.
Qed.

Lemma checkSlots_ok rows : checkSlots rows = Ok tt <-> Forall (fun r => Slot r <= maxInt64) rows.
Proof.
  induction rows as [|r rows IH]; simpl; [by split; [constructor|]|].
  rewrite Forall_cons_iff, <- IH, <- checkCBORInt_ok. split.
  - by intros ([] & ? & ?)%rbind_ok.
  - by intros [-> ?].
Qed.

Lemma decodeRefEntry_encoded e :
  Defined (Blob e) = true -> decodeRefEntry (node_canon (entry_node e)) = Ok e.
Proof.
  destruct e as [vh [c|]]; [|done]. intros _. destruct vh as [b Hb]. simpl.
  destruct (Sumbool.sumbool_of_bool _) as [H|H]; [|by rewrite Hb in H].
  simpl. repeat f_equal. apply eq_pi, _.
Qed.

Lemma rmap_encoded {A} (f : Node -> res A) (g : A -> Node) l :
  Forall (fun a => f (node_canon (g a)) = Ok a) l -> rmap f (map node_canon (map g l)) = Ok l.
Proof. induction 1 as [|a l Ha _ IH]; simpl; [done|]. by rewrite Ha, IH. Qed.

Lemma decodeRow_encoded r :
  0 <= Slot r -> entries_ok (Entries r) -> decodeRow (node_canon (row_node r)) = Ok r.
Proof.
  intros Hs He. unfold row_node. cbn [node_canon map decodeRow].
  rewrite fieldUint_int by done. cbn [rbind]. rewrite rmap_encoded; [by destruct r|].
  eapply Forall_impl; [exact He|]. intros. by apply decodeRefEntry_encoded.
Qed.

Lemma rows_ok_entries slot0 prev rows :
  rows_ok slot0 prev rows -> Forall (fun r => entries_ok (Entries r)) rows.
Proof. induction 1; by constructor. Qed.

Lemma EncodeSegment_inv s b c :
  EncodeSegment s = Ok (b, c) ->
  rows_ok (Slot0 s) None (Rows s) /\ Slot0 s <= maxInt64 /\
  Forall (fun r => Slot r <= maxInt64) (Rows s) /\ encodeNode (segment_node s) = Ok (b, c).
Proof.
  unfold EncodeSegment. intros ([] & ?%validateRows_ok & H)%rbind_ok.
  apply rbind_ok in H as ([] & ?%checkCBORInt_ok & H).
  by apply rbind_ok in H as ([] & ?%checkSlots_ok & H).
Qed.

Lemma segment_node_ok s :
  segment_u64 s -> Slot0 s <= maxInt64 -> Forall (fun r => Slot r <= maxInt64) (Rows s) ->
  node_ok (segment_node s).
Proof.
  unfold maxInt64. intros [? Hr] ? Hm. split; [by apply (bool_decide_unpack _); vm_compute|].
  cbn [fold_right]. split; [done|]. split; [simpl; lia|]. split; [|done].
  rewrite node_ok_list, Forall_map, Forall_forall. rewrite Forall_forall in Hm, Hr.
  intros r Hin. specialize (Hm r Hin). specialize (Hr r Hin). simpl in Hm, Hr.
  unfold row_node. rewrite node_ok_list. repeat constructor; simpl; try lia.
  induction (Entries r) as [|e es IH]; [done|].
  split; [|done]. simpl. by destruct (Blob e).
Qed.

Lemma segment_canon s :
  node_canon (segment_node s) =
  NMap [("v", NInt SchemaVersion); ("rows", NList (map node_canon (map row_node (Rows s))));
        ("slot0", NInt (Slot0 s))]%string.
Proof. reflexivity. Qed.

Lemma DecodeSegment_encoded s b c :
  segment_u64 s -> EncodeSegment s = Ok (b, c) -> DecodeSegment b = Ok s /\ node_cid c b.
Proof.
  intros Hu (Hv & ? & ? & He)%EncodeSegment_inv.
  apply encodeNode_inv in He as [Hc Hd]; [|by apply segment_node_ok].
  split; [|done]. unfold DecodeSegment. rewrite Hd, segment_canon. destruct Hu as [? Hr].
  cbn -[fieldUint rmap Segment_Validate map]. rewrite fieldUint_int by done.
  cbn -[rmap Segment_Validate map]. rewrite rmap_encoded.
  - cbn -[Segment_Validate]. unfold Segment_Validate. destruct s as [s0 rows].
    rewrite (proj2 (validateRows_ok _ _ _)) by done. done.
  - apply rows_ok_entries in Hv. rewrite Forall_forall in *. intros r Hin.
    apply decodeRow_encoded; auto.
Qed.

(** *** Directory pages *)

Lemma dirnode_node_ok kids : node_ok (dirnode_node kids).
Proof.
  split; [by apply (bool_decide_unpack _); vm_compute|]. cbn [fold_right].
  split; [done|]. split; [|done]. rewrite node_ok_list, Forall_map, Forall_forall.
  by intros [c|] _.
Qed.

Lemma dirnode_canon kids : node_canon (dirnode_node kids) = dirnode_node kids.
Proof.
  unfold dirnode_node. cbn [node_canon map]. rewrite map_map.
  rewrite (map_ext (fun x => node_canon (nullableLink x)) nullableLink); [done|].
  apply canon_link.
Qed.

Lemma trim_nil_defined k (t : list Cid) :
  trimTrailingNulls (k :: t) = [] <-> k = None /\ trimTrailingNulls t = [].
Proof.
  simpl. destruct (trimTrailingNulls t); destruct k; simpl; split; try (by intros [? ?]); done.
Qed.

Lemma trim_idem kids : trimTrailingNulls (trimTrailingNulls kids) = trimTrailingNulls kids.
Proof.
  induction kids as [|k kids IH]; [done|]. simpl.
  destruct (trimTrailingNulls kids) as [|t ts] eqn:E.
  - destruct k; done.
  - change (trimTrailingNulls (k :: t :: ts)) with
      (match trimTrailingNulls (t :: ts) with [] => if Defined k then [k] else [] | l => k :: l end).
    by rewrite IH.
Qed.

Lemma rmap_links kids : rmap fieldNullableLink (map nullableLink kids) = Ok kids.
Proof.
  induction kids as [|k kids IH]; [done|]. cbn [map rmap].
  by rewrite fieldNullableLink_link, IH.
Qed.

Lemma EncodeDirNode_ok d : exists b c, EncodeDirNode d = Ok (b, c) /\ node_cid c b /\
  DecodeDirNode b = Ok (mkDirNode (trimTrailingNulls (Kids d))).
Proof.
  destruct (encodeNode_ok _ (dirnode_node_ok (trimTrailingNulls (Kids d)))) as (b & c & He & Hc & Hd).
  exists b, c. split; [done|]. split; [done|].
  unfold DecodeDirNode. rewrite Hd, dirnode_canon. cbn -[rmap map trimTrailingNulls].
  rewrite rmap_links. cbn -[trimTrailingNulls]. by rewrite trim_idem.
Qed.
End Schema.
