(* ===== verification/Manifest.v ===== *)
(** The manifest chain: schema/manifest.go.

    A manifest fixes the source schedule of a chain head and links to the one it
    replaced.  As for the index objects the codec is modelled at the level of
    the IPLD data model.  The theorems: decoding inverts encoding up to the
    fields a source's type does not carry, the decoder only returns manifests
    that [Manifest_Validate] accepts and that mean what they say in one way, and
    manifests have one CID exactly if they state the same schedule. *)
From S2P Require Import Prelude Cid Schema.

Local Open Scope string_scope.
Local Open Scope Z_scope.
Local Open Scope list_scope.

Definition ManifestVersion : Z := 1.
Definition AddressSize : Z := 20.
Definition TopicSize : Z := 32.
Definition SourceInboxEvents : string := "inbox-events".
Definition SourceBlobTxs : string := "blob-txs".

Record Source : Type := mkSource {
  sc_Type : string; sc_Address : bytes; sc_Topic : bytes; sc_Senders : list bytes;
  sc_FromBlock : Z; sc_UntilBlock : Z; sc_OpenEnded : bool }.

#[global] Instance Source_eq_dec : EqDecision Source.
Proof. solve_decision. Defined.

Definition isInbox (s : Source) : bool := String.eqb (sc_Type s) SourceInboxEvents.
Definition isBlobTxs (s : Source) : bool := String.eqb (sc_Type s) SourceBlobTxs.

Fixpoint validateSenders (l : list bytes) : res unit :=
  match l with
  | [] => Ok tt
  | b :: l' => refuse_if negb (len b =? AddressSize) with EInvalid "sender width" ;; validateSenders l'
  end.

(** Source.validate *)
Definition Source_validate (s : Source) : res unit :=
  refuse_if negb (len (sc_Address s) =? AddressSize) with EInvalid "address width" ;;
  _ <-? (if isInbox s then
           refuse_if negb (len (sc_Topic s) =? TopicSize) with EInvalid "topic width" ;;
           refuse_if negb (len (sc_Senders s) =? 0) with EInvalid "senders is a blob-txs field" ;;
           Ok tt
         else if isBlobTxs s then
           refuse_if len (sc_Senders s) =? 0 with EInvalid "empty sender allowlist" ;;
           _ <-? validateSenders (sc_Senders s) ;;
           refuse_if negb (len (sc_Topic s) =? 0) with EInvalid "topic is an inbox-events field" ;;
           Ok tt
         else Err (EInvalid "unknown type")) ;;
  refuse_if negb (sc_OpenEnded s) && (sc_UntilBlock s <? sc_FromBlock s)
    with EInvalid "until_block precedes from_block" ;;
  Ok tt.

Fixpoint validateSources (l : list Source) : res unit :=
  match l with
  | [] => Ok tt
  | s :: l' => _ <-? Source_validate s ;; validateSources l'
  end.

Section Manifest.
Context `{MH : Multihash}.

Record Manifest : Type := mkManifest { mf_V : Z; mf_Head : string; mf_Sources : list Source; mf_Prev : Cid }.

Definition Manifest_Validate (m : Manifest) : res unit :=
  refuse_if negb (mf_V m =? ManifestVersion) with EUnknownVersion "manifest" (int64 (mf_V m)) ;;
  refuse_if negb (headNameRE (mf_Head m)) with EInvalid "manifest head" ;;
  refuse_if len (mf_Sources m) =? 0 with EInvalid "no sources" ;;
  validateSources (mf_Sources m).

(** ** Encoding *)

Context `{CB : !DagCbor}.

(** encodeSource: the entries in the order they are added. *)
Definition encodeSource (s : Source) : Node :=
  NMap ([("type", NString (sc_Type s)); ("address", NBytes (sc_Address s))]
        ++ (if isInbox s then [("topic", NBytes (sc_Topic s))] else [])
        ++ (if isBlobTxs s then [("senders", NList (map NBytes (sc_Senders s)))] else [])
        ++ [("from_block", NInt (int64 (sc_FromBlock s)))]
        ++ (if sc_OpenEnded s then [] else [("until_block", NInt (int64 (sc_UntilBlock s)))])).

(** The loop that checks the integers of the sources. *)
Fixpoint checkBlocks (l : list Source) : res unit :=
  match l with
  | [] => Ok tt
  | s :: l' =>
    _ <-? checkCBORInt (sc_FromBlock s) ;;
    _ <-? (if sc_OpenEnded s then Ok tt else checkCBORInt (sc_UntilBlock s)) ;;
    checkBlocks l'
  end.

Definition manifest_node (m : Manifest) : Node :=
  NMap [("v", NInt (int64 (mf_V m))); ("head", NString (mf_Head m));
        ("sources", NList (map encodeSource (mf_Sources m))); ("prev", nullableLink (mf_Prev m))].

Definition EncodeManifest (m : Manifest) : res (bytes * Cid) :=
  _ <-? Manifest_Validate m ;;
  _ <-? checkCBORInt (mf_V m) ;;
  _ <-? checkBlocks (mf_Sources m) ;;
  encodeNode (manifest_node m).

(** ** Decoding *)

Definition manifestKeys : list string := ["v"; "head"; "sources"; "prev"].
Definition sourceKeys : list string := ["type"; "address"; "topic"; "senders"; "from_block"; "until_block"].

Definition checkManifestVersion (n : Node) : res unit :=
  v <-? AsInt n ;;
  if negb (v =? ManifestVersion) then Err (EUnknownVersion "manifest" v) else Ok tt.

Definition sourceBytes (n : Node) : res bytes :=
  match n with NBytes b => Ok b | _ => Err (EInvalid "must be a byte string") end.

Definition decodeSenders (n : Node) : res (list bytes) :=
  match n with
  | NList l => rmap sourceBytes l
  | _ => Err (EInvalid "senders must be a list")
  end.

(** The loop over [present] that refuses a key the type does not have. *)
Fixpoint checkAllowed (allowed : list string) (present : list (string * Node)) : res unit :=
  match present with
  | [] => Ok tt
  | (k, _) :: present' =>
    refuse_if negb (contains allowed k) with EInvalid "field does not apply to the type" ;;
    checkAllowed allowed present'
  end.

Definition decodeSource (n : Node) : res Source :=
  match n with
  | NMap l =>
    present <-? collectFields sourceKeys l [] ;;
    typ <-? match lookupField present "type" with
            | None => Err (EInvalid "missing type")
            | Some t => fieldString t
            end ;;
    let common := ["type"; "address"; "from_block"]  in
    own <-? (if String.eqb typ SourceInboxEvents then Ok "topic"
             else if String.eqb typ SourceBlobTxs then Ok "senders"
             else Err (EInvalid "unknown type")) ;;
    _ <-? checkAllowed (common ++ ["until_block"; own]) present ;;
    _ <-? requireFields (common ++ [own]) present ;;
    address <-? sourceBytes (field present "address") ;;
    from <-? fieldUint (field present "from_block") ;;
    until <-? match lookupField present "until_block" with
              | None => Ok None
              | Some NNull => Err (EInvalid "until_block: null")
              | Some ub => u <-? fieldUint ub ;; Ok (Some u)
              end ;;
    topic <-? (if String.eqb typ SourceInboxEvents then sourceBytes (field present "topic") else Ok []) ;;
    senders <-? (if String.eqb typ SourceBlobTxs then decodeSenders (field present "senders") else Ok []) ;;
    Ok (mkSource typ address topic senders from (default 0 until) (match until with None => true | Some _ => false end))
  | _ => Err (EInvalid "source must be a map")
  end.

Definition DecodeManifest (block : bytes) : res Manifest :=
  n <-? decodeNode block ;;
  fields <-? mapFields n manifestKeys ;;
  _ <-? checkManifestVersion (field fields "v") ;;
  head <-? fieldString (field fields "head") ;;
  match field fields "sources" with
  | NList l =>
    sources <-? rmap decodeSource l ;;
    prev <-? fieldNullableLink (field fields "prev") ;;
    let m := mkManifest ManifestVersion head sources prev in
    _ <-? Manifest_Validate m ;;
    Ok m
  | _ => Err (EInvalid "sources must be a list")
  end.

(** ** What validation accepts *)

Definition source_typed (s : Source) : Prop :=
  (sc_Type s = SourceInboxEvents /\ len (sc_Topic s) = TopicSize /\ sc_Senders s = []) \/
  (sc_Type s = SourceBlobTxs /\ sc_Topic s = [] /\ sc_Senders s <> [] /\
   Forall (fun b => len b = AddressSize) (sc_Senders s)).
Definition source_ok (s : Source) : Prop :=
  len (sc_Address s) = AddressSize /\ source_typed s /\
  (sc_OpenEnded s = false -> sc_FromBlock s <= sc_UntilBlock s).

Lemma len_nil {A} (l : list A) : len l = 0 <-> l = [].
Proof. destruct l; unfold len; simpl; split; (done || lia). Qed.

Lemma validateSenders_ok l : validateSenders l = Ok tt <-> Forall (fun b => len b = AddressSize) l.
Proof.
  induction l as [|b l IH]; simpl; [by split|]. rewrite Forall_cons, <- IH.
  destruct (Z.eqb_spec (len b) AddressSize); simpl; [tauto|]. split; [done|by intros [? _]].
Qed.

Lemma Source_validate_ok s : Source_validate s = Ok tt <-> source_ok s.
Proof.
  unfold Source_validate, source_ok, source_typed, isInbox, isBlobTxs.
  destruct (Z.eqb_spec (len (sc_Address s)) AddressSize) as [Ea|Ea]; cbn [negb]; [|by split; [|intros [? _]]].
  assert (Hr : (if negb (sc_OpenEnded s) && (sc_UntilBlock s <? sc_FromBlock s)
                then Err (EInvalid "until_block precedes from_block") else Ok tt) = @Ok err unit tt <->
               (sc_OpenEnded s = false -> sc_FromBlock s <= sc_UntilBlock s)).
  { destruct (sc_OpenEnded s); simpl; [done|]. destruct (Z.ltb_spec (sc_UntilBlock s) (sc_FromBlock s)); split; try done; lia. }
  destruct (String.eqb_spec (sc_Type s) SourceInboxEvents) as [Et|Et].
  - destruct (Z.eqb_spec (len (sc_Topic s)) TopicSize) as [Ep|Ep]; cbn [negb rbind].
    2: { split; [done|]. intros (_ & [(_ & ? & _)|(E & _)] & _); [done|by rewrite E in Et]. }
    destruct (Z.eqb_spec (len (sc_Senders s)) 0) as [Es|Es]; cbn [negb rbind]; rewrite len_nil in Es.
    + rewrite Hr. tauto.
    + split; [done|]. intros (_ & [(_ & _ & ?)|(E & _)] & _); [done|by rewrite E in Et].
  - destruct (String.eqb_spec (sc_Type s) SourceBlobTxs) as [Eb|Eb]; cbn [rbind].
    2: { split; [done|]. tauto. }
    destruct (Z.eqb_spec (len (sc_Senders s)) 0) as [Es|Es]; cbn [rbind]; rewrite len_nil in Es; [split; [done|tauto]|].
    rewrite <- validateSenders_ok. destruct (validateSenders (sc_Senders s)) as [[]|e]; cbn [rbind].
    2: { split; [done|]. intros (_ & [?|(_ & _ & _ & ?)] & _); [tauto|done]. }
    destruct (Z.eqb_spec (len (sc_Topic s)) 0) as [Ep|Ep]; cbn [negb rbind]; rewrite len_nil in Ep; [rewrite Hr|split; [done|]]; tauto.
Qed.

Lemma validateSources_ok l : validateSources l = Ok tt <-> Forall source_ok l.
Proof.
  induction l as [|s l IH]; simpl; [by split|]. rewrite Forall_cons, <- IH, <- Source_validate_ok.
  destruct (Source_validate s) as [[]|e]; simpl; [tauto|]. split; [done|by intros [? _]].
Qed.

Lemma Manifest_Validate_ok m : Manifest_Validate m = Ok tt <->
  mf_V m = ManifestVersion /\ headNameRE (mf_Head m) = true /\ mf_Sources m <> [] /\ Forall source_ok (mf_Sources m).
Proof.
  unfold Manifest_Validate. rewrite <- validateSources_ok, <- len_nil.
  destruct (Z.eqb_spec (mf_V m) ManifestVersion); cbn [negb]; [|split; [done|tauto]].
  destruct (headNameRE (mf_Head m)); cbn [negb]; [|split; [done|naive_solver]].
  destruct (Z.eqb_spec (len (mf_Sources m)) 0); [split; [done|tauto]|tauto].
Qed.

(** ** The statement a manifest makes

    The bound of an open-ended source is not part of it. *)
Definition source_norm (s : Source) : Source :=
  mkSource (sc_Type s) (sc_Address s) (sc_Topic s) (sc_Senders s) (sc_FromBlock s)
           (if sc_OpenEnded s then 0 else sc_UntilBlock s) (sc_OpenEnded s).
Definition manifest_norm (m : Manifest) : Manifest :=
  mkManifest (mf_V m) (mf_Head m) (map source_norm (mf_Sources m)) (mf_Prev m).

(** Go's [uint64] fields. *)
Definition source_u64 (s : Source) : Prop := 0 <= sc_FromBlock s /\ 0 <= sc_UntilBlock s.
Definition manifest_u64 (m : Manifest) : Prop := Forall source_u64 (mf_Sources m).

Definition blocks_ok (s : Source) : Prop :=
  sc_FromBlock s <= maxInt64 /\ (sc_OpenEnded s = false -> sc_UntilBlock s <= maxInt64).

Lemma checkBlocks_ok l : checkBlocks l = Ok tt <-> Forall blocks_ok l.
Proof.
  induction l as [|s l IH]; simpl; [by split|]. rewrite Forall_cons, <- IH. unfold blocks_ok. rewrite <- checkCBORInt_ok.
  destruct (checkCBORInt (sc_FromBlock s)) as [[]|e]; simpl; [|split; [done|by intros [[? _] _]]].
  destruct (sc_OpenEnded s); simpl; [naive_solver|]. rewrite <- checkCBORInt_ok.
  destruct (checkCBORInt (sc_UntilBlock s)) as [[]|e]; simpl; [naive_solver|]. split; [done|]. intros [[_ H] _]. by specialize (H eq_refl).
Qed.

Lemma int64_small x : x <= maxInt64 -> int64 x = x.
Proof. unfold maxInt64, int64. intros. by rewrite (proj2 (Z.ltb_lt _ _)) by lia. Qed.

Lemma EncodeManifest_inv m b c :
  EncodeManifest m = Ok (b, c) ->
  Manifest_Validate m = Ok tt /\ Forall blocks_ok (mf_Sources m) /\ encodeNode (manifest_node m) = Ok (b, c).
Proof.
  unfold EncodeManifest. intros ([] & Hv & H)%rbind_ok. apply rbind_ok in H as ([] & _ & H).
  by apply rbind_ok in H as ([] & ?%checkBlocks_ok & H).
Qed.

Lemma encodeSource_norm s : encodeSource (source_norm s) = encodeSource s.
Proof. unfold encodeSource, isInbox, isBlobTxs. destruct s as [? ? ? ? ? ? []]; done. Qed.
Lemma source_norm_ok s : source_ok s -> source_ok (source_norm s).
Proof. intros (? & ? & ?). split; [done|]. split; [done|]. destruct s as [t a tp sd f u []]; done. Qed.

(** A tactic for the four shapes a valid source has. *)
Ltac source_shapes s :=
  destruct s as [typ addr topic senders from until oe]; simpl in *;
  match goal with
  | H : source_typed _ |- _ =>
    unfold source_typed in H; simpl in H;
    destruct H as [(-> & Htopic & ->)|(-> & -> & Hne & Hsend)]; simpl in *; destruct oe
  end.

Lemma encodeSource_canon s :
  source_typed s ->
  node_canon (encodeSource s) =
  NMap ([("type", NString (sc_Type s))]
        ++ (if isInbox s then [("topic", NBytes (sc_Topic s))] else [])
        ++ [("address", NBytes (sc_Address s))]
        ++ (if isBlobTxs s then [("senders", NList (map NBytes (sc_Senders s)))] else [])
        ++ [("from_block", NInt (int64 (sc_FromBlock s)))]
        ++ (if sc_OpenEnded s then [] else [("until_block", NInt (int64 (sc_UntilBlock s)))])).
Proof.
  intros Ht. assert (Hm : forall l : list bytes, map node_canon (map NBytes l) = map NBytes l).
  { intros l. rewrite map_map. by apply map_ext. }
  source_shapes s; cbn -[map]; try rewrite Hm; reflexivity.
Qed.

Lemma rmap_bytes l : rmap sourceBytes (map NBytes l) = Ok l.
Proof. induction l as [|b l IH]; [done|]. cbn [map rmap]. by rewrite IH. Qed.

Lemma decodeSource_encoded s :
  source_typed s -> source_u64 s -> blocks_ok s ->
  decodeSource (node_canon (encodeSource s)) = Ok (source_norm s).
Proof.
  intros Ht [Hf Hu] [Hf' Hu']. rewrite encodeSource_canon by done.
  rewrite int64_small by done. source_shapes s; try (rewrite int64_small by auto);
    cbn -[fieldUint rmap map]; rewrite ?fieldUint_int by done; cbn -[rmap map]; rewrite ?rmap_bytes; reflexivity.
Qed.

Lemma source_node_ok s : source_typed s -> source_u64 s -> blocks_ok s -> node_ok (encodeSource s).
Proof.
  unfold source_u64, blocks_ok, maxInt64. intros Ht [Hf Hu] [Hf' Hu'].
  assert (Hb : forall l : list bytes, node_ok (NList (map NBytes l))).
  { intros l. rewrite node_ok_list, Forall_map, Forall_forall. done. }
  source_shapes s; (split; [by apply (bool_decide_unpack _); vm_compute|]);
    cbn [fold_right app isInbox isBlobTxs]; rewrite ?int64_small by (unfold maxInt64; auto);
    repeat split; try done; try apply Hb; try (specialize (Hu' eq_refl)); lia.
Qed.

Lemma manifest_node_ok m :
  Manifest_Validate m = Ok tt -> manifest_u64 m -> Forall blocks_ok (mf_Sources m) -> node_ok (manifest_node m).
Proof.
  intros (Hv & _ & _ & Hs)%Manifest_Validate_ok Hu Hb. split; [by apply (bool_decide_unpack _); vm_compute|].
  cbn [fold_right]. rewrite Hv. split; [done|]. split; [done|]. split; [|by destruct (mf_Prev m)].
  rewrite node_ok_list, Forall_map, Forall_forall. unfold manifest_u64 in Hu. rewrite Forall_forall in Hs, Hu, Hb.
  intros s Hin. apply source_node_ok; [apply Hs|apply Hu|apply Hb]; done.
Qed.

Lemma manifest_canon m :
  node_canon (manifest_node m) =
  NMap [("v", NInt (int64 (mf_V m))); ("head", NString (mf_Head m)); ("prev", nullableLink (mf_Prev m));
        ("sources", NList (map node_canon (map encodeSource (mf_Sources m))))].
Proof. unfold manifest_node. cbn [node_canon map]. rewrite canon_link. reflexivity. Qed.

Lemma rmap_decodeSource l :
  Forall (fun s => source_typed s /\ source_u64 s /\ blocks_ok s) l ->
  rmap decodeSource (map node_canon (map encodeSource l)) = Ok (map source_norm l).
Proof. induction 1 as [|s l (? & ? & ?) _ IH]; [done|]. cbn [map rmap]. by rewrite decodeSource_encoded, IH. Qed.

Lemma DecodeManifest_encoded m b c :
  manifest_u64 m -> EncodeManifest m = Ok (b, c) -> DecodeManifest b = Ok (manifest_norm m) /\ node_cid c b.
Proof.
  intros Hu (Hv & Hb & He)%EncodeManifest_inv.
  apply encodeNode_inv in He as [Hc Hd]; [|by apply manifest_node_ok]. split; [|done].
  apply Manifest_Validate_ok in Hv as (Hv & Hh & Hne & Hs).
  unfold DecodeManifest. rewrite Hd, manifest_canon, Hv.
  cbn -[rmap map fieldNullableLink Manifest_Validate]. rewrite rmap_decodeSource.
  2: { unfold manifest_u64 in Hu. rewrite Forall_forall in *. intros s Hin. split; [by apply Hs|]. split; [by apply Hu|by apply Hb]. }
  cbn -[map fieldNullableLink Manifest_Validate]. rewrite fieldNullableLink_link. cbn -[map Manifest_Validate].
  unfold manifest_norm. rewrite Hv. rewrite (proj2 (Manifest_Validate_ok _)); [done|]. simpl.
  split; [done|]. split; [done|]. split; [by destruct (mf_Sources m)|].
  rewrite Forall_map. eapply Forall_impl; [exact Hs|]. intros. by apply source_norm_ok.
Qed.

(** ** One spelling *)

Lemma lookupField_app a b k :
  lookupField (a ++ b) k = match lookupField a k with Some v => Some v | None => lookupField b k end.
Proof. induction a as [|[k' v] a IH]; [done|]. simpl. by destruct (String.eqb k k'). Qed.

Lemma lookupField_elem l k v : NoDup (map fst l) -> lookupField l k = Some v <-> (k, v) ∈ l.
Proof.
  induction l as [|[k' v'] l IH]; simpl; [by split; [|intros ?%not_elem_of_nil]|].
  intros [Hn Hd]%NoDup_cons. rewrite elem_of_cons. destruct (String.eqb_spec k k') as [->|Hk].
  - split; [intros [= ->]; by left|]. intros [[= ->]|Hin]; [done|]. exfalso. apply Hn.
    apply list_elem_of_fmap. by exists (k', v).
  - rewrite IH by done. split; [by right|]. by intros [[= ]|].
Qed.

Lemma collectFields_rev want l acc fields :
  collectFields want l acc = Ok fields -> fields = rev l ++ acc.
Proof.
  revert acc. induction l as [|[k v] l IH]; intros acc; cbn [collectFields]; [by intros [= <-]|].
  destruct (contains want k); [|done]. cbn [negb]. intros ->%IH. cbn [rev]. by rewrite <- app_assoc.
Qed.

Lemma requireFields_ok want fields :
  requireFields want fields = Ok tt <-> Forall (fun k => is_Some (lookupField fields k)) want.
Proof.
  induction want as [|k want IH]; simpl; [by split|]. rewrite Forall_cons, <- IH.
  destruct (lookupField fields k); [split; [eauto|by intros [_ ?]]|]. split; [done|]. by intros [[? ?] _].
Qed.

Lemma checkAllowed_ok allowed present :
  checkAllowed allowed present = Ok tt -> forall k v, (k, v) ∈ present -> contains allowed k = true.
Proof.
  induction present as [|[k v] present IH]; simpl; [by intros _ ? ? ?%not_elem_of_nil|].
  destruct (contains allowed k) eqn:E; [|done]. cbn [negb]. intros H k' v' [[= -> ->]|Hin]%elem_of_cons; [done|eauto].
Qed.

Lemma lookupField_in l k v : lookupField l k = Some v -> (k, v) ∈ l.
Proof.
  induction l as [|[k' v'] l IH]; [done|]. simpl. destruct (String.eqb_spec k k') as [->|]; [|by right; auto].
  intros [= ->]. by left.
Qed.

Lemma allowed_lookup allowed present k :
  checkAllowed allowed present = Ok tt -> contains allowed k = false -> lookupField present k = None.
Proof.
  intros Ha Hk. destruct (lookupField present k) as [v|] eqn:E; [|done].
  apply lookupField_in, (checkAllowed_ok _ _ Ha) in E. congruence.
Qed.

(** The entries of a map node. *)
Definition entries (n : Node) : list (string * Node) := match n with NMap l => l | _ => [] end.

Lemma fieldString_inv n s : fieldString n = Ok s -> n = NString s.
Proof. destruct n; simpl; congruence. Qed.
Lemma sourceBytes_inv n b : sourceBytes n = Ok b -> n = NBytes b.
Proof. destruct n; simpl; congruence. Qed.
Lemma fieldUint_inv n z : fieldUint n = Ok z -> n = NInt z /\ 0 <= z.
Proof.
  unfold fieldUint. destruct n; simpl; try done. destruct (Z.ltb_spec z0 0); [done|]. by intros [= ->].
Qed.
Lemma decodeSenders_inv n l : decodeSenders n = Ok l -> n = NList (map NBytes l).
Proof.
  destruct n as [| | | | | |nl| |]; try done. cbn [decodeSenders]. revert l. induction nl as [|x nl IH]; intros l; cbn [rmap].
  { by intros [= <-]. }
  intros (b & ->%sourceBytes_inv & H)%rbind_ok. apply rbind_ok in H as (ys & H & [= <-]).
  apply IH in H as [= ->]. done.
Qed.
Lemma field_inv fields k n : is_Some (lookupField fields k) -> field fields k = n -> lookupField fields k = Some n.
Proof. unfold field. intros [v ->]. simpl. by intros ->. Qed.

Lemma node_ok_in l k v : node_ok (NMap l) -> lookupField (rev l) k = Some v -> node_ok v.
Proof.
  intros [_ Hok] Hin%lookupField_in%list_elem_of_In%in_rev. induction l as [|[k' v'] l IH]; [done|].
  destruct Hok as [Hv Hok], Hin as [[= -> ->]|Hin]; auto.
Qed.

Lemma NoDup_map_rev (l : list (string * Node)) : NoDup (map fst l) -> NoDup (map fst (rev l)).
Proof. by rewrite <- Permutation_rev. Qed.

(** Two maps with the same fields have the same entries. *)
Lemma fields_Permutation l l' :
  NoDup (map fst l) -> NoDup (map fst l') -> (forall k, lookupField (rev l) k = lookupField l' k) -> l ≡ₚ l'.
Proof.
  intros Hl Hl' Hlk. apply NoDup_Permutation; [by apply NoDup_fmap_1 in Hl|by apply NoDup_fmap_1 in Hl'|].
  intros [k v]. rewrite <- (lookupField_elem _ _ _ Hl'), <- Hlk, lookupField_elem by by apply NoDup_map_rev.
  by rewrite !list_elem_of_In, <- in_rev.
Qed.

(** The value of the optional bound. *)
Lemma until_inv (present : list (string * Node)) until :
  match lookupField present "until_block" with
  | None => Ok None
  | Some NNull => Err (EInvalid "until_block: null")
  | Some ub => u <-? fieldUint ub ;; Ok (Some u)
  end = Ok until ->
  lookupField present "until_block" = NInt <$> until /\ (forall z, until = Some z -> 0 <= z).
Proof.
  destruct (lookupField present "until_block") as [n|]; [|by intros [= <-]].
  destruct n; try done; intros (u & [[= ->] ?]%fieldUint_inv & [= <-])%rbind_ok. split; [done|]. by intros ? [= <-].
Qed.

(** What the decoder has seen of each key. *)
Lemma decodeSource_inv l s :
  decodeSource (NMap l) = Ok s ->
  let present := rev l in
  (isInbox s = true /\ sc_Senders s = [] /\
   lookupField present "topic" = Some (NBytes (sc_Topic s)) /\ lookupField present "senders" = None \/
   isInbox s = false /\ isBlobTxs s = true /\ sc_Topic s = [] /\
   lookupField present "topic" = None /\ lookupField present "senders" = Some (NList (map NBytes (sc_Senders s)))) /\
  lookupField present "type" = Some (NString (sc_Type s)) /\
  lookupField present "address" = Some (NBytes (sc_Address s)) /\
  lookupField present "from_block" = Some (NInt (sc_FromBlock s)) /\
  lookupField present "until_block" = (if sc_OpenEnded s then None else Some (NInt (sc_UntilBlock s))) /\
  (forall k, contains sourceKeys k = false -> lookupField present k = None) /\
  source_u64 s /\ source_norm s = s.
Proof.
  unfold decodeSource. intros (present & Hc%collectFields_rev & H)%rbind_ok. rewrite app_nil_r in Hc. subst present. cbn zeta.
  apply rbind_ok in H as (typ & Ht & H). apply rbind_ok in H as (own & Ho & H).
  apply rbind_ok in H as ([] & Ha & H). apply rbind_ok in H as ([] & Hr%requireFields_ok & H).
  apply rbind_ok in H as (addr & Had%sourceBytes_inv & H). apply rbind_ok in H as (from & [Hfr Hf0]%fieldUint_inv & H).
  apply rbind_ok in H as (until & [Hun Hu0]%until_inv & H). apply rbind_ok in H as (topic & Hto & H).
  apply rbind_ok in H as (senders & Hse & [= <-]). cbn [app] in *. rewrite !Forall_cons in Hr. destruct Hr as (Hr1 & Hr2 & Hr3 & Hr4 & _).
  unfold isInbox, isBlobTxs; simpl.
  assert (Hty : lookupField (rev l) "type" = Some (NString typ)).
  { destruct Hr1 as [n Hn]. rewrite Hn in Ht |- *. by apply fieldString_inv in Ht as ->. }
  assert (Hall : forall k, contains ["type"; "address"; "from_block"; "until_block"; own] k = false -> lookupField (rev l) k = None).
  { intros k. by apply allowed_lookup. }
  assert (Hown : (own = "topic" \/ own = "senders") /\
     (String.eqb typ SourceInboxEvents = true /\ senders = [] /\ lookupField (rev l) "topic" = Some (NBytes topic) /\ lookupField (rev l) "senders" = None \/
      String.eqb typ SourceInboxEvents = false /\ String.eqb typ SourceBlobTxs = true /\ topic = [] /\ lookupField (rev l) "topic" = None /\
      lookupField (rev l) "senders" = Some (NList (map NBytes senders)))).
  { destruct (String.eqb_spec typ SourceInboxEvents) as [->|Hi].
    - injection Ho as <-. injection Hse as <-. split; [by left|]. left. split; [done|]. split; [done|].
      split; [by apply field_inv; [|by apply sourceBytes_inv]|by apply Hall].
    - destruct (String.eqb typ SourceBlobTxs); [|done]. injection Ho as <-. injection Hto as <-. split; [by right|]. right.
      do 3 (split; [done|]). split; [by apply Hall|by apply field_inv; [|by apply decodeSenders_inv]]. }
  destruct Hown as [Hk Hown].
  split; [done|]. split; [done|]. split; [by apply field_inv|]. split; [by apply field_inv|].
  split; [by destruct until|]. split; [|split; [split; [done|]; destruct until; simpl; [by apply Hu0|done]|by destruct until]].
  intros k Hk'. apply Hall. unfold contains, sourceKeys in *. cbn [existsb] in *. rewrite !orb_false_iff in *.
  by destruct Hk as [-> | ->]; destruct Hk' as (? & ? & ? & ? & ? & ? & _).
Qed.

(** A source map the decoder accepts has the entries of the source's encoding. *)
Lemma decodeSource_entries l s :
  node_ok (NMap l) -> decodeSource (NMap l) = Ok s -> l ≡ₚ entries (encodeSource s).
Proof.
  intros Hok H. apply decodeSource_inv in H as (Hown & Hty & Had & Hfr & Hun & Hno & _).
  assert (Hint : forall k z, lookupField (rev l) k = Some (NInt z) -> int64 z = z).
  { intros k z Hz. apply int64_small. apply (node_ok_in _ _ _ Hok) in Hz. unfold maxInt64. simpl in Hz. lia. }
  assert (Hnd2 : NoDup (map fst (entries (encodeSource s)))).
  { unfold encodeSource. cbn [entries].
    destruct (isInbox s), (isBlobTxs s), (sc_OpenEnded s); apply (bool_decide_unpack _); vm_compute; done. }
  apply fields_Permutation; [apply Hok|done|].
  intros k. unfold encodeSource. cbn [entries]. rewrite (Hint _ _ Hfr).
  assert (Hu : sc_OpenEnded s = false -> int64 (sc_UntilBlock s) = sc_UntilBlock s).
  { intros E. rewrite E in Hun. by apply (Hint _ _ Hun). }
  assert (Hx : isInbox s = true -> isBlobTxs s = false) by (unfold isInbox, isBlobTxs; by intros ->%String.eqb_eq).
  destruct (contains sourceKeys k) eqn:Ek.
  - unfold contains, sourceKeys in Ek. cbn [existsb] in Ek. rewrite !orb_true_iff, !String.eqb_eq in Ek.
    destruct Hown as [(E & _ & Hto & Hse)|(E & E' & _ & Hto & Hse)]; [pose proof (Hx E) as E'|]; rewrite E, E';
      destruct (sc_OpenEnded s); try rewrite Hu by done;
      destruct Ek as [->|[->|[->|[->|[->|[->|[=]]]]]]]; rewrite ?Hty, ?Had, ?Hfr, ?Hun, ?Hto, ?Hse; done.
  - rewrite Hno by done. unfold contains, sourceKeys in Ek. cbn [existsb] in Ek. rewrite !orb_false_iff in Ek.
    destruct Ek as (E1 & E2 & E3 & E4 & E5 & E6 & _).
    destruct (isInbox s), (isBlobTxs s), (sc_OpenEnded s); cbn [app lookupField]; by rewrite ?E1, ?E2, ?E3, ?E4, ?E5, ?E6.
Qed.

Lemma rmap_Forall2 {A B} (f : A -> res B) l l' : rmap f l = Ok l' -> Forall2 (fun x y => f x = Ok y) l l'.
Proof.
  revert l'. induction l as [|x l IH]; intros l'; cbn [rmap]; [by intros [= <-]|].
  intros (y & Hy & H)%rbind_ok. apply rbind_ok in H as (ys & H & [= <-]). constructor; auto.
Qed.

Lemma collectFields_known want l acc fields k v :
  collectFields want l acc = Ok fields -> (k, v) ∈ l -> contains want k = true.
Proof.
  revert acc. induction l as [|[k' v'] l IH]; intros acc; cbn [collectFields]; [by intros _ ?%not_elem_of_nil|].
  destruct (contains want k') eqn:E; [|done]. cbn [negb]. intros H [[= -> ->]|Hin]%elem_of_cons; [done|eauto].
Qed.

Lemma mapFields_inv n want fields :
  mapFields n want = Ok fields ->
  n = NMap (entries n) /\ fields = rev (entries n) /\ Forall (fun k => is_Some (lookupField fields k)) want /\
  forall k, contains want k = false -> lookupField fields k = None.
Proof.
  destruct n as [| | | | | | |l|]; try done. cbn [mapFields entries]. intros (f & Hc & H)%rbind_ok.
  apply rbind_ok in H as ([] & Hr%requireFields_ok & [= <-]). pose proof (collectFields_rev _ _ _ _ Hc) as Hf.
  rewrite app_nil_r in Hf. split; [done|]. split; [done|]. split; [done|]. intros k Hk.
  destruct (lookupField f k) as [v|] eqn:E; [|done]. subst f. apply lookupField_in, list_elem_of_In, in_rev, list_elem_of_In in E.
  rewrite (collectFields_known _ _ _ _ _ _ Hc E) in Hk. done.
Qed.

Lemma checkManifestVersion_inv n : checkManifestVersion n = Ok tt -> n = NInt ManifestVersion.
Proof.
  unfold checkManifestVersion. destruct n; try done. simpl. by destruct (Z.eqb_spec z ManifestVersion) as [->|].
Qed.
Lemma fieldNullableLink_inv n c : fieldNullableLink n = Ok c -> n = nullableLink c.
Proof. destruct n; simpl; try done; by intros [= <-]. Qed.

Lemma decodeSource_map n s : decodeSource n = Ok s -> exists l, n = NMap l.
Proof. destruct n; try done. eauto. Qed.

Lemma EncodeManifest_norm m b c :
  manifest_u64 m -> EncodeManifest m = Ok (b, c) ->
  DecodeManifest b = Ok (manifest_norm m) /\ node_cid c b /\
  EncodeManifest (manifest_norm m) = Ok (b, c).
Proof.
  intros Hu He. destruct (DecodeManifest_encoded m b c Hu He) as [Hd Hc]. split; [done|]. split; [done|].
  pose proof (EncodeManifest_inv m b c He) as (Hv & Hb & Hn). unfold EncodeManifest.
  apply Manifest_Validate_ok in Hv as (Hv & Hh & Hne & Hs).
  rewrite (proj2 (Manifest_Validate_ok (manifest_norm m))).
  2: { simpl. split; [done|]. split; [done|]. split; [by destruct (mf_Sources m)|].
       rewrite Forall_map. eapply Forall_impl; [exact Hs|]. intros. by apply source_norm_ok. }
  cbn [rbind]. rewrite (proj2 (checkCBORInt_ok _)) by (simpl; rewrite Hv; done). cbn [rbind].
  rewrite (proj2 (checkBlocks_ok _)).
  2: { simpl. rewrite Forall_map. eapply Forall_impl; [exact Hb|]. intros s [? Ho]. split; [done|].
       simpl. intros E. rewrite E. by apply Ho. }
  cbn [rbind]. rewrite <- Hn. f_equal. unfold manifest_node. simpl. rewrite map_map. do 6 f_equal. apply map_ext, encodeSource_norm.
Qed.

(** ** Theorems *)

(** A manifest survives its encoding: what decodes is the same statement (the
    bound of an open-ended source, which the encoding omits, reads as zero),
    stored under a CID that determines the block. *)
Theorem manifest_roundtrip m b c :
  manifest_u64 m -> EncodeManifest m = Ok (b, c) ->
  DecodeManifest b = Ok (manifest_norm m) /\ node_cid c b /\
  EncodeManifest (manifest_norm m) = Ok (b, c).
Proof. apply EncodeManifest_norm. Qed.

(** Two manifests have the same CID exactly if they make the same statement, so
    a chain tip pins one history. *)
Theorem manifest_cid_exact m1 m2 b1 c1 b2 c2 :
  manifest_u64 m1 -> manifest_u64 m2 -> EncodeManifest m1 = Ok (b1, c1) -> EncodeManifest m2 = Ok (b2, c2) ->
  c1 = c2 <-> manifest_norm m1 = manifest_norm m2.
Proof.
  intros U1 U2 H1 H2. pose proof (EncodeManifest_norm _ _ _ U1 H1) as (D1 & C1 & N1).
  pose proof (EncodeManifest_norm _ _ _ U2 H2) as (D2 & C2 & N2). split.
  - intros <-. rewrite (node_cid_inj _ _ _ C1 C2), D2 in D1. congruence.
  - intros E. rewrite E, N2 in N1. congruence.
Qed.

(** A decoded manifest is valid, and its block spelt it in the one way there is:
    the block's map has the four entries of the manifest's own encoding and each
    source map has exactly the entries of that source's encoding, so a key of
    the other type, an explicit null bound and an unknown key are refused. *)
Theorem manifest_one_spelling b n m :
  decodeNode b = Ok n -> node_ok n -> DecodeManifest b = Ok m ->
  Manifest_Validate m = Ok tt /\ manifest_norm m = m /\ manifest_u64 m /\
  exists ls, entries n ≡ₚ [("v", NInt ManifestVersion); ("head", NString (mf_Head m));
                           ("sources", NList ls); ("prev", nullableLink (mf_Prev m))] /\
    Forall2 (fun x s => entries x ≡ₚ entries (encodeSource s)) ls (mf_Sources m).
Proof.
  intros Hn Hok. unfold DecodeManifest. rewrite Hn. cbn [rbind].
  intros (fields & (En & -> & Hr & Hno)%mapFields_inv & H)%rbind_ok.
  unfold manifestKeys in Hr. rewrite !Forall_cons in Hr. destruct Hr as (R1 & R2 & R3 & R4 & _).
  apply rbind_ok in H as ([] & Hv%checkManifestVersion_inv & H). apply rbind_ok in H as (head & Hh%fieldString_inv & H).
  destruct (field (rev (entries n)) "sources") as [| | | | | |ls| |] eqn:Hs; try done.
  apply rbind_ok in H as (srcs & Hsrc%rmap_Forall2 & H). apply rbind_ok in H as (prev & Hp%fieldNullableLink_inv & H).
  apply rbind_ok in H as ([] & Hval & [= <-]). apply field_inv in Hv, Hh, Hs, Hp; try done.
  rewrite En in Hok. pose proof (node_ok_in _ _ _ Hok Hs) as Hls. rewrite node_ok_list in Hls.
  assert (Hsource : Forall2 (fun x s => entries x ≡ₚ entries (encodeSource s) /\ source_u64 s /\ source_norm s = s) ls srcs).
  { clear -Hsrc Hls. induction Hsrc as [|x s ls srcs Hx _ IH]; [done|]. apply Forall_cons in Hls as [Hok Hls].
    constructor; [|auto]. destruct (decodeSource_map _ _ Hx) as [l ->]. split; [by apply decodeSource_entries|].
    by apply decodeSource_inv in Hx as (_ & _ & _ & _ & _ & _ & Hx). }
  split; [done|]. split; [|split].
  - unfold manifest_norm. simpl. f_equal. clear -Hsource. by induction Hsource as [|x s ls srcs (_ & _ & Hx) _ IH]; simpl; f_equal.
  - unfold manifest_u64. simpl. clear -Hsource. by induction Hsource as [|x s ls srcs (_ & Hx & _) _ IH]; constructor.
  - exists ls. split; [|eapply Forall2_impl; [exact Hsource|]; by intros ? ? [? _]].
    apply fields_Permutation; [apply Hok|by apply (bool_decide_unpack _); vm_compute|]. intros k.
    destruct (contains manifestKeys k) eqn:Ek.
    + unfold contains, manifestKeys in Ek. cbn [existsb] in Ek. rewrite !orb_true_iff, !String.eqb_eq in Ek.
      by destruct Ek as [->|[->|[->|[->|[=]]]]].
    + rewrite Hno by done. unfold contains, manifestKeys in Ek. cbn [existsb] in Ek. rewrite !orb_false_iff in Ek.
      destruct Ek as (E1 & E2 & E3 & E4 & _). cbn [lookupField]. by rewrite E1, E2, E3, E4.
Qed.
End Manifest.
