(* ===== verification/Core.v ===== *)
(** Content-addressed node storage: core/core.go, core/pointer.go and
    core/cache.go.

    [NodeCache] is the byte-budgeted LRU of decoded nodes, [NodeStore] reads
    and writes typed nodes as blocks, [Pointer] is the three-state (hash,
    loaded, dirty) reference.  A node store lives in a world [W]; the class
    [NodeWorld] says what the world promises about its blocks and its cache,
    and the lemmas after it are what the head engine uses: a node that is read
    is the decoding of the block its CID addresses, cache or no cache. *)
From S2P Require Import Prelude Cid Schema.

(** ** The LRU of hashicorp/golang-lru (simplelru), with the count bound
    disabled: a parameter. *)
Class Lru (K V L : Type) : Type := {
  lru_items : L -> list (K * V);
  lru_get : K -> L -> option V * L;
  lru_peek : K -> L -> option V;
  lru_add : K -> V -> L -> L;
  lru_removeOldest : L -> option (K * V) * L;
  lru_purge : L -> L;
  lru_len : L -> nat;
  lru_get_spec : forall k l v l', lru_get k l = (v, l') ->
    lru_items l' ≡ₚ lru_items l /\ (forall x, v = Some x -> (k, x) ∈ lru_items l);
  lru_peek_spec : forall k l v, lru_peek k l = Some v <-> (k, v) ∈ lru_items l;
  lru_add_spec : forall k v l x, x ∈ lru_items (lru_add k v l) <->
    x = (k, v) \/ (x ∈ lru_items l /\ fst x <> k);
  lru_add_NoDup : forall k v l, NoDup (fst <$> lru_items l) -> NoDup (fst <$> lru_items (lru_add k v l));
  lru_removeOldest_spec : forall l o l', lru_removeOldest l = (o, l') ->
    match o with
    | Some kv => lru_items l ≡ₚ kv :: lru_items l'
    | None => lru_items l = [] /\ l' = l
    end;
  lru_len_spec : forall l, lru_len l = length (lru_items l);
  lru_purge_spec : forall l, lru_items (lru_purge l) = []
}.

Module NodeCache.
Section NodeCache.
Context {K V L : Type} `{EqDecision K} `{LR : !Lru K (V * Z) L}.

(** [cacheEntry] is the pair of the value and its cost. *)
Record NodeCache : Type := mkCache { lru : L; budget : Z; cbytes : Z }.

Definition NewNodeCache (empty : L) (budgetBytes : Z) : res NodeCache :=
  refuse_if budgetBytes <=? 0 with EInvalid "node cache budget must be positive" ;;
  Ok (mkCache empty budgetBytes 0).

(** A nil cache is a valid empty cache. *)
Definition get (c : option NodeCache) (k : K) : option V * option NodeCache :=
  match c with
  | None => (None, None)
  | Some c =>
    let '(e, l) := lru_get k (lru c) in
    let c' := mkCache l (budget c) (cbytes c) in
    (match e with Some (v, _) => Some v | None => None end, Some c')
  end.

(** [for c.bytes > c.budget { RemoveOldest }]: at most one round per item. *)
Fixpoint evictLoop (fuel : nat) (c : NodeCache) : NodeCache :=
  match fuel with
  | O => c
  | S fuel' =>
    if budget c <? cbytes c then
      match lru_removeOldest (lru c) with
      | (Some (_, (_, cost)), l) => evictLoop fuel' (mkCache l (budget c) (cbytes c - cost))
      | (None, _) => c
      end
    else c
  end.

Definition add (c : option NodeCache) (k : K) (v : V) (encodedLen : Z) : option NodeCache :=
  match c with
  | None => None
  | Some c =>
    let old := match lru_peek k (lru c) with Some (_, cost) => cost | None => 0 end in
    let l := lru_add k (v, encodedLen) (lru c) in
    let c' := mkCache l (budget c) (cbytes c - old + encodedLen) in
    Some (evictLoop (S (lru_len l)) c')
  end.

Definition Len (c : option NodeCache) : nat :=
  match c with None => 0%nat | Some c => lru_len (lru c) end.
Definition Bytes (c : option NodeCache) : Z :=
  match c with None => 0 | Some c => cbytes c end.
Definition Purge (c : option NodeCache) : option NodeCache :=
  match c with None => None | Some c => Some (mkCache (lru_purge (lru c)) (budget c) 0) end.

(** ** The accounting is exact *)

Definition cost_of (items : list (K * (V * Z))) : Z :=
  fold_right (fun e acc => snd (snd e) + acc) 0 items.

Lemma cost_of_perm a b : a ≡ₚ b -> cost_of a = cost_of b.
Proof. induction 1; simpl; lia. Qed.

Definition items (c : NodeCache) := lru_items (lru c).

(** [bytes] is the cost of what is held, costs are not negative, keys are
    distinct. *)
Record cache_inv (c : NodeCache) : Prop := {
  inv_bytes : cbytes c = cost_of (items c);
  inv_cost : Forall (fun e => 0 <= snd (snd e)) (items c);
  inv_keys : NoDup (fst <$> items c);
  inv_budget : 0 < budget c
}.

Lemma cost_nonneg l : Forall (fun e : K * (V * Z) => 0 <= snd (snd e)) l -> 0 <= cost_of l.
Proof. induction 1; simpl; lia. Qed.

Lemma evictLoop_inv fuel c :
  (length (items c) < fuel)%nat -> cache_inv c ->
  let c' := evictLoop fuel c in
  cache_inv c' /\ cbytes c' <= budget c' /\ budget c' = budget c /\
  (forall x, x ∈ items c' -> x ∈ items c).
Proof.
  revert c. induction fuel as [|fuel IH]; intros c Hf [Hb Hc Hk Hp]; [lia|].
  cbn [evictLoop]. destruct (Z.ltb_spec (budget c) (cbytes c)) as [Hlt|Hge]; [|repeat split; done || lia].
  destruct (lru_removeOldest (lru c)) as [[[k [v cost]]|] l'] eqn:E;
    apply lru_removeOldest_spec in E.
  2: { destruct E as [E _]. unfold items in Hb. rewrite E in Hb. simpl in Hb. lia. }
  fold (items c) in E.
  set (c1 := mkCache l' (budget c) (cbytes c - cost)).
  assert (Hinv1 : cache_inv c1).
  { split; unfold c1, items; simpl.
    - rewrite Hb, (cost_of_perm _ _ E). simpl. lia.
    - rewrite E in Hc. by apply Forall_cons_iff in Hc as [_ ?].
    - rewrite E in Hk. simpl in Hk. by apply NoDup_cons in Hk as [_ ?].
    - done. }
  destruct (IH c1) as (? & ? & ? & Hsub); [|done|].
  { rewrite E in Hf. simpl in Hf. unfold c1, items. simpl. lia. }
  repeat split; try done; try apply H. intros x Hx. rewrite E. apply list_elem_of_further.
  by apply Hsub in Hx.
Qed.

(** The cost of a keyed list splits into the cost at [k] and the rest. *)
Lemma cost_of_split k (l : list (K * (V * Z))) :
  NoDup (fst <$> l) ->
  cost_of l = match list_find (fun e => fst e = k) l with
              | Some (_, (_, (_, c))) => c | None => 0 end
              + cost_of (filter (fun e => fst e <> k) l).
Proof.
  induction l as [|[k' [v c]] l IH]; intros Hk; [done|].
  simpl in Hk. apply NoDup_cons in Hk as [Hn Hk]. specialize (IH Hk).
  rewrite filter_cons. simpl. destruct (decide (k' = k)) as [->|Hne]; simpl.
  - rewrite decide_False by (by intros []). f_equal.
    rewrite (proj2 (list_find_None _ l)) in IH; [lia|]. apply Forall_forall.
    intros e He <-. apply Hn. apply list_elem_of_fmap. eauto.
  - rewrite decide_True by done. simpl.
    destruct (list_find _ l) as [[? [? [? ?]]]|]; simpl; lia.
Qed.

Lemma lru_peek_cost k l :
  NoDup (fst <$> lru_items l) ->
  match lru_peek k l with Some (_, cost) => cost | None => 0 end
  = match list_find (fun e => fst e = k) (lru_items l) with
    | Some (_, (_, (_, c))) => c | None => 0 end.
Proof.
  intros Hk. destruct (list_find _ _) as [[i [k' [v c]]]|] eqn:E.
  - apply list_find_Some in E as (Hl & Hk' & _). simpl in Hk'. subst k'.
    assert ((k, (v, c)) ∈ lru_items l) as Hin by (eapply list_elem_of_lookup; eauto).
    apply lru_peek_spec in Hin. by rewrite Hin.
  - apply list_find_None in E. destruct (lru_peek k l) as [[v c]|] eqn:E2; [|done].
    apply lru_peek_spec in E2. rewrite Forall_forall in E.
    exfalso. by apply (E (k, (v, c))).
Qed.

(** The cache never exceeds its budget after an insertion, its byte count is
    the cost of what it holds, and it holds nothing but old items and the new
    one. *)
Lemma add_inv c k v n :
  cache_inv c -> 0 <= n ->
  exists c', add (Some c) k v n = Some c' /\ cache_inv c' /\ cbytes c' <= budget c' /\
    (forall x, x ∈ items c' -> x = (k, (v, n)) \/ x ∈ items c).
Proof.
  intros [Hb Hc Hk Hp] Hn. cbn [add].
  set (l := lru_add k (v, n) (lru c)).
  set (c1 := mkCache l (budget c) _).
  assert (Hperm : lru_items l ≡ₚ (k, (v, n)) :: filter (fun e => fst e <> k) (items c)).
  { apply NoDup_Permutation.
    - apply (NoDup_fmap_1 fst). by apply lru_add_NoDup.
    - apply NoDup_cons. split.
      + rewrite list_elem_of_filter. intros [? _]. done.
      + apply NoDup_filter. by apply (NoDup_fmap_1 fst).
    - intros x. unfold l. rewrite lru_add_spec, elem_of_cons, list_elem_of_filter.
      unfold items. tauto. }
  assert (Hi : cache_inv c1).
  { split; unfold c1, items; simpl.
    - rewrite (cost_of_perm _ _ Hperm), lru_peek_cost, Hb by done. simpl.
      rewrite (cost_of_split k (items c)) by done. unfold items. lia.
    - rewrite Hperm. constructor; [done|]. apply list.Forall_forall. intros x [_ Hx]%list_elem_of_filter. by eapply list.Forall_forall in Hc.
    - by apply lru_add_NoDup.
    - done. }
  eexists. split; [done|].
  destruct (evictLoop_inv (S (lru_len l)) c1) as (? & ? & ? & Hsub); [|done|].
  { rewrite lru_len_spec. unfold c1, items. simpl. lia. }
  repeat split; try apply H; try done. intros x Hx. apply Hsub in Hx.
  unfold c1, items, l in Hx. simpl in Hx. apply lru_add_spec in Hx as [?|[? _]]; auto.
Qed.
End NodeCache.
End NodeCache.

(** ** Node stores *)

Section NodeStore.
Context `{MH : Multihash} {W T : Type}.

(** The blockstore, the codec and the shared cache, as the store's node type
    sees them.  [cache_get] is the cache hit followed by the type assertion
    [v.( *T)]; a store without a cache always misses. *)
Record NodeStore : Type := mkNodeStore {
  ns_get : Cid -> M W bytes;
  ns_put : CidV -> bytes -> M W unit;
  Encode : T -> M W (bytes * Cid);
  Decode : bytes -> res T;
  cache_get : Cid -> M W (option T);
  cache_add : Cid -> T -> Z -> M W unit }.

Definition decode (ns : NodeStore) (c : Cid) : M W (T * Z) :=
  data <-- ns_get ns c ;;
  node <-- lift (Decode ns data) ;;
  ret (node, len data).

Definition GetNode (ns : NodeStore) (c : Cid) : M W T :=
  fail_if negb (Defined c) with EInvalid "GetNode on an undefined CID" ;;
  hit <-- cache_get ns c ;;
  match hit with
  | Some node => ret node
  | None =>
    let* (node, size) := decode ns c in
    cache_add ns c node size ;;;
    ret node
  end.

Definition PutNode (ns : NodeStore) (v : T) : M W Cid :=
  let* (data, c) := Encode ns v in
  match c with
  | None => fail (EInvalid "framing block")
  | Some cv => ns_put ns cv data ;;; ret c
  end.

(** A reference to a node: hash ([pcid] only), loaded (both) or dirty. *)
Record Pointer : Type := mkPointer { pcid : Cid; pval : option T; pdirty : bool }.

Definition ptr (c : Cid) : Pointer := mkPointer c None false.
Definition NewNode (v : T) : Pointer := mkPointer None (Some v) true.
Definition IsDirty (p : Pointer) : bool := pdirty p.
Definition IsLoaded (p : Pointer) : bool := match pval p with Some _ => true | None => false end.

Definition CID (p : Pointer) : res Cid :=
  if pdirty p then Err EDirty
  else if negb (Defined (pcid p)) then Err EEmpty
  else Ok (pcid p).

Definition Load (ns : NodeStore) (p : Pointer) : M W (T * Pointer) :=
  match pval p with
  | Some v => ret (v, p)
  | None =>
    fail_if negb (Defined (pcid p)) with EEmpty ;;
    v <-- GetNode ns (pcid p) ;;
    ret (v, mkPointer (pcid p) (Some v) (pdirty p))
  end.

(** A dirty pointer's value is private; a clean one is decoded afresh, past
    the cache. *)
Definition Mutate (ns : NodeStore) (p : Pointer) : M W (T * Pointer) :=
  if pdirty p then
    match pval p with
    | Some v => ret (v, p)
    | None => fail EEmpty
    end
  else
    fail_if negb (Defined (pcid p)) with EEmpty ;;
    let* (v, _) := decode ns (pcid p) in
    ret (v, mkPointer None (Some v) true).

(** The caller's assignment through the pointer [Mutate] returned. *)
Definition assign (p : Pointer) (v : T) : Pointer := mkPointer (pcid p) (Some v) (pdirty p).

Definition SetPtr (v : T) : Pointer := mkPointer None (Some v) true.

Definition Commit (ns : NodeStore) (p : Pointer) : M W (Cid * Pointer) :=
  if negb (pdirty p) then
    c <-- lift (CID p) ;; ret (c, p)
  else
    match pval p with
    | None => fail EEmpty
    | Some v =>
      c <-- PutNode ns v ;;
      ret (c, mkPointer c (Some v) false)
    end.

(** ** What a world promises to a node store

    [Inv] is the world's invariant (the cache holds true decodings) and [R]
    the preorder its read and write operations stay in.  [served c v]: [v] is
    the decoding of the block [c] addresses. *)
Definition served (ns : NodeStore) (c : Cid) (v : T) : Prop :=
  exists cv b, c = Some cv /\ addresses cv b /\ Decode ns b = Ok v.

Definition store_err (e : err) : Prop :=
  e = ENotFound \/ e = ECorrupt \/ e = EIO \/ e = ECancelled.

Class NodeWorld (Inv : W -> Prop) (R : relation W) (ns : NodeStore) : Prop := {
  nw_pre :: PreOrder R;
  nw_get : forall c w r w', ns_get ns c w = (r, w') -> Inv w ->
    R w w' /\ Inv w' /\
    match r with
    | Ok d => exists cv, c = Some cv /\ addresses cv d
    | Err e => store_err e
    end;
  nw_put : forall c b w r w', ns_put ns c b w = (r, w') -> Inv w -> addresses c b ->
    R w w' /\ Inv w' /\ match r with Ok _ => True | Err e => store_err e end;
  nw_cget : forall c w r w', cache_get ns c w = (r, w') -> Inv w ->
    R w w' /\ Inv w' /\ exists h, r = Ok h /\ forall v, h = Some v -> served ns c v;
  nw_cadd : forall c v n w r w', cache_add ns c v n w = (r, w') -> Inv w -> 0 <= n -> served ns c v ->
    R w w' /\ Inv w' /\ r = Ok tt
}.

Context (Inv : W -> Prop) (R : relation W) (ns : NodeStore) `{NW : !NodeWorld Inv R ns}.

Lemma decode_run c w r w' :
  decode ns c w = (r, w') -> Inv w ->
  R w w' /\ Inv w' /\
  match r with
  | Ok (v, n) => served ns c v /\ 0 <= n
  | Err e => store_err e \/ exists cv b, c = Some cv /\ addresses cv b /\ Decode ns b = Err e
  end.
Proof.
  intros H HI. apply bind_run in H as [(d & w1 & Hg & H)|(e & Hg & ->)];
    apply nw_get in Hg as (HR & HI1 & Hd); auto.
  destruct Hd as (cv & -> & Ha). unfold bind, lift, ret in H.
  destruct (Decode ns d) as [v|e] eqn:E; injection H as <- <-; split; auto; split; auto.
  - split; [by exists cv, d|]. unfold len. lia.
  - right. eauto.
Qed.

(** A read through the cache is a read of the block. *)
Lemma GetNode_run c w r w' :
  GetNode ns c w = (r, w') -> Inv w ->
  R w w' /\ Inv w' /\
  match r with
  | Ok v => served ns c v
  | Err e => c = None \/ store_err e \/ exists cv b, c = Some cv /\ addresses cv b /\ Decode ns b = Err e
  end.
Proof.
  unfold GetNode. destruct c as [cv|]; cbn [Defined negb]; intros H HI.
  2: { injection H as <- <-. split; [reflexivity|]. auto. }
  apply bind_run in H as [(h & w1 & Hg & H)|(e & Hg & ->)];
    apply nw_cget in Hg as (HR & HI1 & h' & Hh & Hs); auto; [|done].
  injection Hh as <-. destruct h as [v|].
  { injection H as <- <-. auto. }
  apply bind_run in H as [([v n] & w2 & Hd & H)|(e & Hd & ->)];
    apply decode_run in Hd as (HR2 & HI2 & Hv); auto.
  2: { split; [by etrans|]. auto. }
  apply bind_run in H as [(u & w3 & Hc & H)|(e & Hc & ->)];
    apply nw_cadd in Hc as (HR3 & HI3 & Hr); try (apply Hv); auto; [|done].
  injection H as <- <-. split; [by do 2 (etrans; [done|])|]. split; [done|]. apply Hv.
Qed.

(** The one value a canonical CID can serve. *)
Lemma served_canonical c b v v' :
  node_cid c b -> Decode ns b = Ok v -> served ns c v' -> v' = v.
Proof.
  intros (cv & -> & Hv & Ha) Hd (cv' & b' & [= <-] & Ha' & Hd').
  rewrite (addresses_inj _ _ _ _ Hv Ha' Ha) in Hd'. congruence.
Qed.

Lemma GetNode_canonical c b v w r w' :
  node_cid c b -> Decode ns b = Ok v -> GetNode ns c w = (r, w') -> Inv w ->
  R w w' /\ Inv w' /\ match r with Ok v' => v' = v | Err e => store_err e end.
Proof.
  intros Hc Hd Hg HI. apply GetNode_run in Hg as (? & ? & Hr); [|done].
  split; [done|]. split; [done|]. destruct r as [v'|e].
  - by eapply served_canonical.
  - destruct Hc as (cv & -> & Hv & Ha). destruct Hr as [?|[?|(? & ? & [= <-] & Ha' & Hd')]]; try done.
    rewrite (addresses_inj _ _ _ _ Hv Ha' Ha) in Hd'. congruence.
Qed.

Lemma decode_canonical c b v w r w' :
  node_cid c b -> Decode ns b = Ok v -> decode ns c w = (r, w') -> Inv w ->
  R w w' /\ Inv w' /\ match r with Ok (v', _) => v' = v | Err e => store_err e end.
Proof.
  intros Hc Hd Hg HI. apply decode_run in Hg as (? & ? & Hr); [|done].
  split; [done|]. split; [done|]. destruct r as [[v' n]|e].
  - destruct Hr. by eapply served_canonical.
  - destruct Hc as (cv & -> & Hv & Ha). destruct Hr as [?|(? & ? & [= <-] & Ha' & Hd')]; try done.
    rewrite (addresses_inj _ _ _ _ Hv Ha' Ha) in Hd'. congruence.
Qed.
End NodeStore.
Arguments NodeStore {MH} W T.
Arguments Pointer {MH} T.
