(* ===== verification/Engine.v ===== *)
(** The head engine's state: archive/archive.go, archive/structure_cache.go.

    [state] is one immutable version of a head; [Engine] is the Go type
    [archive.Head]: the blockstore, the caches, the published state [cur] and
    the mutation-local scratch.  The mutators hold [Head.mu] throughout, so a
    mutation is one sequential run over [Engine]; readers load [cur] once. *)
From S2P Require Import Prelude Arith Cid Schema Core.

Definition MaxEnumerationOutputs : Z := 2 ^ 20.
Definition MaxEnumerationPaths : Z := 2 ^ 21.
Definition MaxEnumerationUniqueNodes : Z := 2 ^ 22.
Definition MaxIndexNodeBytes : Z := 2 * 2 ^ 20.
Definition MaxEnumerationNodeBytes : Z := MaxIndexNodeBytes.
Definition MaxEnumerationDecodedBytes : Z := 4 * 2 ^ 30.

(** archive.Params, the immutable parameters of a head. *)
Record Params : Type := mkParams {
  p_Name : string; p_Net : string; p_OriginSlot : Z; p_SegBits : Z; p_FanoutBits : Z }.

#[global] Instance Params_eq_dec : EqDecision Params.
Proof. solve_decision. Defined.

Inductive SegmentState : Type := SegmentOpen | SegmentSealed.

Record SegmentSample : Type := mkSample {
  sm_State : SegmentState; sm_EncodedBytes : Z; sm_Rows : Z; sm_Refs : Z }.

Record IndexApplyStats : Type := mkStats {
  is_EncodedBytes : Z; is_Segments : list SegmentSample }.

Definition stats0 : IndexApplyStats := mkStats 0 [].

(** archive.segmentProof and archive.cachedSegmentProof *)
Record segmentProof : Type := mkProof {
  sp_slot0 : Z; sp_firstRow : Z; sp_lastRow : Z; sp_rows : Z }.
Record cachedSegmentProof : Type := mkCachedProof {
  cp_proof : segmentProof; cp_generation : Z; cp_generationKnown : bool }.

Section Engine.
Context `{MH : Multihash} `{CB : !DagCbor} {Sto : Type} `{BS : !Blockstore Sto}.

(** The cached value of any node type ([any] in Go). *)
Inductive AnyNode : Type :=
| AnySegment (s : Segment)
| AnyDir (d : DirNode)
| AnyHead (h : Head).

Context {L : Type} `{LR : !Lru CidV (AnyNode * Z) L}.

Record state : Type := mkState {
  params : Params;
  syncedTo : Z;     (* meaningful when covered *)
  covered : bool;
  dirDepth : Z;
  dir : Cid;        (* undef iff dirDepth = 0 *)
  open : Cid;       (* undef iff not covered *)
  root : Cid }.

Definition StructureCache : Type := gmap CidV cachedSegmentProof.

Record Engine : Type := mkEngine {
  blocks : Sto;
  cache : option (@NodeCache.NodeCache L);
  structure : StructureCache;
  cur : state;
  applyStats : option IndexApplyStats;
  lastApplyStats : IndexApplyStats;
  segmentEncodeState : option SegmentState;
  segmentEncodedBytes : Z }.

(** archive.Config without the stores: the catalog's read side and the
    collection generation of the local store, either of which may be nil. *)
Record Config : Type := mkConfig {
  Resolver : option (VersionedHash -> res (Cid * bool));
  CollectionGeneration : option (Sto -> Z) }.

Definition set_blocks (b : Sto) (h : Engine) : Engine :=
  mkEngine b (cache h) (structure h) (cur h) (applyStats h) (lastApplyStats h)
           (segmentEncodeState h) (segmentEncodedBytes h).
Definition set_cache c (h : Engine) : Engine :=
  mkEngine (blocks h) c (structure h) (cur h) (applyStats h) (lastApplyStats h)
           (segmentEncodeState h) (segmentEncodedBytes h).
Definition set_structure x (h : Engine) : Engine :=
  mkEngine (blocks h) (cache h) x (cur h) (applyStats h) (lastApplyStats h)
           (segmentEncodeState h) (segmentEncodedBytes h).
Definition set_cur st (h : Engine) : Engine :=
  mkEngine (blocks h) (cache h) (structure h) st (applyStats h) (lastApplyStats h)
           (segmentEncodeState h) (segmentEncodedBytes h).
Definition set_applyStats x (h : Engine) : Engine :=
  mkEngine (blocks h) (cache h) (structure h) (cur h) x (lastApplyStats h)
           (segmentEncodeState h) (segmentEncodedBytes h).
Definition set_lastApplyStats x (h : Engine) : Engine :=
  mkEngine (blocks h) (cache h) (structure h) (cur h) (applyStats h) x
           (segmentEncodeState h) (segmentEncodedBytes h).
Definition set_segmentEncodeState x (h : Engine) : Engine :=
  mkEngine (blocks h) (cache h) (structure h) (cur h) (applyStats h) (lastApplyStats h)
           x (segmentEncodedBytes h).
Definition set_segmentEncodedBytes x (h : Engine) : Engine :=
  mkEngine (blocks h) (cache h) (structure h) (cur h) (applyStats h) (lastApplyStats h)
           (segmentEncodeState h) x.

(** The engine runs a blockstore operation on its own blockstore. *)
Definition onBlocks {A} (m : M Sto A) : M Engine A :=
  fun h => let '(r, b) := m (blocks h) in (r, set_blocks b h).
Definition Get (c : Cid) : M Engine bytes := onBlocks (bs_get c).
Definition Put (c : CidV) (data : bytes) : M Engine unit := onBlocks (bs_put c data).
Definition ctxErr : M Engine unit := onBlocks bs_ctx.

(** ** The writer half of the per-node admission boundary *)

Definition countRefs (rows : list Row) : Z :=
  fold_left (fun refs r => refs + len (Entries r)) rows 0.

Definition admitEncodedIndex (kind : string) (encodedBytes : Z) : M Engine unit :=
  fail_if MaxIndexNodeBytes <? encodedBytes with ETooLarge kind encodedBytes ;;
  st <-- gets applyStats ;;
  match st with
  | Some s => modify (set_applyStats (Some (mkStats (add64 (is_EncodedBytes s) encodedBytes) (is_Segments s))))
  | None => ret tt
  end.

Definition encodeSegment (s : Segment) : M Engine (bytes * Cid) :=
  let* (data, id) := lift (EncodeSegment s) in
  modify (set_segmentEncodedBytes (len data)) ;;;
  admitEncodedIndex "segment" (len data) ;;;
  ret (data, id).

Definition encodeDirNode (d : DirNode) : M Engine (bytes * Cid) :=
  let* (data, id) := lift (EncodeDirNode d) in
  admitEncodedIndex "dir" (len data) ;;;
  ret (data, id).

Definition encodeHead (x : Head) : M Engine (bytes * Cid) :=
  let* (data, id) := lift (EncodeHead x) in
  admitEncodedIndex "head" (len data) ;;;
  ret (data, id).

(** ** The three typed node stores, over one blockstore and one cache *)

Definition cacheGet {T} (proj : AnyNode -> option T) (c : Cid) : M Engine (option T) :=
  match c with
  | None => ret None
  | Some cv => fun h =>
    let '(v, c') := NodeCache.get (cache h) cv in
    (Ok (match v with Some a => proj a | None => None end), set_cache c' h)
  end.
Definition cacheAdd {T} (inj : T -> AnyNode) (c : Cid) (v : T) (n : Z) : M Engine unit :=
  match c with
  | None => ret tt
  | Some cv => modify (fun h => set_cache (NodeCache.add (cache h) cv (inj v) n) h)
  end.

Definition segs : NodeStore Engine Segment :=
  mkNodeStore Get Put encodeSegment DecodeSegment
    (cacheGet (fun a => match a with AnySegment s => Some s | _ => None end)) (cacheAdd AnySegment).
Definition dirs : NodeStore Engine DirNode :=
  mkNodeStore Get Put encodeDirNode DecodeDirNode
    (cacheGet (fun a => match a with AnyDir d => Some d | _ => None end)) (cacheAdd AnyDir).
Definition heads : NodeStore Engine Head :=
  mkNodeStore Get Put encodeHead DecodeHead
    (cacheGet (fun a => match a with AnyHead x => Some x | _ => None end)) (cacheAdd AnyHead).

(** ** Publication *)

Definition headObject (st : state) : Head :=
  mkHead (p_Name (params st)) (p_Net (params st)) (p_OriginSlot (params st))
         (if covered st then Some (syncedTo st) else None)
         (p_SegBits (params st)) (p_FanoutBits (params st)) (dirDepth st) (dir st) (open st).

Definition set_root (c : Cid) (st : state) : state :=
  mkState (params st) (syncedTo st) (covered st) (dirDepth st) (dir st) (open st) c.

(** Writes the Head block and swaps it in: the last step of every mutation. *)
Definition publish (st : state) : M Engine state :=
  let* (c, _) := Commit heads (NewNode (headObject st)) in
  let st := set_root c st in
  modify (set_cur st) ;;;
  ret st.

Definition emptyState (p : Params) : state := mkState p 0 false 0 None None None.

(** archive.New on a fresh engine [h] (the result of newHead). *)
Definition New (p : Params) : M Engine unit :=
  fail_if 63 <? p_SegBits p with EInvalid "seg_bits" ;;
  fail_if (p_FanoutBits p =? 0) || (32 <? p_FanoutBits p) with EInvalid "fanout_bits" ;;
  publish (emptyState p) ;;;
  ret tt.

Definition dirBase (st : state) : Z := ord (p_OriginSlot (params st)) (p_SegBits (params st)).

Definition openOrd (st : state) : M Engine Z :=
  seg <-- GetNode segs (open st) ;;
  ret (ord (Slot0 seg) (p_SegBits (params st))).

Definition Root (h : Engine) : Cid := root (cur h).
Definition SyncedToOf (h : Engine) : Z * bool := (syncedTo (cur h), covered (cur h)).
Definition ParamsOf (h : Engine) : Params := params (cur h).

Record Info : Type := mkInfo {
  i_Params : Params; i_Root : Cid; i_SyncedTo : option Z; i_DirDepth : Z }.
Definition InfoOf (h : Engine) : Info :=
  let st := cur h in
  mkInfo (params st) (root st) (if covered st then Some (syncedTo st) else None) (dirDepth st).

(** ** Geometry and CID checks shared by Load and Enumerate *)

Definition validateIndexCID (c : Cid) : res unit :=
  match c with
  | None => Err (EInvalid "CID is undefined")
  | Some c =>
    let p := cid_prefix c in
    if negb (pVersion p =? 1) || negb (pCodec p =? cid_DagCBOR)
       || negb (pMhType p =? SHA2_256) || negb (pMhLength p =? 32)
    then Err (EInvalid "want CIDv1 dag-cbor sha2-256/32") else Ok tt
  end.

Definition validateBlobCID (c : Cid) : res unit :=
  match c with
  | None => Err (EInvalid "blob CID is undefined")
  | Some c =>
    let p := cid_prefix c in
    if negb (pVersion p =? 1) || negb (pCodec p =? cid_Raw)
       || negb (pMhType p =? SHA2_256) || negb (pMhLength p =? 32)
    then Err (EInvalid "want CIDv1 raw sha2-256/32") else Ok tt
  end.

Definition verifyBlockCID (want : CidV) (data : bytes) : res unit :=
  match prefix_sum (cid_prefix want) data with
  | None => Err (EInvalid "hashing block")
  | Some got => if negb (bool_decide (got = want)) then Err ECorrupt else Ok tt
  end.

(** Coverage determines the only legal tree shape: (openOrd, sealedCount). *)
Definition validateDirectoryGeometry (st : state) : res (Z * Z) :=
  if negb (covered st) then
    if negb (dirDepth st =? 0) || Defined (dir st) || Defined (open st)
    then Err (EInvalid "an uncovered head must have no directory or open Segment")
    else Ok (0, 0)
  else
  refuse_if syncedTo st =? maxUint64 with EInvalid "synced_to is MaxUint64" ;;
  let openW := ord (add64 (syncedTo st) 1) (p_SegBits (params st)) in
  let base := dirBase st in
  refuse_if openW <? base with EInvalid "open window precedes directory base" ;;
  let sealedCount := openW - base in
  refuse_if MaxEnumerationOutputs <? sealedCount with EInvalid "output admission budget" ;;
  refuse_if negb (dirDepth st =? canonicalDepth sealedCount (p_FanoutBits (params st)))
    with EInvalid "dir_depth is not canonical" ;;
  match canonicalDirectoryPages sealedCount (p_FanoutBits (params st)) with
  | None => Err EDiverges
  | Some paths =>
    refuse_if MaxEnumerationPaths <? paths with EInvalid "path admission budget" ;;
    refuse_if (MaxEnumerationUniqueNodes - 2 <? paths)
              || (MaxEnumerationUniqueNodes - paths - 2 <? sealedCount)
      with EInvalid "node admission budget" ;;
    Ok (openW, sealedCount)
  end.

Definition loadState (c : Cid) : M Engine state :=
  match c with
  | None => fail (EInvalid "Load with an undefined root CID")
  | Some cv =>
    lift (validateIndexCID c) ;;;
    data <-- Get c ;;
    fail_if MaxEnumerationNodeBytes <? len data with EInvalid "Head above the admission budget" ;;
    lift (verifyBlockCID cv data) ;;;
    obj <-- lift (DecodeHead data) ;;
    let p := mkParams (Name obj) (Net obj) (OriginSlot obj) (SegBits obj) (FanoutBits obj) in
    let st := mkState p (default 0 (SyncedTo obj)) (bool_decide (is_Some (SyncedTo obj)))
                      (DirDepth obj) (Dir obj) (Open obj) c in
    fail_if negb (Bool.eqb (covered st) (Defined (open st))) with EInvalid "covered iff open" ;;
    fail_if (p_FanoutBits p =? 0) || (32 <? p_FanoutBits p) || (63 <? p_SegBits p)
      with EInvalid "unusable parameters" ;;
    lift (validateDirectoryGeometry st) ;;;
    (if Defined (dir st) then lift (validateIndexCID (dir st)) else ret tt) ;;;
    (if Defined (open st) then lift (validateIndexCID (open st)) else ret tt) ;;;
    ret st
  end.

(** archive.Load on a fresh engine. *)
Definition Load (c : Cid) : M Engine unit :=
  st <-- loadState c ;;
  modify (set_cur st).
End Engine.
