(* ===== verification/EngineWorld.v ===== *)
(** The engine as a world for its node stores: what its reads and writes
    guarantee, from the promises of the blockstore and of the cache.

    [engine_inv] says that every cached node is the decoding of the block its
    CID addresses; [engine_le] is what every read and every block write stays
    in: the published state is untouched and stored blocks stay stored. *)
From S2P Require Import Prelude Arith Cid Schema Core Engine.

Section World.
Context `{MH : Multihash} `{CB : !DagCbor} {Sto : Type} `{BS : !Blockstore Sto} `{BO : !BlockstoreOk Sto}.
Context {L : Type} `{LR : !Lru CidV (AnyNode * Z) L}.
Local Abbreviation Eng := (@Engine MH Sto L).

Definition any_served (c : CidV) (a : AnyNode) : Prop :=
  match a with
  | AnySegment s => exists b, addresses c b /\ DecodeSegment b = Ok s
  | AnyDir d => exists b, addresses c b /\ DecodeDirNode b = Ok d
  | AnyHead h => exists b, addresses c b /\ DecodeHead b = Ok h
  end.

Definition engine_inv (h : Eng) : Prop :=
  match cache h with
  | None => True
  | Some nc => NodeCache.cache_inv nc /\
      forall c a n, (c, (a, n)) ∈ NodeCache.items nc -> any_served c a
  end.

Record engine_le (h h' : Eng) : Prop := {
  le_cur : cur h' = cur h;
  le_has : forall v d, bs_has (blocks h) v d -> bs_has (blocks h') v d;
  le_live : bs_live (blocks h) -> bs_live (blocks h')
}.

(** Stored blocks stay stored, whatever is published. *)
Definition keeps (h h' : Eng) : Prop := forall v d, bs_has (blocks h) v d -> bs_has (blocks h') v d.

#[global] Instance keeps_pre : PreOrder keeps.
Proof. split; [by intros h v d|]. intros a b c H1 H2 v d ?. auto. Qed.

Lemma engine_le_keeps h h' : engine_le h h' -> keeps h h'.
Proof. by intros [_ ? _]. Qed.

#[global] Instance engine_le_pre : PreOrder engine_le.
Proof.
  split; [by split|]. intros a b c [? ? ?] [? ? ?].
  split; [congruence|by auto..].
Qed.

Lemma onBlocks_run {A} (m : M Sto A) (h : Eng) r h' :
  onBlocks m h = (r, h') -> exists b', m (blocks h) = (r, b') /\ h' = set_blocks b' h.
Proof.
  unfold onBlocks. destruct (m (blocks h)) as [r0 b'] eqn:E. intros [= <- <-]. eauto.
Qed.

Lemma Get_run c (h : Eng) r h' :
  Get c h = (r, h') -> engine_inv h ->
  engine_le h h' /\ engine_inv h' /\
  match r with
  | Ok d => exists cv, c = Some cv /\ addresses cv d
  | Err e => store_err e
  end.
Proof.
  intros (b' & Hg & ->)%onBlocks_run HI. split; [|split; [done|]].
  - apply get_frame in Hg as [? ?]. by split.
  - destruct r; [|by eapply get_err]. apply get_sound in Hg as (v & -> & ? & _). eauto.
Qed.

(** A block that was read is held. *)
Lemma Get_held c (h : Eng) d h' :
  Get c h = (Ok d, h') -> exists cv, c = Some cv /\ bs_has (blocks h') cv d.
Proof. intros (b' & Hg & ->)%onBlocks_run. apply get_sound in Hg as (v & -> & _ & ?). eauto. Qed.

Lemma Put_run c b (h : Eng) r h' :
  Put c b h = (r, h') -> engine_inv h -> addresses c b ->
  engine_le h h' /\ engine_inv h' /\ match r with Ok _ => True | Err e => store_err e end.
Proof.
  intros (b' & Hg & ->)%onBlocks_run HI Ha. split; [|split; [done|]].
  - apply put_frame in Hg as [? ?]; [|done]. by split.
  - destruct r; [done|]. apply put_err in Hg as [->| ->]; unfold store_err; auto.
Qed.

Lemma ctxErr_run (h : Eng) r h' :
  ctxErr h = (r, h') -> engine_inv h ->
  engine_le h h' /\ engine_inv h' /\ match r with Ok _ => True | Err e => e = ECancelled end.
Proof.
  intros (b' & Hg & ->)%onBlocks_run HI. split; [|split; [done|]].
  - apply ctx_frame in Hg as [? ?]. by split.
  - destruct r; [done|]. by eapply ctx_err.
Qed.

Lemma cacheGet_run {T} (proj : AnyNode -> option T) c (h : Eng) r h' :
  cacheGet proj c h = (r, h') -> engine_inv h ->
  engine_le h h' /\ engine_inv h' /\ exists o, r = Ok o /\
    forall v, o = Some v -> exists cv a, c = Some cv /\ any_served cv a /\ proj a = Some v.
Proof.
  unfold cacheGet. destruct c as [cv|]; intros H HI.
  2: { injection H as <- <-. split; [done|]. split; [done|]. eexists. by split. }
  destruct (cache h) as [nc|] eqn:Hc; simpl in H.
  2: { injection H as <- <-. split; [by split|]. split; [done|].
       eexists. by split. }
  destruct (lru_get cv (NodeCache.lru nc)) as [e l] eqn:E. injection H as <- <-.
  apply lru_get_spec in E as [Hp Hin].
  unfold engine_inv in HI. rewrite Hc in HI. destruct HI as [[Hb Hcs Hk Hbu] Hs].
  split; [by split|]. split.
  - unfold engine_inv. simpl. split.
    + split; [|unfold NodeCache.items in *; simpl; by rewrite Hp..|done].
      simpl. rewrite Hb. symmetry. by apply NodeCache.cost_of_perm.
    + intros c a n. unfold NodeCache.items in *. simpl. rewrite Hp. apply Hs.
  - eexists. split; [done|]. intros v Hv. destruct e as [[a n]|]; [|done].
    exists cv, a. split; [done|]. split; [|done]. eapply Hs. by apply Hin.
Qed.

Lemma cacheAdd_run {T} (inj : T -> AnyNode) c v n (h : Eng) r h' :
  cacheAdd inj c v n h = (r, h') -> engine_inv h -> 0 <= n ->
  (forall cv, c = Some cv -> any_served cv (inj v)) ->
  engine_le h h' /\ engine_inv h' /\ r = Ok tt.
Proof.
  unfold cacheAdd. destruct c as [cv|]; intros H HI Hn Hs.
  2: { by injection H as <- <-. }
  injection H as <- <-. split; [by split|]. split; [|done].
  unfold engine_inv in *. simpl. destruct (cache h) as [nc|]; [|done].
  destruct HI as [HI Hold].
  destruct (NodeCache.add_inv nc cv (inj v) n HI Hn) as (nc' & -> & ? & _ & Hsub).
  split; [done|]. intros c a k [[= -> -> ->]|?]%Hsub; eauto.
Qed.

(** Any typed store over the engine's blocks and cache. *)
Lemma store_world {T} enc dec (inj : T -> AnyNode) proj :
  (forall a v, proj a = Some v -> a = inj v) ->
  (forall c v, any_served c (inj v) <-> exists b, addresses c b /\ dec b = Ok v) ->
  NodeWorld engine_inv engine_le (mkNodeStore Get Put enc dec (cacheGet proj) (cacheAdd inj)).
Proof.
  intros Hproj Hs. split; [apply _|exact Get_run|exact Put_run| |].
  - intros c w r w' H HI. cbn [cache_get] in H. apply cacheGet_run in H as (? & ? & o & -> & Ho); [|done].
    split; [done|]. split; [done|]. exists o. split; [done|].
    intros v (cv & a & -> & Ha & ->%Hproj)%Ho. apply Hs in Ha as (b & ? & ?). by exists cv, b.
  - intros c v n w r w' H HI Hn (cv & b & -> & ? & ?).
    cbn [cache_add] in H. apply cacheAdd_run in H; try done.
    intros ? [= <-]. apply Hs. by exists b.
Qed.

#[global] Instance segs_world : NodeWorld engine_inv engine_le segs.
Proof. apply store_world; [by intros [] ? [= ->]|done]. Qed.
#[global] Instance dirs_world : NodeWorld engine_inv engine_le dirs.
Proof. apply store_world; [by intros [] ? [= ->]|done]. Qed.
#[global] Instance heads_world : NodeWorld engine_inv engine_le heads.
Proof. apply store_world; [by intros [] ? [= ->]|done]. Qed.

(** ** Canonical CIDs *)

(** The CID an object has, whoever writes it. *)
Definition cid_of {A} (r : res (A * Cid)) : Cid :=
  match r with Ok (_, c) => c | Err _ => None end.
Definition seg_cid (s : Segment) : Cid := cid_of (EncodeSegment s).
Definition dir_cid (kids : list Cid) : Cid := cid_of (EncodeDirNode (mkDirNode kids)).
Definition head_cid (x : Head) : Cid := cid_of (EncodeHead x).

Lemma dir_cid_defined kids : exists c, dir_cid kids = Some c.
Proof.
  unfold dir_cid. destruct (EncodeDirNode_ok (mkDirNode kids)) as (b & c & -> & (cv & -> & _) & _).
  simpl. eauto.
Qed.

Lemma dir_cid_trim kids : dir_cid (trimTrailingNulls kids) = dir_cid kids.
Proof. unfold dir_cid, EncodeDirNode. cbn [Kids]. by rewrite trim_idem. Qed.

Lemma dir_read kids (h : Eng) r h' :
  GetNode dirs (dir_cid kids) h = (r, h') -> engine_inv h ->
  engine_le h h' /\ engine_inv h' /\
  match r with Ok d => d = mkDirNode (trimTrailingNulls kids) | Err e => store_err e end.
Proof.
  unfold dir_cid. destruct (EncodeDirNode_ok (mkDirNode kids)) as (b & c & -> & Hc & Hd).
  intros. eapply (GetNode_canonical engine_inv engine_le dirs); eauto.
Qed.

(** An encoding exists and is within the per-node boundary. *)
Definition fits (r : res (bytes * Cid)) : bool :=
  match r with Ok (b, _) => len b <=? MaxIndexNodeBytes | Err _ => false end.

Lemma fits_inv r : fits r = true -> exists b c, r = Ok (b, c) /\ len b <= MaxIndexNodeBytes.
Proof. destruct r as [[b c]|]; [|done]. intros ?%Z.leb_le. eauto. Qed.

(** A segment that can be written. *)
Definition seg_enc (s : Segment) : Prop := segment_u64 s /\ fits (EncodeSegment s) = true.

Lemma seg_enc_inv s : seg_enc s -> exists b, EncodeSegment s = Ok (b, seg_cid s) /\
  node_cid (seg_cid s) b /\ DecodeSegment b = Ok s.
Proof.
  intros [Hu (b & c & E & _)%fits_inv]. unfold seg_cid. rewrite E.
  apply DecodeSegment_encoded in E as E'; [|done]. destruct E'. simpl. eauto.
Qed.

Lemma seg_read s (h : Eng) r h' :
  seg_enc s -> GetNode segs (seg_cid s) h = (r, h') -> engine_inv h ->
  engine_le h h' /\ engine_inv h' /\ match r with Ok s' => s' = s | Err e => store_err e end.
Proof.
  intros (b & _ & Hc & Hd)%seg_enc_inv. intros.
  eapply (GetNode_canonical engine_inv engine_le segs); eauto.
Qed.

Lemma seg_decode s (h : Eng) r h' :
  seg_enc s -> decode segs (seg_cid s) h = (r, h') -> engine_inv h ->
  engine_le h h' /\ engine_inv h' /\ match r with Ok (s', _) => s' = s | Err e => store_err e end.
Proof.
  intros (b & _ & Hc & Hd)%seg_enc_inv. intros.
  eapply (decode_canonical engine_inv engine_le segs); eauto.
Qed.

Lemma seg_cid_defined s : seg_enc s -> exists c, seg_cid s = Some c.
Proof. intros (b & _ & (cv & -> & _) & _)%seg_enc_inv. eauto. Qed.

(** ** Writing *)

(** The errors a write can end in: never one of the internal kinds. *)
Definition external (e : err) : Prop :=
  match e with EInternal _ | EDirty | EEmpty | EDiverges => False | _ => True end.

Lemma store_err_external e : store_err e -> external e.
Proof. intros [-> | [-> | [-> | ->]]]; done. Qed.

Lemma admit_run kind n (h : Eng) r h' :
  admitEncodedIndex kind n h = (r, h') -> engine_inv h ->
  engine_le h h' /\ engine_inv h' /\
  match r with Ok _ => n <= MaxIndexNodeBytes | Err e => external e end.
Proof.
  unfold admitEncodedIndex. destruct (Z.ltb_spec MaxIndexNodeBytes n).
  { intros [= <- <-]. done. }
  unfold bind, gets. destruct (applyStats h); intros [= <- <-] HI; [split; [by split|]|]; done.
Qed.

(** Encoding errors are the refusals of [schema], never internal. *)
Lemma validateEntries_err es e : validateEntries es = Err e -> external e.
Proof. induction es as [|x es IH]; simpl; [done|]. destruct (Defined _); simpl; [auto|by intros [= <-]]. Qed.

Lemma validateRows_err s0 prev rows e : validateRows s0 prev rows = Err e -> external e.
Proof.
  revert prev. induction rows as [|r rows IH]; intros prev; [done|]. cbn [validateRows].
  repeat match goal with |- (if ?b then _ else _) = _ -> _ => destruct b; [by intros [= <-]|] end.
  destruct (validateEntries _) as [[]|] eqn:E; simpl; [apply IH|].
  intros [= <-]. by eapply validateEntries_err.
Qed.

Lemma checkSlots_err rows e : checkSlots rows = Err e -> external e.
Proof.
  induction rows as [|r rows IH]; [done|]. cbn [checkSlots]. unfold checkCBORInt. case_match; simpl; [|auto].
  by intros [= <-].
Qed.

Lemma encodeNode_err n e : encodeNode n = Err e -> external e.
Proof.
  unfold encodeNode, NodeCID, sumWith. case_match; [|by intros [= <-]].
  destruct (prefix_sum _ _); simpl; [done|by intros [= <-]].
Qed.

Lemma EncodeSegment_err s e : EncodeSegment s = Err e -> external e.
Proof.
  unfold EncodeSegment, Segment_Validate, checkCBORInt.
  destruct (validateRows _ _ _) as [[]|] eqn:E; simpl; [|intros [= <-]; by eapply validateRows_err].
  case_match; simpl; [by intros [= <-]|].
  destruct (checkSlots _) as [[]|] eqn:E2; simpl; [|intros [= <-]; by eapply checkSlots_err].
  apply encodeNode_err.
Qed.

Lemma EncodeHead_err x e : EncodeHead x = Err e -> external e.
Proof.
  unfold EncodeHead, Head_Validate, ValidateHeadName, checkCBORInt.
  repeat (case_match; simpl; try (by intros [= <-])); apply encodeNode_err.
Qed.

Lemma encodeNode_cid n b c : encodeNode n = Ok (b, c) -> node_cid c b.
Proof.
  unfold encodeNode. destruct (cbor_encode n) as [b'|]; [|done].
  destruct (NodeCID_ok b') as (c' & -> & Hn). simpl. by intros [= <- <-].
Qed.

(** Commit of a fresh node in any of the engine's stores: the CID is the
    canonical one, or the error is an external one. *)
Lemma put_canonical {T} (ns : NodeStore Eng T) (enc : T -> res (bytes * Cid)) v (h : Eng) r h' :
  NodeWorld engine_inv engine_le ns ->
  (forall b c, enc v = Ok (b, c) -> node_cid c b) ->
  (forall h1 r1 h1', Encode ns v h1 = (r1, h1') -> engine_inv h1 ->
     engine_le h1 h1' /\ engine_inv h1' /\
     match r1 with
     | Ok (b, c) => enc v = Ok (b, c) /\ len b <= MaxIndexNodeBytes
     | Err e => external e
     end) ->
  Commit ns (NewNode v) h = (r, h') -> engine_inv h ->
  engine_le h h' /\ engine_inv h' /\
  match r with
  | Ok (c, p) => c = cid_of (enc v) /\ fits (enc v) = true /\ p = mkPointer c (Some v) false
  | Err e => external e
  end.
Proof.
  intros NW Hcid Henc H HI. unfold Commit, NewNode in H. cbn [pdirty negb pval] in H.
  unfold PutNode in H.
  apply bind_run in H as [(c & h1 & Hp & H)|(e & Hp & ->)].
  - injection H as <- <-.
    apply bind_run in Hp as [([b c'] & h2 & He & Hp)|(e & He & ?)]; [|done].
    apply Henc in He as (HR & HI2 & He & Hlen); [|done].
    destruct (Hcid _ _ He) as (cv & -> & Hv & Ha).
    apply bind_run in Hp as [([] & h3 & Hq & Hp)|(e & Hq & ?)]; [|done].
    injection Hp as <- <-. apply (nw_put (ns:=ns)) in Hq as (HR3 & HI3 & _); [|done..].
    split; [by etrans|]. split; [done|]. rewrite He. split; [done|]. split; [|done]. by apply Z.leb_le.
  - apply bind_run in Hp as [([b c'] & h2 & He & Hp)|(e' & He & [= <-])];
      apply Henc in He as (HR & HI2 & He); try done. destruct He as [He _].
    destruct (Hcid _ _ He) as (cv & -> & Hv & Ha).
    apply bind_run in Hp as [([] & h3 & Hq & Hp)|(e' & Hq & [= <-])]; [done|].
    apply (nw_put (ns:=ns)) in Hq as (HR3 & HI3 & Hs); [|done..].
    split; [by etrans|]. split; [done|]. by apply store_err_external.
Qed.

Lemma engine_le_seen f (h : Eng) :
  cur (f h) = cur h -> blocks (f h) = blocks h -> cache (f h) = cache h -> engine_inv h ->
  engine_le h (f h) /\ engine_inv (f h).
Proof.
  intros Hc Hb Hca HI. split; [split; rewrite ?Hb; auto|]. unfold engine_inv. by rewrite Hca.
Qed.

Lemma seg_commit s (h : Eng) r h' :
  Commit segs (NewNode s) h = (r, h') -> engine_inv h ->
  engine_le h h' /\ engine_inv h' /\
  match r with
  | Ok (c, p) => c = seg_cid s /\ fits (EncodeSegment s) = true /\ p = mkPointer c (Some s) false
  | Err e => external e
  end.
Proof.
  apply (put_canonical segs EncodeSegment); [apply _| |].
  - intros b c (_ & _ & _ & ?)%EncodeSegment_inv. by eapply encodeNode_cid.
  - clear. intros h r h' H HI. cbn [Encode segs] in H. unfold encodeSegment in H.
    apply bind_run in H as [([b c] & h1 & He & H)|(e & He & ->)]; injection He as He <-.
    2: { split; [done|]. split; [done|]. by eapply EncodeSegment_err. }
    apply bind_run in H as [([] & h1 & Hm & H)|(e & Hm & ->)]; [|done]. injection Hm as <-.
    destruct (engine_le_seen (set_segmentEncodedBytes (len b)) h) as [HR1 HI1]; try done.
    apply bind_run in H as [([] & h2 & Ha & H)|(e & Ha & ->)];
      apply admit_run in Ha as (HR2 & HI2 & Ha); try done.
    + injection H as <- <-. split; [by etrans|]. done.
    + split; [by etrans|]. done.
Qed.

Lemma dir_commit kids (h : Eng) r h' :
  Commit dirs (NewNode (mkDirNode kids)) h = (r, h') -> engine_inv h ->
  engine_le h h' /\ engine_inv h' /\
  match r with Ok (c, _) => c = dir_cid kids | Err e => external e end.
Proof.
  intros H HI.
  apply (put_canonical dirs EncodeDirNode) in H as (? & ? & Hr); [|apply _| | |done].
  - split; [done|]. split; [done|]. destruct r as [[c p]|]; [|done]. by destruct Hr.
  - intros b c. unfold EncodeDirNode. simpl. apply encodeNode_cid.
  - clear. intros h r h' H HI. cbn [Encode dirs] in H. unfold encodeDirNode in H.
    apply bind_run in H as [([b c] & h1 & He & H)|(e & He & ->)]; injection He as He <-.
    2: { split; [done|]. split; [done|]. unfold EncodeDirNode in He. simpl in He. by eapply encodeNode_err. }
    apply bind_run in H as [([] & h2 & Ha & H)|(e & Ha & ->)];
      apply admit_run in Ha as (HR2 & HI2 & Ha); try done.
    by injection H as <- <-.
Qed.

Lemma head_commit x (h : Eng) r h' :
  Commit heads (NewNode x) h = (r, h') -> engine_inv h ->
  engine_le h h' /\ engine_inv h' /\
  match r with
  | Ok (c, _) => c = head_cid x /\ fits (EncodeHead x) = true
  | Err e => external e
  end.
Proof.
  intros H HI.
  apply (put_canonical heads EncodeHead) in H as (? & ? & Hr); [|apply _| | |done].
  - split; [done|]. split; [done|]. destruct r as [[c p]|]; [|done]. by destruct Hr as (? & ? & ?).
  - intros b c (_ & _ & _ & _ & _ & _ & ?)%EncodeHead_inv. by eapply encodeNode_cid.
  - clear. intros h r h' H HI. cbn [Encode heads] in H. unfold encodeHead in H.
    apply bind_run in H as [([b c] & h1 & He & H)|(e & He & ->)]; injection He as He <-.
    2: { split; [done|]. split; [done|]. by eapply EncodeHead_err. }
    apply bind_run in H as [([] & h2 & Ha & H)|(e & Ha & ->)];
      apply admit_run in Ha as (HR2 & HI2 & Ha); try done.
    by injection H as <- <-.
Qed.

(** Publication is the only step that changes the published state, and it
    changes it to the state it was given, under its canonical root. *)
Lemma publish_run st (h : Eng) r h' :
  publish st h = (r, h') -> engine_inv h ->
  engine_inv h' /\ keeps h h' /\
  match r with
  | Ok st' => st' = set_root (head_cid (headObject st)) st /\ cur h' = st' /\
              fits (EncodeHead (headObject st)) = true
  | Err e => cur h' = cur h /\ external e
  end.
Proof.
  unfold publish. intros H HI.
  apply bind_run in H as [([c p] & h1 & Hc & H)|(e & Hc & ->)];
    apply head_commit in Hc as (HR & HI1 & Hr); try done.
  - destruct Hr as [-> Hok].
    apply bind_run in H as [([] & h2 & Hm & H)|(e & Hm & ?)]; [|done].
    injection Hm as <-. injection H as <- <-. split; [exact HI1|].
    split; [exact (engine_le_keeps _ _ HR)|]. done.
  - split; [done|]. split; [exact (engine_le_keeps _ _ HR)|]. split; [apply HR|done].
Qed.
End World.
