(* ===== verification/Dir.v ===== *)
(** The directory: archive/dir.go.

    An append-only radix tree of directory pages, addressed by arithmetic.  The
    operations are translated as they are; [canon_dir] is the one tree a fresh
    build of a list of entries has, and the theorems say that appending,
    truncating and shrinking move between such trees, so that a directory's
    root CID depends only on the entries it holds. *)
From S2P Require Import Prelude Arith Cid Schema Core Engine EngineWorld.

Section Dir.
Context `{MH : Multihash} `{CB : !DagCbor} {Sto : Type} `{BS : !Blockstore Sto}.
Context {L : Type} `{LR : !Lru CidV (AnyNode * Z) L}.
Local Abbreviation Eng := (@Engine MH Sto L).

(** for uint64(len(kids)) < n { kids = append(kids, cid.Undef) } *)
Definition growTo (kids : list Cid) (n : Z) : list Cid :=
  kids ++ replicate (Z.to_nat n - length kids) Undef.

Definition clampTo (kids : list Cid) (n : Z) : list Cid :=
  if n <? len kids then take (Z.to_nat n) kids else kids.

(** [kids[d]], when in range. *)
Definition kidAt (kids : list Cid) (d : Z) : Cid := default Undef (kids !! Z.to_nat d).

Definition loadKids (node : Cid) : M Eng (list Cid) :=
  if negb (Defined node) then ret []
  else n <-- GetNode dirs node ;; ret (Kids n).

Definition commitDir (kids : list Cid) : M Eng Cid :=
  let* (c, _) := Commit dirs (NewNode (mkDirNode kids)) in ret c.

Fixpoint dirSet (node : Cid) (digits : list Z) (kid : Cid) : M Eng Cid :=
  match digits with
  | [] => ret kid
  | d :: rest =>
    kids <-- loadKids node ;;
    let child := if d <? len kids then kidAt kids d else Undef in
    newChild <-- dirSet child rest kid ;;
    let kids := growTo kids (d + 1) in
    commitDir (<[Z.to_nat d := newChild]> kids)
  end.

Definition dirAppend (dir : Cid) (depth fanoutBits i : Z) (kid : Cid) : M Eng (Cid * Z) :=
  if depth =? 0 then
    fail_if negb (i =? 0) with EInternal "first directory append must be index 0" ;;
    c <-- commitDir [kid] ;; ret (c, 1)
  else
    let full := capacity depth fanoutBits in
    let* (dir, depth) :=
      if i =? full then c <-- commitDir [dir] ;; ret (c, depth + 1)
      else if full <? i then fail (EInternal "directory append past capacity")
      else ret (dir, depth) in
    match pathDigits i depth fanoutBits with
    | None => fail (EInternal "index does not fit the directory")
    | Some digits => newDir <-- dirSet dir digits kid ;; ret (newDir, depth)
    end.

Fixpoint dirTruncate (node : Cid) (digits : list Z) : M Eng Cid :=
  match digits with
  | [] => fail (EInternal "dirTruncate of no digits")  (* digits[0] panics *)
  | d :: rest =>
    kids <-- loadKids node ;;
    match rest with
    | [] => commitDir (clampTo kids d)
    | _ :: _ =>
      if allZero rest then commitDir (clampTo kids d)
      else
        fail_if (len kids <=? d) || negb (Defined (kidAt kids d))
          with EInternal "directory page has no child" ;;
        child <-- dirTruncate (kidAt kids d) rest ;;
        let kids := growTo (clampTo kids d) (d + 1) in
        commitDir (<[Z.to_nat d := child]> kids)
    end
  end.

(** for depth > 1 { ... }; one round per level, so the depth is enough fuel. *)
Fixpoint shrinkLoop (fuel : nat) (dir : Cid) (depth : Z) : M Eng (Cid * Z) :=
  match fuel with
  | O => fail EDiverges
  | S fuel' =>
    if negb (1 <? depth) then ret (dir, depth) else
    node <-- GetNode dirs dir ;;
    if negb (len (Kids node) =? 1) || negb (Defined (kidAt (Kids node) 0)) then ret (dir, depth)
    else shrinkLoop fuel' (kidAt (Kids node) 0) (depth - 1)
  end.

Definition dirShrink (dir : Cid) (depth : Z) : M Eng (Cid * Z) :=
  shrinkLoop (S (Z.to_nat depth)) dir depth.

(** ** The canonical directory of a list of entries *)

Definition capN (fb : Z) (d : nat) : nat := Z.to_nat (2 ^ (fb * Z.of_nat d)).

(** The [i]th run of [cap] entries. *)
Definition chunk {A} (cap i : nat) (es : list A) : list A := take cap (drop (i * cap) es).
Definition nchunks (cap n : nat) : nat := (n + cap - 1) / cap.

Fixpoint canon_dir (fb : Z) (d : nat) (es : list Cid) : Cid :=
  match d with
  | O => default Undef (head es)
  | S d' =>
    let cap := capN fb d' in
    dir_cid ((fun i => canon_dir fb d' (chunk cap i es)) <$> seq 0 (nchunks cap (length es)))
  end.

Definition pages (fb : Z) (d : nat) (es : list Cid) : list Cid :=
  (fun i => canon_dir fb d (chunk (capN fb d) i es)) <$> seq 0 (nchunks (capN fb d) (length es)).

Lemma canon_dir_S fb d es : canon_dir fb (S d) es = dir_cid (pages fb d es).
Proof. done. Qed.

(** A subtree that holds no entry does not exist. *)
Definition node_of (fb : Z) (d : nat) (es : list Cid) : Cid :=
  match es with [] => Undef | _ => canon_dir fb d es end.

(** The directory root of a head with entries [es] at its canonical depth. *)
Definition canon_depth (fb : Z) (n : nat) : Z := canonicalDepth (Z.of_nat n) fb.
Definition canon_root (fb : Z) (es : list Cid) : Cid :=
  node_of fb (Z.to_nat (canon_depth fb (length es))) es.

(** ** Trimmed lists are determined by their lookups *)

Lemma trim_lookup (l : list Cid) i : mjoin (trimTrailingNulls l !! i) = mjoin (l !! i).
Proof.
  revert i. induction l as [|k l IH]; intros i; [done|]. cbn [trimTrailingNulls].
  destruct (trimTrailingNulls l) as [|t ts] eqn:E.
  - destruct i as [|i]; [by destruct k|]. simpl. rewrite <- (IH i).
    by destruct k.
  - destruct i as [|i]; [done|]. simpl. apply (IH i).
Qed.

Lemma trim_ext (a b : list Cid) :
  (forall i, mjoin (a !! i) = mjoin (b !! i)) -> trimTrailingNulls a = trimTrailingNulls b.
Proof.
  revert b. induction a as [|x a IH]; intros b H.
  - symmetry. simpl. induction b as [|y b IHb]; [done|]. cbn [trimTrailingNulls].
    rewrite IHb by (intros i; apply (H (S i))). specialize (H 0%nat). simpl in H. by rewrite <- H.
  - destruct b as [|y b].
    + cbn [trimTrailingNulls]. rewrite (IH []) by (intros i; apply (H (S i))).
      specialize (H 0%nat). simpl in H. by rewrite H.
    + cbn [trimTrailingNulls]. rewrite (IH b) by (intros i; apply (H (S i))).
      specialize (H 0%nat). simpl in H. by rewrite H.
Qed.

Lemma dir_cid_ext (a b : list Cid) :
  (forall i, mjoin (a !! i) = mjoin (b !! i)) -> dir_cid a = dir_cid b.
Proof. intros H. rewrite <- (dir_cid_trim a), <- (dir_cid_trim b). f_equal. by apply trim_ext. Qed.

Lemma trim_length_le (l : list Cid) : (length (trimTrailingNulls l) <= length l)%nat.
Proof.
  induction l as [|k l IH]; [done|]. cbn [trimTrailingNulls].
  destruct (trimTrailingNulls l); [destruct k|]; simpl in *; lia.
Qed.

Lemma trim_defined (l : list Cid) : Forall (fun c => Defined c = true) l -> trimTrailingNulls l = l.
Proof.
  induction 1 as [|k l Hk _ IH]; [done|]. cbn [trimTrailingNulls]. rewrite IH.
  destruct l; [by rewrite Hk|done].
Qed.

(** ** Chunks *)

Lemma capN_pos fb d : 0 <= fb -> (0 < capN fb d)%nat.
Proof. intros. unfold capN. pose proof (pow2_pos' (fb * Z.of_nat d)). lia. Qed.
Lemma capN_Z fb d : 0 <= fb -> Z.of_nat (capN fb d) = 2 ^ (fb * Z.of_nat d).
Proof. intros. unfold capN. pose proof (pow2_pos' (fb * Z.of_nat d)). lia. Qed.
Lemma capN_0 fb : capN fb 0 = 1%nat.
Proof. unfold capN. by rewrite Z.mul_0_r. Qed.

Lemma nchunks_lt cap n i : (0 < cap)%nat -> (i < nchunks cap n)%nat <-> (i * cap < n)%nat.
Proof.
  intros Hc. unfold nchunks. split; intros H.
  - pose proof (Nat.Div0.mul_div_le (n + cap - 1) cap). nia.
  - apply Nat.div_le_lower_bound; lia || nia.
Qed.

Lemma pages_lookup fb d es i :
  0 <= fb ->
  mjoin (pages fb d es !! i) = node_of fb d (chunk (capN fb d) i es).
Proof.
  intros Hfb. unfold pages. rewrite list_lookup_fmap.
  pose proof (capN_pos fb d Hfb) as Hc.
  destruct (decide (i < nchunks (capN fb d) (length es))%nat) as [Hi|Hi].
  - rewrite lookup_seq_lt by done. simpl. apply nchunks_lt in Hi; [|done].
    unfold node_of. destruct (chunk _ i es) eqn:E; [|done].
    apply (f_equal length) in E. unfold chunk in E.
    rewrite length_take, length_drop in E. simpl in E. lia.
  - rewrite lookup_seq_ge by lia. simpl. rewrite nchunks_lt in Hi by done.
    unfold chunk. rewrite drop_ge by lia. rewrite take_nil. done.
Qed.

Lemma pages_0 fb es : 0 <= fb -> forall i, mjoin (pages fb 0 es !! i) = mjoin (es !! i).
Proof.
  intros Hfb i. rewrite pages_lookup by done. unfold chunk. rewrite capN_0, Nat.mul_1_r.
  destruct (es !! i) as [x|] eqn:E.
  - rewrite (drop_S es x i E). simpl. done.
  - apply lookup_ge_None in E. rewrite drop_ge by done. done.
Qed.

(** ** Running the page operations on canonical trees *)

Context `{BO : !BlockstoreOk Sto}.

Lemma pages_nil fb d : 0 <= fb -> pages fb d [] = [].
Proof.
  intros. unfold pages, nchunks. simpl. pose proof (capN_pos fb d H).
  by rewrite Nat.div_small by lia.
Qed.

Lemma loadKids_run fb d es (h : Eng) r h' :
  0 <= fb -> loadKids (node_of fb (S d) es) h = (r, h') -> engine_inv h ->
  engine_le h h' /\ engine_inv h' /\
  match r with Ok kids => kids = trimTrailingNulls (pages fb d es) | Err e => store_err e end.
Proof.
  intros Hfb H HI. unfold loadKids in H. destruct es as [|e es].
  { simpl in H. injection H as <- <-. by rewrite pages_nil. }
  unfold node_of in H. rewrite canon_dir_S in H.
  destruct (dir_cid_defined (pages fb d (e :: es))) as [c Hc].
  rewrite Hc in H. cbn [Defined negb] in H. rewrite <- Hc in H.
  apply bind_run in H as [(n & h1 & Hg & H)|(x & Hg & ->)];
    apply dir_read in Hg as (? & ? & Hr); try done.
  injection H as <- <-. by subst n.
Qed.

Lemma commitDir_run kids (h : Eng) r h' :
  commitDir kids h = (r, h') -> engine_inv h ->
  engine_le h h' /\ engine_inv h' /\
  match r with Ok c => c = dir_cid kids | Err e => external e end.
Proof.
  intros H HI. apply bind_run in H as [([c p] & h1 & Hc & H)|(e & Hc & ->)];
    apply dir_commit in Hc as (? & ? & Hr); try done.
  by injection H as <- <-.
Qed.

Lemma kidAt_trim fb d es (i : nat) :
  0 <= fb -> kidAt (trimTrailingNulls (pages fb d es)) (Z.of_nat i)
             = node_of fb d (chunk (capN fb d) i es).
Proof.
  intros Hfb. unfold kidAt. rewrite Nat2Z.id, <- pages_lookup, <- trim_lookup by done.
  by destruct (_ !! i).
Qed.

Lemma kid_in_range (kids : list Cid) (d : nat) :
  (if Z.of_nat d <? len kids then kidAt kids (Z.of_nat d) else Undef) = kidAt kids (Z.of_nat d).
Proof.
  unfold len, kidAt. destruct (Z.ltb_spec (Z.of_nat d) (Z.of_nat (length kids))); [done|].
  rewrite Nat2Z.id. by rewrite lookup_ge_None_2 by lia.
Qed.

(** [growTo kids (d+1); kids[d] = x]: every kid but [d] keeps its value. *)
Lemma set_grown_lookup (kids : list Cid) (d : nat) x i :
  mjoin (<[Z.to_nat (Z.of_nat d) := x]> (growTo kids (Z.of_nat d + 1)) !! i)
  = if decide (i = d) then x else mjoin (kids !! i).
Proof.
  rewrite Nat2Z.id. unfold growTo. replace (Z.to_nat (Z.of_nat d + 1)) with (S d) by lia.
  destruct (decide (i = d)) as [->|Hne].
  - rewrite list_lookup_insert_eq; [done|]. rewrite length_app, length_replicate. lia.
  - rewrite list_lookup_insert_ne by done. destruct (decide (i < length kids)%nat).
    + by rewrite lookup_app_l by done.
    + rewrite lookup_app_r by lia. rewrite (lookup_ge_None_2 kids) by lia.
      destruct (replicate _ _ !! _) eqn:E; [|done]. by apply lookup_replicate in E as [-> _].
Qed.

(** Writing the digit of a natural number as a natural number. *)
Lemma div_nat n fb d : 0 <= fb ->
  Z.of_nat n / 2 ^ (fb * Z.of_nat d) = Z.of_nat (n / capN fb d).
Proof. intros. rewrite <- capN_Z by done. by rewrite <- Nat2Z.inj_div. Qed.
Lemma mod_nat n fb d : 0 <= fb ->
  Z.of_nat n mod 2 ^ (fb * Z.of_nat d) = Z.of_nat (n mod capN fb d).
Proof. intros. rewrite <- capN_Z by done. by rewrite <- Nat2Z.inj_mod. Qed.

Lemma chunk_app_l {A} cap i (es fs : list A) :
  ((i + 1) * cap <= length es)%nat -> chunk cap i (es ++ fs) = chunk cap i es.
Proof.
  intros. unfold chunk. rewrite drop_app_le by nia. rewrite take_app_le; [done|].
  rewrite length_drop. nia.
Qed.

Lemma chunk_last {A} cap (es : list A) :
  (0 < cap)%nat -> chunk cap (length es / cap) es = drop (length es / cap * cap) es.
Proof.
  intros. unfold chunk. apply take_ge. rewrite length_drop.
  pose proof (Nat.div_mod_eq (length es) cap). pose proof (Nat.mod_upper_bound (length es) cap). nia.
Qed.

Lemma chunk_past {A} cap i (es : list A) : (length es <= i * cap)%nat -> chunk cap i es = [].
Proof. intros. unfold chunk. by rewrite drop_ge, take_nil. Qed.

(** The pages of [es ++ [x]]: the last chunk grew, every other is as before. *)
Lemma pages_snoc fb d es x i :
  0 <= fb ->
  mjoin (pages fb d (es ++ [x]) !! i)
  = if decide (i = length es / capN fb d)%nat
    then canon_dir fb d (chunk (capN fb d) (length es / capN fb d) es ++ [x])
    else mjoin (pages fb d es !! i).
Proof.
  intros Hfb. pose proof (capN_pos fb d Hfb) as Hc. rewrite !pages_lookup by done.
  pose proof (Nat.div_mod_eq (length es) (capN fb d)) as Hdm.
  pose proof (Nat.mod_upper_bound (length es) (capN fb d) ltac:(lia)) as Hmb.
  set (cap := capN fb d) in *. set (q := (length es / cap)%nat) in *.
  destruct (decide (i = q)) as [->|Hne].
  - assert (Heq : chunk cap q (es ++ [x]) = chunk cap q es ++ [x]).
    { unfold q at 2. rewrite chunk_last by done. fold q. unfold chunk.
      rewrite drop_app_le by nia. rewrite take_ge; [done|].
      rewrite length_app, length_drop. simpl. nia. }
    rewrite Heq. unfold node_of. by destruct (chunk cap q es).
  - destruct (decide (i < q)%nat).
    + rewrite chunk_app_l by nia. done.
    + rewrite !chunk_past; [done|nia|]. rewrite length_app. simpl. nia.
Qed.

(** Setting the entry one past the end of a canonical tree that has room. *)
Lemma dirSet_append fb d es kid (h : Eng) r h' :
  fan_ok fb -> (length es < capN fb d)%nat ->
  dirSet (node_of fb d es) (digitsOf fb d (Z.of_nat (length es))) kid h = (r, h') ->
  engine_inv h ->
  engine_le h h' /\ engine_inv h' /\
  match r with Ok c => c = canon_dir fb d (es ++ [kid]) | Err e => external e end.
Proof.
  intros Hf. assert (Hfb : 0 <= fb) by (destruct Hf; lia).
  revert es h r h'. induction d as [|d IH]; intros es h r h' Hlen H HI.
  { rewrite capN_0 in Hlen. destruct es; [|simpl in Hlen; lia]. simpl in H.
    injection H as <- <-. done. }
  pose proof (capN_pos fb d Hfb) as Hc.
  cbn [digitsOf dirSet] in H. rewrite div_nat, mod_nat in H by done.
  set (q := (length es / capN fb d)%nat) in *.
  apply bind_run in H as [(kids & h1 & Hk & H)|(e & Hk & ->)];
    apply loadKids_run in Hk as (HR1 & HI1 & Hr); try done.
  2: { split; [done|]. split; [done|]. by apply store_err_external. }
  subst kids. rewrite kid_in_range, kidAt_trim in H by done.
  unfold q in H at 1. rewrite chunk_last in H by done. fold q in H.
  assert (Hl : length (drop (q * capN fb d) es) = (length es mod capN fb d)%nat).
  { rewrite length_drop. pose proof (Nat.div_mod_eq (length es) (capN fb d)). nia. }
  rewrite <- Hl in H.
  apply bind_run in H as [(nc & h2 & Hs & H)|(e & Hs & ->)];
    apply IH in Hs as (HR2 & HI2 & Hr);
    try (rewrite Hl; apply Nat.mod_upper_bound; lia); try done.
  2: { split; [by etrans|]. done. }
  subst nc. apply commitDir_run in H as (HR3 & HI3 & Hr); [|done].
  split; [by do 2 (etrans; [done|])|]. split; [done|]. destruct r; [|done].
  subst a. rewrite canon_dir_S. apply dir_cid_ext. intros i.
  rewrite set_grown_lookup, pages_snoc, trim_lookup by done.
  rewrite chunk_last by done. done.
Qed.

(** ** Appending *)

Lemma canon_dir_1 fb es : 0 <= fb -> canon_dir fb 1 es = dir_cid es.
Proof. intros. rewrite canon_dir_S. apply dir_cid_ext. by apply pages_0. Qed.

(** A full tree becomes the only page of its new root. *)
Lemma canon_dir_full fb d es :
  0 <= fb -> es <> [] -> (length es <= capN fb d)%nat ->
  canon_dir fb (S d) es = dir_cid [canon_dir fb d es].
Proof.
  intros Hfb Hne Hl. rewrite canon_dir_S. apply dir_cid_ext. intros i.
  rewrite pages_lookup by done. destruct i as [|i].
  - unfold chunk. simpl. rewrite drop_0, take_ge by done. by destruct es.
  - rewrite chunk_past by nia. done.
Qed.

(** The canonical depth of [n] entries is the least one that holds them. *)
Lemma canon_depth_spec fb n :
  fan_ok fb -> is_u64 (Z.of_nat n) -> (0 < n)%nat ->
  exists d, canon_depth fb n = Z.of_nat (S d) /\ (S d <= 64)%nat /\ (n <= capN fb (S d))%nat /\
    (d = 0%nat \/ (capN fb d < n)%nat).
Proof.
  intros Hf Hu Hn. assert (Hfb : 0 <= fb) by (destruct Hf; lia).
  unfold canon_depth. pose proof (canonicalDepth_pos (Z.of_nat n) fb Hf Hu ltac:(lia)) as Hp.
  exists (Z.to_nat (canonicalDepth (Z.of_nat n) fb) - 1)%nat.
  split; [lia|]. split; [lia|].
  assert (Hle : forall d, (1 <= d)%nat -> canonicalDepth (Z.of_nat n) fb <= Z.of_nat d <-> (n <= capN fb d)%nat).
  { intros d Hd. rewrite canonicalDepth_le by done. rewrite <- capN_Z by done. lia. }
  split; [apply Hle; lia|].
  destruct (decide (Z.to_nat (canonicalDepth (Z.of_nat n) fb) = 1)%nat); [left; lia|right].
  apply Nat.nle_gt. rewrite <- Hle by lia. lia.
Qed.

Lemma canon_depth_eq fb n d :
  fan_ok fb -> is_u64 (Z.of_nat n) -> (0 < n)%nat ->
  (n <= capN fb (S d))%nat -> (d = 0%nat \/ (capN fb d < n)%nat) ->
  canon_depth fb n = Z.of_nat (S d).
Proof.
  intros Hf Hu Hn Hle Hlt. assert (Hfb : 0 <= fb) by (destruct Hf; lia).
  assert (Hc : forall d, (1 <= d)%nat -> canonicalDepth (Z.of_nat n) fb <= Z.of_nat d <-> (n <= capN fb d)%nat).
  { intros d' Hd'. rewrite canonicalDepth_le by done. rewrite <- capN_Z by done. lia. }
  unfold canon_depth. pose proof (canonicalDepth_pos (Z.of_nat n) fb Hf Hu ltac:(lia)).
  apply Hc in Hle; [|lia]. destruct (decide (d = 0)%nat) as [->|]; [lia|].
  assert (~ canonicalDepth (Z.of_nat n) fb <= Z.of_nat d); [|lia].
  rewrite Hc by lia. lia.
Qed.

Lemma capN_mono fb a b : 0 <= fb -> (a <= b)%nat -> (capN fb a <= capN fb b)%nat.
Proof. intros. unfold capN. apply Z2Nat.inj_le; try apply Z.pow_nonneg; try lia. apply Z.pow_le_mono_r; nia. Qed.

Lemma capN_S_lt fb d : 1 <= fb -> (capN fb d < capN fb (S d))%nat.
Proof.
  intros. unfold capN. apply Z2Nat.inj_lt; try apply Z.pow_nonneg; try lia. apply Z.pow_lt_mono_r; nia.
Qed.

(** Appending into a tree that has room. *)
Lemma dirAppend_set fb d es kid (h : Eng) r h' :
  fan_ok fb -> (S d <= 64)%nat -> (length es < capN fb (S d))%nat ->
  match pathDigits (Z.of_nat (length es)) (Z.of_nat (S d)) fb with
  | None => fail (EInternal "index does not fit the directory")
  | Some digits =>
    newDir <-- dirSet (canon_dir fb (S d) es) digits kid ;; ret (newDir, Z.of_nat (S d))
  end h = (r, h') ->
  es <> [] -> engine_inv h ->
  engine_le h h' /\ engine_inv h' /\
  match r with
  | Ok (c, d') => c = canon_dir fb (S d) (es ++ [kid]) /\ d' = Z.of_nat (S d)
  | Err e => external e
  end.
Proof.
  intros Hf Hd Hl H Hne HI. assert (Hfb : 0 <= fb) by (destruct Hf; lia).
  rewrite pathDigits_some in H; [|done|lia|unfold digits_ok; rewrite <- capN_Z by done; lia].
  assert (Hn : canon_dir fb (S d) es = node_of fb (S d) es) by (by destruct es).
  rewrite Hn in H.
  apply bind_run in H as [(c & h1 & Hc & H)|(e & Hc & ->)];
    apply dirSet_append in Hc as (? & ? & Hr); try done.
  by injection H as <- <-.
Qed.

Lemma dirAppend_run fb es kid (h : Eng) r h' :
  fan_ok fb -> is_u64 (Z.of_nat (S (length es))) ->
  dirAppend (canon_root fb es) (canon_depth fb (length es)) fb (Z.of_nat (length es)) kid h = (r, h') ->
  engine_inv h ->
  engine_le h h' /\ engine_inv h' /\
  match r with
  | Ok (c, d) => c = canon_root fb (es ++ [kid]) /\ d = canon_depth fb (length (es ++ [kid]))
  | Err e => external e
  end.
Proof.
  intros Hf Hu H HI. assert (Hfb : 0 <= fb) by (destruct Hf; lia).
  assert (Hne : forall c, node_of fb c (es ++ [kid]) = canon_dir fb c (es ++ [kid])) by (by destruct es).
  unfold canon_root. rewrite Hne, length_app. cbn [length].
  unfold dirAppend in H. destruct (decide (length es = 0)%nat) as [Hz|Hnz].
  { destruct es; [|done]. cbn [length app] in *.
    change (canon_depth fb 0) with 0 in H. cbn in H.
    rewrite (canon_depth_eq fb (0 + 1) 0) by (done || (pose proof (capN_pos fb 1 Hfb); lia) || auto).
    change (Z.to_nat (Z.of_nat 1)) with 1%nat. rewrite canon_dir_1 by done.
    apply bind_run in H as [(c & h1 & Hc & H)|(e & Hc & ->)];
      apply commitDir_run in Hc as (? & ? & Hr); try done. by injection H as <- <-. }
  destruct (canon_depth_spec fb (length es)) as (d & Hd & H64 & Hle & Hlt); [done|unfold is_u64 in *; lia|lia|].
  rewrite Hd in H. rewrite (proj2 (Z.eqb_neq _ _)) in H by lia.
  assert (Hroot : canon_root fb es = canon_dir fb (S d) es).
  { unfold canon_root. rewrite Hd, Nat2Z.id. by destruct es. }
  assert (Hcap : Z.of_nat (length es) <= capacity (Z.of_nat (S d)) fb).
  { apply capacity_le; [done|lia|unfold is_u64 in *; lia|]. rewrite <- capN_Z by done. lia. }
  cbv zeta in H. unfold canon_root in H, Hroot. rewrite Hroot in H.
  destruct (Z.eqb_spec (Z.of_nat (length es)) (capacity (Z.of_nat (S d)) fb)) as [He|Hn].
  - assert (Hsm : fb * Z.of_nat (S d) < 64).
    { apply Z.nle_gt. intros Hbig. rewrite capacity_sat in He by (done || lia).
      unfold is_u64, maxUint64 in *. lia. }
    rewrite capacity_exact, <- capN_Z in He by done. apply Nat2Z.inj in He.
    apply bind_run in H as [([c dd] & h1 & Hg & H)|(e & Hg & ->)].
    + apply bind_run_ok in Hg as (c' & h2 & Hc & Hg). injection Hg as <- <- <-.
      apply commitDir_run in Hc as (HR & HI2 & ->); [|done].
      rewrite <- canon_dir_full in H by (done || lia || by destruct es).
      replace (Z.of_nat (S d) + 1) with (Z.of_nat (S (S d))) in H by lia.
      apply dirAppend_set in H as (? & ? & Hr); [|done|destruct Hf; lia|rewrite He; apply capN_S_lt; apply Hf|by destruct es|done].
      split; [by etrans|]. split; [done|]. destruct r as [[c2 d2]|]; [|done]. destruct Hr as [-> ->].
      rewrite (canon_depth_eq fb (length es + 1) (S d)).
      * by rewrite Nat2Z.id.
      * done.
      * unfold is_u64 in *; lia.
      * lia.
      * rewrite He. pose proof (capN_S_lt fb (S d) ltac:(apply Hf)). lia.
      * right. lia.
    + apply bind_run in Hg as [(c' & h2 & Hc & Hg)|(e' & Hc & [= <-])]; [done|].
      by apply commitDir_run in Hc.
  - rewrite (proj2 (Z.ltb_ge _ _)) in H by lia.
    assert (Hlt' : (length es < capN fb (S d))%nat).
    { apply Nat2Z.inj_lt. rewrite capN_Z by done. apply Z.nle_gt. intros Hge.
      assert (Heq : Z.of_nat (length es) = 2 ^ (fb * Z.of_nat (S d))).
      { apply Z.le_antisymm; [|done]. rewrite <- capN_Z by done. lia. }
      apply Hn. destruct (Z_lt_dec (fb * Z.of_nat (S d)) 64).
      - by rewrite capacity_exact.
      - assert (2 ^ 64 <= 2 ^ (fb * Z.of_nat (S d))) by (apply Z.pow_le_mono_r; lia).
        unfold is_u64 in *. lia. }
    apply bind_run in H as [([c dd] & h1 & Hg & H)|(e & Hg & ->)]; [|done].
    injection Hg as <- <- <-.
    apply dirAppend_set in H as (? & ? & Hr); [|done|lia|done|by destruct es|done].
    split; [done|]. split; [done|]. destruct r as [[c2 d2]|]; [|done]. destruct Hr as [-> ->].
    rewrite (canon_depth_eq fb (length es + 1) d); [by rewrite Nat2Z.id|done|unfold is_u64 in *; lia|lia|lia|].
    destruct Hlt; [by left|right; lia].
Qed.

(** ** Truncating *)

Lemma chunk_length {A} cap i (es : list A) :
  length (chunk cap i es) = Nat.min cap (length es - i * cap).
Proof. unfold chunk. by rewrite length_take, length_drop. Qed.

(** The chunks of a prefix: whole ones below the cut, a prefix of the chunk the
    cut falls in, none above. *)
Lemma chunk_take {A} cap m i (es : list A) :
  (0 < cap)%nat -> (m <= length es)%nat ->
  chunk cap i (take m es)
  = if decide (i < m / cap)%nat then chunk cap i es
    else if decide (i = m / cap)%nat then take (m mod cap) (chunk cap i es) else [].
Proof.
  intros Hc Hm. pose proof (Nat.div_mod_eq m cap). pose proof (Nat.mod_upper_bound m cap ltac:(lia)).
  unfold chunk. rewrite List.skipn_firstn_comm, take_take. repeat case_decide.
  - f_equal. nia.
  - subst i. rewrite take_take. f_equal. nia.
  - replace (m - i * cap)%nat with 0%nat by nia. by rewrite Nat.min_0_r.
Qed.

Lemma clampTo_lookup (kids : list Cid) (q i : nat) :
  mjoin (clampTo kids (Z.of_nat q) !! i) = if decide (i < q)%nat then mjoin (kids !! i) else Undef.
Proof.
  unfold clampTo, len. rewrite Nat2Z.id.
  destruct (Z.ltb_spec (Z.of_nat q) (Z.of_nat (length kids))); case_decide.
  - by rewrite lookup_take_lt.
  - by rewrite lookup_take_ge by lia.
  - done.
  - by rewrite lookup_ge_None_2 by lia.
Qed.

Lemma node_defined fb d es : es <> [] -> exists c, node_of fb (S d) es = Some c.
Proof. intros. unfold node_of. destruct es; [done|]. apply dir_cid_defined. Qed.

Lemma pages_take fb d es m i :
  0 <= fb -> (m <= length es)%nat ->
  mjoin (pages fb d (take m es) !! i)
  = if decide (i < m / capN fb d)%nat then mjoin (pages fb d es !! i)
    else if decide (i = m / capN fb d)%nat
    then node_of fb d (take (m mod capN fb d) (chunk (capN fb d) (m / capN fb d) es)) else Undef.
Proof.
  intros Hfb Hm. rewrite !pages_lookup, chunk_take by (done || by apply capN_pos).
  repeat case_decide; by subst.
Qed.

Lemma dirTruncate_run fb d es m (h : Eng) r h' :
  fan_ok fb -> (0 < m < length es)%nat -> (length es <= capN fb (S d))%nat ->
  dirTruncate (node_of fb (S d) es) (digitsOf fb (S d) (Z.of_nat m)) h = (r, h') ->
  engine_inv h ->
  engine_le h h' /\ engine_inv h' /\
  match r with Ok c => c = canon_dir fb (S d) (take m es) | Err e => external e end.
Proof.
  intros Hf. assert (Hfb : 0 <= fb) by (destruct Hf; lia).
  revert es m h r h'. induction d as [|d IH]; intros es m h r h' Hm Hlen H HI.
  - cbn [digitsOf dirTruncate] in H. rewrite div_nat in H by done. rewrite capN_0, Nat.div_1_r in H.
    apply bind_run in H as [(kids & h1 & Hk & H)|(e & Hk & ->)];
      apply loadKids_run in Hk as (HR1 & HI1 & Hr); try done.
    2: { split; [done|]. split; [done|]. by apply store_err_external. }
    apply commitDir_run in H as (HR2 & HI2 & Hc); [|done].
    split; [by etrans|]. split; [done|]. destruct r; [|done]. subst.
    rewrite canon_dir_1 by done. apply dir_cid_ext. intros i.
    rewrite clampTo_lookup, trim_lookup, pages_0 by done. case_decide.
    + by rewrite lookup_take_lt.
    + by rewrite lookup_take_ge by lia.
  - set (cap := capN fb (S d)) in *. pose proof (capN_pos fb (S d) Hfb) as Hc. fold cap in Hc.
    pose proof (Nat.div_mod_eq m cap). pose proof (Nat.mod_upper_bound m cap ltac:(lia)).
    set (q := (m / cap)%nat) in *.
    change (digitsOf fb (S (S d)) (Z.of_nat m)) with
      (Z.of_nat m / 2 ^ (fb * Z.of_nat (S d)) :: digitsOf fb (S d) (Z.of_nat m mod 2 ^ (fb * Z.of_nat (S d)))) in H.
    rewrite div_nat, mod_nat in H by done. fold cap q in H.
    cbn [dirTruncate] in H.
    apply bind_run in H as [(kids & h1 & Hk & H)|(e & Hk & ->)];
      apply loadKids_run in Hk as (HR1 & HI1 & Hr); try done.
    2: { split; [done|]. split; [done|]. by apply store_err_external. }
    subst kids.
    destruct (digitsOf fb (S d) (Z.of_nat (m mod cap))) as [|d0 ds] eqn:Ed; [done|]. rewrite <- Ed in H.
    rewrite allZero_digitsOf in H by (destruct Hf; lia || (unfold digits_ok; rewrite <- capN_Z by done; fold cap; lia)).
    destruct (Z.eqb_spec (Z.of_nat (m mod cap)) 0) as [Hz|Hnz].
    { apply commitDir_run in H as (HR2 & HI2 & Hcm); [|done].
      split; [by etrans|]. split; [done|]. destruct r; [|done]. subst a.
      rewrite canon_dir_S. apply dir_cid_ext. intros i.
      rewrite clampTo_lookup, trim_lookup, pages_take by (done || lia). fold cap q.
      replace (m mod cap)%nat with 0%nat by lia. rewrite take_0. repeat case_decide; done. }
    assert (Hl : length (chunk cap q es) = Nat.min cap (length es - q * cap)) by apply chunk_length.
    rewrite kidAt_trim in H by done. fold cap in H.
    destruct (node_defined fb d (chunk cap q es)) as [kc Hkc].
    { intros E. rewrite E in Hl. simpl in Hl. nia. }
    assert (Hin : Z.of_nat q < len (trimTrailingNulls (pages fb (S d) es))).
    { unfold len. apply Nat2Z.inj_lt. apply lookup_lt_is_Some.
      pose proof (kidAt_trim fb (S d) es q Hfb) as Hka. fold cap in Hka. rewrite Hkc in Hka.
      unfold kidAt in Hka. rewrite Nat2Z.id in Hka. destruct (_ !! q); [eauto|done]. }
    rewrite (proj2 (Z.leb_gt _ _)) in H by done. rewrite Hkc in H. cbn [orb negb Defined] in H.
    rewrite <- Hkc in H.
    apply bind_run in H as [(c & h2 & Ht & H)|(e & Ht & ->)];
      apply IH in Ht as (HR2 & HI2 & Hr); try done; try (rewrite Hl; nia).
    2: { split; [by etrans|]. done. }
    apply commitDir_run in H as (HR3 & HI3 & Hcm); [|done].
    split; [by do 2 (etrans; [done|])|]. split; [done|]. destruct r; [|done]. subst a c.
    rewrite (canon_dir_S fb (S d)). apply dir_cid_ext. intros i.
    rewrite set_grown_lookup, clampTo_lookup, trim_lookup, pages_take by (done || lia). fold cap q.
    repeat case_decide; try done; try lia.
    unfold node_of. destruct (take _ _) eqn:Et; [|done].
    apply (f_equal length) in Et. rewrite length_take, Hl in Et. simpl in Et. nia.
Qed.

(** ** Shrinking *)

Lemma pages_inner_defined fb d es : Forall (fun c => Defined c = true) (pages fb (S d) es).
Proof.
  unfold pages. apply Forall_fmap. apply Forall_true. intros i. simpl.
  edestruct dir_cid_defined as [c Hc]. unfold canon_dir. fold canon_dir. by rewrite Hc.
Qed.

Lemma pages_length fb d es : length (pages fb d es) = nchunks (capN fb d) (length es).
Proof. unfold pages. by rewrite length_fmap, length_seq. Qed.

Lemma nchunks_one cap n : (0 < cap)%nat -> (0 < n)%nat -> nchunks cap n = 1%nat <-> (n <= cap)%nat.
Proof.
  intros Hc Hn. pose proof (nchunks_lt cap n 0 Hc). pose proof (nchunks_lt cap n 1 Hc). lia.
Qed.

Lemma shrinkLoop_run fb d es fuel (h : Eng) r h' :
  fan_ok fb -> is_u64 (Z.of_nat (length es)) -> es <> [] ->
  (length es <= capN fb (S d))%nat -> (S d < fuel)%nat ->
  shrinkLoop fuel (canon_dir fb (S d) es) (Z.of_nat (S d)) h = (r, h') -> engine_inv h ->
  engine_le h h' /\ engine_inv h' /\
  match r with
  | Ok (c, n) => c = canon_root fb es /\ n = canon_depth fb (length es)
  | Err e => store_err e
  end.
Proof.
  intros Hf Hu Hne. assert (Hfb : 0 <= fb) by (destruct Hf; lia).
  assert (Hn : (0 < length es)%nat) by (destruct es; [done|simpl; lia]).
  assert (Hstop : forall d, canon_depth fb (length es) = Z.of_nat (S d) ->
            canon_dir fb (S d) es = canon_root fb es).
  { intros d' Hd'. unfold canon_root. rewrite Hd', Nat2Z.id. by destruct es. }
  revert fuel h r h'. induction d as [|d IH]; intros fuel h r h' Hlen Hfu H HI;
    (destruct fuel as [|fuel]; [lia|]); cbn [shrinkLoop] in H.
  { injection H as <- <-. split; [done|]. split; [done|].
    assert (Hd : canon_depth fb (length es) = Z.of_nat 1) by (apply canon_depth_eq; auto).
    split; [by apply (Hstop 0%nat)|by rewrite Hd]. }
  rewrite (proj2 (Z.ltb_lt _ _)) in H by lia. cbn [negb] in H.
  apply bind_run in H as [(node & h1 & Hg & H)|(e & Hg & ->)];
    rewrite canon_dir_S in Hg; apply dir_read in Hg as (HR1 & HI1 & Hr); try done.
  subst node. cbn [Kids] in H. rewrite trim_defined in H by apply pages_inner_defined.
  unfold len in H. rewrite pages_length in H.
  pose proof (capN_pos fb (S d) Hfb) as Hc.
  destruct (decide (length es <= capN fb (S d))%nat) as [Hle|Hgt].
  - rewrite (proj2 (nchunks_one _ _ Hc Hn)) in H by done.
    assert (Hk : kidAt (pages fb (S d) es) 0 = canon_dir fb (S d) es).
    { unfold kidAt. change (Z.to_nat 0) with 0%nat.
      transitivity (mjoin (pages fb (S d) es !! 0%nat)); [by destruct (_ !! _)|].
      rewrite pages_lookup by done. unfold chunk. simpl. rewrite drop_0, take_ge by done.
      by destruct es. }
    rewrite Hk in H. destruct (dir_cid_defined (pages fb d es)) as [c Hcd].
    assert (Hdef : Defined (canon_dir fb (S d) es) = true) by (by rewrite canon_dir_S, Hcd).
    rewrite Hdef in H. change (Z.of_nat 1 =? 1) with true in H. cbn [negb orb] in H.
    replace (Z.of_nat (S (S d)) - 1) with (Z.of_nat (S d)) in H by lia.
    apply IH in H as (? & ? & ?); [|done|lia|done]. split; [by etrans|]. done.
  - rewrite (proj2 (Z.eqb_neq _ _)) in H.
    2: { intros E. apply Hgt. apply nchunks_one; [done..|]. lia. }
    cbn [negb orb] in H. injection H as <- <-.
    assert (Hd : canon_depth fb (length es) = Z.of_nat (S (S d))).
    { apply canon_depth_eq; try done. right. lia. }
    split; [done|]. split; [done|]. split; [by apply (Hstop (S d))|by rewrite Hd].
Qed.
End Dir.
