(* ===== verification/HeadModel.v ===== *)
(** The abstract head and the one state that represents it.

    An abstract head ([hmodel]) is its parameters, the last covered slot and the
    rows it holds.  [canon_state] is the state a head with that content has:
    one directory entry per sealed window, the open window's segment, the
    canonical directory and the root CID of all of it.  The theorems about the
    mutators say that they map [canon_state m] to [canon_state m'] for the
    abstract head [m'] the operation means, so a root is a function of content. *)
From S2P Require Import Prelude Arith Cid Schema Core Engine EngineWorld Dir.

Section HeadModel.
Context `{MH : Multihash} `{CB : !DagCbor} {Sto : Type} `{BS : !Blockstore Sto}.
Context {L : Type} `{LR : !Lru CidV (AnyNode * Z) L}.
Local Abbreviation Eng := (@Engine MH Sto L).

(** The rows of window [w]. *)
Definition rowsIn (k w : Z) (rows : list Row) : list Row :=
  filter (fun r => ord (Slot r) k = w) rows.

Definition segOf (k : Z) (rows : list Row) (w : Z) : Segment :=
  mkSegment (windowStart w k) (rowsIn k w rows).

(** A window without rows seals to no object. *)
Definition entryOf (k : Z) (rows : list Row) (w : Z) : Cid :=
  match rowsIn k w rows with [] => Undef | _ => seg_cid (segOf k rows w) end.

Definition entries (k : Z) (rows : list Row) (base : Z) (n : nat) : list Cid :=
  (fun j => entryOf k rows (base + Z.of_nat j)) <$> seq 0 n.

Record hmodel : Type := mkModel { m_params : Params; m_synced : option Z; m_rows : list Row }.

Definition baseWin (p : Params) : Z := ord (p_OriginSlot p) (p_SegBits p).
Definition openWin (p : Params) (s : Z) : Z := ord (s + 1) (p_SegBits p).
Definition sealedN (p : Params) (s : Z) : nat := Z.to_nat (openWin p s - baseWin p).

Definition canon_entries (p : Params) (s : Z) (rows : list Row) : list Cid :=
  entries (p_SegBits p) rows (baseWin p) (sealedN p s).

(** The state before publication: its root is still undefined. *)
Definition pre_state (m : hmodel) : state :=
  let p := m_params m in
  match m_synced m with
  | None => emptyState p
  | Some s =>
    mkState p s true (canon_depth (p_FanoutBits p) (sealedN p s))
      (canon_root (p_FanoutBits p) (canon_entries p s (m_rows m)))
      (seg_cid (segOf (p_SegBits p) (m_rows m) (openWin p s))) None
  end.

Definition model_root (m : hmodel) : Cid := head_cid (headObject (pre_state m)).
Definition canon_state (m : hmodel) : state := set_root (model_root m) (pre_state m).

Definition row_lt (a b : Row) : Prop := Slot a < Slot b.

Record params_ok (p : Params) : Prop := {
  po_seg : seg_ok (p_SegBits p);
  po_fan : fan_ok (p_FanoutBits p);
  po_origin : is_u64 (p_OriginSlot p) }.

(** A covered head: coverage starts at the origin, the rows are in order and
    inside it, and every segment it names has an encoding. *)
Record covered_ok (p : Params) (s : Z) (rows : list Row) : Prop := {
  co_synced : p_OriginSlot p <= s <= maxInt64;
  co_sorted : StronglySorted row_lt rows;
  co_range : Forall (fun r => p_OriginSlot p <= Slot r <= s) rows;
  co_sealed : forall w, baseWin p <= w < openWin p s ->
    rowsIn (p_SegBits p) w rows <> [] -> seg_enc (segOf (p_SegBits p) rows w);
  co_open : seg_enc (segOf (p_SegBits p) rows (openWin p s)) }.

(** The content of a head is well-formed; a published head also has an
    encodable head object. *)
Definition content_ok (m : hmodel) : Prop :=
  params_ok (m_params m) /\
  match m_synced m with
  | None => m_rows m = []
  | Some s => covered_ok (m_params m) s (m_rows m)
  end.

Definition head_ok (m : hmodel) : Prop :=
  params_ok (m_params m) /\
  fits (EncodeHead (headObject (pre_state m))) = true /\
  match m_synced m with
  | None => m_rows m = []
  | Some s => covered_ok (m_params m) s (m_rows m)
  end.

(** ** Windows of sorted rows *)

Lemma rowsIn_app k w a b : rowsIn k w (a ++ b) = rowsIn k w a ++ rowsIn k w b.
Proof. apply filter_app. Qed.

Lemma rowsIn_none k w rows : Forall (fun r => ord (Slot r) k <> w) rows -> rowsIn k w rows = [].
Proof.
  induction 1 as [|r rows Hr _ IH]; [done|]. unfold rowsIn. rewrite filter_cons_False by done. apply IH.
Qed.

Lemma rowsIn_elem k w rows r : r ∈ rowsIn k w rows <-> ord (Slot r) k = w /\ r ∈ rows.
Proof. unfold rowsIn. by rewrite list_elem_of_filter. Qed.

Lemma entries_length k rows base n : length (entries k rows base n) = n.
Proof. unfold entries. by rewrite length_fmap, length_seq. Qed.

Lemma entries_snoc k rows base n :
  entries k rows base (S n) = entries k rows base n ++ [entryOf k rows (base + Z.of_nat n)].
Proof. unfold entries. rewrite seq_S, fmap_app. done. Qed.

Lemma entries_lookup k rows base n i :
  entries k rows base n !! i = if decide (i < n)%nat then Some (entryOf k rows (base + Z.of_nat i)) else None.
Proof.
  unfold entries. rewrite list_lookup_fmap. case_decide.
  - by rewrite lookup_seq_lt.
  - by rewrite lookup_seq_ge by lia.
Qed.

Lemma entries_take k rows base n m :
  (m <= n)%nat -> take m (entries k rows base n) = entries k rows base m.
Proof. intros. unfold entries. rewrite <- fmap_take, take_seq. f_equal. f_equal. lia. Qed.

Lemma entryOf_ext k w a b : rowsIn k w a = rowsIn k w b -> entryOf k a w = entryOf k b w.
Proof. intros E. unfold entryOf, segOf. by rewrite E. Qed.

Lemma entries_ext k a b base n :
  (forall w, base <= w < base + Z.of_nat n -> rowsIn k w a = rowsIn k w b) ->
  entries k a base n = entries k b base n.
Proof.
  intros H. apply list_eq. intros i. rewrite !entries_lookup. case_decide; [|done].
  f_equal. apply entryOf_ext. apply H. lia.
Qed.

Lemma sorted_app_inv (a b : list Row) :
  StronglySorted row_lt (a ++ b) <->
  StronglySorted row_lt a /\ StronglySorted row_lt b /\
  (forall x y, x ∈ a -> y ∈ b -> Slot x < Slot y).
Proof.
  induction a as [|r a IH]; simpl.
  - split; [intros; split; [constructor|]; split; [done|]; intros ? ? []%not_elem_of_nil|by intros (_ & ? & _)].
  - split.
    + intros [Hs Hf]%StronglySorted_inv. apply IH in Hs as (Ha & Hb & Hab).
      apply Forall_app in Hf as [Hfa Hfb]. split; [by constructor|]. split; [done|].
      intros x y [->|Hx]%elem_of_cons Hy; [|auto]. rewrite Forall_forall in Hfb. by apply Hfb.
    + intros ([Hs Hf]%StronglySorted_inv & Hb & Hab). constructor.
      * apply IH. split; [done|]. split; [done|]. intros. apply Hab; [by right|done].
      * apply Forall_app. split; [done|]. apply Forall_forall. intros y Hy. apply Hab; [by left|done].
Qed.

Lemma openWin_ge_base p s : params_ok p -> p_OriginSlot p <= s -> baseWin p <= openWin p s.
Proof. intros [Hs _ _] ?. unfold baseWin, openWin. apply ord_mono; [done|lia]. Qed.

Lemma canon_entries_length p s rows : length (canon_entries p s rows) = sealedN p s.
Proof. apply entries_length. Qed.

(** Windows are small enough for every index computation. *)
Lemma ord_le_slot slot k : seg_ok k -> 0 <= slot -> 0 <= ord slot k <= slot.
Proof.
  intros Hk Hs. rewrite ord_div by done. destruct Hk. assert (0 < 2 ^ k) by (apply pow2_pos'; lia).
  split; [apply Z.div_pos; lia|]. apply Z.div_le_upper_bound; nia.
Qed.

Lemma windowStart_ord slot k :
  seg_ok k -> is_u64 slot -> ord (windowStart (ord slot k) k) k = ord slot k.
Proof.
  intros Hk [? ?]. pose proof (ord_window slot k Hk ltac:(lia)). pose proof (ord_le_slot slot k Hk ltac:(lia)).
  rewrite windowStart_exact by (done || lia). apply ord_unique; [done|].
  destruct Hk. assert (0 < 2 ^ k) by (apply pow2_pos'; lia). nia.
Qed.

Lemma dirBase_model (m : hmodel) : dirBase (canon_state m) = baseWin (m_params m).
Proof. unfold canon_state, pre_state, dirBase, baseWin. by destruct (m_synced m). Qed.

Lemma params_model (m : hmodel) : params (canon_state m) = m_params m.
Proof. unfold canon_state, pre_state. by destruct (m_synced m). Qed.

Lemma head_content m : head_ok m -> content_ok m.
Proof. intros (? & _ & ?). by split. Qed.

(** [st] is the state of [m], published or about to be. *)
Definition state_of (m : hmodel) (st : state) : Prop := set_root None st = pre_state m.

Lemma canon_state_of m : state_of m (canon_state m).
Proof. unfold state_of, canon_state, pre_state. by destruct (m_synced m). Qed.

Lemma state_of_covered (m : hmodel) s st : m_synced m = Some s -> state_of m st ->
  st = mkState (m_params m) s true
    (canon_depth (p_FanoutBits (m_params m)) (sealedN (m_params m) s))
    (canon_root (p_FanoutBits (m_params m)) (canon_entries (m_params m) s (m_rows m)))
    (seg_cid (segOf (p_SegBits (m_params m)) (m_rows m) (openWin (m_params m) s))) (root st).
Proof.
  intros Hs. unfold state_of, pre_state. rewrite Hs. destruct st. unfold set_root. cbn.
  by intros [= -> -> -> -> -> ->].
Qed.

(** ** The engine represents an abstract head *)

Context `{BO : !BlockstoreOk Sto}.

Record represents (h : Eng) (m : hmodel) : Prop := {
  rep_cur : cur h = canon_state m;
  rep_inv : engine_inv h;
  rep_ok : head_ok m }.

Lemma represents_le h h' m : represents h m -> engine_le h h' -> engine_inv h' -> represents h' m.
Proof. intros [? ? ?] [? ? ?] ?. split; [congruence|done..]. Qed.

Lemma openOrd_run (m : hmodel) s st (h : Eng) r h' :
  content_ok m -> m_synced m = Some s -> state_of m st -> openOrd st h = (r, h') -> engine_inv h ->
  engine_le h h' /\ engine_inv h' /\
  match r with Ok w => w = openWin (m_params m) s | Err e => store_err e end.
Proof.
  intros (Hp & Hc) Hs Hst H HI. rewrite Hs in Hc. rewrite (state_of_covered m s st Hs Hst) in H.
  unfold openOrd in H. cbn [open params] in H.
  apply bind_run in H as [(seg & h1 & Hg & H)|(e & Hg & ->)];
    apply seg_read in Hg as (? & ? & Hr); try done; try apply (co_open _ _ _ Hc).
  injection H as <- <-. subst seg. split; [done|]. split; [done|]. simpl.
  unfold openWin. apply windowStart_ord; [apply Hp|]. destruct Hc as [[? ?] _ _ _ _], Hp as [_ _ [? ?]].
  unfold is_u64, maxInt64 in *. lia.
Qed.
End HeadModel.
