(* ===== verification/Lookup.v ===== *)
(** Lookups: archive/lookup.go.

    The walk from a slot to its row.  [spec_lookup] is what a lookup means on an
    abstract head; the theorems say that the walk through the directory, the
    segment and the binary search computes it. *)
From S2P Require Import Prelude Arith Cid Schema Core Engine EngineWorld Dir HeadModel.

Inductive Status : Type := StatusFound | StatusBeforeOrigin | StatusNotYetCovered | StatusAbsent.

#[global] Instance Status_eq_dec : EqDecision Status.
Proof. solve_decision. Defined.

(** [sort.Search(n, f)]: the least [i] in [0, n) with [f i], else [n].  The Go
    loop halves [j - i], so [n] rounds are more than enough. *)
Fixpoint searchLoop (fuel : nat) (f : nat -> bool) (i j : nat) : nat :=
  match fuel with
  | O => i
  | S fuel' =>
    if (i <? j)%nat then
      let mid := ((i + j) / 2)%nat in
      if negb (f mid) then searchLoop fuel' f (S mid) j else searchLoop fuel' f i mid
    else i
  end.
Definition sort_Search (n : nat) (f : nat -> bool) : nat := searchLoop (S n) f 0 n.

Section Lookup.
Context `{MH : Multihash} `{CB : !DagCbor} {Sto : Type} `{BS : !Blockstore Sto}.
Context {L : Type} `{LR : !Lru CidV (AnyNode * Z) L}.
Local Abbreviation Eng := (@Engine MH Sto L).

Record Result : Type := mkResult {
  r_Status : Status; r_Slot : Z; r_Entries : list RefEntry; r_MissingVH : option VersionedHash }.

(** searchRows binary-searches rows for slot; [None] is the nil row. *)
Definition searchRows (rows : list Row) (slot : Z) : option Row :=
  let i := sort_Search (length rows)
             (fun i => match rows !! i with Some r => (slot <=? Slot r)%Z | None => true end) in
  match rows !! i with
  | Some r => if Slot r =? slot then Some r else None
  | None => None
  end.

(** findVH returns the row's entry for vh; a nil row carries nothing. *)
Definition findVH (row : option Row) (vh : VersionedHash) : option RefEntry :=
  match row with
  | None => None
  | Some r => snd <$> list_find (fun e => VH e = vh) (Entries r)
  end.

(** The loop over the digits: [None] is the (Undef, false) of a null on the
    route. *)
Fixpoint walkDigits (cur : Cid) (digits : list Z) : M Eng (option Cid) :=
  match digits with
  | [] => ret (Some cur)
  | d :: rest =>
    node <-- GetNode dirs cur ;;
    if len (Kids node) <=? d then ret None
    else let kid := kidAt (Kids node) d in
         if negb (Defined kid) then ret None else walkDigits kid rest
  end.

Definition sealedSegment (st : state) (w : Z) : M Eng (option Cid) :=
  let base := dirBase st in
  if (dirDepth st =? 0) || (w <? base) then ret None
  else
    match pathDigits (w - base) (dirDepth st) (p_FanoutBits (params st)) with
    | None => ret None
    | Some digits => walkDigits (dir st) digits
    end.

Definition segmentFor (st : state) (w : Z) : M Eng (option Cid) :=
  if negb (covered st) then ret None
  else
    openW <-- openOrd st ;;
    if w =? openW then ret (Some (open st)) else sealedSegment st w.

Definition lookupRow (st : state) (slot : Z) : M Eng (Result * option Row) :=
  if slot <? p_OriginSlot (params st) then
    ret (mkResult StatusBeforeOrigin slot [] None, None)
  else if negb (covered st) || (syncedTo st <? slot) then
    ret (mkResult StatusNotYetCovered slot [] None, None)
  else
    segCID <-- segmentFor st (ord slot (p_SegBits (params st))) ;;
    match segCID with
    | None => ret (mkResult StatusFound slot [] None, None)
    | Some c =>
      seg <-- GetNode segs c ;;
      ret (mkResult StatusFound slot [] None, searchRows (Rows seg) slot)
    end.

Definition Lookup (slot : Z) : M Eng Result :=
  st <-- gets cur ;;
  let* (res, row) := lookupRow st slot in
  if negb (bool_decide (r_Status res = StatusFound)) then ret res
  else
    match row with
    | Some r => ret (mkResult (r_Status res) (r_Slot res) (Entries r) (r_MissingVH res))
    | None => ret res
    end.

(** The loop over the requested hashes: the first missing one, or the entries. *)
Fixpoint findAll (row : option Row) (vhs : list VersionedHash) (entries : list RefEntry)
  : list RefEntry + VersionedHash :=
  match vhs with
  | [] => inl entries
  | vh :: rest =>
    match findVH row vh with
    | None => inr vh
    | Some e => findAll row rest (entries ++ [e])
    end
  end.

Definition LookupVHs (slot : Z) (vhs : list VersionedHash) : M Eng Result :=
  st <-- gets cur ;;
  let* (res, row) := lookupRow st slot in
  if negb (bool_decide (r_Status res = StatusFound)) then ret res
  else
    match findAll row vhs [] with
    | inr missing => ret (mkResult StatusAbsent slot [] (Some missing))
    | inl entries => ret (mkResult (r_Status res) (r_Slot res) entries (r_MissingVH res))
    end.

(** ** The specification *)

Definition row_at (rows : list Row) (slot : Z) : option Row :=
  snd <$> list_find (fun r => Slot r = slot) rows.

(** What a lookup of [slot] means: the row, or why there is none. *)
Definition spec_row (m : hmodel) (slot : Z) : Status * option Row :=
  if slot <? p_OriginSlot (m_params m) then (StatusBeforeOrigin, None)
  else match m_synced m with
       | None => (StatusNotYetCovered, None)
       | Some s => if s <? slot then (StatusNotYetCovered, None)
                   else (StatusFound, row_at (m_rows m) slot)
       end.

Definition spec_lookup (m : hmodel) (slot : Z) : Result :=
  let '(st, row) := spec_row m slot in
  mkResult st slot (match row with Some r => Entries r | None => [] end) None.

(** One entry per requested hash, in request order, or the first that is not
    there. *)
Definition spec_lookupVHs (m : hmodel) (slot : Z) (vhs : list VersionedHash) : Result :=
  let '(st, row) := spec_row m slot in
  if decide (st = StatusFound) then
    match list_find (fun vh => findVH row vh = None) vhs with
    | Some (_, vh) => mkResult StatusAbsent slot [] (Some vh)
    | None => mkResult StatusFound slot (omap (findVH row) vhs) None
    end
  else mkResult st slot [] None.

(** ** Binary search *)

Lemma searchLoop_spec fuel f i j n :
  (forall a b, (a <= b < n)%nat -> f a = true -> f b = true) ->
  (i <= j <= n)%nat -> (j - i < fuel)%nat ->
  (forall a, (a < i)%nat -> f a = false) -> ((j < n)%nat -> f j = true) ->
  let r := searchLoop fuel f i j in
  (r <= n)%nat /\ (forall a, (a < r)%nat -> f a = false) /\ ((r < n)%nat -> f r = true).
Proof.
  intros Hm. revert i j. induction fuel as [|fuel IH]; intros i j Hij Hf Hlo Hhi; [lia|].
  cbn [searchLoop]. destruct (Nat.ltb_spec i j) as [Hlt|Hge].
  2: { assert (i = j) as -> by lia. split; [lia|]. done. }
  pose proof (Nat.div_mod_eq (i + j) 2). pose proof (Nat.mod_upper_bound (i + j) 2 ltac:(lia)).
  set (mid := ((i + j) / 2)%nat) in *. destruct (f mid) eqn:E; cbn [negb].
  - apply IH; try done; try lia.
  - apply IH; try done; try lia. intros a Ha. destruct (f a) eqn:Ea; [|done].
    rewrite (Hm a mid) in E; [done|lia|done].
Qed.

Lemma sorted_lookup (rows : list Row) i j a b :
  StronglySorted row_lt rows -> rows !! i = Some a -> rows !! j = Some b -> (i < j)%nat ->
  Slot a < Slot b.
Proof.
  intros Hs. revert i j. induction Hs as [|r rows Hs IH Hf]; intros i j Ha Hb Hij; [done|].
  destruct j as [|j]; [lia|]. destruct i as [|i]; simpl in *.
  - injection Ha as <-. rewrite Forall_forall in Hf. apply Hf. by eapply list_elem_of_lookup_2.
  - eapply IH; eauto. lia.
Qed.

Lemma searchRows_spec rows slot :
  StronglySorted row_lt rows -> searchRows rows slot = row_at rows slot.
Proof.
  intros Hs. unfold searchRows, row_at, sort_Search.
  set (f := fun i => match rows !! i with Some r => (slot <=? Slot r)%Z | None => true end).
  destruct (searchLoop_spec (S (length rows)) f 0 (length rows) (length rows)) as (Hr & Hlo & Hhi); try lia.
  { intros a b Hab. unfold f.
    destruct (lookup_lt_is_Some_2 rows a ltac:(lia)) as [ra Ea].
    destruct (lookup_lt_is_Some_2 rows b ltac:(lia)) as [rb Eb]. rewrite Ea, Eb.
    intros ?%Z.leb_le. apply Z.leb_le. destruct (decide (a = b)) as [->|]; [congruence|].
    pose proof (sorted_lookup rows a b ra rb Hs Ea Eb ltac:(lia)). lia. }
  set (i := searchLoop _ f 0 (length rows)) in *. cbv zeta.
  destruct (list_find _ rows) as [[j r]|] eqn:E.
  - apply list_find_Some in E as (Hj & Hsl & Hbefore). simpl in *.
    assert (Hjl : (j < length rows)%nat) by (by eapply lookup_lt_Some).
    assert (i = j) as ->.
    { destruct (lt_eq_lt_dec i j) as [[Hlt|?]|Hgt]; [|done|].
      - specialize (Hhi ltac:(lia)). unfold f in Hhi.
        destruct (lookup_lt_is_Some_2 rows i ltac:(lia)) as [ri Ei]. rewrite Ei in Hhi.
        pose proof (sorted_lookup rows i j ri r Hs Ei Hj Hlt). apply Z.leb_le in Hhi. lia.
      - specialize (Hlo j Hgt). unfold f in Hlo. rewrite Hj in Hlo. apply Z.leb_gt in Hlo. lia. }
    rewrite Hj, Hsl. by rewrite Z.eqb_refl.
  - apply list_find_None in E. destruct (rows !! i) as [r|] eqn:Ei; [|done].
    rewrite Forall_forall in E. specialize (E r (list_elem_of_lookup_2 _ _ _ Ei)).
    by rewrite (proj2 (Z.eqb_neq _ _)).
Qed.

Lemma row_at_spec rows slot r :
  StronglySorted row_lt rows -> row_at rows slot = Some r <-> r ∈ rows /\ Slot r = slot.
Proof.
  intros Hs. unfold row_at. split.
  - intros ([i r'] & (Hi & ? & _)%list_find_Some & ->)%fmap_Some. simpl. split; [|done].
    by eapply list_elem_of_lookup_2.
  - intros [[i Hi]%list_elem_of_lookup_1 Hr].
    destruct (list_find_elem_of (fun r => Slot r = slot) rows r) as [[j r'] E]; [by eapply list_elem_of_lookup_2|done|].
    rewrite E. simpl. apply list_find_Some in E as (Hj & Hr' & _). f_equal.
    destruct (lt_eq_lt_dec i j) as [[Hlt|Heq]|Hlt].
    + pose proof (sorted_lookup _ _ _ _ _ Hs Hi Hj Hlt). lia.
    + congruence.
    + pose proof (sorted_lookup _ _ _ _ _ Hs Hj Hi Hlt). lia.
Qed.

(** ** Walking the directory *)

Context `{BO : !BlockstoreOk Sto}.

Lemma chunk_lookup {A} cap i (es : list A) :
  (0 < cap)%nat -> chunk cap (i / cap) es !! (i mod cap)%nat = es !! i.
Proof.
  intros Hc. unfold chunk. pose proof (Nat.mod_upper_bound i cap ltac:(lia)).
  rewrite lookup_take_lt by done. rewrite lookup_drop. f_equal.
  pose proof (Nat.div_mod_eq i cap). lia.
Qed.

Lemma node_undef fb d es i :
  (length es <= capN fb d)%nat -> node_of fb d es = Undef -> mjoin (es !! i) = Undef.
Proof.
  intros Hl Hn. destruct d as [|d].
  - rewrite capN_0 in Hl. destruct es as [|x [|? ?]]; simpl in *; [done| |lia].
    destruct i; [by destruct x|done].
  - destruct es as [|c es]; [done|]. destruct (node_defined fb d (c :: es)) as [? E]; [done|]. by rewrite E in Hn.
Qed.

(** A defined entry is found at its index; a null on the way means a null
    entry. *)
Definition found (e : Cid) : option Cid := if Defined e then Some e else None.

Lemma walkDigits_run fb d es i (h : Eng) r h' :
  0 <= fb -> Defined (node_of fb d es) = true -> (length es <= capN fb d)%nat -> (i < capN fb d)%nat ->
  walkDigits (node_of fb d es) (digitsOf fb d (Z.of_nat i)) h = (r, h') -> engine_inv h ->
  engine_le h h' /\ engine_inv h' /\
  match r with Ok o => o = found (mjoin (es !! i)) | Err e => store_err e end.
Proof.
  intros Hfb. revert es i h r h'. induction d as [|d IH]; intros es i h r h' Hd Hl Hi H HI.
  { rewrite capN_0 in *. assert (i = 0%nat) as -> by lia. simpl in H. injection H as <- <-.
    split; [done|]. split; [done|]. unfold found. destruct es as [|x es]; [done|]. simpl in *.
    destruct x; done. }
  pose proof (capN_pos fb d Hfb) as Hc.
  cbn [digitsOf walkDigits] in H. rewrite div_nat, mod_nat in H by done.
  assert (Hne : es <> []) by (by intros ->).
  assert (Hnode : node_of fb (S d) es = dir_cid (pages fb d es)) by (by destruct es).
  rewrite Hnode in H.
  apply bind_run in H as [(n & h1 & Hg & H)|(e & Hg & ->)];
    apply dir_read in Hg as (HR1 & HI1 & Hr); try done.
  subst n. cbn [Kids] in H. set (q := (i / capN fb d)%nat) in *.
  assert (Hq : (length (chunk (capN fb d) q es) <= capN fb d)%nat) by (rewrite chunk_length; lia).
  rewrite kidAt_trim in H by done.
  assert (Hnull : node_of fb d (chunk (capN fb d) q es) = Undef -> found (mjoin (es !! i)) = None).
  { intros Hu. rewrite <- (chunk_lookup (capN fb d) i es) by done. fold q.
    by rewrite (node_undef fb d _ _ Hq Hu). }
  destruct (Z.leb_spec (len (trimTrailingNulls (pages fb d es))) (Z.of_nat q)) as [Hle|Hgt].
  { injection H as <- <-. split; [done|]. split; [done|]. rewrite Hnull; [done|].
    rewrite <- kidAt_trim by done. unfold kidAt. rewrite lookup_ge_None_2; [done|].
    unfold len in Hle. lia. }
  destruct (Defined (node_of fb d (chunk (capN fb d) q es))) eqn:Ed; cbn [negb] in H.
  - apply IH in H as (? & ? & Hr); try done; [|apply Nat.mod_upper_bound; lia].
    split; [by etrans|]. split; [done|]. destruct r; [|done]. subst a. unfold q.
    by rewrite chunk_lookup.
  - injection H as <- <-. split; [done|]. split; [done|]. rewrite Hnull; [done|].
    by destruct (node_of fb d (chunk _ q es)).
Qed.

Lemma canon_pre (m : hmodel) s :
  m_synced m = Some s ->
  canon_state m = mkState (m_params m) s true
    (canon_depth (p_FanoutBits (m_params m)) (sealedN (m_params m) s))
    (canon_root (p_FanoutBits (m_params m)) (canon_entries (m_params m) s (m_rows m)))
    (seg_cid (segOf (p_SegBits (m_params m)) (m_rows m) (openWin (m_params m) s))) (model_root m).
Proof. intros Hs. unfold canon_state, pre_state. by rewrite Hs. Qed.

Lemma covered_model (m : hmodel) s : m_synced m = Some s -> covered (canon_state m) = true.
Proof. intros Hs. by rewrite (canon_pre m s Hs). Qed.
Lemma syncedTo_model (m : hmodel) s : m_synced m = Some s -> syncedTo (canon_state m) = s.
Proof. intros Hs. by rewrite (canon_pre m s Hs). Qed.
Lemma uncovered_model (m : hmodel) : m_synced m = None -> covered (canon_state m) = false.
Proof. intros Hs. unfold canon_state, pre_state. by rewrite Hs. Qed.

Lemma sealedN_u64 p s : params_ok p -> p_OriginSlot p <= s <= maxInt64 -> is_u64 (Z.of_nat (sealedN p s)).
Proof.
  intros [Hk _ [? ?]] Hs. unfold sealedN, openWin, baseWin, is_u64, maxInt64 in *.
  pose proof (ord_le_slot (s + 1) _ Hk ltac:(lia)).
  pose proof (ord_le_slot (p_OriginSlot p) _ Hk ltac:(lia)). lia.
Qed.

Lemma sealedSegment_run (m : hmodel) s st w (h : Eng) r h' :
  content_ok m -> m_synced m = Some s -> state_of m st -> baseWin (m_params m) <= w < openWin (m_params m) s ->
  sealedSegment st w h = (r, h') -> engine_inv h ->
  engine_le h h' /\ engine_inv h' /\
  match r with
  | Ok o => o = found (entryOf (p_SegBits (m_params m)) (m_rows m) w)
  | Err e => store_err e
  end.
Proof.
  intros (Hp & Hc) Hs Hst Hw H HI. rewrite Hs in Hc. rewrite (state_of_covered m s st Hs Hst) in H.
  unfold sealedSegment, dirBase in H. cbn [dirDepth params dir] in H. fold (baseWin (m_params m)) in H.
  set (p := m_params m) in *. set (n := sealedN p s) in *.
  set (es := canon_entries p s (m_rows m)) in *.
  assert (Hn : n = Z.to_nat (openWin p s - baseWin p)) by done.
  assert (Hlen : length es = n) by apply canon_entries_length.
  assert (Hu : is_u64 (Z.of_nat n)) by (apply sealedN_u64; [done|apply Hc]).
  destruct (canon_depth_spec (p_FanoutBits p) n) as (d & Hd & H64 & Hle & Hmin);
    [apply Hp|done|lia|].
  rewrite Hd in H. rewrite (proj2 (Z.eqb_neq _ _)), (proj2 (Z.ltb_ge _ _)) in H by lia.
  cbn [orb] in H. assert (Hfb : 0 <= p_FanoutBits p) by (destruct Hp as [_ [? _] _]; lia).
  set (i := Z.to_nat (w - baseWin p)). assert (Hi : w - baseWin p = Z.of_nat i) by lia.
  rewrite Hi, pathDigits_some in H; [|apply Hp|lia|unfold digits_ok; rewrite <- capN_Z by done; lia].
  unfold canon_root in H. rewrite Hlen, Hd, Nat2Z.id in H.
  apply walkDigits_run in H as (? & ? & Hr); try done; try lia.
  - split; [done|]. split; [done|]. destruct r; [|done]. subst a. f_equal.
    unfold es, canon_entries. rewrite entries_lookup, decide_True by lia. simpl.
    f_equal. lia.
  - destruct (node_defined (p_FanoutBits p) d es) as [c ->]; [|done].
    intros E. rewrite E in Hlen. simpl in Hlen. lia.
Qed.

Lemma sorted_filter (P : Row -> Prop) `{!forall r, Decision (P r)} rows :
  StronglySorted row_lt rows -> StronglySorted row_lt (filter P rows).
Proof.
  intros Hs. induction Hs as [|r rows Hs IH Hf]; [constructor|]. rewrite filter_cons.
  case_decide; [|done]. constructor; [done|]. rewrite Forall_forall in *.
  intros x [_ ?]%list_elem_of_filter. auto.
Qed.

Lemma rowsIn_sorted k w rows : StronglySorted row_lt rows -> StronglySorted row_lt (rowsIn k w rows).
Proof. apply sorted_filter. Qed.

(** segmentFor finds the segment of any covered window. *)
Lemma segmentFor_run (m : hmodel) s st w (h : Eng) r h' :
  content_ok m -> m_synced m = Some s -> state_of m st -> baseWin (m_params m) <= w <= openWin (m_params m) s ->
  segmentFor st w h = (r, h') -> engine_inv h ->
  engine_le h h' /\ engine_inv h' /\
  match r with
  | Ok (Some c) => c = seg_cid (segOf (p_SegBits (m_params m)) (m_rows m) w) /\
                   seg_enc (segOf (p_SegBits (m_params m)) (m_rows m) w)
  | Ok None => rowsIn (p_SegBits (m_params m)) w (m_rows m) = []
  | Err e => store_err e
  end.
Proof.
  intros Hok Hs Hst Hw H HI. pose proof Hok as (Hp & Hc). rewrite Hs in Hc.
  unfold segmentFor in H. pose proof (state_of_covered m s st Hs Hst) as Est.
  replace (covered st) with true in H by (by rewrite Est). cbn [negb] in H.
  apply bind_run in H as [(ow & h1 & Ho & H)|(e & Ho & ->)];
    apply (openOrd_run m s) in Ho as (HR1 & HI1 & Hr); try done.
  subst ow. destruct (Z.eqb_spec w (openWin (m_params m) s)) as [->|Hne].
  { injection H as <- <-. split; [done|]. split; [done|]. rewrite Est. cbn [open].
    split; [done|]. apply (co_open _ _ _ Hc). }
  apply (sealedSegment_run m s) in H as (HR2 & HI2 & Hr); try done; [|lia].
  split; [by etrans|]. split; [done|]. destruct r as [o|e]; [|done]. subst o.
  unfold found, entryOf. destruct (rowsIn _ w (m_rows m)) eqn:E; [done|].
  assert (He : seg_enc (segOf (p_SegBits (m_params m)) (m_rows m) w)).
  { apply Hc; [lia|]. by rewrite E. }
  destruct (seg_cid_defined _ He) as [c Hcd]. by rewrite Hcd.
Qed.

Lemma row_at_window k rows slot :
  row_at (rowsIn k (ord slot k) rows) slot = row_at rows slot.
Proof.
  unfold row_at. induction rows as [|r rows IH]; [done|]. unfold rowsIn. rewrite filter_cons.
  fold (rowsIn k (ord slot k) rows). destruct (decide (Slot r = slot)) as [<-|Hne].
  - rewrite decide_True by done. simpl. by rewrite !decide_True.
  - destruct (decide (ord (Slot r) k = ord slot k)); simpl; rewrite ?decide_False by done;
      destruct (list_find _ rows) as [[? ?]|], (list_find _ (rowsIn _ _ rows)) as [[? ?]|]; done.
Qed.

(** The walk computes the abstract lookup. *)
Lemma lookupRow_run (m : hmodel) slot (h : Eng) r h' :
  head_ok m -> 0 <= slot -> lookupRow (canon_state m) slot h = (r, h') -> engine_inv h ->
  engine_le h h' /\ engine_inv h' /\
  match r with
  | Ok (res, row) => res = mkResult (fst (spec_row m slot)) slot [] None /\ row = snd (spec_row m slot)
  | Err e => store_err e
  end.
Proof.
  intros Hok Hsl H HI. pose proof Hok as (Hp & _ & Hc). unfold lookupRow in H. unfold spec_row.
  rewrite params_model in H. destruct (slot <? _) eqn:Eo. { by injection H as <- <-. }
  destruct (m_synced m) as [s|] eqn:Hs.
  2: { unfold canon_state, pre_state in H. rewrite Hs in H. cbn in H. by injection H as <- <-. }
  rewrite (covered_model m s Hs), (syncedTo_model m s Hs) in H. cbn [negb orb] in H.
  destruct (Z.ltb_spec s slot) as [Hlt|Hle]. { by injection H as <- <-. }
  apply Z.ltb_ge in Eo. pose proof (po_seg _ Hp) as Hk.
  apply bind_run in H as [(o & h1 & Ho & H)|(e & Ho & ->)];
    apply (segmentFor_run m s) in Ho as (HR1 & HI1 & Hr); try done;
    try apply canon_state_of; try (by apply head_content);
    try (split; [by apply ord_mono|unfold openWin; apply ord_mono; [done|lia]]).
  destruct o as [c|].
  - destruct Hr as [-> He].
    apply bind_run in H as [(seg & h2 & Hg & H)|(e & Hg & ->)];
      apply seg_read in Hg as (HR2 & HI2 & Hr); try done.
    2: { split; [by etrans|]. done. }
    injection H as <- <-. subst seg. split; [by etrans|]. split; [done|]. split; [done|]. simpl.
    rewrite searchRows_spec by (apply rowsIn_sorted; apply Hc). apply row_at_window.
  - injection H as <- <-. split; [done|]. split; [done|]. split; [done|]. simpl.
    rewrite <- (row_at_window (p_SegBits (m_params m))), Hr. done.
Qed.

Lemma findAll_spec row vhs acc :
  findAll row vhs acc =
  match list_find (fun vh => findVH row vh = None) vhs with
  | Some (_, vh) => inr vh
  | None => inl (acc ++ omap (findVH row) vhs)
  end.
Proof.
  revert acc. induction vhs as [|vh vhs IH]; intros acc; [simpl; by rewrite app_nil_r|].
  cbn [findAll list_find]. destruct (decide (findVH row vh = None)) as [E|E].
  - by rewrite E.
  - destruct (findVH row vh) as [e|] eqn:Ee; [|done]. rewrite IH. simpl. rewrite Ee.
    destruct (list_find _ vhs) as [[? ?]|]; simpl; [done|]. by rewrite <- app_assoc.
Qed.

Lemma spec_row_absent m slot : fst (spec_row m slot) <> StatusFound -> snd (spec_row m slot) = None.
Proof. unfold spec_row. repeat case_match; naive_solver. Qed.

(** C2: on an engine that represents an abstract head, [Lookup] answers exactly
    what the head holds at the slot (the blobs of the row in stored order, an
    empty answer for a covered slot without blobs, or the reason it is not
    covered), leaves the head as it was, and fails only when the backend does. *)
Theorem Lookup_correct (m : hmodel) slot (h : Eng) r h' :
  represents h m -> 0 <= slot -> Lookup slot h = (r, h') ->
  represents h' m /\
  match r with Ok res => res = spec_lookup m slot | Err e => store_err e end.
Proof.
  intros Hrep Hsl H. unfold Lookup in H.
  apply bind_run in H as [(st & h0 & Hst & H)|(e & Hst & ->)]; [|done].
  injection Hst as <- <-. rewrite (rep_cur _ _ Hrep) in H.
  apply bind_run in H as [([res row] & h1 & Hl & H)|(e & Hl & ->)];
    apply (lookupRow_run m) in Hl as (HR & HI & Hr); try done; try apply Hrep.
  2: { split; [by eapply represents_le|done]. }
  destruct Hr as [-> ->]. unfold spec_lookup. pose proof (spec_row_absent m slot) as Hn.
  destruct (spec_row m slot) as [st row]. cbn in *.
  case_bool_decide; cbn in H; destruct row; try (by specialize (Hn H0));
    injection H as <- <-; (split; [by eapply represents_le|done]).
Qed.

(** [LookupVHs] returns one entry per requested hash in request order, or
    names the first requested hash the covered slot does not carry; never part
    of the request. *)
Theorem LookupVHs_correct (m : hmodel) slot vhs (h : Eng) r h' :
  represents h m -> 0 <= slot -> LookupVHs slot vhs h = (r, h') ->
  represents h' m /\
  match r with Ok res => res = spec_lookupVHs m slot vhs | Err e => store_err e end.
Proof.
  intros Hrep Hsl H. unfold LookupVHs in H.
  apply bind_run in H as [(st & h0 & Hst & H)|(e & Hst & ->)]; [|done].
  injection Hst as <- <-. rewrite (rep_cur _ _ Hrep) in H.
  apply bind_run in H as [([res row] & h1 & Hl & H)|(e & Hl & ->)];
    apply (lookupRow_run m) in Hl as (HR & HI & Hr); try done; try apply Hrep.
  2: { split; [by eapply represents_le|done]. }
  destruct Hr as [-> ->]. unfold spec_lookupVHs.
  destruct (spec_row m slot) as [st row]. cbn in *. rewrite findAll_spec in H. simpl in H.
  destruct (decide (st = StatusFound)) as [->|Hne].
  - rewrite bool_decide_eq_true_2 in H by done. cbn in H.
    destruct (list_find _ vhs) as [[? ?]|]; injection H as <- <-;
      (split; [by eapply represents_le|done]).
  - rewrite bool_decide_eq_false_2 in H by done. cbn in H. injection H as <- <-.
    split; [by eapply represents_le|done].
Qed.
End Lookup.
