(* ===== verification/Apply.v ===== *)
(** The writer: archive/apply.go, archive/errors.go and archive/generation.go.

    [ApplyRefs] adds rows and advances coverage; [seal] turns a full window into
    a directory entry; [BuildGeneration] builds a head from scratch.  Proved: a
    successful apply takes the canonical state of an abstract head to the
    canonical state of the extended one, an unsuccessful one changes nothing,
    and no run ends in an internal error or fails to terminate. *)
From Stdlib Require Strings.Byte.
From S2P Require Import Prelude Arith Cid Schema Core Engine EngineWorld Dir HeadModel Lookup.

Section Apply.
Context `{MH : Multihash} `{CB : !DagCbor} {Sto : Type} `{BS : !Blockstore Sto}.
Context {L : Type} `{LR : !Lru CidV (AnyNode * Z) L}.
Local Abbreviation Eng := (@Engine MH Sto L).

Record RefRow : Type := mkRefRow { rr_Slot : Z; VHs : list VersionedHash }.

Record ApplyResult : Type := mkApplyResult {
  ar_SyncedTo : Z; ar_Root : Cid; ar_NoOp : bool; ar_Index : IndexApplyStats }.

Definition conflictf (reason : string) : err := EConflict reason.

(** validateShape, with the previous row's slot as the loop's memory. *)
Fixpoint validateShapeRows (origin newSyncedTo : Z) (prev : option Z) (rows : list RefRow) : res unit :=
  match rows with
  | [] => Ok tt
  | r :: rest =>
    refuse_if (match prev with Some p => rr_Slot r <=? p | None => false end)
      with conflictf "rows are not strictly ascending" ;;
    refuse_if rr_Slot r <? origin with conflictf "row precedes origin_slot" ;;
    refuse_if newSyncedTo <? rr_Slot r with conflictf "row is past synced_to" ;;
    refuse_if len (VHs r) =? 0 with conflictf "row has no versioned hashes" ;;
    refuse_if MaxBlobsPerSlotCeiling <? len (VHs r) with conflictf "row above the blob ceiling" ;;
    validateShapeRows origin newSyncedTo (Some (rr_Slot r)) rest
  end.

Definition validateShape (st : state) (rows : list RefRow) (newSyncedTo : Z) : res unit :=
  refuse_if newSyncedTo <? p_OriginSlot (params st) with conflictf "synced_to precedes origin_slot" ;;
  validateShapeRows (p_OriginSlot (params st)) newSyncedTo None rows.

Definition lastSlot (rows : list RefRow) : Z :=
  match last rows with None => 0 | Some r => rr_Slot r end.

(** Entry [i] of the stored row against entry [i] of the replayed one. *)
Fixpoint sameVHs (stored : list RefEntry) (vhs : list VersionedHash) : bool :=
  match stored, vhs with
  | e :: stored', vh :: vhs' => bool_decide (VH e = vh) && sameVHs stored' vhs'
  | _, _ => true
  end.

Fixpoint verifyReplay (st : state) (rows : list RefRow) : M Eng unit :=
  match rows with
  | [] => ret tt
  | r :: rest =>
    let* (res, stored) := lookupRow st (rr_Slot r) in
    match stored with
    | Some row =>
      fail_if negb (bool_decide (r_Status res = StatusFound))
        with conflictf "replayed row contradicts the head" ;;
      fail_if negb (len (Entries row) =? len (VHs r)) with conflictf "replayed row length differs" ;;
      fail_if negb (sameVHs (Entries row) (VHs r)) with conflictf "replayed row differs" ;;
      verifyReplay st rest
    | None => fail (conflictf "replayed row contradicts the head")
    end
  end.

(** ** Resolution *)

Definition vhZ (vh : VersionedHash) : list Z := (fun b => Z.of_N (Byte.to_N b)) <$> vh_bytes vh.

(** One versioned hash: its entry, or [None] when the blob is missing. *)
Definition resolveVH (resolve : VersionedHash -> res (Cid * bool)) (vh : VersionedHash)
  : M Eng (option RefEntry) :=
  let* (c, ok) := lift (resolve vh) in
  if negb ok || negb (Defined c) then ret None
  else
    got <-- attempt (Get c) ;;
    match got with
    | Err ENotFound => ret None
    | Err e => fail e
    | Ok _ => ret (Some (mkRef vh c))
    end.

Fixpoint resolveVHs resolve (vhs : list VersionedHash) (entries : list RefEntry)
  (missing : list VersionedHash) : M Eng (list RefEntry * list VersionedHash) :=
  match vhs with
  | [] => ret (entries, missing)
  | vh :: rest =>
    e <-- resolveVH resolve vh ;;
    match e with
    | Some e => resolveVHs resolve rest (entries ++ [e]) missing
    | None => resolveVHs resolve rest entries (missing ++ [vh])
    end
  end.

Fixpoint resolveLoop resolve (rows : list RefRow) (out : list Row) (missing : list VersionedHash)
  : M Eng (list Row * list VersionedHash) :=
  match rows with
  | [] => ret (out, missing)
  | r :: rest =>
    let* (entries, missing) := resolveVHs resolve (VHs r) [] missing in
    resolveLoop resolve rest (out ++ [mkRow (rr_Slot r) entries]) missing
  end.

Definition resolveRows (cfg : @Config MH Sto) (rows : list RefRow) : M Eng (list Row) :=
  match Resolver cfg with
  | None => fail (EInvalid "Config.Resolver is nil")
  | Some resolve =>
    let* (out, missing) := resolveLoop resolve rows [] [] in
    fail_if 0 <? len missing with EMissingBlobs (vhZ <$> missing) ;;
    ret out
  end.

(** ** Sealing *)

Definition recordSegment (sample : SegmentSample) : M Eng unit :=
  modify (fun h => match applyStats h with
                   | Some s => set_applyStats (Some (mkStats (is_EncodedBytes s) (is_Segments s ++ [sample]))) h
                   | None => h
                   end).

Definition commitSegment (segment : Pointer Segment) (st : SegmentState) : M Eng Cid :=
  let* (value, segment) := Core.Load segs segment in
  let dirty := IsDirty segment in
  modify (set_segmentEncodeState (Some st)) ;;;
  modify (set_segmentEncodedBytes 0) ;;;
  r <-- attempt (Commit segs segment) ;;
  modify (set_segmentEncodeState None) ;;;
  let* (id, _) := lift r in
  encodedBytes <-- gets segmentEncodedBytes ;;
  encodedBytes <-- (if negb dirty then block <-- Get id ;; ret (len block) else ret encodedBytes) ;;
  recordSegment (mkSample st encodedBytes (len (Rows value)) (countRefs (Rows value))) ;;;
  ret id.

Definition set_dir (d : Cid) (depth : Z) (st : state) : state :=
  mkState (params st) (syncedTo st) (covered st) depth d (open st) (root st).
Definition set_open (o : Cid) (st : state) : state :=
  mkState (params st) (syncedTo st) (covered st) (dirDepth st) (dir st) o (root st).
Definition set_coverage (s : Z) (c : bool) (st : state) : state :=
  mkState (params st) s c (dirDepth st) (dir st) (open st) (root st).

(** [seal] updates the private next-state's directory and returns the pointer
    to the fresh open segment. *)
Definition seal (st : state) (open : Pointer Segment) (w : Z) : M Eng (state * Pointer Segment) :=
  let* (seg, open) := Core.Load segs open in
  sealed <-- (if 0 <? len (Rows seg) then commitSegment open SegmentSealed else ret Undef) ;;
  let* (d, depth) := dirAppend (dir st) (dirDepth st) (p_FanoutBits (params st))
                               (sub64 w (dirBase st)) sealed in
  ret (set_dir d depth st,
       NewNode (mkSegment (windowStart (add64 w 1) (p_SegBits (params st))) [])).

(** ** ApplyRefs *)

(** for ri < len(resolved) && ord(resolved[ri].Slot, k) == w { ... } *)
Fixpoint takeWindow (k w : Z) (rows : list Row) : list Row * list Row :=
  match rows with
  | r :: rest =>
    if ord (Slot r) k =? w then
      let '(batch, rest') := takeWindow k w rest in (r :: batch, rest')
    else ([], rows)
  | [] => ([], [])
  end.

Definition applyWindow (newSyncedTo w : Z) (next : state) (open : Pointer Segment) (batch : list Row)
  : M Eng (state * Pointer Segment) :=
  let k := p_SegBits (params next) in
  open <-- (if 0 <? len batch then
              let* (seg, open) := Mutate segs open in
              ret (assign open (mkSegment (Slot0 seg) (Rows seg ++ batch)))
            else ret open) ;;
  if windowEnd w k <=? newSyncedTo then seal next open w else ret (next, open).

(** for w := w0; w <= w1; w++; [w1 - w0 + 2] tests of the condition end it
    unless [w1] is the largest uint64. *)
Fixpoint applyLoop (fuel : nat) (newSyncedTo w1 w : Z) (next : state) (open : Pointer Segment)
  (resolved : list Row) : M Eng (state * Pointer Segment * list Row) :=
  match fuel with
  | O => fail EDiverges
  | S fuel' =>
    if negb (w <=? w1) then ret (next, open, resolved)
    else
      let '(batch, rest) := takeWindow (p_SegBits (params next)) w resolved in
      let* (next, open) := applyWindow newSyncedTo w next open batch in
      applyLoop fuel' newSyncedTo w1 (add64 w 1) next open rest
  end.

Definition extend (st : state) (resolved : list Row) (newSyncedTo : Z) : M Eng ApplyResult :=
  modify (set_applyStats (Some stats0)) ;;;
  let k := p_SegBits (params st) in
  let next := set_root Undef st in
  let startSlot := if covered st then add64 (syncedTo st) 1 else p_OriginSlot (params st) in
  let w0 := ord startSlot k in
  let w1 := ord newSyncedTo k in
  openPtr <-- (if covered st then
                 openW <-- openOrd st ;;
                 fail_if negb (openW =? w0) with EInternal "open segment is not where coverage resumes" ;;
                 ret (ptr (open st))
               else ret (NewNode (mkSegment (windowStart w0 k) []))) ;;
  let* (next, openPtr, rest) :=
    applyLoop (Z.to_nat (w1 - w0 + 2)) newSyncedTo w1 w0 next openPtr resolved in
  fail_if 0 <? len rest with EInternal "rows fell outside the windows" ;;
  o <-- commitSegment openPtr SegmentOpen ;;
  next <-- publish (set_coverage newSyncedTo true (set_open o next)) ;;
  stats <-- gets (fun h => default stats0 (applyStats h)) ;;
  modify (set_lastApplyStats stats) ;;;
  ret (mkApplyResult (syncedTo next) (root next) false stats).

Definition ApplyRefs (cfg : @Config MH Sto) (rows : list RefRow) (newSyncedTo : Z) : M Eng ApplyResult :=
  st <-- gets cur ;;
  lift (validateShape st rows newSyncedTo) ;;;
  if covered st && (newSyncedTo <=? syncedTo st) && (lastSlot rows <=? syncedTo st) then
    verifyReplay st rows ;;;
    ret (mkApplyResult (syncedTo st) (root st) true stats0)
  else
    fail_if covered st && existsb (fun r => rr_Slot r <=? syncedTo st) rows
      with conflictf "a batch may replay or extend, not both" ;;
    resolved <-- resolveRows cfg rows ;;
    finally (extend st resolved newSyncedTo) (set_applyStats None).

Definition LastApplyStats (h : Eng) : IndexApplyStats := lastApplyStats h.

(** ** Samples *)

Definition MaxLatestSealedSampleDirNodes : Z := 1024.

Definition readSegmentSample (id : Cid) (st : SegmentState) : M Eng (Segment * SegmentSample) :=
  data <-- Get id ;;
  fail_if MaxIndexNodeBytes <? len data with EInvalid "segment above the admission budget" ;;
  segment <-- lift (DecodeSegment data) ;;
  ret (segment, mkSample st (len data) (len (Rows segment)) (countRefs (Rows segment))).

Definition OpenSegmentSample : M Eng (option SegmentSample) :=
  st <-- gets cur ;;
  if negb (covered st) then ret None
  else let* (_, sample) := readSegmentSample (open st) SegmentOpen in ret (Some sample).

(** The greatest defined leaf index below [limit], the directory-visit budget
    threaded through; the inner loop counts [child] down. *)
Fixpoint latestSealedInDir (depth : nat) (node : Cid) (fanoutBits limit budget : Z)
  : M Eng (option (Cid * Z) * Z) :=
  match depth with
  | O => ret (None, budget)
  | S depth' =>
    if negb (Defined node) || (limit =? 0) then ret (None, budget)
    else
      fail_if budget =? 0 with EInvalid "latest sealed Segment search exceeded its visits" ;;
      let budget := budget - 1 in
      page <-- GetNode dirs node ;;
      if len (Kids page) =? 0 then ret (None, budget)
      else
        let childCapacity := capacity (Z.of_nat depth') fanoutBits in
        let highest := Z.min ((limit - 1) / childCapacity) (len (Kids page) - 1) in
        (fix children (n : nat) (budget : Z) : M Eng (option (Cid * Z) * Z) :=
           match n with
           | O => ret (None, budget)
           | S n' =>
             let child := Z.of_nat n' in
             let id := kidAt (Kids page) child in
             if negb (Defined id) then children n' budget
             else
               let base := mul64 child childCapacity in
               let childLimit := if (child =? highest) && (sub64 limit base <? childCapacity)
                                 then sub64 limit base else childCapacity in
               match depth' with
               | O => ret (Some (id, child), budget)
               | S _ =>
                 let* (found, budget) := latestSealedInDir depth' id fanoutBits childLimit budget in
                 match found with
                 | Some (c, offset) => ret (Some (c, add64 base offset), budget)
                 | None => children n' budget
                 end
               end
           end) (Z.to_nat (highest + 1)) budget
  end.

Definition LatestSealedSegmentSample : M Eng (option SegmentSample) :=
  st <-- gets cur ;;
  if negb (covered st) || (dirDepth st =? 0) then ret None
  else
    openW <-- openOrd st ;;
    let base := dirBase st in
    let sealed := sub64 openW base in
    let* (found, _) := latestSealedInDir (Z.to_nat (dirDepth st)) (dir st)
                         (p_FanoutBits (params st)) sealed MaxLatestSealedSampleDirNodes in
    match found with
    | None => ret None
    | Some (id, index) =>
      let* (segment, sample) := readSegmentSample id SegmentSealed in
      let wantSlot0 := windowStart (add64 base index) (p_SegBits (params st)) in
      fail_if negb (Slot0 segment =? wantSlot0) || (len (Rows segment) =? 0)
        with EInvalid "latest sealed segment is not where its path says" ;;
      ret (Some sample)
    end.

(** archive.BuildGeneration on a fresh engine. *)
Definition BuildGeneration (cfg : @Config MH Sto) (p : Params) (rows : list RefRow) (syncedTo : Z)
  : M Eng unit :=
  lift (validateShape (emptyState p) rows syncedTo) ;;;
  New p ;;;
  ApplyRefs cfg rows syncedTo ;;;
  ret tt.
End Apply.
