(* ===== verification/ApplyCorrect.v ===== *)
(** Correctness of the writer: archive/apply.go refines the abstract head.

    [points] is what a segment pointer of the mutation stands for; the run
    lemmas follow the mutation step by step; [applyLoop_run] is the invariant of
    the window loop. *)
From S2P Require Import Prelude Arith Cid Schema Core Engine EngineWorld Dir HeadModel Lookup Apply.

Section ApplyCorrect.
Context `{MH : Multihash} `{CB : !DagCbor} {Sto : Type} `{BS : !Blockstore Sto} `{BO : !BlockstoreOk Sto}.
Context {L : Type} `{LR : !Lru CidV (AnyNode * Z) L}.
Local Abbreviation Eng := (@Engine MH Sto L).

(** ** Segment pointers *)

(** A pointer the mutation owns: fresh and not yet written, or a reference to a
    segment an earlier mutation wrote. *)
Definition points (p : Pointer Segment) (s : Segment) : Prop :=
  (p = NewNode s /\ segment_u64 s) \/
  (seg_enc s /\ (p = ptr (seg_cid s) \/ p = mkPointer (seg_cid s) (Some s) false)).

Lemma Load_run p s (h : Eng) r h' :
  points p s -> Core.Load segs p h = (r, h') -> engine_inv h ->
  engine_le h h' /\ engine_inv h' /\
  match r with Ok (v, p') => v = s /\ points p' s | Err e => store_err e end.
Proof.
  intros [[-> Hu]|[He [->| ->]]] H HI.
  - injection H as <- <-. split; [done|]. split; [done|]. split; [done|]. by left.
  - unfold Core.Load, ptr in H. cbn [pval pcid pdirty] in H.
    destruct (seg_cid_defined s He) as [c Hc]. rewrite Hc in H. cbn [Defined negb] in H. rewrite <- Hc in H.
    apply bind_run in H as [(v & h1 & Hg & H)|(e & Hg & ->)];
      apply seg_read in Hg as (? & ? & Hr); try done.
    injection H as <- <-. subst v. split; [done|]. split; [done|]. split; [done|]. right. auto.
  - injection H as <- <-. split; [done|]. split; [done|]. split; [done|]. right. auto.
Qed.

Lemma Mutate_run p s (h : Eng) r h' :
  points p s -> Mutate segs p h = (r, h') -> engine_inv h ->
  engine_le h h' /\ engine_inv h' /\
  match r with Ok (v, p') => v = s /\ p' = NewNode s | Err e => store_err e end.
Proof.
  intros Hp H HI. assert (Hclean : seg_enc s -> p = ptr (seg_cid s) \/ p = mkPointer (seg_cid s) (Some s) false ->
    (let* (v, _) := decode segs (seg_cid s) in ret (v, NewNode v)) h = (r, h')).
  { intros He [->| ->]; unfold Mutate, ptr in H; cbn [pdirty pcid] in H;
      destruct (seg_cid_defined s He) as [c Hc]; rewrite Hc in *; done. }
  destruct Hp as [[-> Hu]|[He Hp]]. { injection H as <- <-. done. }
  specialize (Hclean He Hp). clear H.
  apply bind_run in Hclean as [([v n] & h1 & Hg & H)|(e & Hg & ->)];
    apply seg_decode in Hg as (? & ? & Hr); try done.
  injection H as <- <-. by subst v.
Qed.

Lemma Commit_run p s (h : Eng) r h' :
  points p s -> Commit segs p h = (r, h') -> engine_inv h ->
  engine_le h h' /\ engine_inv h' /\
  match r with Ok (c, _) => c = seg_cid s /\ seg_enc s | Err e => external e end.
Proof.
  intros [[-> Hu]|[He Hp]] H HI.
  - apply seg_commit in H as (? & ? & Hr); [|done]. split; [done|]. split; [done|].
    destruct r as [[c p]|]; [|done]. destruct Hr as (-> & ? & _). split; [done|]. by split.
  - destruct (seg_cid_defined s He) as [c Hc].
    assert (Commit segs p h = (Ok (seg_cid s, p), h)) as E.
    { destruct Hp as [->| ->]; unfold Commit, CID, ptr; cbn [pdirty pcid negb]; by rewrite Hc. }
    rewrite E in H. injection H as <- <-. done.
Qed.

(** A step that touches neither the published state nor the stores. *)
Lemma modify_run f (h : Eng) r h' :
  (forall h, cur (f h) = cur h /\ blocks (f h) = blocks h /\ cache (f h) = cache h) ->
  modify f h = (r, h') -> engine_inv h ->
  engine_le h h' /\ engine_inv h' /\ r = Ok tt.
Proof.
  intros Hf [= <- <-] HI. destruct (Hf h) as (? & ? & ?).
  destruct (engine_le_seen f h) as [? ?]; done.
Qed.

Lemma recordSegment_run x (h : Eng) r h' :
  recordSegment x h = (r, h') -> engine_inv h -> engine_le h h' /\ engine_inv h' /\ r = Ok tt.
Proof. apply modify_run. intros h0. by destruct (applyStats h0). Qed.

Lemma commitSegment_run p s st (h : Eng) r h' :
  points p s -> commitSegment p st h = (r, h') -> engine_inv h ->
  engine_le h h' /\ engine_inv h' /\
  match r with Ok c => c = seg_cid s /\ seg_enc s | Err e => external e end.
Proof.
  intros Hp H HI. unfold commitSegment in H.
  apply bind_run in H as [([v p'] & h1 & Hl & H)|(e & Hl & ->)];
    apply (Load_run p s) in Hl as (HR1 & HI1 & Hr); try done.
  2: { split; [done|]. split; [done|]. by apply store_err_external. }
  destruct Hr as [-> Hp'].
  apply bind_run in H as [([] & h2 & Hm & H)|(e & Hm & ->)]; [|done].
  apply modify_run in Hm as (HR2 & HI2 & _); [|done..].
  apply bind_run in H as [([] & h3 & Hm & H)|(e & Hm & ->)]; [|done].
  apply modify_run in Hm as (HR3 & HI3 & _); [|done..].
  apply bind_run in H as [(cr & h4 & Hc & H)|(e & Hc & ->)].
  2: { unfold attempt in Hc. by destruct (Commit segs p' h3). }
  unfold attempt in Hc. destruct (Commit segs p' h3) as [cr' h4'] eqn:Ec. injection Hc as <- <-.
  apply (Commit_run p' s) in Ec as (HR4 & HI4 & Hr); [|done..].
  apply bind_run in H as [([] & h5 & Hm & H)|(e & Hm & ->)]; [|done].
  apply modify_run in Hm as (HR5 & HI5 & _); [|done..].
  assert (HRa : engine_le h h5) by (do 4 (etrans; [done|]); done).
  apply bind_run in H as [([id p2] & h6 & Hl & H)|(e & Hl & ->)]; injection Hl as -> <-.
  2: { split; [done|]. split; [done|]. done. }
  destruct Hr as [-> He].
  apply bind_run in H as [(n & h6 & Hg & H)|(e & Hg & ->)]; [|done]. injection Hg as <- <-.
  apply bind_run in H as [(n' & h7 & Hg & H)|(e & Hg & ->)].
  - assert (engine_le h5 h7 /\ engine_inv h7) as [HR7 HI7].
    { destruct (negb (IsDirty p')); [|by injection Hg as <- <-].
      apply bind_run_ok in Hg as (b & h8 & Hb & Hg). injection Hg as _ <-.
      apply Get_run in Hb as (? & ? & _); done. }
    apply bind_run in H as [([] & h8 & Hm & H)|(e & Hm & ->)];
      apply recordSegment_run in Hm as (HR8 & HI8 & Hx); try done.
    injection H as <- <-. split; [by do 2 (etrans; [done|])|]. split; [done|]. done.
  - destruct (negb (IsDirty p')); [|done].
    apply bind_run in Hg as [(b & h8 & Hb & Hg)|(e' & Hb & [= ->])]; [done|].
    apply Get_run in Hb as (? & ? & Hs); [|done]. split; [by etrans|]. split; [done|].
    by apply store_err_external.
Qed.

(** ** Sealing a window *)

(** The directory of the private next-state after [n] windows of [rows]. *)
Definition dir_at (p : Params) (rows : list Row) (n : nat) (st : state) : Prop :=
  params st = p /\
  dir st = canon_root (p_FanoutBits p) (entries (p_SegBits p) rows (baseWin p) n) /\
  dirDepth st = canon_depth (p_FanoutBits p) n.

Lemma dirAppend_entries fb es n kid (h : Eng) r h' :
  fan_ok fb -> is_u64 (Z.of_nat (S n)) -> length es = n ->
  dirAppend (canon_root fb es) (canon_depth fb n) fb (Z.of_nat n) kid h = (r, h') -> engine_inv h ->
  engine_le h h' /\ engine_inv h' /\
  match r with
  | Ok (c, d) => c = canon_root fb (es ++ [kid]) /\ d = canon_depth fb (S n)
  | Err e => external e
  end.
Proof.
  intros Hf Hu <- H HI. apply dirAppend_run in H as (? & ? & Hr); [|done..].
  split; [done|]. split; [done|]. destruct r as [[c d]|]; [|done]. rewrite length_app, Nat.add_1_r in Hr. done.
Qed.

Lemma seal_run p rows n st o w (h : Eng) r h' :
  params_ok p -> dir_at p rows n st -> is_u64 (w + 1) -> w = baseWin p + Z.of_nat n ->
  points o (segOf (p_SegBits p) rows w) ->
  seal st o w h = (r, h') -> engine_inv h ->
  engine_le h h' /\ engine_inv h' /\
  match r with
  | Ok (st', o') =>
    dir_at p rows (S n) st' /\ open st' = open st /\
    (rowsIn (p_SegBits p) w rows <> [] -> seg_enc (segOf (p_SegBits p) rows w)) /\
    o' = NewNode (mkSegment (windowStart (add64 w 1) (p_SegBits p)) [])
  | Err e => external e
  end.
Proof.
  intros Hp (Hpar & Hdir & Hdep) Hw Hn Ho H HI. unfold seal in H.
  apply bind_run in H as [([v o1] & h1 & Hl & H)|(e & Hl & ->)];
    apply (Load_run _ _ _ _ _ Ho) in Hl as (HR1 & HI1 & Hr); try done.
  2: { split; [done|]. split; [done|]. by apply store_err_external. }
  destruct Hr as [-> Ho1]. cbn [Rows segOf] in H.
  apply bind_run in H as [(c & h2 & Hc & H)|(e & Hc & ->)].
  2: { destruct (0 <? _); [|done]. apply (commitSegment_run _ _ _ _ _ _ Ho1) in Hc as (? & ? & ?); [|done].
       split; [by etrans|]. done. }
  assert (engine_le h1 h2 /\ engine_inv h2 /\ c = entryOf (p_SegBits p) rows w /\
    (rowsIn (p_SegBits p) w rows <> [] -> seg_enc (segOf (p_SegBits p) rows w))) as (HR2 & HI2 & -> & He).
  { unfold entryOf. destruct (rowsIn (p_SegBits p) w rows) eqn:E.
    - injection Hc as <- <-. done.
    - cbn in Hc. apply (commitSegment_run _ _ _ _ _ _ Ho1) in Hc as (? & ? & -> & ?); done. }
  assert (Hbase : dirBase st = baseWin p) by (unfold dirBase; by rewrite Hpar).
  rewrite Hbase, Hdir, Hdep, Hpar, sub64_small in H
    by (pose proof (ord_le_slot (p_OriginSlot p) (p_SegBits p) (po_seg _ Hp)); destruct (po_origin _ Hp);
        unfold baseWin, is_u64 in *; lia).
  replace (w - baseWin p) with (Z.of_nat n) in H by lia.
  assert (Hu : is_u64 (Z.of_nat (S n))).
  { destruct Hw. pose proof (ord_le_slot (p_OriginSlot p) (p_SegBits p) (po_seg _ Hp)).
    destruct (po_origin _ Hp). unfold baseWin in *. unfold is_u64. lia. }
  apply bind_run in H as [([c d] & h3 & Ha & H)|(e & Ha & ->)];
    apply dirAppend_entries in Ha as (HR3 & HI3 & Hr); try done; try apply Hp; try apply entries_length.
  2: { split; [by do 2 (etrans; [done|])|]. done. }
  injection H as <- <-. destruct Hr as [-> ->].
  split; [by do 2 (etrans; [done|])|]. split; [done|]. split; [|done].
  split; [done|]. split; [|done]. cbn [dir set_dir]. by rewrite entries_snoc, <- Hn.
Qed.

(** ** The window loop *)

Lemma takeWindow_spec k w rows :
  StronglySorted row_lt rows -> seg_ok k -> Forall (fun r => w <= ord (Slot r) k) rows ->
  takeWindow k w rows = (rowsIn k w rows, filter (fun r => w + 1 <= ord (Slot r) k) rows).
Proof.
  intros Hs Hk. induction Hs as [|r rows Hs IH Hf]; intros Hw; [done|].
  apply Forall_cons_iff in Hw as [Hr Hw]. cbn [takeWindow]. unfold rowsIn. rewrite !filter_cons.
  fold (rowsIn k w rows). destruct (Z.eqb_spec (ord (Slot r) k) w) as [E|E].
  - rewrite IH, (decide_True (P := ord (Slot r) k = w)), decide_False by (done || lia). done.
  - rewrite (decide_False (P := ord (Slot r) k = w)), decide_True by (done || lia).
    assert (Hall : Forall (fun x => w + 1 <= ord (Slot x) k) rows).
    { rewrite Forall_forall in *. intros x Hx. specialize (Hf x Hx). unfold row_lt in Hf.
      pose proof (ord_mono (Slot r) (Slot x) k Hk). lia. }
    f_equal; [symmetry; apply rowsIn_none|f_equal].
    + eapply Forall_impl; [exact Hall|]. simpl. lia.
    + symmetry. by apply filter_all.
Qed.

Section Loop.
Context (p : Params) (old new : list Row) (s' w0 : Z).
Local Abbreviation k := (p_SegBits p).
Local Abbreviation R := (old ++ new).
Context (Hp : params_ok p) (Hs' : 0 <= s' < maxUint64) (Hsort : StronglySorted row_lt R)
  (Hrange : Forall (fun r => p_OriginSlot p <= Slot r <= s') R)
  (Hold : Forall (fun r => ord (Slot r) k <= w0) old)
  (Hnew : Forall (fun r => w0 <= ord (Slot r) k) new).

(** Before window [w]: everything below is sealed, the open segment holds the
    old rows of [w], the new rows from [w] on are still to come. *)
Record loop_inv (w : Z) (next : state) (o : Pointer Segment) (rest : list Row) : Prop := {
  li_w : w0 <= w; li_base : baseWin p <= w; li_done : w * 2 ^ k <= s' + 1;
  li_dir : dir_at p R (Z.to_nat (w - baseWin p)) next;
  li_open : points o (mkSegment (windowStart w k) (rowsIn k w old));
  li_rest : rest = filter (fun r => w <= ord (Slot r) k) new;
  li_enc : forall v, baseWin p <= v < w -> rowsIn k v R <> [] -> seg_enc (segOf k R v) }.

(** After the loop: the state the new coverage means. *)
Record loop_post (next : state) (o : Pointer Segment) (rest : list Row) : Prop := {
  lp_dir : dir_at p R (sealedN p s') next;
  lp_open : points o (segOf k R (openWin p s'));
  lp_rest : rest = [];
  lp_enc : forall v, baseWin p <= v < openWin p s' -> rowsIn k v R <> [] -> seg_enc (segOf k R v) }.

Lemma window_bounds w : w <= ord s' k -> 0 <= w -> w * 2 ^ k <= s' /\ (w + 1) * 2 ^ k <= 2 ^ 64.
Proof.
  intros Hw H0. pose proof (po_seg _ Hp) as [? ?]. assert (0 < 2 ^ k) by (apply pow2_pos'; lia).
  pose proof (ord_window s' k (po_seg _ Hp) ltac:(lia)). split; [nia|].
  assert (E : 2 ^ 64 = 2 ^ (64 - k) * 2 ^ k) by (rewrite <- Z.pow_add_r by lia; f_equal; lia).
  assert (w * 2 ^ k < 2 ^ (64 - k) * 2 ^ k) by (unfold maxUint64 in *; nia). nia.
Qed.

(** A window that [s'] does not complete is the one [s' + 1] falls in. *)
Lemma open_here w : 0 <= w -> w <= ord s' k -> s' < (w + 1) * 2 ^ k - 1 -> ord s' k = w /\ openWin p s' = w.
Proof.
  intros H0 Hw Hlt. destruct (window_bounds w Hw H0) as [? _].
  split; [|unfold openWin]; apply ord_unique; (apply Hp || lia).
Qed.

Lemma open_next w : 0 <= w -> ord s' k < w -> w * 2 ^ k <= s' + 1 -> openWin p s' = w.
Proof.
  intros H0 Hw Hd. unfold openWin. pose proof (po_seg _ Hp) as Hk.
  pose proof (ord_window s' k Hk ltac:(lia)). apply ord_unique; [done|].
  destruct Hk. assert (0 < 2 ^ k) by (apply pow2_pos'; lia). nia.
Qed.

Lemma base_nonneg : 0 <= baseWin p.
Proof. unfold baseWin. apply ord_le_slot; [apply Hp|]. apply (po_origin _ Hp). Qed.

Lemma segOf_u64 w : segment_u64 (segOf k R w).
Proof.
  split; cbn [Slot0 Rows segOf].
  - unfold windowStart, shl64. case_match; [lia|apply u64_range].
  - apply Forall_forall. intros r [_ Hr]%rowsIn_elem. rewrite Forall_forall in Hrange.
    specialize (Hrange r Hr). destruct (po_origin _ Hp). lia.
Qed.

Lemma applyWindow_run w next o rest (h : Eng) r h' :
  loop_inv w next o rest -> w <= ord s' k ->
  applyWindow s' w next o (rowsIn k w new) h = (r, h') -> engine_inv h ->
  engine_le h h' /\ engine_inv h' /\
  match r with
  | Ok (next', o') =>
    if (w + 1) * 2 ^ k - 1 <=? s' then
      dir_at p R (S (Z.to_nat (w - baseWin p))) next' /\
      (rowsIn k w R <> [] -> seg_enc (segOf k R w)) /\
      o' = NewNode (mkSegment (windowStart (w + 1) k) [])
    else next' = next /\ points o' (segOf k R w)
  | Err e => external e
  end.
Proof.
  intros [Hw0 Hb Hd Hdir Ho _ _] Hw H HI. pose proof base_nonneg as Hbn.
  destruct (window_bounds w Hw ltac:(lia)) as [Hlo Hhi]. destruct Hdir as (Hpar & Hdir & Hdep).
  unfold applyWindow in H. rewrite Hpar in H.
  apply bind_run in H as [(o1 & h1 & Ho1 & H)|(e & Ho1 & ->)].
  2: { destruct (0 <? _); [|done].
       apply bind_run in Ho1 as [([v o2] & h2 & Hm & Hx)|(e' & Hm & [= ->])]; [done|].
       apply (Mutate_run _ _ _ _ _ Ho) in Hm as (? & ? & ?); [|done].
       split; [done|]. split; [done|]. by apply store_err_external. }
  assert (engine_le h h1 /\ engine_inv h1 /\ points o1 (segOf k R w)) as (HR1 & HI1 & Hpt).
  { destruct (rowsIn k w new) as [|r0 rs] eqn:E.
    - injection Ho1 as <- <-. split; [done|]. split; [done|]. unfold segOf.
      by rewrite rowsIn_app, E, app_nil_r.
    - cbn in Ho1. apply bind_run_ok in Ho1 as ([v o2] & h2 & Hm & Hx).
      apply (Mutate_run _ _ _ _ _ Ho) in Hm as (? & ? & -> & ->); [|done]. injection Hx as <- <-.
      split; [done|]. split; [done|]. left. split; [|apply segOf_u64].
      unfold assign, NewNode, segOf. cbn. by rewrite rowsIn_app, E. }
  rewrite windowEnd_exact in H by (apply Hp || lia).
  destruct (Z.leb_spec ((w + 1) * 2 ^ k - 1) s') as [Hs|Hs].
  2: { injection H as <- <-. done. }
  assert (Hu : is_u64 (w + 1)).
  { destruct (po_seg _ Hp). assert (0 < 2 ^ k) by (apply pow2_pos'; lia).
    unfold is_u64, maxUint64 in *. nia. }
  apply (seal_run p R (Z.to_nat (w - baseWin p))) in H as (HR2 & HI2 & Hr); try done; [|lia].
  split; [by etrans|]. split; [done|]. destruct r as [[next' o']|]; [|done].
  destruct Hr as (? & _ & ? & ->). split; [done|]. split; [done|].
  by rewrite add64_small.
Qed.

Lemma applyLoop_run fuel w next o rest (h : Eng) r h' :
  loop_inv w next o rest -> w <= ord s' k + 1 -> Z.of_nat fuel = ord s' k - w + 2 ->
  applyLoop fuel s' (ord s' k) w next o rest h = (r, h') -> engine_inv h ->
  engine_le h h' /\ engine_inv h' /\
  match r with Ok (next', o', rest') => loop_post next' o' rest' | Err e => external e end.
Proof.
  pose proof base_nonneg as Hbn. pose proof (po_seg _ Hp) as Hk.
  revert w next o rest h r h'. induction fuel as [|fuel IH]; intros w next o rest h r h' Hinv Hw Hf H HI; [lia|].
  pose proof Hinv as [Hw0 Hb Hd Hdir Ho Hrest Henc]. cbn [applyLoop] in H.
  destruct (Z.leb_spec w (ord s' k)) as [Hle|Hgt]; cbn [negb] in H.
  2: { injection H as <- <-. split; [done|]. split; [done|].
       assert (Hop : openWin p s' = w) by (apply open_next; lia || done).
       assert (rowsIn k w new = [] /\ rest = []) as [Hn ->].
       { assert (Hall : Forall (fun r => ord (Slot r) k < w) new).
         { apply Forall_app in Hrange as [_ Hr]. eapply Forall_impl; [exact Hr|]. simpl. intros x Hx.
           pose proof (ord_mono (Slot x) s' k Hk). lia. }
         split; [apply rowsIn_none|subst rest; apply filter_none];
           (eapply Forall_impl; [exact Hall|]; simpl; lia). }
       split; unfold sealedN; rewrite ?Hop; try done. unfold segOf. by rewrite rowsIn_app, Hn, app_nil_r. }
  rewrite (proj1 Hdir), takeWindow_spec in H; [|subst rest; by apply sorted_filter, (sorted_app_inv old new)|done|].
  2: { subst rest. apply Forall_forall. by intros x [? _]%list_elem_of_filter. }
  assert (Hb1 : rowsIn k w rest = rowsIn k w new) by (subst rest; apply filter_comp; lia).
  assert (Hr1 : filter (fun r => w + 1 <= ord (Slot r) k) rest = filter (fun r => w + 1 <= ord (Slot r) k) new)
    by (subst rest; apply filter_comp; lia).
  rewrite Hb1, Hr1 in H.
  apply bind_run in H as [([next' o'] & h1 & Ha & H)|(e & Ha & ->)];
    apply (applyWindow_run w next o rest) in Ha as (HR1 & HI1 & Hr); try done.
  destruct (window_bounds w Hle ltac:(lia)) as [Hlo Hhi].
  rewrite add64_small in H by (pose proof (ord_le_slot s' k Hk); unfold is_u64, maxUint64 in *; lia).
  destruct (Z.leb_spec ((w + 1) * 2 ^ k - 1) s') as [Hs|Hs].
  - destruct Hr as (Hdir' & He & ->).
    apply IH in H as (HR2 & HI2 & Hr); try done; try lia. { split; [by etrans|]. done. }
    assert (Hsn : Z.to_nat (w + 1 - baseWin p) = S (Z.to_nat (w - baseWin p))) by lia.
    split; rewrite ?Hsn; try done; try lia.
    + left. rewrite rowsIn_none.
      * split; [done|]. split; [|constructor]. unfold windowStart, shl64. cbn.
        case_match; [lia|apply u64_range].
      * eapply Forall_impl; [exact Hold|]. simpl. lia.
    + intros v Hv. destruct (decide (v = w)) as [->|]; [done|]. apply Henc. lia.
  - destruct Hr as [-> Hpt]. destruct (open_here w ltac:(lia) Hle Hs) as [Heq Hop].
    destruct fuel as [|fuel]; [lia|]. cbn [applyLoop] in H.
    rewrite (proj2 (Z.leb_gt _ _)) in H by lia. cbn [negb] in H. injection H as <- <-.
    split; [done|]. split; [done|]. split; unfold sealedN; rewrite ?Hop; try done.
    apply filter_none. apply Forall_app in Hrange as [_ Hr]. eapply Forall_impl; [exact Hr|].
    simpl. intros x Hx. pose proof (ord_mono (Slot x) s' k Hk). lia.
Qed.
End Loop.

(** ** One extension *)

(** Where coverage resumes. *)
Definition resume (m : hmodel) : Z :=
  match m_synced m with Some s => s + 1 | None => p_OriginSlot (m_params m) end.

Definition extended (m : hmodel) (new : list Row) (s' : Z) : hmodel :=
  mkModel (m_params m) (Some s') (m_rows m ++ new).

(** The rows of a batch that extends [m] to [s']. *)
Record batch_ok (m : hmodel) (new : list Row) (s' : Z) : Prop := {
  bo_synced : resume m <= s' < maxUint64;
  bo_sorted : StronglySorted row_lt new;
  bo_range : Forall (fun r => resume m <= Slot r <= s') new }.

Lemma resume_origin m : head_ok m -> 0 <= p_OriginSlot (m_params m) <= resume m.
Proof.
  intros (Hp & _ & Hc). destruct (po_origin _ Hp). unfold resume.
  destruct (m_synced m); [|lia]. destruct (co_synced _ _ _ Hc). lia.
Qed.

Lemma old_rows m : head_ok m ->
  StronglySorted row_lt (m_rows m) /\
  Forall (fun r => p_OriginSlot (m_params m) <= Slot r < resume m) (m_rows m).
Proof.
  intros (Hp & _ & Hc). unfold resume. destruct (m_synced m) as [s|].
  - split; [apply Hc|]. eapply Forall_impl; [apply (co_range _ _ _ Hc)|]. simpl. lia.
  - rewrite Hc. split; constructor.
Qed.

Lemma batch_sorted m new s' : head_ok m -> batch_ok m new s' -> StronglySorted row_lt (m_rows m ++ new).
Proof.
  intros Hok [_ Hs Hr]. destruct (old_rows m Hok) as [Ho Hor]. apply sorted_app_inv.
  split; [done|]. split; [done|]. rewrite Forall_forall in *. intros x y Hx Hy.
  specialize (Hor x Hx). specialize (Hr y Hy). lia.
Qed.

Lemma batch_range m new s' : head_ok m -> batch_ok m new s' ->
  Forall (fun r => p_OriginSlot (m_params m) <= Slot r <= s') (m_rows m ++ new).
Proof.
  intros Hok [Hs _ Hr]. destruct (old_rows m Hok) as [_ Ho]. pose proof (resume_origin m Hok).
  apply Forall_app. split; (eapply Forall_impl; [eassumption|]); simpl; lia.
Qed.

Lemma loop_inv_start m new s' o :
  head_ok m -> batch_ok m new s' ->
  points o (segOf (p_SegBits (m_params m)) (m_rows m) (ord (resume m) (p_SegBits (m_params m)))) ->
  loop_inv (m_params m) (m_rows m) new s' (ord (resume m) (p_SegBits (m_params m)))
    (ord (resume m) (p_SegBits (m_params m))) (set_root Undef (canon_state m)) o new.
Proof.
  intros Hok Hb Ho. pose proof Hok as (Hp & _ & Hc). pose proof (po_seg _ Hp) as Hk.
  pose proof (resume_origin m Hok). destruct Hb as [Hs Hsort Hr].
  set (k := p_SegBits (m_params m)) in *. set (w0 := ord (resume m) k).
  assert (Hnone : forall v, v < w0 -> rowsIn k v (m_rows m ++ new) = rowsIn k v (m_rows m)).
  { intros v Hv. rewrite rowsIn_app, (rowsIn_none k v new), app_nil_r; [done|].
    eapply Forall_impl; [exact Hr|]. simpl. intros x Hx.
    pose proof (ord_mono (resume m) (Slot x) k Hk). lia. }
  split; try done.
  - apply ord_mono; [done|lia].
  - pose proof (ord_window (resume m) k Hk ltac:(lia)) as Hwin. fold w0 in Hwin. fold k. lia.
  - unfold dir_at. unfold w0, resume, canon_state, pre_state.
    destruct (m_synced m) as [s|] eqn:E; cbn; split; try done.
    + split; [|done]. unfold canon_entries. fold k. f_equal. apply entries_ext. intros v Hv.
      symmetry. apply Hnone. unfold w0, resume. rewrite E. unfold sealedN, openWin in Hv. fold k in Hv. lia.
    + unfold baseWin. fold k. by rewrite Z.sub_diag.
  - symmetry. apply filter_all. eapply Forall_impl; [exact Hr|]. simpl. intros x Hx.
    apply ord_mono; [done|lia].
  - intros v Hv. unfold segOf. rewrite Hnone by lia. intros Hne.
    unfold w0, resume in Hv. destruct (m_synced m) as [s|].
    + apply (co_sealed _ _ _ Hc); done.
    + unfold baseWin in Hv. fold k in Hv. lia.
Qed.

Lemma publish_extended m new s' next o rest :
  head_ok m -> loop_post (m_params m) (m_rows m) new s' next o rest ->
  set_root None (set_coverage s' true (set_open (seg_cid (segOf (p_SegBits (m_params m)) (m_rows m ++ new)
      (openWin (m_params m) s'))) next))
  = pre_state (extended m new s').
Proof.
  intros Hok [(Hpar & Hdir & Hdep) _ _ _]. unfold pre_state, extended, set_root, set_coverage, set_open. cbn.
  by rewrite Hpar, Hdir, Hdep.
Qed.

Lemma set_root_twice c c' (st : state) : set_root c (set_root c' st) = set_root c st.
Proof. done. Qed.
Lemma headObject_root c (st : state) : headObject (set_root c st) = headObject st.
Proof. done. Qed.

(** What publishing a next-state gives: the canonical state of its model. *)
Lemma publish_model m' next (h : Eng) r h' :
  set_root None next = pre_state m' -> publish next h = (r, h') -> engine_inv h ->
  engine_inv h' /\ keeps h h' /\
  match r with
  | Ok st => st = canon_state m' /\ cur h' = canon_state m' /\
             fits (EncodeHead (headObject (pre_state m'))) = true
  | Err e => cur h' = cur h /\ external e
  end.
Proof.
  intros Hpre H HI. apply publish_run in H as (HI' & Hk & Hr); [|done]. split; [done|]. split; [done|].
  assert (Ho : headObject next = headObject (pre_state m')) by (by rewrite <- Hpre).
  destruct r as [st|]; [|done]. destruct Hr as (-> & Hc & Hok). rewrite Ho in *.
  assert (E : set_root (head_cid (headObject (pre_state m'))) next = canon_state m').
  { unfold canon_state, model_root. by rewrite <- Hpre. }
  rewrite E in *. done.
Qed.

Lemma encoded_synced m s : fits (EncodeHead (headObject (pre_state m))) = true ->
  m_synced m = Some s -> s <= maxInt64.
Proof.
  intros (b & c & E & _)%fits_inv Hs.
  apply EncodeHead_inv in E as (_ & _ & _ & _ & _ & Hz & _). apply Hz.
  unfold pre_state. by rewrite Hs.
Qed.

Lemma head_ok_extended m new s' next o rest :
  head_ok m -> batch_ok m new s' ->
  loop_post (m_params m) (m_rows m) new s' next o rest ->
  seg_enc (segOf (p_SegBits (m_params m)) (m_rows m ++ new) (openWin (m_params m) s')) ->
  fits (EncodeHead (headObject (pre_state (extended m new s')))) = true ->
  head_ok (extended m new s').
Proof.
  intros Hok Hb Hl Ho Henc. split; [apply Hok|]. split; [done|]. cbn [m_synced m_params m_rows extended].
  pose proof (encoded_synced _ s' Henc eq_refl). pose proof (resume_origin m Hok).
  split; [destruct (bo_synced _ _ _ Hb); lia|by eapply batch_sorted|by apply batch_range|by eapply lp_enc|done].
Qed.

Lemma open_ptr_run m (h : Eng) r h' :
  head_ok m ->
  (if covered (canon_state m) then
     openW <-- openOrd (canon_state m) ;;
     fail_if negb (openW =? ord (resume m) (p_SegBits (m_params m)))
       with EInternal "open segment is not where coverage resumes" ;;
     ret (ptr (open (canon_state m)))
   else ret (NewNode (mkSegment (windowStart (ord (resume m) (p_SegBits (m_params m)))
                                             (p_SegBits (m_params m))) []))) h = (r, h') ->
  engine_inv h ->
  engine_le h h' /\ engine_inv h' /\
  match r with
  | Ok o => points o (segOf (p_SegBits (m_params m)) (m_rows m) (ord (resume m) (p_SegBits (m_params m))))
  | Err e => store_err e
  end.
Proof.
  intros Hok H HI. pose proof Hok as (Hp & _ & Hc). unfold resume in *.
  destruct (m_synced m) as [s|] eqn:E.
  - rewrite (covered_model m s E) in H.
    apply bind_run in H as [(w & h1 & Ho & H)|(e & Ho & ->)];
      apply (openOrd_run m s) in Ho as (? & ? & Hr); try done;
      try apply canon_state_of; try (by apply head_content).
    subst w. unfold openWin in H. rewrite Z.eqb_refl in H. cbn [negb] in H.
    injection H as <- <-. split; [done|]. split; [done|]. right.
    split; [apply (co_open _ _ _ Hc)|]. left. unfold canon_state, pre_state. by rewrite E.
  - rewrite (uncovered_model m E) in H. injection H as <- <-. split; [done|]. split; [done|]. left.
    unfold segOf. rewrite Hc. split; [done|]. split; [|constructor]. cbn.
    unfold windowStart, shl64. case_match; [lia|apply u64_range].
Qed.

Lemma batch_loop_run m new s' o (h : Eng) r h' :
  head_ok m -> batch_ok m new s' ->
  points o (segOf (p_SegBits (m_params m)) (m_rows m) (ord (resume m) (p_SegBits (m_params m)))) ->
  applyLoop (Z.to_nat (ord s' (p_SegBits (m_params m)) - ord (resume m) (p_SegBits (m_params m)) + 2))
    s' (ord s' (p_SegBits (m_params m))) (ord (resume m) (p_SegBits (m_params m)))
    (set_root Undef (canon_state m)) o new h = (r, h') -> engine_inv h ->
  engine_le h h' /\ engine_inv h' /\
  match r with
  | Ok (next, o', rest) => loop_post (m_params m) (m_rows m) new s' next o' rest
  | Err e => external e
  end.
Proof.
  intros Hok Hb Ho H HI. pose proof Hok as (Hp & _ & _). pose proof (po_seg _ Hp) as Hk.
  pose proof (resume_origin m Hok). destruct (old_rows m Hok) as [_ Hor]. pose proof (bo_synced _ _ _ Hb) as [? ?].
  pose proof (ord_mono (resume m) s' _ Hk ltac:(done)).
  eapply (applyLoop_run (m_params m) (m_rows m) new s' (ord (resume m) (p_SegBits (m_params m)))) in H;
    try done; try lia.
  - by eapply batch_sorted.
  - by apply batch_range.
  - eapply Forall_impl; [exact Hor|]. simpl. intros x Hx. apply ord_mono; [done|lia].
  - by apply loop_inv_start.
Qed.

Lemma extend_run m new s' (h : Eng) r h' :
  head_ok m -> batch_ok m new s' -> cur h = canon_state m ->
  extend (canon_state m) new s' h = (r, h') -> engine_inv h ->
  engine_inv h' /\ keeps h h' /\
  match r with
  | Ok a => cur h' = canon_state (extended m new s') /\ head_ok (extended m new s') /\
            ar_SyncedTo a = s' /\ ar_Root a = model_root (extended m new s') /\ ar_NoOp a = false
  | Err e => cur h' = cur h /\ external e
  end.
Proof.
  intros Hok Hb Hcur H HI. unfold extend in H. pose proof Hok as (Hp & _ & Hc).
  pose proof (po_seg _ Hp) as Hk. pose proof (resume_origin m Hok) as Hor. destruct (bo_synced _ _ _ Hb) as [Hrs Hmax].
  apply bind_run in H as [([] & h0 & Hm & H)|(e & Hm & ->)]; [|done].
  apply modify_run in Hm as (HR0 & HI0 & _); [|done..].
  rewrite params_model in H.
  assert (Hstart : (if covered (canon_state m) then add64 (syncedTo (canon_state m)) 1
                    else p_OriginSlot (m_params m)) = resume m).
  { unfold resume. destruct (m_synced m) as [s|] eqn:E.
    - rewrite (covered_model m s E), (syncedTo_model m s E). apply add64_small.
      destruct (co_synced _ _ _ Hc). unfold is_u64, maxInt64 in *. lia.
    - by rewrite (uncovered_model m E). }
  cbv zeta in H. rewrite Hstart in H.
  set (k := p_SegBits (m_params m)) in *. set (w0 := ord (resume m) k) in *.
  apply bind_run in H as [(o & h1 & Ho & H)|(e & Ho & ->)];
    apply (open_ptr_run m) in Ho as (HR1 & HI1 & Hr); try done.
  all: apply engine_le_keeps in HR1 as HK1; apply engine_le_keeps in HR0 as HK0.
  2: { split; [done|]. split; [by etrans|]. split; [|by apply store_err_external].
       rewrite (le_cur _ _ HR1). apply HR0. }
  fold k w0 in Hr.
  apply bind_run in H as [([[next o'] rest] & h2 & Hl & H)|(e & Hl & ->)];
    apply (batch_loop_run m new s' o) in Hl as (HR2 & HI2 & Hpost); try done.
  all: apply engine_le_keeps in HR2 as HK2.
  2: { split; [done|]. split; [by do 2 (etrans; [done|])|]. split; [|done].
       rewrite (le_cur _ _ HR2), (le_cur _ _ HR1). apply HR0. }
  rewrite (lp_rest _ _ _ _ _ _ _ Hpost) in H. cbn [len length Z.of_nat Z.ltb Z.compare] in H.
  assert (Hcur2 : cur h2 = cur h) by (rewrite (le_cur _ _ HR2), (le_cur _ _ HR1); apply HR0).
  apply bind_run in H as [(c & h3 & Hcm & H)|(e & Hcm & ->)];
    apply (commitSegment_run _ _ _ _ _ _ (lp_open _ _ _ _ _ _ _ Hpost)) in Hcm as (HR3 & HI3 & Hx); try done.
  all: apply engine_le_keeps in HR3 as HK3.
  2: { split; [done|]. split; [by do 3 (etrans; [done|])|]. split; [|done]. by rewrite (le_cur _ _ HR3). }
  destruct Hx as [-> Henc].
  apply bind_run in H as [(st & h4 & Hpub & H)|(e & Hpub & ->)];
    apply (publish_model (extended m new s')) in Hpub as (HI4 & HK4 & Hx); try done;
    try (by eapply publish_extended).
  2: { split; [done|]. split; [by do 4 (etrans; [done|])|].
       destruct Hx as [-> ?]. split; [|done]. by rewrite (le_cur _ _ HR3). }
  destruct Hx as (-> & Hc4 & Hhead).
  apply bind_run in H as [(st & h5 & Hg & H)|(e & Hg & ->)]; [|done]. injection Hg as <- <-.
  apply bind_run in H as [([] & h5 & Hg & H)|(e & Hg & ->)]; [|done].
  apply modify_run in Hg as (HR5 & HI5 & _); [|done..]. apply engine_le_keeps in HR5 as HK5.
  injection H as <- <-.
  split; [done|]. split; [by do 5 (etrans; [done|])|]. split; [by rewrite (le_cur _ _ HR5)|].
  split; [by eapply head_ok_extended|]. done.
Qed.

(** ** Resolution *)

(** The entry a versioned hash resolves to, its block held by the store. *)
Definition entry_of (resolve : VersionedHash -> res (Cid * bool)) (h : Eng)
  (vh : VersionedHash) (e : RefEntry) : Prop :=
  VH e = vh /\ resolve vh = Ok (Blob e, true) /\
  exists c d, Blob e = Some c /\ bs_has (blocks h) c d.

Definition row_of resolve (h : Eng) (r : RefRow) (o : Row) : Prop :=
  Slot o = rr_Slot r /\ Forall2 (entry_of resolve h) (VHs r) (Entries o).

Lemma entry_of_keeps resolve h h' vh e : keeps h h' -> entry_of resolve h vh e -> entry_of resolve h' vh e.
Proof. intros Hk (? & ? & c & d & ? & ?). split; [done|]. split; [done|]. exists c, d. auto. Qed.

Lemma row_of_keeps resolve h h' r o : keeps h h' -> row_of resolve h r o -> row_of resolve h' r o.
Proof.
  intros Hk [? Hf]. split; [done|]. eapply Forall2_impl; [exact Hf|]. intros. by eapply entry_of_keeps.
Qed.

(** The errors of the resolver, a database read, are not the engine's own. *)
Definition resolver_ok (cfg : @Config MH Sto) : Prop :=
  forall resolve vh e, Resolver cfg = Some resolve -> resolve vh = Err e -> external e.

Lemma resolveVH_run resolve vh (h : Eng) r h' :
  (forall e, resolve vh = Err e -> external e) ->
  resolveVH resolve vh h = (r, h') -> engine_inv h ->
  engine_le h h' /\ engine_inv h' /\
  match r with
  | Ok (Some e) => entry_of resolve h' vh e
  | Ok None => True
  | Err e => external e
  end.
Proof.
  intros Hres H HI. unfold resolveVH in H.
  apply bind_run in H as [([c ok] & h1 & Hr & H)|(e & Hr & ->)]; injection Hr as Hr <-.
  2: { split; [done|]. split; [done|]. by apply Hres. }
  destruct ok, (Defined c) eqn:Ed; cbn [negb orb] in H; try by injection H as <- <-.
  unfold bind, attempt in H. destruct (Get c h) as [g h1] eqn:Eg.
  pose proof (Get_run _ _ _ _ Eg HI) as (HR & HI1 & Hg).
  destruct g as [d|e].
  - injection H as <- <-. split; [done|]. split; [done|]. apply Get_held in Eg as (cv & -> & Hh).
    split; [done|]. split; [done|]. by exists cv, d.
  - assert (Hext : external e) by (by apply store_err_external).
    destruct e; injection H as <- <-; done.
Qed.

Lemma resolveVHs_run resolve vhs entries missing (h : Eng) r h' :
  (forall vh e, resolve vh = Err e -> external e) ->
  resolveVHs resolve vhs entries missing h = (r, h') -> engine_inv h ->
  engine_le h h' /\ engine_inv h' /\
  match r with
  | Ok (entries', missing') =>
    exists es ms, entries' = entries ++ es /\ missing' = missing ++ ms /\
      (ms = [] -> Forall2 (entry_of resolve h') vhs es)
  | Err e => external e
  end.
Proof.
  intros Hres. revert entries missing h r h'. induction vhs as [|vh vhs IH]; intros entries missing h r h' H HI.
  { injection H as <- <-. split; [done|]. split; [done|]. exists [], []. rewrite !app_nil_r. done. }
  cbn [resolveVHs] in H.
  apply bind_run in H as [(o & h1 & Ho & H)|(e & Ho & ->)];
    apply resolveVH_run in Ho as (HR1 & HI1 & Hr); try done; try apply Hres.
  destruct o as [e|]; apply IH in H as (HR2 & HI2 & Hx); try done; (split; [by etrans|]); (split; [done|]);
    destruct r as [[es' ms']|]; try done; destruct Hx as (es & ms & -> & -> & Hf).
  - exists (e :: es), ms. rewrite <- app_assoc. split; [done|]. split; [done|]. intros Hm.
    constructor; [|by apply Hf]. eapply entry_of_keeps; [by apply engine_le_keeps|done].
  - exists es, (vh :: ms). rewrite <- app_assoc. split; [done|]. split; [done|]. done.
Qed.

Lemma resolveLoop_run resolve rows out missing (h : Eng) r h' :
  (forall vh e, resolve vh = Err e -> external e) ->
  resolveLoop resolve rows out missing h = (r, h') -> engine_inv h ->
  engine_le h h' /\ engine_inv h' /\
  match r with
  | Ok (out', missing') =>
    exists os ms, out' = out ++ os /\ missing' = missing ++ ms /\
      (ms = [] -> Forall2 (row_of resolve h') rows os)
  | Err e => external e
  end.
Proof.
  intros Hres. revert out missing h r h'. induction rows as [|x rows IH]; intros out missing h r h' H HI.
  { injection H as <- <-. split; [done|]. split; [done|]. exists [], []. rewrite !app_nil_r. done. }
  cbn [resolveLoop] in H.
  apply bind_run in H as [([es ms] & h1 & Ho & H)|(e & Ho & ->)];
    apply resolveVHs_run in Ho as (HR1 & HI1 & Hr); try done.
  destruct Hr as (es' & ms' & -> & -> & Hf).
  apply IH in H as (HR2 & HI2 & Hx); [|done]. split; [by etrans|]. split; [done|].
  destruct r as [[out' missing']|]; [|done]. destruct Hx as (os & ms & -> & -> & Hfs).
  exists (mkRow (rr_Slot x) es' :: os), (ms' ++ ms). rewrite <- !app_assoc.
  split; [done|]. split; [done|]. intros [Hm1 Hm2]%app_nil. constructor; [|by apply Hfs].
  eapply row_of_keeps; [by apply engine_le_keeps|]. split; [done|]. by apply Hf.
Qed.

Lemma resolveRows_run cfg rows (h : Eng) r h' :
  resolver_ok cfg -> resolveRows cfg rows h = (r, h') -> engine_inv h ->
  engine_le h h' /\ engine_inv h' /\
  match r with
  | Ok out => exists resolve, Resolver cfg = Some resolve /\ Forall2 (row_of resolve h') rows out
  | Err e => external e
  end.
Proof.
  intros Hok H HI. unfold resolveRows in H. destruct (Resolver cfg) as [resolve|] eqn:E.
  2: { by injection H as <- <-. }
  apply bind_run in H as [([out ms] & h1 & Ho & H)|(e & Ho & ->)];
    apply resolveLoop_run in Ho as (HR1 & HI1 & Hr); try done; try (by intros; eapply Hok).
  destruct Hr as (os & ms' & -> & -> & Hf). simpl in H. destruct ms' as [|m ms'].
  - injection H as <- <-. split; [done|]. split; [done|]. exists resolve. split; [done|]. by apply Hf.
  - cbn in H. by injection H as <- <-.
Qed.

(** ** Shape and replay *)

Record shape_ok (origin s' : Z) (rows : list RefRow) : Prop := {
  so_sorted : StronglySorted (fun a b => rr_Slot a < rr_Slot b) rows;
  so_rows : Forall (fun r => origin <= rr_Slot r <= s' /\ 0 < len (VHs r) <= MaxBlobsPerSlotCeiling) rows }.

Lemma validateShapeRows_ok origin s' prev rows :
  validateShapeRows origin s' prev rows = Ok tt <->
  shape_ok origin s' rows /\ (forall p, prev = Some p -> Forall (fun r => p < rr_Slot r) rows).
Proof.
  revert prev. induction rows as [|r rows IH]; intros prev.
  { split; [intros _; split; [by split; constructor|by constructor]|done]. }
  cbn [validateShapeRows]. assert (Hl : 0 <= len (VHs r)) by (unfold len; lia).
  assert (Hp : match prev with Some p => rr_Slot r <=? p | None => false end = false
               <-> forall p, prev = Some p -> p < rr_Slot r).
  { destruct prev as [p|]; [|done]. rewrite Z.leb_gt. split; [by intros ? ? [= <-]|by auto]. }
  split.
  - destruct (match prev with Some _ => _ | None => _ end) eqn:E; [done|].
    pose proof (proj1 Hp eq_refl) as Hp'.
    destruct (Z.ltb_spec (rr_Slot r) origin); [done|]. destruct (Z.ltb_spec s' (rr_Slot r)); [done|].
    destruct (Z.eqb_spec (len (VHs r)) 0); [done|].
    destruct (Z.ltb_spec MaxBlobsPerSlotCeiling (len (VHs r))); [done|].
    intros [[Hs Hr] Hf]%IH. specialize (Hf _ eq_refl). split.
    + split; constructor; (done || lia || auto).
    + intros p Hpp. specialize (Hp' p Hpp). constructor; [done|]. eapply Forall_impl; [exact Hf|]. simpl. lia.
  - intros [[[Hs Hf]%StronglySorted_inv [Hr Hrs]%Forall_cons_iff] Hpr].
    rewrite (proj2 Hp).
    2: { intros p Hpp. specialize (Hpr p Hpp). by apply Forall_cons_iff in Hpr as [? _]. }
    rewrite (proj2 (Z.ltb_ge _ _)), (proj2 (Z.ltb_ge _ _)), (proj2 (Z.eqb_neq _ _)), (proj2 (Z.ltb_ge _ _)) by lia.
    apply IH. split; [by split|]. intros p [= <-]. done.
Qed.

Lemma validateShape_ok st rows s' :
  validateShape st rows s' = Ok tt <->
  p_OriginSlot (params st) <= s' /\ shape_ok (p_OriginSlot (params st)) s' rows.
Proof.
  unfold validateShape. destruct (Z.ltb_spec s' (p_OriginSlot (params st))).
  - split; [done|]. lia.
  - rewrite validateShapeRows_ok. split; [by intros [? _]|]. intros [? ?]. split; [done|]. by intros p [=].
Qed.

Lemma validateShape_err st rows s' e : validateShape st rows s' = Err e -> exists reason, e = EConflict reason.
Proof.
  unfold validateShape. case_match; [intros [= <-]; by eexists|]. generalize (@None Z).
  induction rows as [|r rows IH]; intros prev; [done|]. cbn [validateShapeRows].
  repeat match goal with |- (if ?b then _ else _) = _ -> _ => destruct b; [intros [= <-]; by eexists|] end.
  apply IH.
Qed.

(** The stored rows a replayed batch has to equal. *)
Definition replays (m : hmodel) (rows : list RefRow) : Prop :=
  Forall (fun r => exists row, row_at (m_rows m) (rr_Slot r) = Some row /\ VH <$> Entries row = VHs r) rows.

Lemma sameVHs_spec stored vhs :
  length stored = length vhs -> sameVHs stored vhs = true <-> VH <$> stored = vhs.
Proof.
  revert vhs. induction stored as [|e stored IH]; intros [|vh vhs] Hl; simpl in *; try done.
  rewrite andb_true_iff, bool_decide_eq_true, IH by lia. split; [by intros [<- <-]|by intros [= <- <-]].
Qed.

(** A replay is accepted exactly when every row is the stored one. *)
Lemma verifyReplay_run m s rows (h : Eng) r h' :
  head_ok m -> m_synced m = Some s ->
  Forall (fun r => p_OriginSlot (m_params m) <= rr_Slot r <= s) rows ->
  verifyReplay (canon_state m) rows h = (r, h') -> engine_inv h ->
  engine_le h h' /\ engine_inv h' /\
  match r with
  | Ok _ => replays m rows
  | Err e => store_err e \/ ((exists reason, e = EConflict reason) /\ ~ replays m rows)
  end.
Proof.
  intros Hok Hs. revert h r h'. induction rows as [|x rows IH]; intros h r h' Hr H HI.
  { injection H as <- <-. split; [done|]. split; [done|]. constructor. }
  apply Forall_cons_iff in Hr as [Hx Hr]. cbn [verifyReplay] in H.
  pose proof (resume_origin m Hok).
  apply bind_run in H as [([rs st] & h1 & Hl & H)|(e & Hl & ->)];
    apply (lookupRow_run m) in Hl as (HR1 & HI1 & Hlk); try done; try lia.
  2: { split; [done|]. split; [done|]. by left. }
  destruct Hlk as [-> ->].
  assert (Hsp : spec_row m (rr_Slot x) = (StatusFound, row_at (m_rows m) (rr_Slot x))).
  { unfold spec_row. rewrite Hs, (proj2 (Z.ltb_ge _ _)), (proj2 (Z.ltb_ge _ _)) by lia. done. }
  rewrite Hsp in H. cbn [snd fst r_Status] in H.
  assert (Hbad : forall reason, ~ (exists row, row_at (m_rows m) (rr_Slot x) = Some row /\ VH <$> Entries row = VHs x) ->
    engine_le h h1 /\ engine_inv h1 /\ (store_err (EConflict reason) \/
      (exists reason', EConflict reason = EConflict reason') /\ ~ replays m (x :: rows))).
  { intros reason Hn. split; [done|]. split; [done|]. right. split; [by eexists|].
    intros [? _]%Forall_cons_iff. done. }
  destruct (row_at (m_rows m) (rr_Slot x)) as [row|] eqn:Erow.
  2: { injection H as <- <-. apply Hbad. by intros (? & ? & _). }
  cbn in H. destruct (Z.eqb_spec (len (Entries row)) (len (VHs x))) as [Hlen|Hlen]; cbn [negb] in H.
  2: { injection H as <- <-. apply Hbad. intros (? & [= <-] & E). apply Hlen. unfold len.
       by rewrite <- E, length_fmap. }
  unfold len in Hlen. destruct (sameVHs (Entries row) (VHs x)) eqn:Esame; cbn [negb] in H.
  2: { injection H as <- <-. apply Hbad. intros (? & [= <-] & E). apply sameVHs_spec in E; [|lia]. congruence. }
  apply sameVHs_spec in Esame; [|lia].
  apply IH in H as (HR2 & HI2 & Hx2); [|done..]. split; [by etrans|]. split; [done|].
  destruct r as [[]|e].
  - constructor; [by exists row|done].
  - destruct Hx2 as [?|[? Hn]]; [by left|]. right. split; [done|]. by intros [_ ?]%Forall_cons_iff.
Qed.

(** ** ApplyRefs *)

Lemma lastSlot_le rows b : 0 <= b -> Forall (fun r => rr_Slot r <= b) rows -> lastSlot rows <= b.
Proof.
  intros Hb Hf. unfold lastSlot. destruct (last rows) as [r|] eqn:E; [|done].
  rewrite Forall_forall in Hf. apply Hf. by apply last_Some_elem_of.
Qed.

Lemma rows_of_batch m resolve h rows new s' :
  resume m <= s' < maxUint64 -> shape_ok (p_OriginSlot (m_params m)) s' rows ->
  Forall (fun r => resume m <= rr_Slot r) rows -> Forall2 (row_of resolve h) rows new ->
  batch_ok m new s'.
Proof.
  intros Hs [Hsort Hr] Hres Hf. split; [done| |].
  - clear Hr Hres. revert Hsort. induction Hf as [|x y rows new [Hxy _] Hf IH]; intros Hsort; [constructor|].
    apply StronglySorted_inv in Hsort as [Hs1 Hall]. constructor; [by apply IH|].
    clear IH Hs1. induction Hf as [|x' y' rows new [Hxy' _] Hf IH]; [constructor|].
    apply Forall_cons_iff in Hall as [? ?]. constructor; [unfold row_lt; lia|by apply IH].
  - clear Hsort. induction Hf as [|x y rows new [Hxy _] Hf IH]; [constructor|].
    apply Forall_cons_iff in Hr as [? ?]. apply Forall_cons_iff in Hres as [? ?].
    constructor; [lia|by apply IH].
Qed.

Lemma finally_run {A} (m : M Eng A) f (h : Eng) r h' :
  finally m f h = (r, h') -> exists h1, m h = (r, h1) /\ h' = f h1.
Proof. unfold finally. destruct (m h) as [r1 h1]. intros [= <- <-]. eauto. Qed.

(** What an apply of [rows] up to [s'] may answer on the head [m]. *)
Definition apply_spec (cfg : @Config MH Sto) (m : hmodel) (rows : list RefRow) (s' : Z)
  (h' : Eng) (r : res ApplyResult) : Prop :=
  match r with
  | Ok a =>
    (* an accepted replay: nothing changes *)
    (represents h' m /\ replays m rows /\
     exists s, m_synced m = Some s /\ s' <= s /\ a = mkApplyResult s (model_root m) true stats0) \/
    (* an extension: coverage reaches [s'], the rows are added *)
    (exists resolve new, Resolver cfg = Some resolve /\ resume m <= s' /\
       Forall2 (row_of resolve h') rows new /\ represents h' (extended m new s') /\
       ar_SyncedTo a = s' /\ ar_Root a = model_root (extended m new s') /\ ar_NoOp a = false)
  | Err e => represents h' m /\ external e
  end.

Lemma replay_or_extend m s' : p_OriginSlot (m_params m) <= s' ->
  (exists s, m_synced m = Some s /\ s' <= s) \/
  (resume m <= s' /\ covered (canon_state m) && (s' <=? syncedTo (canon_state m)) = false).
Proof.
  intros Ho. unfold resume. destruct (m_synced m) as [s|] eqn:Hs.
  - rewrite (covered_model m s Hs), (syncedTo_model m s Hs). destruct (Z.leb_spec s' s); [left; eauto|].
    right. split; [lia|done].
  - right. by rewrite (uncovered_model m Hs).
Qed.

(** Step 3: a batch that extends has no row on covered ground. *)
Lemma no_overlap m rows :
  covered (canon_state m) && existsb (fun r => rr_Slot r <=? syncedTo (canon_state m)) rows = false ->
  Forall (fun r => p_OriginSlot (m_params m) <= rr_Slot r) rows ->
  Forall (fun r => resume m <= rr_Slot r) rows.
Proof.
  intros Eov Ho. unfold resume. destruct (m_synced m) as [s|] eqn:Hs; [|done].
  rewrite (covered_model m s Hs), (syncedTo_model m s Hs) in Eov. cbn in Eov. clear Ho.
  induction rows as [|x rows IH]; [constructor|]. simpl in Eov. apply orb_false_iff in Eov as [?%Z.leb_gt ?].
  constructor; [lia|by apply IH].
Qed.

Lemma replay_run cfg m s rows s' (h : Eng) r h' :
  represents h m -> m_synced m = Some s -> s' <= s ->
  Forall (fun r => p_OriginSlot (m_params m) <= rr_Slot r <= s') rows ->
  (verifyReplay (canon_state m) rows ;;;
   ret (mkApplyResult (syncedTo (canon_state m)) (root (canon_state m)) true stats0)) h = (r, h') ->
  apply_spec cfg m rows s' h' r.
Proof.
  intros Hrep Hs Hss Hle H. pose proof Hrep as [_ HI Hok]. rewrite (syncedTo_model m s Hs) in H.
  apply bind_run in H as [([] & h1 & Hvr & H)|(e & Hvr & ->)];
    apply (verifyReplay_run m s) in Hvr as (HR1 & HI1 & Hx); try done;
    try (eapply Forall_impl; [exact Hle|]; simpl; lia).
  - injection H as <- <-. left. split; [by eapply represents_le|]. split; [done|]. by exists s.
  - split; [by eapply represents_le|]. destruct Hx as [?|[[? ->] _]]; [by apply store_err_external|done].
Qed.

Lemma ApplyRefs_run cfg m rows s' (h : Eng) r h' :
  represents h m -> resolver_ok cfg -> s' < maxUint64 ->
  ApplyRefs cfg rows s' h = (r, h') -> apply_spec cfg m rows s' h' r.
Proof.
  intros Hrep Hcfg Hmax H. pose proof Hrep as [Hcur HI Hok]. unfold ApplyRefs in H.
  apply bind_run in H as [(st & h0 & Hst & H)|(e & Hst & ->)]; [|done].
  injection Hst as <- <-. rewrite Hcur in H. pose proof (resume_origin m Hok) as Hor.
  apply bind_run in H as [([] & h0 & Hv & H)|(e & Hv & ->)]; injection Hv as Hv <-.
  2: { apply validateShape_err in Hv as [? ->]. by split. }
  apply validateShape_ok in Hv as [Hos Hshape]. rewrite params_model in *.
  assert (Hle : Forall (fun r => p_OriginSlot (m_params m) <= rr_Slot r <= s') rows).
  { eapply Forall_impl; [apply (so_rows _ _ _ Hshape)|]. simpl. tauto. }
  destruct (replay_or_extend m s' Hos) as [(s & Hs & Hss)|[Hres Hcov]].
  - rewrite (covered_model m s Hs), (proj2 (Z.leb_le s' _)), (proj2 (Z.leb_le (lastSlot rows) _)) in H;
      rewrite ?(syncedTo_model m s Hs); try done.
    + by eapply (replay_run cfg m s rows s').
    + apply lastSlot_le; [lia|]. eapply Forall_impl; [exact Hle|]. simpl. lia.
  - rewrite Hcov in H. cbn [andb] in H.
    destruct (covered (canon_state m) && existsb _ rows) eqn:Eov. { injection H as <- <-. by split. }
    apply bind_run in H as [(new & h1 & Hrr & H)|(e & Hrr & ->)];
      apply resolveRows_run in Hrr as (HR1 & HI1 & Hx); try done.
    2: { split; [by eapply represents_le|done]. }
    destruct Hx as (resolve & Hrs & Hf).
    assert (Hb : batch_ok m new s').
    { eapply rows_of_batch; [done|done| |exact Hf]. apply no_overlap; [done|].
      eapply Forall_impl; [exact Hle|]. simpl. tauto. }
    apply finally_run in H as (h2 & H & ->).
    apply extend_run in H as (HI2 & HK2 & Hx); try done; [|by rewrite (le_cur _ _ HR1)].
    destruct r as [a|e].
    + destruct Hx as (Hc2 & Hok2 & ? & ? & ?). right. exists resolve, new. do 2 (split; [done|]).
      split. { eapply Forall2_impl; [exact Hf|]. intros. by eapply row_of_keeps. }
      split; [by split|]. done.
    + destruct Hx as [Hc2 ?]. split; [|done]. split; [|done|done]. cbn. by rewrite Hc2, (le_cur _ _ HR1).
Qed.

(** C1: on an engine that represents an abstract head, [ApplyRefs] is one of: a
    replay that equals what is stored (nothing changes), an extension whose
    state is the canonical state of the head with the resolved rows added and
    coverage advanced, every referenced blob being held by the store, or an
    error, which leaves the head as it was and is never an internal error nor a
    loop that does not end. *)
Theorem ApplyRefs_refines cfg m rows s' (h : Eng) r h' :
  represents h m -> resolver_ok cfg -> s' < maxUint64 ->
  ApplyRefs cfg rows s' h = (r, h') -> apply_spec cfg m rows s' h' r.
Proof. apply ApplyRefs_run. Qed.

(** A well-formed batch that does not advance coverage is decided by the stored
    rows alone. *)
Lemma ApplyRefs_decides_replay cfg m s rows s' (h : Eng) r h' :
  represents h m -> m_synced m = Some s -> p_OriginSlot (m_params m) <= s' <= s ->
  shape_ok (p_OriginSlot (m_params m)) s' rows ->
  ApplyRefs cfg rows s' h = (r, h') ->
  represents h' m /\
  match r with
  | Ok a => replays m rows /\ a = mkApplyResult s (model_root m) true stats0
  | Err e => store_err e \/ ((exists reason, e = EConflict reason) /\ ~ replays m rows)
  end.
Proof.
  intros Hrep Hs Hs' Hshape H. pose proof Hrep as [Hcur HI Hok]. unfold ApplyRefs in H.
  apply bind_run in H as [(st & h0 & Hst & H)|(e & Hst & ->)]; [|done].
  injection Hst as <- <-. rewrite Hcur in H.
  assert (Hv : validateShape (canon_state m) rows s' = Ok tt).
  { apply validateShape_ok. rewrite params_model. split; [lia|done]. }
  rewrite Hv in H. apply bind_run in H as [([] & h0 & Hx & H)|(e & Hx & ->)]; [|done]. injection Hx as <-.
  assert (Hle : Forall (fun r => p_OriginSlot (m_params m) <= rr_Slot r <= s') rows).
  { eapply Forall_impl; [apply (so_rows _ _ _ Hshape)|]. simpl. tauto. }
  pose proof (resume_origin m Hok).
  rewrite (covered_model m s Hs), (syncedTo_model m s Hs), (proj2 (Z.leb_le s' s)), (proj2 (Z.leb_le (lastSlot rows) s)) in H;
    [|apply lastSlot_le; [lia|]; eapply Forall_impl; [exact Hle|]; simpl; lia|lia].
  cbn [andb] in H.
  apply bind_run in H as [([] & h1 & Hvr & H)|(e & Hvr & ->)];
    apply (verifyReplay_run m s) in Hvr as (HR1 & HI1 & Hx); try done;
    try (eapply Forall_impl; [exact Hle|]; simpl; lia).
  - injection H as <- <-. split; [by eapply represents_le|]. done.
  - split; [by eapply represents_le|]. done.
Qed.

(** A batch that stays on covered ground is accepted as a no-op exactly when
    every row of it is the stored row, hash for hash; a contradicting one is a
    conflict. *)
Theorem ApplyRefs_replay cfg m s rows s' (h : Eng) r h' :
  represents h m -> m_synced m = Some s -> p_OriginSlot (m_params m) <= s' <= s ->
  shape_ok (p_OriginSlot (m_params m)) s' rows ->
  ApplyRefs cfg rows s' h = (r, h') ->
  represents h' m /\
  match r with
  | Ok a => replays m rows /\ a = mkApplyResult s (model_root m) true stats0
  | Err e => store_err e \/ ((exists reason, e = EConflict reason) /\ ~ replays m rows)
  end.
Proof. apply ApplyRefs_decides_replay. Qed.

Lemma extended_replays m new s' rows resolve h :
  head_ok (extended m new s') -> Forall2 (row_of resolve h) rows new -> replays (extended m new s') rows.
Proof.
  intros (_ & _ & Hc) Hf. cbn in Hc. pose proof (co_sorted _ _ _ Hc) as Hs. unfold replays. cbn [m_rows extended].
  apply Forall_forall. intros r [i Hi]%list_elem_of_lookup_1.
  destruct (Forall2_lookup_l _ _ _ _ _ Hf Hi) as (o & Ho & [Hslot He]).
  exists o. split.
  - apply row_at_spec; [done|]. split; [|done]. apply elem_of_app. right. by eapply list_elem_of_lookup_2.
  - clear -He. induction He as [|vh e vhs es (Hv & _) _ IH]; [done|]. simpl. f_equal; [done|exact IH].
Qed.

(** Applying is idempotent: after a successful apply, the same batch again is
    a no-op that answers the same root (or the backend fails). *)
Theorem ApplyRefs_idempotent cfg m rows s' (h h1 h2 : Eng) a r :
  represents h m -> resolver_ok cfg -> s' < maxUint64 ->
  ApplyRefs cfg rows s' h = (Ok a, h1) -> ar_NoOp a = false ->
  ApplyRefs cfg rows s' h1 = (r, h2) ->
  cur h2 = cur h1 /\
  match r with
  | Ok a2 => ar_NoOp a2 = true /\ ar_Root a2 = ar_Root a /\ ar_SyncedTo a2 = s'
  | Err e => store_err e
  end.
Proof.
  intros Hrep Hcfg Hmax H1 Hno H2.
  assert (Hsh : p_OriginSlot (m_params m) <= s' /\ shape_ok (p_OriginSlot (m_params m)) s' rows).
  { unfold ApplyRefs in H1. apply bind_run_ok in H1 as (st & h0 & Hst & H1). injection Hst as <- <-.
    apply bind_run_ok in H1 as ([] & h0 & Hv & _). injection Hv as Hv _.
    rewrite (rep_cur _ _ Hrep) in Hv. apply validateShape_ok in Hv. by rewrite params_model in Hv. }
  destruct Hsh as [Hos Hsh]. apply (ApplyRefs_run cfg m) in H1; [|done..].
  destruct H1 as [(_ & _ & s & _ & _ & ->)|(resolve & new & _ & Hres & Hf & Hrep1 & Hs1 & Hroot & _)]; [done|].
  pose proof Hrep1 as [Hc1 _ Hok1].
  apply (ApplyRefs_decides_replay cfg (extended m new s') s') in H2 as [[Hc2 _ _] Hr]; try done.
  split; [congruence|]. destruct r as [a2|e].
  - destruct Hr as [_ ->]. done.
  - destruct Hr as [?|[_ Hn]]; [done|]. exfalso. apply Hn. by eapply extended_replays.
Qed.
End ApplyCorrect.
