(* ===== verification/Truncate.v ===== *)
(** Truncation: archive/truncate.go.

    Proved: truncating to a slot leaves the canonical state of the head cut at
    that slot (so the same root as a fresh build of what is left), truncating
    to empty leaves the state [New] writes, a refused truncation changes
    nothing, and the retaining variant publishes only when every blob that the
    trailing window newly retains has been read from the store. *)
From S2P Require Import Prelude Arith Cid Schema Core Engine EngineWorld Dir HeadModel Lookup Apply ApplyCorrect.

Section Truncate.
Context `{MH : Multihash} `{CB : !DagCbor} {Sto : Type} `{BS : !Blockstore Sto}.
Context {L : Type} `{LR : !Lru CidV (AnyNode * Z) L}.
Local Abbreviation Eng := (@Engine MH Sto L).

(** The loop breaks at the first row past [maxSlot]. *)
Fixpoint copyRowsUpTo (rows : list Row) (maxSlot : Z) : list Row :=
  match rows with
  | [] => []
  | r :: rest => if maxSlot <? Slot r then [] else r :: copyRowsUpTo rest maxSlot
  end.

(** [seen] is keyed by the multihash, as the Go map is. *)
Abbreviation seenSet := (list (MhDigest Digest)).

Fixpoint touchEntries (strict : bool) (seen : seenSet) (es : list RefEntry) : M Eng seenSet :=
  match es with
  | [] => ret seen
  | e :: rest =>
    match Blob e with
    | None => if strict then fail (EInvalid "blob link is not a defined raw CID")
              else touchEntries strict seen rest
    | Some c =>
      fail_if negb (cidCodec c =? cid_Raw) with EInvalid "blob link is not a defined raw CID" ;;
      if bool_decide (cidHash c ∈ seen) then touchEntries strict seen rest
      else
        Get (Some c) ;;;
        touchEntries strict (cidHash c :: seen) rest
    end
  end.

Fixpoint touchRows (strict : bool) (seen : seenSet) (rows : list Row) : M Eng seenSet :=
  match rows with
  | [] => ret seen
  | r :: rest => seen <-- touchEntries strict seen (Entries r) ;; touchRows strict seen rest
  end.

Definition touchTruncatedBlobs (rows : list Row) : M Eng unit :=
  touchRows false [] rows ;;; ret tt.

Definition firstRetainedWindow (st : state) (windowSlots : Z) : Z :=
  let low := if windowSlots <? syncedTo st then syncedTo st - windowSlots else 0 in
  let low := if low <? p_OriginSlot (params st) then p_OriginSlot (params st) else low in
  ord low (p_SegBits (params st)).

(** for w := newFirst; ; w++ { ...; if w == last { break } } *)
Fixpoint touchLoop (fuel : nat) (next : state) (w last : Z) (seen : seenSet) : M Eng unit :=
  match fuel with
  | O => fail EDiverges
  | S fuel' =>
    segCID <-- segmentFor next w ;;
    seen <-- match segCID with
             | Some c => segment <-- GetNode segs c ;; touchRows true seen (Rows segment)
             | None => ret seen
             end ;;
    if w =? last then ret tt else touchLoop fuel' next (add64 w 1) last seen
  end.

Definition touchNewlyRetainedWindow (old next : state) (windowSlots : Z) : M Eng unit :=
  let oldFirst := firstRetainedWindow old windowSlots in
  let newFirst := firstRetainedWindow next windowSlots in
  if (oldFirst <=? newFirst) || (oldFirst =? 0) then ret tt
  else
    let last := Z.min (oldFirst - 1) (ord (syncedTo next) (p_SegBits (params next))) in
    if last <? newFirst then ret tt
    else touchLoop (S (Z.to_nat (last - newFirst))) next newFirst last [].

(** The directory keeps entries [0, idx(slot)). *)
Definition truncateDir (st next : state) (t openW : Z) : M Eng state :=
  let n := sub64 t (dirBase st) in
  if t =? openW then ret next
  else if n =? 0 then ret (set_dir Undef 0 next)
  else
    match pathDigits n (dirDepth st) (p_FanoutBits (params st)) with
    | None => fail (EInternal "sealed count does not fit the directory")
    | Some digits =>
      d <-- dirTruncate (dir st) digits ;;
      let* (d, depth) := dirShrink d (dirDepth st) in
      ret (set_dir d depth next)
    end.

Definition truncate (slot windowSlots : Z) (retainWindow : bool) : M Eng Cid :=
  st <-- gets cur ;;
  let k := p_SegBits (params st) in
  fail_if negb (covered st) with conflictf "cannot truncate: the head is empty" ;;
  fail_if syncedTo st <? slot with conflictf "cannot truncate: past synced_to" ;;
  fail_if slot <? p_OriginSlot (params st) with conflictf "cannot truncate: precedes origin_slot" ;;
  let t := ord slot k in
  openW <-- openOrd st ;;
  segCID <-- segmentFor st t ;;
  rows <-- match segCID with
           | Some c =>
             seg <-- GetNode segs c ;;
             let rows := copyRowsUpTo (Rows seg) slot in
             (if retainWindow then touchTruncatedBlobs rows else ret tt) ;;;
             ret rows
           | None => ret []
           end ;;
  next <-- truncateDir st (set_root Undef st) t openW ;;
  let openPtr := NewNode (mkSegment (windowStart t k) rows) in
  let* (next, openPtr) := if windowEnd t k <=? slot then seal next openPtr t else ret (next, openPtr) in
  o <-- commitSegment openPtr SegmentOpen ;;
  let next := set_coverage slot true (set_open o next) in
  (if retainWindow then touchNewlyRetainedWindow st next windowSlots else ret tt) ;;;
  next <-- publish next ;;
  ret (root next).

Definition Truncate (slot : Z) : M Eng Cid := truncate slot 0 false.
Definition TruncateRetainingWindow (slot windowSlots : Z) : M Eng Cid := truncate slot windowSlots true.

Definition TruncateToEmpty : M Eng Cid :=
  st <-- gets cur ;;
  next <-- publish (emptyState (params st)) ;;
  ret (root next).

(** ** The truncated head *)

Context `{BO : !BlockstoreOk Sto}.

Definition cut (slot : Z) (rows : list Row) : list Row := filter (fun r => Slot r <= slot) rows.
Definition truncated (m : hmodel) (slot : Z) : hmodel :=
  mkModel (m_params m) (Some slot) (cut slot (m_rows m)).

Lemma copyRowsUpTo_cut rows slot : StronglySorted row_lt rows -> copyRowsUpTo rows slot = cut slot rows.
Proof.
  intros Hs. induction Hs as [|r rows Hs IH Hf]; [done|]. cbn [copyRowsUpTo]. unfold cut.
  destruct (Z.ltb_spec slot (Slot r)).
  - rewrite filter_cons_False by lia. symmetry. apply filter_none.
    eapply Forall_impl; [exact Hf|]. unfold row_lt. simpl. lia.
  - rewrite filter_cons_True by lia. by rewrite IH.
Qed.

Lemma rowsIn_cut k w slot rows : rowsIn k w (cut slot rows) = cut slot (rowsIn k w rows).
Proof. unfold rowsIn, cut. rewrite !list_filter_filter. apply list_filter_iff. tauto. Qed.

(** Windows before the cut lose nothing. *)
Lemma rowsIn_cut_below k w slot rows :
  seg_ok k -> w < ord slot k -> rowsIn k w (cut slot rows) = rowsIn k w rows.
Proof.
  intros Hk Hw. rewrite rowsIn_cut. apply filter_all. apply Forall_forall. intros r [Hr _]%rowsIn_elem.
  destruct (Z_le_dec (Slot r) slot); [done|]. pose proof (ord_mono slot (Slot r) k Hk). lia.
Qed.

Lemma cut_sorted slot rows : StronglySorted row_lt rows -> StronglySorted row_lt (cut slot rows).
Proof. apply sorted_filter. Qed.

Lemma cut_range slot rows (P : Row -> Prop) :
  Forall P rows -> Forall (fun r => P r /\ Slot r <= slot) (cut slot rows).
Proof.
  rewrite !Forall_forall. intros H r [? ?]%list_elem_of_filter. auto.
Qed.

Section Cut.
Context (m : hmodel) (s slot : Z).
Local Abbreviation p := (m_params m).
Local Abbreviation k := (p_SegBits (m_params m)).
Context (Hok : head_ok m) (Hs : m_synced m = Some s) (Hlo : p_OriginSlot p <= slot) (Hhi : slot <= s).

Lemma cut_cov : covered_ok p s (m_rows m).
Proof. destruct Hok as (_ & _ & Hc). by rewrite Hs in Hc. Qed.

Lemma cut_params : params_ok p.
Proof. apply Hok. Qed.

Lemma cut_bounds : 0 <= slot < maxUint64 /\ is_u64 (ord slot k + 1) /\
  0 <= baseWin p <= ord slot k /\ ord slot k <= openWin p s.
Proof.
  destruct cut_cov as [[? ?] _ _ _ _]. destruct (po_origin _ cut_params).
  pose proof (po_seg _ cut_params) as Hk. pose proof (ord_le_slot slot k Hk ltac:(lia)).
  pose proof (ord_le_slot (p_OriginSlot p) k Hk ltac:(lia)).
  pose proof (ord_mono _ _ k Hk Hlo). pose proof (ord_mono slot (s + 1) k Hk ltac:(lia)).
  unfold baseWin, openWin, is_u64, maxUint64, maxInt64 in *. repeat split; lia.
Qed.

(** The directory of the cut head before its last window is sealed. *)
Lemma truncateDir_run (h : Eng) r h' :
  truncateDir (canon_state m) (set_root Undef (canon_state m)) (ord slot k) (openWin p s) h = (r, h') ->
  engine_inv h ->
  engine_le h h' /\ engine_inv h' /\
  match r with
  | Ok next => dir_at p (cut slot (m_rows m)) (Z.to_nat (ord slot k - baseWin p)) next
  | Err e => external e
  end.
Proof.
  intros H HI. pose proof cut_cov as Hc. pose proof cut_params as Hp. pose proof cut_bounds as (Hsl & Hu & [Hb0 Hb] & Ho).
  pose proof (po_seg _ Hp) as Hk. assert (Hfb : 0 <= p_FanoutBits p) by (destruct (po_fan _ Hp); lia).
  assert (Hes : entries k (cut slot (m_rows m)) (baseWin p) (Z.to_nat (ord slot k - baseWin p))
              = take (Z.to_nat (ord slot k - baseWin p)) (canon_entries p s (m_rows m))).
  { unfold canon_entries. rewrite entries_take by (unfold sealedN; lia). apply entries_ext.
    intros w Hw. apply rowsIn_cut_below; [done|lia]. }
  assert (Hlen : length (canon_entries p s (m_rows m)) = sealedN p s) by apply canon_entries_length.
  unfold truncateDir in H. rewrite dirBase_model, sub64_small in H by (unfold is_u64 in *; lia).
  unfold dir_at. rewrite Hes. set (n := Z.to_nat (ord slot k - baseWin p)) in *.
  destruct (Z.eqb_spec (ord slot k) (openWin p s)) as [E|E].
  { injection H as <- <-. split; [done|]. split; [done|].
    assert (n = sealedN p s) as -> by (unfold n, sealedN; lia).
    rewrite take_ge by lia. unfold canon_state, pre_state. by rewrite Hs. }
  replace (ord slot k - baseWin p) with (Z.of_nat n) in H by lia.
  destruct (Z.eqb_spec (Z.of_nat n) 0) as [E0|E0].
  { injection H as <- <-. split; [done|]. split; [done|]. assert (n = 0%nat) as -> by lia.
    rewrite take_0. split; [apply params_model|]. done. }
  assert (Hn : (0 < n < sealedN p s)%nat) by (unfold n, sealedN in *; lia).
  rewrite (canon_pre m s Hs) in H. cbn [dirDepth dir params] in H.
  destruct (canon_depth_spec (p_FanoutBits p) (sealedN p s)) as (d & Hd & H64 & Hle & Hmin);
    [apply Hp|apply sealedN_u64; [done|apply Hc]|lia|].
  rewrite Hd, pathDigits_some in H; [|apply Hp|lia|unfold digits_ok; rewrite <- capN_Z by done; lia].
  unfold canon_root in H at 1. rewrite Hlen, Hd, Nat2Z.id in H.
  apply bind_run in H as [(c & h1 & Ht & H)|(e & Ht & ->)];
    apply dirTruncate_run in Ht as (HR1 & HI1 & Hr); try done; try lia; try apply Hp.
  assert (Hlt : length (take n (canon_entries p s (m_rows m))) = n) by (rewrite length_take; lia).
  subst c. unfold dirShrink in H.
  apply bind_run in H as [([c dd] & h2 & Hsh & H)|(e & Hsh & ->)];
    apply shrinkLoop_run in Hsh as (HR2 & HI2 & Hr); try done; try lia; try apply Hp;
    try (rewrite Hlt; unfold is_u64 in *; lia); try (intros Ez; rewrite Ez in Hlt; simpl in Hlt; lia).
  2: { split; [by etrans|]. split; [done|]. by apply store_err_external. }
  injection H as <- <-. destruct Hr as [-> ->]. split; [by etrans|]. split; [done|].
  rewrite Hlt. done.
Qed.

(** The rebuilt open window, sealed when the cut completes it. *)
Lemma reseal_run next (h : Eng) r h' :
  dir_at p (cut slot (m_rows m)) (Z.to_nat (ord slot k - baseWin p)) next ->
  (if windowEnd (ord slot k) k <=? slot
   then seal next (NewNode (segOf k (cut slot (m_rows m)) (ord slot k))) (ord slot k)
   else ret (next, NewNode (segOf k (cut slot (m_rows m)) (ord slot k)))) h = (r, h') ->
  engine_inv h ->
  engine_le h h' /\ engine_inv h' /\
  match r with
  | Ok (next', o') =>
    dir_at p (cut slot (m_rows m)) (sealedN p slot) next' /\
    points o' (segOf k (cut slot (m_rows m)) (openWin p slot)) /\
    (ord slot k < openWin p slot -> rowsIn k (ord slot k) (cut slot (m_rows m)) <> [] ->
      seg_enc (segOf k (cut slot (m_rows m)) (ord slot k)))
  | Err e => external e
  end.
Proof.
  intros Hdir H HI. pose proof cut_params as Hp. pose proof cut_bounds as (Hsl & Hu & [Hb0 Hb] & Ho).
  pose proof (po_seg _ Hp) as Hk. pose proof cut_cov as Hc.
  assert (Hrange : Forall (fun r => p_OriginSlot p <= Slot r <= slot) (cut slot (m_rows m) ++ [])).
  { rewrite app_nil_r. eapply Forall_impl; [apply cut_range, (co_range _ _ _ Hc)|]. simpl. lia. }
  assert (Hu64 : forall w, segment_u64 (segOf k (cut slot (m_rows m)) w)).
  { intros w. pose proof (segOf_u64 p (cut slot (m_rows m)) [] slot Hp Hrange w) as Hx.
    by rewrite app_nil_r in Hx. }
  destruct (window_bounds p slot Hp Hsl (ord slot k)) as [Hlow Hhigh]; [lia..|].
  rewrite windowEnd_exact in H by (done || lia).
  destruct (Z.leb_spec ((ord slot k + 1) * 2 ^ k - 1) slot) as [Hfull|Hpart].
  - assert (Hop : openWin p slot = ord slot k + 1) by (apply (open_next p slot Hp Hsl); lia).
    assert (Hsn : sealedN p slot = S (Z.to_nat (ord slot k - baseWin p))) by (unfold sealedN; lia).
    apply (seal_run p (cut slot (m_rows m)) (Z.to_nat (ord slot k - baseWin p))) in H as (HR & HI' & Hr);
      try done; [|lia|left; split; [done|apply Hu64]].
    split; [done|]. split; [done|]. destruct r as [[next' o']|]; [|done].
    destruct Hr as (? & _ & ? & ->). rewrite Hsn, Hop. split; [done|]. split; [|done].
    rewrite add64_small by done. left. split; [|apply Hu64]. unfold segOf. rewrite rowsIn_none; [done|].
    rewrite app_nil_r in Hrange. eapply Forall_impl; [exact Hrange|]. simpl. intros x Hx.
    pose proof (ord_mono (Slot x) slot k Hk). lia.
  - injection H as <- <-. destruct (open_here p slot Hp Hsl (ord slot k)) as [_ Hop]; [lia..|].
    unfold sealedN. rewrite Hop. do 3 (split; [done|]). split; [left; split; [done|apply Hu64]|]. lia.
Qed.

Lemma content_truncated :
  seg_enc (segOf k (cut slot (m_rows m)) (openWin p slot)) ->
  (ord slot k < openWin p slot -> rowsIn k (ord slot k) (cut slot (m_rows m)) <> [] ->
      seg_enc (segOf k (cut slot (m_rows m)) (ord slot k))) ->
  content_ok (truncated m slot).
Proof.
  intros Ho Ht. pose proof cut_cov as Hc. pose proof cut_bounds as (Hsl & Hu & [Hb0 Hb] & Hop).
  split; [apply cut_params|]. cbn. pose proof (po_seg _ cut_params) as Hk. split.
  - destruct (co_synced _ _ _ Hc). lia.
  - apply cut_sorted, Hc.
  - eapply Forall_impl; [apply cut_range, (co_range _ _ _ Hc)|]. simpl. lia.
  - intros w Hw Hne. destruct (decide (w = ord slot k)) as [->|]; [apply Ht; [lia|done]|].
    assert (Hlt : w < ord slot k).
    { pose proof (ord_window slot k Hk ltac:(lia)) as Hwin. destruct Hk.
      assert (0 < 2 ^ k) by (apply pow2_pos'; lia).
      pose proof (ord_window (slot + 1) k (po_seg _ cut_params) ltac:(lia)). unfold openWin in Hw. nia. }
    unfold segOf in *. rewrite rowsIn_cut_below in * by done. apply (co_sealed _ _ _ Hc); [|done].
    lia.
  - done.
Qed.
End Cut.

(** ** Touching blobs *)

(** Some block with this multihash was read from the store. *)
Definition held (h : Eng) (mh : MhDigest Digest) : Prop :=
  exists c d, cidHash c = mh /\ bs_has (blocks h) c d.

Definition touched (strict : bool) (h : Eng) (e : RefEntry) : Prop :=
  match Blob e with None => strict = false | Some c => cidCodec c = cid_Raw /\ held h (cidHash c) end.

Lemma held_keeps h h' mh : keeps h h' -> held h mh -> held h' mh.
Proof. intros Hk (c & d & ? & ?). exists c, d. auto. Qed.
Lemma touched_keeps b h h' e : keeps h h' -> touched b h e -> touched b h' e.
Proof.
  intros Hk. unfold touched. destruct (Blob e); [|done]. intros [? ?]. split; [done|]. by eapply held_keeps.
Qed.

Lemma touchEntries_run strict seen es (h : Eng) r h' :
  touchEntries strict seen es h = (r, h') -> engine_inv h -> Forall (held h) seen ->
  engine_le h h' /\ engine_inv h' /\
  match r with
  | Ok seen' => Forall (held h') seen' /\ Forall (touched strict h') es
  | Err e => external e
  end.
Proof.
  revert seen h r h'. induction es as [|e es IH]; intros seen h r h' H HI Hseen.
  { injection H as <- <-. done. }
  cbn [touchEntries] in H. destruct (Blob e) as [c|] eqn:Eb.
  2: { destruct strict. { by injection H as <- <-. }
       apply IH in H as (? & ? & Hr); [|done..]. split; [done|]. split; [done|]. destruct r; [|done].
       destruct Hr as [? ?]. split; [done|]. constructor; [|done]. unfold touched. by rewrite Eb. }
  destruct (Z.eqb_spec (cidCodec c) cid_Raw) as [Ec|]; cbn [negb] in H; [|by injection H as <- <-].
  case_bool_decide as Ein.
  - apply IH in H as (HR & ? & Hr); [|done..]. split; [done|]. split; [done|]. destruct r; [|done].
    destruct Hr as [? ?]. split; [done|]. constructor; [|done]. unfold touched. rewrite Eb. split; [done|].
    eapply held_keeps; [by apply engine_le_keeps|]. rewrite Forall_forall in Hseen. by apply Hseen.
  - apply bind_run in H as [(d & h1 & Hg & H)|(x & Hg & ->)].
    + pose proof Hg as Hh. apply Get_held in Hh as (cv & [= <-] & Hh). apply Get_run in Hg as (HR1 & HI1 & _); [|done].
      assert (Hc1 : held h1 (cidHash c)) by (by exists c, d).
      apply IH in H as (HR & ? & Hr); [|done|].
      2: { constructor; [done|]. eapply Forall_impl; [exact Hseen|]. intros. eapply held_keeps; [by apply engine_le_keeps|done]. }
      split; [by etrans|]. split; [done|]. destruct r; [|done]. destruct Hr as [? ?]. split; [done|].
      constructor; [|done]. unfold touched. rewrite Eb. split; [done|].
      eapply held_keeps; [by apply engine_le_keeps|done].
    + apply Get_run in Hg as (? & ? & ?); [|done]. split; [done|]. split; [done|]. by apply store_err_external.
Qed.

Definition row_touched (strict : bool) (h : Eng) (r : Row) : Prop := Forall (touched strict h) (Entries r).

Lemma row_touched_keeps b h h' r : keeps h h' -> row_touched b h r -> row_touched b h' r.
Proof. intros Hk Hf. eapply Forall_impl; [exact Hf|]. intros. by eapply touched_keeps. Qed.

Lemma touchRows_run strict seen rows (h : Eng) r h' :
  touchRows strict seen rows h = (r, h') -> engine_inv h -> Forall (held h) seen ->
  engine_le h h' /\ engine_inv h' /\
  match r with
  | Ok seen' => Forall (held h') seen' /\ Forall (row_touched strict h') rows
  | Err e => external e
  end.
Proof.
  revert seen h r h'. induction rows as [|x rows IH]; intros seen h r h' H HI Hseen.
  { injection H as <- <-. done. }
  cbn [touchRows] in H.
  apply bind_run in H as [(seen' & h1 & Ht & H)|(e & Ht & ->)];
    apply touchEntries_run in Ht as (HR1 & HI1 & Hr); try done.
  destruct Hr as [Hs Hx]. apply IH in H as (HR2 & HI2 & Hr); [|done..].
  split; [by etrans|]. split; [done|]. destruct r; [|done]. destruct Hr as [? ?]. split; [done|].
  constructor; [|done]. eapply row_touched_keeps; [by apply engine_le_keeps|done].
Qed.

Lemma touchLoop_run m s next w last seen fuel (h : Eng) r h' :
  content_ok m -> m_synced m = Some s -> state_of m next ->
  baseWin (m_params m) <= w <= last -> last <= openWin (m_params m) s -> last < maxUint64 ->
  Z.of_nat fuel = last - w + 1 -> Forall (held h) seen ->
  touchLoop fuel next w last seen h = (r, h') -> engine_inv h ->
  engine_le h h' /\ engine_inv h' /\
  match r with
  | Ok _ => Forall (fun x => w <= ord (Slot x) (p_SegBits (m_params m)) <= last -> row_touched true h' x) (m_rows m)
  | Err e => external e
  end.
Proof.
  intros Hok Hs Hst Hw Hl Hmax. assert (H0 : 0 <= baseWin (m_params m)).
  { apply ord_le_slot; [apply Hok|]. apply (po_origin _ (proj1 Hok)). }
  revert w seen h r h' Hw. induction fuel as [|fuel IH]; intros w seen h r h' Hw Hf Hseen H HI; [lia|].
  cbn [touchLoop] in H.
  apply bind_run in H as [(o & h1 & Ho & H)|(e & Ho & ->)];
    apply (segmentFor_run m s) in Ho as (HR1 & HI1 & Hr); try done; try lia.
  2: { split; [done|]. split; [done|]. by apply store_err_external. }
  apply bind_run in H as [(seen' & h2 & Ht & H)|(e & Ht & ->)].
  2: { destruct o as [c|]; [|done]. destruct Hr as [-> He].
       apply bind_run in Ht as [(sg & h3 & Hg & Ht)|(e' & Hg & [= ->])];
         apply seg_read in Hg as (HR3 & HI3 & Hg); try done.
       - apply touchRows_run in Ht as (? & ? & ?); [|done|].
         + split; [by do 2 (etrans; [done|])|]. done.
         + eapply Forall_impl; [exact Hseen|]. intros. eapply held_keeps; [|done].
           apply engine_le_keeps. by etrans.
       - split; [by etrans|]. split; [done|]. by apply store_err_external. }
  assert (engine_le h1 h2 /\ engine_inv h2 /\ Forall (held h2) seen' /\
    Forall (row_touched true h2) (rowsIn (p_SegBits (m_params m)) w (m_rows m))) as (HR2 & HI2 & Hs2 & Hrows).
  { destruct o as [c|].
    - destruct Hr as [-> He]. apply bind_run_ok in Ht as (sg & h3 & Hg & Ht).
      apply seg_read in Hg as (HR3 & HI3 & ->); [|done..].
      apply touchRows_run in Ht as (? & ? & ?); [|done|].
      + split; [by etrans|]. done.
      + eapply Forall_impl; [exact Hseen|]. intros. eapply held_keeps; [|done]. apply engine_le_keeps. by etrans.
    - injection Ht as <- <-. rewrite Hr. split; [done|]. split; [done|]. split; [|constructor].
      eapply Forall_impl; [exact Hseen|]. intros. eapply held_keeps; [|done]. by apply engine_le_keeps. }
  assert (Hhere : forall h3, keeps h2 h3 ->
    Forall (fun x => ord (Slot x) (p_SegBits (m_params m)) = w -> row_touched true h3 x) (m_rows m)).
  { intros h3 Hk. rewrite Forall_forall in *. intros x Hx Hxw. eapply row_touched_keeps; [done|].
    apply Hrows. apply rowsIn_elem. done. }
  destruct (Z.eqb_spec w last) as [->|Hne].
  { injection H as <- <-. split; [by etrans|]. split; [done|].
    eapply Forall_impl; [apply (Hhere h2); done|]. simpl. intros x Hx ?. apply Hx. lia. }
  rewrite add64_small in H by (unfold is_u64, maxUint64 in *; lia).
  apply IH in H as (HR3 & HI3 & Hr3); try done; try lia.
  split; [by do 2 (etrans; [done|])|]. split; [done|]. destruct r; [|done].
  apply engine_le_keeps in HR3. specialize (Hhere h' HR3).
  rewrite Forall_forall in *. intros x Hx Hxw.
  destruct (decide (ord (Slot x) (p_SegBits (m_params m)) = w)); [by apply Hhere|]. apply Hr3; [done|lia].
Qed.

(** The first window a trailing-window policy retains on the head [m]. *)
Definition retainedFrom (m : hmodel) (windowSlots : Z) : Z :=
  firstRetainedWindow (pre_state m) windowSlots.

Lemma firstRetained_base m st s ws :
  content_ok m -> m_synced m = Some s -> state_of m st -> 0 <= ws ->
  firstRetainedWindow st ws = retainedFrom m ws /\ baseWin (m_params m) <= retainedFrom m ws.
Proof.
  intros [Hp Hc] Hs Hst Hws. unfold retainedFrom. rewrite <- Hst. split; [done|].
  rewrite (state_of_covered m s st Hs Hst). unfold firstRetainedWindow, baseWin. cbn.
  apply ord_mono; [apply Hp|]. destruct (_ <? p_OriginSlot _) eqn:E; [lia|]. apply Z.ltb_ge in E. lia.
Qed.

Lemma touchNewly_run m m' s s' st next ws (h : Eng) r h' :
  content_ok m -> m_synced m = Some s -> state_of m st ->
  content_ok m' -> m_synced m' = Some s' -> state_of m' next -> m_params m' = m_params m -> 0 <= ws ->
  touchNewlyRetainedWindow st next ws h = (r, h') -> engine_inv h ->
  engine_le h h' /\ engine_inv h' /\
  match r with
  | Ok _ => Forall (fun x => retainedFrom m' ws <= ord (Slot x) (p_SegBits (m_params m)) < retainedFrom m ws ->
                             row_touched true h' x) (m_rows m')
  | Err e => external e
  end.
Proof.
  intros Hok Hs Hst Hok' Hs' Hst' Hpar Hws H HI. unfold touchNewlyRetainedWindow in H.
  destruct (firstRetained_base m st s ws) as [E1 Hb1]; [done..|].
  destruct (firstRetained_base m' next s' ws) as [E2 Hb2]; [done..|]. rewrite E1, E2 in H.
  rewrite Hpar in Hb2. pose proof Hok' as [Hp' Hc']. rewrite Hs' in Hc'. rewrite Hpar in Hp', Hc'.
  assert (Hk : seg_ok (p_SegBits (m_params m))) by apply Hp'.
  assert (Hbn : 0 <= baseWin (m_params m)) by (apply ord_le_slot; [done|apply (po_origin _ Hp')]).
  assert (Hsy : syncedTo next = s' /\ params next = m_params m).
  { rewrite (state_of_covered m' s' next Hs' Hst'). by rewrite <- Hpar. }
  destruct Hsy as [Hsy1 Hsy2]. rewrite Hsy1, Hsy2 in H.
  assert (Hord : forall x, x ∈ m_rows m' -> ord (Slot x) (p_SegBits (m_params m)) <= ord s' (p_SegBits (m_params m))).
  { intros x Hx. apply ord_mono; [done|]. pose proof (co_range _ _ _ Hc') as Hr. rewrite Forall_forall in Hr.
    by apply Hr. }
  destruct ((_ <=? _) || _) eqn:Eg.
  { injection H as <- <-. split; [done|]. split; [done|]. apply Forall_forall. intros x Hx Hxw.
    apply orb_true_iff in Eg as [?%Z.leb_le|?%Z.eqb_eq]; lia. }
  apply orb_false_iff in Eg as [?%Z.leb_gt ?%Z.eqb_neq].
  destruct (Z.ltb_spec (Z.min (retainedFrom m ws - 1) (ord s' (p_SegBits (m_params m)))) (retainedFrom m' ws)) as [Hlt|Hge].
  { injection H as <- <-. split; [done|]. split; [done|]. apply Forall_forall. intros x Hx Hxw.
    specialize (Hord x Hx). lia. }
  destruct (co_synced _ _ _ Hc') as [? ?]. destruct (po_origin _ Hp').
  pose proof (ord_le_slot s' _ Hk ltac:(lia)). pose proof (ord_mono s' (s' + 1) _ Hk ltac:(lia)).
  apply (touchLoop_run m' s') in H as (HR & HI' & Hr); try done; rewrite ?Hpar; try lia.
  - split; [done|]. split; [done|]. destruct r; [|done]. rewrite Hpar in Hr. rewrite Forall_forall in *.
    intros x Hx Hxw. apply Hr; [done|]. specialize (Hord x Hx). lia.
  - unfold openWin. lia.
  - unfold maxUint64, maxInt64 in *. lia.
Qed.

(** ** Truncate *)

(** The surviving half of the cut window. *)
Lemma survivors_run m s slot (retain : bool) (o : option Cid) (h : Eng) (r : res (list Row)) h' :
  head_ok m -> m_synced m = Some s -> p_OriginSlot (m_params m) <= slot <= s ->
  match o with
  | Some c => c = seg_cid (segOf (p_SegBits (m_params m)) (m_rows m) (ord slot (p_SegBits (m_params m)))) /\
              seg_enc (segOf (p_SegBits (m_params m)) (m_rows m) (ord slot (p_SegBits (m_params m))))
  | None => rowsIn (p_SegBits (m_params m)) (ord slot (p_SegBits (m_params m))) (m_rows m) = []
  end ->
  match o with
  | Some c =>
    seg <-- GetNode segs c ;;
    let rows := copyRowsUpTo (Rows seg) slot in
    (if retain then touchTruncatedBlobs rows else ret tt) ;;;
    ret rows
  | None => ret []
  end h = (r, h') -> engine_inv h ->
  engine_le h h' /\ engine_inv h' /\
  match r with
  | Ok rows =>
    rows = rowsIn (p_SegBits (m_params m)) (ord slot (p_SegBits (m_params m))) (cut slot (m_rows m)) /\
    (retain = true -> Forall (row_touched false h') rows)
  | Err e => external e
  end.
Proof.
  intros Hok Hs Hsl Ho H HI. set (k := p_SegBits (m_params m)) in *. rewrite rowsIn_cut.
  pose proof (cut_cov m s Hok Hs) as Hc. destruct o as [c|].
  2: { injection H as <- <-. rewrite Ho. split; [done|]. split; [done|]. split; [done|]. constructor. }
  destruct Ho as [-> He].
  apply bind_run in H as [(seg & h1 & Hg & H)|(e & Hg & ->)];
    apply seg_read in Hg as (HR1 & HI1 & Hr); try done.
  2: { split; [done|]. split; [done|]. by apply store_err_external. }
  subst seg. cbn [Rows segOf] in H. rewrite copyRowsUpTo_cut in H by (apply rowsIn_sorted, Hc).
  destruct retain.
  2: { injection H as <- <-. done. }
  unfold touchTruncatedBlobs in H.
  apply bind_run in H as [([] & h2 & Ht & H)|(e & Ht & ->)].
  - apply bind_run_ok in Ht as (seen & h3 & Ht & Hx). injection Hx as <-.
    apply touchRows_run in Ht as (HR2 & HI2 & [_ Hr]); [|done|constructor].
    injection H as <- <-. split; [by etrans|]. split; [done|]. done.
  - apply bind_run in Ht as [(seen & h3 & Ht & Hx)|(e' & Ht & [= ->])]; [done|].
    apply touchRows_run in Ht as (HR2 & HI2 & Hr); [|done|constructor]. split; [by etrans|]. done.
Qed.

Definition truncate_spec (m : hmodel) (slot ws : Z) (retain : bool) (h' : Eng) (r : res Cid) : Prop :=
  match r with
  | Ok c =>
    represents h' (truncated m slot) /\ c = model_root (truncated m slot) /\
    (exists s, m_synced m = Some s /\ p_OriginSlot (m_params m) <= slot <= s) /\
    (retain = true ->
     Forall (fun x => let w := ord (Slot x) (p_SegBits (m_params m)) in
       (w = ord slot (p_SegBits (m_params m)) -> row_touched false h' x) /\
       (retainedFrom (truncated m slot) ws <= w < retainedFrom m ws -> row_touched true h' x))
       (m_rows (truncated m slot)))
  | Err e => represents h' m /\ external e
  end.

(** The last steps: commit the open segment, touch, publish. *)
Lemma truncate_finish m s slot ws (retain : bool) next (o : Pointer Segment) rows (h : Eng) (r : res Cid) h' :
  head_ok m -> m_synced m = Some s -> p_OriginSlot (m_params m) <= slot <= s -> 0 <= ws ->
  cur h = canon_state m ->
  dir_at (m_params m) (cut slot (m_rows m)) (sealedN (m_params m) slot) next ->
  points o (segOf (p_SegBits (m_params m)) (cut slot (m_rows m)) (openWin (m_params m) slot)) ->
  (ord slot (p_SegBits (m_params m)) < openWin (m_params m) slot ->
    rowsIn (p_SegBits (m_params m)) (ord slot (p_SegBits (m_params m))) (cut slot (m_rows m)) <> [] ->
    seg_enc (segOf (p_SegBits (m_params m)) (cut slot (m_rows m)) (ord slot (p_SegBits (m_params m))))) ->
  rows = rowsIn (p_SegBits (m_params m)) (ord slot (p_SegBits (m_params m))) (cut slot (m_rows m)) ->
  (retain = true -> Forall (row_touched false h) rows) ->
  (o <-- commitSegment o SegmentOpen ;;
   (if retain then touchNewlyRetainedWindow (canon_state m) (set_coverage slot true (set_open o next)) ws
    else ret tt) ;;;
   next <-- publish (set_coverage slot true (set_open o next)) ;;
   ret (root next)) h = (r, h') -> engine_inv h ->
  truncate_spec m slot ws retain h' r.
Proof.
  intros Hok Hs Hsl Hws Hcur Hdir Ho Ht Hrows Hheld H HI.
  apply bind_run in H as [(c & h1 & Hc & H)|(e & Hc & ->)];
    apply (commitSegment_run _ _ _ _ _ _ Ho) in Hc as (HR1 & HI1 & Hr); try done.
  2: { split; [|done]. split; [by rewrite (le_cur _ _ HR1)|done..]. }
  destruct Hr as [-> Henc].
  assert (Hcont : content_ok (truncated m slot)) by (eapply content_truncated; eauto; lia).
  assert (Hst : state_of (truncated m slot) (set_coverage slot true
     (set_open (seg_cid (segOf (p_SegBits (m_params m)) (cut slot (m_rows m)) (openWin (m_params m) slot))) next))).
  { destruct Hdir as (Hpar & Hd & Hdep). unfold state_of, set_coverage, set_open, set_root, pre_state. cbn.
    by rewrite Hpar, Hd, Hdep. }
  apply bind_run in H as [([] & h2 & Htn & H)|(e & Htn & ->)].
  2: { destruct retain; [|done].
       eapply (touchNewly_run m (truncated m slot) s slot) in Htn as (HR2 & HI2 & Hr); try done;
         try apply canon_state_of; try (by apply head_content).
       split; [|done]. split; [by rewrite (le_cur _ _ HR2), (le_cur _ _ HR1)|done..]. }
  assert (engine_le h1 h2 /\ engine_inv h2 /\ (retain = true ->
     Forall (fun x => retainedFrom (truncated m slot) ws <= ord (Slot x) (p_SegBits (m_params m)) < retainedFrom m ws ->
        row_touched true h2 x) (m_rows (truncated m slot)))) as (HR2 & HI2 & Hnew).
  { destruct retain; [|by injection Htn as <-].
    eapply (touchNewly_run m (truncated m slot) s slot) in Htn as (HR2 & HI2 & Hr); try done;
      try apply canon_state_of; try (by apply head_content). }
  apply bind_run in H as [(st & h3 & Hp & H)|(e & Hp & ->)];
    apply (publish_model (truncated m slot)) in Hp as (HI3 & HK3 & Hr); try done.
  2: { destruct Hr as [Hc3 ?]. split; [|done]. split; [by rewrite Hc3, (le_cur _ _ HR2), (le_cur _ _ HR1)|done..]. }
  destruct Hr as (-> & Hc3 & Hhead). injection H as <- <-.
  split. { split; [done..|]. destruct Hcont. by split. }
  split; [done|]. split; [eauto|]. intros ->. specialize (Hnew eq_refl). specialize (Hheld eq_refl).
  assert (HK : keeps h h3) by (etrans; [apply engine_le_keeps; by etrans|done]).
  rewrite Forall_forall in *. intros x Hx. split.
  - intros Hw. eapply row_touched_keeps; [exact HK|]. apply Hheld. subst rows. by apply rowsIn_elem.
  - intros Hw. eapply row_touched_keeps; [exact HK3|]. by apply Hnew.
Qed.

Lemma truncate_run m slot ws retain (h : Eng) r h' :
  represents h m -> 0 <= ws -> truncate slot ws retain h = (r, h') -> truncate_spec m slot ws retain h' r.
Proof.
  intros Hrep Hws H. pose proof Hrep as [Hcur HI Hok]. unfold truncate in H.
  apply bind_run in H as [(st & h0 & Hst & H)|(e & Hst & ->)]; [|done].
  injection Hst as <- <-. rewrite Hcur, params_model in H.
  destruct (m_synced m) as [s|] eqn:Hs.
  2: { rewrite (uncovered_model m Hs) in H. cbn in H. injection H as <- <-. by split. }
  rewrite (covered_model m s Hs), (syncedTo_model m s Hs) in H. cbn [negb] in H.
  destruct (Z.ltb_spec s slot); [injection H as <- <-; by split|].
  destruct (Z.ltb_spec slot (p_OriginSlot (m_params m))); [injection H as <- <-; by split|].
  pose proof (cut_bounds m s slot Hok Hs ltac:(done) ltac:(done)) as (Hsl & Hu & [Hb0 Hb] & Hop).
  cbv zeta in H.
  apply bind_run in H as [(ow & h1 & Ho & H)|(e & Ho & ->)];
    apply (openOrd_run m s) in Ho as (HR1 & HI1 & Hr); try done; try apply canon_state_of; try (by apply head_content).
  2: { split; [by eapply represents_le|by apply store_err_external]. }
  subst ow.
  apply bind_run in H as [(sc & h2 & Hsg & H)|(e & Hsg & ->)];
    apply (segmentFor_run m s) in Hsg as (HR2 & HI2 & Hr); try done; try apply canon_state_of; try (by apply head_content).
  2: { split; [eapply represents_le; [done|by etrans|done]|by apply store_err_external]. }
  apply bind_run in H as [(rows & h3 & Hrow & H)|(e & Hrow & ->)];
    apply (survivors_run m s) in Hrow as (HR3 & HI3 & Hx); try done.
  2: { split; [eapply represents_le; [done|by do 2 (etrans; [done|])|done]|done]. }
  destruct Hx as [Hrows Hheld].
  apply bind_run in H as [(next & h4 & Hd & H)|(e & Hd & ->)];
    apply (truncateDir_run m s) in Hd as (HR4 & HI4 & Hdir); try done.
  2: { split; [eapply represents_le; [done|by do 3 (etrans; [done|])|done]|done]. }
  rewrite Hrows in H. fold (segOf (p_SegBits (m_params m)) (cut slot (m_rows m)) (ord slot (p_SegBits (m_params m)))) in H.
  apply bind_run in H as [([next' o'] & h5 & Hse & H)|(e & Hse & ->)];
    apply (reseal_run m s slot) in Hse as (HR5 & HI5 & Hx); try done.
  2: { split; [eapply represents_le; [done|by do 4 (etrans; [done|])|done]|done]. }
  destruct Hx as (Hdir' & Hpt & Hsealed).
  eapply (truncate_finish m s slot ws retain next' o' rows h5); try done.
  - by rewrite (le_cur _ _ HR5), (le_cur _ _ HR4), (le_cur _ _ HR3), (le_cur _ _ HR2), (le_cur _ _ HR1).
  - intros Hret. subst rows. eapply Forall_impl; [by apply Hheld|]. intros x Hx. eapply row_touched_keeps; [|done].
    apply engine_le_keeps. by etrans.
Qed.

(** C14: Truncating to a slot publishes the canonical state of the head cut at the
    slot; a refused or failed truncation leaves the head as it was and is never
    an internal error. *)
Theorem Truncate_refines m slot (h : Eng) r h' :
  represents h m -> Truncate slot h = (r, h') ->
  match r with
  | Ok c => represents h' (truncated m slot) /\ c = model_root (truncated m slot) /\
            exists s, m_synced m = Some s /\ p_OriginSlot (m_params m) <= slot <= s
  | Err e => represents h' m /\ external e
  end.
Proof.
  intros Hrep H. apply (truncate_run m) in H; [|done|lia]. destruct r; [|done].
  by destruct H as (? & ? & ? & _).
Qed.

(** A truncation under a trailing-window policy publishes only after reading,
    from the store, every blob of the rebuilt window and of every window that
    the new root retains and the old one did not. *)
Theorem TruncateRetainingWindow_touches m slot ws (h : Eng) c h' :
  represents h m -> 0 <= ws -> TruncateRetainingWindow slot ws h = (Ok c, h') ->
  represents h' (truncated m slot) /\
  Forall (fun x => let w := ord (Slot x) (p_SegBits (m_params m)) in
       (w = ord slot (p_SegBits (m_params m)) -> row_touched false h' x) /\
       (retainedFrom (truncated m slot) ws <= w < retainedFrom m ws -> row_touched true h' x))
    (m_rows (truncated m slot)).
Proof.
  intros Hrep Hws H. apply (truncate_run m) in H as (? & _ & _ & Ht); [|done..]. split; [done|]. by apply Ht.
Qed.
End Truncate.
