(* ===== verification/Lifecycle.v ===== *)
(** A head over its life: archive.New, archive.Load, TruncateToEmpty,
    BuildGeneration, and runs of several applies.

    The theorems here close the loop: whatever sequence of operations produced a
    head, its root is the root of its content, and a root that was published
    loads back into the same head. *)
From S2P Require Import Prelude Arith Cid Schema Core Engine EngineWorld Dir HeadModel Lookup Apply ApplyCorrect Truncate.

Section Lifecycle.
Context `{MH : Multihash} `{CB : !DagCbor} {Sto : Type} `{BS : !Blockstore Sto} `{BO : !BlockstoreOk Sto}.
Context {L : Type} `{LR : !Lru CidV (AnyNode * Z) L}.
Local Abbreviation Eng := (@Engine MH Sto L).

Definition empty_head (p : Params) : hmodel := mkModel p None [].

(** Go's types: the fields are uint64. *)
Definition params_u64 (p : Params) : Prop :=
  0 <= p_SegBits p /\ 0 <= p_FanoutBits p /\ is_u64 (p_OriginSlot p).

Lemma params_ok_u64 p : params_ok p -> params_u64 p.
Proof. intros [[? ?] [? ?] ?]. split; [lia|]. split; [lia|done]. Qed.

Lemma publish_empty p (h : Eng) r h' :
  params_ok p -> publish (emptyState p) h = (r, h') -> engine_inv h ->
  match r with
  | Ok st => represents h' (empty_head p) /\ st = canon_state (empty_head p)
  | Err e => engine_inv h' /\ cur h' = cur h /\ external e
  end.
Proof.
  intros Hp H HI. apply (publish_model (empty_head p)) in H as (HI' & _ & Hr); try done.
  destruct r; [|by destruct Hr]. destruct Hr as (-> & ? & ?). split; [|done]. by split.
Qed.

Lemma New_run p (h : Eng) r h' :
  params_u64 p -> New p h = (r, h') -> engine_inv h ->
  match r with
  | Ok _ => represents h' (empty_head p)
  | Err e => engine_inv h' /\ cur h' = cur h /\ external e
  end.
Proof.
  intros (Hsb & Hfb & Ho) H HI. unfold New in H.
  destruct (Z.ltb_spec 63 (p_SegBits p)); [by injection H as <- <-|].
  destruct (Z.eqb_spec (p_FanoutBits p) 0); [by injection H as <- <-|].
  destruct (Z.ltb_spec 32 (p_FanoutBits p)); [by injection H as <- <-|]. cbn [orb] in H.
  assert (Hp : params_ok p) by (split; unfold seg_ok, fan_ok; lia || done).
  apply bind_run in H as [(st & h1 & Hpub & H)|(e & Hpub & ->)];
    apply publish_empty in Hpub; try done.
  injection H as <- <-. by destruct Hpub.
Qed.

Lemma TruncateToEmpty_run m (h : Eng) r h' :
  represents h m -> TruncateToEmpty h = (r, h') ->
  match r with
  | Ok c => represents h' (empty_head (m_params m)) /\ c = model_root (empty_head (m_params m))
  | Err e => represents h' m /\ external e
  end.
Proof.
  intros [Hcur HI Hok] H. unfold TruncateToEmpty in H.
  apply bind_run in H as [(st & h0 & Hst & H)|(e & Hst & ->)]; [|done].
  injection Hst as <- <-. rewrite Hcur, params_model in H.
  apply bind_run in H as [(st & h1 & Hpub & H)|(e & Hpub & ->)];
    apply publish_empty in Hpub; try done; try apply Hok.
  - injection H as <- <-. by destruct Hpub as [? ->].
  - destruct Hpub as (? & Hc & ?). split; [|done]. split; [congruence|done..].
Qed.

(** ** Geometry of a canonical head *)

Lemma pagesSum_bound n fb d len :
  fan_ok fb -> 0 < n -> (1 <= d)%nat ->
  pagesSum n fb d len <= (n - 1) / 2 ^ (Z.of_nat d - 1) + Z.of_nat len.
Proof.
  intros [Hf _] Hn. revert d. induction len as [|len IH]; intros d Hd; cbn [pagesSum].
  - pose proof (Z.div_pos (n - 1) (2 ^ (Z.of_nat d - 1)) ltac:(lia) ltac:(apply pow2_pos'; lia)). lia.
  - specialize (IH (S d) ltac:(lia)). unfold pagesAt.
    assert (0 < 2 ^ Z.of_nat d) by (apply pow2_pos'; lia).
    assert (Hle : (n - 1) / 2 ^ (fb * Z.of_nat d) <= (n - 1) / 2 ^ Z.of_nat d).
    { apply Z.div_le_compat_l; [lia|]. split; [done|]. apply Z.pow_le_mono_r; nia. }
    replace (Z.of_nat (S d) - 1) with (Z.of_nat d) in IH by lia.
    assert (Hdd : (n - 1) / 2 ^ Z.of_nat d = (n - 1) / 2 ^ (Z.of_nat d - 1) / 2).
    { rewrite Z.div_div by (try apply pow2_pos'; lia). f_equal.
      replace (Z.of_nat d) with (Z.of_nat d - 1 + 1) at 1 by lia. rewrite Z.pow_add_r by lia. lia. }
    pose proof (Z.mul_div_le ((n - 1) / 2 ^ (Z.of_nat d - 1)) 2 ltac:(lia)). lia.
Qed.

Lemma canonicalDirectoryPages_budget n fb :
  fan_ok fb -> 0 <= n <= MaxEnumerationOutputs ->
  exists pages, canonicalDirectoryPages n fb = Some pages /\ 0 <= pages <= n + 64.
Proof.
  intros Hf Hn. unfold MaxEnumerationOutputs in *. destruct (decide (n = 0)) as [->|].
  { exists 0. done. }
  rewrite canonicalDirectoryPages_sum by (done || lia). eexists. split; [done|].
  pose proof (canonicalDepth_pos n fb Hf ltac:(unfold is_u64; lia) ltac:(lia)) as Hd.
  pose proof (pagesSum_bound n fb 1 (Z.to_nat (canonicalDepth n fb)) Hf ltac:(lia) ltac:(lia)) as Hb.
  change (2 ^ (Z.of_nat 1 - 1)) with 1 in Hb. rewrite Z.div_1_r in Hb. split; [|lia].
  clear Hb. generalize 1%nat. induction (Z.to_nat _) as [|len IH]; intros d; cbn [pagesSum]; [lia|].
  pose proof (pagesAt_bound n fb d Hf ltac:(lia)). specialize (IH (S d)). lia.
Qed.

(** The geometry check accepts every canonical head within the output budget
    and refuses the ones above it. *)
Lemma geometry_run m st :
  content_ok m -> state_of m st ->
  validateDirectoryGeometry st =
  match m_synced m with
  | None => Ok (0, 0)
  | Some s =>
    if MaxEnumerationOutputs <? Z.of_nat (sealedN (m_params m) s)
    then Err (EInvalid "output admission budget")
    else Ok (openWin (m_params m) s, Z.of_nat (sealedN (m_params m) s))
  end.
Proof.
  intros [Hp Hc] Hst. destruct (m_synced m) as [s|] eqn:Hs.
  2: { unfold state_of, pre_state in Hst. rewrite Hs in Hst. destruct st. unfold set_root, emptyState in Hst.
       injection Hst as -> -> -> -> -> ->. done. }
  rewrite (state_of_covered m s st Hs Hst). unfold validateDirectoryGeometry, dirBase. cbn.
  destruct (co_synced _ _ _ Hc). destruct (po_origin _ Hp). unfold maxInt64, maxUint64 in *.
  rewrite (proj2 (Z.eqb_neq _ _)) by lia. rewrite add64_small by (unfold is_u64; lia).
  fold (openWin (m_params m) s) (baseWin (m_params m)).
  pose proof (openWin_ge_base (m_params m) s Hp ltac:(lia)) as Hge.
  rewrite (proj2 (Z.ltb_ge _ _)) by lia.
  replace (openWin (m_params m) s - baseWin (m_params m)) with (Z.of_nat (sealedN (m_params m) s)) by (unfold sealedN; lia).
  destruct (Z.ltb_spec MaxEnumerationOutputs (Z.of_nat (sealedN (m_params m) s))) as [|Hn]; [done|].
  unfold canon_depth. rewrite Z.eqb_refl. cbn [negb].
  destruct (canonicalDirectoryPages_budget (Z.of_nat (sealedN (m_params m) s)) (p_FanoutBits (m_params m)))
    as (pages & -> & Hpg); [apply Hp|lia|].
  unfold MaxEnumerationPaths, MaxEnumerationUniqueNodes, MaxEnumerationOutputs in *.
  rewrite !(proj2 (Z.ltb_ge _ _)) by lia. done.
Qed.

(** ** Load *)

Lemma canon_depth_nonneg fb n : fan_ok fb -> is_u64 (Z.of_nat n) -> 0 <= canon_depth fb n.
Proof.
  intros Hf Hu. unfold canon_depth. destruct n as [|n]; [done|].
  pose proof (canonicalDepth_pos (Z.of_nat (S n)) fb Hf Hu ltac:(lia)). lia.
Qed.

Lemma headObject_u64 m : content_ok m -> head_u64 (headObject (pre_state m)).
Proof.
  intros [Hp Hc]. destruct (po_origin _ Hp), (po_seg _ Hp), (po_fan _ Hp).
  unfold pre_state. destruct (m_synced m) as [s|]; (split; [cbn; lia|]); do 2 (split; [cbn; lia|]).
  - destruct (co_synced _ _ _ Hc). split; [|cbn; intros z [= <-]; lia].
    apply canon_depth_nonneg; [apply Hp|]. apply sealedN_u64; [done|lia].
  - done.
Qed.

(** The head block decodes to the state it was encoded from. *)
Lemma decoded_state m c :
  mkState (mkParams (Name (headObject (pre_state m))) (Net (headObject (pre_state m)))
             (OriginSlot (headObject (pre_state m))) (SegBits (headObject (pre_state m)))
             (FanoutBits (headObject (pre_state m))))
    (default 0 (SyncedTo (headObject (pre_state m))))
    (bool_decide (is_Some (SyncedTo (headObject (pre_state m)))))
    (DirDepth (headObject (pre_state m))) (Dir (headObject (pre_state m)))
    (Open (headObject (pre_state m))) c = set_root c (pre_state m).
Proof. unfold pre_state. destruct (m_params m), (m_synced m); done. Qed.

Lemma node_cid_valid c b : node_cid c b -> validateIndexCID c = Ok tt.
Proof.
  intros (cv & -> & (Hv & Hcd & Ht & Hl) & _). unfold validateIndexCID, cid_prefix. cbn.
  by rewrite Hv, Hcd, Ht, Hl.
Qed.

Lemma addresses_verify cv b : addresses cv b -> verifyBlockCID cv b = Ok tt.
Proof.
  unfold addresses, verifyBlockCID. intros ->. by rewrite bool_decide_eq_true_2.
Qed.

Lemma dir_cid_valid kids : validateIndexCID (dir_cid kids) = Ok tt.
Proof.
  unfold dir_cid. destruct (EncodeDirNode_ok (mkDirNode kids)) as (b & c & -> & Hc & _).
  by eapply node_cid_valid.
Qed.

Lemma seg_cid_valid s : seg_enc s -> validateIndexCID (seg_cid s) = Ok tt.
Proof. intros (b & _ & Hc & _)%seg_enc_inv. by eapply node_cid_valid. Qed.

Lemma canon_root_valid fb es :
  fan_ok fb -> is_u64 (Z.of_nat (length es)) -> Defined (canon_root fb es) = true ->
  validateIndexCID (canon_root fb es) = Ok tt.
Proof.
  intros Hf Hu Hd. unfold canon_root in *. destruct es as [|e es]; [done|].
  destruct (canon_depth_spec fb (length (e :: es))) as (d & Hcd & _); [done|done|simpl; lia|].
  rewrite Hcd, Nat2Z.id in *. unfold node_of. rewrite canon_dir_S. apply dir_cid_valid.
Qed.

Lemma lift_ok_bind {W A B} (a : A) (k : A -> M W B) : bind (lift (Ok a)) k = k a.
Proof. done. Qed.

Lemma valid_links m :
  content_ok m ->
  (Defined (dir (pre_state m)) = true -> validateIndexCID (dir (pre_state m)) = Ok tt) /\
  (Defined (open (pre_state m)) = true -> validateIndexCID (open (pre_state m)) = Ok tt) /\
  Defined (open (pre_state m)) = covered (pre_state m).
Proof.
  intros [Hp Hc]. unfold pre_state. destruct (m_synced m) as [s|]; [|done]. cbn.
  split; [|split].
  - intros Hd. apply canon_root_valid; [apply Hp| |done]. rewrite canon_entries_length.
    apply sealedN_u64; [done|apply Hc].
  - intros _. apply seg_cid_valid, (co_open _ _ _ Hc).
  - destruct (seg_cid_defined _ (co_open _ _ _ Hc)) as [c ->]. done.
Qed.

Lemma loadState_run m (h : Eng) r h' :
  head_ok m -> loadState (model_root m) h = (r, h') -> engine_inv h ->
  engine_le h h' /\ engine_inv h' /\
  match r with
  | Ok st => st = canon_state m
  | Err e => store_err e \/
    exists s, m_synced m = Some s /\ MaxEnumerationOutputs < Z.of_nat (sealedN (m_params m) s)
  end.
Proof.
  intros Hok H HI. pose proof Hok as (Hp & Hf & _). pose proof (head_content m Hok) as Hct.
  apply fits_inv in Hf as (b & c & He & Hlen).
  apply DecodeHead_encoded in He as Hd; [|by apply headObject_u64]. destruct Hd as [Hdec Hc].
  assert (Hroot : model_root m = c) by (unfold model_root, head_cid; by rewrite He).
  pose proof (node_cid_valid c b Hc) as Hval.
  destruct Hc as (cv & -> & Hv & Ha). rewrite Hroot in H.
  unfold loadState in H. rewrite Hval, lift_ok_bind in H.
  apply bind_run in H as [(data & h1 & Hg & H)|(e & Hg & ->)];
    apply Get_run in Hg as (HR & HI1 & Hx); try done.
  2: { split; [done|]. split; [done|]. by left. }
  destruct Hx as (cv' & [= <-] & Ha'). rewrite (addresses_inj _ _ _ _ Hv Ha' Ha) in H.
  unfold MaxEnumerationNodeBytes in H. rewrite (proj2 (Z.ltb_ge _ _)) in H by done.
  rewrite (addresses_verify _ _ Ha), lift_ok_bind, Hdec, lift_ok_bind in H. cbv zeta in H.
  rewrite decoded_state, <- Hroot in H. fold (canon_state m) in H.
  destruct (valid_links m Hct) as (Hvd & Hvo & Hco).
  change (covered (canon_state m)) with (covered (pre_state m)) in H.
  change (open (canon_state m)) with (open (pre_state m)) in H.
  change (dir (canon_state m)) with (dir (pre_state m)) in H.
  rewrite Hco, eqb_reflx in H. cbn [negb p_SegBits p_FanoutBits] in H.
  assert (Hpar : SegBits (headObject (pre_state m)) = p_SegBits (m_params m) /\
                 FanoutBits (headObject (pre_state m)) = p_FanoutBits (m_params m)).
  { unfold pre_state. by destruct (m_synced m). }
  destruct Hpar as [Hsb Hfb]. rewrite Hsb, Hfb in H. destruct (po_seg _ Hp), (po_fan _ Hp).
  rewrite (proj2 (Z.eqb_neq _ _)), (proj2 (Z.ltb_ge _ _)), (proj2 (Z.ltb_ge _ _)) in H by lia. cbn [orb] in H.
  rewrite (geometry_run m _ Hct (canon_state_of m)) in H.
  assert (Hrest : forall x, (lift (Ok x : res (Z * Z)) ;;;
      (if Defined (dir (pre_state m)) then lift (validateIndexCID (dir (pre_state m))) else ret tt) ;;;
      (if covered (pre_state m) then lift (validateIndexCID (open (pre_state m))) else ret tt) ;;;
      ret (canon_state m)) h1 = (r, h') ->
      engine_le h h' /\ engine_inv h' /\ r = Ok (canon_state m)).
  { intros x Hrun. rewrite lift_ok_bind in Hrun. destruct (Defined (dir (pre_state m))) eqn:Ed; rewrite ?(Hvd eq_refl) in Hrun;
      (destruct (covered (pre_state m)) eqn:Ec; [rewrite (Hvo Hco) in Hrun|]); injection Hrun as <- <-; done. }
  destruct (m_synced m) as [s|] eqn:Hs.
  - destruct (Z.ltb_spec MaxEnumerationOutputs (Z.of_nat (sealedN (m_params m) s))).
    + injection H as <- <-. split; [done|]. split; [done|]. right. eauto.
    + apply Hrest in H as (? & ? & ->). done.
  - apply Hrest in H as (? & ? & ->). done.
Qed.

Lemma Load_head_run m (h : Eng) r h' :
  head_ok m -> Load (model_root m) h = (r, h') -> engine_inv h ->
  match r with
  | Ok _ => represents h' m
  | Err e => cur h' = cur h /\ engine_inv h' /\
             (store_err e \/ exists s, m_synced m = Some s /\ MaxEnumerationOutputs < Z.of_nat (sealedN (m_params m) s))
  end.
Proof.
  intros Hok H HI. unfold Load in H.
  apply bind_run in H as [(st & h1 & Hl & H)|(e & Hl & ->)];
    apply (loadState_run m) in Hl as (HR & HI1 & Hx); try done.
  - injection H as <- <-. subst st. by split.
  - split; [apply HR|]. done.
Qed.

(** ** Content determines the root *)

(** [o] is the row that [r] names under the resolver. *)
Definition names (resolve : VersionedHash -> res (Cid * bool)) (r : RefRow) (o : Row) : Prop :=
  Slot o = rr_Slot r /\ Forall2 (fun vh e => VH e = vh /\ resolve vh = Ok (Blob e, true)) (VHs r) (Entries o).

Lemma row_of_names resolve (h : Eng) rows new :
  Forall2 (row_of resolve h) rows new -> Forall2 (names resolve) rows new.
Proof.
  intros Hf. eapply Forall2_impl; [exact Hf|]. intros r o [Hs He]. split; [done|].
  eapply Forall2_impl; [exact He|]. intros vh e (? & ? & _). done.
Qed.

Lemma names_unique resolve rows new new2 :
  Forall2 (names resolve) rows new -> Forall2 (names resolve) rows new2 -> new = new2.
Proof.
  intros Hf. revert new2. induction Hf as [|r o rows new [Hsl He] Hf IH]; intros new2 Hf2.
  { by inversion Hf2. }
  inversion Hf2 as [|? o2 ? new2' [Hsl2 He2] Hf2']; subst. f_equal; [|by apply IH].
  destruct o as [sl es], o2 as [sl2 es2]. simpl in *. f_equal; [congruence|]. clear -He He2.
  revert es2 He2. induction He as [|vh e vhs es [Hv Hr] _ IH]; intros es2 He2.
  { by inversion He2. }
  inversion He2 as [|? e2 ? es2' [Hv2 Hr2] He2']; subst. f_equal; [|by apply IH].
  destruct e as [v b], e2 as [v2 b2]. simpl in *. congruence.
Qed.

Lemma BuildGeneration_run cfg p rows s (h : Eng) r h' :
  params_u64 p -> resolver_ok cfg -> s < maxUint64 ->
  BuildGeneration cfg p rows s h = (r, h') -> engine_inv h ->
  match r with
  | Ok _ => exists resolve new, Resolver cfg = Some resolve /\
      Forall2 (row_of resolve h') rows new /\ represents h' (mkModel p (Some s) new)
  | Err e => external e
  end.
Proof.
  intros Hp Hcfg Hs H HI. unfold BuildGeneration in H.
  apply bind_run in H as [([] & h0 & Hv & H)|(e & Hv & ->)]; injection Hv as Hv <-.
  2: { by apply validateShape_err in Hv as [? ->]. }
  apply bind_run in H as [([] & h1 & Hn & H)|(e & Hn & ->)]; apply New_run in Hn; try done.
  2: { by destruct Hn as (_ & _ & ?). }
  apply bind_run in H as [(a & h2 & Ha & H)|(e & Ha & ->)];
    apply (ApplyRefs_run cfg (empty_head p)) in Ha; try done.
  2: { by destruct Ha. }
  injection H as <- <-. destruct Ha as [(_ & _ & s0 & Hs0 & _)|(resolve & new & Hr & _ & Hf & Hrep & _)]; [done|].
  exists resolve, new. done.
Qed.

(** Several applies, each extending coverage: the writer's normal life. *)
Fixpoint applyAll (cfg : @Config MH Sto) (batches : list (list RefRow * Z)) : M Eng unit :=
  match batches with
  | [] => ret tt
  | (rows, s) :: rest => ApplyRefs cfg rows s ;;; applyAll cfg rest
  end.

(** Every batch reaches past the coverage it starts from. *)
Fixpoint advancing (from : Z) (batches : list (list RefRow * Z)) : Prop :=
  match batches with
  | [] => True
  | (_, s) :: rest => from <= s < maxUint64 /\ advancing (s + 1) rest
  end.

Lemma applyAll_run cfg resolve m batches (h : Eng) h' :
  Resolver cfg = Some resolve -> resolver_ok cfg -> represents h m -> advancing (resume m) batches ->
  applyAll cfg batches h = (Ok tt, h') ->
  exists new, Forall2 (names resolve) (concat (fst <$> batches)) new /\
    represents h' (mkModel (m_params m)
      (match last batches with Some (_, s) => Some s | None => m_synced m end) (m_rows m ++ new)).
Proof.
  intros Hres Hcfg. revert m h. induction batches as [|[rows s] rest IH]; intros m h Hrep Hadv H.
  { injection H as <-. exists []. split; [constructor|]. rewrite app_nil_r. by destruct m. }
  destruct Hadv as [Hs Hadv]. cbn [applyAll] in H. apply bind_run_ok in H as (a & h1 & Ha & H).
  apply (ApplyRefs_run cfg m) in Ha; try done; [|lia].
  destruct Ha as [(_ & _ & s0 & Hs0 & Hle & _)|(resolve' & new & Hr & _ & Hf & Hrep' & _)].
  { exfalso. unfold resume in Hs. rewrite Hs0 in Hs. lia. }
  assert (resolve' = resolve) as -> by congruence.
  apply (IH (extended m new s)) in H as (new' & Hf' & Hrep''); try done.
  exists (new ++ new'). split.
  - cbn [fmap list_fmap concat fst]. apply Forall2_app; [by eapply row_of_names|done].
  - cbn [m_params m_synced m_rows extended] in Hrep''. rewrite <- app_assoc in Hrep''.
    destruct rest as [|[rows2 s2] rest]; [done|].
    change (last ((rows, s) :: (rows2, s2) :: rest)) with (last ((rows2, s2) :: rest)).
    destruct (last ((rows2, s2) :: rest)) as [[? ?]|] eqn:El; [done|]. by apply last_None in El.
Qed.

(** C3: A head built by any advancing sequence of applies has the root that
    building the whole snapshot at once gives: the root is a function of
    parameters, rows and coverage, not of how they arrived. *)
Theorem incremental_equals_build cfg p batches rows s (h1 h2 h1' h2' : Eng) :
  params_u64 p -> resolver_ok cfg -> engine_inv h1 -> engine_inv h2 ->
  advancing (p_OriginSlot p) (batches ++ [(rows, s)]) ->
  (New p ;;; applyAll cfg (batches ++ [(rows, s)])) h1 = (Ok tt, h1') ->
  BuildGeneration cfg p (concat (fst <$> batches) ++ rows) s h2 = (Ok tt, h2') ->
  cur h1' = cur h2'.
Proof.
  intros Hp Hcfg HI1 HI2 Hadv H1 H2.
  assert (Hs : s < maxUint64).
  { clear -Hadv. revert Hadv. generalize (p_OriginSlot p). induction batches as [|[rs s0] bs IH]; intros o.
    - simpl. lia.
    - intros [_ ?]. eauto. }
  destruct (BuildGeneration_run cfg p _ s _ _ _ Hp Hcfg Hs H2 HI2) as (resolve & new & Hres & Hf & [Hc2 _ _]).
  apply bind_run_ok in H1 as ([] & h0 & Hn & H1). apply New_run in Hn; [|done..].
  apply (applyAll_run cfg resolve (empty_head p)) in H1 as (new' & Hf' & [Hc1 _ _]); try done.
  rewrite last_snoc in Hc1. rewrite fmap_app, concat_app in Hf'. simpl in Hf'. rewrite app_nil_r in Hf'.
  assert (new' = new) as -> by (eapply names_unique; [done|by eapply row_of_names]).
  rewrite Hc1, Hc2. done.
Qed.

(** Truncating a head to a slot publishes the root a fresh build of the
    surviving rows has. *)
Theorem truncate_equals_build cfg m rows slot (h h' h2 h2' : Eng) c resolve :
  represents h m -> resolver_ok cfg -> engine_inv h2 -> Resolver cfg = Some resolve ->
  Forall2 (names resolve) rows (cut slot (m_rows m)) ->
  Truncate slot h = (Ok c, h') ->
  BuildGeneration cfg (m_params m) rows slot h2 = (Ok tt, h2') ->
  c = Root h2' /\ cur h' = cur h2'.
Proof.
  intros Hrep Hcfg HI2 Hres Hn H1 H2. pose proof Hrep as [_ _ (Hp & _ & Hc)].
  apply (truncate_run m) in H1 as ([Hcur _ _] & -> & (s & Hs & Hsl) & _); [|done|lia].
  rewrite Hs in Hc. destruct (co_synced _ _ _ Hc).
  destruct (BuildGeneration_run cfg (m_params m) rows slot _ _ _ (params_ok_u64 _ Hp) Hcfg
    ltac:(unfold maxUint64, maxInt64 in *; lia) H2 HI2) as (resolve' & new & Hres' & Hf & [Hc2 _ _]).
  assert (resolve' = resolve) as -> by congruence.
  assert (new = cut slot (m_rows m)) as -> by (eapply names_unique; [by eapply row_of_names|done]).
  unfold Root. rewrite Hcur, Hc2. done.
Qed.

(** C15: The root of a head loads, on any engine over a store that serves its
    blocks, into the same head; a load that fails leaves the engine's state as
    it was and fails only because the backend did or because the head has more
    sealed windows than the admission budget. *)
Theorem Load_published m (h h0 : Eng) r h' :
  represents h m -> engine_inv h0 -> Load (Root h) h0 = (r, h') ->
  match r with
  | Ok _ => represents h' m /\ cur h' = cur h
  | Err e => cur h' = cur h0 /\
      (store_err e \/ exists s, m_synced m = Some s /\ MaxEnumerationOutputs < Z.of_nat (sealedN (m_params m) s))
  end.
Proof.
  intros [Hc _ Hok] HI H. unfold Root in H. rewrite Hc in H. apply (Load_head_run m) in H; try done.
  destruct r.
  - split; [done|]. rewrite Hc. apply H.
  - destruct H as (? & _ & ?). done.
Qed.

(** Resetting a head gives back the state and root that creating it wrote. *)
Theorem TruncateToEmpty_is_New m (h h1 h1' h' : Eng) c :
  represents h m -> engine_inv h1 -> TruncateToEmpty h = (Ok c, h') -> New (m_params m) h1 = (Ok tt, h1') ->
  cur h' = cur h1' /\ c = Root h1'.
Proof.
  intros Hrep HI H1 H2. pose proof Hrep as [_ _ (Hp & _ & _)].
  apply (TruncateToEmpty_run m) in H1 as [[Hc1 _ _] ->]; [|done].
  apply New_run in H2 as [Hc2 _ _]; [| |done].
  - unfold Root. rewrite Hc1, Hc2. done.
  - by apply params_ok_u64.
Qed.
End Lifecycle.
