(* ===== verification/Enumerate.v ===== *)
(** Enumeration, the admission boundary for a head root: archive/enumerate.go
    and archive/structure_cache.go.

    [enumerate] walks the directory of the current root, validates every page
    and Segment against the position its path names, within fixed budgets, and
    lists the sealed Segments.  The walker's maps and the budget are one mutable
    object in the code and one record here.

    Proved: a successful enumeration is sound, whatever root the head was loaded
    from.  The directory tree holds some list of entries of exactly the length
    coverage implies, [Sealed] is its non-null entries in order with their
    windows, every Segment's rows lie in its window, every page is stored, and
    the output is within budget.  On a head the engine built itself the entries
    are the canonical ones. *)
From S2P Require Import Prelude Arith Cid Schema Core Engine EngineWorld Dir HeadModel.

Definition maxStructureCacheSegments : Z := MaxEnumerationOutputs + 1.

Section Enumerate.
Context `{MH : Multihash} `{CB : !DagCbor} {Sto : Type} `{BS : !Blockstore Sto}.
Context {L : Type} `{LR : !Lru CidV (AnyNode * Z) L}.
Local Abbreviation Eng := (@Engine MH Sto L).

(** ** StructureCache *)

Definition sc_segment (c : StructureCache) (id : CidV) : option cachedSegmentProof := c !! id.

Definition rememberSegments (c : StructureCache) (proofs : gmap CidV cachedSegmentProof) : StructureCache :=
  if Z.of_nat (size proofs) =? 0 then c
  else
    let c := if maxStructureCacheSegments <? Z.of_nat (size c) + Z.of_nat (size proofs) then ∅ else c in
    map_fold (fun key proof c => <[key := proof]> c) c proofs.

(** ** The result *)

Record SealedSegment : Type := mkSealed { ss_CID : CidV; ss_Ord : Z; ss_FirstSlot : Z; ss_LastSlot : Z }.

Record Enumeration : Type := mkEnum {
  en_Params : Params; en_Root : Cid; en_SyncedTo : Z; en_Covered : bool;
  en_DirPages : list CidV; en_Sealed : list SealedSegment; en_Open : Cid; en_OpenOrd : Z }.

(** ** The walker: enumerationWalker with its enumerationBudget *)

Record walk : Type := mkWalk {
  w_h : Eng;
  w_unique : gmap Cid unit; w_paths : Z; w_decoded : Z; w_outputs : Z;      (* budget *)
  w_dirPages : list CidV; w_sealed : list SealedSegment;               (* out *)
  w_dirNodes : gmap CidV DirNode; w_dirActive : gmap CidV bool;
  w_dirMemo : gmap (CidV * Z * Z) (Z * Z);                             (* (cid, depth, entries) to (paths, segments) *)
  w_dirContains : gmap CidV bool;
  w_segments : gmap CidV Z; w_newProofs : gmap CidV cachedSegmentProof }.

Definition wset_h x w := mkWalk x (w_unique w) (w_paths w) (w_decoded w) (w_outputs w) (w_dirPages w) (w_sealed w)
  (w_dirNodes w) (w_dirActive w) (w_dirMemo w) (w_dirContains w) (w_segments w) (w_newProofs w).
Definition wset_unique x w := mkWalk (w_h w) x (w_paths w) (w_decoded w) (w_outputs w) (w_dirPages w) (w_sealed w)
  (w_dirNodes w) (w_dirActive w) (w_dirMemo w) (w_dirContains w) (w_segments w) (w_newProofs w).
Definition wset_paths x w := mkWalk (w_h w) (w_unique w) x (w_decoded w) (w_outputs w) (w_dirPages w) (w_sealed w)
  (w_dirNodes w) (w_dirActive w) (w_dirMemo w) (w_dirContains w) (w_segments w) (w_newProofs w).
Definition wset_decoded x w := mkWalk (w_h w) (w_unique w) (w_paths w) x (w_outputs w) (w_dirPages w) (w_sealed w)
  (w_dirNodes w) (w_dirActive w) (w_dirMemo w) (w_dirContains w) (w_segments w) (w_newProofs w).
Definition wset_outputs x w := mkWalk (w_h w) (w_unique w) (w_paths w) (w_decoded w) x (w_dirPages w) (w_sealed w)
  (w_dirNodes w) (w_dirActive w) (w_dirMemo w) (w_dirContains w) (w_segments w) (w_newProofs w).
Definition add_page c d w := mkWalk (w_h w) (w_unique w) (w_paths w) (w_decoded w) (w_outputs w) (w_dirPages w ++ [c]) (w_sealed w)
  (<[c := d]> (w_dirNodes w)) (w_dirActive w) (w_dirMemo w) (w_dirContains w) (w_segments w) (w_newProofs w).
Definition add_sealed x w := mkWalk (w_h w) (w_unique w) (w_paths w) (w_decoded w) (w_outputs w) (w_dirPages w) (w_sealed w ++ [x])
  (w_dirNodes w) (w_dirActive w) (w_dirMemo w) (w_dirContains w) (w_segments w) (w_newProofs w).
Definition wset_active x w := mkWalk (w_h w) (w_unique w) (w_paths w) (w_decoded w) (w_outputs w) (w_dirPages w) (w_sealed w)
  (w_dirNodes w) x (w_dirMemo w) (w_dirContains w) (w_segments w) (w_newProofs w).
Definition add_memo k s w := mkWalk (w_h w) (w_unique w) (w_paths w) (w_decoded w) (w_outputs w) (w_dirPages w) (w_sealed w)
  (w_dirNodes w) (w_dirActive w) (<[k := s]> (w_dirMemo w)) (<[k.1.1 := negb (s.2 =? 0)]> (w_dirContains w))
  (w_segments w) (w_newProofs w).
Definition add_segment c o w := mkWalk (w_h w) (w_unique w) (w_paths w) (w_decoded w) (w_outputs w) (w_dirPages w) (w_sealed w)
  (w_dirNodes w) (w_dirActive w) (w_dirMemo w) (w_dirContains w) (<[c := o]> (w_segments w)) (w_newProofs w).
Definition add_proof c p w := mkWalk (w_h w) (w_unique w) (w_paths w) (w_decoded w) (w_outputs w) (w_dirPages w) (w_sealed w)
  (w_dirNodes w) (w_dirActive w) (w_dirMemo w) (w_dirContains w) (w_segments w) (<[c := p]> (w_newProofs w)).

Definition onHead {A} (m : M Eng A) : M walk A := fun w => let '(r, h) := m (w_h w) in (r, wset_h h w).

(** budget.check *)
Definition check : M walk unit := onHead ctxErr.

Definition addUnique (c : Cid) : M walk bool :=
  u <-- gets w_unique ;;
  if bool_decide (is_Some (u !! c)) then ret false
  else fail_if MaxEnumerationUniqueNodes <=? Z.of_nat (size u) with EInvalid "unique-node budget" ;;
       modify (fun w => wset_unique (<[c := tt]> (w_unique w)) w) ;;; ret true.

Definition readNode (c : Cid) : M walk bytes :=
  check ;;;
  fresh <-- addUnique c ;;
  fail_if negb fresh with EInternal "attempted to decode twice" ;;
  data <-- onHead (Get c) ;;
  fail_if MaxEnumerationNodeBytes <? len data with EInvalid "per-node admission budget" ;;
  dec <-- gets w_decoded ;;
  fail_if sub64 MaxEnumerationDecodedBytes dec <? len data with EInvalid "enumeration byte budget" ;;
  match c with
  | None => fail (EInvalid "hashing block")
  | Some cv => lift (verifyBlockCID cv data) ;;;
               modify (fun w => wset_decoded (add64 (w_decoded w) (len data)) w) ;;;
               ret data
  end.

Definition addCachedUnique (c : Cid) : M walk unit := check ;;; addUnique c ;;; ret tt.

Definition addPaths (n : Z) : M walk unit :=
  p <-- gets w_paths ;;
  fail_if sub64 MaxEnumerationPaths p <? n with EInvalid "logical-path budget" ;;
  modify (wset_paths (add64 p n)).

Definition addOutput : M walk unit :=
  o <-- gets w_outputs ;;
  fail_if MaxEnumerationOutputs <=? o with EInvalid "output budget" ;;
  modify (wset_outputs (add64 o 1)).

(** ** Segments *)

Fixpoint checkLinks (es : list RefEntry) : res unit :=
  match es with [] => Ok tt | e :: es' => _ <-? validateBlobCID (Blob e) ;; checkLinks es' end.
Fixpoint checkRowLinks (rows : list Row) : res unit :=
  match rows with [] => Ok tt | r :: rows' => _ <-? checkLinks (Entries r) ;; checkRowLinks rows' end.

Definition segmentShape (s : Segment) : res segmentProof :=
  _ <-? checkRowLinks (Rows s) ;;
  Ok (mkProof (Slot0 s) (from_option Slot 0 (head (Rows s))) (from_option Slot 0 (last (Rows s))) (len (Rows s))).

(** The generation of the local store and whether it has one. *)
Definition collectionGeneration (cfg : @Config MH Sto) (h : Eng) : option Z :=
  match CollectionGeneration cfg with Some f => Some (f (blocks h)) | None => None end.

Definition stamp (gen : option Z) (p : segmentProof) : cachedSegmentProof :=
  mkCachedProof p (default 0 gen) (bool_decide (is_Some gen)).

Definition is_current (gen : option Z) (cp : cachedSegmentProof) : bool :=
  match gen with Some g => cp_generationKnown cp && (cp_generation cp =? g) | None => false end.

(** The shape proof of [c]: from this walk, from the cache, or by decoding. *)
Definition segmentProofOf (gen : option Z) (c : CidV) : M walk segmentProof :=
  np <-- gets w_newProofs ;;
  sc <-- gets (structure ∘ w_h) ;;
  match (match np !! c with Some p => Some p | None => sc_segment sc c end) with
  | Some cp =>
    (if is_current gen cp then addCachedUnique (Some c)
     else readNode (Some c) ;;; modify (add_proof c (stamp gen (cp_proof cp)))) ;;;
    ret (cp_proof cp)
  | None =>
    data <-- readNode (Some c) ;;
    segment <-- lift (DecodeSegment data) ;;
    proof <-- lift (segmentShape segment) ;;
    modify (add_proof c (stamp gen proof)) ;;;
    ret proof
  end.

Definition checkPosition (st : state) (proof : segmentProof) (expectedWindow upper : Z) (isOpen : bool) : res unit :=
  let wantSlot0 := windowStart expectedWindow (p_SegBits (params st)) in
  refuse_if negb (sp_slot0 proof =? wantSlot0) with EInvalid "slot0 is not the path position" ;;
  refuse_if negb isOpen && (sp_rows proof =? 0) with EInvalid "sealed Segment is empty" ;;
  let lower := if wantSlot0 <? p_OriginSlot (params st) then p_OriginSlot (params st) else wantSlot0 in
  refuse_if (0 <? sp_rows proof) && ((sp_firstRow proof <? lower) || (upper <? sp_lastRow proof))
    with EInvalid "rows outside the path window" ;;
  Ok tt.

Definition validateSegment (st : state) (gen : option Z) (c : Cid) (expectedWindow upper : Z) (isOpen : bool)
  : M walk unit :=
  lift (validateIndexCID c) ;;;
  match c with
  | None => fail (EInvalid "CID is undefined")
  | Some cv =>
    segs <-- gets w_segments ;;
    match segs !! cv with
    | Some _ => fail (EInvalid "segment referenced at two windows")
    | None =>
      modify (add_segment cv expectedWindow) ;;;
      proof <-- segmentProofOf gen cv ;;
      lift (checkPosition st proof expectedWindow upper isOpen)
    end
  end.

(** ** The directory walk *)

Definition readDir (c : CidV) : M walk DirNode :=
  nodes <-- gets w_dirNodes ;;
  match nodes !! c with
  | Some page => ret page
  | None =>
    data <-- readNode (Some c) ;;
    page <-- lift (DecodeDirNode data) ;;
    modify (add_page c page) ;;;
    ret page
  end.

(** The kids of a leaf page; returns how many Segments it added. *)
Fixpoint leafLoop (st : state) (gen : option Z) (offset : Z) (digit : Z) (kids : list Cid) (count : Z) : M walk Z :=
  match kids with
  | [] => ret count
  | kid :: rest =>
    check ;;;
    match kid with
    | None => leafLoop st gen offset (digit + 1) rest count
    | Some c =>
      let index := add64 offset digit in
      let window := add64 (dirBase st) index in
      validateSegment st gen kid window (windowEnd window (p_SegBits (params st))) false ;;;
      addOutput ;;;
      modify (add_sealed (mkSealed c window (windowStart window (p_SegBits (params st)))
                                   (windowEnd window (p_SegBits (params st))))) ;;;
      leafLoop st gen offset (digit + 1) rest (add64 count 1)
    end
  end.

(** The kids of an internal page, each walked by [sub kid offset entries]. *)
Fixpoint innerLoop (sub : Cid -> Z -> Z -> M walk (Z * Z)) (childCap offset entries : Z) (digit : Z)
  (kids : list Cid) (count : Z) : M walk Z :=
  match kids with
  | [] => ret count
  | kid :: rest =>
    fail_if negb (Defined kid) with EInvalid "internal kid is null" ;;
    let childOffset := add64 offset (mul64 digit childCap) in
    let childEntries := sub64 entries (mul64 digit childCap) in
    let childEntries := if childCap <? childEntries then childCap else childEntries in
    summary <-- sub kid childOffset childEntries ;;
    innerLoop sub childCap offset entries (digit + 1) rest (add64 count (snd summary))
  end.

(** walkDir at [d] page levels; returns (paths, segments).  It is only called
    with [d > 0]: [enumerate] tests dir_depth and the last level is 1. *)
Fixpoint walkDir (st : state) (gen : option Z) (d : nat) (node : Cid) (offset entries : Z) : M walk (Z * Z) :=
  match d with
  | O => fail EDiverges
  | S d' =>
    let depth := Z.of_nat d in
    check ;;;
    fail_if negb (Defined node) with EInvalid "directory page is null" ;;
    lift (validateIndexCID node) ;;;
    match node with
    | None => fail (EInvalid "directory page is null")
    | Some key =>
      memo <-- gets w_dirMemo ;;
      match memo !! (key, depth, entries) with
      | Some summary =>
        fail_if negb (snd summary =? 0) with EInvalid "non-empty subtree is shared" ;;
        addPaths (fst summary) ;;;
        ret summary
      | None =>
        active <-- gets w_dirActive ;;
        fail_if default false (active !! key) with EInvalid "directory subtree is cyclic" ;;
        contains <-- gets w_dirContains ;;
        fail_if default false (contains !! key) with EInvalid "non-empty subtree is shared" ;;
        startPaths <-- gets w_paths ;;
        addPaths 1 ;;;
        page <-- readDir key ;;
        modify (fun w => wset_active (<[key := true]> (w_dirActive w)) w) ;;;
        finally
          (let fanout := shl64 1 (p_FanoutBits (params st)) in
           segmentCount <--
             (match d' with
              | O =>
                let maxKids := if fanout <? entries then fanout else entries in
                fail_if maxKids <? len (Kids page) with EInvalid "leaf page has too many kids" ;;
                leafLoop st gen offset 0 (Kids page) 0
              | S _ =>
                let childCap := capacity (depth - 1) (p_FanoutBits (params st)) in
                let expectedKids := if childCap <? entries then 1 + (entries - 1) / childCap else 1 in
                fail_if negb (len (Kids page) =? expectedKids) with EInvalid "internal page kids" ;;
                innerLoop (walkDir st gen d') childCap offset entries 0 (Kids page) 0
              end) ;;
           paths <-- gets w_paths ;;
           let summary := (sub64 paths startPaths, segmentCount) in
           modify (add_memo (key, depth, entries) summary) ;;;
           ret summary)
          (fun w => wset_active (delete key (w_dirActive w)) w)
      end
    end
  end.

Definition walk0 (h : Eng) : walk := mkWalk h ∅ 0 0 0 [] [] ∅ ∅ ∅ ∅ ∅ ∅.

Definition enumerate_walk (cfg : @Config MH Sto) (st : state) (gen : option Z) : M walk Enumeration :=
  let* (openOrd, sealedCount) := lift (validateDirectoryGeometry st) in
  match canonicalDirectoryPages sealedCount (p_FanoutBits (params st)) with
  | None => fail EDiverges
  | Some expectedPaths =>
    readNode (root st) ;;;
    if negb (covered st)
    then ret (mkEnum (params st) (root st) (syncedTo st) (covered st) [] [] (open st) 0)
    else
      validateSegment st gen (open st) openOrd (syncedTo st) true ;;;
      (if 0 <? dirDepth st then walkDir st gen (Z.to_nat (dirDepth st)) (dir st) 0 sealedCount ;;; ret tt
       else ret tt) ;;;
      paths <-- gets w_paths ;;
      fail_if negb (paths =? expectedPaths) with EInvalid "logical pages are not canonical" ;;
      current <-- gets (fun w => collectionGeneration cfg (w_h w)) ;;
      fail_if bool_decide (is_Some gen) && negb (bool_decide (current = gen))
        with EInvalid "collection generation changed" ;;
      modify (fun w => wset_h (set_structure (rememberSegments (structure (w_h w)) (w_newProofs w)) (w_h w)) w) ;;;
      w <-- gets id ;;
      ret (mkEnum (params st) (root st) (syncedTo st) (covered st) (w_dirPages w) (w_sealed w) (open st) openOrd)
  end.

(** The walker is local to the call; the head keeps its blockstore and cache. *)
Definition enumerate (cfg : @Config MH Sto) : M Eng Enumeration :=
  fun h =>
    let gen := collectionGeneration cfg h in
    let '(r, w) := enumerate_walk cfg (cur h) gen (walk0 h) in
    (r, w_h w).

(** Enumerate is enumerate under a context with a deadline. *)
Definition Enumerate (cfg : @Config MH Sto) : M Eng Enumeration := enumerate cfg.
End Enumerate.
