(* ===== verification/EnumerateCorrect.v ===== *)
(** Soundness of enumeration; see Enumerate.v for what it states. *)
From S2P Require Import Prelude Arith Cid Schema Core Engine EngineWorld Dir HeadModel Enumerate.

Section EnumerateCorrect.
Context `{MH : Multihash} `{CB : !DagCbor} {Sto : Type} `{BS : !Blockstore Sto} `{BO : !BlockstoreOk Sto}.
Context {L : Type} `{LR : !Lru CidV (AnyNode * Z) L}.
Local Abbreviation Eng := (@Engine MH Sto L).
Local Abbreviation walk := (@walk MH Sto L).

(** ** What the blocks say

    The content of a CID is what the block it addresses decodes to; it does not
    depend on any store. *)

Definition page_at (c : CidV) (p : DirNode) : Prop :=
  exists data, addresses c data /\ DecodeDirNode data = Ok p.

Definition shape_at (c : CidV) (pf : segmentProof) : Prop :=
  exists data seg, addresses c data /\ DecodeSegment data = Ok seg /\ segmentShape seg = Ok pf.

Lemma addresses_fun c a b : addresses c a -> addresses c b -> a = b.
Proof. intros Ha Hb. by eapply prefix_sum_inj. Qed.

Lemma page_at_fun c p q : page_at c p -> page_at c q -> p = q.
Proof. intros (a & Ha & Hp) (b & Hb & Hq). rewrite (addresses_fun c a b) in Hp by done. congruence. Qed.

(** The directory tree of depth [d] under [c] holds the entries [es]: a leaf page
    is the entries with trailing nulls left out, an inner page has one page per
    run of entries. *)
Fixpoint dir_holds (fb : Z) (d : nat) (c : CidV) (es : list Cid) : Prop :=
  match d with
  | O => False
  | S O => exists page, page_at c page /\ (length (Kids page) <= length es)%nat /\
             es = Kids page ++ replicate (length es - length (Kids page)) None
  | S (S _ as d') => exists page, page_at c page /\
             length (Kids page) = nchunks (capN fb d') (length es) /\
             forall i kid, Kids page !! i = Some kid ->
               exists kc, kid = Some kc /\ dir_holds fb d' kc (chunk (capN fb d') i es)
  end.

Definition nonnull (es : list Cid) : Z := len (filter (fun c => is_Some c) es).

(** The sealed Segments a list of entries stands for, from directory index [off]. *)
Fixpoint sealed_of (st : state) (off : Z) (es : list Cid) : list SealedSegment :=
  match es with
  | [] => []
  | None :: es' => sealed_of st (off + 1) es'
  | Some c :: es' =>
    let w := dirBase st + off in
    mkSealed c w (windowStart w (p_SegBits (params st))) (windowEnd w (p_SegBits (params st)))
    :: sealed_of st (off + 1) es'
  end.

Lemma sealed_of_app st off a b :
  sealed_of st off (a ++ b) = sealed_of st off a ++ sealed_of st (off + Z.of_nat (length a)) b.
Proof.
  revert off. induction a as [|[c|] a IH]; intros off; simpl.
  - f_equal. lia.
  - f_equal. rewrite IH. do 2 f_equal. lia.
  - rewrite IH. do 2 f_equal. lia.
Qed.

Lemma sealed_of_null st off n : sealed_of st off (replicate n None) = [].
Proof. revert off. induction n as [|n IH]; intros off; simpl; auto. Qed.

Lemma nonnull_app a b : nonnull (a ++ b) = nonnull a + nonnull b.
Proof. unfold nonnull, len. rewrite filter_app, length_app. lia. Qed.

Lemma nonnull_null n : nonnull (replicate n None) = 0.
Proof. unfold nonnull. rewrite filter_none; [done|]. apply Forall_replicate. by intros []. Qed.

Lemma nonnull_zero es : nonnull es = 0 -> es = replicate (length es) None.
Proof.
  unfold nonnull, len. induction es as [|[c|] es IH]; intros H; [done| |].
  - rewrite filter_cons_True in H by eauto. simpl in H. lia.
  - rewrite filter_cons_False in H by (by intros []). simpl. f_equal. auto.
Qed.

(** A sealed Segment at its place. *)
Definition placed (st : state) (s : SealedSegment) : Prop :=
  exists pf, shape_at (ss_CID s) pf /\
    checkPosition st pf (ss_Ord s) (windowEnd (ss_Ord s) (p_SegBits (params st))) false = Ok tt.

(** The block of [c] is in the head's store. *)
Definition in_store (h : Eng) (c : CidV) : Prop := exists data, bs_has (blocks h) c data /\ addresses c data.

(** A cached proof of the generation [gen] of the store is of a block still there. *)
Definition cache_live (gen : option Z) (h : Eng) : Prop :=
  forall c cp, structure h !! c = Some cp -> is_current gen cp = true -> in_store h c.

Lemma in_store_le h h' c : engine_le h h' -> in_store h c -> in_store h' c.
Proof. intros He (d & Hd & Ha). exists d. split; [by apply (le_has _ _ He)|done]. Qed.

(** ** The walker's invariant *)

Section Walk.
Context (gen : option Z).

(** The Segment was read, or its proof is cached for the generation of the walk. *)
Definition seen_at (h : Eng) (c : CidV) : Prop :=
  in_store h c \/ exists cp, structure h !! c = Some cp /\ is_current gen cp = true.

Lemma seen_le h h' c : engine_le h h' -> structure h' = structure h -> seen_at h c -> seen_at h' c.
Proof. intros He Hs [H|H]; [left; by eapply in_store_le|right; by rewrite Hs]. Qed.

Record winv (st : state) (w : walk) : Prop := {
  wi_nodes : forall c p, w_dirNodes w !! c = Some p -> page_at c p;
  wi_pages : forall c, c ∈ w_dirPages w <-> is_Some (w_dirNodes w !! c);
  wi_stored : forall c, c ∈ w_dirPages w -> in_store (w_h w) c;
  wi_nodup : NoDup (w_dirPages w);
  wi_memo : forall c (d : nat) e ps sg, w_dirMemo w !! (c, Z.of_nat d, e) = Some (ps, sg) ->
    exists es, dir_holds (p_FanoutBits (params st)) d c es /\ Z.of_nat (length es) = e /\ sg = nonnull es;
  wi_proofs : forall c cp, w_newProofs w !! c = Some cp -> shape_at c (cp_proof cp) /\ in_store (w_h w) c;
  wi_cache : forall c cp, structure (w_h w) !! c = Some cp -> shape_at c (cp_proof cp);
  wi_placed : Forall (placed st) (w_sealed w);
  wi_read : forall s, s ∈ w_sealed w -> seen_at (w_h w) (ss_CID s);
  wi_distinct : NoDup (ss_CID <$> w_sealed w);
  wi_seen : forall s, s ∈ w_sealed w -> is_Some (w_segments w !! ss_CID s);
  wi_outputs : w_outputs w = len (w_sealed w);
  wi_budget : w_outputs w <= MaxEnumerationOutputs }.

(** What every step of the walk keeps of the head. *)
Record wle (w w' : walk) : Prop := {
  wl_engine : engine_le (w_h w) (w_h w');
  wl_structure : structure (w_h w') = structure (w_h w);
  wl_segments : w_segments w ⊆ w_segments w' }.

#[global] Instance wle_pre : PreOrder wle.
Proof.
  split; [by split|]. intros a b c [? ? ?] [? ? ?]. split; [by etrans|congruence|by etrans].
Qed.

(** A step that leaves the output alone and keeps the invariant. *)
Definition quiet (st : state) (w w' : walk) : Prop := winv st w' /\ wle w w' /\ w_sealed w' = w_sealed w.

Lemma quiet_refl st w : winv st w -> quiet st w w.
Proof. by split. Qed.

Lemma quiet_trans st a b c : quiet st a b -> quiet st b c -> quiet st a c.
Proof. intros (_ & ? & E) (? & ? & E'). split; [done|]. split; [by etrans|congruence]. Qed.

(** Changes of the budget, the memo of active pages, or the store alone. *)
Lemma quiet_same st w w' :
  winv st w -> engine_le (w_h w) (w_h w') -> structure (w_h w') = structure (w_h w) ->
  w_dirNodes w' = w_dirNodes w -> w_dirPages w' = w_dirPages w -> w_dirMemo w' = w_dirMemo w ->
  w_newProofs w' = w_newProofs w -> w_sealed w' = w_sealed w -> w_segments w' = w_segments w ->
  w_outputs w' = w_outputs w -> quiet st w w'.
Proof.
  intros [] He Hs E1 E2 E3 E4 E5 E6 E7. split; [|split; [|done]].
  - split; rewrite ?E1, ?E2, ?E3, ?E4, ?E5, ?E6, ?E7, ?Hs; try done.
    + intros c Hc. eapply in_store_le; [done|auto].
    + intros c cp Hc. destruct (wi_proofs0 c cp Hc). split; [done|by eapply in_store_le].
    + intros s Hx. eapply seen_le; [done..|auto].
  - split; [done..|by rewrite E6].
Qed.

Lemma onHead_run {A} (m : M Eng A) (w : walk) r w' :
  onHead m w = (r, w') -> exists h', m (w_h w) = (r, h') /\ w' = wset_h h' w.
Proof. unfold onHead. destruct (m (w_h w)) as [r0 h']. intros [= <- <-]. eauto. Qed.

Lemma check_quiet st w u w' : winv st w -> check w = (Ok u, w') -> quiet st w w'.
Proof.
  intros HI (h' & (b & Hb & ->)%onBlocks_run & ->)%onHead_run. apply ctx_frame in Hb as [? ?]. by apply quiet_same.
Qed.

Lemma addUnique_quiet st c w f w' : winv st w -> addUnique c w = (Ok f, w') -> quiet st w w'.
Proof.
  intros HI H. unfold addUnique, gets, bind in H. case_bool_decide; [injection H as <- <-; by apply quiet_refl|].
  destruct (_ <=? _); [done|]. injection H as <- <-. by apply quiet_same.
Qed.

Lemma addPaths_quiet st n w u w' : winv st w -> addPaths n w = (Ok u, w') -> quiet st w w'.
Proof.
  intros HI H. unfold addPaths, gets, bind in H. destruct (_ <? _); [done|]. injection H as <- <-. by apply quiet_same.
Qed.

Lemma verifyBlockCID_ok c d : verifyBlockCID c d = Ok tt -> addresses c d.
Proof.
  unfold verifyBlockCID, addresses. destruct (prefix_sum _ d); [|done]. case_bool_decide; [|done]. by intros _; subst.
Qed.

Lemma readNode_quiet st c w data w' :
  winv st w -> readNode (Some c) w = (Ok data, w') ->
  quiet st w w' /\ addresses c data /\ bs_has (blocks (w_h w')) c data.
Proof.
  intros HI H. unfold readNode in H. apply bind_run_ok in H as (u & w1 & Hc & H).
  pose proof (check_quiet st w u w1 HI Hc) as Q1. destruct Q1 as (HI1 & ? & ?) eqn:EQ. clear EQ.
  apply bind_run_ok in H as (f & w2 & Hu & H). pose proof (addUnique_quiet st _ w1 f w2 HI1 Hu) as Q2.
  destruct f; [|done]. cbn [negb] in H. apply bind_run_ok in H as (d & w3 & Hg & H).
  destruct (MaxEnumerationNodeBytes <? len d); [done|]. apply bind_run_ok in H as (dec & w4 & Hd & H). injection Hd as <- <-.
  destruct (_ <? len d); [done|]. apply bind_run_ok in H as ([] & w5 & Hv & H). injection Hv as Hv <-.
  unfold modify, ret, bind in H. injection H as <- <-. apply onHead_run in Hg as (h' & Hg & ->).
  pose proof Hg as (b' & Hb & Eh)%onBlocks_run. apply get_frame in Hb as Hf. apply get_sound in Hb as (v & [= <-] & Ha & Hh).
  split; [|split; [done|by subst h']].
  eapply quiet_trans; [by split|]. eapply quiet_trans; [exact Q2|]. apply quiet_same; try (by subst h').
  - by destruct Q2.
  - subst h'. destruct Hf. by split.
Qed.

(** ** Segments *)

Lemma quiet_proof st w c cp : winv st w -> shape_at c (cp_proof cp) -> in_store (w_h w) c -> quiet st w (add_proof c cp w).
Proof.
  intros [] Hs Hh. split; [|by split]. split; simpl; try done.
  intros c' cp' [[<- <-]|[_ ?]]%lookup_insert_Some; eauto.
Qed.

Lemma segmentProofOf_run st c w pf w' :
  winv st w -> segmentProofOf gen c w = (Ok pf, w') -> quiet st w w' /\ shape_at c pf /\ seen_at (w_h w') c.
Proof.
  intros HI H. unfold segmentProofOf in H. apply bind_run_ok in H as (np & w0 & Hn & H). injection Hn as <- <-.
  apply bind_run_ok in H as (sc & w0 & Hs & H). injection Hs as <- <-.
  destruct (match w_newProofs w !! c with Some p => Some p | None => sc_segment (structure (w_h w)) c end) as [cp|] eqn:E.
  - assert (Hsh : shape_at c (cp_proof cp) /\ (seen_at (w_h w) c \/ is_current gen cp = false)).
    { destruct (w_newProofs w !! c) as [p|] eqn:Ep.
      - injection E as <-. destruct (wi_proofs st w HI _ _ Ep). split; [done|]. by left; left.
      - split; [by eapply (wi_cache st w HI)|]. destruct (is_current gen cp) eqn:Ec; [left; right; eauto|by right]. }
    destruct Hsh as [Hsh Hseen]. apply bind_run_ok in H as ([] & w1 & Hr & H). injection H as <- <-. destruct (is_current gen cp).
    + unfold addCachedUnique in Hr. apply bind_run_ok in Hr as ([] & w2 & Hc & Hr). pose proof (check_quiet st _ _ _ HI Hc) as Q.
      apply bind_run_ok in Hr as (f & w3 & Hu & Hr). injection Hr as <-.
      assert (Q' : quiet st w w3) by (eapply quiet_trans; [done|]; eapply addUnique_quiet; [apply Q|done]).
      split; [done|]. split; [done|]. destruct Hseen as [?|?]; [|done]. destruct Q' as (_ & [] & _). by eapply seen_le.
    + apply bind_run_ok in Hr as (d & w2 & Hd & Hr). injection Hr as <-.
      destruct (readNode_quiet st c w d w2 HI Hd) as (Q & Ha & Hb). assert (Hh : in_store (w_h w2) c) by (by exists d).
      split; [|split; [done|by left]]. eapply quiet_trans; [done|]. apply quiet_proof; [apply Q|done..].
  - apply bind_run_ok in H as (d & w1 & Hd & H). destruct (readNode_quiet st c w d w1 HI Hd) as (Q & Ha & Hb).
    apply bind_run_ok in H as (seg & w2 & Hs & H). injection Hs as Hs <-.
    apply bind_run_ok in H as (p & w3 & Hp & H). injection Hp as Hp <-. injection H as <- <-.
    assert (Hsh : shape_at c p) by (exists d, seg; done). assert (Hh : in_store (w_h w1) c) by (by exists d).
    split; [|split; [done|by left]]. eapply quiet_trans; [done|]. apply quiet_proof; [apply Q|done..].
Qed.

Lemma validateSegment_run st c win upper o w u w' :
  winv st w -> validateSegment st gen c win upper o w = (Ok u, w') ->
  quiet st w w' /\ exists cv pf, c = Some cv /\ w_segments w !! cv = None /\ is_Some (w_segments w' !! cv) /\
    shape_at cv pf /\ seen_at (w_h w') cv /\ checkPosition st pf win upper o = Ok tt.
Proof.
  intros HI H. unfold validateSegment in H. apply bind_run_ok in H as (v & w0 & Hv & H). injection Hv as _ <-.
  destruct c as [cv|]; [|done]. apply bind_run_ok in H as (sg & w0 & Hs & H). injection Hs as <- <-.
  destruct (w_segments w !! cv) eqn:Ecv; [done|]. apply bind_run_ok in H as ([] & w1 & Hm & H). injection Hm as <-.
  assert (Q0 : quiet st w (add_segment cv win w)).
  { destruct HI. split; [|split; [|done]].
    - split; simpl; try done. intros s Hs. destruct (decide (cv = ss_CID s)) as [->|]; [rewrite lookup_insert_eq; eauto|].
      rewrite lookup_insert_ne by done. auto.
    - split; simpl; try done. by apply insert_subseteq. }
  apply bind_run_ok in H as (pf & w2 & Hpf & H). apply (segmentProofOf_run st) in Hpf as (Q & Hsh & Hseen); [|apply Q0].
  injection H as Hc <-. split; [by eapply quiet_trans|]. exists cv, pf. split; [done|]. split; [done|]. split; [|split; [done|by destruct u]].
  apply (lookup_weaken_is_Some (w_segments (add_segment cv win w))); [simpl; rewrite lookup_insert_eq; eauto|]. apply Q.
Qed.

(** ** Pages *)

Lemma readNode_nodes c (w : walk) d w' : readNode c w = (Ok d, w') -> w_dirNodes w' = w_dirNodes w.
Proof.
  intros H. unfold readNode in H. apply bind_run_ok in H as (? & ? & (? & _ & ->)%onHead_run & H).
  apply bind_run_ok in H as (f & w2 & Hu & H). assert (w_dirNodes w2 = w_dirNodes w) as E2.
  { unfold addUnique, gets, bind in Hu. case_bool_decide; [by injection Hu as <- <-|]. destruct (_ <=? _); [done|]. by injection Hu as <- <-. }
  destruct f; [|done]. cbn [negb] in H. apply bind_run_ok in H as (? & ? & (? & _ & ->)%onHead_run & H).
  destruct (_ <? _); [done|]. apply bind_run_ok in H as (? & ? & [= <- <-] & H). destruct (_ <? _); [done|].
  destruct c as [c|]; [|done]. apply bind_run_ok in H as ([] & ? & [= _ <-] & H). by injection H as _ <-.
Qed.

Lemma readDir_run st c w page w' :
  winv st w -> readDir c w = (Ok page, w') -> quiet st w w' /\ page_at c page.
Proof.
  intros HI H. unfold readDir in H. apply bind_run_ok in H as (nd & w0 & Hn & H). injection Hn as <- <-.
  destruct (w_dirNodes w !! c) as [p|] eqn:Ec.
  { injection H as <- <-. split; [by apply quiet_refl|by eapply (wi_nodes st w HI)]. }
  apply bind_run_ok in H as (d & w1 & Hd & H). destruct (readNode_quiet st c w d w1 HI Hd) as (Q & Ha & Hh).
  apply bind_run_ok in H as (p & w2 & Hp & H). injection Hp as Hp <-. injection H as <- <-.
  assert (Hpg : page_at c p) by (by exists d). split; [|done]. eapply quiet_trans; [done|].
  assert (Hc1 : w_dirNodes w1 !! c = None) by (by rewrite (readNode_nodes _ _ _ _ Hd)).
  destruct Q as ([] & _ & _). split; [|by split]. split; simpl; try done.
  - intros c' p' [[<- <-]|[_ ?]]%lookup_insert_Some; eauto.
  - intros c'. rewrite elem_of_app, list_elem_of_singleton, wi_pages0.
    destruct (decide (c' = c)) as [->|Hne]; [rewrite lookup_insert_eq; split; eauto|].
    rewrite lookup_insert_ne by done. split; [intros [?|?]; done|by left].
  - intros c' [?| ->%list_elem_of_singleton]%elem_of_app; [eauto|by exists d].
  - apply NoDup_app. split; [done|]. split; [|apply NoDup_singleton].
    intros c' Hc' ->%list_elem_of_singleton. apply wi_pages0 in Hc' as [? ?]. congruence.
Qed.

(** ** The walk *)

(** A head whose windows fit the budget and 64 bits. *)
Record geom (st : state) (N : Z) : Prop := {
  ge_fan : fan_ok (p_FanoutBits (params st));
  ge_n : 0 <= N <= MaxEnumerationOutputs;
  ge_base : 0 <= dirBase st;
  ge_top : dirBase st + N < 2 ^ 64 }.

(** From [w] to [w'] the walk appended the Segments of [es]. *)
Definition yields (st : state) (off : Z) (es : list Cid) (w w' : walk) : Prop :=
  winv st w' /\ wle w w' /\ w_sealed w' = w_sealed w ++ sealed_of st off es.

Lemma quiet_yields st off w w' : quiet st w w' -> yields st off [] w w'.
Proof. intros (? & ? & E). split; [done|]. split; [done|]. by rewrite E, app_nil_r. Qed.

Lemma yields_trans st off a b x y z :
  yields st off a x y -> yields st (off + Z.of_nat (length a)) b y z -> yields st off (a ++ b) x z.
Proof.
  intros (_ & ? & E1) (? & ? & E2). split; [done|]. split; [by etrans|].
  by rewrite E2, E1, <- app_assoc, sealed_of_app.
Qed.

Lemma quiet_l st off es x y z : quiet st x y -> yields st off es y z -> yields st off es x z.
Proof. intros (_ & ? & E1) (? & ? & E2). split; [done|]. split; [by etrans|]. by rewrite E2, E1. Qed.

Lemma quiet_r st off es x y z : yields st off es x y -> quiet st y z -> yields st off es x z.
Proof. intros (_ & ? & E1) (? & ? & E2). split; [done|]. split; [by etrans|]. by rewrite E2, E1. Qed.

(** One output: the budget and the list move together. *)
Lemma emit_run st c off (w : walk) u w1 :
  let win := dirBase st + off in
  let s := mkSealed c win (windowStart win (p_SegBits (params st))) (windowEnd win (p_SegBits (params st))) in
  winv st w -> placed st s -> seen_at (w_h w) c -> is_Some (w_segments w !! c) -> c ∉ ss_CID <$> w_sealed w ->
  addOutput w = (Ok u, w1) -> yields st off [Some c] w (add_sealed s w1).
Proof.
  intros win s HI Hp Hat Hseen Hnew H. unfold addOutput, gets, bind in H.
  destruct (Z.leb_spec MaxEnumerationOutputs (w_outputs w)) as [|Hlt]; [done|]. injection H as _ <-.
  destruct HI. unfold yields, MaxEnumerationOutputs in *.
  assert (Hl : 0 <= w_outputs w) by (rewrite wi_outputs0; unfold len; lia).
  split; [|split; [by split|done]]. split; simpl; try done.
  - apply Forall_app. split; [done|by constructor].
  - intros x [Hx| ->%list_elem_of_singleton]%elem_of_app; [by apply wi_read0|done].
  - rewrite fmap_app. apply NoDup_app. split; [done|]. split; [|apply NoDup_singleton].
    intros x Hx ->%list_elem_of_singleton. done.
  - intros x [Hx| ->%list_elem_of_singleton]%elem_of_app; auto.
  - rewrite add64_small by (unfold is_u64; lia). rewrite wi_outputs0. unfold len. rewrite length_app. simpl. lia.
  - rewrite add64_small by (unfold is_u64; lia). unfold MaxEnumerationOutputs. lia.
Qed.

Lemma leafLoop_run st N off digit kids count w n w' :
  geom st N -> 0 <= off -> 0 <= digit -> off + digit + len kids <= N -> 0 <= count <= digit -> winv st w ->
  leafLoop st gen off digit kids count w = (Ok n, w') ->
  yields st (off + digit) kids w w' /\ n = count + nonnull kids.
Proof.
  intros HG Ho Hd Hb Hc HI. revert digit count w Hd Hb Hc HI. unfold len in *.
  induction kids as [|kid kids IH]; intros digit count w Hd Hb Hc HI H; cbn [leafLoop] in H.
  { injection H as <- <-. split; [by apply quiet_yields, quiet_refl|]. change (nonnull []) with 0. lia. }
  simpl length in Hb. pose proof (ge_n st N HG). unfold MaxEnumerationOutputs in *.
  apply bind_run_ok in H as (u & w1 & Hck & H). pose proof (check_quiet st _ _ _ HI Hck) as Q1.
  destruct kid as [c|].
  - pose proof (ge_base st N HG). pose proof (ge_top st N HG). rewrite (add64_small off), (add64_small (dirBase st)) in H by (unfold is_u64; lia).
    apply bind_run_ok in H as (u2 & w2 & Hv & H). destruct (validateSegment_run st _ _ _ _ _ _ _ (proj1 Q1) Hv)
      as (Q2 & cv & pf & [= <-] & Hnone & Hseen & Hsh & Hat & Hpos).
    apply bind_run_ok in H as (u3 & w3 & Ho3 & H). apply bind_run_ok in H as ([] & w4 & [= <-] & H).
    assert (HE : yields st (off + digit) [Some c] w2 (add_sealed (mkSealed c (dirBase st + (off + digit))
        (windowStart (dirBase st + (off + digit)) (p_SegBits (params st)))
        (windowEnd (dirBase st + (off + digit)) (p_SegBits (params st)))) w3)).
    { apply (emit_run st c (off + digit) w2 u3 w3); [apply Q2|by exists pf|done|done| |done].
      rewrite (proj2 (proj2 Q2)). intros (s & -> & Hs)%list_elem_of_fmap. apply (wi_seen st w1) in Hs as [? ?]; [congruence|apply Q1]. }
    rewrite (add64_small count) in H by (unfold is_u64; lia).
    apply IH in H as [HY ->]; [|lia..|apply HE]. split.
    + eapply quiet_l; [exact Q1|]. eapply quiet_l; [exact Q2|]. apply (yields_trans st _ [Some c] kids _ _ _ HE).
      by replace (off + digit + Z.of_nat (length [Some c])) with (off + (digit + 1)) by (simpl; lia).
    + unfold nonnull. rewrite filter_cons_True by eauto. unfold len. simpl. lia.
  - apply IH in H as [HY ->]; [|lia..|apply Q1]. split.
    + eapply quiet_l; [exact Q1|]. destruct HY as (? & ? & E). split; [done|]. split; [done|]. rewrite E. cbn [sealed_of].
      by replace (off + digit + 1) with (off + (digit + 1)) by lia.
    + unfold nonnull. by rewrite filter_cons_False by (by intros []).
Qed.

(** *** Inner pages *)

Lemma yields_nil st off off' w w' : yields st off [] w w' -> yields st off' [] w w'.
Proof. done. Qed.

Lemma nchunks_step cap m : (0 < cap)%nat -> (0 < m)%nat -> nchunks cap m = S (nchunks cap (m - cap)).
Proof.
  intros Hc Hm. unfold nchunks. destruct (decide (cap <= m)%nat).
  - replace (m + cap - 1)%nat with ((m - cap + cap - 1) + 1 * cap)%nat by lia. rewrite Nat.div_add by lia. lia.
  - replace (m - cap)%nat with 0%nat by lia. rewrite (Nat.div_small (0 + cap - 1)) by lia.
    replace (m + cap - 1)%nat with ((m - 1) + 1 * cap)%nat by lia. rewrite Nat.div_add, Nat.div_small by lia. done.
Qed.

Lemma nchunks_0 cap : (0 < cap)%nat -> nchunks cap 0 = 0%nat.
Proof. intros. unfold nchunks. apply Nat.div_small. lia. Qed.

(** The run of entries a child covers, at 64 bits with a saturating capacity. *)
Lemma child_arith fb d (i n : nat) :
  fan_ok fb -> (d <= 64)%nat -> (i * capN fb d < n)%nat -> Z.of_nat n <= MaxEnumerationOutputs ->
  let cc := capacity (Z.of_nat d) fb in
  mul64 (Z.of_nat i) cc = Z.of_nat (i * capN fb d) /\
  (let e := sub64 (Z.of_nat n) (mul64 (Z.of_nat i) cc) in if cc <? e then cc else e)
  = Z.of_nat (Nat.min (capN fb d) (n - i * capN fb d)).
Proof.
  intros Hf Hd Hi Hn. unfold MaxEnumerationOutputs in *. pose proof Hf as [Hf1 Hf2].
  pose proof (capN_Z fb d ltac:(lia)) as Hcap. pose proof (capN_pos fb d ltac:(lia)) as Hpos. cbv zeta.
  assert (Hm : mul64 (Z.of_nat i) (capacity (Z.of_nat d) fb) = Z.of_nat (i * capN fb d)).
  { destruct i as [|i]; [by rewrite Nat.mul_0_l|].
    assert (Hlt : Z.of_nat (capN fb d) < 2 ^ 20) by nia.
    rewrite capacity_exact; [|by split|].
    - rewrite <- Hcap. rewrite mul64_small; [lia|]. unfold is_u64. nia.
    - destruct (Z_lt_dec (fb * Z.of_nat d) 64); [done|].
      assert (2 ^ 64 <= 2 ^ (fb * Z.of_nat d)) by (apply Z.pow_le_mono_r; lia). lia. }
  rewrite Hm. split; [done|]. rewrite sub64_small by (unfold is_u64; lia).
  destruct (Z_lt_dec (fb * Z.of_nat d) 64) as [Hs|Hs].
  - rewrite capacity_exact by done. rewrite <- Hcap. destruct (Z.ltb_spec (Z.of_nat (capN fb d)) (Z.of_nat n - Z.of_nat (i * capN fb d))); lia.
  - rewrite capacity_sat by (done || lia). assert (2 ^ 64 <= 2 ^ (fb * Z.of_nat d)) by (apply Z.pow_le_mono_r; lia).
    unfold maxUint64. destruct (Z.ltb_spec (2 ^ 64 - 1) (Z.of_nat n - Z.of_nat (i * capN fb d))); lia.
Qed.

(** What walking one page position of depth [d] is to establish. *)
Definition walks (st : state) (N : Z) (d : nat) (sub : Cid -> Z -> Z -> M walk (Z * Z)) : Prop :=
  forall kid off (n : nat) w r w',
    0 <= off -> (0 < n)%nat -> (n <= capN (p_FanoutBits (params st)) d)%nat -> off + Z.of_nat n <= N -> winv st w ->
    sub kid off (Z.of_nat n) w = (Ok r, w') ->
    exists kc es, kid = Some kc /\ dir_holds (p_FanoutBits (params st)) d kc es /\ length es = n /\
      yields st off es w w' /\ snd r = nonnull es.

Lemma chunk_0 {A} cap (a b : list A) :
  (length a = cap \/ (length a <= cap)%nat /\ b = []) -> chunk cap 0 (a ++ b) = a.
Proof.
  unfold chunk. rewrite Nat.mul_0_l, drop_0. intros [<-|[? ->]]; [apply take_app_length|].
  rewrite app_nil_r. by apply take_ge.
Qed.

Lemma chunk_S {A} cap j (a b : list A) :
  (length a = cap \/ (length a <= cap)%nat /\ b = []) -> chunk cap (S j) (a ++ b) = chunk cap j b.
Proof.
  unfold chunk. intros [<-|[? ->]]; f_equal.
  - rewrite drop_app, drop_ge by lia. simpl. f_equal. lia.
  - rewrite app_nil_r, drop_nil. apply drop_ge. lia.
Qed.

Lemma nonnull_bound es : 0 <= nonnull es <= Z.of_nat (length es).
Proof. unfold nonnull, len. pose proof (length_filter (fun c : Cid => is_Some c) es). lia. Qed.

Lemma innerLoop_run st N d sub off (i n : nat) kids count w r w' :
  let fb := p_FanoutBits (params st) in
  geom st N -> (d <= 64)%nat -> walks st N d sub -> 0 <= off -> off + Z.of_nat n <= N ->
  length kids = nchunks (capN fb d) (n - i * capN fb d) -> 0 <= count <= Z.of_nat (i * capN fb d) -> winv st w ->
  innerLoop sub (capacity (Z.of_nat d) fb) off (Z.of_nat n) (Z.of_nat i) kids count w = (Ok r, w') ->
  exists es, length es = (n - i * capN fb d)%nat /\ yields st (off + Z.of_nat (i * capN fb d)) es w w' /\
    r = count + nonnull es /\
    forall j kid, kids !! j = Some kid -> exists kc, kid = Some kc /\ dir_holds fb d kc (chunk (capN fb d) j es).
Proof.
  intros fb HG Hd Hsub Hoff HN. pose proof (capN_pos fb d ltac:(destruct (ge_fan st N HG); lia)) as Hcap.
  pose proof (ge_n st N HG) as HNb. revert i count w. induction kids as [|kid kids IH]; intros i count w Hlen Hcnt HI H; cbn [innerLoop] in H.
  { injection H as <- <-. exists []. assert (n - i * capN fb d = 0)%nat as ->.
    { destruct (n - i * capN fb d)%nat as [|m]; [done|]. rewrite nchunks_step in Hlen by lia. done. }
    split; [done|]. split; [by apply quiet_yields, quiet_refl|]. split; [change (nonnull []) with 0; lia|done]. }
  assert (Hi : (i * capN fb d < n)%nat).
  { destruct (decide (i * capN fb d < n)%nat); [done|]. replace (n - i * capN fb d)%nat with 0%nat in Hlen by lia.
    by rewrite nchunks_0 in Hlen. }
  rewrite nchunks_step in Hlen by lia. simpl in Hlen. injection Hlen as Hlen.
  destruct kid as [kc|]; [|done]. cbn [negb Defined] in H.
  destruct (child_arith fb d i n (ge_fan st N HG) Hd Hi ltac:(lia)) as [Hmul Hmin]. cbv zeta in Hmin. rewrite Hmin, Hmul in H.
  assert (Hio : add64 off (Z.of_nat (i * capN fb d)) = off + Z.of_nat (i * capN fb d)).
  { apply add64_small. unfold is_u64, MaxEnumerationOutputs in *. lia. }
  rewrite Hio in H. apply bind_run_ok in H as (sm & w1 & Hk & H).
  destruct (Hsub (Some kc) (off + Z.of_nat (i * capN fb d)) (Nat.min (capN fb d) (n - i * capN fb d)) w sm w1)
    as (kc' & es1 & [= <-] & Hh & Hl1 & Hy1 & Hs); [lia|lia|apply Nat.le_min_l|lia|done|done|].
  rewrite Hs in H. pose proof (nonnull_bound es1).
  rewrite add64_small in H by (unfold is_u64, MaxEnumerationOutputs in *; lia).
  replace (Z.of_nat i + 1) with (Z.of_nat (S i)) in H by lia.
  apply IH in H as (es2 & Hl2 & Hy2 & -> & Hk2); [|rewrite Hlen; f_equal; lia|lia|apply Hy1].
  assert (Hsplit : length es1 = capN fb d \/ (length es1 <= capN fb d)%nat /\ es2 = []).
  { destruct (decide (capN fb d <= n - i * capN fb d)%nat); [left; lia|right]. split; [lia|]. apply length_zero_iff_nil. lia. }
  exists (es1 ++ es2). split; [rewrite length_app; lia|]. split; [|split].
  - eapply yields_trans; [exact Hy1|]. destruct Hsplit as [E|[_ ->]]; [|by eapply yields_nil].
    rewrite E. by replace (off + Z.of_nat (i * capN fb d) + Z.of_nat (capN fb d)) with (off + Z.of_nat (S i * capN fb d)) by lia.
  - rewrite nonnull_app. lia.
  - intros [|j] kid Hj; simpl in Hj.
    + injection Hj as <-. exists kc. split; [done|]. by rewrite chunk_0.
    + destruct (Hk2 j kid Hj) as (kc' & -> & ?). exists kc'. split; [done|]. by rewrite chunk_S.
Qed.

(** The number of pages the code expects under an inner page. *)
Lemma expectedKids_nchunks fb d (n : nat) :
  fan_ok fb -> (d <= 64)%nat -> (0 < n)%nat -> Z.of_nat n <= MaxEnumerationOutputs ->
  let cc := capacity (Z.of_nat d) fb in
  (if cc <? Z.of_nat n then 1 + (Z.of_nat n - 1) / cc else 1) = Z.of_nat (nchunks (capN fb d) n).
Proof.
  intros Hf Hd Hn Hb. cbv zeta. unfold MaxEnumerationOutputs in *. pose proof Hf as [Hf1 Hf2].
  pose proof (capN_Z fb d ltac:(lia)) as Hcap. pose proof (capN_pos fb d ltac:(lia)) as Hpos.
  pose proof (capacity_le d fb (Z.of_nat n) Hf Hd ltac:(unfold is_u64; lia)) as Hle.
  destruct (Z.ltb_spec (capacity (Z.of_nat d) fb) (Z.of_nat n)) as [Hlt|Hge].
  - assert (Hex : capacity (Z.of_nat d) fb = Z.of_nat (capN fb d)).
    { rewrite Hcap. apply capacity_exact; [done|]. destruct (Z_lt_dec (fb * Z.of_nat d) 64); [done|].
      rewrite capacity_sat in Hlt by (done || lia). unfold maxUint64 in Hlt. lia. }
    rewrite Hex. unfold nchunks. replace (n + capN fb d - 1)%nat with ((n - 1) + 1 * capN fb d)%nat by lia.
    rewrite Nat.div_add by lia. rewrite Nat2Z.inj_add, Nat2Z.inj_div. replace (Z.of_nat (n - 1)) with (Z.of_nat n - 1) by lia. lia.
  - rewrite (proj2 (nchunks_one (capN fb d) n Hpos Hn)); [done|]. apply Hle in Hge. lia.
Qed.

Lemma memo_add st w c (d : nat) (n : nat) ps es :
  winv st w -> dir_holds (p_FanoutBits (params st)) d c es -> length es = n ->
  quiet st w (add_memo (c, Z.of_nat d, Z.of_nat n) (ps, nonnull es) w).
Proof.
  intros [] Hh Hl. split; [|by split]. split; simpl; try done.
  intros c' d' e ps' sg [[E1 E2]|[_ ?]]%lookup_insert_Some; [|eauto].
  injection E1 as <- Hd <-. injection E2 as _ <-. apply Nat2Z.inj in Hd as <-. exists es. split; [done|]. by subst n.
Qed.

(** The body of a page position whose page was read. *)
Definition page_body (st : state) (gen : option Z) (d' : nat) (page : DirNode) (off entries : Z) : M walk Z :=
  match d' with
  | O =>
    let fanout := shl64 1 (p_FanoutBits (params st)) in
    let maxKids := if fanout <? entries then fanout else entries in
    fail_if maxKids <? len (Kids page) with EInvalid "leaf page has too many kids" ;;
    leafLoop st gen off 0 (Kids page) 0
  | S _ =>
    let childCap := capacity (Z.of_nat (S d') - 1) (p_FanoutBits (params st)) in
    let expectedKids := if childCap <? entries then 1 + (entries - 1) / childCap else 1 in
    fail_if negb (len (Kids page) =? expectedKids) with EInvalid "internal page kids" ;;
    innerLoop (walkDir st gen d') childCap off entries 0 (Kids page) 0
  end.

Lemma page_body_run st N d' c page off (n : nat) w r w' :
  geom st N -> (d' < 64)%nat -> ((0 < d')%nat -> walks st N d' (walkDir st gen d')) ->
  0 <= off -> (0 < n)%nat -> off + Z.of_nat n <= N ->
  page_at c page -> winv st w -> page_body st gen d' page off (Z.of_nat n) w = (Ok r, w') ->
  exists es, dir_holds (p_FanoutBits (params st)) (S d') c es /\ length es = n /\ yields st off es w w' /\ r = nonnull es.
Proof.
  intros HG Hd Hsub Hoff Hn HN Hpg HI H. pose proof (ge_n st N HG) as HNb. destruct d' as [|d']; cbn [page_body] in H.
  - set (maxKids := if shl64 1 (p_FanoutBits (params st)) <? Z.of_nat n then _ else _) in H.
    assert (Hmax : maxKids <= Z.of_nat n) by (unfold maxKids; destruct (Z.ltb_spec (shl64 1 (p_FanoutBits (params st))) (Z.of_nat n)); lia).
    destruct (Z.ltb_spec maxKids (len (Kids page))) as [|Hle]; [done|]. unfold len in Hle.
    destruct (leafLoop_run st N off 0 (Kids page) 0 w r w') as [HY ->]; try (done || lia).
    { unfold len. lia. }
    exists (Kids page ++ replicate (n - length (Kids page)) None). split; [|split; [|split]].
    + exists page. rewrite length_app, length_replicate. split; [done|]. split; [lia|]. do 2 f_equal. lia.
    + rewrite length_app, length_replicate. lia.
    + rewrite Z.add_0_r in HY. destruct HY as (? & ? & E). split; [done|]. split; [done|].
      by rewrite E, sealed_of_app, sealed_of_null, app_nil_r.
    + rewrite nonnull_app, nonnull_null. lia.
  - replace (Z.of_nat (S (S d')) - 1) with (Z.of_nat (S d')) in H by lia. cbv zeta in H.
    rewrite expectedKids_nchunks in H by (apply (ge_fan st N HG) || lia).
    destruct (Z.eqb_spec (len (Kids page)) (Z.of_nat (nchunks (capN (p_FanoutBits (params st)) (S d')) n))) as [E|]; [|done].
    unfold len in E. apply Nat2Z.inj in E. cbn [negb] in H.
    destruct (innerLoop_run st N (S d') (walkDir st gen (S d')) off 0 n (Kids page) 0 w r w') as (es & Hl & HY & -> & Hk);
      try (done || lia).
    { apply Hsub. lia. }
    { by rewrite Nat.mul_0_l, Nat.sub_0_r. }
    rewrite Nat.mul_0_l, Nat.sub_0_r in Hl. rewrite Nat.mul_0_l, Z.add_0_r in HY.
    exists es. split; [|done]. exists page. split; [done|]. by rewrite Hl.
Qed.

Lemma walkDir_walks st N d :
  geom st N -> (0 < d <= 64)%nat -> walks st N d (walkDir st gen d).
Proof.
  intros HG. induction d as [|d' IH]; [lia|]. intros Hd node off n w r w' Hoff Hn Hcap HN HI H.
  set (depth := Z.of_nat (S d')) in *.
  change (walkDir st gen (S d') node off (Z.of_nat n)) with
    (check ;;; (if negb (Defined node) then fail (EInvalid "directory page is null") else
     lift (validateIndexCID node) ;;;
     match node with
     | None => fail (EInvalid "directory page is null")
     | Some key =>
       memo <-- gets w_dirMemo ;;
       match memo !! (key, depth, Z.of_nat n) with
       | Some summary =>
         fail_if negb (snd summary =? 0) with EInvalid "non-empty subtree is shared" ;;
         addPaths (fst summary) ;;; ret summary
       | None =>
         active <-- gets w_dirActive ;;
         fail_if default false (active !! key) with EInvalid "directory subtree is cyclic" ;;
         contains <-- gets w_dirContains ;;
         fail_if default false (contains !! key) with EInvalid "non-empty subtree is shared" ;;
         startPaths <-- gets w_paths ;;
         addPaths 1 ;;;
         page <-- readDir key ;;
         modify (fun w => wset_active (<[key := true]> (w_dirActive w)) w) ;;;
         finally (segmentCount <-- page_body st gen d' page off (Z.of_nat n) ;;
                  paths <-- gets w_paths ;;
                  modify (add_memo (key, depth, Z.of_nat n) (sub64 paths startPaths, segmentCount)) ;;;
                  ret (sub64 paths startPaths, segmentCount))
                 (fun w => wset_active (delete key (w_dirActive w)) w)
       end
     end) : M walk (Z * Z)) in H.
  apply bind_run_ok in H as (u & w1 & Hck & H). pose proof (check_quiet st _ _ _ HI Hck) as Q1.
  destruct node as [key|]; [|done]. cbn [negb Defined] in H. apply bind_run_ok in H as (u2 & w2 & Hv & H). injection Hv as _ <-.
  apply bind_run_ok in H as (memo & w2 & Hm & H). injection Hm as <- <-. exists key.
  destruct (w_dirMemo w1 !! (key, depth, Z.of_nat n)) as [[ps sg]|] eqn:Em.
  - destruct (Z.eqb_spec sg 0) as [->|]; cbn [snd negb fst] in H; [|by destruct (Z.eqb_spec sg 0)].
    apply bind_run_ok in H as (u3 & w3 & Ha & H). injection H as <- <-.
    pose proof (addPaths_quiet st _ _ _ _ (proj1 Q1) Ha) as Q2.
    destruct (wi_memo st w1 (proj1 Q1) key (S d') (Z.of_nat n) ps 0 Em) as (es & Hh & Hl & Hz). apply Nat2Z.inj in Hl.
    exists es. split; [done|]. split; [done|]. split; [done|]. split; [|done].
    destruct (quiet_trans _ _ _ _ Q1 Q2) as (? & ? & E). split; [done|]. split; [done|].
    rewrite (nonnull_zero es) by done. by rewrite sealed_of_null, app_nil_r.
  - apply bind_run_ok in H as (act & w2 & Ha & H). injection Ha as <- <-. destruct (default false _); [done|].
    apply bind_run_ok in H as (con & w2 & Ha & H). injection Ha as <- <-. destruct (default false _); [done|].
    apply bind_run_ok in H as (sp & w2 & Ha & H). injection Ha as <- <-.
    apply bind_run_ok in H as (u3 & w3 & Ha & H). pose proof (addPaths_quiet st _ _ _ _ (proj1 Q1) Ha) as Q2.
    apply bind_run_ok in H as (page & w4 & Hr & H). destruct (readDir_run st _ _ _ _ (proj1 Q2) Hr) as [Q3 Hpg].
    apply bind_run_ok in H as ([] & w5 & Hmod & H). injection Hmod as <-.
    set (w5 := wset_active _ w4) in H. assert (Q4 : quiet st w4 w5) by (apply quiet_same; done || apply Q3).
    unfold finally in H. destruct (bind _ _ w5) as [r0 w6] eqn:Hb. injection H as -> <-.
    apply bind_run_ok in Hb as (sc & w7 & Hbody & Hb).
    destruct (page_body_run st N d' key page off n w5 sc w7) as (es & Hh & Hl & HY & ->); try (done || lia).
    { intros. apply IH. lia. } { apply Q4. }
    apply bind_run_ok in Hb as (ps & w8 & Hp & Hb). injection Hp as <- <-. injection Hb as <- <-.
    exists es. split; [done|]. split; [done|]. split; [done|]. split; [|done].
    eapply quiet_l; [exact Q1|]. eapply quiet_l; [exact Q2|]. eapply quiet_l; [exact Q3|]. eapply quiet_l; [exact Q4|].
    assert (Q5 := memo_add st w7 key (S d') n (sub64 (w_paths w7) (w_paths w1)) es (proj1 HY) Hh Hl).
    eapply quiet_r; [exact HY|]. eapply quiet_trans; [exact Q5|]. apply quiet_same; done || apply Q5.
Qed.

(** ** The result *)

Lemma DecodeSegment_rows b s : DecodeSegment b = Ok s -> rows_ok (Slot0 s) None (Rows s).
Proof.
  unfold DecodeSegment. intros H. apply rbind_ok in H as (n & _ & H). apply rbind_ok in H as (f & _ & H).
  apply rbind_ok in H as (v & _ & H). apply rbind_ok in H as (s0 & _ & H).
  destruct (field f "rows"); try done. apply rbind_ok in H as (rows & _ & H). apply rbind_ok in H as ([] & Hv & H).
  injection H as <-. by apply validateRows_ok in Hv.
Qed.

(** Ascending rows lie between their first and their last. *)
Lemma rows_ok_first s0 prev rows r : rows_ok s0 prev rows -> r ∈ rows -> from_option Slot 0 (head rows) <= Slot r.
Proof.
  intros H. induction H as [|prev r0 rows _ _ _ _ Hr IH]; [by intros ?%not_elem_of_nil|]. simpl.
  intros [->|Hin]%elem_of_cons; [lia|]. specialize (IH Hin). destruct rows as [|r1 rows]; [by apply not_elem_of_nil in Hin|].
  inversion Hr as [|? ? ? Hlt]; subst. specialize (Hlt _ eq_refl). simpl in IH. lia.
Qed.

Lemma rows_ok_last s0 prev rows r : rows_ok s0 prev rows -> r ∈ rows -> Slot r <= from_option Slot 0 (last rows).
Proof.
  intros H. revert r. induction H as [|prev r0 rows _ _ _ _ Hr IH]; intros r; [by intros ?%not_elem_of_nil|].
  destruct rows as [|r1 rows]; [intros ->%list_elem_of_singleton; simpl; lia|].
  assert (E : last (r0 :: r1 :: rows) = last (r1 :: rows)) by done. rewrite E.
  intros [->|Hin]%elem_of_cons; [|by apply IH]. specialize (IH r1 ltac:(by left)).
  inversion Hr as [|? ? ? Hlt]; subst. specialize (Hlt _ eq_refl). lia.
Qed.

Lemma checkLinks_ok es : checkLinks es = Ok tt -> Forall (fun e => validateBlobCID (Blob e) = Ok tt) es.
Proof. induction es as [|e es IH]; [constructor|]. simpl. intros ([] & ? & ?)%rbind_ok. constructor; auto. Qed.

Lemma checkRowLinks_ok rows : checkRowLinks rows = Ok tt ->
  Forall (fun r => Forall (fun e => validateBlobCID (Blob e) = Ok tt) (Entries r)) rows.
Proof.
  induction rows as [|r rows IH]; [constructor|]. simpl. intros ([] & ?%checkLinks_ok & ?)%rbind_ok. constructor; auto.
Qed.

(** The Segment stored under [c] is the one of the window that starts at [first]: its
    rows lie in it, not before the origin and not after [upper], and they link
    blobs. *)
Definition in_window (st : state) (h : Eng) (c : CidV) (first upper : Z) (nonempty : bool) : Prop :=
  exists data seg, bs_has (blocks h) c data /\ addresses c data /\ DecodeSegment data = Ok seg /\ Slot0 seg = first /\
    (nonempty = true -> Rows seg <> []) /\
    Forall (fun r => first <= Slot r <= upper /\ p_OriginSlot (params st) <= Slot r /\
                     Forall (fun e => validateBlobCID (Blob e) = Ok tt) (Entries r)) (Rows seg).

Lemma position_in_window st h c pf win upper o :
  in_store h c -> shape_at c pf -> checkPosition st pf win upper o = Ok tt ->
  in_window st h c (windowStart win (p_SegBits (params st))) upper (negb o).
Proof.
  intros (data' & Hb & Ha') (data & seg & Ha & Hd & Hs) Hp. rewrite (addresses_fun c data' data) in Hb by done.
  exists data, seg. do 3 (split; [done|]).
  pose proof (DecodeSegment_rows _ _ Hd) as Hrows. unfold segmentShape in Hs. apply rbind_ok in Hs as ([] & Hlinks & [= <-]).
  apply checkRowLinks_ok in Hlinks. unfold checkPosition in Hp. cbn in Hp.
  set (ws := windowStart win (p_SegBits (params st))) in *.
  destruct (Z.eqb_spec (Slot0 seg) ws) as [E0|]; [|done]. cbn [negb] in Hp. split; [done|].
  destruct (negb o && (len (Rows seg) =? 0)) eqn:Eo; [done|]. split.
  { intros Ho Hnil. rewrite Ho, Hnil in Eo. done. }
  apply Forall_forall. intros r Hr. rewrite Forall_forall in Hlinks. specialize (Hlinks r Hr).
  pose proof (rows_ok_first _ _ _ r Hrows Hr). pose proof (rows_ok_last _ _ _ r Hrows Hr).
  assert (Hpos : (0 <? len (Rows seg)) = true).
  { apply Z.ltb_lt. unfold len. destruct (Rows seg); [by apply not_elem_of_nil in Hr|simpl; lia]. }
  rewrite Hpos in Hp. cbn [andb] in Hp.
  destruct (Z.ltb_spec (from_option Slot 0 (head (Rows seg))) (if ws <? p_OriginSlot (params st) then p_OriginSlot (params st) else ws)); [done|].
  destruct (Z.ltb_spec upper (from_option Slot 0 (last (Rows seg)))); [done|].
  split; [|split; [|done]]; destruct (Z.ltb_spec ws (p_OriginSlot (params st))); lia.
Qed.

(** The parameters Load accepts, at 64 bits. *)
Record state_ok (st : state) : Prop := {
  so_fan : fan_ok (p_FanoutBits (params st));
  so_seg : seg_ok (p_SegBits (params st));
  so_origin : is_u64 (p_OriginSlot (params st));
  so_synced : is_u64 (syncedTo st);
  so_depth : 0 <= dirDepth st }.

Definition cache_sound (h : Eng) : Prop :=
  forall c cp, structure h !! c = Some cp -> shape_at c (cp_proof cp).

Lemma geometry_inv st ow n :
  state_ok st -> covered st = true -> validateDirectoryGeometry st = Ok (ow, n) ->
  ow = ord (syncedTo st + 1) (p_SegBits (params st)) /\ n = ow - dirBase st /\ geom st n /\
  dirDepth st = canonicalDepth n (p_FanoutBits (params st)).
Proof.
  intros [] Hc H. unfold validateDirectoryGeometry in H. rewrite Hc in H. cbn [negb] in H.
  destruct (Z.eqb_spec (syncedTo st) maxUint64) as [|Hm]; [done|]. unfold maxUint64 in Hm. unfold is_u64 in *.
  rewrite add64_small in H by (unfold is_u64; lia). set (o := ord (syncedTo st + 1) (p_SegBits (params st))) in *.
  destruct (Z.ltb_spec o (dirBase st)); [done|].
  destruct (Z.ltb_spec MaxEnumerationOutputs (o - dirBase st)); [done|].
  destruct (Z.eqb_spec (dirDepth st) (canonicalDepth (o - dirBase st) (p_FanoutBits (params st)))) as [Ed|]; [|done]. cbn [negb] in H.
  destruct (canonicalDirectoryPages _ _) as [paths|]; [|done]. destruct (MaxEnumerationPaths <? paths); [done|].
  destruct (_ || _); [done|]. injection H as <- <-. split; [done|]. split; [done|]. split; [|done].
  pose proof (ord_u64 (syncedTo st + 1) (p_SegBits (params st)) so_seg0 ltac:(unfold is_u64; lia)) as Ho.
  pose proof (ord_u64 (p_OriginSlot (params st)) (p_SegBits (params st)) so_seg0 so_origin0) as Hb.
  fold o in Ho. unfold is_u64, dirBase in *. split; [done|unfold dirBase; lia..].
Qed.

Lemma winv0 st h : cache_sound h -> winv st (walk0 h).
Proof.
  intros Hc. split; simpl; try done; try (by intros ? []%not_elem_of_nil); try constructor.
  - by intros ?%not_elem_of_nil.
  - by intros [? ?].
Qed.

Lemma rememberSegments_from c proofs k cp :
  rememberSegments c proofs !! k = Some cp -> c !! k = Some cp \/ proofs !! k = Some cp.
Proof.
  unfold rememberSegments. destruct (_ =? 0); [by left|].
  set (c0 := if _ <? _ then ∅ else c). intros H. assert (H0 : c0 !! k = Some cp \/ proofs !! k = Some cp); cycle 1.
  { destruct H0 as [H0|H0]; [left|by right]. unfold c0 in H0. by destruct (_ <? _). }
  clearbody c0. revert H. apply (map_fold_weak_ind (fun c m => c !! k = Some cp -> c0 !! k = Some cp \/ m !! k = Some cp)); [by left|].
  intros i x m c1 Hi IH H. apply (lookup_insert_Some (M := gmap CidV)) in H as [[<- <-]|[Hne H]].
  - right. apply lookup_insert_eq.
  - rewrite lookup_insert_ne by done. auto.
Qed.

(** The walk from the directory root. *)
Lemma walkRoot_run st n w u w' :
  geom st n -> dirDepth st = canonicalDepth n (p_FanoutBits (params st)) -> winv st w ->
  (if 0 <? dirDepth st then walkDir st gen (Z.to_nat (dirDepth st)) (dir st) 0 n ;;; ret tt else ret tt) w = (Ok u, w') ->
  exists es, Z.of_nat (length es) = n /\ yields st 0 es w w' /\
    (es = [] \/ exists c, dir st = Some c /\ dir_holds (p_FanoutBits (params st)) (Z.to_nat (dirDepth st)) c es).
Proof.
  intros HG Hd HI H. pose proof (ge_n st n HG) as Hn. unfold MaxEnumerationOutputs in Hn.
  destruct (decide (n = 0)) as [->|Hne].
  { rewrite Hd in H. change (canonicalDepth 0 (p_FanoutBits (params st))) with 0 in H. cbn [Z.ltb Z.compare] in H. injection H as _ <-.
    exists []. split; [done|]. split; [by apply quiet_yields, quiet_refl|by left]. }
  destruct (canon_depth_spec (p_FanoutBits (params st)) (Z.to_nat n)) as (d & Hcd & Hd64 & Hcap & _);
    [apply HG|unfold is_u64; lia|lia|].
  unfold canon_depth in Hcd. rewrite Z2Nat.id in Hcd by lia. rewrite <- Hd in Hcd.
  rewrite Hcd, (proj2 (Z.ltb_lt _ _)) in H by lia. rewrite Nat2Z.id in H.
  apply bind_run_ok in H as (r & w1 & Hw & H). injection H as _ <-.
  replace n with (Z.of_nat (Z.to_nat n)) in Hw by lia.
  apply (walkDir_walks st n (S d) HG ltac:(lia)) in Hw as (c & es & Hdir & Hh & Hl & HY & _); [|lia..|done].
  exists es. split; [lia|]. split; [done|]. right. exists c. rewrite Hcd, Nat2Z.id. done.
Qed.

End Walk.

(** What a successful enumeration of a covered head lists. *)
Record listed (st : state) (e : Enumeration) (es : list Cid) : Prop := {
  li_count : Z.of_nat (length es) = ord (syncedTo st + 1) (p_SegBits (params st)) - dirBase st;
  li_dir : es = [] \/ exists c, dir st = Some c /\
    dir_holds (p_FanoutBits (params st)) (Z.to_nat (dirDepth st)) c es;
  li_sealed : en_Sealed e = sealed_of st 0 es;
  li_distinct : NoDup (ss_CID <$> en_Sealed e);
  li_budget : len (en_Sealed e) <= MaxEnumerationOutputs;
  li_link : en_Open e = open st;
  li_open : en_OpenOrd e = ord (syncedTo st + 1) (p_SegBits (params st)) }.

(** All of it is in the store: the pages, the sealed Segments and the open one are there
    under their CIDs and decode, the Segments to rows of their windows. *)
Record admitted (st : state) (h' : Eng) (e : Enumeration) : Prop := {
  ad_windows : Forall (fun s => in_window st h' (ss_CID s) (windowStart (ss_Ord s) (p_SegBits (params st)))
                                  (windowEnd (ss_Ord s) (p_SegBits (params st))) true) (en_Sealed e);
  ad_pages : NoDup (en_DirPages e) /\
    forall c, c ∈ en_DirPages e -> exists data page, bs_has (blocks h') c data /\ addresses c data /\ DecodeDirNode data = Ok page;
  ad_open : exists c, en_Open e = Some c /\
    in_window st h' c (windowStart (en_OpenOrd e) (p_SegBits (params st))) (syncedTo st) false }.

(** A Segment the walk saw is in the store, when the cache tells the truth about it. *)
Lemma seen_in_store gen h h' c : engine_le h h' -> structure h' = structure h -> cache_live gen h -> seen_at gen h' c -> in_store h' c.
Proof. intros He Hs Hl [H|(cp & Hc & Hg)]; [done|]. rewrite Hs in Hc. eapply in_store_le; [done|by eapply Hl]. Qed.

(** A proof the walk made or kept is of a block in the store. *)
Lemma cache_live_kept gen st (w0 w : walk) : winv gen st w -> wle w0 w -> cache_live gen (w_h w0) ->
  cache_live gen (set_structure (rememberSegments (structure (w_h w)) (w_newProofs w)) (w_h w)).
Proof.
  intros HI [He Hs _] Hl c cp H Hg. apply rememberSegments_from in H as [H|H]; [|by apply (wi_proofs gen st w HI) in H as [_ H]].
  change (in_store (w_h w) c). eapply in_store_le; [done|]. eapply Hl; [|done]. by rewrite <- Hs.
Qed.

(** Nothing in the walk's head but the cache changes when the proofs are remembered. *)
Lemma admitted_walk gen st (w0 w : walk) sc e oc pf :
  winv gen st w -> wle w0 w -> cache_live gen (w_h w0) ->
  en_Sealed e = w_sealed w -> en_DirPages e = w_dirPages w -> en_Open e = Some oc ->
  seen_at gen (w_h w) oc -> shape_at oc pf -> checkPosition st pf (en_OpenOrd e) (syncedTo st) true = Ok tt ->
  admitted st (set_structure sc (w_h w)) e.
Proof.
  intros HI [He Hs _] Hl Es Ep Eo Hat Hsh Hpos. split; rewrite ?Es, ?Ep.
  - apply Forall_forall. intros s Hin. pose proof (wi_placed gen st w HI) as Hp. rewrite Forall_forall in Hp.
    destruct (Hp s Hin) as (pf' & Hs' & Hp'). apply (position_in_window st _ _ pf' _ _ false); [|done..].
    apply (seen_in_store gen (w_h w0) (w_h w)); [done..|]. by apply (wi_read gen st w HI).
  - split; [apply (wi_nodup gen st w HI)|]. intros c Hc. destruct (wi_stored gen st w HI c Hc) as (d & Hd & Ha).
    apply (wi_pages gen st w HI) in Hc as [p Hp]. apply (wi_nodes gen st w HI) in Hp as (d' & Ha' & Hdec).
    exists d, p. rewrite (addresses_fun c d' d) in Hdec by done. done.
  - exists oc. split; [done|]. apply (position_in_window st _ _ pf _ _ true); [|done..].
    by apply (seen_in_store gen (w_h w0) (w_h w)).
Qed.

Lemma enumerate_run cfg (h : Eng) e h' :
  state_ok (cur h) -> cache_sound h -> enumerate cfg h = (Ok e, h') ->
  cache_sound h' /\ cur h' = cur h /\ keeps h h' /\
  en_Params e = params (cur h) /\ en_Root e = root (cur h) /\ en_Covered e = covered (cur h) /\
  en_SyncedTo e = syncedTo (cur h) /\
  if covered (cur h)
  then (exists es, listed (cur h) e es) /\
    (cache_live (collectionGeneration cfg h) h -> cache_live (collectionGeneration cfg h') h' /\ admitted (cur h) h' e)
  else en_DirPages e = [] /\ en_Sealed e = [] /\ en_Open e = None.
Proof.
  intros Hst Hcs H. unfold enumerate in H. destruct (enumerate_walk cfg (cur h) _ (walk0 h)) as [r w'] eqn:Hw.
  injection H as -> <-. set (st := cur h) in *. set (gen := collectionGeneration cfg h) in *.
  unfold enumerate_walk in Hw. apply bind_run_ok in Hw as ([ow n] & w0 & Hg & Hw). injection Hg as Hg <-.
  destruct (canonicalDirectoryPages n _) as [paths|]; [|done].
  apply bind_run_ok in Hw as (d & w1 & Hr & Hw). pose proof (winv0 gen st h Hcs) as HI0.
  assert (Q1 : quiet gen st (walk0 h) w1).
  { destruct (root st) as [rc|]; [by eapply readNode_quiet|]. exfalso. clear -Hr. unfold readNode in Hr.
    apply bind_run_ok in Hr as (? & ? & _ & Hr). apply bind_run_ok in Hr as (f & ? & _ & Hr). destruct f; [|done]. cbn [negb] in Hr.
    apply bind_run_ok in Hr as (? & ? & _ & Hr). destruct (_ <? _); [done|]. apply bind_run_ok in Hr as (? & ? & _ & Hr).
    by destruct (_ <? _). }
  assert (Hle : forall w, wle (walk0 h) w -> cur (w_h w) = cur h /\ keeps h (w_h w)).
  { intros w Hwl. pose proof (wl_engine _ _ Hwl) as He. split; [by apply (le_cur _ _ He)|by apply engine_le_keeps]. }
  destruct (covered st) eqn:Hcov; cbn [negb] in Hw.
  2: { injection Hw as <- <-. destruct Q1 as (HI1 & Hl1 & _). destruct (Hle w1 Hl1). split; [exact (wi_cache gen st w1 HI1)|].
       do 6 (split; [done|]). simpl. split; [done|]. split; [done|].
       unfold validateDirectoryGeometry in Hg. rewrite Hcov in Hg. cbn [negb] in Hg.
       destruct (negb (dirDepth st =? 0)); [done|]. destruct (Defined (dir st)); [done|]. by destruct (open st). }
  destruct (geometry_inv st ow n Hst Hcov Hg) as (How & Hn & HG & Hdep).
  apply bind_run_ok in Hw as (u & w2 & Hv & Hw).
  destruct (validateSegment_run gen st _ _ _ _ _ _ _ (proj1 Q1) Hv) as (Q2 & oc & pf & Hoc & _ & _ & Hsh & Hat & Hpos).
  apply bind_run_ok in Hw as (u3 & w3 & Hd & Hw).
  destruct (walkRoot_run gen st n w2 u3 w3 HG Hdep (proj1 Q2) Hd) as (es & Hles & HY & Hdir).
  apply bind_run_ok in Hw as (ps & w4 & Hp & Hw). injection Hp as <- <-. destruct (negb (w_paths w3 =? paths)); [done|].
  apply bind_run_ok in Hw as (cg & w4 & Hp & Hw). injection Hp as <- <-. destruct (_ && _) eqn:Egen; [done|].
  apply bind_run_ok in Hw as ([] & w4 & Hm & Hw). injection Hm as <-.
  apply bind_run_ok in Hw as (wl & w5 & Hp & Hw). injection Hp as <- <-. injection Hw as <- <-.
  assert (HYall : yields gen st 0 es (walk0 h) w3) by (eapply quiet_l; [exact Q1|]; eapply quiet_l; [exact Q2|exact HY]).
  destruct HYall as (HI3 & Hl3 & Es). simpl in Es. destruct (Hle w3 Hl3) as [Hcur Hkeep].
  split.
  { intros k cp [H|H]%rememberSegments_from; [by eapply (wi_cache gen st w3 HI3)|]. by apply (wi_proofs gen st w3 HI3) in H as [? _]. }
  do 6 (split; [done|]). split.
  - exists es. split; simpl; [lia|done|done|apply (wi_distinct gen st w3 HI3)| |done|done].
    rewrite <- (wi_outputs gen st w3 HI3). apply (wi_budget gen st w3 HI3).
  - intros Hlive. split.
    + replace (collectionGeneration cfg _) with gen; [by apply (cache_live_kept gen st (walk0 h) w3)|].
      change (gen = collectionGeneration cfg (w_h w3)). unfold gen in Egen |- *. unfold collectionGeneration in Egen |- *.
      destruct (CollectionGeneration cfg); [|done]. rewrite bool_decide_true in Egen by eauto. cbn [andb] in Egen.
      by apply negb_false_iff, bool_decide_eq_true in Egen.
    + destruct HY as (_ & [He3 Hs3 _] & _). apply (admitted_walk gen st (walk0 h) w3 _ _ oc pf); try done. by eapply seen_le.
Qed.

(** ** On a head the engine built *)

Lemma dir_cid_page kids : exists c, dir_cid kids = Some c /\ page_at c (mkDirNode (trimTrailingNulls kids)).
Proof.
  destruct (EncodeDirNode_ok (mkDirNode kids)) as (b & c & He & Hc & Hd). unfold dir_cid, cid_of. rewrite He. simpl in Hd.
  destruct Hc as (cv & -> & _ & Ha). exists cv. split; [done|]. by exists b.
Qed.

Lemma trim_app_null (l : list Cid) : exists n, l = trimTrailingNulls l ++ replicate n None.
Proof.
  induction l as [|k l [n IH]]; [by exists 0%nat|]. cbn [trimTrailingNulls].
  destruct (trimTrailingNulls l) as [|t ts] eqn:E.
  - destruct k as [k|]; [exists n; rewrite IH at 1; done|]. exists (S n). simpl. by rewrite IH at 1.
  - exists n. rewrite IH at 1. done.
Qed.

(** The canonical tree of a list of entries holds it. *)
Lemma canon_dir_holds fb d es :
  1 <= fb -> es <> [] -> exists c, canon_dir fb (S d) es = Some c /\ dir_holds fb (S d) c es.
Proof.
  intros Hfb. revert es. induction d as [|d IH]; intros es Hne.
  - rewrite canon_dir_1 by lia. destruct (dir_cid_page es) as (c & -> & Hp). exists c. split; [done|].
    exists (mkDirNode (trimTrailingNulls es)). split; [done|]. simpl. split; [apply trim_length_le|].
    destruct (trim_app_null es) as [n E]. rewrite E at 1. do 2 f_equal.
    apply (f_equal length) in E. rewrite length_app, length_replicate in E. lia.
  - rewrite canon_dir_S. destruct (dir_cid_page (pages fb (S d) es)) as (c & -> & Hp).
    rewrite trim_defined in Hp by apply pages_inner_defined. exists c. split; [done|].
    exists (mkDirNode (pages fb (S d) es)). split; [done|]. simpl Kids. split; [apply pages_length|].
    intros i kid Hi. pose proof (lookup_lt_Some _ _ _ Hi) as Hlt. rewrite pages_length, nchunks_lt in Hlt by (apply capN_pos; lia).
    unfold pages in Hi. rewrite list_lookup_fmap in Hi. apply fmap_Some in Hi as (j & [-> _]%lookup_seq & ->).
    destruct (IH (chunk (capN fb (S d)) (0 + i) es)) as (kc & -> & ?); [|by exists kc].
    intros E. apply (f_equal length) in E. rewrite chunk_length in E. simpl in E. pose proof (capN_pos fb (S d) ltac:(lia)). lia.
Qed.

(** A list is its runs. *)
Lemma chunks_ext {A} cap (a b : list A) :
  (0 < cap)%nat -> length a = length b -> (forall i, (i < nchunks cap (length a))%nat -> chunk cap i a = chunk cap i b) -> a = b.
Proof.
  intros Hc Hl H. apply list_eq. intros j. destruct (decide (j < length a)%nat) as [Hj|Hj].
  2: { rewrite !lookup_ge_None_2 by lia. done. }
  assert (Hq : (j / cap * cap <= j)%nat) by (rewrite Nat.mul_comm; apply Nat.Div0.mul_div_le).
  assert (Hlook : forall l : list A, l !! j = chunk cap (j / cap) l !! (j mod cap)%nat).
  { intros l. unfold chunk. rewrite lookup_take_lt by (apply Nat.mod_upper_bound; lia). rewrite lookup_drop. f_equal.
    pose proof (Nat.div_mod j cap ltac:(lia)). lia. }
  rewrite !Hlook, H; [done|]. apply nchunks_lt; lia.
Qed.

(** A directory root determines the entries it holds. *)
Lemma dir_holds_fun fb d c es es' :
  1 <= fb -> dir_holds fb d c es -> dir_holds fb d c es' -> length es = length es' -> es = es'.
Proof.
  intros Hfb. revert c es es'. induction d as [|d IH]; intros c es es' H H' Hl; [done|]. destruct d as [|d].
  - destruct H as (p & Hp & _ & E), H' as (p' & Hp' & _ & E'). rewrite (page_at_fun c p' p) in E' by done. congruence.
  - destruct H as (p & Hp & Hk & H), H' as (p' & Hp' & Hk' & H'). rewrite (page_at_fun c p' p) in * by done.
    apply (chunks_ext (capN fb (S d))); [apply capN_pos; lia|done|]. intros i Hi. rewrite <- Hk in Hi.
    destruct (lookup_lt_is_Some_2 _ _ Hi) as [kid Hkid]. destruct (H i kid Hkid) as (kc & -> & Hh).
    destruct (H' i _ Hkid) as (kc' & [= <-] & Hh'). apply (IH kc); [done..|]. rewrite !chunk_length. by rewrite Hl.
Qed.

(** C19: A successful enumeration of any loaded head is sound: the entries listed are those
    the directory root holds, each in its window and no CID twice, and every page, every
    sealed Segment and the open one are in the store under their CIDs and decode, the
    Segments to rows of their windows that link blobs.  A cached proof of the current
    collection generation stands for a read ([cache_live]); the cache holds true shape
    proofs and stays so, and stored blocks stay. *)
Theorem Enumerate_sound cfg (h : Eng) e h' :
  state_ok (cur h) -> cache_sound h -> cache_live (collectionGeneration cfg h) h -> Enumerate cfg h = (Ok e, h') ->
  cache_sound h' /\ cur h' = cur h /\ keeps h h' /\
  en_Params e = params (cur h) /\ en_Root e = root (cur h) /\ en_Covered e = covered (cur h) /\
  en_SyncedTo e = syncedTo (cur h) /\
  if covered (cur h)
  then (exists es, listed (cur h) e es) /\ cache_live (collectionGeneration cfg h') h' /\ admitted (cur h) h' e
  else en_DirPages e = [] /\ en_Sealed e = [] /\ en_Open e = None.
Proof.
  intros Hst Hcs Hl H. apply enumerate_run in H as (? & ? & ? & ? & ? & ? & ? & H); [|done..].
  repeat (split; [done|]). destruct (covered _); [|done]. destruct H as [? H]. split; [done|]. by apply H.
Qed.

Lemma represents_state_ok (h : Eng) m s : represents h m -> m_synced m = Some s -> state_ok (cur h).
Proof.
  intros [Hcur _ (Hp & _ & Hc)] Hs. rewrite Hs in Hc. rewrite Hcur.
  pose proof (state_of_covered m s (canon_state m) Hs (canon_state_of m)) as ->. destruct Hp as [? ? [? ?]].
  destruct (co_synced _ _ _ Hc). unfold is_u64, maxInt64 in *. split; simpl; try done; [unfold is_u64; lia|].
  unfold canon_depth. destruct (sealedN (m_params m) s) as [|n] eqn:En; [done|].
  assert (Hn : Z.of_nat (S n) < 2 ^ 64).
  { rewrite <- En. unfold sealedN. destruct (ord_u64 (s + 1) (p_SegBits (m_params m))); [done|unfold is_u64; lia|].
    destruct (ord_u64 (p_OriginSlot (m_params m)) (p_SegBits (m_params m))); [done|done|]. unfold openWin, baseWin. lia. }
  pose proof (canonicalDepth_pos (Z.of_nat (S n)) (p_FanoutBits (m_params m)) po_fan ltac:(unfold is_u64; lia) ltac:(lia)). lia.
Qed.

(** C18: On a head that holds the model [m], the sealed Segments listed are exactly
    the non-empty sealed windows of the model, in order. *)
Theorem Enumerate_canonical cfg m s (h : Eng) e h' :
  represents h m -> m_synced m = Some s -> cache_sound h -> Enumerate cfg h = (Ok e, h') ->
  en_Sealed e = sealed_of (cur h) 0 (canon_entries (m_params m) s (m_rows m)) /\
  en_Open e = seg_cid (segOf (p_SegBits (m_params m)) (m_rows m) (openWin (m_params m) s)) /\
  en_OpenOrd e = openWin (m_params m) s /\ en_SyncedTo e = s.
Proof.
  intros Hrep Hs Hcs H. pose proof (represents_state_ok h m s Hrep Hs) as Hst. pose proof (rep_ok h m Hrep) as (Hp & _ & Hc).
  rewrite Hs in Hc. apply enumerate_run in H as (_ & _ & _ & _ & _ & _ & Hsy & H); [|done..].
  rewrite (rep_cur h m Hrep) in *. set (ces := canon_entries (m_params m) s (m_rows m)).
  pose proof (state_of_covered m s (canon_state m) Hs (canon_state_of m)) as Est. rewrite Est in H, Hsy, Hst |- *. simpl in H, Hsy.
  destruct H as [[es [Hcnt Hdir Hsl _ _ Hop Hoo]] _]. simpl in Hcnt, Hdir, Hoo, Hop.
  split; [|split; [done|done]]. rewrite Hsl. f_equal. fold ces in Hdir.
  assert (Hlen : length es = length ces).
  { unfold ces, canon_entries. rewrite entries_length. unfold sealedN, openWin, baseWin. unfold dirBase in Hcnt. simpl in Hcnt. lia. }
  assert (Hl2 : length ces = sealedN (m_params m) s) by (unfold ces, canon_entries; apply entries_length).
  destruct Hdir as [->|(c & Hroot & Hh)]; [by destruct ces|]. unfold canon_root, node_of in Hroot.
  destruct ces as [|x ces'] eqn:Ec; [done|]. rewrite <- Ec in *.
  pose proof (po_fan _ Hp) as [Hfb _]. rewrite <- Hl2 in Hh.
  assert (Hd : exists d, Z.to_nat (canon_depth (p_FanoutBits (m_params m)) (length ces)) = S d).
  { destruct (Z.to_nat _) as [|d] eqn:Ed; [by destruct Hh|by exists d]. }
  destruct Hd as [d Hd]. rewrite Hd in *. destruct (canon_dir_holds (p_FanoutBits (m_params m)) d ces) as (c' & Hc' & Hh'); [done|by rewrite Ec|].
  rewrite Hc' in Hroot. injection Hroot as <-. by apply (dir_holds_fun (p_FanoutBits (m_params m)) (S d) c').
Qed.
End EnumerateCorrect.
