(* ===== verification/Store.v ===== *)
(** The local block store: store/validate.go and the sequential behaviour of
    store/epoch.go.

    [BaseStore] is the interface of the third-party blockstore (boxo over
    flatfs), keyed by multihash; [vGet] is the validating read over it; the rest
    is the epoch coordinator, which records what the application touched while a
    collection runs and lets the collector delete only what was not touched.
    Epoch states are mutable objects shared by the coordinator and the
    collector's handle, so they live in a heap and are referred to by address.
    Each operation is what one call does when no other call interleaves; the
    interleavings are in EpochConcurrency.v. *)
From Stdlib Require Strings.Byte.
From S2P Require Import Prelude Cid Schema.

Class BaseStore `{Multihash} (B : Type) : Type := {
  base_get : CidV -> M B bytes;
  base_has : CidV -> M B bool;
  base_getSize : CidV -> M B Z;
  base_put : CidV -> bytes -> M B unit;
  base_putMany : list (CidV * bytes) -> M B unit;
  base_delete : CidV -> M B unit;
  base_ctx : M B unit;
  (** [string(c.Hash())], the physical key. *)
  key_bytes : MhDigest Digest -> bytes
}.

(** What the coordinator relies on: the store is a map from multihashes to
    bytes; reads do not change it; a write or a delete that reports success
    happened, one that reports failure may or may not have happened, and neither
    touches any other key. *)
Class BaseStoreOk `{MH : Multihash} (B : Type) `{!BaseStore B} : Type := {
  stored : B -> MhDigest Digest -> option bytes;
  base_get_spec : forall c b r b', base_get c b = (r, b') ->
    stored b' = stored b /\
    match r with
    | Ok d => stored b (cidHash c) = Some d
    | Err e => e = EIO \/ e = ECancelled \/ (e = ENotFound /\ stored b (cidHash c) = None)
    end;
  base_has_spec : forall c b r b', base_has c b = (r, b') ->
    stored b' = stored b /\
    match r with
    | Ok p => p = bool_decide (is_Some (stored b (cidHash c)))
    | Err e => e = EIO \/ e = ECancelled
    end;
  base_getSize_spec : forall c b r b', base_getSize c b = (r, b') ->
    stored b' = stored b /\
    match r with
    | Ok n => exists d, stored b (cidHash c) = Some d /\ n = len d
    | Err e => e = EIO \/ e = ECancelled \/ (e = ENotFound /\ stored b (cidHash c) = None)
    end;
  base_put_spec : forall c d b r b', base_put c d b = (r, b') ->
    (forall k, k <> cidHash c -> stored b' k = stored b k) /\
    match r with
    | Ok _ => stored b' (cidHash c) = Some d
    | Err e => (e = EIO \/ e = ECancelled) /\
               (stored b' (cidHash c) = stored b (cidHash c) \/ stored b' (cidHash c) = Some d)
    end;
  base_putMany_spec : forall l b r b', base_putMany l b = (r, b') ->
    (forall k, k ∉ (cidHash ∘ fst) <$> l -> stored b' k = stored b k) /\
    (forall k, k ∈ (cidHash ∘ fst) <$> l ->
       (exists c d, (c, d) ∈ l /\ cidHash c = k /\ stored b' k = Some d) \/
       (is_ok r = false /\ stored b' k = stored b k)) /\
    match r with Ok _ => True | Err e => e = EIO \/ e = ECancelled end;
  base_delete_spec : forall c b r b', base_delete c b = (r, b') ->
    (forall k, k <> cidHash c -> stored b' k = stored b k) /\
    match r with
    | Ok _ => stored b' (cidHash c) = None
    | Err e => (e = EIO \/ e = ECancelled) /\
               (stored b' (cidHash c) = stored b (cidHash c) \/ stored b' (cidHash c) = None)
    end;
  base_ctx_spec : forall b r b', base_ctx b = (r, b') -> b' = b /\ (r = Ok tt \/ r = Err ECancelled);
  (** States in which the backend does not fail. *)
  base_live : B -> Prop;
  base_get_live : forall c b d, base_live b -> stored b (cidHash c) = Some d -> fst (base_get c b) = Ok d;
  base_put_live : forall c d b, base_live b -> fst (base_put c d b) = Ok tt;
  base_ctx_live : forall b, base_live b -> fst (base_ctx b) = Ok tt;
  base_live_get : forall c b, base_live b -> base_live (snd (base_get c b));
  base_live_put : forall c d b, base_live b -> base_live (snd (base_put c d b))
}.

Definition epochShardCount : Z := 4096.

(** FNV-1a over the key, at 32 bits, masked to the shard table. *)
Definition fnv_step (hash : Z) (x : byte) : Z :=
  (Z.lxor hash (Z.of_N (Byte.to_N x)) * 16777619) mod 2 ^ 32.
Definition epochShardIndex (key : bytes) : Z :=
  Z.land (fold_left fnv_step key 2166136261) (epochShardCount - 1).

Section Store.
Context `{MH : Multihash} {B : Type} `{BA : !BaseStore B}.
Abbreviation Key := (MhDigest Digest).

(** ** validatingBlockstore.Get *)

Definition vGet (c : CidV) : M B bytes :=
  blk <-- base_get c ;;
  match prefix_sum (cid_prefix c) blk with
  | None => fail EIO
  | Some got => fail_if negb (bool_decide (got = c)) with ECorrupt ;; ret blk
  end.

(** ** The coordinator *)

Record epochState : Type := mkEpochState {
  ep_id : Z;
  ep_shards : gmap Z (gset Key);  (* shard index to its touched set *)
  ep_protected : Z }.

Record BlockstoreEpochs : Type := mkEpochs {
  base : B;
  heap : gmap nat epochState;     (* every epochState allocated so far *)
  active : option nat;
  nextID : Z }.

(** The collector's handle: the address of its epoch and the End bookkeeping. *)
Record BlockstoreEpoch : Type := mkEpoch { eh_state : nat; eh_ended : bool; eh_endCount : Z }.

Definition set_base (b : B) (s : BlockstoreEpochs) : BlockstoreEpochs :=
  mkEpochs b (heap s) (active s) (nextID s).
Definition onBase {A} (m : M B A) : M BlockstoreEpochs A :=
  fun s => let '(r, b) := m (base s) in (r, set_base b s).

Definition multihashKey (c : CidV) : Key := cidHash c.
Definition shardOf (k : Key) : Z := epochShardIndex (key_bytes k).
Definition touchedIn (e : epochState) (k : Key) : Prop := k ∈ ep_shards e !!! shardOf k.

#[global] Instance touchedIn_dec e k : Decision (touchedIn e k).
Proof. unfold touchedIn. apply _. Defined.

Definition touchState (k : Key) (e : epochState) : epochState :=
  if decide (touchedIn e k) then e
  else mkEpochState (ep_id e)
         (<[shardOf k := {[ k ]} ∪ ep_shards e !!! shardOf k]> (ep_shards e)) (ep_protected e + 1).

Definition set_epoch (a : nat) (e : epochState) (s : BlockstoreEpochs) : BlockstoreEpochs :=
  mkEpochs (base s) (<[a := e]> (heap s)) (active s) (nextID s).

(** touch(state, shard, key); a nil state is no epoch. *)
Definition touch (st : option nat) (k : Key) (s : BlockstoreEpochs) : BlockstoreEpochs :=
  match st with
  | None => s
  | Some a => match heap s !! a with
              | Some e => set_epoch a (touchState k e) s
              | None => s
              end
  end.

(** withKey(c, fn) where fn runs [m] on the base and touches on the results
    [good] accepts: the operation and the touch are one critical section. *)
Definition withKey {A} (c : CidV) (m : M B A) (good : A -> bool) : M BlockstoreEpochs A :=
  fun s =>
    let st := active s in
    match onBase m s with
    | (Ok a, s') => (Ok a, if good a then touch st (multihashKey c) s' else s')
    | (Err e, s') => (Err e, s')
    end.

Definition app_DeleteBlock (c : CidV) : M BlockstoreEpochs unit := withKey c (base_delete c) (fun _ => false).
Definition app_Has (c : CidV) : M BlockstoreEpochs bool := withKey c (base_has c) (fun p => p).
Definition app_Get (c : CidV) : M BlockstoreEpochs bytes := withKey c (vGet c) (fun _ => true).
Definition app_GetSize (c : CidV) : M BlockstoreEpochs Z := withKey c (base_getSize c) (fun _ => true).
Definition app_Put (c : CidV) (d : bytes) : M BlockstoreEpochs unit := withKey c (base_put c d) (fun _ => true).

(** A batch is protected whole, whatever the base reports. *)
Definition app_PutMany (input : list (CidV * bytes)) : M BlockstoreEpochs unit :=
  fun s =>
    match active s with
    | None => onBase (base_putMany input) s
    | Some a =>
      if len input =? 0 then onBase (base_putMany input) s
      else let '(r, s') := onBase (base_putMany input) s in
           (r, foldl (fun s '(c, _) => touch (Some a) (multihashKey c) s) s' input)
    end.

Definition ActiveEpoch (s : BlockstoreEpochs) : Z :=
  match active s with
  | None => 0
  | Some a => match heap s !! a with Some e => ep_id e | None => 0 end
  end.
Definition CollectionGeneration (s : BlockstoreEpochs) : Z := nextID s.

(** The next epoch id: zero is reserved, also after wraparound. *)
Definition bumpID (n : Z) : Z := let n := add64 n 1 in if n =? 0 then add64 n 1 else n.

Definition Begin : M BlockstoreEpochs BlockstoreEpoch :=
  fun s =>
    match active s with
    | Some a => (Err (EEpochActive (ActiveEpoch s)), s)
    | None =>
      let id := bumpID (nextID s) in
      let a := fresh (dom (heap s)) in
      (Ok (mkEpoch a false 0),
       mkEpochs (base s) (<[a := mkEpochState id ∅ 0]> (heap s)) (Some a) id)
    end.

Definition Protected (h : BlockstoreEpoch) (s : BlockstoreEpochs) : Z :=
  match heap s !! eh_state h with Some e => ep_protected e | None => 0 end.

(** (deleted, protected) *)
Definition DeleteCandidate (h : BlockstoreEpoch) (c : CidV) : M BlockstoreEpochs (bool * bool) :=
  fun s =>
    if negb (bool_decide (active s = Some (eh_state h))) then (Err EEpochEnded, s)
    else
      match heap s !! eh_state h with
      | None => (Err EEpochEnded, s)
      | Some e =>
        if decide (touchedIn e (multihashKey c)) then (Ok (false, true), s)
        else match onBase (base_delete c) s with
             | (Ok _, s') => (Ok (true, false), s')
             | (Err x, s') => (Err x, s')
             end
      end.

(** End, under its sync.Once. *)
Definition End_ (h : BlockstoreEpoch) (s : BlockstoreEpochs) : Z * BlockstoreEpoch * BlockstoreEpochs :=
  if eh_ended h then (eh_endCount h, h, s)
  else
    let n := Protected h s in
    let s' := if bool_decide (active s = Some (eh_state h))
              then mkEpochs (base s) (heap s) None (nextID s) else s in
    (n, mkEpoch (eh_state h) true n, s').

(** ** The shard index *)

Lemma epochShardIndex_range key : 0 <= epochShardIndex key < epochShardCount.
Proof.
  unfold epochShardIndex, epochShardCount. change (4096 - 1) with (2 ^ 12 - 1).
  rewrite land_ones_mod by lia. apply Z.mod_pos_bound. lia.
Qed.

(** ** The touched sets *)

Context `{BO : !BaseStoreOk B}.

(** The number of keys recorded over all shards. *)
Definition shard_count (m : gmap Z (gset Key)) : Z :=
  map_fold (fun _ X n => Z.of_nat (size X) + n) 0 m.

Lemma shard_count_delete m i :
  shard_count m = Z.of_nat (size (m !!! i)) + shard_count (delete i m).
Proof.
  unfold shard_count. destruct (m !! i) as [X|] eqn:E.
  - rewrite lookup_total_alt, E. simpl. apply (map_fold_delete_L (fun (_ : Z) (X : gset Key) n => Z.of_nat (size X) + n)); [|done]. intros. cbn beta. ring.
  - rewrite lookup_total_alt, E, delete_id by done. reflexivity.
Qed.

Lemma shard_count_insert m i X :
  shard_count (<[i := X]> m) = Z.of_nat (size X) + shard_count (delete i m).
Proof.
  rewrite (shard_count_delete (<[i := X]> m) i), lookup_total_insert_eq, delete_insert_eq. done.
Qed.

Record epoch_ok (e : epochState) : Prop := {
  eo_count : ep_protected e = shard_count (ep_shards e);
  eo_place : forall i k, k ∈ ep_shards e !!! i -> i = shardOf k }.

Lemma touchState_ok k e : epoch_ok e -> epoch_ok (touchState k e).
Proof.
  intros [Hc Hp]. unfold touchState. case_decide as Ht; [done|]. split; simpl.
  - rewrite shard_count_insert, Hc, (shard_count_delete _ (shardOf k)).
    unfold touchedIn in Ht. rewrite size_union by set_solver. rewrite size_singleton. lia.
  - intros i k' Hk. destruct (decide (i = shardOf k)) as [->|Hne].
    + rewrite lookup_total_insert_eq in Hk. apply elem_of_union in Hk as [->%elem_of_singleton|?]; [done|by apply Hp].
    + rewrite lookup_total_insert_ne in Hk by done. by apply Hp.
Qed.

Lemma touchState_touched k k' e : touchedIn (touchState k e) k' <-> k' = k \/ touchedIn e k'.
Proof.
  unfold touchState. case_decide as Ht; [split; [by right|by intros [->|?]]|]. unfold touchedIn. simpl.
  destruct (decide (shardOf k' = shardOf k)) as [E|E].
  - rewrite E, lookup_total_insert_eq, elem_of_union, elem_of_singleton. rewrite <- E. done.
  - rewrite lookup_total_insert_ne by done. split; [by right|]. intros [->|?]; done.
Qed.

(** ** The coordinator's invariant *)

Record epochs_inv (s : BlockstoreEpochs) : Prop := {
  ei_active : forall a, active s = Some a -> is_Some (heap s !! a);
  ei_epochs : map_Forall (fun _ e => epoch_ok e) (heap s) }.

Lemma touch_inv st k s : epochs_inv s -> epochs_inv (touch st k s).
Proof.
  intros [Ha He]. destruct st as [a|]; [|done]. simpl. destruct (heap s !! a) as [e|] eqn:E; [|done]. split; simpl.
  - intros a' Hx. destruct (decide (a' = a)) as [->|]; [rewrite lookup_insert_eq; eauto|].
    rewrite lookup_insert_ne by done. by apply Ha.
  - apply map_Forall_insert_2; [|done]. apply touchState_ok. by eapply He.
Qed.

Lemma touch_base st k s : base (touch st k s) = base s /\ active (touch st k s) = active s /\ nextID (touch st k s) = nextID s.
Proof. destruct st as [a|]; [|done]. simpl. by destruct (heap s !! a). Qed.

(** The protection set of the active epoch: the keys no candidate deletion may
    remove. *)
Definition protects (s : BlockstoreEpochs) (k : Key) : Prop :=
  exists a e, active s = Some a /\ heap s !! a = Some e /\ touchedIn e k.

Lemma touch_protects k s : epochs_inv s -> is_Some (active s) -> protects (touch (active s) k s) k.
Proof.
  intros [Ha _] [a Hx]. destruct (Ha a Hx) as [e He]. exists a, (touchState k e). rewrite Hx. simpl. rewrite He. simpl.
  split; [done|]. split; [apply lookup_insert_eq|]. apply touchState_touched. by left.
Qed.

Lemma touch_mono st k k' s : protects s k' -> protects (touch st k s) k'.
Proof.
  intros (a & e & Ha & He & Ht). destruct st as [a'|]; [|by exists a, e]. simpl.
  destruct (heap s !! a') as [e'|] eqn:E; [|by exists a, e].
  destruct (decide (a' = a)) as [->|].
  - exists a, (touchState k e'). simpl. rewrite lookup_insert_eq. split; [done|]. split; [done|].
    apply touchState_touched. right. congruence.
  - exists a, e. simpl. by rewrite lookup_insert_ne.
Qed.

(** ** Sequences of operations *)

Inductive act : Type :=
| AGet (c : CidV) | AHas (c : CidV) | AGetSize (c : CidV)
| APut (c : CidV) (d : bytes) | APutMany (l : list (CidV * bytes)) | ADelete (c : CidV)
| ABegin | ACandidate (h : BlockstoreEpoch) (c : CidV) | AEnd (h : BlockstoreEpoch).

Definition do_act (x : act) (s : BlockstoreEpochs) : BlockstoreEpochs :=
  match x with
  | AGet c => snd (app_Get c s) | AHas c => snd (app_Has c s) | AGetSize c => snd (app_GetSize c s)
  | APut c d => snd (app_Put c d s) | APutMany l => snd (app_PutMany l s)
  | ADelete c => snd (app_DeleteBlock c s)
  | ABegin => snd (Begin s) | ACandidate h c => snd (DeleteCandidate h c s)
  | AEnd h => snd (End_ h s)
  end.
Definition do_acts (l : list act) (s : BlockstoreEpochs) : BlockstoreEpochs := foldl (fun s x => do_act x s) s l.

(** Writes under the key [k] carry the bytes [d]: [k] is their hash. *)
Definition writes_as (k : Key) (d : bytes) (x : act) : Prop :=
  match x with
  | APut c d' => cidHash c = k -> d' = d
  | APutMany l => forall c d', (c, d') ∈ l -> cidHash c = k -> d' = d
  | _ => True
  end.
(** The application does not itself delete [k]. *)
Definition spares (k : Key) (x : act) : Prop := match x with ADelete c => cidHash c <> k | _ => True end.
(** The epoch at [a] is not ended. *)
Definition stays (a : nat) (x : act) : Prop := match x with AEnd h => eh_state h <> a | _ => True end.

Lemma withKey_run {A} (c : CidV) (m : M B A) good s r s' :
  withKey c m good s = (r, s') ->
  exists b', m (base s) = (r, b') /\ base s' = b' /\ active s' = active s /\ nextID s' = nextID s /\
    (epochs_inv s -> epochs_inv s') /\ (forall k, protects s k -> protects s' k) /\
    (forall a, r = Ok a -> good a = true -> epochs_inv s -> is_Some (active s) -> protects s' (cidHash c)).
Proof.
  unfold withKey, onBase. destruct (m (base s)) as [[a|e] b'] eqn:E; intros [= <- <-]; exists b'.
  - destruct (good a) eqn:Eg.
    + destruct (touch_base (active s) (multihashKey c) (set_base b' s)) as (Hb & Ha & Hn).
      rewrite Hb, Ha, Hn. split; [done|]. do 3 (split; [done|]). split; [|split].
      * intros [? ?]. apply touch_inv. by split.
      * intros k (a0 & e0 & ? & ? & ?). apply touch_mono. by exists a0, e0.
      * intros _ _ _ [Hx Hy] Hs. apply (touch_protects (multihashKey c) (set_base b' s)); [by split|done].
    + split; [done|]. do 3 (split; [done|]). split; [by intros [? ?]; split|]. split; [|congruence].
      intros k (a0 & e0 & ? & ? & ?). by exists a0, e0.
  - split; [done|]. do 3 (split; [done|]). split; [by intros [? ?]; split|]. split; [|done].
    intros k (a0 & e0 & ? & ? & ?). by exists a0, e0.
Qed.

Lemma vGet_run c b r b' : vGet c b = (r, b') ->
  stored b' = stored b /\
  match r with
  | Ok d => stored b (cidHash c) = Some d /\ addresses c d
  | Err e => e = ENotFound \/ e = ECorrupt \/ e = EIO \/ e = ECancelled
  end.
Proof.
  intros H. unfold vGet in H. apply bind_run in H as [(d & b1 & Hg & H)|(e & Hg & ->)];
    apply base_get_spec in Hg as [Hs Hr].
  - destruct (prefix_sum (cid_prefix c) d) as [got|] eqn:E; [|injection H as <- <-; auto].
    case_bool_decide; cbn in H; injection H as <- <-; split; auto. split; [done|]. unfold addresses. congruence.
  - split; [done|]. destruct Hr as [->|[->|[-> _]]]; auto.
Qed.

(** A batch protects all of its keys and none other than those. *)
Lemma touches_run st (l : list (CidV * bytes)) s :
  let s' := foldl (fun s '(c, _) => touch st (multihashKey c) s) s l in
  base s' = base s /\ active s' = active s /\ nextID s' = nextID s /\
  (epochs_inv s -> epochs_inv s') /\ (forall k, protects s k -> protects s' k).
Proof.
  revert s. induction l as [|[c d] l IH]; intros s; [done|]. simpl.
  destruct (IH (touch st (multihashKey c) s)) as (Hb & Ha & Hn & Hi & Hp).
  destruct (touch_base st (multihashKey c) s) as (Hb1 & Ha1 & Hn1).
  rewrite Hb, Ha, Hn. split; [done|]. split; [done|]. split; [done|]. split.
  - intros. apply Hi. by apply touch_inv.
  - intros. apply Hp. by apply touch_mono.
Qed.

(** Every operation keeps the invariant. *)
Lemma do_act_inv x s : epochs_inv s -> epochs_inv (do_act x s).
Proof.
  intros HI. assert (Hw : forall A c (m : M B A) good, epochs_inv (snd (withKey c m good s))).
  { intros A c m good. destruct (withKey c m good s) as [r s'] eqn:E.
    apply withKey_run in E as (b' & _ & _ & _ & _ & Hi & _). by apply Hi. }
  assert (Hset : forall b, epochs_inv (set_base b s)) by (intros b; destruct HI; by split).
  destruct x; simpl; try apply Hw.
  - unfold app_PutMany, onBase. destruct (base_putMany l (base s)) as [r b].
    destruct (active s) as [a|]; [|apply Hset]. case_match; [apply Hset|]. simpl.
    by apply (touches_run (Some a) l (set_base b s)).
  - unfold Begin. destruct (active s) as [a|] eqn:E; [done|]. destruct HI as [_ He]. split; simpl.
    + intros a [= <-]. rewrite lookup_insert_eq. eauto.
    + apply map_Forall_insert_2; [|done]. split; [done|]. intros i k Hk. simpl in Hk.
      rewrite lookup_total_empty in Hk. by apply not_elem_of_empty in Hk.
  - unfold DeleteCandidate, onBase. case_match; [done|]. case_match; [|done]. destruct (decide (touchedIn _ _)); [done|].
    destruct (base_delete c (base s)) as [[] b]; apply Hset.
  - unfold End_. destruct (eh_ended h); [done|]. simpl. case_bool_decide; [|done]. destruct HI. by split.
Qed.

Lemma do_acts_inv l s : epochs_inv s -> epochs_inv (do_acts l s).
Proof. unfold do_acts. revert s. induction l as [|x l IH]; intros s HI; [done|]. simpl. apply IH, do_act_inv, HI. Qed.

Lemma candidate_spares h c s : protects s (cidHash c) -> do_act (ACandidate h c) s = s.
Proof.
  intros (a & e & Ha & He & Ht). simpl. unfold DeleteCandidate. case_bool_decide as Eq; [|done]. simpl.
  rewrite Ha in Eq. injection Eq as ->. rewrite He. by rewrite decide_True.
Qed.

(** Writes under the key [k] carry bytes that satisfy [P]. *)
Definition writes_P (k : Key) (P : bytes -> Prop) (x : act) : Prop :=
  match x with
  | APut c d' => cidHash c = k -> P d'
  | APutMany l => forall c d', (c, d') ∈ l -> cidHash c = k -> P d'
  | _ => True
  end.

(** One operation keeps a key that the application does not delete and no
    candidate deletion may remove; its bytes stay in [P] if every write of it is. *)
Lemma do_act_keeps_P (P : bytes -> Prop) x k d s :
  stored (base s) k = Some d -> P d -> writes_P k P x -> spares k x ->
  (forall h c, x = ACandidate h c -> cidHash c = k -> do_act x s = s) ->
  exists d', stored (base (do_act x s)) k = Some d' /\ P d'.
Proof.
  intros Hst HP Hw Hsp Hc.
  assert (Hwk : forall A c (m : M B A) good,
    (forall r b', m (base s) = (r, b') -> exists d', stored b' k = Some d' /\ P d') ->
    exists d', stored (base (snd (withKey c m good s))) k = Some d' /\ P d').
  { intros A c m good Hm. destruct (withKey c m good s) as [r s'] eqn:E.
    apply withKey_run in E as (b' & E & Hb & _). simpl. rewrite Hb. by eapply Hm. }
  destruct x as [c|c|c|c d'|l|c| |h c|h]; simpl.
  - apply Hwk. intros r b' [-> _]%vGet_run. eauto.
  - apply Hwk. intros r b' [-> _]%base_has_spec. eauto.
  - apply Hwk. intros r b' [-> _]%base_getSize_spec. eauto.
  - apply Hwk. intros r b' [Hn Hr]%base_put_spec. destruct (decide (k = cidHash c)) as [->|]; [|rewrite Hn by done; eauto].
    simpl in Hw. specialize (Hw eq_refl). destruct r; [eauto|]. destruct Hr as [_ [->| ->]]; eauto.
  - assert (Hb : forall r b', base_putMany l (base s) = (r, b') -> exists d', stored b' k = Some d' /\ P d').
    { intros r b' (Hn & Hk & _)%base_putMany_spec.
      destruct (decide (k ∈ (cidHash ∘ fst) <$> l)) as [Hin|]; [|rewrite Hn by done; eauto].
      destruct (Hk k Hin) as [(c & d' & Hl & Hc' & ->)|[_ ->]]; [|eauto]. exists d'. split; [done|]. by eapply Hw. }
    unfold app_PutMany, onBase. destruct (base_putMany l (base s)) as [r b] eqn:E. specialize (Hb r b eq_refl).
    destruct (active s) as [a|]; [|done]. case_match; [done|]. cbn [snd].
    by rewrite (proj1 (touches_run (Some a) l (set_base b s))).
  - apply Hwk. intros r b' [Hn _]%base_delete_spec. simpl in Hsp. rewrite Hn by congruence. eauto.
  - unfold Begin. destruct (active s); eauto.
  - destruct (decide (cidHash c = k)) as [Hk|Hk].
    + specialize (Hc h c eq_refl Hk). simpl in Hc. rewrite Hc. eauto.
    + unfold DeleteCandidate, onBase. case_match; [eauto|]. case_match; [|eauto]. destruct (decide (touchedIn _ _)); [eauto|].
      destruct (base_delete c (base s)) as [r b] eqn:E. apply base_delete_spec in E as [Hn _].
      destruct r; simpl; rewrite Hn by congruence; eauto.
  - unfold End_. destruct (eh_ended h); [eauto|]. simpl. case_bool_decide; eauto.
Qed.

Lemma do_act_keeps x k d s :
  stored (base s) k = Some d -> writes_as k d x -> spares k x ->
  (forall h c, x = ACandidate h c -> cidHash c = k -> do_act x s = s) ->
  stored (base (do_act x s)) k = Some d.
Proof.
  intros Hst Hw Hsp Hc. destruct (do_act_keeps_P (fun d' => d' = d) x k d s) as (d' & Hd & ->); try done.
Qed.

(** One operation other than the epoch's end keeps a key protected. *)
Lemma do_act_protects x a k s :
  active s = Some a -> protects s k -> stays a x -> active (do_act x s) = Some a /\ protects (do_act x s) k.
Proof.
  intros Ha Hp Hst.
  assert (Hwk : forall A c (m : M B A) good, active (snd (withKey c m good s)) = Some a /\ protects (snd (withKey c m good s)) k).
  { intros A c m good. destruct (withKey c m good s) as [r s'] eqn:E.
    apply withKey_run in E as (b' & _ & _ & Hact & _ & _ & Hpr & _). simpl. rewrite Hact. auto. }
  assert (Hset : forall b, protects (set_base b s) k).
  { intros b. destruct Hp as (a0 & e0 & ? & ? & ?). by exists a0, e0. }
  destruct x as [c|c|c|c d'|l|c| |h c|h]; simpl; try apply Hwk.
  - unfold app_PutMany, onBase. rewrite Ha. destruct (base_putMany l (base s)) as [r b]. case_match; [done|]. cbn [snd].
    destruct (touches_run (Some a) l (set_base b s)) as (_ & -> & _ & _ & Hm). split; [done|]. by apply Hm.
  - unfold Begin. by rewrite Ha.
  - unfold DeleteCandidate, onBase. case_match; [done|]. case_match; [|done]. destruct (decide (touchedIn _ _)); [done|].
    destruct (base_delete c (base s)) as [[] b]; done.
  - unfold End_. destruct (eh_ended h); [done|]. simpl. case_bool_decide as E; [|done].
    rewrite Ha in E. injection E as ->. simpl in Hst. done.
Qed.

Lemma protected_survives l a k d s :
  active s = Some a -> protects s k -> stored (base s) k = Some d ->
  Forall (fun x => writes_as k d x /\ spares k x /\ stays a x) l ->
  active (do_acts l s) = Some a /\ protects (do_acts l s) k /\ stored (base (do_acts l s)) k = Some d.
Proof.
  unfold do_acts. revert s. induction l as [|x l IH]; intros s Ha Hp Hst Hl; [done|].
  apply Forall_cons_iff in Hl as [(Hw & Hsp & Hsy) Hl]. simpl.
  destruct (do_act_protects x a k s Ha Hp Hsy) as [Ha' Hp'].
  apply IH; [done..| |done]. apply do_act_keeps; try done.
  intros h c -> <-. by apply candidate_spares.
Qed.

(** What the application read or wrote successfully during an epoch stays
    stored for as long as the epoch lasts, whatever the collector and the
    application do (short of the application deleting it), and every candidate
    deletion of its multihash, under any codec, is refused as protected. *)
Theorem epoch_protects_touched s s1 a c d acts :
  epochs_inv s -> active s = Some a ->
  app_Get c s = (Ok d, s1) \/ app_Put c d s = (Ok tt, s1) ->
  Forall (fun x => writes_as (cidHash c) d x /\ spares (cidHash c) x /\ stays a x) acts ->
  stored (base (do_acts acts s1)) (cidHash c) = Some d /\
  forall h c', eh_state h = a -> cidHash c' = cidHash c ->
    DeleteCandidate h c' (do_acts acts s1) = (Ok (false, true), do_acts acts s1).
Proof.
  intros HI Ha Hop Hl.
  assert (active s1 = Some a /\ protects s1 (cidHash c) /\ stored (base s1) (cidHash c) = Some d) as (Ha1 & Hp1 & Hs1).
  { destruct Hop as [H|H]; apply withKey_run in H as (b' & Hm & Hb & Hact & _ & _ & _ & Hp);
      rewrite Hact; (split; [done|]); (split; [eapply Hp; eauto|]); rewrite Hb.
    - apply vGet_run in Hm as [-> [? _]]. done.
    - by apply base_put_spec in Hm as [_ ?]. }
  destruct (protected_survives acts a (cidHash c) d s1) as (Ha2 & (a' & e & Ha' & He & Ht) & Hs2); try done.
  split; [done|]. intros h c' <- Hc'. unfold DeleteCandidate. rewrite bool_decide_eq_true_2 by done. cbn [negb].
  assert (a' = eh_state h) as -> by congruence. rewrite He, decide_True; [done|]. unfold multihashKey. by rewrite Hc'.
Qed.

Lemma bumpID_neq n : bumpID n <> n.
Proof.
  unfold bumpID. assert (Hne : forall x, add64 x 1 <> x).
  { intros x Hx. pose proof (u64_range (x + 1)) as [? ?]. unfold add64 in Hx. rewrite Hx in *.
    unfold u64 in Hx. destruct (decide (x = 2 ^ 64 - 1)) as [->|]; [done|]. rewrite Z.mod_small in Hx; lia. }
  cbv zeta. destruct (Z.eqb_spec (add64 n 1) 0) as [E|]; [|apply Hne]. rewrite E. intros <-. done.
Qed.

(** A presence proof stays good within its collection generation: a block the
    application read is still stored as long as no new epoch has been allocated
    since, even if the epoch it was read in has ended. *)
Theorem generation_presence s s1 c d acts :
  epochs_inv s -> app_Get c s = (Ok d, s1) ->
  Forall (fun x => writes_as (cidHash c) d x /\ spares (cidHash c) x) acts ->
  (forall pre, pre `prefix_of` acts -> CollectionGeneration (do_acts pre s1) = CollectionGeneration s1) ->
  stored (base (do_acts acts s1)) (cidHash c) = Some d.
Proof.
  intros HI H Hl Hgen. apply withKey_run in H as (b' & Hm & Hb & Hact & _ & Hi & _ & Hp).
  apply vGet_run in Hm as [Hs [Hd _]]. rewrite <- Hb in Hs.
  assert (HJ : stored (base s1) (cidHash c) = Some d /\ (active s1 = None \/ protects s1 (cidHash c))).
  { split; [by rewrite Hs|]. rewrite Hact. destruct (active s) eqn:E; [|by left]. right. eapply Hp; eauto. }
  clear Hp Hact Hb Hs Hd Hi HI s b'. unfold do_acts in *. revert s1 HJ Hgen.
  induction acts as [|x acts IH]; intros s1 [Hst HJ] Hgen; [done|]. apply Forall_cons_iff in Hl as [[Hw Hsp] Hl].
  simpl. assert (Hg1 : nextID (do_act x s1) = nextID s1) by (apply (Hgen [x]); by exists acts).
  apply IH; [done| |].
  2: { intros pre Hpre. transitivity (nextID s1); [|by rewrite <- Hg1]. apply (Hgen (x :: pre)). by apply prefix_cons. }
  split.
  - apply do_act_keeps; try done. intros h c' -> Hk. destruct HJ as [Hn|Hpr]; [|apply candidate_spares; by rewrite Hk].
    simpl. unfold DeleteCandidate. by rewrite bool_decide_eq_false_2 by congruence.
  - destruct HJ as [Hn|Hpr].
    + assert (Hwk : forall A c (m : M B A) good, active (snd (withKey c m good s1)) = None).
      { intros A c0 m good. destruct (withKey c0 m good s1) as [r s'] eqn:E.
        apply withKey_run in E as (? & _ & _ & E & _). simpl. congruence. }
      left. destruct x as [c0|c0|c0|c0 d'|l|c0| |h c0|h]; cbn [do_act]; try apply Hwk.
      * unfold app_PutMany, onBase. rewrite Hn. by destruct (base_putMany l (base s1)).
      * exfalso. cbn [do_act] in Hg1. unfold Begin in Hg1. rewrite Hn in Hg1. by apply bumpID_neq in Hg1.
      * unfold DeleteCandidate. by rewrite bool_decide_eq_false_2 by congruence.
      * unfold End_. destruct (eh_ended h); [done|]. cbn [snd]. by case_bool_decide.
    + pose proof Hpr as (a & e & Ha & _).
      assert (stays a x \/ exists h, x = AEnd h) as [Hsy|[h ->]].
      { destruct x; simpl; eauto. }
      * right. by eapply do_act_protects.
      * cbn [do_act]. unfold End_. destruct (eh_ended h); [by right|]. cbn [snd]. case_bool_decide; [by left|by right].
Qed.

(** Epochs exclude each other: [Begin] on an idle coordinator allocates a
    nonzero id that differs from the last generation; while an epoch is active
    [Begin] is refused with that epoch's id and changes nothing; [End] by the
    active handle returns the coordinator to idle and, repeated, answers the
    same count and changes nothing. *)
Theorem Begin_End s h s1 :
  Begin s = (Ok h, s1) ->
  active s = None /\ ActiveEpoch s1 <> 0 /\ CollectionGeneration s1 <> CollectionGeneration s /\
  Begin s1 = (Err (EEpochActive (ActiveEpoch s1)), s1) /\
  let '(n, h2, s2) := End_ h s1 in
  active s2 = None /\ base s2 = base s /\ End_ h2 s2 = (n, h2, s2).
Proof.
  unfold Begin at 1. destruct (active s) eqn:E; [done|]. intros [= <- <-].
  assert (Hid : forall n, bumpID n <> 0).
  { intros n. unfold bumpID. cbv zeta. destruct (Z.eqb_spec (add64 n 1) 0) as [->|]; [done|done]. }
  split; [done|]. unfold ActiveEpoch, CollectionGeneration. cbn [active heap nextID]. rewrite lookup_insert_eq. cbn [ep_id].
  split; [apply Hid|]. split; [apply bumpID_neq|]. split.
  - unfold Begin, ActiveEpoch. cbn [active heap]. by rewrite lookup_insert_eq.
  - unfold End_. cbn [eh_ended eh_state active]. by rewrite bool_decide_eq_true_2.
Qed.
End Store.

(** ** The application view is the blockstore the head engine asks for *)

Section Application.
Context `{MH : Multihash} {B : Type} `{BA : !BaseStore B} `{BO : !BaseStoreOk B}.

#[global] Instance app_blockstore : Blockstore (@BlockstoreEpochs MH B) :=
  {| bs_get := fun c => match c with None => fail ENotFound | Some v => app_Get v end;
     bs_put := app_Put; bs_ctx := onBase base_ctx |}.

Definition app_has (s : BlockstoreEpochs) (v : CidV) (d : bytes) : Prop :=
  stored (base s) (cidHash v) = Some d /\ addresses v d.

#[global] Program Instance app_blockstore_ok : BlockstoreOk (@BlockstoreEpochs MH B) :=
  {| bs_has := app_has; bs_live := fun s => base_live (base s) |}.
Next Obligation.
  intros c s d s' H. destruct c as [v|]; [|done]. apply withKey_run in H as (b' & Hm & Hb & _).
  apply vGet_run in Hm as (Hs & Hd & Ha). exists v. split; [done|]. split; [done|]. split; [|done].
  by rewrite Hb, Hs.
Qed.
Next Obligation.
  intros c s r s' H. destruct c as [v|]; [|by injection H as <- <-]. apply withKey_run in H as (b' & Hm & Hb & _).
  unfold app_has. rewrite Hb. pose proof Hm as [-> _]%vGet_run. split; [done|]. intros Hl.
  unfold vGet, bind in Hm. pose proof (base_live_get v (base s) Hl) as Hl'.
  destruct (base_get v (base s)) as [[d|e] b1]; simpl in Hl'; [|by injection Hm as <- <-].
  destruct (prefix_sum _ d); [|by injection Hm as <- <-]. case_bool_decide; by injection Hm as <- <-.
Qed.
Next Obligation.
  intros c x s r s' H Ha. apply withKey_run in H as (b' & Hm & Hb & _). unfold app_has. rewrite Hb. split.
  - intros v d [Hs Hv]. split; [|done]. apply base_put_spec in Hm as [Hn Hr].
    destruct (decide (cidHash v = cidHash c)) as [E|E]; [|by rewrite Hn].
    assert (x = d) as -> by (eapply prefix_sum_inj; [exact Ha|exact Hv|done]). rewrite E.
    destruct r; [done|]. destruct Hr as [_ [->| ->]]; [by rewrite <- E|done].
  - intros Hl. pose proof (base_live_put c x (base s) Hl) as Hl'. by rewrite Hm in Hl'.
Qed.
Next Obligation.
  intros s r s' H. unfold bs_ctx, app_blockstore, onBase in H. destruct (base_ctx (base s)) as [r0 b0] eqn:E.
  apply base_ctx_spec in E as [-> _]. injection H as <- <-. done.
Qed.
Next Obligation.
  intros c x s s' H Ha. apply withKey_run in H as (b' & Hm & Hb & _). apply base_put_spec in Hm as [_ ?].
  split; [by rewrite Hb|done].
Qed.
Next Obligation.
  intros v d s Hl [Hs Ha]. cbn. unfold app_Get, withKey, onBase, vGet, bind.
  pose proof (base_get_live v (base s) d Hl Hs) as Hg. destruct (base_get v (base s)) as [g b1]. simpl in Hg. subst g.
  unfold addresses in Ha. rewrite Ha. by rewrite bool_decide_eq_true_2.
Qed.
Next Obligation.
  intros c x s Hl Ha. cbn. unfold app_Put, withKey, onBase. pose proof (base_put_live c x (base s) Hl) as Hg.
  destruct (base_put c x (base s)) as [g b1]. simpl in Hg. by subst g.
Qed.
Next Obligation.
  intros s Hl. cbn. unfold onBase. pose proof (base_ctx_live (base s) Hl) as Hg.
  destruct (base_ctx (base s)) as [g b1]. done.
Qed.
Next Obligation.
  intros c s e s' H. destruct c as [v|]; [|injection H as <- <-; by left]. apply withKey_run in H as (b' & Hm & _).
  by apply vGet_run in Hm as [_ ?].
Qed.
Next Obligation.
  intros c x s e s' H. apply withKey_run in H as (b' & Hm & _). by apply base_put_spec in Hm as [_ [? _]].
Qed.
Next Obligation.
  intros s e s' H. unfold bs_ctx, app_blockstore, onBase in H. destruct (base_ctx (base s)) as [r0 b0] eqn:E.
  apply base_ctx_spec in E as [_ [->| ->]]; by simplify_eq.
Qed.
End Application.
