(* ===== verification/EpochConcurrency.v ===== *)
(** The epoch coordinator under concurrency: the locking of store/epoch.go.

    Application operations and candidate deletions run in parallel threads.  A
    thread holds [lifecycle] for reading from entry to exit, and in an epoch the
    lock of its key's shard (for [PutMany], of all the batch's shards, taken by an
    ascending scan) from before the base operation to after the touch; [Begin] and
    [End] need [lifecycle] for writing, so they run when no thread is inside.
    Every lock acquisition and release, base operation, check and touch is a step
    of its own, so the relation has every interleaving the locks allow.

    Proved by rule induction on the steps: in every reachable state a key the
    application found or wrote in the active epoch, and did not itself delete, is
    stored; some thread inside can always take a step, so overlapping batches do
    not deadlock; and every such step brings the threads inside closer to having
    all left, so a waiting [Begin] or [End] is reached. *)
From S2P Require Import Prelude Cid Store.

Section Concurrency.
Context `{MH : Multihash} {B : Type} `{BA : !BaseStore B}.
Local Abbreviation Key := (MhDigest Digest).
Local Abbreviation tid := nat.
(* (epoch, shard index) *)
Local Abbreviation lock := (nat * Z)%type.

(** What a thread was called for.  [OpRead] is Get, Has or GetSize. *)
Inductive op : Type :=
| OpRead (k : Key) | OpPut (k : Key) (d : bytes) | OpPutMany (l : list (Key * bytes))
| OpDelete (k : Key) | OpCandidate (epoch : nat) (k : Key).

(** The shards an operation locks, in the order it locks them. *)
Definition needs (o : op) : list Z :=
  match o with
  | OpRead k | OpPut k _ | OpDelete k | OpCandidate _ k => [shardOf k]
  | OpPutMany l => filter (fun i => i ∈ (shardOf ∘ fst) <$> l) (seqZ 0 epochShardCount)
  end.

(** Where a thread is; outside it has no entry.  [held] are its shard locks. *)
Inductive pc : Type :=
| PEntered (o : op) (st : option nat)                          (* lifecycle.RLock held, state := owner.active *)
| PLocking (o : op) (a : nat) (todo : list Z) (held : list lock) (* shards still to lock *)
| PTouch (ks : list Key) (a : nat) (held : list lock)          (* the base operation done, touches to come *)
| PDelete (k : Key) (a : nat) (held : list lock)               (* candidate found untouched, delete to come *)
| PExit (held : list lock).                                    (* unlock and return *)

Record cstate : Type := mkC {
  c_base : gmap Key bytes;
  c_active : option nat;
  c_next : nat;                         (* next epochState address *)
  c_touched : gset (nat * Key);         (* (epoch, multihash) *)
  c_locks : gmap lock tid;              (* a locked shard's holder *)
  c_pcs : gmap tid pc;
  (** History, not code: what the application found or wrote in an epoch and
      has not deleted since. *)
  c_keep : gset (nat * Key) }.

Definition set_pc (t : tid) (p : pc) (s : cstate) : cstate :=
  mkC (c_base s) (c_active s) (c_next s) (c_touched s) (c_locks s) (<[t := p]> (c_pcs s)) (c_keep s).
Definition set_cbase (b : gmap Key bytes) (s : cstate) : cstate :=
  mkC b (c_active s) (c_next s) (c_touched s) (c_locks s) (c_pcs s) (c_keep s).
Definition set_keep (x : gset (nat * Key)) (s : cstate) : cstate :=
  mkC (c_base s) (c_active s) (c_next s) (c_touched s) (c_locks s) (c_pcs s) x.
Definition set_locks (l : gmap lock tid) (s : cstate) : cstate :=
  mkC (c_base s) (c_active s) (c_next s) (c_touched s) l (c_pcs s) (c_keep s).
Definition add_touched (x : nat * Key) (s : cstate) : cstate :=
  mkC (c_base s) (c_active s) (c_next s) ({[ x ]} ∪ c_touched s) (c_locks s) (c_pcs s) (c_keep s).
Definition leave (t : tid) (s : cstate) : cstate :=
  mkC (c_base s) (c_active s) (c_next s) (c_touched s) (c_locks s) (delete t (c_pcs s)) (c_keep s).

Definition forget (k : Key) (s : cstate) : cstate :=
  set_keep (filter (fun x => snd x <> k) (c_keep s)) s.
Definition keep_all (a : nat) (ks : list Key) (s : cstate) : cstate :=
  set_keep (list_to_set (pair a <$> ks) ∪ c_keep s) s.

(** What a base operation may leave behind: the old bytes or the new ones, key
    by key. *)
Definition put_some (l : list (Key * bytes)) (b b' : gmap Key bytes) : Prop :=
  forall k, b' !! k = b !! k \/ exists d, (k, d) ∈ l /\ b' !! k = Some d.
Definition del_some (k : Key) (b b' : gmap Key bytes) : Prop := b' = b \/ b' = delete k b.

(** The steps of the thread [t] from [PEntered] to [PExit] included. *)
Inductive tstep (t : tid) : cstate -> cstate -> Prop :=
(* no epoch: the base operation alone *)
| S_idle_read s k : c_pcs s !! t = Some (PEntered (OpRead k) None) ->
    tstep t s (set_pc t (PExit []) s)
| S_idle_put s k d b : c_pcs s !! t = Some (PEntered (OpPut k d) None) -> put_some [(k, d)] (c_base s) b ->
    tstep t s (set_pc t (PExit []) (set_cbase b s))
| S_idle_putMany s l b : c_pcs s !! t = Some (PEntered (OpPutMany l) None) -> put_some l (c_base s) b ->
    tstep t s (set_pc t (PExit []) (set_cbase b s))
| S_idle_delete s k b : c_pcs s !! t = Some (PEntered (OpDelete k) None) -> del_some k (c_base s) b ->
    tstep t s (set_pc t (PExit []) (forget k (set_cbase b s)))
(* DeleteCandidate: owner.active != e.state *)
| S_ended s a k st : c_pcs s !! t = Some (PEntered (OpCandidate a k) st) -> st <> Some a ->
    tstep t s (set_pc t (PExit []) s)
(* an epoch: lock the shards one after the other *)
| S_epoch s o a : c_pcs s !! t = Some (PEntered o (Some a)) ->
    (forall e k, o = OpCandidate e k -> e = a) ->
    tstep t s (set_pc t (PLocking o a (needs o) []) s)
| S_lock s o a i todo held : c_pcs s !! t = Some (PLocking o a (i :: todo) held) ->
    c_locks s !! (a, i) = None ->
    tstep t s (set_pc t (PLocking o a todo ((a, i) :: held)) (set_locks (<[(a, i) := t]> (c_locks s)) s))
(* the application operation, all its shards locked *)
| S_read_ok s k a held d : c_pcs s !! t = Some (PLocking (OpRead k) a [] held) -> c_base s !! k = Some d ->
    tstep t s (set_pc t (PTouch [k] a held) (keep_all a [k] s))
| S_read_fail s k a held : c_pcs s !! t = Some (PLocking (OpRead k) a [] held) ->
    tstep t s (set_pc t (PExit held) s)
| S_put_ok s k d a held : c_pcs s !! t = Some (PLocking (OpPut k d) a [] held) ->
    tstep t s (set_pc t (PTouch [k] a held) (keep_all a [k] (set_cbase (<[k := d]> (c_base s)) s)))
| S_put_fail s k d a held b : c_pcs s !! t = Some (PLocking (OpPut k d) a [] held) ->
    put_some [(k, d)] (c_base s) b ->
    tstep t s (set_pc t (PExit held) (set_cbase b s))
| S_putMany_ok s l a held b : c_pcs s !! t = Some (PLocking (OpPutMany l) a [] held) ->
    put_some l (c_base s) b -> (forall k, k ∈ l.*1 -> is_Some (b !! k)) ->
    tstep t s (set_pc t (PTouch l.*1 a held) (keep_all a l.*1 (set_cbase b s)))
| S_putMany_fail s l a held b : c_pcs s !! t = Some (PLocking (OpPutMany l) a [] held) ->
    put_some l (c_base s) b ->
    tstep t s (set_pc t (PTouch l.*1 a held) (set_cbase b s))
| S_delete s k a held b : c_pcs s !! t = Some (PLocking (OpDelete k) a [] held) -> del_some k (c_base s) b ->
    tstep t s (set_pc t (PExit held) (forget k (set_cbase b s)))
(* touch(state, shard, key), key by key *)
| S_touch s k ks a held : c_pcs s !! t = Some (PTouch (k :: ks) a held) ->
    tstep t s (set_pc t (PTouch ks a held) (add_touched (a, k) s))
| S_touched s a held : c_pcs s !! t = Some (PTouch [] a held) ->
    tstep t s (set_pc t (PExit held) s)
(* the collector's recheck and delete *)
| S_protected s e k a held : c_pcs s !! t = Some (PLocking (OpCandidate e k) a [] held) ->
    (a, k) ∈ c_touched s ->
    tstep t s (set_pc t (PExit held) s)
| S_check s e k a held : c_pcs s !! t = Some (PLocking (OpCandidate e k) a [] held) ->
    (a, k) ∉ c_touched s ->
    tstep t s (set_pc t (PDelete k a held) s)
| S_remove s k a held b : c_pcs s !! t = Some (PDelete k a held) -> del_some k (c_base s) b ->
    tstep t s (set_pc t (PExit held) (set_cbase b s))
(* the deferred unlocks, in the reverse of the order taken *)
| S_unlock s x held : c_pcs s !! t = Some (PExit (x :: held)) ->
    tstep t s (set_pc t (PExit held) (set_locks (delete x (c_locks s)) s))
| S_leave s : c_pcs s !! t = Some (PExit []) -> tstep t s (leave t s).

Inductive cstep : cstate -> cstate -> Prop :=
| C_thread t s s' : tstep t s s' -> cstep s s'
(* withKey, PutMany, DeleteCandidate: lifecycle.RLock, state := owner.active *)
| C_enter t o s : c_pcs s !! t = None -> cstep s (set_pc t (PEntered o (c_active s)) s)
(* lifecycle.Lock: nobody is inside *)
| C_begin s : c_pcs s = ∅ -> c_active s = None ->
    cstep s (mkC (c_base s) (Some (c_next s)) (S (c_next s)) (c_touched s) (c_locks s) (c_pcs s) (c_keep s))
| C_end s a : c_pcs s = ∅ -> c_active s = Some a ->
    cstep s (mkC (c_base s) None (c_next s) (c_touched s) (c_locks s) (c_pcs s) (c_keep s)).

Definition cinit (b : gmap Key bytes) : cstate := mkC b None 0 ∅ ∅ ∅ ∅.

Inductive reachable (b : gmap Key bytes) : cstate -> Prop :=
| R_init : reachable b (cinit b)
| R_step s s' : reachable b s -> cstep s s' -> reachable b s'.

(** ** The invariant *)

(** The shard locks a thread holds at a program point. *)
Definition holds (p : pc) : list lock :=
  match p with
  | PEntered _ _ => []
  | PLocking _ _ _ held | PTouch _ _ held | PDelete _ _ held | PExit held => held
  end.

(** The epoch a thread works in. *)
Definition works_in (p : pc) : option nat :=
  match p with
  | PEntered _ st => st
  | PLocking _ a _ _ | PTouch _ a _ | PDelete _ a _ => Some a
  | PExit _ => None
  end.

(** A locking thread took its shards in ascending order and has, or will have,
    all it needs; a thread that touches or deletes has the shards for it. *)
Definition pc_ok (p : pc) : Prop :=
  NoDup (holds p) /\
  match p with
  | PEntered _ _ | PExit _ => True
  | PLocking o a todo held =>
    StronglySorted Z.lt todo /\ (forall i, i ∈ todo -> 0 <= i < epochShardCount) /\
    (forall x j, x ∈ held -> j ∈ todo -> fst x = a /\ snd x < j) /\
    (forall i, i ∈ needs o -> (a, i) ∈ held \/ i ∈ todo)
  | PTouch ks a held => forall k, k ∈ ks -> (a, shardOf k) ∈ held
  | PDelete k a held => (a, shardOf k) ∈ held
  end.

Record cinv (s : cstate) : Prop := {
  ci_pc : forall t p, c_pcs s !! t = Some p -> pc_ok p;
  ci_epoch : forall t p a, c_pcs s !! t = Some p -> works_in p = Some a -> c_active s = Some a;
  ci_lock : forall t p x, c_pcs s !! t = Some p -> x ∈ holds p -> c_locks s !! x = Some t;
  ci_holder : forall x t, c_locks s !! x = Some t -> exists p, c_pcs s !! t = Some p /\ x ∈ holds p;
  ci_check : forall t k a held, c_pcs s !! t = Some (PDelete k a held) -> (a, k) ∉ c_touched s;
  ci_keep : forall a k, (a, k) ∈ c_keep s -> c_active s = Some a ->
    is_Some (c_base s !! k) /\
    ((a, k) ∈ c_touched s \/ exists t ks held, c_pcs s !! t = Some (PTouch ks a held) /\ k ∈ ks);
  ci_next : forall a, c_active s = Some a \/ (exists k, (a, k) ∈ c_keep s \/ (a, k) ∈ c_touched s) ->
    (a < c_next s)%nat }.

Definition hold (mp : option pc) : list lock := from_option holds [] mp.

(** What thread [t], moving from the program point [mp] to [mp'], has to respect
    for the invariant to go on: this is what one thread promises the others. *)
Record respects (t : tid) (s s' : cstate) (mp mp' : option pc) : Prop := {
  rs_at : c_pcs s !! t = mp;
  rs_to : c_pcs s' !! t = mp';
  rs_others : forall u, u <> t -> c_pcs s' !! u = c_pcs s !! u;
  rs_active : c_active s' = c_active s;
  rs_next : c_next s' = c_next s;
  rs_pc : forall p, mp' = Some p -> pc_ok p;
  rs_works : forall p a, mp' = Some p -> works_in p = Some a -> c_active s = Some a;
  rs_locks : forall x, c_locks s' !! x = Some t <-> x ∈ hold mp';
  rs_unlocked : forall x u, u <> t -> c_locks s' !! x = Some u <-> c_locks s !! x = Some u;
  rs_check : forall k a held, mp' = Some (PDelete k a held) -> (a, k) ∉ c_touched s';
  rs_touch : forall a k, (a, k) ∈ c_touched s' ->
    (a, k) ∈ c_touched s \/ (c_active s = Some a /\ (a, shardOf k) ∈ hold mp);
  rs_mono : c_touched s ⊆ c_touched s';
  rs_stored : forall a k, (a, k) ∈ c_keep s' -> c_active s = Some a -> is_Some (c_base s' !! k);
  rs_keep : forall a k, (a, k) ∈ c_keep s' ->
    (c_active s = Some a /\
      ((a, k) ∈ c_touched s' \/ exists ks held, mp' = Some (PTouch ks a held) /\ k ∈ ks)) \/
    ((a, k) ∈ c_keep s /\ forall ks held, mp = Some (PTouch ks a held) -> k ∉ ks) }.

Lemma respects_cinv t s s' mp mp' : cinv s -> respects t s s' mp mp' -> cinv s'.
Proof.
  intros HI HR. split.
  - intros u p Hu. destruct (decide (u = t)) as [->|Hne].
    + rewrite (rs_to _ _ _ _ _ HR) in Hu. by eapply rs_pc.
    + rewrite (rs_others _ _ _ _ _ HR) in Hu by done. by eapply ci_pc.
  - intros u p a Hu Hw. rewrite (rs_active _ _ _ _ _ HR). destruct (decide (u = t)) as [->|Hne].
    + rewrite (rs_to _ _ _ _ _ HR) in Hu. by eapply rs_works.
    + rewrite (rs_others _ _ _ _ _ HR) in Hu by done. by eapply ci_epoch.
  - intros u p x Hu Hx. destruct (decide (u = t)) as [->|Hne].
    + rewrite (rs_to _ _ _ _ _ HR) in Hu. apply (rs_locks _ _ _ _ _ HR). by rewrite Hu.
    + rewrite (rs_others _ _ _ _ _ HR) in Hu by done. apply (rs_unlocked _ _ _ _ _ HR); [done|]. by eapply ci_lock.
  - intros x u Hx. destruct (decide (u = t)) as [->|Hne].
    + apply (rs_locks _ _ _ _ _ HR) in Hx. rewrite (rs_to _ _ _ _ _ HR).
      destruct mp' as [p|]; [by exists p|by apply not_elem_of_nil in Hx].
    + rewrite (rs_others _ _ _ _ _ HR) by done. apply (ci_holder s HI), (rs_unlocked _ _ _ _ _ HR); done.
  - intros u k a held Hu Ht. destruct (decide (u = t)) as [->|Hne].
    + rewrite (rs_to _ _ _ _ _ HR) in Hu. by eapply rs_check.
    + rewrite (rs_others _ _ _ _ _ HR) in Hu by done. apply (rs_touch _ _ _ _ _ HR) in Ht as [Ht|[_ Ht]].
      { by eapply ci_check. }
      pose proof (ci_pc s HI _ _ Hu) as [_ Hk]. simpl in Hk.
      assert (c_locks s !! (a, shardOf k) = Some u) by (by eapply (ci_lock s HI); [exact Hu|]).
      destruct mp as [p|]; [|by apply not_elem_of_nil in Ht].
      assert (c_locks s !! (a, shardOf k) = Some t) by (eapply (ci_lock s HI); [apply (rs_at _ _ _ _ _ HR)|done]).
      congruence.
  - intros a k Hk Ha. rewrite (rs_active _ _ _ _ _ HR) in Ha. split; [by eapply (rs_stored _ _ _ _ _ HR)|].
    destruct (rs_keep _ _ _ _ _ HR a k Hk) as [[_ [?|(ks & held & E & ?)]]|[Hold Hp]]; [by left| |].
    { right. exists t, ks, held. by rewrite (rs_to _ _ _ _ _ HR). }
    destruct (ci_keep s HI a k Hold Ha) as [_ [Ht|(u & ks & held & Hu & Hin)]].
    { left. by apply (rs_mono _ _ _ _ _ HR). }
    right. exists u, ks, held. split; [|done]. destruct (decide (u = t)) as [->|Hne].
    + rewrite (rs_at _ _ _ _ _ HR) in Hu. by destruct (Hp ks held Hu).
    + by rewrite (rs_others _ _ _ _ _ HR).
  - intros a Ha. rewrite (rs_next _ _ _ _ _ HR). rewrite (rs_active _ _ _ _ _ HR) in Ha. apply (ci_next s HI).
    destruct Ha as [Ha|[k [Hk|Hk]]]; [by left| |].
    + destruct (rs_keep _ _ _ _ _ HR a k Hk) as [[? _]|[? _]]; eauto.
    + apply (rs_touch _ _ _ _ _ HR) in Hk as [?|[? _]]; eauto.
Qed.

(** A thread inside that moves on and leaves locks and touched sets alone. *)
Lemma cinv_plain t s s' p p' b x :
  cinv s -> c_pcs s !! t = Some p -> s' = set_pc t p' (set_keep x (set_cbase b s)) ->
  pc_ok p' -> holds p' = holds p -> (works_in p' = None \/ works_in p' = works_in p) ->
  (forall k a held, p' = PDelete k a held -> (a, k) ∉ c_touched s) ->
  (forall a k, (a, k) ∈ x -> c_active s = Some a -> is_Some (b !! k)) ->
  (forall a k, (a, k) ∈ x ->
    (c_active s = Some a /\ exists ks held, p' = PTouch ks a held /\ k ∈ ks) \/
    ((a, k) ∈ c_keep s /\ forall ks held, p = PTouch ks a held -> k ∉ ks)) ->
  cinv s'.
Proof.
  intros HI Hp -> Hok Hh Hw Hd Hs Hk. apply (respects_cinv t s _ (Some p) (Some p') HI).
  assert (Hl : forall x0, c_locks s !! x0 = Some t <-> x0 ∈ holds p).
  { intros y. split; [|by eapply (ci_lock s HI)]. intros (q & Hq & ?)%(ci_holder s HI). congruence. }
  split; simpl; try done.
  - by rewrite lookup_insert_eq.
  - intros u Hu. by rewrite lookup_insert_ne.
  - by intros ? [= <-].
  - intros q a [= <-] E. destruct Hw as [Hw|Hw]; [congruence|]. rewrite Hw in E. by eapply (ci_epoch s HI).
  - intros y. rewrite Hh. apply Hl.
  - intros k a held [= E]. by eapply Hd.
  - auto.
  - intros a k Hx. destruct (Hk a k Hx) as [(? & ks & held & -> & ?)|[? Hn]]; [left; eauto 6|right].
    split; [done|]. intros ks held [= E]. by eapply Hn.
Qed.

(** The batch's shards: ascending, in range, and one for every key. *)
Lemma seqZ_sorted n m : StronglySorted Z.lt (seqZ n m).
Proof.
  unfold seqZ. generalize (Z.to_nat m). intros j. generalize 0%nat.
  induction j as [|j IH]; intros i; simpl; constructor; [apply IH|]. apply Forall_forall.
  intros y (y' & -> & Hy)%list_elem_of_fmap. apply elem_of_seq in Hy. lia.
Qed.

Lemma needs_sorted o : StronglySorted Z.lt (needs o).
Proof.
  destruct o as [k|k d|l|k|e k]; simpl; try by repeat constructor.
  induction (seqZ_sorted 0 epochShardCount) as [|i rest _ IH Hall]; [constructor|].
  rewrite filter_cons. case_decide; [|done]. constructor; [done|].
  apply Forall_forall. intros j [_ Hj]%list_elem_of_filter. by eapply Forall_forall in Hall.
Qed.

Lemma needs_range o i : i ∈ needs o -> 0 <= i < epochShardCount.
Proof.
  destruct o as [k|k d|l|k|e k]; simpl;
    try (intros ->%list_elem_of_singleton; apply epochShardIndex_range).
  intros [_ H]%list_elem_of_filter. apply elem_of_seqZ in H. lia.
Qed.

Lemma needs_batch l k : k ∈ l.*1 -> shardOf k ∈ needs (OpPutMany l).
Proof.
  intros Hk. apply list_elem_of_filter. split.
  - rewrite list_fmap_compose. by apply list_elem_of_fmap_2.
  - apply elem_of_seqZ. pose proof (epochShardIndex_range (key_bytes k)) as H. unfold shardOf. lia.
Qed.

(** All shards locked: the thread holds what it needs. *)
Lemma locked_all o a held : pc_ok (PLocking o a [] held) -> forall i, i ∈ needs o -> (a, i) ∈ held.
Proof. intros (_ & _ & _ & _ & H) i Hi. destruct (H i Hi) as [?|[]%not_elem_of_nil]. done. Qed.

Lemma put_some_stored l b b' k : put_some l b b' -> is_Some (b !! k) -> is_Some (b' !! k).
Proof. intros H Hk. destruct (H k) as [->|(d & _ & ->)]; [done|eauto]. Qed.

Lemma del_some_other k b b' k' : del_some k b b' -> k' <> k -> b' !! k' = b !! k'.
Proof. intros [->| ->] Hne; [done|]. by rewrite lookup_delete_ne. Qed.

Lemma elem_forget a k k' s : (a, k') ∈ c_keep (forget k s) <-> k' <> k /\ (a, k') ∈ c_keep s.
Proof. simpl. by rewrite elem_of_filter. Qed.

Lemma elem_keep_all a ks s a' k : (a', k) ∈ c_keep (keep_all a ks s) <-> (a' = a /\ k ∈ ks) \/ (a', k) ∈ c_keep s.
Proof.
  simpl. rewrite elem_of_union, elem_of_list_to_set, list_elem_of_fmap. split.
  - intros [(k' & [= -> ->] & ?)|?]; auto.
  - intros [[-> ?]|?]; eauto.
Qed.

(** The candidate a collector is about to delete is not in [c_keep]. *)
Lemma delete_spares s t k a held : cinv s -> c_pcs s !! t = Some (PDelete k a held) -> (a, k) ∉ c_keep s.
Proof.
  intros HI Hp Hk. pose proof (ci_epoch s HI _ _ a Hp eq_refl) as Ha.
  destruct (ci_keep s HI a k Hk Ha) as [_ [Ht|(u & ks & h & Hu & Hin)]].
  { by eapply (ci_check s HI). }
  pose proof (ci_pc s HI _ _ Hu) as [_ Hks]. pose proof (ci_pc s HI _ _ Hp) as [_ Hd]. simpl in *.
  assert (c_locks s !! (a, shardOf k) = Some u) by (eapply (ci_lock s HI); [exact Hu|by apply Hks]).
  assert (c_locks s !! (a, shardOf k) = Some t) by (by eapply (ci_lock s HI); [exact Hp|]).
  congruence.
Qed.

Lemma keep_stored s a k : cinv s -> (a, k) ∈ c_keep s -> c_active s = Some a -> is_Some (c_base s !! k).
Proof. intros HI Hk Ha. by destruct (ci_keep s HI a k Hk Ha). Qed.

#[local] Hint Resolve keep_stored put_some_stored : core.

(** The steps on locks and touched sets. *)
Lemma lock_cinv t s o a i todo held :
  cinv s -> c_pcs s !! t = Some (PLocking o a (i :: todo) held) -> c_locks s !! (a, i) = None ->
  cinv (set_pc t (PLocking o a todo ((a, i) :: held)) (set_locks (<[(a, i) := t]> (c_locks s)) s)).
Proof.
  intros HI Hp Hl. pose proof (ci_pc s HI _ _ Hp) as (Hnd & Hso & Hr & Hlt & Hn). simpl in *.
  assert (Hnew : (a, i) ∉ held) by (intros Hin; rewrite (ci_lock s HI _ _ _ Hp Hin) in Hl; done).
  eapply (respects_cinv t s _ _ (Some (PLocking o a todo ((a, i) :: held))) HI). split; simpl; eauto.
  - by rewrite lookup_insert_eq.
  - intros u Hu. by rewrite lookup_insert_ne.
  - intros p [= <-]. apply StronglySorted_inv in Hso as [Hso Hall]. rewrite Forall_forall in Hall.
    split; [by apply NoDup_cons|]. split; [done|]. split; [intros j Hj; apply Hr; by right|]. split.
    + intros x j Hx Hj. apply elem_of_cons in Hx as [->|Hx]; [split; [done|by apply Hall]|]. apply Hlt; [done|by right].
    + intros j Hj. destruct (Hn j Hj) as [?|Hin]; [left; by right|].
      apply elem_of_cons in Hin as [->|?]; [left; by left|by right].
  - intros p a' [= <-] [= <-]. by eapply (ci_epoch s HI).
  - intros x. rewrite elem_of_cons. destruct (decide (x = (a, i))) as [->|Hne].
    + rewrite lookup_insert_eq. intuition.
    + rewrite lookup_insert_ne by congruence. split.
      * intros (q & Hq & Hx)%(ci_holder s HI). rewrite Hp in Hq. injection Hq as <-. by right.
      * intros [?|Hx]; [done|]. by eapply (ci_lock s HI); [exact Hp|].
  - intros x u Hu. destruct (decide (x = (a, i))) as [->|Hne].
    + rewrite lookup_insert_eq, Hl. split; congruence.
    + by rewrite lookup_insert_ne by congruence.
  - done.
  - intros a' k Hk. by right.
Qed.

Lemma touch_cinv t s k ks a held :
  cinv s -> c_pcs s !! t = Some (PTouch (k :: ks) a held) ->
  cinv (set_pc t (PTouch ks a held) (add_touched (a, k) s)).
Proof.
  intros HI Hp. pose proof (ci_pc s HI _ _ Hp) as (Hnd & Hks). simpl in *.
  pose proof (ci_epoch s HI _ _ a Hp eq_refl) as Ha.
  eapply (respects_cinv t s _ _ (Some (PTouch ks a held)) HI). split; simpl; eauto.
  - by rewrite lookup_insert_eq.
  - intros u Hu. by rewrite lookup_insert_ne.
  - intros p [= <-]. split; [done|]. intros k' Hk'. apply Hks. by right.
  - intros p a' [= <-] [= <-]. done.
  - intros x. split; [|intros Hx; by eapply (ci_lock s HI); [exact Hp|]]. intros (q & Hq & ?)%(ci_holder s HI). rewrite Hp in Hq. by injection Hq as <-.
  - done.
  - intros a' k' [E%elem_of_singleton|?]%elem_of_union; [|by left]. injection E as -> ->. right. split; [done|].
    apply Hks. by left.
  - set_solver.
  - intros a' k' Hk. destruct (decide ((a', k') = (a, k))) as [[= -> ->]|Hne]; [left; split; [done|left; set_solver]|].
    destruct (decide (a' = a /\ k' ∈ ks)) as [[-> ?]|Hn].
    + left. split; [done|]. right. eauto.
    + right. split; [done|]. intros ks' h [= <- <- <-] [->|?]%elem_of_cons; [done|]. by apply Hn.
Qed.

Lemma unlock_cinv t s x held :
  cinv s -> c_pcs s !! t = Some (PExit (x :: held)) ->
  cinv (set_pc t (PExit held) (set_locks (delete x (c_locks s)) s)).
Proof.
  intros HI Hp. pose proof (ci_pc s HI _ _ Hp) as (Hnd & _). simpl in *. apply NoDup_cons in Hnd as [Hx Hnd].
  assert (Hlx : c_locks s !! x = Some t) by (eapply (ci_lock s HI); [exact Hp|by left]).
  eapply (respects_cinv t s _ _ (Some (PExit held)) HI). split; simpl; eauto; try done.
  - by rewrite lookup_insert_eq.
  - intros u Hu. by rewrite lookup_insert_ne.
  - by intros p [= <-].
  - by intros p a' [= <-].
  - intros y. destruct (decide (y = x)) as [->|Hne]; [rewrite lookup_delete_eq; done|].
    rewrite lookup_delete_ne by done. split.
    + intros (q & Hq & Hy)%(ci_holder s HI). rewrite Hp in Hq. injection Hq as <-. simpl in Hy.
      apply elem_of_cons in Hy as [?|?]; done.
    + intros Hy. eapply (ci_lock s HI); [exact Hp|by right].
  - intros y u Hu. destruct (decide (y = x)) as [->|Hne]; [rewrite lookup_delete_eq, Hlx; split; congruence|].
    by rewrite lookup_delete_ne.
  - intros a k Hk. by right.
Qed.

Lemma leave_cinv t s : cinv s -> c_pcs s !! t = Some (PExit []) -> cinv (leave t s).
Proof.
  intros HI Hp. eapply (respects_cinv t s _ _ None HI). split; simpl; eauto; try done.
  - by rewrite lookup_delete_eq.
  - intros u Hu. by rewrite lookup_delete_ne.
  - intros x. split; [|by intros []%not_elem_of_nil]. intros (q & Hq & Hy)%(ci_holder s HI). rewrite Hp in Hq.
    by injection Hq as <-.
  - intros a k Hk. by right.
Qed.

(** Steps to the exit, or to the touch, that leave the touched sets and locks. *)
Lemma cinv_exit t s p p' b x :
  cinv s -> c_pcs s !! t = Some p -> p' = PExit (holds p) ->
  (forall ks a held, p = PTouch ks a held -> ks = []) ->
  (forall a k, (a, k) ∈ x -> (a, k) ∈ c_keep s) ->
  (forall a k, (a, k) ∈ x -> c_active s = Some a -> is_Some (b !! k)) ->
  cinv (set_pc t p' (set_keep x (set_cbase b s))).
Proof.
  intros HI Hp -> Ht Hx Hb. eapply (cinv_plain t s _ p _ b x HI Hp eq_refl); try done.
  - split; [|done]. simpl. by apply (ci_pc s HI _ _ Hp).
  - by left.
  - intros a k Hk. right. split; [by apply Hx|]. intros ks held E. rewrite (Ht _ _ _ E). apply not_elem_of_nil.
Qed.

Lemma cinv_touch t s o a held ks b new :
  cinv s -> c_pcs s !! t = Some (PLocking o a [] held) ->
  (forall k, k ∈ ks -> shardOf k ∈ needs o) -> new ⊆ ks ->
  (forall k, is_Some (c_base s !! k) \/ k ∈ new -> is_Some (b !! k)) ->
  cinv (set_pc t (PTouch ks a held) (keep_all a new (set_cbase b s))).
Proof.
  intros HI Hp Hn Hnew Hb. pose proof (ci_pc s HI _ _ Hp) as Hok.
  pose proof (ci_epoch s HI _ _ a Hp eq_refl) as Ha.
  eapply (cinv_plain t s _ _ _ b (list_to_set (pair a <$> new) ∪ c_keep s) HI Hp eq_refl); try done.
  - split; [by destruct Hok|]. intros k Hk. by apply (locked_all o), Hn.
  - by right.
  - intros a' k Hk Ha'. apply (elem_keep_all a new s) in Hk as [[_ ?]|?]; eauto.
  - intros a' k Hk. apply (elem_keep_all a new s) in Hk as [[-> ?]|?]; [left|by right].
    split; [done|]. exists ks, held. split; [done|by apply Hnew].
Qed.

Lemma tstep_cinv t s s' : cinv s -> tstep t s s' -> cinv s'.
Proof.
  intros HI Hst. destruct Hst as
    [s k Hp|s k d b Hp Hb|s l b Hp Hb|s k b Hp Hb|s a k st Hp Hne|s o a Hp Ho|s o a i todo held Hp Hl
    |s k a held d Hp Hd|s k a held Hp|s k d a held Hp|s k d a held b Hp Hb|s l a held b Hp Hb Hall|s l a held b Hp Hb
    |s k a held b Hp Hb|s k ks a held Hp|s a held Hp|s e k a held Hp Ht|s e k a held Hp Ht|s k a held b Hp Hb
    |s x held Hp|s Hp].
  - eapply (cinv_exit t s _ _ (c_base s) (c_keep s)); eauto; done.
  - eapply (cinv_exit t s _ _ b (c_keep s)); eauto; done.
  - eapply (cinv_exit t s _ _ b (c_keep s)); eauto; done.
  - eapply (cinv_exit t s _ _ b (c_keep (forget k s))); eauto; [done| |].
    + intros a k' H. apply elem_forget in H. by destruct H.
    + intros a k' [? ?]%elem_forget ?. erewrite del_some_other by done. eauto.
  - eapply (cinv_exit t s _ _ (c_base s) (c_keep s)); eauto; done.
  - eapply (cinv_plain t s _ _ _ (c_base s) (c_keep s) HI Hp eq_refl); eauto; [|done|by intros; right].
    split; [apply NoDup_nil_2|]. split; [apply needs_sorted|]. split; [intros i; apply needs_range|].
    split; [by intros x j []%not_elem_of_nil|by right].
  - by apply (lock_cinv t s o a i todo held).
  - eapply (cinv_touch t s _ _ _ [k] (c_base s) [k]); eauto; [set_solver|].
    intros k' [?| ->%list_elem_of_singleton]; [done|]. by rewrite Hd.
  - eapply (cinv_exit t s _ _ (c_base s) (c_keep s)); eauto; done.
  - eapply (cinv_touch t s _ _ _ [k] _ [k]); eauto; [set_solver|].
    intros k' H. destruct (decide (k' = k)) as [->|]; [rewrite lookup_insert_eq; eauto|].
    rewrite lookup_insert_ne by done. destruct H as [?| ->%list_elem_of_singleton]; done.
  - eapply (cinv_exit t s _ _ b (c_keep s)); eauto; done.
  - eapply (cinv_touch t s _ _ _ l.*1 b l.*1); eauto; [apply needs_batch|]. intros k [?|?]; eauto.
  - replace (set_cbase b s) with (keep_all a [] (set_cbase b s)).
    2:{ unfold keep_all, set_keep. simpl. unfold set_cbase. f_equal. set_solver. }
    eapply (cinv_touch t s _ _ _ l.*1 b []); eauto; [apply needs_batch|set_solver|].
    intros k [?|[]%not_elem_of_nil]; eauto.
  - eapply (cinv_exit t s _ _ b (c_keep (forget k s))); eauto; [done| |].
    + intros a' k' H. apply elem_forget in H. by destruct H.
    + intros a' k' [? ?]%elem_forget ?. erewrite del_some_other by done. eauto.
  - by apply touch_cinv.
  - eapply (cinv_exit t s _ _ (c_base s) (c_keep s)); eauto. by intros ? ? ? [= <- _].
  - eapply (cinv_exit t s _ _ (c_base s) (c_keep s)); eauto; done.
  - eapply (cinv_plain t s _ _ _ (c_base s) (c_keep s) HI Hp eq_refl); eauto.
    + pose proof (ci_pc s HI _ _ Hp) as Hok. split; [by destruct Hok|]. apply (locked_all (OpCandidate e k)); [done|].
      by apply list_elem_of_singleton.
    + by intros ? ? ? [= <- <- _].
    + by right.
  - eapply (cinv_exit t s _ _ b (c_keep s)); eauto; [done|].
    intros a' k' Hk Ha. pose proof (ci_epoch s HI _ _ a Hp eq_refl). replace a' with a in * by congruence.
    pose proof (delete_spares s t k a held HI Hp). erewrite del_some_other; [eauto|done|congruence].
  - by apply unlock_cinv.
  - by apply leave_cinv.
Qed.

Lemma cstep_cinv s s' : cinv s -> cstep s s' -> cinv s'.
Proof.
  intros HI Hst. destruct Hst as [t s s' Ht|t o s Hp|s Hp Ha|s a Hp Ha].
  - by eapply tstep_cinv.
  - eapply (respects_cinv t s _ _ (Some (PEntered o (c_active s))) HI). split; simpl; eauto; try done.
    + by rewrite lookup_insert_eq.
    + intros u Hu. by rewrite lookup_insert_ne.
    + intros p [= <-]. split; [apply NoDup_nil_2|done].
    + by intros p a [= <-].
    + intros x. split; [|by intros []%not_elem_of_nil]. intros (q & Hq & _)%(ci_holder s HI). congruence.
    + intros a k Hk. by right.
  - split; simpl; try (intros *; rewrite Hp, lookup_empty; done).
    + intros x t Hx. destruct (ci_holder s HI x t Hx) as (p & Hq & _). rewrite Hp, lookup_empty in Hq. done.
    + intros a k Hk [= <-]. exfalso. assert (c_next s < c_next s)%nat by (apply (ci_next s HI); eauto). lia.
    + intros a [[= <-]|Hk]; [lia|]. assert (a < c_next s)%nat by (apply (ci_next s HI); eauto). lia.
  - split; simpl; try (intros *; rewrite Hp, lookup_empty; done).
    + intros x t Hx. destruct (ci_holder s HI x t Hx) as (p & Hq & _). rewrite Hp, lookup_empty in Hq. done.
    + done.
    + intros a' [?|Hk]; [done|]. apply (ci_next s HI). eauto.
Qed.

Lemma cinit_cinv b : cinv (cinit b).
Proof.
  split; simpl; try (intros *; rewrite lookup_empty; done); try done.
  intros a [?|[k [H|H]]]; [done|by apply elem_of_empty in H..].
Qed.

Lemma reachable_cinv b s : reachable b s -> cinv s.
Proof. induction 1; [apply cinit_cinv|by eapply cstep_cinv]. Qed.

(** C22: Whatever the interleaving, a block the application found or wrote in the
    active epoch and did not itself delete since is stored, and the collector is
    not about to delete it: no thread is past the check for it. *)
Theorem touched_never_collected b s a k :
  reachable b s -> c_active s = Some a -> (a, k) ∈ c_keep s ->
  is_Some (c_base s !! k) /\ forall t held, c_pcs s !! t <> Some (PDelete k a held).
Proof.
  intros Hr%reachable_cinv Ha Hk. split; [by eapply keep_stored|]. intros t held Hp. by eapply delete_spares.
Qed.

(** ** Progress *)

Lemma tstep_entered t s o st :
  cinv s -> c_pcs s !! t = Some (PEntered o st) -> exists s', tstep t s s'.
Proof.
  intros HI Hp. assert (Hid : forall l, put_some l (c_base s) (c_base s)) by (intros l k; by left).
  destruct st as [a|].
  - destruct o as [k|k d|l|k|e k]; try (eexists; eapply S_epoch; [exact Hp|by intros ? ? [=]]).
    destruct (decide (e = a)) as [->|Hne].
    + eexists. eapply S_epoch; [exact Hp|]. by intros ? ? [= -> ->].
    + eexists. eapply S_ended; [exact Hp|congruence].
  - destruct o as [k|k d|l|k|e k]; eexists.
    + by eapply S_idle_read.
    + eapply S_idle_put; [exact Hp|apply Hid].
    + eapply S_idle_putMany; [exact Hp|apply Hid].
    + eapply S_idle_delete; [exact Hp|by left].
    + by eapply S_ended.
Qed.

Lemma tstep_locked t s o a held :
  c_pcs s !! t = Some (PLocking o a [] held) -> exists s', tstep t s s'.
Proof.
  intros Hp. destruct o as [k|k d|l|k|e k].
  - eexists. by eapply S_read_fail.
  - eexists. by eapply S_put_ok.
  - eexists. eapply S_putMany_fail; [exact Hp|]. intros k. by left.
  - eexists. eapply S_delete; [exact Hp|by left].
  - destruct (decide ((a, k) ∈ c_touched s)); eexists; [by eapply S_protected|by eapply S_check].
Qed.

(** A thread that waits for a shard waits for one that holds it, which itself
    waits for none or for a later shard. *)
Lemma tstep_waiting n s t o a i todo held :
  cinv s -> c_pcs s !! t = Some (PLocking o a (i :: todo) held) -> epochShardCount - i <= Z.of_nat n ->
  exists u s', tstep u s s'.
Proof.
  intros HI. revert t o i todo held. induction n as [|n IH]; intros t o i todo held Hp Hn;
    pose proof (ci_pc s HI _ _ Hp) as (_ & _ & Hr & _ & _); specialize (Hr i ltac:(by left)); [lia|].
  destruct (c_locks s !! (a, i)) as [u|] eqn:Hl; [|exists t; eexists; by eapply S_lock].
  destruct (ci_holder s HI _ _ Hl) as (p & Hu & Hx).
  destruct p as [o' st|o' a' todo' held'|ks a' held'|k a' held'|held'].
  - by apply not_elem_of_nil in Hx.
  - destruct todo' as [|j todo']; [exists u; by eapply tstep_locked|].
    pose proof (ci_pc s HI _ _ Hu) as (_ & _ & _ & Hlt & _). simpl in *.
    destruct (Hlt (a, i) j Hx ltac:(by left)) as [E Hij]. simpl in E, Hij. subst a'.
    by apply (IH u o' j todo' held' Hu ltac:(lia)).
  - exists u. destruct ks as [|k ks]; eexists; [by eapply S_touched|by eapply S_touch].
  - exists u. eexists. eapply S_remove; [exact Hu|by left].
  - exists u. destruct held'; eexists; [by eapply S_leave|by eapply S_unlock].
Qed.

Lemma inside_progress s : cinv s -> c_pcs s <> ∅ -> exists t s', tstep t s s'.
Proof.
  intros HI Hne. destruct (map_choose _ Hne) as (t & p & Hp).
  destruct p as [o st|o a todo held|ks a held|k a held|held].
  - exists t. by eapply tstep_entered.
  - destruct todo as [|i todo]; [exists t; by eapply tstep_locked|].
    eapply (tstep_waiting (Z.to_nat (epochShardCount - i))); [done|done|lia].
  - exists t. destruct ks as [|k ks]; eexists; [by eapply S_touched|by eapply S_touch].
  - exists t. eexists. eapply S_remove; [exact Hp|by left].
  - exists t. destruct held; eexists; [by eapply S_leave|by eapply S_unlock].
Qed.

(** C23: The locks do not deadlock: as long as threads are inside, one of them can
    take its next step, also when several batches wait for each other's shards. *)
Theorem locks_no_deadlock b s :
  reachable b s -> c_pcs s <> ∅ -> exists t s', is_Some (c_pcs s !! t) /\ tstep t s s'.
Proof.
  intros Hr Hne. destruct (inside_progress s (reachable_cinv b s Hr) Hne) as (t & s' & H).
  exists t, s'. split; [|done]. by destruct H; eexists.
Qed.

(** ** Draining *)

(** The steps a thread has left, at most. *)
Definition op_keys (o : op) : nat := match o with OpPutMany l => length l | _ => 1 end.
Definition work (p : pc) : nat :=
  match p with
  | PEntered o _ => 4 + op_keys o + 2 * length (needs o)
  | PLocking o _ todo held => 3 + op_keys o + 2 * length todo + length held
  | PTouch ks _ held => 2 + length ks + length held
  | PDelete _ _ held => 2 + length held
  | PExit held => 1 + length held
  end.
Definition inside (s : cstate) : nat := map_fold (fun _ p n => work p + n)%nat 0%nat (c_pcs s).

Lemma inside_at s t p : c_pcs s !! t = Some p -> inside s = (work p + inside (leave t s))%nat.
Proof.
  intros H. unfold inside. apply (map_fold_delete_L (fun (_ : tid) p n => work p + n)%nat); [|done]. intros. lia.
Qed.

Lemma tstep_work t s s' : tstep t s s' ->
  exists p, c_pcs s !! t = Some p /\ inside (leave t s') = inside (leave t s) /\
    (forall p', c_pcs s' !! t = Some p' -> (work p' < work p)%nat) /\ (0 < work p)%nat.
Proof.
  destruct 1; eexists; (split; [eassumption|]); (split; [unfold inside; simpl; by rewrite ?delete_insert_eq, ?delete_delete_eq|]);
    (split; [|simpl; lia]); intros p'; simpl; rewrite ?lookup_insert_eq, ?lookup_delete_eq;
    intros [= <-]; simpl; rewrite ?length_fmap; lia.
Qed.

Lemma tstep_decreases t s s' : tstep t s s' -> (inside s' < inside s)%nat.
Proof.
  intros H. destruct (tstep_work t s s' H) as (p & Hp & Hl & Hw & H0). rewrite (inside_at s t p Hp).
  destruct (c_pcs s' !! t) as [p'|] eqn:E.
  - rewrite (inside_at s' t p' E). specialize (Hw p' eq_refl). lia.
  - rewrite <- Hl. unfold inside. simpl. rewrite delete_id by done. lia.
Qed.

(** Without new arrivals the threads inside all leave: a run of thread steps has
    at most [inside s] steps, wherever it stops short of empty it can go on, and
    the state it ends in has no shard locked.  So a collector waiting in [Begin]
    or [End] for the lifecycle lock gets it. *)
Theorem threads_drain b s :
  reachable b s ->
  (forall n s', nsteps (fun x y => exists t, tstep t x y) n s s' -> (n <= inside s)%nat) /\
  (exists s', rtc (fun x y => exists t, tstep t x y) s s' /\ c_pcs s' = ∅ /\ c_locks s' = ∅).
Proof.
  intros HI%reachable_cinv. split.
  - clear HI. intros n s' H. induction H as [|n x y z [t Hxy%tstep_decreases] _ IH]; lia.
  - remember (inside s) as n eqn:En. revert s HI En. induction n as [n IH] using lt_wf_ind. intros s HI En.
    destruct (decide (c_pcs s = ∅)) as [E|Hne].
    + exists s. split; [done|]. split; [done|]. apply map_eq. intros x. rewrite lookup_empty.
      destruct (c_locks s !! x) as [t|] eqn:Hx; [|done]. destruct (ci_holder s HI x t Hx) as (p & Hp & _).
      by rewrite E, lookup_empty in Hp.
    + destruct (inside_progress s HI Hne) as (t & s1 & Hst).
      destruct (IH (inside s1)) with (s := s1) as (s' & Hr & Hs'); [subst; by eapply tstep_decreases|by eapply tstep_cinv|done|].
      exists s'. split; [|done]. eapply rtc_l; [by exists t|done].
Qed.
End Concurrency.
