(* ===== verification/Ledger.v ===== *)
(** The blob catalog and the pin ledger: catalog/catalog.go, catalog/ledger.go.

    Both are key layouts over one ordered key-value store (Pebble), a parameter
    given as the class [Pebble]; [cid.Bytes]/[cid.Cast] are the parameter
    [CidBytes].  The theorems: values and keys decode to what was encoded, the
    prefix scans are exact (the rows of one head and nothing else), the two
    structures do not overlap, and the ledger refines the abstract map from
    (head, purpose, CID) to pins that reconciliation works against. *)
From Stdlib Require Import Ascii.
From Stdlib Require String.
From Stdlib Require Strings.Byte.
From S2P Require Import Prelude Cid Schema.

(** ** Parameters *)

Class CidBytes `{Multihash} : Type := {
  cid_bytes : CidV -> bytes;
  cid_cast : bytes -> option CidV;
  cast_bytes : forall c, cid_cast (cid_bytes c) = Some c;
  cid_bytes_nonempty : forall c, cid_bytes c <> []
}.

(** Byte strings compare bytewise ([bytes.Compare], Pebble's default order). *)
Definition byte_Z (b : byte) : Z := Z.of_N (Byte.to_N b).
Fixpoint bytes_ltb (a b : bytes) : bool :=
  match a, b with
  | _, [] => false
  | [], _ :: _ => true
  | x :: a', y :: b' => if byte_Z x <? byte_Z y then true
                        else if byte_Z y <? byte_Z x then false else bytes_ltb a' b'
  end.
Definition bytes_lt (a b : bytes) : Prop := bytes_ltb a b = true.

(** [lo <= k < hi]; no [hi] is unbounded. *)
Definition in_range (lo : bytes) (hi : option bytes) (k : bytes) : bool :=
  negb (bytes_ltb k lo) && match hi with Some h => bytes_ltb k h | None => true end.

Inductive kvop : Type := KSet (k v : bytes) | KDelete (k : bytes).

(** A scan yields rows and then ends, with the iterator's error if it has one. *)
Class Pebble (K : Type) : Type := {
  kv_get : bytes -> M K (option bytes);
  kv_set : bytes -> bytes -> M K unit;
  kv_delete : bytes -> M K unit;
  kv_deleteRange : bytes -> option bytes -> M K unit;
  kv_commit : list kvop -> M K unit;
  kv_scan : bytes -> option bytes -> M K (list (bytes * bytes) * option err);
  kv_ctx : M K unit
}.

Definition kv_apply (o : kvop) (m : gmap bytes bytes) : gmap bytes bytes :=
  match o with KSet k v => <[k := v]> m | KDelete k => delete k m end.
Definition kv_applys (l : list kvop) (m : gmap bytes bytes) : gmap bytes bytes :=
  foldl (fun m o => kv_apply o m) m l.

(** What is relied on: an ordered map; a synced write that reports success
    happened, one that reports failure happened whole or not at all (the
    write-ahead log makes a batch atomic); reads do not change it. *)
Class PebbleOk (K : Type) `{!Pebble K} : Type := {
  kv : K -> gmap bytes bytes;
  kv_get_spec : forall k s r s', kv_get k s = (r, s') -> kv s' = kv s /\
    match r with Ok v => v = kv s !! k | Err e => e = EIO end;
  kv_set_spec : forall k v s r s', kv_set k v s = (r, s') ->
    match r with
    | Ok _ => kv s' = <[k := v]> (kv s)
    | Err e => e = EIO /\ (kv s' = kv s \/ kv s' = <[k := v]> (kv s))
    end;
  kv_delete_spec : forall k s r s', kv_delete k s = (r, s') ->
    match r with
    | Ok _ => kv s' = delete k (kv s)
    | Err e => e = EIO /\ (kv s' = kv s \/ kv s' = delete k (kv s))
    end;
  kv_deleteRange_spec : forall lo hi s r s', kv_deleteRange lo hi s = (r, s') ->
    match r with
    | Ok _ => kv s' = filter (fun x => in_range lo hi (fst x) = false) (kv s)
    | Err e => e = EIO /\
        (kv s' = kv s \/ kv s' = filter (fun x => in_range lo hi (fst x) = false) (kv s))
    end;
  kv_commit_spec : forall l s r s', kv_commit l s = (r, s') ->
    match r with
    | Ok _ => kv s' = kv_applys l (kv s)
    | Err e => e = EIO /\ (kv s' = kv s \/ kv s' = kv_applys l (kv s))
    end;
  kv_scan_spec : forall lo hi s r s', kv_scan lo hi s = (r, s') -> kv s' = kv s /\
    match r with
    | Ok (rows, None) => StronglySorted bytes_lt rows.*1 /\
        forall k v, (k, v) ∈ rows <-> kv s !! k = Some v /\ in_range lo hi k = true
    | Ok (rows, Some e) => e = EIO /\ forall k v, (k, v) ∈ rows -> kv s !! k = Some v /\ in_range lo hi k = true
    | Err e => e = EIO
    end;
  kv_ctx_spec : forall s r s', kv_ctx s = (r, s') -> s' = s /\ (r = Ok tt \/ r = Err ECancelled);
  (** States in which the store does not fail. *)
  kv_live : K -> Prop;
  kv_live_ok : forall s, kv_live s ->
    fst (kv_ctx s) = Ok tt /\ (forall k, is_ok (fst (kv_get k s))) /\
    (forall k v, is_ok (fst (kv_set k v s))) /\ (forall k, is_ok (fst (kv_delete k s))) /\
    (forall l, is_ok (fst (kv_commit l s))) /\
    (forall lo hi, exists rows s', kv_scan lo hi s = (Ok (rows, None), s'));
  kv_live_next : forall s, kv_live s ->
    (forall k, kv_live (snd (kv_get k s))) /\ (forall k v, kv_live (snd (kv_set k v s))) /\
    (forall k, kv_live (snd (kv_delete k s))) /\ (forall l, kv_live (snd (kv_commit l s))) /\
    (forall lo hi, kv_live (snd (kv_scan lo hi s)))
}.

(** ** time.Time

    Nanoseconds since the Unix epoch; the zero Time is the first instant of
    year 1. *)
Definition Time : Type := Z.
Definition zeroTime : Time := -62135596800 * 10 ^ 9.
Definition IsZero (t : Time) : bool := t =? zeroTime.
Definition Unix (t : Time) : Z := t / 10 ^ 9.
Definition time_Unix (sec : Z) : Time := sec * 10 ^ 9.
Definition After (t u : Time) : bool := u <? t.

(** ** Bytes *)

Definition byte_of_Z (z : Z) : byte := default Byte.x00 (Byte.of_N (Z.to_N (z mod 256))).
(** binary.BigEndian *)
Definition PutUint64 (v : Z) : bytes :=
  (fun i => byte_of_Z (Z.shiftr v i)) <$> [56; 48; 40; 32; 24; 16; 8; 0].
Definition Uint64 (b : bytes) : Z := foldl (fun a x => a * 256 + byte_Z x) 0 b.

Definition string_bytes : string -> bytes := String.list_byte_of_string.
Definition bytes_string : bytes -> string := String.string_of_list_byte.

(** bytes.IndexByte(rest, 0): what precedes and what follows the first NUL. *)
Fixpoint cutNUL (l : bytes) : option (bytes * bytes) :=
  match l with
  | [] => None
  | x :: l' => if Byte.eqb x Byte.x00 then Some ([], l')
               else match cutNUL l' with Some (a, b) => Some (x :: a, b) | None => None end
  end.

(** The exclusive end of the keys prefixed by [prefix]: the loop from the last
    byte down, on the reversed prefix. *)
Fixpoint upperLoop (rev : bytes) : option bytes :=
  match rev with
  | [] => None
  | x :: rest => if byte_Z x <? 0xFF then Some (reverse (byte_of_Z (byte_Z x + 1) :: rest))
                 else upperLoop rest
  end.
Definition keyUpperBound (prefix : bytes) : option bytes := upperLoop (reverse prefix).

Definition prefixCatalog : byte := Byte.x63. (* 'c' *)
Definition prefixLedger : byte := Byte.x70.  (* 'p' *)
Definition nameSep : byte := Byte.x00.
Definition flagRecursive : Z := 1.
Definition flagExpires : Z := 2.
Definition expirySize : Z := 8.

Definition catalogKey (vh : VersionedHash) : bytes := prefixCatalog :: vh_bytes vh.

Definition encodePinValue (recursive : bool) (expiry : Time) : bytes :=
  let flags := if recursive then Z.lor 0 flagRecursive else 0 in
  if IsZero expiry then [byte_of_Z flags]
  else byte_of_Z (Z.lor flags flagExpires) :: PutUint64 (u64 (Unix expiry)).

Definition decodePinValue (val : bytes) : res (bool * Time) :=
  match val with
  | [] => Ok (false, zeroTime)
  | f :: rest =>
    let flags := byte_Z f in
    let recursive := negb (Z.land flags flagRecursive =? 0) in
    if Z.land flags flagExpires =? 0 then Ok (recursive, zeroTime)
    else refuse_if len val <? 1 + expirySize with EInvalid "pin value claims an expiry" ;;
         Ok (recursive, time_Unix (int64 (Uint64 (take 8 rest))))
  end.

Definition checkName (s : string) : res unit :=
  match s with
  | EmptyString => Err (EInvalid "name must not be empty")
  | _ => if existsb (Byte.eqb nameSep) (string_bytes s)
         then Err (EInvalid "name must not contain a NUL byte") else Ok tt
  end.
Definition checkNames (head purpose : string) : res unit :=
  _ <-? checkName head ;; checkName purpose.

Definition headPrefix (head : string) : bytes := prefixLedger :: string_bytes head ++ [nameSep].
Definition purposePrefix (head purpose : string) : bytes := headPrefix head ++ string_bytes purpose ++ [nameSep].

Section Catalog.
Context `{MH : Multihash} `{CC : !CidBytes} {K : Type} `{PB : !Pebble K}.

(** ** catalog.Catalog *)

Record Entry : Type := mkCatalogEntry { ce_VH : VersionedHash; ce_Blob : Cid }.

Definition Catalog_Put (vh : VersionedHash) (blob : Cid) : M K unit :=
  kv_ctx ;;;
  match blob with
  | None => fail (EInvalid "undefined CID")
  | Some c => kv_set (catalogKey vh) (cid_bytes c)
  end.

(** The batch is staged in memory; a refused entry leaves nothing behind. *)
Fixpoint stageEntries (l : list Entry) : res (list kvop) :=
  match l with
  | [] => Ok []
  | e :: l' => match ce_Blob e with
               | None => Err (EInvalid "undefined CID")
               | Some c => ops <-? stageEntries l' ;; Ok (KSet (catalogKey (ce_VH e)) (cid_bytes c) :: ops)
               end
  end.
Definition Catalog_PutBatch (entries : list Entry) : M K unit :=
  kv_ctx ;;;
  if len entries =? 0 then ret tt
  else ops <-- lift (stageEntries entries) ;; kv_commit ops.

Definition ResolveBlob (vh : VersionedHash) : M K (Cid * bool) :=
  kv_ctx ;;;
  v <-- kv_get (catalogKey vh) ;;
  match v with
  | None => ret (Undef, false)
  | Some v => match cid_cast v with
              | None => fail (EInvalid "undecodable CID")
              | Some c => ret (Some c, true)
              end
  end.

Definition Catalog_Clear : M K unit :=
  kv_ctx ;;; kv_deleteRange [prefixCatalog] (keyUpperBound [prefixCatalog]).

(** ** catalog.Ledger *)

Record PinEntry : Type := mkPin { Purpose : string; pin_CID : Cid; Recursive : bool; Expiry : Time }.
Definition Expires (e : PinEntry) : bool := negb (IsZero (Expiry e)).

Definition ledgerKey (head purpose : string) (c : CidV) : bytes := purposePrefix head purpose ++ cid_bytes c.

Definition ledger_add (head purpose : string) (c : Cid) (recursive : bool) (expiry : Time) : M K unit :=
  kv_ctx ;;;
  lift (checkNames head purpose) ;;;
  match c with
  | None => fail (EInvalid "undefined CID")
  | Some c => kv_set (ledgerKey head purpose c) (encodePinValue recursive expiry)
  end.
Definition Ledger_Add (head purpose : string) (c : Cid) (recursive : bool) : M K unit :=
  ledger_add head purpose c recursive zeroTime.
Definition AddExpiring (head purpose : string) (c : Cid) (recursive : bool) (expiry : Time) : M K unit :=
  ledger_add head purpose c recursive expiry.

(** The loops of AddBatch and RemoveBatch over the staged batch. *)
Fixpoint stagePins (head : string) (op : bytes -> PinEntry -> kvop) (pins : list PinEntry) : res (list kvop) :=
  match pins with
  | [] => Ok []
  | p :: rest =>
    _ <-? checkName (Purpose p) ;;
    match pin_CID p with
    | None => Err (EInvalid "undefined CID")
    | Some c => ops <-? stagePins head op rest ;; Ok (op (ledgerKey head (Purpose p) c) p :: ops)
    end
  end.
Definition AddBatch (head : string) (pins : list PinEntry) : M K unit :=
  kv_ctx ;;;
  if len pins =? 0 then ret tt
  else lift (checkName head) ;;;
       ops <-- lift (stagePins head (fun k p => KSet k (encodePinValue (Recursive p) (Expiry p))) pins) ;;
       kv_commit ops.
Definition RemoveBatch (head : string) (pins : list PinEntry) : M K unit :=
  kv_ctx ;;;
  if len pins =? 0 then ret tt
  else lift (checkName head) ;;;
       ops <-- lift (stagePins head (fun k _ => KDelete k) pins) ;;
       kv_commit ops.

Definition Ledger_Remove (head purpose : string) (c : Cid) : M K unit :=
  kv_ctx ;;;
  lift (checkNames head purpose) ;;;
  match c with
  | None => fail (EInvalid "undefined CID")
  | Some c => kv_delete (ledgerKey head purpose c)
  end.

(** [key[purposeAt:]] is in range: every scanned key has the scan's prefix. *)
Definition decodePin (key val : bytes) (purposeAt : nat) : res PinEntry :=
  match cutNUL (drop purposeAt key) with
  | None => Err (EInvalid "no purpose terminator")
  | Some (purpose, rest) =>
    match cid_cast rest with
    | None => Err (EInvalid "undecodable CID")
    | Some c => v <-? decodePinValue val ;;
                Ok (mkPin (bytes_string purpose) (Some c) (fst v) (snd v))
    end
  end.

Definition scan (prefix : bytes) (purposeAt : nat) : M K (list PinEntry) :=
  let* (rows, e) := kv_scan prefix (keyUpperBound prefix) in
  out <-- lift (rmap (fun '(k, v) => decodePin k v purposeAt) rows) ;;
  match e with Some e => fail e | None => ret out end.

Definition Ledger_List (head purpose : string) : M K (list PinEntry) :=
  kv_ctx ;;;
  lift (checkNames head purpose) ;;;
  scan (purposePrefix head purpose) (length (headPrefix head)).
Definition ListAll (head : string) : M K (list PinEntry) :=
  kv_ctx ;;;
  lift (checkName head) ;;;
  scan (headPrefix head) (length (headPrefix head)).
End Catalog.

(** ** Bytes and order *)

Lemma byte_Z_range b : 0 <= byte_Z b < 256.
Proof. unfold byte_Z. pose proof (Byte.to_N_bounded b). lia. Qed.

Lemma byte_Z_inj a b : byte_Z a = byte_Z b -> a = b.
Proof.
  unfold byte_Z. intros H. assert (Byte.to_N a = Byte.to_N b) as E by lia.
  apply (f_equal Byte.of_N) in E. rewrite !Byte.of_to_N in E. congruence.
Qed.

Lemma byte_Z_of_Z z : byte_Z (byte_of_Z z) = z mod 256.
Proof.
  unfold byte_of_Z, byte_Z. pose proof (Z.mod_pos_bound z 256 ltac:(lia)) as H.
  destruct (Byte.of_N (Z.to_N (z mod 256))) as [b|] eqn:E; simpl.
  - apply Byte.to_of_N in E. rewrite E. lia.
  - apply Byte.of_N_None_iff in E. lia.
Qed.

Lemma byte_of_Z_byte b : byte_of_Z (byte_Z b) = b.
Proof. apply byte_Z_inj. rewrite byte_Z_of_Z. apply Z.mod_small, byte_Z_range. Qed.

(** Eight big-endian bytes hold a 64-bit number. *)
Lemma Uint64_PutUint64 v : is_u64 v -> Uint64 (PutUint64 v) = v.
Proof.
  intros Hv. unfold Uint64, PutUint64, is_u64 in *. simpl. rewrite !byte_Z_of_Z, !Z.shiftr_div_pow2 by lia.
  change (2 ^ 0) with 1. rewrite Z.div_1_r.
  assert (step : forall n m, 0 <= n -> m = n + 8 -> v / 2 ^ m * 256 + (v / 2 ^ n) mod 256 = v / 2 ^ n).
  { intros n m Hn ->. rewrite Z.pow_add_r, <- Z.div_div by lia. change (2 ^ 8) with 256.
    pose proof (Z.div_mod (v / 2 ^ n) 256 ltac:(lia)). lia. }
  assert (H56 : (v / 2 ^ 56) mod 256 = v / 2 ^ 56).
  { apply Z.mod_small. split; [apply Z.div_pos; lia|]. apply Z.div_lt_upper_bound; lia. }
  rewrite H56, Z.mul_0_l, Z.add_0_l. do 6 rewrite step by lia.
  pose proof (step 0 8 ltac:(lia) ltac:(lia)) as H0. change (2 ^ 0) with 1 in H0. by rewrite Z.div_1_r in H0.
Qed.

Lemma bytes_ltb_app p a b : bytes_ltb (p ++ a) (p ++ b) = bytes_ltb a b.
Proof. induction p as [|x p IH]; simpl; [done|]. by rewrite Z.ltb_irrefl. Qed.

Lemma bytes_ltb_nil k : bytes_ltb k [] = false.
Proof. by destruct k. Qed.

Lemma upperLoop_snoc rev x :
  upperLoop (rev ++ [x]) = match upperLoop rev with
                           | Some u => Some (x :: u)
                           | None => if byte_Z x <? 255 then Some [byte_of_Z (byte_Z x + 1)] else None
                           end.
Proof.
  induction rev as [|y rev IH]; simpl; [done|]. destruct (byte_Z y <? 255) eqn:E; [|done].
  f_equal. by rewrite !reverse_cons, reverse_app.
Qed.

Lemma keyUpperBound_cons x p :
  keyUpperBound (x :: p) = match keyUpperBound p with
                           | Some u => Some (x :: u)
                           | None => if byte_Z x <? 255 then Some [byte_of_Z (byte_Z x + 1)] else None
                           end.
Proof. unfold keyUpperBound. rewrite reverse_cons. apply upperLoop_snoc. Qed.

(** The range [keyUpperBound] bounds is the keys with the prefix. *)
Lemma keyUpperBound_prefix p k : in_range p (keyUpperBound p) k = true <-> p `prefix_of` k.
Proof.
  revert k. induction p as [|x p IH]; intros k.
  - unfold in_range. simpl. rewrite bytes_ltb_nil. split; [intros _; apply prefix_nil|done].
  - destruct k as [|y k].
    { unfold in_range. simpl. split; [done|]. by intros ?%prefix_nil_not. }
    unfold in_range in *. rewrite keyUpperBound_cons. pose proof (byte_Z_range x). pose proof (byte_Z_range y).
    destruct (decide (x = y)) as [<-|Hne].
    + simpl. rewrite Z.ltb_irrefl. split.
      * intros H1. apply prefix_cons, IH. apply andb_true_iff in H1 as [-> H1].
        destruct (keyUpperBound p); [|done]. by rewrite Z.ltb_irrefl in H1.
      * intros H1%prefix_cons_inv_2%IH. apply andb_true_iff in H1 as [-> H1].
        destruct (keyUpperBound p); [by rewrite Z.ltb_irrefl|]. destruct (Z.ltb_spec (byte_Z x) 255); [|done].
        simpl. rewrite byte_Z_of_Z, Z.mod_small by lia. by rewrite (proj2 (Z.ltb_lt _ _)) by lia.
    + assert (Hz : byte_Z x <> byte_Z y) by (intros ?%byte_Z_inj; done).
      split; [|by intros ?%prefix_cons_inv_1]. intros H1. exfalso. simpl in H1.
      destruct (Z.ltb_spec (byte_Z y) (byte_Z x)); [done|]. destruct (Z.ltb_spec (byte_Z x) (byte_Z y)); [|lia].
      destruct (keyUpperBound p) as [u|].
      { rewrite (proj2 (Z.ltb_ge _ _)), (proj2 (Z.ltb_lt _ _)) in H1 by lia. done. }
      destruct (Z.ltb_spec (byte_Z x) 255); [|lia]. simpl in H1.
      rewrite byte_Z_of_Z, Z.mod_small in H1 by lia. destruct (Z.ltb_spec (byte_Z y) (byte_Z x + 1)); [lia|].
      rewrite bytes_ltb_nil in H1. by destruct (byte_Z x + 1 <? byte_Z y).
Qed.

(** ** Values *)

(** The instant a row's expiry reads back as: whole seconds. *)
Definition storedTime (t : Time) : Time := if IsZero t then zeroTime else time_Unix (Unix t).
Definition time_ok (t : Time) : Prop := - 2 ^ 63 <= Unix t < 2 ^ 63.

Lemma int64_u64 x : - 2 ^ 63 <= x < 2 ^ 63 -> int64 (u64 x) = x.
Proof.
  intros Hx. unfold int64, u64. destruct (Z.le_gt_cases 0 x).
  - rewrite Z.mod_small by lia. destruct (Z.ltb_spec x (2 ^ 63)); lia.
  - replace (x mod 2 ^ 64) with (x + 2 ^ 64).
    + destruct (Z.ltb_spec (x + 2 ^ 64) (2 ^ 63)); lia.
    + apply Z.mod_unique_pos with (q := -1); lia.
Qed.

Lemma decode_encode_value r t : time_ok t -> decodePinValue (encodePinValue r t) = Ok (r, storedTime t).
Proof.
  intros Ht. unfold encodePinValue, storedTime. destruct (IsZero t); [by destruct r|].
  transitivity (Ok (E := err) (r, time_Unix (int64 (Uint64 (take 8 (PutUint64 (u64 (Unix t)))))))).
  - by destruct r.
  - rewrite take_ge by done. rewrite Uint64_PutUint64 by apply u64_range. by rewrite int64_u64.
Qed.

(** ** Keys *)

Lemma bytes_string_bytes s : bytes_string (string_bytes s) = s.
Proof. apply String.string_of_list_byte_of_string. Qed.

Lemma string_bytes_inj a b : string_bytes a = string_bytes b -> a = b.
Proof. intros H. rewrite <- (bytes_string_bytes a), H. apply bytes_string_bytes. Qed.

Lemma cutNUL_app a b : existsb (Byte.eqb nameSep) a = false -> cutNUL (a ++ nameSep :: b) = Some (a, b).
Proof.
  induction a as [|x a IH]; simpl; [done|]. intros [Hx Ha]%orb_false_iff.
  destruct (Byte.eqb x Byte.x00) eqn:E.
  - apply Byte.byte_dec_bl in E. subst x. done.
  - by rewrite IH.
Qed.

Lemma checkName_noNUL s : checkName s = Ok tt -> existsb (Byte.eqb nameSep) (string_bytes s) = false.
Proof. destruct s as [|c s]; [done|]. unfold checkName. by destruct (existsb _ _). Qed.

Lemma sep_inj a b x y :
  checkName a = Ok tt -> checkName b = Ok tt ->
  string_bytes a ++ nameSep :: x = string_bytes b ++ nameSep :: y -> a = b /\ x = y.
Proof.
  intros Ha%checkName_noNUL Hb%checkName_noNUL H. apply (f_equal cutNUL) in H.
  rewrite !cutNUL_app in H by done. injection H as ->%string_bytes_inj ->. done.
Qed.

Lemma checkNames_ok h p : checkNames h p = Ok tt <-> checkName h = Ok tt /\ checkName p = Ok tt.
Proof.
  unfold checkNames, rbind. destruct (checkName h) as [[]|]; [|split; [done|by intros []]]. intuition.
Qed.

Section Refinement.
Context `{MH : Multihash} `{CC : !CidBytes} {K : Type} `{PB : !Pebble K} `{PO : !PebbleOk K}.

Lemma ledgerKey_split h p c :
  ledgerKey h p c = prefixLedger :: string_bytes h ++ nameSep :: string_bytes p ++ nameSep :: cid_bytes c.
Proof. unfold ledgerKey, purposePrefix, headPrefix. simpl. by rewrite <- !app_assoc. Qed.

Lemma ledgerKey_inj h p c h' p' c' :
  checkNames h p = Ok tt -> checkNames h' p' = Ok tt -> ledgerKey h p c = ledgerKey h' p' c' ->
  h = h' /\ p = p' /\ c = c'.
Proof.
  intros [Hh Hp]%checkNames_ok [Hh' Hp']%checkNames_ok. rewrite !ledgerKey_split. intros [= E].
  apply sep_inj in E as [-> E]; [|done..]. apply sep_inj in E as [-> E]; [|done..].
  apply (f_equal cid_cast) in E. rewrite !cast_bytes in E. by injection E as ->.
Qed.

(** A scan of one head's prefix meets that head's rows only. *)
Lemma headPrefix_exact h h' p c :
  checkName h = Ok tt -> checkNames h' p = Ok tt -> headPrefix h `prefix_of` ledgerKey h' p c <-> h = h'.
Proof.
  intros Hh [Hh' Hp]%checkNames_ok. rewrite ledgerKey_split. unfold headPrefix. split.
  - intros [k E]. injection E as E. rewrite <- app_assoc in E. by apply sep_inj in E as [-> _].
  - intros ->. exists (string_bytes p ++ nameSep :: cid_bytes c). simpl. by rewrite <- app_assoc.
Qed.

Lemma decodePin_ledgerKey h p c r t :
  checkName p = Ok tt -> time_ok t ->
  decodePin (ledgerKey h p c) (encodePinValue r t) (length (headPrefix h)) = Ok (mkPin p (Some c) r (storedTime t)).
Proof.
  intros Hp Ht. unfold decodePin, ledgerKey, purposePrefix. rewrite <- !app_assoc, drop_app_length. simpl.
  rewrite cutNUL_app by (by apply checkName_noNUL). rewrite cast_bytes, decode_encode_value by done. simpl.
  by rewrite bytes_string_bytes.
Qed.

(** The ledger part of the key space holds rows the ledger wrote. *)
Definition ledger_wf (m : gmap bytes bytes) : Prop :=
  forall rest v, m !! (prefixLedger :: rest) = Some v ->
    exists h p c r t, checkNames h p = Ok tt /\ prefixLedger :: rest = ledgerKey h p c /\
      v = encodePinValue r t /\ time_ok t.

(** The abstract ledger: the pin recorded under a head, a purpose and a CID. *)
Definition pin_at (m : gmap bytes bytes) (h p : string) (c : CidV) : option (bool * Time) :=
  match checkNames h p with
  | Err _ => None
  | Ok _ => match decodePinValue <$> m !! ledgerKey h p c with Some (Ok x) => Some x | _ => None end
  end.

Lemma pin_at_row m h p c v x :
  checkNames h p = Ok tt -> m !! ledgerKey h p c = Some v -> decodePinValue v = Ok x -> pin_at m h p c = Some x.
Proof. intros Hn Hm Hv. unfold pin_at. by rewrite Hn, Hm; simpl; rewrite Hv. Qed.

Lemma pin_at_set m h p c r t h' p' c' :
  checkNames h p = Ok tt -> time_ok t ->
  pin_at (<[ledgerKey h p c := encodePinValue r t]> m) h' p' c'
  = if decide ((h', p', c') = (h, p, c)) then Some (r, storedTime t) else pin_at m h' p' c'.
Proof.
  intros Hn Ht. unfold pin_at. case_decide as E.
  - injection E as -> -> ->. rewrite Hn, lookup_insert_eq. simpl. by rewrite decode_encode_value.
  - destruct (checkNames h' p') as [[]|] eqn:En; [|done]. rewrite lookup_insert_ne; [done|].
    intros (-> & -> & ->)%ledgerKey_inj; done.
Qed.

Lemma pin_at_delete m h p c h' p' c' :
  checkNames h p = Ok tt ->
  pin_at (delete (ledgerKey h p c) m) h' p' c'
  = if decide ((h', p', c') = (h, p, c)) then None else pin_at m h' p' c'.
Proof.
  intros Hn. unfold pin_at. case_decide as E.
  - injection E as -> -> ->. by rewrite Hn, lookup_delete_eq.
  - destruct (checkNames h' p') as [[]|] eqn:En; [|done]. rewrite lookup_delete_ne; [done|].
    intros (-> & -> & ->)%ledgerKey_inj; done.
Qed.

Lemma ledger_wf_set m h p c r t :
  checkNames h p = Ok tt -> time_ok t -> ledger_wf m -> ledger_wf (<[ledgerKey h p c := encodePinValue r t]> m).
Proof.
  intros Hn Ht Hm rest v [[E <-]|[_ Hv]]%lookup_insert_Some; [|by apply Hm].
  exists h, p, c, r, t. done.
Qed.

Lemma ledger_wf_delete m k : ledger_wf m -> ledger_wf (delete k m).
Proof. intros Hm rest v [_ Hv]%lookup_delete_Some. by apply Hm. Qed.

Lemma zeroTime_ok : time_ok zeroTime.
Proof. by vm_compute. Qed.

(** ** Scans *)

Lemma rmap_all {A B} (f : A -> res B) l :
  (forall x, x ∈ l -> exists y, f x = Ok y) ->
  exists ys, rmap f l = Ok ys /\ Forall2 (fun x y => f x = Ok y) l ys.
Proof.
  induction l as [|x l IH]; intros H; [exists []; split; [done|constructor]|].
  destruct (H x ltac:(by left)) as [y Hy]. destruct IH as (ys & Hys & HF); [intros; apply H; by right|].
  exists (y :: ys). simpl. rewrite Hy. simpl. rewrite Hys. split; [done|by constructor].
Qed.

Lemma rows_decode m h (rows : list (bytes * bytes)) :
  ledger_wf m -> checkName h = Ok tt ->
  (forall k v, (k, v) ∈ rows -> m !! k = Some v /\ headPrefix h `prefix_of` k) ->
  forall x, x ∈ rows -> exists p c r t, checkNames h p = Ok tt /\ time_ok t /\
    x = (ledgerKey h p c, encodePinValue r t) /\
    decodePin x.1 x.2 (length (headPrefix h)) = Ok (mkPin p (Some c) r (storedTime t)).
Proof.
  intros Hm Hh Hrows [k v] Hx. destruct (Hrows k v Hx) as [Hk Hp].
  assert (exists rest, k = prefixLedger :: rest) as [rest ->].
  { destruct Hp as [k' ->]. unfold headPrefix. simpl. eauto. }
  destruct (Hm rest v Hk) as (h' & p & c & r & t & Hn & E & -> & Ht). rewrite E in *.
  apply (headPrefix_exact h) in Hp as ->; [|done..]. pose proof Hn as [_ Hp]%checkNames_ok.
  exists p, c, r, t. split; [done|]. split; [done|]. split; [done|]. by apply decodePin_ledgerKey.
Qed.

Definition rowkey (e : PinEntry) : string * Cid := (Purpose e, pin_CID e).

Lemma bytes_ltb_irrefl a : bytes_ltb a a = false.
Proof. induction a as [|x a IH]; [done|]. simpl. by rewrite Z.ltb_irrefl. Qed.

Lemma bytes_ltb_trans a b c : bytes_ltb a b = true -> bytes_ltb b c = true -> bytes_ltb a c = true.
Proof.
  revert b c. induction a as [|x a IH]; intros [|y b] [|z c]; simpl; try done.
  destruct (Z.ltb_spec (byte_Z x) (byte_Z y)), (Z.ltb_spec (byte_Z y) (byte_Z z)), (Z.ltb_spec (byte_Z x) (byte_Z z));
    try done; try lia; destruct (Z.ltb_spec (byte_Z y) (byte_Z x)), (Z.ltb_spec (byte_Z z) (byte_Z y)), (Z.ltb_spec (byte_Z z) (byte_Z x));
    try done; try lia. apply IH.
Qed.

Lemma bytes_ltb_total a b : bytes_ltb a b = true \/ a = b \/ bytes_ltb b a = true.
Proof.
  revert b. induction a as [|x a IH]; intros [|y b]; simpl; auto.
  destruct (Z.ltb_spec (byte_Z x) (byte_Z y)); auto. destruct (Z.ltb_spec (byte_Z y) (byte_Z x)); auto.
  assert (x = y) as -> by (apply byte_Z_inj; lia). destruct (IH b) as [?|[->|?]]; auto.
Qed.

Lemma sorted_NoDup (l : list bytes) : StronglySorted bytes_lt l -> NoDup l.
Proof.
  induction 1 as [|x l _ IH Hall]; [constructor|]. constructor; [|done]. intros Hx.
  rewrite Forall_forall in Hall. specialize (Hall x Hx). unfold bytes_lt in Hall. by rewrite bytes_ltb_irrefl in Hall.
Qed.

(** The rows a complete scan of a head's prefix decodes to. *)
Lemma scan_rows m h rows out :
  ledger_wf m -> checkName h = Ok tt -> StronglySorted bytes_lt rows.*1 ->
  (forall k v, (k, v) ∈ rows <-> m !! k = Some v /\ headPrefix h `prefix_of` k) ->
  Forall2 (fun x y => (let '(k, v) := x in decodePin k v (length (headPrefix h))) = Ok y) rows out ->
  NoDup (rowkey <$> out) /\
  forall e, e ∈ out <-> exists c, pin_CID e = Some c /\ pin_at m h (Purpose e) c = Some (Recursive e, Expiry e).
Proof.
  intros Hm Hh Hsorted Hrows HF.
  assert (Hdec := rows_decode m h rows Hm Hh (fun k v H => proj1 (Hrows k v) H)). split.
  - apply sorted_NoDup in Hsorted. clear Hrows. induction HF as [|x y rows out Hxy HF IH]; [constructor|].
    rewrite fmap_cons in *. apply NoDup_cons in Hsorted as [Hnin Hnd]. constructor; [|apply IH; [done|intros; apply Hdec; by right]].
    intros (y' & Ey & Hy')%list_elem_of_fmap. destruct (Hdec x ltac:(by left)) as (p & c & r & t & Hn & _ & Ex & Hd).
    destruct x as [k v]. cbn [fst snd] in *. rewrite Hd in Hxy. injection Hxy as <-.
    apply list_elem_of_lookup in Hy' as [i Hi].
    destruct (Forall2_lookup_r _ _ _ _ _ HF Hi) as ([k' v'] & Hk' & Hd').
    assert (Hin : (k', v') ∈ rows) by (by eapply list_elem_of_lookup_2).
    destruct (Hdec (k', v')) as (p' & c' & r' & t' & _ & _ & Ek & Hd''); [by right|].
    cbn [fst snd] in Hd''. rewrite Hd'' in Hd'. injection Hd' as <-. injection Ey as -> ->. apply pair_eq in Ek as [-> _], Ex as [-> _].
    apply Hnin. by apply (list_elem_of_fmap_2 fst) in Hin.
  - intros e. split.
    + intros [i Hi]%list_elem_of_lookup. destruct (Forall2_lookup_r _ _ _ _ _ HF Hi) as ([k v] & Hk & Hd).
      assert (Hin : (k, v) ∈ rows) by (by eapply list_elem_of_lookup_2).
      destruct (Hdec _ Hin) as (p & c & r & t & Hn & Ht & [= -> ->] & Hd'). cbn [fst snd] in Hd'. rewrite Hd' in Hd. injection Hd as <-.
      exists c. split; [done|]. eapply pin_at_row; [done|by apply Hrows|by apply decode_encode_value].
    + intros (c & Hc & Hp). unfold pin_at in Hp. destruct (checkNames h (Purpose e)) as [[]|] eqn:Hn; [|done].
      destruct (m !! ledgerKey h (Purpose e) c) as [v|] eqn:Hv; [|done]. simpl in Hp.
      destruct (decodePinValue v) as [x|] eqn:Hdv; [|done]. injection Hp as ->.
      assert (Hin : (ledgerKey h (Purpose e) c, v) ∈ rows) by (apply Hrows; split; [done|by apply headPrefix_exact]).
      pose proof Hin as [i Hi]%list_elem_of_lookup. destruct (Forall2_lookup_l _ _ _ _ _ HF Hi) as (y & Hy & Hd).
      destruct (Hdec _ Hin) as (p & c' & r & t & Hn' & Ht & E & Hd'). cbn [fst snd] in Hd'. rewrite Hd' in Hd. injection Hd as <-.
      apply pair_eq in E as [E1 E2]. apply ledgerKey_inj in E1 as (_ & <- & <-); [|done..]. subst v.
      rewrite decode_encode_value in Hdv by done. injection Hdv as Er Et.
      replace e with (mkPin (Purpose e) (Some c) r (storedTime t)); [by eapply list_elem_of_lookup_2|].
      destruct e; simpl in *; congruence.
Qed.

Lemma lift_run {W A} (r : res A) (s : W) x s' : lift r s = (x, s') -> x = r /\ s' = s.
Proof. unfold lift. by intros [= <- <-]. Qed.

Lemma ListAll_run h s r s' :
  ledger_wf (kv s) -> checkName h = Ok tt -> ListAll h s = (r, s') ->
  kv s' = kv s /\
  match r with
  | Ok out => NoDup (rowkey <$> out) /\
      forall e, e ∈ out <-> exists c, pin_CID e = Some c /\ pin_at (kv s) h (Purpose e) c = Some (Recursive e, Expiry e)
  | Err e => e = EIO \/ e = ECancelled
  end.
Proof.
  intros Hm Hh H. unfold ListAll, scan in H.
  apply bind_run in H as [(u & s1 & Hc & H)|(e & Hc & ->)]; apply kv_ctx_spec in Hc as [-> Hc]; [|destruct Hc; naive_solver].
  rewrite Hh in H. unfold bind at 1, lift at 1 in H. cbv beta iota in H.
  apply bind_run in H as [([rows e] & s1 & Hs & H)|(e & Hs & ->)]; apply kv_scan_spec in Hs as [Hk Hs]; [|subst; eauto].
  assert (Hr : forall k v, (k, v) ∈ rows -> kv s !! k = Some v /\ headPrefix h `prefix_of` k).
  { intros k v Hin. destruct e; destruct Hs as [_ Hs]; apply Hs in Hin as [? ?]; (split; [done|]); by apply keyUpperBound_prefix. }
  destruct (rmap_all (fun '(k, v) => decodePin k v (length (headPrefix h))) rows) as (out & Hout & HF).
  { intros [k v] Hx. destruct (rows_decode _ h rows Hm Hh Hr _ Hx) as (p & c & r0 & t & _ & _ & _ & Hd). eauto. }
  cbv beta iota in H. rewrite Hout in H. unfold bind, lift in H. destruct e as [e|]; injection H as <- <-; (split; [done|]).
  - left. by destruct Hs.
  - destruct Hs as [Hsorted Hs]. apply (scan_rows _ h rows); try done. intros k v. rewrite Hs. by rewrite keyUpperBound_prefix.
Qed.

Lemma ListAll_name h s r s' : ListAll h s = (r, s') ->
  checkName h = Ok tt \/ (s' = s /\ is_ok r = false).
Proof.
  intros H. unfold ListAll in H. destruct (checkName h) as [[]|e] eqn:E; [by left|right].
  apply bind_run in H as [(u & s1 & Hc & H)|(e' & Hc & ->)]; apply kv_ctx_spec in Hc as [-> _]; [|done].
  by injection H as <- <-.
Qed.

Lemma ledger_add_run h p c r t s x s' :
  ledger_wf (kv s) -> time_ok t -> ledger_add h p (Some c) r t s = (x, s') ->
  ledger_wf (kv s') /\
  match x with
  | Ok _ => checkNames h p = Ok tt /\ kv s' = <[ledgerKey h p c := encodePinValue r t]> (kv s)
  | Err e => kv s' = kv s \/ (checkNames h p = Ok tt /\ kv s' = <[ledgerKey h p c := encodePinValue r t]> (kv s))
  end.
Proof.
  intros Hm Ht H. unfold ledger_add in H.
  apply bind_run in H as [(u & s1 & Hc & H)|(e & Hc & ->)]; apply kv_ctx_spec in Hc as [-> _]; [|auto].
  apply bind_run in H as [([] & s1 & Hc & H)|(e & Hc & ->)]; apply lift_run in Hc as [Hc ->]; [|auto]. symmetry in Hc.
  apply kv_set_spec in H. pose proof (ledger_wf_set (kv s) h p c r t Hc Ht Hm).
  destruct x as [x|e]; [by rewrite H|]. destruct H as [_ [-> | ->]]; auto.
Qed.

Lemma ledger_remove_run h p c s x s' :
  ledger_wf (kv s) -> Ledger_Remove h p (Some c) s = (x, s') ->
  ledger_wf (kv s') /\
  match x with
  | Ok _ => checkNames h p = Ok tt /\ kv s' = delete (ledgerKey h p c) (kv s)
  | Err e => kv s' = kv s \/ (checkNames h p = Ok tt /\ kv s' = delete (ledgerKey h p c) (kv s))
  end.
Proof.
  intros Hm H. unfold Ledger_Remove in H.
  apply bind_run in H as [(u & s1 & Hc & H)|(e & Hc & ->)]; apply kv_ctx_spec in Hc as [-> _]; [|auto].
  apply bind_run in H as [([] & s1 & Hc & H)|(e & Hc & ->)]; apply lift_run in Hc as [Hc ->]; [|auto]. symmetry in Hc.
  apply kv_delete_spec in H. pose proof (ledger_wf_delete (kv s) (ledgerKey h p c) Hm).
  destruct x as [x|e]; [by rewrite H|]. destruct H as [_ [-> | ->]]; auto.
Qed.

(** A write under a catalog key leaves the ledger as it is. *)
Lemma catalogKey_not_ledger vh rest : catalogKey vh <> prefixLedger :: rest.
Proof. discriminate. Qed.

Lemma pin_at_frame m m' h p c :
  (forall rest, m' !! (prefixLedger :: rest) = m !! (prefixLedger :: rest)) -> pin_at m' h p c = pin_at m h p c.
Proof. intros H. unfold pin_at. rewrite ledgerKey_split. by rewrite H. Qed.

Lemma catalogKey_inj a b : catalogKey a = catalogKey b -> a = b.
Proof. intros [= H]. by apply vh_eq. Qed.

Lemma clear_range (m : gmap bytes bytes) k :
  filter (fun x => in_range [prefixCatalog] (keyUpperBound [prefixCatalog]) (fst x) = false) m !! k
  = if decide ([prefixCatalog] `prefix_of` k) then None else m !! k.
Proof.
  rewrite map_lookup_filter. case_decide as Hp.
  - apply (keyUpperBound_prefix [prefixCatalog]) in Hp. destruct (m !! k); [|done]. simpl.
    rewrite option_guard_False; [done|]. simpl. by rewrite Hp.
  - destruct (m !! k); [|done]. simpl. rewrite option_guard_True; [done|]. simpl.
    destruct (in_range _ _ k) eqn:E; [|done]. by apply keyUpperBound_prefix in E.
Qed.

Lemma ResolveBlob_run vh s r s' :
  ResolveBlob vh s = (r, s') ->
  kv s' = kv s /\
  match kv s !! catalogKey vh with
  | None => r = Ok (Undef, false)
  | Some v => match cid_cast v with Some c => r = Ok (Some c, true) | None => exists w, r = Err (EInvalid w) end
  end \/ kv s' = kv s /\ (r = Err EIO \/ r = Err ECancelled).
Proof.
  intros H. unfold ResolveBlob in H.
  apply bind_run in H as [(u & s1 & Hc & H)|(e & Hc & ->)]; apply kv_ctx_spec in Hc as [-> Hc];
    [|right; split; [done|]; destruct Hc; naive_solver].
  apply bind_run in H as [(v & s1 & Hg & H)|(e & Hg & ->)]; apply kv_get_spec in Hg as [Hk Hg];
    [|right; split; [done|subst; auto]]. left. subst v.
  destruct (kv s !! catalogKey vh) as [v|]; [|by injection H as <- <-].
  destruct (cid_cast v); injection H as <- <-; eauto.
Qed.

(** Put stores what ResolveBlob returns, for its own versioned hash only, and
    writes no ledger row. *)
Theorem catalog_put_resolve vh vh' c s s1 r s2 :
  Catalog_Put vh (Some c) s = (Ok tt, s1) ->
  ResolveBlob vh' s1 = (Ok r, s2) ->
  (vh' = vh -> r = (Some c, true)) /\
  (vh' <> vh -> kv s1 !! catalogKey vh' = kv s !! catalogKey vh') /\
  (forall h p c', pin_at (kv s1) h p c' = pin_at (kv s) h p c').
Proof.
  intros H Hr. unfold Catalog_Put in H. apply bind_run_ok in H as (u & s0 & Hc & H). apply kv_ctx_spec in Hc as [-> _].
  apply kv_set_spec in H. apply ResolveBlob_run in Hr as [[_ Hr]|[_ [?|?]]]; [|done..]. rewrite H in *. split; [|split].
  - intros ->. rewrite lookup_insert_eq, cast_bytes in Hr. congruence.
  - intros Hne. apply lookup_insert_ne. by intros ->%catalogKey_inj.
  - intros. apply pin_at_frame. intros rest. by rewrite lookup_insert_ne.
Qed.

(** Clear empties the catalog and leaves every ledger row in place. *)
Theorem catalog_clear s s1 vh r s2 :
  Catalog_Clear s = (Ok tt, s1) -> ResolveBlob vh s1 = (Ok r, s2) ->
  r = (Undef, false) /\ forall h p c, pin_at (kv s1) h p c = pin_at (kv s) h p c.
Proof.
  intros H Hr. unfold Catalog_Clear in H. apply bind_run_ok in H as (u & s0 & Hc & H). apply kv_ctx_spec in Hc as [-> _].
  apply kv_deleteRange_spec in H. apply ResolveBlob_run in Hr as [[_ Hr]|[_ [?|?]]]; [|done..].
  rewrite H, clear_range, decide_True in Hr by (by exists (vh_bytes vh)). split; [congruence|].
  intros. apply pin_at_frame. intros rest. rewrite H, clear_range, decide_False; [done|]. by intros [k [= ?]].
Qed.

(** A recorded pin is listed, with its flag and its expiry in whole seconds,
    under its own head only and beside every pin that was there before; removing
    it takes it and nothing else away. *)
Theorem ledger_add_remove_list h p c r t s s1 out s2 s3 out' s4 :
  ledger_wf (kv s) -> time_ok t ->
  AddExpiring h p (Some c) r t s = (Ok tt, s1) -> ListAll h s1 = (Ok out, s2) ->
  Ledger_Remove h p (Some c) s2 = (Ok tt, s3) -> ListAll h s3 = (Ok out', s4) ->
  mkPin p (Some c) r (storedTime t) ∈ out /\
  (forall e, rowkey e <> (p, Some c) ->
     (e ∈ out <-> exists c', pin_CID e = Some c' /\ pin_at (kv s) h (Purpose e) c' = Some (Recursive e, Expiry e)) /\
     (e ∈ out' <-> e ∈ out)) /\
  (forall e, rowkey e = (p, Some c) -> e ∉ out') /\
  (forall h' p' c', h' <> h -> pin_at (kv s4) h' p' c' = pin_at (kv s) h' p' c').
Proof.
  intros Hm Ht Ha Hl Hr Hl'. unfold AddExpiring in Ha. apply ledger_add_run in Ha as [Hm1 [Hn Ek1]]; [|done..].
  pose proof Hn as [Hh Hp]%checkNames_ok. apply ListAll_run in Hl as [Ek2 [_ Hout]]; [|done..].
  apply ledger_remove_run in Hr as [Hm3 [_ Ek3]]; [|by rewrite Ek2]. apply ListAll_run in Hl' as [Ek4 [_ Hout']]; [|done..].
  assert (Hne : forall e c', pin_CID e = Some c' -> rowkey e <> (p, Some c) -> (h, Purpose e, c') <> (h, p, c)).
  { intros e c' Hc' Hk [= E1 E2]. apply Hk. unfold rowkey. congruence. }
  split; [|split; [|split]].
  - apply Hout. exists c. split; [done|]. rewrite Ek1, pin_at_set by done. by rewrite decide_True.
  - intros e Hk. rewrite Hout', Hout. split.
    + split; intros (c' & Hc' & H); exists c'; (split; [done|]); revert H; rewrite Ek1, pin_at_set by done;
        by rewrite decide_False by (by apply Hne).
    + split; intros (c' & Hc' & H); exists c'; (split; [done|]); revert H; rewrite Ek3, Ek2, pin_at_delete by done;
        by rewrite decide_False by (by apply Hne).
  - intros e Hk. rewrite Hout'. intros (c' & Hc' & H). injection Hk as E1 E2. rewrite E2 in Hc'. injection Hc' as <-.
    rewrite E1, Ek3, pin_at_delete, decide_True in H by done. done.
  - intros h' p' c' Hne'. rewrite Ek4, Ek3, pin_at_delete, decide_False by (done || congruence).
    rewrite Ek2, Ek1, pin_at_set, decide_False by (done || congruence). done.
Qed.
End Refinement.

(** The range scanned for a prefix is exactly the keys that have it. *)
Theorem keyUpperBound_exact p k : in_range p (keyUpperBound p) k = true <-> p `prefix_of` k.
Proof. apply keyUpperBound_prefix. Qed.

(** A pin's value reads back: the flag as written, the expiry in whole seconds. *)
Theorem pin_value_roundtrip r t : time_ok t -> decodePinValue (encodePinValue r t) = Ok (r, storedTime t).
Proof. apply decode_encode_value. Qed.

(** ** What reconciliation needs of a ledger: the interface pinning.pinLedger *)

Class pinLedger `{Multihash} (S : Type) : Type := {
  pl_Add : string -> string -> Cid -> bool -> M S unit;
  pl_Remove : string -> string -> Cid -> M S unit;
  pl_ListAll : string -> M S (list PinEntry)
}.

(** The promise: a map from (head, purpose, CID) to the recursive flag and the
    expiry; a write that fails may have happened. *)
Class pinLedgerOk `{MH : Multihash} (S : Type) `{!pinLedger S} : Type := {
  pl_ok : S -> Prop;
  pl_row : S -> string -> string -> CidV -> option (bool * Time);
  pl_Add_spec : forall h p c r s x s', pl_ok s -> pl_Add h p (Some c) r s = (x, s') ->
    pl_ok s' /\
    (forall h' p' c', (h', p', c') <> (h, p, c) -> pl_row s' h' p' c' = pl_row s h' p' c') /\
    (fst <$> pl_row s' h p c = Some r \/ (is_ok x = false /\ pl_row s' h p c = pl_row s h p c));
  pl_Remove_spec : forall h p c s x s', pl_ok s -> pl_Remove h p (Some c) s = (x, s') ->
    pl_ok s' /\
    (forall h' p' c', (h', p', c') <> (h, p, c) -> pl_row s' h' p' c' = pl_row s h' p' c') /\
    (fst <$> pl_row s' h p c = None \/ (is_ok x = false /\ pl_row s' h p c = pl_row s h p c));
  pl_ListAll_spec : forall h s x s', pl_ok s -> pl_ListAll h s = (x, s') ->
    pl_ok s' /\ (forall h' p c, pl_row s' h' p c = pl_row s h' p c) /\
    match x with
    | Ok out => NoDup (rowkey <$> out) /\
        forall p c r, fst <$> pl_row s h p c = Some r <-> exists t, mkPin p (Some c) r t ∈ out
    | Err _ => True
    end;
  pl_ListAll_defined : forall h s out s', pl_ok s -> pl_ListAll h s = (Ok out, s') ->
    forall e, e ∈ out -> is_Some (pin_CID e);
  pl_Add_undef : forall h p r s x s', pl_ok s -> pl_Add h p None r s = (x, s') ->
    is_ok x = false /\ pl_ok s' /\ forall h' p' c', pl_row s' h' p' c' = pl_row s h' p' c'
}.

(** The flag of a row, which is what reconciliation decides on. *)
Definition pl_pin `{MH : Multihash} {S : Type} `{PL : !pinLedger S} `{PO : !pinLedgerOk S} (s : S) (h p : string) (c : CidV) : option bool := fst <$> pl_row s h p c.
Lemma pl_row_pin `{MH : Multihash} {S : Type} `{PL : !pinLedger S} `{PO : !pinLedgerOk S} (s s' : S) h p c :
  pl_row s' h p c = pl_row s h p c -> pl_pin s' h p c = pl_pin s h p c.
Proof. unfold pl_pin. by intros ->. Qed.

Section LedgerInstance.
Context `{MH : Multihash} `{CC : !CidBytes} {K : Type} `{PB : !Pebble K} `{PO : !PebbleOk K}.

#[export] Instance Ledger_pinLedger : pinLedger K :=
  {| pl_Add := Ledger_Add; pl_Remove := Ledger_Remove; pl_ListAll := ListAll |}.

#[export] Program Instance Ledger_pinLedgerOk : pinLedgerOk K := {|
  pl_ok := fun s => ledger_wf (kv s);
  pl_row := fun s h p c => pin_at (kv s) h p c |}.
Next Obligation.
  intros h p c r s x s' Hm H. apply ledger_add_run in H as [Hm' H]; [|done|apply zeroTime_ok]. split; [done|].
  assert (Hset : checkNames h p = Ok tt -> kv s' = <[ledgerKey h p c := encodePinValue r zeroTime]> (kv s) ->
    (forall h' p' c', (h', p', c') <> (h, p, c) -> pin_at (kv s') h' p' c' = pin_at (kv s) h' p' c') /\
    fst <$> pin_at (kv s') h p c = Some r).
  { intros Hn ->. pose proof zeroTime_ok. split; intros; rewrite pin_at_set by done; [by rewrite decide_False|by rewrite decide_True]. }
  destruct x as [[]|e]; [destruct H as [Hn H]; destruct (Hset Hn H); auto|].
  destruct H as [->|[Hn H]]; [split; [done|]; by right|destruct (Hset Hn H); auto].
Qed.
Next Obligation.
  intros h p c s x s' Hm H. apply ledger_remove_run in H as [Hm' H]; [|done]. split; [done|].
  assert (Hdel : checkNames h p = Ok tt -> kv s' = delete (ledgerKey h p c) (kv s) ->
    (forall h' p' c', (h', p', c') <> (h, p, c) -> pin_at (kv s') h' p' c' = pin_at (kv s) h' p' c') /\
    fst <$> pin_at (kv s') h p c = None).
  { intros Hn ->. split; intros; rewrite pin_at_delete by done; [by rewrite decide_False|by rewrite decide_True]. }
  destruct x as [[]|e]; [destruct H as [Hn H]; destruct (Hdel Hn H); auto|].
  destruct H as [->|[Hn H]]; [split; [done|]; by right|destruct (Hdel Hn H); auto].
Qed.
Next Obligation.
  intros h s x s' Hm H. destruct (ListAll_name _ _ _ _ H) as [Hn|[-> Hx]]; [|by destruct x].
  apply ListAll_run in H as [Hk H]; [|done..]. rewrite Hk. split; [done|]. split; [done|].
  destruct x as [out|e]; [|done]. destruct H as [Hnd Hout]. split; [done|]. intros p c r. split.
  - intros ([r' t] & Hp & Hr)%fmap_Some. simpl in Hr. subst r'. exists t. apply Hout. eauto.
  - intros [t Ht]. apply Hout in Ht as (c' & [= <-] & Hp). simpl in Hp. by rewrite Hp.
Qed.
Next Obligation.
  intros h s out s' Hm H. destruct (ListAll_name _ _ _ _ H) as [Hn|[_ ?]]; [|done].
  apply ListAll_run in H as [_ [_ Hout]]; [|done..]. intros e (c & Hc & _)%Hout. eauto.
Qed.
Next Obligation.
  intros h p r s x s' Hm H. unfold Ledger_Add, ledger_add in H.
  apply bind_run in H as [(u & s1 & Hc & H)|(e & Hc & ->)]; apply kv_ctx_spec in Hc as [-> _]; [|done].
  apply bind_run in H as [([] & s1 & Hc & H)|(e & Hc & ->)]; apply lift_run in Hc as [_ ->]; [|done].
  by injection H as <- <-.
Qed.
End LedgerInstance.
