(* ===== verification/Policy.v ===== *)
(** Retention policies: pinning/policy.go.

    [Desired] computes the pins a policy asks for over an enumeration of a head.
    Proved: in every mode every block of the index is pinned; a window policy
    pins recursively exactly the Segments that meet the retention range, so every
    retained slot's blobs are reached; no two pins share a ledger key. *)
From S2P Require Import Prelude Arith Cid Schema Core Engine EngineWorld Dir HeadModel Enumerate EnumerateCorrect.

(** [Mode] is a Go int; [ModeOther] is any value without a name. *)
Inductive Mode : Type := ModeFull | ModeWindow | ModeNone | ModeOther (n : Z).
#[global] Instance Mode_eq_dec : EqDecision Mode.
Proof. solve_decision. Defined.

Definition Mode_String (m : Mode) : option string :=
  match m with
  | ModeFull => Some "full" | ModeWindow => Some "window" | ModeNone => Some "none"
  | ModeOther _ => None (* "Mode(n)" *)
  end.
Definition ParseMode (s : string) : res Mode :=
  if decide (s = "full") then Ok ModeFull
  else if decide (s = "window") then Ok ModeWindow
  else if decide (s = "none") then Ok ModeNone
  else Err (EInvalid "pin mode").

Definition PurposeRoot : string := "root".
Definition PurposeIndex : string := "index".
Definition PurposeWindow : string := "window".
Definition PurposeOpen : string := "open".
Definition PurposeManifest : string := "manifest".

(** Duration is a time.Duration: int64 nanoseconds. *)
Record Policy : Type := mkPolicy { pol_Mode : Mode; pol_Duration : Z; pol_SecondsPerSlot : Z }.

Definition Full : Policy := mkPolicy ModeFull 0 0.
Definition NonePolicy : Policy := mkPolicy ModeNone 0 0.
Definition Window (d secondsPerSlot : Z) : Policy := mkPolicy ModeWindow d secondsPerSlot.

Definition Policy_Validate (p : Policy) : res unit :=
  match pol_Mode p with
  | ModeFull | ModeNone => Ok tt
  | ModeWindow =>
    refuse_if pol_Duration p <=? 0 with EInvalid "duration must be positive" ;;
    refuse_if pol_SecondsPerSlot p =? 0 with EInvalid "no seconds_per_slot" ;;
    Ok tt
  | ModeOther _ => Err (EInvalid "unknown pin mode")
  end.

(** [uint64(p.Duration/time.Second) / p.SecondsPerSlot]; Go's [/] on a signed
    integer truncates towards zero. *)
Definition WindowSlots (p : Policy) : Z :=
  if negb (bool_decide (pol_Mode p = ModeWindow)) || (pol_SecondsPerSlot p =? 0) then 0
  else u64 (Z.quot (pol_Duration p) (10 ^ 9)) / pol_SecondsPerSlot p.

Definition windowLow (p : Policy) (syncedTo : Z) : Z :=
  let slots := WindowSlots p in if slots <? syncedTo then syncedTo - slots else 0.

Section Policy.
Context `{MH : Multihash}.

Record Pin : Type := mkPinReq { pr_Purpose : string; pr_CID : Cid; pr_Recursive : bool }.

(** The pin of one sealed Segment. *)
Definition sealedPin (p : Policy) (low : Z) (s : SealedSegment) : Pin :=
  if bool_decide (pol_Mode p = ModeWindow) && (low <=? ss_LastSlot s)
  then mkPinReq PurposeWindow (Some (ss_CID s)) true
  else mkPinReq PurposeIndex (Some (ss_CID s)) false.

(** [e] nil is [None]. *)
Definition Desired (p : Policy) (e : option Enumeration) : res (list Pin) :=
  _ <-? Policy_Validate p ;;
  match e with
  | None => Err (EInvalid "enumeration has no root")
  | Some e =>
    refuse_if negb (Defined (en_Root e)) with EInvalid "enumeration has no root" ;;
    if bool_decide (pol_Mode p = ModeFull) then Ok [mkPinReq PurposeRoot (en_Root e) true]
    else
      let low := windowLow p (en_SyncedTo e) in
      Ok (mkPinReq PurposeRoot (en_Root e) false
          :: ((fun page => mkPinReq PurposeIndex (Some page) false) <$> en_DirPages e)
          ++ (sealedPin p low <$> en_Sealed e)
          ++ (if Defined (en_Open e)
              then [mkPinReq PurposeOpen (en_Open e) (bool_decide (pol_Mode p = ModeWindow))] else []))
  end.

(** The ledger row a pin becomes. *)
Definition pinKey (p : Pin) : string * Cid := (pr_Purpose p, pr_CID p).

(** ** What the pins retain *)

Definition pinned (pins : list Pin) (c : CidV) : Prop := exists p, p ∈ pins /\ pr_CID p = Some c.
Definition pinned_rec (pins : list Pin) (c : CidV) : Prop := exists p, p ∈ pins /\ pr_CID p = Some c /\ pr_Recursive p = true.

Lemma Desired_inv p e pins : Desired p e = Ok pins ->
  exists x root, e = Some x /\ en_Root x = Some root /\ Policy_Validate p = Ok tt /\
  if bool_decide (pol_Mode p = ModeFull) then pins = [mkPinReq PurposeRoot (Some root) true]
  else pins = mkPinReq PurposeRoot (Some root) false
          :: ((fun page => mkPinReq PurposeIndex (Some page) false) <$> en_DirPages x)
          ++ (sealedPin p (windowLow p (en_SyncedTo x)) <$> en_Sealed x)
          ++ (if Defined (en_Open x)
              then [mkPinReq PurposeOpen (en_Open x) (bool_decide (pol_Mode p = ModeWindow))] else []).
Proof.
  unfold Desired. intros ([] & Hv & H)%rbind_ok. destruct e as [x|]; [|done]. destruct (en_Root x) as [root|] eqn:Er; [|done].
  exists x, root. cbn [Defined negb] in H. do 3 (split; [done|]). case_bool_decide; congruence.
Qed.

Lemma sealedPin_cid p low s : pr_CID (sealedPin p low s) = Some (ss_CID s).
Proof. unfold sealedPin. by destruct (_ && _). Qed.

(** Every mode pins the index: the root, and unless the root is pinned with
    everything under it, every page, every sealed Segment and the open one. *)
Theorem Desired_pins_index p e pins :
  Desired p (Some e) = Ok pins ->
  exists root, en_Root e = Some root /\ pinned pins root /\
  (pinned_rec pins root \/
   (forall c, c ∈ en_DirPages e -> pinned pins c) /\
   (forall s, s ∈ en_Sealed e -> pinned pins (ss_CID s)) /\
   (forall c, en_Open e = Some c -> pinned pins c)).
Proof.
  intros (x & root & [= <-] & Hr & _ & H)%Desired_inv. exists root. split; [done|]. case_bool_decide.
  - subst pins. split; [|left]; eexists; (split; [by left|]); done.
  - split; [subst pins; eexists; split; [by left|done]|]. right. split; [|split].
    + intros c Hc. exists (mkPinReq PurposeIndex (Some c) false). split; [|done]. subst pins. right. apply elem_of_app. left.
      by apply (list_elem_of_fmap_2 (fun page => mkPinReq PurposeIndex (Some page) false)).
    + intros s Hs. eexists. split; [|apply sealedPin_cid]. subst pins. right. apply elem_of_app. right. apply elem_of_app. left.
      by apply list_elem_of_fmap_2.
    + intros c Hc. eexists. split; [subst pins; right; apply elem_of_app; right; apply elem_of_app; right|].
      * rewrite Hc. simpl. by left.
      * done.
Qed.

Lemma NoDup_fmap_inj {A B} (f : A -> B) l x y : NoDup (f <$> l) -> x ∈ l -> y ∈ l -> f x = f y -> x = y.
Proof.
  intros Hnd [i Hi]%list_elem_of_lookup [j Hj]%list_elem_of_lookup E.
  assert (i = j) as ->; [|congruence]. eapply NoDup_lookup; [exact Hnd|by rewrite list_lookup_fmap, Hi|by rewrite list_lookup_fmap, Hj, E].
Qed.

Lemma windowLow_le p synced last :
  0 <= last -> windowLow p synced <= last <-> synced - WindowSlots p <= last.
Proof. intros. unfold windowLow. destruct (Z.ltb_spec (WindowSlots p) synced); lia. Qed.

(** A window policy retains the blobs of a trailing range of slots: the sealed
    Segments pinned recursively are exactly those that reach into
    [synced_to - slots, synced_to], so every slot of the range is in one of them
    or in the open Segment, which is always pinned recursively. *)
Theorem Desired_window p e pins :
  pol_Mode p = ModeWindow -> Desired p (Some e) = Ok pins ->
  NoDup (ss_CID <$> en_Sealed e) -> (forall s, s ∈ en_Sealed e -> 0 <= ss_LastSlot s) ->
  (forall s, s ∈ en_Sealed e ->
     (mkPinReq PurposeWindow (Some (ss_CID s)) true ∈ pins <-> en_SyncedTo e - WindowSlots p <= ss_LastSlot s)) /\
  (forall s slot, s ∈ en_Sealed e -> ss_FirstSlot s <= slot <= ss_LastSlot s ->
     en_SyncedTo e - WindowSlots p <= slot -> pinned_rec pins (ss_CID s)) /\
  (forall c, en_Open e = Some c -> pinned_rec pins c).
Proof.
  intros Hm (x & root & [= <-] & _ & _ & H)%Desired_inv Hnd Hlast. rewrite Hm in H. rewrite bool_decide_eq_false_2 in H by done.
  rewrite bool_decide_eq_true_2 in H by done. set (low := windowLow p (en_SyncedTo e)) in *.
  assert (Hpin : forall s, s ∈ en_Sealed e -> sealedPin p low s ∈ pins).
  { intros s Hs. subst pins. right. apply elem_of_app. right. apply elem_of_app. left. by apply list_elem_of_fmap_2. }
  assert (Hrec : forall s, s ∈ en_Sealed e -> en_SyncedTo e - WindowSlots p <= ss_LastSlot s ->
    sealedPin p low s = mkPinReq PurposeWindow (Some (ss_CID s)) true).
  { intros s Hs Hl. unfold sealedPin. rewrite Hm, bool_decide_eq_true_2 by done. cbn [andb].
    apply windowLow_le in Hl; [|by apply Hlast]. fold low in Hl. by rewrite (proj2 (Z.leb_le _ _)). }
  split; [|split].
  - intros s Hs. split; [|intros Hl; rewrite <- Hrec by done; by apply Hpin].
    intros Hin. rewrite H in Hin. apply elem_of_cons in Hin as [?|Hin]; [done|].
    apply elem_of_app in Hin as [(c & ? & _)%list_elem_of_fmap|Hin]; [done|].
    apply elem_of_app in Hin as [(s' & E & Hs')%list_elem_of_fmap|Hin].
    + unfold sealedPin in E. rewrite Hm, bool_decide_eq_true_2 in E by done. cbn [andb] in E.
      destruct (Z.leb_spec low (ss_LastSlot s')) as [Hle|]; [|done]. injection E as E.
      rewrite (NoDup_fmap_inj ss_CID (en_Sealed e) s s') by done. by apply windowLow_le; [apply Hlast|].
    + destruct (Defined (en_Open e)); [|by apply not_elem_of_nil in Hin]. by apply list_elem_of_singleton in Hin.
  - intros s slot Hs Hslot Hr. exists (sealedPin p low s). split; [by apply Hpin|]. rewrite Hrec by (done || lia). done.
  - intros c Hc. exists (mkPinReq PurposeOpen (Some c) true). split; [|done]. subst pins. right. rewrite Hc. simpl.
    apply elem_of_app. right. apply elem_of_app. right. by left.
Qed.

(** No two pins share a ledger key, so what is recorded is what was asked for:
    pages and Segments of an admitted head are distinct blocks. *)
Theorem Desired_keys p e pins :
  Desired p (Some e) = Ok pins ->
  NoDup (en_DirPages e) -> NoDup (ss_CID <$> en_Sealed e) ->
  (forall s, s ∈ en_Sealed e -> ss_CID s ∉ en_DirPages e) ->
  NoDup (pinKey <$> pins).
Proof.
  intros (x & root & [= <-] & _ & _ & H)%Desired_inv Hp Hs Hd. case_bool_decide.
  { subst pins. apply NoDup_singleton. }
  rewrite H, fmap_cons, !fmap_app, <- !list_fmap_compose. apply NoDup_cons. split.
  { rewrite !elem_of_app. intros [(c & ? & _)%list_elem_of_fmap|[(s & E & _)%list_elem_of_fmap|Hin]]; [done| |].
    - revert E. unfold pinKey, sealedPin. simpl. by destruct (_ && _).
    - destruct (Defined (en_Open e)); [by apply list_elem_of_singleton in Hin|by apply not_elem_of_nil in Hin]. }
  apply NoDup_app. split; [apply NoDup_fmap_2; [by intros a b [= ->]|done]|]. split.
  { intros k (c & -> & Hc)%list_elem_of_fmap. rewrite elem_of_app. intros [(s & E & Hin)%list_elem_of_fmap|Hin].
    - revert E. unfold pinKey, sealedPin. simpl. destruct (_ && _); [done|]. intros [= ->]. by apply (Hd s).
    - destruct (Defined (en_Open e)); [by apply list_elem_of_singleton in Hin|by apply not_elem_of_nil in Hin]. }
  apply NoDup_app. split; [|split].
  - clear Hd H. induction (en_Sealed e) as [|s l IH]; [constructor|]. simpl in *. apply NoDup_cons in Hs as [Hn Hs].
    constructor; [|by apply IH]. intros (s' & E & Hin)%list_elem_of_fmap. apply Hn.
    apply (f_equal snd) in E. unfold compose, pinKey in E. simpl in E. rewrite !sealedPin_cid in E. injection E as ->.
    by apply list_elem_of_fmap_2.
  - intros k (s & -> & Hin)%list_elem_of_fmap Ho. destruct (Defined (en_Open e)); [|by apply not_elem_of_nil in Ho].
    apply list_elem_of_singleton in Ho. revert Ho. unfold compose, pinKey, sealedPin. simpl. by destruct (_ && _).
  - destruct (Defined (en_Open e)); [apply NoDup_singleton|constructor].
Qed.
End Policy.
