(* ===== verification/Reconcile.v ===== *)
(** Reconciliation: pinning/reconcile.go and the registrations of
    pinning/follow.go.

    A pass computes the pins a head's policy asks for, diffs them against the
    ledger and applies the difference, additions first.  The ledger is the
    interface [pinLedger] of Ledger.v, the heads are the engines of Engine.v.
    Proved: a pass that succeeds leaves exactly the desired pins, one that stops
    anywhere (a failing write, a crash) leaves every row at its old or its
    desired value and has removed nothing before all desired pins were recorded,
    a second pass writes nothing, and a pass touches no other head's rows. *)
From S2P Require Import Prelude Arith Cid Schema Core Engine Enumerate Policy Ledger.

Section Reconcile.
Context `{MH : Multihash} `{CB : !DagCbor} {Sto : Type} `{BS : !Blockstore Sto}.
Context {L : Type} `{LR : !Lru CidV (AnyNode * Z) L} {S : Type} `{PL : !pinLedger S}.

Record Delta : Type := mkDelta { Added : Z; Removed : Z }.
Definition Delta_empty (d : Delta) : bool := (Added d =? 0) && (Removed d =? 0).
Definition Delta_add (d o : Delta) : Delta := mkDelta (Added d + Added o) (Removed d + Removed o).

(** ** plan *)

Definition key (purpose : string) (c : Cid) : string * Cid := (purpose, c).

Definition wantMap (desired : list Pin) : gmap (string * Cid) Pin :=
  foldl (fun m p => <[key (pr_Purpose p) (pr_CID p) := p]> m) ∅ desired.

(** The loop over the rows the ledger has: rewrites to add, rows to remove. *)
Fixpoint planHave (want : gmap (string * Cid) Pin) (have : list PinEntry) : list Pin * list Pin :=
  match have with
  | [] => ([], [])
  | e :: have' =>
    let '(add, remove) := planHave want have' in
    match want !! key (Purpose e) (pin_CID e) with
    | None => (add, mkPinReq (Purpose e) (pin_CID e) (Recursive e) :: remove)
    | Some p => if negb (Bool.eqb (pr_Recursive p) (Recursive e)) then (p :: add, remove) else (add, remove)
    end
  end.

Definition heldSet (have : list PinEntry) : gset (string * Cid) :=
  list_to_set ((fun e => key (Purpose e) (pin_CID e)) <$> have).

Definition plan (desired : list Pin) (have : list PinEntry) : list Pin * list Pin :=
  let '(add, remove) := planHave (wantMap desired) have in
  (add ++ filter (fun p => key (pr_Purpose p) (pr_CID p) ∉ heldSet have) desired, remove).

(** ** The reconciler *)

Local Abbreviation Eng := (@Engine MH Sto L).

(** One head under a policy; a withdrawal token makes it a tombstone. *)
Record entry : Type := mkEntry { en_head : option Eng; en_policy : Policy; en_withdrawal : option nat }.

Record Reconciler : Type := mkRec {
  rc_ledger : S;
  rc_heads : gmap string entry;
  rc_names : list string;
  rc_pending : gset string;
  rc_tokens : nat }.   (* withdrawal tokens allocated so far *)

(** slices.Sorted(maps.Keys(heads)) *)
Definition sortedNames (x : gmap string entry) : list string := merge_sort String.le (elements (dom x)).

Definition set_ledger (s : S) (r : Reconciler) : Reconciler :=
  mkRec s (rc_heads r) (rc_names r) (rc_pending r) (rc_tokens r).
(** A write of [heads] that leaves [names] as it was. *)
Definition set_heads (x : gmap string entry) (r : Reconciler) : Reconciler :=
  mkRec (rc_ledger r) x (rc_names r) (rc_pending r) (rc_tokens r).
(** A write of [heads] followed by the recomputation of [names]. *)
Definition set_registry (x : gmap string entry) (r : Reconciler) : Reconciler :=
  mkRec (rc_ledger r) x (sortedNames x) (rc_pending r) (rc_tokens r).
Definition onLedger {A} (m : M S A) : M Reconciler A :=
  fun r => let '(x, s) := m (rc_ledger r) in (x, set_ledger s r).

(** The heads' archive.Config and the lookup of a manifest tip, if there is one. *)
Context (cfg : @Config MH Sto) (ManifestTip : option (string -> res (Cid * bool))).
(** Comparison of withdrawal tokens.  A token is a pointer to a zero-size
    struct, and the language leaves open whether pointers to distinct zero-size
    variables are equal, so the comparison of two allocations is a parameter. *)
Context (sameToken : nat -> nat -> bool).
Definition NameOf (h : Eng) : string := p_Name (ParamsOf h).

Definition StagingHead : string := "_staging".
Definition checkStagingName (name : string) : res unit :=
  if decide (name = StagingHead) then Err (EInvalid "the reserved staging head") else Ok tt.

Definition Reconciler_Add (head : option Eng) (p : Policy) : M Reconciler unit :=
  match head with
  | None => fail (EInvalid "Add of a nil head")
  | Some h =>
    lift (Policy_Validate p) ;;;
    lift (checkStagingName (NameOf h)) ;;;
    heads <-- gets rc_heads ;;
    match heads !! NameOf h with
    | Some _ => fail (EInvalid "head is already registered")
    | None => modify (set_registry (<[NameOf h := mkEntry (Some h) p None]> heads))
    end
  end.

Definition Reconciler_Replace (head : option Eng) : M Reconciler unit :=
  match head with
  | None => fail (EInvalid "Replace of a nil head")
  | Some h =>
    let params := ParamsOf h in
    lift (checkStagingName (p_Name params)) ;;;
    heads <-- gets rc_heads ;;
    match heads !! p_Name params with
    | None => fail (EInvalid "head is not registered")
    | Some current =>
      match en_head current with
      | None => fail (EInternal "nil head") (* a tombstone: current.head.Params() panics *)
      | Some oldHead =>
        let old := ParamsOf oldHead in
        fail_if negb (bool_decide (p_Net params = p_Net old)) || negb (p_SegBits params =? p_SegBits old)
                || negb (p_FanoutBits params =? p_FanoutBits old)
          with EInvalid "replacement changes immutable parameters" ;;
        modify (set_heads (<[p_Name params := mkEntry (Some h) (en_policy current) (en_withdrawal current)]> heads))
      end
    end
  end.

(** The swap BindReplacement returns once [name] is found registered; on a name
    that has gone, [heads[name]] reads as the zero entry (whose policy is the zero
    Policy, mode full). *)
Definition BindReplacement (name : string) : M Reconciler (Eng -> Reconciler -> Reconciler) :=
  lift (checkStagingName name) ;;;
  heads <-- gets rc_heads ;;
  match heads !! name with
  | None => fail (EInvalid "head is not registered")
  | Some _ =>
    ret (fun head r =>
           let current := default (mkEntry None (mkPolicy ModeFull 0 0) None) (rc_heads r !! name) in
           set_heads (<[name := mkEntry (Some head) (en_policy current) (en_withdrawal current)]> (rc_heads r)) r)
  end.

Definition Names (r : Reconciler) : list string := rc_names r.

Definition Notify (head : string) (r : Reconciler) : Reconciler :=
  mkRec (rc_ledger r) (rc_heads r) (rc_names r) ({[ head ]} ∪ rc_pending r) (rc_tokens r).
Definition markAll (r : Reconciler) : Reconciler :=
  mkRec (rc_ledger r) (rc_heads r) (rc_names r) (list_to_set (rc_names r) ∪ rc_pending r) (rc_tokens r).
(** The pending registered names, sorted. *)
Definition takePending (r : Reconciler) : list string * Reconciler :=
  (merge_sort String.le (elements (rc_pending r ∩ dom (rc_heads r))),
   mkRec (rc_ledger r) (rc_heads r) (rc_names r) ∅ (rc_tokens r)).

Fixpoint applyAdds (name : string) (l : list Pin) (delta : Delta) : M Reconciler Delta :=
  match l with
  | [] => ret delta
  | p :: l' =>
    onLedger (pl_Add name (pr_Purpose p) (pr_CID p) (pr_Recursive p)) ;;;
    applyAdds name l' (mkDelta (Added delta + 1) (Removed delta))
  end.
Fixpoint applyRemoves (name : string) (l : list Pin) (delta : Delta) : M Reconciler Delta :=
  match l with
  | [] => ret delta
  | p :: l' =>
    onLedger (pl_Remove name (pr_Purpose p) (pr_CID p)) ;;;
    applyRemoves name l' (mkDelta (Added delta) (Removed delta + 1))
  end.

(** e.head.Enumerate: the entry points to the engine, whose blockstore and
    structure cache move on. *)
Definition enumerateHead (name : string) (e : entry) (h : Eng) : M Reconciler Enumeration :=
  fun r => let '(x, h') := Enumerate cfg h in
           (x, set_heads (<[name := mkEntry (Some h') (en_policy e) (en_withdrawal e)]> (rc_heads r)) r).

(** The pins the entry asks for; a tombstone asks for none. *)
Definition desiredOf (name : string) (e : entry) : M Reconciler (list Pin) :=
  match en_withdrawal e, en_head e with
  | Some _, _ => ret []
  | None, None => fail (EInternal "nil head")
  | None, Some h =>
    enum <-- enumerateHead name e h ;;
    desired <-- lift (Desired (en_policy e) (Some enum)) ;;
    match ManifestTip with
    | None => ret desired
    | Some tipOf =>
      t <-- lift (tipOf name) ;;
      ret (if snd t then desired ++ [mkPinReq PurposeManifest (fst t) true] else desired)
    end
  end.

(** The end of a withdrawal's pass: the tombstone goes unless the entry is by
    now another one. *)
Definition finishWithdrawal (name : string) (token : nat) (r : Reconciler) : Reconciler :=
  match rc_heads r !! name with
  | Some current =>
    if match en_withdrawal current with Some t => sameToken t token | None => false end
    then set_registry (delete name (rc_heads r)) r else r
  | None => r
  end.

Definition reconcileHead (name : string) : M Reconciler Delta :=
  heads <-- gets rc_heads ;;
  match heads !! name with
  | None => fail (EInvalid "head is not registered")
  | Some e =>
    desired <-- desiredOf name e ;;
    have <-- onLedger (pl_ListAll name) ;;
    let '(add, remove) := plan desired have in
    delta <-- applyAdds name add (mkDelta 0 0) ;;
    delta <-- applyRemoves name remove delta ;;
    (match en_withdrawal e with
     | None => ret tt
     | Some token => modify (finishWithdrawal name token)
     end) ;;;
    ret delta
  end.

(** The loop of reconcileAll. *)
Fixpoint reconcileNames (names : list string) (total : Delta) : M Reconciler Delta :=
  match names with
  | [] => ret total
  | name :: names' =>
    delta <-- reconcileHead name ;;
    reconcileNames names' (Delta_add total delta)
  end.
Definition reconcileAll : M Reconciler Delta :=
  names <-- gets Names ;; reconcileNames names (mkDelta 0 0).

(** One iteration of Run, woken by the timer ([tick]) or by a notification: the
    pending heads are reconciled, a failing one is left to the timer. *)
Fixpoint reconcileEach (names : list string) (r : Reconciler) : Reconciler :=
  match names with
  | [] => r
  | name :: names' => reconcileEach names' (snd (reconcileHead name r))
  end.
Definition Run_iteration (tick : bool) (r : Reconciler) : Reconciler :=
  let r := if tick then markAll r else r in
  let '(names, r) := takePending r in
  reconcileEach names r.

(** ** PrepareSetBatch and Set (pinning/follow.go) *)

Record Registration : Type := mkReg { rg_Name : string; rg_Head : option Eng; rg_Policy : Policy }.

(** The validation loop; [seen] are the names of the batch so far, [token] the
    next withdrawal token. *)
Fixpoint prepareRegs (l : list Registration) (seen : gset string) (token : nat) : res (list (string * entry)) :=
  match l with
  | [] => Ok []
  | rg :: l' =>
    _ <-? checkStagingName (rg_Name rg) ;;
    _ <-? ValidateHeadName (rg_Name rg) ;;
    refuse_if bool_decide (rg_Name rg ∈ seen) with EInvalid "duplicate head in one batch" ;;
    _ <-? Policy_Validate (rg_Policy rg) ;;
    match rg_Head rg with
    | None =>
      rest <-? prepareRegs l' ({[ rg_Name rg ]} ∪ seen) (Datatypes.S token) ;;
      Ok ((rg_Name rg, mkEntry None (rg_Policy rg) (Some token)) :: rest)
    | Some h =>
      refuse_if negb (bool_decide (NameOf h = rg_Name rg)) with EInvalid "archive head has another name" ;;
      rest <-? prepareRegs l' ({[ rg_Name rg ]} ∪ seen) token ;;
      Ok ((rg_Name rg, mkEntry (Some h) (rg_Policy rg) None) :: rest)
    end
  end.

(** The prepared batch and its visibility half, applied under one lock. *)
Definition applyBatch (prepared : list (string * entry)) (r : Reconciler) : Reconciler :=
  let heads := foldl (fun m '(n, e) => <[n := e]> m) (rc_heads r) prepared in
  mkRec (rc_ledger r) heads (if len prepared =? 0 then rc_names r else sortedNames heads)
        (list_to_set prepared.*1 ∪ rc_pending r) (rc_tokens r + length prepared).
Definition SetBatch (l : list Registration) : M Reconciler unit :=
  fun r => match prepareRegs l ∅ (rc_tokens r) with
           | Err e => (Err e, r)
           | Ok prepared => (Ok tt, applyBatch prepared r)
           end.
Definition Reconciler_Set (head : option Eng) (p : Policy) : M Reconciler unit :=
  match head with
  | None => fail (EInvalid "Set of a nil head")
  | Some h => SetBatch [mkReg (NameOf h) (Some h) p]
  end.

(** ** What plan computes *)

(** The flag asked for under a key. *)
Definition want (desired : list Pin) (p : string) (c : CidV) : option bool :=
  pr_Recursive <$> wantMap desired !! key p (Some c).

Lemma wantMap_snoc desired p :
  wantMap (desired ++ [p]) = <[key (pr_Purpose p) (pr_CID p) := p]> (wantMap desired).
Proof. unfold wantMap. by rewrite foldl_app. Qed.

Lemma wantMap_Some desired k p : wantMap desired !! k = Some p -> p ∈ desired /\ k = pinKey p.
Proof.
  induction desired as [|q desired IH] using rev_ind; [done|]. rewrite wantMap_snoc.
  intros [[<- <-]|[_ Hl]]%lookup_insert_Some.
  - split; [apply elem_of_app; right; by left|done].
  - destruct (IH Hl). split; [apply elem_of_app; by left|done].
Qed.

Lemma wantMap_in desired p : NoDup (pinKey <$> desired) -> p ∈ desired -> wantMap desired !! pinKey p = Some p.
Proof.
  induction desired as [|q desired IH] using rev_ind; intros Hnd Hp; [by apply not_elem_of_nil in Hp|].
  rewrite wantMap_snoc. rewrite fmap_app in Hnd. apply NoDup_app in Hnd as (Hnd & Hq & _).
  apply elem_of_app in Hp as [Hp| ->%list_elem_of_singleton].
  - rewrite lookup_insert_ne; [by apply IH|]. intros E. apply (Hq (pinKey p)); [by apply list_elem_of_fmap_2|].
    apply list_elem_of_singleton. done.
  - by rewrite lookup_insert_eq.
Qed.

Lemma planHave_spec w have add remove :
  planHave w have = (add, remove) ->
  (forall p, p ∈ add <-> exists e, e ∈ have /\ w !! key (Purpose e) (pin_CID e) = Some p /\ pr_Recursive p <> Recursive e) /\
  (forall q, q ∈ remove <-> exists e, e ∈ have /\ w !! key (Purpose e) (pin_CID e) = None /\
                              q = mkPinReq (Purpose e) (pin_CID e) (Recursive e)).
Proof.
  revert add remove. induction have as [|e have IH]; intros add remove E; cbn [planHave] in E.
  { injection E as <- <-. split; intros; split; try (by intros ?%not_elem_of_nil); intros (? & []%not_elem_of_nil & _). }
  destruct (planHave w have) as [add0 remove0]. destruct (IH _ _ eq_refl) as [IHa IHr].
  destruct (w !! key (Purpose e) (pin_CID e)) as [p0|] eqn:Ew.
  - destruct (Bool.eqb_spec (pr_Recursive p0) (Recursive e)) as [Eq|Ne]; cbn [negb] in E; injection E as <- <-.
    + split; intros q; rewrite ?IHa, ?IHr; (split; intros (e' & Hin & Hk & Hx); [exists e'; split; [by right|done]|]);
        (apply elem_of_cons in Hin as [->|Hin]; [congruence|eauto]).
    + split; intros q; rewrite ?elem_of_cons, ?IHa, ?IHr.
      * split; [intros [->|(e' & Hin & Hk & Hx)]; [exists e; split; [by left|done]|exists e'; split; [by right|done]]|].
        intros (e' & [->|Hin]%elem_of_cons & Hk & Hx); [left; congruence|eauto].
      * split; [intros (e' & Hin & Hk & Hx); exists e'; split; [by right|done]|].
        intros (e' & [->|Hin]%elem_of_cons & Hk & Hx); [congruence|eauto].
  - injection E as <- <-. split; intros q; rewrite ?elem_of_cons, ?IHa, ?IHr.
    + split; [intros (e' & Hin & Hk & Hx); exists e'; split; [by right|done]|].
      intros (e' & [->|Hin]%elem_of_cons & Hk & Hx); [congruence|eauto].
    + split; [intros [->|(e' & Hin & Hk & Hx)]; [exists e; split; [by left|done]|exists e'; split; [by right|done]]|].
      intros (e' & [->|Hin]%elem_of_cons & Hk & Hx); [by left|eauto].
Qed.

Lemma heldSet_in have k : k ∈ heldSet have <-> exists e, e ∈ have /\ k = rowkey e.
Proof.
  unfold heldSet. rewrite elem_of_list_to_set, list_elem_of_fmap. split; intros (e & ? & ?); exists e; done.
Qed.

(** ** Running the writes *)

Context `{PO : !pinLedgerOk S}.
Local Abbreviation Rec := Reconciler.

(** [r'] differs from [r] in rows of [name] only. *)
Record frame (name : string) (r r' : Rec) : Prop := {
  fr_ok : pl_ok (rc_ledger r');
  fr_other : forall h p c, h <> name -> pl_row (rc_ledger r') h p c = pl_row (rc_ledger r) h p c;
  fr_heads : rc_heads r' = rc_heads r;
  fr_pending : rc_pending r' = rc_pending r }.

Lemma onLedger_run {A} (m : M S A) (r : Rec) x r' :
  onLedger m r = (x, r') -> exists s', m (rc_ledger r) = (x, s') /\ r' = set_ledger s' r.
Proof. unfold onLedger. destruct (m (rc_ledger r)) as [y s']. intros [= <- <-]. eauto. Qed.

Lemma frame_trans name a b c : frame name a b -> frame name b c -> frame name a c.
Proof. intros [? H1 ? ?] [? H2 ? ?]. split; [done|intros; by rewrite H2, H1|congruence..]. Qed.

(** Additions move rows towards their target and reach it when they succeed. *)
Lemma applyAdds_run name (T : string -> CidV -> option bool) l delta (r : Rec) x r' :
  pl_ok (rc_ledger r) ->
  (forall p c, p ∈ l -> pr_CID p = Some c -> T (pr_Purpose p) c = Some (pr_Recursive p)) ->
  applyAdds name l delta r = (x, r') ->
  frame name r r' /\
  (forall p c, pl_pin (rc_ledger r') name p c = pl_pin (rc_ledger r) name p c \/
               (pl_pin (rc_ledger r') name p c = T p c /\ is_Some (T p c))) /\
  (forall d, x = Ok d -> d = mkDelta (Added delta + len l) (Removed delta) /\
     forall p, p ∈ l -> exists c, pr_CID p = Some c /\ pl_pin (rc_ledger r') name (pr_Purpose p) c = T (pr_Purpose p) c).
Proof.
  revert delta r. induction l as [|q l IH]; intros delta r Hok HT Hrun; cbn [applyAdds] in Hrun.
  { injection Hrun as <- <-. split; [by split|]. split; [auto|]. intros d [= <-].
    split; [destruct delta; unfold len; simpl; f_equal; lia|by intros ? ?%not_elem_of_nil]. }
  assert (Hstep : forall y r1, onLedger (pl_Add name (pr_Purpose q) (pr_CID q) (pr_Recursive q)) r = (y, r1) ->
    frame name r r1 /\
    (forall p c, pl_pin (rc_ledger r1) name p c = pl_pin (rc_ledger r) name p c \/
                 (pl_pin (rc_ledger r1) name p c = T p c /\ is_Some (T p c))) /\
    (is_ok y = true -> exists c, pr_CID q = Some c /\ pl_pin (rc_ledger r1) name (pr_Purpose q) c = T (pr_Purpose q) c)).
  { intros y r1 (s1 & Ha & ->)%onLedger_run. destruct (pr_CID q) as [c|] eqn:Ec.
    - apply pl_Add_spec in Ha as (Hok1 & Hoth & Hrow); [|done].
      assert (Hq := HT q c ltac:(by left) Ec). split; [split; try done|split].
      + intros h p c' Hne. apply Hoth. congruence.
      + intros p c'. destruct (decide ((p, c') = (pr_Purpose q, c))) as [[= -> ->]|Hne].
        * destruct Hrow as [Hr|[_ Hr]]; [right|left; by apply pl_row_pin]. unfold pl_pin. simpl. rewrite Hr, Hq. eauto.
        * left. apply pl_row_pin, Hoth. congruence.
      + intros Hy. exists c. split; [done|]. destruct Hrow as [Hr|[Hf _]]; [unfold pl_pin; simpl; by rewrite Hr, Hq|congruence].
    - apply pl_Add_undef in Ha as (Hf & Hok1 & Hall); [|done]. split; [by split|]. split; [left; apply pl_row_pin, Hall|]. congruence. }
  apply bind_run in Hrun as [([] & r1 & Ha & Hrun)|(e & Ha & ->)];
    destruct (Hstep _ _ Ha) as (Hf & Hrow & Hreach); [|split; [done|]; split; [done|by intros d [=]]].
  apply IH in Hrun as (Hf' & Hrow' & Hreach'); [|apply Hf|intros p c Hp; apply HT; by right].
  split; [by eapply frame_trans|]. split.
  - intros p c. destruct (Hrow' p c) as [->|?]; [apply Hrow|by right].
  - intros d Hd. destruct (Hreach' d Hd) as [-> Hr]. split; [unfold len; simpl; f_equal; lia|].
    intros p [->|Hp]%elem_of_cons; [|by apply Hr]. destruct (Hreach eq_refl) as (c & Hc & Hv). exists c. split; [done|].
    destruct (Hrow' (pr_Purpose q) c) as [->|[-> _]]; done.
Qed.

(** Removals take away rows nothing asks for. *)
Lemma applyRemoves_run name l delta (r : Rec) x r' :
  pl_ok (rc_ledger r) -> (forall p, p ∈ l -> is_Some (pr_CID p)) ->
  applyRemoves name l delta r = (x, r') ->
  frame name r r' /\
  (forall p c, pl_pin (rc_ledger r') name p c = pl_pin (rc_ledger r) name p c \/
               (pl_pin (rc_ledger r') name p c = None /\ exists q, q ∈ l /\ pinKey q = (p, Some c))) /\
  (forall d, x = Ok d -> d = mkDelta (Added delta) (Removed delta + len l) /\
     forall p c, p ∈ l -> pr_CID p = Some c -> pl_pin (rc_ledger r') name (pr_Purpose p) c = None).
Proof.
  revert delta r. induction l as [|q l IH]; intros delta r Hok HT Hrun; cbn [applyRemoves] in Hrun.
  { injection Hrun as <- <-. split; [by split|]. split; [auto|]. intros d [= <-].
    split; [destruct delta; unfold len; simpl; f_equal; lia|by intros ? ? ?%not_elem_of_nil]. }
  destruct (HT q ltac:(by left)) as [c Ec]. rewrite Ec in Hrun.
  assert (Hstep : forall y r1, onLedger (pl_Remove name (pr_Purpose q) (Some c)) r = (y, r1) ->
    frame name r r1 /\
    (forall p c', pl_pin (rc_ledger r1) name p c' = pl_pin (rc_ledger r) name p c' \/
                 (pl_pin (rc_ledger r1) name p c' = None /\ (p, c') = (pr_Purpose q, c))) /\
    (is_ok y = true -> pl_pin (rc_ledger r1) name (pr_Purpose q) c = None)).
  { intros y r1 (s1 & Ha & ->)%onLedger_run. apply pl_Remove_spec in Ha as (Hok1 & Hoth & Hrow); [|done].
    split; [split; try done; intros h p c' Hne; apply Hoth; congruence|]. split.
    - intros p c'. destruct (decide ((p, c') = (pr_Purpose q, c))) as [[= -> ->]|Hne].
      + destruct Hrow as [Hr|[_ Hr]]; [by right|left; by apply pl_row_pin].
      + left. apply pl_row_pin, Hoth. congruence.
    - intros Hy. destruct Hrow as [Hr|[Hf _]]; [done|congruence]. }
  apply bind_run in Hrun as [([] & r1 & Ha & Hrun)|(e & Ha & ->)];
    destruct (Hstep _ _ Ha) as (Hf & Hrow & Hreach).
  2: { split; [done|]. split; [|by intros d [=]]. intros p c'. destruct (Hrow p c') as [?|[? [= -> ->]]]; [by left|right].
       split; [done|]. exists q. split; [by left|]. unfold pinKey. by rewrite Ec. }
  apply IH in Hrun as (Hf' & Hrow' & Hreach'); [|apply Hf|intros p Hp; apply HT; by right].
  split; [by eapply frame_trans|]. split.
  - intros p c'. destruct (Hrow' p c') as [->|[? (q' & ? & ?)]]; [|right; split; [done|exists q'; split; [by right|done]]].
    destruct (Hrow p c') as [?|[? [= -> ->]]]; [by left|right]. split; [done|]. exists q. split; [by left|]. unfold pinKey. by rewrite Ec.
  - intros d Hd. destruct (Hreach' d Hd) as [-> Hr]. split; [unfold len; simpl; f_equal; lia|].
    intros p c' [->|Hp]%elem_of_cons Hc; [|by apply Hr]. rewrite Ec in Hc. injection Hc as <-.
    destruct (Hrow' (pr_Purpose q) c) as [->|[-> _]]; [by apply Hreach|done].
Qed.

(** The plan, against the rows the ledger has. *)
Lemma plan_spec desired have add remove (R : string -> CidV -> option bool) :
  NoDup (pinKey <$> desired) ->
  (forall e, e ∈ have -> is_Some (pin_CID e)) ->
  (forall p c b, R p c = Some b <-> exists t, mkPin p (Some c) b t ∈ have) ->
  plan desired have = (add, remove) ->
  (forall p c, p ∈ add -> pr_CID p = Some c -> want desired (pr_Purpose p) c = Some (pr_Recursive p)) /\
  (forall q, q ∈ remove -> exists c, pr_CID q = Some c /\ want desired (pr_Purpose q) c = None) /\
  (forall p c b, want desired p c = Some b -> R p c <> Some b -> exists q, q ∈ add /\ pinKey q = (p, Some c)) /\
  (forall p c b, want desired p c = None -> R p c = Some b -> exists q, q ∈ remove /\ pinKey q = (p, Some c)) /\
  (forall p, p ∈ desired -> pr_CID p = None -> p ∈ add).
Proof.
  intros Hnd Hdef HR Hplan. unfold plan in Hplan. destruct (planHave (wantMap desired) have) as [a0 r0] eqn:Eh.
  injection Hplan as <- <-. destruct (planHave_spec _ _ _ _ Eh) as [Ha Hr].
  assert (Hin : forall p, p ∈ a0 ++ filter (fun p => key (pr_Purpose p) (pr_CID p) ∉ heldSet have) desired ->
                          wantMap desired !! pinKey p = Some p).
  { intros p [(e & _ & Hw & _)%Ha|[_ Hp]%list_elem_of_filter]%elem_of_app; [|by apply wantMap_in].
    destruct (wantMap_Some _ _ _ Hw) as [_ <-]. done. }
  split; [|split; [|split; [|split]]].
  - intros p c Hp Hc. unfold want. apply Hin in Hp. unfold pinKey in Hp. rewrite Hc in Hp. unfold key. by rewrite Hp.
  - intros q (e & He & Hw & ->)%Hr. destruct (Hdef e He) as [c Hc]. exists c. simpl. split; [done|]. unfold want. by rewrite <- Hc, Hw.
  - intros p c b Hw Hne. unfold want in Hw. apply fmap_Some in Hw as (q & Hq & ->). pose proof (wantMap_Some _ _ _ Hq) as [Hd Hk].
    exists q. split; [|done]. apply elem_of_app. destruct (decide (key p (Some c) ∈ heldSet have)) as [Hh|Hh].
    + left. apply heldSet_in in Hh as (e & He & Ek). unfold rowkey in Ek. injection Ek as -> Ec. apply Ha. exists e.
      split; [done|]. split; [by rewrite <- Ec|]. intros E. apply Hne. apply HR. exists (Expiry e).
      rewrite E, Ec. by destruct e.
    + right. apply list_elem_of_filter. split; [|done]. change (pinKey q ∉ heldSet have). by rewrite <- Hk.
  - intros p c b Hw HRp. apply HR in HRp as [t Ht]. unfold want in Hw. apply fmap_None in Hw.
    exists (mkPinReq p (Some c) b). split; [|done]. apply Hr. eexists. split; [exact Ht|]. done.
  - intros p Hp Hc. apply elem_of_app. right. apply list_elem_of_filter. split; [|done]. rewrite Hc.
    intros (e & He & [= _ E])%heldSet_in. destruct (Hdef e He). congruence.
Qed.

(** The writes of a pass that has listed the rows, from the listing on. *)
Lemma pass_writes name desired have (r : Rec) x r' :
  NoDup (pinKey <$> desired) -> pl_ok (rc_ledger r) ->
  (forall e, e ∈ have -> is_Some (pin_CID e)) ->
  (forall p c b, pl_pin (rc_ledger r) name p c = Some b <-> exists t, mkPin p (Some c) b t ∈ have) ->
  (let '(add, remove) := plan desired have in
   delta <-- applyAdds name add (mkDelta 0 0) ;; applyRemoves name remove delta) r = (x, r') ->
  frame name r r' /\
  (forall p c, pl_pin (rc_ledger r') name p c = pl_pin (rc_ledger r) name p c \/
               pl_pin (rc_ledger r') name p c = want desired p c) /\
  ((exists p c, is_Some (pl_pin (rc_ledger r) name p c) /\ pl_pin (rc_ledger r') name p c = None) ->
   forall p c b, want desired p c = Some b -> pl_pin (rc_ledger r') name p c = Some b) /\
  (forall d, x = Ok d -> forall p c, pl_pin (rc_ledger r') name p c = want desired p c).
Proof.
  intros Hnd Hok Hdef HR Hrun. destruct (plan desired have) as [add remove] eqn:Ep.
  destruct (plan_spec desired have add remove (pl_pin (rc_ledger r) name) Hnd Hdef HR Ep) as (Ha & Hr & Hca & Hcr & _).
  assert (Hrd : forall q, q ∈ remove -> is_Some (pr_CID q)) by (intros q Hq; destruct (Hr q Hq) as (c & -> & _); eauto).
  (* after the additions succeeded every desired row is there *)
  assert (Hall : forall r1 : Rec,
    (forall p c, pl_pin (rc_ledger r1) name p c = pl_pin (rc_ledger r) name p c \/
               (pl_pin (rc_ledger r1) name p c = want desired p c /\ is_Some (want desired p c))) ->
    (forall p, p ∈ add -> exists c, pr_CID p = Some c /\ pl_pin (rc_ledger r1) name (pr_Purpose p) c = want desired (pr_Purpose p) c) ->
    forall p c b, want desired p c = Some b -> pl_pin (rc_ledger r1) name p c = Some b).
  { intros r1 Hrow Hreach p c b Hw. destruct (decide (pl_pin (rc_ledger r) name p c = Some b)) as [E|Hne].
    - destruct (Hrow p c) as [->|[-> _]]; congruence.
    - destruct (Hca p c b Hw Hne) as (q & Hq & Ek). injection Ek as <- Ec. destruct (Hreach q Hq) as (c' & Hc' & Hv).
      rewrite Ec in Hc'. injection Hc' as <-. congruence. }
  apply bind_run in Hrun as [(d1 & r1 & Hadd & Hrun)|(e & Hadd & ->)];
    apply (applyAdds_run name (want desired)) in Hadd as (Hf & Hrow & Hreach); try done.
  2: { split; [done|]. split; [intros p c; destruct (Hrow p c) as [?|[? _]]; auto|]. split; [|done].
       intros (p & c & [b Hb] & Hn). destruct (Hrow p c) as [?|[? [? ?]]]; congruence. }
  destruct (Hreach d1 eq_refl) as [_ Hreach1]. pose proof (Hall r1 Hrow Hreach1) as Hwant.
  apply applyRemoves_run in Hrun as (Hf' & Hrow' & Hreach'); [|apply Hf|done].
  assert (Hkeep : forall p c b, want desired p c = Some b -> pl_pin (rc_ledger r') name p c = Some b).
  { intros p c b Hw. destruct (Hrow' p c) as [->|[_ (q & Hq & Ek)]]; [by apply Hwant|].
    destruct (Hr q Hq) as (c' & Hc' & Hn). injection Ek as <- Ec. congruence. }
  split; [by eapply frame_trans|]. split; [|split; [done|]].
  - intros p c. destruct (Hrow' p c) as [->|[-> (q & Hq & Ek)]]; [destruct (Hrow p c) as [?|[? _]]; auto|right].
    destruct (Hr q Hq) as (c' & Hc' & Hn). injection Ek as <- Ec. congruence.
  - intros d Hd p c. destruct (want desired p c) as [b|] eqn:Hw; [by apply Hkeep|].
    destruct (Hrow' p c) as [Esame|[-> _]]; [|done]. rewrite Esame.
    destruct (Hrow p c) as [Hsame|[_ [? ?]]]; [|congruence]. rewrite Hsame.
    destruct (pl_pin (rc_ledger r) name p c) as [b|] eqn:Eb; [|done]. exfalso.
    destruct (Hcr p c b Hw Eb) as (q & Hq & Ek). injection Ek as <- Ec. destruct (Hreach' d Hd) as [_ Hgone].
    specialize (Hgone q c Hq Ec). congruence.
Qed.

Lemma desiredOf_ledger name e (r : Rec) x r1 : desiredOf name e r = (x, r1) -> rc_ledger r1 = rc_ledger r.
Proof.
  unfold desiredOf. destruct (en_withdrawal e); [by intros [= <- <-]|]. destruct (en_head e) as [h|]; [|by intros [= <- <-]].
  intros Hd. assert (Hl : forall A (y : res A) (z : Rec) u w, lift y z = (u, w) -> w = z) by (by intros * [= _ <-]).
  apply bind_run in Hd as [(en & r2 & He & Hd)|(er & He & ->)]; unfold enumerateHead in He;
    destruct (Enumerate cfg h) as [y h'']; injection He as -> <-; [|done].
  apply bind_run in Hd as [(ds & r3 & Hds & Hd)|(er & Hds & ->)]; apply Hl in Hds as ->; [|done].
  destruct ManifestTip as [tipOf|]; [|by injection Hd as <- <-].
  apply bind_run in Hd as [(t & r4 & Ht & Hd)|(er & Ht & ->)]; apply Hl in Ht as ->; [|done]. by injection Hd as <- <-.
Qed.

Lemma finishWithdrawal_ledger name token (r : Rec) : rc_ledger (finishWithdrawal name token r) = rc_ledger r.
Proof. unfold finishWithdrawal. destruct (rc_heads r !! name) as [cur|]; [|done]. by case_match. Qed.

(** The rows of the pass, whatever its result. *)
Lemma reconcileHead_run name e desired (r r1 : Rec) x r' :
  pl_ok (rc_ledger r) -> rc_heads r !! name = Some e ->
  desiredOf name e r = (Ok desired, r1) -> NoDup (pinKey <$> desired) ->
  reconcileHead name r = (x, r') ->
  pl_ok (rc_ledger r') /\
  (forall h p c, h <> name -> pl_row (rc_ledger r') h p c = pl_row (rc_ledger r) h p c) /\
  (forall p c, pl_pin (rc_ledger r') name p c = pl_pin (rc_ledger r) name p c \/
               pl_pin (rc_ledger r') name p c = want desired p c) /\
  ((exists p c, is_Some (pl_pin (rc_ledger r) name p c) /\ pl_pin (rc_ledger r') name p c = None) ->
   forall p c b, want desired p c = Some b -> pl_pin (rc_ledger r') name p c = Some b) /\
  (forall d, x = Ok d -> forall p c, pl_pin (rc_ledger r') name p c = want desired p c).
Proof.
  intros Hok He Hdes Hnd Hrun. unfold reconcileHead in Hrun. unfold bind at 1, gets in Hrun. rewrite He in Hrun.
  apply bind_run in Hrun as [(ds & r1' & Hd' & Hrun)|(er & Hd' & ->)]; rewrite Hdes in Hd'; [|done]. injection Hd' as <- <-.
  pose proof (desiredOf_ledger _ _ _ _ _ Hdes) as El1.
  apply bind_run in Hrun as [(have & r2 & Hl & Hrun)|(er & Hl & ->)]; apply onLedger_run in Hl as (s2 & Hl & ->);
    rewrite El1 in Hl; pose proof Hl as Hl0; apply pl_ListAll_spec in Hl as (Hok2 & Hrows & Hlist); try done;
    assert (Hsame : forall h p c, pl_pin s2 h p c = pl_pin (rc_ledger r) h p c) by (intros; by apply pl_row_pin).
  2: { simpl. split; [done|]. split; [intros; apply Hrows|]. split; [left; apply Hsame|]. split; [|done].
       intros (p & c & [b Hb] & Hn). rewrite Hsame in Hn. congruence. }
  destruct Hlist as [_ Hlist]. set (r2 := set_ledger s2 r1) in *.
  assert (Hw : exists y r3, (let '(add, remove) := plan desired have in
     delta <-- applyAdds name add (mkDelta 0 0) ;; applyRemoves name remove delta) r2 = (y, r3) /\
     rc_ledger r' = rc_ledger r3 /\ (forall d, x = Ok d -> y = Ok d)).
  { destruct (plan desired have) as [add remove]. unfold bind in Hrun |- *.
    destruct (applyAdds name add (mkDelta 0 0) r2) as [[d1|er] r3]; [|injection Hrun as <- <-; by eexists _, _].
    destruct (applyRemoves name remove d1 r3) as [[d2|er] r4]; [|injection Hrun as <- <-; by eexists _, _].
    eexists _, _. split; [done|]. destruct (en_withdrawal e) as [tok|]; [|by injection Hrun as <- <-].
    injection Hrun as <- <-. split; [|done]. apply finishWithdrawal_ledger. }
  destruct Hw as (y & r3 & Hw & -> & Hy).
  apply (pass_writes name desired have) in Hw as (Hf & Hrow & Hrem & Hex); try done.
  - simpl in Hrow, Hrem. split; [apply Hf|]. split; [intros h p c Hne; rewrite (fr_other _ _ _ Hf) by done; apply Hrows|].
    split; [intros p c; destruct (Hrow p c) as [->|?]; [left; apply Hsame|by right]|]. split.
    + intros (p & c & Hb & Hn). apply Hrem. exists p, c. by rewrite Hsame.
    + intros d Hd. apply (Hex d). auto.
  - intros e' He'. exact (pl_ListAll_defined name (rc_ledger r) have s2 Hok Hl0 e' He').
  - intros p c b. simpl. rewrite Hsame. apply Hlist.
Qed.

(** C24: Reconciliation is crash-safe and exact.  Wherever a pass stops, every row of
    the head is at its old or its desired value, no row was dropped before every
    desired pin was recorded, and no other head's rows moved; a pass that
    succeeds leaves exactly the pins the policy asks for. *)
Theorem reconcile_crash_safe name e desired (r r1 : Rec) x r' :
  pl_ok (rc_ledger r) -> rc_heads r !! name = Some e ->
  desiredOf name e r = (Ok desired, r1) -> NoDup (pinKey <$> desired) ->
  reconcileHead name r = (x, r') ->
  pl_ok (rc_ledger r') /\
  (forall h p c, h <> name -> pl_row (rc_ledger r') h p c = pl_row (rc_ledger r) h p c) /\
  (forall p c, pl_pin (rc_ledger r') name p c = pl_pin (rc_ledger r) name p c \/
               pl_pin (rc_ledger r') name p c = want desired p c) /\
  ((exists p c, is_Some (pl_pin (rc_ledger r) name p c) /\ pl_pin (rc_ledger r') name p c = None) ->
   forall p c b, want desired p c = Some b -> pl_pin (rc_ledger r') name p c = Some b) /\
  (forall d, x = Ok d -> forall p c, pl_pin (rc_ledger r') name p c = want desired p c).
Proof. apply reconcileHead_run. Qed.

(** A settled ledger needs no writes. *)
Lemma plan_settled desired have (R : string -> CidV -> option bool) :
  NoDup (pinKey <$> desired) -> (forall p, p ∈ desired -> is_Some (pr_CID p)) ->
  (forall e, e ∈ have -> is_Some (pin_CID e)) -> NoDup (rowkey <$> have) ->
  (forall p c b, R p c = Some b <-> exists t, mkPin p (Some c) b t ∈ have) ->
  (forall p c, R p c = want desired p c) -> plan desired have = ([], []).
Proof.
  intros Hnd Hdd Hdef _ HR Hset. unfold plan. destruct (planHave (wantMap desired) have) as [a0 r0] eqn:Eh.
  destruct (planHave_spec _ _ _ _ Eh) as [Ha Hr].
  assert (Hrow : forall e, e ∈ have -> exists c, pin_CID e = Some c /\ want desired (Purpose e) c = Some (Recursive e)).
  { intros e He. destruct (Hdef e He) as [c Hc]. exists c. split; [done|]. rewrite <- Hset. apply HR. exists (Expiry e).
    rewrite <- Hc. by destruct e. }
  assert (a0 = []) as ->.
  { destruct a0 as [|p a0]; [done|exfalso]. destruct (proj1 (Ha p) ltac:(by left)) as (e & He & Hw & Hne).
    destruct (Hrow e He) as (c & Hc & Hwant). unfold want in Hwant. rewrite <- Hc, Hw in Hwant. simpl in Hwant. congruence. }
  assert (r0 = []) as ->.
  { destruct r0 as [|q r0]; [done|exfalso]. destruct (proj1 (Hr q) ltac:(by left)) as (e & He & Hw & _).
    destruct (Hrow e He) as (c & Hc & Hwant). unfold want in Hwant. by rewrite <- Hc, Hw in Hwant. }
  f_equal. simpl. apply filter_none. apply Forall_forall. intros p Hp Hn. apply Hn. apply heldSet_in.
  destruct (Hdd p Hp) as [c Hc]. assert (Hw : want desired (pr_Purpose p) c = Some (pr_Recursive p)).
  { unfold want. pose proof (wantMap_in desired p Hnd Hp) as Hl. unfold pinKey in Hl. rewrite Hc in Hl. unfold key. by rewrite Hl. }
  rewrite <- Hset in Hw. apply HR in Hw as [t Ht]. eexists. split; [exact Ht|]. unfold key, rowkey. simpl. by rewrite Hc.
Qed.

(** A pass over a settled head writes nothing: its delta is zero and the ledger's
    rows are what they were. *)
Theorem reconcile_idempotent name e desired (r r1 : Rec) d r' :
  pl_ok (rc_ledger r) -> rc_heads r !! name = Some e -> en_withdrawal e = None ->
  desiredOf name e r = (Ok desired, r1) -> NoDup (pinKey <$> desired) ->
  (forall p, p ∈ desired -> is_Some (pr_CID p)) ->
  (forall p c, pl_pin (rc_ledger r) name p c = want desired p c) ->
  reconcileHead name r = (Ok d, r') ->
  Delta_empty d = true /\ forall h p c, pl_row (rc_ledger r') h p c = pl_row (rc_ledger r) h p c.
Proof.
  intros Hok He Hwd Hdes Hnd Hdd Hset Hrun. unfold reconcileHead in Hrun. unfold bind at 1, gets in Hrun. rewrite He in Hrun.
  apply bind_run_ok in Hrun as (ds & r1' & Hd' & Hrun); rewrite Hdes in Hd'. injection Hd' as <- <-.
  pose proof (desiredOf_ledger _ _ _ _ _ Hdes) as El1.
  apply bind_run_ok in Hrun as (have & r2 & Hl & Hrun). apply onLedger_run in Hl as (s2 & Hl & ->).
  rewrite El1 in Hl. pose proof Hl as Hl0. apply pl_ListAll_spec in Hl as (Hok2 & Hsame & Hndk & Hlist); [|done].
  rewrite (plan_settled desired have (pl_pin (rc_ledger r) name)) in Hrun; try done.
  2: { intros e' He'. exact (pl_ListAll_defined name (rc_ledger r) have s2 Hok Hl0 e' He'). }
  rewrite Hwd in Hrun. injection Hrun as <- <-. split; [done|]. intros. apply Hsame.
Qed.

(** ** Passes over several heads *)

(** [names] is the sorted list of the registered names. *)
Definition reg_ok (r : Rec) : Prop := rc_names r = sortedNames (rc_heads r).

Lemma applyAdds_frame name l delta (r : Rec) x r' :
  pl_ok (rc_ledger r) -> applyAdds name l delta r = (x, r') -> frame name r r' /\ rc_names r' = rc_names r.
Proof.
  revert delta r. induction l as [|q l IH]; intros delta r Hok H; cbn [applyAdds] in H.
  { injection H as <- <-. by split. }
  assert (Hstep : forall y r1, onLedger (pl_Add name (pr_Purpose q) (pr_CID q) (pr_Recursive q)) r = (y, r1) ->
    frame name r r1 /\ rc_names r1 = rc_names r).
  { intros y r1 (s1 & Ha & ->)%onLedger_run. split; [|done]. destruct (pr_CID q) as [c|].
    - apply pl_Add_spec in Ha as (Hok1 & Hoth & _); [|done]. split; try done. intros h p c' Hne. apply Hoth. congruence.
    - apply pl_Add_undef in Ha as (_ & Hok1 & Hall); [|done]. by split. }
  apply bind_run in H as [([] & r1 & Ha & H)|(e & Ha & ->)]; destruct (Hstep _ _ Ha) as [F N]; [|done].
  apply IH in H as [F' N']; [|apply F]. split; [by eapply frame_trans|congruence].
Qed.

Lemma applyRemoves_names name l delta (r : Rec) x r' : applyRemoves name l delta r = (x, r') -> rc_names r' = rc_names r.
Proof.
  revert delta r. induction l as [|q l IH]; intros delta r H; cbn [applyRemoves] in H; [by injection H as <- <-|].
  apply bind_run in H as [([] & r1 & (s1 & _ & ->)%onLedger_run & H)|(e & (s1 & _ & ->)%onLedger_run & ->)]; [|done].
  apply IH in H. done.
Qed.

(** Computing the pins moves the head's own engine and nothing else. *)
Lemma desiredOf_heads name e (r : Rec) x r1 :
  rc_heads r !! name = Some e -> desiredOf name e r = (x, r1) ->
  dom (rc_heads r1) = dom (rc_heads r) /\ rc_names r1 = rc_names r /\ (forall n, n <> name -> rc_heads r1 !! n = rc_heads r !! n).
Proof.
  intros He. unfold desiredOf. destruct (en_withdrawal e); [by intros [= <- <-]|]. destruct (en_head e) as [h|]; [|by intros [= <- <-]].
  intros Hd. assert (Hl : forall A (y : res A) (z : Rec) u w, lift y z = (u, w) -> w = z) by (by intros * [= _ <-]).
  assert (Hen : forall y r2, enumerateHead name e h r = (y, r2) ->
    dom (rc_heads r2) = dom (rc_heads r) /\ rc_names r2 = rc_names r /\ (forall n, n <> name -> rc_heads r2 !! n = rc_heads r !! n)).
  { intros y r2 H. unfold enumerateHead in H. destruct (Enumerate cfg h) as [z h'']. injection H as <- <-. simpl.
    split; [|split; [done|intros; by apply lookup_insert_ne]]. rewrite dom_insert_L.
    assert (name ∈ dom (rc_heads r)) by (by eapply elem_of_dom_2). set_solver. }
  apply bind_run in Hd as [(en & r2 & H2%Hen & Hd)|(er & H2%Hen & ->)]; [|done].
  apply bind_run in Hd as [(ds & r3 & Hds & Hd)|(er & Hds & ->)]; apply Hl in Hds as ->; [|done].
  destruct ManifestTip as [tipOf|]; [|by injection Hd as <- <-].
  apply bind_run in Hd as [(t & r4 & Ht & Hd)|(er & Ht & ->)]; apply Hl in Ht as ->; [|done]. by injection Hd as <- <-.
Qed.

Lemma desiredOf_result name e (r r' : Rec) : fst (desiredOf name e r) = fst (desiredOf name e r').
Proof.
  unfold desiredOf. destruct (en_withdrawal e); [done|]. destruct (en_head e) as [h|]; [|done].
  unfold bind, enumerateHead, lift. destruct (Enumerate cfg h) as [[en|er] h']; [|done].
  destruct (Desired (en_policy e) (Some en)); [|done]. destruct ManifestTip as [tipOf|]; [|done].
  by destruct (tipOf name).
Qed.

Lemma finishWithdrawal_heads name token (r : Rec) :
  (forall n, n <> name -> rc_heads (finishWithdrawal name token r) !! n = rc_heads r !! n) /\
  (reg_ok r -> reg_ok (finishWithdrawal name token r)).
Proof.
  unfold finishWithdrawal. destruct (rc_heads r !! name) as [cur|]; [|done].
  destruct (match en_withdrawal cur with Some t => sameToken t token | None => false end); [|done]. simpl.
  split; [intros; by apply lookup_delete_ne|done].
Qed.

(** A pass over one head leaves the other heads' rows and entries alone. *)
Lemma reconcileHead_frame name (r : Rec) x r' :
  pl_ok (rc_ledger r) -> reconcileHead name r = (x, r') ->
  pl_ok (rc_ledger r') /\
  (forall h p c, h <> name -> pl_row (rc_ledger r') h p c = pl_row (rc_ledger r) h p c) /\
  (forall n, n <> name -> rc_heads r' !! n = rc_heads r !! n) /\ (reg_ok r -> reg_ok r') /\
  (forall e, rc_heads r !! name = Some e -> en_withdrawal e = None -> is_Some (rc_heads r' !! name)).
Proof.
  intros Hok H. unfold reconcileHead in H. unfold bind at 1, gets in H. destruct (rc_heads r !! name) as [e|] eqn:He.
  2: { injection H as <- <-. by repeat split. }
  assert (Hdes : forall y r1, desiredOf name e r = (y, r1) ->
    rc_ledger r1 = rc_ledger r /\ (forall n, n <> name -> rc_heads r1 !! n = rc_heads r !! n) /\ (reg_ok r -> reg_ok r1) /\
    is_Some (rc_heads r1 !! name)).
  { intros y r1 H1. pose proof (desiredOf_ledger _ _ _ _ _ H1). apply desiredOf_heads in H1 as (Hd & Hn & Hh); [|done].
    split; [done|]. split; [done|]. split.
    - unfold reg_ok, sortedNames. rewrite Hn, Hd. done.
    - apply elem_of_dom. rewrite Hd. by eapply elem_of_dom_2. }
  apply bind_run in H as [(ds & r1 & (El & Hh & Hr & Hs)%Hdes & H)|(er & (El & Hh & Hr & Hs)%Hdes & ->)].
  2: { split; [by rewrite El|]. split; [by rewrite El|]. done. }
  apply bind_run in H as [(have & r2 & Hl & H)|(er & Hl & ->)]; apply onLedger_run in Hl as (s2 & Hl & ->);
    rewrite El in Hl; pose proof Hl as Hl0; apply pl_ListAll_spec in Hl as (Hok2 & Hsame & _); try done.
  set (r2 := set_ledger s2 r1) in *.
  assert (Hbase : forall r3 : Rec, frame name r2 r3 -> rc_names r3 = rc_names r2 ->
    pl_ok (rc_ledger r3) /\ (forall h p c, h <> name -> pl_row (rc_ledger r3) h p c = pl_row (rc_ledger r) h p c) /\
    (forall n, n <> name -> rc_heads r3 !! n = rc_heads r !! n) /\ (reg_ok r -> reg_ok r3) /\
    is_Some (rc_heads r3 !! name)).
  { intros r3 [F1 F2 F3 F4] N. split; [done|]. split; [intros h p c Hne; rewrite F2 by done; apply Hsame|].
    rewrite F3. split; [done|]. split; [|done]. intros Hreg. specialize (Hr Hreg). unfold reg_ok. rewrite F3, N. exact Hr. }
  destruct (plan ds have) as [add remove] eqn:Ep.
  apply bind_run in H as [(d1 & r3 & Ha & H)|(er & Ha & ->)]; apply applyAdds_frame in Ha as [F1 N1]; try done.
  2: { destruct (Hbase _ F1 N1) as (? & ? & ? & ? & ?). auto. }
  assert (Hrd : forall q, q ∈ remove -> is_Some (pr_CID q)).
  { intros q Hq. unfold plan in Ep. destruct (planHave (wantMap ds) have) as [a0 r0] eqn:Eh. injection Ep as _ <-.
    destruct (planHave_spec _ _ _ _ Eh) as [_ Hrem]. apply Hrem in Hq as (en & Hen & _ & ->).
    exact (pl_ListAll_defined name (rc_ledger r) have s2 Hok Hl0 en Hen). }
  apply bind_run in H as [(d2 & r4 & Hrm & H)|(er & Hrm & ->)]; pose proof (applyRemoves_names _ _ _ _ _ _ Hrm) as N2;
    apply applyRemoves_run in Hrm as (F2 & _ & _); try done; try apply F1;
    destruct (Hbase r4 ltac:(by eapply frame_trans) ltac:(congruence)) as (B1 & B2 & B3 & B4 & B5) || destruct (Hbase r' ltac:(by eapply frame_trans) ltac:(congruence)) as (B1 & B2 & B3 & B4 & B5).
  2: auto.
  destruct (en_withdrawal e) as [tok|] eqn:Ew.
  - injection H as <- <-. destruct (finishWithdrawal_heads name tok r4) as [G1 G2]. rewrite finishWithdrawal_ledger.
    split; [done|]. split; [done|]. split; [intros n Hn; rewrite G1 by done; auto|]. split; [auto|]. intros e' [= <-]. congruence.
  - injection H as <- <-. auto.
Qed.

(** A run over distinct heads that succeeds leaves every live head's rows at what
    its own policy asks for. *)
Lemma reconcileNames_run names total (r : Rec) d r' :
  NoDup names -> pl_ok (rc_ledger r) -> reconcileNames names total r = (Ok d, r') ->
  pl_ok (rc_ledger r') /\ (reg_ok r -> reg_ok r') /\
  (forall n, n ∉ names -> rc_heads r' !! n = rc_heads r !! n /\ forall p c, pl_row (rc_ledger r') n p c = pl_row (rc_ledger r) n p c) /\
  (forall n e, n ∈ names -> rc_heads r !! n = Some e -> en_withdrawal e = None ->
     is_Some (rc_heads r' !! n) /\ exists desired, fst (desiredOf n e r) = Ok desired /\
       (NoDup (pinKey <$> desired) -> forall p c, pl_pin (rc_ledger r') n p c = want desired p c)).
Proof.
  intros Hnd Hok H. revert total r Hok H. induction Hnd as [|name names Hni Hnd IH]; intros total r Hok H; cbn [reconcileNames] in H.
  { injection H as <- <-. split; [done|]. split; [done|]. split; [done|]. by intros n e []%not_elem_of_nil. }
  apply bind_run_ok in H as (d1 & r1 & H1 & H). pose proof H1 as H1'. apply reconcileHead_frame in H1' as (O1 & P1 & E1 & R1 & S1); [|done].
  apply IH in H as (O2 & R2 & N2 & L2); [|done]. split; [done|]. split; [auto|]. split.
  - intros n Hn. apply not_elem_of_cons in Hn as [Hne Hn]. destruct (N2 n Hn) as [Hh Hp]. rewrite Hh, E1 by done.
    split; [done|]. intros p c. rewrite Hp. by apply P1.
  - intros n e [->|Hn]%elem_of_cons He Hw.
    + destruct (N2 name Hni) as [Hh Hp]. rewrite Hh. split; [by eapply S1|].
      destruct (desiredOf name e r) as [[desired|er] r2] eqn:Ed.
      * exists desired. split; [done|]. intros Hk p c. rewrite (pl_row_pin _ _ _ _ _ (Hp p c)).
        destruct (reconcileHead_run name e desired r r2 (Ok d1) r1 Hok He Ed Hk H1) as (_ & _ & _ & _ & Hall). by eapply Hall.
      * exfalso. unfold reconcileHead in H1. unfold bind at 1, gets in H1. rewrite He in H1. unfold bind at 1 in H1. by rewrite Ed in H1.
    + assert (Hne : n <> name) by (by intros ->). rewrite <- (E1 n Hne) in He. destruct (L2 n e Hn He Hw) as (Hs & desired & Hd & Hall).
      split; [done|]. exists desired. split; [|done]. by rewrite (desiredOf_result n e r r1).
Qed.

Lemma sortedNames_spec x : NoDup (sortedNames x) /\ forall n, n ∈ sortedNames x <-> is_Some (x !! n).
Proof.
  unfold sortedNames. split.
  - rewrite merge_sort_Permutation. apply NoDup_elements.
  - intros n. rewrite merge_sort_Permutation, elem_of_elements. apply elem_of_dom.
Qed.

(** Changing a head's mode from full to another, with the root unmoved, the
    first write of the pass turns the one recursive root pin into a direct one,
    before any pin that replaces it is recorded: a pass that stops there retains
    the root block and nothing under it. *)
Theorem mode_change_downgrades_first name c page t (r : Rec) u r1 :
  let desired := [mkPinReq PurposeRoot (Some c) false; mkPinReq PurposeIndex (Some page) false] in
  let have := [mkPin PurposeRoot (Some c) true t] in
  pl_ok (rc_ledger r) ->
  (forall p c', pl_pin (rc_ledger r) name p c' = if decide ((p, c') = (PurposeRoot, c)) then Some true else None) ->
  applyAdds name (take 1 (fst (plan desired have))) (mkDelta 0 0) r = (Ok u, r1) ->
  want desired PurposeIndex page = Some false /\
  forall p c', pl_pin (rc_ledger r1) name p c' = if decide ((p, c') = (PurposeRoot, c)) then Some false else None.
Proof.
  intros desired have Hok Hrows Hrun.
  assert (Hw : forall p, p ∈ desired -> wantMap desired !! pinKey p = Some p).
  { intros p Hp. apply wantMap_in; [|done]. apply NoDup_cons. split; [|apply NoDup_singleton].
    by intros [= ?]%list_elem_of_singleton. }
  assert (Hp : fst (plan desired have) = mkPinReq PurposeRoot (Some c) false :: drop 1 (fst (plan desired have))).
  { unfold plan, have. cbn [planHave]. pose proof (Hw _ (list_elem_of_here _ _)) as E.
    change (key (Purpose _) (pin_CID _)) with (pinKey (mkPinReq PurposeRoot (Some c) false)). by rewrite E. }
  rewrite Hp in Hrun. cbn [take applyAdds] in Hrun. apply bind_run_ok in Hrun as ([] & r2 & Ha & Hrun). injection Hrun as _ <-.
  apply onLedger_run in Ha as (s2 & Ha & ->). apply pl_Add_spec in Ha as (_ & Hoth & Hrow); [|done]. split.
  - unfold want. pose proof (Hw (mkPinReq PurposeIndex (Some page) false) ltac:(right; by left)) as E.
    change (key PurposeIndex (Some page)) with (pinKey (mkPinReq PurposeIndex (Some page) false)). by rewrite E.
  - intros p c'. simpl. case_decide as E.
    + injection E as -> ->. by destruct Hrow as [?|[? _]].
    + rewrite (pl_row_pin (rc_ledger r)) by (apply Hoth; intros [= -> ->]; by apply E). rewrite Hrows. by rewrite decide_False.
Qed.
End Reconcile.
