(* ===== verification/Staging.v ===== *)
(** Staging pins: pinning/staging.go.

    A blob is stored by one request and referenced by another; in between a
    direct, expiring pin under a reserved head name retains it.  The rows live in
    the pin ledger of Ledger.v; the clock is read once per operation and is an
    argument [now].  Proved: a staged blob is pinned until the second its expiry
    falls in and not after the next expiry pass, expiry drops only staging rows
    whose time has come, and dropping the rows of a batch that has been applied
    takes exactly the rows of the blobs it names. *)
From S2P Require Import Prelude Cid Schema Apply Ledger Core Engine Policy Reconcile.

Section Staging.
Context `{MH : Multihash} `{CC : !CidBytes} {K : Type} `{PB : !Pebble K}.

Definition PurposeStaging : string := "staging".
(** time.Duration is nanoseconds. *)
Definition DefaultStagingTTL : Z := 24 * 3600 * 10 ^ 9.

Record Staging : Type := mkStaging { st_ttl : Z }.

(** The ledger and the resolver are not nil: they are the store [K]. *)
Definition NewStaging (ttl : Z) : res Staging :=
  refuse_if ttl <? 0 with EInvalid "StagingConfig.TTL must not be negative" ;;
  Ok (mkStaging (if ttl =? 0 then DefaultStagingTTL else ttl)).

Definition stagingPin (expiry : Time) (c : Cid) : PinEntry := mkPin PurposeStaging c false expiry.

Definition Staging_Pin (s : Staging) (now : Time) (cids : list Cid) : M K unit :=
  if len cids =? 0 then ret tt
  else AddBatch StagingHead (stagingPin (now + st_ttl s) <$> cids).

(** The loops of DropRefs over the rows and their versioned hashes. *)
Fixpoint resolveStaged (vhs : list VersionedHash) (pins : list PinEntry) : M K (list PinEntry) :=
  match vhs with
  | [] => ret pins
  | vh :: vhs' =>
    let* (c, ok) := ResolveBlob vh in
    resolveStaged vhs' (if ok then pins ++ [stagingPin zeroTime c] else pins)
  end.
Fixpoint resolveStagedRows (rows : list RefRow) (pins : list PinEntry) : M K (list PinEntry) :=
  match rows with
  | [] => ret pins
  | row :: rows' => pins <-- resolveStaged (VHs row) pins ;; resolveStagedRows rows' pins
  end.
Definition DropRefs (rows : list RefRow) : M K unit :=
  pins <-- resolveStagedRows rows [] ;; RemoveBatch StagingHead pins.

Definition Staging_Drop (cids : list Cid) : M K unit :=
  if len cids =? 0 then ret tt else RemoveBatch StagingHead (stagingPin zeroTime <$> cids).

Definition Staging_List : M K (list PinEntry) := ListAll StagingHead.

Definition isExpired (now : Time) (r : PinEntry) : bool := Expires r && negb (After (Expiry r) now).
Definition DropExpired (now : Time) : M K Z :=
  rows <-- Staging_List ;;
  let expired := filter (fun r => isExpired now r = true) rows in
  RemoveBatch StagingHead expired ;;; ret (len expired).

(** ** Batches against the abstract ledger *)

Context `{PO : !PebbleOk K}.

(** The row of a batch that names a key. *)
Definition names_row (h' p : string) (c : CidV) (h : string) (q : PinEntry) : Prop :=
  (h', p, Some c) = (h, Purpose q, pin_CID q).
#[global] Instance names_row_dec h' p c h q : Decision (names_row h' p c h q).
Proof. unfold names_row. apply _. Defined.

Lemma names_row_key h' p c' h q c :
  pin_CID q = Some c -> (h', p, c') = (h, Purpose q, c) <-> names_row h' p c' h q.
Proof. intros Hc. unfold names_row. rewrite Hc. split; congruence. Qed.

Definition added (h : string) (pins : list PinEntry) (h' p : string) (c : CidV) (old : option (bool * Time)) :=
  foldl (fun o q => if decide (names_row h' p c h q) then Some (Recursive q, storedTime (Expiry q)) else o) old pins.
Definition removed (h : string) (pins : list PinEntry) (h' p : string) (c : CidV) (old : option (bool * Time)) :=
  foldl (fun o q => if decide (names_row h' p c h q) then None else o) old pins.

Lemma stagePins_ok h op pins ops :
  stagePins h op pins = Ok ops ->
  Forall2 (fun q o => checkName (Purpose q) = Ok tt /\
                      exists c, pin_CID q = Some c /\ o = op (ledgerKey h (Purpose q) c) q) pins ops.
Proof.
  revert ops. induction pins as [|q pins IH]; intros ops H; simpl in H; [injection H as <-; constructor|].
  apply rbind_ok in H as ([] & Hn & H). destruct (pin_CID q) as [c|] eqn:Ec; [|done].
  apply rbind_ok in H as (ops' & Hs & [= <-]). constructor; [split; [done|]; eauto|by apply IH].
Qed.

Lemma added_ops h pins ops m :
  checkName h = Ok tt -> Forall (fun q => time_ok (Expiry q)) pins -> ledger_wf m ->
  stagePins h (fun k p => KSet k (encodePinValue (Recursive p) (Expiry p))) pins = Ok ops ->
  ledger_wf (kv_applys ops m) /\
  forall h' p c, pin_at (kv_applys ops m) h' p c = added h pins h' p c (pin_at m h' p c).
Proof.
  intros Hh Ht Hm Hs%stagePins_ok. unfold kv_applys, added. revert m Hm.
  induction Hs as [|q o pins ops (Hn & c & Hc & ->) _ IH]; intros m Hm; [done|].
  apply Forall_cons_iff in Ht as [Hq Ht]. cbn [foldl kv_apply].
  assert (Hnames : checkNames h (Purpose q) = Ok tt) by (by apply checkNames_ok).
  destruct (IH Ht (<[ledgerKey h (Purpose q) c := encodePinValue (Recursive q) (Expiry q)]> m)) as [Hw Hp];
    [by apply ledger_wf_set|]. split; [done|].
  intros h' p c'. rewrite Hp. f_equal. rewrite pin_at_set by done. by apply decide_ext, names_row_key.
Qed.

Lemma removed_ops h pins ops m :
  checkName h = Ok tt -> ledger_wf m ->
  stagePins h (fun k _ => KDelete k) pins = Ok ops ->
  ledger_wf (kv_applys ops m) /\
  forall h' p c, pin_at (kv_applys ops m) h' p c = removed h pins h' p c (pin_at m h' p c).
Proof.
  intros Hh Hm Hs%stagePins_ok. unfold kv_applys, removed. revert m Hm.
  induction Hs as [|q o pins ops (Hn & c & Hc & ->) _ IH]; intros m Hm; [done|]. cbn [foldl kv_apply].
  assert (Hnames : checkNames h (Purpose q) = Ok tt) by (by apply checkNames_ok).
  destruct (IH (delete (ledgerKey h (Purpose q) c) m)) as [Hw Hp]; [by apply ledger_wf_delete|]. split; [done|].
  intros h' p c'. rewrite Hp. f_equal. rewrite pin_at_delete by done. by apply decide_ext, names_row_key.
Qed.

(** What a batch did to the rows: all of it, or (when it failed) nothing. *)
Definition batch_result (x : res unit) (s s' : K)
    (f : string -> string -> CidV -> option (bool * Time) -> option (bool * Time)) : Prop :=
  ledger_wf (kv s') /\
  match x with
  | Ok _ => forall h p c, pin_at (kv s') h p c = f h p c (pin_at (kv s) h p c)
  | Err _ => (forall h p c, pin_at (kv s') h p c = f h p c (pin_at (kv s) h p c)) \/
             (forall h p c, pin_at (kv s') h p c = pin_at (kv s) h p c)
  end.

Lemma commit_result ops f s x s' :
  ledger_wf (kv s) ->
  ledger_wf (kv_applys ops (kv s)) /\
    (forall h p c, pin_at (kv_applys ops (kv s)) h p c = f h p c (pin_at (kv s) h p c)) ->
  kv_commit ops s = (x, s') -> batch_result x s s' f.
Proof.
  intros Hm [Hw Hp] H. apply kv_commit_spec in H. destruct x as [u|e].
  - split; rewrite H; done.
  - destruct H as [_ [E|E]]; split; rewrite ?E; auto.
Qed.

Lemma batch_same s f : ledger_wf (kv s) -> (forall h p c o, f h p c o = o) -> batch_result (Ok tt) s s f.
Proof. intros Hm Hf. split; [done|]. intros h p c. by rewrite Hf. Qed.
Lemma batch_fail s f e : ledger_wf (kv s) -> batch_result (Err e) s s f.
Proof. intros Hm. split; [done|]. by right. Qed.

Lemma AddBatch_run h pins s x s' :
  ledger_wf (kv s) -> Forall (fun q => time_ok (Expiry q)) pins -> AddBatch h pins s = (x, s') ->
  batch_result x s s' (added h pins).
Proof.
  intros Hm Ht H. unfold AddBatch in H.
  apply bind_run in H as [(u & s1 & Hc & H)|(e & Hc & ->)]; apply kv_ctx_spec in Hc as [-> _]; [|by apply batch_fail].
  destruct (len pins =? 0) eqn:E.
  { injection H as <- <-. destruct pins; [by apply batch_same|by apply Z.eqb_eq in E]. }
  apply bind_run in H as [([] & s1 & Hc & H)|(e & Hc & ->)]; apply lift_run in Hc as [Hc ->]; [|by apply batch_fail].
  apply bind_run in H as [(ops & s1 & Ho & H)|(e & Ho & ->)]; apply lift_run in Ho as [Ho ->]; [|by apply batch_fail].
  eapply commit_result; [done| |exact H]. by apply added_ops.
Qed.

Lemma RemoveBatch_run h pins s x s' :
  ledger_wf (kv s) -> RemoveBatch h pins s = (x, s') -> batch_result x s s' (removed h pins).
Proof.
  intros Hm H. unfold RemoveBatch in H.
  apply bind_run in H as [(u & s1 & Hc & H)|(e & Hc & ->)]; apply kv_ctx_spec in Hc as [-> _]; [|by apply batch_fail].
  destruct (len pins =? 0) eqn:E.
  { injection H as <- <-. destruct pins; [by apply batch_same|by apply Z.eqb_eq in E]. }
  apply bind_run in H as [([] & s1 & Hc & H)|(e & Hc & ->)]; apply lift_run in Hc as [Hc ->]; [|by apply batch_fail].
  apply bind_run in H as [(ops & s1 & Ho & H)|(e & Ho & ->)]; apply lift_run in Ho as [Ho ->]; [|by apply batch_fail].
  eapply commit_result; [done| |exact H]. by apply removed_ops.
Qed.

Lemma removed_spec h pins h' p c old :
  removed h pins h' p c old = if decide (Exists (names_row h' p c h) pins) then None else old.
Proof.
  unfold removed. induction pins as [|q pins IH] using rev_ind; [done|]. rewrite foldl_snoc, IH.
  repeat case_decide; try done; exfalso; rewrite ?Exists_app, ?Exists_cons, ?Exists_nil in *; tauto.
Qed.

Lemma added_uniform h (f : Cid -> PinEntry) cids h' p c old v :
  (forall x, pin_CID (f x) = x /\ Purpose (f x) = PurposeStaging /\ (Recursive (f x), storedTime (Expiry (f x))) = v) ->
  added h (f <$> cids) h' p c old =
  if decide (h' = h /\ p = PurposeStaging /\ Some c ∈ cids) then Some v else old.
Proof.
  intros Hf. unfold added. induction cids as [|x cids IH] using rev_ind.
  { case_decide as E; [|done]. destruct E as (_ & _ & []%not_elem_of_nil). }
  rewrite fmap_app, foldl_app, IH. simpl. destruct (Hf x) as (Hc & Hp & <-).
  assert (Hn : names_row h' p c h (f x) <-> h' = h /\ p = PurposeStaging /\ x = Some c).
  { unfold names_row. rewrite Hc, Hp. naive_solver. }
  repeat case_decide; try done; exfalso; rewrite ?elem_of_app, ?list_elem_of_singleton in *; naive_solver.
Qed.

(** ** Expiry *)

Definition expired_row (now : Time) (o : option (bool * Time)) : bool :=
  match o with Some (_, t) => negb (IsZero t) && negb (After t now) | None => false end.
Definition after_expiry (now : Time) (h p : string) (c : CidV) (o : option (bool * Time)) : option (bool * Time) :=
  if decide (h = StagingHead /\ expired_row now o = true) then None else o.

Lemma DropExpired_run now s x s' :
  ledger_wf (kv s) -> DropExpired now s = (x, s') ->
  batch_result (_ <-? x ;; Ok tt) s s' (after_expiry now).
Proof.
  intros Hm H. unfold DropExpired, Staging_List in H.
  apply bind_run in H as [(rows & s1 & Hl & H)|(e & Hl & ->)]; apply ListAll_run in Hl as [Ek Hl]; try done.
  2: { split; [by rewrite Ek|]. right. intros. by rewrite Ek. }
  destruct Hl as [_ Hrows]. set (expired := filter (fun r => isExpired now r = true) rows) in H.
  assert (Hex : forall h p c, removed StagingHead expired h p c (pin_at (kv s) h p c)
                              = after_expiry now h p c (pin_at (kv s) h p c)).
  { intros h p c. rewrite removed_spec. unfold after_expiry. apply decide_ext. rewrite Exists_exists. split.
    - intros (e & [He Hin]%list_elem_of_filter & [= -> -> Hc]). split; [done|]. symmetry in Hc. apply Hrows in Hin as (c' & Hc' & Hp).
      rewrite Hc in Hc'. injection Hc' as <-. rewrite Hp. exact He.
    - intros [-> He]. destruct (pin_at (kv s) StagingHead p c) as [[b t]|] eqn:Ep; [|done].
      exists (mkPin p (Some c) b t). split; [|done]. apply list_elem_of_filter. split; [exact He|]. apply Hrows. eauto. }
  assert (Hres : forall y s2, RemoveBatch StagingHead expired s1 = (y, s2) -> batch_result y s s2 (after_expiry now)).
  { intros y s2 Hr. apply RemoveBatch_run in Hr as [Hw Hall]; [|by rewrite Ek]. split; [done|]. rewrite Ek in Hall.
    destruct y; [intros h p c; by rewrite Hall, Hex|]. destruct Hall as [Hall|Hall]; [left|right]; intros h p c; by rewrite Hall, ?Hex. }
  apply bind_run in H as [([] & s2 & Hr & H)|(e & Hr & ->)]; [|by apply Hres]. injection H as <- <-. by apply Hres.
Qed.

Lemma time_Unix_le t : storedTime t <= t.
Proof.
  unfold storedTime, IsZero. destruct (Z.eqb_spec t zeroTime) as [->|]; [done|]. unfold time_Unix, Unix.
  pose proof (Z.mul_div_le t (10 ^ 9)). lia.
Qed.

(** A staged blob is pinned directly from the moment the call returns, the expiry
    pass takes the row no earlier than the second its time-to-live ends in and no
    later than the first pass after it, and rows of other heads, rows that carry
    no expiry and rows whose time has not come stay, also when the pass fails
    part way. *)
Theorem staging_lifecycle st now0 cids s s1 now x s2 :
  let expiry := storedTime (now0 + st_ttl st) in
  ledger_wf (kv s) -> time_ok (now0 + st_ttl st) -> IsZero expiry = false ->
  Staging_Pin st now0 cids s = (Ok tt, s1) -> DropExpired now s1 = (x, s2) ->
  (forall c, Some c ∈ cids -> pin_at (kv s1) StagingHead PurposeStaging c = Some (false, expiry)) /\
  (forall c, Some c ∈ cids -> now < expiry -> pin_at (kv s2) StagingHead PurposeStaging c = Some (false, expiry)) /\
  (forall c, Some c ∈ cids -> is_ok x = true -> now0 + st_ttl st <= now ->
     pin_at (kv s2) StagingHead PurposeStaging c = None) /\
  (forall h p c, (h = StagingHead -> expired_row now (pin_at (kv s1) h p c) = false) ->
     pin_at (kv s2) h p c = pin_at (kv s1) h p c) /\
  (forall h p c, (h, p) <> (StagingHead, PurposeStaging) -> pin_at (kv s1) h p c = pin_at (kv s) h p c).
Proof.
  intros expiry Hm Ht Hz Hpin Hdrop. unfold Staging_Pin in Hpin.
  assert (Hadd : ledger_wf (kv s1) /\ forall h p c, pin_at (kv s1) h p c =
     if decide (h = StagingHead /\ p = PurposeStaging /\ Some c ∈ cids) then Some (false, expiry) else pin_at (kv s) h p c).
  { destruct (len cids =? 0) eqn:E.
    - injection Hpin as <-. split; [done|]. intros h p c. destruct cids; [|by apply Z.eqb_eq in E].
      case_decide as D; [|done]. destruct D as (_ & _ & []%not_elem_of_nil).
    - apply AddBatch_run in Hpin as [Hw Hall]; [|done|by apply Forall_fmap, Forall_true].
      split; [done|]. intros h p c. rewrite Hall. by apply added_uniform. }
  destruct Hadd as [Hw1 Hp1]. apply DropExpired_run in Hdrop as [_ Hdrop]; [|done].
  assert (Hpinned : forall c, Some c ∈ cids -> pin_at (kv s1) StagingHead PurposeStaging c = Some (false, expiry)).
  { intros c Hc. rewrite Hp1. by rewrite decide_True. }
  assert (Hkeep : forall h p c, (h = StagingHead -> expired_row now (pin_at (kv s1) h p c) = false) ->
     pin_at (kv s2) h p c = pin_at (kv s1) h p c).
  { intros h p c Hn. assert (Hsame : after_expiry now h p c (pin_at (kv s1) h p c) = pin_at (kv s1) h p c).
    { unfold after_expiry. rewrite decide_False; [done|]. intros [-> He]. by rewrite Hn in He. }
    destruct x; simpl in Hdrop; [by rewrite Hdrop|]. destruct Hdrop as [->| ->]; done. }
  split; [done|]. split; [|split; [|split; [done|]]].
  - intros c Hc Hlt. rewrite Hkeep; [by apply Hpinned|]. intros _. rewrite Hpinned by done. unfold expired_row, After.
    rewrite (proj2 (Z.ltb_lt _ _)) by done. by rewrite andb_false_r.
  - intros c Hc Hok Hle. destruct x; [|done]. simpl in Hdrop. rewrite Hdrop, Hpinned by done. unfold after_expiry.
    rewrite decide_True; [done|]. split; [done|]. unfold expired_row, After. rewrite Hz.
    pose proof (time_Unix_le (now0 + st_ttl st)). rewrite (proj2 (Z.ltb_ge _ _)); [done|]. unfold expiry. lia.
  - intros h p c Hne. rewrite Hp1, decide_False; [done|]. intros (-> & -> & _). done.
Qed.

(** ** Dropping the rows of an applied batch *)

(** The CIDs the catalog names for the versioned hashes of the rows. *)
Definition resolved (m : gmap bytes bytes) (rows : list RefRow) (c : CidV) : Prop :=
  exists row vh v, row ∈ rows /\ vh ∈ VHs row /\ m !! catalogKey vh = Some v /\ cid_cast v = Some c.

Lemma resolveStaged_run vhs pins s out s' :
  resolveStaged vhs pins s = (Ok out, s') ->
  kv s' = kv s /\ forall q, q ∈ out <-> q ∈ pins \/
    exists vh v c, vh ∈ vhs /\ kv s !! catalogKey vh = Some v /\ cid_cast v = Some c /\ q = stagingPin zeroTime (Some c).
Proof.
  revert pins s. induction vhs as [|vh vhs IH]; intros pins s H; cbn [resolveStaged] in H.
  { injection H as <- <-. split; [done|]. intros q. split; [by left|]. intros [?|(? & ? & ? & []%not_elem_of_nil & _)]; done. }
  apply bind_run_ok in H as ([c ok] & s1 & Hr & H). apply IH in H as [Ek Hout].
  apply ResolveBlob_run in Hr as [[Ek1 Hr]|[_ [?|?]]]; [|done..]. rewrite Ek1 in *. split; [congruence|].
  intros q. rewrite Hout. destruct (kv s !! catalogKey vh) as [v|] eqn:Ev; [destruct (cid_cast v) as [c'|] eqn:Ec|].
  - injection Hr as -> ->. rewrite elem_of_app, list_elem_of_singleton. split.
    + intros [[?| ->]|(vh' & v' & c'' & ? & ?)]; [by left|right; exists vh, v, c'; split; [by left|done]|].
      right. exists vh', v', c''. split; [by right|done].
    + intros [?|(vh' & v' & c'' & [->|?]%elem_of_cons & Hv & Hcc & ->)]; [by left; left| |right; eauto 8].
      left. right. congruence.
  - by destruct Hr.
  - injection Hr as -> ->. split; (intros [?|(vh' & v' & c'' & Hvh & ? & ?)]; [by left|right; exists vh', v', c'']).
    + split; [by right|done].
    + apply elem_of_cons in Hvh as [->|?]; [congruence|done].
Qed.

Lemma resolveStagedRows_run rows pins s out s' :
  resolveStagedRows rows pins s = (Ok out, s') ->
  kv s' = kv s /\ forall q, q ∈ out <-> q ∈ pins \/ exists c, resolved (kv s) rows c /\ q = stagingPin zeroTime (Some c).
Proof.
  revert pins s. induction rows as [|row rows IH]; intros pins s H; cbn [resolveStagedRows] in H.
  { injection H as <- <-. split; [done|]. intros q. split; [by left|].
    intros [?|(? & (? & ? & ? & []%not_elem_of_nil & _) & _)]; done. }
  apply bind_run_ok in H as (pins1 & s1 & Hr & H). apply resolveStaged_run in Hr as [Ek1 Hr]. apply IH in H as [Ek Hout].
  rewrite Ek1 in *. split; [congruence|]. intros q. rewrite Hout, Hr. unfold resolved. split.
  - intros [[?|(vh & v & c & ? & ? & ? & ->)]|(c & (row' & vh & v & ? & ?) & ->)]; [by left| |];
      right; exists c; (split; [|done]); [exists row, vh, v; split; [by left|done]|exists row', vh, v; split; [by right|done]].
  - intros [?|(c & (row' & vh & v & [->|?]%elem_of_cons & ?) & ->)]; [by left; left| |].
    + left. right. naive_solver.
    + right. exists c. split; [|done]. by exists row', vh, v.
Qed.

(** Once a batch's root is durable, dropping its staging rows removes exactly the
    staging rows of the blobs the catalog names for its versioned hashes: what is
    staged for another batch, and every pin of every head, stays. *)
Theorem DropRefs_exact rows s s' :
  ledger_wf (kv s) -> DropRefs rows s = (Ok tt, s') ->
  forall h p c,
    ((h, p) = (StagingHead, PurposeStaging) /\ resolved (kv s) rows c -> pin_at (kv s') h p c = None) /\
    (~ ((h, p) = (StagingHead, PurposeStaging) /\ resolved (kv s) rows c) -> pin_at (kv s') h p c = pin_at (kv s) h p c).
Proof.
  intros Hm H h p c. unfold DropRefs in H. apply bind_run_ok in H as (pins & s1 & Hr & H).
  apply resolveStagedRows_run in Hr as [Ek Hpins]. apply RemoveBatch_run in H as [_ H]; [|by rewrite Ek].
  rewrite H, removed_spec, Ek.
  assert (Hex : Exists (names_row h p c StagingHead) pins <-> (h, p) = (StagingHead, PurposeStaging) /\ resolved (kv s) rows c).
  { rewrite Exists_exists. split.
    - intros (q & Hq & Hn). apply Hpins in Hq as [[]%not_elem_of_nil|(c' & Hc' & ->)]. injection Hn as -> -> <-. done.
    - intros [[= -> ->] Hc]. exists (stagingPin zeroTime (Some c)). split; [|done]. apply Hpins. right. eauto. }
  split; intros Hc; [by rewrite decide_True by (by apply Hex)|by rewrite decide_False by (by rewrite Hex)].
Qed.
End Staging.
