(* ===== verification/GC.v ===== *)
(** The garbage collector: pinning/gc.go.

    A run takes a cut under the gate (reconcile every head, expire staging rows,
    snapshot the pins, begin a protection epoch), marks what the pins reach, and
    offers every other enumerated block to the epoch for deletion.  The world is
    the epoch coordinator of Store.v, the reconciler of Reconcile.v with its
    ledger, and the run's counters.

    After the cut the application runs beside the collector.  [gw_sched] is what
    it does: [interleave] lets the next group of application operations run, and
    stands before every block operation of the mark and of the sweep, so a
    theorem for all schedules is one for all interleavings (that each operation
    is atomic is EpochConcurrency.v).  Under the gate nothing is interleaved. *)
From S2P Require Import Prelude Arith Cid Schema Core Engine Enumerate Store Ledger Policy Reconcile Staging.

Section GC.
Context `{MH : Multihash} `{CB : !DagCbor} `{CC : !CidBytes}.
Context {B : Type} `{BA : !BaseStore B}.
Context {Sto : Type} `{BS : !Blockstore Sto} {L : Type} `{LR : !Lru CidV (AnyNode * Z) L}.
Context {K : Type} `{PB : !Pebble K}.
Local Abbreviation Epochs := (@BlockstoreEpochs MH B).
Local Abbreviation Rec := (@Reconciler MH Sto L K).
Local Abbreviation Key := (MhDigest Digest).

(** BlockFetcher: Get fetches a block and writes it through to the local store. *)
Definition BlockFetcher : Type := CidV -> M Epochs bytes.

Record GCStats : Type := mkStats {
  gs_Pins : Z; gs_Marked : Z; gs_Scanned : Z; gs_Swept : Z; gs_Protected : Z; gs_ProtectedSkips : Z;
  gs_Staged : Z; gs_Expired : Z; gs_Refetched : Z;
  gs_RawReads : Z; gs_NodeReads : Z; gs_RawBytes : Z; gs_NodeBytes : Z; gs_stagingObserved : bool }.
Definition zeroStats : GCStats := mkStats 0 0 0 0 0 0 0 0 0 0 0 0 0 false.

(** GC: the configuration and the run-scoped counters. *)
Record GCConfig : Type := mkGCConfig {
  g_separateScrub : bool;
  g_staging : option Staging.Staging;
  g_fetchFor : option (string -> option BlockFetcher) }.

(** NewGC; the arguments say which of the optional fields are set. *)
Definition NewGC (blocks epochs complete reconciler : bool) (c : GCConfig) : res GCConfig :=
  refuse_if negb blocks && negb epochs with EInvalid "one of Blocks or Epochs must be set" ;;
  refuse_if blocks && epochs with EInvalid "Blocks and Epochs are mutually exclusive" ;;
  refuse_if g_separateScrub c && negb epochs with EInvalid "SeparateScrub requires Epochs" ;;
  refuse_if epochs && negb complete with EInvalid "Epochs lacks complete enumeration" ;;
  refuse_if negb reconciler with EInvalid "Reconciler must not be nil" ;;
  Ok c.

Record GCW : Type := mkGCW {
  gw_store : Epochs;
  gw_rec : Rec;
  gw_refetched : Z; gw_rawReads : Z; gw_nodeReads : Z; gw_rawBytes : Z; gw_nodeBytes : Z;
  gw_sched : list (list act) }.

Definition set_store (s : Epochs) (w : GCW) : GCW :=
  mkGCW s (gw_rec w) (gw_refetched w) (gw_rawReads w) (gw_nodeReads w) (gw_rawBytes w) (gw_nodeBytes w) (gw_sched w).
Definition set_rec (r : Rec) (w : GCW) : GCW :=
  mkGCW (gw_store w) r (gw_refetched w) (gw_rawReads w) (gw_nodeReads w) (gw_rawBytes w) (gw_nodeBytes w) (gw_sched w).
Definition resetCounters (w : GCW) : GCW := mkGCW (gw_store w) (gw_rec w) 0 0 0 0 0 (gw_sched w).
Definition countRefetch (w : GCW) : GCW :=
  mkGCW (gw_store w) (gw_rec w) (gw_refetched w + 1) (gw_rawReads w) (gw_nodeReads w) (gw_rawBytes w) (gw_nodeBytes w) (gw_sched w).
Definition countRead (c : CidV) (n : Z) (w : GCW) : GCW :=
  if cidCodec c =? cid_Raw
  then mkGCW (gw_store w) (gw_rec w) (gw_refetched w) (gw_rawReads w + 1) (gw_nodeReads w) (gw_rawBytes w + n) (gw_nodeBytes w) (gw_sched w)
  else mkGCW (gw_store w) (gw_rec w) (gw_refetched w) (gw_rawReads w) (gw_nodeReads w + 1) (gw_rawBytes w) (gw_nodeBytes w + n) (gw_sched w).

Definition onStore {A} (m : M Epochs A) : M GCW A :=
  fun w => let '(x, s) := m (gw_store w) in (x, set_store s w).
Definition onRec {A} (m : M Rec A) : M GCW A :=
  fun w => let '(x, r) := m (gw_rec w) in (x, set_rec r w).
Definition onKV {A} (m : M K A) : M GCW A := onRec (onLedger m).

(** The application's next operations. *)
Definition interleave (w : GCW) : GCW :=
  match gw_sched w with
  | [] => w
  | l :: rest =>
    mkGCW (do_acts l (gw_store w)) (gw_rec w) (gw_refetched w) (gw_rawReads w) (gw_nodeReads w)
          (gw_rawBytes w) (gw_nodeBytes w) rest
  end.
Definition step {A} (m : M Epochs A) : M GCW A := modify interleave ;;; onStore m.

(** ctx.Err() *)
Definition ctxErr : M GCW unit := step (onBase base_ctx).

(** ** Reading marked blocks *)

Definition readForMark (c : CidV) (fetch : option BlockFetcher) : M GCW bytes :=
  blk <-- attempt (step (onBase (vGet c))) ;;
  match blk with
  | Ok d => modify (countRead c (len d)) ;;; ret d
  | Err e =>
    match fetch with
    | None => fail e
    | Some get =>
      fail_if negb (bool_decide (e = ENotFound)) with e ;;
      healed <-- step (get c) ;;
      modify countRefetch ;;; ret healed
    end
  end.

Section Mark.
Context (g : GCConfig).

Definition retainForMark (c : CidV) (fetch : option BlockFetcher) : M GCW unit :=
  if negb (g_separateScrub g) || negb (cidCodec c =? cid_Raw)
  then readForMark c fetch ;;; ret tt
  else
    present <-- step (onBase (base_has c)) ;;
    if (present : bool) then ret tt
    else match fetch with
         | None => fail ENotFound
         | Some get => step (get c) ;;; modify countRefetch
         end.

(** Every link of the node, in the order of the traversal; a link of this data
    model is always a CID link. *)
Fixpoint appendLinks (n : Node) : list CidV :=
  match n with
  | NLink c => [c]
  | NMap l => concat (map (fun '(_, v) => appendLinks v) l)
  | NList l => concat (map appendLinks l)
  | _ => []
  end.

Definition links (c : CidV) (fetch : option BlockFetcher) : M GCW (list CidV) :=
  if cidCodec c =? cid_Raw then retainForMark c fetch ;;; ret []
  else if cidCodec c =? cid_DagCBOR then
    blk <-- readForMark c fetch ;;
    match cbor_decode blk with
    | None => fail (EInvalid "decoding block")
    | Some n => ret (appendLinks n)
    end
  else fail (EInvalid "codec").

(** ** mark *)

Record headMark : Type := mkHeadMark { hm_head : string; hm_fetch : option BlockFetcher; hm_pins : list PinEntry }.

Definition markKey (c : CidV) : Key := cidHash c.

(** The two maps: marked by multihash, expanded by CID. *)
Record marks : Type := mkMarks { mk_marked : gset Key; mk_expanded : gset CidV }.
Definition addMarked (c : CidV) (m : marks) : marks := mkMarks ({[ markKey c ]} ∪ mk_marked m) (mk_expanded m).
Definition addExpanded (c : CidV) (m : marks) : marks := mkMarks (mk_marked m) ({[ c ]} ∪ mk_expanded m).

(** The loop over the pins: direct ones are read and marked, the others queued.
    A row decoded from the ledger has a defined CID. *)
Fixpoint pinLoop (fetch : option BlockFetcher) (pins : list PinEntry) (frontier : list CidV) (m : marks)
    : M GCW (list CidV * marks) :=
  match pins with
  | [] => ret (frontier, m)
  | p :: pins' =>
    match pin_CID p with
    | None => fail (EInternal "undefined CID")
    | Some c =>
      if Recursive p then pinLoop fetch pins' (frontier ++ [c]) m
      else retainForMark c fetch ;;; pinLoop fetch pins' frontier (addMarked c m)
    end
  end.

(** The frontier loop.  [stack] is the slice with its end first; [fuel] bounds
    the iterations, running out is [EDiverges]. *)
Fixpoint frontierLoop (fuel : nat) (fetch : option BlockFetcher) (stack : list CidV) (m : marks) : M GCW marks :=
  match stack with
  | [] => ret m
  | c :: stack' =>
    match fuel with
    | O => fail EDiverges
    | S fuel' =>
      ctxErr ;;;
      if cidCodec c =? cid_Raw then
        if decide (markKey c ∈ mk_marked m) then frontierLoop fuel' fetch stack' m
        else retainForMark c fetch ;;; frontierLoop fuel' fetch stack' (addMarked c m)
      else
        if decide (c ∈ mk_expanded m) then frontierLoop fuel' fetch stack' m
        else
          kids <-- links c fetch ;;
          frontierLoop fuel' fetch (reverse kids ++ stack') (addMarked c (addExpanded c m))
    end
  end.

Definition markHead (fuel : nat) (grp : headMark) (m : marks) : M GCW marks :=
  let* (frontier, m) := pinLoop (hm_fetch grp) (hm_pins grp) [] m in
  frontierLoop fuel (hm_fetch grp) (reverse frontier) m.

Fixpoint markLoop (fuel : nat) (groups : list headMark) (m : marks) : M GCW marks :=
  match groups with
  | [] => ret m
  | grp :: groups' => m <-- markHead fuel grp m ;; markLoop fuel groups' m
  end.
Definition mark (fuel : nat) (groups : list headMark) : M GCW (gset Key) :=
  m <-- markLoop fuel groups (mkMarks ∅ ∅) ;; ret (mk_marked m).

(** ** The cut *)

(** The loop over the names: the written groups and the followed ones. *)
Fixpoint pinGroups (names : list string) : M GCW (list headMark * list headMark * Z) :=
  match names with
  | [] => ret ([], [], 0)
  | name :: names' =>
    entries <-- onKV (ListAll name) ;;
    let fetch := match g_fetchFor g with Some f => f name | None => None end in
    let grp := mkHeadMark name fetch entries in
    let* (written, followed, total) := pinGroups names' in
    ret (match fetch with
         | None => (grp :: written, followed, total + len entries)
         | Some _ => (written, grp :: followed, total + len entries)
         end)
  end.

(** (groups, total, staged) *)
Definition pins : M GCW (list headMark * Z * Z) :=
  names <-- gets (fun w => Names (gw_rec w)) ;;
  let* (written, followed, total) := pinGroups names in
  let groups := written ++ followed in
  match g_staging g with
  | None => ret (groups, total, 0)
  | Some _ =>
    entries <-- onKV Staging_List ;;
    ret (groups ++ [mkHeadMark StagingHead None entries], total + len entries, len entries)
  end.

Definition expireStaging (now : Time) : M GCW Z :=
  match g_staging g with None => ret 0 | Some _ => onKV (DropExpired now) end.

(** What reconciliation is configured with. *)
Context (cfg : @Config MH Sto) (ManifestTip : option (string -> res (Cid * bool))) (sameToken : nat -> nat -> bool).

(** (groups, npins, staged), and the rows expired, which an error also reports. *)
Definition prepare (now : Time) (w : GCW) : res (list headMark * Z * Z) * Z * GCW :=
  match (modify resetCounters ;;; onRec (reconcileAll cfg ManifestTip sameToken)) w with
  | (Err e, w) => (Err e, 0, w)
  | (Ok _, w) =>
    match expireStaging now w with
    | (Err e, w) => (Err e, 0, w)
    | (Ok expired, w) => let '(r, w) := pins w in (r, expired, w)
    end
  end.

Definition finishStats (st : GCStats) (npins staged expired : Z) (marked : gset Key) (w : GCW) : GCStats :=
  mkStats npins (Z.of_nat (size marked)) (gs_Scanned st) (gs_Swept st) (gs_Protected st) (gs_ProtectedSkips st)
          staged expired (gw_refetched w) (gw_rawReads w) (gw_nodeReads w) (gw_rawBytes w) (gw_nodeBytes w) true.

(** ** Sweep *)

(** What arrives on the enumeration's two channels, in order of arrival. *)
Inductive ScanEvent : Type := SKey (k : Key) | SError (e : err).
Definition keyCid (k : Key) : CidV := mkCid 1 cid_Raw k.

(** A result of the datastore's key query: a key that converts, or an error. *)
Inductive QueryResult : Type := QKey (k : Key) | QBadKey | QError.
(** flatFSAllKeys: what it sends, in order; it stops at the first error, and a
    failing close is an error too. *)
Fixpoint flatFSAllKeys (results : list QueryResult) (closeFails : bool) : list ScanEvent :=
  match results with
  | [] => if closeFails then [SError EIO] else []
  | QKey k :: rest => SKey k :: flatFSAllKeys rest closeFails
  | QBadKey :: _ | QError :: _ => SError EIO :: (if closeFails then [SError EIO] else [])
  end.

Definition scanned (st : GCStats) : GCStats :=
  mkStats (gs_Pins st) (gs_Marked st) (gs_Scanned st + 1) (gs_Swept st) (gs_Protected st) (gs_ProtectedSkips st)
          (gs_Staged st) (gs_Expired st) (gs_Refetched st) (gs_RawReads st) (gs_NodeReads st) (gs_RawBytes st) (gs_NodeBytes st) (gs_stagingObserved st).
Definition swept (deleted protected : bool) (st : GCStats) : GCStats :=
  mkStats (gs_Pins st) (gs_Marked st) (gs_Scanned st) (if deleted then gs_Swept st + 1 else gs_Swept st) (gs_Protected st)
          (if protected then gs_ProtectedSkips st + 1 else gs_ProtectedSkips st)
          (gs_Staged st) (gs_Expired st) (gs_Refetched st) (gs_RawReads st) (gs_NodeReads st) (gs_RawBytes st) (gs_NodeBytes st) (gs_stagingObserved st).
Definition withProtected (n : Z) (st : GCStats) : GCStats :=
  mkStats (gs_Pins st) (gs_Marked st) (gs_Scanned st) (gs_Swept st) n (gs_ProtectedSkips st)
          (gs_Staged st) (gs_Expired st) (gs_Refetched st) (gs_RawReads st) (gs_NodeReads st) (gs_RawBytes st) (gs_NodeBytes st) (gs_stagingObserved st).

(** The partial statistics come back with the error, if there is one. *)
Fixpoint sweepOnline (epoch : BlockstoreEpoch) (marked : gset Key) (events : list ScanEvent) (st : GCStats)
    : GCW -> GCStats * option err * GCW :=
  fun w =>
    match ctxErr w with
    | (Err e, w) => (st, Some e, w)
    | (Ok _, w) =>
      match events with
      | [] => (st, None, w)
      | SError e :: _ => (st, Some e, w)
      | SKey k :: events' =>
        let st := scanned st in
        if decide (markKey (keyCid k) ∈ marked) then sweepOnline epoch marked events' st w
        else
          match step (DeleteCandidate epoch (keyCid k)) w with
          | (Err e, w) => (st, Some e, w)
          | (Ok (deleted, protected), w) => sweepOnline epoch marked events' (swept deleted protected st) w
          end
      end
    end.

(** The legacy sweep over the plain blockstore. *)
Fixpoint sweep (marked : gset Key) (keys : list Key) (st : GCStats) : GCW -> GCStats * option err * GCW :=
  fun w =>
    match ctxErr w with
    | (Err e, w) => (st, Some e, w)
    | (Ok _, w) =>
      match keys with
      | [] => (st, None, w)
      | k :: keys' =>
        let st := scanned st in
        if decide (markKey (keyCid k) ∈ marked) then sweep marked keys' st w
        else
          match step (onBase (base_delete (keyCid k))) w with
          | (Err e, w) => (st, Some e, w)
          | (Ok _, w) => sweep marked keys' (swept true false st) w
          end
      end
    end.

(** ** Runs *)

(** [scan] is the enumeration, or the error of opening it. *)
Definition runOnline (fuel : nat) (now : Time) (scan : res (list ScanEvent)) (w : GCW) : GCStats * option err * GCW :=
  let '(cut, expired, w) := prepare now w in
  let failed := mkStats 0 0 0 0 0 0 0 expired 0 0 0 0 0 false in
  match cut with
  | Err e => (failed, Some e, w)
  | Ok (groups, npins, staged) =>
    match onStore Begin w with
    | (Err e, w) => (failed, Some e, w)
    | (Ok epoch, w) =>
      match mark fuel groups w with
      | (Err e, w) =>
        let '(n, _, s) := End_ epoch (gw_store w) in
        (mkStats npins 0 0 0 n 0 staged expired 0 0 0 0 0 true, Some e, set_store s w)
      | (Ok marked, w) =>
        let '(st, e, w) := match scan with
                           | Err e => (zeroStats, Some e, w)
                           | Ok events => sweepOnline epoch marked events zeroStats w
                           end in
        let '(n, _, s) := End_ epoch (gw_store w) in
        let w := set_store s w in
        (finishStats (withProtected n st) npins staged expired marked w, e, w)
      end
    end
  end.

Definition runOffline (fuel : nat) (now : Time) (keys : res (list Key)) (w : GCW) : GCStats * option err * GCW :=
  let '(cut, expired, w) := prepare now w in
  match cut with
  | Err e => (mkStats 0 0 0 0 0 0 0 expired 0 0 0 0 0 false, Some e, w)
  | Ok (groups, npins, staged) =>
    match mark fuel groups w with
    | (Err e, w) => (mkStats npins 0 0 0 0 0 staged expired 0 0 0 0 0 true, Some e, w)
    | (Ok marked, w) =>
      let '(st, e, w) := match keys with
                         | Err e => (zeroStats, Some e, w)
                         | Ok keys => sweep marked keys zeroStats w
                         end in
      (finishStats st npins staged expired marked w, e, w)
    end
  end.

(** Run: online over the epochs, or over a plain blockstore. *)
Definition Run (online : bool) (fuel : nat) (now : Time) (scan : res (list ScanEvent)) (keys : res (list Key)) (w : GCW)
    : GCStats * option err * GCW :=
  if online then runOnline fuel now scan w else runOffline fuel now keys w.

(** ** Scrub *)

Record ScrubStats : Type := mkScrub { sb_Scanned : Z; sb_Bytes : Z }.
Fixpoint scrubLoop (events : list ScanEvent) (st : ScrubStats) : GCW -> ScrubStats * option err * GCW :=
  fun w =>
    match ctxErr w with
    | (Err e, w) => (st, Some e, w)
    | (Ok _, w) =>
      match events with
      | [] => (st, None, w)
      | SError e :: _ => (st, Some e, w)
      | SKey k :: events' =>
        match step (onBase (vGet (keyCid k))) w with
        | (Err e, w) => (st, Some e, w)
        | (Ok blk, w) => scrubLoop events' (mkScrub (sb_Scanned st + 1) (sb_Bytes st + len blk)) w
        end
      end
    end.
Definition Scrub (scan : res (list ScanEvent)) (w : GCW) : ScrubStats * option err * GCW :=
  match scan with
  | Err e => (mkScrub 0 0, Some e, w)
  | Ok events => scrubLoop events (mkScrub 0 0) w
  end.
End Mark.
End GC.
