(* ===== verification/Ingest.v ===== *)
(** Blob intake: ingest/ingest.go and ingest/rebuild.go.

    A put verifies every blob of a body before it writes any, then stores each
    block and its catalog entry, then pins the batch in staging.  A rebuild walks
    the block store and recovers the catalog from the blobs it finds.  KZG is
    third-party and a parameter.  The world is the application's view of the
    block store (Store.v) and the key-value store of the catalog and the ledger
    (Ledger.v); a put holds the gate, so no cut falls inside it. *)
From S2P Require Import Prelude Cid Schema Store Ledger Apply Core Engine Policy Reconcile Staging.

(** go-ethereum's kzg4844: the commitment of a blob (none when its bytes are not
    canonical field elements) and the hash the execution layer knows it by. *)
Class Kzg : Type := {
  BlobToCommitment : bytes -> option bytes;
  CalcBlobHashV1 : bytes -> VersionedHash
}.

Section Ingest.
Context `{MH : Multihash} `{CC : !CidBytes} `{KZ : Kzg}.
Context {B : Type} `{BA : !BaseStore B} {K : Type} `{PB : !Pebble K}.
Local Abbreviation Epochs := (@BlockstoreEpochs MH B).

(** ingest.VersionedHash *)
Definition blobVersionedHash (blob : bytes) : res VersionedHash :=
  refuse_if negb (len blob =? BlobSize) with EInvalid "blob size" ;;
  match BlobToCommitment blob with
  | None => Err (EInvalid "computing KZG commitment")
  | Some commitment => Ok (CalcBlobHashV1 commitment)
  end.

Definition VersionedHashFromCommitment (commitment : bytes) : VersionedHash := CalcBlobHashV1 commitment.

(** [body[k*BlobSize : (k+1)*BlobSize]] of a body whose length has been checked. *)
Definition blobAt (body : bytes) (k : nat) : bytes :=
  take (Z.to_nat BlobSize) (drop (k * Z.to_nat BlobSize) body).

Record PutResult : Type := mkPutResult { pt_VH : VersionedHash; pt_CID : Cid }.

Definition verifyBlob (body : bytes) (k : nat) : res PutResult :=
  let raw := blobAt body k in
  match blobVersionedHash raw with
  | Err _ => Err (EValidation (Z.of_nat k) "blob is not a valid KZG blob")
  | Ok vh =>
    match BlobCID raw with
    | Err _ => Err (EValidation (Z.of_nat k) "computing blob CID")
    | Ok c => Ok (mkPutResult vh c)
    end
  end.

(** ** verify: the single worker *)

(** The loop from blob [k] on, with [m] blobs to go. *)
Fixpoint verifyLoop (body : bytes) (k m : nat) : res (list PutResult) :=
  match m with
  | O => Ok []
  | S m' => r <-? verifyBlob body k ;; rs <-? verifyLoop body (S k) m' ;; Ok (r :: rs)
  end.
Definition verify (body : bytes) (n : nat) : res (list PutResult) := verifyLoop body 0 n.

(** ** verify: the fan-out

    [w] workers share an atomic counter; a worker claims the next index, writes
    that index's slots of [errs] and [out], and returns when the counter has
    passed the last blob. *)
Inductive worker : Type := Idle | Busy (k : nat) | Returned.
#[export] Instance worker_eq_dec : EqDecision worker.
Proof. solve_decision. Defined.

Record fanout : Type := mkFanout {
  fo_next : nat; fo_workers : list worker; fo_errs : list (option err); fo_out : list (option PutResult) }.

Definition fanout0 (w n : nat) : fanout := mkFanout 0 (repeat Idle w) (repeat None n) (repeat None n).

Definition errOf {A} (r : res A) : option err := match r with Err e => Some e | Ok _ => None end.
Definition outOf {A} (r : res A) : option A := match r with Err _ => None | Ok a => Some a end.

Inductive fstep (body : bytes) (n : nat) : fanout -> fanout -> Prop :=
| f_claim i s : fo_workers s !! i = Some Idle -> (fo_next s < n)%nat ->
    fstep body n s (mkFanout (S (fo_next s)) (<[i := Busy (fo_next s)]> (fo_workers s)) (fo_errs s) (fo_out s))
| f_return i s : fo_workers s !! i = Some Idle -> (n <= fo_next s)%nat ->
    fstep body n s (mkFanout (S (fo_next s)) (<[i := Returned]> (fo_workers s)) (fo_errs s) (fo_out s))
| f_verify i k s : fo_workers s !! i = Some (Busy k) ->
    fstep body n s (mkFanout (fo_next s) (<[i := Idle]> (fo_workers s))
                      (<[k := errOf (verifyBlob body k)]> (fo_errs s))
                      (<[k := outOf (verifyBlob body k)]> (fo_out s))).

(** The scan of the error slots after [wg.Wait()]. *)
Fixpoint firstError (errs : list (option err)) : option err :=
  match errs with [] => None | Some e :: _ => Some e | None :: errs' => firstError errs' end.

Definition maxVerifyWorkers : Z := 4.
Definition verifyConcurrency (configured gomaxprocs n : Z) : Z :=
  let w := if configured <=? 0 then Z.min gomaxprocs maxVerifyWorkers else configured in
  Z.min w n.

(** ** PutBlobs *)

Record IW : Type := mkIW { iw_store : Epochs; iw_kv : K }.
Definition onBlocks {A} (m : M Epochs A) : M IW A :=
  fun w => let '(x, s) := m (iw_store w) in (x, mkIW s (iw_kv w)).
Definition onCatalog {A} (m : M K A) : M IW A :=
  fun w => let '(x, s) := m (iw_kv w) in (x, mkIW (iw_store w) s).
Definition checkCtx : M IW unit := onBlocks (onBase base_ctx).

(** Pass 2: block first, then its catalog entry. *)
Fixpoint storeLoop (body : bytes) (k : nat) (out : list PutResult) : M IW unit :=
  match out with
  | [] => ret tt
  | r :: out' =>
    checkCtx ;;;
    match pt_CID r with
    | None => fail (EInternal "framing an undefined CID")
    | Some c =>
      onBlocks (app_Put c (blobAt body k)) ;;;
      onCatalog (Catalog_Put (pt_VH r) (pt_CID r)) ;;;
      storeLoop body (S k) out'
    end
  end.

Definition PutBlobs (staging : option Staging.Staging) (now : Time) (body : bytes) : M IW (list PutResult) :=
  fail_if negb (len body mod BlobSize =? 0) with EValidation (-1) "not a whole number of blobs" ;;
  let n := Z.to_nat (len body / BlobSize) in
  out <-- lift (verify body n) ;;
  storeLoop body 0 out ;;;
  match staging with
  | Some st => if (0 <? n)%nat then onCatalog (Staging_Pin st now (pt_CID <$> out)) else ret tt
  | None => ret tt
  end ;;;
  ret out.

(** ** Rebuild *)

Definition rebuildBatch : Z := 512.
Record RebuildStats : Type := mkRebuild { rb_Scanned : Z; rb_Blobs : Z; rb_Upserted : Z; rb_Skipped : Z }.
Definition rb_scan (s : RebuildStats) : RebuildStats := mkRebuild (rb_Scanned s + 1) (rb_Blobs s) (rb_Upserted s) (rb_Skipped s).
Definition rb_skip (s : RebuildStats) : RebuildStats := mkRebuild (rb_Scanned s) (rb_Blobs s) (rb_Upserted s) (rb_Skipped s + 1).
Definition rb_blob (s : RebuildStats) : RebuildStats := mkRebuild (rb_Scanned s) (rb_Blobs s + 1) (rb_Upserted s) (rb_Skipped s).
Definition rb_upsert (n : Z) (s : RebuildStats) : RebuildStats := mkRebuild (rb_Scanned s) (rb_Blobs s) (rb_Upserted s + n) (rb_Skipped s).

(** The partial statistics come back with the error. *)
Fixpoint rebuildLoop (keys : list CidV) (pending : list Entry) (st : RebuildStats) (w : IW) : RebuildStats * option err * IW :=
  match keys with
  | [] =>
    match onCatalog (Catalog_PutBatch pending) w with
    | (Err e, w) => (st, Some e, w)
    | (Ok _, w) => (rb_upsert (len pending) st, None, w)
    end
  | c :: keys' =>
    match checkCtx w with
    | (Err e, w) => (st, Some e, w)
    | (Ok _, w) =>
      let st := rb_scan st in
      match onBlocks (app_Get c) w with
      | (Err e, w) => if decide (e = ENotFound) then rebuildLoop keys' pending (rb_skip st) w else (st, Some e, w)
      | (Ok data, w) =>
        if negb (len data =? BlobSize) then rebuildLoop keys' pending (rb_skip st) w
        else
          match blobVersionedHash data with
          | Err _ => rebuildLoop keys' pending (rb_skip st) w
          | Ok vh =>
            let st := rb_blob st in
            match BlobCID data with
            | Err e => (st, Some e, w)
            | Ok blob =>
              match onCatalog (ResolveBlob vh) w with
              | (Err e, w) => (st, Some e, w)
              | (Ok (have, ok), w) =>
                if (ok : bool) && bool_decide (have = blob) then rebuildLoop keys' pending st w
                else
                  let pending := pending ++ [mkCatalogEntry vh blob] in
                  if len pending =? rebuildBatch then
                    match onCatalog (Catalog_PutBatch pending) w with
                    | (Err e, w) => (st, Some e, w)
                    | (Ok _, w) => rebuildLoop keys' [] (rb_upsert (len pending) st) w
                    end
                  else rebuildLoop keys' pending st w
              end
            end
          end
      end
    end
  end.

(** [keys] is the walk, or the error of starting it. *)
Definition Rebuild (keys : res (list CidV)) (w : IW) : RebuildStats * option err * IW :=
  match keys with
  | Err e => (mkRebuild 0 0 0 0, Some e, w)
  | Ok keys => rebuildLoop keys [] (mkRebuild 0 0 0 0) w
  end.
End Ingest.
