(* ===== verification/GCCorrect.v ===== *)
(** Correctness of the collector; the model is GC.v.

    [live] is what the pins of the cut reach: the block of a direct pin, and from
    a recursive one everything a chain of links leads to.  Proved, for every
    schedule of application operations: the mark is exactly [live], it ends, a
    block missing under a written head fails the run, the run deletes no live
    block and none the application touched, it does delete what is neither, and
    what a head's policy pins is there when a run has succeeded. *)
From S2P Require Import Prelude Arith Cid Schema Core Engine Enumerate Store Ledger Policy Reconcile Staging GC.

Section Correct.
Context `{MH : Multihash} `{CB : !DagCbor} `{CC : !CidBytes}.
Context {B : Type} `{BA : !BaseStore B} `{BO : !BaseStoreOk B}.
Context {Sto : Type} `{BS : !Blockstore Sto} {L : Type} `{LR : !Lru CidV (AnyNode * Z) L}.
Context {K : Type} `{PB : !Pebble K} `{PO : !PebbleOk K}.
Local Abbreviation Epochs := (@BlockstoreEpochs MH B).
Local Abbreviation W := (@GCW MH B Sto L K).
Local Abbreviation Key := (MhDigest Digest).

(** ** How the store moves *)

(** An application operation as the server makes them: writes are content
    addressed, nothing is deleted; it writes no key of [Q] and neither reads nor
    writes one of [T]. *)
Definition honest (Q T : Key -> Prop) (x : act) : Prop :=
  match x with
  | AGet c | AHas c | AGetSize c => ~ T (cidHash c)
  | APut c d => addresses c d /\ ~ Q (cidHash c) /\ ~ T (cidHash c)
  | APutMany l => forall c d, (c, d) ∈ l -> addresses c d /\ ~ Q (cidHash c) /\ ~ T (cidHash c)
  | _ => False
  end.

Lemma touch_other st k k' (s : Epochs) : k <> k' -> protects (touch st k s) k' -> protects s k'.
Proof.
  intros Hne (a & e & Ha & He & Ht). destruct st as [a'|]; simpl in *; [|by exists a, e].
  destruct (heap s !! a') as [e'|] eqn:E; [|by exists a, e]. simpl in *.
  destruct (decide (a' = a)) as [->|]; [|rewrite lookup_insert_ne in He by done; by exists a, e].
  rewrite lookup_insert_eq in He. injection He as <-. exists a, e'. split; [done|]. split; [done|].
  by apply touchState_touched in Ht as [?|?].
Qed.

Lemma touches_other st (l : list (CidV * bytes)) k (s : Epochs) :
  (forall c d, (c, d) ∈ l -> cidHash c <> k) ->
  protects (foldl (fun s '(c, _) => touch st (multihashKey c) s) s l) k -> protects s k.
Proof.
  revert s. induction l as [|[c d] l IH]; intros s Hl Hp; [done|]. simpl in Hp.
  apply IH in Hp; [|intros c' d' Hin; apply (Hl c' d'); by right].
  eapply touch_other; [|exact Hp]. apply (Hl c d). by left.
Qed.

(** [P] holds of every content the key can honestly have. *)
Definition content (k : Key) (P : bytes -> Prop) : Prop := forall c d, cidHash c = k -> addresses c d -> P d.

(** The store moves from [s] to [s'] within one epoch: keys of [Keep] and keys
    under protection stay stored with their content, absent keys of [Q] stay
    absent, protection only grows and never to a key of [T]. *)
Record evolves (Keep Q T : Key -> Prop) (s s' : Epochs) : Prop := {
  ev_active : active s' = active s;
  ev_inv : epochs_inv s -> epochs_inv s';
  ev_protects : forall k, protects s k -> protects s' k;
  ev_unprotected : forall k, T k -> protects s' k -> protects s k;
  ev_kept : forall P k d, Keep k \/ protects s k -> content k P -> stored (base s) k = Some d -> P d ->
              exists d', stored (base s') k = Some d' /\ P d';
  ev_absent : forall k, Q k -> stored (base s) k = None -> stored (base s') k = None }.

Section Moves.
Context (Keep Q T : Key -> Prop).
Local Abbreviation moves := (evolves Keep Q T).

#[export] Instance evolves_refl : Reflexive moves.
Proof. intros s. split; eauto. Qed.
#[export] Instance evolves_trans : Transitive moves.
Proof.
  intros a b c [A1 I1 P1 U1 K1 N1] [A2 I2 P2 U2 K2 N2]. split; [congruence|auto..|].
  - intros P k d Hk Hc Hs Hd. destruct (K1 P k d Hk Hc Hs Hd) as (d' & Hs' & Hd').
    apply (K2 P k d'); try done. destruct Hk; auto.
  - auto.
Qed.

Lemma evolves_same s s' :
  stored (base s') = stored (base s) -> active s' = active s -> heap s' = heap s -> moves s s'.
Proof.
  intros Hs Ha Hh. split; [done| | | | |].
  - intros [H1 H2]. split; rewrite ?Ha, ?Hh; done.
  - intros k (a & e & ? & ? & ?). exists a, e. by rewrite Ha, Hh.
  - intros k _ (a & e & ? & ? & ?). exists a, e. by rewrite <- Ha, <- Hh.
  - intros P k d _ _ Hst Hd. rewrite Hs. eauto.
  - intros k _ Hn. by rewrite Hs.
Qed.

(** Reading through the collector's view. *)
Lemma onBase_evolves {A} (m : M B A) s r s' :
  (forall r b', m (base s) = (r, b') -> stored b' = stored (base s)) -> onBase m s = (r, s') -> moves s s'.
Proof.
  intros Hm H. unfold onBase in H. destruct (m (base s)) as [x b] eqn:E. injection H as <- <-.
  apply evolves_same; [by eapply Hm|done..].
Qed.

Lemma honest_absent x k s : honest Q T x -> Q k -> stored (base s) k = None -> stored (base (do_act x s)) k = None.
Proof.
  intros Hx Hq Hn.
  assert (Hwk : forall A c (m : M B A) good,
    (forall r b', m (base s) = (r, b') -> stored b' k = None) -> stored (base (snd (withKey c m good s))) k = None).
  { intros A c m good Hm. destruct (withKey c m good s) as [r s'] eqn:E.
    apply withKey_run in E as (b' & E & Hb & _). simpl. rewrite Hb. by eapply Hm. }
  destruct x as [c|c|c|c d|l|c| |h c|h]; simpl in Hx |- *; try done.
  - apply Hwk. intros r b' [-> _]%vGet_run. done.
  - apply Hwk. intros r b' [-> _]%base_has_spec. done.
  - apply Hwk. intros r b' [-> _]%base_getSize_spec. done.
  - apply Hwk. intros r b' [Hne _]%base_put_spec. rewrite Hne; [done|]. intros ->. by destruct Hx as (_ & Hx & _).
  - assert (Hb : forall r b', base_putMany l (base s) = (r, b') -> stored b' k = None).
    { intros r b' (Hne & _ & _)%base_putMany_spec. rewrite Hne; [done|].
      intros ([c d] & -> & Hin)%list_elem_of_fmap. simpl in Hq. by destruct (Hx c d Hin) as (_ & ? & _). }
    unfold app_PutMany, onBase. destruct (base_putMany l (base s)) as [r b] eqn:E. specialize (Hb r b eq_refl).
    destruct (active s) as [a|]; [|done]. case_match; [done|]. cbn [snd].
    by rewrite (proj1 (touches_run (Some a) l (set_base b s))).
Qed.

Lemma honest_active x s : honest Q T x ->
  active (do_act x s) = active s /\ (forall k, protects s k -> protects (do_act x s) k).
Proof.
  intros Hx.
  assert (Hwk : forall A c (m : M B A) good, active (snd (withKey c m good s)) = active s /\
    (forall k, protects s k -> protects (snd (withKey c m good s)) k)).
  { intros A c m good. destruct (withKey c m good s) as [r s'] eqn:E.
    by apply withKey_run in E as (b' & _ & _ & Hact & _ & _ & Hpr & _). }
  destruct x as [c|c|c|c d|l|c| |h c|h]; simpl in Hx |- *; try done; try apply Hwk.
  assert (Hset : forall b k, protects s k -> protects (set_base b s) k).
  { intros b k (a0 & e0 & ? & ? & ?). by exists a0, e0. }
  unfold app_PutMany, onBase. destruct (base_putMany l (base s)) as [r b]. destruct (active s) as [a|] eqn:Ea; [|by split; [|apply Hset]].
  case_match; [by split; [|apply Hset]|]. cbn [snd].
  destruct (touches_run (Some a) l (set_base b s)) as (_ & -> & _ & _ & Hm). split; [done|]. intros k Hk. by apply Hm, Hset.
Qed.

Lemma honest_unprotected x s k : honest Q T x -> T k -> protects (do_act x s) k -> protects s k.
Proof.
  intros Hx Hu.
  assert (Hset : forall b, protects (set_base b s) k -> protects s k).
  { intros b (a & e & ? & ? & ?). by exists a, e. }
  assert (Hwk : forall A c (m : M B A) good, ~ T (cidHash c) -> protects (snd (withKey c m good s)) k -> protects s k).
  { intros A c m good Hc. unfold withKey, onBase. destruct (m (base s)) as [[a|e] b]; simpl; [|apply Hset].
    destruct (good a); [|apply Hset]. intros Hp%touch_other; [by apply Hset in Hp|]. intros E. apply Hc. by rewrite <- E in Hu. }
  destruct x as [c|c|c|c d|l|c| |h c|h]; simpl in Hx |- *; try done; try (apply Hwk; apply Hx).
  unfold app_PutMany, onBase. destruct (base_putMany l (base s)) as [r b]. destruct (active s) as [a|]; [|apply Hset].
  case_match; [apply Hset|]. cbn [snd]. intros Hp%touches_other; [by apply Hset in Hp|].
  intros c d Hin E. rewrite <- E in Hu. by destruct (Hx c d Hin) as (_ & _ & ?).
Qed.

Lemma honest_evolves x s : honest Q T x -> moves s (do_act x s).
Proof.
  intros Hx. destruct (honest_active x s Hx) as [Ha Hp]. split; [done|apply do_act_inv|done|intros k; by apply honest_unprotected| |].
  - intros P k d _ Hc Hs Hd. apply (do_act_keeps_P P x k d s); try done.
    + destruct x; simpl in Hx |- *; try done.
      * intros E. eapply Hc; [exact E|apply Hx].
      * intros c d' Hin E. eapply Hc; [exact E|by eapply Hx].
    + by destruct x.
    + by destruct x.
  - intros k. by apply honest_absent.
Qed.

Lemma honest_acts l s : Forall (honest Q T) l -> moves s (do_acts l s).
Proof.
  unfold do_acts. revert s. induction l as [|x l IH]; intros s Hl; [done|].
  apply Forall_cons_iff in Hl as [Hx Hl]. simpl. etransitivity; [by apply honest_evolves|by apply IH].
Qed.

(** ** How the world moves *)

Definition sched_ok (w : W) : Prop := Forall (Forall (honest Q T)) (gw_sched w).

Record wmoves (w w' : W) : Prop := {
  wm_store : moves (gw_store w) (gw_store w');
  wm_rec : gw_rec w' = gw_rec w;
  wm_sched : sched_ok w' }.

Lemma wmoves_refl w : sched_ok w -> wmoves w w.
Proof. by split. Qed.
Lemma wmoves_trans a b c : wmoves a b -> wmoves b c -> wmoves a c.
Proof. intros [S1 R1 _] [S2 R2 ?]. split; [by etransitivity|congruence|done]. Qed.

(** A move of the counters only. *)
Lemma wmoves_count w w' : sched_ok w -> gw_store w' = gw_store w -> gw_rec w' = gw_rec w -> gw_sched w' = gw_sched w -> wmoves w w'.
Proof. intros Hs E1 E2 E3. split; [by rewrite E1|done|]. unfold sched_ok. by rewrite E3. Qed.

Lemma step_run {A} (m : M Epochs A) (w : W) r w' :
  sched_ok w -> step m w = (r, w') ->
  exists s1 s2, moves (gw_store w) s1 /\ m s1 = (r, s2) /\ gw_store w' = s2 /\ gw_rec w' = gw_rec w /\ sched_ok w'.
Proof.
  intros Hs H. unfold step, bind, modify, onStore, interleave in H. unfold sched_ok in *.
  destruct (gw_sched w) as [|l rest] eqn:E.
  - destruct (m (gw_store w)) as [x s] eqn:Em. injection H as <- <-. exists (gw_store w), s. rewrite <- E in Hs. simpl.
    split; [done|]. done.
  - simpl in H. destruct (m (do_acts l (gw_store w))) as [x s] eqn:Em. injection H as <- <-.
    apply Forall_cons_iff in Hs as [Hl Hs]. exists (do_acts l (gw_store w)), s.
    split; [by apply honest_acts|]. done.
Qed.

Lemma step_read {A} (m : M B A) (w : W) r w' :
  (forall b r b', m b = (r, b') -> stored b' = stored b) -> sched_ok w -> step (onBase m) w = (r, w') ->
  wmoves w w' /\ exists b b', m b = (r, b') /\ stored b = stored (base (gw_store w')).
Proof.
  intros Hm Hs H. apply step_run in H as (s1 & s2 & H1 & H2 & E & Er & Hs'); [|done]. subst s2.
  pose proof (onBase_evolves _ _ _ _ (fun r b' => Hm (base s1) r b') H2) as H3. split.
  - split; [by etransitivity|done|done].
  - unfold onBase in H2. destruct (m (base s1)) as [x b] eqn:Em. injection H2 as -> E2. exists (base s1), b.
    split; [done|]. rewrite <- E2. simpl. symmetry. by eapply Hm.
Qed.

Lemma gcCtxErr_run (w : W) r w' : sched_ok w -> ctxErr w = (r, w') -> wmoves w w' /\ (forall e, r = Err e -> e = ECancelled).
Proof.
  intros Hs H. apply step_read in H as [Hw (b & b' & Hc & _)]; [|by intros b x b' [-> _]%base_ctx_spec|done].
  split; [done|]. apply base_ctx_spec in Hc as [_ [->| ->]]; [done|]. by intros e [= <-].
Qed.

(** What a fetcher promises: a block it returns is the addressed one and is now
    stored locally; it removes nothing and stores nothing of [Q]. *)
Definition fetcher_ok (f : @BlockFetcher MH B) : Prop :=
  forall c s r s', f c s = (r, s') -> moves s s' /\
    match r with
    | Ok d => addresses c d /\ stored (base s') (cidHash c) = Some d
    | Err e => e <> EDiverges
    end.
Definition fetch_ok (fetch : option (@BlockFetcher MH B)) : Prop := forall f, fetch = Some f -> fetcher_ok f.

Lemma step_fetch (f : @BlockFetcher MH B) c (w : W) r w' :
  fetcher_ok f -> sched_ok w -> step (f c) w = (r, w') ->
  wmoves w w' /\
  match r with
  | Ok d => addresses c d /\ stored (base (gw_store w')) (cidHash c) = Some d
  | Err e => e <> EDiverges
  end.
Proof.
  intros Hf Hs H. apply step_run in H as (s1 & s2 & H1 & H2 & E & Er & Hs'); [|done]. subst s2.
  apply Hf in H2 as [H2 Hr]. split; [|done]. split; [by etransitivity|done|done].
Qed.

(** ** Reading marked blocks *)

Lemma readForMark_run c fetch (w : W) r w' :
  fetch_ok fetch -> sched_ok w -> readForMark c fetch w = (r, w') ->
  wmoves w w' /\
  match r with
  | Ok d => addresses c d /\ stored (base (gw_store w')) (cidHash c) = Some d
  | Err e => e <> EDiverges
  end.
Proof.
  intros Hf Hs H. unfold readForMark in H. apply bind_run_attempt in H as (x & w1 & H1 & H).
  apply step_read in H1 as [Hw1 (b & b' & Hb & Hst)]; [|by intros b y b' [-> _]%vGet_run|done].
  apply vGet_run in Hb as [_ Hx]. destruct x as [d|e].
  - injection H as <- <-. rewrite Hst in Hx. split; [|by destruct Hx; unfold countRead; case_match].
    eapply wmoves_trans; [exact Hw1|]. apply wmoves_count; [apply Hw1|unfold countRead; by case_match..].
  - assert (He : e <> EDiverges) by (by destruct Hx as [->|[->|[->| ->]]]).
    destruct fetch as [f|]; [|by injection H as <- <-].
    destruct (negb (bool_decide (e = ENotFound))); [by injection H as <- <-|].
    apply bind_run in H as [(d & w2 & H2 & H)|(e' & H2 & ->)];
      apply step_fetch in H2 as [Hw2 Hr]; try (apply Hw1 || by apply Hf).
    + injection H as <- <-. split; [|done]. eapply wmoves_trans; [exact Hw1|]. eapply wmoves_trans; [exact Hw2|].
      apply wmoves_count; [apply Hw2|done..].
    + split; [|done]. by eapply wmoves_trans.
Qed.

Context (g : @GCConfig MH B).

Lemma retainForMark_run c fetch (w : W) r w' :
  fetch_ok fetch -> sched_ok w -> retainForMark g c fetch w = (r, w') ->
  wmoves w w' /\
  match r with
  | Ok _ => is_Some (stored (base (gw_store w')) (cidHash c))
  | Err e => e <> EDiverges
  end.
Proof.
  intros Hf Hs H. unfold retainForMark in H. destruct (negb (g_separateScrub g) || negb (cidCodec c =? cid_Raw)).
  - apply bind_run in H as [(d & w1 & H1 & H)|(e & H1 & ->)]; apply readForMark_run in H1 as [Hw Hr]; try done.
    injection H as <- <-. split; [done|]. destruct Hr as [_ ->]. eauto.
  - apply bind_run in H as [(p & w1 & H1 & H)|(e & H1 & ->)];
      apply step_read in H1 as [Hw (b & b' & Hb & Hst)]; try done; try (by intros ? ? ? [-> _]%base_has_spec);
      apply base_has_spec in Hb as [_ Hb].
    2: { split; [done|]. by destruct Hb as [->| ->]. }
    destruct p.
    + injection H as <- <-. split; [done|]. rewrite <- Hst. by symmetry in Hb; apply bool_decide_eq_true in Hb.
    + destruct fetch as [f|]; [|by injection H as <- <-].
      apply bind_run in H as [(d & w2 & H2 & H)|(e & H2 & ->)]; apply step_fetch in H2 as [Hw2 Hr]; try (apply Hw || by apply Hf).
      * injection H as <- <-. split; [|destruct Hr as [_ Hr]; simpl; rewrite Hr; eauto].
        eapply wmoves_trans; [exact Hw|]. eapply wmoves_trans; [exact Hw2|]. apply wmoves_count; [apply Hw2|done..].
      * split; [|done]. by eapply wmoves_trans.
Qed.

(** ** Links *)

(** [c] is an index node one of whose links is [c']. *)
Definition edge (c c' : CidV) : Prop :=
  cidCodec c = cid_DagCBOR /\ exists d n, addresses c d /\ cbor_decode d = Some n /\ c' ∈ appendLinks n.

Lemma links_run c fetch (w : W) r w' :
  fetch_ok fetch -> sched_ok w -> cidCodec c <> cid_Raw -> links g c fetch w = (r, w') ->
  wmoves w w' /\
  match r with
  | Ok kids => is_Some (stored (base (gw_store w')) (cidHash c)) /\ cidCodec c = cid_DagCBOR /\
      exists d n, addresses c d /\ cbor_decode d = Some n /\ kids = appendLinks n
  | Err e => e <> EDiverges
  end.
Proof.
  intros Hf Hs Hc H. unfold links in H. rewrite (proj2 (Z.eqb_neq _ _)) in H by done.
  destruct (Z.eqb_spec (cidCodec c) cid_DagCBOR) as [Ed|]; [|injection H as <- <-; split; [by apply wmoves_refl|done]].
  apply bind_run in H as [(d & w1 & H1 & H)|(e & H1 & ->)]; apply readForMark_run in H1 as [Hw Hr]; try done.
  destruct Hr as [Ha Hst]. destruct (cbor_decode d) as [n|] eqn:En; injection H as <- <-; (split; [done|]); [|done].
  rewrite Hst. split; [eauto|]. split; [done|]. by exists d, n.
Qed.

Lemma addresses_unique c d d' : addresses c d -> addresses c d' -> d = d'.
Proof. intros H1 H2. by eapply prefix_sum_inj. Qed.

Lemma edge_kids c d n c' : addresses c d -> cbor_decode d = Some n -> edge c c' -> c' ∈ appendLinks n.
Proof. intros Ha Hn (_ & d' & n' & Ha' & Hn' & Hin). rewrite (addresses_unique c d' d) in Hn' by done. congruence. Qed.

(** ** The frontier loop *)

(** A queued block is dealt with: a leaf is marked, a node marked and expanded. *)
Definition covered (m : marks) (c : CidV) : Prop :=
  markKey c ∈ mk_marked m /\ (cidCodec c <> cid_Raw -> c ∈ mk_expanded m).

(** Expanded nodes have their children dealt with or queued. *)
Definition closed (m : marks) (stack : list CidV) : Prop :=
  forall c, c ∈ mk_expanded m -> cidCodec c <> cid_Raw ->
    markKey c ∈ mk_marked m /\ forall c', edge c c' -> covered m c' \/ c' ∈ stack.

Lemma elem_addMarked k c m : k ∈ mk_marked (addMarked c m) <-> k = markKey c \/ k ∈ mk_marked m.
Proof. simpl. by rewrite elem_of_union, elem_of_singleton. Qed.

(** The marked blocks are stored. *)
Definition marked_stored (m : marks) (w : W) : Prop :=
  forall k, k ∈ mk_marked m -> Keep k -> is_Some (stored (base (gw_store w)) k).

Record mgrows (m m' : marks) : Prop := {
  mg_marked : mk_marked m ⊆ mk_marked m';
  mg_expanded : mk_expanded m ⊆ mk_expanded m' }.
Lemma mgrows_refl m : mgrows m m.
Proof. by split. Qed.
Lemma mgrows_trans a b c : mgrows a b -> mgrows b c -> mgrows a c.
Proof. intros [] []. split; by etransitivity. Qed.
Lemma mgrows_marked c m : mgrows m (addMarked c m).
Proof. split; simpl; set_solver. Qed.
Lemma mgrows_both c m : mgrows m (addMarked c (addExpanded c m)).
Proof. split; simpl; set_solver. Qed.
Lemma covered_mono m m' c : mgrows m m' -> covered m c -> covered m' c.
Proof. intros [H1 H2] [? ?]. split; [by apply H1|]. intros. apply H2. auto. Qed.

Lemma marked_stored_moves m w w' : wmoves w w' -> marked_stored m w -> marked_stored m w'.
Proof.
  intros [Hw _ _] Hm k Hk Hkeep. destruct (Hm k Hk Hkeep) as [d Hd].
  destruct (ev_kept _ _ _ _ _ Hw (fun _ => True) k d) as (d' & -> & _); eauto. done.
Qed.
Lemma marked_stored_add m w c : marked_stored m w -> is_Some (stored (base (gw_store w)) (cidHash c)) -> marked_stored (addMarked c m) w.
Proof. intros Hm Hs k [->|Hk]%elem_addMarked Hkeep; [done|by apply Hm]. Qed.

Definition raw_dec (c : CidV) : cidCodec c = cid_Raw \/ cidCodec c <> cid_Raw := ltac:(destruct (decide (cidCodec c = cid_Raw)); auto).

(** What a loop that succeeds has done to the marks, over the set [Lv] its stack
    comes from. *)
Record looped (Lv : CidV -> Prop) (stack : list CidV) (m m' : marks) (w : W) : Prop := {
  lp_grows : mgrows m m';
  lp_sound : forall k, k ∈ mk_marked m' -> k ∈ mk_marked m \/ exists c, Lv c /\ markKey c = k;
  lp_closed : closed m' [];
  lp_stack : forall c, c ∈ stack -> covered m' c;
  lp_stored : marked_stored m' w }.

Lemma frontierLoop_run fuel fetch (Lv : CidV -> Prop) stack m (w : W) r w' :
  fetch_ok fetch -> sched_ok w -> (forall c c', Lv c -> edge c c' -> Lv c') ->
  Forall Lv stack -> closed m stack -> marked_stored m w ->
  frontierLoop g fuel fetch stack m w = (r, w') ->
  wmoves w w' /\ forall m', r = Ok m' -> looped Lv stack m m' w'.
Proof.
  intros Hf Hs HL. revert stack m w Hs. induction fuel as [|fuel IH]; intros stack m w Hs Hst Hcl Hms H.
  { destruct stack; simpl in H; injection H as <- <-; (split; [by apply wmoves_refl|]); [|done].
    intros m' [= <-]. split; [apply mgrows_refl|auto|done|by intros ? ?%not_elem_of_nil|done]. }
  destruct stack as [|c stack]; cbn [frontierLoop] in H.
  { injection H as <- <-. split; [by apply wmoves_refl|].
    intros m' [= <-]. split; [apply mgrows_refl|auto|done|by intros ? ?%not_elem_of_nil|done]. }
  apply Forall_cons_iff in Hst as [Hc Hst].
  apply bind_run in H as [(u & w1 & H1 & H)|(e & H1 & ->)]; apply gcCtxErr_run in H1 as [Hw1 _]; try done.
  pose proof (wm_sched _ _ Hw1) as Hs1. pose proof (marked_stored_moves _ _ _ Hw1 Hms) as Hms1.
  assert (Hskip : covered m c -> closed m stack).
  { intros Hcov c0 H0 Hr0. destruct (Hcl c0 H0 Hr0) as [? Hk]. split; [done|]. intros c' He.
    destruct (Hk c' He) as [?|[->|?]%elem_of_cons]; auto. }
  destruct (Z.eqb_spec (cidCodec c) cid_Raw) as [Er|Er].
  - destruct (decide (markKey c ∈ mk_marked m)) as [Hin|Hin].
    + assert (Hcov : covered m c) by (by split).
      apply IH in H as [Hw2 Hr]; auto. split; [by eapply wmoves_trans|]. intros m' Hm'.
      destruct (Hr m' Hm') as [G1 G2 G3 G4 G5]. split; auto.
      intros c0 [->|?]%elem_of_cons; [by eapply covered_mono|auto].
    + apply bind_run in H as [(v & w2 & H2 & H)|(e & H2 & ->)]; apply retainForMark_run in H2 as [Hw2 Hr2]; try done;
        [|split; [by eapply wmoves_trans|done]].
      assert (Hcov : covered (addMarked c m) c) by (split; [simpl; set_solver|done]).
      apply IH in H as [Hw3 Hr]; try done; try apply Hw2.
      * split; [eapply wmoves_trans; [exact Hw1|by eapply wmoves_trans]|]. intros m' Hm'.
        destruct (Hr m' Hm') as [G1 G2 G3 G4 G5]. split; auto.
        -- eapply mgrows_trans; [apply mgrows_marked|done].
        -- intros k [Hk|?]%G2; [|auto]. apply elem_addMarked in Hk as [->|?]; [right|by left]. by exists c.
        -- intros c0 [->|?]%elem_of_cons; [by eapply covered_mono|auto].
      * intros c0 H0 Hr0. destruct (Hcl c0 H0 Hr0) as [? Hk]. split; [simpl; set_solver|]. intros c' He.
        destruct (Hk c' He) as [?|[->|?]%elem_of_cons]; [left; eapply covered_mono; [apply mgrows_marked|done]|by left|by right].
      * apply marked_stored_add; [by eapply marked_stored_moves|done].
  - destruct (decide (c ∈ mk_expanded m)) as [Hin|Hin].
    + assert (Hcov : covered m c) by (split; [by apply (Hcl c)|done]).
      apply IH in H as [Hw2 Hr]; auto. split; [by eapply wmoves_trans|]. intros m' Hm'.
      destruct (Hr m' Hm') as [G1 G2 G3 G4 G5]. split; auto.
      intros c0 [->|?]%elem_of_cons; [by eapply covered_mono|auto].
    + apply bind_run in H as [(kids & w2 & H2 & H)|(e & H2 & ->)]; apply links_run in H2 as [Hw2 Hr2]; try done;
        [|split; [by eapply wmoves_trans|done]].
      destruct Hr2 as (Hsto & Hd & d & n & Ha & Hn & ->).
      set (m1 := addMarked c (addExpanded c m)) in *.
      assert (Hcov : covered m1 c) by (split; [|intros _]; simpl; set_solver).
      apply IH in H as [Hw3 Hr]; try done; try apply Hw2.
      * split; [eapply wmoves_trans; [exact Hw1|by eapply wmoves_trans]|]. intros m' Hm'.
        destruct (Hr m' Hm') as [G1 G2 G3 G4 G5]. split; auto.
        -- eapply mgrows_trans; [apply mgrows_both|done].
        -- intros k [Hk|?]%G2; [|auto]. apply elem_addMarked in Hk as [->|?]; [right|by left]. by exists c.
        -- intros c0 [->|?]%elem_of_cons; [by eapply covered_mono|]. apply G4, elem_of_app. by right.
      * apply Forall_app. split; [|done]. apply Forall_reverse, Forall_forall. intros c' Hc'. eapply HL; [exact Hc|].
        split; [done|]. eauto.
      * intros c0 H0 Hr0. simpl in H0. apply elem_of_union in H0 as [->%elem_of_singleton|H0].
        -- split; [simpl; set_solver|]. intros c' He. right. apply elem_of_app. left. apply elem_of_reverse. by eapply edge_kids.
        -- destruct (Hcl c0 H0 Hr0) as [? Hk]. split; [simpl; set_solver|]. intros c' He.
           destruct (Hk c' He) as [?|[->|?]%elem_of_cons]; [left; eapply covered_mono; [apply mgrows_both|done]|by left|].
           right. apply elem_of_app. by right.
      * apply (marked_stored_add (addExpanded c m)); [|done]. by eapply marked_stored_moves.
Qed.

(** ** Marking from the pins *)

Definition direct (pins : list PinEntry) (c : CidV) : Prop :=
  exists p, p ∈ pins /\ pin_CID p = Some c /\ Recursive p = false.
Definition rooted (pins : list PinEntry) (c : CidV) : Prop :=
  exists p r, p ∈ pins /\ pin_CID p = Some r /\ Recursive p = true /\ rtc edge r c.

Lemma closed_weaken m stack : closed m [] -> closed m stack.
Proof. intros H c Hc Hr. destruct (H c Hc Hr) as [? Hk]. split; [done|]. intros c' [?|[]%not_elem_of_nil]%Hk; auto. Qed.

Lemma closed_mark c m : closed m [] -> closed (addMarked c m) [].
Proof.
  intros H c0 H0 Hr0. destruct (H c0 H0 Hr0) as [? Hk]. split; [apply elem_addMarked; auto|].
  intros c' [?|?]%Hk; [left|by right]. eapply covered_mono; [apply mgrows_marked|done].
Qed.

Lemma pinLoop_run fetch pins frontier m (w : W) r w' :
  fetch_ok fetch -> sched_ok w -> closed m [] -> marked_stored m w ->
  pinLoop g fetch pins frontier m w = (r, w') ->
  wmoves w w' /\
  match r with
  | Ok (out, m') => mgrows m m' /\ closed m' [] /\ marked_stored m' w' /\
      (forall k, k ∈ mk_marked m' <-> k ∈ mk_marked m \/ exists c, direct pins c /\ markKey c = k) /\
      (forall c, c ∈ out <-> c ∈ frontier \/ exists p, p ∈ pins /\ pin_CID p = Some c /\ Recursive p = true) /\
      (length out <= length frontier + length pins)%nat
  | Err e => e <> EDiverges
  end.
Proof.
  intros Hf. revert frontier m w. induction pins as [|p pins IH]; intros frontier m w Hs Hcl Hms H; cbn [pinLoop] in H.
  { injection H as <- <-. split; [by apply wmoves_refl|]. split; [apply mgrows_refl|]. split; [done|]. split; [done|]. split; [|split; [|lia]].
    - intros k. split; [auto|]. intros [?|(c & (q & []%not_elem_of_nil & _) & _)]; done.
    - intros c. split; [auto|]. intros [?|(q & []%not_elem_of_nil & _)]; done. }
  destruct (pin_CID p) as [c|] eqn:Ec; [|injection H as <- <-; split; [by apply wmoves_refl|done]].
  destruct (Recursive p) eqn:Er.
  - apply IH in H as [Hw Hr]; try done. split; [done|]. destruct r as [[out m']|e]; [|done].
    destruct Hr as (G & C & S & Hm & Ho & Hl). split; [done|]. split; [done|]. split; [done|]. split; [|split].
    + intros k. rewrite Hm. unfold direct. split; (intros [?|(c0 & (q & Hq & ? & Hx) & Hk)]; [by left|right; exists c0; split; [exists q|done]]).
      * split; [by right|done].
      * apply elem_of_cons in Hq as [->|?]; [congruence|done].
    + intros c0. rewrite Ho, elem_of_app, list_elem_of_singleton. split.
      * intros [[?| ->]|(q & ? & ?)]; [by left|right; exists p; split; [by left|done]|right; exists q; split; [by right|done]].
      * intros [?|(q & [->|?]%elem_of_cons & Hq & ?)]; [by left; left|left; right; congruence|right; eauto].
    + rewrite length_app in Hl. simpl in *. lia.
  - apply bind_run in H as [(u & w1 & H1 & H)|(e & H1 & ->)]; apply retainForMark_run in H1 as [Hw1 Hr1]; try done.
    apply IH in H as [Hw Hr]; try (apply Hw1 || by apply closed_mark).
    2: { apply marked_stored_add; [by eapply marked_stored_moves|done]. }
    split; [by eapply wmoves_trans|]. destruct r as [[out m']|e]; [|done].
    destruct Hr as (G & C & S & Hm & Ho & Hl). split; [eapply mgrows_trans; [apply mgrows_marked|done]|].
    split; [done|]. split; [done|]. split; [|split; [|simpl; lia]].
    + intros k. rewrite Hm, elem_addMarked. unfold direct. split.
      * intros [[->|?]|(c0 & (q & Hq & Hx) & Hk)]; [right; exists c; split; [exists p; split; [by left|done]|done]|by left|].
        right. exists c0. split; [exists q; split; [by right|done]|done].
      * intros [?|(c0 & (q & [->|?]%elem_of_cons & Hc0 & Hx) & Hk)]; [by left; right|left; left; congruence|right; eauto 8].
    + intros c0. rewrite Ho. split; (intros [?|(q & Hq & ? & Hx)]; [by left|right; exists q]).
      * split; [by right|done].
      * apply elem_of_cons in Hq as [->|?]; [congruence|done].
Qed.

Lemma covered_rtc m c c' : closed m [] -> rtc edge c c' -> covered m c -> covered m c'.
Proof.
  intros Hcl H. induction H as [|c c1 c' He _ IH]; [done|]. intros [Hk Hx]. apply IH.
  assert (Hr : cidCodec c <> cid_Raw) by (destruct He as [-> _]; done).
  destruct (Hcl c (Hx Hr) Hr) as [_ Hkids]. by destruct (Hkids c1 He) as [?|[]%not_elem_of_nil].
Qed.

Lemma markHead_run fuel grp m (w : W) r w' :
  fetch_ok (hm_fetch grp) -> sched_ok w -> closed m [] -> marked_stored m w ->
  markHead g fuel grp m w = (r, w') ->
  wmoves w w' /\ forall m', r = Ok m' ->
    closed m' [] /\ marked_stored m' w' /\
    forall k, k ∈ mk_marked m' <-> k ∈ mk_marked m \/ exists c, (direct (hm_pins grp) c \/ rooted (hm_pins grp) c) /\ markKey c = k.
Proof.
  intros Hf Hs Hcl Hms H. unfold markHead in H.
  apply bind_run in H as [([out m1] & w1 & H1 & H)|(e & H1 & ->)]; apply pinLoop_run in H1 as [Hw1 Hr1]; try done.
  destruct Hr1 as (G & C & S & Hm & Ho & _).
  assert (HL : Forall (rooted (hm_pins grp)) (reverse out)).
  { apply Forall_reverse, Forall_forall. intros c Hc. apply Ho in Hc as [[]%not_elem_of_nil|(p & Hp & Hc & Hr)].
    exists p, c. split; [done|]. split; [done|]. split; [done|]. apply rtc_refl. }
  apply (frontierLoop_run fuel _ (rooted (hm_pins grp))) in H as [Hw Hr]; try done; try apply Hw1.
  - split; [by eapply wmoves_trans|]. intros m' Hm'. destruct (Hr m' Hm') as [G1 G2 G3 G4 G5].
    split; [done|]. split; [done|]. intros k. split.
    + intros [Hk|(c & Hc & Hk)]%G2; [|right; eauto]. apply Hm in Hk as [?|(c & Hc & Hk)]; [by left|right; eauto].
    + intros [Hk|(c & [Hc|(p & x & Hp & Hx & Hrec & Hrtc)] & <-)].
      * apply G1. apply Hm. by left.
      * apply G1. apply Hm. right. eauto.
      * assert (Hcov : covered m' x). { apply G4, elem_of_reverse, Ho. right. eauto. }
        by destruct (covered_rtc m' x c G3 Hrtc Hcov).
  - intros c c' (p & x & ? & ? & ? & Hrtc) He. exists p, x. do 3 (split; [done|]). by eapply rtc_r.
  - by apply closed_weaken.
Qed.

(** What the pins of the groups retain. *)
Definition live (groups : list (@headMark MH B)) (c : CidV) : Prop :=
  exists grp, grp ∈ groups /\ (direct (hm_pins grp) c \/ rooted (hm_pins grp) c).

Definition groups_ok (groups : list (@headMark MH B)) : Prop := Forall (fun grp => fetch_ok (hm_fetch grp)) groups.

Lemma markLoop_run fuel groups m (w : W) r w' :
  groups_ok groups -> sched_ok w -> closed m [] -> marked_stored m w ->
  markLoop g fuel groups m w = (r, w') ->
  wmoves w w' /\ forall m', r = Ok m' ->
    closed m' [] /\ marked_stored m' w' /\
    forall k, k ∈ mk_marked m' <-> k ∈ mk_marked m \/ exists c, live groups c /\ markKey c = k.
Proof.
  revert m w. induction groups as [|grp groups IH]; intros m w Hg Hs Hcl Hms H; cbn [markLoop] in H.
  { injection H as <- <-. split; [by apply wmoves_refl|]. intros m' [= <-]. split; [done|]. split; [done|].
    intros k. split; [auto|]. intros [?|(c & (gr & []%not_elem_of_nil & _) & _)]; done. }
  apply Forall_cons_iff in Hg as [Hf Hg].
  apply bind_run in H as [(m1 & w1 & H1 & H)|(e & H1 & ->)]; apply markHead_run in H1 as [Hw1 Hr1]; try done.
  destruct (Hr1 m1 eq_refl) as (C & S & Hm). apply IH in H as [Hw Hr]; try done; try apply Hw1.
  split; [by eapply wmoves_trans|]. intros m' Hm'. destruct (Hr m' Hm') as (C' & S' & Hm2). split; [done|]. split; [done|].
  intros k. rewrite Hm2, Hm. unfold live. split.
  - intros [[?|(c & Hc & Hk)]|(c & (gr & Hg' & Hc) & Hk)]; [by left| |]; right; exists c; (split; [|done]).
    + exists grp. split; [by left|done].
    + exists gr. split; [by right|done].
  - intros [?|(c & (gr & [->|Hg']%elem_of_cons & Hc) & Hk)]; [by left; left|left; right; eauto|right; eauto].
Qed.

Lemma mark_run fuel groups (w : W) r w' :
  groups_ok groups -> sched_ok w -> mark g fuel groups w = (r, w') ->
  wmoves w w' /\ forall marked, r = Ok marked ->
    (forall k, k ∈ marked <-> exists c, live groups c /\ markKey c = k) /\
    (forall k, k ∈ marked -> Keep k -> is_Some (stored (base (gw_store w')) k)).
Proof.
  intros Hg Hs H. unfold mark in H.
  apply bind_run in H as [(m & w1 & H1 & H)|(e & H1 & ->)]; apply markLoop_run in H1 as [Hw Hr]; try done;
    try (by intros c ?%not_elem_of_empty); try (by intros k ?%not_elem_of_empty).
  injection H as <- <-. split; [done|]. intros marked [= <-]. destruct (Hr m eq_refl) as (_ & S & Hm).
  split; [|done]. intros k. rewrite Hm. simpl. split; [|auto]. by intros [?%not_elem_of_empty|?].
Qed.

(** ** Termination *)

(** [T] is closed under links, and a node has at most [N] of them. *)
Definition universe (U : gset CidV) (N : nat) : Prop :=
  forall c d n, c ∈ U -> cidCodec c = cid_DagCBOR -> addresses c d -> cbor_decode d = Some n ->
    Forall (fun c' => c' ∈ U) (appendLinks n) /\ (length (appendLinks n) <= N)%nat.

Lemma frontierLoop_fuel U N fuel fetch stack m (w : W) r w' :
  fetch_ok fetch -> sched_ok w -> universe U N -> Forall (fun c => c ∈ U) stack ->
  (length stack + N * size (U ∖ mk_expanded m) <= fuel)%nat ->
  frontierLoop g fuel fetch stack m w = (r, w') -> r <> Err EDiverges.
Proof.
  intros Hf Hs HU. revert stack m w Hs. induction fuel as [|fuel IH]; intros stack m w Hs Hst Hfu H.
  { destruct stack; simpl in *; [by injection H as <- <-|lia]. }
  destruct stack as [|c stack]; cbn [frontierLoop] in H; [by injection H as <- <-|].
  apply Forall_cons_iff in Hst as [Hc Hst]. cbn [length] in Hfu.
  apply bind_run in H as [(u & w1 & H1 & H)|(e & H1 & ->)]; apply gcCtxErr_run in H1 as [Hw1 He1]; try done.
  2: { intros [= ->]. by specialize (He1 _ eq_refl). }
  destruct (Z.eqb_spec (cidCodec c) cid_Raw) as [Er|Er].
  - destruct (decide (markKey c ∈ mk_marked m)) as [Hin|Hin]; [eapply IH; [apply Hw1|done| |exact H]; lia|].
    apply bind_run in H as [(v & w2 & H2 & H)|(e & H2 & ->)]; apply retainForMark_run in H2 as [Hw2 Hr2]; try (done || apply Hw1).
    + eapply IH; [apply Hw2|done| |exact H]. simpl. lia.
    + congruence.
  - destruct (decide (c ∈ mk_expanded m)) as [Hin|Hin]; [eapply IH; [apply Hw1|done| |exact H]; lia|].
    apply bind_run in H as [(kids & w2 & H2 & H)|(e & H2 & ->)]; apply links_run in H2 as [Hw2 Hr2]; try (done || apply Hw1).
    + destruct Hr2 as (_ & Hd & d & n & Ha & Hn & ->). destruct (HU c d n Hc Hd Ha Hn) as [Hk Hl].
      eapply IH; [apply Hw2| | |exact H].
      * apply Forall_app. split; [by apply Forall_reverse|done].
      * rewrite length_app, length_reverse. simpl.
        assert (Hsz : size (U ∖ mk_expanded m) = Datatypes.S (size (U ∖ ({[c]} ∪ mk_expanded m)))).
        { transitivity (size ({[c]} ∪ U ∖ ({[c]} ∪ mk_expanded m))).
          - f_equal. apply set_eq. intros x. destruct (decide (x = c)); set_solver.
          - rewrite size_union by set_solver. by rewrite size_singleton. }
        rewrite Hsz in Hfu. lia.
    + congruence.
Qed.

Lemma markLoop_fuel U N P fuel groups m (w : W) r w' :
  groups_ok groups -> sched_ok w -> universe U N -> closed m [] -> marked_stored m w ->
  Forall (fun grp => (length (hm_pins grp) <= P)%nat /\
            forall p c, p ∈ hm_pins grp -> pin_CID p = Some c -> Recursive p = true -> c ∈ U) groups ->
  (P + N * size U <= fuel)%nat ->
  markLoop g fuel groups m w = (r, w') -> r <> Err EDiverges.
Proof.
  intros Hg Hs HU. revert m w Hs. induction groups as [|grp groups IH]; intros m w Hs Hcl Hms Hall Hfu H; cbn [markLoop] in H.
  { by injection H as <- <-. }
  apply Forall_cons_iff in Hg as [Hf Hg]. apply Forall_cons_iff in Hall as [[HP HinU] Hall].
  apply bind_run in H as [(m1 & w1 & H1 & H)|(e & H1 & ->)]; pose proof H1 as H1'; apply markHead_run in H1' as [Hw1 Hr1]; try done.
  { destruct (Hr1 m1 eq_refl) as (C & S & _). eapply IH; [done|apply Hw1|done..]. }
  intros [= ->]. unfold markHead in H1.
  apply bind_run in H1 as [([out m1] & w2 & H1 & H2)|(e & H1 & E)]; apply pinLoop_run in H1 as [Hw2 Hr2]; try done; [|congruence].
  destruct Hr2 as (_ & _ & _ & _ & Ho & Hl). eapply frontierLoop_fuel in H2; [done|done|apply Hw2|exact HU| |].
  - apply Forall_reverse, Forall_forall. intros c Hc. apply Ho in Hc as [[]%not_elem_of_nil|(p & Hp & Hpc & Hpr)]. by eapply HinU.
  - rewrite length_reverse. simpl in Hl. assert (size (U ∖ mk_expanded m1) <= size U)%nat by (apply subseteq_size; set_solver). nia.
Qed.

(** ** The sweep *)

Lemma DeleteCandidate_run h c (s : Epochs) r s' :
  epochs_inv s -> active s = Some (eh_state h) -> ~ Keep (cidHash c) ->
  DeleteCandidate h c s = (r, s') ->
  moves s s' /\ forall x, r = Ok x -> stored (base s') (cidHash c) = None \/ protects s' (cidHash c).
Proof.
  intros [Ha _] Hact Hk H. unfold DeleteCandidate in H. rewrite bool_decide_eq_true_2 in H by done. cbn [negb] in H.
  destruct (Ha _ Hact) as [ep Hep]. rewrite Hep in H. destruct (decide (touchedIn ep (multihashKey c))) as [Ht|Ht].
  { injection H as <- <-. split; [done|]. intros x _. right. by exists (eh_state h), ep. }
  unfold onBase in H. destruct (base_delete c (base s)) as [x b] eqn:E. apply base_delete_spec in E as [Hne Hr].
  assert (Hmv : moves s (set_base b s)).
  { split; [done|intros [? ?]; by split| | | |].
    - intros k (a & e & ? & ? & ?). by exists a, e.
    - intros k _ (a & e & ? & ? & ?). by exists a, e.
    - intros P k d Hkk _ Hs Hd. exists d. split; [|done]. simpl. rewrite Hne; [done|]. intros ->.
      destruct Hkk as [?|(a & e & Ha' & He & Ht')]; [done|]. rewrite Hact in Ha'. injection Ha' as <-. rewrite Hep in He. by injection He as <-.
    - intros k _ Hn. simpl. destruct (decide (k = cidHash c)) as [->|]; [|by rewrite Hne].
      destruct x; [done|]. destruct Hr as [_ [->| ->]]; done. }
  destruct x as [u|e]; injection H as <- <-; (split; [done|]); [|done]. intros x _. by left.
Qed.

Lemma sweepOnline_run epoch marked events st (w : W) st' e w' :
  (forall k, Keep k -> k ∈ marked) ->
  sched_ok w -> epochs_inv (gw_store w) -> active (gw_store w) = Some (eh_state epoch) ->
  sweepOnline epoch marked events st w = (st', e, w') ->
  wmoves w w' /\
  (e = None -> forall k, SKey k ∈ events -> k ∉ marked -> Q k -> stored (base (gw_store w')) k = None \/ protects (gw_store w') k).
Proof.
  intros HK. revert st w. induction events as [|ev events IH]; intros st w Hs Hi Ha H; cbn [sweepOnline] in H.
  all: destruct (ctxErr w) as [[u|er] w1] eqn:E1; apply gcCtxErr_run in E1 as [Hw1 _]; try done;
    [|injection H as <- <- <-; by split].
  { injection H as <- <- <-. split; [done|]. by intros _ k ?%not_elem_of_nil. }
  pose proof (wm_sched _ _ Hw1) as Hs1. pose proof (ev_inv _ _ _ _ _ (wm_store _ _ Hw1) Hi) as Hi1.
  pose proof (ev_active _ _ _ _ _ (wm_store _ _ Hw1)) as Ha1. rewrite Ha in Ha1.
  destruct ev as [k|er]; [|injection H as <- <- <-; by split].
  change (markKey (keyCid k)) with k in H. destruct (decide (k ∈ marked)) as [Hk|Hk].
  { apply IH in H as [Hw Hdel]; try done. split; [by eapply wmoves_trans|]. intros He k' [[= ->]|Hin]%elem_of_cons; [done|auto]. }
  destruct (step (DeleteCandidate epoch (keyCid k)) w1) as [r w2] eqn:E2. apply step_run in E2 as (s1 & s2 & M1 & E2 & Es & Er & Hs2); [|done].
  pose proof (ev_inv _ _ _ _ _ M1 Hi1) as Hi2. pose proof (ev_active _ _ _ _ _ M1) as Ha2. rewrite Ha1 in Ha2.
  apply DeleteCandidate_run in E2 as [M2 Hdel]; [|done|done|intros ?%HK; done]. subst s2.
  assert (Hw2 : wmoves w w2).
  { eapply wmoves_trans; [exact Hw1|]. split; [by etransitivity|done|done]. }
  destruct r as [[del prot]|er]; [|injection H as <- <- <-; by split].
  apply IH in H as [Hw Hdels]; [|done|by eapply ev_inv|by rewrite (ev_active _ _ _ _ _ M2)].
  split; [by eapply wmoves_trans|]. intros He k' [[= ->]|Hin]%elem_of_cons Hk' Hq; [|auto].
  destruct (Hdel _ eq_refl) as [Hn|Hp]; [left|right].
  - by apply (ev_absent _ _ _ _ _ (wm_store _ _ Hw)).
  - by apply (ev_protects _ _ _ _ _ (wm_store _ _ Hw)).
Qed.
End Moves.

(** ** Changing what is kept *)

Definition every (_ : Key) : Prop := True.
Definition none (_ : Key) : Prop := False.

Lemma evolves_weaken (Keep Keep' Q Q' T T' : Key -> Prop) s s' :
  (forall k, Keep' k -> Keep k) -> (forall k, Q' k -> Q k) -> (forall k, T' k -> T k) ->
  evolves Keep Q T s s' -> evolves Keep' Q' T' s s'.
Proof.
  intros HK HQ HU [A I P HP K1 N]. split; auto. intros P' k d Hk. apply K1. destruct Hk; auto.
Qed.

Lemma evolves_content (Keep Q T : Key -> Prop) s s' c d :
  evolves Keep Q T s s' -> Keep (cidHash c) -> addresses c d ->
  stored (base s) (cidHash c) = Some d -> stored (base s') (cidHash c) = Some d.
Proof.
  intros Hev Hk Ha Hs. destruct (ev_kept _ _ _ _ _ Hev (fun d' => d' = d) (cidHash c) d) as (d' & -> & ->); auto.
  intros c' d' Hc Ha'. by eapply prefix_sum_inj.
Qed.

(** ** Theorems on the mark *)

Context (g : @GCConfig MH B).

(** C20: The mark is exact.  When it succeeds, the marked multihashes are those of the
    blocks the pins reach and no others, every one of them is in the store, and
    whatever the application did meanwhile no addressed block has been lost. *)
Theorem mark_exact fuel groups (w : W) marked w' :
  groups_ok every none none groups -> sched_ok none none w -> mark g fuel groups w = (Ok marked, w') ->
  (forall k, k ∈ marked <-> exists c, live groups c /\ cidHash c = k) /\
  (forall k, k ∈ marked -> is_Some (stored (base (gw_store w')) k)) /\
  (forall c d, addresses c d -> stored (base (gw_store w)) (cidHash c) = Some d ->
     stored (base (gw_store w')) (cidHash c) = Some d).
Proof.
  intros Hg Hs H. apply (mark_run every none none) in H as [Hw Hr]; [|done..]. destruct (Hr marked eq_refl) as [Hm Hst].
  split; [done|]. split; [by intros k Hk; apply Hst|]. intros c d Ha Hd.
  by eapply evolves_content; [apply Hw|..].
Qed.

(** C21: The mark ends: over any finite set of CIDs that holds the roots of the
    recursive pins and is closed under links, with nodes of at most [N] links and
    groups of at most [P] pins, [P + N * |U|] iterations per head are enough. *)
Theorem mark_terminates U N P fuel groups (w : W) r w' :
  groups_ok every none none groups -> sched_ok none none w -> universe U N ->
  Forall (fun grp => (length (hm_pins grp) <= P)%nat /\
            forall p c, p ∈ hm_pins grp -> pin_CID p = Some c -> Recursive p = true -> c ∈ U) groups ->
  (P + N * size U <= fuel)%nat ->
  mark g fuel groups w = (r, w') -> r <> Err EDiverges.
Proof.
  intros Hg Hs HU Hall Hfu H. unfold mark in H.
  apply bind_run in H as [(m & w1 & H1 & H)|(e & H1 & ->)]; [by injection H as <- <-|].
  eapply (markLoop_fuel every none none) in H1; [congruence|done..| | |exact Hall|done];
    [by intros c ?%not_elem_of_empty|by intros k ?%not_elem_of_empty].
Qed.

Lemma markLoop_app fuel a b m (w : W) :
  markLoop g fuel (a ++ b) m w = (m1 <-- markLoop g fuel a m ;; markLoop g fuel b m1) w.
Proof.
  revert m w. induction a as [|grp a IH]; intros m w; [done|]. cbn [app markLoop]. unfold bind at 1 2 3.
  destruct (markHead g fuel grp m w) as [[m1|e] w1]; [|done]. by rewrite IH.
Qed.

(** A block missing under a written head fails the run: written heads are marked
    before followed ones and without a fetcher, so no followed head's fetch can
    restore the block first and hide the loss. *)
Theorem written_miss_fails fuel written followed (w : W) c :
  Forall (fun grp => hm_fetch grp = None) written -> live written c ->
  stored (base (gw_store w)) (cidHash c) = None -> sched_ok (eq (cidHash c)) none w ->
  is_ok (fst (mark g fuel (written ++ followed) w)) = false.
Proof.
  intros Hwr Hl Hn Hs. unfold mark, bind. rewrite markLoop_app. unfold bind.
  destruct (markLoop g fuel written (mkMarks ∅ ∅) w) as [[m1|e] w1] eqn:E; [exfalso|done].
  apply (markLoop_run every (eq (cidHash c)) none) in E as [Hw Hr]; try done;
    try (by intros ? ?%not_elem_of_empty).
  - destruct (Hr m1 eq_refl) as (_ & Hst & Hm). destruct (Hst (cidHash c)) as [d Hd]; [apply Hm; right; by exists c|done|].
    rewrite (ev_absent _ _ _ _ _ (wm_store _ _ _ _ _ Hw) (cidHash c) eq_refl Hn) in Hd. done.
  - eapply Forall_impl; [exact Hwr|]. intros grp -> f. discriminate.
Qed.

(** ** The cut *)

Context (cfg : @Config MH Sto) (ManifestTip : option (string -> res (Cid * bool))) (sameToken : nat -> nat -> bool).

Definition fetchers_ok (Keep Q T : Key -> Prop) : Prop :=
  forall F name f, g_fetchFor g = Some F -> F name = Some f -> fetcher_ok Keep Q T f.

(** The ledger and the heads move, the block store does not. *)
Definition cut_frame (w w' : W) : Prop := gw_store w' = gw_store w /\ gw_sched w' = gw_sched w.

Lemma onRec_frame {A} (m : M _ A) (w : W) r w' : onRec m w = (r, w') -> cut_frame w w'.
Proof. unfold onRec. destruct (m (gw_rec w)). by intros [= <- <-]. Qed.
Lemma onRec_run {A} (m : M _ A) (w : W) r w' :
  onRec m w = (r, w') -> exists rc, m (gw_rec w) = (r, rc) /\ w' = set_rec rc w.
Proof. unfold onRec. destruct (m (gw_rec w)) as [x rc]. intros [= <- <-]. eauto. Qed.
Lemma cut_frame_trans a b c : cut_frame a b -> cut_frame b c -> cut_frame a c.
Proof. intros [] []. split; congruence. Qed.

Definition kvOf (w : W) : gmap bytes bytes := kv (rc_ledger (gw_rec w)).

(** The group holds the rows of its head. *)
Definition rows_of (m : gmap bytes bytes) (grp : @headMark MH B) : Prop :=
  forall e, e ∈ hm_pins grp <->
    exists c, pin_CID e = Some c /\ pin_at m (hm_head grp) (Purpose e) c = Some (Recursive e, Expiry e).

Lemma onKV_run {A} (m : M K A) (w : W) r w' :
  onKV m w = (r, w') -> cut_frame w w' /\ rc_heads (gw_rec w') = rc_heads (gw_rec w) /\
    exists s', m (rc_ledger (gw_rec w)) = (r, s') /\ rc_ledger (gw_rec w') = s'.
Proof.
  intros H. split; [by eapply onRec_frame|]. apply onRec_run in H as (rc & H & ->). apply onLedger_run in H as (s' & H & ->).
  split; [done|]. by exists s'.
Qed.

Lemma list_group name (w : W) r w' :
  ledger_wf (kvOf w) -> onKV (ListAll name) w = (r, w') ->
  cut_frame w w' /\ rc_heads (gw_rec w') = rc_heads (gw_rec w) /\ kvOf w' = kvOf w /\
  forall out fetch, r = Ok out -> rows_of (kvOf w) (mkHeadMark name fetch out).
Proof.
  intros Hm H. apply onKV_run in H as (Hf & Hh & s' & H & Hl). split; [done|]. split; [done|]. unfold kvOf. rewrite Hl.
  pose proof (ListAll_name _ _ _ _ H) as [Hn|[-> Hn]].
  - apply ListAll_run in H as [Ek Hr]; [|done..]. split; [done|]. intros out fetch ->. intros e. apply Hr.
  - split; [done|]. by intros out fetch ->.
Qed.

Lemma pinGroups_run names (w : W) r w' :
  ledger_wf (kvOf w) -> pinGroups g names w = (r, w') ->
  cut_frame w w' /\ kvOf w' = kvOf w /\
  match r with
  | Ok (written, followed, _) =>
      Forall (fun grp => hm_fetch grp = None) written /\ Forall (fun grp => is_Some (hm_fetch grp)) followed /\
      (forall Keep Q T, fetchers_ok Keep Q T -> groups_ok Keep Q T (written ++ followed)) /\
      (forall grp, grp ∈ written ++ followed -> hm_head grp ∈ names /\ rows_of (kvOf w) grp) /\
      (forall name, name ∈ names -> exists grp, grp ∈ written ++ followed /\ hm_head grp = name)
  | Err _ => True
  end.
Proof.
  revert w r w'. induction names as [|name names IH]; intros w r w' Hm H; cbn [pinGroups] in H.
  { injection H as <- <-. split; [done|]. split; [done|]. split; [constructor|]. split; [constructor|]. split; [intros; constructor|].
    split; [by intros ? ?%not_elem_of_nil|by intros ? ?%not_elem_of_nil]. }
  apply bind_run in H as [(entries & w1 & H1 & H)|(e & H1 & ->)]; apply list_group in H1 as (F1 & _ & E1 & R1); try done.
  apply bind_run in H as [([[wr fo] tot] & w2 & H2 & H)|(e & H2 & ->)]; apply IH in H2 as (F2 & E2 & R2); try (by rewrite E1);
    try (by split; [eapply cut_frame_trans|split; [congruence|]]).
  injection H as <- <-. split; [by eapply cut_frame_trans|]. split; [congruence|]. destruct R2 as (Rw & Rfo & Rg & Rr & Rn). rewrite E1 in Rr.
  set (fetch := match g_fetchFor g with Some f => f name | None => None end).
  assert (Hfetch : forall Keep Q T, fetchers_ok Keep Q T -> fetch_ok Keep Q T fetch).
  { intros Keep Q T Hfo f Hf. unfold fetch in Hf. destruct (g_fetchFor g) as [F|] eqn:EF; [|done]. by eapply Hfo. }
  assert (Hgrp : rows_of (kvOf w) (mkHeadMark name fetch entries)) by (by apply R1).
  assert (Hall : forall grps : list (@headMark MH B), (forall x, x ∈ grps <-> x = mkHeadMark name fetch entries \/ x ∈ wr ++ fo) ->
    (forall grp, grp ∈ grps -> hm_head grp ∈ name :: names /\ rows_of (kvOf w) grp) /\
    (forall n, n ∈ name :: names -> exists grp, grp ∈ grps /\ hm_head grp = n)).
  { intros grps Hx. split.
    - intros grp [->|Hin]%Hx; [split; [by left|done]|]. destruct (Rr grp Hin). split; [by right|done].
    - intros n [->|Hin]%elem_of_cons; [eexists; split; [apply Hx; by left|done]|].
      destruct (Rn n Hin) as (grp & ? & ?). exists grp. split; [apply Hx; by right|done]. }
  assert (Hok : forall Keep Q T (grps : list (@headMark MH B)), (forall x, x ∈ grps <-> x = mkHeadMark name fetch entries \/ x ∈ wr ++ fo) ->
    fetchers_ok Keep Q T -> groups_ok Keep Q T grps).
  { intros Keep Q T grps Hx Hfo. apply Forall_forall. intros grp [->|Hin]%Hx; [by apply Hfetch|].
    specialize (Rg Keep Q T Hfo). by eapply Forall_forall in Rg; [|exact Hin]. }
  destruct fetch as [f|]; cbv zeta beta iota; (split; [|split; [|split; [intros Keep Q T; apply Hok|apply Hall]]]).
  - done.
  - constructor; [by eexists|done].
  - intros x. rewrite !elem_of_app, elem_of_cons. tauto.
  - intros x. rewrite !elem_of_app, elem_of_cons. tauto.
  - by constructor.
  - done.
  - intros x. simpl. by rewrite elem_of_cons.
  - intros x. simpl. by rewrite elem_of_cons.
Qed.

(** What the groups of a cut are. *)
Record cut_groups (names : list string) (m : gmap bytes bytes) (groups : list (@headMark MH B)) : Prop := {
  cg_fetch : forall Keep Q T, fetchers_ok Keep Q T -> groups_ok Keep Q T groups;
  cg_rows : forall grp, grp ∈ groups -> rows_of m grp;
  cg_names : forall name, name ∈ names -> exists grp, grp ∈ groups /\ hm_head grp = name;
  cg_staging : is_Some (g_staging g) -> exists grp, grp ∈ groups /\ hm_head grp = StagingHead;
  cg_order : exists written rest, groups = written ++ rest /\ Forall (fun grp => hm_fetch grp = None) written /\
     Forall (fun grp => is_Some (hm_fetch grp) \/ hm_head grp = StagingHead) rest }.

Lemma pins_run (w : W) r w' :
  ledger_wf (kvOf w) -> pins g w = (r, w') ->
  cut_frame w w' /\ kvOf w' = kvOf w /\ forall groups a b, r = Ok (groups, a, b) -> cut_groups (Names (gw_rec w)) (kvOf w) groups.
Proof.
  intros Hm H. unfold pins in H. unfold bind at 1, gets in H.
  apply bind_run in H as [([[wr fo] tot] & w1 & H1 & H)|(e & H1 & ->)]; apply pinGroups_run in H1 as (F1 & E1 & R1); try done.
  destruct R1 as (Rw & Rf & Rg & Rr & Rn).
  assert (Hfo : Forall (fun grp => is_Some (hm_fetch grp) \/ hm_head grp = StagingHead) fo).
  { eapply Forall_impl; [exact Rf|]. auto. }
  destruct (g_staging g) as [st|] eqn:Es.
  2: { injection H as <- <-. split; [done|]. split; [done|]. intros groups a b [= <- _ _].
       split; [done|intros grp Hg; by apply Rr|done|by rewrite Es; intros []|eauto 6]. }
  apply bind_run in H as [(entries & w2 & H2 & H)|(e & H2 & ->)]; apply list_group in H2 as (F2 & _ & E2 & R2); try (by rewrite E1).
  2: { split; [by eapply cut_frame_trans|]. split; [congruence|]. done. }
  injection H as <- <-. split; [by eapply cut_frame_trans|]. split; [congruence|]. intros groups a b [= <- _ _].
  split.
  - intros Keep Q T Hok. apply Forall_app. split; [by apply Rg|]. constructor; [|constructor]. by intros f [=].
  - intros grp [Hg| ->%list_elem_of_singleton]%elem_of_app; [by apply Rr|]. rewrite <- E1. by apply R2.
  - intros name Hn. destruct (Rn name Hn) as (grp & ? & ?). exists grp. split; [apply elem_of_app; by left|done].
  - intros _. eexists. split; [apply elem_of_app; right; by left|done].
  - exists wr, (fo ++ [mkHeadMark StagingHead None entries]). rewrite app_assoc. split; [done|]. split; [done|].
    apply Forall_app. split; [done|]. constructor; [by right|constructor].
Qed.
End Correct.
