(* ===== verification/GCRun.v ===== *)
(** Whole runs of the collector: the cut, the mark and the sweep together; the
    model is GC.v and the lemmas on the mark are in GCCorrect.v. *)
From S2P Require Import Prelude Arith Cid Schema Core Engine Enumerate Store Ledger Policy Reconcile Staging GC GCCorrect.

Section Runs.
Context `{MH : Multihash} `{CB : !DagCbor} `{CC : !CidBytes}.
Context {B : Type} `{BA : !BaseStore B} `{BO : !BaseStoreOk B}.
Context {Sto : Type} `{BS : !Blockstore Sto} {L : Type} `{LR : !Lru CidV (AnyNode * Z) L}.
Context {K : Type} `{PB : !Pebble K} `{PO : !PebbleOk K}.
Local Abbreviation Epochs := (@BlockstoreEpochs MH B).
Local Abbreviation W := (@GCW MH B Sto L K).
Local Abbreviation Key := (MhDigest Digest).
Context (g : @GCConfig MH B).
Context (cfg : @Config MH Sto) (ManifestTip : option (string -> res (Cid * bool))) (sameToken : nat -> nat -> bool).
Local Abbreviation cut := (prepare g cfg ManifestTip sameToken).
Local Abbreviation run := (runOnline g cfg ManifestTip sameToken).

(** ** The cut *)

Lemma expireStaging_run now (w : W) r w' :
  ledger_wf (kvOf w) -> expireStaging g now w = (r, w') ->
  cut_frame w w' /\ rc_heads (gw_rec w') = rc_heads (gw_rec w) /\ rc_names (gw_rec w') = rc_names (gw_rec w) /\
  ledger_wf (kvOf w') /\
  forall h p c, (h = StagingHead -> expired_row now (pin_at (kvOf w) h p c) = false) ->
    pin_at (kvOf w') h p c = pin_at (kvOf w) h p c.
Proof.
  intros Hm H. unfold expireStaging in H. destruct (g_staging g); [|by injection H as <- <-].
  pose proof (onRec_run _ _ _ _ H) as (rc & Hrc & Hw). apply onLedger_run in Hrc as (s' & Hd & ->).
  split; [by eapply onRec_frame|]. subst w'. simpl. split; [done|]. split; [done|].
  apply DropExpired_run in Hd as [Hwf Hd]; [|done]. split; [done|]. intros h p c Hne.
  assert (Hsame : after_expiry now h p c (pin_at (kvOf w) h p c) = pin_at (kvOf w) h p c).
  { unfold after_expiry. rewrite decide_False; [done|]. intros [-> He]. by rewrite Hne in He. }
  unfold kvOf in *. simpl. destruct r; simpl in Hd; [by rewrite Hd|]. destruct Hd as [->| ->]; done.
Qed.

(** What a cut that succeeds has established. *)
Record cut_ok (now : Time) (w w1 : W) (groups : list (@headMark MH B)) : Prop := {
  co_groups : cut_groups g (Names (gw_rec w1)) (kvOf w1) groups;
  co_heads : forall n e, rc_heads (gw_rec w) !! n = Some e -> en_withdrawal e = None ->
    n ∈ Names (gw_rec w1) /\ exists desired, fst (desiredOf cfg ManifestTip n e (gw_rec w)) = Ok desired /\
      (NoDup (pinKey <$> desired) -> n <> StagingHead -> forall p c b, want desired p c = Some b ->
         exists grp pin, grp ∈ groups /\ pin ∈ hm_pins grp /\ pin_CID pin = Some c /\ Recursive pin = b);
  co_staging : is_Some (g_staging g) -> rc_heads (gw_rec w) !! StagingHead = None ->
    forall p c b t, pin_at (kvOf w) StagingHead p c = Some (b, t) -> expired_row now (Some (b, t)) = false ->
      live groups c }.

Lemma onKV_names {A} (m : M K A) (w : W) r w' : onKV m w = (r, w') -> Names (gw_rec w') = Names (gw_rec w).
Proof. intros (rc & H & ->)%onRec_run. by apply onLedger_run in H as (s' & _ & ->). Qed.

Lemma pins_names (w : W) r w' : pins g w = (r, w') -> Names (gw_rec w') = Names (gw_rec w).
Proof.
  assert (Hg : forall names (w : W) r w', pinGroups g names w = (r, w') -> Names (gw_rec w') = Names (gw_rec w)).
  { intros names. induction names as [|n names IH]; intros w0 r0 w0' H; cbn [pinGroups] in H; [by injection H as <- <-|].
    apply bind_run in H as [(en & w1 & H1%onKV_names & H)|(e & H1%onKV_names & ->)]; [|done].
    apply bind_run in H as [([[wr fo] t] & w2 & H2%IH & H)|(e & H2%IH & ->)]; [|congruence]. injection H as <- <-. congruence. }
  intros H. unfold pins in H. unfold bind at 1, gets in H.
  apply bind_run in H as [([[wr fo] t] & w1 & H1%Hg & H)|(e & H1%Hg & ->)]; [|done].
  destruct (g_staging g); [|by injection H as <- <-].
  apply bind_run in H as [(en & w2 & H2%onKV_names & H)|(e & H2%onKV_names & ->)]; [|congruence]. injection H as <- <-. congruence.
Qed.

Lemma prepare_run now (w : W) r expired w1 :
  ledger_wf (kvOf w) -> reg_ok (gw_rec w) -> cut now w = (r, expired, w1) ->
  cut_frame w w1 /\ forall groups a b, r = Ok (groups, a, b) -> cut_ok now w w1 groups.
Proof.
  intros Hm Hreg H. unfold prepare in H. unfold bind, modify in H.
  destruct (onRec (reconcileAll cfg ManifestTip sameToken) (resetCounters w)) as [x wa] eqn:Ea.
  apply onRec_run in Ea as (rc & Ea & ->). assert (F1 : cut_frame w (set_rec rc (resetCounters w))) by done.
  destruct x as [d|e]; [|injection H as <- <- <-; by split].
  assert (Hok : pl_ok (rc_ledger (gw_rec w))) by exact Hm.
  destruct (sortedNames_spec (rc_heads (gw_rec w))) as [Hnd Hsn]. rewrite <- Hreg in Hnd, Hsn.
  apply (reconcileNames_run cfg ManifestTip sameToken) in Ea as (O1 & R1 & N1 & L1); [|done..].
  destruct (expireStaging g now (set_rec rc (resetCounters w))) as [y wb] eqn:Eb.
  apply expireStaging_run in Eb as (F2 & Hh2 & Hn2 & Hm2 & Hp2); [|exact O1].
  destruct y as [ex|e]; [|injection H as <- <- <-; split; [by eapply cut_frame_trans|done]].
  destruct (pins g wb) as [z wc] eqn:Ec. pose proof (pins_names _ _ _ Ec) as En. apply pins_run in Ec as (F3 & E3 & R3); [|done].
  injection H as <- <- <-. split; [eapply cut_frame_trans; [exact F1|eapply cut_frame_trans; [exact F2|exact F3]]|]. intros groups a b ->.
  pose proof (R3 groups a b eq_refl) as Hg. split; [by rewrite En, E3| |].
  2: { intros Hst Hno p c b0 t Hp Hne. destruct (cg_staging _ _ _ _ Hg Hst) as (grp & Hgrp & Hhead).
       destruct (N1 StagingHead) as [_ Hrow]; [rewrite Hsn, Hno; by intros [? [=]]|].
       assert (Hp' : pin_at (kvOf wb) StagingHead p c = Some (b0, t)).
       { rewrite Hp2; [etrans; [apply Hrow|exact Hp]|]. intros _. etrans; [|exact Hne]. f_equal. etrans; [apply Hrow|exact Hp]. }
       exists grp. split; [done|].
       assert (Hin : mkPin p (Some c) b0 t ∈ hm_pins grp) by (apply (cg_rows _ _ _ _ Hg grp Hgrp); rewrite Hhead; eauto).
       destruct b0; [right|left]; [exists (mkPin p (Some c) true t), c|exists (mkPin p (Some c) false t)]; done. }
  intros n e He Hw. destruct (L1 n e) as (Hs & desired & Hd & Hall); [apply Hsn; rewrite He; eauto|done..|].
  assert (Hin : n ∈ Names (gw_rec wb)).
  { unfold Names. rewrite Hn2. simpl. rewrite (R1 Hreg). apply sortedNames_spec. done. }
  rewrite En. split; [done|]. exists desired. split; [done|]. intros Hk Hns p c b0 Hwant.
  destruct (cg_names _ _ _ _ Hg n Hin) as (grp & Hgrp & Hhead).
  assert (Hpin : fst <$> pin_at (kvOf (set_rec rc (resetCounters w))) n p c = Some b0) by (rewrite <- Hwant; apply (Hall Hk)).
  apply fmap_Some in Hpin as ([b1 t] & Hpin & ->). rewrite <- (Hp2 n p c) in Hpin by done. simpl.
  exists grp, (mkPin p (Some c) b1 t). split; [done|]. split; [|done]. apply (cg_rows _ _ _ _ Hg grp Hgrp). rewrite Hhead. eauto.
Qed.

Lemma reconcileNames_frame names total (rc : @Reconciler MH Sto L K) x rc' :
  pl_ok (rc_ledger rc) -> reconcileNames cfg ManifestTip sameToken names total rc = (x, rc') ->
  pl_ok (rc_ledger rc') /\ forall n p c, n ∉ names -> pl_row (rc_ledger rc') n p c = pl_row (rc_ledger rc) n p c.
Proof.
  revert total rc. induction names as [|name names IH]; intros total rc Hok H; cbn [reconcileNames] in H; [by injection H as <- <-|].
  apply bind_run in H as [(d & rc1 & H1 & H)|(e & H1 & ->)]; apply (reconcileHead_frame cfg ManifestTip sameToken) in H1 as (O1 & P1 & _); try done.
  - apply IH in H as [O2 P2]; [|done]. split; [done|]. intros n p c [Hne Hn]%not_elem_of_cons. by rewrite P2, P1.
  - split; [done|]. intros n p c [Hne _]%not_elem_of_cons. by apply P1.
Qed.

(** However the cut ends, the ledger stays well formed and a staging row that has
    not expired is as before. *)
Lemma prepare_ledger now (w : W) r expired w1 :
  ledger_wf (kvOf w) -> reg_ok (gw_rec w) -> cut now w = (r, expired, w1) ->
  ledger_wf (kvOf w1) /\ (rc_heads (gw_rec w) !! StagingHead = None -> forall p c,
    expired_row now (pin_at (kvOf w) StagingHead p c) = false -> pin_at (kvOf w1) StagingHead p c = pin_at (kvOf w) StagingHead p c).
Proof.
  intros Hm Hreg H. unfold prepare in H. unfold bind, modify in H.
  destruct (onRec (reconcileAll cfg ManifestTip sameToken) (resetCounters w)) as [x wa] eqn:Ea.
  apply onRec_run in Ea as (rc & Ea & ->).
  apply reconcileNames_frame in Ea as [O1 P1]; [|exact Hm].
  assert (Hrow : rc_heads (gw_rec w) !! StagingHead = None -> forall p c,
    pin_at (kvOf (set_rec rc (resetCounters w))) StagingHead p c = pin_at (kvOf w) StagingHead p c).
  { intros Hno p c. apply P1. unfold Names. simpl. rewrite Hreg. rewrite (proj2 (sortedNames_spec _) StagingHead), Hno. by intros [? [=]]. }
  destruct x as [d|e]; [|injection H as _ _ <-; split; [exact O1|auto]].
  destruct (expireStaging g now (set_rec rc (resetCounters w))) as [y wb] eqn:Eb.
  apply expireStaging_run in Eb as (_ & _ & _ & Hm2 & Hp2); [|exact O1].
  assert (Hrow2 : rc_heads (gw_rec w) !! StagingHead = None -> forall p c,
    expired_row now (pin_at (kvOf w) StagingHead p c) = false -> pin_at (kvOf wb) StagingHead p c = pin_at (kvOf w) StagingHead p c).
  { intros Hno p c He. rewrite Hp2, Hrow; [done..|]. intros _. by rewrite Hrow. }
  destruct y as [ex|e]; [|injection H as _ _ <-; done].
  destruct (pins g wb) as [z wc] eqn:Ec. apply pins_run in Ec as (_ & E3 & _); [|done].
  injection H as _ _ <-. by rewrite E3.
Qed.

(** ** Online runs *)

Lemma End_base h (s : Epochs) n h' s' : End_ h s = (n, h', s') -> base s' = base s /\ heap s' = heap s /\
  (eh_ended h = false -> active s = Some (eh_state h) -> active s' = None) /\
  (epochs_inv s -> epochs_inv s').
Proof.
  intros H. split; [|split; [|split]].
  4: { intros Hi. pose proof (do_act_inv (AEnd h) s Hi) as Hi'. simpl in Hi'. by rewrite H in Hi'. }
  all: revert H; unfold End_; destruct (eh_ended h) eqn:E; intros [= _ _ <-]; try done; by case_bool_decide.
Qed.

Lemma Begin_run (s : Epochs) : active s = None ->
  exists h s', Begin s = (Ok h, s') /\ base s' = base s /\ active s' = Some (eh_state h) /\ eh_ended h = false /\
    (epochs_inv s -> epochs_inv s') /\ (forall k, ~ protects s' k).
Proof.
  intros Ha. destruct (Begin s) as [r s'] eqn:E. pose proof (do_act_inv ABegin s) as Hi. simpl in Hi. rewrite E in Hi.
  unfold Begin in E. rewrite Ha in E. injection E as <- <-. eexists _, _. split; [done|].
  do 3 (split; [done|]). split; [done|]. intros k (a & ep & [= <-] & Hep & Hk). cbn [heap] in Hep. rewrite lookup_insert_eq in Hep.
  injection Hep as <-. unfold touchedIn in Hk. cbn [ep_shards] in Hk. rewrite lookup_total_empty in Hk. by apply not_elem_of_empty in Hk.
Qed.

(** After the cut, for any [Q]: what is live stays, and what is offered, neither
    written nor read and not live goes: the epoch of the run starts out protecting
    nothing. *)
Lemma runOnline_run Q T fuel now scan (w : W) r expired w1 stats e w' :
  sched_ok Q T w -> epochs_inv (gw_store w) -> active (gw_store w) = None ->
  ledger_wf (kvOf w) -> reg_ok (gw_rec w) -> fetchers_ok g every Q T ->
  cut now w = (r, expired, w1) -> run fuel now scan w = (stats, e, w') ->
  active (gw_store w') = None /\ epochs_inv (gw_store w') /\ gw_rec w' = gw_rec w1 /\
  match r with
  | Err er => e = Some er /\ gw_store w' = gw_store w
  | Ok (groups, _, _) =>
      cut_ok now w w1 groups /\
      (forall c d, live groups c -> addresses c d ->
         stored (base (gw_store w)) (cidHash c) = Some d -> stored (base (gw_store w')) (cidHash c) = Some d) /\
      (e = None -> forall c, live groups c -> is_Some (stored (base (gw_store w')) (cidHash c))) /\
      (e = None -> forall events k, scan = Ok events -> SKey k ∈ events -> Q k -> T k ->
         (forall c, live groups c -> cidHash c <> k) -> stored (base (gw_store w')) k = None)
  end.
Proof.
  intros Hs Hi Ha Hm Hreg Hfo Hcut Hrun. unfold runOnline in Hrun. rewrite Hcut in Hrun.
  apply prepare_run in Hcut as [[Fs Fq] Hok]; [|done..].
  destruct r as [[[groups np] sg]|er]; [|injection Hrun as _ <- <-; by rewrite Fs].
  specialize (Hok _ _ _ eq_refl). pose proof (cg_fetch _ _ _ _ (co_groups _ _ _ _ Hok) _ _ _ Hfo) as Hgo.
  destruct (Begin_run (gw_store w1)) as (h & sb & Eb & Bb & Ba & Be & Bi & Bn); [by rewrite Fs|].
  unfold onStore in Hrun at 1. rewrite Eb in Hrun. set (w2 := set_store sb w1) in *.
  assert (Hs2 : sched_ok Q T w2) by (unfold sched_ok; simpl; by rewrite Fq).
  assert (Hi2 : epochs_inv (gw_store w2)) by (apply Bi; by rewrite Fs).
  destruct (mark g fuel groups w2) as [[marked|er] w3] eqn:Em; apply (mark_run every Q T) in Em as [Hw3 Hr3]; try done;
    pose proof (wm_store _ _ _ _ _ Hw3) as M3; pose proof (ev_active _ _ _ _ _ M3) as A3; simpl in A3; rewrite Ba in A3.
  2: { destruct (End_ h (gw_store w3)) as [[n h'] s'] eqn:Ee. injection Hrun as _ <- <-.
       apply End_base in Ee as (Eb' & _ & Ea' & Ei'). simpl. split; [auto|].
       split; [by apply Ei', (ev_inv _ _ _ _ _ M3)|]. split; [exact (wm_rec _ _ _ _ _ Hw3)|]. split; [done|]. split; [|done].
       intros c d _ Hd Hst. rewrite Eb'. eapply evolves_content; [exact M3|done|exact Hd|]. simpl. by rewrite Bb, Fs. }
  destruct (Hr3 marked eq_refl) as [Hmk Hst3].
  assert (Hkeep : forall c, live groups c -> cidHash c ∈ marked) by (intros c Hc; apply Hmk; eauto).
  assert (Hsweep : exists st w4, match scan with Err e0 => (zeroStats, Some e0, w3)
      | Ok events => sweepOnline h marked events zeroStats w3 end = (st, e, w4) /\
      base (gw_store w') = base (gw_store w4) /\ gw_rec w' = gw_rec w4 /\ (epochs_inv (gw_store w4) -> epochs_inv (gw_store w')) /\
      (active (gw_store w4) = Some (eh_state h) -> active (gw_store w') = None)).
  { destruct (match scan with Err e0 => _ | Ok events => _ end) as [[st e0] w4]. exists st, w4.
    destruct (End_ h (gw_store w4)) as [[n h'] s'] eqn:Ee. apply End_base in Ee as (? & _ & ? & ?).
    injection Hrun as _ <- <-. simpl. by auto 6. }
  destruct Hsweep as (st & w4 & Esw & Eb4 & Er4 & Ei4 & Ea4).
  assert (Hs4 : wmoves (fun k => k ∈ marked) Q T w3 w4 /\
    (e = None -> forall events k, scan = Ok events -> SKey k ∈ events -> k ∉ marked -> Q k ->
       stored (base (gw_store w4)) k = None \/ protects (gw_store w4) k)).
  { destruct scan as [events|e0].
    - eapply (sweepOnline_run (fun k => k ∈ marked) Q T) in Esw as [Hw4 Hd4]; [|done|apply Hw3|by apply (ev_inv _ _ _ _ _ M3)|done].
      split; [done|]. intros He ev k [= <-]. by apply Hd4.
    - injection Esw as _ <- <-. split; [|done]. apply wmoves_refl. apply Hw3. }
  destruct Hs4 as [[M4 R4 _] Hdel]. pose proof (ev_active _ _ _ _ _ M4) as A4. rewrite A3 in A4.
  split; [auto|]. split; [by apply Ei4, (ev_inv _ _ _ _ _ M4), (ev_inv _ _ _ _ _ M3)|].
  split; [rewrite Er4, R4; exact (wm_rec _ _ _ _ _ Hw3)|]. split; [done|]. split; [|split].
  - intros c d Hc Hd Hst. rewrite Eb4. eapply evolves_content; [exact M4|by apply Hkeep|exact Hd|].
    eapply evolves_content; [exact M3|done|exact Hd|]. simpl. by rewrite Bb, Fs.
  - intros _ c Hc. rewrite Eb4. destruct (Hst3 (cidHash c)) as [d Hd]; [by apply Hkeep|done|].
    destruct (ev_kept _ _ _ _ _ M4 (fun _ => True) (cidHash c) d) as (d' & -> & _); eauto; done.
  - intros He events k Hsc Hin Hq Hu Hnl. rewrite Eb4. destruct (Hdel He events k Hsc Hin) as [?|Hp]; [|done..|].
    + intros (c & Hc & Hk)%Hmk. by apply (Hnl c).
    + apply (ev_unprotected _ _ _ _ _ M4), (ev_unprotected _ _ _ _ _ M3) in Hp; [by apply Bn in Hp|done..].
Qed.

(** C4: An online run, whatever the application does beside it and however the run
    ends, loses no block the pins of its cut reach: it is stored afterwards if it
    was before.  When the run succeeds all of them are stored, and the epoch is
    over in any case. *)
Theorem gc_online_retains fuel now scan (w : W) r expired w1 stats e w' :
  sched_ok none none w -> epochs_inv (gw_store w) -> active (gw_store w) = None ->
  ledger_wf (kvOf w) -> reg_ok (gw_rec w) -> fetchers_ok g every none none ->
  cut now w = (r, expired, w1) -> run fuel now scan w = (stats, e, w') ->
  active (gw_store w') = None /\
  match r with
  | Err er => e = Some er /\ gw_store w' = gw_store w
  | Ok (groups, _, _) =>
      (forall c d, live groups c -> addresses c d ->
         stored (base (gw_store w)) (cidHash c) = Some d -> stored (base (gw_store w')) (cidHash c) = Some d) /\
      (e = None -> forall c, live groups c -> is_Some (stored (base (gw_store w')) (cidHash c)))
  end.
Proof.
  intros Hs Hi Ha Hm Hr Hf Hc Hrun. destruct (runOnline_run none none fuel now scan w r expired w1 stats e w') as (Hact & _ & _ & H); try done.
  split; [done|]. destruct r as [[[groups np] sg]|er]; [|done]. by destruct H as (_ & ? & ? & _).
Qed.


(** Reconciliation and collection together.  After a successful online run, what
    the policy of a registered head asks for is there: the block of every pin it
    desires, and below a recursive one everything reachable by links. *)
Theorem gc_keeps_policy fuel now scan (w : W) stats w' name entry desired :
  sched_ok none none w -> epochs_inv (gw_store w) -> active (gw_store w) = None ->
  ledger_wf (kvOf w) -> reg_ok (gw_rec w) -> fetchers_ok g every none none ->
  run fuel now scan w = (stats, None, w') ->
  rc_heads (gw_rec w) !! name = Some entry -> en_withdrawal entry = None -> name <> StagingHead ->
  fst (desiredOf cfg ManifestTip name entry (gw_rec w)) = Ok desired -> NoDup (pinKey <$> desired) ->
  forall p c, p ∈ desired -> pr_CID p = Some c ->
    is_Some (stored (base (gw_store w')) (cidHash c)) /\
    (pr_Recursive p = true -> forall c', rtc edge c c' -> is_Some (stored (base (gw_store w')) (cidHash c'))).
Proof.
  intros Hs Hi Ha Hm Hr Hf Hrun He Hw Hns Hd Hnd p c Hp Hpc.
  destruct (cut now w) as [[r expired] w1] eqn:Hc.
  destruct (runOnline_run none none fuel now scan w r expired w1 stats None w') as (_ & _ & _ & H); try done.
  destruct r as [[[groups np] sg]|er]; [|by destruct H]. destruct H as (Hok & _ & Hlive & _). specialize (Hlive eq_refl).
  destruct (co_heads _ _ _ _ Hok name entry He Hw) as (_ & desired' & Hd' & Hall). rewrite Hd in Hd'. injection Hd' as <-.
  assert (Hwant : want desired (pr_Purpose p) c = Some (pr_Recursive p)).
  { unfold want. pose proof (wantMap_in desired p Hnd Hp) as Hl. unfold pinKey in Hl. rewrite Hpc in Hl. unfold key. by rewrite Hl. }
  destruct (Hall Hnd Hns _ _ _ Hwant) as (grp & pin & Hg & Hpin & Hcid & Hrec).
  assert (Hroot : pr_Recursive p = true -> forall c', rtc edge c c' -> is_Some (stored (base (gw_store w')) (cidHash c'))).
  { intros Hrp c' Hrtc. apply Hlive. exists grp. split; [done|]. right. exists pin, c. rewrite Hrec. done. }
  split; [|done]. destruct (pr_Recursive p) eqn:Er; [by apply Hroot; [|apply rtc_refl]|].
  apply Hlive. exists grp. split; [done|]. left. by exists pin.
Qed.

(** ** Scrub *)

Lemma scrubLoop_run events st (w : W) st' w' :
  sched_ok none none w -> scrubLoop events st w = (st', None, w') ->
  wmoves every none none w w' /\ sb_Scanned st' = sb_Scanned st + len events /\
  forall ev, ev ∈ events -> exists k d, ev = SKey k /\ stored (base (gw_store w')) k = Some d /\ addresses (keyCid k) d.
Proof.
  revert st w. induction events as [|ev events IH]; intros st w Hs H; cbn [scrubLoop] in H;
    destruct (ctxErr w) as [[u|er] w1] eqn:E1; apply (gcCtxErr_run every none none) in E1 as [Hw1 _]; try done.
  { injection H as <- <-. split; [done|]. split; [unfold len; simpl; lia|]. by intros ? ?%not_elem_of_nil. }
  destruct ev as [k|er]; [|done]. destruct (step (onBase (vGet (keyCid k))) w1) as [[d|er] w2] eqn:E2; [|done].
  apply (step_read every none none) in E2 as [Hw2 (b & b' & Hb & Hst)]; [|by intros ? ? ? [-> _]%vGet_run|apply Hw1].
  apply vGet_run in Hb as [_ [Hd Ha]]. rewrite Hst in Hd. apply IH in H as (Hw3 & Hn & Hall); [|apply Hw2].
  split; [eapply wmoves_trans; [exact Hw1|by eapply wmoves_trans]|]. split; [rewrite Hn; unfold len; simpl; lia|].
  intros ev [->|Hin]%elem_of_cons; [|auto]. exists k, d. split; [done|]. split; [|done].
  change k with (cidHash (keyCid k)) at 1. by eapply evolves_content; [apply Hw3|..].
Qed.

(** A scrub that succeeds has validated every block the enumeration reported: the
    enumeration had no error, and each key is stored with bytes that hash to it.
    It counted each of them, and deleted nothing. *)
Theorem scrub_validates scan (w : W) st w' :
  sched_ok none none w -> Scrub scan w = (st, None, w') ->
  exists events, scan = Ok events /\ sb_Scanned st = len events /\
    (forall ev, ev ∈ events -> exists k d, ev = SKey k /\ stored (base (gw_store w')) k = Some d /\ addresses (keyCid k) d) /\
    (forall c d, addresses c d -> stored (base (gw_store w)) (cidHash c) = Some d ->
       stored (base (gw_store w')) (cidHash c) = Some d).
Proof.
  intros Hs H. unfold Scrub in H. destruct scan as [events|e]; [|done]. exists events. split; [done|].
  apply scrubLoop_run in H as (Hw & Hn & Hall); [|done]. split; [by rewrite Hn|]. split; [done|].
  intros c d Ha Hd. by eapply evolves_content; [apply Hw|..].
Qed.
End Runs.
