(* ===== verification/IngestCorrect.v ===== *)
(** What intake guarantees; the model is Ingest.v.

    The fan-out that verifies a body gives the answer of the single worker and
    ends; a refused body leaves no trace and is refused for its first bad blob; an
    accepted one is stored, catalogued and pinned and changes nothing else; a
    rebuild recovers the catalog.  What happens to an upload afterwards is in
    IngestLife.v. *)
From S2P Require Import Prelude Cid Schema Core Engine Enumerate Store Ledger Apply Policy Reconcile Staging Ingest GC GCCorrect GCRun.

Section Ingest.
Context `{MH : Multihash} `{CC : !CidBytes} `{KZ : Kzg}.

(** ** The serial verification *)

Lemma verifyLoop_errs body k m :
  firstError (map (fun j => errOf (verifyBlob body j)) (seq k m)) = errOf (verifyLoop body k m).
Proof.
  revert k. induction m as [|m IH]; intros k; [done|]. cbn [seq map firstError verifyLoop].
  destruct (verifyBlob body k) as [r|e]; [|done]. cbn [errOf firstError rbind]. rewrite IH.
  by destruct (verifyLoop body (S k) m).
Qed.

Lemma verifyLoop_out body k m rs :
  verifyLoop body k m = Ok rs -> map (fun j => outOf (verifyBlob body j)) (seq k m) = Some <$> rs.
Proof.
  revert k rs. induction m as [|m IH]; intros k rs; cbn [seq map verifyLoop]; [by intros [= <-]|].
  intros (r & Hr & H)%rbind_ok. apply rbind_ok in H as (rs' & H & [= <-]). rewrite Hr. simpl. by rewrite (IH _ _ H).
Qed.

Lemma verifyLoop_ok body k m rs :
  verifyLoop body k m = Ok rs <-> length rs = m /\ forall j r, rs !! j = Some r -> verifyBlob body (k + j) = Ok r.
Proof.
  revert k rs. induction m as [|m IH]; intros k rs; cbn [verifyLoop].
  { split; [by intros [= <-]|]. intros [E _]. by destruct rs. }
  split.
  - intros (r & Hr & H)%rbind_ok. apply rbind_ok in H as (rs' & [El H]%IH & [= <-]). split; [simpl; congruence|].
    intros [|j] r'; simpl; [intros [= <-]; by rewrite Nat.add_0_r|]. intros Hj. rewrite Nat.add_succ_r. by apply H.
  - intros [El H]. destruct rs as [|r rs]; [done|]. rewrite <- (Nat.add_0_r k) at 1. rewrite (H 0%nat r eq_refl). cbn [rbind].
    rewrite (proj2 (IH (S k) rs)); [done|]. split; [simpl in El; congruence|]. intros j r' Hj.
    rewrite Nat.add_succ_comm. by apply H.
Qed.

(** ** The fan-out *)

Section Fanout.
Context (body : bytes) (n : nat).

Definition slot_done (s : fanout) (k : nat) : Prop :=
  fo_errs s !! k = Some (errOf (verifyBlob body k)) /\ fo_out s !! k = Some (outOf (verifyBlob body k)).

Record fan_inv (s : fanout) : Prop := {
  fi_errs : length (fo_errs s) = n;
  fi_out : length (fo_out s) = n;
  fi_busy : forall i k, fo_workers s !! i = Some (Busy k) -> (k < n)%nat;
  fi_claimed : forall k, (k < n)%nat -> (k < fo_next s)%nat ->
    (exists i, fo_workers s !! i = Some (Busy k)) \/ slot_done s k;
  fi_returned : forall i, fo_workers s !! i = Some Returned -> (n <= fo_next s)%nat }.

Lemma fan_init w : fan_inv (fanout0 w n).
Proof.
  split; simpl; [apply repeat_length..| | |].
  - intros i k H%list_elem_of_lookup_2%list_elem_of_In%repeat_spec. done.
  - lia.
  - intros i H%list_elem_of_lookup_2%list_elem_of_In%repeat_spec. done.
Qed.

Lemma lookup_worker_insert {A} (l : list A) i j x y : <[i := x]> l !! j = Some y -> (j = i /\ y = x) \/ (j <> i /\ l !! j = Some y).
Proof.
  destruct (decide (i = j)) as [->|Hne].
  - intros H. left. split; [done|]. destruct (decide (j < length l)%nat) as [Hl|Hl].
    + rewrite list_lookup_insert_eq in H by done. congruence.
    + rewrite list_insert_ge in H by lia. apply lookup_lt_Some in H. lia.
  - rewrite list_lookup_insert_ne by done. by right.
Qed.

Lemma fan_step s s' : fan_inv s -> fstep body n s s' -> fan_inv s'.
Proof.
  intros [He Ho Hb Hc Hr] Hs. destruct Hs as [i s Hi Hn|i s Hi Hn|i k s Hi]; split; simpl; rewrite ?length_insert; try done.
  - intros j k [[-> [= ->]]|[_ ?]]%lookup_worker_insert; [done|by eapply Hb].
  - intros k Hk Hk'. destruct (decide (k = fo_next s)) as [->|Hne].
    + left. exists i. apply list_lookup_insert_eq. by eapply lookup_lt_Some.
    + destruct (Hc k Hk) as [[j Hj]|Hd]; [lia| |by right]. left. exists j. rewrite list_lookup_insert_ne; [done|]. congruence.
  - intros j [[-> [=]]|[_ ?]]%lookup_worker_insert. assert (n <= fo_next s)%nat by (by eapply Hr). lia.
  - intros j k [[-> [=]]|[_ ?]]%lookup_worker_insert. by eapply Hb.
  - intros k Hk Hk'. destruct (Hc k Hk) as [[j Hj]|Hd]; [lia| |by right]. left. exists j. rewrite list_lookup_insert_ne; [done|]. congruence.
  - intros j _. lia.
  - intros j k' [[-> [=]]|[_ ?]]%lookup_worker_insert. by eapply Hb.
  - assert (Hk : (k < n)%nat) by (by eapply Hb). intros k' Hk1 Hk2. destruct (decide (k' = k)) as [->|Hne].
    + right. split; simpl; apply list_lookup_insert_eq; lia.
    + destruct (Hc k' Hk1 Hk2) as [[j Hj]|[Hd1 Hd2]].
      * left. exists j. rewrite list_lookup_insert_ne; [done|]. congruence.
      * right. split; simpl; rewrite list_lookup_insert_ne by done; done.
  - intros j [[-> [=]]|[_ ?]]%lookup_worker_insert. by eapply Hr.
Qed.

(** Every step uses up one unit. *)
Definition worker_weight (x : worker) : nat := match x with Idle => 1 | Busy _ => 2 | Returned => 0 end.
Definition weight (l : list worker) : nat := fold_right (fun x m => worker_weight x + m)%nat 0%nat l.
Definition fan_measure (s : fanout) : nat := weight (fo_workers s) + 2 * (n - fo_next s).

Lemma weight_insert l i x y : l !! i = Some x -> (weight (<[i := y]> l) + worker_weight x = weight l + worker_weight y)%nat.
Proof.
  revert i. induction l as [|z l IH]; intros [|i]; simpl; try done; [intros [= ->]; lia|].
  intros H%IH. lia.
Qed.

Lemma fan_decreases s s' : fstep body n s s' -> (fan_measure s' < fan_measure s)%nat.
Proof.
  unfold fan_measure. intros [i s1 Hi Hn|i s1 Hi Hn|i k s1 Hi]; simpl;
    [pose proof (weight_insert _ _ _ (Busy (fo_next s1)) Hi)|pose proof (weight_insert _ _ _ Returned Hi)|
     pose proof (weight_insert _ _ _ Idle Hi)]; simpl in *; lia.
Qed.

Lemma fan_progress s : (exists s', fstep body n s s') \/ Forall (eq Returned) (fo_workers s).
Proof.
  destruct (decide (Exists (fun x => x <> Returned) (fo_workers s))) as [Hx|Hx].
  - left. apply Exists_exists in Hx as (x & [i Hi]%list_elem_of_lookup_1 & Hx). destruct x as [|k|]; [|eexists; by eapply f_verify|done].
    destruct (decide (fo_next s < n)%nat); eexists; [by eapply f_claim|eapply f_return; [done|lia]].
  - right. apply Forall_forall. intros x Hin. destruct (decide (x = Returned)); [done|]. exfalso. apply Hx, Exists_exists. eauto.
Qed.

Lemma fan_reach w s : rtc (fstep body n) (fanout0 w n) s -> fan_inv s.
Proof.
  intros H. assert (Hi := fan_init w). induction H as [|a b c Hab _ IH]; [done|]. apply IH. by eapply fan_step.
Qed.

Lemma slots_all {A} (f : nat -> A) (l : list A) :
  length l = n -> (forall k, (k < n)%nat -> l !! k = Some (f k)) -> l = map f (seq 0 n).
Proof.
  intros Hl H. apply list_eq. intros k. change (map f (seq 0 n)) with (f <$> seq 0 n).
  rewrite list_lookup_fmap. destruct (decide (k < n)%nat).
  - rewrite H by done. by rewrite lookup_seq_lt by done.
  - rewrite lookup_ge_None_2 by lia. by rewrite lookup_seq_ge by lia.
Qed.

Lemma fan_final w s :
  (0 < w)%nat -> length (fo_workers s) = w -> fan_inv s -> Forall (eq Returned) (fo_workers s) ->
  fo_errs s = map (fun k => errOf (verifyBlob body k)) (seq 0 n) /\
  fo_out s = map (fun k => outOf (verifyBlob body k)) (seq 0 n).
Proof.
  intros Hw Hl [He Ho Hb Hc Hr] Hall. rewrite Forall_forall in Hall.
  assert (Hd : forall k, (k < n)%nat -> slot_done s k).
  { intros k Hk. destruct (fo_workers s) as [|x ws] eqn:E; [simpl in Hl; lia|].
    assert (x = Returned) as -> by (symmetry; apply Hall; by left).
    assert (n <= fo_next s)%nat by (apply (Hr 0%nat); by rewrite ?E).
    destruct (Hc k Hk) as [[i Hi]|?]; [lia| |done]. apply list_elem_of_lookup_2, Hall in Hi. done. }
  split; apply slots_all; try done; intros k Hk; apply Hd; done.
Qed.

Lemma fan_workers w s : rtc (fstep body n) (fanout0 w n) s -> length (fo_workers s) = w.
Proof.
  intros H. assert (Hl : length (fo_workers (fanout0 w n)) = w) by apply repeat_length.
  induction H as [|a b c Hab _ IH]; [done|]. apply IH. rewrite <- Hl. by destruct Hab; simpl; rewrite length_insert.
Qed.

Lemma fan_bounded m s s' : nsteps (fstep body n) m s s' -> (m + fan_measure s' <= fan_measure s)%nat.
Proof. induction 1 as [|m a b c Hab _ IH]; [lia|]. apply fan_decreases in Hab. lia. Qed.

Lemma weight_idle w : weight (repeat Idle w) = w.
Proof. induction w as [|w IH]; simpl; [done|]. by rewrite IH. Qed.
End Fanout.

(** The fan-out is the single worker.  However the workers are scheduled, no run
    of them is longer than two steps per blob and one per worker, a run that
    cannot go on has every worker returned, and then the scan of the error slots
    and the output slots are what the serial loop computes, the index of the
    refused blob included. *)
Theorem verify_fanout_serial body n w s :
  (0 < w)%nat -> rtc (fstep body n) (fanout0 w n) s ->
  (forall m, nsteps (fstep body n) m (fanout0 w n) s -> (m <= w + 2 * n)%nat) /\
  ((exists s', fstep body n s s') \/ Forall (eq Returned) (fo_workers s)) /\
  (Forall (eq Returned) (fo_workers s) ->
     firstError (fo_errs s) = errOf (verify body n) /\
     forall rs, verify body n = Ok rs -> fo_out s = Some <$> rs).
Proof.
  intros Hw H. split; [|split].
  - intros m Hm%fan_bounded. unfold fan_measure in Hm at 2. simpl in Hm. rewrite weight_idle in Hm. lia.
  - apply fan_progress.
  - intros Hall. destruct (fan_final body n w s) as [-> ->]; [done|by eapply fan_workers|by eapply fan_reach|done|].
    split; [apply verifyLoop_errs|]. intros rs Hrs. by apply verifyLoop_out.
Qed.

(** ** The blobs of a body *)

Definition blobs_in (body : bytes) : nat := Z.to_nat (len body / BlobSize).

Lemma blobAt_len body k : (k < blobs_in body)%nat -> len (blobAt body k) = BlobSize.
Proof.
  unfold blobs_in, blobAt, len. intros Hk. rewrite length_take, length_drop.
  assert (0 < BlobSize) by done. pose proof (Z.mul_div_le (Z.of_nat (length body)) BlobSize ltac:(done)).
  assert (Z.of_nat k + 1 <= Z.of_nat (length body) / BlobSize) by lia.
  assert ((Z.of_nat k + 1) * BlobSize <= Z.of_nat (length body)) by nia. lia.
Qed.

Lemma BlobCID_ok d : len d = BlobSize -> exists c, BlobCID d = Ok (Some c) /\ v1sha cid_Raw c /\ addresses c d.
Proof.
  intros Hl. unfold BlobCID. rewrite Hl. cbn [negb]. rewrite Z.eqb_refl. cbn [negb]. unfold sumWith, blobPrefix.
  destruct (prefix_sum _ d) as [c|] eqn:E; [|by rewrite prefix_sum_sha256 in E by auto].
  exists c. split; [done|]. eapply v1sha_sum; [|done]. auto.
Qed.

(** [r] is the identity of the blob [d], whose block has the CID [c]. *)
Definition identifies (d : bytes) (r : PutResult) (c : CidV) : Prop :=
  pt_CID r = Some c /\ blobVersionedHash d = Ok (pt_VH r) /\ BlobCID d = Ok (Some c) /\ addresses c d.

Lemma verifyBlob_ok body k : (k < blobs_in body)%nat ->
  match verifyBlob body k with
  | Ok r => exists c, identifies (blobAt body k) r c
  | Err e => exists why, e = EValidation (Z.of_nat k) why /\ is_ok (blobVersionedHash (blobAt body k)) = false
  end.
Proof.
  intros Hk. unfold verifyBlob. destruct (blobVersionedHash (blobAt body k)) as [vh|e] eqn:E; [|eauto].
  destruct (BlobCID_ok (blobAt body k)) as (c & Hc & _ & Ha); [by apply blobAt_len|]. rewrite Hc. exists c. done.
Qed.

Lemma verify_ok body out : verify body (blobs_in body) = Ok out ->
  length out = blobs_in body /\ forall k r, out !! k = Some r -> exists c, identifies (blobAt body k) r c.
Proof.
  intros [Hl H]%verifyLoop_ok. split; [done|]. intros k r Hk. pose proof (lookup_lt_Some _ _ _ Hk) as Hlt.
  specialize (H k r Hk). pose proof (verifyBlob_ok body k ltac:(lia)) as Hv. simpl in H. by rewrite H in Hv.
Qed.

Lemma verify_first_bad body k :
  (k < blobs_in body)%nat -> is_ok (blobVersionedHash (blobAt body k)) = false ->
  (forall j, (j < k)%nat -> is_ok (blobVersionedHash (blobAt body j)) = true) ->
  exists why, verify body (blobs_in body) = Err (EValidation (Z.of_nat k) why).
Proof.
  intros Hk Hbad Hpre. unfold verify. change (Z.of_nat k) with (Z.of_nat (0 + k)).
  assert (Hgen : forall m j, (j + m = blobs_in body)%nat -> (j <= k)%nat -> exists why, verifyLoop body j m = Err (EValidation (Z.of_nat k) why)).
  { induction m as [|m IH]; intros j Hj Hjk; [lia|]. cbn [verifyLoop]. pose proof (verifyBlob_ok body j ltac:(lia)) as Hv.
    destruct (decide (j = k)) as [->|Hne].
    - destruct (verifyBlob body k) as [r|e]; [|destruct Hv as (why & -> & _); by exists why].
      destruct Hv as (c & _ & Hv & _). by rewrite Hv in Hbad.
    - destruct (verifyBlob body j) as [r|e]; [|destruct Hv as (why & _ & Hv); by rewrite Hpre in Hv by lia].
      cbn [rbind]. destruct (IH (S j)) as [why ->]; [lia..|]. by exists why. }
  apply Hgen; lia.
Qed.

Lemma verify_all body :
  (forall k, (k < blobs_in body)%nat -> is_ok (blobVersionedHash (blobAt body k)) = true) ->
  exists out, verify body (blobs_in body) = Ok out.
Proof.
  intros Hall. unfold verify. assert (Hgen : forall m j, (j + m = blobs_in body)%nat -> exists out, verifyLoop body j m = Ok out).
  { induction m as [|m IH]; intros j Hj; [by exists []|]. cbn [verifyLoop]. pose proof (verifyBlob_ok body j ltac:(lia)) as Hv.
    destruct (verifyBlob body j) as [r|e]; [|destruct Hv as (why & _ & Hv); by rewrite Hall in Hv by lia].
    cbn [rbind]. destruct (IH (S j)) as [out ->]; [lia|]. by exists (r :: out). }
  apply Hgen. lia.
Qed.

(** ** The writes *)

Context {B : Type} `{BA : !BaseStore B} `{BO : !BaseStoreOk B} {K : Type} `{PB : !Pebble K} `{PO : !PebbleOk K}.
Local Abbreviation Epochs := (@BlockstoreEpochs MH B).
Local Abbreviation World := (@IW MH B K).
Local Abbreviation Key := (MhDigest Digest).

Definition live_world (w : World) : Prop := base_live (base (iw_store w)) /\ kv_live (iw_kv w).

Lemma putOnBlocks_run {A} (m : M Epochs A) (w : World) x w' :
  onBlocks m w = (x, w') -> exists s, m (iw_store w) = (x, s) /\ w' = mkIW s (iw_kv w).
Proof. unfold onBlocks. destruct (m (iw_store w)) as [y s]. intros [= <- <-]. eauto. Qed.
Lemma onCatalog_run {A} (m : M K A) (w : World) x w' :
  onCatalog m w = (x, w') -> exists s, m (iw_kv w) = (x, s) /\ w' = mkIW (iw_store w) s.
Proof. unfold onCatalog. destruct (m (iw_kv w)) as [y s]. intros [= <- <-]. eauto. Qed.

Lemma checkCtx_run (w : World) x w' : checkCtx w = (x, w') -> w' = w /\ (live_world w -> x = Ok tt).
Proof.
  intros (s & H & ->)%putOnBlocks_run. unfold onBase in H. destruct (base_ctx (base (iw_store w))) as [y b] eqn:E.
  injection H as <- <-. pose proof (base_ctx_spec _ _ _ E) as [-> _]. split; [by destruct w as [[]]|].
  intros [Hl _]. apply base_ctx_live in Hl. by rewrite E in Hl.
Qed.

Lemma app_Put_run (Q : Key -> Prop) c d (s : Epochs) x s' :
  addresses c d -> ~ Q (cidHash c) -> app_Put c d s = (x, s') ->
  evolves every Q Q s s' /\ (forall k, k <> cidHash c -> stored (base s') k = stored (base s) k) /\ (base_live (base s) -> base_live (base s') /\ x = Ok tt) /\
  (x = Ok tt -> stored (base s') (cidHash c) = Some d /\ (epochs_inv s -> is_Some (active s) -> protects s' (cidHash c))).
Proof.
  intros Ha Hq H. split; [|split; [|split]].
  - pose proof (honest_evolves every Q Q (APut c d) s (conj Ha (conj Hq Hq))) as He. simpl in He. by rewrite H in He.
  - intros k Hk. apply withKey_run in H as (b & [Hf _]%base_put_spec & <- & _). by apply Hf.
  - intros Hl. apply withKey_run in H as (b & Hm & <- & _). pose proof (base_put_live c d _ Hl) as Hok.
    pose proof (base_live_put c d _ Hl) as Hn. rewrite Hm in Hok, Hn. done.
  - intros ->. apply withKey_run in H as (b & Hm & <- & _ & _ & _ & _ & Hp). apply base_put_spec in Hm as [_ Hm].
    split; [done|]. by apply (Hp tt).
Qed.

(** [s'] has the pins of [s]. *)
Definition same_pins (s s' : K) : Prop :=
  (ledger_wf (kv s) -> ledger_wf (kv s')) /\ forall h p c, pin_at (kv s') h p c = pin_at (kv s) h p c.

Lemma catalog_same_pins s s' vh v : kv s' = <[catalogKey vh := v]> (kv s) -> same_pins s s'.
Proof.
  intros E. unfold same_pins. rewrite E. split.
  - intros Hm rest x Hx. apply (Hm rest x). by rewrite lookup_insert_ne in Hx.
  - intros. apply pin_at_frame. intros rest. by rewrite lookup_insert_ne.
Qed.

Lemma Catalog_Put_run vh c s x s' :
  Catalog_Put vh (Some c) s = (x, s') ->
  same_pins s s' /\ (forall key, key <> catalogKey vh -> kv s' !! key = kv s !! key) /\
  (kv_live s -> kv_live s' /\ x = Ok tt) /\ (x = Ok tt -> kv s' = <[catalogKey vh := cid_bytes c]> (kv s)).
Proof.
  intros H. unfold Catalog_Put in H. apply bind_run in H as [(u & s1 & Hc & H)|(e & Hc & ->)].
  - pose proof (kv_ctx_spec _ _ _ Hc) as [-> _]. split; [|split; [|split]].
    + pose proof (kv_set_spec _ _ _ _ _ H) as Hs. destruct x; [by eapply catalog_same_pins|].
      destruct Hs as [_ [E|E]]; [|by eapply catalog_same_pins]. unfold same_pins. by rewrite E.
    + intros key Hne. pose proof (kv_set_spec _ _ _ _ _ H) as Hs.
      assert (E : kv s' = kv s \/ kv s' = <[catalogKey vh := cid_bytes c]> (kv s)) by (destruct x; [by right|by destruct Hs]).
      destruct E as [->| ->]; [done|]. by rewrite lookup_insert_ne.
    + intros Hl. pose proof (kv_live_ok s Hl) as (_ & _ & Hs & _). pose proof (kv_live_next s Hl) as (_ & Hn & _).
      specialize (Hs (catalogKey vh) (cid_bytes c)). specialize (Hn (catalogKey vh) (cid_bytes c)).
      rewrite H in Hs, Hn. split; [done|]. by destruct x as [[]|].
    + intros ->. by apply kv_set_spec in H.
  - pose proof (kv_ctx_spec _ _ _ Hc) as [-> _]. split; [done|]. split; [done|]. split; [|done]. intros Hl.
    pose proof (kv_live_ok s Hl) as (Hs & _). by rewrite Hc in Hs.
Qed.

Lemma same_pins_trans a b c : same_pins a b -> same_pins b c -> same_pins a c.
Proof. intros [? H1] [? H2]. split; [auto|]. intros. by rewrite H2, H1. Qed.

(** The catalog says what the results [out] say, where they agree, and what it
    said before elsewhere. *)
Definition catalogued (out : list PutResult) (s s' : K) : Prop :=
  (forall r c, r ∈ out -> (forall r', r' ∈ out -> pt_VH r' = pt_VH r -> pt_CID r' = Some c) ->
     kv s' !! catalogKey (pt_VH r) = Some (cid_bytes c)) /\
  (forall vh, vh ∉ pt_VH <$> out -> kv s' !! catalogKey vh = kv s !! catalogKey vh).

Lemma catalogued_cons r c out s s1 s' :
  pt_CID r = Some c -> kv s1 = <[catalogKey (pt_VH r) := cid_bytes c]> (kv s) -> catalogued out s1 s' -> catalogued (r :: out) s s'.
Proof.
  intros Hc Hs [H1 H2]. split.
  - intros r' c' Hr Hall. destruct (decide (pt_VH r' ∈ pt_VH <$> out)) as [(r2 & E & Hin)%list_elem_of_fmap|Hno].
    + rewrite E. apply H1; [done|]. intros r3 H3 E3. apply Hall; [by right|congruence].
    + rewrite H2 by done. apply elem_of_cons in Hr as [->|Hr].
      * rewrite Hs, lookup_insert_eq. specialize (Hall r ltac:(by left) eq_refl). congruence.
      * exfalso. apply Hno. apply list_elem_of_fmap. eauto.
  - intros vh Hno. rewrite fmap_cons, not_elem_of_cons in Hno. destruct Hno as [Hne Hno]. rewrite H2 by done.
    rewrite Hs, lookup_insert_ne; [done|]. intros E%catalogKey_inj. congruence.
Qed.

(** The key of no block of the results. *)
Definition no_block (out : list PutResult) (k : Key) : Prop :=
  forall r c, r ∈ out -> pt_CID r = Some c -> cidHash c <> k.
(** The key of no catalog entry of the results. *)
Definition no_entry (out : list PutResult) (key : bytes) : Prop := forall r, r ∈ out -> key <> catalogKey (pt_VH r).

Lemma storeLoop_run (Q : Key -> Prop) body k out (w : World) x w' :
  (forall j r, out !! j = Some r -> exists c, identifies (blobAt body (k + j)) r c) ->
  (forall key, Q key -> no_block out key) ->
  storeLoop body k out w = (x, w') ->
  evolves every Q Q (iw_store w) (iw_store w') /\ same_pins (iw_kv w) (iw_kv w') /\
  ((forall key, no_block out key -> stored (base (iw_store w')) key = stored (base (iw_store w)) key) /\
   (forall key, no_entry out key -> kv (iw_kv w') !! key = kv (iw_kv w) !! key)) /\
  (live_world w -> live_world w' /\ x = Ok tt) /\
  (x = Ok tt ->
     (forall j r c, out !! j = Some r -> pt_CID r = Some c ->
        stored (base (iw_store w')) (cidHash c) = Some (blobAt body (k + j)) /\
        (epochs_inv (iw_store w) -> is_Some (active (iw_store w)) -> protects (iw_store w') (cidHash c))) /\
     catalogued out (iw_kv w) (iw_kv w')).
Proof.
  revert k w. induction out as [|r out IH]; intros k w Hid HQ H; cbn [storeLoop] in H.
  { injection H as <- <-. split; [done|]. split; [done|]. split; [done|]. split; [done|]. intros _. split; [done|].
    split; [by intros ? ? ?%not_elem_of_nil|done]. }
  destruct (Hid 0%nat r eq_refl) as (c & Hc & Hvh & Hbc & Ha). rewrite Nat.add_0_r in Ha.
  apply bind_run in H as [(u & w1 & H1 & H)|(e & H1 & ->)]; apply checkCtx_run in H1 as [-> Hx].
  2: { split; [done|]. split; [done|]. split; [done|]. split; [intros Hl; by specialize (Hx Hl)|done]. }
  assert (Hq : ~ Q (cidHash c)) by (intros Hq; by apply (HQ _ Hq r c); [left|..]).
  assert (Hcons : forall key, no_block (r :: out) key -> key <> cidHash c /\ no_block out key).
  { intros key Hn. split; [intros ->; by apply (Hn r c); [left|..]|]. intros r' c' Hr. apply Hn. by right. }
  assert (Hentry : forall key, no_entry (r :: out) key -> key <> catalogKey (pt_VH r) /\ no_entry out key).
  { intros key Hn. split; [apply Hn; by left|]. intros r' Hr. apply Hn. by right. }
  rewrite Hc in H. apply bind_run in H as [([] & w1 & H1 & H)|(e & H1 & ->)];
    apply putOnBlocks_run in H1 as (s1 & H1 & ->); apply (app_Put_run Q) in H1 as (Hev & Hf1 & Hl1 & Hst); try done.
  2: { split; [done|]. split; [done|]. split; [split; [intros key [Hn _]%Hcons; by apply Hf1|done]|].
       split; [intros [Hl _]; by destruct (Hl1 Hl)|done]. }
  apply bind_run in H as [([] & w2 & H2 & H)|(e & H2 & ->)];
    apply onCatalog_run in H2 as (s2 & H2 & ->); simpl in H2; apply Catalog_Put_run in H2 as (Hsp & Hf2 & Hl2 & Hkv).
  2: { split; [done|]. split; [done|].
       split; [split; [intros key [Hn _]%Hcons; by apply Hf1|intros key [Hn _]%Hentry; by apply Hf2]|].
       split; [intros [_ Hl]; by destruct (Hl2 Hl)|done]. }
  apply IH in H as (Hev' & Hsp' & [Hf3 Hf4] & Hl3 & Hpost); simpl in *.
  3: { intros key Hk. by apply Hcons, HQ. }
  2: { intros j r' Hj. specialize (Hid (S j) r' Hj). by rewrite Nat.add_succ_r in Hid. }
  split; [by etransitivity|]. split; [by eapply same_pins_trans|]. split.
  { split; [intros key [Hn Hn']%Hcons; by rewrite Hf3, Hf1|intros key [Hn Hn']%Hentry; by rewrite Hf4, Hf2]. }
  split.
  { intros [Hb Hk]. apply Hl3. split; simpl; [by apply Hl1|by apply Hl2]. }
  intros Hok. destruct (Hpost Hok) as [Hall Hcat]. split; [|by eapply catalogued_cons; [..|exact Hcat]; [|auto]].
  intros [|j] r' c' Hj Hc'; simpl in Hj.
  - injection Hj as <-. rewrite Hc in Hc'. injection Hc' as <-. rewrite Nat.add_0_r. destruct (Hst eq_refl) as [Hs Hp].
    split; [eapply evolves_content; [exact Hev'|done..]|]. intros Hi Hac. apply (ev_protects _ _ _ _ _ Hev'). auto.
  - rewrite Nat.add_succ_r. destruct (Hall j r' c' Hj Hc') as [Hs Hp]. split; [done|]. intros Hi Hac. apply Hp.
    + by apply (ev_inv _ _ _ _ _ Hev).
    + by rewrite (ev_active _ _ _ _ _ Hev).
Qed.

(** The key of no row of a batch of pins. *)
Definition no_row (h : string) (pins : list PinEntry) (key : bytes) : Prop :=
  forall q c, q ∈ pins -> pin_CID q = Some c -> key <> ledgerKey h (Purpose q) c.

Lemma catalog_no_row h pins vh : no_row h pins (catalogKey vh).
Proof. intros q c _ _. rewrite ledgerKey_split. apply catalogKey_not_ledger. Qed.

(** A batch of pins leaves every other row alone. *)
Lemma stagePins_other (h : string) (op : bytes -> PinEntry -> kvop) (pins : list PinEntry) (ops : list kvop) (m : gmap bytes bytes) key :
  (forall k q, exists v, op k q = KSet k v) -> no_row h pins key -> stagePins h op pins = Ok ops ->
  kv_applys ops m !! key = m !! key.
Proof.
  intros Hop. unfold kv_applys. revert ops m. induction pins as [|q pins IH]; intros ops m Hn; cbn [stagePins]; [by intros [= <-]|].
  intros ([] & _ & H)%rbind_ok. destruct (pin_CID q) as [c|] eqn:Hc; [|done]. apply rbind_ok in H as (ops' & H & [= <-]).
  simpl. rewrite (IH ops' _ (fun q' c' Hin => Hn q' c' (list_elem_of_further _ _ _ Hin)) H).
  destruct (Hop (ledgerKey h (Purpose q) c) q) as [v ->]. simpl. rewrite lookup_insert_ne; [done|].
  intros E. apply (Hn q c); [by left|done..].
Qed.

Lemma AddBatch_other h pins s x s' key :
  no_row h pins key -> AddBatch h pins s = (x, s') -> kv s' !! key = kv s !! key.
Proof.
  intros Hno H. unfold AddBatch in H.
  apply bind_run in H as [(u & s1 & Hc & H)|(e & Hc & ->)]; apply kv_ctx_spec in Hc as [-> _]; [|done].
  destruct (len pins =? 0); [by injection H as <- <-|].
  apply bind_run in H as [([] & s1 & Hc & H)|(e & Hc & ->)]; apply lift_run in Hc as [_ ->]; [|done].
  apply bind_run in H as [(ops & s1 & Ho & H)|(e & Ho & ->)]; apply lift_run in Ho as [Ho ->]; [|done].
  assert (Ha : kv_applys ops (kv s) !! key = kv s !! key) by (eapply stagePins_other; [|done|by symmetry]; eauto).
  apply kv_commit_spec in H. destruct x; [by rewrite H|]. destruct H as [_ [-> | ->]]; done.
Qed.

Lemma AddBatch_live h pins s x s' :
  kv_live s -> checkName h = Ok tt -> Forall (fun q => checkName (Purpose q) = Ok tt /\ is_Some (pin_CID q)) pins ->
  AddBatch h pins s = (x, s') -> x = Ok tt.
Proof.
  intros Hl Hh Hall H. pose proof (kv_live_ok s Hl) as (Hc & _ & _ & _ & Hco & _). unfold AddBatch in H.
  apply bind_run in H as [(u & s1 & H1 & H)|(e & H1 & ->)]; [|by rewrite H1 in Hc].
  apply kv_ctx_spec in H1 as [-> _]. destruct (len pins =? 0); [by injection H as <- <-|]. rewrite Hh in H.
  unfold bind at 1, lift at 1 in H.
  assert (Hst : exists ops, stagePins h (fun k p => KSet k (encodePinValue (Recursive p) (Expiry p))) pins = Ok ops).
  { clear H. induction Hall as [|q pins [Hq [c Hc']] _ [ops IH]]; [by exists []|]. cbn [stagePins]. rewrite Hq, Hc', IH. by eexists. }
  destruct Hst as [ops Hst]. rewrite Hst in H. unfold bind, lift in H. specialize (Hco ops). rewrite H in Hco. by destruct x as [[]|].
Qed.

Lemma Staging_Pin_run st now cids s x s' :
  ledger_wf (kv s) -> time_ok (now + st_ttl st) -> Staging_Pin st now cids s = (x, s') ->
  ledger_wf (kv s') /\
  (forall h p c, (h, p) <> (StagingHead, PurposeStaging) \/ Some c ∉ cids -> pin_at (kv s') h p c = pin_at (kv s) h p c) /\
  (forall key, (forall c, Some c ∈ cids -> key <> ledgerKey StagingHead PurposeStaging c) -> kv s' !! key = kv s !! key) /\
  (x = Ok tt -> forall c, Some c ∈ cids -> pin_at (kv s') StagingHead PurposeStaging c = Some (false, storedTime (now + st_ttl st))) /\
  (kv_live s -> Forall is_Some cids -> x = Ok tt).
Proof.
  intros Hm Ht H. unfold Staging_Pin in H. destruct (len cids =? 0) eqn:E.
  { injection H as <- <-. destruct cids; [|by apply Z.eqb_eq in E]. repeat split; try done. by intros _ c ?%not_elem_of_nil. }
  pose proof H as Hb. apply AddBatch_run in Hb as [Hw Hb]; [|done|by apply Forall_fmap, Forall_true].
  assert (Hadd : forall h p c, added StagingHead (stagingPin (now + st_ttl st) <$> cids) h p c (pin_at (kv s) h p c) =
     if decide (h = StagingHead /\ p = PurposeStaging /\ Some c ∈ cids) then Some (false, storedTime (now + st_ttl st)) else pin_at (kv s) h p c).
  { intros. by apply added_uniform. }
  split; [done|]. split; [|split; [|split]].
  - intros h p c Hne. assert (Ha : added StagingHead (stagingPin (now + st_ttl st) <$> cids) h p c (pin_at (kv s) h p c) = pin_at (kv s) h p c).
    { rewrite Hadd, decide_False; [done|]. intros (-> & -> & Hin). by destruct Hne. }
    destruct x; [by rewrite Hb|]. destruct Hb as [Hb|Hb]; rewrite Hb; done.
  - intros key Hno. eapply AddBatch_other; [|exact H]. intros q c (o & -> & Ho)%list_elem_of_fmap Hc. simpl in Hc |- *. subst o. by apply Hno.
  - intros -> c Hc. rewrite Hb, Hadd. by rewrite decide_True.
  - intros Hl Hall. refine (AddBatch_live StagingHead _ s x s' Hl _ _ H); [reflexivity|]. rewrite Forall_fmap.
    eapply Forall_impl; [exact Hall|]. intros o Ho. split; [reflexivity|exact Ho].
Qed.

(** ** Puts *)

(** What an accepted body has left behind. *)
Record put_done (staging : option Staging.Staging) (now : Time) (body : bytes) (out : list PutResult) (w w' : World) : Prop := {
  pd_count : length out = blobs_in body;
  pd_blobs : forall k r, out !! k = Some r -> exists c, identifies (blobAt body k) r c /\
    stored (base (iw_store w')) (cidHash c) = Some (blobAt body k) /\
    (epochs_inv (iw_store w) -> is_Some (active (iw_store w)) -> protects (iw_store w') (cidHash c)) /\
    (forall st, staging = Some st ->
       pin_at (kv (iw_kv w')) StagingHead PurposeStaging c = Some (false, storedTime (now + st_ttl st)));
  pd_catalog : catalogued out (iw_kv w) (iw_kv w');
  pd_store : evolves every (no_block out) (no_block out) (iw_store w) (iw_store w');
  pd_blocks : forall k, no_block out k -> stored (base (iw_store w')) k = stored (base (iw_store w)) k;
  pd_pins : forall h p c, (h, p) <> (StagingHead, PurposeStaging) \/ Some c ∉ pt_CID <$> out ->
    pin_at (kv (iw_kv w')) h p c = pin_at (kv (iw_kv w)) h p c;
  pd_rows : forall key, no_entry out key ->
    (forall st c, staging = Some st -> Some c ∈ pt_CID <$> out -> key <> ledgerKey StagingHead PurposeStaging c) ->
    kv (iw_kv w') !! key = kv (iw_kv w) !! key;
  pd_wf : ledger_wf (kv (iw_kv w')) }.

Definition ttl_ok (staging : option Staging.Staging) (now : Time) : Prop :=
  forall st, staging = Some st -> time_ok (now + st_ttl st).

Lemma PutBlobs_run staging now body (w : World) x w' :
  ledger_wf (kv (iw_kv w)) -> ttl_ok staging now -> PutBlobs staging now body w = (x, w') ->
  (live_world w -> len body mod BlobSize = 0 ->
     (forall k, (k < blobs_in body)%nat -> is_ok (blobVersionedHash (blobAt body k)) = true) -> is_ok x = true) /\
  forall out, x = Ok out -> put_done staging now body out w w'.
Proof.
  intros Hm Ht H. unfold PutBlobs in H. destruct (Z.eqb_spec (len body mod BlobSize) 0) as [Ez|Ez]; cbn [negb] in H.
  2: { injection H as <- <-. split; [done|done]. }
  fold (blobs_in body) in H.
  apply bind_run in H as [(out & w1 & H1 & H)|(e & H1 & ->)]; apply lift_run in H1 as [Hv ->].
  2: { split; [|done]. intros _ _ Hall. destruct (verify_all body Hall) as [out Ho]. by rewrite Ho in Hv. }
  pose proof (verify_ok body out (eq_sym Hv)) as [Hlen Hid].
  apply bind_run in H as [([] & w1 & H1 & H)|(e & H1 & ->)];
    apply (storeLoop_run (no_block out)) in H1 as (Hev & Hsp & [Hfb Hfe] & Hlv & Hpost); try done; try (intros; by apply Hid).
  2: { split; [|done]. intros Hl _ _. by destruct (Hlv Hl). }
  destruct (Hpost eq_refl) as [Hst Hcat]. destruct Hsp as [Hwf Hsp].
  assert (Hblobs : forall w2 : World, iw_store w2 = iw_store w1 ->
    (forall st, staging = Some st -> forall c, Some c ∈ pt_CID <$> out ->
       pin_at (kv (iw_kv w2)) StagingHead PurposeStaging c = Some (false, storedTime (now + st_ttl st))) ->
    (forall key, (forall st c, staging = Some st -> Some c ∈ pt_CID <$> out -> key <> ledgerKey StagingHead PurposeStaging c) ->
       kv (iw_kv w2) !! key = kv (iw_kv w1) !! key) ->
    (forall h p c, (h, p) <> (StagingHead, PurposeStaging) \/ Some c ∉ pt_CID <$> out ->
       pin_at (kv (iw_kv w2)) h p c = pin_at (kv (iw_kv w1)) h p c) ->
    ledger_wf (kv (iw_kv w2)) -> put_done staging now body out w w2).
  { intros w2 Es Hpin Hct Hps Hw2. split; rewrite ?Es; try done.
    - intros k r Hk. destruct (Hid k r Hk) as (c & Hc). exists c. split; [done|]. pose proof (proj1 Hc) as Ec.
      destruct (Hst k r c Hk Ec) as [Hs Hp]. split; [done|]. split; [done|]. intros st Est. apply (Hpin st Est).
      apply list_elem_of_fmap. exists r. split; [by symmetry|]. by eapply list_elem_of_lookup_2.
    - assert (Hck : forall vh, kv (iw_kv w2) !! catalogKey vh = kv (iw_kv w1) !! catalogKey vh).
      { intros vh. apply Hct. intros st c _ _. rewrite ledgerKey_split. apply catalogKey_not_ledger. }
      destruct Hcat as [H1 H2]. split; intros; rewrite Hck; auto.
    - intros h p c Hne. by rewrite Hps, Hsp.
    - intros key Hne Hno. rewrite Hct, Hfe; done. }
  assert (Hempty : (0 <? blobs_in body)%nat = false -> out = []).
  { intros E%Nat.ltb_ge. destruct out; [done|]. simpl in Hlen. lia. }
  destruct staging as [st|]; [destruct (0 <? blobs_in body)%nat eqn:En|].
  - apply bind_run in H as [([] & w2 & H1 & H)|(e & H1 & ->)]; apply onCatalog_run in H1 as (s2 & H1 & ->);
      apply Staging_Pin_run in H1 as (P1 & P2 & P4 & P3 & P5); try (by apply Hwf); try (by apply Ht).
    + injection H as <- <-. split; [done|]. intros out' [= <-]. apply Hblobs; try done; [intros st' [= <-]; by apply P3|].
      intros key Hno. apply P4. intros c Hc. by apply (Hno st c).
    + split; [|done]. intros Hl _ _. destruct (Hlv Hl) as [[_ Hlk] _]. specialize (P5 Hlk). assert (Err e = Ok tt) as [=].
      apply P5, Forall_fmap, Forall_forall. intros r [k Hk]%list_elem_of_lookup_1. destruct (Hid k r Hk) as (c & Hc & _). simpl. eauto.
  - injection H as <- <-. split; [done|]. intros out' [= <-]. rewrite (Hempty eq_refl) in *.
    apply Hblobs; try done; [by intros ? _ ? ?%not_elem_of_nil|by apply Hwf].
  - injection H as <- <-. split; [done|]. intros out' [= <-]. apply Hblobs; try done. by apply Hwf.
Qed.

(** C17: A body that is not whole blobs is refused, and a body with a blob that has no
    KZG commitment is refused for the first such blob; in both cases nothing has
    been written. *)
Theorem PutBlobs_refuses staging now body (w : World) :
  (len body mod BlobSize <> 0 -> exists why, PutBlobs staging now body w = (Err (EValidation (-1) why), w)) /\
  (len body mod BlobSize = 0 -> forall k, (k < blobs_in body)%nat ->
     is_ok (blobVersionedHash (blobAt body k)) = false ->
     (forall j, (j < k)%nat -> is_ok (blobVersionedHash (blobAt body j)) = true) ->
     exists why, PutBlobs staging now body w = (Err (EValidation (Z.of_nat k) why), w)).
Proof.
  unfold PutBlobs. split.
  - intros Hz. rewrite (proj2 (Z.eqb_neq _ _)) by done. by eexists.
  - intros Hz k Hk Hbad Hpre. rewrite Hz. cbn [negb Z.eqb]. fold (blobs_in body).
    destruct (verify_first_bad body k Hk Hbad Hpre) as [why Hv]. exists why. unfold bind at 1, lift. by rewrite Hv.
Qed.

(** C16: A body of canonical blobs is accepted when the stores do not fail, and an
    accepted put has done its work: the results are the identities of the blobs
    in body order, every block is stored (and protected, when a collection is
    running), the catalog resolves every versioned hash of the batch, and the
    batch is pinned in staging.  Nothing else changed: a block that is none of the
    batch is stored, or absent, as before and no more protected than before; a row
    of the catalog database that is neither a catalog entry nor a staging row of
    the batch is as before, which includes the staging pins of other uploads. *)
Theorem PutBlobs_stores staging now body (w : World) x w' :
  ledger_wf (kv (iw_kv w)) -> ttl_ok staging now -> PutBlobs staging now body w = (x, w') ->
  (live_world w -> len body mod BlobSize = 0 ->
     (forall k, (k < blobs_in body)%nat -> is_ok (blobVersionedHash (blobAt body k)) = true) -> is_ok x = true) /\
  forall out, x = Ok out -> put_done staging now body out w w'.
Proof. apply PutBlobs_run. Qed.

(** ** Rebuild *)

Section Rebuild.
(** The catalog entries the walk may write: at most one per versioned hash. *)
Context (G : VersionedHash -> CidV -> Prop) (HG : forall vh c c', G vh c -> G vh c' -> c = c').

(** What ResolveBlob answers. *)
Definition resolves (m : gmap bytes bytes) (vh : VersionedHash) (c : CidV) : Prop :=
  exists v, m !! catalogKey vh = Some v /\ cid_cast v = Some c.

Definition good_entry (e : Entry) : Prop := exists c, ce_Blob e = Some c /\ G (ce_VH e) c.

(** From [m] to [m'] only good entries were written, [l] among them. *)
Record upserted (l : list Entry) (m m' : gmap bytes bytes) : Prop := {
  up_in : forall vh c, G vh c -> mkCatalogEntry vh (Some c) ∈ l -> resolves m' vh c;
  up_kept : forall vh c, G vh c -> resolves m vh c -> resolves m' vh c;
  up_other : forall vh, (forall c, ~ G vh c) -> m' !! catalogKey vh = m !! catalogKey vh;
  up_ledger : forall rest, m' !! (prefixLedger :: rest) = m !! (prefixLedger :: rest) }.

Lemma upserted_nil m : upserted [] m m.
Proof. split; try done. by intros ? ? _ ?%not_elem_of_nil. Qed.

Lemma upserted_app l l' m m1 m2 : upserted l m m1 -> upserted l' m1 m2 -> upserted (l ++ l') m m2.
Proof.
  intros [A1 A2 A3 A4] [B1 B2 B3 B4]. split; intros.
  - match goal with H : _ ∈ _ ++ _ |- _ => apply elem_of_app in H as [?|?] end; auto.
  - auto.
  - rewrite B3, A3; done.
  - by rewrite B4.
Qed.

Lemma stageEntries_upserted l ops m :
  Forall good_entry l -> stageEntries l = Ok ops -> upserted l m (kv_applys ops m).
Proof.
  intros Hl. revert ops m. induction Hl as [|e l (c & Hc & Hg) _ IH]; intros ops m; cbn [stageEntries].
  { intros [= <-]. apply upserted_nil. }
  rewrite Hc. intros (ops' & H & [= <-])%rbind_ok. apply (upserted_app [e] l m (<[catalogKey (ce_VH e) := cid_bytes c]> m)); [|exact (IH ops' _ H)].
  split.
  - intros vh c' _ <-%list_elem_of_singleton. simpl in Hc |- *. injection Hc as <-. eexists. split; [apply lookup_insert_eq|apply cast_bytes].
  - intros vh c' Hg' Hm. destruct (decide (vh = ce_VH e)) as [->|Hne].
    + eexists. rewrite lookup_insert_eq. split; [done|]. rewrite cast_bytes. by rewrite (HG _ _ _ Hg Hg').
    + unfold resolves. rewrite lookup_insert_ne; [done|]. by intros ?%catalogKey_inj.
  - intros vh Hno. rewrite lookup_insert_ne; [done|]. intros <-%catalogKey_inj. by destruct (Hno c).
  - intros rest. by rewrite lookup_insert_ne.
Qed.

Lemma PutBatch_run pending s s' :
  Forall good_entry pending -> Catalog_PutBatch pending s = (Ok tt, s') -> upserted pending (kv s) (kv s') /\ (pending = [] -> kv s' = kv s).
Proof.
  intros Hp H. unfold Catalog_PutBatch in H. apply bind_run_ok in H as (u & s1 & Hc & H). apply kv_ctx_spec in Hc as [-> _].
  destruct (len pending =? 0) eqn:E.
  { injection H as <-. destruct pending; [split; [apply upserted_nil|done]|by apply Z.eqb_eq in E]. }
  apply bind_run_ok in H as (ops & s1 & [Ho ->]%lift_run & H). apply kv_commit_spec in H. rewrite H. split; [by apply stageEntries_upserted|].
  intros ->. done.
Qed.

(** The walk meets, under one of [keys], the blob with this identity. *)
Definition found (keys : list CidV) (b : B) (vh : VersionedHash) (c : CidV) : Prop :=
  exists key d, key ∈ keys /\ stored b (cidHash key) = Some d /\ blobVersionedHash d = Ok vh /\ BlobCID d = Ok (Some c).

Lemma found_same keys (b b' : B) vh c : stored b' = stored b -> found keys b vh c <-> found keys b' vh c.
Proof. intros E. unfold found. by rewrite E. Qed.

Lemma found_cons key keys (b : B) vh c :
  found (key :: keys) b vh c -> (exists d, stored b (cidHash key) = Some d /\ blobVersionedHash d = Ok vh /\ BlobCID d = Ok (Some c)) \/ found keys b vh c.
Proof. intros (k & d & [->|Hk]%elem_of_cons & ? & ? & ?); [left; eauto|right]. by exists k, d. Qed.

Lemma blobVersionedHash_len d vh : blobVersionedHash d = Ok vh -> len d = BlobSize.
Proof. unfold blobVersionedHash. by destruct (Z.eqb_spec (len d) BlobSize). Qed.

Record rebuilt (keys : list CidV) (pending : list Entry) (st st' : RebuildStats) (w w' : World) : Prop := {
  re_stored : stored (base (iw_store w')) = stored (base (iw_store w));
  re_found : forall vh c, found keys (base (iw_store w)) vh c \/ mkCatalogEntry vh (Some c) ∈ pending ->
    resolves (kv (iw_kv w')) vh c;
  re_kept : forall vh c, G vh c -> resolves (kv (iw_kv w)) vh c -> resolves (kv (iw_kv w')) vh c;
  re_other : forall vh, (forall c, ~ G vh c) -> kv (iw_kv w') !! catalogKey vh = kv (iw_kv w) !! catalogKey vh;
  re_ledger : forall rest, kv (iw_kv w') !! (prefixLedger :: rest) = kv (iw_kv w) !! (prefixLedger :: rest);
  re_scanned : rb_Scanned st' = rb_Scanned st + len keys;
  re_parts : rb_Blobs st' + rb_Skipped st' = rb_Blobs st + rb_Skipped st + len keys;
  re_intact : pending = [] -> (forall vh c, found keys (base (iw_store w)) vh c -> resolves (kv (iw_kv w)) vh c) ->
    rb_Upserted st' = rb_Upserted st /\ kv (iw_kv w') = kv (iw_kv w) }.

(** One key of the walk: [blob] is what it contributes, if anything. *)
Lemma rebuilt_step key keys pending pending1 l blob st st1 st' (w w1 w' : World) :
  stored (base (iw_store w1)) = stored (base (iw_store w)) ->
  upserted l (kv (iw_kv w)) (kv (iw_kv w1)) ->
  (forall vh c, G vh c -> mkCatalogEntry vh (Some c) ∈ pending -> mkCatalogEntry vh (Some c) ∈ l ++ pending1) ->
  (forall d vh c, stored (base (iw_store w)) (cidHash key) = Some d -> blobVersionedHash d = Ok vh -> BlobCID d = Ok (Some c) ->
     blob = Some (vh, c)) ->
  (forall vh c, blob = Some (vh, c) -> G vh c /\
     (mkCatalogEntry vh (Some c) ∈ l ++ pending1 \/ resolves (kv (iw_kv w1)) vh c)) ->
  Forall good_entry pending ->
  rb_Scanned st1 = rb_Scanned st + 1 -> rb_Blobs st1 + rb_Skipped st1 = rb_Blobs st + rb_Skipped st + 1 ->
  (pending = [] -> (forall vh c, blob = Some (vh, c) -> resolves (kv (iw_kv w)) vh c) ->
     pending1 = [] /\ rb_Upserted st1 = rb_Upserted st /\ kv (iw_kv w1) = kv (iw_kv w)) ->
  (forall vh c, blob = Some (vh, c) -> exists d, stored (base (iw_store w)) (cidHash key) = Some d /\ blobVersionedHash d = Ok vh /\ BlobCID d = Ok (Some c)) ->
  rebuilt keys pending1 st1 st' w1 w' -> rebuilt (key :: keys) pending st st' w w'.
Proof.
  intros Hs [U1 U2 U3 U4] Hpend Hblob Hin Hgood Hsc Hpa Hintact Hfound [R1 R2 R3 R4 R5 R6 R7 R8].
  assert (Hcat : forall vh c, G vh c -> mkCatalogEntry vh (Some c) ∈ l ++ pending1 -> resolves (kv (iw_kv w')) vh c).
  { intros vh c Hg [Hl|Hp]%elem_of_app; [apply R3; auto|apply R2; auto]. }
  split.
  - congruence.
  - intros vh c [[(d & Hd & Hv & Hc)|Hf]%found_cons|Hp].
    + destruct (Hin vh c) as [Hg [Hi|Hk]]; [by eapply Hblob|auto|apply R3; auto].
    + apply R2. left. by apply (found_same _ _ _ _ _ Hs).
    + apply Hcat; [|apply Hpend; [|done]]; rewrite Forall_forall in Hgood;
        destruct (Hgood _ Hp) as (c' & [= <-] & Hg); done.
  - intros vh c Hg Hk. apply R3; auto.
  - intros vh Hno. rewrite R4, U3; done.
  - intros rest. by rewrite R5, U4.
  - rewrite R6, Hsc. unfold len. simpl. lia.
  - rewrite R7, Hpa. unfold len. simpl. lia.
  - intros -> Hall. destruct Hintact as (-> & Hu & Hk); [done| |].
    { intros vh c Hb. apply Hall. destruct (Hfound vh c Hb) as (d & ? & ? & ?). exists key, d. split; [by left|done]. }
    destruct R8 as [E1 E2]; [done| |split; congruence].
    intros vh c Hf. rewrite Hk. apply Hall. apply (found_same _ _ _ _ _ Hs) in Hf. destruct Hf as (k & d & Hkk & ? & ? & ?).
    exists k, d. split; [by right|done].
Qed.

Lemma vGet_missing key (b b' : B) : vGet key b = (Err ENotFound, b') -> stored b (cidHash key) = None.
Proof.
  intros H. unfold vGet in H. apply bind_run in H as [(d & b1 & Hg & H)|(e & Hg & [= <-])].
  - destruct (prefix_sum (cid_prefix key) d); [|done]. case_bool_decide; done.
  - apply base_get_spec in Hg as [_ [?|[?|[_ ?]]]]; done.
Qed.

Lemma rebuildLoop_run keys pending st (w : World) st' w' :
  (forall vh c, found keys (base (iw_store w)) vh c -> G vh c) -> Forall good_entry pending ->
  rebuildLoop keys pending st w = (st', None, w') -> rebuilt keys pending st st' w w'.
Proof.
  revert pending st w. induction keys as [|key keys IH]; intros pending st w HF Hp H; cbn [rebuildLoop] in H.
  { destruct (onCatalog (Catalog_PutBatch pending) w) as [[[]|e] w1] eqn:E; [|done]. injection H as <- <-.
    apply onCatalog_run in E as (s & E & ->). apply PutBatch_run in E as [[U1 U2 U3 U4] Hsame]; [|done]. simpl. split; simpl; try done.
    - intros vh c [(? & ? & []%not_elem_of_nil & _)|Hin]. apply U1; [|done]. rewrite Forall_forall in Hp.
      destruct (Hp _ Hin) as (c' & [= <-] & Hg). done.
    - unfold len. simpl. lia.
    - unfold len. simpl. lia.
    - intros -> _. split; [unfold len; simpl; lia|auto]. }
  destruct (checkCtx w) as [[u|e] w0] eqn:Ex; apply checkCtx_run in Ex as [-> _]; [|done].
  destruct (onBlocks (app_Get key) w) as [x w1] eqn:Eg; apply putOnBlocks_run in Eg as (s1 & Eg & ->).
  apply withKey_run in Eg as (b & Eg & Hb & _). pose proof (vGet_run _ _ _ _ Eg) as [Hs Hg]. rewrite <- Hb in Hs.
  assert (HF' : forall vh c, found keys (base s1) vh c -> G vh c).
  { intros vh c Hf. apply HF. apply (found_same _ (base (iw_store w))) in Hf; [|done]. destruct Hf as (k & d & Hk & ? & ? & ?).
    exists k, d. split; [by right|done]. }
  (** A key that contributes nothing. *)
  assert (Hskip : (forall d vh, stored (base (iw_store w)) (cidHash key) = Some d -> blobVersionedHash d <> Ok vh) ->
    rebuildLoop keys pending (rb_skip (rb_scan st)) (mkIW s1 (iw_kv w)) = (st', None, w') -> rebuilt (key :: keys) pending st st' w w').
  { intros Hnone Hloop. apply IH in Hloop; [|done|done]. eapply (rebuilt_step key keys pending pending [] None); [..|exact Hloop]; simpl; try done.
    - apply upserted_nil.
    - intros d vh c Hd Hv. by destruct (Hnone d vh).
    - lia. }
  destruct x as [data|e].
  2: { destruct (decide (e = ENotFound)) as [->|]; [|done]. apply Hskip; [|done]. intros d vh Hd. by rewrite (vGet_missing _ _ _ Eg) in Hd. }
  destruct Hg as [Hd _]. assert (Hone : forall d, stored (base (iw_store w)) (cidHash key) = Some d -> d = data) by congruence.
  destruct (Z.eqb_spec (len data) BlobSize) as [El|El]; cbn [negb] in H.
  2: { apply Hskip; [|done]. intros d vh ->%Hone Hv. by apply blobVersionedHash_len in Hv. }
  destruct (blobVersionedHash data) as [vh|e] eqn:Ev; [|apply Hskip; [|done]; intros d vh ->%Hone; congruence].
  destruct (BlobCID_ok data El) as (c & Ec & _ & _). rewrite Ec in H.
  assert (Hgc : G vh c) by (apply HF; exists key, data; split; [by left|done]).
  destruct (onCatalog (ResolveBlob vh) (mkIW s1 (iw_kv w))) as [[[have ok]|e] w2] eqn:Er; [|done].
  apply onCatalog_run in Er as (s2 & Er & ->). simpl in Er, H. apply ResolveBlob_run in Er as [[Ek Er]|[_ [?|?]]]; [|done..].
  assert (Hb1 : forall d vh' c', stored (base (iw_store w)) (cidHash key) = Some d -> blobVersionedHash d = Ok vh' ->
    BlobCID d = Ok (Some c') -> Some (vh, c) = Some (vh', c')) by (intros d vh' c' ->%Hone; congruence).
  assert (Hb2 : forall vh' c', Some (vh, c) = Some (vh', c') -> exists d, stored (base (iw_store w)) (cidHash key) = Some d /\
    blobVersionedHash d = Ok vh' /\ BlobCID d = Ok (Some c')) by (intros vh' c' [= <- <-]; by exists data).
  assert (Hnew : good_entry (mkCatalogEntry vh (Some c))) by (by exists c).
  assert (Hans : ok && bool_decide (have = Some c) = true <-> resolves (kv (iw_kv w)) vh c).
  { unfold resolves. destruct (kv (iw_kv w) !! catalogKey vh) as [v|]; [|injection Er as -> ->; split; [done|by intros (? & ? & _)]].
    destruct (cid_cast v) as [c'|] eqn:Ecv; [|by destruct Er]. injection Er as -> ->. simpl. rewrite bool_decide_eq_true. split.
    - intros [= ->]. eauto.
    - intros (v' & [= <-] & Hv'). congruence. }
  destruct (ok && bool_decide (have = Some c)) eqn:Eq.
  { apply IH in H; [|done|done]. eapply (rebuilt_step key keys pending pending [] (Some (vh, c))); [..|exact H]; simpl; try done; try lia.
    - rewrite Ek. apply upserted_nil.
    - intros vh' c' [= <- <-]. split; [done|]. right. rewrite Ek. by apply Hans. }
  assert (Hmiss : ~ resolves (kv (iw_kv w)) vh c) by (rewrite <- Hans; done).
  destruct (len (pending ++ [mkCatalogEntry vh (Some c)]) =? rebuildBatch).
  - destruct (onCatalog (Catalog_PutBatch (pending ++ [mkCatalogEntry vh (Some c)])) (mkIW s1 s2)) as [[[]|e] w3] eqn:Eb; [|done].
    apply onCatalog_run in Eb as (s3 & Eb & ->). simpl in Eb. apply PutBatch_run in Eb as [Hu _]; [|by apply Forall_app; split; [|constructor]].
    rewrite Ek in Hu. apply IH in H; [|done|constructor].
    refine (rebuilt_step key keys pending [] _ (Some (vh, c)) st _ st' w (mkIW s1 s3) w' Hs Hu _ Hb1 _ Hp _ _ _ Hb2 H); simpl; try done; try lia.
    + intros vh' c' _ Hin. rewrite app_nil_r. apply elem_of_app. by left.
    + intros vh' c' [= <- <-]. split; [done|]. left. rewrite app_nil_r. apply elem_of_app. right. by left.
    + intros _ Hall. by destruct Hmiss; apply Hall.
  - apply IH in H; [|done|by apply Forall_app; split; [|constructor]].
    eapply (rebuilt_step key keys pending _ [] (Some (vh, c))); [..|exact H]; simpl; try done; try lia.
    + rewrite Ek. apply upserted_nil.
    + intros vh' c' _ Hin. apply elem_of_app. by left.
    + intros vh' c' [= <- <-]. split; [done|]. left. apply elem_of_app. right. by left.
    + intros _ Hall. by destruct Hmiss; apply Hall.
Qed.
End Rebuild.

(** Rebuilding recovers the catalog.  When a walk over [keys] succeeds, and no two
    different blobs it meets share a versioned hash, every blob it met resolves to
    its CID; entries of other versioned hashes, every pin and every block are as
    before; each key is counted once, as a blob or as skipped; and a catalog that
    was right already is not written. *)
Theorem Rebuild_recovers keys (w : World) st w' :
  (forall vh c c', found keys (base (iw_store w)) vh c -> found keys (base (iw_store w)) vh c' -> c = c') ->
  Rebuild (Ok keys) w = (st, None, w') ->
  (forall vh c, found keys (base (iw_store w)) vh c -> resolves (kv (iw_kv w')) vh c) /\
  (forall vh, (forall c, ~ found keys (base (iw_store w)) vh c) -> kv (iw_kv w') !! catalogKey vh = kv (iw_kv w) !! catalogKey vh) /\
  (forall h p c, pin_at (kv (iw_kv w')) h p c = pin_at (kv (iw_kv w)) h p c) /\
  stored (base (iw_store w')) = stored (base (iw_store w)) /\
  rb_Scanned st = len keys /\ rb_Blobs st + rb_Skipped st = len keys /\
  ((forall vh c, found keys (base (iw_store w)) vh c -> resolves (kv (iw_kv w)) vh c) ->
     rb_Upserted st = 0 /\ kv (iw_kv w') = kv (iw_kv w)).
Proof.
  intros HG H. apply (rebuildLoop_run _ HG) in H as [R1 R2 R3 R4 R5 R6 R7 R8]; [|done|constructor].
  split; [auto|]. split; [done|]. split; [intros; by apply pin_at_frame|]. split; [done|]. simpl in *.
  split; [lia|]. split; [lia|]. auto.
Qed.
End Ingest.
