(* ===== verification/IngestLife.v ===== *)
(** An upload after its put has returned: pinning/staging.go and pinning/gc.go
    beside ingest/put.go.

    [meanwhile] is everything that may happen to the stores between the put and
    the expiry of its staging pins: application reads and writes of blocks, other
    puts with any outcome, rebuilds of the catalog, pin changes of the heads,
    drops of the staging rows of other blobs, and collections.  Proved by rule
    induction: the blobs of the put stay stored and staged. *)
From S2P Require Import Prelude Cid Schema Core Engine Enumerate Store Ledger Apply Policy Reconcile Staging Ingest GC GCCorrect GCRun IngestCorrect.

Section Life.
Context `{MH : Multihash} `{CC : !CidBytes} `{KZ : Kzg}.
Context {B : Type} `{BA : !BaseStore B} `{BO : !BaseStoreOk B} {K : Type} `{PB : !Pebble K} `{PO : !PebbleOk K}.
Context `{CB : !DagCbor} {Sto : Type} `{BS : !Blockstore Sto} {L : Type} `{LR : !Lru CidV (AnyNode * Z) L}.
Local Abbreviation World := (@IW MH B K).
Context (g : @GCConfig MH B) (cfg : @Config MH Sto).
Context (ManifestTip : option (string -> res (Cid * bool))) (sameToken : nat -> nat -> bool).

(** ** Effects of single operations, however they end *)

Lemma Staging_Pin_row st now cids s x s' c :
  ledger_wf (kv s) -> time_ok (now + st_ttl st) -> Staging_Pin st now cids s = (x, s') ->
  pin_at (kv s') StagingHead PurposeStaging c = pin_at (kv s) StagingHead PurposeStaging c \/
  pin_at (kv s') StagingHead PurposeStaging c = Some (false, storedTime (now + st_ttl st)).
Proof.
  intros Hm Ht H. unfold Staging_Pin in H. destruct (len cids =? 0); [injection H as _ <-; by left|].
  apply AddBatch_run in H as [_ H]; [|done|by apply Forall_fmap, Forall_true].
  assert (Ha : forall o, added StagingHead (stagingPin (now + st_ttl st) <$> cids) StagingHead PurposeStaging c o = o \/
    added StagingHead (stagingPin (now + st_ttl st) <$> cids) StagingHead PurposeStaging c o = Some (false, storedTime (now + st_ttl st))).
  { intros o. rewrite (added_uniform _ _ _ _ _ _ _ (false, storedTime (now + st_ttl st))) by done. case_decide; auto. }
  destruct x; [rewrite H; apply Ha|]. destruct H as [H|H]; rewrite H; [apply Ha|by left].
Qed.

Lemma PutBlobs_effect staging now body (w : World) x w' :
  ledger_wf (kv (iw_kv w)) -> ttl_ok staging now -> PutBlobs staging now body w = (x, w') ->
  evolves every none none (iw_store w) (iw_store w') /\ ledger_wf (kv (iw_kv w')) /\
  forall c, pin_at (kv (iw_kv w')) StagingHead PurposeStaging c = pin_at (kv (iw_kv w)) StagingHead PurposeStaging c \/
    exists st, staging = Some st /\
      pin_at (kv (iw_kv w')) StagingHead PurposeStaging c = Some (false, storedTime (now + st_ttl st)).
Proof.
  intros Hm Ht H. unfold PutBlobs in H. destruct (negb (len body mod BlobSize =? 0)); [injection H as _ <-; split; [done|]; split; [done|]; by left|]. fold (blobs_in body) in H.
  apply bind_run in H as [(out & w1 & H1 & H)|(e & H1 & ->)]; apply lift_run in H1 as [Hv ->]; [|split; [done|]; split; [done|]; by left].
  pose proof (verify_ok body out (eq_sym Hv)) as [_ Hid].
  apply bind_run in H as [([] & w1 & H1 & H)|(e & H1 & ->)];
    apply (storeLoop_run none) in H1 as (Hev & [Hwf Hsp] & _); try done; try (intros; by apply Hid);
    [|split; [done|]; split; [by apply Hwf|]; intros c; left; apply Hsp].
  assert (Hst : forall y w2, match staging with
     | Some st => if (0 <? blobs_in body)%nat then onCatalog (Staging_Pin st now (pt_CID <$> out)) else ret tt
     | None => ret tt end w1 = (y, w2) ->
    iw_store w2 = iw_store w1 /\ ledger_wf (kv (iw_kv w2)) /\
    forall c, pin_at (kv (iw_kv w2)) StagingHead PurposeStaging c = pin_at (kv (iw_kv w)) StagingHead PurposeStaging c \/
      exists st, staging = Some st /\
        pin_at (kv (iw_kv w2)) StagingHead PurposeStaging c = Some (false, storedTime (now + st_ttl st))).
  { intros y w2 H2. destruct staging as [st|]; [destruct (0 <? blobs_in body)%nat|];
      try (injection H2 as _ <-; split; [done|]; split; [by apply Hwf|]; intros c; left; apply Hsp).
    apply onCatalog_run in H2 as (s & H2 & ->). split; [done|]. pose proof (Ht st eq_refl) as Ht'. cbn [iw_kv].
    split; [by apply Staging_Pin_run in H2 as [? _]; [|apply Hwf|]|]. intros c.
    apply (Staging_Pin_row _ _ _ _ _ _ c) in H2 as [H2|H2]; [|right; eauto|by apply Hwf|done]. left. by rewrite H2. }
  apply bind_run in H as [([] & w2 & H2 & H)|(e & H2 & ->)]; apply Hst in H2 as (E & ? & ?); [injection H as _ <-|]; by rewrite E.
Qed.

(** Rows of the ledger stay where only catalog entries are written. *)
Lemma PutBatch_ledger entries s x s' rest :
  Catalog_PutBatch entries s = (x, s') -> kv s' !! (prefixLedger :: rest) = kv s !! (prefixLedger :: rest).
Proof.
  intros H. unfold Catalog_PutBatch in H.
  apply bind_run in H as [(u & s1 & Hc & H)|(e & Hc & ->)]; apply kv_ctx_spec in Hc as [-> _]; [|done].
  destruct (len entries =? 0); [by injection H as _ <-|].
  apply bind_run in H as [(ops & s1 & Ho & H)|(e & Ho & ->)]; apply lift_run in Ho as [Ho ->]; [|done].
  assert (Hops : forall m, kv_applys ops m !! (prefixLedger :: rest) = m !! (prefixLedger :: rest)).
  { clear H. symmetry in Ho. revert ops Ho. unfold kv_applys. induction entries as [|en entries IH]; intros ops; cbn [stageEntries]; [by intros [= <-]|].
    destruct (ce_Blob en) as [c|]; [|done]. intros (ops' & Ho & [= <-])%rbind_ok m. simpl. rewrite (IH ops' Ho). by rewrite lookup_insert_ne. }
  apply kv_commit_spec in H. destruct x; [by rewrite H|]. destruct H as [_ [-> | ->]]; done.
Qed.

Lemma Rebuild_effect keys (w : World) st e w' :
  Rebuild keys w = (st, e, w') ->
  evolves every none none (iw_store w) (iw_store w') /\
  forall rest, kv (iw_kv w') !! (prefixLedger :: rest) = kv (iw_kv w) !! (prefixLedger :: rest).
Proof.
  assert (Hbatch : forall l (v : World) y v', onCatalog (Catalog_PutBatch l) v = (y, v') ->
    iw_store v' = iw_store v /\ forall rest, kv (iw_kv v') !! (prefixLedger :: rest) = kv (iw_kv v) !! (prefixLedger :: rest)).
  { intros l v y v' (s & H & ->)%onCatalog_run. split; [done|]. intros rest. by eapply PutBatch_ledger. }
  destruct keys as [keys|er]; [|by intros [= _ _ <-]]. cbn [Rebuild]. generalize (@nil Entry), (mkRebuild 0 0 0 0).
  revert w. induction keys as [|key keys IH]; intros w pending st0 H; cbn [rebuildLoop] in H.
  { destruct (onCatalog (Catalog_PutBatch pending) w) as [[[]|er] w1] eqn:E; apply Hbatch in E as [E1 E2]; injection H as _ _ <-; by rewrite E1. }
  destruct (checkCtx w) as [[u|er] w0] eqn:Ex; apply checkCtx_run in Ex as [-> _]; [|by injection H as _ _ <-].
  destruct (onBlocks (app_Get key) w) as [x w1] eqn:Eg; apply putOnBlocks_run in Eg as (s1 & Eg & ->).
  assert (Hev : evolves every none none (iw_store w) s1).
  { pose proof (honest_evolves every none none (AGet key) (iw_store w) (fun H => H)) as Hev. simpl in Hev. by rewrite Eg in Hev. }
  assert (Hnext : forall (w2 : World) pending' st2, iw_store w2 = s1 ->
    (forall rest, kv (iw_kv w2) !! (prefixLedger :: rest) = kv (iw_kv w) !! (prefixLedger :: rest)) ->
    rebuildLoop keys pending' st2 w2 = (st, e, w') ->
    evolves every none none (iw_store w) (iw_store w') /\
    forall rest, kv (iw_kv w') !! (prefixLedger :: rest) = kv (iw_kv w) !! (prefixLedger :: rest)).
  { intros w2 pending' st2 E2 Hr2 [Hl Hr]%IH. rewrite E2 in Hl. split; [by etransitivity|]. intros rest. by rewrite Hr. }
  destruct x as [data|er]; [|case_decide; [by eapply Hnext; [..|exact H]|by injection H as _ _ <-]].
  destruct (negb (len data =? BlobSize)); [by eapply Hnext; [..|exact H]|]. destruct (blobVersionedHash data) as [vh|er]; [|by eapply Hnext; [..|exact H]].
  destruct (BlobCID data) as [blob|er]; [|by injection H as _ _ <-].
  destruct (onCatalog (ResolveBlob vh) (mkIW s1 (iw_kv w))) as [y w2] eqn:Er. apply onCatalog_run in Er as (s2 & Er & ->).
  assert (Ek : kv s2 = kv (iw_kv w)) by (by apply ResolveBlob_run in Er as [[? _]|[? _]]).
  destruct y as [[have ok]|er]; [|injection H as _ _ <-; cbn [iw_store iw_kv]; by rewrite Ek].
  destruct (ok && _); [eapply Hnext; [..|exact H]; cbn [iw_kv]; by rewrite ?Ek|].
  destruct (_ =? rebuildBatch); [|eapply Hnext; [..|exact H]; cbn [iw_kv]; by rewrite ?Ek].
  destruct (onCatalog (Catalog_PutBatch _) _) as [[[]|er] w3] eqn:Eb; apply Hbatch in Eb as [E1 E2]; cbn [iw_store iw_kv] in E1, E2.
  - eapply Hnext; [exact E1| |exact H]. intros rest. by rewrite E2, Ek.
  - injection H as _ _ <-. rewrite E1. split; [done|]. intros rest. by rewrite E2, Ek.
Qed.

Lemma resolveStagedRows_kv rows pins s (x : res (list PinEntry)) s' :
  resolveStagedRows rows pins s = (x, s') -> kv s' = kv s.
Proof.
  assert (Hone : forall vhs pins s (x : res (list PinEntry)) s', resolveStaged vhs pins s = (x, s') -> kv s' = kv s).
  { intros vhs. induction vhs as [|vh vhs IH]; intros p0 s0 x0 s0' H; cbn [resolveStaged] in H; [by injection H as _ <-|].
    apply bind_run in H as [([c ok] & s1 & Hr & H)|(e & Hr & ->)]; apply ResolveBlob_run in Hr as [[E _]|[E _]];
      first [apply IH in H; congruence|done]. }
  revert pins s. induction rows as [|row rows IH]; intros pins s H; cbn [resolveStagedRows] in H; [by injection H as _ <-|].
  apply bind_run in H as [(p1 & s1 & Hr%Hone & H%IH)|(e & Hr%Hone & ->)]; congruence.
Qed.

(** However the call ends, only the staging rows of blobs the rows name go. *)
Lemma DropRefs_spares rows s x s' :
  ledger_wf (kv s) -> DropRefs rows s = (x, s') ->
  ledger_wf (kv s') /\ forall c, ~ resolved (kv s) rows c ->
    pin_at (kv s') StagingHead PurposeStaging c = pin_at (kv s) StagingHead PurposeStaging c.
Proof.
  intros Hm H. unfold DropRefs in H. apply bind_run in H as [(pins & s1 & Hr & H)|(e & Hr & ->)].
  2: { apply resolveStagedRows_kv in Hr. by rewrite Hr. }
  apply resolveStagedRows_run in Hr as [Ek Hpins]. apply RemoveBatch_run in H as [Hw H]; [|by rewrite Ek]. split; [done|]. intros c Hno.
  assert (Hsame : removed StagingHead pins StagingHead PurposeStaging c (pin_at (kv s) StagingHead PurposeStaging c)
    = pin_at (kv s) StagingHead PurposeStaging c).
  { rewrite removed_spec, decide_False; [done|]. rewrite Exists_exists. intros (q & Hq & Hn).
    apply Hpins in Hq as [[]%not_elem_of_nil|(c' & Hc' & ->)]. injection Hn as <-. done. }
  rewrite Ek in H. destruct x; [by rewrite H|]. destruct H as [H|H]; by rewrite H.
Qed.

Lemma Drop_spares cids s x s' :
  ledger_wf (kv s) -> Staging_Drop cids s = (x, s') ->
  ledger_wf (kv s') /\ forall c, Some c ∉ cids ->
    pin_at (kv s') StagingHead PurposeStaging c = pin_at (kv s) StagingHead PurposeStaging c.
Proof.
  intros Hm H. unfold Staging_Drop in H. destruct (len cids =? 0); [by injection H as _ <-|].
  apply RemoveBatch_run in H as [Hw H]; [|done]. split; [done|]. intros c Hno.
  assert (Hsame : removed StagingHead (stagingPin zeroTime <$> cids) StagingHead PurposeStaging c (pin_at (kv s) StagingHead PurposeStaging c)
    = pin_at (kv s) StagingHead PurposeStaging c).
  { rewrite removed_spec, decide_False; [done|]. rewrite Exists_exists. intros (q & (o & -> & Ho)%list_elem_of_fmap & Hn).
    injection Hn as <-. done. }
  destruct x; [by rewrite H|]. destruct H as [H|H]; by rewrite H.
Qed.

(** A batch of pins of another head. *)
Lemma other_head_row h pins p c o : h <> StagingHead -> added h pins StagingHead p c o = o /\ removed h pins StagingHead p c o = o.
Proof.
  intros Hne. unfold added, removed. induction pins as [|q pins [IH1 IH2]] using rev_ind; [done|].
  rewrite !foldl_snoc, IH1, IH2. by rewrite !decide_False by (intros [=]; done).
Qed.

(** ** What may happen to an upload *)

Section Upload.
(** The CIDs of the upload, and the time its staging pins expire. *)
Context (mine : CidV -> Prop) (expiry : Time).

Inductive meanwhile : World -> World -> Prop :=
| mw_app acts iw :
    Forall (honest none none) acts -> meanwhile iw (mkIW (do_acts acts (iw_store iw)) (iw_kv iw))
| mw_put staging now body x iw iw' :
    ttl_ok staging now -> (forall st, staging = Some st -> expiry <= storedTime (now + st_ttl st)) ->
    PutBlobs staging now body iw = (x, iw') -> meanwhile iw iw'
| mw_rebuild keys st e iw iw' : Rebuild keys iw = (st, e, iw') -> meanwhile iw iw'
| mw_add h pins x iw s' :
    h <> StagingHead -> Forall (fun q => time_ok (Expiry q)) pins ->
    AddBatch h pins (iw_kv iw) = (x, s') -> meanwhile iw (mkIW (iw_store iw) s')
| mw_remove h pins x iw s' :
    h <> StagingHead -> RemoveBatch h pins (iw_kv iw) = (x, s') -> meanwhile iw (mkIW (iw_store iw) s')
| mw_applied rows x iw s' :
    (forall c, mine c -> ~ resolved (kv (iw_kv iw)) rows c) ->
    DropRefs rows (iw_kv iw) = (x, s') -> meanwhile iw (mkIW (iw_store iw) s')
| mw_drop cids x iw s' :
    (forall c, mine c -> Some c ∉ cids) ->
    Staging_Drop cids (iw_kv iw) = (x, s') -> meanwhile iw (mkIW (iw_store iw) s')
| mw_collect fuel now scan (w : @GCW MH B Sto L K) stats e w' iw :
    gw_store w = iw_store iw -> rc_ledger (gw_rec w) = iw_kv iw -> now < expiry ->
    rc_heads (gw_rec w) !! StagingHead = None -> reg_ok (gw_rec w) ->
    active (gw_store w) = None -> sched_ok none none w ->
    runOnline g cfg ManifestTip sameToken fuel now scan w = (stats, e, w') ->
    meanwhile iw (mkIW (gw_store w') (rc_ledger (gw_rec w'))).

(** The row keeps its blob until [expiry]. *)
Definition row_lasts (o : option (bool * Time)) : Prop := exists b t, o = Some (b, t) /\ expiry <= t.

Record staged (iw : World) : Prop := {
  sg_wf : ledger_wf (kv (iw_kv iw));
  sg_inv : epochs_inv (iw_store iw);
  sg_blocks : forall c, mine c -> exists d, addresses c d /\ stored (base (iw_store iw)) (cidHash c) = Some d;
  sg_rows : forall c, mine c -> row_lasts (pin_at (kv (iw_kv iw)) StagingHead PurposeStaging c) }.

Lemma staged_store (iw : World) s : staged iw -> evolves every none none (iw_store iw) s -> staged (mkIW s (iw_kv iw)).
Proof.
  intros [Hw Hi Hb Hr] Hev. split; try done; [by apply (ev_inv _ _ _ _ _ Hev)|].
  intros c Hc. destruct (Hb c Hc) as (d & Ha & Hd). exists d. split; [done|]. by eapply evolves_content.
Qed.

Lemma staged_kv (iw : World) s : staged iw -> ledger_wf (kv s) ->
  (forall c, mine c -> pin_at (kv s) StagingHead PurposeStaging c = pin_at (kv (iw_kv iw)) StagingHead PurposeStaging c) ->
  staged (mkIW (iw_store iw) s).
Proof. intros [Hw Hi Hb Hr] Hw' Hs. split; try done. intros c Hc. simpl. rewrite Hs by done. auto. Qed.

Context (Hst : is_Some (g_staging g)) (Hfetch : fetchers_ok g every none none).

Lemma collect_keeps fuel now scan (w : @GCW MH B Sto L K) stats e w' (iw : World) :
  staged iw -> gw_store w = iw_store iw -> rc_ledger (gw_rec w) = iw_kv iw -> now < expiry ->
  rc_heads (gw_rec w) !! StagingHead = None -> reg_ok (gw_rec w) -> active (gw_store w) = None -> sched_ok none none w ->
  runOnline g cfg ManifestTip sameToken fuel now scan w = (stats, e, w') ->
  staged (mkIW (gw_store w') (rc_ledger (gw_rec w'))).
Proof.
  intros [Hw Hi Hb Hr] Es Ek Hnow Hno Hreg Hact Hsch Hrun. rewrite <- Es in Hi, Hb.
  assert (Hkv : kvOf w = kv (iw_kv iw)) by (unfold kvOf; by rewrite Ek). rewrite <- Hkv in Hw, Hr.
  destruct (prepare g cfg ManifestTip sameToken now w) as [[res expired] w1] eqn:Ec.
  destruct (prepare_ledger g cfg ManifestTip sameToken now w res expired w1 Hw Hreg Ec) as [Hw1 Hrows].
  destruct (runOnline_run g cfg ManifestTip sameToken none none fuel now scan w res expired w1 stats e w') as (_ & Hi' & Er & H); try done.
  assert (Hlate : forall c, mine c -> expired_row now (pin_at (kvOf w) StagingHead PurposeStaging c) = false).
  { intros c Hc. destruct (Hr c Hc) as (b & t & -> & Ht). unfold expired_row, After. rewrite (proj2 (Z.ltb_lt _ _)) by lia. by rewrite andb_false_r. }
  assert (Hkv' : kv (rc_ledger (gw_rec w')) = kvOf w1) by (by rewrite Er). split; cbn [iw_store iw_kv]; rewrite ?Hkv'; try done.
  2: { intros c Hc. rewrite Hrows by auto. auto. }
  intros c Hc. destruct (Hb c Hc) as (d & Ha & Hd). exists d. split; [done|].
  destruct res as [[[groups np] sg]|er]; [|by destruct H as [_ ->]]. destruct H as (Hok & Hkeep & _). apply Hkeep; [|done..].
  destruct (Hr c Hc) as (b & t & Hp & _). eapply (co_staging _ _ _ _ _ _ _ Hok Hst Hno PurposeStaging c b t); [done|]. rewrite <- Hp. auto.
Qed.

Lemma meanwhile_staged (iw iw' : World) : meanwhile iw iw' -> staged iw -> staged iw'.
Proof.
  intros Hm Hs. destruct Hm as [acts iw Ha|staging now body x iw iw' Ht Hex H|keys st e iw iw' H|h pins x iw s' Hne Ht H|
    h pins x iw s' Hne H|rows x iw s' Hno H|cids x iw s' Hno H|fuel now scan w stats e w' iw Es Ek Hnow Hno Hreg Hact Hsch Hrun].
  - apply staged_store; [done|]. by apply honest_acts.
  - apply PutBlobs_effect in H as (Hev & Hw & Hrow); [|apply Hs|done]. destruct (staged_store _ _ Hs Hev) as [_ Hi Hb _].
    split; try done. intros c Hc. destruct (Hrow c) as [->|(st & Hst' & ->)]; [by apply Hs|]. eexists _, _. split; [done|]. auto.
  - apply Rebuild_effect in H as [Hev Hrow]. destruct iw' as [s' k']. pose proof (staged_store _ _ Hs Hev) as Hs'.
    apply (staged_kv _ k') in Hs'; [done| |].
    + intros rest v Hv. simpl in Hrow. rewrite Hrow in Hv. by apply (sg_wf _ Hs).
    + intros c _. by apply pin_at_frame.
  - apply AddBatch_run in H as [Hw H]; [|apply Hs|done]. apply staged_kv; [done..|]. intros c _.
    destruct x; [rewrite H; by apply other_head_row|]. destruct H as [H|H]; rewrite H; [by apply other_head_row|done].
  - apply RemoveBatch_run in H as [Hw H]; [|apply Hs]. apply staged_kv; [done..|]. intros c _.
    destruct x; [rewrite H; by apply other_head_row|]. destruct H as [H|H]; rewrite H; [by apply other_head_row|done].
  - apply DropRefs_spares in H as [Hw H]; [|apply Hs]. apply staged_kv; auto.
  - apply Drop_spares in H as [Hw H]; [|apply Hs]. apply staged_kv; auto.
  - by eapply collect_keeps.
Qed.
End Upload.

(** The CIDs of a put's results. *)
Definition put_cids (out : list PutResult) (c : CidV) : Prop := Some c ∈ pt_CID <$> out.

End Life.
