(* ===== verification/Merkle.v ===== *)
(** A root determines the head: the converse of canonicity.

    HeadModel.v gives every abstract head one root.  Here it is shown that two
    well-formed abstract heads with one root are one head, all the way down from
    the head block through the directory pages and the segments to the rows.  The
    comparison of heads by root (Claims.v) rests on it. *)
From S2P Require Import Prelude Arith Cid Schema Core Engine EngineWorld Dir HeadModel Lookup Lifecycle Enumerate EnumerateCorrect.

Section Merkle.
Context `{MH : Multihash} `{CB : !DagCbor} {Sto : Type} `{BS : !Blockstore Sto} `{BO : !BlockstoreOk Sto}.
Context {L : Type} `{LR : !Lru CidV (AnyNode * Z) L}.

(** ** Rows from their windows *)

Lemma row_lt_NoDup rows : StronglySorted row_lt rows -> NoDup rows.
Proof.
  induction 1 as [|r rows Hs IH Hf]; constructor; [|done]. intros Hin.
  rewrite Forall_forall in Hf. specialize (Hf r Hin). unfold row_lt in Hf. lia.
Qed.

Lemma sorted_rows_eq a b :
  StronglySorted row_lt a -> StronglySorted row_lt b -> (forall r, r ∈ a <-> r ∈ b) -> a = b.
Proof.
  intros Ha Hb Hab. apply (StronglySorted_unique_strong row_lt); [|done..|].
  - intros x y _ _ Hxy Hyx. unfold row_lt in *. lia.
  - apply NoDup_Permutation; [by apply row_lt_NoDup..|done].
Qed.

Lemma rows_from_windows k (lo hi : Z) a b :
  StronglySorted row_lt a -> StronglySorted row_lt b ->
  Forall (fun r => lo <= ord (Slot r) k <= hi) a -> Forall (fun r => lo <= ord (Slot r) k <= hi) b ->
  (forall w, lo <= w <= hi -> rowsIn k w a = rowsIn k w b) -> a = b.
Proof.
  intros Ha Hb Fa Fb Hw. apply sorted_rows_eq; [done..|]. intros r. rewrite Forall_forall in *.
  split; intros Hr.
  - apply (rowsIn_elem k (ord (Slot r) k)). rewrite <- Hw by auto. by apply rowsIn_elem.
  - apply (rowsIn_elem k (ord (Slot r) k)). rewrite Hw by auto. by apply rowsIn_elem.
Qed.

(** ** Segments and directories from their CIDs *)

Lemma seg_cid_inj s t : seg_enc s -> seg_enc t -> seg_cid s = seg_cid t -> s = t.
Proof.
  intros (b & _ & Hc & Hd)%seg_enc_inv (b' & _ & Hc' & Hd')%seg_enc_inv E. rewrite E in Hc.
  rewrite (node_cid_inj _ _ _ Hc Hc') in Hd. congruence.
Qed.

Lemma canon_root_inj fb a b :
  fan_ok fb -> is_u64 (Z.of_nat (length a)) -> length a = length b -> canon_root fb a = canon_root fb b -> a = b.
Proof.
  intros Hf Hu Hl E. destruct a as [|x a]; [by destruct b|]. destruct b as [|y b]; [done|].
  unfold canon_root, node_of in E. rewrite <- Hl in E.
  destruct (canon_depth_spec fb (length (x :: a))) as (d & Hd & _); [done|done|simpl; lia|].
  rewrite Hd, Nat2Z.id in E. destruct Hf as [Hf _].
  destruct (canon_dir_holds fb d (x :: a)) as (c & Hc & Hh); [done..|].
  destruct (canon_dir_holds fb d (y :: b)) as (c' & Hc' & Hh'); [done..|].
  rewrite Hc, Hc' in E. injection E as <-. by apply (dir_holds_fun fb (S d) c).
Qed.

Lemma entryOf_inj k rows rows' w :
  (rowsIn k w rows <> [] -> seg_enc (segOf k rows w)) ->
  (rowsIn k w rows' <> [] -> seg_enc (segOf k rows' w)) ->
  entryOf k rows w = entryOf k rows' w -> rowsIn k w rows = rowsIn k w rows'.
Proof.
  unfold entryOf. intros H H'. destruct (rowsIn k w rows) eqn:E, (rowsIn k w rows') eqn:E'; intros Hc; [done| | |].
  - destruct (seg_cid_defined _ (H' ltac:(done))) as [c Hd]. by rewrite Hd in Hc.
  - destruct (seg_cid_defined _ (H ltac:(done))) as [c Hd]. by rewrite Hd in Hc.
  - apply seg_cid_inj in Hc; [|by apply H|by apply H']. unfold segOf in Hc. congruence.
Qed.

(** ** Heads from their roots *)

Lemma head_object_inj a b :
  head_ok a -> head_ok b -> model_root a = model_root b -> headObject (pre_state a) = headObject (pre_state b).
Proof.
  intros Ha Hb E. pose proof Ha as (_ & Fa & _). pose proof Hb as (_ & Fb & _).
  apply fits_inv in Fa as (x & c & Ex & _), Fb as (y & d & Ey & _).
  unfold model_root, head_cid in E. rewrite Ex, Ey in E. simpl in E. subst d.
  apply DecodeHead_encoded in Ex as [Dx Cx]; [|by apply headObject_u64, head_content].
  apply DecodeHead_encoded in Ey as [Dy Cy]; [|by apply headObject_u64, head_content].
  rewrite (node_cid_inj _ _ _ Cx Cy) in Dx. congruence.
Qed.

Lemma covered_rows_inj p s rows rows' :
  params_ok p -> covered_ok p s rows -> covered_ok p s rows' ->
  canon_root (p_FanoutBits p) (canon_entries p s rows) = canon_root (p_FanoutBits p) (canon_entries p s rows') ->
  seg_cid (segOf (p_SegBits p) rows (openWin p s)) = seg_cid (segOf (p_SegBits p) rows' (openWin p s)) ->
  rows = rows'.
Proof.
  intros Hp Hc Hc' Hdir Hopen. destruct (co_synced _ _ _ Hc).
  assert (Hge : baseWin p <= openWin p s) by (by apply openWin_ge_base).
  apply canon_root_inj in Hdir; [|apply Hp|rewrite canon_entries_length; apply sealedN_u64; [done|by apply (co_synced _ _ _ Hc)]|
    by rewrite !canon_entries_length].
  apply seg_cid_inj in Hopen; [|apply (co_open _ _ _ Hc)|apply (co_open _ _ _ Hc')].
  assert (Hwin : forall rs, covered_ok p s rs -> Forall (fun r => baseWin p <= ord (Slot r) (p_SegBits p) <= openWin p s) rs).
  { intros rs Hr. eapply Forall_impl; [apply (co_range _ _ _ Hr)|]. intros r Hs. simpl in Hs.
    split; apply ord_mono; (apply Hp || lia). }
  apply (rows_from_windows (p_SegBits p) (baseWin p) (openWin p s)); [apply Hc|apply Hc'|by apply Hwin..|].
  intros w Hw. destruct (decide (w = openWin p s)) as [->|Hne]; [unfold segOf in Hopen; congruence|].
  apply entryOf_inj; [intros; apply (co_sealed _ _ _ Hc); [lia|done]|intros; apply (co_sealed _ _ _ Hc'); [lia|done]|].
  apply (f_equal (lookup (Z.to_nat (w - baseWin p)))) in Hdir. unfold canon_entries in Hdir.
  rewrite !entries_lookup in Hdir. rewrite !decide_True in Hdir by (unfold sealedN; lia).
  injection Hdir as Hdir. by replace (baseWin p + Z.of_nat (Z.to_nat (w - baseWin p))) with w in Hdir by lia.
Qed.

(** Two well-formed heads with one root are one head. *)
Lemma model_root_inj a b : head_ok a -> head_ok b -> model_root a = model_root b -> a = b.
Proof.
  intros Ha Hb E. apply head_object_inj in E; [|done..].
  destruct a as [[n1 t1 o1 k1 f1] sa ra], b as [[n2 t2 o2 k2 f2] sb rb]. destruct Ha as (Hp & _ & Ha), Hb as (_ & _ & Hb).
  unfold pre_state in E. simpl in *. destruct sa as [s|], sb as [s'|]; unfold headObject in E; simpl in E; try discriminate.
  - injection E as -> -> -> -> -> -> _ Hd Ho. f_equal.
    by apply (covered_rows_inj (mkParams n2 t2 o2 k2 f2) s').
  - injection E as -> -> -> -> ->. congruence.
Qed.

(** A root determines the head: two engines, over whatever stores, that represent
    well-formed heads publish the same root exactly if those heads have the same
    parameters, coverage and rows. *)
Theorem root_determines_head {Sto' L' : Type} `{BS' : !Blockstore Sto'} `{BO' : !BlockstoreOk Sto'}
    `{LR' : !Lru CidV (AnyNode * Z) L'} (h : @Engine MH Sto L) (h' : @Engine MH Sto' L') a b :
  represents h a -> represents h' b -> Root h = Root h' <-> a = b.
Proof.
  intros [Ha _ Oa] [Hb _ Ob]. unfold Root. rewrite Ha, Hb. split; [by apply model_root_inj|by intros ->].
Qed.
End Merkle.
