(* ===== verification/StoreAccess.v ===== *)
(** How the engine reaches its block store: only through get, put and the context.

    For a relation on stores that those three operations stay in, so does every
    run of a load or a truncation, whatever its outcome.  With the relation chosen
    by a client this is a frame rule: a client that hands the engine a store whose
    put goes elsewhere (the projection of Claims.v) knows that its own store was
    not written. *)
From S2P Require Import Prelude Arith Cid Schema Core Engine Dir Lookup Apply Truncate Enumerate.

Section Access.
Context `{MH : Multihash} `{CB : !DagCbor} {Sto : Type} `{BS : !Blockstore Sto}.
Context {L : Type} `{LR : !Lru CidV (AnyNode * Z) L}.
Local Abbreviation Eng := (@Engine MH Sto L).

Context (R : relation Sto) `{PR : !PreOrder R}.

Definition storeR (h h' : Eng) : Prop := R (blocks h) (blocks h').
#[local] Instance storeR_pre : PreOrder storeR.
Proof. split; [intros h|intros a b c]; unfold storeR; [done|]. intros. by etrans. Qed.

(** Every run of [m] moves the store within [R]. *)
Abbreviation accesses := (moves storeR).

Hypothesis R_get : forall c s r s', bs_get c s = (r, s') -> R s s'.
Hypothesis R_put : forall c b s r s', bs_put c b s = (r, s') -> R s s'.
Hypothesis R_ctx : forall s r s', bs_ctx s = (r, s') -> R s s'.

Lemma acc_same {A} (m : M Eng A) : (forall h, blocks (snd (m h)) = blocks h) -> accesses m.
Proof. intros Hm. apply moves_same. intros h. unfold storeR. by rewrite Hm. Qed.
Lemma acc_modify f : (forall h : Eng, blocks (f h) = blocks h) -> accesses (modify f).
Proof. intros. by apply acc_same. Qed.

Lemma acc_onBlocks {A} (m : M Sto A) : moves R m -> accesses (onBlocks m).
Proof.
  intros Hm h r h'. unfold onBlocks. destruct (m (blocks h)) as [x s] eqn:E. intros [= <- <-]. by eapply Hm.
Qed.
Lemma acc_Get c : accesses (Get c).
Proof. apply acc_onBlocks. intros s r s'. apply R_get. Qed.
Lemma acc_Put c b : accesses (Put c b).
Proof. apply acc_onBlocks. intros s r s'. apply R_put. Qed.
Lemma acc_ctxErr : accesses ctxErr.
Proof. apply acc_onBlocks. intros s r s'. apply R_ctx. Qed.

#[local] Hint Resolve acc_Get acc_Put acc_ctxErr : moves.
#[local] Hint Extern 1 (moves _ (modify _)) => apply acc_modify; intros; repeat case_match; reflexivity : moves.

Lemma acc_cacheGet {T} (proj : AnyNode -> option T) c : accesses (cacheGet proj c).
Proof.
  apply acc_same. intros h. unfold cacheGet. destruct c; [|done]. by destruct (NodeCache.get _ _).
Qed.
Lemma acc_cacheAdd {T} (inj : T -> AnyNode) c v n : accesses (cacheAdd inj c v n).
Proof. unfold cacheAdd. moves_tac. Qed.
Lemma acc_admit kind n : accesses (admitEncodedIndex kind n).
Proof. unfold admitEncodedIndex. moves_tac. Qed.
#[local] Hint Resolve acc_cacheGet acc_cacheAdd acc_admit : moves.

Lemma acc_encodeSegment s : accesses (encodeSegment s).
Proof. unfold encodeSegment. moves_tac. Qed.
Lemma acc_encodeDirNode d : accesses (encodeDirNode d).
Proof. unfold encodeDirNode. moves_tac. Qed.
Lemma acc_encodeHead x : accesses (encodeHead x).
Proof. unfold encodeHead. moves_tac. Qed.
#[local] Hint Resolve acc_encodeSegment acc_encodeDirNode acc_encodeHead : moves.

(** A node store whose primitive operations stay in [R]. *)
Definition store_accesses {T} (ns : NodeStore Eng T) : Prop :=
  (forall c, accesses (ns_get ns c)) /\ (forall c b, accesses (ns_put ns c b)) /\
  (forall v, accesses (Encode ns v)) /\ (forall c, accesses (cache_get ns c)) /\
  (forall c v n, accesses (cache_add ns c v n)).

Lemma acc_segs : store_accesses segs.
Proof. repeat split; intros; simpl; auto with moves nocore. Qed.
Lemma acc_dirs : store_accesses dirs.
Proof. repeat split; intros; simpl; auto with moves nocore. Qed.
Lemma acc_heads : store_accesses heads.
Proof. repeat split; intros; simpl; auto with moves nocore. Qed.
#[local] Hint Resolve acc_segs acc_dirs acc_heads : moves.

Lemma acc_decode {T} (ns : NodeStore Eng T) c : store_accesses ns -> accesses (decode ns c).
Proof. intros (? & ? & ? & ? & ?). unfold decode. moves_tac. Qed.
Lemma acc_GetNode {T} (ns : NodeStore Eng T) c : store_accesses ns -> accesses (GetNode ns c).
Proof. intros Hn. pose proof Hn as (? & ? & ? & ? & ?). pose proof (acc_decode ns). unfold GetNode. moves_tac. Qed.
Lemma acc_PutNode {T} (ns : NodeStore Eng T) v : store_accesses ns -> accesses (PutNode ns v).
Proof. intros (? & ? & ? & ? & ?). unfold PutNode. moves_tac. Qed.
#[local] Hint Resolve acc_decode acc_GetNode acc_PutNode : moves.
Lemma acc_CoreLoad {T} (ns : NodeStore Eng T) p : store_accesses ns -> accesses (Core.Load ns p).
Proof. intros Hn. unfold Core.Load. moves_tac. Qed.
Lemma acc_Commit {T} (ns : NodeStore Eng T) p : store_accesses ns -> accesses (Commit ns p).
Proof. intros Hn. unfold Commit. moves_tac. Qed.
#[local] Hint Resolve acc_CoreLoad acc_Commit : moves.

Lemma acc_loadKids c : accesses (loadKids c).
Proof. unfold loadKids. moves_tac. Qed.
Lemma acc_commitDir kids : accesses (commitDir kids).
Proof. unfold commitDir. moves_tac. Qed.
#[local] Hint Resolve acc_loadKids acc_commitDir : moves.
Lemma acc_dirSet node digits kid : accesses (dirSet node digits kid).
Proof. revert node. induction digits; intros; cbn [dirSet]; moves_tac. Qed.
#[local] Hint Resolve acc_dirSet : moves.
Lemma acc_dirAppend c depth fb i kid : accesses (dirAppend c depth fb i kid).
Proof. unfold dirAppend. moves_tac. Qed.
Lemma acc_dirTruncate node digits : accesses (dirTruncate node digits).
Proof. revert node. induction digits; intros; cbn [dirTruncate]; moves_tac. Qed.
Lemma acc_shrinkLoop fuel c depth : accesses (shrinkLoop fuel c depth).
Proof. revert c depth. induction fuel; intros; cbn [shrinkLoop]; moves_tac. Qed.
#[local] Hint Resolve acc_dirAppend acc_dirTruncate acc_shrinkLoop : moves.

Lemma acc_openOrd st : accesses (openOrd st).
Proof. unfold openOrd. moves_tac. Qed.
Lemma acc_walkDigits c digits : accesses (walkDigits c digits).
Proof. revert c. induction digits; intros; cbn [walkDigits]; moves_tac. Qed.
#[local] Hint Resolve acc_openOrd acc_walkDigits : moves.
Lemma acc_segmentFor st w : accesses (segmentFor st w).
Proof. unfold segmentFor, sealedSegment. moves_tac. Qed.
Lemma acc_commitSegment p st : accesses (commitSegment p st).
Proof. unfold commitSegment, recordSegment. moves_tac. Qed.
#[local] Hint Resolve acc_segmentFor acc_commitSegment : moves.
Lemma acc_seal st o w : accesses (seal st o w).
Proof. unfold seal. moves_tac. Qed.
Lemma acc_publish st : accesses (publish st).
Proof. unfold publish. moves_tac. Qed.
#[local] Hint Resolve acc_seal acc_publish : moves.

Lemma acc_touchEntries b seen es : accesses (touchEntries b seen es).
Proof. revert seen. induction es; intros; cbn [touchEntries]; moves_tac. Qed.
#[local] Hint Resolve acc_touchEntries : moves.
Lemma acc_touchRows b seen rows : accesses (touchRows b seen rows).
Proof. revert seen. induction rows; intros; cbn [touchRows]; moves_tac. Qed.
#[local] Hint Resolve acc_touchRows : moves.
Lemma acc_touchLoop fuel next w last seen : accesses (touchLoop fuel next w last seen).
Proof. revert w seen. induction fuel; intros; cbn [touchLoop]; moves_tac. Qed.
#[local] Hint Resolve acc_touchLoop : moves.
Lemma acc_truncateDir st next t ow : accesses (truncateDir st next t ow).
Proof. unfold truncateDir, dirShrink. moves_tac. Qed.
#[local] Hint Resolve acc_truncateDir : moves.

Lemma acc_truncate slot ws retain : accesses (truncate slot ws retain).
Proof. unfold truncate, touchTruncatedBlobs, touchNewlyRetainedWindow. moves_tac. Qed.
Lemma acc_TruncateToEmpty : accesses TruncateToEmpty.
Proof. unfold TruncateToEmpty. moves_tac. Qed.
Lemma acc_loadState c : accesses (loadState c).
Proof. unfold loadState. moves_tac. Qed.
#[local] Hint Resolve acc_loadState : moves.
Lemma acc_Load c : accesses (Engine.Load c).
Proof. unfold Engine.Load. moves_tac. Qed.

(** ** Enumeration reads, and publishes nothing *)

Definition walkR (w w' : @walk MH Sto L) : Prop :=
  cur (w_h w') = cur (w_h w) /\ R (blocks (w_h w)) (blocks (w_h w')).
#[local] Instance walkR_pre : PreOrder walkR.
Proof.
  split; [intros w; by split|]. intros a b c [E1 ?] [E2 ?]. split; [congruence|by etrans].
Qed.

Lemma walk_modify f : (forall w, cur (w_h (f w)) = cur (w_h w) /\ blocks (w_h (f w)) = blocks (w_h w)) -> moves walkR (modify f).
Proof. intros Hf. apply moves_same. intros w. destruct (Hf w) as [E1 E2]. split; simpl; [done|by rewrite E2]. Qed.
#[local] Hint Extern 1 (moves walkR (modify _)) => apply walk_modify; intros; split; reflexivity : moves.

Lemma walk_onHead {A} (m : M Sto A) : moves R m -> moves walkR (onHead (onBlocks m)).
Proof.
  intros Hm w r w'. unfold onHead, onBlocks. destruct (m (blocks (w_h w))) as [x s] eqn:E. intros [= <- <-].
  split; [done|]. simpl. by eapply Hm.
Qed.
Lemma walk_check : moves walkR check.
Proof. apply walk_onHead. intros s r s'. apply R_ctx. Qed.
Lemma walk_get c : moves walkR (onHead (Get c)).
Proof. apply walk_onHead. intros s r s'. apply R_get. Qed.
#[local] Hint Resolve walk_check walk_get : moves.

Lemma walk_readNode c : moves walkR (readNode c).
Proof. unfold readNode, addUnique. moves_tac. Qed.
#[local] Hint Resolve walk_readNode : moves.
Lemma walk_validateSegment st gen c ew upper o : moves walkR (validateSegment st gen c ew upper o).
Proof. unfold validateSegment, segmentProofOf, addCachedUnique, addUnique. moves_tac. Qed.
Lemma walk_readDir c : moves walkR (readDir c).
Proof. unfold readDir. moves_tac. Qed.
Lemma walk_addPaths k : moves walkR (addPaths k).
Proof. unfold addPaths. moves_tac. Qed.
Lemma walk_addOutput : moves walkR addOutput.
Proof. unfold addOutput. moves_tac. Qed.
#[local] Hint Resolve walk_validateSegment walk_readDir walk_addPaths walk_addOutput : moves.

Lemma walk_leafLoop st gen off digit kids count : moves walkR (leafLoop st gen off digit kids count).
Proof. revert digit count. induction kids; intros; cbn [leafLoop]; moves_tac. Qed.
Lemma walk_innerLoop sub cap off entries digit kids count :
  (forall k o e, moves walkR (sub k o e)) -> moves walkR (innerLoop sub cap off entries digit kids count).
Proof. intros Hs. revert digit count. induction kids; intros; cbn [innerLoop]; moves_tac. Qed.
#[local] Hint Resolve walk_leafLoop walk_innerLoop : moves.
Lemma walk_walkDir st gen d node off entries : moves walkR (walkDir st gen d node off entries).
Proof.
  revert node off entries. induction d as [|d IH]; intros; cbn [walkDir]; moves_tac.
  intros w. split; [done|]. simpl. done.
Qed.
#[local] Hint Resolve walk_walkDir : moves.

Lemma Enumerate_frame cfg (h : Eng) r h' :
  Enumerate cfg h = (r, h') -> cur h' = cur h /\ R (blocks h) (blocks h').
Proof.
  unfold Enumerate, enumerate. intros H. destruct (enumerate_walk cfg (cur h) _ (walk0 h)) as [x w] eqn:E. injection H as <- <-.
  assert (Hm : moves walkR (enumerate_walk cfg (cur h) (collectionGeneration cfg h))); [|by apply Hm in E].
  unfold enumerate_walk. moves_tac.
Qed.
End Access.
