(* ===== verification/Json.v ===== *)
(** The text encodings of the Go standard library the program signs and names
    things in: encoding/hex, strconv decimals, and the encoding/json rendering of
    values (with its default HTML escaping and its treatment of invalid UTF-8).

    Proved: what hex encodes it decodes back. *)
From Stdlib Require Import Ascii.
From Stdlib Require String.
From Stdlib Require Strings.Byte.
From S2P Require Import Prelude Cid Schema Ledger.

(** ** encoding/hex *)

Definition hexDigit (z : Z) : byte := byte_of_Z (if z <? 10 then 48 + z else 87 + z).
Definition fromHexChar (b : byte) : option Z :=
  let z := byte_Z b in
  if (48 <=? z) && (z <=? 57) then Some (z - 48)
  else if (97 <=? z) && (z <=? 102) then Some (z - 87)
  else if (65 <=? z) && (z <=? 70) then Some (z - 55)
  else None.

Fixpoint hexEncode (l : bytes) : bytes :=
  match l with
  | [] => []
  | b :: l' => hexDigit (byte_Z b / 16) :: hexDigit (byte_Z b mod 16) :: hexEncode l'
  end.

(** hex.DecodeString: an odd length or a foreign character is an error. *)
Fixpoint hexDecode (l : bytes) : option bytes :=
  match l with
  | [] => Some []
  | a :: b :: l' =>
    x ← fromHexChar a; y ← fromHexChar b; r ← hexDecode l';
    Some (byte_of_Z (16 * x + y) :: r)
  | [_] => None
  end.

Definition EncodeToString (l : bytes) : string := bytes_string (hexEncode l).
Definition DecodeString (s : string) : option bytes := hexDecode (string_bytes s).

(** ** Decimals (strconv) *)

Fixpoint decLoop (fuel : nat) (n : Z) (acc : bytes) : bytes :=
  match fuel with
  | O => acc
  | S fuel' =>
    let acc := byte_of_Z (48 + n mod 10) :: acc in
    if n <? 10 then acc else decLoop fuel' (n / 10) acc
  end.
(** The number of decimal digits of [n >= 0] is at most [Z.log2 n + 1]. *)
Definition decUint (n : Z) : bytes := decLoop (S (Z.to_nat (Z.log2 n))) n [].
Definition decInt (n : Z) : bytes := if n <? 0 then Byte.x2d :: decUint (- n) else decUint n.

(** ** UTF-8 (unicode/utf8.DecodeRune) *)

Definition inRange (lo hi : Z) (b : byte) : bool := (lo <=? byte_Z b) && (byte_Z b <=? hi).

(** The length of the encoding a lead byte and what follows begin with; 0 when
    it is not a valid encoding. *)
Definition runeLen (b : byte) (rest : bytes) : nat :=
  let z := byte_Z b in
  if z <? 128 then 1
  else if inRange 194 223 b then
    match rest with b1 :: _ => if inRange 128 191 b1 then 2 else 0 | _ => 0 end
  else if inRange 224 239 b then
    match rest with
    | b1 :: b2 :: _ =>
      if inRange (if z =? 224 then 160 else 128) (if z =? 237 then 159 else 191) b1 && inRange 128 191 b2
      then 3 else 0
    | _ => 0
    end
  else if inRange 240 244 b then
    match rest with
    | b1 :: b2 :: b3 :: _ =>
      if inRange (if z =? 240 then 144 else 128) (if z =? 244 then 143 else 191) b1
         && inRange 128 191 b2 && inRange 128 191 b3
      then 4 else 0
    | _ => 0
    end
  else 0.

(** ** encoding/json *)

Definition backslash : byte := Byte.x5c.
Definition quote : byte := Byte.x22.

(** The ASCII characters that stand for themselves under HTML escaping. *)
Definition htmlSafe (b : byte) : bool :=
  let z := byte_Z b in
  (32 <=? z) && negb ((z =? 34) || (z =? 38) || (z =? 60) || (z =? 62) || (z =? 92)).

Definition escAscii (b : byte) : bytes :=
  if htmlSafe b then [b]
  else match b with
       | Byte.x5c => [backslash; Byte.x5c]
       | Byte.x22 => [backslash; Byte.x22]
       | Byte.x08 => [backslash; Byte.x62]
       | Byte.x0c => [backslash; Byte.x66]
       | Byte.x0a => [backslash; Byte.x6e]
       | Byte.x0d => [backslash; Byte.x72]
       | Byte.x09 => [backslash; Byte.x74]
       | _ => [backslash; Byte.x75; Byte.x30; Byte.x30; hexDigit (byte_Z b / 16); hexDigit (byte_Z b mod 16)]
       end.

Definition escInvalid : bytes := backslash :: string_bytes "ufffd".

(** One multi-byte rune: U+2028 and U+2029 are escaped, the others copied. *)
Definition escRune (r : bytes) : bytes :=
  match r with
  | [Byte.xe2; Byte.x80; Byte.xa8] => backslash :: string_bytes "u2028"
  | [Byte.xe2; Byte.x80; Byte.xa9] => backslash :: string_bytes "u2029"
  | _ => r
  end.

Fixpoint escString (l : bytes) : bytes :=
  match l with
  | [] => []
  | b :: l1 =>
    match runeLen b l1, l1 with
    | 1%nat, _ => escAscii b ++ escString l1
    | 2%nat, b1 :: l2 => escRune [b; b1] ++ escString l2
    | 3%nat, b1 :: b2 :: l3 => escRune [b; b1; b2] ++ escString l3
    | 4%nat, b1 :: b2 :: b3 :: l4 => escRune [b; b1; b2; b3] ++ escString l4
    | _, _ => escInvalid ++ escString l1
    end
  end.

Set Warnings "-register-all".
Inductive json : Type :=
| JNull
| JNum (z : Z)
| JStr (s : string)
| JArr (l : list json)
| JObj (l : list (string * json)).

Definition jsonString (s : string) : bytes := quote :: escString (string_bytes s) ++ [quote].

(** Elements separated by commas. *)
Fixpoint commas (l : list bytes) : bytes :=
  match l with
  | [] => []
  | [x] => x
  | x :: l' => x ++ Byte.x2c :: commas l'
  end.

Fixpoint render (j : json) : bytes :=
  match j with
  | JNull => string_bytes "null"
  | JNum z => decInt z
  | JStr s => jsonString s
  | JArr l => Byte.x5b :: commas (map render l) ++ [Byte.x5d]
  | JObj l => Byte.x7b :: commas (map (fun '(k, v) => jsonString k ++ Byte.x3a :: render v) l) ++ [Byte.x7d]
  end.

(** A field that is left out when it has no value ([omitempty]). *)
Definition omitempty (k : string) (v : option json) : list (string * json) :=
  match v with Some j => [(k, j)] | None => [] end.
Definition orNull (v : option Z) : json := from_option JNum JNull v.
(** A string field with [omitempty]. *)
Definition nonempty (s : string) : option json :=
  if decide (s = EmptyString) then None else Some (JStr s).

(** ** Hex decodes back *)

Lemma fromHexChar_digit z : 0 <= z < 16 -> fromHexChar (hexDigit z) = Some z.
Proof.
  intros Hz. assert (In z (map Z.of_nat (seq 0 16))) as Hin.
  { apply in_map_iff. exists (Z.to_nat z). split; [lia|]. apply in_seq. lia. }
  cbn in Hin. repeat (destruct Hin as [<-|Hin]; [reflexivity|]). done.
Qed.

Lemma hexDecode_Encode l : hexDecode (hexEncode l) = Some l.
Proof.
  induction l as [|b l IH]; [done|]. cbn [hexEncode hexDecode]. pose proof (byte_Z_range b).
  pose proof (Z.mod_pos_bound (byte_Z b) 16 ltac:(lia)).
  assert (0 <= byte_Z b / 16 < 16) by (split; [apply Z.div_pos|apply Z.div_lt_upper_bound]; lia).
  rewrite !fromHexChar_digit by done.
  rewrite IH. cbn. do 2 f_equal.
  rewrite <- Z.div_mod by lia. by apply byte_of_Z_byte.
Qed.

Lemma string_bytes_string l : string_bytes (bytes_string l) = l.
Proof. apply String.list_byte_of_string_of_list_byte. Qed.

Lemma DecodeString_Encode l : DecodeString (EncodeToString l) = Some l.
Proof. unfold DecodeString, EncodeToString. by rewrite string_bytes_string, hexDecode_Encode. Qed.

Lemma EncodeToString_nonempty l : l <> [] -> EncodeToString l <> EmptyString.
Proof.
  intros Hl E. apply (f_equal DecodeString) in E. rewrite DecodeString_Encode in E. by injection E.
Qed.
