(* ===== verification/JsonDecode.v ===== *)
(** encoding/json, reading: the grammar of Go's scanner, unquoting, and the
    decoding of a flat struct, with the field matching of the library (exact name,
    then case-folded), for the records the program keeps as JSON.

    Proved: the parser reads back what Json.v renders, whatever follows it, so a
    rendering determines the value. *)
From Stdlib Require Import Ascii.
From Stdlib Require String.
From Stdlib Require Strings.Byte.
From S2P Require Import Prelude Cid Schema Ledger Json.

(** ** Strings *)

(** utf8.AppendRune, of a rune that is not a surrogate. *)
Definition encodeRune (r : Z) : bytes :=
  if r <? 128 then [byte_of_Z r]
  else if r <? 2048 then [byte_of_Z (192 + r / 64); byte_of_Z (128 + r mod 64)]
  else if r <? 65536 then
    [byte_of_Z (224 + r / 4096); byte_of_Z (128 + r / 64 mod 64); byte_of_Z (128 + r mod 64)]
  else [byte_of_Z (240 + r / 262144); byte_of_Z (128 + r / 4096 mod 64);
        byte_of_Z (128 + r / 64 mod 64); byte_of_Z (128 + r mod 64)].
Definition replacementChar : bytes := [Byte.xef; Byte.xbf; Byte.xbd].

(** getu4, after the backslash and the [u]. *)
Definition getu4 (a b c d : byte) : option Z :=
  x ← fromHexChar a; y ← fromHexChar b; z ← fromHexChar c; w ← fromHexChar d;
  Some (4096 * x + 256 * y + 16 * z + w).

(** utf16.DecodeRune. *)
Definition surrogatePair (hi lo : Z) : option Z :=
  if (0xd800 <=? hi) && (hi <? 0xdc00) && (0xdc00 <=? lo) && (lo <? 0xe000)
  then Some (Z.lor (Z.shiftl (hi - 0xd800) 10) (lo - 0xdc00) + 0x10000) else None.
Definition isSurrogate (r : Z) : bool := (0xd800 <=? r) && (r <? 0xe000).

(** The character an escape letter stands for. *)
Definition unescape (c : byte) : option byte :=
  match c with
  | Byte.x22 => Some Byte.x22 | Byte.x5c => Some Byte.x5c | Byte.x2f => Some Byte.x2f
  | Byte.x62 => Some Byte.x08 | Byte.x66 => Some Byte.x0c | Byte.x6e => Some Byte.x0a
  | Byte.x72 => Some Byte.x0d | Byte.x74 => Some Byte.x09
  | _ => None
  end.

Definition prepend (p : bytes) (r : option (bytes * bytes)) : option (bytes * bytes) :=
  '(s, rest) ← r; Some (p ++ s, rest).

(** The contents of a string after its opening quote, unquoted, and what follows the
    closing quote. *)
Fixpoint unquote (l : bytes) : option (bytes * bytes) :=
  match l with
  | [] => None
  | b :: l1 =>
    if bool_decide (b = quote) then Some ([], l1)
    else if bool_decide (b = backslash) then
      match l1 with
      | Byte.x75 :: h1 :: h2 :: h3 :: h4 :: l6 =>
        match getu4 h1 h2 h3 h4 with
        | None => None
        | Some r =>
          if isSurrogate r then
            match l6 with
            | Byte.x5c :: Byte.x75 :: g1 :: g2 :: g3 :: g4 :: l12 =>
              match getu4 g1 g2 g3 g4 ≫= surrogatePair r with
              | Some dec => prepend (encodeRune dec) (unquote l12)
              | None => prepend replacementChar (unquote l6)
              end
            | _ => prepend replacementChar (unquote l6)
            end
          else prepend (encodeRune r) (unquote l6)
        end
      | c :: l2 => match unescape c with Some x => prepend [x] (unquote l2) | None => None end
      | [] => None
      end
    else if byte_Z b <? 32 then None
    else
      match runeLen b l1, l1 with
      | 1%nat, _ => prepend [b] (unquote l1)
      | 2%nat, b1 :: l2 => prepend [b; b1] (unquote l2)
      | 3%nat, b1 :: b2 :: l3 => prepend [b; b1; b2] (unquote l3)
      | 4%nat, b1 :: b2 :: b3 :: l4 => prepend [b; b1; b2; b3] (unquote l4)
      | _, _ => prepend replacementChar (unquote l1)
      end
  end.

(** ** Numbers *)

Definition isDigit (b : byte) : bool := inRange 48 57 b.
Fixpoint spanDigits (l : bytes) : bytes * bytes :=
  match l with
  | b :: l' => if isDigit b then let '(d, rest) := spanDigits l' in (b :: d, rest) else ([], l)
  | [] => ([], [])
  end.

(** At least one digit, after the given characters. *)
Definition digitsAfter (p : bytes) (l : bytes) : option (bytes * bytes) :=
  match spanDigits l with ([], _) => None | (d, rest) => Some (p ++ d, rest) end.

Definition lexFrac (l : bytes) : option (bytes * bytes) :=
  match l with Byte.x2e :: l' => digitsAfter [Byte.x2e] l' | _ => Some ([], l) end.
Definition lexExp (l : bytes) : option (bytes * bytes) :=
  match l with
  | (Byte.x65 | Byte.x45) as e :: l' =>
    match l' with
    | (Byte.x2b | Byte.x2d) as s :: l'' => digitsAfter [e; s] l''
    | _ => digitsAfter [e] l'
    end
  | _ => Some ([], l)
  end.
Definition lexInt (l : bytes) : option (bytes * bytes) :=
  match l with
  | Byte.x30 :: l' => Some ([Byte.x30], l')
  | _ => digitsAfter [] l
  end.
Definition lexSign (l : bytes) : bytes * bytes :=
  match l with Byte.x2d :: l' => ([Byte.x2d], l') | _ => ([], l) end.
Definition lexNum (l : bytes) : option (bytes * bytes) :=
  let '(sign, l) := lexSign l in
  '(i, l) ← lexInt l; '(f, l) ← lexFrac l; '(e, l) ← lexExp l;
  Some (sign ++ i ++ f ++ e, l).

(** ** Values *)

Set Warnings "-register-all".
(** A parsed value: a number keeps its literal. *)
Inductive jtok : Type :=
| TNull
| TBool (b : bool)
| TNum (lit : bytes)
| TStr (s : string)
| TArr (l : list jtok)
| TObj (l : list (string * jtok)).

Definition isSpace (b : byte) : bool :=
  match b with Byte.x20 | Byte.x09 | Byte.x0d | Byte.x0a => true | _ => false end.
Fixpoint skipSpace (l : bytes) : bytes :=
  match l with b :: l' => if isSpace b then skipSpace l' else l | [] => [] end.

Fixpoint stripPrefix (p l : bytes) : option bytes :=
  match p, l with
  | [], _ => Some l
  | a :: p', b :: l' => if bool_decide (a = b) then stripPrefix p' l' else None
  | _, [] => None
  end.
Definition maxNestingDepth : Z := 10000.

(** What follows the given character, if it is next. *)
Definition peel (c : byte) (l : bytes) : option bytes :=
  match skipSpace l with b :: l' => if bool_decide (b = c) then Some l' else None | [] => None end.

(** What a value starts with. *)
Inductive lead : Type := LObj | LArr | LStr | LNull | LTrue | LFalse | LNum.
Definition leadOf (b : byte) : lead :=
  match b with
  | Byte.x7b => LObj | Byte.x5b => LArr | Byte.x22 => LStr
  | Byte.x6e => LNull | Byte.x74 => LTrue | Byte.x66 => LFalse
  | _ => LNum
  end.

(** The value at the head of the input and what follows it; the fuel bounds the
    calls, and one more than twice the length of the input is enough ([parse_fuel]). *)
Fixpoint parseValue (fuel : nat) (depth : Z) (l : bytes) : option (jtok * bytes) :=
  match fuel with
  | O => None
  | S fuel =>
    match skipSpace l with
    | [] => None
    | b :: l1 =>
      match leadOf b with
      | LObj =>
        if maxNestingDepth <? depth + 1 then None else
        match peel Byte.x7d l1 with
        | Some l2 => Some (TObj [], l2)
        | None => '(ms, l2) ← parseMembers fuel (depth + 1) l1; Some (TObj ms, l2)
        end
      | LArr =>
        if maxNestingDepth <? depth + 1 then None else
        match peel Byte.x5d l1 with
        | Some l2 => Some (TArr [], l2)
        | None => '(xs, l2) ← parseElems fuel (depth + 1) l1; Some (TArr xs, l2)
        end
      | LStr => '(s, l2) ← unquote l1; Some (TStr (bytes_string s), l2)
      | LNull => l2 ← stripPrefix (string_bytes "ull") l1; Some (TNull, l2)
      | LTrue => l2 ← stripPrefix (string_bytes "rue") l1; Some (TBool true, l2)
      | LFalse => l2 ← stripPrefix (string_bytes "alse") l1; Some (TBool false, l2)
      | LNum => '(lit, l2) ← lexNum (b :: l1); Some (TNum lit, l2)
      end
    end
  end
with parseMembers (fuel : nat) (depth : Z) (l : bytes) : option (list (string * jtok) * bytes) :=
  match fuel with
  | O => None
  | S fuel =>
    l1 ← peel quote l; '(k, l2) ← unquote l1; l3 ← peel Byte.x3a l2;
    '(v, l4) ← parseValue fuel depth l3;
    match peel Byte.x2c l4 with
    | Some l5 => '(ms, l6) ← parseMembers fuel depth l5; Some ((bytes_string k, v) :: ms, l6)
    | None => l5 ← peel Byte.x7d l4; Some ([(bytes_string k, v)], l5)
    end
  end
with parseElems (fuel : nat) (depth : Z) (l : bytes) : option (list jtok * bytes) :=
  match fuel with
  | O => None
  | S fuel =>
    '(v, l1) ← parseValue fuel depth l;
    match peel Byte.x2c l1 with
    | Some l2 => '(vs, l3) ← parseElems fuel depth l2; Some (v :: vs, l3)
    | None => l2 ← peel Byte.x5d l1; Some ([v], l2)
    end
  end.

(** The first value of a stream ([Decoder.Decode]). *)
Definition decodeFirst (l : bytes) : option (jtok * bytes) := parseValue (S (2 * length l)) 0 l.
(** A whole input ([json.Unmarshal]). *)
Definition decodeAll (l : bytes) : option jtok :=
  '(v, rest) ← decodeFirst l; match skipSpace rest with [] => Some v | _ => None end.

(** ** Structs *)

(** strconv.ParseUint and ParseInt, base 10, 64 bits, on a JSON number. *)
Definition parseDigits (l : bytes) : option Z :=
  match l with
  | [] => None
  | _ => if forallb isDigit l then Some (foldl (fun a b => a * 10 + (byte_Z b - 48)) 0 l) else None
  end.
Definition parseUint64 (l : bytes) : option Z :=
  n ← parseDigits l; if n <? 2 ^ 64 then Some n else None.
Definition parseInt64 (l : bytes) : option Z :=
  match lexSign l with
  | ([], l') => n ← parseDigits l'; if n <? 2 ^ 63 then Some n else None
  | (_, l') => n ← parseDigits l'; if n <=? 2 ^ 63 then Some (- n) else None
  end.

(** How a token changes a field: null leaves a value alone and clears a pointer. *)
Definition onString (t : jtok) (old : string) : option string :=
  match t with TNull => Some old | TStr s => Some s | _ => None end.
Definition onUint64 (t : jtok) (old : Z) : option Z :=
  match t with TNull => Some old | TNum lit => parseUint64 lit | _ => None end.
Definition onInt (t : jtok) (old : Z) : option Z :=
  match t with TNull => Some old | TNum lit => parseInt64 lit | _ => None end.
Definition onUint64Ptr (t : jtok) (old : option Z) : option (option Z) :=
  match t with TNull => Some None | TNum lit => Some <$> parseUint64 lit | _ => None end.

(** foldName, of a key that is compared with an ASCII name: the two runes outside
    ASCII whose fold class has an ASCII letter are U+017F and U+212A. *)
Fixpoint foldName (l : bytes) : bytes :=
  match l with
  | Byte.xc5 :: Byte.xbf :: l' => Byte.x53 :: foldName l'
  | Byte.xe2 :: Byte.x84 :: Byte.xaa :: l' => Byte.x4b :: foldName l'
  | b :: l' => (if inRange 97 122 b then byte_of_Z (byte_Z b - 32) else b) :: foldName l'
  | [] => []
  end.

Section Struct.
Context {R : Type}.

(** The fields of a struct: JSON name and decoder. *)
Local Abbreviation fields := (list (string * (jtok -> R -> option R))).

Definition findField (fs : fields) (k : string) : option (jtok -> R -> option R) :=
  match List.find (fun f => bool_decide (fst f = k)) fs with
  | Some f => Some (snd f)
  | None => snd <$> List.find (fun f => bool_decide (foldName (string_bytes (fst f)) = foldName (string_bytes k))) fs
  end.

Fixpoint decodeMembers (fs : fields) (disallowUnknown : bool) (ms : list (string * jtok)) (r : R) : option R :=
  match ms with
  | [] => Some r
  | (k, v) :: ms' =>
    match findField fs k with
    | Some f => r' ← f v r; decodeMembers fs disallowUnknown ms' r'
    | None => if disallowUnknown then None else decodeMembers fs disallowUnknown ms' r
    end
  end.

Definition decodeStruct (fs : fields) (disallowUnknown : bool) (t : jtok) (r : R) : option R :=
  match t with
  | TNull => Some r
  | TObj ms => decodeMembers fs disallowUnknown ms r
  | _ => None
  end.
End Struct.

(** ** What is rendered reads back *)

(** A string that is valid UTF-8, so that rendering it loses nothing. *)
Fixpoint utf8Valid (l : bytes) : bool :=
  match l with
  | [] => true
  | b :: l1 =>
    match runeLen b l1, l1 with
    | 1%nat, _ => utf8Valid l1
    | 2%nat, _ :: l2 => utf8Valid l2
    | 3%nat, _ :: _ :: l3 => utf8Valid l3
    | 4%nat, _ :: _ :: _ :: l4 => utf8Valid l4
    | _, _ => false
    end
  end.
Definition validString (s : string) : bool := utf8Valid (string_bytes s).

Lemma runeLen_ascii b l : runeLen b l = 1%nat -> byte_Z b < 128.
Proof.
  unfold runeLen. destruct (Z.ltb_spec (byte_Z b) 128) as [H|H]; [done|]. intros E. exfalso.
  repeat (case_match; try discriminate E).
Qed.

Lemma runeLen_high b l : runeLen b l <> 1%nat -> 128 <= byte_Z b.
Proof. unfold runeLen. destruct (Z.ltb_spec (byte_Z b) 128) as [H|H]; [done|]. by intros _. Qed.

(** The length of a rune depends on its own bytes. *)
Lemma runeLen_two b b1 l l' : runeLen b (b1 :: l) = 2%nat -> runeLen b (b1 :: l') = 2%nat.
Proof. unfold runeLen. destruct (byte_Z b <? 128); [done|]. destruct (inRange 194 223 b); [done|]. repeat case_match; done. Qed.
Lemma runeLen_three b b1 b2 l l' : runeLen b (b1 :: b2 :: l) = 3%nat -> runeLen b (b1 :: b2 :: l') = 3%nat.
Proof.
  unfold runeLen. destruct (byte_Z b <? 128); [done|]. destruct (inRange 194 223 b); [done|].
  destruct (inRange 224 239 b); [done|]. repeat case_match; done.
Qed.
Lemma runeLen_four b b1 b2 b3 l l' : runeLen b (b1 :: b2 :: b3 :: l) = 4%nat -> runeLen b (b1 :: b2 :: b3 :: l') = 4%nat.
Proof.
  unfold runeLen. destruct (byte_Z b <? 128); [done|]. destruct (inRange 194 223 b); [done|].
  destruct (inRange 224 239 b); [repeat case_match; done|]. done.
Qed.

Lemma unquote_ascii b l : byte_Z b < 128 -> unquote (escAscii b ++ l) = prepend [b] (unquote l).
Proof. intros H. destruct b; try reflexivity; exfalso; vm_compute in H; discriminate H. Qed.

(** A byte above ASCII starts a rune. *)
Lemma unquote_high b l : 128 <= byte_Z b ->
  unquote (b :: l) =
  match runeLen b l, l with
  | 1%nat, _ => prepend [b] (unquote l)
  | 2%nat, b1 :: l2 => prepend [b; b1] (unquote l2)
  | 3%nat, b1 :: b2 :: l3 => prepend [b; b1; b2] (unquote l3)
  | 4%nat, b1 :: b2 :: b3 :: l4 => prepend [b; b1; b2; b3] (unquote l4)
  | _, _ => prepend replacementChar (unquote l)
  end.
Proof.
  intros H. cbn [unquote]. rewrite bool_decide_eq_false_2, bool_decide_eq_false_2.
  - by rewrite (proj2 (Z.ltb_ge _ _)) by lia.
  - intros ->. vm_compute in H. by apply H.
  - intros ->. vm_compute in H. by apply H.
Qed.

Lemma escRune_two b b1 : escRune [b; b1] = [b; b1].
Proof. destruct b; try done. by destruct b1. Qed.
Lemma escRune_four b b1 b2 b3 : escRune [b; b1; b2; b3] = [b; b1; b2; b3].
Proof. destruct b; try done. destruct b1; try done. by destruct b2. Qed.
Lemma escRune_three b b1 b2 : escRune [b; b1; b2] = [b; b1; b2] \/
  (b = Byte.xe2 /\ b1 = Byte.x80 /\ (b2 = Byte.xa8 \/ b2 = Byte.xa9)).
Proof.
  destruct (decide (b = Byte.xe2)) as [->|H]; [|left; by destruct b].
  destruct (decide (b1 = Byte.x80)) as [->|H]; [|left; by destruct b1].
  destruct (decide (b2 = Byte.xa8)) as [->|H]; [auto|]. destruct (decide (b2 = Byte.xa9)) as [->|H']; [auto|].
  left. by destruct b2.
Qed.

Lemma unquote_esc l rest : utf8Valid l = true -> unquote (escString l ++ quote :: rest) = Some (l, rest).
Proof.
  remember (length l) as n eqn:Hn. assert (Hle : (length l <= n)%nat) by lia. clear Hn.
  revert l Hle. induction n as [|n IH]; intros [|b l1] Hle Hv; simpl in Hle; try done; try lia.
  cbn [escString utf8Valid] in *. destruct (runeLen b l1) as [|[|[|[|[|k]]]]] eqn:Er; try done.
  - rewrite <- app_assoc, unquote_ascii by (by eapply runeLen_ascii). rewrite IH; [done|lia|done].
  - assert (128 <= byte_Z b) by (eapply runeLen_high; by rewrite Er).
    destruct l1 as [|b1 l2]; [done|]. simpl in Hle. rewrite <- app_assoc, escRune_two. cbn [app].
    rewrite unquote_high by done. erewrite runeLen_two by done. rewrite IH; [done|lia|done].
  - assert (128 <= byte_Z b) by (eapply runeLen_high; by rewrite Er).
    destruct l1 as [|b1 [|b2 l3]]; [done..|]. simpl in Hle. rewrite <- app_assoc.
    destruct (escRune_three b b1 b2) as [->|(-> & -> & [-> | ->])].
    + cbn [app]. rewrite unquote_high by done. erewrite runeLen_three by done. rewrite IH; [done|lia|done].
    + change (escRune _ ++ ?x) with (backslash :: string_bytes "u2028" ++ x).
      transitivity (prepend [Byte.xe2; Byte.x80; Byte.xa8] (unquote (escString l3 ++ quote :: rest))); [done|].
      rewrite IH; [done|lia|done].
    + change (escRune _ ++ ?x) with (backslash :: string_bytes "u2029" ++ x).
      transitivity (prepend [Byte.xe2; Byte.x80; Byte.xa9] (unquote (escString l3 ++ quote :: rest))); [done|].
      rewrite IH; [done|lia|done].
  - assert (128 <= byte_Z b) by (eapply runeLen_high; by rewrite Er).
    destruct l1 as [|b1 [|b2 [|b3 l4]]]; [done..|]. simpl in Hle. rewrite <- app_assoc, escRune_four. cbn [app]. rewrite unquote_high by done. erewrite runeLen_four by done. rewrite IH; [done|lia|done].
Qed.

(** *** Decimals *)

Definition digitsVal (l : bytes) : Z := foldl (fun a b => a * 10 + (byte_Z b - 48)) 0 l.

Lemma digitsVal_snoc l b : digitsVal (l ++ [b]) = digitsVal l * 10 + (byte_Z b - 48).
Proof. unfold digitsVal. by rewrite foldl_app. Qed.

Lemma digit_byte d : 0 <= d < 10 -> byte_Z (byte_of_Z (48 + d)) = 48 + d.
Proof. intros. rewrite byte_Z_of_Z. apply Z.mod_small. lia. Qed.

(** The digits of [n], most significant first, without a leading zero. *)
Lemma decLoop_digits fuel n acc : 0 <= n -> n < 2 ^ Z.of_nat fuel -> fuel <> O ->
  exists d, decLoop fuel n acc = d ++ acc /\ d <> [] /\ forallb isDigit d = true /\ digitsVal d = n /\
            (head d = Some Byte.x30 -> d = [Byte.x30]).
Proof.
  revert n acc. induction fuel as [|fuel IH]; intros n acc Hn Hf Hz; [done|]. clear Hz.
  cbn [decLoop]. rewrite Nat2Z.inj_succ, Z.pow_succ_r in Hf by lia.
  destruct (Z.ltb_spec n 10) as [Hlt|Hge].
  - exists [byte_of_Z (48 + n mod 10)]. rewrite Z.mod_small by lia. repeat split; try done.
    + cbn. unfold isDigit, inRange. rewrite digit_byte by lia.
      rewrite !(proj2 (Z.leb_le _ _)) by lia. done.
    + unfold digitsVal. cbn [foldl]. rewrite digit_byte by lia. lia.
    + intros [= H]. by rewrite H.
  - assert (Hq : 1 <= n / 10 < n) by (split; [apply Z.div_le_lower_bound|apply Z.div_lt]; lia).
    destruct (IH (n / 10) (byte_of_Z (48 + n mod 10) :: acc)) as (d & -> & Hne & Hd & Hv & Hz);
      [lia|apply Z.div_lt_upper_bound; lia|intros ->; simpl in Hf; lia|].
    pose proof (Z.mod_pos_bound n 10 ltac:(lia)) as Hm.
    exists (d ++ [byte_of_Z (48 + n mod 10)]). repeat split.
    + by rewrite <- app_assoc.
    + by destruct d.
    + rewrite forallb_app, Hd. cbn. unfold isDigit, inRange. rewrite digit_byte by lia.
      rewrite !(proj2 (Z.leb_le _ _)) by lia. done.
    + rewrite digitsVal_snoc, Hv, digit_byte by lia. rewrite (Z.div_mod n 10) at 3 by lia. lia.
    + destruct d as [|x d']; [done|]. intros Hx. specialize (Hz Hx). injection Hz as -> ->.
      exfalso. unfold digitsVal in Hv. cbn in Hv. lia.
Qed.

Lemma decUint_digits n : 0 <= n ->
  decUint n <> [] /\ forallb isDigit (decUint n) = true /\ digitsVal (decUint n) = n /\
  (head (decUint n) = Some Byte.x30 -> decUint n = [Byte.x30]).
Proof.
  intros Hn. unfold decUint. destruct (decLoop_digits (S (Z.to_nat (Z.log2 n))) n []) as (d & E & H); [done| |done|].
  - destruct (decide (n = 0)) as [->|]; [done|]. rewrite Nat2Z.inj_succ, Z2Nat.id by apply Z.log2_nonneg.
    apply Z.log2_spec. lia.
  - rewrite E, app_nil_r. destruct H as (? & ? & ? & ?). auto.
Qed.

(** What may follow a number. *)
Definition ends (l : bytes) : bool :=
  match l with [] => true | b :: _ => match b with Byte.x2c | Byte.x5d | Byte.x7d => true | _ => false end end.

Lemma spanDigits_app d rest : forallb isDigit d = true -> ends rest = true -> spanDigits (d ++ rest) = (d, rest).
Proof.
  intros Hd Hr. induction d as [|b d IH]; simpl in *.
  - destruct rest as [|b rest]; [done|]. by destruct b.
  - apply andb_true_iff in Hd as [Hb Hd]. by rewrite Hb, (IH Hd).
Qed.

Lemma lexNum_decUint n rest : 0 <= n -> ends rest = true ->
  lexInt (decUint n ++ rest) = Some (decUint n, rest).
Proof.
  intros Hn Hr. destruct (decUint_digits n Hn) as (Hne & Hd & _ & Hz). unfold lexInt, digitsAfter.
  rewrite spanDigits_app by done. destruct (decUint n) as [|b d]; [done|].
  destruct (decide (b = Byte.x30)) as [->|Hb]; [by rewrite Hz|]. cbn [app]. by destruct b.
Qed.

Lemma lexSign_decUint n rest : 0 <= n -> lexSign (decUint n ++ rest) = ([], decUint n ++ rest).
Proof.
  intros Hn. destruct (decUint_digits n Hn) as (Hne & Hd & _). destruct (decUint n) as [|b d]; [done|].
  cbn in *. by destruct b.
Qed.

Lemma lexRest rest : ends rest = true -> lexFrac rest = Some ([], rest) /\ lexExp rest = Some ([], rest).
Proof. destruct rest as [|b rest]; [done|]. by destruct b. Qed.

Lemma lexNum_decInt z rest : ends rest = true -> lexNum (decInt z ++ rest) = Some (decInt z, rest).
Proof.
  intros Hr. pose proof (lexRest rest Hr) as [Hf He]. unfold lexNum, decInt. destruct (Z.ltb_spec z 0).
  - cbn [app]. change (lexSign (Byte.x2d :: ?l)) with ([Byte.x2d], l). cbv beta iota zeta.
    rewrite lexNum_decUint by (done || lia). cbn. rewrite Hf. cbn. rewrite He. cbn. by rewrite app_nil_r.
  - rewrite lexSign_decUint, lexNum_decUint by (done || lia). cbn. rewrite Hf. cbn. rewrite He. cbn. by rewrite app_nil_r.
Qed.

Lemma parseDigits_decUint n : 0 <= n -> parseDigits (decUint n) = Some n.
Proof.
  intros Hn. destruct (decUint_digits n Hn) as (Hne & Hd & Hv & _). unfold parseDigits.
  destruct (decUint n) as [|b d] eqn:E; [done|]. rewrite Hd. unfold digitsVal in Hv. by rewrite Hv.
Qed.

Lemma parseUint64_dec n : is_u64 n -> parseUint64 (decInt n) = Some n.
Proof.
  intros [? ?]. unfold parseUint64, decInt. rewrite (proj2 (Z.ltb_ge _ _)) by lia. rewrite parseDigits_decUint by lia.
  cbn. by rewrite (proj2 (Z.ltb_lt _ _)) by lia.
Qed.

Lemma parseInt64_dec n : - 2 ^ 63 <= n < 2 ^ 63 -> parseInt64 (decInt n) = Some n.
Proof.
  intros [? ?]. unfold parseInt64, decInt. destruct (Z.ltb_spec n 0).
  - change (lexSign (Byte.x2d :: ?l)) with ([Byte.x2d], l). cbv beta iota. rewrite parseDigits_decUint by lia. cbn. rewrite (proj2 (Z.leb_le _ _)) by lia. f_equal. lia.
  - rewrite <- (app_nil_r (decUint n)), lexSign_decUint, app_nil_r, parseDigits_decUint by lia. cbn. by rewrite (proj2 (Z.ltb_lt _ _)) by lia.
Qed.

(** *** Values *)

Fixpoint emb (j : json) : jtok :=
  match j with
  | JNull => TNull
  | JNum z => TNum (decInt z)
  | JStr s => TStr s
  | JArr l => TArr (map emb l)
  | JObj l => TObj (map (fun '(k, v) => (k, emb v)) l)
  end.

(** Every string in the value is valid UTF-8. *)
Fixpoint jsonValid (j : json) : bool :=
  match j with
  | JNull | JNum _ => true
  | JStr s => validString s
  | JArr l => forallb jsonValid l
  | JObj l => forallb (fun '(k, v) => validString k && jsonValid v) l
  end.

Fixpoint jsize (j : json) : nat :=
  match j with
  | JNull | JNum _ | JStr _ => 1
  | JArr l => S (list_sum (map (fun v => S (jsize v)) l))
  | JObj l => S (list_sum (map (fun '(_, v) => S (jsize v)) l))
  end.

Fixpoint jheight (j : json) : Z :=
  match j with
  | JNull | JNum _ | JStr _ => 0
  | JArr l => 1 + foldr (fun v m => Z.max (jheight v) m) 0 l
  | JObj l => 1 + foldr (fun '(_, v) m => Z.max (jheight v) m) 0 l
  end.

Lemma jheight_nonneg j : 0 <= jheight j.
Proof.
  destruct j as [| | |l|l]; simpl; try lia.
  - enough (0 <= foldr (fun v m => Z.max (jheight v) m) 0 l) by lia. induction l; simpl; lia.
  - enough (0 <= foldr (fun '(_, v) m => Z.max (jheight v) m) 0 l) by lia. induction l as [|[] l IH]; simpl; lia.
Qed.

Definition leadFor (j : json) : lead :=
  match j with JNull => LNull | JNum _ => LNum | JStr _ => LStr | JArr _ => LArr | JObj _ => LObj end.

(** A rendering starts with the character of its kind. *)
Lemma render_head j rest : exists b l, render j ++ rest = b :: l /\ isSpace b = false /\ leadOf b = leadFor j /\
  b <> Byte.x5d /\ b <> Byte.x7d.
Proof.
  destruct j as [|z|s|l|l]; cbn; [eexists _, _; repeat split; done| |eexists _, _; repeat split; done..].
  unfold decInt. destruct (Z.ltb_spec z 0); [eexists _, _; repeat split; done|].
  destruct (decUint_digits z ltac:(lia)) as (Hne & Hd & _). destruct (decUint z) as [|b d]; [done|].
  exists b, (d ++ rest). cbn in Hd. split; [done|]. by destruct b.
Qed.

Lemma peel_at c b l : isSpace b = false -> peel c (b :: l) = if bool_decide (b = c) then Some l else None.
Proof. intros H. unfold peel. cbn. by rewrite H. Qed.

Lemma peel_same c l : isSpace c = false -> peel c (c :: l) = Some l.
Proof. intros H. rewrite peel_at by done. by rewrite bool_decide_eq_true_2. Qed.
Lemma peel_other c b l : isSpace b = false -> b <> c -> peel c (b :: l) = None.
Proof. intros H Hb. rewrite peel_at by done. by rewrite bool_decide_eq_false_2. Qed.

(** The members of an object and the elements of an array, once their values read back. *)
Definition reads (j : json) : Prop := forall fuel depth rest,
  (jsize j <= fuel)%nat -> depth + jheight j <= maxNestingDepth -> ends rest = true ->
  parseValue fuel depth (render j ++ rest) = Some (emb j, rest).

Definition member (m : string * json) : bytes := let '(k, v) := m in jsonString k ++ Byte.x3a :: render v.

Lemma unquote_key k l : validString k = true ->
  unquote (escString (string_bytes k) ++ [quote] ++ l) = Some (string_bytes k, l).
Proof. apply unquote_esc. Qed.

Lemma read_members m l fuel depth rest :
  Forall (fun '(k, v) => validString k = true /\ reads v) (m :: l) ->
  (list_sum (map (fun '(_, v) => S (jsize v)) (m :: l)) <= fuel)%nat ->
  depth + foldr (fun '(_, v) z => Z.max (jheight v) z) 0 (m :: l) <= maxNestingDepth ->
  parseMembers fuel depth (commas (map member (m :: l)) ++ Byte.x7d :: rest) =
  Some (map (fun '(k, v) => (k, emb v)) (m :: l), rest).
Proof.
  revert m fuel. induction l as [|m' l IH]; intros [k v] fuel Hf Hs Hh.
  all: apply Forall_cons in Hf as [[Hk Hv] Hf]; destruct fuel as [|fuel]; [cbn in Hs; lia|].
  - cbn [map commas member]. unfold jsonString. cbn [app parseMembers]. rewrite peel_same by done. cbn [mbind option_bind].
    rewrite <- !app_assoc, unquote_key by done. cbn [mbind option_bind app]. rewrite peel_same by done. cbn [mbind option_bind].
    cbn in Hs, Hh. rewrite Hv by (done || lia). cbn [mbind option_bind]. rewrite peel_other, peel_same by done. cbn.
    by rewrite bytes_string_bytes.
  - cbn [map commas member]. unfold jsonString. cbn [app]. rewrite <- !app_assoc. cbn [parseMembers].
    rewrite peel_same by done. cbn [mbind option_bind]. rewrite unquote_key by done. cbn [mbind option_bind app].
    rewrite peel_same by done. cbn [mbind option_bind].
    cbn in Hs, Hh. rewrite Hv by (done || lia). cbn [mbind option_bind]. rewrite peel_same by done. cbn.
    specialize (IH m' fuel Hf ltac:(cbn; lia) ltac:(cbn; lia)). cbn in IH. rewrite IH. cbn. by rewrite bytes_string_bytes.
Qed.

Lemma read_elems v l fuel depth rest :
  Forall reads (v :: l) ->
  (list_sum (map (fun v => S (jsize v)) (v :: l)) <= fuel)%nat ->
  depth + foldr (fun v z => Z.max (jheight v) z) 0 (v :: l) <= maxNestingDepth ->
  parseElems fuel depth (commas (map render (v :: l)) ++ Byte.x5d :: rest) = Some (map emb (v :: l), rest).
Proof.
  revert v fuel. induction l as [|v' l IH]; intros v fuel Hf Hs Hh.
  all: apply Forall_cons in Hf as [Hv Hf]; destruct fuel as [|fuel]; [cbn in Hs; lia|]; cbn in Hs, Hh; cbn.
  - rewrite Hv by (done || lia). cbn [mbind option_bind]. by rewrite peel_other, peel_same by done.
  - rewrite <- app_assoc. cbn [app]. rewrite Hv by (done || lia). cbn [mbind option_bind]. rewrite peel_same by done.
    specialize (IH v' fuel Hf ltac:(cbn; lia) ltac:(cbn; lia)). cbn in IH. by rewrite IH.
Qed.

Lemma commas_head {A} (f : A -> bytes) x l rest : exists t, commas (map f (x :: l)) ++ rest = f x ++ t.
Proof. destruct l; cbn; [by exists rest|]. rewrite <- app_assoc. eauto. Qed.

Lemma sub_size {A} (f : A -> nat) x l : x ∈ l -> (f x <= list_sum (map f l))%nat.
Proof. intros (l1 & l2 & ->)%list_elem_of_split. rewrite map_app, list_sum_app. cbn. lia. Qed.

Lemma read_array l fuel depth rest : Forall reads l -> (jsize (JArr l) <= fuel)%nat ->
  depth + jheight (JArr l) <= maxNestingDepth -> parseValue fuel depth (render (JArr l) ++ rest) = Some (emb (JArr l), rest).
Proof.
  intros Hall Hs Hh. destruct fuel as [|fuel]; [cbn in Hs; lia|]. cbn [render app]. cbn [parseValue skipSpace].
  change (isSpace Byte.x5b) with false. cbv iota. change (leadOf Byte.x5b) with LArr. cbv iota.
  destruct l as [|v l]; [cbn in Hh; cbn; by rewrite (proj2 (Z.ltb_ge _ _)) by lia|].
  pose proof (jheight_nonneg v). cbn [jheight] in Hh. rewrite (proj2 (Z.ltb_ge _ _)) by (cbn in *; lia).
  rewrite <- app_assoc. cbn [app]. destruct (commas_head render v l (Byte.x5d :: rest)) as [t Et].
  pose proof (read_elems v l fuel (depth + 1) rest Hall ltac:(cbn in *; lia) ltac:(cbn in *; lia)) as Hp. rewrite Et in *.
  destruct (render_head v t) as (b & t' & Eb & Hsp & _ & Hb & _). rewrite Eb in *.
  rewrite peel_other by done. by rewrite Hp.
Qed.

Lemma read_object l fuel depth rest : Forall (fun '(k, v) => validString k = true /\ reads v) l ->
  (jsize (JObj l) <= fuel)%nat -> depth + jheight (JObj l) <= maxNestingDepth ->
  parseValue fuel depth (render (JObj l) ++ rest) = Some (emb (JObj l), rest).
Proof.
  intros Hall Hs Hh. destruct fuel as [|fuel]; [cbn in Hs; lia|]. cbn [render app]. cbn [parseValue skipSpace].
  change (isSpace Byte.x7b) with false. cbv iota. change (leadOf Byte.x7b) with LObj. cbv iota.
  destruct l as [|[k v] l]; [cbn in Hh; cbn; by rewrite (proj2 (Z.ltb_ge _ _)) by lia|].
  pose proof (jheight_nonneg v). cbn [jheight] in Hh. rewrite (proj2 (Z.ltb_ge _ _)) by (cbn in *; lia).
  rewrite <- app_assoc. cbn [app].
  change (map (fun '(k, v) => jsonString k ++ Byte.x3a :: render v) ((k, v) :: l)) with (map member ((k, v) :: l)).
  pose proof (read_members (k, v) l fuel (depth + 1) rest Hall ltac:(cbn in *; lia) ltac:(cbn in *; lia)) as Hp.
  destruct (commas_head member (k, v) l (Byte.x7d :: rest)) as [t Et]. rewrite Et in *. cbn [member app] in *.
  unfold jsonString in *. cbn [app] in *. rewrite peel_other by done. by rewrite Hp.
Qed.

Lemma read_render j : jsonValid j = true -> reads j.
Proof.
  remember (jsize j) as n eqn:Hn. assert (Hle : (jsize j <= n)%nat) by lia. clear Hn. revert j Hle.
  induction n as [|n IH]; intros j Hle Hv fuel depth rest Hs Hh Hr; [destruct j; cbn in *; lia|].
  destruct j as [|z|s|l|l].
  - destruct fuel; [cbn in Hs; lia|done].
  - destruct fuel as [|fuel]; [cbn in Hs; lia|]. destruct (render_head (JNum z) rest) as (b & t & E & Hsp & Hb & _).
    pose proof (lexNum_decInt z rest Hr) as Hl. cbn [render] in *. rewrite E in *. cbn [parseValue skipSpace].
    rewrite Hsp. cbv iota. rewrite Hb. cbn [leadFor]. by rewrite Hl.
  - destruct fuel as [|fuel]; [cbn in Hs; lia|]. cbn. rewrite <- app_assoc, unquote_key by done. cbn. by rewrite bytes_string_bytes.
  - apply read_array; [|done..]. apply Forall_forall. intros x Hx. cbn [jsonValid] in Hv. rewrite forallb_forall in Hv.
    apply IH; [|apply Hv; by apply list_elem_of_In]. cbn [jsize] in Hle. apply (sub_size (fun v => S (jsize v))) in Hx. lia.
  - apply read_object; [|done..]. apply Forall_forall. intros [k x] Hx. cbn [jsonValid] in Hv. rewrite forallb_forall in Hv.
    specialize (Hv (k, x) ltac:(by apply list_elem_of_In)). apply andb_true_iff in Hv as [? ?]. split; [done|].
    apply IH; [|done]. cbn [jsize] in Hle. apply (sub_size (fun '(_, v) => S (jsize v))) in Hx. lia.
Qed.

Lemma commas_length (l : list bytes) : (list_sum (map length l) + pred (length l) <= length (commas l))%nat.
Proof.
  induction l as [|x l IH]; [done|]. destruct l as [|y l]; cbn in *; [lia|]. rewrite length_app. cbn in *. lia.
Qed.

Lemma jsize_render j : (jsize j <= length (render j))%nat.
Proof.
  remember (jsize j) as n eqn:Hn. assert (Hle : (jsize j <= n)%nat) by lia. rewrite Hn. clear Hn. revert j Hle.
  induction n as [|n IH]; intros j Hle; [destruct j; cbn in *; lia|]. destruct j as [|z|s|l|l]; cbn [jsize render]; [cbn; lia| |cbn; lia|..].
  - unfold decInt. case_match; [cbn; lia|]. destruct (decUint_digits z) as (Hd & _); [lia|]. destruct (decUint z); [done|cbn; lia].
  - cbn [length]. rewrite length_app. cbn [length].
    pose proof (commas_length (map render l)) as Hc. rewrite length_map in Hc. cbn [jsize] in Hle.
    enough (list_sum (map (fun v => S (jsize v)) l) <= list_sum (map length (map render l)) + length l)%nat by lia.
    clear Hc. unfold list_sum in *. induction l as [|v l IHl]; cbn in *; [lia|].
    specialize (IH v ltac:(lia)). specialize (IHl ltac:(lia)). lia.
  - cbn [length]. rewrite length_app. cbn [length]. 
    change (map (fun '(k, v) => jsonString k ++ Byte.x3a :: render v) l) with (map member l).
    pose proof (commas_length (map member l)) as Hc. rewrite length_map in Hc. cbn [jsize] in Hle.
    enough (list_sum (map (fun '(_, v) => S (jsize v)) l) <= list_sum (map length (map member l)))%nat by lia.
    clear Hc. unfold list_sum in *. induction l as [|[k v] l IHl]; cbn in *; [lia|]. specialize (IH v ltac:(lia)). specialize (IHl ltac:(lia)).
    rewrite !length_app. cbn. lia.
Qed.

(** Reading is inverse to rendering, in a stream and as a whole input. *)
Lemma decodeFirst_render j rest : jsonValid j = true -> jheight j <= maxNestingDepth -> ends rest = true ->
  decodeFirst (render j ++ rest) = Some (emb j, rest).
Proof.
  intros Hv Hh Hr. apply read_render; [done| |done|done]. pose proof (jsize_render j). rewrite length_app. lia.
Qed.

Lemma decodeAll_render j : jsonValid j = true -> jheight j <= maxNestingDepth -> decodeAll (render j) = Some (emb j).
Proof.
  intros Hv Hh. unfold decodeAll. rewrite <- (app_nil_r (render j)). by rewrite decodeFirst_render.
Qed.

Lemma decInt_inj a b : decInt a = decInt b -> a = b.
Proof.
  intros E. assert (Hu : forall x y, 0 <= x -> 0 <= y -> decUint x = decUint y -> x = y).
  { intros x y Hx Hy Exy. destruct (decUint_digits x Hx) as (_ & _ & <- & _), (decUint_digits y Hy) as (_ & _ & <- & _). by rewrite Exy. }
  assert (Hs : forall x y, 0 <= x -> Byte.x2d :: y = decUint x -> False).
  { intros x y Hx Exy. pose proof (lexSign_decUint x [] Hx) as H. rewrite <- Exy in H. discriminate H. }
  unfold decInt in E. destruct (Z.ltb_spec a 0), (Z.ltb_spec b 0).
  - injection E as E. apply Hu in E; lia.
  - exfalso. eapply (Hs b); [lia|exact E].
  - exfalso. eapply (Hs a); [lia|symmetry; exact E].
  - by apply Hu.
Qed.

Lemma emb_inj a b : emb a = emb b -> a = b.
Proof.
  remember (jsize a) as n eqn:Hn. assert (Hle : (jsize a <= n)%nat) by lia. clear Hn. revert a b Hle.
  induction n as [|n IH]; intros a b Hle E; [destruct a; cbn in *; lia|].
  destruct a as [|z|s|l|l], b as [|z'|s'|l'|l']; try discriminate E; try done.
  - injection E as E. f_equal. by apply decInt_inj.
  - by injection E as ->.
  - injection E as E. f_equal. cbn in Hle. unfold list_sum in Hle. revert l' E.
    induction l as [|v l IHl]; intros [|v' l'] E; try discriminate E; [done|]. injection E as Ev El. cbn in Hle. f_equal.
    + apply IH; [lia|done].
    + apply IHl; [lia|done].
  - injection E as E. f_equal. cbn in Hle. unfold list_sum in Hle. revert l' E.
    induction l as [|[k v] l IHl]; intros [|[k' v'] l'] E; try discriminate E; [done|]. injection E as Ek Ev El. cbn in Hle. f_equal.
    + rewrite Ek. f_equal. apply IH; [lia|done].
    + apply IHl; [lia|done].
Qed.

(** A rendering determines its value. *)
Lemma render_inj a b : jsonValid a = true -> jsonValid b = true -> jheight a <= maxNestingDepth -> jheight b <= maxNestingDepth ->
  render a = render b -> a = b.
Proof.
  intros Ha Hb Hha Hhb E. apply emb_inj. pose proof (decodeAll_render a Ha Hha) as H1.
  rewrite E, (decodeAll_render b Hb Hhb) in H1. by injection H1.
Qed.

(** *** The fuel of the parser is enough *)

Lemma prepend_some p r s rest : prepend p r = Some (s, rest) -> exists s', r = Some (s', rest).
Proof. destruct r as [[s' rest']|]; [|done]. intros [= _ <-]. eauto. Qed.

Lemma unquote_shorter l s rest : unquote l = Some (s, rest) -> (length rest < length l)%nat.
Proof.
  remember (length l) as n eqn:Hn. assert (Hle : (length l <= n)%nat) by lia. rewrite Hn. clear Hn. revert l s rest Hle.
  induction n as [|n IH]; intros [|b l1] s rest Hle H; simpl in Hle; try done; try lia.
  assert (Hrec : forall p l', (length l' <= length l1)%nat -> prepend p (unquote l') = Some (s, rest) -> (length rest < length (b :: l1))%nat).
  { intros p l' Hl [s' Hs]%prepend_some. apply IH in Hs; simpl; lia. }
  cbn [unquote] in H. destruct (bool_decide (b = quote)); [injection H as _ <-; simpl; lia|].
  destruct (bool_decide (b = backslash)).
  - clear IH. destruct l1 as [|c l2]; [done|].
    assert (Hesc : match unescape c with Some x => prepend [x] (unquote l2) | None => None end = Some (s, rest) -> (length rest < length (b :: c :: l2))%nat).
    { destruct (unescape c); [|done]. apply Hrec. simpl. lia. }
    destruct (decide (c = Byte.x75)) as [->|Hc]; [|apply Hesc; rewrite <- H; destruct c; done].
    destruct l2 as [|h1 [|h2 [|h3 [|h4 l6]]]]; try done. destruct (getu4 h1 h2 h3 h4) as [r|]; [|done].
    assert (Hl6 : forall p, prepend p (unquote l6) = Some (s, rest) -> (length rest < length (b :: Byte.x75 :: h1 :: h2 :: h3 :: h4 :: l6))%nat)
      by (intros p; apply Hrec; simpl; lia).
    destruct (isSurrogate r); [|eapply Hl6, H].
    destruct l6 as [|x [|y l8]]; [eapply Hl6, H|destruct x; eapply Hl6, H|].
    destruct (decide (x = Byte.x5c)) as [->|Hx]; [|destruct x; try (eapply Hl6, H); done].
    destruct (decide (y = Byte.x75)) as [->|Hy]; [|destruct y; try (eapply Hl6, H); done].
    destruct l8 as [|g1 [|g2 [|g3 [|g4 l12]]]]; try (eapply Hl6, H).
    destruct (getu4 g1 g2 g3 g4 ≫= surrogatePair r); [|eapply Hl6, H]. eapply Hrec; [|done]. simpl. lia.
  - destruct (byte_Z b <? 32); [done|].
    destruct (runeLen b l1) as [|[|[|[|[|k]]]]]; repeat case_match; (eapply Hrec; [|exact H]; simpl; lia).
Qed.

Lemma skipSpace_le l : (length (skipSpace l) <= length l)%nat.
Proof. induction l as [|b l IH]; simpl; [lia|]. destruct (isSpace b); simpl; lia. Qed.

Lemma stripPrefix_le p l rest : stripPrefix p l = Some rest -> (length rest <= length l)%nat.
Proof.
  revert l. induction p as [|a p IH]; intros [|b l] H; simpl in *; try (injection H as <-; simpl; lia); try done.
  destruct (bool_decide (a = b)); [|done]. apply IH in H. lia.
Qed.

Lemma spanDigits_length l : (length (fst (spanDigits l)) + length (snd (spanDigits l)) = length l)%nat.
Proof. induction l as [|b l IH]; [done|]. simpl. destruct (isDigit b); [|done]. destruct (spanDigits l). simpl in *. lia. Qed.

Lemma digitsAfter_shorter p l d rest : digitsAfter p l = Some (d, rest) -> (length rest < length l)%nat.
Proof.
  unfold digitsAfter. pose proof (spanDigits_length l) as H. destruct (spanDigits l) as [[|x ds] r]; [done|].
  intros [= _ <-]. simpl in *. lia.
Qed.

Lemma lexNum_shorter l d rest : lexNum l = Some (d, rest) -> (length rest < length l)%nat.
Proof.
  unfold lexNum. destruct (lexSign l) as [sg l0] eqn:E0.
  assert (H0 : (length l0 <= length l)%nat) by (unfold lexSign in E0; repeat case_match; simplify_eq; simpl; lia).
  destruct (lexInt l0) as [[i l1]|] eqn:E1; [|done].
  assert (H1 : (length l1 < length l0)%nat).
  { unfold lexInt in E1. destruct l0 as [|b l0]; [done|].
    destruct (decide (b = Byte.x30)) as [->|Hb]; [injection E1 as _ <-; simpl; lia|].
    eapply digitsAfter_shorter. rewrite <- E1. destruct b; done. }
  cbn. destruct (lexFrac l1) as [[f l2]|] eqn:E2; [|done].
  assert (H2 : (length l2 <= length l1)%nat).
  { unfold lexFrac in E2. repeat case_match; try (injection E2 as _ <-; simpl; lia). apply digitsAfter_shorter in E2. simpl. lia. }
  cbn. destruct (lexExp l2) as [[e l3]|] eqn:E3; [|done]. cbn. intros [= _ <-].
  enough (length l3 <= length l2)%nat by lia.
  unfold lexExp in E3. repeat case_match; try (injection E3 as _ <-; simpl; lia); apply digitsAfter_shorter in E3; simpl in *; lia.
Qed.

Lemma peel_shorter c l rest : peel c l = Some rest -> (length rest < length l)%nat.
Proof.
  unfold peel. pose proof (skipSpace_le l) as H. destruct (skipSpace l) as [|b l']; [done|].
  case_bool_decide; [|done]. intros [= <-]. simpl in H. lia.
Qed.

(** Two amounts of fuel above twice the length of the input give the same answer, and
    what is left of the input is shorter. *)
Definition steady {A} (c : nat) (p : nat -> Z -> bytes -> option (A * bytes)) (n : nat) : Prop := forall f g d l,
  (length l <= n)%nat -> (2 * length l + c < f)%nat -> (2 * length l + c < g)%nat ->
  p f d l = p g d l /\ forall v rest, p f d l = Some (v, rest) -> (length rest < length l)%nat.

Lemma steady_value n : (forall m, (m < n)%nat -> steady 1 parseMembers m /\ steady 1 parseElems m) -> steady 0 parseValue n.
Proof.
  intros IH [|f] [|g] d l Hn Hf Hg; try lia. cbn [parseValue]. pose proof (skipSpace_le l) as Hs.
  destruct (skipSpace l) as [|b l1]; [done|]. simpl in Hs. destruct n as [|n]; [lia|]. destruct (IH n) as [IHm IHe]; [lia|].
  destruct (leadOf b).
  - destruct (_ <? _); [done|]. destruct (peel Byte.x7d l1) as [l2|] eqn:Ep.
    { split; [done|]. intros ? ? [= _ <-]. apply peel_shorter in Ep. lia. }
    destruct (IHm f g (d + 1) l1) as [<- Hr]; [lia..|]. split; [done|]. destruct (parseMembers f (d + 1) l1) as [[ms l2]|]; [|done].
    cbn. intros ? ? [= _ <-]. specialize (Hr _ _ eq_refl). lia.
  - destruct (_ <? _); [done|]. destruct (peel Byte.x5d l1) as [l2|] eqn:Ep.
    { split; [done|]. intros ? ? [= _ <-]. apply peel_shorter in Ep. lia. }
    destruct (IHe f g (d + 1) l1) as [<- Hr]; [lia..|]. split; [done|]. destruct (parseElems f (d + 1) l1) as [[ms l2]|]; [|done].
    cbn. intros ? ? [= _ <-]. specialize (Hr _ _ eq_refl). lia.
  - split; [done|]. intros v rest. destruct (unquote l1) as [[s l2]|] eqn:E; [|done]. cbn. intros [= _ <-]. apply unquote_shorter in E. lia.
  - split; [done|]. intros v rest. destruct (stripPrefix _ l1) as [l2|] eqn:E; [|done]. cbn. intros [= _ <-]. apply stripPrefix_le in E. lia.
  - split; [done|]. intros v rest. destruct (stripPrefix _ l1) as [l2|] eqn:E; [|done]. cbn. intros [= _ <-]. apply stripPrefix_le in E. lia.
  - split; [done|]. intros v rest. destruct (stripPrefix _ l1) as [l2|] eqn:E; [|done]. cbn. intros [= _ <-]. apply stripPrefix_le in E. lia.
  - split; [done|]. intros v rest. destruct (lexNum (b :: l1)) as [[s l2]|] eqn:E; [|done]. cbn. intros [= _ <-]. apply lexNum_shorter in E. simpl in E. lia.
Qed.

Lemma steady_members n : (forall m, (m < n)%nat -> steady 0 parseValue m /\ steady 1 parseMembers m) -> steady 1 parseMembers n.
Proof.
  intros IH [|f] [|g] d l Hn Hf Hg; try lia. cbn [parseMembers].
  destruct (peel quote l) as [l1|] eqn:E1; [|done]. cbn. apply peel_shorter in E1.
  destruct (unquote l1) as [[k l2]|] eqn:E2; [|done]. cbn. apply unquote_shorter in E2.
  destruct (peel Byte.x3a l2) as [l3|] eqn:E3; [|done]. cbn. apply peel_shorter in E3.
  destruct n as [|n]; [lia|]. destruct (IH n) as [IHv IHm]; [lia|].
  destruct (IHv f g d l3) as [<- Hr]; [lia..|]. destruct (parseValue f d l3) as [[v l4]|]; [|done]. cbn. specialize (Hr _ _ eq_refl).
  destruct (peel Byte.x2c l4) as [l5|] eqn:E5; [apply peel_shorter in E5|].
  - destruct (IHm f g d l5) as [<- Hr']; [lia..|]. split; [done|]. destruct (parseMembers f d l5) as [[ms l6]|]; [|done].
    cbn. intros ? ? [= _ <-]. specialize (Hr' _ _ eq_refl). lia.
  - split; [done|]. destruct (peel Byte.x7d l4) as [l5|] eqn:E6; [|done]. apply peel_shorter in E6. cbn. intros ? ? [= _ <-]. lia.
Qed.

Lemma steady_elems n : steady 0 parseValue n -> (forall m, (m < n)%nat -> steady 1 parseElems m) -> steady 1 parseElems n.
Proof.
  intros IHv IH [|f] [|g] d l Hn Hf Hg; try lia. cbn [parseElems].
  destruct (IHv f g d l) as [<- Hr]; [lia..|]. destruct (parseValue f d l) as [[v l1]|]; [|done]. cbn. specialize (Hr _ _ eq_refl).
  destruct (peel Byte.x2c l1) as [l2|] eqn:E; [apply peel_shorter in E|].
  - destruct n as [|n]; [lia|]. destruct (IH n ltac:(lia) f g d l2) as [<- Hr']; [lia..|]. split; [done|].
    destruct (parseElems f d l2) as [[vs l3]|]; [|done]. cbn. intros ? ? [= _ <-]. specialize (Hr' _ _ eq_refl). lia.
  - split; [done|]. destruct (peel Byte.x5d l1) as [l2|] eqn:E'; [|done]. apply peel_shorter in E'. cbn. intros ? ? [= _ <-]. lia.
Qed.

Lemma steady_all n : steady 0 parseValue n /\ steady 1 parseMembers n /\ steady 1 parseElems n.
Proof.
  induction n as [n IH] using lt_wf_ind. assert (Hv : steady 0 parseValue n).
  { apply steady_value. intros m Hm. destruct (IH m Hm) as (? & ? & ?). auto. }
  split; [done|]. split.
  - apply steady_members. intros m Hm. destruct (IH m Hm) as (? & ? & ?). auto.
  - apply steady_elems; [done|]. intros m Hm. destruct (IH m Hm) as (? & ? & ?). auto.
Qed.

(** The parser never stops for want of fuel. *)
Lemma parse_fuel f d l : (2 * length l < f)%nat -> parseValue f d l = parseValue (S (2 * length l)) d l.
Proof. intros Hf. apply (steady_all (length l)); lia. Qed.
