(* ===== verification/Publication.v ===== *)
(** The publication document: server/publication.go.

    A writer publishes one signed line per head.  [Unsigned] is what the signature
    covers, [Canonical] its canonical JSON bytes, [ValidateContract] the relations
    between the fields that give a document its meaning.  ed25519 and the text form
    of a CID (go-cid) are parameters.

    Proved: a signed document verifies; a document that passes the contract has one
    line per name, and every mutable line continues, without a gap, a finalized line
    of the same document. *)
From Stdlib Require Import Ascii.
From Stdlib Require String.
From S2P Require Import Prelude Cid Schema Core Engine Ledger Json.

(** ** Parameters *)

(** [cid.Decode] and [Cid.String]. *)
Class CidText `{Multihash} : Type := {
  cid_Decode : string -> option CidV;
  cid_String : CidV -> string;
  Decode_String : forall c, cid_Decode (cid_String c) = Some c;
  String_nonempty : forall c, cid_String c <> EmptyString
}.

Class Ed25519 : Type := {
  PrivateKey : Type;
  ed_Public : PrivateKey -> bytes;
  ed_Sign : PrivateKey -> bytes -> bytes;
  ed_Verify : bytes -> bytes -> bytes -> bool;
  ed_Public_len : forall k, length (ed_Public k) = 32%nat;
  ed_Sign_nonempty : forall k msg, ed_Sign k msg <> [];
  ed_Verify_Sign : forall k msg, ed_Verify (ed_Public k) msg (ed_Sign k msg) = true
}.

(** ** Identities and kinds *)

Definition LegacyDocVersion : Z := 1.
Definition DocVersion : Z := 2.
Definition LogicalArchiveDocVersion : Z := 3.
Definition SupportedDocVersion (v : Z) : bool :=
  (v =? LegacyDocVersion) || (v =? DocVersion) || (v =? LogicalArchiveDocVersion).

(** The Go array type [32]byte. *)
Record ArchiveID : Type := mkArchiveID { aid_bytes : bytes; aid_len : Nat.eqb (length aid_bytes) 32 = true }.

Lemma aid_eq a b : aid_bytes a = aid_bytes b -> a = b.
Proof. destruct a as [x Hx], b as [y Hy]. simpl. intros ->. f_equal. apply eq_pi, _. Qed.
#[global] Instance ArchiveID_eq_dec : EqDecision ArchiveID.
Proof.
  intros a b. destruct (decide (aid_bytes a = aid_bytes b)) as [H|H]; [left; by apply aid_eq|right; by intros ->].
Defined.

Definition zeroID : ArchiveID := mkArchiveID (repeat Byte.x00 32) eq_refl.
Definition ArchiveID_IsZero (id : ArchiveID) : bool := bool_decide (id = zeroID).
Definition ArchiveID_String (id : ArchiveID) : string := EncodeToString (aid_bytes id).

(** strings.ToLower leaves the string alone; a character outside ASCII is left to
    the hex decoder, which refuses it. *)
Definition isLower (s : string) : bool :=
  forallb (fun b => negb (inRange 65 90 b)) (string_bytes s).

Definition ParseArchiveID (s : string) : res ArchiveID :=
  refuse_if negb (Nat.eqb (String.length s) 64) with EInvalid "archive_id length" ;;
  refuse_if negb (isLower s) with EInvalid "archive_id must use lowercase hex" ;;
  match DecodeString s with
  | None => Err (EInvalid "archive_id is not hex")
  | Some raw =>
    match decide (Nat.eqb (length raw) 32 = true) with
    | left H => let id := mkArchiveID raw H in
      refuse_if ArchiveID_IsZero id with EInvalid "archive_id must not be all zeroes" ;; Ok id
    | right _ => Err (EInternal "hex of 64 characters is not 32 bytes")
    end
  end.

(** [type HeadKind string]: the zero value is the omitted kind. *)
Definition HeadKind : Type := string.
Definition FinalizedMonotonic : HeadKind := "finalized-monotonic".
Definition UnfinalizedMutable : HeadKind := "unfinalized-mutable".

(** ** The document *)

Record HeadEntry : Type := mkEntry {
  he_Name : string; he_Root : string; he_OriginSlot : Z; he_SyncedTo : option Z;
  he_SegBits : Z; he_FanoutBits : Z; he_DirDepth : Z; he_Manifest : string;
  he_Kind : HeadKind; he_WindowStart : option Z;
  he_SourceHeadRoot : string; he_SourceFinalizedSlot : option Z; he_SourceFinalizedRoot : string;
  he_HandoffHead : string; he_HandoffRoot : string; he_HandoffSyncedTo : option Z }.

#[global] Instance HeadEntry_eq_dec : EqDecision HeadEntry.
Proof. solve_decision. Defined.

(** [u_Heads] is a Go slice: [None] is nil, which renders as null. *)
Record Unsigned : Type := mkUnsigned {
  u_V : Z; u_Net : string; u_ArchiveID : option ArchiveID; u_UpdatedAt : string;
  u_Multiaddrs : list string; u_Heads : option (list HeadEntry); u_Revision : option Z }.

Record Doc : Type := mkDoc {
  d_Unsigned : Unsigned; d_Pubkey : string; d_Signature : string; d_MaxPutBlobs : Z }.

Definition Heads (u : Unsigned) : list HeadEntry := default [] (u_Heads u).

Definition EffectiveKind (e : HeadEntry) : HeadKind :=
  if decide (he_Kind e = EmptyString) then FinalizedMonotonic else he_Kind e.

(** ** Canonical bytes *)

Definition entryJson (e : HeadEntry) : json :=
  JObj ([("name", JStr (he_Name e)); ("root", JStr (he_Root e)); ("origin_slot", JNum (he_OriginSlot e));
         ("synced_to", orNull (he_SyncedTo e)); ("seg_bits", JNum (he_SegBits e));
         ("fanout_bits", JNum (he_FanoutBits e)); ("dir_depth", JNum (he_DirDepth e))]
        ++ omitempty "manifest" (nonempty (he_Manifest e))
        ++ omitempty "kind" (nonempty (he_Kind e))
        ++ omitempty "window_start" (JNum <$> he_WindowStart e)
        ++ omitempty "source_head_root" (nonempty (he_SourceHeadRoot e))
        ++ omitempty "source_finalized_slot" (JNum <$> he_SourceFinalizedSlot e)
        ++ omitempty "source_finalized_root" (nonempty (he_SourceFinalizedRoot e))
        ++ omitempty "handoff_head" (nonempty (he_HandoffHead e))
        ++ omitempty "handoff_root" (nonempty (he_HandoffRoot e))
        ++ omitempty "handoff_synced_to" (JNum <$> he_HandoffSyncedTo e)).

Definition unsignedJson (u : Unsigned) : json :=
  JObj ([("v", JNum (u_V u)); ("net", JStr (u_Net u))]
        ++ omitempty "archive_id" ((fun id => JStr (ArchiveID_String id)) <$> u_ArchiveID u)
        ++ [("updated_at", JStr (u_UpdatedAt u))]
        ++ omitempty "multiaddrs"
             (match u_Multiaddrs u with [] => None | l => Some (JArr (JStr <$> l)) end)
        ++ [("heads", match u_Heads u with Some l => JArr (entryJson <$> l) | None => JNull end)]
        ++ omitempty "revision" (JNum <$> u_Revision u)).

(** The one error of the rendering is [ArchiveID.MarshalJSON]'s. *)
Definition Canonical (u : Unsigned) : res bytes :=
  match u_ArchiveID u with
  | Some id => refuse_if ArchiveID_IsZero id with EInvalid "archive_id must not be all zeroes" ;;
               Ok (render (unsignedJson u))
  | None => Ok (render (unsignedJson u))
  end.

Section Publication.
Context `{MH : Multihash} `{CT : !CidText} {ED : Ed25519}.

Definition CanonicalDigest (u : Unsigned) : res Digest :=
  b <-? Canonical u ;; Ok (sha256 b).

(** A nil key leaves the document unsigned. *)
Definition sign (key : option PrivateKey) (u : Unsigned) : res Doc :=
  match key with
  | None => Ok (mkDoc u "" "" 0)
  | Some k =>
    canonical <-? Canonical u ;;
    Ok (mkDoc u (EncodeToString (ed_Public k)) (EncodeToString (ed_Sign k canonical)) 0)
  end.

Definition emptyStr (s : string) : bool := bool_decide (s = EmptyString).

Definition Verify (d : Doc) : res unit :=
  refuse_if emptyStr (d_Pubkey d) || emptyStr (d_Signature d) with EInvalid "not signed" ;;
  match DecodeString (d_Pubkey d) with
  | None => Err (EInvalid "undecodable pubkey")
  | Some pub =>
    refuse_if negb (Nat.eqb (length pub) 32) with EInvalid "pubkey size" ;;
    match DecodeString (d_Signature d) with
    | None => Err (EInvalid "undecodable signature")
    | Some sig =>
      canonical <-? Canonical (d_Unsigned d) ;;
      refuse_if negb (ed_Verify pub canonical sig) with EInvalid "signature does not verify" ;;
      Ok tt
    end
  end.

(** ** The contract *)

Definition parseBeaconRoot (raw : string) : res bytes :=
  refuse_if negb (Nat.eqb (String.length raw) 66) || negb (String.prefix "0x" raw)
    with EInvalid "not a 0x-prefixed 32-byte beacon block root" ;;
  match hexDecode (drop 2 (string_bytes raw)) with
  | None => Err (EInvalid "not a hex beacon block root")
  | Some b => Ok b
  end.

Definition unset {A} (o : option A) : bool := match o with None => true | Some _ => false end.

(** One line of the loop over [d.Heads]; the unset pointers are excluded before
    they are read. *)
Definition checkFinalized (u : Unsigned) (e : HeadEntry) : res unit :=
  refuse_if negb (unset (he_WindowStart e)) with EInvalid "finalized head carries window_start" ;;
  refuse_if negb (emptyStr (he_Kind e)) && unset (u_Revision u) with EInvalid "kind without a revision" ;;
  refuse_if negb (emptyStr (he_SourceHeadRoot e)) || negb (unset (he_SourceFinalizedSlot e))
         || negb (emptyStr (he_SourceFinalizedRoot e)) || negb (emptyStr (he_HandoffHead e))
         || negb (emptyStr (he_HandoffRoot e)) || negb (unset (he_HandoffSyncedTo e))
    with EInvalid "finalized head carries mutable proof fields" ;;
  Ok tt.

Definition checkMutable (u : Unsigned) (e : HeadEntry) : res unit :=
  refuse_if negb (u_V u =? DocVersion) && negb (u_V u =? LogicalArchiveDocVersion)
    with EInvalid "version cannot carry a mutable head" ;;
  refuse_if unset (u_Revision u) with EInvalid "mutable head requires a revision" ;;
  match he_WindowStart e with
  | None => Err (EInvalid "mutable head requires window_start")
  | Some ws =>
    refuse_if negb (ws =? he_OriginSlot e) with EInvalid "window_start differs from origin_slot" ;;
    match he_SyncedTo e with
    | None => Err (EInvalid "mutable head must publish a covered snapshot")
    | Some st =>
      refuse_if st <? ws with EInvalid "mutable head ends before window_start" ;;
      refuse_if negb (emptyStr (he_Manifest e)) with EInvalid "mutable head carries a manifest" ;;
      match he_SourceFinalizedSlot e, he_HandoffSyncedTo e with
      | Some sf, Some hs =>
        refuse_if emptyStr (he_SourceHeadRoot e) || emptyStr (he_SourceFinalizedRoot e)
               || emptyStr (he_HandoffHead e) || emptyStr (he_HandoffRoot e)
          with EInvalid "mutable head requires complete proof fields" ;;
        _ <-? parseBeaconRoot (he_SourceHeadRoot e) ;; _ <-? parseBeaconRoot (he_SourceFinalizedRoot e) ;;
        match cid_Decode (he_HandoffRoot e) with
        | None => Err (EInvalid "invalid handoff_root")
        | Some _ =>
          refuse_if st <? sf with EInvalid "source finalized slot above synced_to" ;;
          refuse_if sf <? hs with EInvalid "handoff above source finalized slot" ;;
          refuse_if negb (hs =? maxUint64) && (add64 hs 1 <? ws) with EInvalid "window starts beyond handoff" ;;
          Ok tt
        end
      | _, _ => Err (EInvalid "mutable head requires complete proof fields")
      end
    end
  end.

Definition checkEntry (u : Unsigned) (e : HeadEntry) : res unit :=
  if decide (EffectiveKind e = FinalizedMonotonic) then checkFinalized u e
  else if decide (EffectiveKind e = UnfinalizedMutable) then checkMutable u e
  else Err (EInvalid "unknown kind").

Fixpoint checkEntries (u : Unsigned) (seen : gset string) (es : list HeadEntry) : res unit :=
  match es with
  | [] => Ok tt
  | e :: es' =>
    refuse_if emptyStr (he_Name e) with EInvalid "empty name" ;;
    refuse_if bool_decide (he_Name e ∈ seen) with EInvalid "duplicate head name" ;;
    _ <-? checkEntry u e ;; checkEntries u ({[ he_Name e ]} ∪ seen) es'
  end.

Definition byName (es : list HeadEntry) : gmap string HeadEntry :=
  foldl (fun m e => <[he_Name e := e]> m) ∅ es.

Definition handoffMatches (m : gmap string HeadEntry) (e : HeadEntry) : bool :=
  match m !! he_HandoffHead e with
  | None => false
  | Some h =>
    bool_decide (EffectiveKind h = FinalizedMonotonic) && negb (unset (he_SyncedTo h))
    && bool_decide (he_Root h = he_HandoffRoot e)
    && bool_decide (default 0 (he_SyncedTo h) = default 0 (he_HandoffSyncedTo e))
  end.

Fixpoint checkHandoffs (m : gmap string HeadEntry) (es : list HeadEntry) : res unit :=
  match es with
  | [] => Ok tt
  | e :: es' =>
    if decide (EffectiveKind e = UnfinalizedMutable) then
      refuse_if negb (handoffMatches m e) with EInvalid "handoff proof does not match" ;;
      checkHandoffs m es'
    else checkHandoffs m es'
  end.

Definition unsignedDoc (d : Doc) : bool := emptyStr (d_Pubkey d) || emptyStr (d_Signature d).

Definition checkIdentity (d : Doc) : res unit :=
  let u := d_Unsigned d in
  if u_V u =? LogicalArchiveDocVersion then
    refuse_if (match u_ArchiveID u with None => true | Some id => ArchiveID_IsZero id end)
      with EInvalid "version 3 requires a nonzero archive_id" ;;
    refuse_if unset (u_Revision u) with EInvalid "version 3 requires a revision" ;;
    refuse_if unsignedDoc d with EInvalid "version 3 must be signed" ;;
    Ok tt
  else refuse_if negb (unset (u_ArchiveID u)) with EInvalid "archive_id before version 3" ;; Ok tt.

Definition checkRevision (d : Doc) : res unit :=
  match u_Revision (d_Unsigned d) with
  | None => Ok tt
  | Some rev =>
    refuse_if rev =? 0 with EInvalid "revisions start at 1" ;;
    refuse_if unsignedDoc d with EInvalid "revisioned document must be signed" ;;
    Ok tt
  end.

Definition ValidateContract (d : Doc) : res unit :=
  let u := d_Unsigned d in
  refuse_if negb (SupportedDocVersion (u_V u)) with EInvalid "document version" ;;
  _ <-? checkIdentity d ;; _ <-? checkRevision d ;; _ <-? checkEntries u ∅ (Heads u) ;;
  checkHandoffs (byName (Heads u)) (Heads u).

(** ** Rendering a head's line *)

Definition cidString (c : Cid) : string := match c with Some v => cid_String v | None => "b" end.

Definition headEntry (i : Info) (manifestTip : Cid) : HeadEntry :=
  mkEntry (p_Name (i_Params i)) (cidString (i_Root i)) (p_OriginSlot (i_Params i)) (i_SyncedTo i)
    (p_SegBits (i_Params i)) (p_FanoutBits (i_Params i)) (i_DirDepth i)
    (if Defined manifestTip then cidString manifestTip else "") "" None "" None "" "" "" None.

Definition headEntryKind (i : Info) (manifestTip : Cid) (kind : HeadKind) : HeadEntry :=
  let e := headEntry i manifestTip in
  if decide (kind = UnfinalizedMutable) then
    mkEntry (he_Name e) (he_Root e) (he_OriginSlot e) (he_SyncedTo e) (he_SegBits e) (he_FanoutBits e)
      (he_DirDepth e) (he_Manifest e) UnfinalizedMutable (Some (p_OriginSlot (i_Params i)))
      "" None "" "" "" None
  else e.

(** ** Signed documents verify *)

Lemma sign_verifies k u d : sign (Some k) u = Ok d -> Verify d = Ok tt.
Proof.
  unfold sign. intros H. apply rbind_ok in H as (b & Hb & [= <-]). unfold Verify. cbn [d_Pubkey d_Signature d_Unsigned].
  unfold emptyStr. rewrite !bool_decide_eq_false_2.
  2: by apply EncodeToString_nonempty, ed_Sign_nonempty.
  2: { apply EncodeToString_nonempty. intros E. pose proof (ed_Public_len k) as Hl. by rewrite E in Hl. }
  cbn [orb]. rewrite !DecodeString_Encode, ed_Public_len, Hb. cbn. by rewrite ed_Verify_Sign.
Qed.

Lemma signed_unsigned k u d : sign (Some k) u = Ok d -> d_Unsigned d = u.
Proof. unfold sign. intros H. by apply rbind_ok in H as (b & _ & [= <-]). Qed.

(** ** What the contract guarantees *)

(** The fields are uint64. *)
Definition entry_u64 (e : HeadEntry) : Prop :=
  is_u64 (he_OriginSlot e) /\ (forall x, he_SyncedTo e = Some x -> is_u64 x) /\
  (forall x, he_HandoffSyncedTo e = Some x -> is_u64 x).

Lemma checkEntries_ok u seen es :
  checkEntries u seen es = Ok tt ->
  NoDup (he_Name <$> es) /\ Forall (fun e => (he_Name e ∉ seen) /\ he_Name e <> EmptyString /\ checkEntry u e = Ok tt) es.
Proof.
  revert seen. induction es as [|e es IH]; intros seen H; [split; constructor|]. cbn [checkEntries] in H.
  unfold emptyStr in H. case_bool_decide as Hn; [done|]. case_bool_decide as Hs; [done|].
  apply rbind_ok in H as ([] & Hc & H). apply IH in H as [Hnd Hf]. rewrite Forall_forall in Hf.
  split; [|constructor; [done|]].
  - constructor; [|done]. intros (e' & E & He')%list_elem_of_fmap. destruct (Hf e' He'). set_solver.
  - apply Forall_forall. intros e' He'. destruct (Hf e' He') as [? ?]. split; [set_solver|done].
Qed.

Lemma byName_lookup es n e : NoDup (he_Name <$> es) -> (byName es !! n = Some e) <-> e ∈ es /\ he_Name e = n.
Proof.
  unfold byName. induction es as [|x es IH] using rev_ind; intros Hnd.
  { split; [done|by intros [[]%not_elem_of_nil _]]. }
  rewrite fmap_app in Hnd. apply NoDup_app in Hnd as (Hnd & Hx & _). rewrite foldl_app. cbn [foldl].
  rewrite lookup_insert_Some, IH, elem_of_app, list_elem_of_singleton by done. split.
  - intros [[<- ->]|[? [? ?]]]; [auto|split; auto].
  - intros [[He| ->] <-]; [right|left; done]. split; [|done]. intros E. apply (Hx (he_Name e)); [|rewrite <- E; left].
    apply list_elem_of_fmap. eauto.
Qed.

Lemma checkHandoffs_ok m es : checkHandoffs m es = Ok tt ->
  Forall (fun e => EffectiveKind e = UnfinalizedMutable -> handoffMatches m e = true) es.
Proof.
  induction es as [|e es IH]; [constructor|]. cbn [checkHandoffs]. case_decide as Hk.
  - destruct (handoffMatches m e) eqn:E; [|done]. constructor; auto.
  - constructor; [done|auto].
Qed.

(** The part of [checkMutable] on slots. *)
Lemma checkMutable_slots u e :
  checkMutable u e = Ok tt -> exists st sf hs, he_SyncedTo e = Some st /\ he_SourceFinalizedSlot e = Some sf /\
    he_HandoffSyncedTo e = Some hs /\ he_OriginSlot e <= st /\ hs <= sf <= st /\
    (hs = maxUint64 \/ he_OriginSlot e <= add64 hs 1).
Proof.
  unfold checkMutable. intros H. repeat (case_match; try discriminate; []).
  repeat match goal with
  | H : rbind _ _ = Ok _ |- _ => apply rbind_ok in H as (? & _ & H)
  | H : (match ?x with _ => _ end) = Ok _ |- _ => destruct x eqn:?; try discriminate
  end.
  all: repeat match goal with
    | H : negb _ = false |- _ => apply negb_false_iff in H
    | H : andb _ _ = false |- _ => apply andb_false_iff in H
    | H : (_ =? _) = true |- _ => apply Z.eqb_eq in H
    | H : (_ <? _) = false |- _ => apply Z.ltb_ge in H end.
  all: eexists _, _, _; do 3 (split; [reflexivity|]); split; [lia|]; split; [lia|].
  all: match goal with H : negb _ = false \/ _ |- _ => destruct H as [H|H] end.
  all: try (apply negb_false_iff, Z.eqb_eq in H); try (apply Z.ltb_ge in H); lia.
Qed.

Lemma ValidateContract_inv d : ValidateContract d = Ok tt ->
  checkIdentity d = Ok tt /\ checkRevision d = Ok tt /\ checkEntries (d_Unsigned d) ∅ (Heads (d_Unsigned d)) = Ok tt /\
  checkHandoffs (byName (Heads (d_Unsigned d))) (Heads (d_Unsigned d)) = Ok tt.
Proof.
  unfold ValidateContract. destruct (negb _); [done|]. intros H.
  do 3 (apply rbind_ok in H as ([] & ? & H)). done.
Qed.

(** A document that passes the contract names every head once, and each
    unfinalized line of it continues a finalized line of the same document, under
    the root it names, without a gap: every slot up to the end of the unfinalized
    line is covered by one of the two. *)
Theorem contract_no_gap d e :
  ValidateContract d = Ok tt -> Forall entry_u64 (Heads (d_Unsigned d)) ->
  e ∈ Heads (d_Unsigned d) -> EffectiveKind e = UnfinalizedMutable ->
  NoDup (he_Name <$> Heads (d_Unsigned d)) /\
  exists f hs st, f ∈ Heads (d_Unsigned d) /\ he_Name f = he_HandoffHead e /\ EffectiveKind f = FinalizedMonotonic /\
    he_Root f = he_HandoffRoot e /\ he_SyncedTo f = Some hs /\ he_SyncedTo e = Some st /\ hs <= st /\
    forall x, x <= st -> x <= hs \/ he_OriginSlot e <= x <= st.
Proof.
  intros (_ & _ & He & Hh)%ValidateContract_inv Hu Hin Hk. apply checkEntries_ok in He as [Hnd Hf].
  apply checkHandoffs_ok in Hh. rewrite Forall_forall in Hu, Hf, Hh. split; [done|].
  specialize (Hh e Hin Hk). unfold handoffMatches in Hh.
  destruct (byName _ !! _) as [f|] eqn:Ef; [|done]. apply byName_lookup in Ef as [Hfin Hname]; [|done].
  apply andb_true_iff in Hh as [Hh Hs%bool_decide_eq_true_1]. apply andb_true_iff in Hh as [Hh Hr%bool_decide_eq_true_1].
  apply andb_true_iff in Hh as [Hkf%bool_decide_eq_true_1 Hset]. destruct (Hf e Hin) as (_ & _ & Hc).
  unfold checkEntry in Hc. rewrite Hk in Hc. apply checkMutable_slots in Hc as (st & sf & hs & Hst & _ & Hhs & ? & ? & Hgap).
  destruct (he_SyncedTo f) as [hs'|] eqn:Efs; [|done]. rewrite Hhs in Hs. simpl in Hs. subst hs'.
  destruct (Hu e Hin) as (_ & Hu1 & Hu2). specialize (Hu1 _ Hst). specialize (Hu2 _ Hhs).
  exists f, hs, st. repeat split; try done; [lia|]. intros x Hx. unfold is_u64, maxUint64 in *.
  destruct Hgap as [->|Hgap]; [left; lia|]. destruct (decide (hs = 2 ^ 64 - 1)) as [->|]; [left; lia|].
  rewrite add64_small in Hgap by (unfold is_u64; lia). lia.
Qed.

(** Signing gives a document that verifies, whatever it says. *)
Theorem signed_verifies k u d : sign (Some k) u = Ok d -> Verify d = Ok tt /\ d_Unsigned d = u.
Proof.
  intros H. split; [by eapply sign_verifies|by eapply signed_unsigned].
Qed.
End Publication.
