(* ===== verification/PublicationJson.v ===== *)
(** The JSON of publication records, read back: the decoding of a head's line, as
    follow/state.go decodes the lines it keeps, and what the canonical bytes of a
    document determine.

    Proved: a line reads back from its rendering, a line that is accepted is in its
    canonical rendering, and two documents with the same canonical bytes are the
    same document, so that a signature covers one document. *)
From Stdlib Require Import Ascii.
From Stdlib Require String.
From S2P Require Import Prelude Cid Schema Core Engine Ledger Json JsonDecode Publication.

(** ** The fields of a line *)

Definition set_Name (v : string) (e : HeadEntry) : HeadEntry :=
  mkEntry v (he_Root e) (he_OriginSlot e) (he_SyncedTo e) (he_SegBits e) (he_FanoutBits e) (he_DirDepth e) (he_Manifest e) (he_Kind e) (he_WindowStart e) (he_SourceHeadRoot e) (he_SourceFinalizedSlot e) (he_SourceFinalizedRoot e) (he_HandoffHead e) (he_HandoffRoot e) (he_HandoffSyncedTo e).
Definition set_Root (v : string) (e : HeadEntry) : HeadEntry :=
  mkEntry (he_Name e) v (he_OriginSlot e) (he_SyncedTo e) (he_SegBits e) (he_FanoutBits e) (he_DirDepth e) (he_Manifest e) (he_Kind e) (he_WindowStart e) (he_SourceHeadRoot e) (he_SourceFinalizedSlot e) (he_SourceFinalizedRoot e) (he_HandoffHead e) (he_HandoffRoot e) (he_HandoffSyncedTo e).
Definition set_OriginSlot (v : Z) (e : HeadEntry) : HeadEntry :=
  mkEntry (he_Name e) (he_Root e) v (he_SyncedTo e) (he_SegBits e) (he_FanoutBits e) (he_DirDepth e) (he_Manifest e) (he_Kind e) (he_WindowStart e) (he_SourceHeadRoot e) (he_SourceFinalizedSlot e) (he_SourceFinalizedRoot e) (he_HandoffHead e) (he_HandoffRoot e) (he_HandoffSyncedTo e).
Definition set_SyncedTo (v : option Z) (e : HeadEntry) : HeadEntry :=
  mkEntry (he_Name e) (he_Root e) (he_OriginSlot e) v (he_SegBits e) (he_FanoutBits e) (he_DirDepth e) (he_Manifest e) (he_Kind e) (he_WindowStart e) (he_SourceHeadRoot e) (he_SourceFinalizedSlot e) (he_SourceFinalizedRoot e) (he_HandoffHead e) (he_HandoffRoot e) (he_HandoffSyncedTo e).
Definition set_SegBits (v : Z) (e : HeadEntry) : HeadEntry :=
  mkEntry (he_Name e) (he_Root e) (he_OriginSlot e) (he_SyncedTo e) v (he_FanoutBits e) (he_DirDepth e) (he_Manifest e) (he_Kind e) (he_WindowStart e) (he_SourceHeadRoot e) (he_SourceFinalizedSlot e) (he_SourceFinalizedRoot e) (he_HandoffHead e) (he_HandoffRoot e) (he_HandoffSyncedTo e).
Definition set_FanoutBits (v : Z) (e : HeadEntry) : HeadEntry :=
  mkEntry (he_Name e) (he_Root e) (he_OriginSlot e) (he_SyncedTo e) (he_SegBits e) v (he_DirDepth e) (he_Manifest e) (he_Kind e) (he_WindowStart e) (he_SourceHeadRoot e) (he_SourceFinalizedSlot e) (he_SourceFinalizedRoot e) (he_HandoffHead e) (he_HandoffRoot e) (he_HandoffSyncedTo e).
Definition set_DirDepth (v : Z) (e : HeadEntry) : HeadEntry :=
  mkEntry (he_Name e) (he_Root e) (he_OriginSlot e) (he_SyncedTo e) (he_SegBits e) (he_FanoutBits e) v (he_Manifest e) (he_Kind e) (he_WindowStart e) (he_SourceHeadRoot e) (he_SourceFinalizedSlot e) (he_SourceFinalizedRoot e) (he_HandoffHead e) (he_HandoffRoot e) (he_HandoffSyncedTo e).
Definition set_Manifest (v : string) (e : HeadEntry) : HeadEntry :=
  mkEntry (he_Name e) (he_Root e) (he_OriginSlot e) (he_SyncedTo e) (he_SegBits e) (he_FanoutBits e) (he_DirDepth e) v (he_Kind e) (he_WindowStart e) (he_SourceHeadRoot e) (he_SourceFinalizedSlot e) (he_SourceFinalizedRoot e) (he_HandoffHead e) (he_HandoffRoot e) (he_HandoffSyncedTo e).
Definition set_Kind (v : string) (e : HeadEntry) : HeadEntry :=
  mkEntry (he_Name e) (he_Root e) (he_OriginSlot e) (he_SyncedTo e) (he_SegBits e) (he_FanoutBits e) (he_DirDepth e) (he_Manifest e) v (he_WindowStart e) (he_SourceHeadRoot e) (he_SourceFinalizedSlot e) (he_SourceFinalizedRoot e) (he_HandoffHead e) (he_HandoffRoot e) (he_HandoffSyncedTo e).
Definition set_WindowStart (v : option Z) (e : HeadEntry) : HeadEntry :=
  mkEntry (he_Name e) (he_Root e) (he_OriginSlot e) (he_SyncedTo e) (he_SegBits e) (he_FanoutBits e) (he_DirDepth e) (he_Manifest e) (he_Kind e) v (he_SourceHeadRoot e) (he_SourceFinalizedSlot e) (he_SourceFinalizedRoot e) (he_HandoffHead e) (he_HandoffRoot e) (he_HandoffSyncedTo e).
Definition set_SourceHeadRoot (v : string) (e : HeadEntry) : HeadEntry :=
  mkEntry (he_Name e) (he_Root e) (he_OriginSlot e) (he_SyncedTo e) (he_SegBits e) (he_FanoutBits e) (he_DirDepth e) (he_Manifest e) (he_Kind e) (he_WindowStart e) v (he_SourceFinalizedSlot e) (he_SourceFinalizedRoot e) (he_HandoffHead e) (he_HandoffRoot e) (he_HandoffSyncedTo e).
Definition set_SourceFinalizedSlot (v : option Z) (e : HeadEntry) : HeadEntry :=
  mkEntry (he_Name e) (he_Root e) (he_OriginSlot e) (he_SyncedTo e) (he_SegBits e) (he_FanoutBits e) (he_DirDepth e) (he_Manifest e) (he_Kind e) (he_WindowStart e) (he_SourceHeadRoot e) v (he_SourceFinalizedRoot e) (he_HandoffHead e) (he_HandoffRoot e) (he_HandoffSyncedTo e).
Definition set_SourceFinalizedRoot (v : string) (e : HeadEntry) : HeadEntry :=
  mkEntry (he_Name e) (he_Root e) (he_OriginSlot e) (he_SyncedTo e) (he_SegBits e) (he_FanoutBits e) (he_DirDepth e) (he_Manifest e) (he_Kind e) (he_WindowStart e) (he_SourceHeadRoot e) (he_SourceFinalizedSlot e) v (he_HandoffHead e) (he_HandoffRoot e) (he_HandoffSyncedTo e).
Definition set_HandoffHead (v : string) (e : HeadEntry) : HeadEntry :=
  mkEntry (he_Name e) (he_Root e) (he_OriginSlot e) (he_SyncedTo e) (he_SegBits e) (he_FanoutBits e) (he_DirDepth e) (he_Manifest e) (he_Kind e) (he_WindowStart e) (he_SourceHeadRoot e) (he_SourceFinalizedSlot e) (he_SourceFinalizedRoot e) v (he_HandoffRoot e) (he_HandoffSyncedTo e).
Definition set_HandoffRoot (v : string) (e : HeadEntry) : HeadEntry :=
  mkEntry (he_Name e) (he_Root e) (he_OriginSlot e) (he_SyncedTo e) (he_SegBits e) (he_FanoutBits e) (he_DirDepth e) (he_Manifest e) (he_Kind e) (he_WindowStart e) (he_SourceHeadRoot e) (he_SourceFinalizedSlot e) (he_SourceFinalizedRoot e) (he_HandoffHead e) v (he_HandoffSyncedTo e).
Definition set_HandoffSyncedTo (v : option Z) (e : HeadEntry) : HeadEntry :=
  mkEntry (he_Name e) (he_Root e) (he_OriginSlot e) (he_SyncedTo e) (he_SegBits e) (he_FanoutBits e) (he_DirDepth e) (he_Manifest e) (he_Kind e) (he_WindowStart e) (he_SourceHeadRoot e) (he_SourceFinalizedSlot e) (he_SourceFinalizedRoot e) (he_HandoffHead e) (he_HandoffRoot e) v.

Definition strField (get : HeadEntry -> string) (put : string -> HeadEntry -> HeadEntry) (t : jtok) (e : HeadEntry) : option HeadEntry :=
  v ← onString t (get e); Some (put v e).
Definition uintField (get : HeadEntry -> Z) (put : Z -> HeadEntry -> HeadEntry) (t : jtok) (e : HeadEntry) : option HeadEntry :=
  v ← onUint64 t (get e); Some (put v e).
Definition ptrField (get : HeadEntry -> option Z) (put : option Z -> HeadEntry -> HeadEntry) (t : jtok) (e : HeadEntry) : option HeadEntry :=
  v ← onUint64Ptr t (get e); Some (put v e).

Definition entryFields : list (string * (jtok -> HeadEntry -> option HeadEntry)) :=
  [("name", strField he_Name set_Name);
   ("root", strField he_Root set_Root);
   ("origin_slot", uintField he_OriginSlot set_OriginSlot);
   ("synced_to", ptrField he_SyncedTo set_SyncedTo);
   ("seg_bits", uintField he_SegBits set_SegBits);
   ("fanout_bits", uintField he_FanoutBits set_FanoutBits);
   ("dir_depth", uintField he_DirDepth set_DirDepth);
   ("manifest", strField he_Manifest set_Manifest);
   ("kind", strField he_Kind set_Kind);
   ("window_start", ptrField he_WindowStart set_WindowStart);
   ("source_head_root", strField he_SourceHeadRoot set_SourceHeadRoot);
   ("source_finalized_slot", ptrField he_SourceFinalizedSlot set_SourceFinalizedSlot);
   ("source_finalized_root", strField he_SourceFinalizedRoot set_SourceFinalizedRoot);
   ("handoff_head", strField he_HandoffHead set_HandoffHead);
   ("handoff_root", strField he_HandoffRoot set_HandoffRoot);
   ("handoff_synced_to", ptrField he_HandoffSyncedTo set_HandoffSyncedTo)].

Definition zeroEntry : HeadEntry := mkEntry "" "" 0 None 0 0 0 "" "" None "" None "" "" "" None.

(** json.Marshal of a line. *)
Definition marshalEntry (e : HeadEntry) : bytes := render (entryJson e).

(** [Decoder.Decode] with [DisallowUnknownFields]: what follows the value is not read. *)
Definition unmarshalEntry (b : bytes) : option HeadEntry :=
  '(t, _) ← decodeFirst b; decodeStruct entryFields true t zeroEntry.

(** ** A line reads back *)

(** What a Go program can hold, in valid UTF-8. *)
Record entry_ok (e : HeadEntry) : Prop := {
  eo_strings : Forall (fun s => validString s = true)
    [he_Name e; he_Root e; he_Manifest e; he_Kind e; he_SourceHeadRoot e; he_SourceFinalizedRoot e; he_HandoffHead e; he_HandoffRoot e];
  eo_numbers : Forall is_u64 [he_OriginSlot e; he_SegBits e; he_FanoutBits e; he_DirDepth e];
  eo_pointers : Forall (fun o => forall v, o = Some v -> is_u64 v)
    [he_SyncedTo e; he_WindowStart e; he_SourceFinalizedSlot e; he_HandoffSyncedTo e] }.

Lemma decodeMembers_app {R} (fs : list (string * (jtok -> R -> option R))) dis a b r :
  decodeMembers fs dis (a ++ b) r = decodeMembers fs dis a r ≫= decodeMembers fs dis b.
Proof.
  revert r. induction a as [|[k v] a IH]; intros r; [done|]. cbn. destruct (findField fs k) as [f|].
  - destruct (f v r); [apply IH|done].
  - destruct dis; [done|apply IH].
Qed.

Definition embMember (m : string * json) : string * jtok := let '(k, v) := m in (k, emb v).

Lemma emb_obj l : emb (JObj l) = TObj (map embMember l).
Proof. done. Qed.

Lemma valid_nonempty k s : validString k = true -> validString s = true ->
  forallb (fun '(k, v) => validString k && jsonValid v) (omitempty k (nonempty s)) = true.
Proof. intros Hk Hs. unfold nonempty. destruct (decide _); cbn; [done|]. by rewrite Hk, Hs. Qed.
Lemma valid_number k (o : option Z) : validString k = true ->
  forallb (fun '(k, v) => validString k && jsonValid v) (omitempty k (JNum <$> o)) = true.
Proof. intros Hk. destruct o; cbn; [|done]. by rewrite Hk. Qed.

Lemma entryJson_valid e : entry_ok e -> jsonValid (entryJson e) = true.
Proof.
  intros [Hs _ _]. rewrite !Forall_cons in Hs. destruct Hs as (H1 & H2 & H3 & H4 & H5 & H6 & H7 & H8 & _).
  unfold entryJson. cbn [jsonValid]. rewrite !forallb_app, !valid_nonempty, !valid_number by (done || reflexivity).
  cbn [forallb jsonValid]. rewrite H1, H2. destruct (he_SyncedTo e); reflexivity.
Qed.

Definition flatMember (m : string * json) : Prop := jheight (snd m) = 0.

Lemma flat_nonempty k s : Forall flatMember (omitempty k (nonempty s)).
Proof. unfold nonempty. destruct (decide _); repeat constructor. Qed.
Lemma flat_number k (o : option Z) : Forall flatMember (omitempty k (JNum <$> o)).
Proof. destruct o; repeat constructor. Qed.

Lemma flat_height l : Forall flatMember l -> jheight (JObj l) = 1.
Proof.
  intros H. cbn. enough (foldr (fun '(_, v) m => Z.max (jheight v) m) 0 l = 0) by lia.
  induction H as [|[k v] l Hv _ IH]; [done|]. cbn in *. unfold flatMember in Hv. cbn in Hv. lia.
Qed.

Lemma entryJson_height e : jheight (entryJson e) = 1.
Proof.
  apply flat_height. apply Forall_app. split.
  - repeat (apply Forall_cons; split; [try reflexivity|]); [unfold flatMember; cbn; by destruct (he_SyncedTo e)|apply Forall_nil; done].
  - repeat (apply Forall_app; split); first [apply flat_nonempty|apply flat_number].
Qed.

(** One omitted or present member sets one field. *)
Ltac read_member :=
  rewrite decodeMembers_app;
  match goal with
  | |- context [decodeMembers ?fs ?d (map embMember (omitempty ?k (nonempty ?s))) ?r] =>
      eassert (decodeMembers fs d (map embMember (omitempty k (nonempty s))) r = Some _) as ->;
      [unfold nonempty; destruct (decide (s = EmptyString)) as [->|?]; [|lazy; reflexivity]; lazy; reflexivity|]
  | H : forall v, ?o = Some v -> is_u64 v |- context [decodeMembers ?fs ?d (map embMember (omitempty ?k (JNum <$> ?o))) ?r] =>
      eassert (decodeMembers fs d (map embMember (omitempty k (JNum <$> o))) r = Some _) as ->;
      [destruct o as [v|]; [lazy -[parseUint64 decInt]; rewrite (parseUint64_dec v) by (by apply H); lazy; reflexivity|lazy; reflexivity]|]
  end; cbn [mbind option_bind].

Lemma decodeEntry_members e : entry_ok e ->
  decodeStruct entryFields true (emb (entryJson e)) zeroEntry = Some e.
Proof.
  intros [_ Hn Hp]. rewrite !Forall_cons in Hn. rewrite !Forall_cons in Hp. destruct Hn as (N1 & N2 & N3 & N4 & _), Hp as (P1 & P2 & P3 & P4 & _).
  unfold entryJson. rewrite emb_obj. cbn [decodeStruct]. rewrite !map_app.
  destruct e as [name root os sy sb fb dd man kind ws shr sfs sfr hh hr hs]. cbn [he_Name he_Root he_OriginSlot he_SyncedTo
    he_SegBits he_FanoutBits he_DirDepth he_Manifest he_Kind he_WindowStart he_SourceHeadRoot he_SourceFinalizedSlot
    he_SourceFinalizedRoot he_HandoffHead he_HandoffRoot he_HandoffSyncedTo] in *.
  unfold HeadKind in kind. rewrite decodeMembers_app.
  match goal with |- context [decodeMembers ?fs ?d (map embMember ?l) ?r] =>
    assert (E : decodeMembers fs d (map embMember l) r = Some (mkEntry name root os sy sb fb dd "" "" None "" None "" "" "" None)) end.
  { lazy -[parseUint64 decInt]. rewrite (parseUint64_dec os) by done. lazy -[parseUint64 decInt].
    destruct sy as [sy|]; lazy -[parseUint64 decInt]; [rewrite (parseUint64_dec sy) by (by apply P1); lazy -[parseUint64 decInt]|];
      rewrite (parseUint64_dec sb) by done; lazy -[parseUint64 decInt]; rewrite (parseUint64_dec fb) by done;
      lazy -[parseUint64 decInt]; rewrite (parseUint64_dec dd) by done; reflexivity. }
  rewrite E. cbn [mbind option_bind]. clear E.
  do 8 read_member.
  destruct hs as [hs|]; [|reflexivity]. lazy -[parseUint64 decInt]. by rewrite (parseUint64_dec hs) by (by apply P4).
Qed.

(** What is marshalled is read back, and nothing else renders to the same bytes. *)
Lemma unmarshal_marshal e : entry_ok e -> unmarshalEntry (marshalEntry e) = Some e.
Proof.
  intros He. unfold unmarshalEntry, marshalEntry. rewrite <- (app_nil_r (render _)).
  rewrite decodeFirst_render; [|by apply entryJson_valid|by rewrite entryJson_height|done]. cbn [mbind option_bind].
  by apply decodeEntry_members.
Qed.

Lemma marshalEntry_inj a b : entry_ok a -> entry_ok b -> marshalEntry a = marshalEntry b -> a = b.
Proof. intros Ha Hb E. apply unmarshal_marshal in Ha, Hb. rewrite E, Hb in Ha. by injection Ha. Qed.

Lemma marshalEntry_nonempty e : marshalEntry e <> [].
Proof. done. Qed.

(** ** The canonical bytes determine the document *)

Record unsigned_ok (u : Unsigned) : Prop := {
  uo_strings : Forall (fun s => validString s = true) (u_Net u :: u_UpdatedAt u :: u_Multiaddrs u);
  uo_heads : Forall entry_ok (Heads u) }.

Lemma hex_valid l : validString (EncodeToString l) = true.
Proof.
  unfold validString, EncodeToString. rewrite string_bytes_string.
  assert (Hd : forall z b, 0 <= z < 16 -> utf8Valid (hexDigit z :: b) = utf8Valid b).
  { intros z b Hz. assert (In z (map Z.of_nat (seq 0 16))) as Hin.
    { apply in_map_iff. exists (Z.to_nat z). split; [lia|]. apply in_seq. lia. }
    cbn in Hin. repeat (destruct Hin as [<-|Hin]; [reflexivity|]). done. }
  induction l as [|b l IH]; [done|]. cbn [hexEncode]. pose proof (byte_Z_range b).
  rewrite !Hd; [done| |]; [apply Z.mod_pos_bound; lia|split; [apply Z.div_pos|apply Z.div_lt_upper_bound]; lia].
Qed.

Lemma unsignedJson_valid u : unsigned_ok u -> jsonValid (unsignedJson u) = true.
Proof.
  intros [Hs Hh]. rewrite !Forall_cons in Hs. destruct Hs as (H1 & H2 & H3).
  assert (Hheads : jsonValid (match u_Heads u with Some l => JArr (entryJson <$> l) | None => JNull end) = true).
  { unfold Heads in Hh. destruct (u_Heads u) as [l|]; [|done]. cbn [jsonValid]. apply forallb_forall. intros j Hj.
    apply list_elem_of_In, list_elem_of_fmap in Hj as (e & -> & He). apply entryJson_valid. by eapply Forall_forall in Hh. }
  assert (Hm : forall l, l = u_Multiaddrs u -> jsonValid (JArr (JStr <$> l)) = true).
  { intros l ->. cbn [jsonValid]. apply forallb_forall. intros j Hj. apply list_elem_of_In, list_elem_of_fmap in Hj as (s & -> & Hin).
    cbn. by eapply Forall_forall in H3. }
  unfold unsignedJson. cbn [jsonValid]. rewrite !forallb_app. cbn [forallb]. rewrite Hheads, valid_number by reflexivity.
  cbn [jsonValid]. rewrite H1, H2. destruct (u_ArchiveID u) as [id|]; cbn [omitempty fmap option_fmap option_map forallb jsonValid];
    unfold ArchiveID_String; rewrite ?hex_valid; (destruct (u_Multiaddrs u) as [|a l]; [reflexivity|]); cbn [omitempty forallb]; rewrite Hm by done; reflexivity.
Qed.

Lemma height_list l n : Forall (fun j => jheight j <= n) l -> 0 <= n -> jheight (JArr l) <= 1 + n.
Proof. intros H Hn. cbn. induction H as [|j l Hj _ IH]; cbn in *; lia. Qed.
Lemma height_members l n : Forall (fun m => jheight (snd m) <= n) l -> 0 <= n -> jheight (JObj l) <= 1 + n.
Proof. intros H Hn. cbn. induction H as [|[k j] l Hj _ IH]; cbn in *; lia. Qed.

Lemma unsignedJson_height u : jheight (unsignedJson u) <= 3.
Proof.
  apply (height_members _ 2); [|lia].
  assert (Hh : jheight (match u_Heads u with Some l => JArr (entryJson <$> l) | None => JNull end) <= 2).
  { destruct (u_Heads u) as [l|]; [|cbn; lia]. apply (height_list _ 1); [|lia]. apply Forall_forall. intros j Hj.
    apply list_elem_of_fmap in Hj as (e & -> & _). rewrite entryJson_height. lia. }
  repeat (apply Forall_app; split); repeat (apply Forall_cons; split; [cbn; (lia || done)|]); try (apply Forall_nil; done).
  - destruct (u_ArchiveID u); repeat constructor. cbn. lia.
  - destruct (u_Multiaddrs u) as [|a l]; [constructor|]. apply Forall_cons. split; [|by constructor]. apply (height_list _ 1); [|lia].
    apply Forall_forall. intros j Hj. apply list_elem_of_fmap in Hj as (s & -> & _). cbn. lia.
  - destruct (u_Revision u); repeat constructor. cbn. lia.
Qed.

Lemma entryJson_inj a b : entry_ok a -> entry_ok b -> entryJson a = entryJson b -> a = b.
Proof. intros Ha Hb E. apply marshalEntry_inj; [done..|]. unfold marshalEntry. by rewrite E. Qed.

Lemma fmap_inj_on {A B} (f : A -> B) (P : A -> Prop) l l' : (forall x y, P x -> P y -> f x = f y -> x = y) ->
  Forall P l -> Forall P l' -> f <$> l = f <$> l' -> l = l'.
Proof.
  intros Hf Hl. revert l'. induction Hl as [|x l Hx _ IH]; intros [|y l'] Hl' E; try discriminate E; [done|].
  apply Forall_cons in Hl' as [Hy Hl']. injection E as E1 E2. f_equal; [by apply Hf|by apply IH].
Qed.

Lemma heads_inj u u' : unsigned_ok u -> unsigned_ok u' ->
  match u_Heads u with Some l => JArr (entryJson <$> l) | None => JNull end =
  match u_Heads u' with Some l => JArr (entryJson <$> l) | None => JNull end -> u_Heads u = u_Heads u'.
Proof.
  intros [_ Hh] [_ Hh']. unfold Heads in *. destruct (u_Heads u), (u_Heads u'); try discriminate; [|done].
  intros [= E]. f_equal. by eapply (fmap_inj_on entryJson entry_ok); [apply entryJson_inj|..].
Qed.

Lemma hex_inj a b : EncodeToString a = EncodeToString b -> a = b.
Proof. intros E. apply (f_equal DecodeString) in E. rewrite !DecodeString_Encode in E. by injection E. Qed.

Lemma id_inj a b : ArchiveID_String a = ArchiveID_String b -> a = b.
Proof. intros E. by apply aid_eq, hex_inj. Qed.

Lemma strings_inj (a b : list string) : JStr <$> a = JStr <$> b -> a = b.
Proof. revert b. induction a as [|x a IH]; intros [|y b] E; try discriminate E; [done|]. injection E as -> E. f_equal. by apply IH. Qed.

Lemma unsignedJson_inj u u' : unsigned_ok u -> unsigned_ok u' -> unsignedJson u = unsignedJson u' -> u = u'.
Proof.
  intros Hu Hu' E. pose proof (heads_inj u u' Hu Hu') as Hh.
  destruct u as [v net id at_ ms hs rev], u' as [v' net' id' at' ms' hs' rev']. unfold unsignedJson in E. cbn [u_V u_Net u_ArchiveID
    u_UpdatedAt u_Multiaddrs u_Heads u_Revision] in *.
  destruct id as [id|], id' as [id'|], ms as [|m ms], ms' as [|m' ms'], rev as [rev|], rev' as [rev'|];
    cbn [omitempty fmap option_fmap option_map app] in E; injection E; intros; try discriminate;
    assert (hs = hs') as <- by auto; subst; f_equal;
    repeat first [done | apply f_equal, id_inj; done | apply f_equal, strings_inj; done].
Qed.

Section Canonical.
Context `{MH : Multihash}.

(** C39: The canonical digest identifies the document: two documents in valid UTF-8
    with the same digest, hence with the same signed bytes, agree in every signed
    field. *)
Theorem digest_identifies_document u u' d :
  unsigned_ok u -> unsigned_ok u' ->
  CanonicalDigest u = Ok d -> CanonicalDigest u' = Ok d -> u = u'.
Proof.
  intros Hu Hu' (b & Hb & [= <-])%rbind_ok (b' & Hb' & E)%rbind_ok. injection E as E. apply sha256_inj in E as ->.
  assert (Hc : forall x, Canonical x = Ok b -> render (unsignedJson x) = b).
  { intros x Hx. unfold Canonical in Hx. assert (Ok (render (unsignedJson x)) = Ok b :> res bytes) as H
      by (destruct (u_ArchiveID x); [destruct (ArchiveID_IsZero _)|]; done). congruence. }
  apply Hc in Hb, Hb'. pose proof (unsignedJson_height u). pose proof (unsignedJson_height u'). unfold maxNestingDepth in *.
  apply unsignedJson_inj; [done..|]. apply render_inj; try (by apply unsignedJson_valid); unfold maxNestingDepth; [lia..|]. congruence.
Qed.
End Canonical.
