(* ===== verification/Claims.v ===== *)
(** Claims of independent writers: follow/equivalence.go and the claim checks of
    follow/source_continuity.go.

    Two signed documents may claim different roots for one finalized head.  They are
    ordered by content: a claim includes another when projecting its head to the
    other's coverage gives exactly the other's root, and when its manifest descends
    from the other's.  The projection runs the engine over a store whose writes stay
    in a private scratch layer.

    The results of the comparison are values: a relation, a conflict (evidence of
    incompatible histories) or a failure to evaluate, attributed to a side. *)
From Stdlib Require String.
From S2P Require Import Prelude Arith Cid Schema Core Engine Truncate Publication.

Inductive ClaimRelation : Type :=
| ClaimRelationInvalid | ClaimsEquivalent | LeftClaimDominates | RightClaimDominates | ClaimsIncomparable.
#[global] Instance ClaimRelation_eq_dec : EqDecision ClaimRelation.
Proof. solve_decision. Defined.

Inductive ConflictReason : Type :=
| ConflictReasonInvalid | ConflictReasonEqualCoverageRootMismatch
| ConflictReasonPrefixProjectionMismatch | ConflictReasonManifestBranch.

Definition maxManifestWalk : nat := 4096.

(** ** The projection store *)

Section Projection.
Context `{MH : Multihash} {Sto Scr : Type} `{BS : !Blockstore Sto} `{SS : !Blockstore Scr}.

Record projectionBlockstore : Type := mkProjection { pj_base : Sto; pj_scratch : Scr }.

(** A read that the scratch layer does not have falls through to the base. *)
Definition proj_Get (c : Cid) : M projectionBlockstore bytes := fun p =>
  let '(r, x) := bs_get c (pj_scratch p) in
  match r with
  | Err ENotFound => let '(r, b) := bs_get c (pj_base p) in (r, mkProjection b x)
  | _ => (r, mkProjection (pj_base p) x)
  end.

Definition proj_Put (c : CidV) (data : bytes) : M projectionBlockstore unit := fun p =>
  let '(r, x) := bs_put c data (pj_scratch p) in (r, mkProjection (pj_base p) x).

(** The context is the caller's. *)
Definition proj_ctx : M projectionBlockstore unit := fun p =>
  let '(r, b) := bs_ctx (pj_base p) in (r, mkProjection b (pj_scratch p)).

#[global] Instance projection_blockstore : Blockstore projectionBlockstore :=
  {| bs_get := proj_Get; bs_put := proj_Put; bs_ctx := proj_ctx |}.
End Projection.

(** The in-memory store of the scratch layer (boxo over a map datastore), new and
    empty for each comparison. *)
Class ScratchStore `{MH : Multihash} (Scr : Type) `{!Blockstore Scr} : Type := { newScratch : Scr }.

Section Claims.
Context `{MH : Multihash} `{CB : !DagCbor} `{CT : !CidText} {ED : Ed25519}.
Context {Sto Scr : Type} `{BS : !Blockstore Sto} `{SS : !Blockstore Scr} `{SC : !ScratchStore Scr}.
Context {L : Type} `{LR : !Lru CidV (AnyNode * Z) L}.
Local Abbreviation Eng := (@Engine MH Sto L).
Local Abbreviation Proj := (@projectionBlockstore Sto Scr).
Local Abbreviation ProjEng := (@Engine MH Proj L).

(** ** Claims *)

Record finalizedClaim : Type := mkClaim {
  fc_archiveID : ArchiveID; fc_net : string; fc_entry : HeadEntry; fc_root : Cid; fc_manifest : Cid }.

Record ArchiveConflictError : Type := mkArchiveConflict {
  ac_ArchiveID : ArchiveID; ac_Head : string; ac_LeftRoot : Cid; ac_RightRoot : Cid;
  ac_LeftSyncedTo : Z; ac_RightSyncedTo : Z; ac_LeftCovered : bool; ac_RightCovered : bool;
  ac_LeftManifest : Cid; ac_RightManifest : Cid; ac_ReasonCode : ConflictReason }.

(** [claimEvidenceError] carries the sides whose evidence could not be evaluated
    and the errors it joins. *)
Inductive claimErr : Type :=
| CConflict (c : ArchiveConflictError)
| CEvidence (left right : bool) (errs : list err).

Definition newHead {S} (b : S) : @Engine MH S L :=
  mkEngine b None ∅ (emptyState (mkParams "" "" 0 0 0)) None stats0 None 0.

(** [archive.Load] over a store; the store it read comes back. *)
Definition loadInfo (c : Cid) : M Sto Info := fun s =>
  let '(r, h) := Engine.Load c (newHead s) in
  (match r with Ok _ => Ok (InfoOf h) | Err e => Err e end, blocks h).

Definition compareCoverage (left right : option Z) : Z :=
  match left, right with
  | None, None => 0
  | None, Some _ => -1
  | Some _, None => 1
  | Some l, Some r => if l <? r then -1 else if r <? l then 1 else 0
  end.
Definition sameCoverage (left right : option Z) : bool := compareCoverage left right =? 0.
Definition coverage (p : option Z) : Z * bool := match p with None => (0, false) | Some s => (s, true) end.

Definition newArchiveConflict (left right : finalizedClaim) (reason : ConflictReason) : ArchiveConflictError :=
  let '(ls, lc) := coverage (he_SyncedTo (fc_entry left)) in
  let '(rs, rc) := coverage (he_SyncedTo (fc_entry right)) in
  mkArchiveConflict (fc_archiveID left) (he_Name (fc_entry left)) (fc_root left) (fc_root right)
    ls rs lc rc (fc_manifest left) (fc_manifest right) reason.

Definition matchPublishedRoot (net : string) (e : HeadEntry) (i : Info) : res unit :=
  let p := i_Params i in
  refuse_if negb (bool_decide (p_Name p = he_Name e)) || negb (bool_decide (p_Net p = net))
         || negb (bool_decide (cidString (i_Root i) = he_Root e))
         || negb (p_OriginSlot p =? he_OriginSlot e) || negb (p_SegBits p =? he_SegBits e)
         || negb (p_FanoutBits p =? he_FanoutBits e) || negb (i_DirDepth i =? he_DirDepth e)
         || negb (sameCoverage (i_SyncedTo i) (he_SyncedTo e))
    with EInvalid "root does not reproduce its signed publication fields" ;;
  Ok tt.

Definition decodeCid (s : string) : res Cid :=
  match cid_Decode s with Some c => Ok (Some c) | None => Err (EInvalid "undecodable CID") end.

Definition parseManifestTip (e : HeadEntry) : res Cid :=
  if emptyStr (he_Manifest e) then Ok Undef else decodeCid (he_Manifest e).

(** loadFinalizedClaimWithHead: the checks of a document's line for [name], over
    the loader the caller supplies. *)
Definition loadFinalizedClaimWithHead (load : Cid -> M Sto Info) (name : string) (doc : Doc)
    : M Sto finalizedClaim :=
  let u := d_Unsigned doc in
  lift (Verify doc) ;;;
  lift (ValidateContract doc) ;;;
  match (if u_V u =? LogicalArchiveDocVersion then u_ArchiveID u else None) with
  | None => fail (EInvalid "no logical archive identity")
  | Some id =>
    match List.find (fun e => bool_decide (he_Name e = name)) (Heads u) with
    | None => fail (EInvalid "document does not publish the head")
    | Some entry =>
      fail_if negb (bool_decide (EffectiveKind entry = FinalizedMonotonic))
        with EInvalid "finalized-monotonic heads only" ;;
      root <-- lift (decodeCid (he_Root entry)) ;;
      info <-- load root ;;
      lift (matchPublishedRoot (u_Net u) entry info) ;;;
      manifest <-- lift (parseManifestTip entry) ;;
      ret (mkClaim id (u_Net u) entry root manifest)
    end
  end.

Definition loadFinalizedClaim (name : string) (doc : Doc) : M Sto finalizedClaim :=
  loadFinalizedClaimWithHead loadInfo name doc.

(** A finalized line retained without its document. *)
Definition finalizedEntryClaim (id : ArchiveID) (net head : string) (entry : HeadEntry) : M Sto finalizedClaim :=
  fail_if ArchiveID_IsZero id with EInvalid "empty logical archive ID" ;;
  fail_if emptyStr net with EInvalid "no network" ;;
  fail_if negb (bool_decide (he_Name entry = head)) with EInvalid "witness names another head" ;;
  fail_if negb (bool_decide (EffectiveKind entry = FinalizedMonotonic)) with EInvalid "witness is not finalized" ;;
  fail_if unset (he_SyncedTo entry) with EInvalid "witness has no coverage" ;;
  root <-- lift (decodeCid (he_Root entry)) ;;
  info <-- loadInfo root ;;
  lift (matchPublishedRoot net entry info) ;;;
  manifest <-- lift (parseManifestTip entry) ;;
  ret (mkClaim id net entry root manifest).

Definition sameClaimIdentity (a b : finalizedClaim) : bool :=
  let x := fc_entry a in let y := fc_entry b in
  bool_decide (fc_archiveID a = fc_archiveID b) && bool_decide (fc_net a = fc_net b)
  && bool_decide (he_Name x = he_Name y) && bool_decide (EffectiveKind x = EffectiveKind y)
  && (he_OriginSlot x =? he_OriginSlot y) && (he_SegBits x =? he_SegBits y)
  && (he_FanoutBits x =? he_FanoutBits y).

(** ** Roots *)

(** Load and project over a fresh scratch layer; the base store it read comes back. *)
Definition project (root : Cid) (synced : option Z) : M Sto (res Cid) := fun s =>
  let '(r, h) := (Engine.Load root ;;;
                  match synced with None => TruncateToEmpty | Some slot => Truncate slot end)
                 (newHead (mkProjection s newScratch) : ProjEng) in
  (Ok r, pj_base (blocks h)).

Definition compareClaimRoots (left right : finalizedClaim) : M Sto (result claimErr ClaimRelation) :=
  let cmp := compareCoverage (he_SyncedTo (fc_entry left)) (he_SyncedTo (fc_entry right)) in
  if cmp =? 0 then
    if negb (bool_decide (fc_root left = fc_root right))
    then ret (Err (CConflict (newArchiveConflict left right ConflictReasonEqualCoverageRootMismatch)))
    else ret (Ok ClaimsEquivalent)
  else
    let leftHigher := negb (cmp <? 0) in
    let '(higher, lower, relation) :=
      if leftHigher then (left, right, LeftClaimDominates) else (right, left, RightClaimDominates) in
    projected <-- project (fc_root higher) (he_SyncedTo (fc_entry lower)) ;;
    match projected with
    | Err e => ret (Err (CEvidence leftHigher (negb leftHigher) [e]))
    | Ok projected =>
      if negb (bool_decide (projected = fc_root lower))
      then ret (Err (CConflict (newArchiveConflict left right ConflictReasonPrefixProjectionMismatch)))
      else ret (Ok relation)
    end.

(** ** Manifests *)

Fixpoint appendLinks (n : Node) : list CidV :=
  match n with
  | NLink c => [c]
  | NMap l => concat (map (fun '(_, v) => appendLinks v) l)
  | NList l => concat (map appendLinks l)
  | _ => []
  end.

Definition links (raw : bytes) : res (list CidV) :=
  match cbor_decode raw with None => Err (EInvalid "decoding block") | Some n => Ok (appendLinks n) end.

(** One round of the loop per unit of [hops]. *)
Fixpoint manifestWalk (hops : nat) (current ancestor : CidV) : M Sto bool :=
  match hops with
  | O => fail (EInvalid "manifest chain exceeds the walk")
  | S hops' =>
    bs_ctx ;;;
    if decide (current = ancestor) then ret true
    else
      fail_if negb (cidCodec current =? cid_DagCBOR) with EInvalid "manifest is not a dag-cbor block" ;;
      blk <-- bs_get (Some current) ;;
      kids <-- lift (links blk) ;;
      match kids with
      | [] => ret false
      | [kid] => manifestWalk hops' kid ancestor
      | _ => fail (EInvalid "manifest carries more than one link")
      end
  end.

Definition manifestDescends (descendant ancestor : CidV) : M Sto bool :=
  manifestWalk maxManifestWalk descendant ancestor.

Definition failed {A} (r : res A) : bool := match r with Err _ => true | Ok _ => false end.
Definition errOf {A} (r : res A) : list err := match r with Err e => [e] | Ok _ => [] end.

Definition compareClaimManifests (left right : finalizedClaim) : M Sto (result claimErr ClaimRelation) :=
  match fc_manifest left, fc_manifest right with
  | None, None => ret (Ok ClaimsEquivalent)
  | None, Some _ | Some _, None => ret (Ok ClaimsIncomparable)
  | Some l, Some r =>
    if decide (l = r) then ret (Ok ClaimsEquivalent)
    else
      leftDescends <-- attempt (manifestDescends l r) ;;
      match leftDescends with
      | Ok true => ret (Ok LeftClaimDominates)
      | _ =>
        rightDescends <-- attempt (manifestDescends r l) ;;
        match rightDescends with
        | Ok true => ret (Ok RightClaimDominates)
        | _ =>
          if failed leftDescends || failed rightDescends
          then ret (Err (CEvidence (failed leftDescends) (failed rightDescends)
                                   (errOf leftDescends ++ errOf rightDescends)))
          else ret (Err (CConflict (newArchiveConflict left right ConflictReasonManifestBranch)))
        end
      end
  end.

(** ** The classification *)

Definition combineRelations (rootRelation manifestRelation : ClaimRelation) : ClaimRelation :=
  if decide (rootRelation = ClaimsEquivalent) then manifestRelation
  else if decide (manifestRelation = ClaimsEquivalent) then rootRelation
  else if decide (rootRelation = manifestRelation) then rootRelation
  else ClaimsIncomparable.

Definition classifyLoadedFinalizedClaims (left right : finalizedClaim) : M Sto (result claimErr ClaimRelation) :=
  if negb (sameClaimIdentity left right) then ret (Ok ClaimsIncomparable)
  else
    rootRelation <-- compareClaimRoots left right ;;
    match rootRelation with
    | Err e => ret (Err e)
    | Ok rootRelation =>
      manifestRelation <-- compareClaimManifests left right ;;
      match manifestRelation with
      | Err e => ret (Err e)
      | Ok manifestRelation => ret (Ok (combineRelations rootRelation manifestRelation))
      end
    end.

(** The blockstore of the model is never nil. *)
Definition ClassifyFinalizedClaims (head : string) (left right : Doc)
    : M Sto (result claimErr ClaimRelation) :=
  fail_if emptyStr head with EInvalid "empty head name" ;;
  l <-- attempt (loadFinalizedClaim head left) ;;
  match l with
  | Err e => ret (Err (CEvidence true false [e]))
  | Ok l =>
    r <-- attempt (loadFinalizedClaim head right) ;;
    match r with
    | Err e => ret (Err (CEvidence false true [e]))
    | Ok r => classifyLoadedFinalizedClaims l r
    end
  end.
End Claims.
