(* ===== verification/ClaimsCorrect.v ===== *)
(** What the comparison of claims proves; the model is Claims.v.

    On roots of well-formed heads the verdict is exact: equivalent claims name one
    head, a dominating claim includes the other's rows and coverage, a conflict
    means that neither head is a prefix of the other (or neither manifest descends
    from the other).  The caller's store is only read. *)
From S2P Require Import Prelude Arith Cid Schema Core Engine EngineWorld Dir HeadModel Lookup Apply ApplyCorrect Truncate Lifecycle Enumerate EnumerateCorrect Merkle StoreAccess Publication Claims.

Section Order.
Context `{MH : Multihash} `{CB : !DagCbor} {Sto : Type} `{BS : !Blockstore Sto}.

(** ** The order on heads

    [included a b]: the head [a] is what [b] was at [a]'s coverage. *)

Definition projected (m : hmodel) (s : option Z) : hmodel :=
  match s with None => empty_head (m_params m) | Some s => truncated m s end.
Definition included (a b : hmodel) : Prop :=
  compareCoverage (m_synced a) (m_synced b) <= 0 /\ a = projected b (m_synced a).

Lemma compareCoverage_le a b :
  compareCoverage a b <= 0 <-> match a, b with None, _ => True | Some _, None => False | Some x, Some y => x <= y end.
Proof.
  destruct a as [x|], b as [y|]; simpl; try lia.
  destruct (Z.ltb_spec x y); [lia|]. destruct (Z.ltb_spec y x); lia.
Qed.

Lemma compareCoverage_eq a b : compareCoverage a b = 0 <-> a = b.
Proof.
  destruct a as [x|], b as [y|]; simpl; try (split; congruence || lia).
  destruct (Z.ltb_spec x y); [split; [done|intros [= ->]; lia]|].
  destruct (Z.ltb_spec y x); [split; [done|intros [= ->]; lia]|]. split; [intros _; f_equal; lia|done].
Qed.

Lemma compareCoverage_neg a b : compareCoverage a b < 0 <-> 0 < compareCoverage b a.
Proof.
  destruct a as [x|], b as [y|]; simpl; try lia.
  repeat match goal with |- context [?p <? ?q] => destruct (Z.ltb_spec p q) end; lia.
Qed.

Lemma cut_all s rows : Forall (fun r => Slot r <= s) rows -> cut s rows = rows.
Proof. apply filter_all. Qed.

Lemma included_refl m : content_ok m -> included m m.
Proof.
  intros [_ Hc]. split; [by rewrite (proj2 (compareCoverage_eq _ _) eq_refl)|].
  destruct m as [p [s|] rows]; simpl in *; [|by subst].
  unfold truncated. simpl. rewrite cut_all; [done|].
  eapply Forall_impl; [apply (co_range _ _ _ Hc)|]. simpl. lia.
Qed.

Lemma included_trans a b c : included a b -> included b c -> included a c.
Proof.
  intros [Hab Ea] [Hbc Eb]. rewrite compareCoverage_le in *. split.
  - apply compareCoverage_le. destruct (m_synced a), (m_synced b), (m_synced c); try done. lia.
  - rewrite Ea at 1. rewrite Eb. destruct a as [pa [sa|] ra], b as [pb [sb|] rb]; simpl in *; try done.
    unfold truncated. simpl. f_equal. apply filter_comp. lia.
Qed.

Lemma included_antisym a b : content_ok a -> content_ok b -> included a b -> included b a -> a = b.
Proof.
  intros Ha Hb [Hab Ea] [Hba _]. rewrite Ea. rewrite compareCoverage_le in *.
  assert (m_synced a = m_synced b) as ->.
  { destruct (m_synced a), (m_synced b); try done. f_equal. lia. }
  symmetry. apply included_refl. done.
Qed.

Lemma included_params a b : included a b -> m_params a = m_params b.
Proof. intros [_ ->]. unfold projected. by destruct (m_synced a). Qed.

(** Heads of one archive are comparable when they are prefixes of one head. *)
Lemma included_total a b c : included a c -> included b c -> included a b \/ included b a.
Proof.
  intros [Ha Ea] [Hb Eb]. rewrite compareCoverage_le in *.
  destruct (decide (compareCoverage (m_synced a) (m_synced b) <= 0)) as [H|H].
  - left. split; [done|]. rewrite compareCoverage_le in H. rewrite Ea at 1. rewrite Eb.
    destruct (m_synced a), (m_synced b); simpl; try done. unfold truncated. simpl. f_equal. symmetry. apply filter_comp. lia.
  - right. assert (compareCoverage (m_synced b) (m_synced a) <= 0) as H'.
    { pose proof (compareCoverage_neg (m_synced b) (m_synced a)). lia. }
    split; [done|]. rewrite compareCoverage_le in H'. rewrite Eb at 1. rewrite Ea.
    destruct (m_synced a), (m_synced b); simpl; try done. unfold truncated. simpl. f_equal. symmetry. apply filter_comp. lia.
Qed.
End Order.

(** ** The projection is a block store *)

(** What is relied on of the scratch store beyond any block store: it starts
    working, and while it works a block it does not hold is reported as absent. *)
Class ScratchOk `{MH : Multihash} (Scr : Type) `{SS : !Blockstore Scr} `{SO : !BlockstoreOk Scr}
    `{SC : !ScratchStore Scr} : Prop := {
  newScratch_live : bs_live newScratch;
  scratch_miss : forall v s, bs_live s -> (exists d, bs_has s v d) \/ fst (bs_get (Some v) s) = Err ENotFound
}.

Section ProjectionOk.
Context `{MH : Multihash} {Sto Scr : Type} `{BS : !Blockstore Sto} `{BO : !BlockstoreOk Sto}.
Context `{SS : !Blockstore Scr} `{SO : !BlockstoreOk Scr} `{SC : !ScratchStore Scr} `{SK : !ScratchOk Scr}.
Local Abbreviation Proj := (@projectionBlockstore Sto Scr).

Definition proj_has (p : Proj) (v : CidV) (d : bytes) : Prop := bs_has (pj_scratch p) v d \/ bs_has (pj_base p) v d.
Definition proj_live (p : Proj) : Prop := bs_live (pj_scratch p) /\ bs_live (pj_base p).

(** A read is answered by the scratch layer or, when that has not got it, by the base. *)
Lemma proj_Get_run c (p : Proj) r p' :
  proj_Get c p = (r, p') ->
  exists r1 x, bs_get c (pj_scratch p) = (r1, x) /\
    ((r = r1 /\ r1 <> Err ENotFound /\ p' = mkProjection (pj_base p) x) \/
     (r1 = Err ENotFound /\ exists b, bs_get c (pj_base p) = (r, b) /\ p' = mkProjection b x)).
Proof.
  unfold proj_Get. destruct (bs_get c (pj_scratch p)) as [r1 x]. intros H. exists r1, x. split; [done|].
  destruct (bs_get c (pj_base p)) as [r2 b] eqn:E.
  destruct r1 as [d|e]; [injection H as <- <-; left; done|].
  destruct e; injection H as <- <-; first [left; done|right; split; [done|eauto]].
Qed.

Lemma get_addresses {S} `{!Blockstore S} `{!BlockstoreOk S} v d (s : S) : bs_live s -> bs_has s v d -> addresses v d.
Proof.
  intros Hl Hh. pose proof (get_live v d s Hl Hh) as E. destruct (bs_get (Some v) s) as [r s'] eqn:G. simpl in E. subst r.
  apply get_sound in G as (v' & [= <-] & ? & _). done.
Qed.

#[global] Program Instance projection_ok : BlockstoreOk Proj :=
  {| bs_has := proj_has; bs_live := proj_live |}.
Next Obligation.
  intros c p d p' H. apply proj_Get_run in H as (r1 & x & Hs & [(<- & _ & ->)|(-> & b & Hb & ->)]).
  - apply get_sound in Hs as (v & -> & ? & ?). exists v. split; [done|]. split; [done|]. by left.
  - apply get_sound in Hb as (v & -> & ? & ?). exists v. split; [done|]. split; [done|]. by right.
Qed.
Next Obligation.
  intros c p r p' H. apply proj_Get_run in H as (r1 & x & Hs & Hx). apply get_frame in Hs as [Hh Hl].
  destruct Hx as [(_ & _ & ->)|(_ & b & Hb & ->)].
  - split; [intros v d [?|?]; [left|right]; simpl; auto|intros [? ?]; split; simpl; auto].
  - apply get_frame in Hb as [Hh' Hl']. split; [intros v d [?|?]; [left|right]; simpl; auto|intros [? ?]; split; simpl; auto].
Qed.
Next Obligation.
  intros c b p r p' H Ha. simpl in H. unfold proj_Put in H. destruct (bs_put c b (pj_scratch p)) as [r0 x] eqn:E.
  injection H as <- <-. apply put_frame in E as [Hh Hl]; [|done].
  split; [intros v d [?|?]; [left|right]; simpl; auto|intros [? ?]; split; simpl; auto].
Qed.
Next Obligation.
  intros p r p' H. simpl in H. unfold proj_ctx in H. destruct (bs_ctx (pj_base p)) as [r0 x] eqn:E.
  injection H as <- <-. apply ctx_frame in E as [Hh Hl].
  split; [intros v d [?|?]; [left|right]; simpl; auto|intros [? ?]; split; simpl; auto].
Qed.
Next Obligation.
  intros c b p p' H Ha. simpl in H. unfold proj_Put in H. destruct (bs_put c b (pj_scratch p)) as [r0 x] eqn:E.
  injection H as -> <-. left. simpl. by eapply put_has.
Qed.
Next Obligation.
  intros v d p [Hs Hb] Hh. simpl. unfold proj_Get. destruct (scratch_miss v (pj_scratch p) Hs) as [[d' Hd]|Hm].
  - pose proof (get_live v d' _ Hs Hd) as E. destruct (bs_get (Some v) (pj_scratch p)) as [r x]. simpl in E. subst r. simpl. f_equal.
    pose proof (get_addresses v d' _ Hs Hd). assert (addresses v d).
    { destruct Hh as [Hh|Hh]; [exact (get_addresses v d _ Hs Hh)|exact (get_addresses v d _ Hb Hh)]. }
    by eapply addresses_fun.
  - destruct (bs_get (Some v) (pj_scratch p)) as [r x] eqn:E. simpl in Hm. subst r. destruct Hh as [Hh|Hh].
    + pose proof (get_live v d _ Hs Hh) as E'. by rewrite E in E'.
    + pose proof (get_live v d _ Hb Hh) as E'. destruct (bs_get (Some v) (pj_base p)). done.
Qed.
Next Obligation.
  intros c b p [Hs _] Ha. simpl. unfold proj_Put. pose proof (put_live c b _ Hs Ha) as E.
  destruct (bs_put c b (pj_scratch p)). done.
Qed.
Next Obligation.
  intros p [_ Hb]. simpl. unfold proj_ctx. pose proof (ctx_live _ Hb) as E. destruct (bs_ctx (pj_base p)). done.
Qed.
Next Obligation.
  intros c p e p' H. apply proj_Get_run in H as (r1 & x & Hs & [(<- & _ & _)|(_ & b & Hb & _)]);
    [exact (get_err _ _ _ _ Hs)|exact (get_err _ _ _ _ Hb)].
Qed.
Next Obligation.
  intros c b p e p' H. simpl in H. unfold proj_Put in H. destruct (bs_put c b (pj_scratch p)) as [r0 x] eqn:E.
  injection H as -> <-. exact (put_err _ _ _ _ _ E).
Qed.
Next Obligation.
  intros p e p' H. simpl in H. unfold proj_ctx in H. destruct (bs_ctx (pj_base p)) as [r0 x] eqn:E.
  injection H as -> <-. exact (ctx_err _ _ _ E).
Qed.
End ProjectionOk.

Section Verdicts.
Context `{MH : Multihash} `{CB : !DagCbor} `{CT : !CidText} {ED : Ed25519}.
Context {Sto Scr : Type} `{BS : !Blockstore Sto} `{BO : !BlockstoreOk Sto}.
Context `{SS : !Blockstore Scr} `{SO : !BlockstoreOk Scr} `{SC : !ScratchStore Scr} `{SK : !ScratchOk Scr}.
Context {L : Type} `{LR : !Lru CidV (AnyNode * Z) L}.
Local Abbreviation Proj := (@projectionBlockstore Sto Scr).
Local Abbreviation ProjEng := (@Engine MH Proj L).
Local Abbreviation project := (@project MH CB Sto Scr BS SS SC L LR).
Local Abbreviation compareClaimRoots := (@compareClaimRoots MH CB Sto Scr BS SS SC L LR).
Local Abbreviation classifyLoadedFinalizedClaims := (@classifyLoadedFinalizedClaims MH CB Sto Scr BS SS SC L LR).

(** The claim [c] is about the head [m]. *)
Record claims (c : finalizedClaim) (m : hmodel) : Prop := {
  cl_root : fc_root c = model_root m;
  cl_ok : head_ok m;
  cl_params : m_params m = mkParams (he_Name (fc_entry c)) (fc_net c) (he_OriginSlot (fc_entry c))
                             (he_SegBits (fc_entry c)) (he_FanoutBits (fc_entry c));
  cl_synced : he_SyncedTo (fc_entry c) = m_synced m }.

(** ** Roots *)

(** The head has more sealed windows than a load admits. *)
Definition over_budget (m : hmodel) : Prop :=
  exists x, m_synced m = Some x /\ MaxEnumerationOutputs < Z.of_nat (sealedN (m_params m) x).

(** The projection of a head is its past. *)
Lemma project_run m synced (s : Sto) r s' :
  head_ok m -> project (model_root m) synced s = (r, s') ->
  match r with
  | Ok (Ok c) => head_ok (projected m synced) /\ c = model_root (projected m synced)
  | Ok (Err e) => external e \/ over_budget m
  | Err _ => False
  end.
Proof.
  intros Hok H. unfold project, Claims.project in H.
  destruct ((Engine.Load _ ;;; _) _) as [x h] eqn:E. injection H as <- <-.
  apply bind_run in E as [([] & h1 & Hl & E)|(e & Hl & ->)]; apply (Load_head_run m) in Hl; try done.
  2: { destruct Hl as (_ & _ & [Hs|Hb]); [left; by apply store_err_external|by right]. }
  destruct synced as [x0|].
  - apply (truncate_run m) in E; [|done|lia]. destruct x; [|left; apply E]. destruct E as ([_ _ ?] & -> & _). done.
  - apply (TruncateToEmpty_run m) in E; [|done]. destruct x; [|left; apply E]. destruct E as ([_ _ ?] & ->). done.
Qed.

(** The projection of the head with the higher coverage failed: the evidence is
    missing on its side. *)
Definition unprojected (ml mr : hmodel) (lf rt : bool) (es : list err) : Prop :=
  exists e, es = [e] /\
    (lf = true /\ rt = false /\ 0 < compareCoverage (m_synced ml) (m_synced mr) /\ (external e \/ over_budget ml) \/
     lf = false /\ rt = true /\ 0 < compareCoverage (m_synced mr) (m_synced ml) /\ (external e \/ over_budget mr)).

(** What a verdict on the roots means. *)
Definition root_verdict (ml mr : hmodel) (r : result claimErr ClaimRelation) : Prop :=
  match r with
  | Ok ClaimsEquivalent => ml = mr
  | Ok LeftClaimDominates => included mr ml /\ mr <> ml
  | Ok RightClaimDominates => included ml mr /\ ml <> mr
  | Ok _ => False
  | Err (CConflict _) => ~ included ml mr /\ ~ included mr ml
  | Err (CEvidence lf rt es) => unprojected ml mr lf rt es
  end.

Lemma included_lower a b : included a b -> compareCoverage (m_synced a) (m_synced b) <= 0.
Proof. by intros [? _]. Qed.

Lemma compareClaimRoots_run l r ml mr (s : Sto) v s' :
  claims l ml -> claims r mr -> m_params ml = m_params mr ->
  compareClaimRoots l r s = (v, s') -> exists x, v = Ok x /\ root_verdict ml mr x.
Proof.
  intros Hl Hr Hp H. unfold compareClaimRoots, Claims.compareClaimRoots in H.
  rewrite (cl_synced _ _ Hl), (cl_synced _ _ Hr) in H. pose proof (cl_ok _ _ Hl) as Hol. pose proof (cl_ok _ _ Hr) as Hor.
  destruct (Z.eqb_spec (compareCoverage (m_synced ml) (m_synced mr)) 0) as [E|E].
  { apply compareCoverage_eq in E. case_bool_decide as Hroot; injection H as <- <-; eexists; (split; [done|]); simpl.
    - rewrite (cl_root _ _ Hl), (cl_root _ _ Hr) in Hroot. by apply model_root_inj.
    - rewrite (cl_root _ _ Hl), (cl_root _ _ Hr) in Hroot.
      assert (Hne : ml <> mr) by congruence. split; intros [_ Hi]; apply Hne; rewrite Hi.
      + rewrite E. symmetry. by apply included_refl, head_content.
      + rewrite <- E. by apply included_refl, head_content. }
  pose proof (compareCoverage_neg (m_synced ml) (m_synced mr)) as Hneg.
  pose proof (compareCoverage_neg (m_synced mr) (m_synced ml)) as Hneg'.
  destruct (Z.ltb_spec (compareCoverage (m_synced ml) (m_synced mr)) 0) as [Hc|Hc]; cbn [negb] in H.
  - rewrite (cl_root _ _ Hl), (cl_root _ _ Hr), ?(cl_synced _ _ Hl), ?(cl_synced _ _ Hr) in H.
    apply bind_run in H as [(x & s1 & Hpj & H)|(e & Hpj & ->)]; apply project_run in Hpj; try done.
    destruct x as [c|e]; [|injection H as <- <-; eexists; split; [done|]; exists e; split; [done|]; right; repeat split; [by apply Hneg|done]].
    destruct Hpj as [Hpo ->]. case_bool_decide as Hroot; injection H as <- <-; eexists; (split; [done|]); simpl.
    + apply model_root_inj in Hroot; [|done..]. split; [split; [lia|by symmetry]|]. intros ->.
      by rewrite (proj2 (compareCoverage_eq _ _) eq_refl) in Hc.
    + split; intros [Hle Hi]; [|lia]. apply Hroot. by rewrite <- Hi.
  - rewrite (cl_root _ _ Hl), (cl_root _ _ Hr), ?(cl_synced _ _ Hl), ?(cl_synced _ _ Hr) in H.
    apply bind_run in H as [(x & s1 & Hpj & H)|(e & Hpj & ->)]; apply project_run in Hpj; try done.
    destruct x as [c|e]; [|injection H as <- <-; eexists; split; [done|]; exists e; split; [done|]; left; repeat split; [lia|done]].
    destruct Hpj as [Hpo ->]. case_bool_decide as Hroot; injection H as <- <-; eexists; (split; [done|]); simpl.
    + apply model_root_inj in Hroot; [|done..]. split; [split; [lia|by symmetry]|]. intros ->.
      by rewrite (proj2 (compareCoverage_eq _ _) eq_refl) in E.
    + split; intros [Hle Hi]; [lia|]. apply Hroot. by rewrite <- Hi.
Qed.

(** ** Manifests *)

(** The manifest [c] links to [k], whatever store it is read from. *)
Definition links_to (c k : CidV) : Prop :=
  cidCodec c = cid_DagCBOR /\ exists data, addresses c data /\ links data = Ok [k].
Definition descends (d a : CidV) : Prop := rtc links_to d a.

Lemma links_to_fun c k k' : links_to c k -> links_to c k' -> k = k'.
Proof.
  intros [_ (x & Hx & Lx)] [_ (y & Hy & Ly)]. rewrite (addresses_fun c x y) in Lx by done. congruence.
Qed.

(** A block that is no manifest: not dag-cbor, not decodable, or with several links. *)
Definition no_manifest (c : CidV) : Prop :=
  cidCodec c <> cid_DagCBOR \/ exists d, addresses c d /\ links d <> Ok [] /\ forall k, links d <> Ok [k].

(** Why the ancestry of [c] cannot be walked: the store failed, the chain leads to a
    block that is no manifest, or it is longer than the walk. *)
Definition unwalkable (hops : nat) (c : CidV) (e : err) : Prop :=
  store_err e \/ (exists x, descends c x /\ no_manifest x) \/ exists x, nsteps links_to hops c x.

Lemma unwalkable_step hops c k e : links_to c k -> unwalkable hops k e -> unwalkable (S hops) c e.
Proof.
  intros Hl [Hs|[(x & Hx & Hn)|(x & Hx)]]; [by left|right; left|right; right]; exists x.
  - split; [by eapply rtc_l|done].
  - by eapply nsteps_l.
Qed.

Lemma manifestWalk_run hops c a (s : Sto) r s' :
  manifestWalk hops c a s = (r, s') ->
  match r with Ok true => descends c a | Ok false => ~ descends c a | Err e => unwalkable hops c e end.
Proof.
  revert c s. induction hops as [|hops IH]; intros c s H.
  { injection H as <- <-. right. right. exists c. constructor. }
  cbn [manifestWalk] in H.
  apply bind_run in H as [(u & s1 & _ & H)|(e & Hx & ->)]; [|left; apply ctx_err in Hx as ->; by do 3 right].
  destruct (decide (c = a)) as [->|Hne]; [injection H as <- <-; constructor|].
  destruct (Z.eqb_spec (cidCodec c) cid_DagCBOR) as [Hcd|Hcd]; cbn [negb] in H.
  2: { injection H as <- <-. right. left. exists c. split; [constructor|by left]. }
  apply bind_run in H as [(blk & s2 & Hg & H)|(e & Hg & ->)]; [|left; exact (get_err _ _ _ _ Hg)].
  apply get_sound in Hg as (v & [= <-] & Ha & _).
  assert (Hbad : links blk <> Ok [] -> (forall k, links blk <> Ok [k]) -> forall e, unwalkable (S hops) c e).
  { intros H1 H2 e. right. left. exists c. split; [constructor|]. right. by exists blk. }
  destruct (links blk) as [kids|e] eqn:Hk; [|injection H as <- <-; by apply Hbad]. unfold lift, bind at 1 in H.
  assert (Hstep : forall k, links_to c k -> kids = [k]).
  { intros k [_ (d & Hd & Lk)]. rewrite (addresses_fun c d blk) in Lk by done. congruence. }
  destruct kids as [|kid [|? ?]].
  - injection H as <- <-. intros Hd. inversion Hd as [|x y z Hxy Hyz]; subst; [done|]. by apply Hstep in Hxy.
  - apply IH in H. assert (Hl : links_to c kid) by (split; [done|eauto]).
    destruct r as [[]|]; [by econstructor| |by eapply unwalkable_step]. intros Hd. apply H.
    inversion Hd as [|x y z Hxy Hyz]; subst; [done|]. by rewrite (links_to_fun _ _ _ Hl Hxy).
  - injection H as <- <-. by apply Hbad.
Qed.

Lemma manifestDescends_run c a (s : Sto) r s' :
  manifestDescends c a s = (r, s') ->
  match r with Ok true => descends c a | Ok false => ~ descends c a | Err e => unwalkable maxManifestWalk c e end.
Proof. unfold manifestDescends. generalize maxManifestWalk. intros hops. apply manifestWalk_run. Qed.

Definition manifest_le (a b : Cid) : Prop :=
  match a, b with
  | None, None => True
  | Some x, Some y => descends y x
  | _, _ => False
  end.

(** How one of the two walks ended when neither found the other manifest. *)
Definition walk_outcome (fails : bool) (c a : CidV) (es : list err) : Prop :=
  if fails then exists e, es = [e] /\ unwalkable maxManifestWalk c e else es = [] /\ ~ descends c a.

(** The ancestries of two manifests could not both be walked; each side whose walk
    failed is marked, with its error. *)
Definition unwalked (l r : Cid) (lf rt : bool) (es : list err) : Prop :=
  (lf = true \/ rt = true) /\ exists cl cr el er, l = Some cl /\ r = Some cr /\ cl <> cr /\ es = el ++ er /\
    walk_outcome lf cl cr el /\ walk_outcome rt cr cl er.

Definition manifest_verdict (l r : Cid) (v : result claimErr ClaimRelation) : Prop :=
  match v with
  | Ok ClaimsEquivalent => l = r
  | Ok LeftClaimDominates => manifest_le r l /\ l <> r
  | Ok RightClaimDominates => manifest_le l r /\ l <> r
  | Ok ClaimsIncomparable => Defined l <> Defined r
  | Ok ClaimRelationInvalid => False
  | Err (CConflict _) => Defined l = true /\ Defined r = true /\ ~ manifest_le l r /\ ~ manifest_le r l
  | Err (CEvidence lf rt es) => unwalked l r lf rt es
  end.

Lemma compareClaimManifests_run l r (s : Sto) v s' :
  compareClaimManifests l r s = (v, s') -> exists x, v = Ok x /\ manifest_verdict (fc_manifest l) (fc_manifest r) x.
Proof.
  unfold compareClaimManifests. destruct (fc_manifest l) as [cl|], (fc_manifest r) as [cr|]; intros H;
    try (injection H as <- <-; by eexists).
  destruct (decide (cl = cr)) as [->|Hne]; [injection H as <- <-; by eexists|].
  apply bind_run_attempt in H as (x1 & w1 & E1 & H). apply manifestDescends_run in E1.
  assert (Hlr : Some cl <> Some cr) by congruence.
  destruct x1 as [[]|e1]; [injection H as <- <-; by eexists| |];
    apply bind_run_attempt in H as (x2 & w2 & E2 & H); apply manifestDescends_run in E2;
    destruct x2 as [[]|e2]; injection H as <- <-; eexists; (split; [done|]); simpl; auto.
  - split; [by right|]. exists cl, cr, [], [e2]. do 4 (split; [done|]). split; [done|by exists e2].
  - split; [by left|]. exists cl, cr, [e1], []. do 4 (split; [done|]). split; [by exists e1|done].
  - split; [by left|]. exists cl, cr, [e1], [e2]. do 4 (split; [done|]). split; [by exists e1|by exists e2].
Qed.

Lemma manifest_le_refl c : manifest_le c c.
Proof. destruct c; [constructor|done]. Qed.

Lemma manifest_le_trans a b c : manifest_le a b -> manifest_le b c -> manifest_le a c.
Proof. destruct a, b, c; simpl; try done. unfold descends. intros. by etrans. Qed.

(** ** Whole claims *)

(** The claim [r] about [mr] includes the claim [l] about [ml]. *)
Definition claim_le (l : finalizedClaim) (ml : hmodel) (r : finalizedClaim) (mr : hmodel) : Prop :=
  included ml mr /\ manifest_le (fc_manifest l) (fc_manifest r).

Definition same_claim (l : finalizedClaim) (ml : hmodel) (r : finalizedClaim) (mr : hmodel) : Prop :=
  ml = mr /\ fc_manifest l = fc_manifest r.

Definition verdict (l r : finalizedClaim) (ml mr : hmodel) (v : result claimErr ClaimRelation) : Prop :=
  match v with
  | Ok ClaimsEquivalent => sameClaimIdentity l r = true /\ same_claim l ml r mr
  | Ok LeftClaimDominates => sameClaimIdentity l r = true /\ claim_le r mr l ml /\ ~ same_claim l ml r mr
  | Ok RightClaimDominates => sameClaimIdentity l r = true /\ claim_le l ml r mr /\ ~ same_claim l ml r mr
  | Ok ClaimsIncomparable =>
      sameClaimIdentity l r = false \/ Defined (fc_manifest l) <> Defined (fc_manifest r) \/
      fc_manifest l <> fc_manifest r /\ ml <> mr /\
      (included ml mr /\ manifest_le (fc_manifest r) (fc_manifest l) \/
       included mr ml /\ manifest_le (fc_manifest l) (fc_manifest r))
  | Ok ClaimRelationInvalid => False
  | Err (CConflict _) => sameClaimIdentity l r = true /\
      (~ included ml mr /\ ~ included mr ml \/
       Defined (fc_manifest l) = true /\ Defined (fc_manifest r) = true /\
       ~ manifest_le (fc_manifest l) (fc_manifest r) /\ ~ manifest_le (fc_manifest r) (fc_manifest l))
  | Err (CEvidence lf rt es) => (lf = true \/ rt = true) /\ sameClaimIdentity l r = true /\
      (unprojected ml mr lf rt es \/ unwalked (fc_manifest l) (fc_manifest r) lf rt es)
  end.

Lemma sameClaimIdentity_params l r ml mr :
  claims l ml -> claims r mr -> sameClaimIdentity l r = true -> m_params ml = m_params mr.
Proof.
  intros Hl Hr H. rewrite (cl_params _ _ Hl), (cl_params _ _ Hr). unfold sameClaimIdentity in H.
  repeat match goal with H : andb _ _ = true |- _ => apply andb_true_iff in H as [H ?] end.
  repeat match goal with H : bool_decide _ = true |- _ => apply bool_decide_eq_true_1 in H
    | H : (_ =? _) = true |- _ => apply Z.eqb_eq in H end. congruence.
Qed.

Lemma classify_run l r ml mr (s : Sto) v s' :
  claims l ml -> claims r mr -> classifyLoadedFinalizedClaims l r s = (v, s') ->
  exists x, v = Ok x /\ verdict l r ml mr x.
Proof.
  intros Hl Hr H. unfold classifyLoadedFinalizedClaims, Claims.classifyLoadedFinalizedClaims in H.
  destruct (sameClaimIdentity l r) eqn:Hid; cbn [negb] in H.
  2: { injection H as <- <-. eexists. split; [done|]. by left. }
  apply bind_run in H as [(rr & s1 & Hroots & H)|(e & Hroots & ->)];
    (eapply compareClaimRoots_run in Hroots as (x & Ex & Hx); [|done..|by eapply sameClaimIdentity_params]); [|done].
  injection Ex as <-. destruct rr as [rr|e].
  2: { injection H as <- <-. eexists. split; [done|]. destruct e as [c|lf rt es]; simpl in *; [by auto|].
       split; [|by auto]. destruct Hx as (e & _ & [(-> & _)|(_ & -> & _)]); auto. }
  apply bind_run in H as [(mm & s2 & Hm & H)|(e & Hm & ->)];
    apply compareClaimManifests_run in Hm as (y & Ey & Hy); [|done].
  injection Ey as <-. destruct mm as [mm|e].
  2: { injection H as <- <-. eexists. split; [done|]. destruct e as [c|lf rt es]; simpl in *; [tauto|].
       split; [apply Hy|by auto]. }
  injection H as <- <-. eexists. split; [done|].
  pose proof (included_refl ml (head_content _ (cl_ok _ _ Hl))). pose proof (included_refl mr (head_content _ (cl_ok _ _ Hr))).
  clear Hl Hr. pose proof (manifest_le_refl (fc_manifest l)). pose proof (manifest_le_refl (fc_manifest r)).
  unfold combineRelations, verdict, claim_le, same_claim.
  destruct rr; simpl in Hx; try done; destruct mm; simpl in Hy; try done; simpl;
    repeat match goal with
    | H : _ /\ _ |- _ => destruct H
    | H : ml = mr |- _ => subst mr
    | H : fc_manifest _ = fc_manifest _ |- _ => rewrite H in *
    end; naive_solver.
Qed.

(** ** The caller's store is only read *)

(** One read of the store or of the context. *)
Definition read_step (s s' : Sto) : Prop :=
  (exists c r, bs_get c s = (r, s')) \/ (exists r, bs_ctx s = (r, s')).
Local Abbreviation only_reads := (moves (rtc read_step)).

Lemma reads_get c : only_reads (bs_get c).
Proof. intros s r s' H. apply rtc_once. left. eauto. Qed.
Lemma reads_ctx : only_reads bs_ctx.
Proof. intros s r s' H. apply rtc_once. right. eauto. Qed.
#[local] Hint Resolve reads_get reads_ctx : moves.

Lemma reads_manifestDescends d a : only_reads (manifestDescends d a).
Proof.
  unfold manifestDescends. generalize maxManifestWalk. intros hops. revert d.
  induction hops as [|hops IH]; intros d; cbn [manifestWalk]; moves_tac.
Qed.
#[local] Hint Resolve reads_manifestDescends : moves.

(** The projection moves the base only by reads, however it ends. *)
Definition base_reads (p p' : Proj) : Prop := rtc read_step (pj_base p) (pj_base p').
#[local] Instance base_reads_pre : PreOrder base_reads.
Proof. split; [intros p; constructor|]. intros a b c. unfold base_reads. intros. by etrans. Qed.

Lemma reads_project c synced : only_reads (project c synced).
Proof.
  intros s r s' H. unfold project, Claims.project in H. destruct ((Engine.Load _ ;;; _) _) as [x h] eqn:E.
  injection H as <- <-.
  assert (Hg : forall c p r p', bs_get c p = (r, p') -> base_reads p p').
  { intros c0 p r0 p' Hr. apply proj_Get_run in Hr as (r1 & y & _ & [(_ & _ & ->)|(_ & b & Hb & ->)]); [apply rtc_refl|].
    apply rtc_once. left. eauto. }
  assert (Hp : forall c b p r p', bs_put c b p = (r, p') -> base_reads p p').
  { intros c0 b p r0 p' Hr. simpl in Hr. unfold proj_Put in Hr. destruct (bs_put c0 b (pj_scratch p)). injection Hr as <- <-. apply rtc_refl. }
  assert (Hc : forall p r p', bs_ctx p = (r, p') -> base_reads p p').
  { intros p r0 p' Hr. simpl in Hr. unfold proj_ctx in Hr. destruct (bs_ctx (pj_base p)) eqn:Eb. injection Hr as <- <-.
    apply rtc_once. right. eauto. }
  change (base_reads (blocks (newHead (mkProjection s newScratch) : ProjEng)) (blocks h)).
  apply bind_run in E as [([] & h1 & Hl & E)|(e & Hl & _)].
  - etrans; [eapply (acc_Load base_reads); eauto|].
    destruct synced; [by eapply (acc_truncate base_reads)|by eapply (acc_TruncateToEmpty base_reads)].
  - eapply (acc_Load base_reads); eauto.
Qed.

#[local] Hint Resolve reads_project : moves.

Lemma reads_classify l r : only_reads (classifyLoadedFinalizedClaims l r).
Proof.
  unfold classifyLoadedFinalizedClaims, Claims.classifyLoadedFinalizedClaims, Claims.compareClaimRoots, compareClaimManifests.
  moves_tac.
Qed.

(** ** From documents to claims *)

Local Abbreviation loadInfo := (@loadInfo MH CB Sto BS L).
Local Abbreviation loadFinalizedClaim := (@loadFinalizedClaim MH CB CT ED Sto BS L).
Local Abbreviation ClassifyFinalizedClaims := (@ClassifyFinalizedClaims MH CB CT ED Sto Scr BS SS SC L LR).

Definition info_of (m : hmodel) : Info :=
  mkInfo (m_params m) (model_root m) (m_synced m) (dirDepth (pre_state m)).

(** A loader in a world with an invariant that it keeps: on the root of a
    well-formed head it reports that head. *)
Record loader_ok {W} (Inv : W -> Prop) (load : Cid -> M W Info) : Prop := {
  lo_info : forall m w i w', head_ok m -> Inv w -> load (model_root m) w = (Ok i, w') -> i = info_of m;
  lo_inv : forall c w r w', load c w = (r, w') -> Inv w -> Inv w' }.

Lemma represents_info {S} `{!Blockstore S} `{!BlockstoreOk S} (h : @Engine MH S L) m : represents h m -> InfoOf h = info_of m.
Proof.
  intros [Hc _ _]. unfold InfoOf, info_of. rewrite Hc. unfold canon_state, pre_state. by destruct m as [? [?|] ?].
Qed.

Lemma loadInfo_ok : loader_ok (fun _ => True) loadInfo.
Proof.
  split; [|done]. intros m s i s' Hok _ H. unfold loadInfo, Claims.loadInfo in H. destruct (Engine.Load _ _) as [r h] eqn:E.
  destruct r; [|done]. injection H as <- <-. apply (Load_head_run m) in E; [|done..]. by apply represents_info.
Qed.

Lemma matchPublishedRoot_ok net e m : matchPublishedRoot net e (info_of m) = Ok tt ->
  m_params m = mkParams (he_Name e) net (he_OriginSlot e) (he_SegBits e) (he_FanoutBits e) /\ he_SyncedTo e = m_synced m.
Proof.
  unfold matchPublishedRoot, sameCoverage. simpl. intros H. destruct (_ || _) eqn:E; [done|].
  repeat match goal with H : orb _ _ = false |- _ => apply orb_false_iff in H as [H ?] end.
  repeat match goal with H : negb _ = false |- _ => apply negb_false_iff in H end.
  repeat match goal with H : bool_decide _ = true |- _ => apply bool_decide_eq_true_1 in H
    | H : (_ =? _) = true |- _ => apply Z.eqb_eq in H end.
  split; [destruct (m_params m); simpl in *; congruence|].
  match goal with H : compareCoverage _ _ = 0 |- _ => by apply compareCoverage_eq in H end.
Qed.

Lemma head_root_defined m : head_ok m -> exists c, model_root m = Some c.
Proof.
  intros Hok. pose proof Hok as (_ & Hf & _). apply fits_inv in Hf as (b & c & E & _).
  apply DecodeHead_encoded in E as E'; [|by apply headObject_u64, head_content]. destruct E' as [_ (v & -> & _)].
  exists v. unfold model_root, head_cid. by rewrite E.
Qed.

(** The parts of a claim that was loaded. *)
Lemma loadClaim_inv {W} (load : Cid -> M W Info) name doc c w w' :
  loadFinalizedClaimWithHead load name doc w = (Ok c, w') ->
  Verify doc = Ok tt /\ ValidateContract doc = Ok tt /\
  List.find (fun e => bool_decide (he_Name e = name)) (Heads (d_Unsigned doc)) = Some (fc_entry c) /\
  EffectiveKind (fc_entry c) = FinalizedMonotonic /\ u_ArchiveID (d_Unsigned doc) = Some (fc_archiveID c) /\
  fc_root c = cid_Decode (he_Root (fc_entry c)) /\ parseManifestTip (fc_entry c) = Ok (fc_manifest c) /\
  exists i, load (fc_root c) w = (Ok i, w') /\ matchPublishedRoot (fc_net c) (fc_entry c) i = Ok tt.
Proof.
  intros H. unfold loadFinalizedClaimWithHead in H.
  apply bind_run_ok in H as ([] & s1 & Hv & H). injection Hv as Hv <-.
  apply bind_run_ok in H as ([] & s1 & Hc & H). injection Hc as Hc <-.
  destruct (if _ =? _ then _ else _) as [id|] eqn:Hid; [|done]. destruct (_ =? LogicalArchiveDocVersion); [|done].
  destruct (List.find _ _) as [e|] eqn:He; [|done]. case_bool_decide as Hk; [|done]. cbn [negb] in H.
  apply bind_run_ok in H as (root & s1 & Hr & H). injection Hr as Hr <-.
  apply bind_run_ok in H as (i & s2 & Hl & H).
  apply bind_run_ok in H as ([] & s3 & Hm & H). injection Hm as Hm <-.
  apply bind_run_ok in H as (mf & s3 & Hp & H). injection Hp as Hp <-. injection H as <- <-. simpl in *.
  do 5 (split; [done|]). split; [|eauto].
  unfold decodeCid in Hr. destruct (cid_Decode _); [congruence|done].
Qed.

Lemma find_line (doc : Doc) name e :
  List.find (fun e => bool_decide (he_Name e = name)) (Heads (d_Unsigned doc)) = Some e ->
  e ∈ Heads (d_Unsigned doc) /\ he_Name e = name.
Proof. intros [Hin Hn%bool_decide_eq_true_1]%List.find_some. split; [by apply list_elem_of_In|done]. Qed.

(** The document's line for [head] names the root of the head [m]. *)
Definition publishes (doc : Doc) (head : string) (m : hmodel) : Prop :=
  head_ok m /\ forall e, e ∈ Heads (d_Unsigned doc) -> he_Name e = head -> cid_Decode (he_Root e) = model_root m.

Lemma publishes_claims {W} Inv (load : Cid -> M W Info) name doc c m w w' :
  loader_ok Inv load -> Inv w -> loadFinalizedClaimWithHead load name doc w = (Ok c, w') -> publishes doc name m ->
  claims c m.
Proof.
  intros Hload HI H [Hok Hp]. apply loadClaim_inv in H as (_ & _ & [Hin Hn]%find_line & _ & _ & Hr & _ & i & Hl & Hm).
  assert (Hroot : fc_root c = model_root m) by (rewrite Hr; by apply Hp).
  rewrite Hroot in Hl. apply (lo_info _ _ Hload) in Hl; [|done..]. subst i.
  apply matchPublishedRoot_ok in Hm as [? ?]. by split.
Qed.

(** The line of a document that claims [head]. *)
Definition line_of (head : string) (doc : Doc) : option HeadEntry :=
  List.find (fun e => bool_decide (he_Name e = head)) (Heads (d_Unsigned doc)).

(** The claim [c] is what the document, its checks passed, says of the head [m]. *)
Record loads (head : string) (doc : Doc) (m : hmodel) (c : finalizedClaim) : Prop := {
  ld_claims : claims c m;
  ld_verified : Verify doc = Ok tt;
  ld_contract : ValidateContract doc = Ok tt;
  ld_line : line_of head doc = Some (fc_entry c);
  ld_kind : EffectiveKind (fc_entry c) = FinalizedMonotonic;
  ld_id : u_ArchiveID (d_Unsigned doc) = Some (fc_archiveID c);
  ld_manifest : parseManifestTip (fc_entry c) = Ok (fc_manifest c) }.

(** Why a document that names the root of [m] gives no claim: a check of the document
    or of its line fails, or the store does, or the head is over the load budget. *)
Inductive unloadable (head : string) (doc : Doc) (m : hmodel) : err -> Prop :=
| ul_signature e : Verify doc = Err e -> unloadable head doc m e
| ul_contract e : ValidateContract doc = Err e -> unloadable head doc m e
| ul_identity : ~ (u_V (d_Unsigned doc) = LogicalArchiveDocVersion /\ is_Some (u_ArchiveID (d_Unsigned doc))) ->
    unloadable head doc m (EInvalid "no logical archive identity")
| ul_absent : line_of head doc = None -> unloadable head doc m (EInvalid "document does not publish the head")
| ul_kind entry : line_of head doc = Some entry -> EffectiveKind entry <> FinalizedMonotonic ->
    unloadable head doc m (EInvalid "finalized-monotonic heads only")
| ul_store e : store_err e -> unloadable head doc m e
| ul_budget e : over_budget m -> unloadable head doc m e
| ul_fields entry e : line_of head doc = Some entry ->
    matchPublishedRoot (u_Net (d_Unsigned doc)) entry (info_of m) = Err e -> unloadable head doc m e
| ul_manifest entry e : line_of head doc = Some entry -> parseManifestTip entry = Err e -> unloadable head doc m e.

Lemma loadInfo_err m (s : Sto) e s' : head_ok m -> loadInfo (model_root m) s = (Err e, s') -> store_err e \/ over_budget m.
Proof.
  intros Hok H. unfold loadInfo, Claims.loadInfo in H. destruct (Engine.Load _ _) as [r h] eqn:E. destruct r; [done|]. injection H as <- <-.
  apply (Load_head_run m) in E; [|done..]. apply E.
Qed.

Lemma loadClaim_run head doc m (s : Sto) x s' : publishes doc head m -> loadFinalizedClaim head doc s = (x, s') ->
  match x with Ok c => loads head doc m c | Err e => unloadable head doc m e end.
Proof.
  intros Hpub H. destruct x as [c|e].
  { pose proof (loadClaim_inv _ _ _ _ _ _ H) as (Hv & Hc & Hl & Hk & Hi & _ & Hm & _). split; try done.
    eapply publishes_claims; [apply loadInfo_ok|done|exact H|done]. }
  destruct Hpub as [Hok Hroot]. unfold loadFinalizedClaim, Claims.loadFinalizedClaim, loadFinalizedClaimWithHead in H. cbv zeta in H.
  apply bind_run in H as [([] & s1 & Hv & H)|(e' & Hv & [= <-])]; injection Hv as Hv <-; [|by apply ul_signature].
  apply bind_run in H as [([] & s1 & Hc & H)|(e' & Hc & [= <-])]; injection Hc as Hc <-; [|by apply ul_contract].
  destruct (if _ =? _ then _ else _) as [id|] eqn:Hid.
  2: { injection H as <- <-. apply ul_identity. intros [Ev [id Ei]]. by rewrite Ev, Ei in Hid. }
  destruct (List.find _ _) as [entry|] eqn:Hf; [|injection H as <- <-; by apply ul_absent].
  case_bool_decide as Hk; cbn [negb] in H; [|injection H as <- <-; by eapply ul_kind].
  pose proof (find_line _ _ _ Hf) as [Hin Hn]. specialize (Hroot entry Hin Hn). destruct (head_root_defined m Hok) as [c Ec].
  unfold decodeCid in H. rewrite Hroot, Ec in H. unfold bind at 1, lift at 1 in H.
  apply bind_run in H as [(i & s2 & Hl & H)|(e' & Hl & [= <-])]; rewrite <- Ec in Hl.
  2: { apply loadInfo_err in Hl as [?|?]; [by apply ul_store|by apply ul_budget|done]. }
  apply (lo_info _ _ loadInfo_ok) in Hl; [|done..]. subst i.
  apply bind_run in H as [([] & s3 & Hm & H)|(e' & Hm & [= <-])]; injection Hm as Hm <-; [|by eapply ul_fields].
  apply bind_run in H as [(mf & s3 & Hp & H)|(e' & Hp & [= <-])]; injection Hp as Hp <-; [done|by eapply ul_manifest].
Qed.

(** C7: The verdict on two documents that name the roots of well-formed heads is
    exact.  When both pass their checks and load: equivalent claims name the same
    head and manifest; a dominating claim's head has the other's rows and coverage as
    its past and its manifest descends from the other's; incomparable ones differ in
    identity, in having a manifest, or advance each in another respect; a conflict
    is reported only when neither head is a past of the other or neither manifest
    descends from the other; and missing evidence is charged to the side whose head
    could not be projected, or to the sides whose manifest ancestry could not be
    walked.  Otherwise the evidence of exactly one side is missing, with the error of
    the check its document fails or of the store: the left one's, or, the left
    document being good, the right one's. *)
Theorem classification_exact head left right ml mr (s : Sto) x s' :
  publishes left head ml -> publishes right head mr -> emptyStr head = false ->
  ClassifyFinalizedClaims head left right s = (x, s') ->
  exists v, x = Ok v /\
  ((exists l r, loads head left ml l /\ loads head right mr r /\ verdict l r ml mr v) \/
   (exists e, unloadable head left ml e /\ v = Err (CEvidence true false [e])) \/
   (exists l e, loads head left ml l /\ unloadable head right mr e /\ v = Err (CEvidence false true [e]))).
Proof.
  intros Hl Hr Hh H. unfold ClassifyFinalizedClaims, Claims.ClassifyFinalizedClaims in H. rewrite Hh in H.
  apply bind_run_attempt in H as (l & s1 & El & H). apply (loadClaim_run _ _ _ _ _ _ Hl) in El.
  destruct l as [l|e]; [|injection H as <- <-; eexists; split; [done|]; right; left; eauto].
  apply bind_run_attempt in H as (r & s2 & Er & H). apply (loadClaim_run _ _ _ _ _ _ Hr) in Er.
  destruct r as [r|e]; [|injection H as <- <-; eexists; split; [done|]; right; right; eauto].
  apply (classify_run l r ml mr) in H as (v & -> & Hv); [|apply El|apply Er]. exists v. split; [done|]. left. eauto.
Qed.

Lemma reads_loadInfo c : only_reads (loadInfo c).
Proof.
  intros s r s' H. unfold loadInfo, Claims.loadInfo in H. destruct (Engine.Load c _) as [x h] eqn:E. injection H as _ <-.
  change s with (blocks (newHead s : @Engine MH Sto L)).
  eapply (acc_Load (rtc read_step)); [|exact E]. intros. eapply reads_get. done.
Qed.

Lemma reads_loadClaim load name doc : (forall c, only_reads (load c)) -> only_reads (loadFinalizedClaimWithHead load name doc).
Proof. intros Hload. unfold loadFinalizedClaimWithHead. moves_tac. Qed.

(** A classification only reads the caller's store: whatever its outcome, the
    store was moved by reads of blocks and of the context alone; what the projection
    wrote stayed in the scratch layer. *)
Theorem classification_only_reads head left right (s : Sto) v s' :
  ClassifyFinalizedClaims head left right s = (v, s') -> rtc read_step s s'.
Proof.
  revert s v s'. change (only_reads (ClassifyFinalizedClaims head left right)).
  pose proof reads_classify. pose proof (reads_loadClaim loadInfo) as Hl. specialize (fun n d => Hl n d reads_loadInfo) as Hl'.
  unfold ClassifyFinalizedClaims, Claims.ClassifyFinalizedClaims, Claims.loadFinalizedClaim. moves_tac.
Qed.
End Verdicts.
