(* ===== verification/Arbitration.v ===== *)
(** Arbitration between writers: follow/arbitration.go.

    Several authenticated sources each publish a claim about one finalized head.
    [selectFinalizedClaim] loads every claim once, compares every pair (Claims.v)
    and selects the claim that includes all the others it could evaluate; a conflict
    takes precedence, and without a maximum nothing is selected.

    A loader may keep state of its own beside the block store (the admission memo of
    [SelectFinalizedClaim]): the world is the store with that state. *)
From Stdlib Require Import Ascii.
From Stdlib Require String.
From S2P Require Import Prelude Arith Cid Schema Core Engine Enumerate Ledger Json Publication Claims.

Definition maxSourceIDBytes : nat := 63.

Definition sourceChar (first last : bool) (b : byte) : bool :=
  inRange 97 122 b || inRange 48 57 b || ((byte_Z b =? 45) && negb first && negb last).

Fixpoint sourceChars (first : bool) (l : bytes) : bool :=
  match l with
  | [] => true
  | b :: l' => sourceChar first (match l' with [] => true | _ => false end) b && sourceChars false l'
  end.

Definition validateSourceID (id : string) : res unit :=
  let l := string_bytes id in
  refuse_if Nat.eqb (length l) 0 || (maxSourceIDBytes <? length l)%nat with EInvalid "source ID length" ;;
  refuse_if negb (sourceChars true l) with EInvalid "source ID characters" ;;
  Ok tt.

Definition reverseClaimRelation (r : ClaimRelation) : ClaimRelation :=
  match r with
  | LeftClaimDominates => RightClaimDominates
  | RightClaimDominates => LeftClaimDominates
  | r => r
  end.

Record FinalizedClaimCandidate : Type := mkCandidate { SourceID : string; Document : Doc }.

(** [relations], a square matrix whose zero value is the invalid relation. *)
Abbreviation relMatrix := (list (list ClaimRelation)).
Definition rel0 (n : nat) : relMatrix := replicate n (replicate n ClaimRelationInvalid).
Definition getRel (m : relMatrix) (i j : nat) : ClaimRelation := default ClaimRelationInvalid (m !! i ≫= (.!! j)).
Definition setRel (i j : nat) (v : ClaimRelation) (m : relMatrix) : relMatrix := alter <[j := v]> i m.

(** (i, j) for i < j < n, in the order of the nested loops. *)
Definition pairsFrom (n i : nat) : list (nat * nat) := (fun j => (i, j)) <$> seq (S i) (n - S i).
Definition indexPairs (n : nat) : list (nat * nat) := concat (pairsFrom n <$> seq 0 n).

(** Go compares strings bytewise. *)
Definition source_le (a b : FinalizedClaimCandidate) : Prop := 
  bytes_ltb (string_bytes (SourceID b)) (string_bytes (SourceID a)) = false.
#[global] Instance source_le_dec : RelDecision source_le.
Proof. intros a b. unfold source_le. apply _. Defined.

Section Arbitration.
Context `{MH : Multihash} `{CB : !DagCbor} `{CT : !CidText} {ED : Ed25519}.
Context {Sto Scr : Type} `{BS : !Blockstore Sto} `{SS : !Blockstore Scr} `{SC : !ScratchStore Scr}.
Context {L : Type} `{LR : !Lru CidV (AnyNode * Z) L}.

(** Why a claim or a pair could not be evaluated. *)
Inductive evalErr : Type :=
| EvLoad (e : err)              (* attributed to both sides, which are one candidate *)
| EvClaim (e : claimErr)
| EvInternal (what : string).

Record FinalizedClaimEvaluationFailure : Type := mkFailure {
  ef_Left : FinalizedClaimCandidate; ef_Right : FinalizedClaimCandidate; ef_Err : evalErr }.

Record FinalizedClaimPairEvidence : Type := mkEvidence {
  pe_Left : FinalizedClaimCandidate; pe_Right : FinalizedClaimCandidate;
  pe_Relation : ClaimRelation; pe_Conflict : option ArchiveConflictError }.

(** The selection and the three structured errors of arbitration. *)
Inductive selection : Type :=
| Selected (representative : FinalizedClaimCandidate) (equivalent : list FinalizedClaimCandidate)
    (unavailable : list FinalizedClaimEvaluationFailure)
| ConflictError (conflicts : list FinalizedClaimPairEvidence)
| IncomparableError (pairs : list FinalizedClaimPairEvidence)
| EvaluationError (failures : list FinalizedClaimEvaluationFailure).

Context {X : Type}.
Local Abbreviation W := (Sto * X)%type.

Definition onSto {A} (m : M Sto A) : M W A := fun w => let '(r, s) := m (fst w) in (r, (s, snd w)).
(** [ctx.Err() != nil] *)
Definition cancelled : M W bool := r <-- attempt (onSto bs_ctx) ;; ret (failed r).

(** ** Loading *)

Fixpoint loadLoop (load : FinalizedClaimCandidate -> M W finalizedClaim) (cands : list FinalizedClaimCandidate)
    (loaded : list (option finalizedClaim)) (failures : list FinalizedClaimEvaluationFailure)
    : M W (result selection (list (option finalizedClaim) * list FinalizedClaimEvaluationFailure)) :=
  match cands with
  | [] => ret (Ok (loaded, failures))
  | c :: rest =>
    r <-- attempt (load c) ;;
    match r with
    | Err e =>
      let failures := failures ++ [mkFailure c c (EvLoad e)] in
      stop <-- cancelled ;;
      if stop then ret (Err (EvaluationError failures))
      else loadLoop load rest (loaded ++ [None]) failures
    | Ok claim => loadLoop load rest (loaded ++ [Some claim]) failures
    end
  end.

(** ** The pairs *)

Record pairState : Type := mkPairs {
  ps_relations : relMatrix; ps_eligible : list bool;
  ps_conflicts : list FinalizedClaimPairEvidence; ps_failures : list FinalizedClaimEvaluationFailure }.

Definition clear (b : bool) (i : nat) (l : list bool) : list bool := if b then <[i := false]> l else l.

Definition pairResult (i j : nat) (ci cj : FinalizedClaimCandidate) (r : result claimErr ClaimRelation)
    (st : pairState) : M W (result selection pairState) :=
  match r with
  | Err (CConflict c) =>
    ret (Ok (mkPairs (ps_relations st) (ps_eligible st)
      (ps_conflicts st ++ [mkEvidence ci cj ClaimRelationInvalid (Some c)]) (ps_failures st)))
  | Err (CEvidence lf rt es) =>
    let failures := ps_failures st ++ [mkFailure ci cj (EvClaim (CEvidence lf rt es))] in
    stop <-- cancelled ;;
    if stop then ret (Err (EvaluationError failures))
    else ret (Ok (mkPairs (ps_relations st) (clear rt j (clear lf i (ps_eligible st))) (ps_conflicts st) failures))
  | Ok relation =>
    ret (Ok (mkPairs (setRel j i (reverseClaimRelation relation) (setRel i j relation (ps_relations st)))
      (ps_eligible st) (ps_conflicts st) (ps_failures st)))
  end.

Fixpoint pairLoop (ordered : list FinalizedClaimCandidate) (loaded : list (option finalizedClaim))
    (pairs : list (nat * nat)) (st : pairState) : M W (result selection pairState) :=
  match pairs with
  | [] => ret (Ok st)
  | (i, j) :: rest =>
    match ordered !! i, ordered !! j, mjoin (loaded !! i), mjoin (loaded !! j) with
    | Some ci, Some cj, Some li, Some lj =>
      r <-- onSto (classifyLoadedFinalizedClaims (Scr := Scr) (L := L) li lj) ;;
      st' <-- pairResult i j ci cj r st ;;
      match st' with
      | Err out => ret (Err out)
      | Ok st' => pairLoop ordered loaded rest st'
      end
    | _, _, _, _ => pairLoop ordered loaded rest st
    end
  end.

(** ** The decision *)

Definition isEligible (eligible : list bool) (i : nat) : bool := default false (eligible !! i).
Definition atLeast (r : ClaimRelation) : bool :=
  match r with ClaimsEquivalent | LeftClaimDominates => true | _ => false end.

Definition dominatesAll (st : pairState) (idx : list nat) (i : nat) : bool :=
  forallb (fun j => negb (isEligible (ps_eligible st) j) || atLeast (getRel (ps_relations st) i j)) idx.
Definition winnerIndexes (st : pairState) (idx : list nat) : list nat :=
  List.filter (fun i => isEligible (ps_eligible st) i && dominatesAll st idx i) idx.

(** The candidates at the given indexes. *)
Definition pick (ordered : list FinalizedClaimCandidate) (idx : list nat) : list FinalizedClaimCandidate :=
  omap (fun i => ordered !! i) idx.

Definition incomparablePairs (ordered : list FinalizedClaimCandidate) (st : pairState) : list FinalizedClaimPairEvidence :=
  omap (fun '(i, j) =>
    if isEligible (ps_eligible st) i && isEligible (ps_eligible st) j
       && bool_decide (getRel (ps_relations st) i j = ClaimsIncomparable)
    then ci ← ordered !! i; cj ← ordered !! j; Some (mkEvidence ci cj ClaimsIncomparable None)
    else None) (indexPairs (length ordered)).

Definition noWinner (ordered : list FinalizedClaimCandidate) (st : pairState) : selection :=
  let idx := seq 0 (length ordered) in
  let eligibleSources := SourceID <$> pick ordered (List.filter (isEligible (ps_eligible st)) idx) in
  let blocking := List.filter (fun f => bool_decide (SourceID (ef_Left f) ∈ eligibleSources)
                                   && bool_decide (SourceID (ef_Right f) ∈ eligibleSources)) (ps_failures st) in
  if Nat.eqb (length eligibleSources) 0 || negb (Nat.eqb (length blocking) 0) then
    EvaluationError (match blocking with [] => ps_failures st | _ => blocking end)
  else
    match incomparablePairs ordered st with
    | [] => EvaluationError (match ordered with
                             | c :: _ => [mkFailure c c (EvInternal "no global dominator and no incomparable pair")]
                             | [] => []
                             end)
    | pairs => IncomparableError pairs
    end.

(** The first pair of winners that are not equivalent. *)
Definition unequalWinners (st : pairState) (winners : list nat) : option (nat * nat) :=
  List.find (fun '(i, j) => negb (bool_decide (getRel (ps_relations st) i j = ClaimsEquivalent)))
    (omap (fun '(a, b) => i ← winners !! a; j ← winners !! b; Some (i, j)) (indexPairs (length winners))).

Definition decideSelection (ordered : list FinalizedClaimCandidate) (st : pairState) : selection :=
  match ps_conflicts st with
  | _ :: _ => ConflictError (ps_conflicts st)
  | [] =>
    let winners := winnerIndexes st (seq 0 (length ordered)) in
    match pick ordered winners with
    | [] => noWinner ordered st
    | rep :: others =>
      match unequalWinners st winners with
      | Some (i, j) =>
        EvaluationError (match ordered !! i, ordered !! j with
                         | Some ci, Some cj => [mkFailure ci cj (EvInternal "multiple global dominators")]
                         | _, _ => []
                         end)
      | None => Selected rep (rep :: others) (ps_failures st)
      end
    end
  end.

(** [sort.Slice] by source ID; the IDs are distinct, or the selection is refused. *)
Definition orderCandidates (cands : list FinalizedClaimCandidate) : list FinalizedClaimCandidate :=
  merge_sort source_le cands.

Fixpoint repeatsSource (cands : list FinalizedClaimCandidate) : bool :=
  match cands with
  | a :: (b :: _) as rest => bool_decide (SourceID a = SourceID b) || repeatsSource rest
  | _ => false
  end.

Definition selectFinalizedClaim (load : FinalizedClaimCandidate -> M W finalizedClaim) (head : string)
    (candidates : list FinalizedClaimCandidate) : M W selection :=
  fail_if emptyStr head with EInvalid "empty head name" ;;
  fail_if Nat.eqb (length candidates) 0 with EInvalid "no source observations" ;;
  mfor (fun c => lift (validateSourceID (SourceID c))) candidates ;;;
  let ordered := orderCandidates candidates in
  fail_if repeatsSource ordered with EInvalid "repeated source observation" ;;
  let n := length ordered in
  l <-- loadLoop load ordered [] [] ;;
  match l with
  | Err out => ret out
  | Ok (loaded, failures) =>
    let selfValid := (fun o => negb (unset o)) <$> loaded in
    let relations := foldl (fun m i => if isEligible selfValid i then setRel i i ClaimsEquivalent m else m)
                           (rel0 n) (seq 0 n) in
    r <-- pairLoop ordered loaded (indexPairs n) (mkPairs relations selfValid [] failures) ;;
    match r with
    | Err out => ret out
    | Ok st => ret (decideSelection ordered st)
    end
  end.
End Arbitration.

(** ** Admission before arbitration *)

Section Admission.
Context `{MH : Multihash} `{CB : !DagCbor} `{CT : !CidText} {ED : Ed25519}.
Context {Sto Scr : Type} `{BS : !Blockstore Sto} `{SS : !Blockstore Scr} `{SC : !ScratchStore Scr}.
Context {L : Type} `{LR : !Lru CidV (AnyNode * Z) L}.

(** The admissions of one call, by root, and the structure cache they share. *)
Record admissions : Type := mkAdmissions { ad_roots : gmap CidV (res Info); ad_structure : StructureCache }.
Local Abbreviation W := (Sto * admissions)%type.

Definition admitRoot (cfg : @Config MH Sto) (root : Cid) : M W Info := fun w =>
  match root with
  | None => (Err (EInvalid "undefined root"), w)  (* cid.Decode yields defined CIDs *)
  | Some key =>
    match ad_roots (snd w) !! key with
    | Some admitted => (admitted, w)
    | None =>
      let '(r, h) := (Engine.Load root ;;; Enumerate cfg)
                     (set_structure (ad_structure (snd w)) (newHead (fst w)) : @Engine MH Sto L) in
      let admitted := match r with Ok _ => Ok (InfoOf h) | Err e => Err e end in
      (admitted, (blocks h, mkAdmissions (<[key := admitted]> (ad_roots (snd w))) (structure h)))
    end
  end.

Definition SelectFinalizedClaim (cfg : @Config MH Sto) (head : string) (candidates : list FinalizedClaimCandidate)
    : M Sto selection := fun s =>
  let load c := loadFinalizedClaimWithHead (admitRoot cfg) head (Document c) in
  let '(r, w) := selectFinalizedClaim (Scr := Scr) (L := L) load head candidates (s, mkAdmissions ∅ ∅) in
  (r, fst w).
End Admission.
