(* ===== verification/ArbitrationCorrect.v ===== *)
(** What arbitration guarantees; the model is Arbitration.v.

    A selected claim includes every claim that could be evaluated, a claim that
    could not is blamed by name, a conflict is only reported between claims that do
    conflict, the internal errors of the decision are unreachable, and the outcome
    does not depend on the order in which the candidates are given. *)
From Stdlib Require Import Ascii.
From S2P Require Import Prelude Arith Cid Schema Core Engine EngineWorld HeadModel Lifecycle Enumerate EnumerateCorrect StoreAccess Ledger Json Publication Claims ClaimsCorrect Arbitration.

Lemma filter_false_nil {A} (f : A -> bool) l : (forall x, x ∈ l -> f x = false) -> List.filter f l = [].
Proof.
  induction l as [|x l IH]; intros H; [done|]. simpl. rewrite (H x) by left. apply IH. intros y Hy. apply H. by right.
Qed.

(** ** The relation matrix *)

Definition square (n : nat) (m : relMatrix) : Prop := length m = n /\ Forall (fun row => length row = n) m.

Lemma square_rel0 n : square n (rel0 n).
Proof. split; [apply length_replicate|]. apply Forall_replicate, length_replicate. Qed.

Lemma square_setRel n i j v m : square n m -> square n (setRel i j v m).
Proof.
  intros [Hl Hf]. unfold setRel. split; [by rewrite length_alter|]. apply Forall_alter; [done|].
  intros row _ Hr. by rewrite length_insert.
Qed.

Lemma getRel_rel0 n i j : getRel (rel0 n) i j = ClaimRelationInvalid.
Proof.
  unfold getRel, rel0. destruct (replicate n (replicate n _) !! i) as [row|] eqn:E; [|done]. simpl.
  apply lookup_replicate in E as [-> _]. destruct (replicate n _ !! j) eqn:E; [|done].
  by apply lookup_replicate in E as [-> _].
Qed.

Lemma getRel_setRel n m i j v a b : square n m -> (i < n)%nat -> (j < n)%nat ->
  getRel (setRel i j v m) a b = if decide (a = i /\ b = j) then v else getRel m a b.
Proof.
  intros [Hl Hf] Hi Hj. unfold getRel, setRel. rewrite list_lookup_alter.
  destruct (decide (i = a)) as [<-|Ha].
  2: { by rewrite decide_False by (by intros [? _]). }
  destruct (lookup_lt_is_Some_2 m i) as [row Hrow]; [lia|]. rewrite Hrow. simpl.
  assert (Hlr : length row = n) by (rewrite Forall_lookup in Hf; by eapply Hf).
  destruct (decide (b = j)) as [->|Hb].
  - rewrite decide_True by done. rewrite list_lookup_insert_eq by lia. done.
  - rewrite decide_False by (by intros [_ ?]). by rewrite list_lookup_insert_ne by done.
Qed.

Lemma reverse_involutive r : reverseClaimRelation (reverseClaimRelation r) = r.
Proof. by destruct r. Qed.

Lemma elem_indexPairs n i j : (i, j) ∈ indexPairs n <-> (i < j < n)%nat.
Proof.
  unfold indexPairs, pairsFrom. rewrite list_elem_of_In, in_concat. split.
  - intros (l & Hl%list_elem_of_In & Hij%list_elem_of_In). apply list_elem_of_fmap in Hl as (a & -> & Ha%elem_of_seq).
    apply list_elem_of_fmap in Hij as (b & [= -> ->] & Hb%elem_of_seq). lia.
  - intros Hij. exists ((fun k => (i, k)) <$> seq (S i) (n - S i)). split.
    + apply list_elem_of_In, list_elem_of_fmap. exists i. split; [done|]. apply elem_of_seq. lia.
    + apply list_elem_of_In, list_elem_of_fmap. exists j. split; [done|]. apply elem_of_seq. lia.
Qed.

Lemma NoDup_indexPairs n : NoDup (indexPairs n).
Proof.
  unfold indexPairs. assert (H : forall l, NoDup l -> NoDup (concat (pairsFrom n <$> l))); [|apply H, NoDup_seq].
  induction 1 as [|i l Hi Hnd IH]; [constructor|]. simpl. apply NoDup_app. split; [|split; [|done]].
  - unfold pairsFrom. apply NoDup_fmap_2_strong; [|apply NoDup_seq]. by intros x y _ _ [= ->].
  - intros [a b] Ha%list_elem_of_fmap Hb. destruct Ha as (j & [= -> ->] & _).
    apply list_elem_of_In, in_concat in Hb as (l' & Hl%list_elem_of_In & Hij%list_elem_of_In).
    apply list_elem_of_fmap in Hl as (a & -> & Ha). apply list_elem_of_fmap in Hij as (c & [= -> _] & _). done.
Qed.

(** ** The order of the candidates *)

#[local] Instance source_le_total : Total source_le.
Proof.
  intros a b. unfold source_le. destruct (bytes_ltb (string_bytes (SourceID b)) (string_bytes (SourceID a))) eqn:E; [right|by left].
  destruct (bytes_ltb (string_bytes (SourceID a)) (string_bytes (SourceID b))) eqn:E2; [|done].
  pose proof (bytes_ltb_trans _ _ _ E E2) as H. by rewrite bytes_ltb_irrefl in H.
Qed.

#[local] Instance source_le_trans : Transitive source_le.
Proof.
  intros a b c Hab Hbc. unfold source_le in *.
  destruct (bytes_ltb (string_bytes (SourceID c)) (string_bytes (SourceID a))) eqn:E; [|done].
  destruct (bytes_ltb_total (string_bytes (SourceID b)) (string_bytes (SourceID c))) as [H|[H|H]]; [|congruence|congruence].
  pose proof (bytes_ltb_trans _ _ _ H E). congruence.
Qed.

Lemma source_le_antisym a b : source_le a b -> source_le b a -> SourceID a = SourceID b.
Proof.
  unfold source_le. intros H1 H2. apply string_bytes_inj.
  destruct (bytes_ltb_total (string_bytes (SourceID a)) (string_bytes (SourceID b))) as [?|[?|?]]; congruence.
Qed.

Lemma orderCandidates_perm cs : orderCandidates cs ≡ₚ cs.
Proof. apply merge_sort_Permutation. Qed.

Lemma orderCandidates_sorted cs : StronglySorted source_le (orderCandidates cs).
Proof. apply (StronglySorted_merge_sort source_le). Qed.

Lemma repeatsSource_false cs : StronglySorted source_le cs -> repeatsSource cs = false <-> NoDup (SourceID <$> cs).
Proof.
  intros Hs. induction Hs as [|a cs Hs IH Hf]; [split; [constructor|done]|]. destruct cs as [|b cs].
  { split; [intros _; apply NoDup_singleton|done]. }
  change (repeatsSource (a :: b :: cs)) with (bool_decide (SourceID a = SourceID b) || repeatsSource (b :: cs)).
  rewrite orb_false_iff, IH, bool_decide_eq_false, (fmap_cons _ a), NoDup_cons. split; intros [Hab Hnd]; (split; [|done]).
  - intros (c & Ec & Hc)%list_elem_of_fmap. apply Hab. rewrite Forall_forall in Hf.
    assert (Hac : source_le a b) by (apply Hf; left). apply StronglySorted_inv in Hs as [_ Hb]. rewrite Forall_forall in Hb.
    apply source_le_antisym; [done|]. apply elem_of_cons in Hc as [->|Hc]; [unfold source_le; rewrite Ec; apply bytes_ltb_irrefl|].
    specialize (Hb c Hc). unfold source_le in *. by rewrite Ec.
  - intros E. apply Hab. rewrite E. apply list_elem_of_fmap. exists b. split; [done|left].
Qed.

Lemma orderCandidates_unique a b : a ≡ₚ b -> NoDup (SourceID <$> a) -> orderCandidates a = orderCandidates b.
Proof.
  intros Hab Hnd. apply (StronglySorted_unique_strong source_le); [|apply orderCandidates_sorted..|].
  - intros x y Hx Hy Hxy Hyx. rewrite orderCandidates_perm in Hx, Hy. rewrite <- Hab in Hy.
    pose proof (source_le_antisym _ _ Hxy Hyx) as E. apply list_elem_of_lookup in Hx as [i Hi], Hy as [j Hj].
    assert (i = j) as ->; [|congruence]. eapply (NoDup_lookup (SourceID <$> a)); [done|by rewrite list_lookup_fmap, Hi|].
    by rewrite list_lookup_fmap, Hj, E.
  - by rewrite !orderCandidates_perm.
Qed.

Section Correct.
Context `{MH : Multihash} `{CB : !DagCbor} `{CT : !CidText} {ED : Ed25519}.
Context {Sto Scr : Type} `{BS : !Blockstore Sto} `{BO : !BlockstoreOk Sto}.
Context `{SS : !Blockstore Scr} `{SO : !BlockstoreOk Scr} `{SC : !ScratchStore Scr} `{SK : !ScratchOk Scr}.
Context {L : Type} `{LR : !Lru CidV (AnyNode * Z) L}.
Context {X : Type}.
Local Abbreviation W := (Sto * X)%type.
Local Abbreviation Cand := FinalizedClaimCandidate.
Local Abbreviation loadLoop := (@loadLoop MH Sto BS X).
Local Abbreviation pairResult := (@pairResult MH Sto BS X).
Local Abbreviation pairLoop := (@pairLoop MH CB Sto Scr BS SS SC L LR X).

(** The candidates, the heads their lines name and their manifest tips. *)
Context (cands : list Cand) (headOf : Cand -> hmodel) (tip : Cand -> Cid).

Definition cand_le (a b : Cand) : Prop := included (headOf a) (headOf b) /\ manifest_le (tip a) (tip b).
Definition cand_same (a b : Cand) : Prop := headOf a = headOf b /\ tip a = tip b.

(** The failure [f] says that [c] could not be evaluated. *)
Definition blames (f : FinalizedClaimEvaluationFailure) (c : Cand) : Prop :=
  match ef_Err f with
  | EvLoad _ => ef_Left f = c
  | EvClaim (CEvidence lf rt _) => lf = true /\ ef_Left f = c \/ rt = true /\ ef_Right f = c
  | _ => False
  end.
Definition external_failure (f : FinalizedClaimEvaluationFailure) : Prop := exists c, c ∈ cands /\ blames f c.

(** Claims of one archive whose heads or manifests exclude each other. *)
Definition conflicting (a b : Cand) : Prop :=
  ~ included (headOf a) (headOf b) /\ ~ included (headOf b) (headOf a) \/
  Defined (tip a) = true /\ Defined (tip b) = true /\ ~ manifest_le (tip a) (tip b) /\ ~ manifest_le (tip b) (tip a).

Definition claim_of (c : Cand) (l : finalizedClaim) : Prop := claims l (headOf c) /\ fc_manifest l = tip c.

(** ** Loading *)

Lemma onSto_run {A} (m : M Sto A) (w : W) r w' :
  onSto m w = (r, w') -> m (fst w) = (r, fst w') /\ snd w' = snd w.
Proof. unfold onSto. destruct (m (fst w)) as [x s]. by intros [= <- <-]. Qed.

Lemma cancelled_run (w : W) r w' : cancelled w = (r, w') -> snd w' = snd w /\ exists b, r = Ok b.
Proof.
  unfold cancelled. intros H. apply bind_run_attempt in H as (x & w1 & Hx & H). injection H as <- <-.
  apply onSto_run in Hx as [_ ?]. eauto.
Qed.

Definition load_result (c : Cand) (o : option finalizedClaim) (fs : list FinalizedClaimEvaluationFailure) : Prop :=
  match o with
  | Some l => claim_of c l
  | None => exists f, f ∈ fs /\ blames f c
  end.

(** A failure of the load phase belongs to a candidate that did not load. *)
Definition load_failure (cs : list Cand) (ls : list (option finalizedClaim)) (f : FinalizedClaimEvaluationFailure) : Prop :=
  exists i c, cs !! i = Some c /\ ls !! i = Some None /\ ef_Left f = c /\ ef_Right f = c /\ blames f c.

Section Loading.
Context (Inv : X -> Prop) (load : Cand -> M W finalizedClaim).
Hypothesis load_ok : forall c w r w', c ∈ cands -> load c w = (r, w') -> Inv (snd w) ->
  Inv (snd w') /\ match r with Ok l => claim_of c l | Err _ => True end.

Lemma loadLoop_run pre cs ls fs w r w' :
  Forall (fun c => c ∈ cands) (pre ++ cs) -> length ls = length pre ->
  Forall2 (fun c o => load_result c o fs) pre ls -> Forall (load_failure pre ls) fs ->
  loadLoop load cs ls fs w = (r, w') -> Inv (snd w) ->
  Inv (snd w') /\ exists out, r = Ok out /\
  match out with
  | Ok (ls', fs') => Forall2 (fun c o => load_result c o fs') (pre ++ cs) ls' /\ Forall (load_failure (pre ++ cs) ls') fs'
  | Err sel => exists fs', sel = EvaluationError fs' /\ fs' <> [] /\ Forall external_failure fs'
  end.
Proof.
  revert pre ls fs w. induction cs as [|c cs IH]; intros pre ls fs w Hin Hlen H2 Hf H HI; cbn [Arbitration.loadLoop] in H.
  { injection H as <- <-. split; [done|]. eexists. split; [done|]. by rewrite app_nil_r. }
  assert (Hc : c ∈ cands) by (rewrite Forall_forall in Hin; apply Hin; set_solver).
  apply bind_run_attempt in H as (x & w1 & Hx & H). apply load_ok in Hx as [HI1 Hx]; [|done..].
  assert (Hmono : forall o f, load_failure pre ls f -> load_failure (pre ++ [c]) (ls ++ [o]) f).
  { intros o f (i & d & Hd & Hl & ?). exists i, d. split; [by apply lookup_app_l_Some|]. split; [by apply lookup_app_l_Some|done]. }
  rewrite (cons_middle c pre cs), app_assoc in Hin |- *. destruct x as [l|e].
  - apply (IH (pre ++ [c])) in H; [done|done|rewrite !length_app; simpl; lia| | |done].
    + apply Forall2_app; [done|]. constructor; [done|constructor].
    + eapply Forall_impl; [exact Hf|]. auto.
  - apply bind_run in H as [(b & w2 & Hb & H)|(e' & Hb & ->)]; apply cancelled_run in Hb as [Hs [b' Eb]]; [|done].
    set (f := mkFailure c c (EvLoad e)) in *.
    assert (Hfs : Forall (load_failure (pre ++ [c]) (ls ++ [None])) (fs ++ [f])).
    { apply Forall_app. split; [eapply Forall_impl; [exact Hf|]; auto|]. constructor; [|constructor].
      exists (length pre), c. split; [by rewrite list_lookup_middle|]. split; [by rewrite <- Hlen, list_lookup_middle|done]. }
    destruct b.
    + injection H as <- <-. rewrite Hs. split; [done|]. eexists. split; [done|]. exists (fs ++ [f]).
      split; [done|]. split; [by destruct fs|]. eapply Forall_impl; [exact Hfs|].
      intros g (i & d & Hd & _ & _ & _ & Hg). exists d. split; [|done]. apply list_elem_of_lookup_2 in Hd.
      rewrite Forall_forall in Hin. apply Hin. set_solver.
    + apply (IH (pre ++ [c])) in H; [done|done|rewrite !length_app; simpl; lia| |done|by rewrite Hs].
      apply Forall2_app.
      * eapply Forall2_impl; [exact H2|]. intros d o. destruct o; simpl; [done|]. intros (g & ? & ?). exists g. set_solver.
      * constructor; [|constructor]. exists f. set_solver.
Qed.

End Loading.

(** ** The pairs *)

Section Pairs.
Context (ordered : list Cand) (loaded : list (option finalizedClaim)).
Hypothesis ordered_cands : Forall (fun c => c ∈ cands) ordered.
Hypothesis loaded_length : length loaded = length ordered.
Hypothesis loaded_claims : forall i c l, ordered !! i = Some c -> loaded !! i = Some (Some l) -> claim_of c l.
Local Abbreviation n := (length ordered).
Local Abbreviation elig st := (isEligible (ps_eligible st)).
Local Abbreviation rel st := (getRel (ps_relations st)).

Definition isLoaded (i : nat) : Prop := exists l, loaded !! i = Some (Some l).

(** What the relation [r] between the candidates at [i] and [j] says. *)
Definition semantic (i j : nat) (r : ClaimRelation) : Prop :=
  exists ci cj li lj, ordered !! i = Some ci /\ ordered !! j = Some cj /\
    claim_of ci li /\ claim_of cj lj /\ verdict li lj (headOf ci) (headOf cj) (Ok r).

Record pinv (seen : list (nat * nat)) (st : pairState) : Prop := {
  pi_square : square n (ps_relations st);
  pi_length : length (ps_eligible st) = n;
  pi_diag : forall i, isLoaded i -> rel st i i = ClaimsEquivalent;
  pi_loaded : forall i, elig st i = true -> isLoaded i;
  pi_rel : forall i j, (i, j) ∈ seen -> isLoaded i -> isLoaded j ->
    (rel st j i = reverseClaimRelation (rel st i j) /\ semantic i j (rel st i j)) \/
    ps_conflicts st <> [] \/ elig st i = false \/ elig st j = false;
  pi_blame : forall i c, ordered !! i = Some c -> elig st i = false -> exists f, f ∈ ps_failures st /\ blames f c;
  pi_conflicts : Forall (fun e => pe_Left e ∈ cands /\ pe_Right e ∈ cands /\
                                  conflicting (pe_Left e) (pe_Right e)) (ps_conflicts st);
  pi_failures : Forall (fun f => exists i c, ordered !! i = Some c /\ elig st i = false /\ blames f c /\
                                 (ef_Left f = c \/ ef_Right f = c)) (ps_failures st) }.

Lemma ordered_in i c : ordered !! i = Some c -> c ∈ cands.
Proof. intros H%list_elem_of_lookup_2. rewrite Forall_forall in ordered_cands. auto. Qed.

Lemma isEligible_cleared i l : isEligible (clear true i l) i = false.
Proof.
  unfold clear, isEligible. destruct (decide (i < length l)%nat).
  - by rewrite list_lookup_insert_eq.
  - rewrite lookup_ge_None_2; [done|]. rewrite length_insert. lia.
Qed.

Lemma isEligible_clear_ne b i l a : a <> i -> isEligible (clear b i l) a = isEligible l a.
Proof. intros Ha. unfold clear, isEligible. destruct b; [|done]. by rewrite list_lookup_insert_ne. Qed.

Lemma isEligible_clear b i l a : isEligible (clear b i l) a = true -> isEligible l a = true.
Proof.
  destruct (decide (a = i)) as [->|Ha]; [|by rewrite isEligible_clear_ne].
  destruct b; [by rewrite isEligible_cleared|done].
Qed.

Lemma isEligible_clear_false b i l a : isEligible l a = false -> isEligible (clear b i l) a = false.
Proof. intros H. destruct (isEligible (clear b i l) a) eqn:E; [|done]. apply isEligible_clear in E. congruence. Qed.

(** Clearing takes away only the index it names. *)
Lemma isEligible_clear_inv b i l a : isEligible l a = true -> isEligible (clear b i l) a = false -> b = true /\ a = i.
Proof.
  intros H E. destruct (decide (a = i)) as [->|Ha]; [|rewrite isEligible_clear_ne in E by done; congruence].
  destruct b; [done|]. simpl in E. congruence.
Qed.

(** The verdict on the pair (i, j), worked into the state. *)
Lemma pairResult_run seen st i j ci cj li lj v w r w' :
  pinv seen st -> (forall a b, (a, b) ∈ seen -> (a < b < n)%nat) -> (i < j < n)%nat -> (i, j) ∉ seen ->
  ordered !! i = Some ci -> ordered !! j = Some cj -> loaded !! i = Some (Some li) -> loaded !! j = Some (Some lj) ->
  verdict li lj (headOf ci) (headOf cj) v -> pairResult i j ci cj v st w = (r, w') ->
  snd w' = snd w /\ exists out, r = Ok out /\
  match out with
  | Ok st' => pinv ((i, j) :: seen) st'
  | Err sel => exists fs', sel = EvaluationError fs' /\ fs' <> [] /\ Forall external_failure fs'
  end.
Proof.
  intros HP Hseen Hij Hnew Hci Hcj Hli Hlj Hv H. pose proof (loaded_claims _ _ _ Hci Hli) as Hcl. pose proof (loaded_claims _ _ _ Hcj Hlj) as Hcl'.
  destruct v as [v|[c|lf rt es]]; cbn [Arbitration.pairResult] in H.
  - injection H as <- <-. split; [done|]. eexists. split; [done|].
    pose proof (pi_square _ _ HP) as Hsq. pose proof (square_setRel n i j v _ Hsq) as Hsq'.
    assert (Hget : forall a b, getRel (setRel j i (reverseClaimRelation v) (setRel i j v (ps_relations st))) a b =
      if decide (a = j /\ b = i) then reverseClaimRelation v else if decide (a = i /\ b = j) then v else rel st a b).
    { intros a b. rewrite (getRel_setRel n) by (done || lia). case_decide; [done|]. by rewrite (getRel_setRel n) by (done || lia). }
    split; simpl; try apply HP.
    + by apply square_setRel.
    + intros a Ha. rewrite Hget, !decide_False by lia. by apply (pi_diag _ _ HP).
    + intros a b [[= -> ->]|Hab]%elem_of_cons Ha Hb.
      * left. rewrite !Hget. rewrite (decide_True (P := j = j /\ i = i)) by done. rewrite decide_False by lia. rewrite decide_True by done.
        split; [done|]. exists ci, cj, li, lj. done.
      * specialize (Hseen _ _ Hab). assert ((a, b) <> (i, j)) by (by intros [= -> ->]).
        rewrite !Hget, !decide_False by (intros [-> ->]; (lia || congruence)). by apply (pi_rel _ _ HP).
  - injection H as <- <-. split; [done|]. eexists. split; [done|]. split; simpl; try apply HP.
    + intros a b Hab Ha Hb. right. left. by destruct (ps_conflicts st).
    + apply Forall_app. split; [apply HP|]. constructor; [|constructor]. simpl. split; [by eapply ordered_in|]. split; [by eapply ordered_in|].
      destruct Hv as [_ Hv]. destruct Hcl as [_ E1], Hcl' as [_ E2]. unfold conflicting. by rewrite <- E1, <- E2.
  - set (f := mkFailure ci cj (EvClaim (CEvidence lf rt es))) in *.
    destruct Hv as [Hv _]. assert (Hbl : exists c, c ∈ cands /\ blames f c).
    { unfold blames. destruct Hv as [->| ->]; [exists ci|exists cj]; (split; [by eapply ordered_in|]); simpl; auto. }
    apply bind_run in H as [(b & w2 & Hb & H)|(e' & Hb & ->)]; apply cancelled_run in Hb as [Hs [b' Eb]]; [|done].
    destruct b; injection H as <- <-; (split; [done|]); eexists; (split; [done|]).
    { exists (ps_failures st ++ [f]). split; [done|]. split; [by destruct (ps_failures st)|]. apply Forall_app. split; [|by constructor].
      eapply Forall_impl; [apply (pi_failures _ _ HP)|]. intros g (a & d & Hd & _ & Hg & _). exists d. split; [by eapply ordered_in|done]. }
    assert (Hmono : forall a, elig st a = false -> isEligible (clear rt j (clear lf i (ps_eligible st))) a = false).
    { intros. by do 2 apply isEligible_clear_false. }
    assert (Hside : exists a d, ordered !! a = Some d /\ isEligible (clear rt j (clear lf i (ps_eligible st))) a = false /\ blames f d /\ (ef_Left f = d \/ ef_Right f = d)).
    { destruct Hv as [->| ->]; [exists i, ci|exists j, cj]; unfold blames; (split; [done|]); simpl.
      - split; [apply isEligible_clear_false, isEligible_cleared|]. auto.
      - split; [apply isEligible_cleared|]. auto. }
    split; simpl; try apply HP.
    + unfold clear. destruct rt, lf; rewrite ?length_insert; apply HP.
    + intros a Ha. do 2 apply isEligible_clear in Ha. by apply (pi_loaded _ _ HP).
    + intros a b [[= -> ->]|Hab]%elem_of_cons Ha Hb.
      * right. right. destruct Hv as [->| ->]; [left; apply isEligible_clear_false, isEligible_cleared|right; apply isEligible_cleared].
      * destruct (pi_rel _ _ HP a b Hab Ha Hb) as [?|[?|[?|?]]]; auto.
    + intros a d Hd Ha. destruct (elig st a) eqn:Ea.
      * exists f. split; [set_solver|]. unfold blames. simpl. destruct (isEligible (clear lf i (ps_eligible st)) a) eqn:E1.
        { apply isEligible_clear_inv in Ha as [? ->]; [|done]. right. split; [done|congruence]. }
        apply isEligible_clear_inv in E1 as [? ->]; [|done]. left. split; [done|congruence].
      * destruct (pi_blame _ _ HP a d Hd Ea) as (g & ? & ?). exists g. split; [set_solver|done].
    + apply Forall_app. split; [|constructor; [done|constructor]].
      eapply Forall_impl; [apply (pi_failures _ _ HP)|]. intros g (a & d & ? & ? & ? & ?). exists a, d. auto.
Qed.

Lemma pinv_skip seen st i j :
  pinv seen st -> (isLoaded i -> isLoaded j -> False) -> pinv ((i, j) :: seen) st.
Proof.
  intros HP Hn. split; try apply HP. intros a b [[= -> ->]|Hab]%elem_of_cons Ha Hb; [by destruct Hn|]. by apply (pi_rel _ _ HP).
Qed.

Lemma pairLoop_run seen rest st w r w' :
  pinv seen st -> (forall a b, (a, b) ∈ seen \/ (a, b) ∈ rest -> (a < b < n)%nat) ->
  NoDup rest -> (forall p, p ∈ rest -> p ∉ seen) ->
  pairLoop ordered loaded rest st w = (r, w') ->
  snd w' = snd w /\ exists out, r = Ok out /\
  match out with
  | Ok st' => exists seen', pinv seen' st' /\ forall p, p ∈ rest \/ p ∈ seen -> p ∈ seen'
  | Err sel => exists fs', sel = EvaluationError fs' /\ fs' <> [] /\ Forall external_failure fs'
  end.
Proof.
  revert seen st w. induction rest as [|[i j] rest IH]; intros seen st w HP Hlt Hnd Hdis H; cbn [Arbitration.pairLoop] in H.
  { injection H as <- <-. split; [done|]. eexists. split; [done|]. exists seen. set_solver. }
  apply NoDup_cons in Hnd as [Hnew Hnd]. assert (Hij : (i < j < n)%nat) by (apply Hlt; right; left).
  assert (Hskip : (isLoaded i -> isLoaded j -> False) -> pairLoop ordered loaded rest st w = (r, w') ->
    snd w' = snd w /\ exists out, r = Ok out /\
    match out with
    | Ok st' => exists seen', pinv seen' st' /\ forall p, p ∈ (i, j) :: rest \/ p ∈ seen -> p ∈ seen'
    | Err sel => exists fs', sel = EvaluationError fs' /\ fs' <> [] /\ Forall external_failure fs'
    end).
  { intros Hn Hr. apply (IH ((i, j) :: seen)) in Hr as (? & out & -> & Ho); [| |set_solver..|set_solver].
    - split; [done|]. eexists. split; [done|]. destruct out; [|done]. destruct Ho as (seen' & ? & Hsub). exists seen'. set_solver.
    - by apply pinv_skip. }
  destruct (ordered !! i) as [ci|] eqn:Hci; [|apply lookup_ge_None_1 in Hci; lia].
  destruct (ordered !! j) as [cj|] eqn:Hcj; [|apply lookup_ge_None_1 in Hcj; lia].
  destruct (mjoin (loaded !! i)) as [li|] eqn:Hli; [|apply Hskip; [|done]; intros [l El]; by rewrite El in Hli].
  destruct (mjoin (loaded !! j)) as [lj|] eqn:Hlj; [|apply Hskip; [|done]; intros _ [l El]; by rewrite El in Hlj].
  assert (Hli' : loaded !! i = Some (Some li)) by (by destruct (loaded !! i) as [[?|]|]; simplify_eq/=).
  assert (Hlj' : loaded !! j = Some (Some lj)) by (by destruct (loaded !! j) as [[?|]|]; simplify_eq/=).
  pose proof (loaded_claims _ _ _ Hci Hli') as [Hcl _]. pose proof (loaded_claims _ _ _ Hcj Hlj') as [Hcl' _].
  apply bind_run in H as [(v & w1 & Hv & H)|(e & Hv & ->)]; apply onSto_run in Hv as [Hv Hs1];
    (eapply classify_run in Hv as (x & Ex & Hx); [|done..]); [|done]. injection Ex as <-.
  apply bind_run in H as [(st' & w2 & Hr & H)|(e & Hr & ->)];
    (eapply pairResult_run in Hr as (Hs2 & out & Eo & Ho); [|done|set_solver|done|set_solver|done..]); [|done].
  injection Eo as <-. destruct st' as [st'|sel].
  - apply (IH ((i, j) :: seen)) in H as (Hs3 & out & -> & Hout); [|done|set_solver..|set_solver].
    split; [congruence|]. eexists. split; [done|]. destruct out; [|done]. destruct Hout as (seen' & ? & Hsub). exists seen'. set_solver.
  - injection H as <- <-. split; [congruence|]. eauto.
Qed.

Lemma pinv_start fs :
  Forall2 (fun c o => load_result c o fs) ordered loaded -> Forall (load_failure ordered loaded) fs ->
  pinv [] (mkPairs (foldl (fun m i => if isEligible ((fun o => negb (unset o)) <$> loaded) i then setRel i i ClaimsEquivalent m else m)
                          (rel0 n) (seq 0 n)) ((fun o => negb (unset o)) <$> loaded) [] fs).
Proof.
  intros H2 Hf. set (sv := (fun o => negb (unset o)) <$> loaded).
  assert (Hsv : forall i, isEligible sv i = true <-> isLoaded i).
  { intros i. unfold isEligible, sv, isLoaded. rewrite list_lookup_fmap. destruct (loaded !! i) as [[l|]|]; simpl; naive_solver. }
  assert (Hrel : forall k, (k <= n)%nat ->
    let m := foldl (fun m i => if isEligible sv i then setRel i i ClaimsEquivalent m else m) (rel0 n) (seq 0 k) in
    square n m /\ forall i, (i < k)%nat -> isLoaded i -> getRel m i i = ClaimsEquivalent).
  { induction k as [|k IH]; intros Hk; [split; [apply square_rel0|lia]|]. rewrite seq_S, foldl_app. simpl.
    destruct IH as [Hsq Hd]; [lia|]. destruct (isEligible sv k) eqn:Ek.
    - split; [by apply square_setRel|]. intros i Hi Hl. rewrite (getRel_setRel n) by (done || lia).
      case_decide; [done|]. apply Hd; [lia|done].
    - split; [done|]. intros i Hi Hl. destruct (decide (i = k)) as [->|]; [apply Hsv in Hl; congruence|]. apply Hd; [lia|done]. }
  destruct (Hrel n ltac:(lia)) as [Hsq Hd]. split; simpl; try done.
  - unfold sv. by rewrite length_fmap.
  - intros i [l Hl]. apply Hd; [|by exists l]. apply lookup_lt_Some in Hl. lia.
  - intros i Hi. by apply Hsv.
  - by intros i j ?%not_elem_of_nil.
  - intros i c Hc Hi. rewrite Forall2_lookup in H2. specialize (H2 i). rewrite Hc in H2. inversion H2 as [? o Ho E|]; subst.
    destruct o as [l|]; [|done]. assert (isLoaded i) as Hl by (exists l; congruence). apply Hsv in Hl. congruence.
  - eapply Forall_impl; [exact Hf|]. intros f (i & c & Hc & Hl & ? & ? & ?). exists i, c. split; [done|]. split; [|auto].
    destruct (isEligible sv i) eqn:E; [|done]. apply Hsv in E as [l El]. congruence.
Qed.

(** ** The decision *)

Section Decision.
Context (seen : list (nat * nat)) (st : pairState).
Hypothesis final : pinv seen st.
Hypothesis all_seen : forall p, p ∈ indexPairs n -> p ∈ seen.

Lemma elig_lt i : elig st i = true -> (i < n)%nat.
Proof.
  unfold isEligible. destruct (ps_eligible st !! i) eqn:E; [|done]. apply lookup_lt_Some in E.
  by rewrite (pi_length _ _ final) in E.
Qed.

Lemma elig_cand i : elig st i = true -> exists c, ordered !! i = Some c /\ c ∈ cands /\ content_ok (headOf c).
Proof.
  intros Hi. destruct (lookup_lt_is_Some_2 ordered i (elig_lt i Hi)) as [c Hc]. exists c. split; [done|].
  split; [by eapply ordered_in|]. apply (pi_loaded _ _ final) in Hi as [l Hl].
  destruct (loaded_claims _ _ _ Hc Hl) as [Hcl _]. apply head_content, (cl_ok _ _ Hcl).
Qed.

Lemma cand_le_refl c : content_ok (headOf c) -> cand_le c c.
Proof. intros. split; [by apply included_refl|apply manifest_le_refl]. Qed.

Lemma cand_le_trans a b c : cand_le a b -> cand_le b c -> cand_le a c.
Proof. intros [? ?] [? ?]. split; [by eapply included_trans|by eapply manifest_le_trans]. Qed.

Lemma same_le a b : content_ok (headOf a) -> cand_same a b -> cand_le a b.
Proof. intros Ha [E1 E2]. split; [rewrite <- E1; by apply included_refl|rewrite <- E2; apply manifest_le_refl]. Qed.

(** What a relation between candidates means for them. *)
Definition cand_rel (a b : Cand) (r : ClaimRelation) : Prop :=
  match r with
  | ClaimsEquivalent => cand_same a b
  | LeftClaimDominates => cand_le b a /\ ~ cand_same a b
  | RightClaimDominates => cand_le a b /\ ~ cand_same a b
  | ClaimsIncomparable => True
  | ClaimRelationInvalid => False
  end.

Lemma semantic_rel i j r ci cj : ordered !! i = Some ci -> ordered !! j = Some cj -> semantic i j r -> cand_rel ci cj r.
Proof.
  intros Hi Hj (ci' & cj' & li & lj & Hi' & Hj' & [_ Hti] & [_ Htj] & Hv). simplify_eq.
  unfold cand_rel, cand_same, cand_le. destruct r; simpl in Hv; unfold same_claim, claim_le in Hv; rewrite ?Hti, ?Htj in Hv; tauto.
Qed.

Lemma rel_cands i j ci cj :
  ps_conflicts st = [] -> elig st i = true -> elig st j = true -> i <> j ->
  ordered !! i = Some ci -> ordered !! j = Some cj ->
  rel st j i = reverseClaimRelation (rel st i j) /\ cand_rel ci cj (rel st i j).
Proof.
  intros Hc Hi Hj Hne Hci Hcj. pose proof (elig_lt _ Hi). pose proof (elig_lt _ Hj).
  pose proof (pi_loaded _ _ final _ Hi) as Li. pose proof (pi_loaded _ _ final _ Hj) as Lj.
  destruct (decide (i < j)%nat) as [Hlt|Hge].
  - destruct (pi_rel _ _ final i j) as [[Hr Hs]|[?|[?|?]]]; [apply all_seen, elem_indexPairs; lia|done..| |congruence|congruence|congruence].
    split; [done|]. by eapply semantic_rel.
  - destruct (pi_rel _ _ final j i) as [[Hr Hs]|[?|[?|?]]]; [apply all_seen, elem_indexPairs; lia|done..| |congruence|congruence|congruence].
    eapply semantic_rel in Hs; [|done..]. rewrite Hr, reverse_involutive. split; [done|].
    unfold cand_rel, cand_same in *. destruct (rel st j i); simpl; naive_solver.
Qed.

Lemma atLeast_le i j ci cj :
  ps_conflicts st = [] -> elig st i = true -> elig st j = true -> ordered !! i = Some ci -> ordered !! j = Some cj ->
  atLeast (rel st i j) = true -> cand_le cj ci.
Proof.
  intros Hc Hi Hj Hci Hcj Ha. destruct (elig_cand i Hi) as (c & E & _ & Hok). assert (c = ci) as -> by congruence.
  destruct (decide (i = j)) as [->|Hne].
  { assert (cj = ci) as -> by congruence. by apply cand_le_refl. }
  destruct (rel_cands i j ci cj) as [_ Hr]; [done..|]. destruct (rel st i j); try done; simpl in Hr.
  - destruct Hr as [E1 E2]. apply same_le; [by rewrite <- E1|split; congruence].
  - by destruct Hr.
Qed.

Lemma elem_winners i : i ∈ winnerIndexes st (seq 0 n) <->
  elig st i = true /\ forall j, elig st j = true -> atLeast (rel st i j) = true.
Proof.
  unfold winnerIndexes, dominatesAll. rewrite list_elem_of_In, List.filter_In, andb_true_iff, forallb_forall. split.
  - intros (_ & Hi & H). split; [done|]. intros j Hj. specialize (H j). rewrite Hj in H. apply H.
    apply in_seq. pose proof (elig_lt _ Hj). lia.
  - intros [Hi H]. split; [apply in_seq; pose proof (elig_lt _ Hi); lia|]. split; [done|].
    intros j _. destruct (elig st j) eqn:Ej; [|done]. by rewrite (H j Ej).
Qed.

Lemma elem_pick idx c : c ∈ pick ordered idx <-> exists i, i ∈ idx /\ ordered !! i = Some c.
Proof. unfold pick. by rewrite list_elem_of_omap. Qed.

(** Two winners are equivalent, so the internal refusal is not reached. *)
Lemma winners_equal i j : ps_conflicts st = [] -> i ∈ winnerIndexes st (seq 0 n) -> j ∈ winnerIndexes st (seq 0 n) ->
  rel st i j = ClaimsEquivalent.
Proof.
  intros Hc [Hi Hdi]%elem_winners [Hj Hdj]%elem_winners. specialize (Hdi j Hj). specialize (Hdj i Hi).
  destruct (decide (i = j)) as [->|Hne]; [apply (pi_diag _ _ final), (pi_loaded _ _ final), Hi|].
  destruct (elig_cand i Hi) as (ci & Hci & _). destruct (elig_cand j Hj) as (cj & Hcj & _).
  destruct (rel_cands i j ci cj) as [Hr _]; [done..|]. rewrite Hr in Hdj. by destruct (rel st i j).
Qed.

Lemma unequal_none : ps_conflicts st = [] -> unequalWinners st (winnerIndexes st (seq 0 n)) = None.
Proof.
  intros Hc. unfold unequalWinners. destruct (List.find _ _) as [[i j]|] eqn:E; [|done].
  apply List.find_some in E as [Hin%list_elem_of_In Hne]. apply list_elem_of_omap in Hin as ([a b] & _ & Hab).
  destruct (winnerIndexes st (seq 0 n) !! a) as [i'|] eqn:Ea; [|done]. simpl in Hab.
  destruct (winnerIndexes st (seq 0 n) !! b) as [j'|] eqn:Eb; [|done]. simpl in Hab. injection Hab as -> ->.
  rewrite winners_equal in Hne; [done|done|by eapply list_elem_of_lookup_2..].
Qed.

Lemma selected_spec rep eqs unav :
  decideSelection ordered st = Selected rep eqs unav ->
  rep ∈ cands /\ Forall (fun c => c ∈ cands /\ cand_same c rep) eqs /\ rep ∈ eqs /\
  forall c, c ∈ ordered -> cand_le c rep \/ exists f, f ∈ unav /\ blames f c.
Proof.
  unfold decideSelection. destruct (ps_conflicts st) eqn:Hc; [|done]. rewrite unequal_none by done.
  destruct (pick ordered _) as [|r others] eqn:Hp; [unfold noWinner; repeat case_match; done|]. intros [= <- <- <-].
  assert (Hall : forall c, c ∈ r :: others -> exists i, i ∈ winnerIndexes st (seq 0 n) /\ ordered !! i = Some c).
  { intros c. rewrite <- Hp. apply elem_pick. }
  destruct (Hall r ltac:(by left)) as (w & Hw & Hrw). split; [by eapply ordered_in|]. split; [|split; [by left|]].
  - apply Forall_forall. intros c (i & Hi & Hci)%Hall. split; [by eapply ordered_in|].
    pose proof (winners_equal i w Hc Hi Hw) as E. apply elem_winners in Hi as [Hi _], Hw as [Hw _].
    destruct (decide (i = w)) as [->|Hne]; [by assert (c = r) as -> by congruence|].
    destruct (rel_cands i w c r) as [_ Hr]; [done..|]. by rewrite E in Hr.
  - intros c (j & Hj)%list_elem_of_lookup_1. apply elem_winners in Hw as [Hw Hd]. destruct (elig st j) eqn:Ej.
    + left. by eapply (atLeast_le w j); [..|apply Hd].
    + right. by eapply pi_blame.
Qed.

(** ** A maximum exists unless some pair is incomparable *)

Hypothesis distinct : NoDup (SourceID <$> ordered).
Hypothesis acyclic : forall a b, a ∈ cands -> b ∈ cands ->
  manifest_le (tip a) (tip b) -> manifest_le (tip b) (tip a) -> tip a = tip b.

Lemma maximum_exists (l : list nat) :
  ps_conflicts st = [] -> l <> [] -> Forall (fun i => elig st i = true) l ->
  (forall i j, i ∈ l -> j ∈ l -> i <> j -> rel st i j <> ClaimsIncomparable) ->
  exists i, i ∈ l /\ Forall (fun j => atLeast (rel st i j) = true) l.
Proof.
  intros Hc. induction l as [|a l IH]; [done|]. intros _ Hf Hin. apply Forall_cons in Hf as [Ha Hf].
  assert (Hrefl : forall i, elig st i = true -> atLeast (rel st i i) = true).
  { intros i Hi. by rewrite (pi_diag _ _ final i) by (by apply (pi_loaded _ _ final)). }
  destruct l as [|b l']; [exists a; split; [left|]; constructor; [by apply Hrefl|constructor]|].
  destruct IH as (i & Hi & Hd); [done..| |].
  { intros x y Hx Hy. apply Hin; by right. }
  destruct (decide (a = i)) as [->|Hai]; [exists i; split; [by left|]; constructor; [by apply Hrefl|done]|].
  assert (Hie : elig st i = true) by (rewrite Forall_forall in Hf; auto).
  destruct (elig_cand a Ha) as (ca & Hca & Hcan & Hoka). destruct (elig_cand i Hie) as (ci & Hci & Hcin & Hoki).
  destruct (rel_cands i a ci ca) as [Hr Hrel]; [done..|].
  destruct (atLeast (rel st i a)) eqn:Eia; [exists i; split; [by right|]; by constructor|].
  exists a. split; [by left|]. constructor; [by apply Hrefl|]. apply Forall_forall. intros k Hk.
  assert (Hke : elig st k = true) by (rewrite Forall_forall in Hf; auto).
  destruct (decide (a = k)) as [->|Hak]; [by apply Hrefl|].
  assert (Eri : rel st i a = RightClaimDominates).
  { assert (Hni : rel st i a <> ClaimsIncomparable) by (apply Hin; [by right|by left|done]).
    by destruct (rel st i a). }
  destruct (elig_cand k Hke) as (ck & Hck & Hckn & Hokk). rewrite Forall_forall in Hd. specialize (Hd k Hk).
  eapply (atLeast_le i k) in Hd; [|done..]. rewrite Eri in Hrel. destruct Hrel as [Hle Hnot].
  destruct (rel_cands a k ca ck) as [Hrk Hrelk]; [done..|].
  assert (Hnk : rel st a k <> ClaimsIncomparable) by (apply Hin; [by left|by right|done]).
  destruct (rel st a k) eqn:Eak; try done. exfalso. destruct Hrelk as [Hlek Hnotk]. apply Hnotk.
  pose proof (cand_le_trans _ _ _ Hd Hle) as [Hka1 Hka2]. destruct Hlek as [Hak1 Hak2].
  split; [by apply included_antisym|by apply acyclic].
Qed.

(** Every failure is some side's, so none blocks the eligible candidates. *)
Lemma no_blocking f : f ∈ ps_failures st ->
  ~ (SourceID (ef_Left f) ∈ SourceID <$> pick ordered (List.filter (elig st) (seq 0 n)) /\
     SourceID (ef_Right f) ∈ SourceID <$> pick ordered (List.filter (elig st) (seq 0 n))).
Proof.
  intros Hf [Hl Hr]. pose proof (pi_failures _ _ final) as Hfs. rewrite Forall_forall in Hfs.
  destruct (Hfs f Hf) as (i & c & Hc & Hi & _ & Hside).
  assert (Hno : SourceID c ∉ SourceID <$> pick ordered (List.filter (elig st) (seq 0 n))); [|by destruct Hside; subst].
  intros (d & Ed & Hd)%list_elem_of_fmap. apply elem_pick in Hd as (j & Hj & Hdj).
  apply list_elem_of_In, List.filter_In in Hj as [_ Hj].
  assert (i = j) as ->; [|congruence]. eapply (NoDup_lookup (SourceID <$> ordered)); [done|rewrite list_lookup_fmap, Hc; done|].
  rewrite list_lookup_fmap, Hdj. simpl. congruence.
Qed.

Lemma noWinner_spec : ordered <> [] -> ps_conflicts st = [] -> pick ordered (winnerIndexes st (seq 0 n)) = [] ->
  match noWinner ordered st with
  | IncomparableError ps => ps <> []
  | EvaluationError fs => fs <> [] /\ Forall external_failure fs
  | _ => False
  end.
Proof.
  intros Hne Hc Hw. unfold noWinner.
  assert (Hext : Forall external_failure (ps_failures st)).
  { eapply Forall_impl; [apply (pi_failures _ _ final)|]. intros f (i & c & Hi & _ & Hb & _). exists c. split; [by eapply ordered_in|done]. }
  rewrite (filter_false_nil _ (ps_failures st)).
  2: { intros f Hf. apply not_true_is_false. intros [H1%bool_decide_eq_true_1 H2%bool_decide_eq_true_1]%andb_true_iff.
       by apply (no_blocking f Hf). }
  cbn [length Nat.eqb negb orb]. rewrite orb_false_r.
  destruct (Nat.eqb_spec (length (SourceID <$> pick ordered (List.filter (elig st) (seq 0 n)))) 0) as [E|E].
  - split; [|done]. destruct ordered as [|c cs] eqn:Eo; [done|]. rewrite <- Eo in *.
    destruct (elig st 0) eqn:E0.
    { exfalso. apply length_zero_iff_nil, fmap_nil_inv in E.
      assert (c ∈ pick ordered (List.filter (elig st) (seq 0 n))) as Hin; [|rewrite E in Hin; by apply not_elem_of_nil in Hin].
      apply elem_pick. exists 0%nat. split; [|by rewrite Eo]. apply list_elem_of_In, List.filter_In. split; [|done]. apply in_seq. rewrite Eo. simpl. lia. }
    destruct (pi_blame _ _ final 0%nat c) as (f & Hf & _); [by rewrite Eo|done|]. intros Hn. rewrite Hn in Hf. by apply not_elem_of_nil in Hf.
  - destruct (incomparablePairs ordered st) as [|p ps] eqn:Ei; [|done]. exfalso.
    destruct (maximum_exists (List.filter (elig st) (seq 0 n))) as (i & Hi & Hd); [done| | | |].
    + intros En. by rewrite En in E.
    + apply Forall_forall. intros i Hi%list_elem_of_In%List.filter_In. apply Hi.
    + assert (Hlt : forall i j, (i < j)%nat -> elig st i = true -> elig st j = true -> rel st i j <> ClaimsIncomparable).
      { intros i j Hij Hi Hj Hr. destruct (elig_cand i Hi) as (ci & Hci & _). destruct (elig_cand j Hj) as (cj & Hcj & _).
        assert (mkEvidence ci cj ClaimsIncomparable None ∈ incomparablePairs ordered st) as Hin; [|rewrite Ei in Hin; by apply not_elem_of_nil in Hin].
        unfold incomparablePairs. apply list_elem_of_omap. exists (i, j). split; [apply elem_indexPairs; pose proof (elig_lt _ Hj); lia|].
        rewrite Hi, Hj, bool_decide_eq_true_2 by done. simpl. by rewrite Hci, Hcj. }
      intros i j Hi%list_elem_of_In%List.filter_In Hj%list_elem_of_In%List.filter_In Hij. destruct Hi as [_ Hi], Hj as [_ Hj].
      destruct (decide (i < j)%nat); [by apply Hlt|]. intros Hr.
      destruct (elig_cand i Hi) as (ci & Hci & _). destruct (elig_cand j Hj) as (cj & Hcj & _).
      destruct (rel_cands i j ci cj) as [Hrev _]; [done..|]. rewrite Hr in Hrev. simpl in Hrev. apply (Hlt j i); [lia|done..].
    + apply list_elem_of_In, List.filter_In in Hi as [_ Hi]. destruct (elig_cand i Hi) as (c & Hc' & _).
      assert (c ∈ pick ordered (winnerIndexes st (seq 0 n))) as Hin; [|rewrite Hw in Hin; by apply not_elem_of_nil in Hin].
      apply elem_pick. exists i. split; [|done]. apply elem_winners. split; [done|]. intros j Hj. rewrite Forall_forall in Hd. apply Hd.
      apply list_elem_of_In, List.filter_In. split; [|done]. apply in_seq. pose proof (elig_lt _ Hj). lia.
Qed.
End Decision.
End Pairs.

(** ** Whole selections *)

Local Abbreviation selectFinalizedClaim := (@selectFinalizedClaim MH CB Sto Scr BS SS SC L LR X).

Section Selection.
Context (Inv : X -> Prop) (load : Cand -> M W finalizedClaim).
Hypothesis load_ok : forall c w r w', c ∈ cands -> load c w = (r, w') -> Inv (snd w) ->
  Inv (snd w') /\ match r with Ok l => claim_of c l | Err _ => True end.

Lemma mfor_validate cs (w : W) r w' :
  mfor (fun c => lift (validateSourceID (SourceID c))) cs w = (r, w') ->
  w' = w /\ match r with Ok _ => True | Err e => exists m, e = EInvalid m end.
Proof.
  revert r. induction cs as [|c cs IH]; intros r H; cbn [mfor] in H; [by injection H as <- <-|].
  unfold bind at 1, lift in H. destruct (validateSourceID (SourceID c)) as [[]|e] eqn:E; [by apply IH|].
  injection H as <- <-. split; [done|]. unfold validateSourceID in E. repeat case_match; simplify_eq; eauto.
Qed.

Lemma select_run head w out w' :
  selectFinalizedClaim load head cands w = (Ok out, w') -> Inv (snd w) ->
  let ordered := orderCandidates cands in
  ordered <> [] /\ NoDup (SourceID <$> ordered) /\
  ((exists fs, out = EvaluationError fs /\ fs <> [] /\ Forall external_failure fs) \/
   exists loaded st seen, pinv ordered loaded seen st /\ (forall p, p ∈ indexPairs (length ordered) -> p ∈ seen) /\
     length loaded = length ordered /\
     (forall i c l, ordered !! i = Some c -> loaded !! i = Some (Some l) -> claim_of c l) /\
     out = decideSelection ordered st).
Proof.
  intros H HI ordered. unfold selectFinalizedClaim, Arbitration.selectFinalizedClaim in H.
  destruct (emptyStr head); [done|]. destruct (Nat.eqb_spec (length cands) 0) as [|Hne]; [done|].
  apply bind_run_ok in H as ([] & w0 & Hm & H). apply mfor_validate in Hm as [-> _]. fold ordered in H.
  destruct (repeatsSource ordered) eqn:Hrep; [done|].
  apply repeatsSource_false in Hrep; [|apply orderCandidates_sorted].
  assert (Hperm : ordered ≡ₚ cands) by apply orderCandidates_perm.
  assert (Hin : Forall (fun c => c ∈ cands) ordered).
  { apply Forall_forall. intros c Hc. by rewrite Hperm in Hc. }
  split. { intros E. rewrite <- (Permutation_length Hperm), E in Hne. done. }
  split; [done|].
  apply bind_run_ok in H as (l & w1 & Hl & H).
  apply (loadLoop_run Inv load load_ok [] ordered [] []) in Hl as (HI1 & x & [= <-] & Hx); [|done|done|constructor|constructor|done].
  destruct l as [[loaded fs]|sel]; [|injection H as <- <-; by left]. destruct Hx as [H2 Hf]. cbn [app] in H2, Hf.
  assert (Hlen : length loaded = length ordered) by (symmetry; by eapply Forall2_length).
  assert (Hcl : forall i c l, ordered !! i = Some c -> loaded !! i = Some (Some l) -> claim_of c l).
  { intros i c l Hc Hl. rewrite Forall2_lookup in H2. specialize (H2 i). rewrite Hc, Hl in H2. by inversion H2. }
  apply bind_run_ok in H as (r & w2 & Hr & H).
  eapply (pairLoop_run ordered loaded Hin Hlen Hcl []) in Hr as (_ & y & Ey & Hy).
  - injection Ey as <-. destruct r as [st|sel]; [|injection H as <- <-; by left].
    injection H as <- <-. right. destruct Hy as (seen & HP & Hsub). exists loaded, st, seen. split; [done|]. split; [auto|done].
  - by apply pinv_start.
  - intros a b [[]%not_elem_of_nil|Hp]. by apply elem_indexPairs.
  - apply NoDup_indexPairs.
  - intros p _. apply not_elem_of_nil.
Qed.

End Selection.

Definition incomparable (a b : Cand) : Prop :=
  exists la lb, claim_of a la /\ claim_of b lb /\ verdict la lb (headOf a) (headOf b) (Ok ClaimsIncomparable).

Lemma incomparable_spec ordered loaded seen st :
  Forall (fun c => c ∈ cands) ordered -> pinv ordered loaded seen st ->
  (forall p, p ∈ indexPairs (length ordered) -> p ∈ seen) -> ps_conflicts st = [] ->
  Forall (fun e => pe_Left e ∈ cands /\ pe_Right e ∈ cands /\ incomparable (pe_Left e) (pe_Right e))
    (incomparablePairs ordered st).
Proof.
  intros Hin HP Hseen Hc. apply Forall_forall. intros e He. unfold incomparablePairs in He.
  apply list_elem_of_omap in He as ([i j] & Hij & He).
  destruct (isEligible (ps_eligible st) i) eqn:Ei; [|done]. destruct (isEligible (ps_eligible st) j) eqn:Ej; [|done]. cbn [andb] in He.
  case_bool_decide as Hr; [|done]. destruct (ordered !! i) as [ci|] eqn:Hci; [|done]. destruct (ordered !! j) as [cj|] eqn:Hcj; [|done].
  injection He as <-. simpl. rewrite Forall_lookup in Hin. split; [by eapply Hin|]. split; [by eapply Hin|].
  destruct (pi_rel _ _ _ _ HP i j) as [[_ Hs]|[?|[?|?]]]; [by apply Hseen|by apply (pi_loaded _ _ _ _ HP)|by apply (pi_loaded _ _ _ _ HP)| |congruence|congruence|congruence].
  rewrite Hr in Hs. destruct Hs as (ci' & cj' & li & lj & Hi' & Hj' & ? & ? & ?). simplify_eq. by exists li, lj.
Qed.
End Correct.

Section Theorems.
Context `{MH : Multihash} `{CB : !DagCbor} `{CT : !CidText} {ED : Ed25519}.
Context {Sto Scr : Type} `{BS : !Blockstore Sto} `{BO : !BlockstoreOk Sto}.
Context `{SS : !Blockstore Scr} `{SO : !BlockstoreOk Scr} `{SC : !ScratchStore Scr} `{SK : !ScratchOk Scr}.
Context {L : Type} `{LR : !Lru CidV (AnyNode * Z) L}.
Local Abbreviation Cand := FinalizedClaimCandidate.

(** The manifest tip of the document's line for [head]. *)
Definition docTip (head : string) (c : Cand) : Cid :=
  match List.find (fun e => bool_decide (he_Name e = head)) (Heads (d_Unsigned (Document c))) with
  | Some e => match parseManifestTip e with Ok t => t | Err _ => Undef end
  | None => Undef
  end.

(** A loader over documents gives the claims their lines make. *)
Lemma loader_claims {W} (Inv : W -> Prop) (load : Cid -> M W Info) head (headOf : Cand -> hmodel) c w r w' :
  loader_ok Inv load -> publishes (Document c) head (headOf c) -> Inv w ->
  loadFinalizedClaimWithHead load head (Document c) w = (r, w') ->
  Inv w' /\ match r with Ok l => claim_of headOf (docTip head) c l | Err _ => True end.
Proof.
  intros Hload Hp HI H. split.
  - assert (Hm : moves (fun w w' => Inv w -> Inv w') (loadFinalizedClaimWithHead load head (Document c))); [|by eapply Hm].
    assert (PreOrder (fun w w' => Inv w -> Inv w')) by (split; [by intros ?|intros ? ? ?; auto]).
    assert (forall c, moves (fun w w' => Inv w -> Inv w') (load c)) by (intros c0 x y z Hz; by eapply lo_inv).
    unfold loadFinalizedClaimWithHead. moves_tac.
  - destruct r as [l|]; [|done]. split; [by eapply publishes_claims|].
    apply loadClaim_inv in H as (_ & _ & Hf & _ & _ & _ & Ht & _). unfold docTip. by rewrite Hf, Ht.
Qed.

(** ** Admission *)

Local Abbreviation Eng := (@Engine MH Sto L).


(** The memo holds what a load of the root would report. *)
Definition adm_ok (a : admissions) : Prop :=
  forall key i m, ad_roots a !! key = Some (Ok i) -> head_ok m -> model_root m = Some key -> i = info_of m.

Lemma admitted_info cfg m (h : Eng) x h' :
  head_ok m -> engine_inv h -> (Engine.Load (model_root m) ;;; Enumerate cfg) h = (Ok x, h') -> InfoOf h' = info_of m.
Proof.
  intros Hok HI H. apply bind_run_ok in H as ([] & h1 & Hl & He). apply (Load_head_run m) in Hl; [|done..].
  assert (PreOrder (fun _ _ : Sto => True)) by done.
  apply (Enumerate_frame (fun _ _ => True)) in He as [Hc _]; [|done..]. rewrite <- (represents_info h1 m Hl).
  unfold InfoOf. by rewrite Hc.
Qed.

Lemma admitRoot_ok cfg : loader_ok (fun w => adm_ok (snd w)) (@admitRoot MH CB Sto BS L cfg).
Proof.
  split.
  - intros m [s a] i w' Hok HI H. simpl in HI. unfold admitRoot in H. destruct (model_root m) as [key|] eqn:Ek; [|done]. cbn [fst snd] in H.
    destruct (ad_roots a !! key) as [r|] eqn:Ea; [injection H as -> <-; by eapply HI|].
    rewrite <- Ek in H. destruct ((Engine.Load _ ;;; _) _) as [r h] eqn:E. destruct r as [x|]; [|done]. injection H as <- <-.
    eapply (admitted_info cfg m); [done| |exact E]. done.
  - intros c [s a] r w' H HI. simpl in HI. unfold admitRoot in H. destruct c as [key|]; [|by injection H as <- <-]. cbn [fst snd] in H.
    destruct (ad_roots a !! key) as [r0|] eqn:Ea; [by injection H as <- <-|].
    destruct ((Engine.Load _ ;;; _) _) as [x h] eqn:E. injection H as <- <-.
    intros k i m Hk Hok Hr. simpl in Hk. apply lookup_insert_Some in Hk as [[<- Hi]|[_ Hk]]; [|by eapply HI].
    rewrite <- Hr in E. destruct x as [x|]; [|done]. injection Hi as <-. eapply (admitted_info cfg m); [done| |exact E]. done.
Qed.

Local Abbreviation SelectFinalizedClaim := (@SelectFinalizedClaim MH CB CT ED Sto Scr BS SS SC L LR).

Context (cfg : @Config MH Sto) (head : string) (cands : list Cand) (headOf : Cand -> hmodel).

(** [SelectFinalizedClaim] ends in the decision on a final state of the pairs. *)
Lemma Select_run (s : Sto) out s' :
  Forall (fun c => publishes (Document c) head (headOf c)) cands ->
  SelectFinalizedClaim cfg head cands s = (Ok out, s') ->
  let ordered := orderCandidates cands in
  ordered <> [] /\ NoDup (SourceID <$> ordered) /\ Forall (fun c => c ∈ cands) ordered /\ (forall c, c ∈ cands -> c ∈ ordered) /\
  ((exists fs, out = EvaluationError fs /\ fs <> [] /\ Forall (external_failure cands) fs) \/
   exists loaded st seen, pinv cands headOf (docTip head) ordered loaded seen st /\
     (forall p, p ∈ indexPairs (length ordered) -> p ∈ seen) /\ length loaded = length ordered /\
     (forall i c l, ordered !! i = Some c -> loaded !! i = Some (Some l) -> claim_of headOf (docTip head) c l) /\
     out = decideSelection ordered st).
Proof.
  intros Hp H. unfold SelectFinalizedClaim, Arbitration.SelectFinalizedClaim in H.
  destruct (selectFinalizedClaim _ _ _ _) as [r w] eqn:E. injection H as -> <-.
  eapply (select_run cands headOf (docTip head) adm_ok) in E as (Hne & Hnd & Hout).
  - split; [done|]. split; [done|]. split; [|split; [|done]].
    + apply Forall_forall. intros c Hc. by rewrite orderCandidates_perm in Hc.
    + intros c Hc. by rewrite orderCandidates_perm.
  - intros c w0 r w' Hc Hl HI. rewrite Forall_forall in Hp. eapply (loader_claims (fun w => adm_ok (snd w))) in Hl; [exact Hl|apply admitRoot_ok|auto|done].
  - intros k i m Hk. simpl in Hk. by rewrite lookup_empty in Hk.
Qed.

(** C6: The selected claim is the maximum: every candidate's head is a past of the
    representative's and its manifest an ancestor, unless a reported failure blames
    that candidate; the equivalent sources name the same head and manifest; and a
    conflict is only reported between candidates that do conflict. *)
Theorem selection_is_maximum (s : Sto) out s' :
  Forall (fun c => publishes (Document c) head (headOf c)) cands ->
  SelectFinalizedClaim cfg head cands s = (Ok out, s') ->
  match out with
  | Selected rep eqs unav =>
      rep ∈ cands /\ rep ∈ eqs /\
      Forall (fun c => c ∈ cands /\ cand_same headOf (docTip head) c rep) eqs /\
      forall c, c ∈ cands -> cand_le headOf (docTip head) c rep \/ exists f, f ∈ unav /\ blames f c
  | ConflictError es => es <> [] /\
      Forall (fun e => pe_Left e ∈ cands /\ pe_Right e ∈ cands /\
                       conflicting headOf (docTip head) (pe_Left e) (pe_Right e)) es
  | _ => True
  end.
Proof.
  intros Hp H. apply Select_run in H as (_ & _ & Hin & Hall & H); [|done].
  destruct H as [(fs & -> & _)|(loaded & st & seen & HP & Hseen & Hlen & Hcl & ->)]; [done|].
  destruct (decideSelection _ st) as [rep eqs unav|es|ps|fs] eqn:Ed; [| |done|done].
  - eapply selected_spec in Ed as (? & ? & ? & Hc); [|done..]. split; [done|]. split; [done|]. split; [done|]. auto.
  - unfold decideSelection in Ed. destruct (ps_conflicts st) as [|c cs] eqn:Ec.
    + destruct (pick _ _); [unfold noWinner in Ed; repeat case_match; done|]. destruct (unequalWinners _ _) as [[? ?]|]; done.
    + injection Ed as <-. split; [done|]. rewrite <- Ec. apply (pi_conflicts _ _ _ _ _ _ _ HP).
Qed.

(** Arbitration decides: when content addresses form no cycle among the
    candidates' manifests, a selection that selects nothing and found no conflict
    names pairs that are incomparable, or failures that each blame a candidate; the
    internal errors (several unequal maxima, neither a maximum nor an incomparable
    pair) are not reached. *)
Theorem selection_decides (s : Sto) out s' :
  Forall (fun c => publishes (Document c) head (headOf c)) cands ->
  (forall a b, a ∈ cands -> b ∈ cands -> manifest_le (docTip head a) (docTip head b) ->
    manifest_le (docTip head b) (docTip head a) -> docTip head a = docTip head b) ->
  SelectFinalizedClaim cfg head cands s = (Ok out, s') ->
  match out with
  | IncomparableError ps => ps <> [] /\
      Forall (fun e => pe_Left e ∈ cands /\ pe_Right e ∈ cands /\
                       incomparable headOf (docTip head) (pe_Left e) (pe_Right e)) ps
  | EvaluationError fs => fs <> [] /\ Forall (external_failure cands) fs
  | _ => True
  end.
Proof.
  intros Hp Hac H. apply Select_run in H as (Hne & Hnd & Hin & _ & H); [|done].
  destruct H as [(fs & -> & ?)|(loaded & st & seen & HP & Hseen & Hlen & Hcl & ->)]; [done|].
  unfold decideSelection. destruct (ps_conflicts st) as [|c cs] eqn:Ec; [|done].
  erewrite unequal_none by done. destruct (pick _ _) eqn:Epk; [|done].
  pose proof (incomparable_spec cands headOf (docTip head) _ _ _ _ Hin HP Hseen Ec) as Hinc.
  eapply noWinner_spec in Epk; [|done..]. destruct (noWinner _ st) as [| |ps|] eqn:En; try done. split; [done|].
  unfold noWinner in En. destruct (_ || _); [done|]. destruct (incomparablePairs _ _); [done|]. by injection En as <-.
Qed.

Lemma mfor_valid {W} cs (w : W) :
  (Forall (fun c => validateSourceID (SourceID c) = Ok tt) cs /\
   mfor (fun c => lift (validateSourceID (SourceID c))) cs w = (Ok tt, w)) \/
  (~ Forall (fun c => validateSourceID (SourceID c) = Ok tt) cs /\
   exists m, mfor (fun c => lift (validateSourceID (SourceID c))) cs w = (Err (EInvalid m), w)).
Proof.
  induction cs as [|c cs IH]; [left; split; [constructor|done]|]. cbn [mfor]. unfold bind at 1, lift.
  destruct (validateSourceID (SourceID c)) as [[]|e] eqn:E.
  - destruct IH as [[? ?]|[Hn [m Hm]]]; [left; split; [by constructor|done]|right]. split; [|by exists m].
    intros Hf. apply Hn. by inversion Hf.
  - right. split; [intros Hf; inversion Hf; congruence|]. unfold validateSourceID in E. repeat case_match; simplify_eq; eauto.
Qed.

(** The outcome does not depend on the order in which the observations are
    given: two orders of the same candidates give the same run, or are refused both
    before the store is touched. *)
Theorem selection_order_independent cands' (s : Sto) :
  cands ≡ₚ cands' ->
  SelectFinalizedClaim cfg head cands s = SelectFinalizedClaim cfg head cands' s \/
  exists m m', SelectFinalizedClaim cfg head cands s = (Err (EInvalid m), s) /\
               SelectFinalizedClaim cfg head cands' s = (Err (EInvalid m'), s).
Proof.
  intros Hperm. unfold SelectFinalizedClaim, Arbitration.SelectFinalizedClaim, selectFinalizedClaim.
  destruct (emptyStr head); [by left|]. rewrite <- (Permutation_length Hperm).
  destruct (Nat.eqb (length cands) 0); [by left|].
  set (w := (s, mkAdmissions ∅ ∅)). destruct (mfor_valid cands w) as [[Hv E]|[Hv [m E]]].
  2: { destruct (mfor_valid cands' w) as [[Hv' _]|[_ [m' E']]]; [by rewrite <- Hperm in Hv'|].
       rewrite (bind_eq_err _ _ _ _ _ E), (bind_eq_err _ _ _ _ _ E'). right. by exists m, m'. }
  destruct (mfor_valid cands' w) as [[_ E']|[Hv' _]]; [|by rewrite Hperm in Hv].
  rewrite (bind_eq_ok _ _ _ _ _ E), (bind_eq_ok _ _ _ _ _ E').
  destruct (repeatsSource (orderCandidates cands)) eqn:Hr.
  - assert (repeatsSource (orderCandidates cands') = true) as ->; [|by left].
    destruct (repeatsSource (orderCandidates cands')) eqn:Hr'; [done|].
    apply repeatsSource_false in Hr'; [|apply orderCandidates_sorted]. rewrite orderCandidates_perm, <- Hperm in Hr'.
    rewrite <- (orderCandidates_perm cands) in Hr'. apply repeatsSource_false in Hr'; [congruence|apply orderCandidates_sorted].
  - left. apply repeatsSource_false in Hr as Hnd; [|apply orderCandidates_sorted]. rewrite orderCandidates_perm in Hnd.
    rewrite <- (orderCandidates_unique _ _ Hperm Hnd), Hr. done.
Qed.
End Theorems.
