(* ===== verification/Wire.v ===== *)
(** Big-endian integers and slices: what the binary records of the follower are laid
    out with (encoding/binary, Go slices of byte slices).

    Proved: an integer of n bytes reads back, n bytes hold the integer they were read
    as, and a slice of a concatenation is the part it covers. *)
From S2P Require Import Prelude Cid Schema Ledger.

(** [b[lo:hi]], for [lo <= hi <= len(b)]. *)
Definition slice (lo hi : nat) (b : bytes) : bytes := take (hi - lo) (drop lo b).

(** binary.BigEndian.AppendUint16, AppendUint32: the low [n] bytes. *)
Fixpoint putBE (n : nat) (v : Z) : bytes :=
  match n with
  | O => []
  | S n' => byte_of_Z (Z.shiftr v (8 * Z.of_nat n')) :: putBE n' v
  end.
Definition AppendUint16 : Z -> bytes := putBE 2.
Definition AppendUint32 : Z -> bytes := putBE 4.

Lemma putBE_length n v : length (putBE n v) = n.
Proof. induction n; simpl; [done|by f_equal]. Qed.
Lemma PutUint64_putBE v : PutUint64 v = putBE 8 v.
Proof. reflexivity. Qed.
Lemma PutUint64_length v : length (PutUint64 v) = 8%nat.
Proof. done. Qed.

Lemma Uint64_acc l a : foldl (fun a x => a * 256 + byte_Z x) a l = a * 256 ^ Z.of_nat (length l) + Uint64 l.
Proof.
  unfold Uint64. revert a. induction l as [|x l IH]; intros a; [change (Z.of_nat (length [])) with 0; rewrite Z.pow_0_r; cbn; lia|].
  cbn [foldl length]. rewrite IH, (IH (0 * 256 + byte_Z x)), Nat2Z.inj_succ, Z.pow_succ_r by lia. lia.
Qed.
Lemma Uint64_cons x l : Uint64 (x :: l) = byte_Z x * 256 ^ Z.of_nat (length l) + Uint64 l.
Proof. unfold Uint64 at 1. cbn [foldl]. rewrite Uint64_acc. lia. Qed.

Lemma Uint64_range l : 0 <= Uint64 l < 256 ^ Z.of_nat (length l).
Proof.
  induction l as [|x l IH]; [done|]. rewrite Uint64_cons. cbn [length]. rewrite Nat2Z.inj_succ, Z.pow_succ_r by lia.
  pose proof (byte_Z_range x). nia.
Qed.

Lemma Uint64_put n v : Uint64 (putBE n v) = v mod 256 ^ Z.of_nat n.
Proof.
  induction n as [|n IH]; [simpl; by rewrite Z.mod_1_r|]. cbn [putBE]. rewrite Uint64_cons, putBE_length, IH, byte_Z_of_Z.
  rewrite Z.shiftr_div_pow2 by lia. rewrite Nat2Z.inj_succ, Z.pow_succ_r by lia.
  assert (E : 2 ^ (8 * Z.of_nat n) = 256 ^ Z.of_nat n) by (rewrite Z.pow_mul_r by lia; done). rewrite E.
  assert (0 < 256 ^ Z.of_nat n) by (apply Z.pow_pos_nonneg; lia).
  rewrite (Z.mul_comm 256), Z.rem_mul_r by lia. lia.
Qed.

Lemma Uint64_putBE n v : 0 <= v < 256 ^ Z.of_nat n -> Uint64 (putBE n v) = v.
Proof. intros H. rewrite Uint64_put. by apply Z.mod_small. Qed.

Lemma putBE_high n v k : putBE n (v + k * 256 ^ Z.of_nat n) = putBE n v.
Proof.
  revert k. induction n as [|n IH]; intros k; [done|]. cbn [putBE]. f_equal.
  - apply byte_Z_inj. rewrite !byte_Z_of_Z, !Z.shiftr_div_pow2 by lia.
    assert (E : 2 ^ (8 * Z.of_nat n) = 256 ^ Z.of_nat n) by (rewrite Z.pow_mul_r by lia; done). rewrite E.
    assert (0 < 256 ^ Z.of_nat n) by (apply Z.pow_pos_nonneg; lia).
    rewrite Nat2Z.inj_succ, Z.pow_succ_r by lia. rewrite (Z.mul_comm 256), Z.mul_assoc, (Z.mul_comm k), <- Z.mul_assoc, Z.mul_comm.
    rewrite Z.div_add by lia. by rewrite Z.mod_add by lia.
  - rewrite Nat2Z.inj_succ, Z.pow_succ_r by lia. rewrite Z.mul_assoc, IH. done.
Qed.

Lemma putBE_Uint64 l : putBE (length l) (Uint64 l) = l.
Proof.
  induction l as [|x l IH]; [done|]. cbn [length putBE]. rewrite Uint64_cons. f_equal.
  - apply byte_Z_inj. rewrite byte_Z_of_Z, Z.shiftr_div_pow2 by lia.
    assert (E : 2 ^ (8 * Z.of_nat (length l)) = 256 ^ Z.of_nat (length l)) by (rewrite Z.pow_mul_r by lia; done). rewrite E.
    assert (0 < 256 ^ Z.of_nat (length l)) by (apply Z.pow_pos_nonneg; lia). pose proof (Uint64_range l).
    rewrite Z.div_add_l by lia. rewrite Z.div_small by lia. rewrite Z.add_0_r. apply Z.mod_small, byte_Z_range.
  - rewrite Z.add_comm, putBE_high. exact IH.
Qed.

Lemma putBE_slice n l : length l = n -> putBE n (Uint64 l) = l.
Proof. intros <-. apply putBE_Uint64. Qed.

(** ** Slices *)

Lemma slice_length lo hi b : (hi <= length b)%nat -> length (slice lo hi b) = (hi - lo)%nat.
Proof. intros. unfold slice. rewrite length_take, length_drop. lia. Qed.
Lemma slice_skip n x l lo hi : length x = n -> (n <= lo)%nat -> slice lo hi (x ++ l) = slice (lo - n) (hi - n) l.
Proof.
  intros <- H. unfold slice. rewrite drop_app_ge by done. f_equal. lia.
Qed.
Lemma slice_here x l n : length x = n -> slice 0 n (x ++ l) = x.
Proof. intros <-. unfold slice. rewrite Nat.sub_0_r. by rewrite drop_0, take_app_length. Qed.
Lemma slice_all x n : length x = n -> slice 0 n x = x.
Proof. intros <-. unfold slice. rewrite Nat.sub_0_r. by rewrite drop_0, firstn_all. Qed.
Lemma slice_join lo mid hi b : (lo <= mid <= hi)%nat -> slice lo mid b ++ slice mid hi b = slice lo hi b.
Proof.
  intros H. unfold slice. replace (hi - lo)%nat with ((mid - lo) + (hi - mid))%nat by lia.
  rewrite <- (take_take_drop (drop lo b) (mid - lo) (hi - mid)). rewrite drop_drop. do 3 f_equal. lia.
Qed.

(** ** Records as the concatenation of their parts *)

Definition sumLen (parts : list bytes) : nat := list_sum (map length parts).

Lemma slice_part parts k x lo hi : parts !! k = Some x -> lo = sumLen (take k parts) -> hi = (lo + length x)%nat ->
  slice lo hi (concat parts) = x.
Proof.
  intros Hk -> ->. revert k Hk. induction parts as [|p parts IH]; intros [|k] Hk; try discriminate Hk.
  - injection Hk as ->. cbn [concat take]. unfold sumLen. cbn. by apply slice_here.
  - cbn [concat take]. unfold sumLen in *. cbn [map list_sum foldr]. cbn in Hk. specialize (IH k Hk).
    rewrite (slice_skip (length p)) by (done || (cbn; lia)). etransitivity; [|exact IH]. f_equal; unfold list_sum; cbn; lia.
Qed.

Lemma drop_part parts k x lo : parts !! k = Some x -> length parts = S k -> lo = sumLen (take k parts) -> drop lo (concat parts) = x.
Proof.
  intros Hk Hl ->. revert k Hk Hl. induction parts as [|p parts IH]; intros [|k] Hk Hl; try discriminate Hk.
  - injection Hk as ->. destruct parts; [|discriminate Hl]. cbn. by rewrite app_nil_r.
  - cbn in Hk, Hl. specialize (IH k Hk ltac:(lia)). cbn [concat take]. unfold sumLen in *. cbn [map]. cbn.
    rewrite drop_app_ge by (unfold list_sum; cbn; lia). etransitivity; [|exact IH]. f_equal. unfold list_sum. lia.
Qed.

(** The numbers of a record at their width. *)
Lemma Uint16_put v : 0 <= v < 65536 -> Uint64 (AppendUint16 v) = v.
Proof. intros. by apply (Uint64_putBE 2). Qed.
Lemma Uint32_put v : 0 <= v < 2 ^ 32 -> Uint64 (AppendUint32 v) = v.
Proof. intros. by apply (Uint64_putBE 4). Qed.
Lemma AppendUint16_length v : length (AppendUint16 v) = 2%nat.
Proof. done. Qed.
Lemma AppendUint32_length v : length (AppendUint32 v) = 4%nat.
Proof. done. Qed.

(** uint64 of the int64 of a uint64. *)
Lemma u64_int64 v : is_u64 v -> u64 (int64 v) = v.
Proof.
  intros [? ?]. unfold int64, u64. destruct (Z.ltb_spec v (2 ^ 63)); [apply Z.mod_small; lia|].
  symmetry. apply (Z.mod_unique_pos _ _ (-1)); lia.
Qed.
Lemma int64_range v : is_u64 v -> - 2 ^ 63 <= int64 v < 2 ^ 63.
Proof. intros [? ?]. unfold int64. destruct (Z.ltb_spec v (2 ^ 63)); lia. Qed.
Lemma Unix_time sec : Unix (time_Unix sec) = sec.
Proof. unfold Unix, time_Unix. apply Z.div_mul. lia. Qed.
