(* ===== verification/Checkpoint.v ===== *)
(** The follower's checkpoint records: the first part of follow/state.go.

    A checkpoint is the one durable fact a follower resumes a head from.  Four record
    versions exist: 1 and 2 hold the root and its floors, 3 and 4 hold the exact
    published lines (as canonical JSON) from which root and floors are projected.
    A time is stored as whole seconds.

    CheckpointCorrect.v proves that what was encoded decodes to what was meant and
    that a record of version 3 or 4 that decodes is the only encoding of what it
    decodes to. *)
From Stdlib Require Import Ascii.
From Stdlib Require String.
From S2P Require Import Prelude Cid Schema Core Engine Ledger Wire Json JsonDecode Publication PublicationJson Claims Arbitration.

(** The Go type [32]byte, of which [server.ArchiveID] is a named copy. *)
Abbreviation array32 := ArchiveID.
Definition isZero32 (a : array32) : bool := ArchiveID_IsZero a.

Lemma arr32_len l : Nat.eqb (length (take 32 (l ++ repeat Byte.x00 32))) 32 = true.
Proof. apply Nat.eqb_eq. rewrite length_take, length_app, repeat_length. lia. Qed.
(** [copy(a[:], l)] into a zero array. *)
Definition arr32 (l : bytes) : array32 := mkArchiveID (take 32 (l ++ repeat Byte.x00 32)) (arr32_len l).

Definition checkpointVersionV1 : Z := 1.
Definition checkpointVersionV2 : Z := 2.
Definition checkpointVersionV3 : Z := 3.
Definition checkpointVersionV4 : Z := 4.
Definition maxCheckpointHeadEntryBytes : Z := 1048576.

Section Checkpoint.
Context `{MH : Multihash} `{CC : !CidBytes} `{CT : !CidText}.

Record checkpoint : Type := mkCheckpoint {
  cp_root : Cid; cp_syncedTo : Z; cp_manifestTip : Cid; cp_updatedAt : Time;
  cp_kind : HeadKind; cp_authority : array32; cp_revision : Z; cp_digest : array32; cp_windowStart : Z;
  cp_version : Z; cp_selected : bool; cp_net : string; cp_archiveID : array32; cp_sourceID : string;
  cp_published : option HeadEntry; cp_handoff : option HeadEntry; cp_overlay : option HeadEntry }.

(** [Cid.Bytes] of a CID that may be undefined. *)
Definition rawCid (c : Cid) : bytes := match c with Some v => cid_bytes v | None => [] end.
Definition flagIf (b : bool) (bit : Z) : Z := if b then bit else 0.

(** ** Encoding *)

Definition encodeCheckpointV1 (cp : checkpoint) : bytes :=
  let root := rawCid (cp_root cp) in
  [byte_of_Z checkpointVersionV1; byte_of_Z (flagIf (Defined (cp_manifestTip cp)) 1)]
  ++ PutUint64 (cp_syncedTo cp) ++ PutUint64 (u64 (Unix (cp_updatedAt cp)))
  ++ AppendUint16 (len root) ++ root ++ rawCid (cp_manifestTip cp).

Definition kindByte (k : HeadKind) : Z :=
  if bool_decide (k = EmptyString) || bool_decide (k = FinalizedMonotonic) then 0
  else if bool_decide (k = UnfinalizedMutable) then 1 else 255.

Definition encodeCheckpointV2 (cp : checkpoint) : bytes :=
  let root := rawCid (cp_root cp) in
  [byte_of_Z checkpointVersionV2; byte_of_Z (flagIf (Defined (cp_manifestTip cp)) 1); byte_of_Z (kindByte (cp_kind cp)); Byte.x00]
  ++ PutUint64 (cp_syncedTo cp) ++ PutUint64 (u64 (Unix (cp_updatedAt cp)))
  ++ PutUint64 (cp_revision cp) ++ PutUint64 (cp_windowStart cp)
  ++ aid_bytes (cp_authority cp) ++ aid_bytes (cp_digest cp)
  ++ AppendUint16 (len root) ++ root ++ rawCid (cp_manifestTip cp).

Definition encodeCheckpointHeadEntry (entry : option HeadEntry) : res bytes :=
  match entry with
  | None => Ok []
  | Some e => let b := marshalEntry e in
    refuse_if maxCheckpointHeadEntryBytes <? len b with EInvalid "HeadEntry is too large" ;; Ok b
  end.

Definition present {A} (o : option A) : bool := negb (unset o).

Definition encodeCheckpointV3 (cp : checkpoint) : res bytes :=
  entry <-? encodeCheckpointHeadEntry (cp_published cp) ;;
  witness <-? encodeCheckpointHeadEntry (cp_handoff cp) ;;
  let flags := Z.lor (flagIf (cp_selected cp) 1) (Z.lor (flagIf (present (cp_published cp)) 2) (flagIf (present (cp_handoff cp)) 4)) in
  let net := string_bytes (cp_net cp) in
  Ok ([byte_of_Z checkpointVersionV3; byte_of_Z flags] ++ AppendUint16 (len net)
      ++ PutUint64 (u64 (Unix (cp_updatedAt cp))) ++ PutUint64 (cp_revision cp)
      ++ aid_bytes (cp_authority cp) ++ aid_bytes (cp_digest cp)
      ++ AppendUint32 (len entry) ++ AppendUint32 (len witness) ++ net ++ entry ++ witness).

Definition encodeCheckpointV4 (cp : checkpoint) : res bytes :=
  entry <-? encodeCheckpointHeadEntry (cp_published cp) ;;
  witness <-? encodeCheckpointHeadEntry (cp_handoff cp) ;;
  overlay <-? encodeCheckpointHeadEntry (cp_overlay cp) ;;
  let flags := Z.lor (flagIf (cp_selected cp) 1) (Z.lor (flagIf (present (cp_published cp)) 2)
                 (Z.lor (flagIf (present (cp_handoff cp)) 4) (flagIf (present (cp_overlay cp)) 8))) in
  let net := string_bytes (cp_net cp) in
  let source := string_bytes (cp_sourceID cp) in
  Ok ([byte_of_Z checkpointVersionV4; byte_of_Z flags] ++ AppendUint16 (len net)
      ++ [byte_of_Z (len source); Byte.x00; Byte.x00; Byte.x00]
      ++ PutUint64 (u64 (Unix (cp_updatedAt cp))) ++ PutUint64 (cp_revision cp)
      ++ aid_bytes (cp_archiveID cp) ++ aid_bytes (cp_authority cp) ++ aid_bytes (cp_digest cp)
      ++ AppendUint32 (len entry) ++ AppendUint32 (len witness) ++ AppendUint32 (len overlay)
      ++ source ++ net ++ entry ++ witness ++ overlay).

(** ** Normalization of the records that keep published lines *)

Definition set_projection (version : Z) (root : Cid) (syncedTo : Z) (tip : Cid) (kind : HeadKind) (windowStart : Z)
    (cp : checkpoint) : checkpoint :=
  mkCheckpoint root syncedTo tip (cp_updatedAt cp) kind (cp_authority cp) (cp_revision cp) (cp_digest cp) windowStart
    version (cp_selected cp) (cp_net cp) (cp_archiveID cp) (cp_sourceID cp) (cp_published cp) (cp_handoff cp) (cp_overlay cp).

(** The text put in place of the signature of a rebuilt document. *)
Definition proofDoc (version : Z) (net : string) (archiveID : option ArchiveID) (heads : list HeadEntry) (revision : Z) : Doc :=
  mkDoc (mkUnsigned version net archiveID "" [] (Some heads) (Some revision)) "checkpoint" "checkpoint" 0.

Definition normalizeProofCheckpoint (cp : checkpoint) (version : Z) : res checkpoint :=
  refuse_if emptyStr (cp_net cp) || (65535 <? len (string_bytes (cp_net cp))) with EInvalid "empty or oversized network" ;;
  refuse_if cp_revision cp =? 0 with EInvalid "publication revision 0" ;;
  refuse_if isZero32 (cp_authority cp) with EInvalid "empty publication authority" ;;
  match cp_published cp with
  | None =>
    refuse_if cp_selected cp with EInvalid "selected without a publication entry" ;;
    refuse_if present (cp_handoff cp) with EInvalid "handoff witness without a publication entry" ;;
    Ok (set_projection version Undef 0 Undef EmptyString 0 cp)
  | Some published =>
    match he_SyncedTo published with
    | None => Err (EInvalid "retained head is uncovered")
    | Some synced =>
      heads <-? (if bool_decide (EffectiveKind published = FinalizedMonotonic) then
                   refuse_if present (cp_handoff cp) with EInvalid "finalized head carries a handoff witness" ;; Ok [published]
                 else if bool_decide (EffectiveKind published = UnfinalizedMutable) then
                   match cp_handoff cp with
                   | None => Err (EInvalid "no same-document handoff witness")
                   | Some handoff => Ok [published; handoff]
                   end
                 else Err (EInvalid "unknown kind")) ;;
      let doc := if version =? checkpointVersionV4
                 then proofDoc LogicalArchiveDocVersion (cp_net cp) (Some (cp_archiveID cp)) heads (cp_revision cp)
                 else proofDoc DocVersion (cp_net cp) None heads (cp_revision cp) in
      _ <-? ValidateContract doc ;;
      match cid_Decode (he_Root published) with
      | None => Err (EInvalid "undecodable root")
      | Some root =>
        tip <-? parseManifestTip published ;;
        Ok (set_projection version (Some root) synced tip (EffectiveKind published) (default 0 (he_WindowStart published)) cp)
      end
    end
  end.

Definition normalizeCheckpointV3 (cp : checkpoint) : res checkpoint :=
  refuse_if negb (isZero32 (cp_archiveID cp)) || negb (emptyStr (cp_sourceID cp)) || present (cp_overlay cp)
    with EInvalid "checkpoint v3 carries source-set provenance" ;;
  normalizeProofCheckpoint cp checkpointVersionV3.

(** The overlay of a version 4 record, once the rest is normalized. *)
Definition checkOverlay (n : checkpoint) (overlay : HeadEntry) : res unit :=
  match cp_published n with
  | None => Err (EInvalid "empty publication carries an overlay")
  | Some published =>
    refuse_if negb (bool_decide (EffectiveKind published = UnfinalizedMutable)) with EInvalid "finalized publication carries an overlay" ;;
    refuse_if negb (bool_decide (EffectiveKind overlay = FinalizedMonotonic)) with EInvalid "overlay is not finalized-monotonic" ;;
    match he_SyncedTo overlay with
    | None => Err (EInvalid "overlay is uncovered")
    | Some synced =>
      _ <-? ValidateContract (proofDoc LogicalArchiveDocVersion (cp_net n) (Some (cp_archiveID n)) [overlay] (cp_revision n)) ;;
      refuse_if unset (cid_Decode (he_Root overlay)) with EInvalid "overlay has an undecodable root" ;;
      _ <-? parseManifestTip overlay ;;
      match he_WindowStart published with
      | None => Err (EInternal "contract established a window start")
      | Some ws => refuse_if (synced <? ws) && (1 <? sub64 ws synced) with EInvalid "overlay ends before the window starts" ;; Ok tt
      end
    end
  end.

Definition normalizeCheckpointV4 (cp : checkpoint) : res checkpoint :=
  refuse_if isZero32 (cp_archiveID cp) with EInvalid "empty archive ID" ;;
  _ <-? validateSourceID (cp_sourceID cp) ;;
  normalized <-? normalizeProofCheckpoint cp checkpointVersionV4 ;;
  match cp_overlay normalized with
  | None => Ok normalized
  | Some overlay => _ <-? checkOverlay normalized overlay ;; Ok normalized
  end.

Record authorityFloor : Type := mkFloor { fl_authority : array32; fl_revision : Z; fl_digest : array32 }.

Definition makeCheckpointV3 (net : string) (selected : bool) (published handoff : option HeadEntry) (updatedAt : Time)
    (publication : authorityFloor) : res checkpoint :=
  normalizeCheckpointV3 (mkCheckpoint Undef 0 Undef updatedAt FinalizedMonotonic (fl_authority publication)
    (fl_revision publication) (fl_digest publication) 0 checkpointVersionV3 selected net zeroID EmptyString published handoff None).
Definition makeCheckpointV4 (net : string) (archiveID : ArchiveID) (sourceID : string) (selected : bool)
    (published handoff overlay : option HeadEntry) (updatedAt : Time) (publication : authorityFloor) : res checkpoint :=
  normalizeCheckpointV4 (mkCheckpoint Undef 0 Undef updatedAt FinalizedMonotonic (fl_authority publication)
    (fl_revision publication) (fl_digest publication) 0 checkpointVersionV4 selected net archiveID sourceID published handoff overlay).

(** ** Admission to encoding *)

(** Fields only the records of versions 3 and 4 have. *)
Definition hasProofFields (cp : checkpoint) : bool :=
  present (cp_published cp) || present (cp_handoff cp) || present (cp_overlay cp)
  || negb (isZero32 (cp_archiveID cp)) || negb (emptyStr (cp_sourceID cp)).

Definition isKind (k : HeadKind) (l : list HeadKind) : bool := existsb (fun x => bool_decide (k = x)) l.

Definition validateCheckpointForEncoding (cp : checkpoint) (version : Z) : res unit :=
  if version =? checkpointVersionV1 then
    refuse_if negb (Defined (cp_root cp)) with EInvalid "undefined root" ;;
    refuse_if negb (cp_revision cp =? 0) with EInvalid "checkpoint v1 has a publication revision" ;;
    refuse_if negb (isKind (cp_kind cp) [EmptyString; FinalizedMonotonic]) with EInvalid "unsupported head kind" ;;
    refuse_if hasProofFields cp with EInvalid "checkpoint v1 carries v3 publication proof fields" ;; Ok tt
  else if version =? checkpointVersionV2 then
    refuse_if negb (Defined (cp_root cp)) with EInvalid "undefined root" ;;
    refuse_if cp_revision cp =? 0 with EInvalid "publication revision 0" ;;
    refuse_if isZero32 (cp_authority cp) with EInvalid "empty publication authority" ;;
    refuse_if negb (isKind (cp_kind cp) [EmptyString; FinalizedMonotonic; UnfinalizedMutable]) with EInvalid "unknown head kind" ;;
    refuse_if negb (bool_decide (cp_kind cp = UnfinalizedMutable)) && negb (cp_windowStart cp =? 0)
      with EInvalid "finalized head has a mutable window start" ;;
    refuse_if bool_decide (cp_kind cp = UnfinalizedMutable) && Defined (cp_manifestTip cp)
      with EInvalid "mutable head carries a manifest tip" ;;
    refuse_if hasProofFields cp with EInvalid "checkpoint v2 carries v3 publication proof fields" ;; Ok tt
  else if version =? checkpointVersionV3 then _ <-? normalizeCheckpointV3 cp ;; Ok tt
  else if version =? checkpointVersionV4 then _ <-? normalizeCheckpointV4 cp ;; Ok tt
  else Err (EInvalid "unknown checkpoint version").

Definition encodingVersion (cp : checkpoint) : Z :=
  if cp_version cp =? 0 then (if negb (cp_revision cp =? 0) then checkpointVersionV2 else checkpointVersionV1)
  else cp_version cp.

Definition encodeCheckpoint (cp : checkpoint) : res bytes :=
  let version := encodingVersion cp in
  _ <-? validateCheckpointForEncoding cp version ;;
  if version =? checkpointVersionV1 then Ok (encodeCheckpointV1 cp)
  else if version =? checkpointVersionV2 then Ok (encodeCheckpointV2 cp)
  else if version =? checkpointVersionV3 then encodeCheckpointV3 cp
  else if version =? checkpointVersionV4 then encodeCheckpointV4 cp
  else Err (EInvalid "refusing to encode checkpoint version").

(** ** Decoding *)

(** [b[i]], for a record already known to be long enough. *)
Definition at_ (i : nat) (b : bytes) : Z := default 0 (byte_Z <$> b !! i).
(** [b[i]&bit != 0] *)
Definition hasBit (b : Z) (bit : Z) : bool := negb (Z.land b bit =? 0).
Definition timeAt (lo : nat) (b : bytes) : Time := time_Unix (int64 (Uint64 (slice lo (lo + 8) b))).
Definition castCid (b : bytes) (what : string) : res CidV :=
  match cid_cast b with Some c => Ok c | None => Err (EInvalid what) end.

Definition decodeCheckpointV1 (b : bytes) : res checkpoint :=
  refuse_if (length b <? 20)%nat with EInvalid "checkpoint record is too short" ;;
  let rootLen := Z.to_nat (Uint64 (slice 18 20 b)) in
  refuse_if (length b <? 20 + rootLen)%nat with EInvalid "checkpoint record claims a longer root" ;;
  root <-? castCid (slice 20 (20 + rootLen) b) "undecodable root" ;;
  tip <-? (if hasBit (at_ 1 b) 1 then
             refuse_if (length b =? 20 + rootLen)%nat with EInvalid "the manifest tip is absent" ;;
             tip <-? castCid (drop (20 + rootLen) b) "undecodable manifest tip" ;; Ok (Some tip)
           else Ok Undef) ;;
  Ok (mkCheckpoint (Some root) (Uint64 (slice 2 10 b)) tip (timeAt 10 b) FinalizedMonotonic zeroID 0 zeroID 0
        checkpointVersionV1 true EmptyString zeroID EmptyString None None None).

Definition decodeCheckpointV2 (b : bytes) : res checkpoint :=
  refuse_if (length b <? 102)%nat with EInvalid "checkpoint v2 record is too short" ;;
  refuse_if negb (at_ 3 b =? 0) with EInvalid "non-zero reserved flags" ;;
  kind <-? (if at_ 2 b =? 0 then Ok FinalizedMonotonic else if at_ 2 b =? 1 then Ok UnfinalizedMutable
            else Err (EInvalid "unknown head kind")) ;;
  let revision := Uint64 (slice 20 28 b) in
  refuse_if revision =? 0 with EInvalid "publication revision 0" ;;
  let authority := arr32 (slice 36 68 b) in
  refuse_if isZero32 authority with EInvalid "empty publication authority" ;;
  let rootLen := Z.to_nat (Uint64 (slice 100 102 b)) in
  refuse_if (rootLen =? 0)%nat || (length b <? 102 + rootLen)%nat with EInvalid "checkpoint v2 record claims a longer root" ;;
  root <-? castCid (slice 102 (102 + rootLen) b) "undecodable root" ;;
  refuse_if negb (Z.ldiff (at_ 1 b) 1 =? 0) with EInvalid "unknown flags" ;;
  tip <-? (if hasBit (at_ 1 b) 1 then
             refuse_if (length b =? 102 + rootLen)%nat with EInvalid "the manifest tip is absent" ;;
             tip <-? castCid (drop (102 + rootLen) b) "undecodable manifest tip" ;; Ok (Some tip)
           else refuse_if negb (length b =? 102 + rootLen)%nat with EInvalid "trailing bytes without a manifest flag" ;; Ok Undef) ;;
  refuse_if bool_decide (kind = UnfinalizedMutable) && Defined tip with EInvalid "mutable head carries a manifest tip" ;;
  Ok (mkCheckpoint (Some root) (Uint64 (slice 4 12 b)) tip (timeAt 12 b) kind authority revision (arr32 (slice 68 100 b))
        (Uint64 (slice 28 36 b)) checkpointVersionV2 true EmptyString zeroID EmptyString None None None).

Definition decodeCheckpointHeadEntry (b : bytes) : res (option HeadEntry) :=
  match b with
  | [] => Ok None
  | _ =>
    match unmarshalEntry b with
    | None => Err (EInvalid "HeadEntry does not decode")
    | Some e => refuse_if negb (bool_decide (marshalEntry e = b)) with EInvalid "not in its canonical JSON encoding" ;; Ok (Some e)
    end
  end.

Definition decodeCheckpointV3 (b : bytes) : res checkpoint :=
  refuse_if (length b <? 92)%nat with EInvalid "checkpoint v3 record is too short" ;;
  let flags := at_ 1 b in
  refuse_if negb (Z.ldiff flags 7 =? 0) with EInvalid "unknown flags" ;;
  let netLen := Z.to_nat (Uint64 (slice 2 4 b)) in
  let entryLen := Z.to_nat (Uint64 (slice 84 88 b)) in
  let witnessLen := Z.to_nat (Uint64 (slice 88 92 b)) in
  refuse_if (maxCheckpointHeadEntryBytes <? Z.of_nat entryLen) || (maxCheckpointHeadEntryBytes <? Z.of_nat witnessLen)
    with EInvalid "oversized HeadEntry" ;;
  refuse_if (netLen =? 0)%nat || negb (length b =? 92 + netLen + entryLen + witnessLen)%nat with EInvalid "lengths do not match" ;;
  refuse_if negb (Bool.eqb (hasBit flags 2) (negb (entryLen =? 0)%nat)) || negb (Bool.eqb (hasBit flags 4) (negb (witnessLen =? 0)%nat))
    with EInvalid "flags disagree with lengths" ;;
  let entryStart := (92 + netLen)%nat in
  entry <-? decodeCheckpointHeadEntry (slice entryStart (entryStart + entryLen) b) ;;
  witness <-? decodeCheckpointHeadEntry (drop (entryStart + entryLen) b) ;;
  normalizeCheckpointV3 (mkCheckpoint Undef 0 Undef (timeAt 4 b) EmptyString (arr32 (slice 20 52 b)) (Uint64 (slice 12 20 b))
    (arr32 (slice 52 84 b)) 0 checkpointVersionV3 (hasBit flags 1) (bytes_string (slice 92 entryStart b)) zeroID EmptyString
    entry witness None).

Definition decodeCheckpointV4 (b : bytes) : res checkpoint :=
  refuse_if (length b <? 132)%nat with EInvalid "checkpoint v4 record is too short" ;;
  let flags := at_ 1 b in
  refuse_if negb (Z.ldiff flags 15 =? 0) with EInvalid "unknown flags" ;;
  refuse_if negb (at_ 5 b =? 0) || negb (at_ 6 b =? 0) || negb (at_ 7 b =? 0) with EInvalid "non-zero reserved bytes" ;;
  let netLen := Z.to_nat (Uint64 (slice 2 4 b)) in
  let sourceLen := Z.to_nat (at_ 4 b) in
  let entryLen := Z.to_nat (Uint64 (slice 120 124 b)) in
  let witnessLen := Z.to_nat (Uint64 (slice 124 128 b)) in
  let overlayLen := Z.to_nat (Uint64 (slice 128 132 b)) in
  refuse_if (maxCheckpointHeadEntryBytes <? Z.of_nat entryLen) || (maxCheckpointHeadEntryBytes <? Z.of_nat witnessLen)
    || (maxCheckpointHeadEntryBytes <? Z.of_nat overlayLen) with EInvalid "oversized HeadEntry" ;;
  refuse_if (sourceLen =? 0)%nat || (netLen =? 0)%nat
    || negb (length b =? 132 + sourceLen + netLen + entryLen + witnessLen + overlayLen)%nat with EInvalid "lengths do not match" ;;
  refuse_if negb (Bool.eqb (hasBit flags 2) (negb (entryLen =? 0)%nat)) || negb (Bool.eqb (hasBit flags 4) (negb (witnessLen =? 0)%nat))
    || negb (Bool.eqb (hasBit flags 8) (negb (overlayLen =? 0)%nat)) with EInvalid "flags disagree with lengths" ;;
  let netStart := (132 + sourceLen)%nat in
  let entryStart := (netStart + netLen)%nat in
  entry <-? decodeCheckpointHeadEntry (slice entryStart (entryStart + entryLen) b) ;;
  let witnessEnd := (entryStart + entryLen + witnessLen)%nat in
  witness <-? decodeCheckpointHeadEntry (slice (entryStart + entryLen) witnessEnd b) ;;
  overlay <-? decodeCheckpointHeadEntry (drop witnessEnd b) ;;
  normalizeCheckpointV4 (mkCheckpoint Undef 0 Undef (timeAt 8 b) EmptyString (arr32 (slice 56 88 b)) (Uint64 (slice 16 24 b))
    (arr32 (slice 88 120 b)) 0 checkpointVersionV4 (hasBit flags 1) (bytes_string (slice netStart entryStart b))
    (arr32 (slice 24 56 b)) (bytes_string (slice 132 netStart b)) entry witness overlay).

Definition decodeCheckpoint (b : bytes) : res checkpoint :=
  match b with
  | [] => Err (EInvalid "checkpoint record is too short")
  | v :: _ =>
    if byte_Z v =? checkpointVersionV1 then decodeCheckpointV1 b
    else if byte_Z v =? checkpointVersionV2 then decodeCheckpointV2 b
    else if byte_Z v =? checkpointVersionV3 then decodeCheckpointV3 b
    else if byte_Z v =? checkpointVersionV4 then decodeCheckpointV4 b
    else Err (EUnknownVersion "checkpoint" (byte_Z v))
  end.
End Checkpoint.
