(* ===== verification/CheckpointCorrect.v ===== *)
(** Checkpoints: the proofs about Checkpoint.v. *)
From Stdlib Require Import Ascii.
From Stdlib Require String.
From S2P Require Import Prelude Cid Schema Core Engine Ledger Wire Json JsonDecode Publication PublicationJson Claims Arbitration Checkpoint.

Section CheckpointCorrect.
Context `{MH : Multihash} `{CC : !CidBytes} `{CT : !CidText}.

(** ** Parts of a record *)

Lemma aid_length (a : array32) : length (aid_bytes a) = 32%nat.
Proof. apply Nat.eqb_eq, aid_len. Qed.
Lemma arr32_bytes (a : array32) : arr32 (aid_bytes a) = a.
Proof. apply aid_eq. unfold arr32. cbn. by rewrite take_app_length' by (by rewrite aid_length). Qed.
Lemma bytes_arr32 l : length l = 32%nat -> aid_bytes (arr32 l) = l.
Proof. intros H. unfold arr32. cbn [aid_bytes]. by rewrite take_app_length' by done. Qed.

Lemma flag_byte z : 0 <= z < 256 -> byte_Z (byte_of_Z z) = z.
Proof. intros. rewrite byte_Z_of_Z. by apply Z.mod_small. Qed.

(** The lengths of the parts of fixed width. *)
Ltac widths := try match goal with |- context [take _ ?p] => unfold p end; cbn [take sumLen map length]; unfold sumLen, list_sum; cbn [take map foldr length];
  rewrite ?PutUint64_length, ?AppendUint16_length, ?AppendUint32_length, ?aid_length; cbn; try lia.

(** A line is kept as its canonical JSON, which reads back. *)
Lemma headEntry_roundtrip o b : (forall e, o = Some e -> entry_ok e) -> encodeCheckpointHeadEntry o = Ok b ->
  decodeCheckpointHeadEntry b = Ok o /\ len b <= maxCheckpointHeadEntryBytes /\ present o = negb (length b =? 0)%nat.
Proof.
  intros Ho H. unfold encodeCheckpointHeadEntry in H. cbv zeta in H. destruct o as [e|]; [|injection H as <-; cbn; repeat split; unfold len, maxCheckpointHeadEntryBytes; cbn; lia].
  destruct (Z.ltb_spec maxCheckpointHeadEntryBytes (len (marshalEntry e))); [done|]. injection H as <-.
  pose proof (unmarshal_marshal e (Ho e eq_refl)) as Hu. pose proof (marshalEntry_nonempty e) as Hne.
  destruct (marshalEntry e) as [|x l] eqn:E; [done|]. split; [|done].
  unfold decodeCheckpointHeadEntry. rewrite Hu, E. by rewrite bool_decide_eq_true_2.
Qed.

Lemma headEntry_canonical b o : decodeCheckpointHeadEntry b = Ok o -> len b <= maxCheckpointHeadEntryBytes ->
  encodeCheckpointHeadEntry o = Ok b /\ present o = negb (length b =? 0)%nat.
Proof.
  intros H Hl. unfold decodeCheckpointHeadEntry in H. destruct b as [|x l]; [by injection H as <-|].
  destruct (unmarshalEntry _) as [e|]; [|done]. case_bool_decide as E; [|done]. injection H as <-.
  unfold encodeCheckpointHeadEntry. cbv zeta. rewrite E. by rewrite (proj2 (Z.ltb_ge _ _)) by done.
Qed.

(** ** What a record keeps *)

Definition wholeSeconds (cp : checkpoint) : checkpoint :=
  mkCheckpoint (cp_root cp) (cp_syncedTo cp) (cp_manifestTip cp) (time_Unix (Unix (cp_updatedAt cp)))
    (cp_kind cp) (cp_authority cp) (cp_revision cp) (cp_digest cp) (cp_windowStart cp) (cp_version cp) (cp_selected cp)
    (cp_net cp) (cp_archiveID cp) (cp_sourceID cp) (cp_published cp) (cp_handoff cp) (cp_overlay cp).

(** What a reader gets back: versions 1 and 2 keep the root and the floors, 3 and 4
    the lines and what is projected from them; every version keeps whole seconds. *)
Definition stored (cp : checkpoint) : res checkpoint :=
  let v := encodingVersion cp in
  if v =? checkpointVersionV1 then
    Ok (mkCheckpoint (cp_root cp) (cp_syncedTo cp) (cp_manifestTip cp) (time_Unix (Unix (cp_updatedAt cp))) FinalizedMonotonic
          zeroID 0 zeroID 0 v true EmptyString zeroID EmptyString None None None)
  else if v =? checkpointVersionV2 then
    Ok (mkCheckpoint (cp_root cp) (cp_syncedTo cp) (cp_manifestTip cp) (time_Unix (Unix (cp_updatedAt cp)))
          (if bool_decide (cp_kind cp = UnfinalizedMutable) then UnfinalizedMutable else FinalizedMonotonic)
          (cp_authority cp) (cp_revision cp) (cp_digest cp) (cp_windowStart cp) v true EmptyString zeroID EmptyString None None None)
  else if v =? checkpointVersionV3 then normalizeCheckpointV3 (wholeSeconds cp)
  else normalizeCheckpointV4 (wholeSeconds cp).

(** The Go types of the fields, and lines in valid UTF-8. *)
Record checkpoint_fits (cp : checkpoint) : Prop := {
  cf_synced : is_u64 (cp_syncedTo cp); cf_revision : is_u64 (cp_revision cp); cf_window : is_u64 (cp_windowStart cp);
  cf_time : - 2 ^ 63 <= Unix (cp_updatedAt cp) < 2 ^ 63;
  cf_root : len (rawCid (cp_root cp)) < 65536;
  cf_lines : forall e, cp_published cp = Some e \/ cp_handoff cp = Some e \/ cp_overlay cp = Some e -> entry_ok e }.

Lemma timeAt_put lo b sec : slice lo (lo + 8) b = PutUint64 (u64 sec) -> - 2 ^ 63 <= sec < 2 ^ 63 -> timeAt lo b = time_Unix sec.
Proof.
  intros E H. unfold timeAt. rewrite E, Uint64_PutUint64 by apply u64_range. by rewrite int64_u64.
Qed.

Lemma rawCid_defined c : Defined c = true -> exists v, c = Some v /\ rawCid c = cid_bytes v.
Proof. destruct c; [eauto|done]. Qed.
Lemma castCid_bytes v what : castCid (cid_bytes v) what = Ok v.
Proof. unfold castCid. by rewrite cast_bytes. Qed.

Lemma v1_roundtrip cp : checkpoint_fits cp -> Defined (cp_root cp) = true ->
  decodeCheckpoint (encodeCheckpointV1 cp) =
  Ok (mkCheckpoint (cp_root cp) (cp_syncedTo cp) (cp_manifestTip cp) (time_Unix (Unix (cp_updatedAt cp))) FinalizedMonotonic
        zeroID 0 zeroID 0 checkpointVersionV1 true EmptyString zeroID EmptyString None None None).
Proof.
  intros [Hs Hr Hw Ht Hroot _] Hd. unfold encodeCheckpointV1.
  apply rawCid_defined in Hd as (root & Ec & Er). rewrite Er in *. set (r := cid_bytes root) in *.
  set (tip := rawCid (cp_manifestTip cp)). set (hd := [byte_of_Z checkpointVersionV1; _]).
  set (parts := [hd; PutUint64 (cp_syncedTo cp); PutUint64 (u64 (Unix (cp_updatedAt cp))); AppendUint16 (len r); r; tip]).
  assert (Eb : hd ++ PutUint64 (cp_syncedTo cp) ++ PutUint64 (u64 (Unix (cp_updatedAt cp))) ++ AppendUint16 (len r) ++ r ++ tip = concat parts)
    by (unfold parts; cbn [concat]; by rewrite app_nil_r).
  rewrite Eb. change (decodeCheckpoint (concat parts)) with (decodeCheckpointV1 (concat parts)). unfold decodeCheckpointV1.
  assert (Hl : length (concat parts) = (20 + length r + length tip)%nat) by (rewrite <- Eb, !length_app; widths).
  rewrite Hl, (proj2 (Nat.ltb_ge _ _)) by lia.
  rewrite (slice_part parts 3 (AppendUint16 (len r))) by (reflexivity || widths).
  rewrite Uint16_put by (unfold len in *; lia). unfold len. rewrite Nat2Z.id.
  rewrite (proj2 (Nat.ltb_ge _ _)) by lia. rewrite (slice_part parts 4 r) by (reflexivity || widths).
  subst r. rewrite castCid_bytes. cbn [rbind].
  rewrite (slice_part parts 1 (PutUint64 (cp_syncedTo cp))) by (reflexivity || widths).
  rewrite Uint64_PutUint64 by done.
  erewrite (timeAt_put 10) by (done || (apply (slice_part parts 2); reflexivity || widths)).
  assert (Hf : at_ 1 (concat parts) = flagIf (Defined (cp_manifestTip cp)) 1) by (unfold at_; cbn; by destruct (cp_manifestTip cp)).
  rewrite Hf, Ec. destruct (cp_manifestTip cp) as [t|] eqn:Et; [|reflexivity]. cbn [Defined flagIf].
  change (hasBit 1 1) with true. cbv iota. unfold tip in *. cbn [rawCid] in *.
  pose proof (cid_bytes_nonempty t) as Hne. rewrite (proj2 (Nat.eqb_neq _ _)) by (destruct (cid_bytes t); [done|cbn; lia]).
  rewrite (drop_part parts 5 (cid_bytes t)) by (reflexivity || widths). by rewrite castCid_bytes.
Qed.

Lemma kindByte_known k : isKind k [EmptyString; FinalizedMonotonic; UnfinalizedMutable] = true ->
  kindByte k = if bool_decide (k = UnfinalizedMutable) then 1 else 0.
Proof.
  unfold isKind. cbn. rewrite !orb_true_iff, !bool_decide_eq_true. intros [->|[->|[->|?]]]; done.
Qed.

Lemma v2_roundtrip cp : checkpoint_fits cp -> validateCheckpointForEncoding cp checkpointVersionV2 = Ok tt ->
  decodeCheckpoint (encodeCheckpointV2 cp) =
  Ok (mkCheckpoint (cp_root cp) (cp_syncedTo cp) (cp_manifestTip cp) (time_Unix (Unix (cp_updatedAt cp)))
        (if bool_decide (cp_kind cp = UnfinalizedMutable) then UnfinalizedMutable else FinalizedMonotonic)
        (cp_authority cp) (cp_revision cp) (cp_digest cp) (cp_windowStart cp) checkpointVersionV2 true EmptyString zeroID EmptyString None None None).
Proof.
  intros [Hs Hr Hw Ht Hroot _] Hv. unfold validateCheckpointForEncoding in Hv. cbn [Z.eqb checkpointVersionV1 checkpointVersionV2 Pos.eqb] in Hv.
  destruct (Defined (cp_root cp)) eqn:Hd; [|done]. destruct (Z.eqb_spec (cp_revision cp) 0) as [|Hrev]; [done|].
  destruct (isZero32 (cp_authority cp)) eqn:Ha; [done|]. destruct (isKind (cp_kind cp) _) eqn:Hk; [|done].
  destruct (_ && _); [done|]. destruct (bool_decide (cp_kind cp = UnfinalizedMutable) && _) eqn:Hm; [done|]. clear Hv.
  unfold encodeCheckpointV2. apply rawCid_defined in Hd as (root & Ec & Er). rewrite Er in *. set (r := cid_bytes root) in *.
  set (tip := rawCid (cp_manifestTip cp)). set (hd := [byte_of_Z checkpointVersionV2; _; _; _]).
  set (parts := [hd; PutUint64 (cp_syncedTo cp); PutUint64 (u64 (Unix (cp_updatedAt cp))); PutUint64 (cp_revision cp);
                 PutUint64 (cp_windowStart cp); aid_bytes (cp_authority cp); aid_bytes (cp_digest cp); AppendUint16 (len r); r; tip]).
  match goal with |- decodeCheckpoint ?b = _ => assert (Eb : b = concat parts) by (unfold parts; cbn [concat]; by rewrite app_nil_r) end.
  rewrite Eb. change (decodeCheckpoint (concat parts)) with (decodeCheckpointV2 (concat parts)). unfold decodeCheckpointV2.
  assert (Hl : length (concat parts) = (102 + length r + length tip)%nat) by (rewrite <- Eb, !length_app; widths).
  rewrite Hl, (proj2 (Nat.ltb_ge _ _)) by lia. change (at_ 3 (concat parts) =? 0) with true. cbv iota beta zeta delta [negb].
  assert (Hkb : at_ 2 (concat parts) = if bool_decide (cp_kind cp = UnfinalizedMutable) then 1 else 0).
  { change (at_ 2 (concat parts)) with (byte_Z (byte_of_Z (kindByte (cp_kind cp)))). rewrite (kindByte_known _ Hk).
    by case_bool_decide. }
  rewrite Hkb. clear Hkb.
  assert (Ek : (if (if bool_decide (cp_kind cp = UnfinalizedMutable) then 1 else 0) =? 0 then Ok FinalizedMonotonic
                else if (if bool_decide (cp_kind cp = UnfinalizedMutable) then 1 else 0) =? 1 then Ok UnfinalizedMutable
                else Err (EInvalid "unknown head kind")) =
               Ok (if bool_decide (cp_kind cp = UnfinalizedMutable) then UnfinalizedMutable else FinalizedMonotonic) :> res HeadKind)
    by (by case_bool_decide).
  rewrite Ek. cbn [rbind]. clear Ek.
  rewrite (slice_part parts 3 (PutUint64 (cp_revision cp))), Uint64_PutUint64 by (done || widths).
  rewrite (proj2 (Z.eqb_neq _ _)) by done.
  rewrite (slice_part parts 5 (aid_bytes (cp_authority cp))), arr32_bytes, Ha by (reflexivity || widths).
  rewrite (slice_part parts 7 (AppendUint16 (len r))) by (reflexivity || widths).
  rewrite Uint16_put by (unfold len in *; lia). unfold len. rewrite Nat2Z.id.
  pose proof (cid_bytes_nonempty root) as Hrn. rewrite (proj2 (Nat.eqb_neq (length r) 0)) by (unfold r; destruct (cid_bytes root); [done|cbn; lia]).
  rewrite (proj2 (Nat.ltb_ge _ _)) by lia. cbn [orb]. rewrite (slice_part parts 8 r) by (reflexivity || widths).
  subst r. rewrite castCid_bytes. cbn [rbind].
  rewrite (slice_part parts 1 (PutUint64 (cp_syncedTo cp)) 4 12) by (reflexivity || widths).
  rewrite (slice_part parts 4 (PutUint64 (cp_windowStart cp)) 28 36) by (reflexivity || widths).
  rewrite !Uint64_PutUint64 by done.
  erewrite (timeAt_put 12) by (done || (apply (slice_part parts 2); reflexivity || widths)).
  rewrite (slice_part parts 6 (aid_bytes (cp_digest cp)) 68 100), arr32_bytes by (reflexivity || widths).
  assert (Hf : at_ 1 (concat parts) = flagIf (Defined (cp_manifestTip cp)) 1) by (unfold at_; cbn; by destruct (cp_manifestTip cp)).
  rewrite Hf, Ec. destruct (cp_manifestTip cp) as [t|] eqn:Et; cbn [Defined flagIf].
  - change (Z.ldiff 1 1 =? 0) with true. change (hasBit 1 1) with true. cbn [negb]. unfold tip in *. cbn [rawCid] in *.
    pose proof (cid_bytes_nonempty t) as Hne. rewrite (proj2 (Nat.eqb_neq _ _)) by (destruct (cid_bytes t); [done|cbn; lia]).
    rewrite (drop_part parts 9 (cid_bytes t)) by (reflexivity || widths). rewrite castCid_bytes. cbn [rbind Defined].
    rewrite andb_true_r in Hm. rewrite Hm. by rewrite bool_decide_eq_false_2 by done.
  - change (Z.ldiff 0 1 =? 0) with true. change (hasBit 0 1) with false. cbn [negb]. unfold tip. cbn [rawCid length].
    rewrite Nat.add_0_r, Nat.eqb_refl. cbn [negb rbind Defined]. by rewrite andb_false_r.
Qed.

(** ** Records with lines *)

(** What is projected from the lines does not matter before normalization. *)
Lemma normalize_projection cp v version root synced tip kind ws :
  normalizeProofCheckpoint (set_projection v root synced tip kind ws cp) version = normalizeProofCheckpoint cp version.
Proof. destruct cp. reflexivity. Qed.

Lemma normalizeV3_projection cp v root synced tip kind ws :
  normalizeCheckpointV3 (set_projection v root synced tip kind ws cp) = normalizeCheckpointV3 cp.
Proof. unfold normalizeCheckpointV3. rewrite normalize_projection. by destruct cp. Qed.
Lemma normalizeV4_projection cp v root synced tip kind ws :
  normalizeCheckpointV4 (set_projection v root synced tip kind ws cp) = normalizeCheckpointV4 cp.
Proof. unfold normalizeCheckpointV4. rewrite normalize_projection. by destruct cp. Qed.

(** Normalization only fills in the projection. *)
Lemma normalizeProof_inv cp version n : normalizeProofCheckpoint cp version = Ok n ->
  cp_revision cp <> 0 /\ cp_net cp <> EmptyString /\ len (string_bytes (cp_net cp)) <= 65535 /\
  exists root synced tip kind ws, n = set_projection version root synced tip kind ws cp.
Proof.
  unfold normalizeProofCheckpoint. destruct (emptyStr (cp_net cp)) eqn:En; [done|]. cbn [orb].
  destruct (Z.ltb_spec 65535 (len (string_bytes (cp_net cp)))) as [|Hl]; [done|].
  destruct (Z.eqb_spec (cp_revision cp) 0) as [|Hr]; [done|]. destruct (isZero32 (cp_authority cp)); [done|].
  intros H. split; [done|]. split; [unfold emptyStr in En; by apply bool_decide_eq_false_1 in En|]. split; [done|].
  destruct (cp_published cp) as [p|].
  - destruct (he_SyncedTo p) as [sy|]; [|done]. apply rbind_ok in H as (hs & _ & H). apply rbind_ok in H as (? & _ & H).
    destruct (cid_Decode (he_Root p)) as [root|]; [|done]. apply rbind_ok in H as (tip & _ & H). injection H as <-. eauto 10.
  - destruct (cp_selected cp); [done|]. destruct (present (cp_handoff cp)); [done|]. injection H as <-. eauto 10.
Qed.

(** Nor does the time. *)
Definition set_time (t : Time) (cp : checkpoint) : checkpoint :=
  mkCheckpoint (cp_root cp) (cp_syncedTo cp) (cp_manifestTip cp) t
    (cp_kind cp) (cp_authority cp) (cp_revision cp) (cp_digest cp) (cp_windowStart cp) (cp_version cp) (cp_selected cp)
    (cp_net cp) (cp_archiveID cp) (cp_sourceID cp) (cp_published cp) (cp_handoff cp) (cp_overlay cp).
Lemma normalize_time t cp version n : normalizeProofCheckpoint cp version = Ok n ->
  normalizeProofCheckpoint (set_time t cp) version = Ok (set_time t n).
Proof.
  destruct cp as [r sy tip ti k a rv dg ws v sel net ar src p h o]. unfold normalizeProofCheckpoint, set_time. cbn.
  repeat (destruct (_ || _); [done|]). repeat (destruct (_ =? _); [done|]). destruct (isZero32 a); [done|]. destruct p as [p|].
  - destruct (he_SyncedTo p); [|done]. intros (hs & -> & (x & Hx & H)%rbind_ok)%rbind_ok. cbn. rewrite Hx. cbn.
    destruct (cid_Decode (he_Root p)); [|done]. apply rbind_ok in H as (tp & -> & H). cbn. by injection H as <-.
  - destruct sel; [done|]. destruct (present h); [done|]. by intros [= <-].
Qed.
Lemma wholeSeconds_V3 cp n : normalizeCheckpointV3 cp = Ok n -> normalizeCheckpointV3 (wholeSeconds cp) = Ok (wholeSeconds n).
Proof.
  unfold normalizeCheckpointV3. change (wholeSeconds cp) with (set_time (time_Unix (Unix (cp_updatedAt cp))) cp).
  cbn [set_time cp_archiveID cp_sourceID cp_overlay]. destruct (_ || _); [done|]. intros H. pose proof H as Hn.
  apply normalizeProof_inv in H as (_ & _ & _ & r & s & t & k & w & ->). erewrite normalize_time by done. done.
Qed.
Lemma wholeSeconds_V4 cp n : normalizeCheckpointV4 cp = Ok n -> normalizeCheckpointV4 (wholeSeconds cp) = Ok (wholeSeconds n).
Proof.
  unfold normalizeCheckpointV4. change (wholeSeconds cp) with (set_time (time_Unix (Unix (cp_updatedAt cp))) cp).
  cbn [set_time cp_archiveID cp_sourceID]. destruct (isZero32 _); [done|]. intros (x & -> & H)%rbind_ok. cbn [rbind].
  apply rbind_ok in H as (m & Hm & H). erewrite normalize_time by done. cbn [rbind set_time cp_overlay].
  apply normalizeProof_inv in Hm as (_ & _ & _ & rr & ss & tt' & kk & ww & ->).
  destruct (cp_overlay _) as [o|]; [|by injection H as <-]. apply rbind_ok in H as (y & Hy & [= <-]).
  change (checkOverlay (set_time ?t ?m) o) with (checkOverlay m o). by rewrite Hy.
Qed.

Lemma normalizeV3_inv cp n : normalizeCheckpointV3 cp = Ok n ->
  cp_archiveID cp = zeroID /\ cp_sourceID cp = EmptyString /\ cp_overlay cp = None /\ normalizeProofCheckpoint cp checkpointVersionV3 = Ok n.
Proof.
  unfold normalizeCheckpointV3. destruct (isZero32 (cp_archiveID cp)) eqn:Ea; [|done]. destruct (emptyStr (cp_sourceID cp)) eqn:Es; [|done].
  destruct (cp_overlay cp); [done|]. cbn. intros H. repeat split; [|by apply bool_decide_eq_true_1 in Es|done].
  unfold isZero32, ArchiveID_IsZero in Ea. by apply bool_decide_eq_true_1 in Ea.
Qed.

Lemma normalizeV4_inv cp n : normalizeCheckpointV4 cp = Ok n ->
  validateSourceID (cp_sourceID cp) = Ok tt /\ normalizeProofCheckpoint cp checkpointVersionV4 = Ok n.
Proof.
  unfold normalizeCheckpointV4. destruct (isZero32 (cp_archiveID cp)); [done|]. intros ([] & Hs & H)%rbind_ok.
  apply rbind_ok in H as (m & Hm & H). split; [done|].
  destruct (cp_overlay m); [apply rbind_ok in H as (? & _ & H)|]; by injection H as <-.
Qed.

Lemma lines_flags a b c : 0 <= Z.lor (flagIf a 1) (Z.lor (flagIf b 2) (flagIf c 4)) < 256 /\
  let f := Z.lor (flagIf a 1) (Z.lor (flagIf b 2) (flagIf c 4)) in
  (Z.ldiff f 7 =? 0) = true /\ hasBit f 1 = a /\ hasBit f 2 = b /\ hasBit f 4 = c.
Proof. destruct a, b, c; (split; [split; vm_compute; (done || discriminate)|repeat split]). Qed.

Lemma u32_len (b : bytes) : len b <= maxCheckpointHeadEntryBytes -> 0 <= len b < 2 ^ 32.
Proof. unfold len, maxCheckpointHeadEntryBytes. lia. Qed.

Lemma net_length n : n <> EmptyString -> length (string_bytes n) <> O.
Proof. intros Hn E. apply length_zero_iff_nil in E. apply Hn. rewrite <- (bytes_string_bytes n), E. done. Qed.

Lemma v3_roundtrip cp b : checkpoint_fits cp -> is_ok (normalizeCheckpointV3 cp) = true -> encodeCheckpointV3 cp = Ok b ->
  decodeCheckpoint b = normalizeCheckpointV3 (wholeSeconds cp).
Proof.
  intros [_ Hr _ Ht _ Hl] Hn. destruct (normalizeCheckpointV3 cp) as [n|] eqn:En; [|done]. clear Hn.
  apply normalizeV3_inv in En as (Ha & Hs & Ho & En). apply normalizeProof_inv in En as (Hrev & Hnet & Hnl & _).
  intros H. unfold encodeCheckpointV3 in H. apply rbind_ok in H as (entry & He & H). apply rbind_ok in H as (witness & Hw & H).
  apply headEntry_roundtrip in He as (De & Le & Pe); [|auto]. apply headEntry_roundtrip in Hw as (Dw & Lw & Pw); [|auto].
  set (net := string_bytes (cp_net cp)) in *. pose proof (net_length _ Hnet : length net <> O) as Hn0.
  destruct (lines_flags (cp_selected cp) (present (cp_published cp)) (present (cp_handoff cp))) as (Hf & Hk & H1 & H2 & H4).
  set (flags := Z.lor _ _) in *. set (hd := [byte_of_Z checkpointVersionV3; byte_of_Z flags]) in H.
  set (parts := [hd; AppendUint16 (len net); PutUint64 (u64 (Unix (cp_updatedAt cp))); PutUint64 (cp_revision cp);
                 aid_bytes (cp_authority cp); aid_bytes (cp_digest cp); AppendUint32 (len entry); AppendUint32 (len witness);
                 net; entry; witness]).
  assert (Eb : b = concat parts) by (injection H as <-; unfold parts; cbn [concat]; by rewrite app_nil_r). clear H. subst b.
  change (decodeCheckpoint (concat parts)) with (decodeCheckpointV3 (concat parts)). unfold decodeCheckpointV3.
  assert (Hlen : length (concat parts) = (92 + length net + length entry + length witness)%nat)
    by (unfold parts; cbn [concat]; rewrite !length_app; widths).
  rewrite Hlen, (proj2 (Nat.ltb_ge _ _)) by lia.
  change (at_ 1 (concat parts)) with (byte_Z (byte_of_Z flags)). rewrite flag_byte, Hk by done. cbn [negb].
  rewrite (slice_part parts 1 (AppendUint16 (len net)) 2 4), (slice_part parts 6 (AppendUint32 (len entry)) 84 88),
    (slice_part parts 7 (AppendUint32 (len witness)) 88 92) by (reflexivity || widths).
  rewrite Uint16_put by (unfold len in *; lia). rewrite !Uint32_put by (by apply u32_len).
  unfold len in Le, Lw |- *. rewrite !Nat2Z.id. rewrite !(proj2 (Z.ltb_ge maxCheckpointHeadEntryBytes _)) by lia. cbn [orb].
  rewrite (proj2 (Nat.eqb_neq _ _)) by done. rewrite Nat.eqb_refl. cbn [negb orb].
  rewrite H2, H4, Pe, Pw, !eqb_reflx. cbn [negb orb].
  rewrite (slice_part parts 9 entry) by (reflexivity || widths). rewrite De. cbn [rbind].
  rewrite (drop_part parts 10 witness) by (reflexivity || widths). rewrite Dw. cbn [rbind].
  erewrite (timeAt_put 4) by (done || (apply (slice_part parts 2); reflexivity || widths)).
  rewrite (slice_part parts 4 (aid_bytes (cp_authority cp)) 20 52), (slice_part parts 3 (PutUint64 (cp_revision cp)) 12 20),
    (slice_part parts 5 (aid_bytes (cp_digest cp)) 52 84), (slice_part parts 8 net) by (reflexivity || widths).
  rewrite !arr32_bytes, Uint64_PutUint64, H1 by done. unfold net. rewrite bytes_string_bytes, <- Ha, <- Hs, <- Ho.
  rewrite <- (normalizeV3_projection (wholeSeconds cp) checkpointVersionV3 Undef 0 Undef EmptyString 0). by destruct cp.
Qed.

Lemma overlay_flags a b c d : let f := Z.lor (flagIf a 1) (Z.lor (flagIf b 2) (Z.lor (flagIf c 4) (flagIf d 8))) in
  0 <= f < 256 /\ (Z.ldiff f 15 =? 0) = true /\ hasBit f 1 = a /\ hasBit f 2 = b /\ hasBit f 4 = c /\ hasBit f 8 = d.
Proof. destruct a, b, c, d; (split; [split; vm_compute; (done || discriminate)|repeat split]). Qed.

Lemma sourceID_length s : validateSourceID s = Ok tt -> (0 < length (string_bytes s) <= 63)%nat.
Proof.
  unfold validateSourceID. cbv zeta. destruct (_ || _) eqn:E; [done|]. intros _. apply orb_false_iff in E as [E1 E2].
  unfold maxSourceIDBytes in *. apply Nat.eqb_neq in E1. apply Nat.ltb_ge in E2. lia.
Qed.

Lemma v4_roundtrip cp b : checkpoint_fits cp -> is_ok (normalizeCheckpointV4 cp) = true -> encodeCheckpointV4 cp = Ok b ->
  decodeCheckpoint b = normalizeCheckpointV4 (wholeSeconds cp).
Proof.
  intros [_ Hr _ Ht _ Hl] Hn. destruct (normalizeCheckpointV4 cp) as [n|] eqn:En; [|done]. clear Hn.
  apply normalizeV4_inv in En as (Hs%sourceID_length & En). apply normalizeProof_inv in En as (Hrev & Hnet & Hnl & _).
  intros H. unfold encodeCheckpointV4 in H. apply rbind_ok in H as (entry & He & H). apply rbind_ok in H as (witness & Hw & H).
  apply rbind_ok in H as (overlay & Ho & H).
  apply headEntry_roundtrip in He as (De & Le & Pe); [|auto]. apply headEntry_roundtrip in Hw as (Dw & Lw & Pw); [|auto].
  apply headEntry_roundtrip in Ho as (Do & Lo & Po); [|auto].
  set (net := string_bytes (cp_net cp)) in *. pose proof (net_length _ Hnet : length net <> O) as Hn0.
  set (source := string_bytes (cp_sourceID cp)) in *.
  destruct (overlay_flags (cp_selected cp) (present (cp_published cp)) (present (cp_handoff cp)) (present (cp_overlay cp)))
    as (Hf & Hk & H1 & H2 & H4 & H8). set (flags := Z.lor _ _) in *.
  set (hd := [byte_of_Z checkpointVersionV4; byte_of_Z flags]) in H. set (mid := [byte_of_Z (len source); Byte.x00; Byte.x00; Byte.x00]) in H.
  set (parts := [hd; AppendUint16 (len net); mid; PutUint64 (u64 (Unix (cp_updatedAt cp))); PutUint64 (cp_revision cp);
                 aid_bytes (cp_archiveID cp); aid_bytes (cp_authority cp); aid_bytes (cp_digest cp);
                 AppendUint32 (len entry); AppendUint32 (len witness); AppendUint32 (len overlay);
                 source; net; entry; witness; overlay]).
  assert (Eb : b = concat parts) by (injection H as <-; unfold parts; cbn [concat]; by rewrite app_nil_r). clear H. subst b.
  change (decodeCheckpoint (concat parts)) with (decodeCheckpointV4 (concat parts)). unfold decodeCheckpointV4.
  assert (Hlen : length (concat parts) = (132 + length source + length net + length entry + length witness + length overlay)%nat)
    by (unfold parts; cbn [concat]; rewrite !length_app; widths).
  rewrite Hlen, (proj2 (Nat.ltb_ge _ _)) by lia.
  change (at_ 1 (concat parts)) with (byte_Z (byte_of_Z flags)). rewrite flag_byte, Hk by done.
  change (at_ 4 (concat parts)) with (byte_Z (byte_of_Z (len source))). rewrite flag_byte by (unfold len; lia).
  change (at_ 5 (concat parts) =? 0) with true. change (at_ 6 (concat parts) =? 0) with true. change (at_ 7 (concat parts) =? 0) with true.
  cbn [negb orb].
  rewrite (slice_part parts 1 (AppendUint16 (len net)) 2 4), (slice_part parts 8 (AppendUint32 (len entry)) 120 124),
    (slice_part parts 9 (AppendUint32 (len witness)) 124 128), (slice_part parts 10 (AppendUint32 (len overlay)) 128 132) by (reflexivity || widths).
  rewrite Uint16_put by (unfold len in *; lia). rewrite !Uint32_put by (by apply u32_len).
  unfold len in Le, Lw, Lo |- *. rewrite !Nat2Z.id. rewrite !(proj2 (Z.ltb_ge maxCheckpointHeadEntryBytes _)) by lia. cbn [orb].
  rewrite (proj2 (Nat.eqb_neq (length source) _)), (proj2 (Nat.eqb_neq (length net) _)) by lia. rewrite Nat.eqb_refl. cbn [negb orb].
  rewrite H2, H4, H8, Pe, Pw, Po, !eqb_reflx. cbn [negb orb].
  rewrite (slice_part parts 13 entry) by (reflexivity || widths). rewrite De. cbn [rbind].
  rewrite (slice_part parts 14 witness) by (reflexivity || widths). rewrite Dw. cbn [rbind].
  rewrite (drop_part parts 15 overlay) by (reflexivity || widths). rewrite Do. cbn [rbind].
  erewrite (timeAt_put 8) by (done || (apply (slice_part parts 3); reflexivity || widths)).
  rewrite (slice_part parts 6 (aid_bytes (cp_authority cp)) 56 88), (slice_part parts 4 (PutUint64 (cp_revision cp)) 16 24),
    (slice_part parts 7 (aid_bytes (cp_digest cp)) 88 120), (slice_part parts 5 (aid_bytes (cp_archiveID cp)) 24 56),
    (slice_part parts 11 source 132), (slice_part parts 12 net (132 + length source)) by (reflexivity || widths).
  rewrite !arr32_bytes, Uint64_PutUint64, H1 by done. unfold net, source. rewrite !bytes_string_bytes.
  rewrite <- (normalizeV4_projection (wholeSeconds cp) checkpointVersionV4 Undef 0 Undef EmptyString 0). by destruct cp.
Qed.

Lemma checkpoint_reads cp b : checkpoint_fits cp -> encodeCheckpoint cp = Ok b ->
  decodeCheckpoint b = stored cp /\ is_ok (stored cp) = true.
Proof.
  intros Hf H. unfold encodeCheckpoint in H. apply rbind_ok in H as ([] & Hv & H). unfold stored.
  destruct (Z.eqb_spec (encodingVersion cp) checkpointVersionV1) as [E1|E1].
  - rewrite E1 in *. injection H as <-. split; [|done]. apply v1_roundtrip; [done|].
    unfold validateCheckpointForEncoding in Hv. cbn in Hv. by destruct (Defined (cp_root cp)).
  - destruct (Z.eqb_spec (encodingVersion cp) checkpointVersionV2) as [E2|E2].
    + rewrite E2 in *. injection H as <-. split; [|done]. by apply v2_roundtrip.
    + unfold validateCheckpointForEncoding in Hv. rewrite (proj2 (Z.eqb_neq _ _) E1), (proj2 (Z.eqb_neq _ _) E2) in Hv.
      destruct (Z.eqb_spec (encodingVersion cp) checkpointVersionV3) as [E3|E3].
      * apply rbind_ok in Hv as (n & Hn & _). split; [|by rewrite (wholeSeconds_V3 cp n Hn)].
        by eapply v3_roundtrip; [|rewrite Hn|].
      * destruct (_ =? checkpointVersionV4); [|done]. apply rbind_ok in Hv as (n & Hn & _).
        split; [|by rewrite (wholeSeconds_V4 cp n Hn)]. by eapply v4_roundtrip; [|rewrite Hn|].
Qed.

(** C28: A checkpoint reads back: what the encoder accepted decodes to what the record
    of its version keeps ([stored]), whatever the version. *)
Theorem checkpoint_roundtrip cp b : checkpoint_fits cp -> encodeCheckpoint cp = Ok b ->
  decodeCheckpoint b = stored cp /\ is_ok (stored cp) = true.
Proof. apply checkpoint_reads. Qed.

(** ** One encoding *)

Lemma normalizeV3_idem cp n : normalizeCheckpointV3 cp = Ok n -> normalizeCheckpointV3 n = Ok n.
Proof.
  intros H. pose proof H as Hn. apply normalizeV3_inv in H as (_ & _ & _ & H).
  apply normalizeProof_inv in H as (_ & _ & _ & r & s & t & k & w & ->). by rewrite normalizeV3_projection.
Qed.
Lemma normalizeV4_idem cp n : normalizeCheckpointV4 cp = Ok n -> normalizeCheckpointV4 n = Ok n.
Proof.
  intros H. pose proof H as Hn. apply normalizeV4_inv in H as (_ & H).
  apply normalizeProof_inv in H as (_ & _ & _ & r & s & t & k & w & ->). by rewrite normalizeV4_projection.
Qed.

Lemma flags_byte3 x : (Z.ldiff (byte_Z x) 7 =? 0) = true ->
  byte_of_Z (Z.lor (flagIf (hasBit (byte_Z x) 1) 1) (Z.lor (flagIf (hasBit (byte_Z x) 2) 2) (flagIf (hasBit (byte_Z x) 4) 4))) = x.
Proof. destruct x; vm_compute; (reflexivity || discriminate). Qed.
Lemma flags_byte4 x : (Z.ldiff (byte_Z x) 15 =? 0) = true ->
  byte_of_Z (Z.lor (flagIf (hasBit (byte_Z x) 1) 1) (Z.lor (flagIf (hasBit (byte_Z x) 2) 2)
    (Z.lor (flagIf (hasBit (byte_Z x) 4) 4) (flagIf (hasBit (byte_Z x) 8) 8)))) = x.
Proof. destruct x; vm_compute; (reflexivity || discriminate). Qed.

Lemma slice_number lo hi n b : (hi <= length b)%nat -> (hi - lo = n)%nat -> putBE n (Uint64 (slice lo hi b)) = slice lo hi b.
Proof. intros H Hn. apply putBE_slice. by rewrite slice_length. Qed.
Lemma slice_time lo b : (lo + 8 <= length b)%nat -> PutUint64 (u64 (Unix (timeAt lo b))) = slice lo (lo + 8) b.
Proof.
  intros H. unfold timeAt. rewrite Unix_time, u64_int64.
  - rewrite PutUint64_putBE. apply slice_number; lia.
  - pose proof (Uint64_range (slice lo (lo + 8) b)) as Hr. rewrite slice_length in Hr by lia.
    replace (lo + 8 - lo)%nat with 8%nat in Hr by lia. exact Hr.
Qed.
Lemma slice_array lo hi b : (hi <= length b)%nat -> (hi - lo = 32)%nat -> aid_bytes (arr32 (slice lo hi b)) = slice lo hi b.
Proof. intros H Hn. apply bytes_arr32. by rewrite slice_length. Qed.
Lemma slice_count n lo hi lo' hi' b : (hi <= length b)%nat -> (hi - lo = n)%nat -> (hi' <= length b)%nat ->
  (hi' - lo')%nat = Z.to_nat (Uint64 (slice lo hi b)) -> putBE n (len (slice lo' hi' b)) = slice lo hi b.
Proof.
  intros H Hn H' E. unfold len. rewrite slice_length, E, Z2Nat.id by (done || apply Uint64_range). by apply slice_number.
Qed.
Lemma drop_slice lo b : drop lo b = slice lo (length b) b.
Proof. unfold slice. rewrite firstn_all2; [done|]. rewrite length_drop. lia. Qed.

(** Adjacent slices. *)
Ltac join := repeat (rewrite slice_join by lia); rewrite slice_all by lia; reflexivity.

Lemma v3_canonical b cp : decodeCheckpointV3 b = Ok cp -> at_ 0 b = checkpointVersionV3 -> encodeCheckpoint cp = Ok b /\ cp_version cp = 3.
Proof.
  unfold decodeCheckpointV3. destruct (Nat.ltb_spec (length b) 92) as [|Hb]; [done|]. intros H Hv.
  destruct b as [|b0 [|b1 b']] eqn:Eb; [cbn in Hb; lia..|]. rewrite <- Eb in *.
  assert (E1 : at_ 1 b = byte_Z b1) by (by subst b). rewrite E1 in H.
  assert (E0 : byte_of_Z checkpointVersionV3 = b0) by (rewrite <- Hv; subst b; cbn; apply byte_of_Z_byte).
  destruct (Z.ldiff (byte_Z b1) 7 =? 0) eqn:Ef; [|done]. apply flags_byte3 in Ef. cbn [negb] in H.
  set (netLen := Z.to_nat (Uint64 (slice 2 4 b))) in *. set (entryLen := Z.to_nat (Uint64 (slice 84 88 b))) in *.
  set (witnessLen := Z.to_nat (Uint64 (slice 88 92 b))) in *.
  destruct (Z.ltb_spec maxCheckpointHeadEntryBytes (Z.of_nat entryLen)) as [|Le]; [done|].
  destruct (Z.ltb_spec maxCheckpointHeadEntryBytes (Z.of_nat witnessLen)) as [|Lw]; [done|]. cbn [orb] in H.
  destruct (Nat.eqb_spec netLen 0) as [|Hn0]; [done|]. cbn [orb] in H.
  destruct (Nat.eqb_spec (length b) (92 + netLen + entryLen + witnessLen)) as [Hl|]; [|done]. cbn [negb] in H.
  destruct (_ || _) eqn:Eg; [done|]. apply orb_false_iff in Eg as [Ge%negb_false_iff%eqb_prop Gw%negb_false_iff%eqb_prop].
  apply rbind_ok in H as (entry & De & H). apply rbind_ok in H as (witness & Dw & H). rewrite drop_slice in Dw.
  apply headEntry_canonical in De as [Ce Pe]; [|unfold len; rewrite slice_length by lia; lia].
  apply headEntry_canonical in Dw as [Cw Pw]; [|unfold len; rewrite slice_length by lia; lia].
  pose proof (normalizeV3_idem _ _ H) as Hi. apply normalizeV3_inv in H as (_ & _ & _ & H).
  apply normalizeProof_inv in H as (_ & _ & _ & r & s & t & k & w & ->). split; [|done].
  unfold encodeCheckpoint, validateCheckpointForEncoding. change (encodingVersion _) with 3. cbn [Z.eqb Pos.eqb checkpointVersionV1 checkpointVersionV2 checkpointVersionV3].
  rewrite Hi. cbn [rbind]. unfold encodeCheckpointV3. cbn [set_projection cp_published cp_handoff cp_selected cp_net cp_updatedAt cp_revision cp_authority cp_digest].
  rewrite Ce, Cw. cbn [rbind]. cbv zeta. rewrite string_bytes_string. f_equal.
  rewrite Pe, Pw, !slice_length by lia. replace (92 + netLen + entryLen - (92 + netLen))%nat with entryLen by lia.
  replace (length b - (92 + netLen + entryLen))%nat with witnessLen by lia. rewrite <- Ge, <- Gw, Ef, E0.
  assert (E2 : [b0; b1] = slice 0 2 b) by (by subst b). rewrite E2.
  unfold AppendUint16, AppendUint32. rewrite slice_time, !slice_array by lia. rewrite PutUint64_putBE, (slice_number 12 20) by lia.
  rewrite (slice_count 2 2 4), (slice_count 4 84 88), (slice_count 4 88 92) by lia. cbn [Nat.add].
  join.
Qed.

Lemma v4_canonical b cp : decodeCheckpointV4 b = Ok cp -> at_ 0 b = checkpointVersionV4 -> encodeCheckpoint cp = Ok b /\ cp_version cp = 4.
Proof.
  unfold decodeCheckpointV4. destruct (Nat.ltb_spec (length b) 132) as [|Hb]; [done|]. intros H Hv.
  destruct b as [|b0 [|b1 [|b2 [|b3 [|b4 [|b5 [|b6 [|b7 b']]]]]]]] eqn:Eb; [cbn in Hb; lia..|]. rewrite <- Eb in *.
  assert (E1 : at_ 1 b = byte_Z b1 /\ at_ 4 b = byte_Z b4 /\ at_ 5 b = byte_Z b5 /\ at_ 6 b = byte_Z b6 /\ at_ 7 b = byte_Z b7)
    by (by subst b). destruct E1 as (-> & -> & -> & -> & ->) in H.
  assert (E0 : byte_of_Z checkpointVersionV4 = b0) by (rewrite <- Hv; subst b; cbn; apply byte_of_Z_byte).
  destruct (Z.ldiff (byte_Z b1) 15 =? 0) eqn:Ef; [|done]. apply flags_byte4 in Ef. cbn [negb] in H.
  assert (Hz : forall x, byte_Z x = 0 -> x = Byte.x00) by (intros x Hx; by apply byte_Z_inj).
  destruct (Z.eqb_spec (byte_Z b5) 0) as [->%Hz|]; [|done]. destruct (Z.eqb_spec (byte_Z b6) 0) as [->%Hz|]; [|done].
  destruct (Z.eqb_spec (byte_Z b7) 0) as [->%Hz|]; [|done]. cbn [negb orb] in H.
  set (netLen := Z.to_nat (Uint64 (slice 2 4 b))) in *. set (entryLen := Z.to_nat (Uint64 (slice 120 124 b))) in *.
  set (witnessLen := Z.to_nat (Uint64 (slice 124 128 b))) in *. set (overlayLen := Z.to_nat (Uint64 (slice 128 132 b))) in *.
  set (sourceLen := Z.to_nat (byte_Z b4)) in *.
  destruct (Z.ltb_spec maxCheckpointHeadEntryBytes (Z.of_nat entryLen)) as [|Le]; [done|].
  destruct (Z.ltb_spec maxCheckpointHeadEntryBytes (Z.of_nat witnessLen)) as [|Lw]; [done|].
  destruct (Z.ltb_spec maxCheckpointHeadEntryBytes (Z.of_nat overlayLen)) as [|Lo]; [done|]. cbn [orb] in H.
  destruct (Nat.eqb_spec sourceLen 0) as [|Hs0]; [done|]. destruct (Nat.eqb_spec netLen 0) as [|Hn0]; [done|]. cbn [orb] in H.
  destruct (Nat.eqb_spec (length b) (132 + sourceLen + netLen + entryLen + witnessLen + overlayLen)) as [Hl|]; [|done]. cbn [negb] in H.
  destruct (_ || _) eqn:Eg; [done|]. apply orb_false_iff in Eg as [[Ge%negb_false_iff%eqb_prop Gw%negb_false_iff%eqb_prop]%orb_false_iff Go%negb_false_iff%eqb_prop].
  apply rbind_ok in H as (entry & De & H). apply rbind_ok in H as (witness & Dw & H). apply rbind_ok in H as (overlay & Do & H).
  rewrite drop_slice in Do.
  apply headEntry_canonical in De as [Ce Pe]; [|unfold len; rewrite slice_length by lia; lia].
  apply headEntry_canonical in Dw as [Cw Pw]; [|unfold len; rewrite slice_length by lia; lia].
  apply headEntry_canonical in Do as [Co Po]; [|unfold len; rewrite slice_length by lia; lia].
  pose proof (normalizeV4_idem _ _ H) as Hi. apply normalizeV4_inv in H as (_ & H).
  apply normalizeProof_inv in H as (_ & _ & _ & r & s & t & k & w & ->). split; [|done].
  unfold encodeCheckpoint, validateCheckpointForEncoding. change (encodingVersion _) with 4.
  cbn [Z.eqb Pos.eqb checkpointVersionV1 checkpointVersionV2 checkpointVersionV3 checkpointVersionV4]. rewrite Hi. cbn [rbind].
  unfold encodeCheckpointV4. cbn [set_projection cp_published cp_handoff cp_overlay cp_selected cp_net cp_sourceID cp_archiveID cp_updatedAt
    cp_revision cp_authority cp_digest]. rewrite Ce, Cw, Co. cbn [rbind]. cbv zeta. rewrite !string_bytes_string. f_equal.
  rewrite Pe, Pw, Po. rewrite !(slice_length _ _ b) by lia.
  replace (132 + sourceLen + netLen + entryLen - (132 + sourceLen + netLen))%nat with entryLen by lia.
  replace (132 + sourceLen + netLen + entryLen + witnessLen - (132 + sourceLen + netLen + entryLen))%nat with witnessLen by lia.
  replace (length b - (132 + sourceLen + netLen + entryLen + witnessLen))%nat with overlayLen by lia. rewrite <- Ge, <- Gw, <- Go, Ef, E0.
  assert (E4 : byte_of_Z (len (slice 132 (132 + sourceLen) b)) = b4).
  { unfold len. rewrite slice_length by lia. pose proof (byte_Z_range b4). replace (Z.of_nat (132 + sourceLen - 132)) with (byte_Z b4) by lia.
    apply byte_of_Z_byte. }
  rewrite E4. assert (E2 : [b0; b1] = slice 0 2 b /\ [b4; Byte.x00; Byte.x00; Byte.x00] = slice 4 8 b) by (by subst b).
  destruct E2 as [-> ->]. unfold AppendUint16, AppendUint32. rewrite slice_time, !slice_array by lia.
  rewrite PutUint64_putBE, (slice_number 16 24) by lia.
  rewrite (slice_count 2 2 4), (slice_count 4 120 124), (slice_count 4 124 128), (slice_count 4 128 132) by lia. cbn [Nat.add].
  join.
Qed.

(** C29: One spelling of a proof: a record of version 3 or 4 that decodes is, byte for
    byte, what the encoder writes for the checkpoint it decodes to. *)
Theorem checkpoint_one_spelling b cp : decodeCheckpoint b = Ok cp -> cp_version cp = 3 \/ cp_version cp = 4 ->
  encodeCheckpoint cp = Ok b.
Proof.
  intros H Hv. destruct b as [|x b'] eqn:Eb; [done|]. unfold decodeCheckpoint in H.
  destruct (Z.eqb_spec (byte_Z x) checkpointVersionV1) as [E|_].
  { exfalso. unfold decodeCheckpointV1 in H. destruct (_ <? _)%nat; [done|]. destruct (_ <? _)%nat; [done|].
    apply rbind_ok in H as (? & _ & (? & _ & [= <-])%rbind_ok). cbn in Hv. unfold checkpointVersionV1 in Hv. lia. }
  destruct (Z.eqb_spec (byte_Z x) checkpointVersionV2) as [E|_].
  { exfalso. unfold decodeCheckpointV2 in H. repeat (destruct (_ <? _)%nat; [done|]). destruct (negb _); [done|].
    apply rbind_ok in H as (? & _ & H). destruct (_ =? 0); [done|]. destruct (isZero32 _); [done|]. destruct (_ || _); [done|].
    apply rbind_ok in H as (? & _ & H). destruct (negb _); [done|]. apply rbind_ok in H as (? & _ & H). destruct (_ && _); [done|].
    injection H as <-. cbn in Hv. unfold checkpointVersionV2 in Hv. lia. }
  destruct (Z.eqb_spec (byte_Z x) checkpointVersionV3) as [E|_]; [by eapply v3_canonical|].
  destruct (Z.eqb_spec (byte_Z x) checkpointVersionV4) as [E|_]; [by eapply v4_canonical|done].
Qed.
End CheckpointCorrect.
