(* ===== verification/FollowState.v ===== *)
(** The follower's durable memory: the second part of follow/state.go.

    Everything lives in one ordered key-value store under the byte 'f': one checkpoint
    per head, one revision floor per publication authority, the legacy freshness
    floor, the sequence floors of IPNS names, the DNSLink delegation and the proofs of
    verified segments.  A batch under construction is the list of its writes.  The
    names of IPNS (boxo/ipns) are a parameter. *)
From Stdlib Require Import Ascii.
From Stdlib Require String.
From S2P Require Import Prelude Cid Schema Core Engine Ledger Wire Json JsonDecode Publication PublicationJson Claims Arbitration Checkpoint.

(** [ipns.Name]: [NameFromString] accepts what [String] renders. *)
Class IpnsNames : Type := {
  IName : Type;
  IName_eq_dec :: EqDecision IName;
  iname_String : IName -> string;
  NameFromString : string -> option IName;
  NameFromString_String : forall n, NameFromString (iname_String n) = Some n;
  iname_nonempty : forall n, iname_String n <> EmptyString
}.

Definition prefixFollow : byte := Byte.x66. (* 'f' *)
Definition key (s : string) : bytes := prefixFollow :: string_bytes s.
Definition keyUpdatedAt : bytes := key "updated_at".
Definition keyIPNSSeq : bytes := key "ipns_seq".
Definition keyIPNSFloors : bytes := key "ipns_floors:v1".
Definition keyDelegation : bytes := key "delegation:v1".
Definition authorityFloorKey (authority : array32) : bytes := key "authority:v1:" ++ aid_bytes authority.
Definition checkpointKey (head : string) : bytes := key "checkpoint:" ++ string_bytes head.
Definition syncedToKey (head : string) : bytes := key "synced_to:" ++ string_bytes head.
Definition manifestKey (head : string) : bytes := key "manifest:" ++ string_bytes head.
Definition maxIPNSFloorNames : nat := 32.

Section FollowState.
Context `{MH : Multihash} `{CC : !CidBytes} `{CT : !CidText} {IN : IpnsNames} {K : Type} `{PB : !Pebble K}.
Local Abbreviation checkpoint := (@checkpoint MH).

Definition verifiedSegmentKey (c : CidV) : bytes := key "verified_segment:v1:" ++ cid_bytes c.

(** ** Full-verification proofs *)

Definition segmentVerified (c : CidV) : M K bool :=
  v <-- kv_get (verifiedSegmentKey c) ;;
  match v with
  | None => ret false
  | Some v => fail_if negb (bool_decide (v = [Byte.x01])) with EInvalid "invalid verification proof" ;; ret true
  end.
Definition markSegmentVerified (c : CidV) : M K unit := kv_set (verifiedSegmentKey c) [Byte.x01].

(** ** Numbers *)

Definition get (k : bytes) : M K (option Z) :=
  v <-- kv_get k ;;
  match v with
  | None => ret None
  | Some v => fail_if negb (length v =? 8)%nat with EInvalid "value is not 8 bytes" ;; ret (Some (Uint64 v))
  end.
Definition put (k : bytes) (v : Z) : M K unit := kv_set k (PutUint64 v).

Definition legacySyncedTo (head : string) : M K (option Z) := get (syncedToKey head).
Definition legacyManifestFloor (head : string) : M K Cid :=
  v <-- kv_get (manifestKey head) ;;
  match v with
  | None => ret Undef
  | Some v => c <-- lift (castCid v "undecodable legacy manifest floor") ;; ret (Some c)
  end.
Definition updatedAt : M K (option Time) :=
  v <-- get keyUpdatedAt ;; ret ((fun v => time_Unix (int64 v)) <$> v).

(** ** Authority floors *)

Definition encodeAuthorityFloor (floor : authorityFloor) : res bytes :=
  refuse_if isZero32 (fl_authority floor) || (fl_revision floor =? 0) with EInvalid "invalid publication authority floor" ;;
  Ok ([Byte.x01] ++ PutUint64 (fl_revision floor) ++ aid_bytes (fl_digest floor)).

Definition decodeAuthorityFloor (authority : array32) (v : bytes) : res authorityFloor :=
  refuse_if negb (length v =? 41)%nat || negb (at_ 0 v =? 1) with EInvalid "unsupported or truncated encoding" ;;
  let floor := mkFloor authority (Uint64 (slice 1 9 v)) (arr32 (drop 9 v)) in
  refuse_if fl_revision floor =? 0 with EInvalid "revision 0" ;; Ok floor.

Definition readAuthorityFloor (authority : array32) : M K (option authorityFloor) :=
  v <-- kv_get (authorityFloorKey authority) ;;
  match v with
  | None => ret None
  | Some v => f <-- lift (decodeAuthorityFloor authority v) ;; ret (Some f)
  end.

Definition stageAuthorityFloor (b : list kvop) (floor : authorityFloor) : M K (list kvop) :=
  current <-- readAuthorityFloor (fl_authority floor) ;;
  match current with
  | Some cur =>
    fail_if fl_revision floor <? fl_revision cur with EInvalid "refusing to lower the floor" ;;
    fail_if (fl_revision floor =? fl_revision cur) && negb (bool_decide (fl_digest floor = fl_digest cur))
      with EInvalid "conflicting digests at one revision" ;;
    encoded <-- lift (encodeAuthorityFloor floor) ;;
    ret (b ++ [KSet (authorityFloorKey (fl_authority floor)) encoded])
  | None =>
    encoded <-- lift (encodeAuthorityFloor floor) ;;
    ret (b ++ [KSet (authorityFloorKey (fl_authority floor)) encoded])
  end.

(** ** Checkpoints *)

Definition keepsLines (cp : checkpoint) : bool := (cp_version cp =? checkpointVersionV3) || (cp_version cp =? checkpointVersionV4).
Definition namesOther (head : string) (cp : checkpoint) : bool :=
  keepsLines cp && match cp_published cp with Some p => negb (bool_decide (he_Name p = head)) | None => false end.

Definition decodeCheckpointOf (head : string) (v : bytes) : res checkpoint :=
  cp <-? decodeCheckpoint v ;;
  refuse_if namesOther head cp with EInvalid "checkpoint retains another head's publication entry" ;; Ok cp.

Definition readCheckpoint (head : string) : M K (option checkpoint) :=
  v <-- kv_get (checkpointKey head) ;;
  match v with
  | None => ret None
  | Some v => cp <-- lift (decodeCheckpointOf head v) ;; ret (Some cp)
  end.

Definition stageCheckpoint (b : list kvop) (head : string) (cp : checkpoint) : res (list kvop) :=
  refuse_if emptyStr head with EInvalid "empty head name" ;;
  refuse_if Unix (cp_updatedAt cp) <? 0 with EInvalid "a document dated before 1970" ;;
  refuse_if namesOther head cp with EInvalid "publication entry of another head" ;;
  encoded <-? encodeCheckpoint cp ;;
  Ok (b ++ [KSet (checkpointKey head) encoded]).

(** Raises the legacy freshness floor in the batch, if [t] is later. *)
Definition stageUpdatedAt (b : list kvop) (t : Time) : M K (list kvop) :=
  cur <-- updatedAt ;;
  let later := match cur with None => true | Some cur => After t cur end in
  ret (if later then b ++ [KSet keyUpdatedAt (PutUint64 (u64 (Unix t)))] else b).

Definition putCheckpoint (head : string) (cp : checkpoint) : M K unit :=
  fail_if negb (Defined (cp_root cp)) with EInvalid "undefined root" ;;
  fail_if Unix (cp_updatedAt cp) <? 0 with EInvalid "a document dated before 1970" ;;
  b <-- lift (stageCheckpoint [] head cp) ;;
  b <-- (if cp_revision cp =? 0 then stageUpdatedAt b (cp_updatedAt cp) else ret b) ;;
  kv_commit b.

Definition stageRetireCheckpoint (b : list kvop) (head : string) : list kvop := b ++ [KDelete (checkpointKey head)].

(** ** IPNS sequence floors and the DNSLink delegation *)

Record ipnsFloor : Type := mkIpns { if_name : IName; if_seq : Z }.
Record delegation : Type := mkDelegation { dg_name : IName; dg_pubkey : bytes }.

Fixpoint encodeFloors (floors : list ipnsFloor) : res bytes :=
  match floors with
  | [] => Ok []
  | f :: rest =>
    let name := string_bytes (iname_String (if_name f)) in
    refuse_if (length name =? 0)%nat || (65535 <? len name) with EInvalid "invalid IPNS floor name" ;;
    tail <-? encodeFloors rest ;;
    Ok (AppendUint16 (len name) ++ name ++ PutUint64 (if_seq f) ++ tail)
  end.
Definition encodeIPNSFloors (floors : list ipnsFloor) : res bytes :=
  refuse_if (maxIPNSFloorNames <? length floors)%nat with EInvalid "too many IPNS floors" ;;
  tail <-? encodeFloors floors ;;
  Ok ([Byte.x01; byte_of_Z (len floors)] ++ tail).

Fixpoint decodeFloors (count : nat) (rest : bytes) : res (list ipnsFloor) :=
  match count with
  | O => refuse_if negb (length rest =? 0)%nat with EInvalid "trailing bytes" ;; Ok []
  | S count' =>
    refuse_if (length rest <? 2)%nat with EInvalid "truncated before its name" ;;
    let n := Z.to_nat (Uint64 (slice 0 2 rest)) in
    let rest := drop 2 rest in
    refuse_if (n =? 0)%nat || (length rest <? n + 8)%nat with EInvalid "invalid name length" ;;
    match NameFromString (bytes_string (slice 0 n rest)) with
    | None => Err (EInvalid "invalid name")
    | Some name => out <-? decodeFloors count' (drop (n + 8) rest) ;;
                   Ok (mkIpns name (Uint64 (slice n (n + 8) rest)) :: out)
    end
  end.
Definition decodeIPNSFloors (v : bytes) : res (list ipnsFloor) :=
  refuse_if (length v <? 2)%nat || negb (at_ 0 v =? 1) with EInvalid "unsupported or truncated encoding" ;;
  let count := Z.to_nat (at_ 1 v) in
  refuse_if (maxIPNSFloorNames <? count)%nat with EInvalid "too many IPNS floors" ;;
  decodeFloors count (drop 2 v).

Definition ipnsFloors : M K (list ipnsFloor) :=
  v <-- kv_get keyIPNSFloors ;;
  match v with
  | None => ret []
  | Some v => lift (decodeIPNSFloors v)
  end.

Definition findFloor (name : IName) (floors : list ipnsFloor) : option Z :=
  if_seq <$> List.find (fun f => bool_decide (if_name f = name)) floors.

Definition ipnsSeq (name : IName) (allowLegacy : bool) : M K (option Z) :=
  floors <-- ipnsFloors ;;
  match findFloor name floors with
  | Some seq => ret (Some seq)
  | None => if allowLegacy then get keyIPNSSeq else ret None
  end.

Definition encodeDelegation (d : delegation) : res bytes :=
  let name := string_bytes (iname_String (dg_name d)) in
  refuse_if (length name =? 0)%nat || (65535 <? len name) || negb (length (dg_pubkey d) =? 32)%nat with EInvalid "invalid DNSLink delegation" ;;
  Ok ([Byte.x01] ++ AppendUint16 (len name) ++ name ++ dg_pubkey d).

Definition decodeDelegation (v : bytes) : res delegation :=
  refuse_if (length v <? 3)%nat || negb (at_ 0 v =? 1) with EInvalid "unsupported or truncated encoding" ;;
  let n := Z.to_nat (Uint64 (slice 1 3 v)) in
  refuse_if (n =? 0)%nat || negb (length v =? 3 + n + 32)%nat with EInvalid "invalid name or signer length" ;;
  match NameFromString (bytes_string (slice 3 (3 + n) v)) with
  | None => Err (EInvalid "invalid IPNS name")
  | Some name => Ok (mkDelegation name (drop (3 + n) v))
  end.
Definition readDelegation : M K (option delegation) :=
  v <-- kv_get keyDelegation ;;
  match v with
  | None => ret None
  | Some v => d <-- lift (decodeDelegation v) ;; ret (Some d)
  end.

(** [append(out[:drop], out[drop+1:]...)] *)
Definition dropAt {A} (i : nat) (l : list A) : list A := take i l ++ drop (S i) l.

(** Over the bound the least recently used name goes, unless the delegation names it. *)
Definition evict (out : list ipnsFloor) : M K (list ipnsFloor) :=
  if (maxIPNSFloorNames <? length out)%nat then
    protected <-- readDelegation ;;
    let last := (length out - 1)%nat in
    let keep := match protected with
                | Some p => match out !! last with Some f => bool_decide (if_name f = dg_name p) | None => false end
                | None => false
                end in
    ret (dropAt (if keep then last - 1 else last) out)
  else ret out.

Definition setIPNSSeq (name : IName) (seq : Z) (allowLegacy : bool) : M K unit :=
  floors <-- ipnsFloors ;;
  let found := findFloor name floors in
  legacy <-- (match found with
              | None => if allowLegacy then get keyIPNSSeq else ret None
              | Some _ => ret None
              end) ;;
  let migrateLegacy := negb (unset legacy) in
  let cur := match found with Some c => Some c | None => legacy end in
  if match cur with Some cur => seq <? cur | None => false end then ret tt else
  let updated := mkIpns name (Z.max seq (default 0 cur)) in
  out <-- evict (updated :: List.filter (fun f => negb (bool_decide (if_name f = name))) floors) ;;
  encoded <-- lift (encodeIPNSFloors out) ;;
  kv_commit (KSet keyIPNSFloors encoded :: (if migrateLegacy then [KDelete keyIPNSSeq] else [])).

(** ** Document admission *)

(** The part of a plan that is made durable. *)
Record adoptPlan : Type := mkPlan { pl_name : string; pl_cp : checkpoint; pl_writeCheckpoint : bool }.

Definition sameGeneration (cp : checkpoint) (p : authorityFloor) : bool :=
  (cp_revision cp =? fl_revision p) && bool_decide (cp_authority cp = fl_authority p) && bool_decide (cp_digest cp = fl_digest p).

Definition checkPlan (publication : option authorityFloor) (name : string) (cp : checkpoint) : res unit :=
  refuse_if negb (Defined (cp_root cp)) && negb (keepsLines cp && negb (cp_selected cp)) with EInvalid "undefined root" ;;
  refuse_if Unix (cp_updatedAt cp) <? 0 with EInvalid "a document dated before 1970" ;;
  refuse_if unset publication && negb (cp_revision cp =? 0) with EInvalid "revisioned checkpoint without an authority floor" ;;
  refuse_if match publication with Some p => negb (sameGeneration cp p) | None => false end with EInvalid "another publication generation" ;;
  refuse_if negb (cp_revision cp =? 0) && isZero32 (cp_authority cp) with EInvalid "empty authority" ;; Ok tt.

Fixpoint stagePlans (publication : option authorityFloor) (b : list kvop) (plans : list adoptPlan) : res (list kvop) :=
  match plans with
  | [] => Ok b
  | plan :: rest =>
    if pl_writeCheckpoint plan then
      _ <-? checkPlan publication (pl_name plan) (pl_cp plan) ;;
      b <-? stageCheckpoint b (pl_name plan) (pl_cp plan) ;;
      stagePlans publication b rest
    else stagePlans publication b rest
  end.

Definition stageAdmission (b : list kvop) (plans : list adoptPlan) (t : Time) (d : option delegation)
    (publication : option authorityFloor) : M K (list kvop) :=
  fail_if Unix t <? 0 with EInvalid "a document dated before 1970" ;;
  b <-- lift (stagePlans publication b plans) ;;
  b <-- match publication with None => stageUpdatedAt b t | Some p => stageAuthorityFloor b p end ;;
  match d with
  | None => ret b
  | Some d => encoded <-- lift (encodeDelegation d) ;; ret (b ++ [KSet keyDelegation encoded])
  end.

Definition commitAdmission (plans : list adoptPlan) (t : Time) (d : option delegation) (publication : option authorityFloor) : M K unit :=
  b <-- stageAdmission [] plans t d publication ;; kv_commit b.

Definition commitAuthority (t : Time) (d : option delegation) : M K unit := commitAdmission [] t d None.
End FollowState.
