(* ===== verification/FollowStateCorrect.v ===== *)
(** The follower's durable memory: the proofs about FollowState.v.

    Proved: the admission of a document is atomic and reads back, and no sequence of
    operations, however they end, lowers a publication authority's floor or the
    freshness floor, or forgets the sequence floor of the delegated IPNS name. *)
From Stdlib Require Import Ascii.
From Stdlib Require String.
From S2P Require Import Prelude Cid Schema Core Engine Ledger Wire Json JsonDecode Publication PublicationJson Claims Arbitration Checkpoint CheckpointCorrect FollowState.

Section FollowStateCorrect.
Context `{MH : Multihash} `{CC : !CidBytes} `{CT : !CidText} {IN : IpnsNames} {K : Type} `{PB : !Pebble K} `{PO : !PebbleOk K}.
Local Abbreviation checkpoint := (@checkpoint MH).
Local Abbreviation KV := (gmap bytes bytes).

(** ** What a store holds *)

Definition floorOf (m : KV) (a : array32) : option authorityFloor :=
  v ← m !! authorityFloorKey a; match decodeAuthorityFloor a v with Ok f => Some f | Err _ => None end.
Definition numberOf (m : KV) (k : bytes) : option Z := v ← m !! k; if (length v =? 8)%nat then Some (Uint64 v) else None.
Definition freshnessOf (m : KV) : option Time := (fun v => time_Unix (int64 v)) <$> numberOf m keyUpdatedAt.
Definition checkpointOf (m : KV) (head : string) : option checkpoint :=
  v ← m !! checkpointKey head; match decodeCheckpointOf head v with Ok cp => Some cp | Err _ => None end.
Definition delegationOf (m : KV) : option delegation :=
  v ← m !! keyDelegation; match decodeDelegation v with Ok d => Some d | Err _ => None end.

(** ** Keys *)

Lemma key_ne a b x y : (exists i, is_Some (string_bytes a !! i) /\ is_Some (string_bytes b !! i) /\ string_bytes a !! i <> string_bytes b !! i) ->
  key a ++ x <> key b ++ y.
Proof.
  intros (i & [u Hu] & [v Hv] & Hne) E. unfold key in E. injection E as E. apply Hne. rewrite Hu, Hv.
  apply (f_equal (lookup i)) in E. rewrite !lookup_app_l in E by (eapply lookup_lt_Some; done). congruence.
Qed.

Lemma authorityKey_inj a b : authorityFloorKey a = authorityFloorKey b -> a = b.
Proof. unfold authorityFloorKey. intros E%app_inv_head. by apply aid_eq. Qed.
Lemma checkpointKey_inj a b : checkpointKey a = checkpointKey b -> a = b.
Proof.
  unfold checkpointKey. intros E%app_inv_head. rewrite <- (bytes_string_bytes a), E. apply bytes_string_bytes.
Qed.

Definition op_key (o : kvop) : bytes := match o with KSet k _ | KDelete k => k end.

Lemma applys_other (l : list kvop) (k : bytes) (m : KV) : Forall (fun o => op_key o <> k) l -> kv_applys l m !! k = m !! k.
Proof.
  unfold kv_applys. revert m. induction l as [|o l IH]; intros m; [done|]. intros [Ho Hl]%Forall_cons. cbn [foldl].
  rewrite IH by done. destruct o; cbn in *; [by rewrite lookup_insert_ne|by rewrite lookup_delete_ne].
Qed.
Lemma applys_app (l l' : list kvop) (m : KV) : kv_applys (l ++ l') m = kv_applys l' (kv_applys l m).
Proof. unfold kv_applys. by rewrite foldl_app. Qed.

(** ** Records read back *)

Lemma floor_roundtrip f v : is_u64 (fl_revision f) -> encodeAuthorityFloor f = Ok v -> decodeAuthorityFloor (fl_authority f) v = Ok f.
Proof.
  intros Hr. unfold encodeAuthorityFloor. destruct (_ || _) eqn:E; [done|]. apply orb_false_iff in E as [_ Ez].
  intros H. set (parts := [[Byte.x01]; PutUint64 (fl_revision f); aid_bytes (fl_digest f)]).
  assert (Eb : v = concat parts) by (injection H as <-; unfold parts; cbn [concat]; by rewrite app_nil_r). subst v. clear H.
  unfold decodeAuthorityFloor.
  assert (Hl : length (concat parts) = 41%nat)
    by (unfold parts; cbn [concat]; rewrite !length_app, PutUint64_length, aid_length; done). rewrite Hl.
  change (at_ 0 (concat parts) =? 1) with true. cbn [Nat.eqb negb orb]. cbv zeta.
  rewrite (slice_part parts 1 (PutUint64 (fl_revision f)) 1 9), (drop_part parts 2 (aid_bytes (fl_digest f))) by reflexivity.
  rewrite Uint64_PutUint64, arr32_bytes by done. cbn [fl_revision]. rewrite Ez. by destruct f.
Qed.

Lemma delegation_roundtrip d v : encodeDelegation d = Ok v -> decodeDelegation v = Ok d.
Proof.
  unfold encodeDelegation. cbv zeta. destruct (_ || _) eqn:E; [done|]. apply orb_false_iff in E as [[E1 E2]%orb_false_iff E3].
  apply Nat.eqb_neq in E1. apply Z.ltb_ge in E2. apply negb_false_iff, Nat.eqb_eq in E3.
  set (name := string_bytes (iname_String (dg_name d))) in *. intros H.
  set (parts := [[Byte.x01]; AppendUint16 (len name); name; dg_pubkey d]).
  assert (Eb : v = concat parts) by (injection H as <-; unfold parts; cbn [concat]; by rewrite app_nil_r). subst v. clear H.
  unfold decodeDelegation.
  assert (Hl : length (concat parts) = (3 + length name + 32)%nat)
    by (unfold parts; cbn [concat]; rewrite !length_app, E3; cbn; lia). rewrite Hl, (proj2 (Nat.ltb_ge _ _)) by lia.
  change (at_ 0 (concat parts) =? 1) with true. cbn [negb orb]. rewrite (slice_part parts 1 (AppendUint16 (len name)) 1 3) by reflexivity.
  rewrite Uint16_put by (unfold len in *; lia). unfold len. rewrite Nat2Z.id. rewrite (proj2 (Nat.eqb_neq (length name) 0)) by done.
  rewrite Nat.eqb_refl. cbn [negb orb]. rewrite (slice_part parts 2 name) by reflexivity.
  rewrite (drop_part parts 3 (dg_pubkey d)) by (reflexivity || (unfold parts; cbn; lia)). unfold name.
  rewrite bytes_string_bytes, NameFromString_String. by destruct d.
Qed.

(** A staged checkpoint is read back under its own head's name. *)
Lemma encodes_version cp b : encodeCheckpoint cp = Ok b -> 1 <= encodingVersion cp <= 4.
Proof.
  unfold encodeCheckpoint. intros (x & _ & H)%rbind_ok. unfold checkpointVersionV1, checkpointVersionV2, checkpointVersionV3, checkpointVersionV4 in H.
  destruct (Z.eqb_spec (encodingVersion cp) 1); [lia|]. destruct (Z.eqb_spec (encodingVersion cp) 2); [lia|].
  destruct (Z.eqb_spec (encodingVersion cp) 3); [lia|]. destruct (Z.eqb_spec (encodingVersion cp) 4); [lia|done].
Qed.

Lemma stored_names cp b n head : encodeCheckpoint cp = Ok b -> stored cp = Ok n -> namesOther head cp = false -> namesOther head n = false.
Proof.
  intros Hb%encodes_version. unfold stored, namesOther, keepsLines. set (v := encodingVersion cp) in *.
  destruct (v =? checkpointVersionV1) eqn:E1; [apply Z.eqb_eq in E1; rewrite E1; by intros [= <-]|].
  destruct (v =? checkpointVersionV2) eqn:E2; [apply Z.eqb_eq in E2; rewrite E2; by intros [= <-]|].
  assert (Hv : cp_version cp = v).
  { unfold v, encodingVersion in *. destruct (cp_version cp =? 0) eqn:E0; [|done]. apply Z.eqb_eq in E0.
    destruct (negb _); cbn in E1, E2; discriminate. }
  assert (Hp : forall version m, normalizeProofCheckpoint (wholeSeconds cp) version = Ok m -> cp_published m = cp_published cp /\ cp_version m = version).
  { intros version m Hm. apply normalizeProof_inv in Hm as (_ & _ & _ & ? & ? & ? & ? & ? & ->). done. }
  rewrite Hv. unfold checkpointVersionV1, checkpointVersionV2, checkpointVersionV3, checkpointVersionV4 in *. destruct (v =? 3) eqn:E3.
  - intros (_ & _ & _ & Hm)%normalizeV3_inv. apply Hp in Hm as [-> ->]. done.
  - intros (_ & Hm)%normalizeV4_inv. apply Hp in Hm as [-> ->]. assert (v = 4) as -> by (apply Z.eqb_neq in E1, E2, E3; lia). done.
Qed.

Lemma staged_reads cp b head : checkpoint_fits cp -> encodeCheckpoint cp = Ok b -> namesOther head cp = false ->
  exists n, stored cp = Ok n /\ decodeCheckpointOf head b = Ok n.
Proof.
  intros Hf Hb Hn. destruct (checkpoint_reads cp b Hf Hb) as [Hd Hs]. destruct (stored cp) as [n|] eqn:E; [|done].
  exists n. split; [done|]. unfold decodeCheckpointOf. rewrite Hd. cbn. by rewrite (stored_names cp b n head).
Qed.

Lemma applys_set (l1 l2 : list kvop) (k v : bytes) (m : KV) : Forall (fun o => op_key o <> k) l2 -> kv_applys (l1 ++ KSet k v :: l2) m !! k = Some v.
Proof.
  intros Hl. rewrite applys_app. change (KSet k v :: l2) with ([KSet k v] ++ l2). rewrite applys_app, applys_other by done.
  cbn. apply lookup_insert_eq.
Qed.

(** ** Reads *)

Lemma get_run k (s : K) r s' : get k s = (r, s') -> kv s' = kv s /\ match r with Ok v => v = numberOf (kv s) k | Err _ => True end.
Proof.
  unfold get. intros [(v & s1 & Hv & H)|(e & Hv & ->)]%bind_run; apply kv_get_spec in Hv as [Hk Hv]; [|done].
  unfold numberOf. rewrite <- Hv. destruct v as [v|]; [|by injection H as <- <-]. cbn.
  destruct (length v =? 8)%nat; by injection H as <- <-.
Qed.

Lemma updatedAt_run (s : K) r s' : updatedAt s = (r, s') -> kv s' = kv s /\ match r with Ok t => t = freshnessOf (kv s) | Err _ => True end.
Proof.
  unfold updatedAt. intros [(v & s1 & Hv & H)|(e & Hv & ->)]%bind_run; apply get_run in Hv as [Hk Hv]; [|done].
  injection H as <- <-. split; [done|]. unfold freshnessOf. by rewrite <- Hv.
Qed.

Lemma readAuthorityFloor_run a (s : K) r s' : readAuthorityFloor a s = (r, s') ->
  kv s' = kv s /\ match r with Ok f => f = floorOf (kv s) a | Err _ => True end.
Proof.
  unfold readAuthorityFloor. intros [(v & s1 & Hv & H)|(e & Hv & ->)]%bind_run; apply kv_get_spec in Hv as [Hk Hv]; [|done].
  unfold floorOf. rewrite <- Hv. destruct v as [v|]; [|by injection H as <- <-]. cbn.
  unfold bind, lift in H. destruct (decodeAuthorityFloor a v); injection H as <- <-; done.
Qed.

Lemma decodeFloor_authority a v f : decodeAuthorityFloor a v = Ok f -> fl_authority f = a.
Proof. unfold decodeAuthorityFloor. destruct (_ || _); [done|]. cbv zeta. destruct (_ =? 0); [done|]. by intros [= <-]. Qed.
Lemma floorOf_authority m a f : floorOf m a = Some f -> fl_authority f = a.
Proof.
  unfold floorOf. destruct (m !! authorityFloorKey a) as [v|]; [|done]. cbn. destruct (decodeAuthorityFloor a v) eqn:E; [|done].
  intros [= <-]. by eapply decodeFloor_authority.
Qed.

(** ** No regression *)

Definition raises (f f' : authorityFloor) : Prop := fl_revision f < fl_revision f' \/ f' = f.

Record no_regress (m m' : KV) : Prop := {
  nr_floor : forall a f, floorOf m a = Some f -> exists f', floorOf m' a = Some f' /\ raises f f';
  nr_fresh : forall t, freshnessOf m = Some t -> exists t', freshnessOf m' = Some t' /\ t <= t' }.

Lemma no_regress_same m m' : (forall a, m' !! authorityFloorKey a = m !! authorityFloorKey a) -> m' !! keyUpdatedAt = m !! keyUpdatedAt ->
  no_regress m m'.
Proof.
  intros Ha Hu. split.
  - intros a f Hf. exists f. unfold floorOf in *. rewrite Ha. split; [done|by right].
  - intros t Ht. exists t. unfold freshnessOf, numberOf in *. rewrite Hu. split; [done|lia].
Qed.

#[global] Instance no_regress_preorder : PreOrder no_regress.
Proof.
  split.
  - intros m. by apply no_regress_same.
  - intros m1 m2 m3 [F1 T1] [F2 T2]. split.
    + intros a f Hf. apply F1 in Hf as (f1 & Hf1 & R1). apply F2 in Hf1 as (f2 & Hf2 & R2). exists f2. split; [done|].
      unfold raises in *. destruct R1 as [R1| ->], R2 as [R2| ->]; auto. left. lia.
    + intros t Ht. apply T1 in Ht as (t1 & Ht1 & ?). apply T2 in Ht1 as (t2 & Ht2 & ?). exists t2. split; [done|lia].
Qed.

(** The keys that hold no floor. *)
Definition plainKey (k : bytes) : Prop := k <> keyUpdatedAt /\ forall a, k <> authorityFloorKey a.

Lemma checkpointKey_plain head : plainKey (checkpointKey head).
Proof. split; [|intros a]; unfold checkpointKey, keyUpdatedAt, authorityFloorKey, key; cbn; discriminate. Qed.
Lemma verifiedKey_plain c : plainKey (verifiedSegmentKey c).
Proof. split; [|intros a]; unfold verifiedSegmentKey, keyUpdatedAt, authorityFloorKey, key; cbn; discriminate. Qed.
Lemma fixedKeys_plain : plainKey keyIPNSSeq /\ plainKey keyIPNSFloors /\ plainKey keyDelegation.
Proof. repeat split; try intros a; unfold authorityFloorKey, keyIPNSSeq, keyIPNSFloors, keyDelegation, keyUpdatedAt, key; cbn; discriminate. Qed.

Lemma plain_no_regress (l : list kvop) (m : KV) : Forall (fun o => plainKey (op_key o)) l -> no_regress m (kv_applys l m).
Proof.
  intros Hl. apply no_regress_same; [intros a|]; apply applys_other; eapply Forall_impl; [done| |done|]; intros o [H1 H2]; auto.
Qed.

Lemma commit_no_regress l (s : K) r s' : no_regress (kv s) (kv_applys l (kv s)) -> kv_commit l s = (r, s') -> no_regress (kv s) (kv s').
Proof.
  intros Hl H. apply kv_commit_spec in H. destruct r; [by rewrite H|]. destruct H as [_ [->| ->]]; done.
Qed.

(** ** Staging *)

(** [time.Time.Unix] is an int64. *)
Definition time_ok (t : Time) : Prop := - 2 ^ 63 <= Unix t < 2 ^ 63.

Lemma stageUpdatedAt_run b t (s : K) r s' : stageUpdatedAt b t s = (r, s') ->
  kv s' = kv s /\
  match r with
  | Ok b' => (b' = b /\ exists cur, freshnessOf (kv s) = Some cur /\ t <= cur) \/
             (b' = b ++ [KSet keyUpdatedAt (PutUint64 (u64 (Unix t)))] /\ forall cur, freshnessOf (kv s) = Some cur -> cur < t)
  | Err _ => True
  end.
Proof.
  unfold stageUpdatedAt. intros [(cur & s1 & Hc & H)|(e & Hc & ->)]%bind_run; apply updatedAt_run in Hc as [Hk Hc]; [|done].
  injection H as <- <-. split; [done|]. rewrite <- Hc. destruct cur as [cur|]; [|right; done]. unfold After.
  destruct (Z.ltb_spec cur t); [right|left; eauto]. split; [done|]. by intros ? [= <-].
Qed.

Lemma stageAuthorityFloor_run b f (s : K) r s' : stageAuthorityFloor b f s = (r, s') ->
  kv s' = kv s /\
  match r with
  | Ok b' => exists v, encodeAuthorityFloor f = Ok v /\ b' = b ++ [KSet (authorityFloorKey (fl_authority f)) v] /\
             forall g, floorOf (kv s) (fl_authority f) = Some g -> raises g f
  | Err _ => True
  end.
Proof.
  unfold stageAuthorityFloor. intros [(cur & s1 & Hc & H)|(e & Hc & ->)]%bind_run; apply readAuthorityFloor_run in Hc as [Hk Hc]; [|done].
  rewrite <- Hk. rewrite <- Hk in Hc. clear Hk. destruct cur as [g|].
  - destruct (Z.ltb_spec (fl_revision f) (fl_revision g)) as [|Hle]; [by injection H as <- <-|].
    destruct (_ && _) eqn:Eg; [by injection H as <- <-|]. unfold bind, lift in H.
    destruct (encodeAuthorityFloor f) as [v|]; injection H as <- <-; (split; [done|]); [|done].
    exists v. split; [done|]. split; [done|]. intros ? Hg. rewrite <- Hc in Hg. injection Hg as <-. symmetry in Hc. apply floorOf_authority in Hc.
    destruct (Z.eqb_spec (fl_revision f) (fl_revision g)) as [E|]; [|left; lia]. right.
    apply negb_false_iff, bool_decide_eq_true_1 in Eg. destruct f, g; cbn in *; congruence.
  - unfold bind, lift in H. destruct (encodeAuthorityFloor f) as [v|]; injection H as <- <-; (split; [done|]); [|done].
    exists v. split; [done|]. split; [done|]. intros g Hg. by rewrite <- Hc in Hg.
Qed.

Definition writes (p : adoptPlan) : Prop := pl_writeCheckpoint p = true.
#[global] Instance writes_dec p : Decision (writes p).
Proof. unfold writes. apply _. Defined.
(** The write a plan makes. *)
Definition plan_op (p : adoptPlan) (o : kvop) : Prop := exists v,
  encodeCheckpoint (pl_cp p) = Ok v /\ o = KSet (checkpointKey (pl_name p)) v /\ namesOther (pl_name p) (pl_cp p) = false.

Lemma stageCheckpoint_inv b head cp b' : stageCheckpoint b head cp = Ok b' ->
  exists v, encodeCheckpoint cp = Ok v /\ b' = b ++ [KSet (checkpointKey head) v] /\ namesOther head cp = false.
Proof.
  unfold stageCheckpoint. destruct (emptyStr head); [done|]. destruct (_ <? 0); [done|]. destruct (namesOther head cp); [done|].
  intros (v & Hv & [= <-])%rbind_ok. eauto.
Qed.

Lemma stagePlans_inv pub plans b b' : stagePlans pub b plans = Ok b' ->
  exists l, b' = b ++ l /\ Forall2 plan_op (filter writes plans) l.
Proof.
  revert b. induction plans as [|p plans IH]; intros b H; cbn in H; [injection H as <-; exists []; by rewrite app_nil_r|].
  destruct (decide (writes p)) as [Ew|Ew].
  - rewrite filter_cons_True by done. rewrite Ew in H. apply rbind_ok in H as ([] & _ & H). apply rbind_ok in H as (b1 & H1 & H).
    apply stageCheckpoint_inv in H1 as (v & Hv & -> & Hn). apply IH in H as (l & -> & Hl).
    exists (KSet (checkpointKey (pl_name p)) v :: l). rewrite <- app_assoc. split; [done|]. constructor; [by exists v|done].
  - rewrite filter_cons_False by done. apply not_true_is_false in Ew. rewrite Ew in H. by apply IH.
Qed.

Lemma plan_ops_plain ps l : Forall2 plan_op ps l -> Forall (fun o => plainKey (op_key o)) l.
Proof. induction 1 as [|p o ps l (v & _ & -> & _) _ IH]; constructor; [apply checkpointKey_plain|done]. Qed.

(** The writes of an admission: the checkpoints, then the floor, then the delegation. *)
Record admission_ops (m : KV) (plans : list adoptPlan) (t : Time) (d : option delegation) (pub : option authorityFloor) (b : list kvop) : Prop := {
  ao_ops : exists lp lf ld, b = lp ++ lf ++ ld /\ Forall2 plan_op (filter writes plans) lp /\
    match pub with
    | None => (lf = [] /\ exists cur, freshnessOf m = Some cur /\ t <= cur) \/
              (lf = [KSet keyUpdatedAt (PutUint64 (u64 (Unix t)))] /\ forall cur, freshnessOf m = Some cur -> cur < t)
    | Some f => exists v, encodeAuthorityFloor f = Ok v /\ lf = [KSet (authorityFloorKey (fl_authority f)) v] /\
                          forall g, floorOf m (fl_authority f) = Some g -> raises g f
    end /\
    match d with None => ld = [] | Some d => exists v, encodeDelegation d = Ok v /\ ld = [KSet keyDelegation v] end;
  ao_time : 0 <= Unix t }.

Lemma stageAdmission_run plans t d pub (s : K) r s' : stageAdmission [] plans t d pub s = (r, s') ->
  kv s' = kv s /\ match r with Ok b => admission_ops (kv s) plans t d pub b | Err _ => True end.
Proof.
  unfold stageAdmission. destruct (Z.ltb_spec (Unix t) 0); [by intros [= <- <-]|]. unfold bind at 1, lift.
  destruct (stagePlans pub [] plans) as [b0|] eqn:Ep; [|by intros [= <- <-]]. apply stagePlans_inv in Ep as (lp & -> & Hp). cbn [app].
  intros [(b1 & s1 & H1 & H2)|(e & H1 & ->)]%bind_run.
  2: { split; [|done]. destruct pub; [apply stageAuthorityFloor_run in H1|apply stageUpdatedAt_run in H1]; by destruct H1. }
  assert (Hd : forall lf, b1 = lp ++ lf -> kv s1 = kv s ->
    match pub with
    | None => (lf = [] /\ exists cur, freshnessOf (kv s) = Some cur /\ t <= cur) \/
              (lf = [KSet keyUpdatedAt (PutUint64 (u64 (Unix t)))] /\ forall cur, freshnessOf (kv s) = Some cur -> cur < t)
    | Some f => exists v, encodeAuthorityFloor f = Ok v /\ lf = [KSet (authorityFloorKey (fl_authority f)) v] /\
                          forall g, floorOf (kv s) (fl_authority f) = Some g -> raises g f
    end -> kv s' = kv s /\ match r with Ok b => admission_ops (kv s) plans t d pub b | Err _ => True end).
  { intros lf -> Hk Hf. destruct d as [d|].
    - unfold bind, lift in H2. destruct (encodeDelegation d) as [v|] eqn:Ev; injection H2 as <- <-; (split; [done|]); [|done].
      split; [|done]. exists lp, lf, [KSet keyDelegation v]. rewrite <- app_assoc. split; [done|]. split; [done|]. split; [done|]. eauto.
    - injection H2 as <- <-. split; [done|]. split; [|done]. exists lp, lf, []. by rewrite app_nil_r. }
  destruct pub as [f|].
  - apply stageAuthorityFloor_run in H1 as [Hk (v & Hv & -> & Hr)]. eapply Hd; [done|done|]. exists v. auto.
  - apply stageUpdatedAt_run in H1 as [Hk [[-> Hc]|[-> Hc]]]; (eapply Hd; [|done|]); [by rewrite app_nil_r|auto|done|auto].
Qed.

(** ** The effect of the writes *)

Lemma freshness_set (m : KV) t : time_ok t -> m !! keyUpdatedAt = Some (PutUint64 (u64 (Unix t))) -> freshnessOf m = Some (time_Unix (Unix t)).
Proof.
  intros Ht E. unfold freshnessOf, numberOf. rewrite E. cbn [mbind option_bind]. rewrite PutUint64_length. cbn [Nat.eqb fmap option_fmap option_map].
  by rewrite Uint64_PutUint64, int64_u64 by (done || apply u64_range).
Qed.
Lemma freshness_whole (m : KV) t : freshnessOf m = Some t -> t = time_Unix (Unix t).
Proof. unfold freshnessOf. destruct (numberOf m keyUpdatedAt); [|done]. cbn. intros [= <-]. by rewrite Unix_time. Qed.
Lemma Unix_mono a b : a <= b -> time_Unix (Unix a) <= time_Unix (Unix b).
Proof. intros. unfold time_Unix, Unix. assert (a / 10 ^ 9 <= b / 10 ^ 9) by (apply Z.div_le_mono; lia). lia. Qed.

Lemma floor_set (m : KV) f v : is_u64 (fl_revision f) -> encodeAuthorityFloor f = Ok v ->
  m !! authorityFloorKey (fl_authority f) = Some v -> floorOf m (fl_authority f) = Some f.
Proof. intros Hr Hv E. unfold floorOf. rewrite E. cbn. by rewrite (floor_roundtrip f v). Qed.

(** A delegation is no floor and no checkpoint. *)
Lemma delegation_plain (d : option delegation) ld :
  match d with None => ld = [] | Some d => exists v, encodeDelegation d = Ok v /\ ld = [KSet keyDelegation v] end ->
  Forall (fun o => op_key o = keyDelegation) ld.
Proof. destruct d; [intros (v & _ & ->); by constructor|intros ->; constructor]. Qed.

Lemma op_keys_ne (P : bytes -> Prop) k l : Forall (fun o => P (op_key o)) l -> (forall k', P k' -> k' <> k) -> Forall (fun o => op_key o <> k) l.
Proof. intros Hl HP. eapply Forall_impl; [exact Hl|]. intros o Ho. by apply HP. Qed.

Lemma admission_no_regress (m : KV) plans t d pub b : admission_ops m plans t d pub b -> time_ok t ->
  (forall f, pub = Some f -> is_u64 (fl_revision f)) -> no_regress m (kv_applys b m).
Proof.
  intros [(lp & lf & ld & -> & Hp & Hf & Hd) _] Ht Hr. apply plan_ops_plain in Hp. apply delegation_plain in Hd.
  assert (Hdp : Forall (fun o => plainKey (op_key o)) ld) by (eapply Forall_impl; [exact Hd|]; intros o ->; apply fixedKeys_plain).
  assert (Hne : forall k l, Forall (fun o => plainKey (op_key o)) l -> (k = keyUpdatedAt \/ exists a, k = authorityFloorKey a) ->
                Forall (fun o => op_key o <> k) l).
  { intros k l Hl Hk. eapply op_keys_ne; [exact Hl|]. intros k' [H1 H2]. destruct Hk as [->|[a ->]]; auto. }
  destruct pub as [f|].
  - destruct Hf as (v & Hv & -> & Hraise). split.
    + intros a g Hg. destruct (decide (a = fl_authority f)) as [->|Hn].
      * exists f. split; [|by apply Hraise]. eapply floor_set; [by apply Hr|done|]. apply applys_set. apply Hne; eauto.
      * exists g. split; [|by right]. unfold floorOf in *. rewrite applys_other; [done|].
        rewrite !Forall_app. split; [apply Hne; eauto|]. split; [|apply Hne; eauto]. constructor; [|done]. cbn. by intros E%authorityKey_inj.
    + intros u Hu. exists u. split; [|lia]. unfold freshnessOf, numberOf in *. rewrite applys_other; [done|].
      rewrite !Forall_app. split; [apply Hne; auto|]. split; [|apply Hne; auto]. constructor; [|done]. cbn. discriminate.
  - destruct Hf as [[-> _]|[-> Hlt]]; [apply plain_no_regress; rewrite !Forall_app; auto|]. split.
    + intros a g Hg. exists g. split; [|by right]. unfold floorOf in *. rewrite applys_other; [done|].
      rewrite !Forall_app. split; [apply Hne; eauto|]. split; [|apply Hne; eauto]. constructor; [|done]. cbn. discriminate.
    + intros u Hu. exists (time_Unix (Unix t)). rewrite (freshness_whole m u Hu) at 1. split; [|apply Unix_mono; specialize (Hlt u Hu); lia].
      apply freshness_set; [done|]. apply applys_set. apply Hne; auto.
Qed.

(** ** Operations and their sequences *)

Inductive fop : Type :=
| FPut (head : string) (cp : checkpoint)
| FAdmit (plans : list adoptPlan) (t : Time) (d : option delegation) (pub : option authorityFloor)
| FSeq (name : IName) (seq : Z) (allowLegacy : bool)
| FVerified (c : CidV)
| FRetire (head : string).

Definition runOp (o : fop) : M K unit :=
  match o with
  | FPut head cp => putCheckpoint head cp
  | FAdmit plans t d pub => commitAdmission plans t d pub
  | FSeq name seq allowLegacy => setIPNSSeq name seq allowLegacy
  | FVerified c => markSegmentVerified c
  | FRetire head => kv_commit (stageRetireCheckpoint [] head)
  end.

(** Values of the Go types. *)
Definition op_ok (o : fop) : Prop :=
  match o with
  | FPut _ cp => time_ok (cp_updatedAt cp)
  | FAdmit _ t _ pub => time_ok t /\ forall f, pub = Some f -> is_u64 (fl_revision f)
  | FSeq _ seq _ => is_u64 seq
  | _ => True
  end.

Lemma put_no_regress head cp (s : K) r s' : time_ok (cp_updatedAt cp) -> putCheckpoint head cp s = (r, s') -> no_regress (kv s) (kv s').
Proof.
  intros Ht. unfold putCheckpoint. destruct (negb _); [by intros [= _ <-]|]. destruct (_ <? 0); [by intros [= _ <-]|]. unfold bind at 1, lift.
  destruct (stageCheckpoint [] head cp) as [b|] eqn:Eb; [|by intros [= _ <-]]. apply stageCheckpoint_inv in Eb as (v & _ & -> & _). cbn [app].
  assert (Hc : Forall (fun o => plainKey (op_key o)) [KSet (checkpointKey head) v]) by (constructor; [apply checkpointKey_plain|done]).
  destruct (cp_revision cp =? 0).
  - intros [(b1 & s1 & H1 & H2)|(e & H1 & ->)]%bind_run; apply stageUpdatedAt_run in H1 as [<- H1]; [|done].
    eapply commit_no_regress in H2; [done|]. destruct H1 as [[-> _]|[-> Hlt]]; [by apply plain_no_regress|]. rewrite applys_app.
    transitivity (kv_applys [KSet (checkpointKey head) v] (kv s1)); [by apply plain_no_regress|]. split.
    + intros a f Hf. exists f. split; [|by right]. unfold floorOf in *. by rewrite applys_other by (constructor; [|done]; cbn; discriminate).
    + intros u Hu. exists (time_Unix (Unix (cp_updatedAt cp))). rewrite (freshness_whole _ u Hu) at 1. split.
      * apply freshness_set; [done|]. apply (applys_set []). done.
      * apply Unix_mono. unfold freshnessOf, numberOf in Hu. rewrite applys_other in Hu; [specialize (Hlt u Hu); lia|].
        constructor; [|done]. apply checkpointKey_plain.
  - unfold bind, ret. intros H. eapply commit_no_regress; [|exact H]. by apply plain_no_regress.
Qed.

(** ** IPNS sequence floors *)

Definition ipnsFloorsOf (m : KV) : option (list ipnsFloor) :=
  match m !! keyIPNSFloors with
  | None => Some []
  | Some v => match decodeIPNSFloors v with Ok l => Some l | Err _ => None end
  end.

Lemma ipnsFloors_run (s : K) r s' : ipnsFloors s = (r, s') ->
  kv s' = kv s /\ match r with Ok l => ipnsFloorsOf (kv s) = Some l | Err _ => True end.
Proof.
  unfold ipnsFloors. intros [(v & s1 & Hv & H)|(e & Hv & ->)]%bind_run; apply kv_get_spec in Hv as [Hk Hv]; [|done].
  unfold ipnsFloorsOf. rewrite <- Hv. destruct v as [v|]; [|by injection H as <- <-]. unfold lift in H. injection H as <- <-.
  split; [done|]. by destruct (decodeIPNSFloors v).
Qed.

Lemma readDelegation_run (s : K) r s' : readDelegation s = (r, s') ->
  kv s' = kv s /\ match r with Ok d => d = delegationOf (kv s) | Err _ => True end.
Proof.
  unfold readDelegation. intros [(v & s1 & Hv & H)|(e & Hv & ->)]%bind_run; apply kv_get_spec in Hv as [Hk Hv]; [|done].
  unfold delegationOf. rewrite <- Hv. destruct v as [v|]; [|by injection H as <- <-]. cbn.
  unfold bind, lift in H. destruct (decodeDelegation v); injection H as <- <-; done.
Qed.

#[local] Instance ipnsFloor_eq_dec : EqDecision ipnsFloor.
Proof. solve_decision. Defined.
Definition names (l : list ipnsFloor) : list IName := if_name <$> l.

(** Over the bound, one entry goes: not the first and not the delegated one. *)
Lemma evict_run l (s : K) r s' : evict l s = (r, s') -> (length l <= S maxIPNSFloorNames)%nat -> NoDup (names l) ->
  kv s' = kv s /\
  match r with
  | Ok l' => (length l' <= maxIPNSFloorNames)%nat /\ sublist l' l /\ head l' = head l /\ (l' = l \/ length l = S maxIPNSFloorNames) /\
             forall d f, delegationOf (kv s) = Some d -> f ∈ l -> if_name f = dg_name d -> f ∈ l'
  | Err _ => True
  end.
Proof.
  unfold evict. intros H Hl Hnd. destruct (Nat.ltb_spec maxIPNSFloorNames (length l)) as [Hlt|Hle].
  2: { injection H as <- <-. repeat split; auto. }
  apply bind_run in H as [(p & s1 & Hp & H)|(e & Hp & ->)]; apply readDelegation_run in Hp as [Hk Hp]; [|done].
  injection H as <- <-. split; [done|]. assert (E : length l = S maxIPNSFloorNames) by lia. unfold maxIPNSFloorNames in *.
  set (keep := match p with Some _ => _ | None => _ end). set (i := if keep then _ else _).
  assert (Hi : (1 <= i < length l)%nat) by (unfold i; destruct keep; lia). unfold dropAt.
  assert (Hsplit : exists x, l !! i = Some x /\ l = take i l ++ x :: drop (S i) l).
  { destruct (lookup_lt_is_Some_2 l i) as [x Hx]; [lia|]. exists x. split; [done|]. by rewrite take_drop_middle. }
  destruct Hsplit as (x & Hx & Hs). split; [rewrite length_app, length_take, length_drop; lia|]. split.
  { rewrite Hs at 3. apply sublist_app; [done|]. by apply sublist_cons. }
  split; [destruct l as [|y l]; [done|]; by destruct i as [|i]; [lia|]|].
  split; [by right|]. intros d f Hd Hf Hn. rewrite Hs in Hf. rewrite elem_of_app, elem_of_cons in Hf. rewrite elem_of_app.
  destruct Hf as [?|[->|?]]; auto. exfalso. rewrite Hd in Hp. subst p.
  destruct (l !! (length l - 1)%nat) as [y|] eqn:Ey; [|apply lookup_ge_None_1 in Ey; lia].
  unfold i, keep in Hx. case_bool_decide as Hy.
  - (* the entry before the last shares its name with the last *)
    assert (names l !! (length l - 1 - 1)%nat = Some (dg_name d)) as H1 by (unfold names; by rewrite list_lookup_fmap, Hx, <- Hn).
    assert (names l !! (length l - 1)%nat = Some (dg_name d)) as H2 by (unfold names; by rewrite list_lookup_fmap, Ey, <- Hy).
    pose proof (NoDup_lookup _ _ _ _ Hnd H1 H2). lia.
  - congruence.
Qed.

Lemma evict_kv l (s : K) r s' : evict l s = (r, s') -> kv s' = kv s.
Proof.
  unfold evict. destruct (_ <? _)%nat; [|by intros [= _ <-]].
  intros [(p & s1 & H1 & [= _ <-])|(e & H1 & _)]%bind_run; by apply readDelegation_run in H1 as [-> _].
Qed.

(** The floor a name is held to: its own, or the one recorded before floors had names. *)
Definition seqOf (m : KV) (name : IName) (allowLegacy : bool) : option Z :=
  fl ← ipnsFloorsOf m;
  match findFloor name fl with Some q => Some q | None => if allowLegacy then numberOf m keyIPNSSeq else None end.

Definition raised (name : IName) (seq : Z) (floors : list ipnsFloor) : list ipnsFloor :=
  mkIpns name seq :: List.filter (fun f => negb (bool_decide (if_name f = name))) floors.

Lemma legacy_run (found : option Z) (legacy : bool) (s : K) (r : res (option Z)) s' :
  (match found with None => if legacy then get keyIPNSSeq else ret None | Some _ => ret None end) s = (r, s') ->
  kv s' = kv s /\
  match r with
  | Ok c => match found with Some q => Some q | None => c end =
            match found with Some q => Some q | None => if legacy then numberOf (kv s) keyIPNSSeq else None end
  | Err _ => True
  end.
Proof.
  destruct found; [by intros [= <- <-]|]. destruct legacy; [|by intros [= <- <-]]. apply get_run.
Qed.

Lemma setIPNSSeq_run name seq legacy (s : K) r s' : 0 <= seq -> setIPNSSeq name seq legacy s = (r, s') ->
  (kv s' = kv s /\ (r = Ok tt -> exists cur, seqOf (kv s) name legacy = Some cur /\ seq < cur)) \/
  exists fl out v s0 s1 rest, ipnsFloorsOf (kv s) = Some fl /\ kv s0 = kv s /\ kv s1 = kv s /\
    (forall cur, seqOf (kv s) name legacy = Some cur -> cur <= seq) /\
    evict (raised name seq fl) s0 = (Ok out, s1) /\
    encodeIPNSFloors out = Ok v /\ (rest = [] \/ rest = [KDelete keyIPNSSeq]) /\
    kv_commit (KSet keyIPNSFloors v :: rest) s1 = (r, s').
Proof.
  intros H0. unfold setIPNSSeq. intros [(fl & s1 & H1 & H)|(e & H1 & ->)]%bind_run; apply ipnsFloors_run in H1 as [E1 Hfl]; [|by left].
  apply bind_run in H as [(c & s2 & H2 & H)|(e & H2 & ->)]; apply legacy_run in H2 as [E2 Hc]; [|left; split; [congruence|done]].
  unfold seqOf. rewrite Hfl. cbn [mbind option_bind]. rewrite E1 in Hc. rewrite <- Hc. set (cur := match findFloor name fl with Some _ => _ | None => _ end) in *.
  destruct (match cur with Some cur => seq <? cur | None => false end) eqn:Ecur.
  { injection H as <- <-. left. split; [congruence|]. intros _. destruct cur as [q|]; [|done]. apply Z.ltb_lt in Ecur. eauto. }
  assert (Hcur : forall q, cur = Some q -> q <= seq) by (intros q ->; by apply Z.ltb_ge in Ecur).
  replace (Z.max seq (default 0 cur)) with seq in H by (destruct cur as [q|]; cbn; [specialize (Hcur q eq_refl)|]; lia).
  apply bind_run in H as [(out & s3 & H3 & H)|(e & H3 & ->)]; pose proof (evict_kv _ _ _ _ H3) as E3; [|left; split; [congruence|done]].
  unfold bind, lift in H. destruct (encodeIPNSFloors out) as [v|] eqn:Ev; [|injection H as <- <-; left; split; [congruence|done]].
  right. exists fl, out, v, s2, s3, (if negb (unset c) then [KDelete keyIPNSSeq] else []). rewrite E3, E2, E1. repeat split; try done.
  by destruct (negb _); auto.
Qed.

Lemma setIPNSSeq_plain name seq legacy (s : K) r s' : 0 <= seq -> setIPNSSeq name seq legacy s = (r, s') -> no_regress (kv s) (kv s').
Proof.
  intros H0 [[-> _]|(fl & out & v & s0 & s1 & rest & _ & _ & <- & _ & _ & _ & Hrest & H)]%setIPNSSeq_run; [done| |done].
  eapply commit_no_regress; [|exact H]. apply plain_no_regress. constructor; [apply fixedKeys_plain|].
  destruct Hrest as [->| ->]; repeat constructor; apply fixedKeys_plain.
Qed.

(** ** Sequence floors read back *)

Lemma floors_roundtrip fl v : encodeFloors fl = Ok v -> Forall (fun f => is_u64 (if_seq f)) fl -> decodeFloors (length fl) v = Ok fl.
Proof.
  revert v. induction fl as [|f fl IH]; intros v; cbn [encodeFloors decodeFloors length]; [by intros [= <-]|]. cbv zeta. set (name := string_bytes (iname_String (if_name f))).
  destruct (_ || _) eqn:E; [done|]. apply orb_false_iff in E as [E1 E2]. apply Nat.eqb_neq in E1. apply Z.ltb_ge in E2.
  intros (tail & Ht & H)%rbind_ok [Hf Hfl]%Forall_cons. set (parts := [AppendUint16 (len name); name; PutUint64 (if_seq f); tail]).
  assert (Eb : v = concat parts) by (injection H as <-; unfold parts; cbn [concat]; by rewrite app_nil_r). subst v. clear H.
  assert (Hl : length (concat parts) = (2 + (length name + 8) + length tail)%nat)
    by (unfold parts; cbn [concat]; rewrite !length_app, PutUint64_length; cbn; lia).
  rewrite (proj2 (Nat.ltb_ge _ _)) by lia. rewrite (slice_part parts 0 (AppendUint16 (len name)) 0 2) by reflexivity.
  rewrite Uint16_put by (unfold len in *; lia). unfold len. rewrite Nat2Z.id. rewrite (proj2 (Nat.eqb_neq (length name) 0)) by done.
  rewrite length_drop, Hl, (proj2 (Nat.ltb_ge _ _)) by lia. cbn [orb]. set (rest := [name; PutUint64 (if_seq f); tail]).
  change (drop 2 (concat parts)) with (concat rest).
  rewrite (slice_part rest 0 name), (slice_part rest 1 (PutUint64 (if_seq f))) by (reflexivity || (unfold rest; cbn; lia)).
  rewrite (drop_part rest 2 tail) by (reflexivity || (unfold rest; cbn; rewrite ?PutUint64_length; lia)).
  unfold name. rewrite bytes_string_bytes, NameFromString_String. rewrite IH, Uint64_PutUint64 by done. by destruct f.
Qed.

Lemma ipnsFloors_roundtrip fl v : encodeIPNSFloors fl = Ok v -> Forall (fun f => is_u64 (if_seq f)) fl -> decodeIPNSFloors v = Ok fl.
Proof.
  unfold encodeIPNSFloors. destruct (Nat.ltb_spec maxIPNSFloorNames (length fl)) as [|Hl]; [done|].
  intros (tail & Ht & [= <-])%rbind_ok Hf. unfold decodeIPNSFloors, maxIPNSFloorNames in *. cbn [app length at_]. cbv zeta.
  assert (E : Z.to_nat (at_ 1 (Byte.x01 :: byte_of_Z (len fl) :: tail)) = length fl).
  { unfold at_. cbn [lookup list_lookup fmap option_fmap option_map default]. unfold len. rewrite flag_byte by lia. apply Nat2Z.id. }
  rewrite E. rewrite (proj2 (Nat.ltb_ge 32 _)) by done. cbn [drop]. by apply floors_roundtrip.
Qed.

Lemma decodeFloors_spec n b fl : decodeFloors n b = Ok fl -> length fl = n /\ Forall (fun f => is_u64 (if_seq f)) fl.
Proof.
  revert b fl. induction n as [|n IH]; intros b fl; cbn [decodeFloors]; cbv zeta; [destruct (negb _); [done|]; by intros [= <-]|].
  destruct (_ <? 2)%nat; [done|]. destruct (_ || _); [done|]. destruct (NameFromString _); [|done].
  intros (out & Ho & [= <-])%rbind_ok. apply IH in Ho as [<- Ho]. split; [done|]. constructor; [|done]. cbn [if_seq].
  unfold is_u64.
  set (w := slice _ _ (drop 2 b)). pose proof (Uint64_range w) as [Hlo Hhi]. split; [done|]. eapply Z.lt_le_trans; [exact Hhi|].
  change (2 ^ 64) with (256 ^ 8). apply Z.pow_le_mono_r; [lia|]. unfold w, slice. rewrite length_take. lia.
Qed.

Lemma ipnsFloorsOf_spec (m : KV) fl : ipnsFloorsOf m = Some fl -> (length fl <= maxIPNSFloorNames)%nat /\ Forall (fun f => is_u64 (if_seq f)) fl.
Proof.
  unfold ipnsFloorsOf. destruct (m !! keyIPNSFloors) as [v|]; [|intros [= <-]; split; [cbn; lia|done]].
  unfold decodeIPNSFloors. destruct (_ || _); [done|]. cbv zeta. destruct (Nat.ltb_spec maxIPNSFloorNames (Z.to_nat (at_ 1 v))); [done|].
  destruct (decodeFloors _ _) as [l|] eqn:E; [|done]. intros [= <-]. apply decodeFloors_spec in E as [-> ?]. done.
Qed.

Lemma findFloor_elem name q fl : NoDup (names fl) -> findFloor name fl = Some q <-> mkIpns name q ∈ fl.
Proof.
  unfold findFloor. induction fl as [|f fl IH]; cbn; [intros _; split; [done|by intros ?%elem_of_nil]|].
  intros [Hn Hnd]%NoDup_cons. rewrite elem_of_cons. case_bool_decide as E.
  - cbn. split; [intros [= <-]; left; by destruct f; cbn in *; subst|]. intros [<-|Hin]; [done|].
    exfalso. apply Hn. rewrite E. apply (list_elem_of_fmap_2 if_name) in Hin. exact Hin.
  - rewrite IH by done. split; [by right|]. intros [<-|?]; done.
Qed.

Lemma raised_spec name seq fl : NoDup (names fl) ->
  NoDup (names (raised name seq fl)) /\ (length (raised name seq fl) <= S (length fl))%nat /\
  (forall f, f ∈ fl -> if_name f <> name -> f ∈ raised name seq fl) /\
  (Forall (fun f => is_u64 (if_seq f)) fl -> is_u64 seq -> Forall (fun f => is_u64 (if_seq f)) (raised name seq fl)).
Proof.
  intros Hnd. unfold raised. set (P := fun f => negb (bool_decide (if_name f = name))). set (g := List.filter P fl).
  assert (Hin : forall f, f ∈ g <-> f ∈ fl /\ if_name f <> name).
  { intros f. rewrite !list_elem_of_In. unfold g, P. rewrite List.filter_In. by rewrite negb_true_iff, bool_decide_eq_false. }
  assert (Hsub : sublist g fl).
  { unfold g. clear. induction fl as [|f fl IH]; cbn; [done|]. destruct (P f); by constructor. }
  split; [|split; [|split]].
  - cbn. constructor.
    + intros (f & E & Hf)%list_elem_of_fmap. apply Hin in Hf as [_ Hf]. by apply Hf.
    + eapply sublist_NoDup; [exact Hnd|]. by apply fmap_sublist.
  - cbn. apply sublist_length in Hsub. lia.
  - intros f Hf Hn. right. by apply Hin.
  - intros Hfl Hs. constructor; [done|]. apply Forall_forall. intros f Hf. apply Hin in Hf as [Hf _].
    rewrite Forall_forall in Hfl. by apply Hfl.
Qed.

(** What is known of the floors after raising one: the bound holds, no name repeats,
    and a name is forgotten only when the set is full, and never a delegated one. *)
Definition floors_kept (m : KV) (name : IName) (fl fl' : list ipnsFloor) : Prop :=
  NoDup (names fl') /\ (length fl' <= maxIPNSFloorNames)%nat /\
  forall n q, findFloor n fl = Some q -> (exists q', findFloor n fl' = Some q' /\ q <= q') \/
    (length fl = maxIPNSFloorNames /\ n <> name /\ forall d, delegationOf m = Some d -> dg_name d <> n).

Lemma evict_kept (m : KV) name seq fl out (s s1 : K) : kv s = m -> ipnsFloorsOf m = Some fl -> NoDup (names fl) -> is_u64 seq ->
  (forall q, findFloor name fl = Some q -> q <= seq) -> evict (raised name seq fl) s = (Ok out, s1) ->
  floors_kept m name fl out /\ findFloor name out = Some seq /\ Forall (fun f => is_u64 (if_seq f)) out.
Proof.
  intros <- Hfl Hnd Hs Hle H. destruct (ipnsFloorsOf_spec _ _ Hfl) as [Hlen Hu]. destruct (raised_spec name seq fl Hnd) as (Hr & Hlr & Hrin & Hru).
  apply evict_run in H as (_ & Hlo & Hsub & Hhd & Hfull & Hdel); [|lia|done].
  assert (Hno : NoDup (names out)) by (eapply sublist_NoDup; [exact Hr|]; by apply fmap_sublist).
  assert (Hname : findFloor name out = Some seq).
  { apply findFloor_elem; [done|]. destruct out; [done|]. injection Hhd as ->. by left. }
  split; [|split; [done|]].
  2: { apply Forall_forall. intros f Hf. specialize (Hru Hu Hs). rewrite Forall_forall in Hru. apply Hru. by eapply elem_of_sublist. }
  split; [done|]. split; [done|]. intros n q Hq. destruct (decide (n = name)) as [->|Hn]; [left; exists seq; split; [done|by apply Hle]|].
  apply findFloor_elem in Hq; [|done]. specialize (Hrin _ Hq Hn).
  destruct (decide (mkIpns n q ∈ out)) as [Hin|Hout]; [left; exists q; split; [by apply findFloor_elem|lia]|]. right.
  destruct Hfull as [->|Hfull]; [done|]. split; [|split; [done|]].
  - lia.
  - intros d Hd E. by apply Hout, (Hdel d).
Qed.

Lemma ipnsFloors_set (m : KV) v fl rest : encodeIPNSFloors fl = Ok v -> Forall (fun f => is_u64 (if_seq f)) fl ->
  rest = [] \/ rest = [KDelete keyIPNSSeq] -> ipnsFloorsOf (kv_applys (KSet keyIPNSFloors v :: rest) m) = Some fl.
Proof.
  intros Hv Hu Hrest. unfold ipnsFloorsOf. change (KSet keyIPNSFloors v :: rest) with ([] ++ KSet keyIPNSFloors v :: rest).
  rewrite applys_set by (destruct Hrest as [->| ->]; repeat constructor; cbn; discriminate).
  by rewrite (ipnsFloors_roundtrip fl v).
Qed.

(** C30: Raising the sequence floor of an IPNS name leaves, however it ends, a set of
    at most 32 floors with distinct names in which no floor has been lowered and none
    is missing unless the set was full, and then neither the raised name nor the name
    of the current DNSLink delegation; on success the name's floor is at least the
    sequence number. *)
Theorem ipns_floors_kept name seq legacy (s : K) r s' fl : is_u64 seq -> ipnsFloorsOf (kv s) = Some fl -> NoDup (names fl) ->
  setIPNSSeq name seq legacy s = (r, s') ->
  exists fl', ipnsFloorsOf (kv s') = Some fl' /\ floors_kept (kv s) name fl fl' /\
    (r = Ok tt -> exists q, seqOf (kv s') name legacy = Some q /\ seq <= q).
Proof.
  intros Hs Hfl Hnd H. assert (Hsame : floors_kept (kv s) name fl fl).
  { split; [done|]. split; [by eapply ipnsFloorsOf_spec|]. intros n q Hq. left. exists q. split; [done|lia]. }
  apply setIPNSSeq_run in H as [[E Hok]|(fl0 & out & v & s0 & s1 & rest & Hfl0 & E0 & E1 & Hcur & Hev & Hv & Hrest & H)]; [| |apply Hs].
  - exists fl. rewrite E. split; [done|]. split; [done|]. intros Hr. destruct (Hok Hr) as (q & Hq & ?). exists q. split; [done|lia].
  - rewrite Hfl in Hfl0. injection Hfl0 as <-. apply evict_kept with (m := kv s) in Hev as (Hk & Hn & Hu); try done.
    2: { intros q Hq. apply Hcur. unfold seqOf. rewrite Hfl. cbn. by rewrite Hq. }
    apply kv_commit_spec in H. rewrite E1 in H.
    assert (Hset := ipnsFloors_set (kv s) v out rest Hv Hu Hrest). destruct r as [[]|e].
    + exists out. rewrite H. split; [done|]. split; [done|]. intros _. exists seq. split; [|lia]. unfold seqOf. rewrite Hset. cbn. by rewrite Hn.
    + destruct H as [_ [->| ->]]; [exists fl|exists out]; (split; [done|]); by split.
Qed.

Definition runOps (ops : list fop) (s : K) : K := foldl (fun s o => snd (runOp o s)) s ops.

(** C26: No sequence of operations, whether they succeed, are refused or fail in the
    store, lowers a floor: an authority's revision only grows and at one revision
    keeps its digest, and the freshness floor never goes back. *)
Theorem floors_never_regress ops (s : K) : Forall op_ok ops -> no_regress (kv s) (kv (runOps ops s)).
Proof.
  revert s. induction ops as [|o ops IH]; intros s; [done|]. intros [Ho Hops]%Forall_cons. cbn [runOps foldl].
  transitivity (kv (snd (runOp o s))); [|by apply IH]. destruct (runOp o s) as [r s'] eqn:E. cbn [snd]. destruct o as [head cp|plans t d pub|n q lg|c|head]; cbn in E.
  - by eapply put_no_regress.
  - unfold commitAdmission in E. destruct Ho as [Ht Hr].
    apply bind_run in E as [(b & s1 & H1 & H)|(e & H1 & ->)]; apply stageAdmission_run in H1 as [<- H1]; [|done].
    eapply commit_no_regress; [|exact H]. by eapply admission_no_regress.
  - eapply setIPNSSeq_plain; [apply Ho|done].
  - apply kv_set_spec in E. assert (Hp : no_regress (kv s) (<[verifiedSegmentKey c := [Byte.x01]]> (kv s))).
    { apply (plain_no_regress [KSet (verifiedSegmentKey c) [Byte.x01]]). constructor; [apply verifiedKey_plain|done]. }
    destruct r; [by rewrite E|]. destruct E as [_ [->| ->]]; done.
  - eapply commit_no_regress; [|exact E]. apply plain_no_regress. constructor; [apply checkpointKey_plain|done].
Qed.

(** ** The admission of a document *)

(** The key of the floor an admission writes: the authority's, or the legacy
    freshness floor's for a document without one. *)
Definition admissionFloorKey (pub : option authorityFloor) : bytes :=
  match pub with Some f => authorityFloorKey (fl_authority f) | None => keyUpdatedAt end.

(** The new records of an admitted document in the store [m'], the rest as in [m]:
    [ad_frame] is over the keys of the database, so it holds of the IPNS floors, the
    legacy sequence number, the segment proofs and, beside a publication floor, the
    freshness floor. *)
Record admitted (m m' : KV) (plans : list adoptPlan) (t : Time) (d : option delegation) (pub : option authorityFloor) : Prop := {
  ad_written : forall p, p ∈ plans -> writes p -> exists cp, stored (pl_cp p) = Ok cp /\ checkpointOf m' (pl_name p) = Some cp;
  ad_others : forall head, (forall p, p ∈ plans -> writes p -> pl_name p <> head) -> checkpointOf m' head = checkpointOf m head;
  ad_floor : match pub with
             | Some f => floorOf m' (fl_authority f) = Some f
             | None => exists u, freshnessOf m' = Some u /\ time_Unix (Unix t) <= u
             end;
  ad_floors : forall a, (forall f, pub = Some f -> fl_authority f <> a) -> floorOf m' a = floorOf m a;
  ad_delegation : delegationOf m' = match d with Some d => Some d | None => delegationOf m end;
  ad_frame : forall k, (forall p, p ∈ plans -> writes p -> checkpointKey (pl_name p) <> k) -> admissionFloorKey pub <> k ->
    (is_Some d -> keyDelegation <> k) -> m' !! k = m !! k }.

Lemma plan_ops_keys (ps : list adoptPlan) (l : list kvop) : Forall2 plan_op ps l -> op_key <$> l = (fun p => checkpointKey (pl_name p)) <$> ps.
Proof. induction 1 as [|p o ps l (v & _ & -> & _) _ IH]; cbn; [done|]. by rewrite IH. Qed.

Lemma plan_ops_set (ps : list adoptPlan) (l : list kvop) (m : KV) : NoDup (pl_name <$> ps) -> Forall2 plan_op ps l ->
  forall p, p ∈ ps -> exists v, encodeCheckpoint (pl_cp p) = Ok v /\ namesOther (pl_name p) (pl_cp p) = false /\
    kv_applys l m !! checkpointKey (pl_name p) = Some v.
Proof.
  intros Hnd H. revert m. induction H as [|q o ps l (v & Hv & -> & Hn) Hl IH]; intros m p; [by intros ?%elem_of_nil|].
  cbn in Hnd. apply NoDup_cons in Hnd as [Hq Hnd]. intros [->|Hp]%elem_of_cons.
  - exists v. split; [done|]. split; [done|]. apply (applys_set [] l). apply Forall_forall. intros o Ho E. apply Hq.
    apply (list_elem_of_fmap_2 op_key) in Ho. rewrite (plan_ops_keys ps l Hl), E in Ho. apply list_elem_of_fmap in Ho as (p & Ep & Hp).
    apply checkpointKey_inj in Ep. rewrite Ep. by apply (list_elem_of_fmap_2 pl_name).
  - cbn. by apply IH.
Qed.

Lemma checkpointKey_ne head : checkpointKey head <> keyDelegation /\ checkpointKey head <> keyUpdatedAt /\ forall a, checkpointKey head <> authorityFloorKey a.
Proof. repeat split; try intros a; unfold checkpointKey, keyUpdatedAt, keyDelegation, authorityFloorKey, key; cbn; discriminate. Qed.

(** Writes under keys of checkpoints, floors and delegations do not overlap. *)
Lemma keys_apart (lp lf ld : list kvop) ps (pub : option authorityFloor) k : Forall2 plan_op ps lp ->
  Forall (fun o => op_key o = match pub with Some f => authorityFloorKey (fl_authority f) | None => keyUpdatedAt end) lf ->
  Forall (fun o => op_key o = keyDelegation) ld ->
  ((forall p, p ∈ ps -> checkpointKey (pl_name p) <> k) -> Forall (fun o => op_key o <> k) lp) /\
  (match pub with Some f => authorityFloorKey (fl_authority f) | None => keyUpdatedAt end <> k -> Forall (fun o => op_key o <> k) lf) /\
  (keyDelegation <> k -> Forall (fun o => op_key o <> k) ld).
Proof.
  intros Hp Hf Hd. repeat split; intros Hk.
  - apply Forall_forall. intros o Ho E. apply (list_elem_of_fmap_2 op_key) in Ho. rewrite (plan_ops_keys ps lp Hp) in Ho.
    apply list_elem_of_fmap in Ho as (p & Ep & Hin). apply (Hk p Hin). congruence.
  - eapply Forall_impl; [exact Hf|]. by intros o ->.
  - eapply Forall_impl; [exact Hd|]. by intros o ->.
Qed.

Lemma floorKey_ne a : authorityFloorKey a <> keyDelegation /\ authorityFloorKey a <> keyUpdatedAt /\ keyUpdatedAt <> keyDelegation.
Proof. repeat split; unfold keyUpdatedAt, keyDelegation, authorityFloorKey, key; cbn; discriminate. Qed.

Lemma admission_admitted (m : KV) plans t d pub b : admission_ops m plans t d pub b -> time_ok t ->
  (forall f, pub = Some f -> is_u64 (fl_revision f)) -> NoDup (pl_name <$> filter writes plans) ->
  Forall (fun p => writes p -> checkpoint_fits (pl_cp p)) plans -> admitted m (kv_applys b m) plans t d pub.
Proof.
  intros [(lp & lf & ld & -> & Hp & Hf & Hd) _] Ht Hr Hnd Hfits.
  assert (Hfk : Forall (fun o => op_key o = match pub with Some f => authorityFloorKey (fl_authority f) | None => keyUpdatedAt end) lf).
  { destruct pub; [destruct Hf as (v & _ & -> & _); by constructor|]. destruct Hf as [[-> _]|[-> _]]; by constructor. }
  assert (Hapart := fun k => keys_apart lp lf ld _ pub k Hp Hfk (delegation_plain d ld Hd)).
  assert (Hck : forall head, Forall (fun o => op_key o <> checkpointKey head) (lf ++ ld)).
  { intros head. destruct (checkpointKey_ne head) as (H1 & H2 & H3). destruct (Hapart (checkpointKey head)) as (_ & Hl & Hld).
    apply Forall_app. split; [apply Hl; destruct pub; congruence|apply Hld; congruence]. }
  split.
  - intros p Hin Hw. destruct (plan_ops_set _ lp m Hnd Hp p) as (v & Hv & Hn & Hset); [by apply list_elem_of_filter|].
    rewrite Forall_forall in Hfits. destruct (staged_reads _ v (pl_name p) (Hfits p Hin Hw) Hv Hn) as (cp & Hs & Hcp).
    exists cp. split; [done|]. unfold checkpointOf. rewrite applys_app, applys_other, Hset by done. cbn. by rewrite Hcp.
  - intros head Hh. unfold checkpointOf. rewrite applys_other; [done|]. apply Forall_app. split; [|done].
    apply Hapart. intros p [Hw Hin]%list_elem_of_filter E. by apply (Hh p Hin Hw), checkpointKey_inj.
  - destruct pub as [f|].
    + destruct Hf as (v & Hv & -> & _). eapply floor_set; [by apply Hr|done|]. apply applys_set. apply Hapart. apply not_eq_sym, floorKey_ne.
    + destruct Hf as [[-> (cur & Hcur & Hle)]|[-> Hlt]].
      * exists cur. rewrite (freshness_whole m cur Hcur) at 2. split; [|by apply Unix_mono].
        unfold freshnessOf, numberOf in *. rewrite applys_other; [done|]. cbn [app]. apply Forall_app. split; apply Hapart.
        -- intros p _. apply checkpointKey_ne.
        -- apply not_eq_sym. apply (floorKey_ne (arr32 [])).
      * exists (time_Unix (Unix t)). split; [|lia]. apply freshness_set; [done|]. apply applys_set, Hapart, not_eq_sym, (floorKey_ne (arr32 [])).
  - intros a Ha. unfold floorOf. rewrite applys_other; [done|]. rewrite !Forall_app. split; [|split]; apply Hapart.
    + intros p _. apply checkpointKey_ne.
    + destruct pub as [f|]; [intros E%authorityKey_inj; by apply (Ha f)|apply not_eq_sym, floorKey_ne].
    + apply not_eq_sym, floorKey_ne.
  - unfold delegationOf. destruct d as [d|].
    + destruct Hd as (v & Hv & ->). rewrite app_assoc. rewrite (applys_set (lp ++ lf) []) by done. cbn. by rewrite (delegation_roundtrip d v).
    + subst ld. rewrite app_nil_r, applys_other; [done|]. apply Forall_app. split; apply Hapart.
      * intros p _. apply checkpointKey_ne.
      * destruct pub; apply (floorKey_ne (arr32 [])) || apply floorKey_ne.
  - intros k Hkp Hkf Hkd. rewrite applys_other; [done|]. rewrite !Forall_app. destruct (Hapart k) as (A1 & A2 & A3).
    split; [apply A1; intros p [Hw Hin]%list_elem_of_filter; by apply Hkp|]. split; [by apply A2|].
    destruct d as [d|]; [apply A3, Hkd; by eexists|by subst ld].
Qed.

(** C27: Admitting a document is all or nothing: when it succeeds, every checkpoint it
    adopts reads back as written, the authority's floor is the document's (or the
    legacy freshness floor has reached its date), the delegation is the document's and
    every other row of the database is as before (other heads' checkpoints and
    authorities' floors, the IPNS floors, the segment proofs, and the freshness floor
    beside a publication floor); when it fails nothing has changed, except that a
    failure of the commit itself may have taken effect as a whole. *)
Theorem admission_atomic plans t d pub (s : K) r s' : time_ok t -> (forall f, pub = Some f -> is_u64 (fl_revision f)) ->
  NoDup (pl_name <$> filter writes plans) -> Forall (fun p => writes p -> checkpoint_fits (pl_cp p)) plans ->
  commitAdmission plans t d pub s = (r, s') ->
  match r with
  | Ok _ => admitted (kv s) (kv s') plans t d pub
  | Err e => kv s' = kv s \/ (e = EIO /\ admitted (kv s) (kv s') plans t d pub)
  end.
Proof.
  intros Ht Hr Hnd Hfits. unfold commitAdmission.
  intros [(b & s1 & H1 & H)|(e & H1 & ->)]%bind_run; apply stageAdmission_run in H1 as [Hk H1]; [|by left].
  assert (Ha := admission_admitted _ _ _ _ _ _ H1 Ht Hr Hnd Hfits). apply kv_commit_spec in H. rewrite Hk in H.
  destruct r; [by rewrite H|]. destruct H as [-> [->| ->]]; auto.
Qed.
End FollowStateCorrect.
