(* ===== verification/SourceState.v ===== *)
(** The durable state of a source set: follow/source_state.go.

    A follower of several publication sources remembers, in the same key-value store as
    its other memory, which roster it last acknowledged (the marker), the permanent
    one-to-one binding of source IDs and publication keys, and per source the
    publication floor, the IPNS sequence floors and the DNSLink delegation.  A batch
    under construction is the list of its writes, never nil. *)
From Stdlib Require Import Ascii.
From Stdlib Require String.
From S2P Require Import Prelude Cid Schema Core Engine Ledger Wire Json JsonDecode Publication PublicationJson Claims Arbitration Checkpoint FollowState.

Definition maxSourceSetBindings : nat := 32.
Definition sourceStateKeySep : byte := Byte.x3a. (* ':' *)
Definition sourceStateEncodingV1 : byte := Byte.x01.
Definition sourceStateEncodingV2 : byte := Byte.x02.
Definition sourceSetFeatureConflictLatch : Z := Z.shiftl 1 0.
Definition sourceSetKnownFeatures : Z := sourceSetFeatureConflictLatch.
Definition sourceSetMarkerKey : bytes := key "source_set:v1".

Record sourceRef : Type := mkRef { sr_archiveID : ArchiveID; sr_sourceID : string }.
#[global] Instance sourceRef_eq_dec : EqDecision sourceRef.
Proof. solve_decision. Defined.
Record sourceBinding : Type := mkBinding { sb_sourceID : string; sb_pubkey : array32 }.
Record sourceSetMarker : Type := mkMarker { sm_archiveID : ArchiveID; sm_revision : Z; sm_digest : array32; sm_features : Z }.
Record sourcePublicationFloor : Type := mkSourceFloor { sp_revision : Z; sp_digest : array32 }.

Definition validateSourceRef (ref : sourceRef) : res unit :=
  refuse_if ArchiveID_IsZero (sr_archiveID ref) with EInvalid "source state requires a nonzero archive ID" ;;
  validateSourceID (sr_sourceID ref).

(** ** Keys *)

Definition sourceArchivePrefix (prefix : string) (archiveID : ArchiveID) : bytes :=
  key prefix ++ aid_bytes archiveID ++ [sourceStateKeySep].
Definition sourceScopedKey (prefix : string) (ref : sourceRef) : bytes :=
  sourceArchivePrefix prefix (sr_archiveID ref) ++ string_bytes (sr_sourceID ref).
Definition keySourceBinding : string := "source_binding:v1:".
Definition keySourceSigner : string := "source_signer:v1:".
Definition keySourcePublication : string := "source_publication:v1:".
Definition keySourceIPNSFloors : string := "source_ipns_floors:v1:".
Definition keySourceDelegation : string := "source_delegation:v1:".
Definition sourceSignerKey (archiveID : ArchiveID) (pubkey : array32) : bytes :=
  key keySourceSigner ++ aid_bytes archiveID ++ [sourceStateKeySep] ++ aid_bytes pubkey.

(** ** Records *)

(** [marker.features &^ sourceSetKnownFeatures] *)
Definition encodeSourceSetMarker (marker : sourceSetMarker) : res bytes :=
  refuse_if ArchiveID_IsZero (sm_archiveID marker) with EInvalid "marker has an empty archive ID" ;;
  refuse_if sm_revision marker =? 0 with EInvalid "marker has revision 0" ;;
  refuse_if negb (Z.ldiff (sm_features marker) sourceSetKnownFeatures =? 0) with EInvalid "unknown feature bits" ;;
  let version := if negb (sm_features marker =? 0) then sourceStateEncodingV2 else sourceStateEncodingV1 in
  Ok ([version] ++ aid_bytes (sm_archiveID marker) ++ PutUint64 (sm_revision marker) ++ aid_bytes (sm_digest marker)
      ++ (if negb (sm_features marker =? 0) then PutUint64 (sm_features marker) else [])).

Definition decodeSourceSetMarker (b : bytes) : res sourceSetMarker :=
  refuse_if negb (length b =? 73)%nat && negb (length b =? 81)%nat with EInvalid "unsupported or truncated encoding" ;;
  let v := at_ 0 b in
  refuse_if (v =? 1) && negb (length b =? 73)%nat || (v =? 2) && negb (length b =? 81)%nat || negb (v =? 1) && negb (v =? 2)
    with EInvalid "unsupported or truncated encoding" ;;
  let features := if v =? 2 then Uint64 (slice 73 81 b) else 0 in
  refuse_if (v =? 2) && (features =? 0) with EInvalid "marker v2 has no enabled features" ;;
  let marker := mkMarker (arr32 (slice 1 33 b)) (Uint64 (slice 33 41 b)) (arr32 (slice 41 73 b)) features in
  _ <-? encodeSourceSetMarker marker ;; Ok marker.

Definition encodeSourceBinding (binding : sourceBinding) : res bytes :=
  _ <-? validateSourceID (sb_sourceID binding) ;;
  refuse_if isZero32 (sb_pubkey binding) with EInvalid "empty pinned publication key" ;;
  Ok ([sourceStateEncodingV1] ++ aid_bytes (sb_pubkey binding)).

Definition decodeSourceBinding (sourceID : string) (b : bytes) : res sourceBinding :=
  refuse_if negb (length b =? 33)%nat || negb (at_ 0 b =? 1) with EInvalid "unsupported or truncated encoding" ;;
  let binding := mkBinding sourceID (arr32 (drop 1 b)) in
  _ <-? encodeSourceBinding binding ;; Ok binding.

Definition encodeSourceSignerBinding (sourceID : string) : res bytes :=
  _ <-? validateSourceID sourceID ;;
  Ok ([sourceStateEncodingV1; byte_of_Z (len (string_bytes sourceID))] ++ string_bytes sourceID).

Definition decodeSourceSignerBinding (b : bytes) : res string :=
  refuse_if (length b <? 2)%nat || negb (at_ 0 b =? 1) || negb (at_ 1 b =? len b - 2) with EInvalid "unsupported or truncated encoding" ;;
  let sourceID := bytes_string (drop 2 b) in
  _ <-? validateSourceID sourceID ;; Ok sourceID.

Definition encodeSourcePublicationFloor (floor : sourcePublicationFloor) : res bytes :=
  refuse_if sp_revision floor =? 0 with EInvalid "revision 0" ;;
  Ok ([sourceStateEncodingV1] ++ PutUint64 (sp_revision floor) ++ aid_bytes (sp_digest floor)).

Definition decodeSourcePublicationFloor (b : bytes) : res sourcePublicationFloor :=
  refuse_if negb (length b =? 41)%nat || negb (at_ 0 b =? 1) with EInvalid "unsupported or truncated encoding" ;;
  let floor := mkSourceFloor (Uint64 (slice 1 9 b)) (arr32 (drop 9 b)) in
  _ <-? encodeSourcePublicationFloor floor ;; Ok floor.

(** The floor of the single-source state, found by a scan. *)
Definition decodeAuthorityFloorValue (authority : array32) (b : bytes) : res authorityFloor :=
  refuse_if negb (length b =? 41)%nat || negb (at_ 0 b =? 1) with EInvalid "unsupported or truncated encoding" ;;
  let floor := mkFloor authority (Uint64 (slice 1 9 b)) (arr32 (drop 9 b)) in
  refuse_if (fl_revision floor =? 0) || isZero32 (fl_authority floor) with EInvalid "invalid legacy floor" ;; Ok floor.

Section SourceState.
Context {IN : IpnsNames} {K : Type} `{PB : !Pebble K}.

Record sourceLegacyMigration : Type := mkMigration { lm_sourceID : string; lm_directIPNSName : option IName }.
Record sourceSetActivation : Type := mkActivation {
  sa_marker : sourceSetMarker; sa_bindings : list sourceBinding; sa_legacyMigration : option sourceLegacyMigration }.

(** [kv.Get] through a decoder. *)
Definition readWith {A} (k : bytes) (decode : bytes -> res A) : M K (option A) :=
  v <-- kv_get k ;;
  match v with
  | None => ret None
  | Some v => a <-- lift (decode v) ;; ret (Some a)
  end.

Definition readSourceSetMarker : M K (option sourceSetMarker) := readWith sourceSetMarkerKey decodeSourceSetMarker.

Definition readSourceBinding (ref : sourceRef) : M K (option sourceBinding) :=
  lift (validateSourceRef ref) ;;;
  readWith (sourceScopedKey keySourceBinding ref) (decodeSourceBinding (sr_sourceID ref)).

Definition sourceSignerBinding (archiveID : ArchiveID) (pubkey : array32) : M K (option string) :=
  fail_if ArchiveID_IsZero archiveID with EInvalid "source signer state requires a nonzero archive ID" ;;
  fail_if isZero32 pubkey with EInvalid "source signer state requires a nonzero publication key" ;;
  readWith (sourceSignerKey archiveID pubkey) decodeSourceSignerBinding.

(** ** Scans *)

Definition prefixUpperBound (prefix : bytes) : option bytes := keyUpperBound prefix.

(** [it.First], then [it.Error]: a row that is there hides a later failure. *)
Definition hasKeyPrefix (prefix : bytes) : M K bool :=
  let* (rows, e) := kv_scan prefix (prefixUpperBound prefix) in
  match rows, e with
  | _ :: _, _ => ret true
  | [], Some e => fail e
  | [], None => ret false
  end.
Definition hasSourceScopedRows : M K bool := hasKeyPrefix (key "source_").

(** [found] is empty until a binding of the key is found. *)
Fixpoint retainedLoop (lower : bytes) (pubkey : array32) (found : string) (rows : list (bytes * bytes)) : res string :=
  match rows with
  | [] => Ok found
  | (k, v) :: rest =>
    let sourceID := bytes_string (drop (length lower) k) in
    binding <-? decodeSourceBinding sourceID v ;;
    if negb (bool_decide (sb_pubkey binding = pubkey)) then retainedLoop lower pubkey found rest else
    refuse_if negb (emptyStr found) && negb (bool_decide (found = sourceID)) with EInvalid "multiple retained forward bindings" ;;
    retainedLoop lower pubkey sourceID rest
  end.
Definition retainedSourceForSigner (archiveID : ArchiveID) (pubkey : array32) : M K (option string) :=
  let lower := sourceArchivePrefix keySourceBinding archiveID in
  let* (rows, e) := kv_scan lower (prefixUpperBound lower) in
  found <-- lift (retainedLoop lower pubkey EmptyString rows) ;;
  match e with
  | Some e => fail e
  | None => ret (if emptyStr found then None else Some found)
  end.

(** ** Validation of a roster *)

(** The zero Name, whose CID is undefined, is no value of [IName]. *)
Definition checkedIPNSName (name : IName) : res string :=
  let raw := iname_String name in
  match NameFromString raw with
  | Some parsed => refuse_if negb (bool_decide (parsed = name)) with EInvalid "non-canonical IPNS name" ;; Ok raw
  | None => Err (EInvalid "non-canonical IPNS name")
  end.

Definition binding_le (a b : sourceBinding) : Prop :=
  bytes_ltb (string_bytes (sb_sourceID b)) (string_bytes (sb_sourceID a)) = false.
#[global] Instance binding_le_dec : RelDecision binding_le.
Proof. intros a b. unfold binding_le. apply _. Defined.

(** [prior] is the source ID before, [keys] the publication keys met. *)
Fixpoint checkBindings (prior : option string) (keys : list array32) (l : list sourceBinding) : res unit :=
  match l with
  | [] => Ok tt
  | b :: rest =>
    _ <-? encodeSourceBinding b ;;
    refuse_if bool_decide (prior = Some (sb_sourceID b)) with EInvalid "source set repeats a source ID" ;;
    refuse_if bool_decide (sb_pubkey b ∈ keys) with EInvalid "two sources use the same publication key" ;;
    checkBindings (Some (sb_sourceID b)) (sb_pubkey b :: keys) rest
  end.

Definition findBinding (sourceID : string) (l : list sourceBinding) : option sourceBinding :=
  List.find (fun b => bool_decide (sb_sourceID b = sourceID)) l.

Definition validateSourceSetActivation (activation : sourceSetActivation) : res (list sourceBinding) :=
  _ <-? encodeSourceSetMarker (sa_marker activation) ;;
  refuse_if (length (sa_bindings activation) =? 0)%nat || (maxSourceSetBindings <? length (sa_bindings activation))%nat
    with EInvalid "number of bindings" ;;
  let bindings := merge_sort binding_le (sa_bindings activation) in
  _ <-? checkBindings None [] bindings ;;
  match sa_legacyMigration activation with
  | None => Ok bindings
  | Some migration =>
    _ <-? validateSourceID (lm_sourceID migration) ;;
    match findBinding (lm_sourceID migration) bindings with
    | None => Err (EInvalid "legacy migration names a source outside the roster")
    | Some _ =>
      match lm_directIPNSName migration with
      | None => Ok bindings
      | Some name => _ <-? checkedIPNSName name ;; Ok bindings
      end
    end
  end.

(** ** Per-source floors *)

Definition readSourcePublicationFloor (ref : sourceRef) : M K (option sourcePublicationFloor) :=
  lift (validateSourceRef ref) ;;;
  readWith (sourceScopedKey keySourcePublication ref) decodeSourcePublicationFloor.

(** [s.sourceBinding] of a source that must have one. *)
Definition boundSource (ref : sourceRef) : M K sourceBinding :=
  b <-- readSourceBinding ref ;;
  match b with
  | None => fail (EInvalid "source has no durable binding")
  | Some b => ret b
  end.

Definition stageSourcePublicationFloor (b : list kvop) (ref : sourceRef) (floor : sourcePublicationFloor) : M K (list kvop) :=
  boundSource ref ;;;
  current <-- readSourcePublicationFloor ref ;;
  let stage := (encoded <-- lift (encodeSourcePublicationFloor floor) ;;
                ret (b ++ [KSet (sourceScopedKey keySourcePublication ref) encoded])) in
  match current with
  | Some cur =>
    fail_if sp_revision floor <? sp_revision cur with EInvalid "refusing to lower the source publication floor" ;;
    fail_if (sp_revision floor =? sp_revision cur) && negb (bool_decide (sp_digest floor = sp_digest cur))
      with EInvalid "conflicting digests at one publication revision" ;;
    stage
  | None => stage
  end.

(** The decoders are those of the single-source records, in other words. *)
Definition decodeSourceIPNSFloors (v : bytes) : res (list ipnsFloor) := decodeIPNSFloors v.
Definition decodeSourceDelegation (v : bytes) : res delegation := decodeDelegation v.

Definition sourceIPNSFloors (ref : sourceRef) : M K (list ipnsFloor) :=
  lift (validateSourceRef ref) ;;;
  v <-- kv_get (sourceScopedKey keySourceIPNSFloors ref) ;;
  match v with
  | None => ret []
  | Some v => lift (decodeSourceIPNSFloors v)
  end.

Definition sourceIPNSSeq (ref : sourceRef) (name : IName) : M K (option Z) :=
  lift (checkedIPNSName name) ;;;
  floors <-- sourceIPNSFloors ref ;;
  ret (findFloor name floors).

Definition readSourceDelegation (ref : sourceRef) : M K (option delegation) :=
  lift (validateSourceRef ref) ;;;
  v <-- kv_get (sourceScopedKey keySourceDelegation ref) ;;
  match v with
  | None => ret None
  | Some v =>
    d <-- lift (decodeSourceDelegation v) ;;
    binding <-- readSourceBinding ref ;;
    match binding with
    | None => fail (EInvalid "DNSLink delegation has no durable source binding")
    | Some binding =>
      fail_if negb (bool_decide (dg_pubkey d = aid_bytes (sb_pubkey binding))) with EInvalid "delegation signer differs from the binding" ;;
      ret (Some d)
    end
  end.

(** [out[0]] takes the greatest sequence recorded for the name; the rest keep their order. *)
Definition mergeFloor (name : IName) (seq : Z) (floors : list ipnsFloor) : list ipnsFloor :=
  let same f := bool_decide (if_name f = name) in
  mkIpns name (foldl Z.max seq (if_seq <$> List.filter same floors)) :: List.filter (fun f => negb (same f)) floors.

Definition stageSourceIPNSSeq (b : list kvop) (ref : sourceRef) (name : IName) (seq : Z) : M K (list kvop) :=
  lift (checkedIPNSName name) ;;;
  boundSource ref ;;;
  floors <-- sourceIPNSFloors ref ;;
  let out := mergeFloor name seq floors in
  out <-- (if (maxIPNSFloorNames <? length out)%nat then
             protected <-- readSourceDelegation ref ;;
             let last := (length out - 1)%nat in
             let keep := match protected with
                         | Some p => match out !! last with Some f => bool_decide (if_name f = dg_name p) | None => false end
                         | None => false
                         end in
             ret (dropAt (if keep then last - 1 else last) out)
           else ret out) ;;
  encoded <-- lift (encodeIPNSFloors out) ;;
  ret (b ++ [KSet (sourceScopedKey keySourceIPNSFloors ref) encoded]).

Definition stageSourceDelegation (b : list kvop) (ref : sourceRef) (d : delegation) : M K (list kvop) :=
  binding <-- boundSource ref ;;
  fail_if negb (bool_decide (dg_pubkey d = aid_bytes (sb_pubkey binding))) with EInvalid "delegation signer differs from the pinned key" ;;
  encoded <-- lift (encodeDelegation d) ;;
  ret (b ++ [KSet (sourceScopedKey keySourceDelegation ref) encoded]).

(** ** The legacy single-source state *)

Record legacySourceState : Type := mkLegacy {
  ls_authority : option authorityFloor; ls_ipns : list ipnsFloor; ls_unnamed : option Z;
  ls_delegate : option delegation; ls_other : bool }.
Definition legacy_present (legacy : legacySourceState) : bool :=
  present (ls_authority legacy) || negb (length (ls_ipns legacy) =? 0)%nat || present (ls_unnamed legacy)
  || present (ls_delegate legacy) || ls_other legacy.

Fixpoint legacyAuthorityLoop (lower : bytes) (found : option authorityFloor) (rows : list (bytes * bytes)) : res (option authorityFloor) :=
  match rows with
  | [] => Ok found
  | (k, v) :: rest =>
    refuse_if negb (length k =? length lower + 32)%nat with EInvalid "invalid key" ;;
    refuse_if present found with EInvalid "multiple legacy publication authorities" ;;
    floor <-? decodeAuthorityFloorValue (arr32 (drop (length lower) k)) v ;;
    legacyAuthorityLoop lower (Some floor) rest
  end.

Fixpoint anyKeyPrefix (acc : bool) (prefixes : list string) : M K bool :=
  match prefixes with
  | [] => ret acc
  | p :: rest => has <-- hasKeyPrefix (key p) ;; anyKeyPrefix (acc || has) rest
  end.

Definition readLegacySourceState : M K legacySourceState :=
  u <-- kv_get keyUpdatedAt ;;
  other <-- anyKeyPrefix (present u) ["checkpoint:"; "synced_to:"; "manifest:"]%string ;;
  let lower := key "authority:v1:" in
  let* (rows, e) := kv_scan lower (prefixUpperBound lower) in
  authority <-- lift (legacyAuthorityLoop lower None rows) ;;
  match e with
  | Some e => fail e
  | None =>
    floors <-- ipnsFloors ;;
    unnamed <-- get keyIPNSSeq ;;
    delegate <-- readDelegation ;;
    ret (mkLegacy authority floors unnamed delegate other)
  end.

Definition buildLegacySourceMigration (archiveID : ArchiveID) (bindings : list sourceBinding) (migration : sourceLegacyMigration)
    (legacy : legacySourceState) : res (list kvop) :=
  match findBinding (lm_sourceID migration) bindings with
  | None => Err (EInvalid "legacy migration source is not bound")
  | Some binding =>
    let ref := mkRef archiveID (lm_sourceID migration) in
    authority <-? match ls_authority legacy with
                  | None => Ok []
                  | Some a =>
                    refuse_if negb (bool_decide (fl_authority a = sb_pubkey binding)) with EInvalid "legacy authority does not match the pinned key" ;;
                    encoded <-? encodeSourcePublicationFloor (mkSourceFloor (fl_revision a) (fl_digest a)) ;;
                    Ok [KSet (sourceScopedKey keySourcePublication ref) encoded]
                  end ;;
    refuse_if match ls_delegate legacy with Some d => negb (bool_decide (dg_pubkey d = aid_bytes (sb_pubkey binding))) | None => false end
      with EInvalid "legacy delegation signer does not match the pinned key" ;;
    floors <-? match ls_unnamed legacy with
               | None => Ok (ls_ipns legacy)
               | Some seq => match lm_directIPNSName migration with
                             | None => Err (EInvalid "unnamed legacy IPNS floor requires a name")
                             | Some name => Ok (mergeFloor name seq (ls_ipns legacy))
                             end
               end ;;
    refuse_if (maxIPNSFloorNames <? length floors)%nat with EInvalid "too many distinct IPNS names" ;;
    ipns <-? (if (length floors =? 0)%nat then Ok [] else
              encoded <-? encodeIPNSFloors floors ;; Ok [KSet (sourceScopedKey keySourceIPNSFloors ref) encoded]) ;;
    delegate <-? match ls_delegate legacy with
                 | None => Ok []
                 | Some d => encoded <-? encodeDelegation d ;; Ok [KSet (sourceScopedKey keySourceDelegation ref) encoded]
                 end ;;
    Ok (authority ++ ipns ++ delegate)
  end.

(** ** Activation *)

(** One binding of the roster: what is durable must agree, what is missing is staged. *)
Definition stageBinding (archiveID : ArchiveID) (unchanged : bool) (binding : sourceBinding) : M K (list kvop) :=
  let ref := mkRef archiveID (sb_sourceID binding) in
  current <-- readSourceBinding ref ;;
  fail_if match current with Some c => negb (bool_decide (sb_pubkey c = sb_pubkey binding)) | None => false end
    with EInvalid "source ID is permanently bound to a different publication key" ;;
  signer <-- sourceSignerBinding archiveID (sb_pubkey binding) ;;
  (match signer with
   | Some _ => ret tt
   | None =>
     retained <-- retainedSourceForSigner archiveID (sb_pubkey binding) ;;
     fail_if present retained with EInvalid "forward binding without its reverse" ;; ret tt
   end) ;;;
  fail_if match signer with Some s => negb (bool_decide (s = sb_sourceID binding)) | None => false end
    with EInvalid "publication key is permanently bound to another source ID" ;;
  fail_if negb (Bool.eqb (present current) (present signer)) with EInvalid "only one half of the binding" ;;
  fail_if negb (present current) && unchanged with EInvalid "unchanged source-set digest introduces an unbound source" ;;
  forward <-- (if present current then ret [] else
               encoded <-- lift (encodeSourceBinding binding) ;; ret [KSet (sourceScopedKey keySourceBinding ref) encoded]) ;;
  reverse <-- (if present signer then ret [] else
               encoded <-- lift (encodeSourceSignerBinding (sb_sourceID binding)) ;;
               ret [KSet (sourceSignerKey archiveID (sb_pubkey binding)) encoded]) ;;
  ret (forward ++ reverse).

Fixpoint stageBindings (archiveID : ArchiveID) (unchanged : bool) (bindings : list sourceBinding) : M K (list kvop) :=
  match bindings with
  | [] => ret []
  | binding :: rest =>
    ops <-- stageBinding archiveID unchanged binding ;;
    more <-- stageBindings archiveID unchanged rest ;;
    ret (ops ++ more)
  end.

(** The acknowledged marker admits the new one; store features are carried over. *)
Definition admitMarker (marker next : sourceSetMarker) : res sourceSetMarker :=
  refuse_if negb (bool_decide (sm_archiveID marker = sm_archiveID next)) with EInvalid "archive ID cannot change" ;;
  refuse_if sm_revision next <? sm_revision marker with EInvalid "revision rollback" ;;
  refuse_if (sm_revision next =? sm_revision marker) && negb (bool_decide (sm_digest next = sm_digest marker))
    with EInvalid "conflicting digests at one revision" ;;
  refuse_if negb (bool_decide (sm_digest next = sm_digest marker)) && (sm_revision next <=? sm_revision marker)
    with EInvalid "changed digest requires a higher revision" ;;
  Ok (mkMarker (sm_archiveID next) (sm_revision next) (sm_digest next) (sm_features marker)).

Definition stageSourceSetActivation (b : list kvop) (activation : sourceSetActivation) : M K (list kvop) :=
  bindings <-- lift (validateSourceSetActivation activation) ;;
  current <-- readSourceSetMarker ;;
  next <-- (match current with
            | Some marker => lift (admitMarker marker (sa_marker activation))
            | None =>
              fail_if negb (sm_features (sa_marker activation) =? 0) with EInvalid "a fresh activation cannot enable store features" ;;
              orphaned <-- hasSourceScopedRows ;;
              fail_if orphaned with EInvalid "source-scoped rows exist without a marker" ;;
              ret (sa_marker activation)
            end) ;;
  markerBytes <-- lift (encodeSourceSetMarker next) ;;
  let unchanged := match current with Some marker => bool_decide (sm_digest next = sm_digest marker) | None => false end in
  bound <-- stageBindings (sm_archiveID next) unchanged bindings ;;
  migrated <-- (match current with
                | Some _ => ret []
                | None =>
                  legacy <-- readLegacySourceState ;;
                  match sa_legacyMigration activation with
                  | None => fail_if legacy_present legacy with EInvalid "legacy single-source state requires a migration source" ;; ret []
                  | Some migration => lift (buildLegacySourceMigration (sm_archiveID next) bindings migration legacy)
                  end
                end) ;;
  ret (b ++ KSet sourceSetMarkerKey markerBytes :: bound ++ migrated).

Definition activateSourceSet (activation : sourceSetActivation) : M K unit :=
  b <-- stageSourceSetActivation [] activation ;; kv_commit b.
End SourceState.

(** ** Admission of the documents of several sources: follow/source_admission.go *)

Section SourceAdmission.
Context `{MH : Multihash} `{CC : !CidBytes} `{CT : !CidText} {IN : IpnsNames} {K : Type} `{PB : !Pebble K}.
Local Abbreviation checkpoint := (@checkpoint MH).

Record sourceDocumentAdmission : Type := mkSourceAdmission {
  ad_ref : sourceRef; ad_updatedAt : Time; ad_publication : sourcePublicationFloor; ad_delegation : option delegation }.

(** The part of a resolved candidate that its admission is made of. *)
Record resolvedGeneration : Type := mkResolvedGeneration {
  rg_updatedAt : Time; rg_authority : array32; rg_revision : Z; rg_digest : array32; rg_revisioned : bool; rg_delegation : option delegation }.

(** A source that is there, with its reference and its pinned key. *)
Definition makeSourceDocumentAdmission (ref : sourceRef) (pubKey : bytes) (candidate : option resolvedGeneration) : res sourceDocumentAdmission :=
  match candidate with
  | None => Err (EInvalid "source admission requires a revisioned candidate")
  | Some c =>
    refuse_if negb (rg_revisioned c) with EInvalid "source admission requires a revisioned candidate" ;;
    refuse_if isZero32 (rg_authority c) || (rg_revision c =? 0) with EInvalid "candidate has invalid publication provenance" ;;
    refuse_if negb (bool_decide (aid_bytes (rg_authority c) = pubKey)) with EInvalid "candidate authority differs from its pinned key" ;;
    Ok (mkSourceAdmission ref (rg_updatedAt c) (mkSourceFloor (rg_revision c) (rg_digest c)) (rg_delegation c))
  end.

(** [bySource] is the list of the admissions met, by source ID. *)
Fixpoint checkAdmissions (archiveID : ArchiveID) (seen : list string) (l : list sourceDocumentAdmission) : res unit :=
  match l with
  | [] => Ok tt
  | a :: rest =>
    _ <-? validateSourceRef (ad_ref a) ;;
    refuse_if negb (bool_decide (sr_archiveID (ad_ref a) = archiveID)) with EInvalid "admission belongs to another archive" ;;
    refuse_if (Unix (ad_updatedAt a) <? 0) || (sp_revision (ad_publication a) =? 0) with EInvalid "invalid document generation" ;;
    refuse_if bool_decide (sr_sourceID (ad_ref a) ∈ seen) with EInvalid "source admission repeats a source" ;;
    checkAdmissions archiveID (sr_sourceID (ad_ref a) :: seen) rest
  end.
Definition admissionOf (sourceID : string) (l : list sourceDocumentAdmission) : option sourceDocumentAdmission :=
  List.find (fun a => bool_decide (sr_sourceID (ad_ref a) = sourceID)) l.

Definition checkSourcePlan (archiveID : ArchiveID) (admissions : list sourceDocumentAdmission) (cp : checkpoint) : M K unit :=
  fail_if negb (cp_version cp =? checkpointVersionV4) with EInvalid "source admission refuses the checkpoint version" ;;
  fail_if negb (bool_decide (cp_archiveID cp = archiveID)) with EInvalid "checkpoint of another archive" ;;
  match admissionOf (cp_sourceID cp) admissions with
  | None => fail (EInvalid "checkpoint names a source without an admitted document")
  | Some admission =>
    binding <-- readSourceBinding (ad_ref admission) ;;
    fail_if match binding with Some b => negb (bool_decide (sb_pubkey b = cp_authority cp)) | None => true end
      with EInvalid "checkpoint authority is not the durable binding" ;;
    fail_if negb (cp_revision cp =? sp_revision (ad_publication admission)) || negb (bool_decide (cp_digest cp = sp_digest (ad_publication admission)))
      with EInvalid "checkpoint generation differs from the publication floor" ;;
    fail_if negb (Defined (cp_root cp)) && cp_selected cp with EInvalid "selected checkpoint has an undefined root" ;;
    fail_if Unix (cp_updatedAt cp) <? 0 with EInvalid "invalid timestamp" ;; ret tt
  end.

Fixpoint stageSourcePlans (archiveID : ArchiveID) (admissions : list sourceDocumentAdmission) (b : list kvop) (plans : list adoptPlan) : M K (list kvop) :=
  match plans with
  | [] => ret b
  | plan :: rest =>
    if negb (pl_writeCheckpoint plan) then stageSourcePlans archiveID admissions b rest else
    checkSourcePlan archiveID admissions (pl_cp plan) ;;;
    b <-- lift (stageCheckpoint b (pl_name plan) (pl_cp plan)) ;;
    stageSourcePlans archiveID admissions b rest
  end.

Fixpoint stageSourceFloors (b : list kvop) (l : list sourceDocumentAdmission) : M K (list kvop) :=
  match l with
  | [] => ret b
  | a :: rest =>
    b <-- stageSourcePublicationFloor b (ad_ref a) (ad_publication a) ;;
    b <-- match ad_delegation a with None => ret b | Some d => stageSourceDelegation b (ad_ref a) d end ;;
    stageSourceFloors b rest
  end.

Definition stageSourceAdmission (b : list kvop) (archiveID : ArchiveID) (plans : list adoptPlan) (admissions : list sourceDocumentAdmission) : M K (list kvop) :=
  fail_if ArchiveID_IsZero archiveID with EInvalid "empty archive ID" ;;
  lift (checkAdmissions archiveID [] admissions) ;;;
  b <-- stageSourcePlans archiveID admissions b plans ;;
  stageSourceFloors b admissions.

(** The part of an observation that is made durable. *)
Record sourceChannelObs : Type := mkObs { ob_ref : sourceRef; ob_hasIPNSSeq : bool; ob_ipnsName : IName; ob_ipnsSeq : Z }.

Definition repeatsRef (ref : sourceRef) (seen : list sourceRef) : bool :=
  existsb (fun r => bool_decide (sr_archiveID r = sr_archiveID ref) && bool_decide (sr_sourceID r = sr_sourceID ref)) seen.
Fixpoint stageObservations (b : list kvop) (seen : list sourceRef) (l : list sourceChannelObs) : M K (list kvop) :=
  match l with
  | [] => ret b
  | obs :: rest =>
    if negb (ob_hasIPNSSeq obs) then stageObservations b seen rest else
    fail_if repeatsRef (ob_ref obs) seen with EInvalid "observations repeat a source" ;;
    b <-- stageSourceIPNSSeq b (ob_ref obs) (ob_ipnsName obs) (ob_ipnsSeq obs) ;;
    stageObservations b (ob_ref obs :: seen) rest
  end.
Definition stageSourceObservations (b : list kvop) (l : list sourceChannelObs) : M K (list kvop) := stageObservations b [] l.
End SourceAdmission.
