(* ===== verification/SourceStateCorrect.v ===== *)
(** The durable state of a source set: the proofs about SourceState.v.

    Proved: over any sequence of activations, admissions and observations, however they
    end, a source ID and a publication key that were bound stay bound to each other and
    to nothing else, the acknowledged roster is never rolled back and its store features
    are never dropped, and no publication floor of a source is lowered; the first
    activation copies the single-source floors and leaves them where they were. *)
From Stdlib Require Import Ascii.
From Stdlib Require String.
From S2P Require Import Prelude Cid Schema Core Engine Ledger Wire Json JsonDecode Publication PublicationJson Claims Arbitration Checkpoint CheckpointCorrect FollowState FollowStateCorrect SourceState.

Local Abbreviation KV := (gmap bytes bytes).

(** ** Keys *)

Lemma archivePrefix_inj p a b x y : sourceArchivePrefix p a ++ x = sourceArchivePrefix p b ++ y -> a = b /\ x = y.
Proof.
  unfold sourceArchivePrefix. rewrite <- !app_assoc. intros E%app_inv_head. apply app_inj_1 in E as [E1%aid_eq E2]; [|by rewrite !aid_length].
  cbn in E2. injection E2 as ->. done.
Qed.
Lemma scopedKey_inj p r q : sourceScopedKey p r = sourceScopedKey p q -> r = q.
Proof. unfold sourceScopedKey. intros [? ?%string_bytes_inj]%archivePrefix_inj. destruct r, q; cbn in *; congruence. Qed.
Lemma signerKey_inj a b p q : sourceSignerKey a p = sourceSignerKey b q -> a = b /\ p = q.
Proof.
  unfold sourceSignerKey. intros E%app_inv_head. apply app_inj_1 in E as [E1%aid_eq E2]; [|by rewrite !aid_length].
  cbn in E2. injection E2 as ?%aid_eq. done.
Qed.

(** Keys of different kinds differ in a byte of their constant prefix. *)
Ltac keys_apart := unfold sourceScopedKey, sourceSignerKey, sourceArchivePrefix, sourceSetMarkerKey, keySourceBinding, keySourceSigner,
  keySourcePublication, keySourceIPNSFloors, keySourceDelegation, checkpointKey, keyUpdatedAt, keyIPNSSeq, keyIPNSFloors, keyDelegation,
  authorityFloorKey, verifiedSegmentKey, syncedToKey, manifestKey, key; cbn; discriminate.

(** ** Records read back *)

Lemma features_01 f : Z.ldiff f 1 = 0 -> f = 0 \/ f = 1.
Proof.
  intros E. pose proof (Z.lor_ldiff_and f 1) as H. rewrite E, Z.lor_0_l in H. change 1 with (Z.ones 1) in H. rewrite Z.land_ones in H by lia.
  pose proof (Z.mod_pos_bound f (2 ^ 1)). lia.
Qed.

Lemma marker_roundtrip mk v : is_u64 (sm_revision mk) -> encodeSourceSetMarker mk = Ok v -> decodeSourceSetMarker v = Ok mk.
Proof.
  intros Hr He. pose proof He as He'. unfold encodeSourceSetMarker in He. destruct (ArchiveID_IsZero _); [done|]. destruct (sm_revision mk =? 0); [done|].
  destruct (negb _) eqn:Ef; [done|]. apply negb_false_iff, Z.eqb_eq, features_01 in Ef. destruct mk as [a rv d f]; cbn [sm_archiveID sm_revision sm_digest sm_features] in *.
  destruct Ef as [-> | ->]; cbn [Z.eqb negb] in He.
  - set (parts := [[sourceStateEncodingV1]; aid_bytes a; PutUint64 rv; aid_bytes d]).
    assert (Eb : v = concat parts) by (injection He as <-; unfold parts; cbn [concat]; by rewrite app_nil_r). clear He. rewrite Eb in *.
    unfold decodeSourceSetMarker. assert (Hl : length (concat parts) = 73%nat) by (unfold parts; cbn [concat]; rewrite !length_app, !aid_length; done).
    rewrite Hl. change (at_ 0 (concat parts)) with 1. cbn [Nat.eqb Z.eqb negb andb orb Pos.eqb]. cbv zeta.
    rewrite (slice_part parts 1 (aid_bytes a) 1 33), (slice_part parts 2 (PutUint64 rv) 33 41), (slice_part parts 3 (aid_bytes d) 41 73)
      by (done || (unfold parts, sumLen; cbn [take map list_sum foldr length]; rewrite ?aid_length; done)).
    rewrite !arr32_bytes, Uint64_PutUint64, He' by done. done.
  - set (parts := [[sourceStateEncodingV2]; aid_bytes a; PutUint64 rv; aid_bytes d; PutUint64 1]).
    assert (Eb : v = concat parts) by (injection He as <-; unfold parts; cbn [concat]; by rewrite app_nil_r). clear He. rewrite Eb in *.
    unfold decodeSourceSetMarker. assert (Hl : length (concat parts) = 81%nat) by (unfold parts; cbn [concat]; rewrite !length_app, !aid_length; done).
    rewrite Hl. change (at_ 0 (concat parts)) with 2. cbn [Nat.eqb Z.eqb negb andb orb Pos.eqb]. cbv zeta.
    rewrite (slice_part parts 1 (aid_bytes a) 1 33), (slice_part parts 2 (PutUint64 rv) 33 41), (slice_part parts 3 (aid_bytes d) 41 73), (slice_part parts 4 (PutUint64 1) 73 81)
      by (done || (unfold parts, sumLen; cbn [take map list_sum foldr length]; rewrite ?aid_length; done)).
    rewrite !arr32_bytes, !Uint64_PutUint64 by done. cbn [Z.eqb]. rewrite He'. done.
Qed.

Lemma binding_roundtrip b v : encodeSourceBinding b = Ok v -> decodeSourceBinding (sb_sourceID b) v = Ok b.
Proof.
  intros He. pose proof He as He'. unfold encodeSourceBinding in He. apply rbind_ok in He as ([] & _ & He). destruct (isZero32 _); [done|].
  injection He as <-. unfold decodeSourceBinding. cbn [app length]. rewrite aid_length. cbn [Nat.eqb negb orb drop]. cbv zeta.
  change (at_ 0 _) with 1. cbn [Z.eqb Pos.eqb negb].
  rewrite drop_0, arr32_bytes. destruct b as [id pk]. cbn [sb_sourceID sb_pubkey] in *. by rewrite He'.
Qed.

Lemma signer_roundtrip id v : encodeSourceSignerBinding id = Ok v -> decodeSourceSignerBinding v = Ok id.
Proof.
  unfold encodeSourceSignerBinding. intros ([] & Hid & [= <-])%rbind_ok. unfold decodeSourceSignerBinding. cbn [app length Nat.ltb Nat.leb].
  change (at_ 0 _) with 1. cbn [Z.eqb Pos.eqb negb orb drop]. pose proof (sourceID_length id Hid) as Hl.
  change (at_ 1 _) with (byte_Z (byte_of_Z (len (string_bytes id)))). unfold len. cbn [length]. rewrite flag_byte by lia.
  replace (Z.of_nat (S (S (length (string_bytes id)))) - 2) with (Z.of_nat (length (string_bytes id))) by lia. rewrite Z.eqb_refl. cbn [negb].
  cbv zeta. rewrite drop_0, bytes_string_bytes, Hid. done.
Qed.

Lemma sourceFloor_roundtrip f v : is_u64 (sp_revision f) -> encodeSourcePublicationFloor f = Ok v -> decodeSourcePublicationFloor v = Ok f.
Proof.
  intros Hr He. pose proof He as He'. unfold encodeSourcePublicationFloor in He. destruct (_ =? 0); [done|].
  set (parts := [[sourceStateEncodingV1]; PutUint64 (sp_revision f); aid_bytes (sp_digest f)]).
  assert (Eb : v = concat parts) by (injection He as <-; unfold parts; cbn [concat]; by rewrite app_nil_r). clear He. rewrite Eb in *.
  unfold decodeSourcePublicationFloor. assert (Hl : length (concat parts) = 41%nat) by (unfold parts; cbn [concat]; rewrite !length_app, !aid_length; done).
  rewrite Hl. change (at_ 0 (concat parts)) with 1. cbn [Nat.eqb Z.eqb Pos.eqb negb orb]. cbv zeta.
  rewrite (slice_part parts 1 (PutUint64 (sp_revision f)) 1 9), (drop_part parts 2 (aid_bytes (sp_digest f))) by reflexivity.
  rewrite arr32_bytes, Uint64_PutUint64 by done. destruct f as [rv d]. cbn [sp_revision sp_digest] in *. by rewrite He'.
Qed.

Lemma decodeBinding_id id v b : decodeSourceBinding id v = Ok b -> sb_sourceID b = id.
Proof. unfold decodeSourceBinding. destruct (_ || _); [done|]. cbv zeta. by intros (? & _ & [= <-])%rbind_ok. Qed.

(** ** What a store holds *)

Definition at_key {A : Type} (m : KV) (k : bytes) (dec : bytes -> res A) : option A :=
  v ← m !! k; match dec v with Ok a => Some a | Err _ => None end.
Definition markerOf (m : KV) : option sourceSetMarker := at_key m sourceSetMarkerKey decodeSourceSetMarker.
Definition bindingOf (m : KV) (ref : sourceRef) : option sourceBinding :=
  at_key m (sourceScopedKey keySourceBinding ref) (decodeSourceBinding (sr_sourceID ref)).
Definition signerOf (m : KV) (a : ArchiveID) (p : array32) : option string := at_key m (sourceSignerKey a p) decodeSourceSignerBinding.
Definition sourceFloorOf (m : KV) (ref : sourceRef) : option sourcePublicationFloor :=
  at_key m (sourceScopedKey keySourcePublication ref) decodeSourcePublicationFloor.

Lemma at_key_same {A : Type} (m m' : KV) k (dec : bytes -> res A) : m' !! k = m !! k -> at_key m' k dec = at_key m k dec.
Proof. unfold at_key. by intros ->. Qed.
Lemma at_key_set {A : Type} (m : KV) k v (dec : bytes -> res A) a : m !! k = Some v -> dec v = Ok a -> at_key m k dec = Some a.
Proof. unfold at_key. intros -> H. cbn. by rewrite H. Qed.
Lemma at_key_none {A : Type} (m : KV) k (dec : bytes -> res A) : m !! k = None -> at_key m k dec = None.
Proof. unfold at_key. by intros ->. Qed.

(** ** Roster *)

(** Sorting by a byte string. *)
Section ByBytes.
Context {A : Type} (f : A -> bytes).
Definition by_bytes (a b : A) : Prop := bytes_ltb (f b) (f a) = false.
#[local] Instance by_bytes_total : Total by_bytes.
Proof.
  intros a b. unfold by_bytes. destruct (bytes_ltb (f b) (f a)) eqn:E; [right|by left]. destruct (bytes_ltb (f a) (f b)) eqn:E2; [|done].
  pose proof (bytes_ltb_trans _ _ _ E E2) as H. by rewrite bytes_ltb_irrefl in H.
Qed.
#[local] Instance by_bytes_trans : Transitive by_bytes.
Proof.
  intros a b c Hab Hbc. unfold by_bytes in *. destruct (bytes_ltb (f c) (f a)) eqn:E; [|done].
  destruct (bytes_ltb_total (f b) (f c)) as [H|[H|H]]; [|congruence|congruence]. pose proof (bytes_ltb_trans _ _ _ H E). congruence.
Qed.
Lemma by_bytes_sorted `{!RelDecision by_bytes} l : StronglySorted by_bytes (merge_sort by_bytes l).
Proof. apply (StronglySorted_merge_sort by_bytes). Qed.
Lemma by_bytes_antisym a b : by_bytes a b -> by_bytes b a -> f a = f b.
Proof. unfold by_bytes. intros H1 H2. destruct (bytes_ltb_total (f a) (f b)) as [?|[?|?]]; congruence. Qed.
End ByBytes.

Lemma binding_le_sorted l : StronglySorted binding_le (merge_sort binding_le l).
Proof. apply (by_bytes_sorted (fun b => string_bytes (sb_sourceID b))). Qed.

(** In a sorted roster a repeated ID is next to its like. *)
Lemma checkBindings_ok l prior keys : StronglySorted binding_le l -> checkBindings prior keys l = Ok tt ->
  (forall p, prior = Some p -> Forall (fun b => bytes_ltb (string_bytes (sb_sourceID b)) (string_bytes p) = false) l) ->
  NoDup (sb_sourceID <$> l) /\ NoDup (sb_pubkey <$> l) /\ (forall p, prior = Some p -> p ∉ (sb_sourceID <$> l)) /\
  Forall (fun b => (sb_pubkey b ∉ keys) /\ is_ok (encodeSourceBinding b)) l.
Proof.
  intros Hs. revert prior keys. induction Hs as [|b l Hs IH Hf]; intros prior keys; cbn [checkBindings].
  { intros _ _. repeat split; try constructor. intros p _. apply not_elem_of_nil. }
  intros (x & Hx & H)%rbind_ok Hp. case_bool_decide as Hn; [done|]. case_bool_decide as Hk; [done|].
  apply IH in H as (Hid & Hpk & Hni & Hfk); [|intros p [= <-]; eapply Forall_impl; [exact Hf|]; by intros c ?].
  cbn [fmap list_fmap]. split; [|split; [|split]].
  - constructor; [by apply Hni|done].
  - constructor; [|done]. intros (c & Ec & Hc)%list_elem_of_fmap. rewrite Forall_forall in Hfk. destruct (Hfk c Hc) as [Hc' _].
    apply Hc'. rewrite <- Ec. by left.
  - intros p -> [->|(c & -> & Hc)%list_elem_of_fmap]%elem_of_cons; [done|]. apply Hn. f_equal. apply string_bytes_inj.
    rewrite Forall_forall in Hf. specialize (Hf c Hc). specialize (Hp _ eq_refl). apply Forall_cons in Hp as [Hp _].
    destruct (bytes_ltb_total (string_bytes (sb_sourceID c)) (string_bytes (sb_sourceID b))) as [H|[H|H]]; unfold binding_le in Hf; congruence.
  - constructor; [by rewrite Hx|]. eapply Forall_impl; [exact Hfk|]. intros c [Hc ?]. split; [|done]. intros ?. apply Hc. by right.
Qed.

Section SourceStateCorrect.
Context {IN : IpnsNames} {K : Type} `{PB : !Pebble K} `{PO : !PebbleOk K}.

(** ** Reads *)

Definition sameKV (s s' : K) : Prop := kv s' = kv s.
#[global] Instance sameKV_preorder : PreOrder sameKV.
Proof. split; [by intros s|]. intros a b c. unfold sameKV. congruence. Qed.

Lemma kv_get_reads k : moves sameKV (kv_get k).
Proof. intros s r s' [? _]%kv_get_spec. done. Qed.
Lemma kv_scan_reads lo hi : moves sameKV (kv_scan lo hi).
Proof. intros s r s' [? _]%kv_scan_spec. done. Qed.
#[local] Hint Resolve kv_get_reads kv_scan_reads : moves.
Lemma readWith_reads {A : Type} k (dec : bytes -> res A) : moves sameKV (readWith k dec).
Proof. unfold readWith. moves_tac. Qed.
#[local] Hint Resolve readWith_reads : moves.
Lemma readSourceBinding_reads ref : moves sameKV (readSourceBinding ref).
Proof. unfold readSourceBinding. moves_tac. Qed.
Lemma sourceSignerBinding_reads a p : moves sameKV (sourceSignerBinding a p).
Proof. unfold sourceSignerBinding. moves_tac. Qed.
Lemma hasKeyPrefix_reads p : moves sameKV (hasKeyPrefix p).
Proof. unfold hasKeyPrefix. moves_tac. Qed.
Lemma retained_reads a p : moves sameKV (retainedSourceForSigner a p).
Proof. unfold retainedSourceForSigner. moves_tac. Qed.
#[local] Hint Resolve readSourceBinding_reads sourceSignerBinding_reads hasKeyPrefix_reads retained_reads : moves.
Lemma stageBindings_reads a u l : moves sameKV (stageBindings a u l).
Proof. induction l; cbn [stageBindings]; unfold stageBinding; moves_tac. Qed.
Lemma anyKeyPrefix_reads acc l : moves sameKV (anyKeyPrefix acc l).
Proof. revert acc. induction l; intros acc; cbn [anyKeyPrefix]; moves_tac. Qed.
#[local] Hint Resolve stageBindings_reads anyKeyPrefix_reads : moves.
Lemma readLegacy_reads : moves sameKV readLegacySourceState.
Proof. unfold readLegacySourceState, ipnsFloors, get, readDelegation. moves_tac. Qed.
#[local] Hint Resolve readLegacy_reads : moves.
Lemma stageActivation_reads b a : moves sameKV (stageSourceSetActivation b a).
Proof. unfold stageSourceSetActivation, readSourceSetMarker, hasSourceScopedRows. moves_tac. Qed.
Lemma boundSource_reads ref : moves sameKV (boundSource ref).
Proof. unfold boundSource. moves_tac. Qed.
#[local] Hint Resolve boundSource_reads : moves.
Lemma stageSourceFloor_reads b ref f : moves sameKV (stageSourcePublicationFloor b ref f).
Proof. unfold stageSourcePublicationFloor, readSourcePublicationFloor. moves_tac. Qed.
Lemma readSourceDelegation_reads ref : moves sameKV (readSourceDelegation ref).
Proof. unfold readSourceDelegation. moves_tac. Qed.
#[local] Hint Resolve readSourceDelegation_reads : moves.
Lemma stageSourceIPNSSeq_reads b ref n q : moves sameKV (stageSourceIPNSSeq b ref n q).
Proof. unfold stageSourceIPNSSeq, sourceIPNSFloors. moves_tac. Qed.
Lemma stageSourceDelegation_reads b ref d : moves sameKV (stageSourceDelegation b ref d).
Proof. unfold stageSourceDelegation. moves_tac. Qed.

Lemma reads_kv {A : Type} (m : M K A) (s : K) r s' : moves sameKV m -> m s = (r, s') -> kv s' = kv s.
Proof. intros Hm H. exact (Hm _ _ _ H). Qed.

Lemma readWith_ok {A : Type} k (dec : bytes -> res A) (s : K) o s' : readWith k dec s = (Ok o, s') ->
  kv s' = kv s /\ o = at_key (kv s) k dec /\ (o = None -> kv s !! k = None).
Proof.
  unfold readWith. intros (v & s1 & [Hk Hv]%kv_get_spec & H)%bind_run_ok. unfold at_key. rewrite <- Hv. destruct v as [v|]; [|by injection H as <- <-].
  apply bind_run_ok in H as (a & s2 & H1 & [= <- <-]). injection H1 as H1 <-. cbn. by rewrite H1.
Qed.

Lemma lift_ok {A W : Type} (x : res A) (s : W) a s' : lift x s = (Ok a, s') -> x = Ok a /\ s' = s.
Proof. by intros [= -> ->]. Qed.

(** ** Bindings *)

Definition isBound (m : KV) (a : ArchiveID) (b : sourceBinding) : Prop :=
  bindingOf m (mkRef a (sb_sourceID b)) = Some b /\ signerOf m a (sb_pubkey b) = Some (sb_sourceID b).
Definition unbound (m : KV) (a : ArchiveID) (b : sourceBinding) : Prop :=
  m !! sourceScopedKey keySourceBinding (mkRef a (sb_sourceID b)) = None /\ m !! sourceSignerKey a (sb_pubkey b) = None /\
  forall i c, bindingOf m (mkRef a i) = Some c -> sb_pubkey c <> sb_pubkey b.

Lemma retainedLoop_none lower p rows : forall found, retainedLoop lower p found rows = Ok EmptyString ->
  Forall (fun '(k, v) => forall b, decodeSourceBinding (bytes_string (drop (length lower) k)) v = Ok b -> sb_pubkey b <> p) rows.
Proof.
  induction rows as [|[k v] rows IH]; intros found; cbn [retainedLoop]; [by constructor|]. cbv zeta.
  intros (b & Hb & H)%rbind_ok. case_bool_decide as Ep; cbn [negb] in H.
  2: { constructor; [|by eapply IH]. intros c Hc. rewrite Hb in Hc. by injection Hc as <-. }
  destruct (_ && _); [done|]. exfalso.
  assert (Hid : bytes_string (drop (length lower) k) <> EmptyString).
  { intros E. rewrite E in Hb. unfold decodeSourceBinding in Hb. destruct (_ || _); [done|]. done. }
  clear IH Hb. revert H Hid. generalize (bytes_string (drop (length lower) k)). induction rows as [|[k' v'] rows IH]; intros f H Hf; cbn in H; [congruence|].
  apply rbind_ok in H as (c & Hc & H). case_bool_decide; cbn [negb] in H; [|by eapply IH]. destruct (_ && _); [done|]. eapply IH; [exact H|].
  intros E. rewrite E in Hc. unfold decodeSourceBinding in Hc. destruct (_ || _); [done|]. done.
Qed.

Lemma retained_ok a p (s : K) s' : retainedSourceForSigner a p s = (Ok None, s') ->
  forall i c, bindingOf (kv s) (mkRef a i) = Some c -> sb_pubkey c <> p.
Proof.
  unfold retainedSourceForSigner. cbv zeta. intros ([rows e] & s1 & [_ Hs]%kv_scan_spec & H)%bind_run_ok.
  apply bind_run_ok in H as (f & s2 & [H1 ->]%lift_ok & H). destruct e; [done|]. injection H as H _.
  assert (f = EmptyString) as -> by (unfold emptyStr in H; by destruct f). apply retainedLoop_none in H1. destruct Hs as [_ Hs].
  intros i c Hc. unfold bindingOf, at_key in Hc. destruct (kv s !! _) as [v|] eqn:Ev; [|done]. cbn in Hc.
  rewrite Forall_forall in H1. refine (H1 (_, v) _ c _).
  - apply Hs. split; [exact Ev|]. apply keyUpperBound_prefix. unfold sourceScopedKey. apply prefix_app_r. done.
  - unfold sourceScopedKey. cbn [sr_archiveID sr_sourceID]. rewrite drop_app_length, bytes_string_bytes. cbn in Hc. by destruct (decodeSourceBinding i v); simplify_eq.
Qed.

Definition fwdValue (b : sourceBinding) : bytes := sourceStateEncodingV1 :: aid_bytes (sb_pubkey b).
Definition revValue (i : string) : bytes := [sourceStateEncodingV1; byte_of_Z (len (string_bytes i))] ++ string_bytes i.
Definition bindOps (a : ArchiveID) (b : sourceBinding) : list kvop :=
  [KSet (sourceScopedKey keySourceBinding (mkRef a (sb_sourceID b))) (fwdValue b);
   KSet (sourceSignerKey a (sb_pubkey b)) (revValue (sb_sourceID b))].

Lemma stageBinding_ok a u b (s : K) ops s' : stageBinding a u b s = (Ok ops, s') ->
  (ops = [] /\ isBound (kv s) a b) \/ (ops = bindOps a b /\ unbound (kv s) a b /\ u = false /\ is_ok (encodeSourceBinding b) = true).
Proof.
  unfold stageBinding. cbv zeta. intros (cur & s1 & H1 & H)%bind_run_ok. pose proof (reads_kv _ _ _ _ (readSourceBinding_reads _) H1) as E1.
  apply bind_run_ok in H1 as ([] & s0 & [_ ->]%lift_ok & [_ [Hc Hcn]]%readWith_ok).
  destruct (match cur with Some _ => _ | None => _ end) eqn:Ecur; [done|].
  apply bind_run_ok in H as (sg & s2 & H2 & H). pose proof (reads_kv _ _ _ _ (sourceSignerBinding_reads _ _) H2) as E2.
  unfold sourceSignerBinding in H2. destruct (ArchiveID_IsZero a); [done|]. destruct (isZero32 _); [done|]. apply readWith_ok in H2 as [_ [Hsg Hsgn]].
  apply bind_run_ok in H as ([] & s3 & H3 & H). destruct (match sg with Some i => negb (bool_decide (i = sb_sourceID b)) | None => false end) eqn:Esg; [done|].
  destruct (negb (Bool.eqb _ _)) eqn:Eh; [done|]. destruct (negb _ && u) eqn:Eu; [done|]. apply negb_false_iff, Bool.eqb_prop in Eh.
  rewrite E1 in Hsg, Hsgn. destruct cur as [c|]; destruct sg as [i|]; cbn in Eh; try discriminate Eh.
  - left. apply bind_run_ok in H as (f & s4 & [= <- <-] & H). apply bind_run_ok in H as (g & s5 & [= <- <-] & [= <- <-]). split; [done|].
    apply negb_false_iff, bool_decide_eq_true_1 in Ecur, Esg. subst i. split; [|done]. unfold bindingOf. rewrite <- Hc. f_equal.
    symmetry in Hc. unfold at_key in Hc. destruct (kv s !! _) as [v|]; [|done]. cbn in Hc. destruct (decodeSourceBinding _ v) eqn:Ev; [|done].
    injection Hc as ->. apply decodeBinding_id in Ev. cbn in Ev. destruct b, c; cbn in *; congruence.
  - right. cbn in Eu. apply bind_run_ok in H3 as (o & s4 & H3 & Ho). destruct o; [done|].
    apply bind_run_ok in H as (f & s5 & Hf & H). apply bind_run_ok in Hf as (v & s6 & [Hv ->]%lift_ok & [= <- <-]).
    apply bind_run_ok in H as (g & s7 & Hg & [= <- <-]). apply bind_run_ok in Hg as (w & s8 & [Hw ->]%lift_ok & [= <- <-]).
    split; [|split; [|by rewrite Hv]].
    + unfold encodeSourceSignerBinding in Hw. apply rbind_ok in Hw as ([] & _ & [= <-]). unfold encodeSourceBinding in Hv.
      apply rbind_ok in Hv as ([] & _ & Hv). destruct (isZero32 _); [done|]. injection Hv as <-. done.
    + split; [by apply Hcn|]. split; [by apply Hsgn|]. rewrite <- E1, <- E2. by eapply retained_ok.
Qed.

Lemma stageBindings_ok a u l (s : K) ops s' : stageBindings a u l s = (Ok ops, s') ->
  exists news, sublist news l /\ ops = concat (bindOps a <$> news) /\ Forall (unbound (kv s) a) news /\
    Forall (fun b => is_ok (encodeSourceBinding b) = true) news /\ (u = true -> news = []) /\ Forall (fun b => b ∈ news \/ isBound (kv s) a b) l.
Proof.
  revert s ops s'. induction l as [|b l IH]; intros s ops s'; cbn [stageBindings].
  { intros [= <- <-]. exists []. repeat split; try constructor. }
  intros (x & s1 & H1 & H)%bind_run_ok. apply bind_run_ok in H as (y & s2 & H2 & [= <- <-]).
  assert (E1 : kv s1 = kv s).
  { eapply reads_kv; [|exact H1]. unfold stageBinding. moves_tac. }
  apply IH in H2 as (news & Hsub & -> & Hu & He & Hnil & Hall). rewrite E1 in *. apply stageBinding_ok in H1 as [[-> Hb]|(-> & Hb & Hf & Hok)].
  - exists news. repeat split; try done; [by apply sublist_cons|]. constructor; [by right|done].
  - exists (b :: news). repeat split; try done; [by constructor|by constructor|by constructor|congruence|]. constructor; [left; by left|].
    eapply Forall_impl; [exact Hall|]. intros c [?|?]; [left; by right|by right].
Qed.

(** ** The batch of an activation *)

Lemma bindOps_lookup (a : ArchiveID) (news : list sourceBinding) (m : KV) : NoDup (sb_sourceID <$> news) -> NoDup (sb_pubkey <$> news) ->
  (forall b, b ∈ news -> kv_applys (concat (bindOps a <$> news)) m !! sourceScopedKey keySourceBinding (mkRef a (sb_sourceID b)) = Some (fwdValue b) /\
                         kv_applys (concat (bindOps a <$> news)) m !! sourceSignerKey a (sb_pubkey b) = Some (revValue (sb_sourceID b))) /\
  (forall k, (forall b, b ∈ news -> k <> sourceScopedKey keySourceBinding (mkRef a (sb_sourceID b)) /\ k <> sourceSignerKey a (sb_pubkey b)) ->
             kv_applys (concat (bindOps a <$> news)) m !! k = m !! k).
Proof.
  intros Hi Hp. revert m. induction news as [|b news IH]; intros m; [split; [by intros b ?%elem_of_nil|done]|].
  cbn in Hi, Hp. apply NoDup_cons in Hi as [Hbi Hi]. apply NoDup_cons in Hp as [Hbp Hp]. specialize (IH Hi Hp). cbn [fmap list_fmap concat]. rewrite applys_app.
  destruct (IH (kv_applys (bindOps a b) m)) as [H1 H2]. split.
  - intros c [->|Hc]%elem_of_cons; [|by apply H1]. split.
    + rewrite H2.
      * cbn. rewrite lookup_insert_ne by keys_apart. apply lookup_insert_eq.
      * intros d Hd. split; [|keys_apart]. intros [= E]%scopedKey_inj. apply Hbi. rewrite E. by apply list_elem_of_fmap_2.
    + rewrite H2; [cbn; apply lookup_insert_eq|]. intros d Hd. split; [keys_apart|]. intros [_ E]%signerKey_inj. apply Hbp. rewrite E.
      by apply list_elem_of_fmap_2.
  - intros k Hk. rewrite H2 by (intros d Hd; apply Hk; by right). destruct (Hk b) as [? ?]; [by left|]. cbn. by rewrite !lookup_insert_ne.
Qed.

(** The migrated records: floors and delegation of one source. *)
Definition floorKeys (a : ArchiveID) (k : bytes) : Prop := exists i,
  k = sourceScopedKey keySourcePublication (mkRef a i) \/ k = sourceScopedKey keySourceIPNSFloors (mkRef a i) \/ k = sourceScopedKey keySourceDelegation (mkRef a i).

Lemma migration_keys a l mg lg ops : buildLegacySourceMigration a l mg lg = Ok ops -> Forall (fun o => floorKeys a (op_key o)) ops.
Proof.
  unfold buildLegacySourceMigration. destruct (findBinding _ l) as [b|]; [|done]. intros (x & Hx & H)%rbind_ok.
  destruct (match ls_delegate lg with Some d => negb (bool_decide (dg_pubkey d = aid_bytes (sb_pubkey b))) | None => false end); [done|].
  apply rbind_ok in H as (fl & _ & H). destruct (_ <? _)%nat; [done|]. apply rbind_ok in H as (y & Hy & H). apply rbind_ok in H as (z & Hz & [= <-]).
  rewrite !Forall_app. split; [|split].
  - destruct (ls_authority lg); [|injection Hx as <-; constructor]. destruct (negb _); [done|]. apply rbind_ok in Hx as (v & _ & [= <-]).
    constructor; [eexists; by left|constructor].
  - destruct (_ =? 0)%nat; [injection Hy as <-; constructor|]. apply rbind_ok in Hy as (v & _ & [= <-]). constructor; [eexists; right; by left|constructor].
  - destruct (ls_delegate lg); [|injection Hz as <-; constructor]. apply rbind_ok in Hz as (v & _ & [= <-]). constructor; [eexists; right; by right|constructor].
Qed.

Definition noSourceRows (m : KV) : Prop := forall k, key "source_" `prefix_of` k -> m !! k = None.

Lemma hasKeyPrefix_false p (s : K) s' : hasKeyPrefix p s = (Ok false, s') -> forall k, p `prefix_of` k -> kv s !! k = None.
Proof.
  unfold hasKeyPrefix. intros ([rows e] & s1 & [_ Hs]%kv_scan_spec & H)%bind_run_ok. destruct rows; [|done]. destruct e; [done|]. destruct Hs as [_ Hs].
  intros k Hk. destruct (kv s !! k) as [v|] eqn:E; [|done]. exfalso. apply (not_elem_of_nil (k, v)), Hs. split; [done|]. by apply keyUpperBound_prefix.
Qed.

(** What a staged activation found and writes. *)
Record activation_ops (m : KV) (act : sourceSetActivation) (b : list kvop) (next : sourceSetMarker) (v : bytes) (roster news : list sourceBinding)
    (mig : list kvop) : Prop := {
  ao_batch : b = KSet sourceSetMarkerKey v :: concat (bindOps (sm_archiveID next) <$> news) ++ mig;
  ao_roster : validateSourceSetActivation act = Ok roster;
  ao_marker : encodeSourceSetMarker next = Ok v;
  ao_same : sm_archiveID next = sm_archiveID (sa_marker act) /\ sm_revision next = sm_revision (sa_marker act) /\ sm_digest next = sm_digest (sa_marker act);
  ao_sub : sublist news roster;
  ao_new : Forall (unbound m (sm_archiveID next)) news;
  ao_enc : Forall (fun b => is_ok (encodeSourceBinding b) = true) news;
  ao_all : Forall (fun b => b ∈ news \/ isBound m (sm_archiveID next) b) roster;
  ao_mig : Forall (fun o => floorKeys (sm_archiveID next) (op_key o)) mig;
  ao_case : match markerOf m with
            | Some mk => admitMarker mk (sa_marker act) = Ok next /\ mig = []
            | None => m !! sourceSetMarkerKey = None /\ noSourceRows m /\ next = sa_marker act /\ sm_features next = 0 /\
                      exists lg s1 s2, kv s1 = m /\ readLegacySourceState s1 = (Ok lg, s2) /\
                        match sa_legacyMigration act with
                        | None => legacy_present lg = false /\ mig = []
                        | Some mg => buildLegacySourceMigration (sm_archiveID next) roster mg lg = Ok mig
                        end
            end }.

Lemma admitMarker_ok mk nx next : admitMarker mk nx = Ok next ->
  next = mkMarker (sm_archiveID nx) (sm_revision nx) (sm_digest nx) (sm_features mk) /\ sm_archiveID mk = sm_archiveID nx /\
  sm_revision mk <= sm_revision nx /\ (sm_revision mk = sm_revision nx -> sm_digest nx = sm_digest mk).
Proof.
  unfold admitMarker. case_bool_decide; [|done]. cbn [negb]. destruct (Z.ltb_spec (sm_revision nx) (sm_revision mk)); [done|].
  destruct ((_ =? _) && _) eqn:E; [done|]. destruct (_ && (_ <=? _)); [done|].
  intros [= <-]. repeat split; try done. intros Er. rewrite Er, Z.eqb_refl in E.
  by apply negb_false_iff, bool_decide_eq_true_1 in E.
Qed.

Lemma activation_run act (s : K) b s' : stageSourceSetActivation [] act s = (Ok b, s') ->
  exists next v roster news mig, activation_ops (kv s) act b next v roster news mig.
Proof.
  unfold stageSourceSetActivation. intros (roster & s0 & [Hr ->]%lift_ok & H)%bind_run_ok.
  apply bind_run_ok in H as (cur & s1 & H1 & H). unfold readSourceSetMarker in H1. apply readWith_ok in H1 as (E1 & Hcur & Hnone).
  apply bind_run_ok in H as (next & s2 & H2 & H). assert (E2 : kv s2 = kv s1).
  { eapply reads_kv; [|exact H2]. unfold hasSourceScopedRows. moves_tac. }
  apply bind_run_ok in H as (v & s3 & [Hv ->]%lift_ok & H). cbv zeta in H. apply bind_run_ok in H as (bd & s4 & H4 & H).
  pose proof (reads_kv _ _ _ _ (stageBindings_reads _ _ _) H4) as E4. apply stageBindings_ok in H4 as (news & Hsub & -> & Hnew & Henc & _ & Hall).
  apply bind_run_ok in H as (mig & s5 & H5 & [= <- <-]). rewrite E2, E1 in *.
  exists next, v, roster, news, mig. cbn [app].
  destruct cur as [mk|].
  - apply lift_ok in H2 as [H2 ->]. injection H5 as <- <-. destruct (admitMarker_ok _ _ _ H2) as [Hnx _].
    split; try done; [by rewrite Hnx|]. unfold markerOf. by rewrite <- Hcur.
  - destruct (negb _) eqn:Ef; [done|]. apply negb_false_iff, Z.eqb_eq in Ef. apply bind_run_ok in H2 as (o & s6 & H2 & H2').
    destruct o; [done|]. injection H2' as <- <-. apply bind_run_ok in H5 as (lg & s7 & H5 & H5').
    assert (Hmig : Forall (fun o => floorKeys (sm_archiveID (sa_marker act)) (op_key o)) mig /\
      match sa_legacyMigration act with
      | None => legacy_present lg = false /\ mig = []
      | Some mg => buildLegacySourceMigration (sm_archiveID (sa_marker act)) roster mg lg = Ok mig
      end).
    { destruct (sa_legacyMigration act) as [mg|].
      - apply lift_ok in H5' as [H5' ->]. split; [by eapply migration_keys|done].
      - destruct (legacy_present lg); [done|]. injection H5' as <- <-. split; [constructor|done]. }
    destruct Hmig as [Hmk Hmig]. split; try done. unfold markerOf. rewrite <- Hcur. split; [by apply Hnone|]. split.
    { unfold noSourceRows. rewrite <- E1. by eapply hasKeyPrefix_false. }
    split; [done|]. split; [done|]. exists lg, s4, s7. split; [by rewrite E4|]. done.
Qed.

(** ** What no operation undoes *)

Definition raisesTo (f f' : sourcePublicationFloor) : Prop := sp_revision f < sp_revision f' \/ f' = f.
(** A source ID and a publication key name each other. *)
Definition paired (m : KV) : Prop := forall a i p, bindingOf m (mkRef a i) = Some (mkBinding i p) <-> signerOf m a p = Some i.
(** No publication key has two source IDs. *)
Definition injective (m : KV) : Prop := forall a i j b c,
  bindingOf m (mkRef a i) = Some b -> bindingOf m (mkRef a j) = Some c -> sb_pubkey b = sb_pubkey c -> i = j.

Record marker_le (mk mk' : sourceSetMarker) : Prop := {
  ml_archive : sm_archiveID mk' = sm_archiveID mk;
  ml_revision : sm_revision mk <= sm_revision mk';
  ml_digest : sm_revision mk' = sm_revision mk -> sm_digest mk' = sm_digest mk;
  ml_features : Z.land (sm_features mk') (sm_features mk) = sm_features mk }.

Record source_step (m m' : KV) : Prop := {
  ss_binding : forall ref v, m !! sourceScopedKey keySourceBinding ref = Some v -> m' !! sourceScopedKey keySourceBinding ref = Some v;
  ss_signer : forall a p v, m !! sourceSignerKey a p = Some v -> m' !! sourceSignerKey a p = Some v;
  ss_paired : paired m -> paired m';
  ss_injective : injective m -> injective m';
  ss_marker : forall mk, markerOf m = Some mk -> exists mk', markerOf m' = Some mk' /\ marker_le mk mk';
  ss_floor : forall ref f, sourceFloorOf m ref = Some f -> exists f', sourceFloorOf m' ref = Some f' /\ raisesTo f f' }.

#[global] Instance marker_le_preorder : PreOrder marker_le.
Proof.
  split; [intros mk; split; try done; apply Z.land_diag|]. intros a b c [A1 R1 D1 F1] [A2 R2 D2 F2]. split; [congruence|lia| |].
  - intros E. rewrite D2, D1 by lia. done.
  - rewrite <- F1 at 1. rewrite Z.land_assoc, F2. done.
Qed.
#[global] Instance source_step_preorder : PreOrder source_step.
Proof.
  split.
  - intros m. split; try done; [intros mk ?; exists mk; done|]. intros ref f ?. exists f. split; [done|by right].
  - intros a b c [B1 S1 P1 I1 M1 F1] [B2 S2 P2 I2 M2 F2]. split; auto.
    + intros mk (mk1 & H1 & L1)%M1. apply M2 in H1 as (mk2 & H2 & L2). exists mk2. split; [done|]. by transitivity mk1.
    + intros ref f (f1 & H1 & L1)%F1. apply F2 in H1 as (f2 & H2 & L2). exists f2. split; [done|]. unfold raisesTo in *.
      destruct L1 as [L1| ->], L2 as [L2| ->]; auto. left. lia.
Qed.

(** Only the rows of bindings, signers, floors and the marker matter. *)
Lemma bindings_same (m m' : KV) : (forall ref, m' !! sourceScopedKey keySourceBinding ref = m !! sourceScopedKey keySourceBinding ref) ->
  (forall a p, m' !! sourceSignerKey a p = m !! sourceSignerKey a p) -> (paired m -> paired m') /\ (injective m -> injective m').
Proof.
  intros Hb Hs. assert (Eb : forall ref, bindingOf m' ref = bindingOf m ref) by (intros ref; by apply at_key_same).
  assert (Es : forall a p, signerOf m' a p = signerOf m a p) by (intros a p; by apply at_key_same). split.
  - intros H a i p. rewrite Eb, Es. apply H.
  - intros H a i j b c. rewrite !Eb. apply H.
Qed.

Lemma source_frame (m m' : KV) : (forall ref, m' !! sourceScopedKey keySourceBinding ref = m !! sourceScopedKey keySourceBinding ref) ->
  (forall a p, m' !! sourceSignerKey a p = m !! sourceSignerKey a p) -> m' !! sourceSetMarkerKey = m !! sourceSetMarkerKey ->
  (forall ref f, sourceFloorOf m ref = Some f -> exists f', sourceFloorOf m' ref = Some f' /\ raisesTo f f') -> source_step m m'.
Proof.
  intros Hb Hs Hm Hf. destruct (bindings_same m m' Hb Hs) as [Hp Hi]. split; try done.
  - intros ref v. by rewrite Hb.
  - intros a p v. by rewrite Hs.
  - intros mk Hmk. exists mk. split; [|done]. unfold markerOf. by rewrite (at_key_same m m').
Qed.

Lemma source_frame_ops (m : KV) (l : list kvop) : Forall (fun o => (forall ref, op_key o <> sourceScopedKey keySourceBinding ref) /\
  (forall a p, op_key o <> sourceSignerKey a p) /\ op_key o <> sourceSetMarkerKey /\ (forall ref, op_key o <> sourceScopedKey keySourcePublication ref)) l ->
  source_step m (kv_applys l m).
Proof.
  intros Hl. apply source_frame.
  - intros ref. apply applys_other. eapply Forall_impl; [exact Hl|]. by intros o (? & ? & ? & ?).
  - intros a p. apply applys_other. eapply Forall_impl; [exact Hl|]. by intros o (? & ? & ? & ?).
  - apply applys_other. eapply Forall_impl; [exact Hl|]. by intros o (? & ? & ? & ?).
  - intros ref f Hf. exists f. split; [|by right]. unfold sourceFloorOf in *. rewrite (at_key_same m); [done|].
    apply applys_other. eapply Forall_impl; [exact Hl|]. by intros o (? & ? & ? & ?).
Qed.

(** ** Activation *)

Lemma floorKeys_other a k : floorKeys a k -> (forall ref, k <> sourceScopedKey keySourceBinding ref) /\ (forall b p, k <> sourceSignerKey b p) /\ k <> sourceSetMarkerKey.
Proof. intros [i [->|[->| ->]]]; (split; [intros ref; keys_apart|]); (split; [intros b p; keys_apart|]); keys_apart. Qed.

Section Activation.
Context (m : KV) (act : sourceSetActivation) (b : list kvop) (next : sourceSetMarker) (v : bytes) (roster news : list sourceBinding) (mig : list kvop).
Context (AO : activation_ops m act b next v roster news mig) (Hrev : is_u64 (sm_revision (sa_marker act))).
Local Abbreviation a := (sm_archiveID next).
Local Abbreviation m' := (kv_applys b m).

Lemma act_nodup : NoDup (sb_sourceID <$> news) /\ NoDup (sb_pubkey <$> news).
Proof.
  pose proof (ao_roster _ _ _ _ _ _ _ _ AO) as Hr. pose proof (ao_sub _ _ _ _ _ _ _ _ AO) as Hs. unfold validateSourceSetActivation in Hr.
  apply rbind_ok in Hr as (x & _ & Hr). destruct (_ || _); [done|]. cbv zeta in Hr. apply rbind_ok in Hr as ([] & Hc & Hr).
  assert (roster = merge_sort binding_le (sa_bindings act)) as ->.
  { destruct (sa_legacyMigration act) as [mg|]; [|by injection Hr]. apply rbind_ok in Hr as (? & _ & Hr).
    destruct (findBinding _ _); [|done]. destruct (lm_directIPNSName mg); [|by injection Hr]. apply rbind_ok in Hr as (? & _ & Hr). by injection Hr. }
  destruct (checkBindings_ok _ _ _ (binding_le_sorted _) Hc) as (H1 & H2 & _); [done|].
  split; (eapply sublist_NoDup; [done|]; by apply fmap_sublist).
Qed.

Lemma act_lookup k : (forall o, o ∈ mig -> op_key o <> k) -> k <> sourceSetMarkerKey -> m' !! k = kv_applys (concat (bindOps a <$> news)) m !! k.
Proof.
  intros Hk Hm. rewrite (ao_batch _ _ _ _ _ _ _ _ AO). change (KSet sourceSetMarkerKey v :: ?l) with ([KSet sourceSetMarkerKey v] ++ l).
  rewrite !applys_app. rewrite applys_other by (by apply Forall_forall).
  destruct act_nodup as [N1 N2]. destruct (bindOps_lookup a news m N1 N2) as [H1 H2].
  destruct (bindOps_lookup a news (kv_applys [KSet sourceSetMarkerKey v] m) N1 N2) as [G1 G2].
  destruct (decide (Exists (fun b => k = sourceScopedKey keySourceBinding (mkRef a (sb_sourceID b)) \/ k = sourceSignerKey a (sb_pubkey b)) news)) as [E|E].
  - apply Exists_exists in E as (c & Hc & [-> | ->]); destruct (H1 c Hc) as [X1 X2], (G1 c Hc) as [Y1 Y2]; congruence.
  - rewrite H2, G2; [by apply applys_other, Forall_singleton| |];
      intros c Hc; split; intros ->; apply E, Exists_exists; exists c; auto.
Qed.

Lemma mig_other k : (forall ref, k <> sourceScopedKey keySourcePublication ref) -> (forall ref, k <> sourceScopedKey keySourceIPNSFloors ref) ->
  (forall ref, k <> sourceScopedKey keySourceDelegation ref) -> forall o, o ∈ mig -> op_key o <> k.
Proof.
  intros H1 H2 H3 o Ho <-. pose proof (ao_mig _ _ _ _ _ _ _ _ AO) as Hm. rewrite Forall_forall in Hm.
  destruct (Hm o Ho) as [i [E|[E|E]]]; [by eapply H1|by eapply H2|by eapply H3].
Qed.

Lemma act_binding ref : (forall c, c ∈ news -> ref <> mkRef a (sb_sourceID c)) -> bindingOf m' ref = bindingOf m ref.
Proof.
  intros Hn. apply at_key_same. rewrite act_lookup; [|apply mig_other; intros r; keys_apart|keys_apart].
  destruct act_nodup as [N1 N2]. apply (bindOps_lookup a news m N1 N2). intros c Hc. split; [|keys_apart]. intros E%scopedKey_inj. by eapply Hn.
Qed.
Lemma act_signer x p : (forall c, c ∈ news -> ~ (x = a /\ p = sb_pubkey c)) -> signerOf m' x p = signerOf m x p.
Proof.
  intros Hn. apply at_key_same. rewrite act_lookup; [|apply mig_other; intros r; keys_apart|keys_apart].
  destruct act_nodup as [N1 N2]. apply (bindOps_lookup a news m N1 N2). intros c Hc. split; [keys_apart|]. intros [-> ->]%signerKey_inj. by eapply Hn.
Qed.
Lemma act_new c : c ∈ news -> bindingOf m' (mkRef a (sb_sourceID c)) = Some c /\ signerOf m' a (sb_pubkey c) = Some (sb_sourceID c).
Proof.
  intros Hc. destruct act_nodup as [N1 N2]. destruct (bindOps_lookup a news m N1 N2) as [H1 _]. destruct (H1 c Hc) as [F R].
  pose proof (ao_enc _ _ _ _ _ _ _ _ AO) as He. rewrite Forall_forall in He. specialize (He c Hc).
  destruct (encodeSourceBinding c) as [e|] eqn:Ee; [|done]. pose proof Ee as Ee'. unfold encodeSourceBinding in Ee'.
  apply rbind_ok in Ee' as ([] & Hid & Ee'). destruct (isZero32 _); [done|]. injection Ee' as Ee'. split.
  - eapply at_key_set; [rewrite act_lookup; [exact F|apply mig_other; intros r; keys_apart|keys_apart]|]. apply binding_roundtrip.
    by rewrite Ee, <- Ee'.
  - eapply at_key_set; [rewrite act_lookup; [exact R|apply mig_other; intros r; keys_apart|keys_apart]|]. apply signer_roundtrip.
    unfold encodeSourceSignerBinding. by rewrite Hid.
Qed.

Lemma nodup_inj {A B : Type} (f : A -> B) (l : list A) x y : NoDup (f <$> l) -> x ∈ l -> y ∈ l -> f x = f y -> x = y.
Proof.
  intros Hn [i Hi]%list_elem_of_lookup_1 [j Hj]%list_elem_of_lookup_1 E.
  assert (i = j) as ->; [|congruence]. eapply (NoDup_lookup (f <$> l)); [done|by rewrite list_lookup_fmap, Hi|]. rewrite list_lookup_fmap, Hj. cbn. by rewrite E.
Qed.

Lemma new_or_old (P : sourceBinding -> Prop) `{!forall c, Decision (P c)} : (exists c, c ∈ news /\ P c) \/ (forall c, c ∈ news -> ~ P c).
Proof. destruct (decide (Exists P news)) as [E|E]; rewrite Exists_exists in E; [by left|right]. intros c Hc HP. apply E. eauto. Qed.

Lemma act_unbound c : c ∈ news -> unbound m a c.
Proof. pose proof (ao_new _ _ _ _ _ _ _ _ AO) as H. rewrite Forall_forall in H. apply H. Qed.

(** A name is new, and bound by the batch, or is bound as before. *)
Lemma act_binding_cases x i : (exists c, c ∈ news /\ x = a /\ i = sb_sourceID c /\ bindingOf m' (mkRef x i) = Some c) \/
  ((forall c, c ∈ news -> x = a -> i <> sb_sourceID c) /\ bindingOf m' (mkRef x i) = bindingOf m (mkRef x i)).
Proof.
  destruct (new_or_old (fun c => x = a /\ i = sb_sourceID c)) as [(c & Hc & -> & ->)|Hn].
  - left. exists c. repeat split; try done. by apply act_new.
  - right. split; [intros c Hc ? ?; by eapply Hn|]. apply act_binding. intros c Hc [= -> ->]. by eapply Hn.
Qed.
Lemma act_signer_cases x p : (exists c, c ∈ news /\ x = a /\ p = sb_pubkey c /\ signerOf m' x p = Some (sb_sourceID c)) \/
  ((forall c, c ∈ news -> x = a -> p <> sb_pubkey c) /\ signerOf m' x p = signerOf m x p).
Proof.
  destruct (new_or_old (fun c => x = a /\ p = sb_pubkey c)) as [(c & Hc & -> & ->)|Hn].
  - left. exists c. repeat split; try done. by apply act_new.
  - right. split; [intros c Hc ? ?; by eapply Hn|]. apply act_signer. intros c Hc [-> ->]. by eapply Hn.
Qed.

Lemma unbound_binding c : c ∈ news -> bindingOf m (mkRef a (sb_sourceID c)) = None /\ signerOf m a (sb_pubkey c) = None.
Proof. intros (H1 & H2 & _)%act_unbound. split; by apply at_key_none. Qed.

Lemma act_paired : paired m -> paired m'.
Proof.
  intros Hp x i p. destruct act_nodup as [N1 N2].
  destruct (act_signer_cases x p) as [(d & Hd & Hx & -> & Hs)|[Hq Hs]]; destruct (act_binding_cases x i) as [(c & Hc & Hx' & -> & ->)|[Hi ->]]; rewrite Hs; try subst x.
  - split; [|intros [= E]; f_equal; assert (d = c) as -> by (by eapply (nodup_inj sb_sourceID)); by destruct c].
    intros [= E]. f_equal. f_equal. eapply (nodup_inj sb_pubkey); [done..|]. by rewrite E.
  - split; [|intros [= <-]; by destruct (Hi d Hd eq_refl)]. intros E. destruct (act_unbound d Hd) as (_ & _ & H). by apply H in E.
  - split; [intros [= E]; exfalso; apply (Hq c Hc eq_refl); by rewrite E|]. intros E%Hp. destruct (unbound_binding c Hc) as [E' _]. congruence.
  - apply Hp.
Qed.

Lemma act_injective : injective m -> injective m'.
Proof.
  intros Hinj x i j b1 b2. destruct act_nodup as [N1 N2].
  destruct (act_binding_cases x i) as [(c & Hc & Hx' & -> & ->)|[Hi ->]]; destruct (act_binding_cases x j) as [(d & Hd & Hx & -> & ->)|[Hj ->]]; try subst x.
  - intros [= <-] [= <-] E. by rewrite (nodup_inj sb_pubkey news c d).
  - intros [= <-] H2 E. destruct (act_unbound c Hc) as (_ & _ & H). by apply H in H2.
  - intros H1 [= <-] E. destruct (act_unbound d Hd) as (_ & _ & H). by apply H in H1.
  - apply Hinj.
Qed.

Lemma act_marker : markerOf m' = Some next.
Proof.
  eapply at_key_set; [|eapply marker_roundtrip; [|exact (ao_marker _ _ _ _ _ _ _ _ AO)]].
  - rewrite (ao_batch _ _ _ _ _ _ _ _ AO). apply (applys_set []). apply Forall_app. split.
    + apply Forall_forall. intros o Ho. apply list_elem_of_In, in_concat in Ho as (l & Hl%list_elem_of_In & Ho%list_elem_of_In).
      apply list_elem_of_fmap in Hl as (c & -> & _). unfold bindOps in Ho. repeat (apply elem_of_cons in Ho as [->|Ho]; [keys_apart|]). by apply elem_of_nil in Ho.
    + eapply Forall_impl; [exact (ao_mig _ _ _ _ _ _ _ _ AO)|]. intros o Ho. by apply (floorKeys_other a).
  - destruct (ao_same _ _ _ _ _ _ _ _ AO) as (_ & -> & _). done.
Qed.

Lemma act_step : source_step m m'.
Proof.
  pose proof (ao_case _ _ _ _ _ _ _ _ AO) as Hcase. split; [| |exact act_paired|exact act_injective| |].
  - intros ref w Hw. rewrite act_lookup; [|apply mig_other; intros r; keys_apart|keys_apart].
    destruct act_nodup as [N1 N2]. rewrite (proj2 (bindOps_lookup a news m N1 N2)); [done|]. intros c Hc. split; [|keys_apart].
    intros E%scopedKey_inj. destruct (act_unbound c Hc) as [H _]. by rewrite <- E, Hw in H.
  - intros x p w Hw. rewrite act_lookup; [|apply mig_other; intros r; keys_apart|keys_apart].
    destruct act_nodup as [N1 N2]. rewrite (proj2 (bindOps_lookup a news m N1 N2)); [done|]. intros c Hc. split; [keys_apart|].
    intros [-> ->]%signerKey_inj. destruct (act_unbound c Hc) as [_ [H _]]. by rewrite Hw in H.
  - intros mk Hmk. exists next. split; [exact act_marker|]. rewrite Hmk in Hcase. destruct Hcase as [(-> & Ha & Hr & Hd)%admitMarker_ok _].
    split; cbn; [done|done|by intros E; apply Hd|apply Z.land_diag].
  - intros ref f Hf. destruct (markerOf m) as [mk|]; destruct Hcase as [Hadm Hcase].
    + exists f. split; [|by right]. unfold sourceFloorOf in *. rewrite (at_key_same m); [done|]. rewrite act_lookup; [|subst mig; by intros o ?%elem_of_nil|keys_apart].
      destruct act_nodup as [N1 N2]. apply (bindOps_lookup a news m N1 N2). intros c Hc. split; keys_apart.
    + destruct Hcase as [Hno _]. unfold sourceFloorOf in Hf. rewrite at_key_none in Hf; [done|]. apply Hno. eexists. reflexivity.
Qed.
End Activation.
End SourceStateCorrect.
