(* ===== verification/SourceSteps.v ===== *)
(** The operations on the state of a source set, in any order.

    Activation, admission of documents, observation of channels and the operations of
    the single-source memory are put together into one step function over the store;
    every step, however it ends, moves the store within [source_step]. *)
From Stdlib Require Import Ascii.
From Stdlib Require String.
From S2P Require Import Prelude Cid Schema Core Engine Ledger Wire Json JsonDecode Publication PublicationJson Claims Arbitration Checkpoint CheckpointCorrect FollowState FollowStateCorrect SourceState SourceStateCorrect.

Section SourceSteps.
Context `{MH : Multihash} `{CC : !CidBytes} `{CT : !CidText} {IN : IpnsNames} {K : Type} `{PB : !Pebble K} `{PO : !PebbleOk K}.
Local Abbreviation KV := (gmap bytes bytes).

#[local] Hint Resolve stageSourceFloor_reads stageSourceDelegation_reads stageSourceIPNSSeq_reads readSourceBinding_reads : moves.

(** A staged batch that is committed: the store moves as the whole batch does, or not at all. *)
Lemma staged_commit (R : relation KV) `{!Reflexive R} (stage : M K (list kvop)) : moves sameKV stage ->
  (forall s b s1, stage s = (Ok b, s1) -> R (kv s) (kv_applys b (kv s))) ->
  forall s r s', (b <-- stage ;; kv_commit b) s = (r, s') -> R (kv s) (kv s').
Proof.
  intros Hm HR s r s' [(b & s1 & H1 & H)|(e & H1 & _)]%bind_run; [|by rewrite (reads_kv _ _ _ _ Hm H1)].
  pose proof (reads_kv _ _ _ _ Hm H1) as E. apply kv_commit_spec in H. rewrite E in H.
  destruct r; [rewrite H; by eapply HR|]. destruct H as [_ [-> | ->]]; [done|by eapply HR].
Qed.

Lemma activation_step act (s : K) r s' : is_u64 (sm_revision (sa_marker act)) -> activateSourceSet act s = (r, s') -> source_step (kv s) (kv s').
Proof.
  intros Hr. apply (staged_commit source_step); [apply stageActivation_reads|]. intros s0 b s1 H.
  destruct (activation_run act s0 b s1 H) as (next & v & roster & news & mig & AO). by apply (act_step _ _ _ _ _ _ _ _ AO).
Qed.

(** ** Admission of documents *)

Lemma checkAdmissions_ok a l seen : checkAdmissions a seen l = Ok tt ->
  NoDup ((fun x => sr_sourceID (ad_ref x)) <$> l) /\ Forall (fun x => sr_archiveID (ad_ref x) = a /\ sr_sourceID (ad_ref x) ∉ seen) l.
Proof.
  revert seen. induction l as [|x l IH]; intros seen; cbn [checkAdmissions]; [intros _; split; constructor|].
  intros ([] & _ & H)%rbind_ok. case_bool_decide as Ea; [|done]. cbn [negb] in H. destruct (_ || _); [done|]. case_bool_decide as Es; [done|].
  apply IH in H as [Hn Hf]. split.
  - cbn [fmap list_fmap]. constructor; [|done]. intros (y & Ey & Hy)%list_elem_of_fmap. rewrite Forall_forall in Hf. destruct (Hf y Hy) as [_ H].
    apply H. rewrite <- Ey. by left.
  - constructor; [done|]. eapply Forall_impl; [exact Hf|]. intros y [? Hy]. split; [done|]. intros ?. apply Hy. by right.
Qed.

Lemma admissions_nodup a l seen : checkAdmissions a seen l = Ok tt -> NoDup (ad_ref <$> l).
Proof.
  intros [Hn _]%checkAdmissions_ok. apply (NoDup_fmap_1 sr_sourceID). by rewrite <- list_fmap_compose.
Qed.

Lemma stageSourceFloor_ok b ref f (s : K) b' s' : stageSourcePublicationFloor b ref f s = (Ok b', s') ->
  exists v, encodeSourcePublicationFloor f = Ok v /\ b' = b ++ [KSet (sourceScopedKey keySourcePublication ref) v] /\
    (exists bd, bindingOf (kv s) ref = Some bd) /\ forall g, sourceFloorOf (kv s) ref = Some g -> raisesTo g f.
Proof.
  unfold stageSourcePublicationFloor. intros (bd & s1 & H1 & H)%bind_run_ok. pose proof (reads_kv _ _ _ _ (boundSource_reads ref) H1) as E1.
  unfold boundSource in H1. apply bind_run_ok in H1 as (o & s2 & H1 & H1'). unfold readSourceBinding in H1.
  apply bind_run_ok in H1 as ([] & s3 & [_ ->]%lift_ok & (_ & Ho & _)%readWith_ok). destruct o as [bd'|]; [|done]. symmetry in Ho.
  apply bind_run_ok in H as (cur & s4 & H2 & H). unfold readSourcePublicationFloor in H2.
  apply bind_run_ok in H2 as ([] & s5 & [_ ->]%lift_ok & (E2 & Hc & _)%readWith_ok). rewrite E1 in Hc. cbv zeta in H. destruct cur as [g|].
  - destruct (Z.ltb_spec (sp_revision f) (sp_revision g)); [done|]. destruct (_ && _) eqn:Ed; [done|].
    apply bind_run_ok in H as (v & s6 & [Hv ->]%lift_ok & [= <- <-]). exists v. repeat split; [done|by exists bd'|]. unfold sourceFloorOf. rewrite <- Hc.
    intros ? [= <-]. destruct (Z.eqb_spec (sp_revision f) (sp_revision g)) as [E|]; [|left; lia]. right. apply negb_false_iff, bool_decide_eq_true_1 in Ed.
    destruct f, g; cbn in *; congruence.
  - apply bind_run_ok in H as (v & s6 & [Hv ->]%lift_ok & [= <- <-]). exists v. repeat split; [done|by exists bd'|]. unfold sourceFloorOf. by rewrite <- Hc.
Qed.

Lemma stageSourceDelegation_ok b ref d (s : K) b' s' : stageSourceDelegation b ref d s = (Ok b', s') ->
  exists v, b' = b ++ [KSet (sourceScopedKey keySourceDelegation ref) v].
Proof.
  unfold stageSourceDelegation. intros (bd & s1 & _ & H)%bind_run_ok. destruct (negb _); [done|].
  apply bind_run_ok in H as (v & s2 & _ & [= <- <-]). by exists v.
Qed.

(** The writes of one admission. *)
Definition admission_group (m : KV) (x : sourceDocumentAdmission) (g : list kvop) : Prop := exists v rest,
  g = KSet (sourceScopedKey keySourcePublication (ad_ref x)) v :: rest /\ encodeSourcePublicationFloor (ad_publication x) = Ok v /\
  (exists bd, bindingOf m (ad_ref x) = Some bd) /\ (forall f, sourceFloorOf m (ad_ref x) = Some f -> raisesTo f (ad_publication x)) /\
  Forall (fun o => op_key o = sourceScopedKey keySourceDelegation (ad_ref x)) rest.

Lemma stageSourceFloors_ok l b (s : K) b' s' : stageSourceFloors b l s = (Ok b', s') ->
  exists gs, b' = b ++ concat gs /\ Forall2 (admission_group (kv s)) l gs.
Proof.
  revert b s. induction l as [|x l IH]; intros b s; cbn [stageSourceFloors]; [intros [= <- <-]; exists []; by rewrite app_nil_r|].
  intros (b1 & s1 & H1 & H)%bind_run_ok. pose proof (reads_kv _ _ _ _ (stageSourceFloor_reads _ _ _) H1) as E1.
  apply stageSourceFloor_ok in H1 as (v & Hv & -> & Hb & Hr). apply bind_run_ok in H as (b2 & s2 & H2 & H).
  assert (Hd : exists rest, b2 = (b ++ [KSet (sourceScopedKey keySourcePublication (ad_ref x)) v]) ++ rest /\ kv s2 = kv s1 /\
                 Forall (fun o => op_key o = sourceScopedKey keySourceDelegation (ad_ref x)) rest).
  { destruct (ad_delegation x) as [d|]; [|injection H2 as <- <-; exists []; by rewrite app_nil_r].
    pose proof (reads_kv _ _ _ _ (stageSourceDelegation_reads _ _ _) H2) as E2. apply stageSourceDelegation_ok in H2 as (w & ->).
    eexists. split; [done|]. split; [done|]. by constructor. }
  destruct Hd as (rest & -> & E2 & Hrest). apply IH in H as (gs & -> & Hgs). rewrite E2, E1 in Hgs.
  exists ((KSet (sourceScopedKey keySourcePublication (ad_ref x)) v :: rest) :: gs). cbn [concat]. rewrite <- !app_assoc. split; [done|].
  constructor; [|done]. exists v, rest. done.
Qed.

Lemma groups_floor (m : KV) (l : list sourceDocumentAdmission) (gs : list (list kvop)) (m0 : KV) : Forall2 (admission_group m) l gs -> NoDup (ad_ref <$> l) ->
  (forall x, x ∈ l -> exists v, encodeSourcePublicationFloor (ad_publication x) = Ok v /\
                      kv_applys (concat gs) m0 !! sourceScopedKey keySourcePublication (ad_ref x) = Some v) /\
  (forall ref, ref ∉ (ad_ref <$> l) -> kv_applys (concat gs) m0 !! sourceScopedKey keySourcePublication ref = m0 !! sourceScopedKey keySourcePublication ref).
Proof.
  intros H. revert m0. induction H as [|x g l gs (v & rest & -> & Hv & _ & _ & Hrest) _ IH]; intros m0.
  { intros _. split; [by intros x ?%elem_of_nil|done]. }
  cbn [fmap list_fmap]. intros [Hx Hn]%NoDup_cons. cbn [concat]. rewrite applys_app. destruct (IH (kv_applys (KSet (sourceScopedKey keySourcePublication (ad_ref x)) v :: rest) m0) Hn) as [H1 H2].
  assert (Hne : forall ref, Forall (fun o => op_key o <> sourceScopedKey keySourcePublication ref) rest).
  { intros ref. eapply Forall_impl; [exact Hrest|]. intros o ->. keys_apart. }
  split.
  - intros y [->|Hy]%elem_of_cons; [|by apply H1]. exists v. split; [done|]. rewrite H2 by done. by apply (applys_set []).
  - intros ref Hr. rewrite not_elem_of_cons in Hr. destruct Hr as [Hr1 Hr2]. rewrite H2 by done.
    apply applys_other. constructor; [|done]. cbn [op_key]. intros E%scopedKey_inj. by subst.
Qed.

Lemma groups_keys (m : KV) (l : list sourceDocumentAdmission) (gs : list (list kvop)) : Forall2 (admission_group m) l gs ->
  Forall (fun o => exists ref, op_key o = sourceScopedKey keySourcePublication ref \/ op_key o = sourceScopedKey keySourceDelegation ref) (concat gs).
Proof.
  induction 1 as [|x g l gs (v & rest & -> & _ & _ & _ & Hrest) _ IH]; cbn [concat]; [constructor|]. apply Forall_app. split; [|done].
  constructor; [exists (ad_ref x); left; reflexivity|]. eapply Forall_impl; [exact Hrest|]. intros o Ho. exists (ad_ref x). by right.
Qed.

Lemma stageSourcePlans_ok a adm plans b (s : K) b' s' : stageSourcePlans a adm b plans s = (Ok b', s') ->
  exists l, b' = b ++ l /\ Forall (fun o => exists head, op_key o = checkpointKey head) l.
Proof.
  revert b s. induction plans as [|p plans IH]; intros b s; cbn [stageSourcePlans]; [intros [= <- <-]; exists []; by rewrite app_nil_r|].
  destruct (negb _); [apply IH|]. intros ([] & s1 & _ & H)%bind_run_ok. apply bind_run_ok in H as (b1 & s2 & [H1 ->]%lift_ok & H).
  apply stageCheckpoint_inv in H1 as (v & _ & -> & _). apply IH in H as (l & -> & Hl). eexists. rewrite <- app_assoc. split; [done|].
  constructor; [by eexists|done].
Qed.

Lemma stageSourcePlans_reads a adm plans b : moves sameKV (stageSourcePlans a adm b plans).
Proof. revert b. induction plans; intros b; cbn [stageSourcePlans]; unfold checkSourcePlan; moves_tac. Qed.
Lemma stageSourceFloors_reads l b : moves sameKV (stageSourceFloors b l).
Proof. revert b. induction l; intros b; cbn [stageSourceFloors]; moves_tac. Qed.
#[local] Hint Resolve stageSourcePlans_reads stageSourceFloors_reads : moves.
Lemma stageSourceAdmission_reads b a plans adm : moves sameKV (stageSourceAdmission b a plans adm).
Proof. unfold stageSourceAdmission. moves_tac. Qed.

(** The whole batch of an admission. *)
Lemma stageSourceAdmission_ok b a plans adm (s : K) b' s' : stageSourceAdmission b a plans adm s = (Ok b', s') ->
  exists lp gs, b' = b ++ lp ++ concat gs /\ Forall (fun o => exists head, op_key o = checkpointKey head) lp /\
    Forall2 (admission_group (kv s)) adm gs /\ NoDup (ad_ref <$> adm).
Proof.
  unfold stageSourceAdmission. destruct (ArchiveID_IsZero a); [done|]. intros ([] & s0 & [Hc ->]%lift_ok & H)%bind_run_ok.
  apply bind_run_ok in H as (b1 & s1 & H1 & H). pose proof (reads_kv _ _ _ _ (stageSourcePlans_reads _ _ _ _) H1) as E1.
  apply stageSourcePlans_ok in H1 as (lp & -> & Hlp). apply stageSourceFloors_ok in H as (gs & -> & Hgs). rewrite E1 in Hgs.
  exists lp, gs. rewrite <- app_assoc. repeat split; try done. by eapply admissions_nodup.
Qed.

Lemma admission_batch_step (m : KV) (lp : list kvop) (adm : list sourceDocumentAdmission) (gs : list (list kvop)) : Forall (fun o => exists head, op_key o = checkpointKey head) lp ->
  Forall2 (admission_group m) adm gs -> NoDup (ad_ref <$> adm) -> Forall (fun x => is_u64 (sp_revision (ad_publication x))) adm ->
  source_step m (kv_applys (lp ++ concat gs) m).
Proof.
  intros Hlp Hgs Hn Hu. rewrite applys_app. transitivity (kv_applys lp m).
  { apply source_frame_ops. eapply Forall_impl; [exact Hlp|]. intros o [head ->]. repeat split; intros; keys_apart. }
  pose proof (groups_keys _ _ _ Hgs) as Hk. destruct (groups_floor m adm gs (kv_applys lp m) Hgs Hn) as [H1 H2].
  apply source_frame.
  - intros ref. apply applys_other. eapply Forall_impl; [exact Hk|]. intros o [r [-> | ->]]; keys_apart.
  - intros a p. apply applys_other. eapply Forall_impl; [exact Hk|]. intros o [r [-> | ->]]; keys_apart.
  - apply applys_other. eapply Forall_impl; [exact Hk|]. intros o [r [-> | ->]]; keys_apart.
  - intros ref f Hf. destruct (decide (Exists (fun x => ad_ref x = ref) adm)) as [E|E].
    + apply Exists_exists in E as (x & Hx & <-). exists (ad_publication x). destruct (H1 x Hx) as (v & Hv & Hl). split.
      * eapply at_key_set; [exact Hl|]. apply sourceFloor_roundtrip; [|done]. rewrite Forall_forall in Hu. by apply Hu.
      * assert (Hf' : sourceFloorOf m (ad_ref x) = Some f).
        { rewrite <- Hf. symmetry. apply at_key_same, applys_other. eapply Forall_impl; [exact Hlp|]. intros o [head ->]. keys_apart. }
        apply list_elem_of_lookup_1 in Hx as [i Hi]. destruct (Forall2_lookup_l _ _ _ _ _ Hgs Hi) as (g & _ & (? & ? & _ & _ & _ & Hr & _)). by apply Hr.
    + exists f. split; [|by right]. unfold sourceFloorOf in *. rewrite (at_key_same (kv_applys lp m)); [done|]. apply H2.
      intros (x & -> & Hx)%list_elem_of_fmap. apply E, Exists_exists. eauto.
Qed.

(** ** Observations *)

Lemma stageSourceIPNSSeq_ok b ref n q (s : K) b' s' : stageSourceIPNSSeq b ref n q s = (Ok b', s') ->
  exists v, b' = b ++ [KSet (sourceScopedKey keySourceIPNSFloors ref) v].
Proof.
  unfold stageSourceIPNSSeq. intros (x & s1 & _ & H)%bind_run_ok. apply bind_run_ok in H as (y & s2 & _ & H). apply bind_run_ok in H as (z & s3 & _ & H).
  cbv zeta in H. apply bind_run_ok in H as (o & s4 & _ & H). apply bind_run_ok in H as (v & s5 & _ & [= <- <-]). by exists v.
Qed.

Lemma stageObservations_ok l b seen (s : K) b' s' : stageObservations b seen l s = (Ok b', s') ->
  exists ops, b' = b ++ ops /\ Forall (fun o => exists ref, op_key o = sourceScopedKey keySourceIPNSFloors ref) ops.
Proof.
  revert b seen s. induction l as [|x l IH]; intros b seen s; cbn [stageObservations]; [intros [= <- <-]; exists []; by rewrite app_nil_r|].
  destruct (negb _); [apply IH|]. destruct (repeatsRef _ _); [done|]. intros (b1 & s1 & (v & ->)%stageSourceIPNSSeq_ok & H)%bind_run_ok.
  apply IH in H as (ops & -> & Hops). eexists. rewrite <- app_assoc. split; [done|]. constructor; [by eexists|done].
Qed.

Lemma stageObservations_reads l b seen : moves sameKV (stageObservations b seen l).
Proof. revert b seen. induction l; intros b seen; cbn [stageObservations]; moves_tac. Qed.

(** ** The single-source memory *)

Definition plainOp (o : kvop) : Prop := (exists head, op_key o = checkpointKey head) \/ (exists a, op_key o = authorityFloorKey a) \/
  op_key o = keyUpdatedAt \/ op_key o = keyDelegation \/ op_key o = keyIPNSFloors \/ op_key o = keyIPNSSeq \/ (exists c, op_key o = verifiedSegmentKey c).

Lemma plainOp_other o p x : plainOp o -> op_key o <> key ("source_" ++ p) ++ x.
Proof. intros [[? ->]|[[? ->]|[->|[->|[->|[->|[? ->]]]]]]]; keys_apart. Qed.

Lemma plain_step (l : list kvop) (m : KV) : Forall plainOp l -> source_step m (kv_applys l m).
Proof.
  intros Hl. apply source_frame_ops. eapply Forall_impl; [exact Hl|]. intros o Ho.
  repeat split; intros; unfold sourceScopedKey, sourceSignerKey, sourceArchivePrefix.
  - rewrite <- app_assoc. by apply (plainOp_other o "binding:v1:").
  - by apply (plainOp_other o "signer:v1:").
  - rewrite <- (app_nil_r sourceSetMarkerKey). by apply (plainOp_other o "set:v1").
  - rewrite <- app_assoc. by apply (plainOp_other o "publication:v1:").
Qed.

(** Every operation of the single-source memory commits such a batch, or nothing. *)
Lemma single_ops o (s : K) r s' : op_ok o -> runOp o s = (r, s') -> kv s' = kv s \/ exists l, Forall plainOp l /\ kv s' = kv_applys l (kv s).
Proof.
  assert (Hc : forall l (s0 : K) r s', Forall plainOp l -> kv s0 = kv s -> kv_commit l s0 = (r, s') ->
    kv s' = kv s \/ exists l, Forall plainOp l /\ kv s' = kv_applys l (kv s)).
  { intros l s0 r0 s0' Hl E H%kv_commit_spec. rewrite E in H. destruct r0; [right; eauto|]. destruct H as [_ [->| ->]]; [by left|right; eauto]. }
  destruct o as [head cp|plans t d pub|n q lg|c|head]; cbn [runOp op_ok].
  - intros Ht. unfold putCheckpoint. destruct (negb _); [intros [= _ <-]; by left|]. destruct (_ <? 0); [intros [= _ <-]; by left|].
    unfold bind at 1, lift. destruct (stageCheckpoint [] head cp) as [b|] eqn:Eb; [|intros [= _ <-]; by left].
    apply stageCheckpoint_inv in Eb as (v & _ & -> & _). cbn [app]. assert (Hk : plainOp (KSet (checkpointKey head) v)) by (left; by eexists).
    destruct (cp_revision cp =? 0); [|apply Hc; [by constructor|done]].
    intros [(b1 & s1 & H1 & H2)|(e & H1 & ->)]%bind_run; apply stageUpdatedAt_run in H1 as [E H1]; [|by left].
    eapply Hc; [|exact E|exact H2]. destruct H1 as [[-> _]|[-> _]]; [by constructor|]. constructor; [done|]. constructor; [right; right; by left|constructor].
  - intros [Ht Hr]. unfold commitAdmission. intros [(b1 & s1 & H1 & H2)|(e & H1 & ->)]%bind_run; apply stageAdmission_run in H1 as [E H1]; [|by left].
    eapply Hc; [|exact E|exact H2]. destruct H1 as [(lp & lf & ld & -> & Hp & Hf & Hd) _]. rewrite !Forall_app. split; [|split].
    + apply plan_ops_keys in Hp. apply Forall_forall. intros o Ho. left. apply (list_elem_of_fmap_2 op_key) in Ho. rewrite Hp in Ho.
      apply list_elem_of_fmap in Ho as (p & -> & _). by eexists.
    + destruct pub as [f|]; [destruct Hf as (v & _ & -> & _)|destruct Hf as [[-> _]|[-> _]]]; [|constructor|]; (constructor; [|constructor]); [right; left; by eexists|right; right; by left].
    + apply delegation_plain in Hd. eapply Forall_impl; [exact Hd|]. intros o Ho. do 3 right. by left.
  - intros Hq H. apply setIPNSSeq_run in H as [[E _]|(fl & out & v & s0 & s1 & rest & _ & _ & E & _ & _ & _ & Hrest & H)]; [by left| |apply Hq].
    eapply Hc; [|exact E|exact H]. constructor; [do 4 right; by left|]. destruct Hrest as [->| ->]; constructor; [do 5 right; by left|constructor].
  - intros _ H%kv_set_spec. assert (plainOp (KSet (verifiedSegmentKey c) [Byte.x01])) by (do 6 right; by eexists).
    assert (G : exists l, Forall plainOp l /\ <[verifiedSegmentKey c:=[Byte.x01]]> (kv s) = kv_applys l (kv s)) by (exists [KSet (verifiedSegmentKey c) [Byte.x01]]; split; [by constructor|done]).
    destruct r; [rewrite H; by right|]. destruct H as [_ [->| ->]]; [by left|by right].
  - intros _ H. eapply Hc; [|reflexivity|exact H]. constructor; [left; by eexists|constructor].
Qed.

(** ** Sequences of operations *)

Inductive sop : Type :=
| SActivate (act : sourceSetActivation)
| SAdmit (archiveID : ArchiveID) (plans : list adoptPlan) (admissions : list sourceDocumentAdmission)
| SObserve (observations : list sourceChannelObs)
| SSingle (o : fop).

Definition runSource (o : sop) : M K unit :=
  match o with
  | SActivate act => activateSourceSet act
  | SAdmit archiveID plans admissions => b <-- stageSourceAdmission [] archiveID plans admissions ;; kv_commit b
  | SObserve observations => b <-- stageSourceObservations [] observations ;; kv_commit b
  | SSingle o => runOp o
  end.

(** Values of the Go types. *)
Definition sop_ok (o : sop) : Prop :=
  match o with
  | SActivate act => is_u64 (sm_revision (sa_marker act))
  | SAdmit _ _ admissions => Forall (fun x => is_u64 (sp_revision (ad_publication x))) admissions
  | SObserve _ => True
  | SSingle o => op_ok o
  end.

Lemma sop_step o (s : K) r s' : sop_ok o -> runSource o s = (r, s') -> source_step (kv s) (kv s').
Proof.
  destruct o as [act|a plans adm|obs|o]; cbn [sop_ok runSource]; intros Ho.
  - by apply activation_step.
  - apply (staged_commit source_step); [apply stageSourceAdmission_reads|]. intros s0 b s1 (lp & gs & -> & Hlp & Hgs & Hn)%stageSourceAdmission_ok.
    by apply (admission_batch_step _ lp adm gs).
  - apply (staged_commit source_step); [apply stageObservations_reads|]. intros s0 b s1 (ops & -> & Hops)%stageObservations_ok.
    apply source_frame_ops. eapply Forall_impl; [exact Hops|]. intros o [ref ->]. repeat split; intros; keys_apart.
  - intros H. apply single_ops in H as [->|(l & Hl & ->)]; [done| |done]. by apply plain_step.
Qed.

Lemma bindingOf_kept (m m' : KV) ref b : source_step m m' -> bindingOf m ref = Some b -> bindingOf m' ref = Some b.
Proof.
  intros [Hb _ _ _ _ _]. unfold bindingOf, at_key. destruct (m !! _) as [v|] eqn:E; [|done]. by rewrite (Hb _ _ E).
Qed.
Lemma signerOf_kept (m m' : KV) a p i : source_step m m' -> signerOf m a p = Some i -> signerOf m' a p = Some i.
Proof.
  intros [_ Hs _ _ _ _]. unfold signerOf, at_key. destruct (m !! _) as [v|] eqn:E; [|done]. by rewrite (Hs _ _ _ E).
Qed.

End SourceSteps.
