(* ===== verification/SourceMigration.v ===== *)
(** The first activation of a source set: the floors of the single-source memory are
    copied to the source the operator names, and stay where they were. *)
From Stdlib Require Import Ascii.
From Stdlib Require String.
From S2P Require Import Prelude Cid Schema Core Engine Ledger Wire Json JsonDecode Publication PublicationJson Claims Arbitration Checkpoint CheckpointCorrect FollowState FollowStateCorrect SourceState SourceStateCorrect.

Section SourceMigration.
Context {IN : IpnsNames} {K : Type} `{PB : !Pebble K} `{PO : !PebbleOk K}.
Local Abbreviation KV := (gmap bytes bytes).

(** ** Reading the single-source memory *)

Lemma legacyAuthorityLoop_ok lower rows r : legacyAuthorityLoop lower None rows = Ok r ->
  (rows = [] /\ r = None) \/ exists k v f, rows = [(k, v)] /\ r = Some f /\ length k = (length lower + 32)%nat /\
    decodeAuthorityFloorValue (arr32 (drop (length lower) k)) v = Ok f.
Proof.
  destruct rows as [|[k v] rows]; cbn [legacyAuthorityLoop]; [intros [= <-]; by left|]. destruct (Nat.eqb_spec (length k) (length lower + 32)) as [Hk|]; [|done].
  cbn [negb present unset]. intros (f & Hf & H)%rbind_ok. destruct rows as [|[k' v'] rows]; cbn [legacyAuthorityLoop] in H.
  - injection H as <-. right. by exists k, v, f.
  - destruct (negb _); done.
Qed.

Lemma decodeFloorValue_same a v f : decodeAuthorityFloorValue a v = Ok f -> decodeAuthorityFloor a v = Ok f.
Proof.
  unfold decodeAuthorityFloorValue, decodeAuthorityFloor. destruct (_ || _); [done|]. cbv zeta. cbn [fl_revision]. destruct (_ =? 0); [done|].
  by destruct (isZero32 _).
Qed.

Record legacy_read (m : KV) (lg : legacySourceState) : Prop := {
  lr_authority : forall a f, floorOf m a = Some f -> ls_authority lg = Some f;
  lr_ipns : ipnsFloorsOf m = Some (ls_ipns lg);
  lr_unnamed : ls_unnamed lg = numberOf m keyIPNSSeq;
  lr_delegate : ls_delegate lg = delegationOf m }.

Lemma readLegacy_ok (s : K) lg s' : readLegacySourceState s = (Ok lg, s') -> legacy_read (kv s) lg.
Proof.
  unfold readLegacySourceState. intros (u & s1 & [E1 _]%kv_get_spec & H)%bind_run_ok. apply bind_run_ok in H as (other & s2 & H2 & H).
  pose proof (reads_kv _ _ _ _ (anyKeyPrefix_reads _ _) H2) as E2. cbv zeta in H. apply bind_run_ok in H as ([rows e] & s3 & [E3 Hs]%kv_scan_spec & H).
  apply bind_run_ok in H as (au & s4 & [H4 ->]%lift_ok & H). destruct e; [done|]. destruct Hs as [_ Hs].
  apply bind_run_ok in H as (fl & s5 & [E5 H5]%ipnsFloors_run & H). apply bind_run_ok in H as (un & s6 & [E6 H6]%get_run & H).
  apply bind_run_ok in H as (dg & s7 & [E7 H7]%readDelegation_run & [= <- <-]). rewrite E6, E5, E3, E2, E1 in *. split; try done.
  intros a f Hf. unfold floorOf in Hf. destruct (kv s !! authorityFloorKey a) as [v|] eqn:Ev; [|done]. cbn in Hf.
  assert (Hin : (authorityFloorKey a, v) ∈ rows).
  { apply Hs. split; [done|]. apply keyUpperBound_prefix. unfold authorityFloorKey. by apply prefix_app_r. }
  apply legacyAuthorityLoop_ok in H4 as [[-> _]|(k & w & g & -> & -> & _ & Hd)]; [by apply elem_of_nil in Hin|].
  apply list_elem_of_singleton in Hin as [= <- <-]. unfold authorityFloorKey in Hd. rewrite drop_app_length, arr32_bytes in Hd.
  apply decodeFloorValue_same in Hd. rewrite Hd in Hf. by injection Hf as <-.
Qed.

(** ** Merging the unnamed floor *)

Lemma foldl_max_ge l z : z <= foldl Z.max z l /\ forall x, x ∈ l -> x <= foldl Z.max z l.
Proof.
  revert z. induction l as [|y l IH]; intros z; cbn [foldl]; [split; [lia|by intros x ?%elem_of_nil]|]. destruct (IH (Z.max z y)) as [H1 H2].
  split; [lia|]. intros x [->|Hx]%elem_of_cons; [lia|by apply H2].
Qed.
Lemma foldl_max_u64 l z : is_u64 z -> Forall is_u64 l -> is_u64 (foldl Z.max z l).
Proof. intros Hz Hl. revert z Hz. induction Hl as [|y l Hy _ IH]; intros z Hz; cbn [foldl]; [done|]. apply IH. unfold is_u64 in *. lia. Qed.

Lemma find_filter_other n name fl : n <> name ->
  findFloor n (List.filter (fun f => negb (bool_decide (if_name f = name))) fl) = findFloor n fl.
Proof.
  intros Hn. unfold findFloor. induction fl as [|f fl IH]; [done|]. cbn [List.filter List.find]. case_bool_decide as E; cbn [negb].
  - case_bool_decide as E'; [congruence|done].
  - cbn [List.find]. case_bool_decide; [done|]. exact IH.
Qed.

Lemma filter_same name fl q : findFloor name fl = Some q -> q ∈ (if_seq <$> List.filter (fun f => bool_decide (if_name f = name)) fl).
Proof.
  unfold findFloor. induction fl as [|f fl IH]; [done|]. cbn [List.filter List.find]. case_bool_decide; [|done].
  cbn. intros [= <-]. by left.
Qed.

Lemma mergeFloor_keeps name seq fl : forall n q, findFloor n fl = Some q -> exists q', findFloor n (mergeFloor name seq fl) = Some q' /\ q <= q'.
Proof.
  intros n q Hq. unfold mergeFloor. cbv zeta. destruct (decide (n = name)) as [->|Hn].
  - eexists. split; [unfold findFloor; cbn [List.find if_name]; by rewrite bool_decide_eq_true_2|]. cbn. apply foldl_max_ge. by apply filter_same.
  - exists q. split; [|lia]. rewrite <- Hq, <- (find_filter_other n name fl Hn). unfold findFloor. cbn [List.find if_name].
    by rewrite bool_decide_eq_false_2.
Qed.

Lemma filter_forall {A : Type} (P : A -> Prop) (f : A -> bool) l : Forall P l -> Forall P (List.filter f l).
Proof. induction 1; cbn; [done|]. destruct (f x); [by constructor|done]. Qed.

Lemma mergeFloor_u64 name seq fl : is_u64 seq -> Forall (fun f => is_u64 (if_seq f)) fl -> Forall (fun f => is_u64 (if_seq f)) (mergeFloor name seq fl).
Proof.
  intros Hs Hf. constructor; [|by apply filter_forall]. cbn. apply foldl_max_u64; [done|]. apply Forall_fmap. by apply filter_forall.
Qed.

Lemma numberOf_u64 (m : KV) k v : numberOf m k = Some v -> is_u64 v.
Proof.
  unfold numberOf. destruct (m !! k) as [w|]; [|done]. cbn. destruct (Nat.eqb_spec (length w) 8) as [E|]; [|done]. intros [= <-].
  pose proof (Uint64_range w) as H. by rewrite E in H.
Qed.

(** ** What the migration writes *)

Definition sourceFloorsOf (m : KV) (ref : sourceRef) : option (list ipnsFloor) := at_key m (sourceScopedKey keySourceIPNSFloors ref) decodeSourceIPNSFloors.
Definition sourceDelegationOf (m : KV) (ref : sourceRef) : option delegation := at_key m (sourceScopedKey keySourceDelegation ref) decodeSourceDelegation.

Lemma migration_ok (m m0 : KV) (a : ArchiveID) (roster : list sourceBinding) (mg : sourceLegacyMigration) (lg : legacySourceState) (mig : list kvop) : legacy_read m lg -> buildLegacySourceMigration a roster mg lg = Ok mig ->
  let ref := mkRef a (lm_sourceID mg) in let m' := kv_applys mig m0 in
  exists bd, bd ∈ roster /\ sb_sourceID bd = lm_sourceID mg /\
  (forall x f, floorOf m x = Some f -> x = sb_pubkey bd /\ sourceFloorOf m' ref = Some (mkSourceFloor (fl_revision f) (fl_digest f))) /\
  (forall n q, findFloor n (ls_ipns lg) = Some q -> exists fl q', sourceFloorsOf m' ref = Some fl /\ findFloor n fl = Some q' /\ q <= q') /\
  (forall d, delegationOf m = Some d -> sourceDelegationOf m' ref = Some d).
Proof.
  intros [La Li Lu Ld] H ref m'. unfold buildLegacySourceMigration in H. destruct (findBinding _ roster) as [bd|] eqn:Eb; [|done]. fold ref in H.
  exists bd. unfold findBinding in Eb. apply find_some in Eb as [Hin%list_elem_of_In Hid%bool_decide_eq_true_1]. split; [done|]. split; [done|].
  apply rbind_ok in H as (la & Ha & H).
  destruct (match ls_delegate lg with Some d => negb (bool_decide (dg_pubkey d = aid_bytes (sb_pubkey bd))) | None => false end); [done|].
  apply rbind_ok in H as (fl & Hfl & H). destruct (_ <? _)%nat; [done|]. apply rbind_ok in H as (li & Hli & H). apply rbind_ok in H as (ld & Hld & [= <-]).
  assert (Kl : Forall (fun o => op_key o = sourceScopedKey keySourcePublication ref) la).
  { destruct (ls_authority lg); [|injection Ha as <-; constructor]. destruct (negb _); [done|]. apply rbind_ok in Ha as (v & _ & [= <-]). by constructor. }
  assert (Ki : Forall (fun o => op_key o = sourceScopedKey keySourceIPNSFloors ref) li).
  { destruct (_ =? 0)%nat; [injection Hli as <-; constructor|]. apply rbind_ok in Hli as (v & _ & [= <-]). by constructor. }
  assert (Kd : Forall (fun o => op_key o = sourceScopedKey keySourceDelegation ref) ld).
  { destruct (ls_delegate lg); [|injection Hld as <-; constructor]. apply rbind_ok in Hld as (v & _ & [= <-]). by constructor. }
  assert (Hu : Forall (fun f => is_u64 (if_seq f)) fl).
  { destruct (ipnsFloorsOf_spec _ _ Li) as [_ Hu]. destruct (ls_unnamed lg) as [q|] eqn:Eq; [|by injection Hfl as <-].
    destruct (lm_directIPNSName mg); [|done]. injection Hfl as <-. apply mergeFloor_u64; [|done]. symmetry in Lu. by eapply numberOf_u64. }
  assert (Hkeep : forall n q, findFloor n (ls_ipns lg) = Some q -> exists q', findFloor n fl = Some q' /\ q <= q').
  { intros n q Hq. destruct (ls_unnamed lg) as [z|]; [|injection Hfl as <-; exists q; split; [done|lia]].
    destruct (lm_directIPNSName mg); [|done]. injection Hfl as <-. by apply mergeFloor_keeps. }
  split; [|split].
  - intros x f Hx. pose proof (floorOf_authority _ _ _ Hx) as Ex. apply La in Hx as Hx'. rewrite Hx' in Ha. case_bool_decide as Ep; [|done]. cbn [negb] in Ha.
    apply rbind_ok in Ha as (v & Hv & [= <-]). split; [congruence|]. unfold m'. eapply at_key_set.
    + apply (applys_set []). rewrite Forall_app. split; (eapply Forall_impl; [done|]); intros o ->; keys_apart.
    + apply sourceFloor_roundtrip; [|done]. cbn. unfold floorOf in Hx. destruct (m !! _) as [w|]; [|done]. cbn in Hx. unfold decodeAuthorityFloor in Hx.
      destruct (negb (length w =? 41)%nat || _) eqn:El; [done|]. apply orb_false_iff in El as [El%negb_false_iff%Nat.eqb_eq _]. cbv zeta in Hx.
      destruct (_ =? 0); [done|]. injection Hx as <-. cbn. pose proof (Uint64_range (slice 1 9 w)) as Hr. rewrite slice_length in Hr by lia. exact Hr.
  - intros n q Hq. destruct (Hkeep n q Hq) as (q' & Hq' & Hle). exists fl, q'. split; [|done]. destruct (length fl =? 0)%nat eqn:El.
    { apply Nat.eqb_eq, nil_length_inv in El. by subst fl. }
    apply rbind_ok in Hli as (v & Hv & [= <-]). unfold m'. eapply at_key_set.
    + rewrite applys_app. apply (applys_set []). eapply Forall_impl; [exact Kd|]. intros o ->. keys_apart.
    + by apply ipnsFloors_roundtrip.
  - intros d Hd. rewrite Ld, Hd in Hld. apply rbind_ok in Hld as (v & Hv & [= <-]). unfold m'. eapply at_key_set.
    + rewrite !applys_app. cbn. apply lookup_insert_eq.
    + by apply delegation_roundtrip.
Qed.

Lemma source_prefix p x : key "source_" `prefix_of` key ("source_" ++ p) ++ x.
Proof. eexists. reflexivity. Qed.

(** The first activation of a source set migrates by copying: whatever it writes is
    under the source keys, so the single-source memory is unchanged; the source named by
    the migration is bound to the key whose publication floor existed and starts at that
    floor, with the DNSLink delegation and with no IPNS sequence floor lowered. *)
Theorem migration_copies act mg (s : K) s' : is_u64 (sm_revision (sa_marker act)) -> activateSourceSet act s = (Ok tt, s') ->
  markerOf (kv s) = None -> sa_legacyMigration act = Some mg ->
  let ref := mkRef (sm_archiveID (sa_marker act)) (lm_sourceID mg) in
  (forall k, ~ key "source_" `prefix_of` k -> kv s' !! k = kv s !! k) /\
  (forall x f, floorOf (kv s) x = Some f -> bindingOf (kv s') ref = Some (mkBinding (lm_sourceID mg) x) /\
     sourceFloorOf (kv s') ref = Some (mkSourceFloor (fl_revision f) (fl_digest f))) /\
  (forall l n q, ipnsFloorsOf (kv s) = Some l -> findFloor n l = Some q ->
     exists fl q', sourceFloorsOf (kv s') ref = Some fl /\ findFloor n fl = Some q' /\ q <= q') /\
  (forall d, delegationOf (kv s) = Some d -> sourceDelegationOf (kv s') ref = Some d).
Proof.
  intros Hrev H Hno Hmg ref. unfold activateSourceSet in H. apply bind_run_ok in H as (b & s1 & H1 & H).
  pose proof (reads_kv _ _ _ _ (stageActivation_reads _ _) H1) as E1. apply kv_commit_spec in H. rewrite E1 in H.
  destruct (activation_run act s b s1 H1) as (next & v & roster & news & mig & AO).
  pose proof (ao_case _ _ _ _ _ _ _ _ AO) as Hcase. rewrite Hno, Hmg in Hcase. destruct Hcase as (_ & Hrows & -> & _ & lg & t1 & t2 & Et & Hl & Hmig).
  apply readLegacy_ok in Hl. rewrite Et in Hl. pose proof (ao_batch _ _ _ _ _ _ _ _ AO) as Hb.
  destruct (migration_ok _ (kv_applys (KSet sourceSetMarkerKey v :: concat (bindOps (sm_archiveID (sa_marker act)) <$> news)) (kv s)) _ _ _ _ _ Hl Hmig)
    as (bd & Hin & Hid & Hf & Hi & Hd). fold ref in Hf, Hi, Hd. rewrite <- applys_app in Hf, Hi, Hd. cbn [app] in Hf, Hi, Hd. rewrite <- Hb, <- H in Hf, Hi, Hd.
  split; [|split; [|split]].
  - intros k Hk. rewrite H, Hb. apply applys_other. constructor; [intros <-; apply Hk; eexists; reflexivity|]. apply Forall_app. split.
    + apply Forall_forall. intros o Ho. apply list_elem_of_In, in_concat in Ho as (l & Hl'%list_elem_of_In & Ho%list_elem_of_In).
      apply list_elem_of_fmap in Hl' as (c & -> & _). unfold bindOps in Ho.
      repeat (apply elem_of_cons in Ho as [->|Ho]; [intros <-; apply Hk; eexists; reflexivity|]). by apply elem_of_nil in Ho.
    + eapply Forall_impl; [exact (ao_mig _ _ _ _ _ _ _ _ AO)|]. intros o [i Ho] <-. apply Hk. destruct Ho as [->|[->| ->]]; eexists; reflexivity.
  - intros x f Hx. destruct (Hf x f Hx) as [-> Hfl]. split; [|done]. unfold ref. rewrite <- Hid, H.
    pose proof (ao_all _ _ _ _ _ _ _ _ AO) as Hall. rewrite Forall_forall in Hall. destruct (Hall bd Hin) as [Hn|[Hbd _]].
    + rewrite (proj1 (act_new _ _ _ _ _ _ _ _ AO bd Hn)). by destruct bd.
    + unfold bindingOf in Hbd. rewrite at_key_none in Hbd; [done|]. apply Hrows. eexists. reflexivity.
  - intros l n q Hl' Hq. destruct Hl as [_ Li _ _]. rewrite Li in Hl'. injection Hl' as <-. by apply Hi.
  - exact Hd.
Qed.
End SourceMigration.
