(* ===== verification/ConflictState.v ===== *)
(** The durable conflict latch: follow/conflict_state.go.

    When two authenticated sources contradict each other about a finalized head, the
    follower freezes the head: it stores one active record with the evidence, a
    sequence floor that outlives it, and upgrades the source-set marker to an encoding
    older programs refuse.  An operator clears a latch by naming its evidence ID; the
    clear is kept in a bounded history.  A request is represented by the validated
    input it wraps. *)
From Stdlib Require Import Ascii.
From Stdlib Require String.
From S2P Require Import Prelude Cid Schema Core Engine Ledger Wire Json JsonDecode Publication PublicationJson Claims Arbitration Checkpoint FollowState SourceState.

Definition conflictStateEncodingV1 : byte := Byte.x01.
Definition keySourceConflictActive : string := "source_conflict:v1:".
Definition keySourceConflictSequence : string := "source_conflict_sequence:v1:".
Definition keySourceConflictHistory : string := "source_conflict_history:v1:".
Definition maxConflictHeadBytes : nat := 255.
Definition maxConflictCIDBytes : nat := 256.
Definition maxConflictPairs : Z := Z.of_nat maxSourceSetBindings * (Z.of_nat maxSourceSetBindings - 1) / 2.
Definition maxConflictClearHistory : nat := 16.
Definition maxConflictOperatorBytes : nat := 63.
Definition maxConflictClearNoteBytes : nat := 512.
Definition conflictEvidenceDomainV1 : bytes := string_bytes "bloar.follow-conflict-evidence/v1" ++ [Byte.x00].

(** The 32 bytes of a SHA-256 digest. *)
Class DigestBytes `{Multihash} : Type := { digest_array : Digest -> array32 }.

#[global] Instance ConflictReason_eq_dec : EqDecision ConflictReason.
Proof. solve_decision. Defined.
Definition reason_Z (r : ConflictReason) : Z :=
  match r with
  | ConflictReasonInvalid => 0 | ConflictReasonEqualCoverageRootMismatch => 1
  | ConflictReasonPrefixProjectionMismatch => 2 | ConflictReasonManifestBranch => 3
  end.
(** [ConflictReason(b)]; the values without a name are as unsupported as 0. *)
Definition reason_of (b : Z) : ConflictReason :=
  if b =? 1 then ConflictReasonEqualCoverageRootMismatch else if b =? 2 then ConflictReasonPrefixProjectionMismatch
  else if b =? 3 then ConflictReasonManifestBranch else ConflictReasonInvalid.
Definition validConflictReason (r : ConflictReason) : bool :=
  match r with
  | ConflictReasonEqualCoverageRootMismatch | ConflictReasonPrefixProjectionMismatch | ConflictReasonManifestBranch => true
  | _ => false
  end.

Definition ConflictCandidateSource : Z := 1.
Definition ConflictCandidateDurable : Z := 2.

Definition hasNUL (s : string) : bool := existsb (Byte.eqb Byte.x00) (string_bytes s).
(** At most [n] bytes of UTF-8 without a NUL. *)
Definition boundedText (n : nat) (s : string) : bool := negb ((n <? length (string_bytes s))%nat || negb (validString s) || hasNUL s).

Definition validateConflictIdentity (archiveID : ArchiveID) (head : string) : res unit :=
  refuse_if ArchiveID_IsZero archiveID with EInvalid "conflict state requires a nonzero archive ID" ;;
  refuse_if emptyStr head || negb (boundedText maxConflictHeadBytes head) with EInvalid "conflict head name is invalid" ;; Ok tt.

Definition conflictStateKey (prefix : string) (archiveID : ArchiveID) (head : string) : bytes :=
  sourceArchivePrefix prefix archiveID ++ string_bytes head.

Definition appendLengthPrefixed8 (value : bytes) : bytes := byte_of_Z (len value) :: value.
Definition appendLengthPrefixed16 (value : bytes) : bytes := AppendUint16 (len value) ++ value.

(** ** conflictDecoder: the state is the rest of the encoding *)

Definition d_take (n : nat) : M bytes bytes := fun d => if (length d <? n)%nat then (Err (EInvalid "truncated encoding"), d) else (Ok (take n d), drop n d).
Definition d_u8 : M bytes Z := b <-- d_take 1 ;; ret (at_ 0 b).
Definition d_u16 : M bytes Z := b <-- d_take 2 ;; ret (Uint64 b).
Definition d_u64 : M bytes Z := b <-- d_take 8 ;; ret (Uint64 b).
Definition d_bytes8 (max : nat) : M bytes bytes :=
  n <-- d_u8 ;; fail_if Z.of_nat max <? n with EInvalid "length exceeds bound" ;; d_take (Z.to_nat n).
Definition d_bytes16 (max : nat) : M bytes bytes :=
  n <-- d_u16 ;; fail_if Z.of_nat max <? n with EInvalid "length exceeds bound" ;; d_take (Z.to_nat n).
Definition d_array : M bytes array32 := b <-- d_take 32 ;; ret (arr32 b).
(** [d.i != len(d.b)] *)
Definition d_end : M bytes unit := fun d => (if (length d =? 0)%nat then Ok tt else Err (EInvalid "trailing data"), d).

(** ** Sequences and clear records *)

Definition encodeConflictSequence (sequence : Z) : bytes := [conflictStateEncodingV1] ++ PutUint64 sequence.
Definition decodeConflictSequence (b : bytes) : res Z :=
  refuse_if negb (length b =? 9)%nat || negb (at_ 0 b =? 1) with EInvalid "unsupported or truncated encoding" ;;
  let sequence := Uint64 (drop 1 b) in
  refuse_if sequence =? 0 with EInvalid "conflict sequence is zero" ;; Ok sequence.

Record ConflictClearRequest : Type := mkClearRequest {
  cq_ArchiveID : ArchiveID; cq_Head : string; cq_EvidenceID : array32; cq_ClearedAt : Time; cq_Operator : string; cq_Note : string }.
Record ConflictClearRecord : Type := mkClearRecord {
  cc_ArchiveID : ArchiveID; cc_Head : string; cc_Sequence : Z; cc_EvidenceID : array32; cc_ClearedAt : Time;
  cc_Operator : string; cc_Note : string }.

Definition normalizeConflictClearRequest (q : ConflictClearRequest) : res ConflictClearRequest :=
  _ <-? validateConflictIdentity (cq_ArchiveID q) (cq_Head q) ;;
  refuse_if isZero32 (cq_EvidenceID q) with EInvalid "conflict clear requires an evidence ID" ;;
  refuse_if IsZero (cq_ClearedAt q) || (Unix (cq_ClearedAt q) <? 0) with EInvalid "conflict clear requires a non-negative timestamp" ;;
  refuse_if emptyStr (cq_Operator q) || negb (boundedText maxConflictOperatorBytes (cq_Operator q)) with EInvalid "conflict clear operator" ;;
  refuse_if negb (boundedText maxConflictClearNoteBytes (cq_Note q)) with EInvalid "conflict clear note" ;;
  Ok (mkClearRequest (cq_ArchiveID q) (cq_Head q) (cq_EvidenceID q) (time_Unix (Unix (cq_ClearedAt q))) (cq_Operator q) (cq_Note q)).

(** [prior] is [None] at the first record. *)
Fixpoint encodeClears (archiveID : ArchiveID) (head : string) (prior : option Z) (history : list ConflictClearRecord) : res bytes :=
  match history with
  | [] => Ok []
  | r :: rest =>
    refuse_if negb (bool_decide (cc_ArchiveID r = archiveID)) || negb (bool_decide (cc_Head r = head)) || (cc_Sequence r =? 0)
      || (cc_Sequence r <=? default 0 prior) || isZero32 (cc_EvidenceID r) with EInvalid "record is invalid or out of order" ;;
    refuse_if match prior with Some p => negb (cc_Sequence r =? add64 p 1) | None => false end with EInvalid "record skips a sequence" ;;
    n <-? normalizeConflictClearRequest (mkClearRequest archiveID head (cc_EvidenceID r) (cc_ClearedAt r) (cc_Operator r) (cc_Note r)) ;;
    tail <-? encodeClears archiveID head (Some (cc_Sequence r)) rest ;;
    Ok (PutUint64 (cc_Sequence r) ++ aid_bytes (cc_EvidenceID r) ++ PutUint64 (u64 (Unix (cq_ClearedAt n)))
        ++ appendLengthPrefixed8 (string_bytes (cq_Operator n)) ++ appendLengthPrefixed16 (string_bytes (cq_Note n)) ++ tail)
  end.
Definition encodeConflictClearHistory (archiveID : ArchiveID) (head : string) (history : list ConflictClearRecord) : res bytes :=
  refuse_if (length history =? 0)%nat || (maxConflictClearHistory <? length history)%nat with EInvalid "number of records" ;;
  tail <-? encodeClears archiveID head None history ;;
  Ok ([conflictStateEncodingV1; byte_of_Z (len history)] ++ tail).

Fixpoint decodeClears (archiveID : ArchiveID) (head : string) (count : nat) : M bytes (list ConflictClearRecord) :=
  match count with
  | O => ret []
  | S count' =>
    sequence <-- d_u64 ;;
    evidenceID <-- d_array ;;
    seconds <-- d_u64 ;;
    fail_if maxInt64 <? seconds with EInvalid "timestamp is invalid" ;;
    operator <-- d_bytes8 maxConflictOperatorBytes ;;
    note <-- d_bytes16 maxConflictClearNoteBytes ;;
    rest <-- decodeClears archiveID head count' ;;
    ret (mkClearRecord archiveID head sequence evidenceID (time_Unix (int64 seconds)) (bytes_string operator) (bytes_string note) :: rest)
  end.
Definition decodeConflictClearHistory (archiveID : ArchiveID) (head : string) (b : bytes) : res (list ConflictClearRecord) :=
  history <-? fst ((version <-- d_u8 ;;
                    fail_if negb (version =? 1) with EInvalid "unsupported or truncated encoding" ;;
                    count <-- d_u8 ;;
                    fail_if (count =? 0) || (Z.of_nat maxConflictClearHistory <? count) with EInvalid "count is invalid" ;;
                    history <-- decodeClears archiveID head (Z.to_nat count) ;;
                    d_end ;;; ret history) b) ;;
  canonical <-? encodeConflictClearHistory archiveID head history ;;
  refuse_if negb (bool_decide (canonical = b)) with EInvalid "not canonically encoded" ;; Ok history.

Section ConflictState.
Context `{MH : Multihash} `{DB : !DigestBytes} `{CC : !CidBytes} `{CT : !CidText} {K : Type} `{PB : !Pebble K}.

Record ConflictCandidateSummary : Type := mkSummary {
  cs_Role : Z; cs_CheckpointVersion : Z; cs_SourceID : string; cs_Revision : Z; cs_Digest : array32;
  cs_Root : Cid; cs_SyncedTo : Z; cs_Covered : bool; cs_Manifest : Cid }.
Record ConflictLatchInput : Type := mkLatchInput {
  cl_ArchiveID : ArchiveID; cl_Head : string; cl_Reason : ConflictReason; cl_SourceSetRevision : Z; cl_SourceSetDigest : array32;
  cl_PairCount : Z; cl_Left : ConflictCandidateSummary; cl_Right : ConflictCandidateSummary }.
Record ConflictRecord : Type := mkRecord {
  cr_ArchiveID : ArchiveID; cr_Head : string; cr_Sequence : Z; cr_Reason : ConflictReason; cr_SourceSetRevision : Z;
  cr_SourceSetDigest : array32; cr_PairCount : Z; cr_Left : ConflictCandidateSummary; cr_Right : ConflictCandidateSummary;
  cr_EvidenceID : array32 }.
(** The fields of a record that a request has. *)
Definition recordInput (r : ConflictRecord) : ConflictLatchInput :=
  mkLatchInput (cr_ArchiveID r) (cr_Head r) (cr_Reason r) (cr_SourceSetRevision r) (cr_SourceSetDigest r) (cr_PairCount r) (cr_Left r) (cr_Right r).

(** ** Validation *)

Definition conflictCandidatesEqual (l r : ConflictCandidateSummary) : bool :=
  (cs_Role l =? cs_Role r) && (cs_CheckpointVersion l =? cs_CheckpointVersion r) && bool_decide (cs_SourceID l = cs_SourceID r)
  && (cs_Revision l =? cs_Revision r) && bool_decide (cs_Digest l = cs_Digest r) && bool_decide (cs_Root l = cs_Root r)
  && (cs_SyncedTo l =? cs_SyncedTo r) && Bool.eqb (cs_Covered l) (cs_Covered r) && bool_decide (cs_Manifest l = cs_Manifest r).

Definition noGeneration (c : ConflictCandidateSummary) : bool := (cs_Revision c =? 0) || isZero32 (cs_Digest c).
Definition checkRole (c : ConflictCandidateSummary) : res unit :=
  if cs_Role c =? ConflictCandidateSource then
    refuse_if negb (cs_CheckpointVersion c =? 0) with EInvalid "source candidate cannot carry a checkpoint version" ;;
    _ <-? validateSourceID (cs_SourceID c) ;;
    refuse_if noGeneration c with EInvalid "source candidate requires a document revision and digest" ;; Ok tt
  else if cs_Role c =? ConflictCandidateDurable then
    refuse_if (cs_CheckpointVersion c <? checkpointVersionV1) || (checkpointVersionV4 <? cs_CheckpointVersion c)
      with EInvalid "durable candidate checkpoint version is unsupported" ;;
    if negb (cs_CheckpointVersion c =? checkpointVersionV4) then
      refuse_if negb (cs_Revision c =? 0) || negb (isZero32 (cs_Digest c)) with EInvalid "unattributed candidate with a source generation" ;;
      refuse_if negb (emptyStr (cs_SourceID c)) with EInvalid "only a v4 durable candidate can carry source provenance" ;; Ok tt
    else
      refuse_if emptyStr (cs_SourceID c) with EInvalid "a v4 durable candidate requires source provenance" ;;
      _ <-? validateSourceID (cs_SourceID c) ;;
      refuse_if noGeneration c with EInvalid "attributed durable candidate requires a source revision and digest" ;; Ok tt
  else Err (EInvalid "candidate role is unsupported").

Definition cidTooLong (c : Cid) : bool := match c with Some c => (maxConflictCIDBytes <? length (cid_bytes c))%nat | None => false end.
Definition validateConflictCandidate (c : ConflictCandidateSummary) : res unit :=
  _ <-? checkRole c ;;
  refuse_if negb (Defined (cs_Root c)) with EInvalid "candidate root is undefined" ;;
  refuse_if cidTooLong (cs_Root c) || cidTooLong (cs_Manifest c) with EInvalid "candidate CID is too long" ;;
  refuse_if negb (cs_Covered c) && negb (cs_SyncedTo c =? 0) with EInvalid "an uncovered candidate with a synced_to" ;; Ok tt.

Definition sameExtent (l r : ConflictCandidateSummary) : bool := Bool.eqb (cs_Covered l) (cs_Covered r) && (cs_SyncedTo l =? cs_SyncedTo r).
Definition validateConflictReasonEvidence (input : ConflictLatchInput) : res unit :=
  let l := cl_Left input in let r := cl_Right input in
  match cl_Reason input with
  | ConflictReasonEqualCoverageRootMismatch =>
    refuse_if negb (sameExtent l r) || bool_decide (cs_Root l = cs_Root r) with EInvalid "not equal coverage with different roots" ;; Ok tt
  | ConflictReasonPrefixProjectionMismatch => refuse_if sameExtent l r with EInvalid "not different coverage" ;; Ok tt
  | ConflictReasonManifestBranch =>
    refuse_if negb (Defined (cs_Manifest l)) || negb (Defined (cs_Manifest r)) || bool_decide (cs_Manifest l = cs_Manifest r)
      with EInvalid "not two different manifest tips" ;; Ok tt
  | ConflictReasonInvalid => Ok tt
  end.

(** ** Encoding *)

Definition appendCID16 (c : Cid) : bytes := match c with None => AppendUint16 0 | Some c => appendLengthPrefixed16 (cid_bytes c) end.
Definition coveredByte (c : ConflictCandidateSummary) : byte := if cs_Covered c then Byte.x01 else Byte.x00.

Definition conflictCandidateOrderBytes (c : ConflictCandidateSummary) : bytes :=
  [byte_of_Z (cs_Role c); byte_of_Z (cs_CheckpointVersion c)] ++ appendLengthPrefixed8 (string_bytes (cs_SourceID c))
  ++ PutUint64 (cs_Revision c) ++ aid_bytes (cs_Digest c) ++ appendCID16 (cs_Root c) ++ PutUint64 (cs_SyncedTo c)
  ++ [coveredByte c] ++ appendCID16 (cs_Manifest c).
Definition conflictCandidateLess (l r : ConflictCandidateSummary) : bool :=
  bytes_ltb (conflictCandidateOrderBytes l) (conflictCandidateOrderBytes r).

Definition candidateFlags (c : ConflictCandidateSummary) : Z :=
  Z.lor (if cs_Covered c then 1 else 0) (if Defined (cs_Manifest c) then 2 else 0).
Definition appendConflictCandidate (c : ConflictCandidateSummary) : bytes :=
  [byte_of_Z (cs_Role c); byte_of_Z (cs_CheckpointVersion c)] ++ appendLengthPrefixed8 (string_bytes (cs_SourceID c))
  ++ PutUint64 (cs_Revision c) ++ aid_bytes (cs_Digest c) ++ [byte_of_Z (candidateFlags c)] ++ PutUint64 (cs_SyncedTo c)
  ++ appendCID16 (cs_Root c) ++ appendCID16 (cs_Manifest c).

Definition swapSides (i : ConflictLatchInput) : ConflictLatchInput :=
  mkLatchInput (cl_ArchiveID i) (cl_Head i) (cl_Reason i) (cl_SourceSetRevision i) (cl_SourceSetDigest i) (cl_PairCount i) (cl_Right i) (cl_Left i).

Definition NewConflictLatchRequest (input : ConflictLatchInput) : res ConflictLatchInput :=
  _ <-? validateConflictIdentity (cl_ArchiveID input) (cl_Head input) ;;
  refuse_if negb (validConflictReason (cl_Reason input)) with EInvalid "conflict reason is unsupported" ;;
  refuse_if (cl_SourceSetRevision input =? 0) || isZero32 (cl_SourceSetDigest input) with EInvalid "source-set revision and digest" ;;
  refuse_if (cl_PairCount input =? 0) || (maxConflictPairs <? cl_PairCount input) with EInvalid "conflict pair count" ;;
  _ <-? validateConflictCandidate (cl_Left input) ;;
  _ <-? validateConflictCandidate (cl_Right input) ;;
  refuse_if conflictCandidatesEqual (cl_Left input) (cl_Right input) with EInvalid "evidence repeats the same endpoint" ;;
  refuse_if (cs_Role (cl_Left input) =? ConflictCandidateDurable) && (cs_Role (cl_Right input) =? ConflictCandidateDurable)
    with EInvalid "cannot compare two durable checkpoints" ;;
  refuse_if (cs_Role (cl_Left input) =? ConflictCandidateSource) && (cs_Role (cl_Right input) =? ConflictCandidateSource)
    && bool_decide (cs_SourceID (cl_Left input) = cs_SourceID (cl_Right input)) with EInvalid "same-source publication conflict" ;;
  let input := if conflictCandidateLess (cl_Right input) (cl_Left input) then swapSides input else input in
  _ <-? validateConflictReasonEvidence input ;; Ok input.

Definition encodeConflictRequest (input : ConflictLatchInput) (sequence : Z) : res bytes :=
  input <-? NewConflictLatchRequest input ;;
  Ok ([conflictStateEncodingV1] ++ aid_bytes (cl_ArchiveID input) ++ appendLengthPrefixed16 (string_bytes (cl_Head input))
      ++ PutUint64 sequence ++ [byte_of_Z (reason_Z (cl_Reason input))] ++ PutUint64 (cl_SourceSetRevision input)
      ++ aid_bytes (cl_SourceSetDigest input) ++ AppendUint16 (cl_PairCount input)
      ++ appendConflictCandidate (cl_Left input) ++ appendConflictCandidate (cl_Right input)).

Definition evidenceIDForCanonical (canonical : bytes) : array32 := digest_array (sha256 (conflictEvidenceDomainV1 ++ canonical)).

Definition recordFromRequest (input : ConflictLatchInput) (sequence : Z) : res ConflictRecord :=
  refuse_if sequence =? 0 with EInvalid "conflict sequence must be positive" ;;
  canonical <-? encodeConflictRequest input sequence ;;
  Ok (mkRecord (cl_ArchiveID input) (cl_Head input) sequence (cl_Reason input) (cl_SourceSetRevision input) (cl_SourceSetDigest input)
        (cl_PairCount input) (cl_Left input) (cl_Right input) (evidenceIDForCanonical canonical)).

Definition encodeConflictRecord (record : ConflictRecord) : res bytes :=
  refuse_if cr_Sequence record =? 0 with EInvalid "conflict record sequence must be positive" ;;
  input <-? NewConflictLatchRequest (recordInput record) ;;
  canonical <-? encodeConflictRequest input (cr_Sequence record) ;;
  refuse_if negb (bool_decide (cr_EvidenceID record = evidenceIDForCanonical canonical)) with EInvalid "evidence ID does not match" ;;
  Ok (canonical ++ aid_bytes (cr_EvidenceID record)).

(** ** Decoding *)

Definition d_cid16 (required : bool) : M bytes Cid :=
  raw <-- d_bytes16 maxConflictCIDBytes ;;
  if (length raw =? 0)%nat then fail_if required with EInvalid "required CID is empty" ;; ret Undef else
  c <-- lift (castCid raw "invalid CID") ;;
  fail_if negb (bool_decide (cid_bytes c = raw)) with EInvalid "CID is not canonically encoded" ;; ret (Some c).

(** [flags &^ 3 != 0] *)
Definition decodeConflictCandidate : M bytes ConflictCandidateSummary :=
  role <-- d_u8 ;;
  checkpointVersion <-- d_u8 ;;
  source <-- d_bytes8 maxSourceIDBytes ;;
  revision <-- d_u64 ;;
  digest <-- d_array ;;
  flags <-- d_u8 ;;
  fail_if negb (Z.ldiff flags 3 =? 0) with EInvalid "unsupported candidate flags" ;;
  syncedTo <-- d_u64 ;;
  root <-- d_cid16 true ;;
  manifest <-- d_cid16 false ;;
  fail_if negb (Bool.eqb (Defined manifest) (hasBit flags 2)) with EInvalid "manifest flag does not match candidate data" ;;
  ret (mkSummary role checkpointVersion (bytes_string source) revision digest root syncedTo (hasBit flags 1) manifest).

Definition decodeConflictRecord (b : bytes) : res ConflictRecord :=
  record <-? fst ((version <-- d_u8 ;;
    fail_if negb (version =? 1) with EInvalid "unsupported or truncated encoding" ;;
    archiveID <-- d_array ;;
    head <-- d_bytes16 maxConflictHeadBytes ;;
    sequence <-- d_u64 ;;
    reason <-- d_u8 ;;
    sourceRevision <-- d_u64 ;;
    sourceDigest <-- d_array ;;
    pairCount <-- d_u16 ;;
    left <-- decodeConflictCandidate ;;
    right <-- decodeConflictCandidate ;;
    evidenceID <-- d_array ;;
    d_end ;;;
    ret (mkRecord archiveID (bytes_string head) sequence (reason_of reason) sourceRevision sourceDigest pairCount left right evidenceID)) b) ;;
  canonical <-? encodeConflictRecord record ;;
  refuse_if negb (bool_decide (canonical = b)) with EInvalid "not canonically encoded" ;; Ok record.

(** ** Requests from arbitration *)

Definition conflictSummaryFromCandidate (c : FinalizedClaimCandidate) (root : Cid) (syncedTo : Z) (covered : bool) (manifest : Cid) : res ConflictCandidateSummary :=
  match u_Revision (d_Unsigned (Document c)) with
  | None => Err (EInvalid "document has no signer-local revision")
  | Some revision =>
    digest <-? CanonicalDigest (d_Unsigned (Document c)) ;;
    Ok (mkSummary ConflictCandidateSource 0 (SourceID c) revision (digest_array digest) root syncedTo covered manifest)
  end.

Definition pairRequest (archiveID : ArchiveID) (revision : Z) (digest : array32) (head : string) (count : Z)
    (pair : FinalizedClaimPairEvidence) : res (ConflictLatchInput * bytes) :=
  match pe_Conflict pair with
  | None => Err (EInvalid "pair has no cryptographic evidence")
  | Some c =>
    refuse_if negb (bool_decide (ac_ArchiveID c = archiveID)) || negb (bool_decide (ac_Head c = head)) with EInvalid "pair does not match archive/head" ;;
    left <-? conflictSummaryFromCandidate (pe_Left pair) (ac_LeftRoot c) (ac_LeftSyncedTo c) (ac_LeftCovered c) (ac_LeftManifest c) ;;
    right <-? conflictSummaryFromCandidate (pe_Right pair) (ac_RightRoot c) (ac_RightSyncedTo c) (ac_RightCovered c) (ac_RightManifest c) ;;
    request <-? NewConflictLatchRequest (mkLatchInput archiveID head (ac_ReasonCode c) revision digest count left right) ;;
    order <-? encodeConflictRequest request 0 ;;
    Ok (request, order)
  end.

Definition order_le (a b : ConflictLatchInput * bytes) : Prop := bytes_ltb (snd b) (snd a) = false.
#[global] Instance order_le_dec : RelDecision order_le.
Proof. intros a b. unfold order_le. apply _. Defined.

(** [conflicts] are the pairs of a [FinalizedClaimConflictError] of [head]. *)
Definition NewConflictLatchRequestFromError (archiveID : ArchiveID) (revision : Z) (digest : array32) (head : string)
    (conflicts : list FinalizedClaimPairEvidence) : res ConflictLatchInput :=
  refuse_if (length conflicts =? 0)%nat with EInvalid "empty finalized conflict evidence" ;;
  refuse_if maxConflictPairs <? len conflicts with EInvalid "too many conflict pairs" ;;
  candidates <-? rmap (pairRequest archiveID revision digest head (len conflicts)) conflicts ;;
  match merge_sort order_le candidates with
  | [] => Err (EInvalid "empty finalized conflict evidence")
  | c :: _ => Ok (fst c)
  end.

(** ** Reads *)

Definition conflictSequence (archiveID : ArchiveID) (head : string) : M K (option Z) :=
  lift (validateConflictIdentity archiveID head) ;;;
  readWith (conflictStateKey keySourceConflictSequence archiveID head) decodeConflictSequence.

Definition conflictClearHistory (archiveID : ArchiveID) (head : string) : M K (list ConflictClearRecord) :=
  lift (validateConflictIdentity archiveID head) ;;;
  v <-- kv_get (conflictStateKey keySourceConflictHistory archiveID head) ;;
  match v with
  | None => ret []
  | Some v => lift (decodeConflictClearHistory archiveID head v)
  end.

Definition validateConflictRecordAgainstMarker (record : ConflictRecord) (marker : sourceSetMarker) : res unit :=
  refuse_if (sm_revision marker <? cr_SourceSetRevision record)
    || (cr_SourceSetRevision record =? sm_revision marker) && negb (bool_decide (cr_SourceSetDigest record = sm_digest marker))
    with EInvalid "active conflict is not covered by the marker generation" ;; Ok tt.

Definition latchAware (archiveID : ArchiveID) (marker : sourceSetMarker) : bool :=
  bool_decide (sm_archiveID marker = archiveID) && hasBit (sm_features marker) sourceSetFeatureConflictLatch.
Definition validateConflictRecordMarker (record : ConflictRecord) : M K unit :=
  marker <-- readSourceSetMarker ;;
  match marker with
  | Some marker =>
    fail_if negb (latchAware (cr_ArchiveID record) marker) with EInvalid "not covered by a conflict-aware marker" ;;
    lift (validateConflictRecordAgainstMarker record marker)
  | None => fail (EInvalid "not covered by a conflict-aware marker")
  end.

(** An active record found under the key of [head]. *)
Definition checkLatch (archiveID : ArchiveID) (head : string) (v : bytes) : M K ConflictRecord :=
  record <-- lift (decodeConflictRecord v) ;;
  fail_if negb (bool_decide (cr_ArchiveID record = archiveID)) || negb (bool_decide (cr_Head record = head))
    with EInvalid "active conflict key contains another archive/head" ;;
  sequence <-- conflictSequence archiveID head ;;
  fail_if negb (bool_decide (sequence = Some (cr_Sequence record))) with EInvalid "not covered by its sequence floor" ;;
  validateConflictRecordMarker record ;;;
  ret record.

Definition conflictLatch (archiveID : ArchiveID) (head : string) : M K (option ConflictRecord) :=
  lift (validateConflictIdentity archiveID head) ;;;
  v <-- kv_get (conflictStateKey keySourceConflictActive archiveID head) ;;
  match v with
  | None => ret None
  | Some v => record <-- checkLatch archiveID head v ;; ret (Some record)
  end.

Fixpoint latchRows (archiveID : ArchiveID) (prefix : bytes) (rows : list (bytes * bytes)) : M K (list ConflictRecord) :=
  match rows with
  | [] => ret []
  | (k, v) :: rest =>
    record <-- checkLatch archiveID (bytes_string (drop (length prefix) k)) v ;;
    more <-- latchRows archiveID prefix rest ;;
    ret (record :: more)
  end.
Definition conflictLatches (archiveID : ArchiveID) : M K (list ConflictRecord) :=
  fail_if ArchiveID_IsZero archiveID with EInvalid "conflict state requires a nonzero archive ID" ;;
  let prefix := sourceArchivePrefix keySourceConflictActive archiveID in
  let* (rows, e) := kv_scan prefix (prefixUpperBound prefix) in
  records <-- latchRows archiveID prefix rows ;;
  match e with Some e => fail e | None => ret records end.

(** ** Latching and clearing *)

Definition conflictRecordMatchesRequest (record : ConflictRecord) (input : ConflictLatchInput) : bool :=
  bool_decide (cr_ArchiveID record = cl_ArchiveID input) && bool_decide (cr_Head record = cl_Head input)
  && bool_decide (cr_Reason record = cl_Reason input) && (cr_SourceSetRevision record =? cl_SourceSetRevision input)
  && bool_decide (cr_SourceSetDigest record = cl_SourceSetDigest input) && (cr_PairCount record =? cl_PairCount input)
  && conflictCandidatesEqual (cr_Left record) (cl_Left input) && conflictCandidatesEqual (cr_Right record) (cl_Right input).

Definition lastSequence (history : list ConflictClearRecord) : Z := default 0 (cc_Sequence <$> last history).
(** The occurrence number before the next one. *)
Definition priorSequence (sequence : option Z) (history : list ConflictClearRecord) : res Z :=
  match sequence with
  | None => refuse_if negb (length history =? 0)%nat with EInvalid "clear history without a sequence floor" ;; Ok 0
  | Some sequence =>
    refuse_if (length history =? 0)%nat || negb (lastSequence history =? sequence) with EInvalid "cleared sequence is not covered by history" ;;
    Ok sequence
  end.

(** The record, whether it is new, and the batch. *)
Definition stageConflictLatch (batch : list kvop) (request : ConflictLatchInput) : M K (ConflictRecord * bool * list kvop) :=
  input <-- lift (NewConflictLatchRequest request) ;;
  m <-- readSourceSetMarker ;;
  match m with
  | None => fail (EInvalid "cannot latch a conflict without an active source set")
  | Some marker =>
    fail_if negb (bool_decide (sm_archiveID marker = cl_ArchiveID input)) || negb (sm_revision marker =? cl_SourceSetRevision input)
      || negb (bool_decide (sm_digest marker = cl_SourceSetDigest input)) with EInvalid "evidence of another source-set generation" ;;
    active <-- conflictLatch (cl_ArchiveID input) (cl_Head input) ;;
    match active with
    | Some active =>
      if conflictRecordMatchesRequest active input then ret (active, false, batch)
      else fail (EInvalid "head already has active conflict evidence")
    | None =>
      sequence <-- conflictSequence (cl_ArchiveID input) (cl_Head input) ;;
      history <-- conflictClearHistory (cl_ArchiveID input) (cl_Head input) ;;
      prior <-- lift (priorSequence sequence history) ;;
      fail_if prior =? maxUint64 with EInvalid "conflict sequence is exhausted" ;;
      record <-- lift (recordFromRequest input (add64 prior 1)) ;;
      encoded <-- lift (encodeConflictRecord record) ;;
      markerBytes <-- lift (encodeSourceSetMarker (mkMarker (sm_archiveID marker) (sm_revision marker) (sm_digest marker)
                                                   (Z.lor (sm_features marker) sourceSetFeatureConflictLatch))) ;;
      ret (record, true, batch ++ [KSet (conflictStateKey keySourceConflictActive (cl_ArchiveID input) (cl_Head input)) encoded;
                                   KSet (conflictStateKey keySourceConflictSequence (cl_ArchiveID input) (cl_Head input)) (encodeConflictSequence (cr_Sequence record));
                                   KSet sourceSetMarkerKey markerBytes])
    end
  end.

(** The history before occurrence [sequence]. *)
Definition checkHistory (sequence : Z) (history : list ConflictClearRecord) : res unit :=
  let empty := (length history =? 0)%nat in
  refuse_if (sequence =? 1) && negb empty with EInvalid "first occurrence has clear history" ;;
  refuse_if (1 <? sequence) && empty with EInvalid "occurrence has no prior clear history" ;;
  refuse_if negb empty && negb (lastSequence history =? sub64 sequence 1) with EInvalid "occurrence is not preceded by its history" ;; Ok tt.

Definition stageClearConflictLatch (batch : list kvop) (q : ConflictClearRequest) : M K (ConflictClearRecord * list kvop) :=
  q <-- lift (normalizeConflictClearRequest q) ;;
  active <-- conflictLatch (cq_ArchiveID q) (cq_Head q) ;;
  match active with
  | None => fail ENotFound
  | Some active =>
    fail_if negb (bool_decide (cr_EvidenceID active = cq_EvidenceID q)) with EInvalid "active evidence ID is another" ;;
    m <-- readSourceSetMarker ;;
    fail_if match m with Some marker => negb (latchAware (cq_ArchiveID q) marker) | None => true end
      with EInvalid "not covered by a conflict-aware marker" ;;
    history <-- conflictClearHistory (cq_ArchiveID q) (cq_Head q) ;;
    lift (checkHistory (cr_Sequence active) history) ;;;
    let record := mkClearRecord (cq_ArchiveID q) (cq_Head q) (cr_Sequence active) (cr_EvidenceID active) (cq_ClearedAt q) (cq_Operator q) (cq_Note q) in
    let history := history ++ [record] in
    let history := drop (length history - maxConflictClearHistory) history in
    encodedHistory <-- lift (encodeConflictClearHistory (cq_ArchiveID q) (cq_Head q) history) ;;
    ret (record, batch ++ [KDelete (conflictStateKey keySourceConflictActive (cq_ArchiveID q) (cq_Head q));
                           KSet (conflictStateKey keySourceConflictSequence (cq_ArchiveID q) (cq_Head q)) (encodeConflictSequence (cr_Sequence active));
                           KSet (conflictStateKey keySourceConflictHistory (cq_ArchiveID q) (cq_Head q)) encodedHistory])
  end.

Definition ClearConflictLatch (q : ConflictClearRequest) : M K ConflictClearRecord :=
  let* (record, batch) := stageClearConflictLatch [] q in
  kv_commit batch ;;; ret record.

(** ** Validation of the whole namespace *)

Record conflictHeadRows : Type := mkRows { hr_active : option ConflictRecord; hr_sequence : option Z; hr_history : option (list ConflictClearRecord) }.
Definition emptyRows : conflictHeadRows := mkRows None None None.
Inductive namespace : Type := NsActive | NsSequence | NsHistory.

Definition addRow (ns : namespace) (archiveID : ArchiveID) (head : string) (v : bytes) (row : conflictHeadRows) : res conflictHeadRows :=
  match ns with
  | NsActive =>
    record <-? decodeConflictRecord v ;;
    refuse_if negb (bool_decide (cr_ArchiveID record = archiveID)) || negb (bool_decide (cr_Head record = head))
      with EInvalid "active conflict key contains another archive/head" ;;
    Ok (mkRows (Some record) (hr_sequence row) (hr_history row))
  | NsSequence => sequence <-? decodeConflictSequence v ;; Ok (mkRows (hr_active row) (Some sequence) (hr_history row))
  | NsHistory => history <-? decodeConflictClearHistory archiveID head v ;; Ok (mkRows (hr_active row) (hr_sequence row) (Some history))
  end.

Fixpoint namespaceRows (ns : namespace) (lower : bytes) (archiveID : ArchiveID) (rows : gmap string conflictHeadRows)
    (l : list (bytes * bytes)) : res (gmap string conflictHeadRows) :=
  match l with
  | [] => Ok rows
  | (k, v) :: rest =>
    let suffix := drop (length lower) k in
    refuse_if (length suffix <? 34)%nat || negb (at_ 32 suffix =? byte_Z sourceStateKeySep) with EInvalid "malformed key" ;;
    let rowArchive := arr32 (take 32 suffix) in
    let head := bytes_string (drop 33 suffix) in
    _ <-? validateConflictIdentity rowArchive head ;;
    refuse_if negb (bool_decide (rowArchive = archiveID)) with EInvalid "row belongs to another archive" ;;
    row <-? addRow ns archiveID head v (default emptyRows (rows !! head)) ;;
    namespaceRows ns lower archiveID (<[head := row]> rows) rest
  end.
Definition scanConflictNamespace (ns : namespace) (prefix : string) (archiveID : ArchiveID) (rows : gmap string conflictHeadRows) :
    M K (gmap string conflictHeadRows) :=
  let lower := key prefix in
  let* (l, e) := kv_scan lower (prefixUpperBound lower) in
  rows <-- lift (namespaceRows ns lower archiveID rows l) ;;
  match e with Some e => fail e | None => ret rows end.

Definition checkHeadRows (marker : sourceSetMarker) (row : conflictHeadRows) : res unit :=
  match hr_sequence row with
  | None => Err (EInvalid "active/history rows without a sequence floor")
  | Some sequence =>
    match hr_active row with
    | Some active =>
      refuse_if negb (cr_Sequence active =? sequence) with EInvalid "active conflict is not at the floor" ;;
      _ <-? validateConflictRecordAgainstMarker active marker ;;
      refuse_if (sequence =? 1) && present (hr_history row) with EInvalid "first occurrence has clear history" ;;
      refuse_if (1 <? sequence) && negb (present (hr_history row)) with EInvalid "occurrence has no prior clear history" ;;
      refuse_if match hr_history row with Some h => negb (lastSequence h =? sub64 sequence 1) | None => false end
        with EInvalid "occurrence is not preceded by its history" ;; Ok tt
    | None =>
      match hr_history row with
      | None => Err (EInvalid "cleared conflict has no operator history")
      | Some h => refuse_if negb (lastSequence h =? sequence) with EInvalid "operator history ends elsewhere" ;; Ok tt
      end
    end
  end.

Definition sortedHeads (rows : gmap string conflictHeadRows) : list string := merge_sort String.le (elements (dom rows)).
Definition checkAllRows (marker : sourceSetMarker) (rows : gmap string conflictHeadRows) : res unit :=
  _ <-? rmap (fun head => checkHeadRows marker (default emptyRows (rows !! head))) (sortedHeads rows) ;; Ok tt.

Definition validateConflictState (archiveID : ArchiveID) : M K unit :=
  fail_if ArchiveID_IsZero archiveID with EInvalid "conflict state requires a nonzero archive ID" ;;
  rows <-- scanConflictNamespace NsActive keySourceConflictActive archiveID ∅ ;;
  rows <-- scanConflictNamespace NsSequence keySourceConflictSequence archiveID rows ;;
  rows <-- scanConflictNamespace NsHistory keySourceConflictHistory archiveID rows ;;
  m <-- readSourceSetMarker ;;
  fail_if match m with Some marker => negb (bool_decide (sm_archiveID marker = archiveID)) | None => false end
    with EInvalid "marker belongs to another archive" ;;
  let aware := match m with Some marker => latchAware archiveID marker | None => false end in
  if bool_decide (rows = ∅) then fail_if aware with EInvalid "conflict-aware marker has no durable conflict rows" ;; ret tt
  else match m with
       | Some marker => fail_if negb aware with EInvalid "rows are not covered by a conflict-aware marker" ;; lift (checkAllRows marker rows)
       | None => fail (EInvalid "rows are not covered by a conflict-aware marker")
       end.
End ConflictState.
