(* ===== verification/ConflictCodec.v ===== *)
(** The durable conflict latch: its records read back.

    Proved: what the encoders of ConflictState.v write is what its decoders read, for
    active records, sequences and clear histories; a record has one spelling; validation
    of a request is idempotent, so that a stored record is in canonical order. *)
From Stdlib Require Import Ascii.
From Stdlib Require String.
From S2P Require Import Prelude Cid Schema Core Engine Ledger Wire Json JsonDecode Publication PublicationJson Claims Arbitration Checkpoint CheckpointCorrect FollowState FollowStateCorrect SourceState SourceStateCorrect ConflictState.

Lemma Ok_inj {E A : Type} (x y : A) : @Ok E A x = Ok y -> x = y.
Proof. congruence. Qed.

(** ** The decoder *)

Lemma d_take_app n x rest : length x = n -> d_take n (x ++ rest) = (Ok x, rest).
Proof.
  intros <-. unfold d_take. rewrite (proj2 (Nat.ltb_ge _ _)) by (rewrite length_app; lia). by rewrite take_app_length, drop_app_length.
Qed.
Lemma d_u8_app z rest : 0 <= z < 256 -> d_u8 (byte_of_Z z :: rest) = (Ok z, rest).
Proof.
  intros Hz. unfold d_u8. rewrite (bind_eq_ok _ _ _ [byte_of_Z z] rest) by (by apply (d_take_app 1 [byte_of_Z z])).
  unfold ret, at_. cbn. by rewrite flag_byte.
Qed.
Lemma d_u16_app z rest : 0 <= z < 65536 -> d_u16 (AppendUint16 z ++ rest) = (Ok z, rest).
Proof. intros Hz. unfold d_u16. rewrite (bind_eq_ok _ _ _ (AppendUint16 z) rest) by (by apply d_take_app). unfold ret. by rewrite Uint16_put. Qed.
Lemma d_u64_app z rest : is_u64 z -> d_u64 (PutUint64 z ++ rest) = (Ok z, rest).
Proof. intros Hz. unfold d_u64. rewrite (bind_eq_ok _ _ _ (PutUint64 z) rest) by (by apply d_take_app). unfold ret. by rewrite Uint64_PutUint64. Qed.
Lemma d_array_app a rest : d_array (aid_bytes a ++ rest) = (Ok a, rest).
Proof. unfold d_array. rewrite (bind_eq_ok _ _ _ (aid_bytes a) rest) by (apply d_take_app, aid_length). unfold ret. by rewrite arr32_bytes. Qed.
Lemma d_bytes8_app max v rest : (length v <= max)%nat -> (max < 256)%nat -> d_bytes8 max (appendLengthPrefixed8 v ++ rest) = (Ok v, rest).
Proof.
  intros Hv Hm. unfold d_bytes8, appendLengthPrefixed8. cbn [app]. unfold len. rewrite (bind_eq_ok _ _ _ (Z.of_nat (length v)) (v ++ rest)) by (apply d_u8_app; lia).
  rewrite (proj2 (Z.ltb_ge _ _)) by lia. rewrite Nat2Z.id. by apply d_take_app.
Qed.
Lemma d_bytes16_app max v rest : (length v <= max)%nat -> Z.of_nat max < 65536 -> d_bytes16 max (appendLengthPrefixed16 v ++ rest) = (Ok v, rest).
Proof.
  intros Hv Hm. unfold d_bytes16, appendLengthPrefixed16. rewrite <- app_assoc. unfold len.
  rewrite (bind_eq_ok _ _ _ (Z.of_nat (length v)) (v ++ rest)) by (apply d_u16_app; lia).
  rewrite (proj2 (Z.ltb_ge _ _)) by lia. rewrite Nat2Z.id. by apply d_take_app.
Qed.

(** One read of the decoder. *)
Ltac d_bounds := solve [done | unfold is_u64, len, maxConflictHeadBytes, maxConflictCIDBytes, maxConflictOperatorBytes, maxConflictClearNoteBytes, maxSourceIDBytes in *; cbn [length]; lia].
Ltac d_step := erewrite bind_eq_ok;
  [cbv beta|first [apply d_u8_app | apply d_u16_app | apply d_u64_app | apply d_array_app | apply d_bytes8_app | apply d_bytes16_app]; d_bounds].

(** ** Sequences *)

Lemma sequence_roundtrip n : is_u64 n -> n <> 0 -> decodeConflictSequence (encodeConflictSequence n) = Ok n.
Proof.
  intros Hn H0. unfold decodeConflictSequence, encodeConflictSequence. cbn [app length]. rewrite PutUint64_length. cbn [Nat.eqb negb orb].
  change (at_ 0 _) with 1. cbn [Z.eqb Pos.eqb negb orb drop]. rewrite drop_0, Uint64_PutUint64 by done. by rewrite (proj2 (Z.eqb_neq _ _)).
Qed.
Lemma decodeSequence_pos b n : decodeConflictSequence b = Ok n -> 0 < n /\ is_u64 n.
Proof.
  unfold decodeConflictSequence. destruct (negb (length b =? 9)%nat || _) eqn:E; [done|]. apply orb_false_iff in E as [E%negb_false_iff%Nat.eqb_eq _].
  cbv zeta. destruct (Z.eqb_spec (Uint64 (drop 1 b)) 0); [done|]. intros [= <-]. pose proof (Uint64_range (drop 1 b)) as Hr.
  rewrite length_drop, E in Hr. unfold is_u64. change (256 ^ Z.of_nat (9 - 1)) with (2 ^ 64) in Hr. lia.
Qed.

(** ** Clear histories *)

Lemma boundedText_len n s : boundedText n s = true -> (length (string_bytes s) <= n)%nat.
Proof. unfold boundedText. intros H%negb_true_iff. apply orb_false_iff in H as [[H _]%orb_false_iff _]. by apply Nat.ltb_ge in H. Qed.

Lemma normalizeClear_ok q n : normalizeConflictClearRequest q = Ok n ->
  n = mkClearRequest (cq_ArchiveID q) (cq_Head q) (cq_EvidenceID q) (time_Unix (Unix (cq_ClearedAt q))) (cq_Operator q) (cq_Note q) /\
  validateConflictIdentity (cq_ArchiveID q) (cq_Head q) = Ok tt /\ isZero32 (cq_EvidenceID q) = false /\ 0 <= Unix (cq_ClearedAt q) /\
  (length (string_bytes (cq_Operator q)) <= 63)%nat /\ (length (string_bytes (cq_Note q)) <= 512)%nat.
Proof.
  unfold normalizeConflictClearRequest. intros ([] & Hi & H)%rbind_ok. destruct (isZero32 _); [done|].
  destruct (IsZero _); [done|]. cbn [orb] in H. destruct (Z.ltb_spec (Unix (cq_ClearedAt q)) 0) as [|Ht]; [done|]. cbn [orb] in H.
  destruct (emptyStr _); [done|]. cbn [orb] in H. destruct (boundedText maxConflictOperatorBytes _) eqn:Eo; [|done]. cbn [negb] in H.
  destruct (boundedText maxConflictClearNoteBytes _) eqn:En; [|done]. injection H as <-. apply boundedText_len in Eo, En. done.
Qed.

(** Times of the history are whole seconds of an int64. *)
Definition clear_fits (r : ConflictClearRecord) : Prop := is_u64 (cc_Sequence r) /\ cc_ClearedAt r = time_Unix (Unix (cc_ClearedAt r)) /\ Unix (cc_ClearedAt r) < 2 ^ 63.

Lemma clears_roundtrip a h prior l b rest : encodeClears a h prior l = Ok b -> Forall clear_fits l ->
  decodeClears a h (length l) (b ++ rest) = (Ok l, rest).
Proof.
  revert prior b. induction l as [|r l IH]; intros prior b; cbn [encodeClears decodeClears length]; [by intros [= <-]|].
  destruct (negb (bool_decide (cc_ArchiveID r = a)) || _ || _ || _ || _) eqn:E; [done|].
  apply orb_false_iff in E as [[[[Ea Eh]%orb_false_iff _]%orb_false_iff _]%orb_false_iff _].
  apply negb_false_iff, bool_decide_eq_true_1 in Ea, Eh. destruct (match prior with Some _ => _ | None => _ end); [done|].
  intros (n & Hn & H)%rbind_ok [(Hs & Ht & Ht')  Hl]%Forall_cons. apply rbind_ok in H as (tail & Htl & H). apply Ok_inj in H as <-.
  apply normalizeClear_ok in Hn as (-> & _ & _ & Hnn & Ho & Hno). cbn [cq_ClearedAt cq_Operator cq_Note cq_ArchiveID cq_Head cq_EvidenceID] in *.
  rewrite Unix_time, <- !app_assoc. assert (Hu : u64 (Unix (cc_ClearedAt r)) = Unix (cc_ClearedAt r)) by (apply u64_small; unfold is_u64; lia).
  rewrite Hu. d_step.
  d_step. d_step. rewrite (proj2 (Z.ltb_ge maxInt64 _)) by (unfold maxInt64; lia).
  d_step. d_step.
  erewrite bind_eq_ok by (by eapply IH). unfold ret. rewrite !bytes_string_bytes. unfold int64. rewrite (proj2 (Z.ltb_lt _ _)) by lia. rewrite <- Ht.
  destruct r; cbn in *; congruence.
Qed.

Lemma history_roundtrip a h l b : encodeConflictClearHistory a h l = Ok b -> Forall clear_fits l -> decodeConflictClearHistory a h b = Ok l.
Proof.
  intros He Hf. pose proof He as He'. unfold encodeConflictClearHistory in He. destruct (Nat.eqb_spec (length l) 0) as [|H0]; [done|].
  destruct (Nat.ltb_spec maxConflictClearHistory (length l)) as [|Hl]; [done|]. cbn [orb] in He. unfold maxConflictClearHistory in *.
  apply rbind_ok in He as (tail & Ht & He). unfold decodeConflictClearHistory.
  assert (Hd : b = byte_of_Z 1 :: byte_of_Z (len l) :: tail ++ []) by (apply Ok_inj in He as <-; by rewrite app_nil_r). unfold len in Hd. rewrite Hd.
  d_step. cbn [Z.eqb Pos.eqb negb]. d_step. rewrite (proj2 (Z.eqb_neq _ _)), (proj2 (Z.ltb_ge _ _)) by (unfold maxConflictClearHistory; lia). cbn [orb].
  rewrite Nat2Z.id. erewrite bind_eq_ok by (by eapply clears_roundtrip). cbn [bind d_end ret fst rbind length Nat.eqb]. rewrite <- Hd, He'. cbn [rbind].
  by rewrite bool_decide_eq_true_2.
Qed.

Lemma decodeHistory_encodes a h b l : decodeConflictClearHistory a h b = Ok l -> encodeConflictClearHistory a h l = Ok b.
Proof.
  unfold decodeConflictClearHistory. intros (x & _ & H)%rbind_ok. apply rbind_ok in H as (c & Hc & H). case_bool_decide as E; [|done].
  cbn [negb] in H. injection H as <-. by rewrite Hc, E.
Qed.

Section ConflictCodec.
Context `{MH : Multihash} `{DB : !DigestBytes} `{CC : !CidBytes} `{CT : !CidText}.

(** ** Candidates *)

(** Values of the Go types. *)
Definition candidate_fits (c : ConflictCandidateSummary) : Prop :=
  0 <= cs_Role c < 256 /\ 0 <= cs_CheckpointVersion c < 256 /\ is_u64 (cs_Revision c) /\ is_u64 (cs_SyncedTo c).
Definition input_fits (i : ConflictLatchInput) : Prop :=
  is_u64 (cl_SourceSetRevision i) /\ 0 <= cl_PairCount i < 65536 /\ candidate_fits (cl_Left i) /\ candidate_fits (cl_Right i).

Lemma d_cid16_app required c rest : (required = true -> Defined c = true) -> cidTooLong c = false -> d_cid16 required (appendCID16 c ++ rest) = (Ok c, rest).
Proof.
  intros Hr Hl. unfold d_cid16, appendCID16. destruct c as [c|].
  - unfold cidTooLong in Hl. apply Nat.ltb_ge in Hl. d_step. rewrite (proj2 (Nat.eqb_neq _ _)).
    2: { intros E. apply nil_length_inv in E. by apply (cid_bytes_nonempty c). }
    erewrite bind_eq_ok by (unfold lift; by rewrite castCid_bytes). by rewrite bool_decide_eq_true_2.
  - rewrite (bind_eq_ok _ _ _ [] rest) by (apply (d_bytes16_app _ []); d_bounds). cbn [length Nat.eqb]. destruct required; [by specialize (Hr eq_refl)|done].
Qed.

Lemma candidate_ok_inv c : validateConflictCandidate c = Ok tt -> Defined (cs_Root c) = true /\ cidTooLong (cs_Root c) = false /\ cidTooLong (cs_Manifest c) = false /\
  (length (string_bytes (cs_SourceID c)) <= 63)%nat.
Proof.
  unfold validateConflictCandidate. intros ([] & Hr & H)%rbind_ok. destruct (Defined _); [|done]. cbn [negb] in H. destruct (cidTooLong (cs_Root c)); [done|].
  destruct (cidTooLong (cs_Manifest c)); [done|]. cbn [orb] in H. repeat split. unfold checkRole in Hr. destruct (_ =? ConflictCandidateSource).
  - destruct (negb _); [done|]. apply rbind_ok in Hr as ([] & Hs & _). apply sourceID_length in Hs. lia.
  - destruct (_ =? ConflictCandidateDurable); [|done]. destruct (_ || _); [done|]. destruct (negb (_ =? checkpointVersionV4)).
    + destruct (_ || _); [done|]. destruct (emptyStr (cs_SourceID c)) eqn:E; [|done]. unfold emptyStr in E. destruct (cs_SourceID c); [cbn; lia|done].
    + destruct (emptyStr _); [done|]. apply rbind_ok in Hr as ([] & Hs & _). apply sourceID_length in Hs. lia.
Qed.

Lemma flags_bits c : 0 <= candidateFlags c < 256 /\ Z.ldiff (candidateFlags c) 3 = 0 /\ hasBit (candidateFlags c) 1 = cs_Covered c /\
  hasBit (candidateFlags c) 2 = Defined (cs_Manifest c).
Proof. unfold candidateFlags, hasBit. destruct (cs_Covered c), (cs_Manifest c); cbn; repeat split; done. Qed.

Lemma candidate_roundtrip c rest : candidate_fits c -> validateConflictCandidate c = Ok tt -> decodeConflictCandidate (appendConflictCandidate c ++ rest) = (Ok c, rest).
Proof.
  intros (Hr & Hv & Hrev & Hs) H. apply candidate_ok_inv in H as (Hd & H1 & H2 & Hl). destruct (flags_bits c) as (F1 & F2 & F3 & F4).
  unfold decodeConflictCandidate, appendConflictCandidate. rewrite <- !app_assoc. cbn [app]. d_step. d_step. d_step. d_step. d_step.
  change ([byte_of_Z (candidateFlags c)] ++ ?l) with (byte_of_Z (candidateFlags c) :: l). d_step. rewrite F2. cbn [Z.eqb negb]. d_step.
  erewrite bind_eq_ok by (by apply d_cid16_app). erewrite bind_eq_ok by (by apply d_cid16_app). rewrite F3, F4, Bool.eqb_reflx. cbn [negb]. unfold ret.
  rewrite bytes_string_bytes. by destruct c.
Qed.

(** ** Requests *)

Lemma candidatesEqual_spec l r : conflictCandidatesEqual l r = true <-> l = r.
Proof.
  unfold conflictCandidatesEqual. rewrite !andb_true_iff, !Z.eqb_eq, !bool_decide_eq_true, Bool.eqb_true_iff.
  destruct l, r; cbn. split; [|by intros [= -> -> -> -> -> -> -> -> ->]]. intros ((((((((-> & ->) & ->) & ->) & ->) & ->) & ->) & ->) & ->). done.
Qed.
Lemma candidatesEqual_sym l r : conflictCandidatesEqual l r = conflictCandidatesEqual r l.
Proof. apply eq_true_iff_eq. rewrite !candidatesEqual_spec. done. Qed.

(** What a validated request has passed. *)
Record request_ok (i : ConflictLatchInput) : Prop := {
  ro_identity : validateConflictIdentity (cl_ArchiveID i) (cl_Head i) = Ok tt;
  ro_reason : validConflictReason (cl_Reason i) = true;
  ro_generation : (cl_SourceSetRevision i =? 0) || isZero32 (cl_SourceSetDigest i) = false;
  ro_pairs : (cl_PairCount i =? 0) || (maxConflictPairs <? cl_PairCount i) = false;
  ro_left : validateConflictCandidate (cl_Left i) = Ok tt;
  ro_right : validateConflictCandidate (cl_Right i) = Ok tt;
  ro_differ : conflictCandidatesEqual (cl_Left i) (cl_Right i) = false;
  ro_durable : (cs_Role (cl_Left i) =? ConflictCandidateDurable) && (cs_Role (cl_Right i) =? ConflictCandidateDurable) = false;
  ro_sources : (cs_Role (cl_Left i) =? ConflictCandidateSource) && (cs_Role (cl_Right i) =? ConflictCandidateSource)
    && bool_decide (cs_SourceID (cl_Left i) = cs_SourceID (cl_Right i)) = false;
  ro_order : conflictCandidateLess (cl_Right i) (cl_Left i) = false;
  ro_evidence : validateConflictReasonEvidence i = Ok tt }.

Lemma request_accepts i : request_ok i -> NewConflictLatchRequest i = Ok i.
Proof.
  intros [H1 H2 H3 H4 H5 H6 H7 H8 H9 H10 H11]. unfold NewConflictLatchRequest. rewrite H1. cbn [rbind]. rewrite H2. cbn [negb]. rewrite H3, H4, H5. cbn [rbind].
  rewrite H6. cbn [rbind]. rewrite H7, H8, H9. cbv zeta. rewrite H10, H11. done.
Qed.

Lemma request_accepted i j : NewConflictLatchRequest i = Ok j -> request_ok j /\ (j = i \/ j = swapSides i).
Proof.
  unfold NewConflictLatchRequest. intros ([] & H1 & H)%rbind_ok. destruct (validConflictReason _) eqn:H2; [|done]. cbn [negb] in H.
  destruct ((cl_SourceSetRevision i =? 0) || _) eqn:H3; [done|]. destruct ((cl_PairCount i =? 0) || _) eqn:H4; [done|].
  apply rbind_ok in H as ([] & H5 & H). apply rbind_ok in H as ([] & H6 & H). destruct (conflictCandidatesEqual _ _) eqn:H7; [done|].
  destruct (_ && (cs_Role (cl_Right i) =? ConflictCandidateDurable)) eqn:H8; [done|]. destruct (_ && bool_decide _) eqn:H9; [done|]. cbv zeta in H.
  destruct (conflictCandidateLess (cl_Right i) (cl_Left i)) eqn:H10; apply rbind_ok in H as ([] & H11 & [= <-]); (split; [|by auto]); split; try done.
  - cbn. by rewrite candidatesEqual_sym.
  - cbn. by rewrite andb_comm.
  - cbn. rewrite <- H9. f_equal; [apply andb_comm|]. apply bool_decide_ext. split; congruence.
  - cbn. unfold conflictCandidateLess in *. destruct (bytes_ltb (conflictCandidateOrderBytes (cl_Left i)) (conflictCandidateOrderBytes (cl_Right i))) eqn:E; [|done].
    pose proof (bytes_ltb_trans _ _ _ H10 E) as Hx. by rewrite bytes_ltb_irrefl in Hx.
Qed.

Lemma request_idempotent i j : NewConflictLatchRequest i = Ok j -> NewConflictLatchRequest j = Ok j.
Proof. intros [H _]%request_accepted. by apply request_accepts. Qed.

(** ** Records *)

Definition requestBytes (i : ConflictLatchInput) (sequence : Z) : bytes :=
  [conflictStateEncodingV1] ++ aid_bytes (cl_ArchiveID i) ++ appendLengthPrefixed16 (string_bytes (cl_Head i))
  ++ PutUint64 sequence ++ [byte_of_Z (reason_Z (cl_Reason i))] ++ PutUint64 (cl_SourceSetRevision i)
  ++ aid_bytes (cl_SourceSetDigest i) ++ AppendUint16 (cl_PairCount i) ++ appendConflictCandidate (cl_Left i) ++ appendConflictCandidate (cl_Right i).

Lemma encodeRequest_eq i n : request_ok i -> encodeConflictRequest i n = Ok (requestBytes i n).
Proof. intros H. unfold encodeConflictRequest. by rewrite (request_accepts i H). Qed.

Lemma reason_roundtrip r : reason_of (reason_Z r) = r.
Proof. by destruct r. Qed.

Lemma identity_len a h : validateConflictIdentity a h = Ok tt -> (length (string_bytes h) <= 255)%nat.
Proof.
  unfold validateConflictIdentity. destruct (ArchiveID_IsZero a); [done|]. destruct (emptyStr h); [done|]. cbn [orb].
  destruct (boundedText maxConflictHeadBytes h) eqn:E; [|done]. intros _. by apply boundedText_len in E.
Qed.

(** A record in canonical order, under its own evidence ID. *)
Definition record_ok (r : ConflictRecord) : Prop :=
  request_ok (recordInput r) /\ cr_Sequence r <> 0 /\ cr_EvidenceID r = evidenceIDForCanonical (requestBytes (recordInput r) (cr_Sequence r)).

Lemma encodeRecord_eq r : record_ok r -> encodeConflictRecord r = Ok (requestBytes (recordInput r) (cr_Sequence r) ++ aid_bytes (cr_EvidenceID r)).
Proof.
  intros (Hr & Hs & He). unfold encodeConflictRecord. rewrite (proj2 (Z.eqb_neq _ _)) by done. rewrite (request_accepts _ Hr). cbn [rbind].
  rewrite (encodeRequest_eq _ _ Hr). cbn [rbind]. rewrite bool_decide_eq_true_2 by done. done.
Qed.

Lemma record_roundtrip r : record_ok r -> is_u64 (cr_Sequence r) -> input_fits (recordInput r) ->
  exists b, encodeConflictRecord r = Ok b /\ decodeConflictRecord b = Ok r.
Proof.
  intros Hok Hs (Hrev & Hpc & Hfl & Hfr). eexists. split; [by apply encodeRecord_eq|]. pose proof (encodeRecord_eq r Hok) as He. destruct Hok as (Hr & H0 & Hev).
  set (b := requestBytes _ _ ++ _) in *. unfold decodeConflictRecord.
  assert (Hd : fst ((version <-- d_u8 ;;
    fail_if negb (version =? 1) with EInvalid "unsupported or truncated encoding" ;;
    archiveID <-- d_array ;; head <-- d_bytes16 maxConflictHeadBytes ;; sequence <-- d_u64 ;; reason <-- d_u8 ;; sourceRevision <-- d_u64 ;;
    sourceDigest <-- d_array ;; pairCount <-- d_u16 ;; left <-- decodeConflictCandidate ;; right <-- decodeConflictCandidate ;;
    evidenceID <-- d_array ;; d_end ;;;
    ret (mkRecord archiveID (bytes_string head) sequence (reason_of reason) sourceRevision sourceDigest pairCount left right evidenceID)) b) = Ok r).
  { unfold b, requestBytes. rewrite <- !app_assoc. change ([conflictStateEncodingV1] ++ ?l) with (byte_of_Z 1 :: l).
    change ([byte_of_Z (reason_Z ?x)] ++ ?l) with (byte_of_Z (reason_Z x) :: l). pose proof (identity_len _ _ (ro_identity _ Hr)) as Hh.
    assert (0 <= reason_Z (cl_Reason (recordInput r)) < 256) by (destruct (cl_Reason _); cbn; lia).
    d_step. cbn [Z.eqb Pos.eqb negb]. d_step. d_step. d_step. d_step. d_step. d_step. d_step.
    erewrite bind_eq_ok by (apply candidate_roundtrip; [done|by apply (ro_left _ Hr)]).
    erewrite bind_eq_ok by (apply candidate_roundtrip; [done|by apply (ro_right _ Hr)]).
    rewrite <- (app_nil_r (aid_bytes (cr_EvidenceID r))). d_step. cbn [bind d_end ret fst length Nat.eqb]. rewrite bytes_string_bytes, reason_roundtrip.
    by destruct r. }
  rewrite Hd. cbn [rbind]. rewrite He. cbn [rbind]. by rewrite bool_decide_eq_true_2.
Qed.

Lemma decodeRecord_encodes b r : decodeConflictRecord b = Ok r -> encodeConflictRecord r = Ok b.
Proof.
  unfold decodeConflictRecord. intros (x & _ & H)%rbind_ok. apply rbind_ok in H as (c & Hc & H). case_bool_decide as E; [|done].
  cbn [negb] in H. injection H as <-. by rewrite Hc, E.
Qed.

Lemma recordFromRequest_ok i n r : request_ok i -> recordFromRequest i n = Ok r ->
  record_ok r /\ recordInput r = i /\ cr_Sequence r = n.
Proof.
  intros Hi. unfold recordFromRequest. destruct (Z.eqb_spec n 0); [done|]. rewrite (encodeRequest_eq i n Hi). cbn [rbind]. intros [= <-].
  assert (E : recordInput (mkRecord (cl_ArchiveID i) (cl_Head i) n (cl_Reason i) (cl_SourceSetRevision i) (cl_SourceSetDigest i)
        (cl_PairCount i) (cl_Left i) (cl_Right i) (evidenceIDForCanonical (requestBytes i n))) = i) by (by destruct i).
  unfold record_ok. rewrite E. done.
Qed.

Lemma request_fits q i : NewConflictLatchRequest q = Ok i -> input_fits q -> input_fits i.
Proof. intros [_ [-> | ->]]%request_accepted; [done|]. intros (H1 & H2 & H3 & H4). exact (conj H1 (conj H2 (conj H4 H3))). Qed.

(** C25: An active conflict record reads back and identifies its evidence: for every request
    the code accepts, whose numbers are values of their Go types, and every positive
    occurrence number, the record is built, is encoded, and the bytes decode to that very
    record, which holds the request in its canonical order; and conversely any bytes the
    decoder accepts are the one encoding of what it returns. *)
Theorem conflict_record_roundtrip :
  (forall q i n, input_fits q -> 0 < n < 2 ^ 64 -> NewConflictLatchRequest q = Ok i ->
     exists r b, recordFromRequest i n = Ok r /\ recordInput r = i /\ cr_Sequence r = n /\ encodeConflictRecord r = Ok b /\ decodeConflictRecord b = Ok r) /\
  (forall b r, decodeConflictRecord b = Ok r -> encodeConflictRecord r = Ok b).
Proof.
  split.
  - intros q i n Hf Hn Hi. pose proof (proj1 (request_accepted _ _ Hi)) as Hok.
    assert (exists r, recordFromRequest i n = Ok r) as [r Hr].
    { unfold recordFromRequest. rewrite (proj2 (Z.eqb_neq n 0)) by lia. rewrite (encodeRequest_eq i n Hok). by eexists. }
    destruct (recordFromRequest_ok i n r Hok Hr) as (Hrok & Hri & Hrs). destruct (record_roundtrip r) as (b & Hb & Hd); [done|rewrite Hrs; unfold is_u64; lia| |].
    + rewrite Hri. by eapply request_fits.
    + by exists r, b.
  - intros b r. unfold decodeConflictRecord. intros (r0 & _ & H)%rbind_ok. apply rbind_ok in H as (c & Hc & H). case_bool_decide as E; [|done].
    injection H as <-. by rewrite Hc, E.
Qed.
End ConflictCodec.
