(* ===== verification/ConflictInv.v ===== *)
(** The invariant of the durable conflict state, and the validation at start.

    [conflict_inv] says what a store whose latches were written by the program looks
    like; the validation of the whole namespace accepts it. *)
From Stdlib Require Import Ascii.
From Stdlib Require String.
From S2P Require Import Prelude Cid Schema Core Engine Ledger Wire Json JsonDecode Publication PublicationJson Claims Arbitration Checkpoint CheckpointCorrect FollowState FollowStateCorrect SourceState SourceStateCorrect ConflictState ConflictCodec.

Definition nsPrefix (ns : namespace) : string :=
  match ns with NsActive => keySourceConflictActive | NsSequence => keySourceConflictSequence | NsHistory => keySourceConflictHistory end.
Definition nsKey (ns : namespace) (a : ArchiveID) (h : string) : bytes := conflictStateKey (nsPrefix ns) a h.
Definition conflictKey (k : bytes) : Prop := exists ns, key (nsPrefix ns) `prefix_of` k.

Lemma nsKey_prefix ns a h : key (nsPrefix ns) `prefix_of` nsKey ns a h.
Proof. unfold nsKey, conflictStateKey, sourceArchivePrefix. rewrite <- app_assoc. by apply prefix_app_r. Qed.
Lemma nsKey_conflict ns a h : conflictKey (nsKey ns a h).
Proof. exists ns. apply nsKey_prefix. Qed.
Lemma nsKey_inj ns a b h g : nsKey ns a h = nsKey ns b g -> a = b /\ h = g.
Proof. unfold nsKey, conflictStateKey. by intros [-> ->%string_bytes_inj]%archivePrefix_inj. Qed.
Ltac unfold_ns := unfold nsKey, conflictStateKey, nsPrefix, keySourceConflictActive, keySourceConflictSequence, keySourceConflictHistory.
Lemma nsKey_ns ns ns' a b h g : nsKey ns a h = nsKey ns' b g -> ns = ns'.
Proof. destruct ns, ns'; try done; unfold_ns; unfold sourceArchivePrefix, key; cbn; discriminate. Qed.
Ltac not_conflict := let ns := fresh in let x := fresh in let E := fresh in
  intros [ns [x E]]; destruct ns; revert E; unfold nsPrefix, keySourceConflictActive, keySourceConflictSequence, keySourceConflictHistory; keys_apart.
Lemma marker_not_conflict : ~ conflictKey sourceSetMarkerKey.
Proof. not_conflict. Qed.

Section ConflictInv.
Context `{MH : Multihash} `{DB : !DigestBytes} `{CC : !CidBytes} `{CT : !CidText}.
Local Abbreviation KV := (gmap bytes bytes).

Definition decActive (a : ArchiveID) (h : string) (v : bytes) : res ConflictRecord :=
  record <-? decodeConflictRecord v ;;
  refuse_if negb (bool_decide (cr_ArchiveID record = a)) || negb (bool_decide (cr_Head record = h)) with EInvalid "active conflict key contains another archive/head" ;;
  Ok record.
Definition activeOf (m : KV) (a : ArchiveID) (h : string) : option ConflictRecord := at_key m (nsKey NsActive a h) (decActive a h).
Definition occurrenceOf (m : KV) (a : ArchiveID) (h : string) : option Z := at_key m (nsKey NsSequence a h) decodeConflictSequence.
Definition historyOf (m : KV) (a : ArchiveID) (h : string) : option (list ConflictClearRecord) :=
  at_key m (nsKey NsHistory a h) (decodeConflictClearHistory a h).
Definition rowsAt (m : KV) (a : ArchiveID) (h : string) : conflictHeadRows := mkRows (activeOf m a h) (occurrenceOf m a h) (historyOf m a h).

(** A row that is there decodes. *)
Definition readable {A : Type} (m : KV) (k : bytes) (o : option A) : Prop := m !! k = None \/ is_Some o.

Record head_ok (mk : sourceSetMarker) (m : KV) (a : ArchiveID) (h : string) : Prop := {
  ho_active : readable m (nsKey NsActive a h) (activeOf m a h);
  ho_sequence : readable m (nsKey NsSequence a h) (occurrenceOf m a h);
  ho_history : readable m (nsKey NsHistory a h) (historyOf m a h);
  ho_check : rowsAt m a h = emptyRows \/ checkHeadRows mk (rowsAt m a h) = Ok tt }.

Record conflict_inv (m : KV) : Prop := {
  ci_marker : readable m sourceSetMarkerKey (markerOf m);
  ci_keys : forall ns k v, key (nsPrefix ns) `prefix_of` k -> m !! k = Some v -> exists mk h,
    markerOf m = Some mk /\ latchAware (sm_archiveID mk) mk = true /\ validateConflictIdentity (sm_archiveID mk) h = Ok tt /\ k = nsKey ns (sm_archiveID mk) h;
  ci_heads : forall mk h, markerOf m = Some mk -> head_ok mk m (sm_archiveID mk) h;
  ci_aware : forall mk, markerOf m = Some mk -> latchAware (sm_archiveID mk) mk = true -> exists h, is_Some (occurrenceOf m (sm_archiveID mk) h) }.

(** ** Scans *)

Lemma addRow_active a h v row : addRow NsActive a h v row = (r <-? decActive a h v ;; Ok (mkRows (Some r) (hr_sequence row) (hr_history row))).
Proof. unfold addRow, decActive. destruct (decodeConflictRecord v); [|done]. cbn. by destruct (_ || _). Qed.

Definition rowDecodes (ns : namespace) (a : ArchiveID) (h : string) (v : bytes) : Prop := is_ok (addRow ns a h v emptyRows) = true.
Definition setRow (ns : namespace) (a : ArchiveID) (h : string) (o : option bytes) (row : option conflictHeadRows) : option conflictHeadRows :=
  match o with
  | None => row
  | Some v => match addRow ns a h v (default emptyRows row) with Ok r => Some r | Err _ => row end
  end.

Lemma rowDecodes_any ns a h v row : rowDecodes ns a h v -> is_ok (addRow ns a h v row) = true.
Proof.
  unfold rowDecodes. destruct ns; [rewrite !addRow_active|unfold addRow..].
  - by destruct (decActive a h v).
  - by destruct (decodeConflictSequence v).
  - by destruct (decodeConflictClearHistory a h v).
Qed.

Lemma suffix_parts ns a h : let suffix := drop (length (key (nsPrefix ns))) (nsKey ns a h) in
  take 32 suffix = aid_bytes a /\ at_ 32 suffix = byte_Z sourceStateKeySep /\ drop 33 suffix = string_bytes h /\ length suffix = (33 + length (string_bytes h))%nat.
Proof.
  unfold nsKey, conflictStateKey, sourceArchivePrefix. rewrite <- !app_assoc, drop_app_length. cbv zeta. pose proof (aid_length a) as Hl. repeat split.
  - by rewrite take_app_length'.
  - unfold at_. rewrite lookup_app_r by lia. rewrite Hl. done.
  - rewrite drop_app_ge by lia. rewrite Hl. cbn. by rewrite drop_0.
  - rewrite !length_app, Hl. done.
Qed.

Lemma namespaceRows_ok ns a (l : list (bytes * bytes)) (rows : gmap string conflictHeadRows) :
  Forall (fun '(k, v) => exists h, k = nsKey ns a h /\ validateConflictIdentity a h = Ok tt /\ rowDecodes ns a h v) l ->
  exists rows', namespaceRows ns (key (nsPrefix ns)) a rows l = Ok rows' /\
    (NoDup l.*1 -> forall h, rows' !! h = setRow ns a h ((list_to_map l : KV) !! nsKey ns a h) (rows !! h)).
Proof.
  revert rows. induction l as [|[k v] l IH]; intros rows Hl.
  { exists rows. cbn. split; [done|]. intros _ h. by rewrite lookup_empty. }
  apply Forall_cons in Hl as [(h & -> & Hi & Hd) Hl]. cbn [namespaceRows]. cbv zeta.
  destruct (suffix_parts ns a h) as (P1 & P2 & P3 & P4). rewrite P1, P2, P3, P4, arr32_bytes, bytes_string_bytes, Hi.
  assert (Hne : (0 < length (string_bytes h))%nat).
  { unfold validateConflictIdentity in Hi. destruct (ArchiveID_IsZero a); [done|]. unfold emptyStr in Hi. destruct h; [done|]. cbn. lia. }
  rewrite (proj2 (Nat.ltb_ge _ _)) by lia. rewrite Z.eqb_refl. cbn [negb orb rbind]. rewrite bool_decide_eq_true_2 by done. cbn [negb].
  pose proof (rowDecodes_any ns a h v (default emptyRows (rows !! h)) Hd) as Ha. destruct (addRow ns a h v (default emptyRows (rows !! h))) as [row|] eqn:Ea; [|done].
  cbn [rbind]. destruct (IH (<[h := row]> rows) Hl) as (rows' & Hr & Hlook). exists rows'. split; [exact Hr|].
  intros Hnd g. cbn in Hnd. apply NoDup_cons in Hnd as [Hk Hnd]. rewrite Hlook by done.
  rewrite list_to_map_cons. destruct (decide (g = h)) as [->|Hg].
  - rewrite (not_elem_of_list_to_map_1 (M := gmap bytes) l) by done. rewrite !lookup_insert_eq. cbn [setRow]. by rewrite Ea.
  - rewrite !lookup_insert_ne; [done| |done]. intros [_ E]%nsKey_inj. by apply Hg.
Qed.

(** ** Validation at start *)

Lemma readable_row {A : Type} (m : KV) k (dec : bytes -> res A) v : readable m k (at_key m k dec) -> m !! k = Some v -> exists x, dec v = Ok x.
Proof. unfold readable, at_key. intros [->|[x Hx]]; [done|]. intros E. rewrite E in Hx. cbn in Hx. destruct (dec v); [eauto|done]. Qed.

Lemma inv_rowDecodes (m : KV) mk ns h v : conflict_inv m -> markerOf m = Some mk -> m !! nsKey ns (sm_archiveID mk) h = Some v -> rowDecodes ns (sm_archiveID mk) h v.
Proof.
  intros Hi Hm Hv. destruct (ci_heads m Hi mk h Hm) as [H1 H2 H3 _]. unfold rowDecodes.
  destruct ns; [rewrite addRow_active; eapply readable_row in H1 as [x Hx]|eapply readable_row in H2 as [x Hx]|eapply readable_row in H3 as [x Hx]]; try done;
    unfold addRow; by rewrite Hx.
Qed.

Definition noRows (row : conflictHeadRows) : bool := unset (hr_active row) && unset (hr_sequence row) && unset (hr_history row).
(** The row of a head after the three scans. *)
Definition scanned (m : KV) (a : ArchiveID) (h : string) : option conflictHeadRows :=
  setRow NsHistory a h (m !! nsKey NsHistory a h) (setRow NsSequence a h (m !! nsKey NsSequence a h) (setRow NsActive a h (m !! nsKey NsActive a h) None)).

Lemma at_key_row {A : Type} (m : KV) k (dec : bytes -> res A) : readable m k (at_key m k dec) ->
  (m !! k = None /\ at_key m k dec = None) \/ exists v x, m !! k = Some v /\ dec v = Ok x /\ at_key m k dec = Some x.
Proof.
  intros H. destruct (m !! k) as [v|] eqn:E; [right|left; split; [done|by apply at_key_none]].
  destruct (readable_row m k dec v H E) as [x Hx]. exists v, x. split; [done|]. split; [done|]. by eapply at_key_set.
Qed.

Lemma rows_present (m : KV) a h : noRows (rowsAt m a h) = false -> exists ns v, m !! nsKey ns a h = Some v.
Proof.
  unfold noRows, rowsAt, activeOf, occurrenceOf, historyOf, at_key. cbn [hr_active hr_sequence hr_history].
  destruct (m !! nsKey NsActive a h) as [v|] eqn:E1; [by exists NsActive, v|]. destruct (m !! nsKey NsSequence a h) as [v|] eqn:E2; [by exists NsSequence, v|].
  destruct (m !! nsKey NsHistory a h) as [v|] eqn:E3; [by exists NsHistory, v|]. intros Hx.
  done.
Qed.

Lemma scanned_spec (m : KV) mk a h : head_ok mk m a h -> scanned m a h = if noRows (rowsAt m a h) then None else Some (rowsAt m a h).
Proof.
  intros [H1 H2 H3 _]. unfold scanned, rowsAt, activeOf, occurrenceOf, historyOf in *.
  apply at_key_row in H1 as [[-> ->]|(v1 & x1 & -> & D1 & ->)]; apply at_key_row in H2 as [[-> ->]|(v2 & x2 & -> & D2 & ->)];
    apply at_key_row in H3 as [[-> ->]|(v3 & x3 & -> & D3 & ->)]; cbn [setRow default]; rewrite ?addRow_active, ?D1; cbn [rbind default hr_sequence hr_history];
    unfold addRow; rewrite ?D2, ?D3; cbn [rbind default hr_sequence hr_history hr_active emptyRows]; rewrite ?D3; done.
Qed.

Context {K : Type} `{PB : !Pebble K} `{PO : !PebbleOk K}.

(** The archive of the marker, if there is one. *)
Definition ofArchive (m : KV) (a : ArchiveID) : Prop := forall mk, markerOf m = Some mk -> sm_archiveID mk = a.

Lemma scan_accepts ns a rows (s : K) r s' : conflict_inv (kv s) -> ofArchive (kv s) a -> scanConflictNamespace ns (nsPrefix ns) a rows s = (r, s') ->
  kv s' = kv s /\ (r = Err EIO \/ exists rows', r = Ok rows' /\ forall h, rows' !! h = setRow ns a h (kv s !! nsKey ns a h) (rows !! h)).
Proof.
  intros Hi Ha. unfold scanConflictNamespace. cbv zeta.
  intros [([l e] & s1 & [E Hs]%kv_scan_spec & H)|(e & [E ->]%kv_scan_spec & ->)]%bind_run; [|by auto].
  assert (Hin : forall k v, (k, v) ∈ l -> kv s !! k = Some v /\ key (nsPrefix ns) `prefix_of` k).
  { intros k v Hkv. destruct e; destruct Hs as [_ Hs]; apply Hs in Hkv as [? Hr]; (split; [done|]); by apply keyUpperBound_prefix. }
  assert (Hl : Forall (fun '(k, v) => exists h, k = nsKey ns a h /\ validateConflictIdentity a h = Ok tt /\ rowDecodes ns a h v) l).
  { apply Forall_forall. intros [k v] [Hv Hp]%Hin. destruct (ci_keys _ Hi ns k v Hp Hv) as (mk & h & Hm & _ & Hid & ->).
    rewrite <- (Ha mk Hm) in *. exists h. split; [done|]. split; [done|]. by eapply inv_rowDecodes. }
  destruct (namespaceRows_ok ns a l rows Hl) as (rows' & Hr & Hlook). unfold bind, lift in H. rewrite Hr in H. destruct e as [e|].
  - injection H as <- <-. destruct Hs as [-> _]. by auto.
  - injection H as <- <-. split; [done|]. right. exists rows'. split; [done|]. destruct Hs as [Hsort Hs]. intros h. rewrite Hlook by (by apply sorted_NoDup). f_equal.
    destruct (kv s !! nsKey ns a h) as [v|] eqn:Ev.
    + apply elem_of_list_to_map; [by apply sorted_NoDup|]. apply Hs. split; [done|]. apply keyUpperBound_prefix, nsKey_prefix.
    + apply not_elem_of_list_to_map. intros ([k v] & E' & Hkv)%list_elem_of_fmap. apply Hs in Hkv as [Hkv _]. cbn [fst] in E'. rewrite <- E' in Hkv. congruence.
Qed.

Lemma readWith_total {A : Type} k (dec : bytes -> res A) (s : K) r s' : readable (kv s) k (at_key (kv s) k dec) -> readWith k dec s = (r, s') ->
  kv s' = kv s /\ (r = Err EIO \/ r = Ok (at_key (kv s) k dec)).
Proof.
  intros Hr. unfold readWith. intros [(v & s1 & [E Hv]%kv_get_spec & H)|(e & [E ->]%kv_get_spec & ->)]%bind_run; [|by auto].
  destruct (at_key_row _ _ _ Hr) as [[H1 ->]|(w & x & H1 & H2 & ->)]; rewrite H1 in Hv; subst v.
  - injection H as <- <-. by auto.
  - unfold bind, lift, ret in H. rewrite H2 in H. injection H as <- <-. by auto.
Qed.

Lemma checkAll_ok mk rows : (forall h row, rows !! h = Some row -> checkHeadRows mk row = Ok tt) -> checkAllRows mk rows = Ok tt.
Proof.
  intros H. unfold checkAllRows. assert (G : forall l, (forall h, h ∈ l -> is_Some (rows !! h)) ->
    is_ok (rmap (fun head => checkHeadRows mk (default emptyRows (rows !! head))) l) = true).
  { induction l as [|h l IH]; intros Hl; [done|]. cbn [rmap]. destruct (Hl h) as [row Hrow]; [by left|]. rewrite Hrow. change (default emptyRows (Some row)) with row. rewrite (H h row Hrow).
    cbn [rbind]. specialize (IH (fun h' Hh' => Hl h' (list_elem_of_further _ _ _ Hh'))). by destruct (rmap _ l). }
  specialize (G (sortedHeads rows)). destruct (rmap _ (sortedHeads rows)); [done|]. exfalso. assert (false = true); [|done]. apply G.
  intros h. unfold sortedHeads. rewrite merge_sort_Permutation, elem_of_elements. apply elem_of_dom.
Qed.

(** The validation accepts a store in the invariant, unless it cannot read it. *)
Lemma validate_accepts a (s : K) r s' : conflict_inv (kv s) -> ofArchive (kv s) a -> ArchiveID_IsZero a = false -> validateConflictState a s = (r, s') ->
  r = Ok tt \/ r = Err EIO.
Proof.
  intros Hi Ha Hz. unfold validateConflictState. rewrite Hz.
  intros [(r1 & s1 & H1 & H)|(e & H1 & ->)]%bind_run; eapply (scan_accepts NsActive) in H1 as [E1 H1]; try done; destruct H1 as [H1|(? & [= <-] & L1)]; [done| |simplify_eq; by right].
  rewrite <- E1 in Hi, Ha, L1.
  apply bind_run in H as [(r2 & s2 & H2 & H)|(e & H2 & ->)]; eapply (scan_accepts NsSequence) in H2 as [E2 H2]; try done; destruct H2 as [H2|(? & [= <-] & L2)]; [done| |simplify_eq; by right].
  rewrite <- E2 in Hi, Ha, L1, L2.
  apply bind_run in H as [(r3 & s3 & H3 & H)|(e & H3 & ->)]; eapply (scan_accepts NsHistory) in H3 as [E3 H3]; try done; destruct H3 as [H3|(? & [= <-] & L3)]; [done| |simplify_eq; by right].
  rewrite <- E3 in Hi, Ha, L1, L2, L3.
  assert (L : forall h, r3 !! h = scanned (kv s3) a h) by (intros h; unfold scanned; by rewrite L3, L2, L1, lookup_empty). clear L1 L2 L3.
  unfold readSourceSetMarker in H. apply bind_run in H as [(m & s4 & H4 & H)|(e & H4 & ->)]; (eapply readWith_total in H4 as [E4 H4]; [|exact (ci_marker _ Hi)]);
    destruct H4 as [H4|H4]; try discriminate H4; [|injection H4 as ->; by right]. injection H4 as ->. fold (markerOf (kv s3)) in H.
  destruct (markerOf (kv s3)) as [mk|] eqn:Hm.
  - pose proof (Ha mk Hm) as <-. rewrite bool_decide_eq_true_2 in H by done. cbn [negb] in H. pose proof (fun h => scanned_spec _ _ _ _ (ci_heads _ Hi mk h Hm)) as Hsc.
    case_bool_decide as He.
    + destruct (latchAware (sm_archiveID mk) mk) eqn:Haw; [|injection H as <- <-; by left]. exfalso.
      destruct (ci_aware _ Hi mk Hm Haw) as [h [n Hn]]. specialize (L h). rewrite He, lookup_empty, Hsc in L. unfold noRows, rowsAt in L. cbn in L. rewrite Hn in L.
      by rewrite andb_false_r in L.
    + apply map_choose in He as (h & row & Hrow). rewrite L, Hsc in Hrow.
      assert (Haw : latchAware (sm_archiveID mk) mk = true).
      { destruct (noRows (rowsAt (kv s3) (sm_archiveID mk) h)) eqn:En; [done|]. clear Hrow.
        apply rows_present in En as Hp.
        destruct Hp as (ns & v & Hv). destruct (ci_keys _ Hi ns _ v (nsKey_prefix _ _ _) Hv) as (mk' & h' & Hm' & Haw & _). congruence. }
      rewrite Haw in H. cbn [negb] in H. assert (Hall : checkAllRows mk r3 = Ok tt); [|unfold lift in H; rewrite Hall in H; injection H as <- _; by left].
      apply checkAll_ok. intros g row' Hg. rewrite L, Hsc in Hg.
      destruct (noRows (rowsAt (kv s3) (sm_archiveID mk) g)) eqn:En; [done|]. injection Hg as <-. destruct (ho_check _ _ _ _ (ci_heads _ Hi mk g Hm)) as [E|E]; [|done]. by rewrite E in En.
  - assert (r3 = ∅) as ->.
    { apply map_eq. intros h. rewrite L, lookup_empty. unfold scanned.
      assert (Hn : forall ns, kv s3 !! nsKey ns a h = None).
      { intros ns. destruct (kv s3 !! nsKey ns a h) as [v|] eqn:Ev; [|done]. destruct (ci_keys _ Hi ns _ v (nsKey_prefix _ _ _) Ev) as (mk' & h' & Hm' & _). congruence. }
      by rewrite !Hn. }
    rewrite bool_decide_eq_true_2 in H by done. injection H as <- <-. by left.
Qed.
End ConflictInv.
