(* ===== verification/ConflictLatch.v ===== *)
(** Single steps of the conflict latch: what a staged latch and a staged clear write, and
    that the invariant of the conflict state holds after either. *)
From Stdlib Require Import Ascii.
From Stdlib Require String.
From S2P Require Import Prelude Cid Schema Core Engine Ledger Wire Json JsonDecode Publication PublicationJson Claims Arbitration Checkpoint CheckpointCorrect FollowState FollowStateCorrect SourceState SourceStateCorrect SourceSteps ConflictState ConflictCodec ConflictInv.

Section ConflictLatch.
Context `{MH : Multihash} `{DB : !DigestBytes} `{CC : !CidBytes} `{CT : !CidText} {IN : IpnsNames} {K : Type} `{PB : !Pebble K} `{PO : !PebbleOk K}.
Local Abbreviation KV := (gmap bytes bytes).

(** ** Frames *)

Lemma rowsAt_same (m m' : KV) a h : (forall ns, m' !! nsKey ns a h = m !! nsKey ns a h) -> rowsAt m' a h = rowsAt m a h.
Proof.
  intros H. unfold rowsAt, activeOf, occurrenceOf, historyOf.
  rewrite (at_key_same m m' _ _ (H NsActive)), (at_key_same m m' _ _ (H NsSequence)), (at_key_same m m' _ _ (H NsHistory)). done.
Qed.

Lemma head_ok_same (mk : sourceSetMarker) (m m' : KV) a h : (forall ns, m' !! nsKey ns a h = m !! nsKey ns a h) -> head_ok mk m a h -> head_ok mk m' a h.
Proof.
  intros H [H1 H2 H3 H4]. pose proof (rowsAt_same m m' a h H) as Hr. unfold rowsAt in Hr. injection Hr as E1 E2 E3.
  split; unfold readable in *; [rewrite H, E1|rewrite H, E2|rewrite H, E3|]; try done. unfold rowsAt in *. by rewrite E1, E2, E3.
Qed.

Lemma against_le r mk mk' : marker_le mk mk' -> validateConflictRecordAgainstMarker r mk = Ok tt -> validateConflictRecordAgainstMarker r mk' = Ok tt.
Proof.
  intros [_ Hr Hd _]. unfold validateConflictRecordAgainstMarker. destruct (_ || _) eqn:E; [done|]. intros _. apply orb_false_iff in E as [E1%Z.ltb_ge E2].
  rewrite (proj2 (Z.ltb_ge _ _)) by lia. destruct (Z.eqb_spec (cr_SourceSetRevision r) (sm_revision mk')) as [E|]; [|done].
  rewrite Hd by lia. assert (cr_SourceSetRevision r = sm_revision mk) as E' by lia. rewrite E', Z.eqb_refl in E2. cbn in E2 |- *. by rewrite E2.
Qed.

Lemma checkRows_le mk mk' row : marker_le mk mk' -> checkHeadRows mk row = Ok tt -> checkHeadRows mk' row = Ok tt.
Proof.
  intros Hle. unfold checkHeadRows. destruct (hr_sequence row); [|done]. destruct (hr_active row) as [r|]; [|done]. destruct (negb _); [done|].
  intros ([] & Ha & H)%rbind_ok. by rewrite (against_le r mk mk').
Qed.

Lemma head_ok_le (mk mk' : sourceSetMarker) (m : KV) a h : marker_le mk mk' -> head_ok mk m a h -> head_ok mk' m a h.
Proof. intros Hle [H1 H2 H3 [H4|H4]]; split; try done; [by left|right]. by eapply checkRows_le. Qed.

(** Rows other than those of the conflict state may change, and the marker may be raised. *)
Lemma inv_frame (m m' : KV) : (forall k, conflictKey k -> m' !! k = m !! k) ->
  m' !! sourceSetMarkerKey = m !! sourceSetMarkerKey \/
  (exists mk mk', markerOf m = Some mk /\ markerOf m' = Some mk' /\ marker_le mk mk' /\ sm_features mk' = sm_features mk) ->
  conflict_inv m -> conflict_inv m'.
Proof.
  intros Hk Hm [I1 I2 I3 I4].
  assert (Hmk : readable m' sourceSetMarkerKey (markerOf m') /\ forall mk', markerOf m' = Some mk' -> exists mk, markerOf m = Some mk /\ marker_le mk mk' /\ sm_features mk' = sm_features mk).
  { destruct Hm as [E|(mk & mk' & E1 & E2 & Hle & Hf)].
    - assert (markerOf m' = markerOf m) as -> by (by apply at_key_same). split; [unfold readable; by rewrite E|]. intros mk H. exists mk. split; [done|]. split; [reflexivity|done].
    - split; [right; by rewrite E2|]. rewrite E2. intros ? [= <-]. by exists mk. }
  destruct Hmk as [Hr Hmk]. assert (Hns : forall ns a h, m' !! nsKey ns a h = m !! nsKey ns a h) by (intros; apply Hk, nsKey_conflict).
  assert (Haw : forall mk mk', marker_le mk mk' -> sm_features mk' = sm_features mk -> latchAware (sm_archiveID mk') mk' = latchAware (sm_archiveID mk) mk).
  { intros mk mk' [Ea _ _ _] Ef. unfold latchAware. rewrite Ea, Ef. by rewrite !bool_decide_eq_true_2. }
  split; [done| | |].
  - intros ns k v Hp Hv. rewrite Hk in Hv by (by exists ns). destruct (I2 ns k v Hp Hv) as (mk & h & E & Ha & Hid & ->).
    destruct Hm as [Em|(mk0 & mk' & E1 & E2 & Hle & Hf)].
    + exists mk, h. split; [|done]. rewrite <- E. by apply at_key_same.
    + rewrite E in E1. injection E1 as <-. exists mk', h. rewrite (Haw mk mk') by done. pose proof Hle as [Ea _ _ _]. rewrite Ea. done.
  - intros mk' h (mk & E & Hle & Hf)%Hmk. eapply head_ok_same; [intros ns; apply Hns|]. eapply head_ok_le; [exact Hle|]. pose proof Hle as [-> _ _ _]. by apply I3.
  - intros mk' Hmk' Ha. destruct (Hmk mk' Hmk') as (mk & E & Hle & Hf). rewrite (Haw mk mk') in Ha by done. destruct (I4 mk E Ha) as [h Hh]. exists h.
    pose proof Hle as [-> _ _ _]. unfold occurrenceOf in *. by rewrite (at_key_same m).
Qed.

Lemma conflict_rows_same (l : list kvop) (m : KV) : Forall (fun o => ~ conflictKey (op_key o)) l -> forall k, conflictKey k -> kv_applys l m !! k = m !! k.
Proof. intros Hl k Hk. apply applys_other. eapply Forall_impl; [exact Hl|]. intros o Ho E. apply Ho. by rewrite E. Qed.

(** ** Reads *)

Lemma conflictSequence_reads a h : moves sameKV (conflictSequence a h).
Proof. unfold conflictSequence. pose proof (@readWith_reads K _ _ Z). moves_tac. Qed.
Lemma marker_reads : moves sameKV readSourceSetMarker.
Proof. apply readWith_reads. Qed.
#[local] Hint Resolve kv_get_reads conflictSequence_reads marker_reads : moves.
Lemma conflictClearHistory_reads a h : moves sameKV (conflictClearHistory a h).
Proof. unfold conflictClearHistory. moves_tac. Qed.
Lemma conflictLatch_reads a h : moves sameKV (conflictLatch a h).
Proof. unfold conflictLatch, checkLatch, validateConflictRecordMarker. moves_tac. Qed.
#[local] Hint Resolve conflictClearHistory_reads conflictLatch_reads : moves.
Lemma stageConflictLatch_reads b q : moves sameKV (stageConflictLatch b q).
Proof. unfold stageConflictLatch. moves_tac. Qed.
Lemma stageClear_reads b q : moves sameKV (stageClearConflictLatch b q).
Proof. unfold stageClearConflictLatch. moves_tac. Qed.

Lemma conflictSequence_ok a h (s : K) o s' : conflictSequence a h s = (Ok o, s') ->
  o = occurrenceOf (kv s) a h /\ (o = None -> kv s !! nsKey NsSequence a h = None).
Proof. unfold conflictSequence. by intros ([] & s1 & [_ ->]%lift_ok & (_ & Ho & Hn)%readWith_ok)%bind_run_ok. Qed.

Lemma history_nonempty a h b l : decodeConflictClearHistory a h b = Ok l -> l <> [] /\ (length l <= maxConflictClearHistory)%nat.
Proof.
  intros H%decodeHistory_encodes. unfold encodeConflictClearHistory in H. destruct (Nat.eqb_spec (length l) 0); [done|].
  destruct (Nat.ltb_spec maxConflictClearHistory (length l)); [done|]. split; [by intros ->|done].
Qed.

Lemma conflictClearHistory_ok a h (s : K) l s' : conflictClearHistory a h s = (Ok l, s') ->
  (kv s !! nsKey NsHistory a h = None /\ l = []) \/ (historyOf (kv s) a h = Some l /\ l <> []).
Proof.
  unfold conflictClearHistory. intros ([] & s1 & [_ ->]%lift_ok & H)%bind_run_ok. apply bind_run_ok in H as (v & s2 & [E Hv]%kv_get_spec & H).
  destruct v as [v|]; [|injection H as <- <-; by left]. apply lift_ok in H as [H ->]. right. split; [|by eapply history_nonempty].
  eapply at_key_set; [by symmetry|done].
Qed.

Lemma checkLatch_ok a h v (s : K) r s' : checkLatch a h v s = (Ok r, s') ->
  decActive a h v = Ok r /\ occurrenceOf (kv s) a h = Some (cr_Sequence r) /\ exists mk, markerOf (kv s) = Some mk /\ latchAware a mk = true.
Proof.
  unfold checkLatch. intros (r0 & s1 & [Hr ->]%lift_ok & H)%bind_run_ok. unfold decActive. rewrite Hr. cbn [rbind].
  destruct (_ || _) eqn:E; [done|]. apply orb_false_iff in E as [Ea%negb_false_iff%bool_decide_eq_true_1 _].
  apply bind_run_ok in H as (sq & s2 & Hs & H). pose proof (reads_kv _ _ _ _ (conflictSequence_reads a h) Hs) as E2. apply conflictSequence_ok in Hs as [Hs _].
  case_bool_decide as Eq; [|done]. cbn [negb] in H. apply bind_run_ok in H as ([] & s3 & Hm & [= <- <-]). split; [done|]. split; [congruence|].
  unfold validateConflictRecordMarker in Hm. apply bind_run_ok in Hm as (o & s4 & (_ & Ho & _)%readWith_ok & Hm). rewrite E2 in Ho. destruct o as [mk|]; [|done].
  exists mk. split; [by symmetry|]. rewrite <- Ea. by destruct (latchAware (cr_ArchiveID r0) mk).
Qed.

Lemma conflictLatch_ok a h (s : K) o s' : conflictLatch a h s = (Ok o, s') ->
  validateConflictIdentity a h = Ok tt /\
  match o with
  | None => kv s !! nsKey NsActive a h = None
  | Some r => activeOf (kv s) a h = Some r /\ occurrenceOf (kv s) a h = Some (cr_Sequence r) /\ exists mk, markerOf (kv s) = Some mk /\ latchAware a mk = true
  end.
Proof.
  unfold conflictLatch. intros ([] & s1 & [Hi ->]%lift_ok & H)%bind_run_ok. split; [done|]. apply bind_run_ok in H as (v & s2 & [E Hv]%kv_get_spec & H).
  destruct v as [v|]; [|by injection H as <- <-]. apply bind_run_ok in H as (r & s3 & Hr & [= <- <-]). apply checkLatch_ok in Hr as (Hd & Hs & Hm).
  rewrite E in Hs, Hm. split; [|done]. eapply at_key_set; [by symmetry|done].
Qed.

Lemma occurrence_pos (m : KV) a h n : occurrenceOf m a h = Some n -> 0 < n /\ is_u64 n.
Proof.
  unfold occurrenceOf, at_key. destruct (m !! nsKey NsSequence a h) as [w|]; [|done]. cbn [mbind option_bind].
  destruct (decodeConflictSequence w) as [z|] eqn:Ez; [|done]. intros [= <-]. by apply decodeSequence_pos in Ez.
Qed.

(** ** Latching *)

Definition awareMarker (mk : sourceSetMarker) : sourceSetMarker :=
  mkMarker (sm_archiveID mk) (sm_revision mk) (sm_digest mk) (Z.lor (sm_features mk) sourceSetFeatureConflictLatch).

(** What must hold for the record [r] of a new latch. *)
Record latch_pre (m : KV) (mk : sourceSetMarker) (r : ConflictRecord) : Prop := {
  lp_archive : sm_archiveID mk = cr_ArchiveID r;
  lp_revision : sm_revision mk = cr_SourceSetRevision r;
  lp_digest : sm_digest mk = cr_SourceSetDigest r;
  lp_record : record_ok r;
  lp_sequence : is_u64 (cr_Sequence r);
  lp_free : m !! nsKey NsActive (cr_ArchiveID r) (cr_Head r) = None;
  lp_prior : (cr_Sequence r = 1 /\ m !! nsKey NsSequence (cr_ArchiveID r) (cr_Head r) = None /\ m !! nsKey NsHistory (cr_ArchiveID r) (cr_Head r) = None) \/
    exists l, occurrenceOf m (cr_ArchiveID r) (cr_Head r) = Some (cr_Sequence r - 1) /\ historyOf m (cr_ArchiveID r) (cr_Head r) = Some l /\ lastSequence l = cr_Sequence r - 1 }.

Definition latchOps (r : ConflictRecord) (bytes markerBytes : bytes) : list kvop :=
  [KSet (nsKey NsActive (cr_ArchiveID r) (cr_Head r)) bytes; KSet (nsKey NsSequence (cr_ArchiveID r) (cr_Head r)) (encodeConflictSequence (cr_Sequence r));
   KSet sourceSetMarkerKey markerBytes].

Lemma matches_input r i : conflictRecordMatchesRequest r i = true -> recordInput r = i.
Proof.
  unfold conflictRecordMatchesRequest, recordInput. rewrite !andb_true_iff, !Z.eqb_eq, !bool_decide_eq_true, !candidatesEqual_spec.
  intros (((((((-> & ->) & ->) & ->) & ->) & ->) & ->) & ->). by destruct i.
Qed.

(** A staged latch: the one that is there, or a new occurrence. *)
Lemma stageConflictLatch_ok b q (s : K) r created b' s' : stageConflictLatch b q s = (Ok (r, created, b'), s') ->
  exists i mk, NewConflictLatchRequest q = Ok i /\ recordInput r = i /\ markerOf (kv s) = Some mk /\ sm_archiveID mk = cl_ArchiveID i /\
  if created then exists v mb, latch_pre (kv s) mk r /\ encodeConflictRecord r = Ok v /\ encodeSourceSetMarker (awareMarker mk) = Ok mb /\ b' = b ++ latchOps r v mb
  else b' = b /\ activeOf (kv s) (cr_ArchiveID r) (cr_Head r) = Some r /\ latchAware (sm_archiveID mk) mk = true.
Proof.
  unfold stageConflictLatch. intros (i & s0 & [Hi ->]%lift_ok & H)%bind_run_ok. apply bind_run_ok in H as (o & s1 & Hm & H). unfold readSourceSetMarker in Hm.
  apply readWith_ok in Hm as (E1 & Hm & _). destruct o as [mk|]; [|done]. symmetry in Hm. fold (markerOf (kv s)) in Hm. exists i, mk.
  destruct (_ || _) eqn:E; [done|]. apply orb_false_iff in E as [[Ea%negb_false_iff%bool_decide_eq_true_1 Er%negb_false_iff%Z.eqb_eq]%orb_false_iff Ed%negb_false_iff%bool_decide_eq_true_1].
  apply bind_run_ok in H as (act & s2 & Hl & H). pose proof (reads_kv _ _ _ _ (conflictLatch_reads _ _) Hl) as E2. apply conflictLatch_ok in Hl as [_ Hl]. rewrite E1 in Hl.
  destruct act as [act|].
  - destruct (conflictRecordMatchesRequest act i) eqn:Em; [|done]. injection H as -> <- <- <-. apply matches_input in Em. destruct Hl as (Hact & _ & mk' & Hmk' & Haw).
    assert (mk' = mk) as -> by congruence. repeat split; try done; [|by rewrite Ea]. rewrite <- Em in Hact. exact Hact.
  - apply bind_run_ok in H as (sq & s3 & Hs & H). pose proof (reads_kv _ _ _ _ (conflictSequence_reads _ _) Hs) as E3. apply conflictSequence_ok in Hs as [Hs Hsn].
    apply bind_run_ok in H as (hist & s4 & Hh & H). pose proof (reads_kv _ _ _ _ (conflictClearHistory_reads _ _) Hh) as E4. apply conflictClearHistory_ok in Hh.
    rewrite E2, E1 in Hs, Hsn. rewrite E3, E2, E1 in Hh. apply bind_run_ok in H as (prior & s5 & [Hp ->]%lift_ok & H).
    destruct (Z.eqb_spec prior maxUint64) as [|Hmax]; [done|]. apply bind_run_ok in H as (r0 & s6 & [Hr ->]%lift_ok & H).
    apply bind_run_ok in H as (v & s7 & [Hv ->]%lift_ok & H). apply bind_run_ok in H as (mb & s8 & [Hmb ->]%lift_ok & [= -> <- <- <-]).
    pose proof (proj1 (request_accepted _ _ Hi)) as Hok.
    assert (Hprior : 0 <= prior < maxUint64 /\ ((prior = 0 /\ kv s !! nsKey NsSequence (cl_ArchiveID i) (cl_Head i) = None /\ kv s !! nsKey NsHistory (cl_ArchiveID i) (cl_Head i) = None) \/
      exists l, occurrenceOf (kv s) (cl_ArchiveID i) (cl_Head i) = Some prior /\ historyOf (kv s) (cl_ArchiveID i) (cl_Head i) = Some l /\ lastSequence l = prior)).
    { unfold priorSequence in Hp. destruct sq as [n|].
      - destruct (Nat.eqb_spec (length hist) 0) as [|Hne]; [done|]. destruct (Z.eqb_spec (lastSequence hist) n) as [El|]; [|done]. injection Hp as <-.
        destruct Hh as [[_ ->]|[Hh _]]; [done|]. split; [|right; exists hist; by auto]. symmetry in Hs. apply occurrence_pos in Hs as [? [? ?]].
        unfold maxUint64 in *. lia.
      - destruct (Nat.eqb_spec (length hist) 0) as [E0|]; [|done]. injection Hp as <-. destruct Hh as [[Hh _]|[_ Hh]]; [|by apply nil_length_inv in E0].
        split; [unfold maxUint64; lia|]. left. split; [done|]. split; [by apply Hsn|done]. }
    destruct Hprior as [Hpr Hprior]. assert (Hadd : add64 prior 1 = prior + 1) by (apply add64_small; unfold is_u64, maxUint64 in *; lia).
    apply recordFromRequest_ok in Hr as (Hrok & Hri & Hrs); [|done]. rewrite Hadd in Hrs.
    assert (EA : cl_ArchiveID i = cr_ArchiveID r) by (by rewrite <- Hri). assert (EH : cl_Head i = cr_Head r) by (by rewrite <- Hri).
    rewrite EA, EH in *. split; [done|]. split; [done|]. split; [done|]. split; [done|]. exists v, mb. split; [|done]. split; try done.
    + by rewrite Er, <- Hri.
    + by rewrite Ed, <- Hri.
    + rewrite Hrs. unfold is_u64, maxUint64 in *. lia.
    + rewrite Hrs. replace (prior + 1 - 1) with prior by lia. destruct Hprior as [(-> & ? & ?)|?]; [left|right]; done.
Qed.

(** A record that was decoded has numbers at their width, and so has one that was staged from values of the Go types. *)
Lemma aware_aware mk : latchAware (sm_archiveID mk) (awareMarker mk) = true.
Proof.
  unfold latchAware, awareMarker, hasBit. cbn [sm_archiveID sm_features]. rewrite bool_decide_eq_true_2 by done. unfold sourceSetFeatureConflictLatch. change (Z.shiftl 1 0) with 1.
  rewrite Z.land_lor_distr_l. destruct (Z.eqb_spec (Z.lor (Z.land (sm_features mk) 1) (Z.land 1 1)) 0) as [E|]; [|done].
  apply Z.lor_eq_0_iff in E as [_ E]. discriminate E.
Qed.
Lemma aware_le mk : marker_le mk (awareMarker mk).
Proof.
  split; cbn [awareMarker sm_archiveID sm_revision sm_digest sm_features]; try done. apply Z.bits_inj'. intros n _. rewrite Z.land_spec, Z.lor_spec.
  destruct (Z.testbit (sm_features mk) n); [done|apply andb_false_r].
Qed.

(** The numbers of a record at their width. *)
Definition record_fits (r : ConflictRecord) : Prop := input_fits (recordInput r).

Lemma latch_rows (m : KV) mk r v mb : latch_pre m mk r -> record_fits r -> encodeConflictRecord r = Ok v ->
  let m' := kv_applys (latchOps r v mb) m in
  activeOf m' (cr_ArchiveID r) (cr_Head r) = Some r /\ occurrenceOf m' (cr_ArchiveID r) (cr_Head r) = Some (cr_Sequence r) /\
  m' !! nsKey NsHistory (cr_ArchiveID r) (cr_Head r) = m !! nsKey NsHistory (cr_ArchiveID r) (cr_Head r) /\
  m' !! sourceSetMarkerKey = Some mb /\
  (forall k, conflictKey k -> k <> nsKey NsActive (cr_ArchiveID r) (cr_Head r) -> k <> nsKey NsSequence (cr_ArchiveID r) (cr_Head r) -> m' !! k = m !! k).
Proof.
  intros Hp Hf Hv m'. pose proof (lp_record _ _ _ Hp) as Hok. destruct (record_roundtrip r Hok (lp_sequence _ _ _ Hp) Hf) as (v' & Hv' & Hd).
  rewrite Hv in Hv'. injection Hv' as <-. set (a := cr_ArchiveID r) in *. set (h := cr_Head r) in *. pose proof marker_not_conflict as Hmc.
  assert (N1 : nsKey NsActive a h <> nsKey NsSequence a h) by (by intros ?%nsKey_ns). assert (N2 : nsKey NsActive a h <> sourceSetMarkerKey) by (intros E; apply Hmc; rewrite <- E; apply nsKey_conflict).
  assert (N3 : nsKey NsSequence a h <> sourceSetMarkerKey) by (intros E; apply Hmc; rewrite <- E; apply nsKey_conflict).
  assert (L : forall k, m' !! k = <[sourceSetMarkerKey := mb]> (<[nsKey NsSequence a h := encodeConflictSequence (cr_Sequence r)]> (<[nsKey NsActive a h := v]> m)) !! k) by done.
  split; [|split; [|split; [|split]]].
  - eapply at_key_set; [by rewrite L, !lookup_insert_ne, lookup_insert_eq by done|]. unfold decActive. rewrite Hd. cbn [rbind]. by rewrite !bool_decide_eq_true_2.
  - eapply at_key_set; [by rewrite L, lookup_insert_ne, lookup_insert_eq by done|]. apply sequence_roundtrip; [apply (lp_sequence _ _ _ Hp)|apply Hok].
  - rewrite L, !lookup_insert_ne; [done| | |]; [by intros ?%nsKey_ns|by intros ?%nsKey_ns|]. intros E. apply Hmc. rewrite E. apply nsKey_conflict.
  - by rewrite L, lookup_insert_eq.
  - intros k Hk K1 K2. rewrite L, !lookup_insert_ne; [done|done|done|]. intros <-. by apply Hmc.
Qed.

Lemma latch_check (m : KV) mk r v mb : latch_pre m mk r -> record_fits r -> encodeConflictRecord r = Ok v ->
  checkHeadRows (awareMarker mk) (rowsAt (kv_applys (latchOps r v mb) m) (cr_ArchiveID r) (cr_Head r)) = Ok tt.
Proof.
  intros Hp Hf Hv. destruct (latch_rows m mk r v mb Hp Hf Hv) as (Ha & Hs & Hh & _). unfold rowsAt. rewrite Ha, Hs. unfold checkHeadRows. cbn [hr_active hr_sequence hr_history].
  rewrite Z.eqb_refl. cbn [negb]. unfold validateConflictRecordAgainstMarker, awareMarker. cbn [sm_revision sm_digest].
  rewrite (lp_revision _ _ _ Hp), (lp_digest _ _ _ Hp), Z.ltb_irrefl, Z.eqb_refl, bool_decide_eq_true_2 by done. cbn [negb andb orb rbind].
  unfold historyOf. rewrite (at_key_same m _ _ _ Hh). destruct (lp_prior _ _ _ Hp) as [(-> & _ & Hn)|(l & Ho & Hl & El)].
  - rewrite (at_key_none m) by done. done.
  - fold (historyOf m (cr_ArchiveID r) (cr_Head r)). rewrite Hl. cbn [present unset negb]. apply occurrence_pos in Ho as [Hpos Hu]. pose proof (lp_sequence _ _ _ Hp) as Hsu.
    unfold is_u64 in *. rewrite (proj2 (Z.eqb_neq _ 1)) by lia. rewrite andb_false_r. cbn [andb]. rewrite sub64_small by (unfold is_u64; lia). by rewrite El, Z.eqb_refl.
Qed.

Lemma encode_marker_u64 mk v : encodeSourceSetMarker mk = Ok v -> is_u64 (sm_revision mk) -> decodeSourceSetMarker v = Ok mk.
Proof. intros H Hr. by apply marker_roundtrip. Qed.

Lemma latch_marker (m : KV) mk r v mb : latch_pre m mk r -> record_fits r -> encodeConflictRecord r = Ok v -> encodeSourceSetMarker (awareMarker mk) = Ok mb ->
  markerOf (kv_applys (latchOps r v mb) m) = Some (awareMarker mk).
Proof.
  intros Hp Hf Hv Hmb. destruct (latch_rows m mk r v mb Hp Hf Hv) as (_ & _ & _ & Hm & _). eapply at_key_set; [exact Hm|]. apply marker_roundtrip; [|done].
  cbn. rewrite (lp_revision _ _ _ Hp). apply Hf.
Qed.

Lemma latch_inv (m : KV) mk mk0 r v mb : conflict_inv m -> markerOf m = Some mk0 -> awareMarker mk0 = awareMarker mk -> latch_pre m mk r -> record_fits r -> encodeConflictRecord r = Ok v ->
  encodeSourceSetMarker (awareMarker mk) = Ok mb -> conflict_inv (kv_applys (latchOps r v mb) m).
Proof.
  intros Hi Hm0 Ht Hp Hf Hv Hmb. pose proof (latch_marker m mk r v mb Hp Hf Hv Hmb) as Hm'. destruct (latch_rows m mk r v mb Hp Hf Hv) as (Ha & Hs & Hh & Hmk & Hk).
  set (m' := kv_applys _ m) in *. set (a := cr_ArchiveID r) in *. set (h := cr_Head r) in *.
  assert (Ea : sm_archiveID (awareMarker mk) = a) by apply (lp_archive _ _ _ Hp).
  assert (Ea0 : sm_archiveID mk0 = a) by (rewrite <- Ea, <- Ht; done).
  assert (Haw : latchAware a (awareMarker mk) = true) by (rewrite <- Ea; exact (aware_aware mk)).
  assert (Hid : validateConflictIdentity a h = Ok tt) by apply (ro_identity _ (proj1 (lp_record _ _ _ Hp))).
  split.
  - right. by rewrite Hm'.
  - intros ns k w Hpre Hw. exists (awareMarker mk). rewrite Ea. destruct (decide (k = nsKey NsActive a h)) as [->|K1].
    { exists h. repeat split; try done. destruct ns; [done|exfalso; revert Hpre; unfold_ns; unfold sourceArchivePrefix..]; intros [x E]; revert E; unfold key; cbn; discriminate. }
    destruct (decide (k = nsKey NsSequence a h)) as [->|K2].
    { exists h. repeat split; try done. destruct ns; [exfalso; revert Hpre; unfold_ns; unfold sourceArchivePrefix|done|exfalso; revert Hpre; unfold_ns; unfold sourceArchivePrefix]; intros [x E]; revert E; unfold key; cbn; discriminate. }
    rewrite Hk in Hw by (done || by exists ns). destruct (ci_keys m Hi ns k w Hpre Hw) as (mk1 & g & E1 & _ & Hg & ->). rewrite Hm0 in E1. injection E1 as <-.
    exists g. rewrite Ea0 in *. done.
  - intros mk1 g E1. rewrite Hm' in E1. injection E1 as <-. rewrite Ea. destruct (decide (g = h)) as [->|Hg].
    + split; [right; by rewrite Ha|right; by rewrite Hs| |right; by apply latch_check].
      destruct (ci_heads m Hi mk0 h Hm0) as [_ _ H3 _]. rewrite Ea0 in H3. unfold readable, historyOf in *. by rewrite Hh, (at_key_same m _ _ _ Hh).
    + eapply (head_ok_same _ m).
      * intros ns. apply Hk; [apply nsKey_conflict| |]; intros E; pose proof (nsKey_ns _ _ _ _ _ _ E) as ->; by apply nsKey_inj in E as [_ ?].
      * eapply head_ok_le; [|rewrite <- Ea0; by apply (ci_heads m Hi mk0)]. rewrite <- Ht. apply aware_le.
  - intros mk1 E1 _. rewrite Hm' in E1. injection E1 as <-. exists h. rewrite Ea, Hs. eauto.
Qed.

(** ** Clearing *)

Lemma d_take_ok n d x d' : d_take n d = (Ok x, d') -> length x = n.
Proof. unfold d_take. destruct (Nat.ltb_spec (length d) n); [done|]. intros [= <- <-]. rewrite length_take. lia. Qed.
Lemma d_u64_ok d z d' : d_u64 d = (Ok z, d') -> is_u64 z.
Proof.
  unfold d_u64. intros (x & d1 & Hx%d_take_ok & [= <- _])%bind_run_ok. pose proof (Uint64_range x) as H. rewrite Hx in H. exact H.
Qed.

Lemma decodeClears_fits a h n d l d' : decodeClears a h n d = (Ok l, d') -> Forall clear_fits l.
Proof.
  revert d l d'. induction n as [|n IH]; intros d l d'; cbn [decodeClears]; [intros [= <- _]; constructor|].
  intros (sq & d1 & Hs%d_u64_ok & H)%bind_run_ok. apply bind_run_ok in H as (ev & d2 & _ & H). apply bind_run_ok in H as (sec & d3 & [Ht1 Ht2]%d_u64_ok & H).
  destruct (Z.ltb_spec maxInt64 sec); [done|]. apply bind_run_ok in H as (op & d4 & _ & H). apply bind_run_ok in H as (nt & d5 & _ & H).
  apply bind_run_ok in H as (rest & d6 & Hrest & [= <- _]). constructor; [|by eapply IH]. unfold maxInt64 in *. split; [done|]. cbn.
  unfold int64. rewrite (proj2 (Z.ltb_lt _ _)) by lia. rewrite Unix_time. split; [done|lia].
Qed.

Lemma decodeHistory_fits a h b l : decodeConflictClearHistory a h b = Ok l -> Forall clear_fits l.
Proof.
  unfold decodeConflictClearHistory. intros (x & Hx & H)%rbind_ok. apply rbind_ok in H as (c & _ & H). case_bool_decide; [|done]. injection H as <-.
  destruct (bind d_u8 _ b) as [r d] eqn:E. cbn in Hx. subst r. apply bind_run_ok in E as (ver & d1 & _ & E). destruct (negb _); [done|].
  apply bind_run_ok in E as (cnt & d2 & _ & E). destruct (_ || _); [done|]. apply bind_run_ok in E as (l & d3 & Hl & E).
  apply bind_run_ok in E as ([] & d4 & _ & [= <- _]). by eapply decodeClears_fits.
Qed.

Lemma history_fits (m : KV) a h l : historyOf m a h = Some l -> Forall clear_fits l.
Proof.
  unfold historyOf, at_key. destruct (m !! nsKey NsHistory a h) as [v|]; [|done]. cbn [mbind option_bind].
  destruct (decodeConflictClearHistory a h v) eqn:E; [|done]. intros [= <-]. by eapply decodeHistory_fits.
Qed.

Definition clearOps (a : ArchiveID) (h : string) (n : Z) (v : bytes) : list kvop :=
  [KDelete (nsKey NsActive a h); KSet (nsKey NsSequence a h) (encodeConflictSequence n); KSet (nsKey NsHistory a h) v].

Lemma last_drop_app {A : Type} (l : list A) x n : (n <= length l)%nat -> last (drop n (l ++ [x])) = Some x.
Proof. intros Hn. rewrite drop_app_le by done. apply last_snoc. Qed.

(** A staged clear: the evidence is that of the active latch, whose occurrence ends the new history. *)
Lemma stageClear_ok b q (s : K) rc b' s' : Unix (cq_ClearedAt q) < 2 ^ 63 -> stageClearConflictLatch b q s = (Ok (rc, b'), s') ->
  exists r mk v l, let a := cq_ArchiveID q in let h := cq_Head q in
    activeOf (kv s) a h = Some r /\ cr_EvidenceID r = cq_EvidenceID q /\ occurrenceOf (kv s) a h = Some (cr_Sequence r) /\ validateConflictIdentity a h = Ok tt /\
    markerOf (kv s) = Some mk /\ latchAware a mk = true /\ b' = b ++ clearOps a h (cr_Sequence r) v /\
    decodeConflictClearHistory a h v = Ok l /\ last l = Some rc /\
    rc = mkClearRecord a h (cr_Sequence r) (cr_EvidenceID r) (time_Unix (Unix (cq_ClearedAt q))) (cq_Operator q) (cq_Note q).
Proof.
  intros Ht. unfold stageClearConflictLatch. intros (q' & s0 & [Hq ->]%lift_ok & H)%bind_run_ok. apply normalizeClear_ok in Hq as (-> & Hid & Hz & Ht0 & _).
  cbn [cq_ArchiveID cq_Head cq_EvidenceID cq_ClearedAt cq_Operator cq_Note] in H. set (a := cq_ArchiveID q) in *. set (h := cq_Head q) in *.
  apply bind_run_ok in H as (o & s1 & Hl & H). pose proof (reads_kv _ _ _ _ (conflictLatch_reads _ _) Hl) as E1. apply conflictLatch_ok in Hl as [_ Hl].
  destruct o as [r|]; [|done]. destruct Hl as (Ha & Hs & mk & Hm & Haw). case_bool_decide as Ev; [|done]. cbn [negb] in H.
  apply bind_run_ok in H as (om & s2 & Hom & H). pose proof (reads_kv _ _ _ _ marker_reads Hom) as E2. destruct (match om with Some _ => _ | None => _ end); [done|].
  apply bind_run_ok in H as (hist & s3 & Hh & H). apply conflictClearHistory_ok in Hh. rewrite E2, E1 in Hh.
  apply bind_run_ok in H as ([] & s4 & _ & H). cbv zeta in H. set (rc0 := mkClearRecord _ _ _ _ _ _ _) in H. set (l := drop _ _) in H.
  apply bind_run_ok in H as (v & s5 & [Hv ->]%lift_ok & [= <- <- <-]). exists r, mk, v, l. cbv zeta.
  assert (Hfit : Forall clear_fits l).
  { unfold l. apply Forall_drop, Forall_app. split.
    - destruct Hh as [[_ ->]|[Hh _]]; [constructor|by eapply history_fits].
    - constructor; [|constructor]. split; [|split].
      + apply occurrence_pos in Hs as [_ ?]. done.
      + cbn. by rewrite Unix_time.
      + cbn. by rewrite Unix_time. }
  repeat split; try done.
  - by apply history_roundtrip.
  - unfold l. apply last_drop_app. rewrite length_app. unfold maxConflictClearHistory. cbn. lia.
Qed.

Lemma clear_rows (m : KV) a h n v l : 0 < n -> is_u64 n -> decodeConflictClearHistory a h v = Ok l ->
  let m' := kv_applys (clearOps a h n v) m in
  m' !! nsKey NsActive a h = None /\ occurrenceOf m' a h = Some n /\ historyOf m' a h = Some l /\
  (forall k, k <> nsKey NsActive a h -> k <> nsKey NsSequence a h -> k <> nsKey NsHistory a h -> m' !! k = m !! k).
Proof.
  intros Hn Hu Hl m'.
  assert (L : forall k, m' !! k = <[nsKey NsHistory a h := v]> (<[nsKey NsSequence a h := encodeConflictSequence n]> (delete (nsKey NsActive a h) m)) !! k) by done.
  assert (N1 : nsKey NsActive a h <> nsKey NsSequence a h) by (by intros ?%nsKey_ns). assert (N2 : nsKey NsActive a h <> nsKey NsHistory a h) by (by intros ?%nsKey_ns).
  assert (N3 : nsKey NsSequence a h <> nsKey NsHistory a h) by (by intros ?%nsKey_ns). split; [|split; [|split]].
  - by rewrite L, !lookup_insert_ne, lookup_delete_eq by done.
  - eapply at_key_set; [by rewrite L, lookup_insert_ne, lookup_insert_eq by done|]. apply sequence_roundtrip; [done|lia].
  - eapply at_key_set; [by rewrite L, lookup_insert_eq|done].
  - intros k K1 K2 K3. by rewrite L, !lookup_insert_ne, lookup_delete_ne by done.
Qed.

Lemma clear_inv (m : KV) mk a h n v l rc : conflict_inv m -> markerOf m = Some mk -> latchAware a mk = true -> validateConflictIdentity a h = Ok tt ->
  0 < n -> is_u64 n -> decodeConflictClearHistory a h v = Ok l -> last l = Some rc -> cc_Sequence rc = n -> conflict_inv (kv_applys (clearOps a h n v) m).
Proof.
  intros Hi Hm Haw Hid Hn Hu Hl Hlast Hseq. destruct (clear_rows m a h n v l Hn Hu Hl) as (Ha & Hs & Hh & Hk). set (m' := kv_applys _ m) in *.
  assert (Ea : sm_archiveID mk = a) by (unfold latchAware in Haw; apply andb_true_iff in Haw as [Haw _]; by apply bool_decide_eq_true_1 in Haw).
  assert (Hmm : forall ns, nsKey ns a h <> sourceSetMarkerKey) by (intros ns E; apply marker_not_conflict; rewrite <- E; apply nsKey_conflict).
  assert (Hm' : markerOf m' = Some mk) by (rewrite <- Hm; apply at_key_same, Hk; apply not_eq_sym, Hmm).
  split.
  - right. by rewrite Hm'.
  - intros ns k w Hpre Hw. exists mk. rewrite Ea. destruct (decide (k = nsKey NsActive a h)) as [->|K1]; [congruence|].
    destruct (decide (k = nsKey NsSequence a h)) as [->|K2].
    { exists h. repeat split; try done. destruct ns; [exfalso; revert Hpre; unfold_ns; unfold sourceArchivePrefix|done|exfalso; revert Hpre; unfold_ns; unfold sourceArchivePrefix]; intros [x E]; revert E; unfold key; cbn; discriminate. }
    destruct (decide (k = nsKey NsHistory a h)) as [->|K3].
    { exists h. repeat split; try done. destruct ns; [exfalso; revert Hpre; unfold_ns; unfold sourceArchivePrefix..|done]; intros [x E]; revert E; unfold key; cbn; discriminate. }
    rewrite Hk in Hw by done. destruct (ci_keys m Hi ns k w Hpre Hw) as (mk1 & g & E1 & _ & Hg & ->). rewrite Hm in E1. injection E1 as <-. exists g. rewrite Ea in *. done.
  - intros mk1 g E1. rewrite Hm' in E1. injection E1 as <-. rewrite Ea. destruct (decide (g = h)) as [->|Hg].
    + split; [by left|right; by rewrite Hs|right; by rewrite Hh|]. right. unfold rowsAt. rewrite Hs, Hh. unfold activeOf. rewrite (at_key_none m') by done.
      unfold checkHeadRows. cbn [hr_active hr_sequence hr_history]. unfold lastSequence. rewrite Hlast. cbn [fmap option_fmap option_map default]. by rewrite Hseq, Z.eqb_refl.
    + eapply (head_ok_same _ m); [|rewrite <- Ea; by apply (ci_heads m Hi)]. intros ns.
      apply Hk; intros E; pose proof (nsKey_ns _ _ _ _ _ _ E) as ->; by apply nsKey_inj in E as [_ ?].
  - intros mk1 E1 _. rewrite Hm' in E1. injection E1 as <-. exists h. rewrite Ea, Hs. eauto.
Qed.
End ConflictLatch.
