(* ===== verification/ConflictRuntime.v ===== *)
(** The conflict latch in the running follower: follow/conflict_runtime.go.

    A poll that finds contradicting sources makes every new latch durable in one batch,
    together with the publication floors of the sources its evidence names; a restart
    validates and loads the latches before anything else.  The latches held in memory
    are a map from heads to records.  Telemetry is left out. *)
From Stdlib Require Import Ascii.
From Stdlib Require String.
From S2P Require Import Prelude Cid Schema Core Engine Ledger Wire Json JsonDecode Publication PublicationJson Claims Arbitration Checkpoint FollowState SourceState ConflictState.

Section ConflictRuntime.
Context `{MH : Multihash} `{DB : !DigestBytes} `{CC : !CidBytes} `{CT : !CidText} {IN : IpnsNames} {K : Type} `{PB : !Pebble K}.
Local Abbreviation checkpoint := (@checkpoint MH).

(** The configured kinds: a followed head without one is finalized. *)
Definition expectedKind (kinds : gmap string HeadKind) (name : string) : HeadKind :=
  let kind := default EmptyString (kinds !! name) in
  if bool_decide (kind = EmptyString) then FinalizedMonotonic else kind.

(** ** Loading at start *)

Fixpoint collectLatches (heads : gset string) (kinds : gmap string HeadKind) (marker : option sourceSetMarker) (conflicts : gmap string ConflictRecord)
    (records : list ConflictRecord) : res (gmap string ConflictRecord) :=
  match records with
  | [] => Ok conflicts
  | record :: rest =>
    let m := default (mkMarker zeroID 0 zeroID 0) marker in
    refuse_if (sm_revision m <? cr_SourceSetRevision record)
      || (cr_SourceSetRevision record =? sm_revision m) && negb (bool_decide (cr_SourceSetDigest record = sm_digest m))
      with EInvalid "latch is not covered by the marker generation" ;;
    if bool_decide (cr_Head record ∈ heads) then
      refuse_if negb (bool_decide (expectedKind kinds (cr_Head record) = FinalizedMonotonic)) with EInvalid "latch for a non-finalized head" ;;
      collectLatches heads kinds marker (<[cr_Head record := record]> conflicts) rest
    else collectLatches heads kinds marker conflicts rest
  end.

Definition loadConflictLatches (archiveID : ArchiveID) (heads : gset string) (kinds : gmap string HeadKind) : M K (gmap string ConflictRecord) :=
  validateConflictState archiveID ;;;
  marker <-- readSourceSetMarker ;;
  records <-- conflictLatches archiveID ;;
  fail_if negb (length records =? 0)%nat && match marker with Some m => negb (latchAware archiveID m) | None => true end
    with EInvalid "latches are not covered by a conflict-aware marker" ;;
  lift (collectLatches heads kinds marker ∅ records).

(** ** Requests of a poll *)

(** The part of a [resolved] document and of a result that evidence is built from. *)
Record winnerDoc : Type := mkWinner { wn_source : option string; wn_revision : Z; wn_digest : array32 }.
Record headResult : Type := mkHeadResult {
  rs_name : string; rs_winner : option winnerDoc; rs_prior : checkpoint;
  rs_conflict : option (string * list FinalizedClaimPairEvidence); rs_continuityConflict : option ArchiveConflictError;
  rs_participants : list FinalizedClaimCandidate }.

Definition durableSummary (prior : checkpoint) (c : ArchiveConflictError) : ConflictCandidateSummary :=
  let attributed := cp_version prior =? checkpointVersionV4 in
  mkSummary ConflictCandidateDurable (cp_version prior) (if attributed then cp_sourceID prior else EmptyString)
    (if attributed then cp_revision prior else 0) (if attributed then cp_digest prior else zeroID)
    (ac_RightRoot c) (ac_RightSyncedTo c) (ac_RightCovered c) (ac_RightManifest c).

Definition conflictRequestForResult (archiveID : ArchiveID) (revision : Z) (digest : array32) (result : headResult) : res (option ConflictLatchInput) :=
  match rs_conflict result with
  | Some (head, conflicts) => r <-? NewConflictLatchRequestFromError archiveID revision digest head conflicts ;; Ok (Some r)
  | None =>
    match rs_continuityConflict result with
    | None => Ok None
    | Some c =>
      match rs_winner result with
      | Some (mkWinner (Some source) rev dig) =>
        r <-? NewConflictLatchRequest (mkLatchInput archiveID (rs_name result) (ac_ReasonCode c) revision digest 1
                (mkSummary ConflictCandidateSource 0 source rev dig (ac_LeftRoot c) (ac_LeftSyncedTo c) (ac_LeftCovered c) (ac_LeftManifest c))
                (durableSummary (rs_prior result) c)) ;;
        Ok (Some r)
      | _ => Err (EInvalid "conflict has no attributed fresh winner")
      end
    end
  end.

(** ** The durable cut *)

Record pendingLatch : Type := mkPending { pd_request : ConflictLatchInput; pd_participants : list FinalizedClaimCandidate }.

Fixpoint pendingLatches (archiveID : ArchiveID) (revision : Z) (digest : array32) (results : list headResult) : res (list pendingLatch) :=
  match results with
  | [] => Ok []
  | result :: rest =>
    request <-? conflictRequestForResult archiveID revision digest result ;;
    more <-? pendingLatches archiveID revision digest rest ;;
    Ok (match request with Some r => mkPending r (rs_participants result) :: more | None => more end)
  end.

Definition exactAdmission (admissions : gmap string sourceDocumentAdmission) (sourceID : string) (revision : Z) (digest : array32) : bool :=
  match admissions !! sourceID with
  | Some a => (sp_revision (ad_publication a) =? revision) && bool_decide (sp_digest (ad_publication a) = digest)
  | None => false
  end.

(** The sources a new record's endpoints name. *)
Definition endpointSources (admissions : gmap string sourceDocumentAdmission) (record : ConflictRecord) : res (list string) :=
  ids <-? rmap (fun c => if negb (cs_Role c =? ConflictCandidateSource) then Ok None else
                         refuse_if negb (exactAdmission admissions (cs_SourceID c) (cs_Revision c) (cs_Digest c)) with EInvalid "evidence lacks its exact admission" ;;
                         Ok (Some (cs_SourceID c))) [cr_Left record; cr_Right record] ;;
  let ids := omap id ids in
  refuse_if (length ids =? 0)%nat with EInvalid "evidence retains no current source endpoint" ;; Ok ids.

Definition participantSources (admissions : gmap string sourceDocumentAdmission) (participants : list FinalizedClaimCandidate) : res (list string) :=
  rmap (fun p => match u_Revision (d_Unsigned (Document p)) with
                 | None => Err (EInvalid "conflict participant has no revision")
                 | Some revision =>
                   digest <-? CanonicalDigest (d_Unsigned (Document p)) ;;
                   refuse_if negb (exactAdmission admissions (SourceID p) revision (digest_array digest)) with EInvalid "evidence lacks the exact current admission" ;;
                   Ok (SourceID p)
                 end) participants.

(** The batch, the staged latches and the participating sources. *)
Fixpoint stageLatches (admissions : gmap string sourceDocumentAdmission) (batch : list kvop) (pending : list pendingLatch) :
    M K (list kvop * list (ConflictRecord * bool) * list string) :=
  match pending with
  | [] => ret (batch, [], [])
  | item :: rest =>
    let* (record, created, batch) := stageConflictLatch batch (pd_request item) in
    ids <-- (if negb created then ret [] else
             endpoints <-- lift (endpointSources admissions record) ;;
             others <-- lift (participantSources admissions (pd_participants item)) ;;
             ret (endpoints ++ others)) ;;
    let* (batch, staged, more) := stageLatches admissions batch rest in
    ret (batch, (record, created) :: staged, ids ++ more)
  end.

(** The admissions of the participating sources, in the order of the roster. *)
Definition participantAdmissions (sources : list string) (admissions : gmap string sourceDocumentAdmission) (ids : list string) : list sourceDocumentAdmission :=
  omap (fun source => if bool_decide (source ∈ ids) then admissions !! source else None) sources.

Definition persistLatches (archiveID : ArchiveID) (sources : list string) (admissions : gmap string sourceDocumentAdmission) (pending : list pendingLatch) :
    M K (list (ConflictRecord * bool)) :=
  if (length pending =? 0)%nat then ret [] else
  let* (batch, staged, ids) := stageLatches admissions [] pending in
  batch <-- stageSourceAdmission batch archiveID [] (participantAdmissions sources admissions ids) ;;
  kv_commit batch ;;; ret staged.

Definition recordLatches (staged : list (ConflictRecord * bool)) (conflicts : gmap string ConflictRecord) : gmap string ConflictRecord :=
  foldl (fun c item => <[cr_Head (fst item) := fst item]> c) conflicts staged.

(** The in-memory latches after the cut; they change only when it is durable. *)
Definition persistFinalizedConflicts (archiveID : ArchiveID) (revision : Z) (digest : array32) (sources : list string)
    (admissions : gmap string sourceDocumentAdmission) (conflicts : gmap string ConflictRecord) (results : list headResult) : M K (gmap string ConflictRecord) :=
  pending <-- lift (pendingLatches archiveID revision digest results) ;;
  staged <-- persistLatches archiveID sources admissions pending ;;
  ret (recordLatches staged conflicts).

(** ** What a latch freezes *)

Definition conflictLatchErrors (names : list string) (conflicts : gmap string ConflictRecord) : list ConflictRecord := omap (fun head => conflicts !! head) names.

Definition sourceDocumentTouchesLatchedHead (allows : string -> bool) (conflicts : gmap string ConflictRecord) (document : Doc) : bool :=
  existsb (fun entry => negb (unset (he_SyncedTo entry) || negb (allows (he_Name entry))) && present (conflicts !! he_Name entry)) (Heads (d_Unsigned document)).
End ConflictRuntime.
