(* ===== verification/ConflictSteps.v ===== *)
(** The conflict latch under every sequence of operations.

    Latching, clearing and the operations of the source set are put together; the
    invariant of the conflict state is preserved by each, however it ends, so the
    validation at start accepts every store the program leaves behind; and a latch goes
    away only by a clear that names its evidence. *)
From Stdlib Require Import Ascii.
From Stdlib Require String.
From S2P Require Import Prelude Cid Schema Core Engine Ledger Wire Json JsonDecode Publication PublicationJson Claims Arbitration Checkpoint CheckpointCorrect FollowState FollowStateCorrect SourceState SourceStateCorrect SourceSteps ConflictState ConflictCodec ConflictInv ConflictLatch ConflictRuntime.

Section ConflictSteps.
Context `{MH : Multihash} `{DB : !DigestBytes} `{CC : !CidBytes} `{CT : !CidText} {IN : IpnsNames} {K : Type} `{PB : !Pebble K} `{PO : !PebbleOk K}.
Local Abbreviation KV := (gmap bytes bytes).

(** ** What every operation but a clear keeps *)

Record latch_kept (m m' : KV) : Prop := {
  lk_active : forall a h r, activeOf m a h = Some r -> activeOf m' a h = Some r;
  lk_occurrence : forall a h n, occurrenceOf m a h = Some n -> exists n', occurrenceOf m' a h = Some n' /\ n <= n' }.
#[global] Instance latch_kept_preorder : PreOrder latch_kept.
Proof.
  split; [intros m; split; [done|]; intros a h n Hn; exists n; split; [done|lia]|]. intros m1 m2 m3 [A1 O1] [A2 O2]. split; [auto|].
  intros a h n (n1 & H1 & ?)%O1. apply O2 in H1 as (n2 & H2 & ?). exists n2. split; [done|lia].
Qed.

(** The rows of the conflict state are as before. *)
Definition quiet (m m' : KV) : Prop := forall k, conflictKey k -> m' !! k = m !! k.
Lemma quiet_kept (m m' : KV) : quiet m m' -> latch_kept m m'.
Proof.
  intros H. split.
  - intros a h r. unfold activeOf. by rewrite (at_key_same m m') by apply H, nsKey_conflict.
  - intros a h n Hn. exists n. split; [|lia]. unfold occurrenceOf in *. by rewrite (at_key_same m m') by apply H, nsKey_conflict.
Qed.
Lemma quiet_ops (l : list kvop) (m : KV) : Forall (fun o => ~ conflictKey (op_key o)) l -> quiet m (kv_applys l m).
Proof. intros Hl k Hk. by apply conflict_rows_same. Qed.

(** All that is kept by an operation that is not a clear. *)
Record good_step (m m' : KV) : Prop := {
  gs_source : source_step m m';
  gs_inv : conflict_inv m -> conflict_inv m';
  gs_latch : latch_kept m m' }.
#[global] Instance good_step_preorder : PreOrder good_step.
Proof. split; [by intros m|]. intros a b c [S1 I1 L1] [S2 I2 L2]. split; [by transitivity b|auto|by transitivity b]. Qed.

Lemma good_quiet (m m' : KV) : source_step m m' -> quiet m m' -> m' !! sourceSetMarkerKey = m !! sourceSetMarkerKey -> good_step m m'.
Proof. intros Hs Hq Hm. split; [done| |by apply quiet_kept]. apply inv_frame; [done|by left]. Qed.

(** ** The operations of the source set *)

Lemma conflict_source k : conflictKey k -> key "source_" `prefix_of` k.
Proof. intros [ns [x ->]]. destruct ns; eexists; reflexivity. Qed.

Lemma floorKeys_quiet a k : floorKeys a k -> ~ conflictKey k.
Proof. intros [i [->|[->| ->]]]; not_conflict. Qed.

Section Activation.
Context (m : KV) (act : sourceSetActivation) (b : list kvop) (next : sourceSetMarker) (v : bytes) (roster news : list sourceBinding) (mig : list kvop).
Context (AO : activation_ops m act b next v roster news mig) (Hrev : is_u64 (sm_revision (sa_marker act))).

Lemma act_quiet : quiet m (kv_applys b m).
Proof.
  apply quiet_ops. rewrite (ao_batch _ _ _ _ _ _ _ _ AO). constructor; [exact marker_not_conflict|]. apply Forall_app. split.
  - apply Forall_forall. intros o Ho. apply list_elem_of_In, in_concat in Ho as (l & Hl%list_elem_of_In & Ho%list_elem_of_In).
    apply list_elem_of_fmap in Hl as (c & -> & _). unfold bindOps in Ho. repeat (apply elem_of_cons in Ho as [->|Ho]; [not_conflict|]). by apply elem_of_nil in Ho.
  - eapply Forall_impl; [exact (ao_mig _ _ _ _ _ _ _ _ AO)|]. intros o Ho. by apply (floorKeys_quiet (sm_archiveID next)).
Qed.

Lemma act_good : good_step m (kv_applys b m).
Proof.
  pose proof (act_marker _ _ _ _ _ _ _ _ AO Hrev) as Hm. pose proof (ao_case _ _ _ _ _ _ _ _ AO) as Hcase. pose proof act_quiet as Hq.
  split; [by apply (act_step _ _ _ _ _ _ _ _ AO)| |by apply quiet_kept]. destruct (markerOf m) as [mk|] eqn:E.
  - apply inv_frame; [done|]. right. destruct Hcase as [(-> & Ha & Hr & Hd)%admitMarker_ok _]. exists mk. eexists. split; [done|]. split; [exact Hm|].
    split; [|done]. split; cbn; [done|done|by intros E'; apply Hd|apply Z.land_diag].
  - destruct Hcase as (_ & Hno & _ & Hf & _). intros _. assert (Hn : forall k, conflictKey k -> kv_applys b m !! k = None).
    { intros k Hk. rewrite Hq by done. by apply Hno, conflict_source. }
    split.
    + right. by rewrite Hm.
    + intros ns k w Hp Hw. rewrite Hn in Hw; [done|by exists ns].
    + intros mk h _. split; [left|left|left|left]; try apply Hn, nsKey_conflict. unfold rowsAt, activeOf, occurrenceOf, historyOf.
      by rewrite !at_key_none by apply Hn, nsKey_conflict.
    + intros mk Hmk. rewrite Hm in Hmk. injection Hmk as <-. unfold latchAware, hasBit. rewrite Hf. by rewrite andb_false_r.
Qed.
End Activation.

(** The batch of an admission. *)
Lemma groups_good (m : KV) (lp : list kvop) (adm : list sourceDocumentAdmission) (gs : list (list kvop)) : Forall (fun o => exists head, op_key o = checkpointKey head) lp ->
  Forall2 (admission_group m) adm gs -> NoDup (ad_ref <$> adm) -> Forall (fun x => is_u64 (sp_revision (ad_publication x))) adm ->
  good_step m (kv_applys (lp ++ concat gs) m).
Proof.
  intros Hlp Hgs Hn Hu. pose proof (groups_keys _ _ _ Hgs) as Hk. apply good_quiet; [by apply (admission_batch_step _ lp adm gs)| |].
  - apply quiet_ops, Forall_app. split; [eapply Forall_impl; [exact Hlp|]; intros o [head ->]; not_conflict|].
    eapply Forall_impl; [exact Hk|]. intros o [ref [-> | ->]]; not_conflict.
  - apply applys_other, Forall_app. split; [eapply Forall_impl; [exact Hlp|]; intros o [head ->]; keys_apart|].
    eapply Forall_impl; [exact Hk|]. intros o [ref [-> | ->]]; keys_apart.
Qed.

Lemma sop_good o (s : K) r s' : sop_ok o -> runSource o s = (r, s') -> good_step (kv s) (kv s').
Proof.
  destruct o as [act|a plans adm|obs|o]; cbn [sop_ok runSource]; intros Ho.
  - apply (staged_commit good_step); [apply stageActivation_reads|]. intros s0 b s1 H.
    destruct (activation_run act s0 b s1 H) as (next & v & roster & news & mig & AO). by apply (act_good _ _ _ _ _ _ _ _ AO).
  - apply (staged_commit good_step); [apply stageSourceAdmission_reads|]. intros s0 b s1 (lp & gs & -> & Hlp & Hgs & Hn)%stageSourceAdmission_ok. cbn [app].
    by apply (groups_good _ lp adm gs).
  - apply (staged_commit good_step); [apply stageObservations_reads|]. intros s0 b s1 (ops & -> & Hops)%stageObservations_ok. cbn [app]. apply good_quiet.
    + apply source_frame_ops. eapply Forall_impl; [exact Hops|]. intros o [ref ->]. repeat split; intros; keys_apart.
    + apply quiet_ops. eapply Forall_impl; [exact Hops|]. intros k [ref ->]. not_conflict.
    + apply applys_other. eapply Forall_impl; [exact Hops|]. intros k [ref ->]. keys_apart.
  - intros H. apply single_ops in H as [->|(l & Hl & ->)]; [done| |done]. apply good_quiet; [by apply plain_step| |].
    + apply quiet_ops. eapply Forall_impl; [exact Hl|]. intros w Hp [ns [x E]]. destruct ns;
        [by apply (plainOp_other w "conflict:v1:" x)|by apply (plainOp_other w "conflict_sequence:v1:" x)|by apply (plainOp_other w "conflict_history:v1:" x)].
    + apply applys_other. eapply Forall_impl; [exact Hl|]. intros w Hp. rewrite <- (app_nil_r sourceSetMarkerKey). by apply (plainOp_other w "set:v1").
Qed.

(** ** New latches *)

Lemma aware_idem mk : awareMarker (awareMarker mk) = awareMarker mk.
Proof. unfold awareMarker. cbn [sm_archiveID sm_revision sm_digest sm_features]. by rewrite <- Z.lor_assoc, Z.lor_diag. Qed.

(** A latch to be written, with its encoded rows. *)
Definition latch : Type := ConflictRecord * bytes * bytes.
Definition latchBatch (l : list latch) : list kvop := concat ((fun '(r, v, mb) => latchOps r v mb) <$> l).
Definition latch_ready (m : KV) (mk : sourceSetMarker) (x : latch) : Prop := let '(r, v, mb) := x in
  latch_pre m mk r /\ record_fits r /\ encodeConflictRecord r = Ok v /\ encodeSourceSetMarker (awareMarker mk) = Ok mb.
Definition latchHead (x : latch) : string := cr_Head (fst (fst x)).

Lemma latchOps_keys r v mb : Forall (fun o => op_key o = sourceSetMarkerKey \/ conflictKey (op_key o)) (latchOps r v mb).
Proof. unfold latchOps. constructor; [right; apply nsKey_conflict|]. constructor; [right; apply nsKey_conflict|]. constructor; [by left|constructor]. Qed.
Lemma latchBatch_keys l : Forall (fun o => op_key o = sourceSetMarkerKey \/ conflictKey (op_key o)) (latchBatch l).
Proof. unfold latchBatch. induction l as [|[[r v] mb] l IH]; cbn [fmap list_fmap concat]; [constructor|]. apply Forall_app. split; [apply latchOps_keys|done]. Qed.
Lemma latchBatch_other (l : list latch) (m : KV) k : k <> sourceSetMarkerKey -> ~ conflictKey k -> kv_applys (latchBatch l) m !! k = m !! k.
Proof. intros H1 H2. apply applys_other. eapply Forall_impl; [apply latchBatch_keys|]. by intros o [->|Ho] E; [|rewrite E in Ho]. Qed.

Lemma latch_good (m : KV) mk mk0 r v mb : markerOf m = Some mk0 -> awareMarker mk0 = awareMarker mk -> latch_ready m mk (r, v, mb) ->
  good_step m (kv_applys (latchOps r v mb) m).
Proof.
  intros Hm Ht (Hp & Hf & Hv & Hmb). pose proof (latch_marker m mk r v mb Hp Hf Hv Hmb) as Hm'. destruct (latch_rows m mk r v mb Hp Hf Hv) as (Ha & Hs & Hh & _ & Hk).
  pose proof (latchBatch_other [(r, v, mb)] m) as Ho. unfold latchBatch in Ho. cbn [fmap list_fmap concat] in Ho. rewrite app_nil_r in Ho.
  set (m' := kv_applys _ m) in *.
  assert (Hb : forall ref, m' !! sourceScopedKey keySourceBinding ref = m !! sourceScopedKey keySourceBinding ref) by (intros ref; apply Ho; [keys_apart|not_conflict]).
  assert (Hg : forall a p, m' !! sourceSignerKey a p = m !! sourceSignerKey a p) by (intros a p; apply Ho; [keys_apart|not_conflict]).
  destruct (bindings_same m m' Hb Hg) as [Hpair Hinj]. split.
  - split; try done; [intros ref w; by rewrite Hb|intros a p w; by rewrite Hg| |].
    + intros mk1 E. rewrite Hm in E. injection E as <-. exists (awareMarker mk). split; [done|]. rewrite <- Ht. apply aware_le.
    + intros ref f E. exists f. split; [|by right]. unfold sourceFloorOf in *. rewrite (at_key_same m m'); [done|]. apply Ho; [keys_apart|not_conflict].
  - intros Hi. by eapply latch_inv.
  - split.
    + intros a h r' Hr'. destruct (decide (nsKey NsActive a h = nsKey NsActive (cr_ArchiveID r) (cr_Head r))) as [E|N].
      * unfold activeOf in Hr'. rewrite at_key_none in Hr'; [done|]. rewrite E. apply (lp_free _ _ _ Hp).
      * unfold activeOf in *. rewrite (at_key_same m m'); [done|]. apply Hk; [apply nsKey_conflict|done|by intros ?%nsKey_ns].
    + intros a h n Hn. destruct (decide (nsKey NsSequence a h = nsKey NsSequence (cr_ArchiveID r) (cr_Head r))) as [E|N].
      * apply nsKey_inj in E as [-> ->]. exists (cr_Sequence r). split; [done|]. destruct (lp_prior _ _ _ Hp) as [(_ & Hn0 & _)|(l & Hl & _)].
        { unfold occurrenceOf in Hn. by rewrite at_key_none in Hn. }
        rewrite Hn in Hl. injection Hl as ->. lia.
      * exists n. split; [|lia]. unfold occurrenceOf in *. rewrite (at_key_same m m'); [done|]. apply Hk; [apply nsKey_conflict|by intros ?%nsKey_ns|done].
Qed.

Lemma latch_pre_other (m m' : KV) mk r : (forall ns, m' !! nsKey ns (cr_ArchiveID r) (cr_Head r) = m !! nsKey ns (cr_ArchiveID r) (cr_Head r)) ->
  latch_pre m mk r -> latch_pre m' mk r.
Proof.
  intros H [H1 H2 H3 H4 H5 H6 H7]. pose proof (rowsAt_same m m' _ _ H) as E. unfold rowsAt in E. injection E as E1 E2 E3.
  split; try done; [by rewrite H|]. by rewrite !H, E2, E3.
Qed.

Lemma latches_ready_after (l : list latch) (m : KV) mk r v mb : latch_ready m mk (r, v, mb) -> Forall (latch_ready m mk) l ->
  latchHead (r, v, mb) ∉ (latchHead <$> l) -> Forall (latch_ready (kv_applys (latchOps r v mb) m) mk) l.
Proof.
  intros (Hp & Hf & Hv & _) Hl Hni. destruct (latch_rows m mk r v mb Hp Hf Hv) as (_ & _ & _ & _ & Hk).
  apply Forall_forall. intros [[r' v'] mb'] Hin. rewrite Forall_forall in Hl. destruct (Hl _ Hin) as (Hp' & H'). split; [|done]. eapply latch_pre_other; [|exact Hp'].
  assert (Hne : cr_Head r' <> cr_Head r). { intros E. apply Hni. apply list_elem_of_fmap. exists (r', v', mb'). done. }
  intros ns. apply Hk; [apply nsKey_conflict| |]; intros E; pose proof (nsKey_ns _ _ _ _ _ _ E) as ->; by apply nsKey_inj in E as [_ ?].
Qed.

Lemma latches_good (l : list latch) (m : KV) mk mk0 : markerOf m = Some mk0 -> awareMarker mk0 = awareMarker mk -> Forall (latch_ready m mk) l ->
  NoDup (latchHead <$> l) -> good_step m (kv_applys (latchBatch l) m).
Proof.
  revert m mk0. induction l as [|[[r v] mb] l IH]; intros m mk0 Hm Ht; [done|]. intros [Hx Hl]%Forall_cons. cbn [fmap list_fmap]. intros [Hni Hn]%NoDup_cons.
  unfold latchBatch. cbn [fmap list_fmap concat]. rewrite applys_app. fold (latchBatch l). etransitivity; [by eapply latch_good|].
  pose proof Hx as (Hp & Hf & Hv & Hmb). apply (IH _ (awareMarker mk)); [by apply latch_marker|apply aware_idem| |done]. by apply latches_ready_after.
Qed.

(** Every one of them is then the active latch of its head. *)
Lemma latches_active (l : list latch) (m : KV) mk mk0 : markerOf m = Some mk0 -> awareMarker mk0 = awareMarker mk -> Forall (latch_ready m mk) l ->
  NoDup (latchHead <$> l) -> Forall (fun x => activeOf (kv_applys (latchBatch l) m) (cr_ArchiveID x.1.1) (cr_Head x.1.1) = Some x.1.1) l.
Proof.
  revert m mk0. induction l as [|[[r v] mb] l IH]; intros m mk0 Hm Ht; [constructor|]. intros [Hx Hl]%Forall_cons. cbn [fmap list_fmap]. intros [Hni Hn]%NoDup_cons.
  unfold latchBatch. cbn [fmap list_fmap concat]. rewrite applys_app. fold (latchBatch l).
  pose proof Hx as (Hp & Hf & Hv & Hmb). destruct (latch_rows m mk r v mb Hp Hf Hv) as (Ha & _). pose proof (latch_marker m mk r v mb Hp Hf Hv Hmb) as Hm'.
  pose proof (latches_ready_after l m mk r v mb Hx Hl Hni) as Hl'.
  constructor; [|apply (IH _ (awareMarker mk)); [done|apply aware_idem|done|done]]. cbn [fst].
  eapply lk_active; [|exact Ha]. apply gs_latch. eapply latches_good; [exact Hm'|apply aware_idem|done|done].
Qed.

(** What is staged for the requests of one poll. *)
Definition staged_latch (m : KV) (l : list latch) (p : pendingLatch) (x : ConflictRecord * bool) : Prop :=
  NewConflictLatchRequest (pd_request p) = Ok (recordInput x.1) /\
  if x.2 then exists v mb, (x.1, v, mb) ∈ l else activeOf m (cr_ArchiveID x.1) (cr_Head x.1) = Some x.1.

Lemma stageLatches_reads adm pending b : moves sameKV (stageLatches adm b pending).
Proof. pose proof stageConflictLatch_reads. revert b. induction pending; intros b; cbn [stageLatches]; moves_tac. Qed.

Lemma stageLatches_ok adm pending b (s : K) b' staged ids s' : Forall (fun p => input_fits (pd_request p)) pending ->
  stageLatches adm b pending s = (Ok (b', staged, ids), s') ->
  exists l, b' = b ++ latchBatch l /\ (l = [] \/ exists mk, markerOf (kv s) = Some mk /\ Forall (latch_ready (kv s) mk) l) /\
    sublist (latchHead <$> l) ((fun p => cl_Head (pd_request p)) <$> pending) /\ Forall2 (staged_latch (kv s) l) pending staged.
Proof.
  intros Hfit. revert b s staged ids. induction Hfit as [|p pending Hp _ IH]; intros b s staged ids; cbn [stageLatches].
  { intros [= <- <- <- <-]. exists []. unfold latchBatch. cbn. rewrite app_nil_r. split; [done|]. split; [by left|]. split; constructor. }
  intros ([[r created] b1] & s1 & H1 & H)%bind_run_ok. pose proof (reads_kv _ _ _ _ (stageConflictLatch_reads _ _) H1) as E1.
  apply stageConflictLatch_ok in H1 as (i & mk & Hi & Hri & Hm & Ha & Hc). apply bind_run_ok in H as (own & s2 & H2 & H).
  assert (E2 : kv s2 = kv s1).
  { destruct created; cbn [negb] in H2; [|by injection H2 as _ <-]. apply bind_run_ok in H2 as (? & ? & [_ ->]%lift_ok & H2). by apply bind_run_ok in H2 as (? & ? & [_ ->]%lift_ok & [= _ <-]). }
  apply bind_run_ok in H as ([[b2 st2] more] & s3 & H3 & [= <- <- <- <-]). apply IH in H3 as (l & -> & Hl & Hsub & Hst). rewrite E2, E1 in Hl, Hst.
  assert (Hh : cr_Head r = cl_Head (pd_request p)).
  { apply request_accepted in Hi as [_ [-> | ->]]; [|change (cl_Head (pd_request p)) with (cl_Head (swapSides (pd_request p)))]; by rewrite <- Hri. }
  rewrite <- Hri in Hi. destruct created.
  - destruct Hc as (v & mb & Hpre & Hv & Hmb & ->). exists ((r, v, mb) :: l). unfold latchBatch. cbn [fmap list_fmap concat]. rewrite <- app_assoc. split; [done|]. split; [|split].
    + right. exists mk. split; [done|]. constructor; [|destruct Hl as [->|(mk' & Hm' & Hl)]; [constructor|by assert (mk' = mk) as -> by congruence]]. split_and!; try done. by eapply request_fits.
    + cbn [fmap list_fmap]. unfold latchHead at 1. cbn [fst]. rewrite Hh. by apply sublist_skip.
    + constructor; [split; [done|]; exists v, mb; by left|]. eapply Forall2_impl; [exact Hst|]. intros q [x c] [Hq Hx]. split; [done|]. cbn in *. destruct c; [|done].
      destruct Hx as (v' & mb' & Hx). exists v', mb'. by right.
  - destruct Hc as (-> & Hact & _). exists l. split_and!; try done; [by apply sublist_cons|]. by constructor.
Qed.

Lemma group_other (m m' : KV) x g : m' !! sourceScopedKey keySourceBinding (ad_ref x) = m !! sourceScopedKey keySourceBinding (ad_ref x) ->
  m' !! sourceScopedKey keySourcePublication (ad_ref x) = m !! sourceScopedKey keySourcePublication (ad_ref x) -> admission_group m x g -> admission_group m' x g.
Proof.
  intros Hb Hf (v & rest & -> & Hv & Hbd & Hr & Hrest). exists v, rest. split_and!; try done.
  - unfold bindingOf in *. by rewrite (at_key_same m m').
  - unfold sourceFloorOf in *. by rewrite (at_key_same m m').
Qed.


(** ** The durable cut of a poll *)

Definition admissions_fit (admissions : gmap string sourceDocumentAdmission) : Prop := map_Forall (fun _ x => is_u64 (sp_revision (ad_publication x))) admissions.
Definition pending_fit (pending : list pendingLatch) : Prop :=
  Forall (fun p => input_fits (pd_request p)) pending /\ NoDup ((fun p => cl_Head (pd_request p)) <$> pending).

Lemma participants_fit sources adm ids : admissions_fit adm -> Forall (fun x => is_u64 (sp_revision (ad_publication x))) (participantAdmissions sources adm ids).
Proof.
  intros H. apply Forall_forall. intros x (i & _ & Hi)%list_elem_of_omap. case_bool_decide; [|done]. by apply (H i).
Qed.

Lemma persist_batch a sources adm pending (s : K) b staged ids s1 b' s2 : admissions_fit adm -> pending_fit pending ->
  stageLatches adm [] pending s = (Ok (b, staged, ids), s1) -> stageSourceAdmission b a [] (participantAdmissions sources adm ids) s1 = (Ok b', s2) ->
  let m' := kv_applys b' (kv s) in
  good_step (kv s) m' /\
  Forall2 (fun p x => NewConflictLatchRequest (pd_request p) = Ok (recordInput x.1) /\ activeOf m' (cr_ArchiveID x.1) (cr_Head x.1) = Some x.1) pending staged.
Proof.
  intros Hadm [Hfit Hnd] H1 H2. pose proof (reads_kv _ _ _ _ (stageLatches_reads _ _ _) H1) as E1. apply stageLatches_ok in H1 as (l & -> & Hl & Hsub & Hst); [|done].
  apply stageSourceAdmission_ok in H2 as (lp & gs & -> & Hlp & Hgs & Hn). rewrite E1 in Hgs. cbv zeta. cbn [app]. rewrite applys_app.
  assert (Hnl : NoDup (latchHead <$> l)) by (by eapply sublist_NoDup).
  assert (HL : good_step (kv s) (kv_applys (latchBatch l) (kv s)) /\ Forall (fun x => activeOf (kv_applys (latchBatch l) (kv s)) (cr_ArchiveID x.1.1) (cr_Head x.1.1) = Some x.1.1) l).
  { destruct Hl as [->|(mk & Hm & Hl)]; [split; [done|constructor]|]. split; [by eapply latches_good|by eapply latches_active]. }
  destruct HL as [HL HA]. set (m1 := kv_applys (latchBatch l) (kv s)) in *.
  assert (HG : good_step m1 (kv_applys (lp ++ concat gs) m1)).
  { eapply groups_good; [done| |done|by apply participants_fit]. eapply Forall2_impl; [exact Hgs|]. intros x g. apply group_other; apply latchBatch_other; keys_apart || not_conflict. }
  split; [by transitivity m1|]. eapply Forall2_impl; [exact Hst|]. intros p [r c] [Hq Hx]. split; [done|]. cbn [fst snd] in *.
  apply (lk_active _ _ (gs_latch _ _ HG)). destruct c; [|by apply (lk_active _ _ (gs_latch _ _ HL))]. destruct Hx as (v & mb & Hx).
  rewrite Forall_forall in HA. exact (HA _ Hx).
Qed.

Lemma persist_run a sources adm pending (s : K) r s' : admissions_fit adm -> pending_fit pending -> persistLatches a sources adm pending s = (r, s') ->
  good_step (kv s) (kv s') /\
  forall staged, r = Ok staged -> Forall2 (fun p x => NewConflictLatchRequest (pd_request p) = Ok (recordInput x.1) /\ activeOf (kv s') (cr_ArchiveID x.1) (cr_Head x.1) = Some x.1) pending staged.
Proof.
  intros Hadm Hp. unfold persistLatches. destruct (Nat.eqb_spec (length pending) 0) as [E0|_].
  { intros [= <- <-]. split; [done|]. intros ? [= <-]. apply nil_length_inv in E0 as ->. constructor. }
  intros [([[b st] ids] & s1 & H1 & H)|(e & H1 & ->)]%bind_run; pose proof (reads_kv _ _ _ _ (stageLatches_reads _ _ _) H1) as E1; [|by rewrite E1].
  apply bind_run in H as [(b' & s2 & H2 & H)|(e & H2 & ->)]; pose proof (reads_kv _ _ _ _ (stageSourceAdmission_reads _ _ _ _) H2) as E2; [|by rewrite E2, E1].
  destruct (persist_batch a sources adm pending s b st ids s1 b' s2 Hadm Hp H1 H2) as [HG HF].
  apply bind_run in H as [([] & s3 & H3%kv_commit_spec & [= <- <-])|(e & H3%kv_commit_spec & ->)]; rewrite E2, E1 in H3.
  - rewrite H3. split; [done|]. by intros ? [= <-].
  - split; [|done]. by destruct H3 as [_ [-> | ->]].
Qed.

(** ** Clearing *)

Lemma clear_source (m : KV) a h n v : source_step m (kv_applys (clearOps a h n v) m).
Proof.
  apply source_frame_ops. unfold clearOps. repeat (apply Forall_cons; split; [repeat split; intros; cbn [op_key]; unfold_ns; keys_apart|]). constructor.
Qed.

(** A clear, however it ends: at most the latch it names is gone. *)
Lemma clear_run q (s : K) r s' : Unix (cq_ClearedAt q) < 2 ^ 63 -> ClearConflictLatch q s = (r, s') ->
  (kv s' = kv s /\ is_ok r = false) \/
  exists act mk v l rc, let a := cq_ArchiveID q in let h := cq_Head q in
    activeOf (kv s) a h = Some act /\ cr_EvidenceID act = cq_EvidenceID q /\ occurrenceOf (kv s) a h = Some (cr_Sequence act) /\ validateConflictIdentity a h = Ok tt /\
    markerOf (kv s) = Some mk /\ latchAware a mk = true /\ kv s' = kv_applys (clearOps a h (cr_Sequence act) v) (kv s) /\
    decodeConflictClearHistory a h v = Ok l /\ last l = Some rc /\
    rc = mkClearRecord a h (cr_Sequence act) (cr_EvidenceID act) (time_Unix (Unix (cq_ClearedAt q))) (cq_Operator q) (cq_Note q) /\ (r = Ok rc \/ is_ok r = false).
Proof.
  intros Ht. unfold ClearConflictLatch. intros [([rc b] & s1 & H1 & H)|(e & H1 & ->)]%bind_run; pose proof (reads_kv _ _ _ _ (stageClear_reads _ _) H1) as E1; [|by left].
  apply stageClear_ok in H1 as (act & mk & v & l & H1); [|done]. cbv zeta in H1. destruct H1 as (P1 & P2 & P3 & P4 & P5 & P6 & -> & P7 & P8 & P9). cbn [app] in H.
  apply bind_run in H as [([] & s2 & H2%kv_commit_spec & [= <- <-])|(e & H2%kv_commit_spec & ->)]; rewrite E1 in H2.
  - right. exists act, mk, v, l, rc. cbv zeta. split_and!; auto.
  - destruct H2 as [_ [E|E]]; [by left|]. right. exists act, mk, v, l, rc. cbv zeta. split_and!; auto.
Qed.

(** ** Sequences of operations *)

Inductive cop : Type :=
| CSource (o : sop)
| CPersist (archiveID : ArchiveID) (sources : list string) (admissions : gmap string sourceDocumentAdmission) (pending : list pendingLatch)
| CClear (q : ConflictClearRequest).

Definition runConflict (o : cop) (s : K) : K :=
  match o with
  | CSource o => snd (runSource o s)
  | CPersist archiveID sources admissions pending => snd (persistLatches archiveID sources admissions pending s)
  | CClear q => snd (ClearConflictLatch q s)
  end.
Definition runConflicts (ops : list cop) (s : K) : K := foldl (fun s o => runConflict o s) s ops.

(** Values of the Go types; a poll asks for one latch per head. *)
Definition cop_ok (o : cop) : Prop :=
  match o with
  | CSource o => sop_ok o
  | CPersist _ _ admissions pending => admissions_fit admissions /\ pending_fit pending
  | CClear q => Unix (cq_ClearedAt q) < 2 ^ 63
  end.

Definition names_latch (q : ConflictClearRequest) (a : ArchiveID) (h : string) (r : ConflictRecord) : Prop :=
  cq_ArchiveID q = a /\ cq_Head q = h /\ cq_EvidenceID q = cr_EvidenceID r.

Record latch_step (named : ArchiveID -> string -> ConflictRecord -> Prop) (m m' : KV) : Prop := {
  ls_source : source_step m m';
  ls_inv : conflict_inv m -> conflict_inv m';
  ls_active : forall a h r, activeOf m a h = Some r -> activeOf m' a h = Some r \/ named a h r;
  ls_occurrence : forall a h n, occurrenceOf m a h = Some n -> exists n', occurrenceOf m' a h = Some n' /\ n <= n' }.

Lemma good_latch (named : ArchiveID -> string -> ConflictRecord -> Prop) (m m' : KV) : good_step m m' -> latch_step named m m'.
Proof. intros [S1 I1 [A1 O1]]. split; auto. Qed.

Lemma clear_step (m : KV) q act mk v l rc : let a := cq_ArchiveID q in let h := cq_Head q in
  activeOf m a h = Some act -> cr_EvidenceID act = cq_EvidenceID q -> occurrenceOf m a h = Some (cr_Sequence act) -> validateConflictIdentity a h = Ok tt ->
  markerOf m = Some mk -> latchAware a mk = true -> decodeConflictClearHistory a h v = Ok l -> last l = Some rc -> cc_Sequence rc = cr_Sequence act ->
  latch_step (names_latch q) m (kv_applys (clearOps a h (cr_Sequence act) v) m).
Proof.
  intros a h P1 P2 P3 P4 P5 P6 P7 P8 P9. destruct (occurrence_pos _ _ _ _ P3) as [Hn Hu]. destruct (clear_rows m a h (cr_Sequence act) v l Hn Hu P7) as (_ & Hs & _ & Hk). split.
  - apply clear_source.
  - intros Hi. by eapply clear_inv.
  - intros a' h' r Hr. destruct (decide (nsKey NsActive a' h' = nsKey NsActive a h)) as [[-> ->]%nsKey_inj|N].
    + right. assert (r = act) as -> by congruence. by repeat split.
    + left. unfold activeOf in *. rewrite (at_key_same m); [done|]. apply Hk; [done|by intros ?%nsKey_ns|by intros ?%nsKey_ns].
  - intros a' h' n Hn'. exists n. split; [|lia]. destruct (decide (nsKey NsSequence a' h' = nsKey NsSequence a h)) as [[-> ->]%nsKey_inj|N].
    + rewrite Hs. congruence.
    + unfold occurrenceOf in *. rewrite (at_key_same m); [done|]. apply Hk; [by intros ?%nsKey_ns|done|by intros ?%nsKey_ns].
Qed.

Definition named_by (o : cop) (a : ArchiveID) (h : string) (r : ConflictRecord) : Prop := match o with CClear q => names_latch q a h r | _ => False end.

Lemma cop_step o (s : K) : cop_ok o -> latch_step (named_by o) (kv s) (kv (runConflict o s)).
Proof.
  destruct o as [o|a sources adm pending|q]; cbn [cop_ok runConflict named_by].
  - intros Ho. apply good_latch. destruct (runSource o s) as [r s'] eqn:E. by eapply sop_good.
  - intros [Ha Hp]. apply good_latch. destruct (persistLatches a sources adm pending s) as [r s'] eqn:E. by eapply persist_run.
  - intros Ht. destruct (ClearConflictLatch q s) as [r s'] eqn:E. cbn [snd]. apply clear_run in E; [|done].
    destruct E as [[-> _]|(act & mk & v & l & rc & P)]; [by apply good_latch|]. cbv zeta in P. destruct P as (P1 & P2 & P3 & P4 & P5 & P6 & -> & P7 & P8 & P9 & _).
    eapply clear_step; try done. by rewrite P9.
Qed.

Lemma cops_step ops (s : K) : Forall cop_ok ops -> latch_step (fun a h r => exists q, CClear q ∈ ops /\ names_latch q a h r) (kv s) (kv (runConflicts ops s)).
Proof.
  intros H. revert s. induction H as [|o ops Ho _ IH]; intros s; [by apply good_latch|]. cbn [runConflicts foldl].
  destruct (cop_step o s Ho) as [S1 I1 A1 O1]. destruct (IH (runConflict o s)) as [S2 I2 A2 O2]. split; [by transitivity (kv (runConflict o s))|auto| |].
  - intros a h r [Hr|Hr]%A1.
    + destruct (A2 a h r Hr) as [?|(q & Hq & ?)]; [by left|]. right. exists q. split; [by right|done].
    + right. destruct o as [| |q]; [done|done|]. exists q. split; [by left|done].
  - intros a h n (n1 & H1 & ?)%O1. apply O2 in H1 as (n2 & H2 & ?). exists n2. split; [done|lia].
Qed.
End ConflictSteps.
