(* ===== verification/ConflictRestart.v ===== *)
(** The conflict latch over restarts.

    Whatever sequence of activations, admissions, observations, latches and clears came
    before, the validation at start accepts the store, and the latches that are loaded are
    those that are active: latched and not cleared.  The bindings and the roster of the
    source set are never undone by any of them. *)
From Stdlib Require Import Ascii.
From Stdlib Require String.
From S2P Require Import Prelude Cid Schema Core Engine Ledger Wire Json JsonDecode Publication PublicationJson Claims Arbitration Checkpoint CheckpointCorrect FollowState FollowStateCorrect SourceState SourceStateCorrect SourceSteps ConflictState ConflictCodec ConflictInv ConflictLatch ConflictRuntime ConflictSteps.

Section ConflictRestart.
Context `{MH : Multihash} `{DB : !DigestBytes} `{CC : !CidBytes} `{CT : !CidText} {IN : IpnsNames} {K : Type} `{PB : !Pebble K} `{PO : !PebbleOk K}.
Local Abbreviation KV := (gmap bytes bytes).

Lemma noSource_inv (m : KV) : noSourceRows m -> conflict_inv m.
Proof.
  intros H. assert (Hm : m !! sourceSetMarkerKey = None) by (apply H; by eexists). assert (Hmk : markerOf m = None) by (by apply at_key_none). split.
  - by left.
  - intros ns k v Hp Hv. rewrite H in Hv; [done|]. apply conflict_source. by exists ns.
  - intros mk h. by rewrite Hmk.
  - intros mk. by rewrite Hmk.
Qed.

(** ** Reading the active latches *)

(** What an active row of a store in the invariant is covered by. *)
Lemma active_covered (m : KV) mk h r : conflict_inv m -> markerOf m = Some mk -> activeOf m (sm_archiveID mk) h = Some r ->
  occurrenceOf m (sm_archiveID mk) h = Some (cr_Sequence r) /\ validateConflictRecordAgainstMarker r mk = Ok tt.
Proof.
  intros Hi Hm Ha. destruct (ci_heads m Hi mk h Hm) as [_ _ _ [E|E]]; unfold rowsAt in E; rewrite Ha in E; [done|].
  unfold checkHeadRows in E. cbn [hr_active hr_sequence hr_history] in E. destruct (occurrenceOf m _ h) as [n|]; [|done].
  destruct (Z.eqb_spec (cr_Sequence r) n) as [->|]; [|done]. cbn [negb] in E. apply rbind_ok in E as ([] & E & _). done.
Qed.

Lemma active_identity (m : KV) mk h r : conflict_inv m -> markerOf m = Some mk -> activeOf m (sm_archiveID mk) h = Some r ->
  validateConflictIdentity (sm_archiveID mk) h = Ok tt /\ latchAware (sm_archiveID mk) mk = true /\ cr_ArchiveID r = sm_archiveID mk /\ cr_Head r = h.
Proof.
  intros Hi Hm Ha. unfold activeOf, at_key in Ha. destruct (m !! nsKey NsActive _ h) as [v|] eqn:E; [|done]. cbn [mbind option_bind] in Ha.
  destruct (ci_keys m Hi NsActive _ v (nsKey_prefix _ _ _) E) as (mk' & h' & Hm' & Haw & Hid & Ek). assert (mk' = mk) as -> by congruence. apply nsKey_inj in Ek as [_ <-].
  destruct (decActive _ h v) as [r'|] eqn:Ed; [|done]. injection Ha as ->. unfold decActive in Ed. apply rbind_ok in Ed as (r0 & _ & Ed). destruct (_ || _) eqn:Eo; [done|]. injection Ed as ->.
  apply orb_false_iff in Eo as [E1%negb_false_iff%bool_decide_eq_true_1 E2%negb_false_iff%bool_decide_eq_true_1]. done.
Qed.

Lemma checkLatch_total mk h v (s : K) r s' : conflict_inv (kv s) -> markerOf (kv s) = Some mk -> kv s !! nsKey NsActive (sm_archiveID mk) h = Some v ->
  checkLatch (sm_archiveID mk) h v s = (r, s') -> kv s' = kv s /\ (r = Err EIO \/ exists x, r = Ok x /\ activeOf (kv s) (sm_archiveID mk) h = Some x).
Proof.
  intros Hi Hm Hv H. pose proof (ci_heads _ Hi mk h Hm) as [H1 H2 _ _]. destruct (readable_row _ _ _ v H1 Hv) as [x Hx].
  assert (Hact : activeOf (kv s) (sm_archiveID mk) h = Some x) by (by eapply at_key_set). destruct (active_covered _ _ _ _ Hi Hm Hact) as [Ho Hg].
  destruct (active_identity _ _ _ _ Hi Hm Hact) as (Hid & Haw & Ea & Eh). unfold checkLatch in H. unfold decActive in Hx. apply rbind_ok in Hx as (x0 & Hd & Hx). destruct (_ || _) eqn:E; [done|]. injection Hx as ->.
  unfold bind at 1, lift in H. rewrite Hd, E in H. apply bind_run in H as [(o & s1 & H & H')|(e & H & ->)];
    (unfold conflictSequence in H; unfold bind at 1, lift in H; rewrite Hid in H; (eapply readWith_total in H as [E1 H]; [|exact H2])); destruct H as [H|H]; try discriminate H; [|injection H as ->; by auto].
  injection H as ->. change (at_key _ _ _) with (occurrenceOf (kv s) (sm_archiveID mk) h) in H'. rewrite Ho, bool_decide_eq_true_2 in H' by done. cbn [negb] in H'.
  unfold validateConflictRecordMarker in H'. rewrite <- E1 in *. apply bind_run in H' as [([] & s2 & H & [= <- <-])|(e & H & ->)];
    (apply bind_run in H as [(om & s3 & H & H')|(e' & H & H')]; (eapply readWith_total in H as [E3 H]; [|exact (ci_marker _ Hi)]); destruct H as [H|H]; try discriminate H);
    [|discriminate H'| |].
  - injection H as ->. change (at_key _ _ _) with (markerOf (kv s1)) in H'. rewrite Hm, Ea, Haw, Hg in H'. cbn [negb] in H'. injection H' as <-. rewrite E3. eauto.
  - injection H as ->. change (at_key _ _ _) with (markerOf (kv s1)) in H'. rewrite Hm, Ea, Haw, Hg in H'. by injection H'.
  - simplify_eq. by auto.
Qed.

Definition active_row (m : KV) (a : ArchiveID) (x : bytes * bytes) (r : ConflictRecord) : Prop := x.1 = nsKey NsActive a (cr_Head r) /\ activeOf m a (cr_Head r) = Some r.

Lemma latchRows_total mk (l : list (bytes * bytes)) (s : K) r s' : conflict_inv (kv s) -> markerOf (kv s) = Some mk ->
  Forall (fun x => exists h, x.1 = nsKey NsActive (sm_archiveID mk) h /\ kv s !! x.1 = Some x.2) l ->
  latchRows (sm_archiveID mk) (sourceArchivePrefix keySourceConflictActive (sm_archiveID mk)) l s = (r, s') ->
  kv s' = kv s /\ (r = Err EIO \/ exists rs, r = Ok rs /\ Forall2 (active_row (kv s) (sm_archiveID mk)) l rs).
Proof.
  intros Hi Hm Hl. revert s r s' Hi Hm Hl. induction l as [|[k v] l IH]; intros s r s' Hi Hm Hl; cbn [latchRows].
  { intros [= <- <-]. split; [done|]. right. exists []. split; [done|constructor]. }
  apply Forall_cons in Hl as [(h & Hk & Hv) Hl]. cbn [fst snd] in *. subst k.
  assert (Eh : bytes_string (drop (length (sourceArchivePrefix keySourceConflictActive (sm_archiveID mk))) (nsKey NsActive (sm_archiveID mk) h)) = h).
  { unfold nsKey, conflictStateKey, nsPrefix. rewrite drop_app_length. apply bytes_string_bytes. }
  rewrite Eh. intros [(x & s1 & H1 & H)|(e & H1 & ->)]%bind_run; (eapply checkLatch_total in H1 as [E1 H1]; [|done|done|done]).
  - destruct H1 as [?|(x' & Hx & Hact)]; [done|]. injection Hx as <-. destruct (active_identity _ _ _ _ Hi Hm Hact) as (_ & _ & _ & Ehd).
    apply bind_run in H as [(rs & s2 & H2 & [= <- <-])|(e & H2 & ->)]; rewrite <- E1 in Hi, Hm, Hl; apply IH in H2 as [E2 H2]; try done; rewrite E1 in *.
    + split; [done|]. right. destruct H2 as [?|(rs' & [= ->] & Hrs)]; [done|]. exists (x :: rs'). split; [done|]. constructor; [|done]. unfold active_row. rewrite Ehd. done.
    + split; [done|]. left. destruct H2 as [[= ->]|(? & ? & _)]; done.
  - split; [done|]. left. destruct H1 as [[= ->]|(? & ? & _)]; done.
Qed.

(** The list of the active latches is complete. *)
Lemma conflictLatches_total a (s : K) r s' : conflict_inv (kv s) -> ofArchive (kv s) a -> ArchiveID_IsZero a = false -> conflictLatches a s = (r, s') ->
  kv s' = kv s /\ (r = Err EIO \/ exists rs, r = Ok rs /\ forall h x, activeOf (kv s) a h = Some x <-> x ∈ rs /\ cr_Head x = h).
Proof.
  intros Hi Ha Hz. unfold conflictLatches. rewrite Hz. cbv zeta.
  intros [([l e] & s1 & [E Hs]%kv_scan_spec & H)|(e & [E ->]%kv_scan_spec & ->)]%bind_run; [|by auto].
  set (pre := sourceArchivePrefix keySourceConflictActive a) in *.
  assert (Hin : forall k v, (k, v) ∈ l -> kv s !! k = Some v /\ pre `prefix_of` k).
  { intros k v Hkv. destruct e; destruct Hs as [_ Hs]; apply Hs in Hkv as [? Hr]; (split; [done|]); by apply keyUpperBound_prefix. }
  assert (Hall : e = None -> forall h v, kv s !! nsKey NsActive a h = Some v -> (nsKey NsActive a h, v) ∈ l).
  { intros -> h v Hv. destruct Hs as [_ Hs]. apply Hs. split; [done|]. apply keyUpperBound_prefix. unfold nsKey, conflictStateKey. by apply prefix_app_r. }
  assert (He : forall x, e = Some x -> x = EIO) by (intros x ->; by destruct Hs). clear Hs.
  destruct (markerOf (kv s)) as [mk|] eqn:Hm.
  - pose proof (Ha mk Hm) as Ea. subst a. assert (Hl : Forall (fun x => exists h, x.1 = nsKey NsActive (sm_archiveID mk) h /\ kv s !! x.1 = Some x.2) l).
    { apply Forall_forall. intros [k v] [Hv Hp]%Hin. assert (Hpk : key (nsPrefix NsActive) `prefix_of` k) by (etransitivity; [|exact Hp]; by apply prefix_app_r).
      destruct (ci_keys _ Hi NsActive k v Hpk Hv) as (mk' & h & Hm' & _ & _ & ->). assert (mk' = mk) as -> by congruence. by exists h. }
    rewrite <- E in Hi, Hm, Hl. apply bind_run in H as [(rs & s2 & H1 & H)|(e' & H1 & ->)]; eapply latchRows_total in H1 as [E1 H1]; try done; rewrite E in *.
    + destruct e as [e|]; injection H as <- <-; [by rewrite (He e) by done; auto|]. split; [done|]. right. destruct H1 as [?|(rs' & Hrs & HF)]; [done|]. injection Hrs as <-. exists rs.
      split; [done|]. intros h x. split.
      * intros Hx. destruct (active_identity _ _ _ _ Hi Hm Hx) as (_ & _ & _ & Eh). split; [|done]. pose proof Hx as Hx'. unfold activeOf, at_key in Hx'.
        destruct (kv s !! nsKey NsActive (sm_archiveID mk) h) as [v|] eqn:Ev; [|done]. apply Hall in Ev; [|done]. apply list_elem_of_lookup_1 in Ev as [i Ei].
        destruct (Forall2_lookup_l _ _ _ _ _ HF Ei) as (y & Hy & Hk & Hact). cbn [fst] in Hk. apply nsKey_inj in Hk as [_ Hk]. rewrite <- Hk in Hact.
        assert (y = x) as -> by congruence. by eapply list_elem_of_lookup_2.
      * intros [Hx <-]. apply list_elem_of_lookup_1 in Hx as [i Ei]. by destruct (Forall2_lookup_r _ _ _ _ _ HF Ei) as (y & _ & _ & Hact).
    + split; [done|]. left. destruct H1 as [?|(? & ? & _)]; congruence.
  - assert (Hno : forall h, kv s !! nsKey NsActive a h = None).
    { intros h. destruct (kv s !! nsKey NsActive a h) as [v|] eqn:Ev; [|done]. destruct (ci_keys _ Hi NsActive _ v (nsKey_prefix _ _ _) Ev) as (mk & _ & Hm' & _). congruence. }
    assert (l = []) as ->.
    { destruct l as [|[k v] l]; [done|]. destruct (Hin k v) as [Hv Hp]; [by left|]. assert (Hpk : key (nsPrefix NsActive) `prefix_of` k) by (etransitivity; [|exact Hp]; by apply prefix_app_r).
      destruct (ci_keys _ Hi NsActive k v Hpk Hv) as (mk' & h & Hm' & _). congruence. }
    cbn [latchRows] in H. unfold bind, ret in H. destruct e as [e|]; injection H as <- <-; [by rewrite (He e) by done; auto|]. split; [done|]. right. exists [].
    split; [done|]. intros h x. unfold activeOf. rewrite at_key_none by done. split; [done|]. by intros [?%elem_of_nil _].
Qed.

(** ** Loading *)

Lemma collect_ok heads kinds mk (cs : gmap string ConflictRecord) rs :
  Forall (fun r => (exists m, mk = Some m /\ validateConflictRecordAgainstMarker r m = Ok tt) /\ (cr_Head r ∈ heads -> expectedKind kinds (cr_Head r) = FinalizedMonotonic)) rs ->
  exists cs', collectLatches heads kinds mk cs rs = Ok cs' /\
    (forall h r, cs' !! h = Some r -> cs !! h = Some r \/ r ∈ rs /\ cr_Head r = h /\ h ∈ heads) /\
    (forall h, is_Some (cs !! h) \/ (exists r, r ∈ rs /\ cr_Head r = h /\ h ∈ heads) -> is_Some (cs' !! h)).
Proof.
  intros H. revert cs. induction H as [|r rs [(m & -> & Hv) Hk] _ IH]; intros cs; cbn [collectLatches].
  { exists cs. split; [done|]. split; [by left|]. intros h [?|(r & ?%elem_of_nil & _)]; done. }
  unfold validateConflictRecordAgainstMarker in Hv. cbv zeta. change (default _ (Some m)) with m. destruct (_ || _); [done|]. case_bool_decide as Hh.
  - rewrite Hk by done. rewrite bool_decide_eq_true_2 by done. cbn [negb]. destruct (IH (<[cr_Head r := r]> cs)) as (cs' & Hc & H1 & H2). exists cs'. split; [done|]. split.
    + intros h x [Hx|(? & ? & ?)]%H1; [|right; by split; [right|]]. destruct (decide (h = cr_Head r)) as [->|].
      * rewrite lookup_insert_eq in Hx. injection Hx as <-. right. by split; [left|].
      * rewrite lookup_insert_ne in Hx by done. by left.
    + intros h Hx. apply H2. destruct (decide (h = cr_Head r)) as [->|]; [left; rewrite lookup_insert_eq; eauto|]. rewrite lookup_insert_ne by done.
      destruct Hx as [?|(x & [->|?]%elem_of_cons & ? & ?)]; [by left|done|right; eauto].
  - destruct (IH cs) as (cs' & Hc & H1 & H2). exists cs'. split; [done|]. split.
    + intros h x [Hx|(? & ? & ?)]%H1; [by left|right; by split; [right|]].
    + intros h Hx. apply H2. destruct Hx as [?|(x & [->|?]%elem_of_cons & ? & ?)]; [by left|congruence|right; eauto].
Qed.

#[local] Hint Resolve kv_scan_reads marker_reads : moves.
Lemma validate_reads a : moves sameKV (validateConflictState a).
Proof. unfold validateConflictState, scanConflictNamespace. moves_tac. Qed.

Definition latches_finalized (m : KV) (a : ArchiveID) (heads : gset string) (kinds : gmap string HeadKind) : Prop :=
  forall h r, h ∈ heads -> activeOf m a h = Some r -> expectedKind kinds h = FinalizedMonotonic.

Lemma load_total a heads kinds (s : K) r s' : conflict_inv (kv s) -> ofArchive (kv s) a -> ArchiveID_IsZero a = false -> latches_finalized (kv s) a heads kinds ->
  loadConflictLatches a heads kinds s = (r, s') ->
  r = Err EIO \/ exists cs, r = Ok cs /\ forall h, cs !! h = if decide (h ∈ heads) then activeOf (kv s) a h else None.
Proof.
  intros Hi Ha Hz Hfin. unfold loadConflictLatches. intros [([] & s1 & H1 & H)|(e & H1 & ->)]%bind_run; pose proof (reads_kv _ _ _ _ (validate_reads a) H1) as E1;
    apply validate_accepts in H1; try done; [|destruct H1 as [?|?]; [done|left; congruence]].
  rewrite <- E1 in *. clear E1 H1. unfold readSourceSetMarker in H.
  apply bind_run in H as [(o & s2 & H1 & H)|(e & H1 & ->)]; (eapply readWith_total in H1 as [E1 H1]; [|exact (ci_marker _ Hi)]); destruct H1 as [H1|H1]; try discriminate H1; [|left; congruence].
  injection H1 as ->. change (at_key _ _ _) with (markerOf (kv s1)) in H. rewrite <- E1 in *. clear E1.
  apply bind_run in H as [(rs & s3 & H1 & H)|(e & H1 & ->)]; eapply conflictLatches_total in H1 as [E1 H1]; try done; destruct H1 as [H1|(rs' & H1 & Hrs)]; try discriminate H1; [|left; congruence].
  injection H1 as <-. assert (Hcov : forall x, x ∈ rs -> exists m, markerOf (kv s2) = Some m /\ latchAware a m = true /\ validateConflictRecordAgainstMarker x m = Ok tt).
  { intros x Hx. assert (Hact : activeOf (kv s2) a (cr_Head x) = Some x) by (by apply Hrs). destruct (markerOf (kv s2)) as [m|] eqn:Hm.
    - exists m. split; [done|]. pose proof (Ha m Hm) as <-. split; [by eapply active_identity|by eapply active_covered].
    - exfalso. unfold activeOf, at_key in Hact. destruct (kv s2 !! nsKey NsActive a (cr_Head x)) as [v|] eqn:Ev; [|done].
      destruct (ci_keys _ Hi NsActive _ v (nsKey_prefix _ _ _) Ev) as (mk & _ & Hm' & _). congruence. }
  destruct (negb (length rs =? 0)%nat && _) eqn:Eg.
  { exfalso. apply andb_true_iff in Eg as [El Em]. destruct rs as [|x rs]; [done|]. destruct (Hcov x) as (m & Hm & Haw & _); [by left|]. rewrite Hm, Haw in Em. done. }
  destruct (collect_ok heads kinds (markerOf (kv s2)) ∅ rs) as (cs & Hc & C1 & C2).
  { apply Forall_forall. intros x Hx. split; [destruct (Hcov x Hx) as (m & ? & _ & ?); eauto|]. intros Hh. eapply Hfin; [done|]. by apply Hrs. }
  unfold lift in H. rewrite Hc in H. injection H as <- <-. right. exists cs. split; [done|]. intros h. destruct (cs !! h) as [x|] eqn:Ex.
  - apply C1 in Ex as [Ex|(Hx & Eh & Hh)]; [done|]. rewrite decide_True by done. symmetry. by apply Hrs.
  - destruct (decide (h ∈ heads)) as [Hh|]; [|done]. destruct (activeOf (kv s2) a h) as [x|] eqn:Eact; [|done]. apply Hrs in Eact as [Hx Eh].
    destruct (C2 h) as [y Hy]; [right; by exists x|congruence].
Qed.

(** ** The properties *)

(** C9: A frozen head stays frozen over restarts.  A store that began without rows of the
    source set and saw any sequence of activations, admissions, observations, latches
    and clears, whether they succeeded, were refused or failed in the store, passes the
    validation of its conflict state when it is opened for its archive with latched heads
    still followed as finalized, unless it cannot be read; and what is loaded holds exactly
    the followed heads whose latch is active, with their records. *)
Theorem restart_loads_latches ops (s : K) a heads kinds r s' : noSourceRows (kv s) -> Forall cop_ok ops -> ArchiveID_IsZero a = false ->
  let s1 := runConflicts ops s in ofArchive (kv s1) a -> latches_finalized (kv s1) a heads kinds -> loadConflictLatches a heads kinds s1 = (r, s') ->
  r = Err EIO \/ exists cs, r = Ok cs /\ forall h, cs !! h = if decide (h ∈ heads) then activeOf (kv s1) a h else None.
Proof. intros Hno Hops Hz s1 Ha Hfin. apply load_total; [|done..]. by apply (ls_inv _ _ _ (cops_step ops s Hops)), noSource_inv. Qed.

(** C8: A latch goes away only by evidence.  Over any sequence of operations the record of
    an active latch stays as it is unless one of them is a clear that names its archive,
    its head and the ID of its evidence; and the occurrence number of a head is never
    lowered or lost, so a later latch of the head has another evidence. *)
Theorem latch_cleared_only_by_evidence ops (s : K) : Forall cop_ok ops ->
  (forall a h r, activeOf (kv s) a h = Some r -> activeOf (kv (runConflicts ops s)) a h = Some r \/
     exists q, CClear q ∈ ops /\ cq_ArchiveID q = a /\ cq_Head q = h /\ cq_EvidenceID q = cr_EvidenceID r) /\
  (forall a h n, occurrenceOf (kv s) a h = Some n -> exists n', occurrenceOf (kv (runConflicts ops s)) a h = Some n' /\ n <= n').
Proof. intros H. destruct (cops_step ops s H) as [_ _ HA HO]. by split. Qed.

(** A conflict is reported only once it is durable: when the cut of a poll succeeds,
    every request has an active latch in the store that holds the request in canonical
    order, whether it was there before or is new; a cut that fails leaves the latches
    there were. *)
Theorem persisted_latches_active a sources adm pending (s : K) r s' : admissions_fit adm -> pending_fit pending -> persistLatches a sources adm pending s = (r, s') ->
  (forall b h x, activeOf (kv s) b h = Some x -> activeOf (kv s') b h = Some x) /\
  forall staged, r = Ok staged -> Forall2 (fun p x => NewConflictLatchRequest (pd_request p) = Ok (recordInput x.1) /\ activeOf (kv s') (cr_ArchiveID x.1) (cr_Head x.1) = Some x.1) pending staged.
Proof. intros Ha Hp H. destruct (persist_run a sources adm pending s r s' Ha Hp H) as [HG HS]. split; [|done]. apply (lk_active _ _ (gs_latch _ _ HG)). Qed.

(** A clear that succeeds ends the occurrence it names: the evidence was that of the
    active latch, the head has no active latch after it, its occurrence number stays, and
    the newest entry of the clear history is the returned record, which has the number and
    the evidence of the latch; no other head's rows change.  A clear that is refused or
    fails either did all of this or nothing. *)
Theorem clear_ends_occurrence q (s : K) r s' : Unix (cq_ClearedAt q) < 2 ^ 63 -> ClearConflictLatch q s = (r, s') ->
  kv s' = kv s /\ is_ok r = false \/
  exists act rc l, let a := cq_ArchiveID q in let h := cq_Head q in
    activeOf (kv s) a h = Some act /\ cr_EvidenceID act = cq_EvidenceID q /\ activeOf (kv s') a h = None /\ occurrenceOf (kv s') a h = Some (cr_Sequence act) /\
    historyOf (kv s') a h = Some l /\ last l = Some rc /\ cc_Sequence rc = cr_Sequence act /\ cc_EvidenceID rc = cr_EvidenceID act /\ (r = Ok rc \/ is_ok r = false) /\
    (forall b g, g <> h -> rowsAt (kv s') b g = rowsAt (kv s) b g).
Proof.
  intros Ht H. apply clear_run in H; [|done]. destruct H as [?|(act & mk & v & l & rc & P)]; [by left|]. right. exists act, rc, l. cbv zeta in *.
  destruct P as (P1 & P2 & P3 & P4 & P5 & P6 & E & P7 & P8 & P9 & P10). destruct (occurrence_pos _ _ _ _ P3) as [Hn Hu].
  destruct (clear_rows (kv s) _ _ _ v l Hn Hu P7) as (R1 & R2 & R3 & R4). rewrite <- E in R1, R2, R3, R4. split_and!; try done; try (by rewrite P9).
  - unfold activeOf. by apply at_key_none.
  - intros b g Hg. apply rowsAt_same. intros ns. apply R4; intros Ek; pose proof (nsKey_ns _ _ _ _ _ _ Ek) as ->; by apply nsKey_inj in Ek as [_ ?].
Qed.

(** C10: The bindings and the roster of a source set are never undone.  After any sequence of
    activations, admissions, observations, latches, clears and operations of the
    single-source memory, whether they succeed, are refused or fail in the store: every
    source ID and every publication key is bound as before, IDs and keys that named each
    other in pairs still do, and no key has two source IDs even if rows of the reverse
    direction had been lost; the marker keeps its archive, its revision only grows and at
    one revision keeps its digest, and no store feature is dropped; no publication floor of
    any source is lowered, and at one revision it keeps its digest. *)
Theorem source_set_never_undone ops (s : K) : Forall cop_ok ops -> let m := kv s in let m' := kv (runConflicts ops s) in
  (forall ref b, bindingOf m ref = Some b -> bindingOf m' ref = Some b) /\
  (forall a p i, signerOf m a p = Some i -> signerOf m' a p = Some i) /\
  (paired m -> paired m') /\ (injective m -> injective m') /\
  (forall mk, markerOf m = Some mk -> exists mk', markerOf m' = Some mk' /\ marker_le mk mk') /\
  (forall ref f, sourceFloorOf m ref = Some f -> exists f', sourceFloorOf m' ref = Some f' /\ raisesTo f f').
Proof.
  intros H m m'. pose proof (ls_source _ _ _ (cops_step ops s H)) as Hs. split; [intros ref b; by apply bindingOf_kept|].
  split; [intros a p i; by apply signerOf_kept|]. split_and!; apply Hs.
Qed.
End ConflictRestart.
