(* ===== verification/Replica.v ===== *)
(** The retention controller of a replica: replica/generation.go, state.go, controller.go.

    A replica keeps its archive in a Kubo node it does not own.  A generation of heads is
    one small anchor block that links their roots; the anchor is pinned recursively before
    the follower commits its checkpoint, and only anchors the durable ledger says are the
    controller's own are ever unpinned.  The [Backend] interface of the code is a class
    here; telemetry and the mutex are left out, so a call is one run over the key-value
    store and the node. *)
From Stdlib Require Strings.Byte.
From Stdlib Require String.
From S2P Require Import Prelude Cid Schema Core Engine Ledger Json JsonDecode Publication.

(** [cid.Parse] of a text; the text of a CID is ASCII. *)
Class CidParse `{MH : Multihash} `{CT : !CidText} : Type := {
  cid_Parse : string -> option CidV;
  Parse_String : forall c, cid_Parse (cid_String c) = Some c;
  String_valid : forall c, validString (cid_String c) = true }.

(** ** Generations *)

Definition generationVersion : Z := 1.
Definition maxReplicaIDBytes : nat := 64.
Definition maxHeadNameBytes : nat := 128.
Definition maxGenerationHeads : nat := 64.

Section Generation.
Context `{MH : Multihash} `{CB : !DagCbor}.

Record RHead : Type := mkRHead { rh_Name : string; rh_Root : Cid; rh_Manifest : Cid; rh_SyncedTo : Z }.
Record RGeneration : Type := mkRGeneration { rg_ReplicaID : string; rg_UpdatedAt : Time; rg_Heads : list RHead }.
#[global] Instance RHead_eq_dec : EqDecision RHead.
Proof. solve_decision. Defined.
#[global] Instance RGeneration_eq_dec : EqDecision RGeneration.
Proof. solve_decision. Defined.

(** [^\[a-z0-9\](?:\[a-z0-9._-\]{0,62}\[a-z0-9\])?$] *)
Definition alnum (b : byte) : bool := inRange 97 122 b || inRange 48 57 b.
Definition replicaChar (b : byte) : bool := alnum b || bool_decide (b ∈ string_bytes "._-").
Definition replicaIDPattern (s : string) : bool :=
  let l := string_bytes s in
  forallb replicaChar l && (length l <=? 64)%nat && match l with [] => false | b :: _ => alnum b end && match last l with Some b => alnum b | None => false end.
Definition ValidateReplicaID (s : string) : res unit :=
  refuse_if (length (string_bytes s) =? 0)%nat || (maxReplicaIDBytes <? length (string_bytes s))%nat || negb (replicaIDPattern s) with EInvalid "replica ID" ;; Ok tt.

Definition head_le (a b : RHead) : Prop := bytes_ltb (string_bytes (rh_Name b)) (string_bytes (rh_Name a)) = false.
#[global] Instance head_le_dec : RelDecision head_le.
Proof. intros a b. unfold head_le. apply _. Defined.

Fixpoint checkHeads (prior : option string) (l : list RHead) : res unit :=
  match l with
  | [] => Ok tt
  | h :: rest =>
    refuse_if bool_decide (rh_Name h = EmptyString) || (maxHeadNameBytes <? length (string_bytes (rh_Name h)))%nat
      || bool_decide (Byte.x00 ∈ string_bytes (rh_Name h)) with EInvalid "head name" ;;
    refuse_if bool_decide (prior = Some (rh_Name h)) with EInvalid "generation repeats a head" ;;
    refuse_if negb (Defined (rh_Root h)) with EInvalid "head has an undefined root" ;;
    refuse_if maxInt64 <? rh_SyncedTo h with EInvalid "synced_to exceeds DAG-CBOR's integer range" ;;
    checkHeads (Some (rh_Name h)) rest
  end.

(** [t.UTC().Truncate(time.Second)], at or after the epoch. *)
Definition truncSecond (t : Time) : Time := time_Unix (Unix t).

Definition Normalize (g : RGeneration) : res RGeneration :=
  _ <-? ValidateReplicaID (rg_ReplicaID g) ;;
  refuse_if IsZero (rg_UpdatedAt g) || (Unix (rg_UpdatedAt g) <? 0) with EInvalid "updated_at must be on or after the Unix epoch" ;;
  refuse_if (maxGenerationHeads <? length (rg_Heads g))%nat with EInvalid "too many heads" ;;
  let heads := merge_sort head_le (rg_Heads g) in
  _ <-? checkHeads None heads ;;
  Ok (mkRGeneration (rg_ReplicaID g) (truncSecond (rg_UpdatedAt g)) heads).

Definition rheadNode (h : RHead) : Node :=
  NMap ([("name", NString (rh_Name h)); ("root", nullableLink (rh_Root h)); ("synced_to", NInt (rh_SyncedTo h))]%string
        ++ match rh_Manifest h with Some m => [("manifest"%string, NLink m)] | None => [] end).
Definition generationNode (g : RGeneration) : Node :=
  NMap [("v", NInt generationVersion); ("replica", NString (rg_ReplicaID g)); ("updated_at", NInt (Unix (rg_UpdatedAt g)));
        ("heads", NList (map rheadNode (rg_Heads g)))]%string.

(** The anchor: its bytes and its CID. *)
Definition Block (g : RGeneration) : res (bytes * CidV) :=
  normalized <-? Normalize g ;;
  match cbor_encode (generationNode normalized) with
  | None => Err (EInvalid "encoding generation anchor")
  | Some data => match prefix_sum nodePrefix data with Some c => Ok (data, c) | None => Err (EInvalid "hashing generation anchor") end
  end.

Definition Equal (g other : RGeneration) : bool :=
  match Normalize g, Normalize other with
  | Ok a, Ok b => bool_decide (a = b)
  | _, _ => false
  end.

Definition generationContains (g : RGeneration) (want : RHead) : bool := existsb (fun h => bool_decide (h = want)) (rg_Heads g).
Definition sameRoots (h want : RHead) : bool :=
  bool_decide (rh_Name h = rh_Name want) && bool_decide (rh_Root h = rh_Root want) && bool_decide (rh_Manifest h = rh_Manifest want).
Definition generationProtectsAll (g : RGeneration) (wants : list RHead) : bool :=
  (length (rg_Heads g) =? length wants)%nat && forallb (fun want => existsb (fun h => sameRoots h want) (rg_Heads g)) wants.
End Generation.

(** ** The durable ledger *)

Definition stateVersion : Z := 1.
Definition maxStateBytes : nat := 256 * 1024.
Definition stateKey : bytes := string_bytes "rkubo-replica:v1".
Definition OwnershipOwned : string := "owned".
Definition OwnershipBorrowed : string := "borrowed".

Record diskHead : Type := mkDiskHead { dh_Name : string; dh_Root : string; dh_Manifest : string; dh_SyncedTo : Z }.
Record diskGeneration : Type := mkDiskGeneration { dg_ReplicaID : string; dg_UpdatedAt : Z; dg_Heads : list diskHead }.
Record diskRetained : Type := mkDiskRetained { dr_Generation : diskGeneration; dr_Anchor : string; dr_Ownership : string; dr_At : Z }.
Record diskState : Type := mkDiskState { ds_Version : Z; ds_Current : option diskRetained; ds_Pending : option diskRetained; ds_Cleanup : list diskRetained }.

Definition headJson (h : diskHead) : json :=
  JObj ([("name", JStr (dh_Name h)); ("root", JStr (dh_Root h))]%string ++ omitempty "manifest" (nonempty (dh_Manifest h)) ++ [("synced_to"%string, JNum (dh_SyncedTo h))]).
Definition diskGenerationJson (g : diskGeneration) : json :=
  JObj [("replica_id", JStr (dg_ReplicaID g)); ("updated_at", JNum (dg_UpdatedAt g)); ("heads", JArr (map headJson (dg_Heads g)))]%string.
Definition retainedJson (r : diskRetained) : json :=
  JObj [("generation", diskGenerationJson (dr_Generation r)); ("anchor", JStr (dr_Anchor r)); ("ownership", JStr (dr_Ownership r)); ("at", JNum (dr_At r))]%string.
Definition stateJson (s : diskState) : json :=
  JObj ([("version"%string, JNum (ds_Version s))] ++ omitempty "current" (retainedJson <$> ds_Current s) ++ omitempty "pending" (retainedJson <$> ds_Pending s)
        ++ omitempty "cleanup" (match ds_Cleanup s with [] => None | l => Some (JArr (map retainedJson l)) end)).

(** A pointer to a struct: null clears it, an object is decoded into what is there. *)
Definition onPtr {A : Type} (dec : jtok -> A -> option A) (zero : A) (t : jtok) (old : option A) : option (option A) :=
  match t with TNull => Some None | _ => Some <$> dec t (default zero old) end.
(** A slice: an array given again is decoded into the elements that are there. *)
Fixpoint onElems {A : Type} (dec : jtok -> A -> option A) (zero : A) (l : list jtok) (old : list A) : option (list A) :=
  match l with
  | [] => Some []
  | t :: l' => x ← dec t (hd zero old); rest ← onElems dec zero l' (tl old); Some (x :: rest)
  end.
Definition onSlice {A : Type} (dec : jtok -> A -> option A) (zero : A) (t : jtok) (old : list A) : option (list A) :=
  match t with TNull => Some [] | TArr l => onElems dec zero l old | _ => None end.

Definition zeroDiskHead : diskHead := mkDiskHead "" "" "" 0.
Definition zeroDiskGeneration : diskGeneration := mkDiskGeneration "" 0 [].
Definition zeroDiskRetained : diskRetained := mkDiskRetained zeroDiskGeneration "" "" 0.
Definition zeroDiskState : diskState := mkDiskState 0 None None [].

Definition headFields : list (string * (jtok -> diskHead -> option diskHead)) :=
  [("name", fun t h => x ← onString t (dh_Name h); Some (mkDiskHead x (dh_Root h) (dh_Manifest h) (dh_SyncedTo h)));
   ("root", fun t h => x ← onString t (dh_Root h); Some (mkDiskHead (dh_Name h) x (dh_Manifest h) (dh_SyncedTo h)));
   ("manifest", fun t h => x ← onString t (dh_Manifest h); Some (mkDiskHead (dh_Name h) (dh_Root h) x (dh_SyncedTo h)));
   ("synced_to", fun t h => x ← onUint64 t (dh_SyncedTo h); Some (mkDiskHead (dh_Name h) (dh_Root h) (dh_Manifest h) x))]%string.
Definition diskGenerationFields : list (string * (jtok -> diskGeneration -> option diskGeneration)) :=
  [("replica_id", fun t g => x ← onString t (dg_ReplicaID g); Some (mkDiskGeneration x (dg_UpdatedAt g) (dg_Heads g)));
   ("updated_at", fun t g => x ← onInt t (dg_UpdatedAt g); Some (mkDiskGeneration (dg_ReplicaID g) x (dg_Heads g)));
   ("heads", fun t g => x ← onSlice (decodeStruct headFields true) zeroDiskHead t (dg_Heads g); Some (mkDiskGeneration (dg_ReplicaID g) (dg_UpdatedAt g) x))]%string.
Definition retainedFields : list (string * (jtok -> diskRetained -> option diskRetained)) :=
  [("generation", fun t r => x ← decodeStruct diskGenerationFields true t (dr_Generation r); Some (mkDiskRetained x (dr_Anchor r) (dr_Ownership r) (dr_At r)));
   ("anchor", fun t r => x ← onString t (dr_Anchor r); Some (mkDiskRetained (dr_Generation r) x (dr_Ownership r) (dr_At r)));
   ("ownership", fun t r => x ← onString t (dr_Ownership r); Some (mkDiskRetained (dr_Generation r) (dr_Anchor r) x (dr_At r)));
   ("at", fun t r => x ← onInt t (dr_At r); Some (mkDiskRetained (dr_Generation r) (dr_Anchor r) (dr_Ownership r) x))]%string.
Definition stateFields : list (string * (jtok -> diskState -> option diskState)) :=
  [("version", fun t s => x ← onInt t (ds_Version s); Some (mkDiskState x (ds_Current s) (ds_Pending s) (ds_Cleanup s)));
   ("current", fun t s => x ← onPtr (decodeStruct retainedFields true) zeroDiskRetained t (ds_Current s); Some (mkDiskState (ds_Version s) x (ds_Pending s) (ds_Cleanup s)));
   ("pending", fun t s => x ← onPtr (decodeStruct retainedFields true) zeroDiskRetained t (ds_Pending s); Some (mkDiskState (ds_Version s) (ds_Current s) x (ds_Cleanup s)));
   ("cleanup", fun t s => x ← onSlice (decodeStruct retainedFields true) zeroDiskRetained t (ds_Cleanup s); Some (mkDiskState (ds_Version s) (ds_Current s) (ds_Pending s) x))]%string.

Section Ledger.
Context `{MH : Multihash} `{CB : !DagCbor} `{CT : !CidText} `{CP : !CidParse} {K : Type} `{PB : !Pebble K}.

Record retainedGeneration : Type := mkRetained { rt_Generation : RGeneration; rt_Anchor : CidV; rt_Ownership : string; rt_At : Time }.
Record controllerState : Type := mkState { st_Current : option retainedGeneration; st_Pending : option retainedGeneration; st_Cleanup : list retainedGeneration }.

Definition owned (r : retainedGeneration) : bool := bool_decide (rt_Ownership r = OwnershipOwned).
Definition borrowed (r : retainedGeneration) : bool := bool_decide (rt_Ownership r = OwnershipBorrowed).

(** A root is defined here, an undefined manifest is left empty. *)
Definition textOf (c : Cid) : string := match c with Some c => cid_String c | None => EmptyString end.
Definition rheadToDisk (h : RHead) : diskHead :=
  mkDiskHead (rh_Name h) (textOf (rh_Root h)) (textOf (rh_Manifest h)) (rh_SyncedTo h).

Definition retainedToDisk (value : retainedGeneration) : res diskRetained :=
  generation <-? Normalize (rt_Generation value) ;;
  block <-? Block generation ;;
  refuse_if negb (bool_decide (rt_Anchor value = snd block)) with EInvalid "anchor does not match its canonical generation" ;;
  refuse_if negb (owned value) && negb (borrowed value) with EInvalid "invalid ownership" ;;
  refuse_if IsZero (rt_At value) || (Unix (rt_At value) <? 0) with EInvalid "timestamp must be on or after the Unix epoch" ;;
  Ok (mkDiskRetained (mkDiskGeneration (rg_ReplicaID generation) (Unix (rg_UpdatedAt generation)) (map rheadToDisk (rg_Heads generation)))
        (cid_String (rt_Anchor value)) (rt_Ownership value) (Unix (truncSecond (rt_At value)))).

Definition parsed (s : string) : res CidV := match cid_Parse s with Some c => Ok c | None => Err (EInvalid "invalid CID") end.
Definition rheadFromDisk (h : diskHead) : res RHead :=
  root <-? parsed (dh_Root h) ;;
  manifest <-? (if bool_decide (dh_Manifest h = EmptyString) then Ok None else c <-? parsed (dh_Manifest h) ;; Ok (Some c)) ;;
  Ok (mkRHead (dh_Name h) (Some root) manifest (dh_SyncedTo h)).

Definition retainedFromDisk (value : diskRetained) : res retainedGeneration :=
  anchor <-? parsed (dr_Anchor value) ;;
  heads <-? rmap rheadFromDisk (dg_Heads (dr_Generation value)) ;;
  normalized <-? Normalize (mkRGeneration (dg_ReplicaID (dr_Generation value)) (time_Unix (dg_UpdatedAt (dr_Generation value))) heads) ;;
  block <-? Block normalized ;;
  refuse_if negb (bool_decide (anchor = snd block)) with EInvalid "anchor CID does not match canonical generation" ;;
  refuse_if negb (bool_decide (dr_Ownership value = OwnershipOwned)) && negb (bool_decide (dr_Ownership value = OwnershipBorrowed)) with EInvalid "invalid ownership" ;;
  refuse_if dr_At value <? 0 with EInvalid "negative retained timestamp" ;;
  Ok (mkRetained normalized anchor (dr_Ownership value) (time_Unix (dr_At value))).

(** [seen] is the anchors met. *)
Fixpoint checkCleanup (seen : list CidV) (l : list retainedGeneration) : res unit :=
  match l with
  | [] => Ok tt
  | r :: rest =>
    refuse_if negb (owned r) with EInvalid "cleanup generation is not owned" ;;
    refuse_if bool_decide (rt_Anchor r ∈ seen) with EInvalid "controller state repeats an anchor" ;;
    checkCleanup (rt_Anchor r :: seen) rest
  end.
Definition anchorsOf (o : option retainedGeneration) : list CidV := match o with Some r => [rt_Anchor r] | None => [] end.
Definition validateControllerState (st : controllerState) : res unit :=
  refuse_if match st_Pending st with Some p => bool_decide (rt_Anchor p ∈ anchorsOf (st_Current st)) | None => false end
    with EInvalid "controller state repeats an anchor" ;;
  checkCleanup (anchorsOf (st_Pending st) ++ anchorsOf (st_Current st)) (st_Cleanup st).

Definition toDisk (st : controllerState) : res diskState :=
  current <-? match st_Current st with Some r => d <-? retainedToDisk r ;; Ok (Some d) | None => Ok None end ;;
  pending <-? match st_Pending st with Some r => d <-? retainedToDisk r ;; Ok (Some d) | None => Ok None end ;;
  refuse_if (S maxGenerationHeads <? length (st_Cleanup st))%nat with EInvalid "refusing to persist so many cleanup anchors" ;;
  cleanup <-? rmap retainedToDisk (st_Cleanup st) ;;
  Ok (mkDiskState stateVersion current pending cleanup).

Definition saveControllerState (st : controllerState) : M K unit :=
  lift (validateControllerState st) ;;;
  disk <-- lift (toDisk st) ;;
  let encoded := render (stateJson disk) in
  fail_if (maxStateBytes <? length encoded)%nat with EInvalid "encoded controller state over the limit" ;;
  kv_set stateKey encoded.

Definition fromDisk (disk : diskState) : res controllerState :=
  refuse_if negb (ds_Version disk =? stateVersion) with EUnknownVersion "controller state" (ds_Version disk) ;;
  current <-? match ds_Current disk with Some d => r <-? retainedFromDisk d ;; Ok (Some r) | None => Ok None end ;;
  pending <-? match ds_Pending disk with Some d => r <-? retainedFromDisk d ;; Ok (Some r) | None => Ok None end ;;
  refuse_if (S maxGenerationHeads <? length (ds_Cleanup disk))%nat with EInvalid "too many cleanup anchors" ;;
  cleanup <-? rmap retainedFromDisk (ds_Cleanup disk) ;;
  let st := mkState current pending cleanup in
  _ <-? validateControllerState st ;; Ok st.

Definition decodeState (v : bytes) : res controllerState :=
  refuse_if (maxStateBytes <? length v)%nat with EInvalid "controller state over the limit" ;;
  match decodeAll v with
  | None => Err (EInvalid "decoding controller state")
  | Some t =>
    match decodeStruct stateFields true t zeroDiskState with
    | None => Err (EInvalid "decoding controller state")
    | Some disk => fromDisk disk
    end
  end.

Definition loadControllerState : M K controllerState :=
  v <-- kv_get stateKey ;;
  match v with
  | None => ret (mkState None None [])
  | Some v => lift (decodeState v)
  end.
End Ledger.

(** ** The node *)

(** An exact pin of a CID, not one it has through a parent. *)
Record PinStatus : Type := mkPinStatus { ps_Recursive : bool; ps_Name : string }.
#[global] Instance PinStatus_eq_dec : EqDecision PinStatus.
Proof. solve_decision. Defined.

(** The interface [Backend]; an update retains the old pin. *)
Class Backend `{MH : Multihash} (B : Type) : Type := {
  bk_PutBlock : bytes -> CidV -> M B unit;
  bk_PinStatus : CidV -> M B (option PinStatus);
  bk_NamedRecursivePins : string -> M B (list CidV);
  bk_PinAddRecursive : CidV -> string -> M B unit;
  bk_PinUpdateRecursive : CidV -> CidV -> M B unit;
  bk_PinRemoveRecursive : CidV -> M B unit }.

(** What Kubo documents of them: statuses are exact, adding and updating change the pin of
    one CID and removing removes one; a call that fails may have had its effect. *)
Class BackendOk `{MH : Multihash} (B : Type) `{!Backend B} : Type := {
  pins : B -> gmap CidV PinStatus;
  bk_put_spec : forall d c s r s', bk_PutBlock d c s = (r, s') -> pins s' = pins s;
  bk_status_spec : forall c s r s', bk_PinStatus c s = (r, s') -> pins s' = pins s /\ forall o, r = Ok o -> o = pins s !! c;
  bk_named_spec : forall n s r s', bk_NamedRecursivePins n s = (r, s') -> pins s' = pins s /\
    forall l, r = Ok l -> forall c, c ∈ l <-> pins s !! c = Some (mkPinStatus true n);
  bk_add_spec : forall c n s r s', bk_PinAddRecursive c n s = (r, s') ->
    match r with
    | Ok _ => pins s' = <[c := mkPinStatus true n]> (pins s)
    | Err _ => pins s' = pins s \/ pins s' = <[c := mkPinStatus true n]> (pins s)
    end;
  bk_update_spec : forall old next s r s', bk_PinUpdateRecursive old next s = (r, s') ->
    let new := <[next := mkPinStatus true (default EmptyString (ps_Name <$> pins s !! old))]> (pins s) in
    match r with Ok _ => pins s' = new | Err _ => pins s' = pins s \/ pins s' = new end;
  bk_remove_spec : forall c s r s', bk_PinRemoveRecursive c s = (r, s') ->
    match r with Ok _ => pins s' = delete c (pins s) | Err _ => pins s' = pins s \/ pins s' = delete c (pins s) end }.

(** ** The controller *)

Section Controller.
Context `{MH : Multihash} `{CB : !DagCbor} `{CT : !CidText} `{CP : !CidParse} {K : Type} `{PB : !Pebble K} {B : Type} `{BK : !Backend B}.
Local Abbreviation W := (K * B)%type.

Definition onKV {A : Type} (m : M K A) : M W A := fun w => let '(r, k) := m (fst w) in (r, (k, snd w)).
Definition onKubo {A : Type} (m : M B A) : M W A := fun w => let '(r, b) := m (snd w) in (r, (fst w, b)).

Record Controller : Type := mkController { ct_replicaID : string; ct_pinName : string }.

Definition ErrOwnershipDrift : err := EConflict "Kubo pin ownership drift".
Definition ErrGenerationUnprotected : err := EInvalid "generation is not recursively pinned".

Definition stateRetained (st : controllerState) : list retainedGeneration :=
  st_Cleanup st ++ option_list (st_Current st) ++ option_list (st_Pending st).
Definition retainedByAnchor (st : controllerState) (anchor : CidV) : option retainedGeneration :=
  List.find (fun r => bool_decide (rt_Anchor r = anchor)) (option_list (st_Current st) ++ option_list (st_Pending st) ++ st_Cleanup st).

Definition cleanupContains (cleanup : list retainedGeneration) (anchor : CidV) : bool := existsb (fun r => bool_decide (rt_Anchor r = anchor)) cleanup.
Definition appendCleanup (cleanup : list retainedGeneration) (candidate : retainedGeneration) : list retainedGeneration :=
  if cleanupContains cleanup (rt_Anchor candidate) then cleanup else cleanup ++ [candidate].
Definition removeCleanup (cleanup : list retainedGeneration) (anchor : CidV) : list retainedGeneration :=
  filter (fun r => rt_Anchor r <> anchor) cleanup.
Definition isAnchor (anchor : CidV) (o : option retainedGeneration) : bool := match o with Some r => bool_decide (rt_Anchor r = anchor) | None => false end.

Definition candidate (c : Controller) (g : RGeneration) : res (RGeneration * (bytes * CidV)) :=
  normalized <-? Normalize (mkRGeneration (ct_replicaID c) (rg_UpdatedAt g) (rg_Heads g)) ;;
  block <-? Block normalized ;;
  Ok (normalized, block).

Definition loadState (c : Controller) : M W controllerState :=
  st <-- onKV loadControllerState ;;
  fail_if negb (forallb (fun r => bool_decide (rg_ReplicaID (rt_Generation r) = ct_replicaID c)) (stateRetained st))
    with EInvalid "controller state belongs to another replica" ;;
  ret st.

Definition exactly (name : string) (o : option PinStatus) : bool := bool_decide (o = Some (mkPinStatus true name)).
Definition recursive (o : option PinStatus) : bool := match o with Some s => ps_Recursive s | None => false end.

Definition requirePinned (c : Controller) (r : retainedGeneration) : M W unit :=
  status <-- onKubo (bk_PinStatus (rt_Anchor r)) ;;
  fail_if negb (recursive status) with ErrGenerationUnprotected ;;
  fail_if owned r && negb (exactly (ct_pinName c) status) with ErrOwnershipDrift ;;
  ret tt.

(** The entries that stay, and the errors met. *)
Fixpoint drainCleanup (c : Controller) (l : list retainedGeneration) : M W (list retainedGeneration * list err) :=
  match l with
  | [] => ret ([], [])
  | stale :: rest =>
    status <-- attempt (onKubo (bk_PinStatus (rt_Anchor stale))) ;;
    kept <-- (match status with
              | Err e => ret (Some e)
              | Ok status =>
                if negb (exactly (ct_pinName c) status) then ret None else
                removed <-- attempt (onKubo (bk_PinRemoveRecursive (rt_Anchor stale))) ;;
                ret (match removed with Ok _ => None | Err e => Some e end)
              end) ;;
    let* (remaining, errs) := drainCleanup c rest in
    ret (match kept with Some e => (stale :: remaining, e :: errs) | None => (remaining, errs) end)
  end.

(** The joined errors (none is [nil]) and the state after. *)
Definition cleanupLocked (c : Controller) (st : controllerState) : M W (list err * controllerState) :=
  if (length (st_Cleanup st) =? 0)%nat then ret ([], st) else
  let* (remaining, errs) := drainCleanup c (st_Cleanup st) in
  let st := mkState (st_Current st) (st_Pending st) remaining in
  saved <-- attempt (onKV (saveControllerState st)) ;;
  ret (errs ++ match saved with Ok _ => [] | Err e => [e] end, st).

(** The debt of a call that succeeded: nonempty is a [CleanupError]. *)
Definition settle (c : Controller) (st : controllerState) : M W (list err) := let* (errs, _) := cleanupLocked c st in ret errs.

Definition transitionFailure {A : Type} (c : Controller) (st : controllerState) (primary : err) : M W A := cleanupLocked c st ;;; fail primary.
Definition orFail {A : Type} (c : Controller) (st : controllerState) (m : M W A) : M W A :=
  r <-- attempt m ;; match r with Ok a => ret a | Err e => transitionFailure c st e end.

Definition classify (c : Controller) (status : option PinStatus) (known : option retainedGeneration) : res string :=
  match status, known with
  | None, Some k => refuse_if borrowed k with ErrOwnershipDrift ;; Ok (rt_Ownership k)
  | None, None => Ok OwnershipOwned
  | Some s, _ =>
    refuse_if negb (ps_Recursive s) with ErrOwnershipDrift ;;
    match known with
    | Some k => refuse_if owned k && negb (bool_decide (ps_Name s = ct_pinName c)) with ErrOwnershipDrift ;; Ok (rt_Ownership k)
    | None => refuse_if bool_decide (ps_Name s = ct_pinName c) with ErrOwnershipDrift ;; Ok OwnershipBorrowed
    end
  end.

Definition full (st : controllerState) : bool := (S maxGenerationHeads <=? length (st_Cleanup st))%nat.

(** The owned pending generation that the candidate supersedes becomes cleanup debt. *)
Definition supersede (c : Controller) (st : controllerState) (anchor : CidV) : M W controllerState :=
  match st_Pending st with
  | Some p =>
    if negb (bool_decide (rt_Anchor p = anchor)) && owned p then
      let* (_, st) := cleanupLocked c st in
      fail_if full st with EInvalid "cleanup debt has reached its limit" ;;
      ret (mkState (st_Current st) (st_Pending st) (appendCleanup (st_Cleanup st) p))
    else ret st
  | None => ret st
  end.
(** The slot for the current generation that a commit of [anchor] retires. *)
Definition reserve (c : Controller) (st : controllerState) (anchor : CidV) : M W controllerState :=
  match st_Current st with
  | Some cur =>
    if owned cur && negb (bool_decide (rt_Anchor cur = anchor)) && negb (cleanupContains (st_Cleanup st) (rt_Anchor cur)) && full st then
      let* (_, st) := cleanupLocked c st in
      fail_if full st with EInvalid "cleanup debt has reached its limit" ;; ret st
    else ret st
  | None => ret st
  end.

Definition pinCandidate (c : Controller) (st : controllerState) (anchor : CidV) : M W unit :=
  match st_Current st with
  | Some cur =>
    if owned cur then
      status <-- onKubo (bk_PinStatus (rt_Anchor cur)) ;;
      fail_if negb (exactly (ct_pinName c) status) with ErrOwnershipDrift ;;
      orFail c st (onKubo (bk_PinUpdateRecursive (rt_Anchor cur) anchor))
    else orFail c st (onKubo (bk_PinAddRecursive anchor (ct_pinName c)))
  | None => orFail c st (onKubo (bk_PinAddRecursive anchor (ct_pinName c)))
  end.

(** A pending candidate is dropped when authority returns to the committed generation. *)
Definition retirePending (st : controllerState) (anchor : CidV) : M W controllerState :=
  match st_Pending st with
  | Some p =>
    if bool_decide (rt_Anchor p = anchor) then ret st else
    let st := mkState (st_Current st) None (if owned p then appendCleanup (st_Cleanup st) p else st_Cleanup st) in
    onKV (saveControllerState st) ;;; ret st
  | None => ret st
  end.

(** The candidate is pinned, if it was not when it was classified, and verified. *)
Definition protectCandidate (c : Controller) (st : controllerState) (ownership : string) (anchor : CidV) (status : option PinStatus) : M W (list err) :=
  (if recursive status then ret tt else pinCandidate c st anchor) ;;;
  status <-- orFail c st (onKubo (bk_PinStatus anchor)) ;;
  (if recursive status then ret tt else transitionFailure c st ErrGenerationUnprotected) ;;;
  (if bool_decide (ownership = OwnershipOwned) && negb (exactly (ct_pinName c) status) then transitionFailure c st ErrOwnershipDrift else ret tt) ;;;
  settle c st.

Definition prepareCandidate (c : Controller) (now : Time) (st : controllerState) (normalized : RGeneration) (anchor : CidV) : M W (list err) :=
  status <-- onKubo (bk_PinStatus anchor) ;;
  ownership <-- lift (classify c status (retainedByAnchor st anchor)) ;;
  let at_ := match st_Pending st with Some p => if bool_decide (rt_Anchor p = anchor) then rt_At p else truncSecond now | None => truncSecond now end in
  let pending := mkRetained normalized anchor ownership at_ in
  st <-- supersede c st anchor ;;
  st <-- reserve c st anchor ;;
  let st := mkState (st_Current st) (Some pending) (removeCleanup (st_Cleanup st) anchor) in
  onKV (saveControllerState st) ;;;
  protectCandidate c st ownership anchor status.

Definition Prepare (c : Controller) (now : Time) (g : RGeneration) : M W (list err) :=
  onKV kv_ctx ;;;
  let* (normalized, (data, anchor)) := lift (candidate c g) in
  onKubo (bk_PutBlock data anchor) ;;;
  st <-- loadState c ;;
  match st_Current st with
  | Some cur =>
    if bool_decide (rt_Anchor cur = anchor) then
      requirePinned c cur ;;;
      st <-- retirePending st anchor ;;
      settle c st
    else prepareCandidate c now st normalized anchor
  | None => prepareCandidate c now st normalized anchor
  end.

Definition matches (normalized : RGeneration) (anchor : CidV) (o : option retainedGeneration) : bool :=
  match o with Some r => bool_decide (rt_Anchor r = anchor) && Equal (rt_Generation r) normalized | None => false end.

Definition commitPending (c : Controller) (now : Time) (st : controllerState) (pending : retainedGeneration) : M W (list err) :=
  requirePinned c pending ;;;
  st <-- reserve c st (rt_Anchor pending) ;;
  let committed := mkRetained (rt_Generation pending) (rt_Anchor pending) (rt_Ownership pending) (truncSecond now) in
  let cleanup := match st_Current st with
                 | Some previous => if negb (bool_decide (rt_Anchor previous = rt_Anchor committed)) && owned previous
                                    then appendCleanup (st_Cleanup st) previous else st_Cleanup st
                 | None => st_Cleanup st
                 end in
  let st := mkState (Some committed) None cleanup in
  onKV (saveControllerState st) ;;;
  settle c st.

Definition Commit (c : Controller) (now : Time) (g : RGeneration) : M W (list err) :=
  let* (normalized, (_, anchor)) := lift (candidate c g) in
  st <-- loadState c ;;
  if matches normalized anchor (st_Pending st) then
    match st_Pending st with Some p => commitPending c now st p | None => ret [] end
  else
    fail_if negb (matches normalized anchor (st_Current st)) with EInvalid "committing a generation that is not the durable pending candidate" ;;
    settle c st.

Fixpoint firstRetained (c : Controller) (p : retainedGeneration -> bool) (l : list retainedGeneration) : M W RGeneration :=
  match l with
  | [] => fail ErrGenerationUnprotected
  | r :: rest => if p r then requirePinned c r ;;; ret (rt_Generation r) else firstRetained c p rest
  end.
Definition currentThenPending (st : controllerState) : list retainedGeneration := option_list (st_Current st) ++ option_list (st_Pending st).

Definition Protects (c : Controller) (head : RHead) : M W unit :=
  st <-- loadState c ;; firstRetained c (fun r => generationContains (rt_Generation r) head) (currentThenPending st) ;;; ret tt.
Definition ProtectsAll (c : Controller) (heads : list RHead) : M W RGeneration :=
  st <-- loadState c ;; firstRetained c (fun r => generationProtectsAll (rt_Generation r) heads) (currentThenPending st).
Definition AuditGeneration (c : Controller) (g : RGeneration) : M W unit :=
  let* (normalized, (_, anchor)) := lift (candidate c g) in
  st <-- loadState c ;;
  firstRetained c (fun r => matches normalized anchor (Some r)) (currentThenPending st) ;;; ret tt.

(** Two attempts: the second only if another generation was committed meanwhile. *)
Definition AuditCurrent (c : Controller) : M W unit :=
  st <-- loadState c ;;
  match st_Current st with
  | None => fail ErrGenerationUnprotected
  | Some cur =>
    first <-- attempt (requirePinned c cur) ;;
    match first with
    | Ok _ => ret tt
    | Err e =>
      st <-- loadState c ;;
      match st_Current st with
      | None => fail ErrGenerationUnprotected
      | Some again => if bool_decide (rt_Anchor again = rt_Anchor cur) then fail e else requirePinned c again
      end
    end
  end.

Definition Recover (c : Controller) : M W (list err) :=
  st <-- loadState c ;;
  named <-- onKubo (bk_NamedRecursivePins (ct_pinName c)) ;;
  fail_if negb (forallb (fun anchor => existsb (fun r => owned r && bool_decide (rt_Anchor r = anchor)) (stateRetained st)) named) with ErrOwnershipDrift ;;
  (match st_Current st with Some cur => requirePinned c cur | None => ret tt end) ;;;
  (match st_Pending st with
   | Some p => status <-- onKubo (bk_PinStatus (rt_Anchor p)) ;; (match status with Some _ => requirePinned c p | None => ret tt end)
   | None => ret tt
   end) ;;;
  settle c st.

(** What an operator sees: the anchors, the debt and the oldest time in it. *)
Definition Status (c : Controller) : M W (option retainedGeneration * option retainedGeneration * nat * Time) :=
  st <-- loadState c ;;
  let oldest := foldl (fun t r => if IsZero t || (rt_At r <? t) then rt_At r else t) zeroTime (st_Cleanup st) in
  ret (st_Current st, st_Pending st, length (st_Cleanup st), oldest).

(** [Status.ProtectingGeneration], of the generations an operator sees. *)
Definition ProtectingGeneration (current pending : option RGeneration) (head : RHead) : option RGeneration :=
  List.find (fun g => generationContains g head) (option_list current ++ option_list pending).
End Controller.
