(* ===== verification/ReplicaCodec.v ===== *)
(** The durable ledger of the replica controller reads back: normal forms of generations,
    the anchor of a generation, and the JSON record. *)
From Stdlib Require Strings.Byte.
From Stdlib Require String.
From S2P Require Import Prelude Cid Schema Core Engine Ledger Json JsonDecode Publication Replica.

(** ** Normal forms *)

Lemma bytes_ltb_asym a b : bytes_ltb a b = true -> bytes_ltb b a = false.
Proof. intros H. destruct (bytes_ltb b a) eqn:E; [|done]. by rewrite <- (bytes_ltb_irrefl a), (bytes_ltb_trans a b a). Qed.
Lemma bytes_le_trans a b c : bytes_ltb b a = false -> bytes_ltb c b = false -> bytes_ltb c a = false.
Proof.
  intros H1 H2. destruct (bytes_ltb c a) eqn:E; [|done]. destruct (bytes_ltb_total a b) as [H|[->|H]]; [|congruence|congruence].
  by rewrite (bytes_ltb_trans c a b) in H2.
Qed.
Lemma bytes_le_antisym a b : bytes_ltb b a = false -> bytes_ltb a b = false -> a = b.
Proof. intros H1 H2. destruct (bytes_ltb_total a b) as [H|[H|H]]; congruence. Qed.

Section Normal.
Context `{MH : Multihash} `{CB : !DagCbor}.

#[local] Instance head_le_total : Total head_le.
Proof.
  intros a b. unfold head_le. destruct (bytes_ltb_total (string_bytes (rh_Name a)) (string_bytes (rh_Name b))) as [H|[H|H]].
  - left. by apply bytes_ltb_asym.
  - left. rewrite H. apply bytes_ltb_irrefl.
  - right. by apply bytes_ltb_asym.
Qed.
#[local] Instance head_le_trans : Transitive head_le.
Proof. intros a b c. unfold head_le. apply bytes_le_trans. Qed.

(** Sorted heads without adjacent repetition have distinct names. *)
Lemma checkHeads_distinct prior (l : list RHead) : StronglySorted head_le l -> (forall n, prior = Some n -> Forall (fun h => bytes_ltb (string_bytes (rh_Name h)) (string_bytes n) = false) l) ->
  checkHeads prior l = Ok tt -> NoDup (rh_Name <$> l) /\ forall n, prior = Some n -> n ∉ (rh_Name <$> l).
Proof.
  revert prior. induction l as [|h l IH]; intros prior Hs Hp; [intros _; split; [constructor|by intros n _ ?%elem_of_nil]|]. cbn [checkHeads].
  destruct (_ || _); [done|]. case_bool_decide as Hn; [done|]. destruct (negb _); [done|]. destruct (_ <? _); [done|]. intros H.
  apply StronglySorted_cons in Hs as [Hh Hs]. apply IH in H as [Hnd Hni]; [|done|]; cbn [fmap list_fmap].
  - split; [constructor; [by apply Hni|done]|]. intros n ->. rewrite not_elem_of_cons. split; [by intros ->|].
    intros (x & -> & Hx)%list_elem_of_fmap. rewrite Forall_forall in Hh. specialize (Hh x Hx). unfold head_le in Hh.
    specialize (Hp _ eq_refl). apply Forall_cons in Hp as [Hp _]. apply Hn. f_equal. apply string_bytes_inj. by apply bytes_le_antisym.
  - intros n [= <-]. eapply Forall_impl; [exact Hh|]. done.
Qed.

Lemma merge_sort_sorted (l : list RHead) : StronglySorted head_le l -> NoDup (rh_Name <$> l) -> merge_sort head_le l = l.
Proof.
  intros Hs Hn. apply (StronglySorted_unique_strong head_le); [|apply StronglySorted_merge_sort; apply _|done|apply merge_sort_Permutation].
  intros a b Ha Hb Hab Hba. rewrite merge_sort_Permutation in Ha. apply list_elem_of_lookup in Ha as [i Hi], Hb as [j Hj].
  assert (i = j) as ->; [|congruence]. apply (NoDup_lookup (rh_Name <$> l) i j (rh_Name a) Hn); [by rewrite list_lookup_fmap, Hi|].
  rewrite list_lookup_fmap, Hj. cbn. f_equal. apply string_bytes_inj. by apply bytes_le_antisym.
Qed.

Lemma trunc_trunc t : truncSecond (truncSecond t) = truncSecond t.
Proof. unfold truncSecond, time_Unix, Unix. by rewrite Z.div_mul. Qed.
Lemma Unix_trunc t : Unix (truncSecond t) = Unix t.
Proof. unfold truncSecond, time_Unix, Unix. by rewrite Z.div_mul. Qed.

Lemma Normalize_idem g n : Normalize g = Ok n -> Normalize n = Ok n.
Proof.
  unfold Normalize. intros ([] & Hid & H)%rbind_ok. destruct (IsZero _ || _) eqn:Ht; [done|]. destruct (_ <? _)%nat eqn:Hl; [done|]. cbv zeta in H.
  apply rbind_ok in H as ([] & Hc & [= <-]). cbn [rg_ReplicaID rg_UpdatedAt rg_Heads]. rewrite Hid. cbn [rbind]. apply orb_false_iff in Ht as [_ Ht].
  rewrite Unix_trunc, Ht. assert (Hz : IsZero (truncSecond (rg_UpdatedAt g)) = false).
  { unfold IsZero, truncSecond, time_Unix, zeroTime. apply Z.eqb_neq. apply Z.ltb_ge in Ht. lia. }
  rewrite Hz. cbn [orb]. assert (Hp : length (merge_sort head_le (rg_Heads g)) = length (rg_Heads g)) by (by rewrite merge_sort_Permutation). rewrite Hp, Hl.
  assert (Hs : StronglySorted head_le (merge_sort head_le (rg_Heads g))) by (apply StronglySorted_merge_sort; apply _).
  rewrite (merge_sort_sorted (merge_sort head_le (rg_Heads g))); [|done|].
  - cbv zeta. rewrite Hc. cbn [rbind]. by rewrite trunc_trunc.
  - by apply (checkHeads_distinct None).
Qed.

Lemma Equal_normal a b : Normalize a = Ok a -> Normalize b = Ok b -> Equal a b = bool_decide (a = b).
Proof. unfold Equal. by intros -> ->. Qed.
End Normal.

(** ** The JSON record *)

Definition diskHead_fits (h : diskHead) : Prop := is_u64 (dh_SyncedTo h) /\ validString (dh_Name h) = true /\ validString (dh_Root h) = true /\ validString (dh_Manifest h) = true.
Definition is_i64 (z : Z) : Prop := - 2 ^ 63 <= z < 2 ^ 63.
Definition diskRetained_fits (r : diskRetained) : Prop :=
  is_i64 (dr_At r) /\ validString (dr_Anchor r) = true /\ validString (dr_Ownership r) = true /\
  is_i64 (dg_UpdatedAt (dr_Generation r)) /\ validString (dg_ReplicaID (dr_Generation r)) = true /\ Forall diskHead_fits (dg_Heads (dr_Generation r)).
Definition diskState_fits (s : diskState) : Prop :=
  is_i64 (ds_Version s) /\ (forall r, ds_Current s = Some r -> diskRetained_fits r) /\ (forall r, ds_Pending s = Some r -> diskRetained_fits r) /\
  Forall diskRetained_fits (ds_Cleanup s).

Lemma onElems_map {A : Type} (dec : jtok -> A -> option A) zero (f : A -> json) l :
  Forall (fun d => dec (emb (f d)) zero = Some d) l -> onElems dec zero (map emb (map f l)) [] = Some l.
Proof. induction 1 as [|d l Hd _ IH]; [done|]. cbn [map onElems hd tl]. rewrite Hd. cbn [mbind option_bind]. by rewrite IH. Qed.

Lemma decodeHead d : diskHead_fits d -> decodeStruct headFields true (emb (headJson d)) zeroDiskHead = Some d.
Proof.
  intros (Hs & _). destruct d as [n r m z]. cbn [dh_SyncedTo] in Hs. unfold headJson, omitempty, nonempty. cbn [dh_Name dh_Root dh_Manifest dh_SyncedTo].
  destruct (decide (m = EmptyString)) as [->|]; lazy -[parseUint64 decInt]; by rewrite (parseUint64_dec z).
Qed.

Lemma members_step {R : Type} (fs : list (string * (jtok -> R -> option R))) k v ms r f r' :
  findField fs k = Some f -> f v r = Some r' -> decodeMembers fs true ((k, v) :: ms) r = decodeMembers fs true ms r'.
Proof. intros H1 H2. cbn [decodeMembers]. by rewrite H1, H2. Qed.
(** One member of an object, its field found by computation. *)
Ltac member tac := erewrite members_step; [|reflexivity|cbn [snd]; tac; reflexivity].

Lemma decodeDiskGeneration g : is_i64 (dg_UpdatedAt g) -> Forall diskHead_fits (dg_Heads g) ->
  decodeStruct diskGenerationFields true (emb (diskGenerationJson g)) zeroDiskGeneration = Some g.
Proof.
  intros Hu Hh. destruct g as [i u hs]. cbn [dg_UpdatedAt dg_Heads] in *.
  assert (E : onElems (decodeStruct headFields true) zeroDiskHead (map emb (map headJson hs)) [] = Some hs).
  { apply onElems_map. eapply Forall_impl; [exact Hh|]. apply decodeHead. }
  unfold diskGenerationJson. cbn [emb map decodeStruct dg_ReplicaID dg_UpdatedAt dg_Heads].
  member ltac:(idtac). member ltac:(cbn [onInt dg_UpdatedAt ds_Version dr_At]; rewrite (parseInt64_dec u) by done). member ltac:(cbn [onSlice dg_Heads zeroDiskGeneration]; rewrite E). reflexivity.
Qed.

Lemma decodeRetained r : diskRetained_fits r -> decodeStruct retainedFields true (emb (retainedJson r)) zeroDiskRetained = Some r.
Proof.
  intros (Ha & _ & _ & Hu & _ & Hh). pose proof (decodeDiskGeneration (dr_Generation r) Hu Hh) as E. destruct r as [g a o t]. cbn [dr_Generation dr_At] in *.
  unfold retainedJson. cbn [emb map decodeStruct dr_Generation dr_Anchor dr_Ownership dr_At].
  member ltac:(cbn [dr_Generation zeroDiskRetained]; rewrite E). member ltac:(idtac). member ltac:(idtac). member ltac:(cbn [onInt dg_UpdatedAt ds_Version dr_At]; rewrite (parseInt64_dec t) by done). reflexivity.
Qed.

Lemma decodePtr r : diskRetained_fits r -> onPtr (decodeStruct retainedFields true) zeroDiskRetained (emb (retainedJson r)) None = Some (Some r).
Proof. intros H. pose proof (decodeRetained r H) as E. unfold onPtr. cbn [default]. unfold retainedJson in *. cbn [emb] in *. by rewrite E. Qed.

Lemma decodeDiskState s : diskState_fits s -> decodeStruct stateFields true (emb (stateJson s)) zeroDiskState = Some s.
Proof.
  intros (Hv & Hc & Hp & Hl). destruct s as [v c p l]. cbn [ds_Version ds_Current ds_Pending ds_Cleanup] in *.
  assert (E : onElems (decodeStruct retainedFields true) zeroDiskRetained (map emb (map retainedJson l)) [] = Some l).
  { apply onElems_map. eapply Forall_impl; [exact Hl|]. apply decodeRetained. }
  unfold stateJson. cbn [ds_Version ds_Current ds_Pending ds_Cleanup emb decodeStruct]. rewrite !map_app. cbn [map app emb].
  member ltac:(cbn [onInt dg_UpdatedAt ds_Version dr_At]; rewrite (parseInt64_dec v) by done). cbn [zeroDiskState ds_Version ds_Current ds_Pending ds_Cleanup].
  assert (S1 : forall ms, decodeMembers stateFields true (map (fun '(k, j) => (k, emb j)) (omitempty "current" (retainedJson <$> c)) ++ ms) (mkDiskState v None None []) =
               decodeMembers stateFields true ms (mkDiskState v c None [])).
  { intros ms. destruct c as [c|]; [|done]. cbn [fmap option_fmap option_map omitempty map app]. member ltac:(cbn [ds_Current]; rewrite (decodePtr c) by (by apply Hc)). done. }
  assert (S2 : forall ms, decodeMembers stateFields true (map (fun '(k, j) => (k, emb j)) (omitempty "pending" (retainedJson <$> p)) ++ ms) (mkDiskState v c None []) =
               decodeMembers stateFields true ms (mkDiskState v c p [])).
  { intros ms. destruct p as [p|]; [|done]. cbn [fmap option_fmap option_map omitempty map app]. member ltac:(cbn [ds_Pending]; rewrite (decodePtr p) by (by apply Hp)). done. }
  assert (S3 : decodeMembers stateFields true (map (fun '(k, j) => (k, emb j)) (omitempty "cleanup" (match l with [] => None | _ => Some (JArr (map retainedJson l)) end))) (mkDiskState v c p []) =
               Some (mkDiskState v c p l)).
  { destruct l as [|r l]; [done|]. set (c0 := r :: l) in *. cbn [omitempty map]. erewrite members_step; [|reflexivity|]; [reflexivity|].
    cbn [snd]. change (emb (JArr (map retainedJson c0))) with (TArr (map emb (map retainedJson c0))). unfold onSlice. cbn [ds_Cleanup]. rewrite E. reflexivity. }
  rewrite S1, S2. destruct l; exact S3.
Qed.

(** ** Validity and depth *)

Lemma foldr_max_le {A : Type} (f : A -> Z) n l : 0 <= n -> Forall (fun x => f x <= n) l -> foldr (fun x m => Z.max (f x) m) 0 l <= n.
Proof. intros Hn. induction 1 as [|x l Hx _ IH]; cbn; lia. Qed.

Lemma headJson_height h : jheight (headJson h) <= 1.
Proof. unfold headJson, omitempty, nonempty. destruct (decide _); cbn; lia. Qed.
Lemma generationJson_height g : jheight (diskGenerationJson g) <= 3.
Proof.
  unfold diskGenerationJson. cbn [jheight foldr]. assert (H : foldr (fun v m => Z.max (jheight v) m) 0 (map headJson (dg_Heads g)) <= 1).
  { apply foldr_max_le; [lia|]. apply Forall_map, Forall_forall. intros h _. apply headJson_height. }
  lia.
Qed.
Lemma retainedJson_height r : jheight (retainedJson r) <= 4.
Proof. unfold retainedJson. cbn [jheight foldr]. pose proof (generationJson_height (dr_Generation r)). lia. Qed.
Lemma stateJson_height s : jheight (stateJson s) <= 6.
Proof.
  unfold stateJson. cbn [jheight]. assert (H : foldr (fun v m => Z.max (jheight v) m) 0 (map retainedJson (ds_Cleanup s)) <= 4).
  { apply foldr_max_le; [lia|]. apply Forall_map, Forall_forall. intros h _. apply retainedJson_height. }
  assert (G : forall l : list (string * json), Forall (fun kv => jheight (snd kv) <= 5) l -> foldr (fun '(_, v) m => Z.max (jheight v) m) 0 l <= 5).
  { intros l. induction 1 as [|[k x] l Hx _ IH]; cbn in *; lia. }
  enough (foldr (fun '(_, v) m => Z.max (jheight v) m) 0 ([("version"%string, JNum (ds_Version s))] ++ omitempty "current" (retainedJson <$> ds_Current s) ++ omitempty "pending" (retainedJson <$> ds_Pending s)
        ++ omitempty "cleanup" (match ds_Cleanup s with [] => None | l => Some (JArr (map retainedJson l)) end)) <= 5) by lia.
  apply G. apply Forall_app. split; [constructor; [cbn; lia|constructor]|]. apply Forall_app. split.
  { destruct (ds_Current s) as [r|]; [|constructor]. constructor; [|constructor]. cbn [snd]. pose proof (retainedJson_height r). lia. }
  apply Forall_app. split.
  { destruct (ds_Pending s) as [r|]; [|constructor]. constructor; [|constructor]. cbn [snd]. pose proof (retainedJson_height r). lia. }
  destruct (ds_Cleanup s) as [|r l] eqn:E; [constructor|]. rewrite <- E in *. constructor; [|constructor]. cbn [snd jheight]. rewrite E in *. lia.
Qed.

Lemma headJson_valid h : diskHead_fits h -> jsonValid (headJson h) = true.
Proof. intros (_ & H1 & H2 & H3). unfold headJson, omitempty, nonempty. destruct (decide _); cbn -[validString]; rewrite H1, H2, ?H3; done. Qed.
Lemma retainedJson_valid r : diskRetained_fits r -> jsonValid (retainedJson r) = true.
Proof.
  intros (_ & H1 & H2 & _ & H3 & H4). unfold retainedJson, diskGenerationJson. cbn [jsonValid forallb]. rewrite H1, H2, H3.
  assert (H : forallb jsonValid (map headJson (dg_Heads (dr_Generation r))) = true).
  { apply forallb_forall. intros x Hx. apply in_map_iff in Hx as (h & <- & Hh%list_elem_of_In). rewrite Forall_forall in H4. by apply headJson_valid, H4. }
  by rewrite H.
Qed.
Lemma stateJson_valid s : diskState_fits s -> jsonValid (stateJson s) = true.
Proof.
  intros (_ & Hc & Hp & Hl). unfold stateJson. cbn [jsonValid]. rewrite !forallb_app. rewrite !andb_true_iff. split; [done|]. split; [|split].
  - destruct (ds_Current s) as [r|]; [|done]. cbn [fmap option_fmap option_map omitempty forallb]. by rewrite (retainedJson_valid r) by (by apply Hc).
  - destruct (ds_Pending s) as [r|]; [|done]. cbn [fmap option_fmap option_map omitempty forallb]. by rewrite (retainedJson_valid r) by (by apply Hp).
  - destruct (ds_Cleanup s) as [|r l]; [done|]. set (c := r :: l) in *. cbn [omitempty forallb jsonValid].
    assert (H : forallb jsonValid (map retainedJson c) = true).
    { apply forallb_forall. intros x Hx. apply in_map_iff in Hx as (h & <- & Hh%list_elem_of_In). rewrite Forall_forall in Hl. by apply retainedJson_valid, Hl. }
    cbn [snd]. change (validString "cleanup" && forallb jsonValid (map retainedJson c) && true = true). by rewrite H.
Qed.

Lemma decode_rendered s : diskState_fits s -> exists t, decodeAll (render (stateJson s)) = Some t /\ decodeStruct stateFields true t zeroDiskState = Some s.
Proof.
  intros H. exists (emb (stateJson s)). split; [|by apply decodeDiskState]. apply decodeAll_render; [by apply stateJson_valid|].
  pose proof (stateJson_height s). unfold maxNestingDepth. lia.
Qed.

(** ** Retained generations *)

Lemma replicaChar_ascii b l : replicaChar b = true -> utf8Valid (b :: l) = utf8Valid l.
Proof. destruct b; try reflexivity; intros H; vm_compute in H; discriminate H. Qed.
Lemma replicaID_valid s : ValidateReplicaID s = Ok tt -> validString s = true.
Proof.
  unfold ValidateReplicaID, validString. destruct (replicaIDPattern s) eqn:E; [|by rewrite orb_true_r]. intros _. unfold replicaIDPattern in E.
  rewrite !andb_true_iff in E. destruct E as [[[E _] _] _]. induction (string_bytes s) as [|b l IH]; [done|].
  cbn [forallb] in E. apply andb_true_iff in E as [Hb Hl]. rewrite replicaChar_ascii by done. by apply IH.
Qed.

Section Retained.
Context `{MH : Multihash} `{CB : !DagCbor} `{CT : !CidText} `{CP : !CidParse}.

(** What a caller hands in: names are UTF-8 text, numbers are in their Go types. *)
Definition head_fits (h : RHead) : Prop := 0 <= rh_SyncedTo h /\ validString (rh_Name h) = true.
Definition gen_fits (g : RGeneration) : Prop := Unix (rg_UpdatedAt g) < 2 ^ 63 /\ Forall head_fits (rg_Heads g).

Record retained_ok (r : retainedGeneration) : Prop := {
  ro_normal : Normalize (rt_Generation r) = Ok (rt_Generation r);
  ro_anchor : exists d, Block (rt_Generation r) = Ok (d, rt_Anchor r);
  ro_fits : gen_fits (rt_Generation r);
  ro_owner : owned r = true \/ borrowed r = true;
  ro_at : truncSecond (rt_At r) = rt_At r /\ Unix (rt_At r) < 2 ^ 63 }.

Lemma Normalize_inv g n : Normalize g = Ok n ->
  ValidateReplicaID (rg_ReplicaID n) = Ok tt /\ rg_ReplicaID n = rg_ReplicaID g /\ 0 <= Unix (rg_UpdatedAt n) /\ rg_UpdatedAt n = truncSecond (rg_UpdatedAt g) /\
  rg_Heads n ≡ₚ rg_Heads g /\ checkHeads None (rg_Heads n) = Ok tt.
Proof.
  unfold Normalize. intros ([] & Hid & H)%rbind_ok. destruct (IsZero _ || _) eqn:Ht; [done|]. destruct (_ <? _)%nat; [done|]. cbv zeta in H.
  apply rbind_ok in H as ([] & Hc & [= <-]). cbn [rg_ReplicaID rg_UpdatedAt rg_Heads]. rewrite Unix_trunc. apply orb_false_iff in Ht as [_ Ht%Z.ltb_ge].
  split_and!; try done. apply merge_sort_Permutation.
Qed.
Lemma Normalize_fits g n : Normalize g = Ok n -> gen_fits g -> gen_fits n.
Proof. intros (_ & _ & _ & Hu & Hp & _)%Normalize_inv [H1 H2]. split; [by rewrite Hu, Unix_trunc|]. by rewrite Hp. Qed.

Lemma checkHeads_each prior l : checkHeads prior l = Ok tt -> Forall (fun h => (exists c, rh_Root h = Some c) /\ rh_SyncedTo h <= maxInt64) l.
Proof.
  revert prior. induction l as [|h l IH]; intros prior; [constructor|]. cbn [checkHeads]. destruct (_ || _); [done|]. destruct (bool_decide _); [done|].
  destruct (rh_Root h) as [c|] eqn:Er; cbn [Defined negb]; [|done]. destruct (Z.ltb_spec maxInt64 (rh_SyncedTo h)) as [|Hm]; [done|]. intros H%IH. constructor; eauto.
Qed.

Lemma head_roundtrip h : head_fits h -> (exists c, rh_Root h = Some c) -> rh_SyncedTo h <= maxInt64 ->
  diskHead_fits (rheadToDisk h) /\ rheadFromDisk (rheadToDisk h) = Ok h.
Proof.
  intros [Hs Hn] [c Hc] Hm. destruct h as [n r m z]. cbn [rh_Root rh_SyncedTo rh_Name] in *. subst r. unfold rheadToDisk, rheadFromDisk, parsed.
  cbn [rh_Root rh_Manifest rh_SyncedTo rh_Name textOf dh_Name dh_Root dh_Manifest dh_SyncedTo]. split.
  - split; [unfold maxInt64 in Hm; cbn; split; lia|]. split; [done|]. split; [apply String_valid|]. destruct m; [apply String_valid|done].
  - rewrite Parse_String. cbn [rbind]. destruct m as [m|]; cbn [textOf]; [|by rewrite bool_decide_true].
    rewrite bool_decide_false by apply String_nonempty. by rewrite Parse_String.
Qed.
Lemma heads_roundtrip l : Forall head_fits l -> Forall (fun h => (exists c, rh_Root h = Some c) /\ rh_SyncedTo h <= maxInt64) l ->
  Forall diskHead_fits (map rheadToDisk l) /\ rmap rheadFromDisk (map rheadToDisk l) = Ok l.
Proof.
  intros H1 H2. induction l as [|h l IH]; [by split; [constructor|]|]. apply Forall_cons in H1 as [H1 H1'], H2 as [[Hr Hm] H2'].
  destruct (head_roundtrip h) as [Ha Hb]; [done..|]. destruct IH as [Hc Hd]; [done..|]. split; [by constructor|]. cbn [map rmap]. by rewrite Hb, Hd.
Qed.

Lemma retained_roundtrip r d : retained_ok r -> retainedToDisk r = Ok d -> diskRetained_fits d /\ retainedFromDisk d = Ok r.
Proof.
  intros [Hn [b Hb] [Hu Hh] _ [Ht Ha]]. unfold retainedToDisk. rewrite Hn. cbn [rbind]. rewrite Hb. cbn [rbind snd]. rewrite bool_decide_true by done. cbn [negb].
  destruct (negb (owned r) && negb (borrowed r)) eqn:Ho; [done|]. destruct (IsZero (rt_At r) || _) eqn:Hz; [done|]. intros [= <-].
  apply orb_false_iff in Hz as [_ Hz%Z.ltb_ge]. destruct (Normalize_inv _ _ Hn) as (Hid & _ & Hu0 & Hut & _ & Hc).
  destruct (heads_roundtrip (rg_Heads (rt_Generation r))) as [Hf Hr]; [done|by eapply checkHeads_each|]. split.
  - unfold diskRetained_fits. cbn [dr_At dr_Anchor dr_Ownership dr_Generation dg_UpdatedAt dg_ReplicaID dg_Heads]. rewrite Unix_trunc. unfold is_i64.
    split_and!; try done; try lia; try apply String_valid; [|by apply replicaID_valid]. unfold owned, borrowed in Ho. repeat case_bool_decide; try done; by (rewrite H || rewrite H0).
  - unfold retainedFromDisk, parsed. cbn [dr_At dr_Anchor dr_Ownership dr_Generation dg_UpdatedAt dg_ReplicaID dg_Heads]. rewrite Parse_String. cbn [rbind].
    rewrite Hr. cbn [rbind]. assert (E : mkRGeneration (rg_ReplicaID (rt_Generation r)) (time_Unix (Unix (rg_UpdatedAt (rt_Generation r)))) (rg_Heads (rt_Generation r)) = rt_Generation r).
    { change (time_Unix (Unix ?t)) with (truncSecond t). rewrite Hut, trunc_trunc, <- Hut. by destruct (rt_Generation r). }
    rewrite E, Hn. cbn [rbind]. rewrite Hb. cbn [rbind snd]. rewrite bool_decide_true by done. cbn [negb]. unfold owned, borrowed in Ho. rewrite Ho.
    rewrite Unix_trunc. rewrite (proj2 (Z.ltb_ge _ _)) by lia. change (time_Unix (Unix ?t)) with (truncSecond t). rewrite Ht. by destruct r.
Qed.

(** ** The ledger *)

Definition state_ok (st : controllerState) : Prop := Forall retained_ok (stateRetained st).

Lemma state_ok_iff st : state_ok st <-> (forall r, st_Current st = Some r -> retained_ok r) /\ (forall r, st_Pending st = Some r -> retained_ok r) /\ Forall retained_ok (st_Cleanup st).
Proof.
  unfold state_ok, stateRetained. rewrite !Forall_app. split.
  - intros (Hl & Hc & Hp). split_and!; [|..|done]; intros r E; rewrite E in *; [by inversion Hc|by inversion Hp].
  - intros (Hc & Hp & Hl). split_and!; [done|..]; [destruct (st_Current st)|destruct (st_Pending st)]; cbn; constructor; eauto.
Qed.

Lemma rmap_roundtrip l ds : Forall retained_ok l -> rmap retainedToDisk l = Ok ds -> Forall diskRetained_fits ds /\ rmap retainedFromDisk ds = Ok l /\ length ds = length l.
Proof.
  revert ds. induction l as [|r l IH]; intros ds H; cbn [rmap]; [intros [= <-]; by split; [constructor|]|]. apply Forall_cons in H as [Hr Hl].
  intros (d & Hd & (ds' & Hds & [= <-])%rbind_ok)%rbind_ok. destruct (retained_roundtrip r d Hr Hd) as [H1 H2]. destruct (IH ds' Hl Hds) as (H3 & H4 & H5).
  split_and!; [by constructor|cbn [rmap]; by rewrite H2; cbn [rbind]; rewrite H4|cbn; lia].
Qed.

Lemma ptr_roundtrip (o : option retainedGeneration) d : (forall r, o = Some r -> retained_ok r) ->
  match o with Some r => d <-? retainedToDisk r ;; Ok (Some d) | None => Ok None end = Ok d ->
  (forall x, d = Some x -> diskRetained_fits x) /\ match d with Some x => r <-? retainedFromDisk x ;; Ok (Some r) | None => Ok None end = Ok o.
Proof.
  intros Ho. destruct o as [r|]; [|by intros [= <-]]. intros (x & Hx & [= <-])%rbind_ok. destruct (retained_roundtrip r x (Ho _ eq_refl) Hx) as [H1 H2].
  split; [by intros ? [= <-]|]. by rewrite H2.
Qed.

Lemma state_roundtrip st disk : state_ok st -> validateControllerState st = Ok tt -> toDisk st = Ok disk -> diskState_fits disk /\ fromDisk disk = Ok st.
Proof.
  intros (Hc & Hp & Hl)%state_ok_iff Hv. unfold toDisk. intros (dc & Edc & H)%rbind_ok. apply rbind_ok in H as (dp & Edp & H).
  destruct (_ <? _)%nat eqn:El; [done|]. apply rbind_ok in H as (ds & Eds & [= <-]).
  destruct (ptr_roundtrip _ _ Hc Edc) as [Hc1 Hc2]. destruct (ptr_roundtrip _ _ Hp Edp) as [Hp1 Hp2]. destruct (rmap_roundtrip _ _ Hl Eds) as (Hl1 & Hl2 & Hl3).
  split; [by split; [unfold is_i64, stateVersion; cbn; lia|]|]. unfold fromDisk. cbn [ds_Version ds_Current ds_Pending ds_Cleanup]. rewrite Z.eqb_refl. cbn [negb].
  rewrite Hc2. cbn [rbind]. rewrite Hp2. cbn [rbind]. rewrite Hl3, El, Hl2. cbn [rbind]. cbv zeta.
  assert (E : mkState (st_Current st) (st_Pending st) (st_Cleanup st) = st) by (by destruct st). by rewrite E, Hv.
Qed.
End Retained.

Section Save.
Context `{MH : Multihash} `{CB : !DagCbor} `{CT : !CidText} `{CP : !CidParse} {K : Type} `{PB : !Pebble K} `{PO : !PebbleOk K}.

(** The ledger as a store holds it. *)
Definition ledgerOf (m : gmap bytes bytes) : res controllerState :=
  match m !! stateKey with None => Ok (mkState None None []) | Some v => decodeState v end.

Lemma load_run s r s' : loadControllerState s = (r, s') -> kv s' = kv s /\ (r = ledgerOf (kv s) \/ r = Err EIO).
Proof.
  unfold loadControllerState, ledgerOf. intros [(v & s1 & H1 & H2)|(e & H1 & ->)]%bind_run; apply kv_get_spec in H1 as [E1 H1].
  - subst v. destruct (kv s !! stateKey) as [v|]; injection H2 as <- <-; auto.
  - subst e. auto.
Qed.

(** A save leaves the other rows alone and the ledger as it was or as it is given. *)
Lemma save_run st s r s' : state_ok st -> saveControllerState st s = (r, s') ->
  (forall k, k <> stateKey -> kv s' !! k = kv s !! k) /\
  match r with
  | Ok _ => ledgerOf (kv s') = Ok st /\ validateControllerState st = Ok tt
  | Err _ => kv s' = kv s \/ ledgerOf (kv s') = Ok st
  end.
Proof.
  intros Hok. unfold saveControllerState. intros [([] & s1 & H1 & H)|(e & H1 & ->)]%bind_run; [|unfold lift in H1; injection H1 as _ <-; auto].
  unfold lift in H1. injection H1 as Hv <-. apply bind_run in H as [(disk & s1 & H1 & H)|(e & H1 & ->)]; [|unfold lift in H1; injection H1 as _ <-; auto].
  unfold lift in H1. injection H1 as Hd <-. cbv zeta in H. destruct (maxStateBytes <? _)%nat eqn:El; [injection H as <- <-; auto|].
  destruct (state_roundtrip st disk Hok Hv Hd) as [Hf Hr]. destruct (decode_rendered disk Hf) as (t & Ht & Hdec).
  assert (E : ledgerOf (<[stateKey := render (stateJson disk)]> (kv s)) = Ok st).
  { unfold ledgerOf. rewrite lookup_insert_eq. unfold decodeState. by rewrite El, Ht, Hdec. }
  apply kv_set_spec in H. destruct r as [|e]; [|destruct H as [_ [H|H]]]; rewrite H.
  - split; [|done]. intros k Hk. by rewrite lookup_insert_ne.
  - auto.
  - split; [|by right]. intros k Hk. by rewrite lookup_insert_ne.
Qed.
End Save.
