(* ===== verification/ReplicaCorrect.v ===== *)
(** The replica controller is safe: pins of other clients are never touched, a committed
    generation the controller owns stays recursively pinned, and every pin under the
    reserved name has an entry in the durable ledger, however the calls end.

    A committed generation may also be borrowed: its anchor was pinned by another client.
    That client may remove the pin, and the proofs are for both environments: [keepsBorrowed]
    says whether it leaves the pin of the current generation in place. *)
From S2P Require Import Prelude Cid Schema Core Engine Ledger Json JsonDecode Publication Replica ReplicaCodec.

(** ** The anchor names its generation *)

Section Anchor.
Context `{MH : Multihash} `{CB : !DagCbor}.

Lemma rheadNode_canon h : node_canon (rheadNode h) =
  NMap ([("name", NString (rh_Name h)); ("root", nullableLink (rh_Root h))]%string ++
        match rh_Manifest h with Some m => [("manifest"%string, NLink m)] | None => [] end ++ [("synced_to"%string, NInt (rh_SyncedTo h))]).
Proof. unfold rheadNode. destruct (rh_Manifest h); cbn [app node_canon map]; rewrite canon_link; reflexivity. Qed.
Lemma rheadNode_inj a b : node_canon (rheadNode a) = node_canon (rheadNode b) -> a = b.
Proof.
  rewrite !rheadNode_canon. destruct a as [n [r|] [m|] s], b as [n' [r'|] [m'|] s']; cbn; intros [=]; by subst.
Qed.
#[local] Instance rheadNode_Inj : Inj (=) (=) (fun h => node_canon (rheadNode h)).
Proof. exact rheadNode_inj. Qed.
Lemma generationNode_canon g : node_canon (generationNode g) =
  NMap [("v", NInt generationVersion); ("heads", NList (map node_canon (map rheadNode (rg_Heads g)))); ("replica", NString (rg_ReplicaID g)); ("updated_at", NInt (Unix (rg_UpdatedAt g)))]%string.
Proof. reflexivity. Qed.

Lemma rheadNode_ok h : 0 <= rh_SyncedTo h <= maxInt64 -> node_ok (rheadNode h).
Proof.
  intros H. unfold rheadNode. assert (Hl : node_ok (nullableLink (rh_Root h))) by (by destruct (rh_Root h)). unfold maxInt64 in H.
  destruct (rh_Manifest h); cbn [app]; (split; [repeat constructor; cbn; set_solver|]); cbn [fold_right]; repeat split; try done; cbn; lia.
Qed.
Lemma generationNode_ok g : Normalize g = Ok g -> gen_fits g -> node_ok (generationNode g).
Proof.
  intros (_ & _ & Hu & _ & _ & Hc)%Normalize_inv [Hf Hh]. apply checkHeads_each in Hc. unfold generationNode. split; [repeat constructor; cbn; set_solver|].
  cbn [fold_right]. split; [cbn; unfold generationVersion; lia|]. split; [done|]. split; [cbn; lia|]. split; [|done]. apply node_ok_list, Forall_map, Forall_forall. intros h Hin.
  rewrite Forall_forall in Hc, Hh. apply rheadNode_ok. specialize (Hc h Hin). specialize (Hh h Hin). unfold head_fits in Hh. lia.
Qed.

(** Two generations share an anchor only if they normalize to the same generation. *)
Lemma anchor_generation a b na nb da db c : gen_fits a -> gen_fits b -> Normalize a = Ok na -> Normalize b = Ok nb ->
  Block a = Ok (da, c) -> Block b = Ok (db, c) -> na = nb.
Proof.
  intros Fa Fb Na Nb. pose proof (Normalize_idem _ _ Na) as Ia. pose proof (Normalize_idem _ _ Nb) as Ib. pose proof (Normalize_fits _ _ Na Fa) as Ga.
  pose proof (Normalize_fits _ _ Nb Fb) as Gb. unfold Block. rewrite Na, Nb. cbn [rbind].
  destruct (cbor_roundtrip _ (generationNode_ok na Ia Ga)) as (ba & -> & Da). destruct (cbor_roundtrip _ (generationNode_ok nb Ib Gb)) as (bb & -> & Db).
  destruct (prefix_sum nodePrefix ba) as [ca|] eqn:Sa; [|done]. destruct (prefix_sum nodePrefix bb) as [cb|] eqn:Sb; [|done]. intros [= <- <-] [= <- ->].
  pose proof (prefix_sum_inj _ _ _ _ _ _ Sa Sb eq_refl) as ->. assert (E : node_canon (generationNode na) = node_canon (generationNode nb)) by congruence. rewrite !generationNode_canon in E. injection E as Eh Er Eu.
  apply Normalize_inv in Ia as (_ & _ & _ & Ta & _), Ib as (_ & _ & _ & Tb & _). destruct na as [ra ta ha], nb as [rb tb hb]. cbn [rg_ReplicaID rg_UpdatedAt rg_Heads] in *.
  subst rb. f_equal; [unfold truncSecond in *; congruence|]. rewrite !map_map in Eh. exact (inj (fmap (fun h => node_canon (rheadNode h))) _ _ Eh).
Qed.
End Anchor.

(** ** What holds of the ledger and the pins *)

(** Other clients leave the pin of a borrowed current generation in place. *)
Class BorrowMode : Type := keepsBorrowed : bool.

Section Safety.
Context `{MH : Multihash} `{CB : !DagCbor} `{CT : !CidText} `{CP : !CidParse} {MD : BorrowMode} {K : Type} `{PB : !Pebble K} `{PO : !PebbleOk K} {B : Type} `{BK : !Backend B} `{BO : !BackendOk B}.
Local Abbreviation W := (K * B)%type.
Local Abbreviation Pins := (gmap CidV PinStatus).
Implicit Types (c : Controller) (st : controllerState) (p : Pins) (r : retainedGeneration) (w : W).

Definition reserved c : PinStatus := mkPinStatus true (ct_pinName c).
Definition ledger w : res controllerState := ledgerOf (kv (fst w)).
Definition pinsOf w : Pins := pins (snd w).
Definition anchors (l : list retainedGeneration) : list CidV := rt_Anchor <$> l.

(** The anchor is pinned recursively, an owned one under the reserved name. *)
Definition protectedBy c p r : Prop := recursive (p !! rt_Anchor r) = true /\ (owned r = true -> p !! rt_Anchor r = Some (reserved c)).
(** What is known of the anchor of the current generation in either environment: an owned
    one is pinned under the reserved name, a borrowed one recursively while its owner
    leaves it so. *)
Definition guarded c p r : Prop :=
  (keepsBorrowed = true -> recursive (p !! rt_Anchor r) = true) /\ (owned r = true -> p !! rt_Anchor r = Some (reserved c)).
(** Every pin under the reserved name is an owned entry of the list. *)
Definition tracked c (l : list retainedGeneration) p : Prop := forall x, p !! x = Some (reserved c) -> exists r, r ∈ l /\ owned r = true /\ rt_Anchor r = x.
Definition entry_ok c r : Prop := retained_ok r /\ rg_ReplicaID (rt_Generation r) = ct_replicaID c.
(** The current generation is apart from what may be unpinned. *)
Definition apart st : Prop := forall cur, st_Current st = Some cur -> rt_Anchor cur ∉ anchors (option_list (st_Pending st) ++ st_Cleanup st).

Record good c st p : Prop := {
  g_entries : Forall (entry_ok c) (stateRetained st);
  g_tracked : tracked c (stateRetained st) p;
  g_current : forall r, st_Current st = Some r -> guarded c p r }.
Definition mem c st p : Prop := good c st p /\ apart st.
(** The ledger of a world, with what is known of it. *)
Definition sound c w : Prop := exists k, ledger w = Ok k /\ mem c k (pinsOf w).
Definition soundAt c (cur : option retainedGeneration) w : Prop := exists k, ledger w = Ok k /\ mem c k (pinsOf w) /\ st_Current k = cur.
(** A state in memory beside the durable one: both account for the pins. *)
Definition holds c st w : Prop := mem c st (pinsOf w) /\ exists k, ledger w = Ok k /\ mem c k (pinsOf w) /\ st_Current k = st_Current st /\ st_Pending k = st_Pending st.

(** What may change of the pins: entries of [l] under the reserved name are removed. *)
Definition drops c (l : list CidV) p p' : Prop := forall x, p' !! x = p !! x \/ (p !! x = Some (reserved c) /\ p' !! x = None /\ x ∈ l).
(** What a call may change: a reserved pin is removed, the anchor [a] is pinned. *)
Definition changes c (a : option CidV) p p' : Prop := forall x,
  p' !! x = p !! x \/ (p !! x = Some (reserved c) /\ p' !! x = None) \/ (a = Some x /\ p !! x = None /\ p' !! x = Some (reserved c)).

#[global] Instance changes_preorder c a : PreOrder (changes c a).
Proof.
  split; [by left|]. intros p q r H1 H2 x. destruct (H1 x) as [E|[[E1 E2]|(Ea & E1 & E2)]], (H2 x) as [F|[[F1 F2]|(Fa & F1 & F2)]]; rewrite ?E in *; try rewrite E2 in *; try (rewrite E1 in *); auto; try congruence.
Qed.
Lemma drops_changes c l a p p' : drops c l p p' -> changes c a p p'.
Proof. intros H x. destruct (H x) as [?|(? & ? & ?)]; auto. Qed.
Lemma drops_refl c l p : drops c l p p.
Proof. by left. Qed.
Lemma drops_mono c l l' p p' : drops c l p p' -> l ⊆ l' -> drops c l' p p'.
Proof. intros H Hl x. destruct (H x) as [?|(? & ? & ?)]; [by left|right; auto]. Qed.
Lemma drops_trans c l p q s : drops c l p q -> drops c l q s -> drops c l p s.
Proof. intros H1 H2 x. destruct (H1 x) as [E|(E1 & E2 & E3)], (H2 x) as [F|(F1 & F2 & F3)]; [left|right|right|]; try split_and!; congruence. Qed.
Lemma drops_reserved c l p p' x : drops c l p p' -> p' !! x = Some (reserved c) -> p !! x = Some (reserved c).
Proof. intros H E. destruct (H x) as [?|(? & ? & ?)]; congruence. Qed.
Lemma drops_outside c l p p' x : drops c l p p' -> x ∉ l -> p' !! x = p !! x.
Proof. intros H Hx. by destruct (H x) as [?|(? & ? & ?)]. Qed.

Lemma protected_same c p p' r : p' !! rt_Anchor r = p !! rt_Anchor r -> protectedBy c p r -> protectedBy c p' r.
Proof. unfold protectedBy. by intros ->. Qed.
Lemma guarded_same c p p' r : p' !! rt_Anchor r = p !! rt_Anchor r -> guarded c p r -> guarded c p' r.
Proof. unfold guarded. by intros ->. Qed.
Lemma protected_guarded c p r : protectedBy c p r -> guarded c p r.
Proof. intros [? ?]. by split. Qed.
Lemma guarded_protected c p r : guarded c p r -> keepsBorrowed = true \/ owned r = true -> protectedBy c p r.
Proof. intros [H1 H2] H. split; [|done]. destruct H as [H|H]; [auto|]. by rewrite H2. Qed.
Lemma tracked_drops c l l' p p' : drops c l' p p' -> tracked c l p -> tracked c l p'.
Proof. intros Hd Ht x Hx. by apply Ht, (drops_reserved _ _ _ _ _ Hd). Qed.
Lemma mem_drops c st l p p' : drops c l p p' -> (forall cur, st_Current st = Some cur -> rt_Anchor cur ∉ l) -> mem c st p -> mem c st p'.
Proof.
  intros Hd Hl [[He Ht Hc] Ha]. split; [|done]. split; [done|by eapply tracked_drops|]. intros r Hr. eapply guarded_same; [|by apply Hc]. eapply drops_outside; eauto.
Qed.

(** A pin added for the pending entry. *)
Lemma mem_pin c st q p : mem c st p -> st_Pending st = Some q -> owned q = true -> mem c st (<[rt_Anchor q := reserved c]> p).
Proof.
  intros [[He Ht Hc] Ha] Hq Ho. split; [|done]. split; [done| |].
  - intros x. destruct (decide (x = rt_Anchor q)) as [->|Hx]; [|rewrite lookup_insert_ne by done; apply Ht]. intros _. exists q.
    split; [|done]. unfold stateRetained. rewrite Hq, !elem_of_app. right; right. by left.
  - intros r Hr. eapply guarded_same; [|by apply Hc]. apply lookup_insert_ne. intros E. apply (Ha r Hr). rewrite <- E, Hq. unfold anchors. cbn. set_solver.
Qed.

(** *** Reads *)

Definition same w w' : Prop := kv (fst w') = kv (fst w) /\ pinsOf w' = pinsOf w.
Lemma holds_same c st w w' : same w w' -> holds c st w -> holds c st w'.
Proof. unfold holds, ledger. by intros [-> ->]. Qed.
Lemma sound_same c w w' : same w w' -> sound c w -> sound c w'.
Proof. unfold sound, ledger. by intros [-> ->]. Qed.
Lemma same_refl w : same w w.
Proof. done. Qed.
Lemma same_trans w1 w2 w3 : same w1 w2 -> same w2 w3 -> same w1 w3.
Proof. intros [? ?] [? ?]. split; congruence. Qed.
Lemma holds_at c st w : holds c st w -> soundAt c (st_Current st) w.
Proof. intros [_ (k & ? & ? & ? & _)]. by exists k. Qed.
Lemma soundAt_same c cur w w' : same w w' -> soundAt c cur w -> soundAt c cur w'.
Proof. unfold soundAt, ledger. by intros [-> ->]. Qed.
Lemma soundAt_sound c cur w : soundAt c cur w -> sound c w.
Proof. intros (k & ? & ? & _). by exists k. Qed.
Lemma holds_sound c st w : holds c st w -> sound c w.
Proof. intros H. by eapply soundAt_sound, holds_at. Qed.

Lemma status_run x w o w' : onKubo (bk_PinStatus x) w = (o, w') -> same w w' /\ forall s, o = Ok s -> s = pinsOf w !! x.
Proof.
  unfold onKubo. destruct (bk_PinStatus x (snd w)) as [o' b] eqn:E. intros [= <- <-]. apply bk_status_spec in E as [E1 E2]. by split.
Qed.
Lemma requirePinned_run c r w o w' : requirePinned c r w = (o, w') -> same w w' /\ (o = Ok tt -> protectedBy c (pinsOf w) r).
Proof.
  unfold requirePinned. intros [(s & w1 & H1 & H)|(e & H1 & ->)]%bind_run; apply status_run in H1 as [Hs Hv]; [|by split].
  specialize (Hv s eq_refl). destruct (recursive s) eqn:Er; cbn [negb] in H; [|by injection H as <- <-].
  destruct (owned r && negb (exactly (ct_pinName c) s)) eqn:Eo; injection H as <- <-; [done|]. split; [done|]. intros _. subst s. split; [done|].
  intros Ho. rewrite Ho in Eo. cbn [andb] in Eo. apply negb_false_iff in Eo. unfold exactly in Eo. by case_bool_decide.
Qed.

Lemma checkCleanup_valid seen l : checkCleanup seen l = Ok tt -> Forall (fun r => owned r = true) l /\ NoDup (anchors l) /\ forall x, x ∈ anchors l -> x ∉ seen.
Proof.
  revert seen. induction l as [|r l IH]; intros seen; cbn [checkCleanup]; [intros _; repeat split; [constructor|constructor|by intros ? ?%elem_of_nil]|].
  destruct (owned r) eqn:Eo; [|done]. cbn [negb]. case_bool_decide as Hin; [done|]. intros (H1 & H2 & H3)%IH. unfold anchors in *. cbn [fmap list_fmap].
  split_and!; [by constructor| |].
  - constructor; [|done]. intros Hx%H3. set_solver.
  - intros x [->|Hx]%elem_of_cons; [done|]. apply H3 in Hx. set_solver.
Qed.
(** The ledger that loads has distinct anchors and an owned debt. *)
Record distinct st : Prop := {
  d_apart : apart st;
  d_pending : forall q, st_Pending st = Some q -> rt_Anchor q ∉ anchors (st_Cleanup st);
  d_owned : Forall (fun r => owned r = true) (st_Cleanup st);
  d_nodup : NoDup (anchors (st_Cleanup st)) }.
Lemma validate_distinct st : validateControllerState st = Ok tt -> distinct st.
Proof.
  unfold validateControllerState. destruct st as [cur pend cl]. cbn [st_Current st_Pending st_Cleanup]. destruct (match pend with Some _ => _ | None => _ end) eqn:Ep; [done|].
  intros (H1 & H2 & H3)%checkCleanup_valid. split; unfold apart; cbn [st_Current st_Pending st_Cleanup]; try done.
  - intros r ->. cbn [anchorsOf] in *. unfold anchors. rewrite fmap_app, not_elem_of_app. split.
    + destruct pend as [q|]; cbn; [|apply not_elem_of_nil]. apply bool_decide_eq_false in Ep. set_solver.
    + intros Hx%H3. set_solver.
  - intros q ->. intros Hx%H3. cbn [anchorsOf] in Hx. set_solver.
Qed.
Lemma ledgerOf_valid m st : ledgerOf m = Ok st -> validateControllerState st = Ok tt.
Proof.
  unfold ledgerOf. destruct (m !! stateKey) as [v|]; [|by intros [= <-]]. unfold decodeState. destruct (_ <? _)%nat; [done|]. destruct (decodeAll v) as [t|]; [|done].
  destruct (decodeStruct _ _ _ _) as [d|]; [|done]. unfold fromDisk. destruct (negb _); [done|]. intros (x & _ & H)%rbind_ok. apply rbind_ok in H as (y & _ & H).
  destruct (_ <? _)%nat; [done|]. apply rbind_ok in H as (z & _ & H). cbv zeta in H. apply rbind_ok in H as ([] & Hv & [= <-]). done.
Qed.
Lemma ledger_distinct w st : ledger w = Ok st -> distinct st.
Proof. intros H. by eapply validate_distinct, ledgerOf_valid. Qed.

Lemma loadLedger_run c w o w' : sound c w -> loadState c w = (o, w') -> same w w' /\ match o with Ok st => ledger w = Ok st /\ holds c st w' | Err e => e = EIO end.
Proof.
  intros (k & Hk & Hm). unfold loadState, onKV. unfold bind at 1. destruct (loadControllerState (fst w)) as [l s] eqn:E. apply load_run in E as [E1 E2].
  fold (ledger w) in E2. rewrite Hk in E2. assert (Hs : same w (s, snd w)) by done. destruct E2 as [->| ->]; [|by intros [= <- <-]].
  intros H. assert (Hid : forallb (fun r => bool_decide (rg_ReplicaID (rt_Generation r) = ct_replicaID c)) (stateRetained k) = true).
  { apply forallb_forall. intros r Hr%list_elem_of_In. destruct Hm as [[He _ _] _]. rewrite Forall_forall in He. apply bool_decide_eq_true, He, Hr. }
  rewrite Hid in H. cbn [negb] in H. injection H as <- <-. split; [done|]. split; [done|]. split; [done|]. exists k. by unfold ledger; cbn; rewrite E1.
Qed.
End Safety.
