(* ===== verification/ReplicaSafety.v ===== *)
(** Each call of the replica controller keeps the ledger and the pins accounted for. *)
From S2P Require Import Prelude Cid Schema Core Engine Ledger Json JsonDecode Publication Replica ReplicaCodec ReplicaCorrect.

Section Calls.
Context `{MH : Multihash} `{CB : !DagCbor} `{CT : !CidText} `{CP : !CidParse} {MD : BorrowMode} {K : Type} `{PB : !Pebble K} `{PO : !PebbleOk K} {B : Type} `{BK : !Backend B} `{BO : !BackendOk B}.
Local Abbreviation W := (K * B)%type.
Local Abbreviation Pins := (gmap CidV PinStatus).
Implicit Types (c : Controller) (st : controllerState) (p : Pins) (r : retainedGeneration) (w : W).

(** ** Saving *)

Lemma save_good c st w o w' : sound c w -> good c st (pinsOf w) -> onKV (saveControllerState st) w = (o, w') ->
  pinsOf w' = pinsOf w /\ match o with
                          | Ok _ => ledger w' = Ok st /\ holds c st w'
                          | Err _ => sound c w' /\ (ledger w' = ledger w \/ ledger w' = Ok st)
                          end.
Proof.
  intros Hsound Hg. unfold onKV. destruct (saveControllerState st (fst w)) as [o' k] eqn:E. intros [= <- <-].
  apply save_run in E as [_ E]; [|destruct Hg as [He _ _]; eapply Forall_impl; [exact He|]; by intros r [? _]]. split; [done|].
  assert (Hm : ledger (k, snd w) = Ok st -> mem c st (pinsOf (k, snd w))) by (intros H; split; [done|by eapply d_apart, ledger_distinct]).
  destruct o' as [[]|e].
  - destruct E as [E _]. split; [done|]. split; [by apply Hm|]. exists st. by split_and!; [|apply Hm|..].
  - destruct E as [E|E].
    + split; [|left; unfold ledger; cbn; by rewrite E]. destruct Hsound as (x & Hx & Hxm). exists x. unfold ledger in *. cbn [fst]. by rewrite E.
    + split; [exists st; split; [done|by apply Hm]|by right].
Qed.

(** ** Draining the debt *)

Lemma drain_run c l w o w' : drainCleanup c l w = (o, w') ->
  fst w' = fst w /\ drops c (anchors l) (pinsOf w) (pinsOf w') /\
  exists kept errs, o = Ok (kept, errs) /\ kept `sublist_of` l /\ forall r, r ∈ l -> r ∈ kept \/ pinsOf w' !! rt_Anchor r <> Some (reserved c).
Proof.
  revert w o w'. induction l as [|s l IH]; intros w o w'; cbn [drainCleanup].
  { intros [= <- <-]. split; [done|]. split; [apply drops_refl|]. exists [], []. split_and!; [done|done|by intros r ?%elem_of_nil]. }
  intros (st & w1 & H1 & H)%bind_run_attempt. assert (F1 : fst w1 = fst w). { unfold onKubo in H1. destruct (bk_PinStatus _ _). by injection H1 as <- <-. }
  apply status_run in H1 as [[_ Hp1] Hv].
  apply bind_run in H as [(kept & w2 & H2 & H)|(e & H2 & _)].
  2:{ exfalso. destruct st as [st|e']; [|discriminate H2]. destruct (negb _); [discriminate H2|]. apply bind_run_attempt in H2 as (x & w2 & _ & H2). by destruct x. }
  assert (Hstep : fst w2 = fst w /\ drops c [rt_Anchor s] (pinsOf w) (pinsOf w2) /\ (is_Some kept \/ pinsOf w2 !! rt_Anchor s <> Some (reserved c))).
  { destruct st as [st|e']; [|injection H2 as <- <-; rewrite Hp1; split_and!; [done|apply drops_refl|left; eauto]].
    specialize (Hv st eq_refl). destruct (exactly (ct_pinName c) st) eqn:Ee; cbn [negb] in H2.
    - apply bind_run_attempt in H2 as (x & w3 & H3 & H2). unfold onKubo in H3. destruct (bk_PinRemoveRecursive (rt_Anchor s) (snd w1)) as [x' b] eqn:E. injection H3 as <- <-.
      apply bk_remove_spec in E. injection H2 as <- <-. unfold exactly in Ee. apply bool_decide_eq_true in Ee. cbn [fst snd]. unfold pinsOf in *. cbn [snd].
      assert (Hd : drops c [rt_Anchor s] (pins (snd w)) (delete (rt_Anchor s) (pins (snd w)))).
      { intros x. destruct (decide (x = rt_Anchor s)) as [->|Hx]; [right|left; by rewrite lookup_delete_ne]. rewrite lookup_delete_eq. split_and!; [unfold reserved; congruence|done|by left]. }
      split; [done|]. rewrite Hp1 in E. destruct x' as [u|e']; [|by split; [destruct E as [-> | ->]; [apply drops_refl|done]|left; eauto]].
      rewrite E. split; [done|right]. by rewrite lookup_delete_eq.
    - injection H2 as <- <-. rewrite Hp1. split_and!; [done|apply drops_refl|right]. unfold exactly in Ee. apply bool_decide_eq_false in Ee. by subst st. }
  destruct Hstep as (F2 & Hd2 & Hk2). apply bind_run in H as [([rem errs] & w3 & H3 & H)|(e & H3 & _)]; [|by apply IH in H3 as (_ & _ & ? & ? & ? & _)].
  apply IH in H3 as (F3 & Hd3 & rem' & errs' & [= <- <-] & Hsub & Hin). assert (Ew : w3 = w') by (destruct kept; by injection H). subst w3.
  split; [congruence|]. split. { eapply drops_trans; eapply drops_mono; [exact Hd2| |exact Hd3|]; unfold anchors; set_solver. }
  assert (Hs : pinsOf w2 !! rt_Anchor s <> Some (reserved c) -> pinsOf w' !! rt_Anchor s <> Some (reserved c)). { intros Hn E. by apply Hn, (drops_reserved _ _ _ _ _ Hd3). }
  destruct kept as [e|]; injection H as <-; eexists _, _; (split; [reflexivity|]).
  - split; [by apply sublist_skip|]. intros r [->|Hr]%elem_of_cons; [left; set_solver|]. destruct (Hin r Hr); [left; set_solver|by right].
  - split; [by apply sublist_cons|]. intros r [->|Hr]%elem_of_cons; [|by apply Hin]. right. apply Hs. by destruct Hk2 as [[? ?]|?].
Qed.

Definition withCleanup st l : controllerState := mkState (st_Current st) (st_Pending st) l.

Lemma good_withCleanup c st l p p' : drops c (anchors (st_Cleanup st)) p p' -> l `sublist_of` st_Cleanup st ->
  (forall r, r ∈ st_Cleanup st -> r ∈ l \/ p' !! rt_Anchor r <> Some (reserved c)) -> mem c st p -> mem c (withCleanup st l) p'.
Proof.
  intros Hd Hl Hin [[He Ht Hc] Ha].
  assert (Hcur : forall r, st_Current st = Some r -> guarded c p' r).
  { intros r Hr. eapply guarded_same; [|by apply Hc]. eapply drops_outside; [exact Hd|]. specialize (Ha r Hr). unfold anchors in *. rewrite fmap_app in Ha. set_solver. }
  split; [split; [| |exact Hcur]|].
  - unfold stateRetained in *. cbn. rewrite Forall_app in *. destruct He as [He1 He2]. split; [|done]. apply Forall_forall. intros r Hr. rewrite Forall_forall in He1. by eapply He1, elem_of_sublist.
  - intros x Hx. destruct (Ht x) as (r & Hr & Ho & <-); [by eapply drops_reserved|]. exists r. split; [|done]. unfold stateRetained in *. cbn.
    rewrite elem_of_app in Hr |- *. destruct Hr as [Hr|Hr]; [|by right]. left. by destruct (Hin r Hr).
  - intros cur Hr. specialize (Ha cur Hr). cbn. unfold anchors in *. rewrite fmap_app, not_elem_of_app in *. destruct Ha as [Ha1 Ha2]. split; [done|].
    intros Hx. apply Ha2. apply list_elem_of_fmap in Hx as (y & -> & Hy). apply list_elem_of_fmap_2. by eapply elem_of_sublist.
Qed.

Lemma withCleanup_same st : withCleanup st (st_Cleanup st) = st.
Proof. by destruct st. Qed.

(** Two states with the same generations and what a drain leaves of the debt. *)
Record drained c st st' p : Prop := {
  dr_current : st_Current st' = st_Current st;
  dr_pending : st_Pending st' = st_Pending st;
  dr_sub : st_Cleanup st' `sublist_of` st_Cleanup st;
  dr_gone : forall r, r ∈ st_Cleanup st -> r ∈ st_Cleanup st' \/ p !! rt_Anchor r <> Some (reserved c) }.
Lemma drained_refl c st p : drained c st st p.
Proof. split; auto. Qed.

Lemma cleanup_run c st w o w' : holds c st w -> cleanupLocked c st w = (o, w') ->
  drops c (anchors (st_Cleanup st)) (pinsOf w) (pinsOf w') /\ exists errs st', o = Ok (errs, st') /\ holds c st' w' /\ drained c st st' (pinsOf w').
Proof.
  intros Hh. unfold cleanupLocked. destruct (length _ =? 0)%nat.
  { intros [= <- <-]. split; [apply drops_refl|]. exists [], st. auto using drained_refl. }
  destruct Hh as [Hm (k & Hk & Hkm & Ec & Ep)]. intros [([l errs] & w1 & H1 & H)|(e & H1 & _)]%bind_run; apply drain_run in H1 as (F1 & Hd & l' & errs' & Ho & Hsub & Hin); [|discriminate Ho].
  injection Ho as <- <-. cbv zeta in H. apply bind_run_attempt in H as (saved & w2 & H2 & H). injection H as <- <-.
  pose proof (good_withCleanup _ _ _ _ _ Hd Hsub Hin Hm) as Hm1. assert (Hk1 : ledger w1 = Ok k) by (unfold ledger in *; by rewrite F1).
  assert (Hkm1 : mem c k (pinsOf w1)).
  { eapply mem_drops; [exact Hd| |exact Hkm]. intros cur Hc. rewrite Ec in Hc. destruct Hm as [_ Ha]. specialize (Ha cur Hc). unfold anchors in *. rewrite fmap_app in Ha. set_solver. }
  apply (save_good c) in H2 as [E2 H2]; [|by exists k|apply Hm1]. split; [by rewrite E2|]. eexists _, _. split; [reflexivity|]. split; [|by rewrite E2].
  fold (withCleanup st l) in *. split; [by rewrite E2|]. destruct saved as [u|e].
  - destruct H2 as [H2 _]. exists (withCleanup st l). by rewrite E2.
  - destruct H2 as [_ [H2|H2]]; [exists k|exists (withCleanup st l)]; rewrite E2; [by rewrite H2|done].
Qed.

Lemma settle_run c st w o w' : holds c st w -> settle c st w = (o, w') ->
  drops c (anchors (st_Cleanup st)) (pinsOf w) (pinsOf w') /\ exists errs st', o = Ok errs /\ holds c st' w' /\ drained c st st' (pinsOf w').
Proof.
  intros Hh. unfold settle. intros [([errs st'] & w1 & H1 & H)|(e & H1 & _)]%bind_run; apply (cleanup_run _ _ _ _ _ Hh) in H1 as (Hd & errs' & st'' & Ho & Hh' & Hdr); [|discriminate Ho].
  injection Ho as <- <-. injection H as <- <-. eauto 10.
Qed.
Lemma transitionFailure_run {A : Type} c st e w (o : res A) w' : holds c st w -> transitionFailure c st e w = (o, w') ->
  o = Err e /\ drops c (anchors (st_Cleanup st)) (pinsOf w) (pinsOf w') /\ soundAt c (st_Current st) w'.
Proof.
  intros Hh. unfold transitionFailure. intros [([errs st'] & w1 & H1 & H)|(e' & H1 & _)]%bind_run; apply (cleanup_run _ _ _ _ _ Hh) in H1 as (Hd & errs' & st'' & Ho & Hh' & Hdr); [|discriminate Ho].
  injection H as <- <-. split_and!; [done..|]. rewrite <- (dr_current _ _ _ _ Hdr). by apply holds_at.
Qed.

(** ** Making room *)

(** The pins other than the candidate's are accounted for without the pending entry. *)
Definition kept c st (a : CidV) p : Prop := forall x, x <> a -> p !! x = Some (reserved c) -> exists r, r ∈ st_Cleanup st ++ option_list (st_Current st) /\ owned r = true /\ rt_Anchor r = x.

Lemma kept_drained c st st' a p p' l : drops c l p p' -> drained c st st' p' -> kept c st a p -> kept c st' a p'.
Proof.
  intros Hd [Ec _ _ Hg] Hk x Hx Hp. destruct (Hk x Hx) as (r & Hr & Ho & <-); [by eapply drops_reserved|]. exists r. split; [|done]. rewrite Ec.
  rewrite elem_of_app in *. destruct Hr as [Hr|Hr]; [|by right]. left. by destruct (Hg r Hr).
Qed.
Lemma appendCleanup_new l r : rt_Anchor r ∉ anchors l -> appendCleanup l r = l ++ [r].
Proof.
  intros H. unfold appendCleanup. destruct (cleanupContains l (rt_Anchor r)) eqn:E; [|done]. exfalso. apply H. unfold cleanupContains in E.
  apply existsb_exists in E as (y & Hy%list_elem_of_In & E). apply bool_decide_eq_true in E. rewrite <- E. by apply list_elem_of_fmap_2.
Qed.
Lemma anchors_drained c st st' p x : drained c st st' p -> x ∉ anchors (st_Cleanup st) -> x ∉ anchors (st_Cleanup st').
Proof.
  intros [_ _ Hs _] Hx Hin. apply Hx. unfold anchors in *. apply list_elem_of_fmap in Hin as (y & -> & Hy). apply list_elem_of_fmap_2. by eapply elem_of_sublist.
Qed.

(** The pending entry added to the debt. *)
Lemma mem_append c st q p : mem c st p -> st_Pending st = Some q -> rt_Anchor q ∉ anchors (st_Cleanup st) -> mem c (withCleanup st (st_Cleanup st ++ [q])) p.
Proof.
  intros [[He Ht Hc] Ha] Hq Hn. assert (Hq' : q ∈ stateRetained st) by (unfold stateRetained; rewrite Hq; set_solver).
  assert (Hin : forall r, r ∈ stateRetained (withCleanup st (st_Cleanup st ++ [q])) <-> r ∈ stateRetained st) by (unfold stateRetained in *; cbn; set_solver).
  split; [split; [| |done]|].
  - apply Forall_forall. intros r Hr%Hin. rewrite Forall_forall in He. by apply He.
  - intros x Hx. destruct (Ht x Hx) as (r & Hr & ?). exists r. by rewrite Hin.
  - intros cur Hcur. specialize (Ha cur Hcur). cbn. unfold anchors in *. rewrite Hq in *. cbn in *. set_solver.
Qed.

Lemma supersede_run c st a w o w' : holds c st w -> distinct st -> supersede c st a w = (o, w') ->
  drops c (anchors (st_Cleanup st)) (pinsOf w) (pinsOf w') /\
  match o with Err _ => soundAt c (st_Current st) w' | Ok st' => holds c st' w' /\ st_Current st' = st_Current st /\ st_Pending st' = st_Pending st /\ kept c st' a (pinsOf w') end.
Proof.
  intros Hh Hdi. assert (Hsame : (forall q, st_Pending st = Some q -> owned q = true -> rt_Anchor q = a) -> kept c st a (pinsOf w)).
  { intros Hq x Hx Hp. destruct Hh as [[[_ Ht _] _] _]. destruct (Ht x Hp) as (r & Hr & Ho & <-). exists r. split; [|done]. unfold stateRetained in Hr.
    rewrite !elem_of_app in *. destruct Hr as [?|[?|Hr]]; auto. destruct (st_Pending st) as [q|]; [|by apply elem_of_nil in Hr].
    apply list_elem_of_singleton in Hr as ->. by destruct Hx; apply Hq. }
  unfold supersede. destruct (st_Pending st) as [q|] eqn:Eq; [|intros [= <- <-]; split; [apply drops_refl|]; split_and!; auto; by apply Hsame].
  destruct (negb (bool_decide (rt_Anchor q = a)) && owned q) eqn:Eo.
  - intros [([errs st1] & w1 & H1 & H)|(e & H1 & _)]%bind_run; apply (cleanup_run _ _ _ _ _ Hh) in H1 as (Hd & errs' & st1' & Ho & Hh1 & Hdr); [|discriminate Ho].
    injection Ho as <- <-. destruct (full st1); [injection H as <- <-; split; [done|]; rewrite <- (dr_current _ _ _ _ Hdr); by apply holds_at|]. injection H as <- <-. split; [done|].
    assert (Hn : rt_Anchor q ∉ anchors (st_Cleanup st1)) by (eapply anchors_drained; [exact Hdr|by apply Hdi]).
    assert (Eq1 : st_Pending st1 = Some q) by (rewrite (dr_pending _ _ _ _ Hdr); done). rewrite (appendCleanup_new _ _ Hn). destruct Hh1 as [Hm1 (k & Hk & Hkm & Ec & Ep)].
    split; [split; [by apply mem_append|by exists k]|]. cbn [st_Current st_Pending]. rewrite (dr_current _ _ _ _ Hdr). split_and!; [done|congruence|].
    intros x Hx Hp. cbn [st_Cleanup st_Current]. destruct Hm1 as [[_ Ht _] _]. destruct (Ht x Hp) as (r & Hr & Ho & <-). exists r. split; [|done]. unfold stateRetained in Hr. rewrite Eq1 in Hr.
    rewrite <- (dr_current _ _ _ _ Hdr). set_solver.
  - intros [= <- <-]. split; [apply drops_refl|]. split_and!; [done..|]. apply Hsame. intros q' [= <-] Hq. rewrite Hq, andb_true_r in Eo. apply negb_false_iff, bool_decide_eq_true in Eo. done.
Qed.

Lemma reserve_run c st a w o w' : holds c st w -> reserve c st a w = (o, w') ->
  drops c (anchors (st_Cleanup st)) (pinsOf w) (pinsOf w') /\
  match o with Err _ => soundAt c (st_Current st) w' | Ok st' => holds c st' w' /\ drained c st st' (pinsOf w') end.
Proof.
  intros Hh. unfold reserve. destruct (st_Current st) as [cur|] eqn:Ec; [|intros [= <- <-]; auto using drops_refl, drained_refl].
  destruct (_ && _); [|intros [= <- <-]; auto using drops_refl, drained_refl].
  intros [([errs st1] & w1 & H1 & H)|(e & H1 & _)]%bind_run; apply (cleanup_run _ _ _ _ _ Hh) in H1 as (Hd & errs' & st1' & Ho & Hh1 & Hdr); [|discriminate Ho].
  injection Ho as <- <-. destruct (full st1); injection H as <- <-; split; try done. rewrite <- Ec, <- (dr_current _ _ _ _ Hdr). by apply holds_at.
Qed.

(** ** Preparing *)

Lemma orFail_run {A : Type} c st (m : M W A) w o w' : orFail c st m w = (o, w') ->
  exists x w1, m w = (x, w1) /\ match x with Ok y => o = Ok y /\ w' = w1 | Err e => transitionFailure c st e w1 = (o, w') end.
Proof. unfold orFail. intros (x & w1 & H1 & H)%bind_run_attempt. exists x, w1. split; [done|]. destruct x; [by injection H as <- <-|done]. Qed.

(** An action of the node that adds the candidate's pin or nothing. *)
Lemma orFail_pin c st q (m : M B unit) w o w' : holds c st w -> ledger w = Ok st -> st_Pending st = Some q -> owned q = true -> pinsOf w !! rt_Anchor q = None ->
  (forall s x s', m s = (x, s') -> s = snd w -> pins s' = pins s \/ pins s' = <[rt_Anchor q := reserved c]> (pins s)) ->
  orFail c st (onKubo m) w = (o, w') ->
  changes c (Some (rt_Anchor q)) (pinsOf w) (pinsOf w') /\ match o with Ok _ => holds c st w' /\ ledger w' = Ok st | Err _ => soundAt c (st_Current st) w' end.
Proof.
  intros Hh Hl Hq Ho Hn Hm (x & w1 & H1 & H)%orFail_run. unfold onKubo in H1. destruct (m (snd w)) as [x' b] eqn:E. injection H1 as <- <-. apply Hm in E; [|done].
  assert (Hl1 : ledger (fst w, b) = Ok st) by done. set (w1 := (fst w, b)) in *. change (pinsOf w1 = pinsOf w \/ pinsOf w1 = <[rt_Anchor q := reserved c]> (pinsOf w)) in E.
  assert (Hch : changes c (Some (rt_Anchor q)) (pinsOf w) (pinsOf w1)).
  { destruct E as [E|E]; rewrite E; [done|]. intros y. destruct (decide (y = rt_Anchor q)) as [->|Hy]; [|left; by rewrite lookup_insert_ne]. right; right. by rewrite lookup_insert_eq. }
  assert (Hm1 : mem c st (pinsOf w1)) by (destruct Hh as [Hm0 _]; destruct E as [E|E]; rewrite E; [done|by apply mem_pin]).
  assert (Hh1 : holds c st w1) by (split; [done|by exists st]). destruct x' as [u|e].
  - by destruct H as [-> ->].
  - apply (transitionFailure_run _ _ _ _ _ _ Hh1) in H as (-> & Hd & Hs). split; [|done]. etransitivity; [exact Hch|by eapply drops_changes].
Qed.

Lemma pinCandidate_run c st q w o w' : holds c st w -> ledger w = Ok st -> st_Pending st = Some q -> owned q = true -> pinsOf w !! rt_Anchor q = None ->
  pinCandidate c st (rt_Anchor q) w = (o, w') ->
  changes c (Some (rt_Anchor q)) (pinsOf w) (pinsOf w') /\ match o with Ok _ => holds c st w' /\ ledger w' = Ok st | Err _ => soundAt c (st_Current st) w' end.
Proof.
  intros Hh Hl Hq Ho Hn. unfold pinCandidate.
  assert (Hadd : orFail c st (onKubo (bk_PinAddRecursive (rt_Anchor q) (ct_pinName c))) w = (o, w') ->
    changes c (Some (rt_Anchor q)) (pinsOf w) (pinsOf w') /\ match o with Ok _ => holds c st w' /\ ledger w' = Ok st | Err _ => soundAt c (st_Current st) w' end).
  { apply orFail_pin; try done. intros s x s' E _. apply bk_add_spec in E. destruct x; auto. }
  destruct (st_Current st) as [cur|] eqn:Ec; [|exact Hadd]. destruct (owned cur); [|exact Hadd]. clear Hadd. rewrite <- Ec. pose proof (holds_at _ _ _ Hh) as Hat.
  intros [(s & w1 & H1 & H)|(e & H1 & ->)]%bind_run; apply status_run in H1 as [Hs Hv]; [|split; [by destruct Hs as [_ ->]|by eapply soundAt_same]].
  specialize (Hv s eq_refl). destruct (exactly (ct_pinName c) s) eqn:Ee; cbn [negb] in H; [|injection H as <- <-; split; [by destruct Hs as [_ ->]|by eapply soundAt_same]].
  unfold exactly in Ee. apply bool_decide_eq_true in Ee. destruct Hs as [Hs1 Hs2]. rewrite <- Hs2 in *. revert H. apply orFail_pin; try done.
  - by eapply holds_same.
  - unfold ledger in *. by rewrite Hs1.
  - intros y x y' E ->. apply bk_update_spec in E. cbv zeta in E. change (pins (snd w1)) with (pinsOf w1) in *. rewrite <- Hv, Ee in E. cbn in E. destruct x; auto.
Qed.

(** What a call promises of the pins and of the durable current generation. *)
Definition keeps c (a : option CidV) (cur : option retainedGeneration) w w' : Prop := changes c a (pinsOf w) (pinsOf w') /\ soundAt c cur w'.
Lemma keeps_same c a cur w w' : same w w' -> soundAt c cur w -> keeps c a cur w w'.
Proof. intros Hs H. split; [by destruct Hs as [_ ->]|by eapply soundAt_same]. Qed.
Lemma keeps_before c a cur w w1 w' : changes c a (pinsOf w) (pinsOf w1) -> keeps c a cur w1 w' -> keeps c a cur w w'.
Proof. intros H1 [H2 H3]. split; [by etransitivity|done]. Qed.

(** The ledger holds the pending generation, and its anchor is protected. *)
Definition pendingIs c (n : RGeneration) (a : CidV) w : Prop :=
  exists k q, ledger w = Ok k /\ st_Pending k = Some q /\ rt_Generation q = n /\ rt_Anchor q = a /\ protectedBy c (pinsOf w) q.

Lemma settle_keeps c st a w o w' : holds c st w -> settle c st w = (o, w') ->
  keeps c a (st_Current st) w w' /\ is_ok o /\
  (forall q, st_Pending st = Some q -> rt_Anchor q ∉ anchors (st_Cleanup st) -> protectedBy c (pinsOf w) q -> pendingIs c (rt_Generation q) (rt_Anchor q) w') /\
  (forall r, rt_Anchor r ∉ anchors (st_Cleanup st) -> protectedBy c (pinsOf w) r -> protectedBy c (pinsOf w') r).
Proof.
  intros Hh H. apply (settle_run _ _ _ _ _ Hh) in H as (Hd & errs & st' & -> & Hh' & Hdr). split; [split; [by eapply drops_changes|rewrite <- (dr_current _ _ _ _ Hdr); by apply holds_at]|].
  split; [done|]. assert (Hsame : forall r, rt_Anchor r ∉ anchors (st_Cleanup st) -> protectedBy c (pinsOf w) r -> protectedBy c (pinsOf w') r).
  { intros r Hn Hp. eapply protected_same; [|exact Hp]. by eapply drops_outside. }
  split; [|done]. intros q Hq Hn Hp. destruct Hh' as [_ (k & Hk & _ & _ & Ep)]. exists k, q. split_and!; [done| |done..|].
  - rewrite Ep, (dr_pending _ _ _ _ Hdr). done.
  - by apply Hsame.
Qed.

Lemma protectCandidate_run c st q s w o w' : holds c st w -> ledger w = Ok st -> st_Pending st = Some q -> rt_Anchor q ∉ anchors (st_Cleanup st) ->
  (recursive s = false -> owned q = true /\ pinsOf w !! rt_Anchor q = None) ->
  protectCandidate c st (rt_Ownership q) (rt_Anchor q) s w = (o, w') ->
  keeps c (Some (rt_Anchor q)) (st_Current st) w w' /\ (is_ok o -> pendingIs c (rt_Generation q) (rt_Anchor q) w').
Proof.
  intros Hh Hl Hq Hn Hs. unfold protectCandidate.
  assert (Hno : forall e, is_ok (Err e : res (list err)) -> pendingIs c (rt_Generation q) (rt_Anchor q) w') by (intros e []).
  intros [(u & w1 & H1 & H)|(e & H1 & ->)]%bind_run.
  2:{ split; [|apply Hno]. destruct (recursive s); [discriminate H1|]. destruct Hs as [Ho Hp]; [done|]. by apply (pinCandidate_run c st q) in H1 as [? ?]. }
  assert (Hw1 : changes c (Some (rt_Anchor q)) (pinsOf w) (pinsOf w1) /\ holds c st w1).
  { destruct (recursive s); [by injection H1 as <- <-|]. destruct Hs as [Ho Hp]; [done|]. by apply (pinCandidate_run c st q) in H1 as [? [? _]]. }
  destruct Hw1 as [Hc1 Hh1]. enough (keeps c (Some (rt_Anchor q)) (st_Current st) w1 w' /\ (is_ok o -> pendingIs c (rt_Generation q) (rt_Anchor q) w')) as [Hk ?] by (split; [by eapply keeps_before|done]).
  assert (Htf : forall (A : Type) e w2 w3 (x : res A), holds c st w2 -> same w1 w2 -> transitionFailure c st e w2 = (x, w3) -> x = Err e /\ keeps c (Some (rt_Anchor q)) (st_Current st) w1 w3).
  { intros A e w2 w3 x Hh2 [_ E2] Ht. apply (transitionFailure_run _ _ _ _ _ _ Hh2) in Ht as (-> & Hd & Hsd). split; [done|]. split; [|done]. rewrite <- E2. by eapply drops_changes. }
  apply bind_run in H as [(s' & w2 & H2 & H)|(e & H2 & ->)]; apply orFail_run in H2 as (x & w2' & H2 & H2'); apply status_run in H2 as [Hs2 Hv2]; pose proof (holds_same _ _ _ _ Hs2 Hh1) as Hh2.
  2:{ split; [|apply Hno]. destruct x as [y|e']; [by destruct H2'|]. by apply Htf in H2' as [_ ?]. }
  destruct x as [y|e']; [|by apply Htf in H2' as [? _]]. destruct H2' as [[= ->] ->]. specialize (Hv2 y eq_refl).
  apply bind_run in H as [([] & w3 & H3 & H)|(e & H3 & ->)]; destruct (recursive y) eqn:Er.
  2:{ by apply Htf in H3 as [? _]. } 2:{ discriminate H3. } 2:{ apply Htf in H3 as [_ ?]; [|done..]. split; [done|apply Hno]. }
  injection H3 as <-. apply bind_run in H as [([] & w4 & H4 & H)|(e & H4 & ->)]; destruct (bool_decide _ && _) eqn:Eo.
  1:{ by apply Htf in H4 as [? _]. } 2:{ apply Htf in H4 as [_ ?]; [|done..]. split; [done|apply Hno]. } 2:{ discriminate H4. }
  injection H4 as <-. apply (settle_keeps c st (Some (rt_Anchor q))) in H as (Hk & _ & Hp & _); [|done]. split.
  - eapply keeps_before; [|exact Hk]. by destruct Hs2 as [_ ->].
  - intros _. apply Hp; [done..|]. destruct Hs2 as [_ ->]. subst y. split; [done|]. intros Ho. unfold owned in Ho. apply bool_decide_eq_true in Ho.
    rewrite (bool_decide_true _ Ho) in Eo. cbn [andb] in Eo. apply negb_false_iff in Eo. unfold exactly in Eo. by apply bool_decide_eq_true in Eo.
Qed.

Lemma save_at c cur st w o w' : soundAt c cur w -> good c st (pinsOf w) -> st_Current st = cur -> onKV (saveControllerState st) w = (o, w') ->
  pinsOf w' = pinsOf w /\ match o with Ok _ => ledger w' = Ok st /\ holds c st w' | Err _ => soundAt c cur w' end.
Proof.
  intros (k & Hk & Hkm & <-) Hg Hc H. apply (save_good c) in H as [Hp H]; [|by exists k|done]. split; [done|]. destruct o as [|e]; [done|].
  destruct H as [(k' & Hk' & Hm') H]. exists k'. split_and!; [done..|]. destruct H as [H|H]; rewrite H in Hk'; [rewrite Hk in Hk'|]; by injection Hk' as <-.
Qed.

Lemma NoDup_fmap_eq {A C : Type} (f : A -> C) l x y : NoDup (f <$> l) -> x ∈ l -> y ∈ l -> f x = f y -> x = y.
Proof.
  intros Hn Hx Hy E. apply list_elem_of_lookup in Hx as [i Hi], Hy as [j Hj]. assert (i = j) as ->; [|congruence].
  apply (NoDup_lookup (f <$> l) i j (f x) Hn); [by rewrite list_lookup_fmap, Hi|rewrite list_lookup_fmap, Hj; cbn; congruence].
Qed.
Lemma distinct_nodup st : distinct st -> NoDup (anchors (stateRetained st)).
Proof.
  intros [Ha Hp _ Hn]. unfold stateRetained, anchors in *. rewrite !fmap_app, !NoDup_app. unfold apart, anchors in Ha. destruct (st_Current st) as [cur|], (st_Pending st) as [q|]; cbn in *.
  all: try specialize (Ha _ eq_refl); try specialize (Hp _ eq_refl). all: split_and!; try done; try apply NoDup_singleton; try apply NoDup_nil; set_solver.
Qed.

Lemma known_none st a r : retainedByAnchor st a = None -> r ∈ stateRetained st -> rt_Anchor r <> a.
Proof.
  unfold retainedByAnchor, stateRetained. intros H Hr E. assert (Hin : List.In r (option_list (st_Current st) ++ option_list (st_Pending st) ++ st_Cleanup st)) by (apply list_elem_of_In; set_solver).
  pose proof (List.find_none _ _ H r Hin) as Hf. by apply bool_decide_eq_false in Hf.
Qed.
Lemma known_some st a r : retainedByAnchor st a = Some r -> r ∈ stateRetained st /\ rt_Anchor r = a.
Proof.
  unfold retainedByAnchor, stateRetained. intros [Hr%list_elem_of_In E]%List.find_some. apply bool_decide_eq_true in E. split; [|done]. set_solver.
Qed.

(** The ownership of the candidate: never taken from a pin of another client, never given
    up for one of our own. *)
Lemma classify_owner c st a p own : distinct st -> Forall (entry_ok c) (stateRetained st) -> tracked c (stateRetained st) p -> classify c (p !! a) (retainedByAnchor st a) = Ok own ->
  (own = OwnershipOwned \/ own = OwnershipBorrowed) /\ (p !! a = Some (reserved c) -> own = OwnershipOwned) /\ (recursive (p !! a) = false -> own = OwnershipOwned /\ p !! a = None).
Proof.
  intros Hdi He Ht. destruct (retainedByAnchor st a) as [k|] eqn:Ek.
  - apply known_some in Ek as [Hk Ea]. rewrite Forall_forall in He. destruct (He k Hk) as [[_ _ _ Ho _] _]. unfold owned, borrowed in Ho. rewrite !bool_decide_eq_true in Ho.
    assert (Hres : p !! a = Some (reserved c) -> rt_Ownership k = OwnershipOwned).
    { intros H. destruct (Ht a H) as (r & Hr & Hro & Er). assert (k = r) as ->; [|by apply bool_decide_eq_true in Hro].
      apply (NoDup_fmap_eq rt_Anchor (stateRetained st)); [by apply distinct_nodup|done..|congruence]. }
    unfold classify. destruct (p !! a) as [s|] eqn:Ep.
    + destruct (ps_Recursive s) eqn:Er; cbn [negb]; [|done]. destruct (_ && _); [done|]. intros [= <-]. split_and!; [done|done|]. cbn. by rewrite Er.
    + unfold borrowed. case_bool_decide as Hb; [done|]. intros [= <-]. split_and!; [done|done|]. intros _. by destruct Ho.
  - unfold classify. destruct (p !! a) as [s|] eqn:Ep.
    + destruct (ps_Recursive s) eqn:Er; cbn [negb]; [|done]. case_bool_decide as Hn; [done|]. intros [= <-]. split_and!; [by right| |cbn; by rewrite Er].
      intros [= ->]. by destruct Hn.
    + intros [= <-]. auto.
Qed.

Definition generation_ok c (n : RGeneration) (a : CidV) : Prop :=
  Normalize n = Ok n /\ (exists d, Block n = Ok (d, a)) /\ gen_fits n /\ rg_ReplicaID n = ct_replicaID c.
Definition time_fits (now : Time) : Prop := Unix now < 2 ^ 63.

Lemma candidate_ok c g n d a : gen_fits g -> candidate c g = Ok (n, (d, a)) -> generation_ok c n a.
Proof.
  intros [Hu Hh]. unfold candidate. intros (n' & Hn & ([d' a'] & Hb & [= <- <- <-])%rbind_ok)%rbind_ok. split_and!; [by eapply Normalize_idem|by exists d'|..].
  - eapply Normalize_fits; [exact Hn|]. by split.
  - by apply Normalize_inv in Hn as (_ & -> & _).
Qed.

Lemma removeCleanup_in l a r : r ∈ removeCleanup l a <-> r ∈ l /\ rt_Anchor r <> a.
Proof. unfold removeCleanup. rewrite list_elem_of_filter. tauto. Qed.

(** The ledger that makes the candidate pending. *)
Lemma good_pending c st q p : good c st p -> apart st -> kept c st (rt_Anchor q) p -> entry_ok c q -> (p !! rt_Anchor q = Some (reserved c) -> owned q = true) ->
  good c (mkState (st_Current st) (Some q) (removeCleanup (st_Cleanup st) (rt_Anchor q))) p.
Proof.
  intros [He _ Hc] Ha Hk Hq Ho. unfold stateRetained in *. split; cbn [stateRetained st_Current st_Pending st_Cleanup]; [| |done].
  - rewrite Forall_forall in He |- *. intros r Hr. unfold stateRetained in Hr. cbn [st_Current st_Pending st_Cleanup] in Hr. rewrite !elem_of_app, removeCleanup_in in Hr.
    destruct Hr as [[Hr _]|[Hr|Hr]]; [apply He; set_solver..|]. by apply list_elem_of_singleton in Hr as ->.
  - intros x Hx. destruct (decide (x = rt_Anchor q)) as [->|Hne].
    + exists q. split; [unfold stateRetained; cbn; set_solver|]. auto.
    + destruct (Hk x Hne Hx) as (r & Hr & Hro & <-). exists r. split; [|done]. unfold stateRetained. cbn [st_Current st_Pending st_Cleanup]. rewrite !elem_of_app, removeCleanup_in in *.
      destruct Hr as [Hr|Hr]; auto.
Qed.

Lemma prepareCandidate_run c now st n a w o w' : holds c st w -> ledger w = Ok st -> generation_ok c n a -> time_fits now ->
  prepareCandidate c now st n a w = (o, w') -> keeps c (Some a) (st_Current st) w w' /\ (is_ok o -> pendingIs c n a w').
Proof.
  intros Hh Hl (Hn & Hb & Hf & Hid) Hnow. pose proof (ledger_distinct _ _ Hl) as Hdi. pose proof (holds_at _ _ _ Hh) as Hat. unfold prepareCandidate.
  assert (Hno : forall e, is_ok (Err e : res (list err)) -> pendingIs c n a w') by (intros e []).
  intros [(s & w1 & H1 & H)|(e & H1 & ->)]%bind_run; apply status_run in H1 as [Hs1 Hv]; [|split; [by apply keeps_same|apply Hno]]. specialize (Hv s eq_refl).
  apply bind_run in H as [(own & w2 & H2 & H)|(e & H2 & ->)]; injection H2 as H2 <-; [|split; [by apply keeps_same|apply Hno]].
  assert (Hcl : (own = OwnershipOwned \/ own = OwnershipBorrowed) /\ (s = Some (reserved c) -> own = OwnershipOwned) /\ (recursive s = false -> own = OwnershipOwned /\ s = None)).
  { destruct Hh as [[[He Ht _] _] _]. subst s. by eapply classify_owner. }
  destruct Hcl as (Hown & Hcl1 & Hcl2). cbv zeta in H. match type of H with context [mkRetained n a own ?t] => set (at_ := t) in H end. set (q := mkRetained n a own at_) in H.
  pose proof (holds_same _ _ _ _ Hs1 Hh) as Hh1. assert (Hp1 : pinsOf w1 = pinsOf w) by (by destruct Hs1). rewrite <- Hp1 in Hv.
  apply bind_run in H as [(st2 & w2 & H2' & H)|(e & H2' & ->)]; apply (supersede_run _ _ _ _ _ _ Hh1 Hdi) in H2' as [Hd2 H2'].
  2:{ split; [|apply Hno]. split; [|done]. rewrite <- Hp1. by eapply drops_changes. }
  destruct H2' as (Hh2 & Ec2 & Ep2 & Hk2). unfold keeps. rewrite <- Hp1.
  apply bind_run in H as [(st3 & w3 & H3 & H)|(e & H3 & ->)]; apply (reserve_run _ _ _ _ _ _ Hh2) in H3 as [Hd3 H3].
  2:{ split; [|apply Hno]. rewrite Ec2 in H3. split; [|done]. etransitivity; by eapply drops_changes. }
  destruct H3 as [Hh3 Hdr3]. pose proof (kept_drained _ _ _ _ _ _ _ Hd3 Hdr3 Hk2) as Hk3. assert (Ec3 : st_Current st3 = st_Current st) by (rewrite (dr_current _ _ _ _ Hdr3); done).
  assert (Hch : forall b, changes c b (pinsOf w1) (pinsOf w3)) by (intros b; etransitivity; by eapply drops_changes).
  assert (Hnone : s = None -> pinsOf w3 !! a = None). { intros E. destruct (Hch None a) as [?|[[? _]|(? & _)]]; congruence. }
  assert (Hg : good c (mkState (st_Current st3) (Some q) (removeCleanup (st_Cleanup st3) a)) (pinsOf w3)).
  { apply (good_pending c st3 q); [by apply Hh3|by apply Hh3|done| |].
    - split; [|done]. split; [done|done|done| |].
      + unfold owned, borrowed. cbn. rewrite !bool_decide_eq_true. done.
      + cbn. unfold at_. assert (Ht0 : truncSecond (truncSecond now) = truncSecond now /\ Unix (truncSecond now) < 2 ^ 63) by (by rewrite trunc_trunc, Unix_trunc).
        destruct (st_Pending st) as [q0|] eqn:Eq0; [|done]. case_bool_decide; [|done]. destruct Hh as [[[He _ _] _] _]. rewrite Forall_forall in He.
        assert (Hq0 : q0 ∈ stateRetained st) by (unfold stateRetained; rewrite Eq0; set_solver). by destruct (He q0 Hq0) as [[_ _ _ _ ?] _].
    - cbn. intros Hx. unfold owned. cbn. apply bool_decide_eq_true, Hcl1. destruct (Hch None a) as [?|[[? _]|(? & _)]]; congruence. }
  apply bind_run in H as [([] & w4 & H4 & H)|(e & H4 & ->)]; apply (save_at c (st_Current st)) in H4 as [Hp4 H4]; try done; try (rewrite <- Ec3; by apply holds_at).
  2:{ split; [|apply Hno]. split; [|done]. by rewrite Hp4. }
  destruct H4 as [Hl4 Hh4]. apply (protectCandidate_run c _ q) in H as [[Hc5 Hs5] Hp5]; [|done|done|done| |].
  - cbn [rt_Anchor st_Current] in *. rewrite Ec3 in Hs5. split; [split; [|done]|done]. etransitivity; [apply Hch|]. by rewrite <- Hp4.
  - cbn. unfold anchors. intros (r & Er & Hr)%list_elem_of_fmap. by apply removeCleanup_in in Hr as [_ ?].
  - intros Hr. destruct (Hcl2 Hr) as [Ho Hs]. cbn. rewrite Hp4. split; [|by apply Hnone]. unfold owned. cbn. by apply bool_decide_eq_true.
Qed.
End Calls.
