(* ===== verification/ReplicaSteps.v ===== *)
(** The calls of the replica controller, and every run of them beside other clients of the
    node: the committed generation stays protected and no pin is orphaned. *)
From S2P Require Import Prelude Cid Schema Core Engine Ledger Json JsonDecode Publication Replica ReplicaCodec ReplicaCorrect ReplicaSafety.

Section Steps.
Context `{MH : Multihash} `{CB : !DagCbor} `{CT : !CidText} `{CP : !CidParse} {MD : BorrowMode} {K : Type} `{PB : !Pebble K} `{PO : !PebbleOk K} {B : Type} `{BK : !Backend B} `{BO : !BackendOk B}.
Local Abbreviation W := (K * B)%type.
Implicit Types (c : Controller) (st : controllerState) (r : retainedGeneration) (w : W).

(** The anchor a call is about. *)
Definition anchorOf c (g : RGeneration) : option CidV := match candidate c g with Ok (_, (_, a)) => Some a | Err _ => None end.
Definition currentIs c (n : RGeneration) (a : CidV) w : Prop :=
  exists k cur, ledger w = Ok k /\ st_Current k = Some cur /\ rt_Generation cur = n /\ rt_Anchor cur = a /\ protectedBy c (pinsOf w) cur.

(** The generation is committed, its anchor guarded. *)
Definition committedIs c (n : RGeneration) (a : CidV) w : Prop :=
  exists k cur, ledger w = Ok k /\ st_Current k = Some cur /\ rt_Generation cur = n /\ rt_Anchor cur = a /\ guarded c (pinsOf w) cur.
Lemma current_committed c n a w : currentIs c n a w -> committedIs c n a w.
Proof. intros (k & cur & ? & ? & ? & ? & ?). exists k, cur. split_and!; try done. by apply protected_guarded. Qed.

(** ** Prepare *)

Lemma good_retire c st q p : good c st p -> apart st -> st_Pending st = Some q -> rt_Anchor q ∉ anchors (st_Cleanup st) ->
  good c (mkState (st_Current st) None (if owned q then appendCleanup (st_Cleanup st) q else st_Cleanup st)) p.
Proof.
  intros [He Ht Hc] Ha Hq Hn. unfold stateRetained in *. rewrite Hq in *. rewrite (appendCleanup_new _ _ Hn). split; [| |done].
  - rewrite Forall_forall in *. intros r Hr. apply He. unfold stateRetained in Hr. cbn in Hr. destruct (owned q); set_solver.
  - intros x Hx. destruct (Ht x Hx) as (r & Hr & Ho & <-). exists r. split; [|done]. unfold stateRetained. cbn in *. destruct (owned q) eqn:Eq; [set_solver|].
    rewrite !elem_of_app in *. destruct Hr as [?|[?|Hr]]; auto. apply list_elem_of_singleton in Hr as ->. congruence.
Qed.

Lemma retirePending_run c st a w o w' : holds c st w -> distinct st -> retirePending st a w = (o, w') ->
  pinsOf w' = pinsOf w /\ match o with Ok st' => holds c st' w' /\ st_Current st' = st_Current st | Err _ => soundAt c (st_Current st) w' end.
Proof.
  intros Hh Hdi. unfold retirePending. destruct (st_Pending st) as [q|] eqn:Eq; [|by intros [= <- <-]]. case_bool_decide; [by intros [= <- <-]|]. cbv zeta.
  assert (Hg := good_retire c st q (pinsOf w) (proj1 (proj1 Hh)) (proj2 (proj1 Hh)) Eq (d_pending _ Hdi _ Eq)).
  intros [([] & w1 & H1 & H2)|(e & H1 & ->)]%bind_run; apply (save_at c (st_Current st)) in H1 as [Hp H1]; try done; try (by apply holds_at).
  injection H2 as <- <-. split; [done|]. by destruct H1.
Qed.

Lemma ctx_run w o w' : onKV kv_ctx w = (o, w') -> same w w'.
Proof. unfold onKV. destruct (kv_ctx (fst w)) as [x s] eqn:E. intros [= <- <-]. by apply kv_ctx_spec in E as [-> _]. Qed.
Lemma put_run d a w o w' : onKubo (bk_PutBlock d a) w = (o, w') -> same w w'.
Proof. unfold onKubo. destruct (bk_PutBlock d a (snd w)) as [x s] eqn:E. intros [= <- <-]. by apply bk_put_spec in E. Qed.

Lemma Prepare_run c now g k w o w' : sound c w -> ledger w = Ok k -> gen_fits g -> time_fits now -> Prepare c now g w = (o, w') ->
  keeps c (anchorOf c g) (st_Current k) w w' /\ (is_ok o -> exists n d a, candidate c g = Ok (n, (d, a)) /\ (pendingIs c n a w' \/ currentIs c n a w')).
Proof.
  intros Hs Hk Hf Hnow. assert (Hat : soundAt c (st_Current k) w). { destruct Hs as (k' & Hk' & Hm). rewrite Hk in Hk'. injection Hk' as <-. by exists k. }
  assert (Hno : forall e, is_ok (Err e : res (list err)) -> exists n d a, candidate c g = Ok (n, (d, a)) /\ (pendingIs c n a w' \/ currentIs c n a w')) by (intros e []).
  unfold Prepare. intros [([] & w1 & H1 & H)|(e & H1 & ->)]%bind_run; apply ctx_run in H1 as Hs1; [|split; [by apply keeps_same|apply Hno]].
  clear H1. unfold anchorOf. destruct (candidate c g) as [[n [d a]]|e] eqn:Ec; [|injection H as <- <-; split; [by apply keeps_same|apply Hno]].
  pose proof (candidate_ok _ _ _ _ _ Hf Ec) as Hgen. unfold bind at 1, lift in H.
  apply bind_run in H as [([] & w2 & H2 & H)|(e & H2 & ->)]; apply put_run in H2; pose proof (same_trans _ _ _ Hs1 H2) as Hs2; [|split; [by apply keeps_same|apply Hno]].
  assert (Hs3 : sound c w2) by (by eapply sound_same). apply bind_run in H as [(st & w3 & H3 & H)|(e & H3 & ->)]; apply (loadLedger_run _ _ _ _ Hs3) in H3 as [Hs4 H3]; pose proof (same_trans _ _ _ Hs2 Hs4) as Hs5.
  2:{ split; [by apply keeps_same|apply Hno]. }
  destruct H3 as [Hl3 Hh3]. assert (Hl4 : ledger w3 = Ok st) by (unfold ledger in *; by destruct Hs4 as [-> _]).
  assert (k = st) as <-. { unfold ledger in *. destruct Hs5 as [E5 _]. rewrite E5, Hk in Hl4. by injection Hl4. }
  assert (Hcand : prepareCandidate c now k n a w3 = (o, w') -> keeps c (Some a) (st_Current k) w w' /\ (is_ok o -> exists n' d' a', (Ok (n, (d, a)) : res _) = Ok (n', (d', a')) /\ (pendingIs c n' a' w' \/ currentIs c n' a' w'))).
  { intros Hp. apply prepareCandidate_run in Hp as [[Hp1 Hp2] Hp3]; [|done..]. split; [split; [|done]; by destruct Hs5 as [_ <-]|]. intros Ho. exists n, d, a. auto. }
  destruct (st_Current k) as [cur|] eqn:Ecur; [|by apply Hcand]. case_bool_decide as Ea; [|by apply Hcand]. clear Hcand. subst a.
  pose proof (ledger_distinct _ _ Hl4) as Hdi.
  apply bind_run in H as [([] & w4 & H4 & H)|(e & H4 & ->)]; apply requirePinned_run in H4 as [Hs6 Hpr]; pose proof (same_trans _ _ _ Hs5 Hs6) as Hs7; [|split; [by apply keeps_same|apply Hno]].
  specialize (Hpr eq_refl). pose proof (holds_same _ _ _ _ Hs6 Hh3) as Hh4.
  apply bind_run in H as [(st5 & w5 & H5 & H)|(e & H5 & ->)]; apply (retirePending_run c k) in H5 as [Hp5 H5]; try done.
  2:{ split; [|apply Hno]. rewrite Ecur in H5. split; [|done]. rewrite Hp5. by destruct Hs7 as [_ ->]. }
  destruct H5 as [Hh5 Ec5]. apply (settle_keeps c st5 (Some (rt_Anchor cur))) in H as ([Hk1 Hk2] & _ & _ & Hkeep); [|done]. rewrite Ec5, Ecur in Hk2. split.
  - split; [|done]. rewrite Hp5 in Hk1. by destruct Hs7 as [_ <-].
  - intros _. exists n, d, (rt_Anchor cur). split; [done|]. right. destruct Hk2 as (k' & Hk' & [[He' _ _] _] & Ec'). exists k', cur. split_and!; [done..| |done|].
    2:{ apply Hkeep; [|by rewrite Hp5; destruct Hs6 as [_ ->]]. destruct Hh5 as [[_ Ha5] _]. specialize (Ha5 cur ltac:(congruence)).
        unfold anchors in *. rewrite fmap_app in Ha5. set_solver. }
    assert (Hin : cur ∈ stateRetained k') by (unfold stateRetained; rewrite Ec'; set_solver). rewrite Forall_forall in He'. destruct (He' cur Hin) as [[Hn' [d' Hb'] Hf' _ _] _].
    destruct Hgen as (Hn & [d0 Hb0] & Hf0 & _). by eapply (anchor_generation (rt_Generation cur) n).
Qed.

(** With the debt at its bound, giving up an owned pending generation cannot be saved: the
    call fails and nothing is drained. *)
Lemma retire_full st q a (w : W) : length (st_Cleanup st) = S maxGenerationHeads -> st_Pending st = Some q -> owned q = true -> rt_Anchor q ∉ anchors (st_Cleanup st) -> rt_Anchor q <> a ->
  exists e, retirePending st a w = (Err e, w).
Proof.
  intros Hl Hq Ho Hn Ha. unfold retirePending. rewrite Hq, bool_decide_false by done. cbv zeta. rewrite Ho, (appendCleanup_new _ _ Hn).
  assert (Hd : exists e, toDisk (mkState (st_Current st) None (st_Cleanup st ++ [q])) = Err e).
  { unfold toDisk. cbn [st_Current st_Pending st_Cleanup]. destruct (match st_Current st with Some _ => _ | None => _ end) as [d|e]; [|by exists e]. cbn [rbind].
    rewrite length_app, Hl. cbn [length]. eexists. reflexivity. }
  destruct Hd as [e Hd]. unfold saveControllerState, bind, onKV, lift. destruct w as [k b]. cbn [fst snd]. destruct (validateControllerState _) as [[]|e']; [rewrite Hd|]; eexists; reflexivity.
Qed.

(** ** Commit *)

Lemma matches_spec n a o : matches n a o = true -> Normalize n = Ok n -> (forall r, o = Some r -> retained_ok r) -> exists r, o = Some r /\ rt_Anchor r = a /\ rt_Generation r = n.
Proof.
  unfold matches. destruct o as [r|]; [|done]. intros [Ha%bool_decide_eq_true He]%andb_true_iff Hn Hr. exists r. split_and!; [done..|].
  rewrite Equal_normal in He; [by apply bool_decide_eq_true in He|by apply Hr|done].
Qed.

Definition promoted (now : Time) (q : retainedGeneration) : retainedGeneration := mkRetained (rt_Generation q) (rt_Anchor q) (rt_Ownership q) (truncSecond now).
(** The debt after a commit. *)
Definition commitCleanup st (q : retainedGeneration) : list retainedGeneration :=
  match st_Current st with
  | Some previous => if negb (bool_decide (rt_Anchor previous = rt_Anchor q)) && owned previous then appendCleanup (st_Cleanup st) previous else st_Cleanup st
  | None => st_Cleanup st
  end.

Lemma good_commit c st q now p : good c st p -> apart st -> st_Pending st = Some q -> protectedBy c p q -> time_fits now ->
  good c (mkState (Some (promoted now q)) None (commitCleanup st q)) p.
Proof.
  intros [He Ht Hc] Ha Hq Hp Hnow. rewrite Forall_forall in He. assert (Hin : q ∈ stateRetained st) by (unfold stateRetained; rewrite Hq; set_solver).
  assert (Hne : forall cur, st_Current st = Some cur -> rt_Anchor cur <> rt_Anchor q /\ rt_Anchor cur ∉ anchors (st_Cleanup st)).
  { intros cur Hcur. specialize (Ha cur Hcur). unfold anchors in *. rewrite Hq, fmap_app in Ha. cbn in Ha. set_solver. }
  assert (Hcl : forall r, r ∈ commitCleanup st q <-> r ∈ st_Cleanup st \/ (st_Current st = Some r /\ owned r = true)).
  { intros r. unfold commitCleanup. destruct (st_Current st) as [cur|] eqn:Ec; [|set_solver]. destruct (Hne cur eq_refl) as [H1 H2]. rewrite bool_decide_false by done. cbn [negb andb].
    destruct (owned cur) eqn:Eo; [rewrite (appendCleanup_new _ _ H2); set_solver|]. split; [auto|]. intros [?|[[= <-] ?]]; [done|congruence]. }
  assert (Hpro : entry_ok c (promoted now q)).
  { destruct (He q Hin) as [[H1 H2 H3 H4 H5] H6]. split; [|done]. split; try done. cbn. by rewrite trunc_trunc, Unix_trunc. }
  split.
  - apply Forall_forall. intros r Hr. unfold stateRetained in Hr. cbn [st_Current st_Pending st_Cleanup option_list app] in Hr. rewrite !elem_of_app in Hr.
    destruct Hr as [[Hr|[Hr _]]%Hcl|[Hr|Hr]]; [apply He; unfold stateRetained; set_solver|apply He; unfold stateRetained; rewrite Hr; set_solver|by apply list_elem_of_singleton in Hr as ->|by apply elem_of_nil in Hr].
  - intros x Hx. destruct (Ht x Hx) as (r & Hr & Ho & <-). unfold stateRetained in *. cbn [st_Current st_Pending st_Cleanup option_list app]. rewrite Hq in Hr. rewrite !elem_of_app in Hr.
    destruct Hr as [Hr|[Hr|Hr]].
    + exists r. split; [|done]. rewrite elem_of_app, Hcl. auto.
    + exists r. split; [|done]. rewrite elem_of_app, Hcl. left; right. split; [|done]. destruct (st_Current st); [|by apply elem_of_nil in Hr]. by apply list_elem_of_singleton in Hr as ->.
    + apply list_elem_of_singleton in Hr as ->. exists (promoted now q). split; [set_solver|done].
  - intros r [= <-]. by apply (protected_guarded c p q).
Qed.

(** The ledger that is durable holds the old current generation or the promoted one. *)
Definition promotes c now k w' : Prop := exists k', ledger w' = Ok k' /\ mem c k' (pinsOf w') /\
  (st_Current k' = st_Current k \/ exists q, st_Pending k = Some q /\ st_Current k' = Some (promoted now q)).
Lemma soundAt_promotes c now k w' : soundAt c (st_Current k) w' -> promotes c now k w'.
Proof. intros (k' & ? & ? & ?). exists k'. auto. Qed.

Lemma commitPending_run c now st q w o w' : holds c st w -> ledger w = Ok st -> st_Pending st = Some q -> time_fits now -> commitPending c now st q w = (o, w') ->
  changes c None (pinsOf w) (pinsOf w') /\ promotes c now st w' /\ (is_ok o -> currentIs c (rt_Generation q) (rt_Anchor q) w').
Proof.
  intros Hh Hl Hq Hnow. pose proof (ledger_distinct _ _ Hl) as Hdi. assert (Hat : soundAt c (st_Current st) w) by (by apply holds_at).
  assert (Hno : forall e, is_ok (Err e : res (list err)) -> currentIs c (rt_Generation q) (rt_Anchor q) w') by (intros e []).
  unfold commitPending. intros [([] & w1 & H1 & H)|(e & H1 & ->)]%bind_run; apply requirePinned_run in H1 as [Hs1 Hp].
  2:{ split_and!; [by destruct Hs1 as [_ ->]|by eapply soundAt_promotes, soundAt_same|apply Hno]. }
  specialize (Hp eq_refl). assert (Hp1 : pinsOf w1 = pinsOf w) by (by destruct Hs1). rewrite <- Hp1 in *. pose proof (holds_same _ _ _ _ Hs1 Hh) as Hh1.
  apply bind_run in H as [(st2 & w2 & H2 & H)|(e & H2 & ->)]; apply (reserve_run _ _ _ _ _ _ Hh1) in H2 as [Hd2 H2].
  2:{ split_and!; [by eapply drops_changes|by apply soundAt_promotes|apply Hno]. }
  destruct H2 as [Hh2 Hdr]. cbv zeta in H. fold (promoted now q) in H. change (rt_Anchor (promoted now q)) with (rt_Anchor q) in H. fold (commitCleanup st2 q) in H.
  assert (Hp2 : protectedBy c (pinsOf w2) q). { eapply protected_same; [|exact Hp]. eapply drops_outside; [exact Hd2|]. by apply Hdi. }
  assert (Hg := good_commit c st2 q now (pinsOf w2) (proj1 (proj1 Hh2)) (proj2 (proj1 Hh2)) ltac:(by rewrite (dr_pending _ _ _ _ Hdr)) Hp2 Hnow).
  apply bind_run in H as [([] & w3 & H3 & H)|(e & H3 & ->)]; apply (save_good c) in H3 as [Hp3 H3]; try done; try (by eapply holds_sound).
  2:{ split_and!; [rewrite Hp3; by eapply drops_changes| |apply Hno]. destruct H3 as [(k' & Hk' & Hm') Hor]. exists k'. split_and!; [done..|]. destruct Hor as [Hor|Hor]; rewrite Hk' in Hor.
      - left. destruct Hh2 as [_ (k3 & Hk3 & _ & E3 & _)]. rewrite Hk3 in Hor. injection Hor as ->. by rewrite E3, (dr_current _ _ _ _ Hdr).
      - injection Hor as ->. right. by exists q. }
  destruct H3 as [Hl3 Hh3]. apply (settle_keeps c _ None) in H as ([Hk1 Hk2] & _ & _ & Hkeep); [|done]. cbn [st_Current] in Hk2. destruct Hk2 as (k' & Hk' & Hm' & Ec'). split_and!.
  - etransitivity; [by eapply drops_changes|]. by rewrite <- Hp3.
  - exists k'. split_and!; [done..|]. right. by exists q.
  - intros _. exists k', (promoted now q). split_and!; [done..|]. apply Hkeep; [|by rewrite Hp3].
    destruct Hh3 as [[_ Ha3] _]. exact (Ha3 (promoted now q) eq_refl).
Qed.

Lemma replicaCommit_run c now g k w o w' : sound c w -> ledger w = Ok k -> gen_fits g -> time_fits now -> Commit c now g w = (o, w') ->
  changes c None (pinsOf w) (pinsOf w') /\ promotes c now k w' /\ (is_ok o -> exists n d a, candidate c g = Ok (n, (d, a)) /\ committedIs c n a w').
Proof.
  intros Hs Hk Hf Hnow. assert (Hat : soundAt c (st_Current k) w). { destruct Hs as (k' & Hk' & Hm). rewrite Hk in Hk'. injection Hk' as <-. by exists k. }
  assert (Hno : forall e, is_ok (Err e : res (list err)) -> exists n d a, candidate c g = Ok (n, (d, a)) /\ committedIs c n a w') by (intros e []).
  unfold Commit. destruct (candidate c g) as [[n [d a]]|e] eqn:Ec; [|intros [= <- <-]; split_and!; [done|by apply soundAt_promotes|apply Hno]].
  destruct (candidate_ok _ _ _ _ _ Hf Ec) as (Hn & _). unfold bind at 1, lift.
  intros [(st & w1 & H1 & H)|(e & H1 & ->)]%bind_run; apply (loadLedger_run _ _ _ _ Hs) in H1 as [Hs1 H1].
  2:{ split_and!; [by destruct Hs1 as [_ ->]|by eapply soundAt_promotes, soundAt_same|apply Hno]. }
  destruct H1 as [Hl Hh]. rewrite Hk in Hl. injection Hl as <-. assert (Hl1 : ledger w1 = Ok k) by (unfold ledger in *; by destruct Hs1 as [-> _]).
  assert (Hp1 : pinsOf w1 = pinsOf w) by (by destruct Hs1). rewrite <- Hp1. assert (Hok : state_ok k). { destruct Hh as [[[He _ _] _] _]. eapply Forall_impl; [exact He|]. by intros r [? _]. }
  apply state_ok_iff in Hok as (Hoc & Hop & _). destruct (matches n a (st_Pending k)) eqn:Em.
  - apply matches_spec in Em as (q & Eq & <- & <-); [|done..]. rewrite Eq in H. apply commitPending_run in H as (H1 & H2 & H3); [|done..]. split_and!; [done..|]. intros Ho. exists (rt_Generation q), d, (rt_Anchor q). split; [done|by apply current_committed, H3].
  - destruct (matches n a (st_Current k)) eqn:Em2; cbn [negb] in H; [|injection H as <- <-; split_and!; [done|by eapply soundAt_promotes, soundAt_same|apply Hno]].
    apply matches_spec in Em2 as (cur & Eq & <- & <-); [|done..]. apply (settle_keeps c k None) in H as ([Hk1 Hk2] & _); [|done]. split_and!; [done|by apply soundAt_promotes|].
    intros _. exists (rt_Generation cur), d, (rt_Anchor cur). split; [done|]. destruct Hk2 as (k' & Hk' & Hm' & Ec'). rewrite Eq in Ec'. exists k', cur. split_and!; [done..|by apply Hm'].
Qed.

(** ** Recover *)

Lemma Recover_run c k w o w' : sound c w -> ledger w = Ok k -> Recover c w = (o, w') -> keeps c None (st_Current k) w w'.
Proof.
  intros Hs Hk. assert (Hat : soundAt c (st_Current k) w). { destruct Hs as (k' & Hk' & Hm). rewrite Hk in Hk'. injection Hk' as <-. by exists k. }
  unfold Recover. intros [(st & w1 & H1 & H)|(e & H1 & ->)]%bind_run; apply (loadLedger_run _ _ _ _ Hs) in H1 as [Hs1 H1]; [|by apply keeps_same].
  destruct H1 as [Hl Hh]. rewrite Hk in Hl. injection Hl as <-.
  assert (Hnamed : forall x w2, onKubo (bk_NamedRecursivePins (ct_pinName c)) w1 = (x, w2) -> same w1 w2).
  { unfold onKubo. destruct (bk_NamedRecursivePins _ _) as [x b] eqn:E. intros ? ? [= <- <-]. by apply bk_named_spec in E as [E _]. }
  apply bind_run in H as [(named & w2 & H2 & H)|(e & H2 & ->)]; apply Hnamed in H2; pose proof (same_trans _ _ _ Hs1 H2) as Hs2; [|by apply keeps_same].
  destruct (negb _); [injection H as <- <-; by apply keeps_same|].
  assert (Hcur : forall x w3, (match st_Current k with Some cur => requirePinned c cur | None => ret tt end) w2 = (x, w3) -> same w2 w3).
  { intros x w3 E. destruct (st_Current k); [by apply requirePinned_run in E as [? _]|by injection E as <- <-]. }
  apply bind_run in H as [([] & w3 & H3 & H)|(e & H3 & ->)]; apply Hcur in H3; pose proof (same_trans _ _ _ Hs2 H3) as Hs3; [|by apply keeps_same].
  assert (Hpend : forall x w4, (match st_Pending k with
    | Some p => status <-- onKubo (bk_PinStatus (rt_Anchor p)) ;; (match status with Some _ => requirePinned c p | None => ret tt end)
    | None => ret tt end) w3 = (x, w4) -> same w3 w4).
  { intros x w4 E. destruct (st_Pending k) as [q|]; [|by injection E as <- <-]. apply bind_run in E as [(s & w5 & H5 & H6)|(e' & H5 & _)]; apply status_run in H5 as [Hs5 _]; [|done].
    eapply same_trans; [exact Hs5|]. destruct s; [by apply requirePinned_run in H6 as [? _]|by injection H6 as <- <-]. }
  apply bind_run in H as [([] & w4 & H4 & H)|(e & H4 & ->)]; apply Hpend in H4 as Hs4; [|apply keeps_same; [by eapply same_trans|done]].
  pose proof (same_trans _ _ _ Hs3 Hs4) as Hs5. apply (settle_keeps c k None) in H as ([Hk1 Hk2] & _); [|eapply holds_same; [|exact Hh]; eapply same_trans; [exact H2|]; by eapply same_trans].
  split; [|done]. by destruct Hs5 as [_ <-].
Qed.
End Steps.
