(* ===== verification/ReplicaRuns.v ===== *)
(** Every run of the replica controller beside other clients of its node.  A call that is
    cut short by a crash leaves what a call leaves whose later operations all fail, so the
    calls with every outcome cover crashes too. *)
From S2P Require Import Prelude Cid Schema Core Engine Ledger Json JsonDecode Publication Replica ReplicaCodec ReplicaCorrect ReplicaSafety ReplicaSteps.

Section Runs.
Context `{MH : Multihash} `{CB : !DagCbor} `{CT : !CidText} `{CP : !CidParse} {MD : BorrowMode} {K : Type} `{PB : !Pebble K} `{PO : !PebbleOk K} {B : Type} `{BK : !Backend B} `{BO : !BackendOk B}.
Local Abbreviation W := (K * B)%type.
Implicit Types (c : Controller) (st : controllerState) (r : retainedGeneration) (w : W).

Inductive rcall : Type := RPrepare (now : Time) (g : RGeneration) | RCommit (now : Time) (g : RGeneration) | RRecover.
Definition runCall c (q : rcall) : M W (list err) :=
  match q with RPrepare now g => Prepare c now g | RCommit now g => Commit c now g | RRecover => Recover c end.
Definition rcall_ok (q : rcall) : Prop := match q with RPrepare now g | RCommit now g => gen_fits g /\ time_fits now | RRecover => True end.
(** The anchor a call may pin. *)
Definition target c (q : rcall) : option CidV := match q with RPrepare _ g => anchorOf c g | _ => None end.

(** Other clients pin and unpin as they like, but leave the reserved name alone; where
    [keepsBorrowed] holds they also leave an anchor of theirs that is the current
    generation recursively pinned. *)
Definition others c (w : W) (b : B) : Prop :=
  (forall x, pins b !! x = Some (reserved c) <-> pinsOf w !! x = Some (reserved c)) /\
  (keepsBorrowed = true -> forall k cur, ledger w = Ok k -> st_Current k = Some cur -> recursive (pinsOf w !! rt_Anchor cur) = true -> recursive (pins b !! rt_Anchor cur) = true).

Inductive reachable c : W -> Prop :=
| reach_start w : kv (fst w) !! stateKey = None -> (forall x, pinsOf w !! x <> Some (reserved c)) -> reachable c w
| reach_call w q o w' : reachable c w -> rcall_ok q -> runCall c q w = (o, w') -> reachable c w'
| reach_others w b : reachable c w -> others c w b -> reachable c (fst w, b).

(** After a call the committed generation is the old one or the pending one, promoted. *)
Lemma call_run c q k w o w' : sound c w -> ledger w = Ok k -> rcall_ok q -> runCall c q w = (o, w') ->
  changes c (target c q) (pinsOf w) (pinsOf w') /\ exists now, promotes c now k w'.
Proof.
  intros Hs Hk Hq H. destruct q as [now g|now g|]; cbn [runCall rcall_ok target] in *.
  - destruct Hq. apply (Prepare_run c now g k) in H as [[? ?] _]; try done. split; [done|]. exists now. by apply soundAt_promotes.
  - destruct Hq. apply (replicaCommit_run c now g k) in H as (? & ? & _); try done. split; [done|by exists now].
  - apply (Recover_run c k) in H as [? ?]; try done. split; [done|]. exists zeroTime. by apply soundAt_promotes.
Qed.

Lemma reachable_sound c w : reachable c w -> sound c w.
Proof.
  induction 1 as [w Hl Hp|w q o w' _ IH Hq H|w b _ IH [Ho Hc]].
  - exists (mkState None None []). unfold ledger, ledgerOf. rewrite Hl. split; [done|]. split; [|done]. split; [constructor| |done]. intros x Hx. by apply Hp in Hx.
  - pose proof IH as (k & Hk & _). eapply (call_run c q k w) in H as [_ (now & k' & ? & ? & _)]; [|done..]. by exists k'.
  - destruct IH as (k & Hk & [He Ht Hcur] & Ha). exists k. split; [done|]. split; [|done]. split; [done| |].
    + intros x Hx. apply Ht. by apply Ho.
    + intros r Hr. destruct (Hcur r Hr) as [H1 H2]. split; [intros Hkeep; apply (Hc Hkeep k r); auto|]. intros Hown. apply Ho. by apply H2.
Qed.

(** A committed generation whose anchor is not protected is not recovered. *)
Lemma Recover_refuses c k cur w : sound c w -> ledger w = Ok k -> st_Current k = Some cur -> ~ protectedBy c (pinsOf w) cur ->
  is_ok (fst (Recover c w)) = false.
Proof.
  intros Hs Hk Hc Hn. destruct (Recover c w) as [o w'] eqn:H. cbn [fst]. destruct o as [l|e]; [|done]. exfalso. unfold Recover in H.
  apply bind_run_ok in H as (st & w1 & H1 & H). apply (loadLedger_run _ _ _ _ Hs) in H1 as [Hs1 [Hl _]]. rewrite Hk in Hl. injection Hl as <-.
  apply bind_run_ok in H as (named & w2 & H2 & H). assert (Hs2 : same w1 w2).
  { unfold onKubo in H2. destruct (bk_NamedRecursivePins _ _) as [x b] eqn:E. injection H2 as _ <-. by apply bk_named_spec in E as [E _]. }
  destruct (negb _); [done|]. apply bind_run_ok in H as ([] & w3 & H3 & _). rewrite Hc in H3. apply requirePinned_run in H3 as [_ Hp].
  apply Hn. specialize (Hp eq_refl). destruct (same_trans _ _ _ Hs1 Hs2) as [_ E]. by rewrite E in Hp.
Qed.

(** C11: However calls end and whatever other clients do beside them with pins that are not
    under the reserved name, the ledger loads, its anchors are distinct, the anchor of a
    committed generation the controller owns is pinned recursively under the reserved name,
    and every pin under that name is an owned entry of the ledger, so none is ever orphaned.
    A borrowed committed generation is pinned recursively as long as the other clients leave
    its anchor pinned; where one of them has removed that pin, which is the only way to an
    unprotected committed generation, a recovery is refused. *)
Theorem replica_safe c w : reachable c w -> exists k, ledger w = Ok k /\ NoDup (anchors (stateRetained k)) /\
  (forall cur, st_Current k = Some cur -> keepsBorrowed = true \/ owned cur = true -> protectedBy c (pinsOf w) cur) /\
  (forall x, pinsOf w !! x = Some (reserved c) -> exists r, r ∈ stateRetained k /\ owned r = true /\ rt_Anchor r = x) /\
  (forall cur, st_Current k = Some cur -> ~ protectedBy c (pinsOf w) cur ->
     borrowed cur = true /\ recursive (pinsOf w !! rt_Anchor cur) = false /\ is_ok (fst (Recover c w)) = false).
Proof.
  intros Hr%reachable_sound. pose proof Hr as (k & Hk & [He Ht Hc] & _). exists k. split; [done|]. split; [by apply distinct_nodup, (ledger_distinct w)|].
  split; [intros cur Hcur; by apply guarded_protected, Hc|]. split; [exact Ht|]. intros cur Hcur Hn. specialize (Hc cur Hcur).
  assert (Ho : owned cur = false) by (destruct (owned cur) eqn:E; [|done]; by destruct Hn; apply guarded_protected; [|right]).
  split_and!; [| |by eapply Recover_refuses].
  - assert (Hin : cur ∈ stateRetained k) by (unfold stateRetained; rewrite Hcur; set_solver). rewrite Forall_forall in He.
    destruct (He cur Hin) as [[_ _ _ [Ho'|Hb] _] _]; [congruence|done].
  - destruct (recursive _) eqn:E; [|done]. destruct Hn. split; [done|]. by rewrite Ho.
Qed.

(** C12: A call, however it ends, changes a pin in two ways only: a pin under the reserved name
    that the ledger owns is removed, and never the one of the generation that is current
    afterwards; the anchor that is being prepared is pinned under that name where it was not
    pinned at all. *)
Theorem calls_touch_only_own c w q o w' : reachable c w -> rcall_ok q -> runCall c q w = (o, w') -> forall x,
  pinsOf w' !! x = pinsOf w !! x \/
  (pinsOf w !! x = Some (reserved c) /\ pinsOf w' !! x = None /\
   (exists k r, ledger w = Ok k /\ r ∈ stateRetained k /\ owned r = true /\ rt_Anchor r = x) /\
   forall k cur, ledger w' = Ok k -> st_Current k = Some cur -> rt_Anchor cur <> x) \/
  (target c q = Some x /\ pinsOf w !! x = None /\ pinsOf w' !! x = Some (reserved c)).
Proof.
  intros Hr%reachable_sound Hq H x. pose proof Hr as (k & Hk & [_ Ht _] & _). destruct (call_run c q k w o w' Hr Hk Hq H) as [Hc (now & k' & Hk' & [[_ _ Hcur] _] & Hpro)].
  destruct (Hc x) as [?|[[H1 H2]|?]]; [by left| |by right; right]. right; left. split_and!; [done..| |].
  - destruct (Ht x H1) as (r & ? & ? & ?). by exists k, r.
  - intros k2 cur E2 Ec E. rewrite Hk' in E2. injection E2 as <-. destruct (Hcur cur Ec) as [_ Hown]. rewrite E, H2 in Hown.
    destruct (Ht x H1) as (r & Hr1 & Hro & Er). pose proof (distinct_nodup _ (ledger_distinct _ _ Hk)) as Hnd.
    destruct Hpro as [Hpro|(p & Hp & Hpro)]; rewrite Ec in Hpro.
    + assert (Hin : cur ∈ stateRetained k) by (unfold stateRetained; rewrite <- Hpro; set_solver).
      rewrite (NoDup_fmap_eq rt_Anchor _ r cur Hnd Hr1 Hin) in Hro by congruence. by specialize (Hown Hro).
    + injection Hpro as ->. assert (Hin : p ∈ stateRetained k) by (unfold stateRetained; rewrite Hp; set_solver).
      rewrite (NoDup_fmap_eq rt_Anchor _ r p Hnd Hr1 Hin) in Hro by exact (eq_trans Er (eq_sym E)). by specialize (Hown Hro).
Qed.

(** ** Restart *)

Definition headKey (h : RHead) : string * Cid * Cid := (rh_Name h, rh_Root h, rh_Manifest h).
Lemma protectsAll_keys g wants : NoDup (rh_Name <$> wants) -> generationProtectsAll g wants = true -> headKey <$> wants ≡ₚ headKey <$> rg_Heads g.
Proof.
  intros Hn. unfold generationProtectsAll. intros [Hl Hin]%andb_true_iff. apply Nat.eqb_eq in Hl. apply submseteq_length_Permutation; [|by rewrite !length_fmap, Hl].
  apply NoDup_submseteq.
  - apply (NoDup_fmap_1 (fun k => fst (fst k))). by rewrite <- list_fmap_compose.
  - intros x (h & -> & Hh)%list_elem_of_fmap. rewrite forallb_forall in Hin. apply list_elem_of_In, Hin, existsb_exists in Hh as (h' & Hh' & E). apply list_elem_of_In in Hh'.
    unfold sameRoots in E. rewrite !andb_true_iff, !bool_decide_eq_true in E. destruct E as [[E1 E2] E3]. apply list_elem_of_fmap. exists h'. split; [|done]. unfold headKey. congruence.
Qed.

Lemma firstRetained_run c f l w o w' : firstRetained c f l w = (o, w') -> same w w' /\ forall g, o = Ok g -> exists r, r ∈ l /\ f r = true /\ rt_Generation r = g /\ protectedBy c (pinsOf w) r.
Proof.
  revert w. induction l as [|r l IH]; intros w; cbn [firstRetained]; [by intros [= <- <-]|]. destruct (f r) eqn:Ef.
  - intros [([] & w1 & H1 & H)|(e & H1 & ->)]%bind_run; apply requirePinned_run in H1 as [Hs Hp]; [|done]. injection H as <- <-. split; [done|]. intros g [= <-]. exists r.
    split_and!; [by left|done..|by apply Hp].
  - intros [Hs Hg]%IH. split; [done|]. intros g (r' & ? & ? & ? & ?)%Hg. exists r'. split_and!; [by right|done..].
Qed.

(** The audits and the restart checks only read. *)
Lemma checks_read_only c w head g w' :
  (forall o, Protects c head w = (o, w') -> sound c w -> same w w') /\ (forall o, AuditGeneration c g w = (o, w') -> sound c w -> same w w') /\
  (forall o, AuditCurrent c w = (o, w') -> sound c w -> same w w').
Proof.
  split_and!; intros o H Hs.
  - unfold Protects in H. apply bind_run in H as [(st & w1 & H1 & H)|(e & H1 & _)]; apply (loadLedger_run _ _ _ _ Hs) in H1 as [Hs1 _]; [|done].
    apply bind_run in H as [(x & w2 & H2 & H)|(e & H2 & _)]; apply firstRetained_run in H2 as [Hs2 _]; [injection H as _ <-|]; by eapply same_trans.
  - unfold AuditGeneration in H. unfold bind at 1, lift in H. destruct (candidate c g) as [[n [d a]]|e]; [|by injection H as _ <-].
    apply bind_run in H as [(st & w1 & H1 & H)|(e & H1 & _)]; apply (loadLedger_run _ _ _ _ Hs) in H1 as [Hs1 _]; [|done].
    apply bind_run in H as [(x & w2 & H2 & H)|(e & H2 & _)]; apply firstRetained_run in H2 as [Hs2 _]; [injection H as _ <-|]; by eapply same_trans.
  - unfold AuditCurrent in H. apply bind_run in H as [(st & w1 & H1 & H)|(e & H1 & _)]; apply (loadLedger_run _ _ _ _ Hs) in H1 as [Hs1 _]; [|done].
    destruct (st_Current st) as [cur|]; [|by injection H as _ <-]. apply bind_run_attempt in H as (x & w2 & H2 & H). apply requirePinned_run in H2 as [Hs2 _]. pose proof (same_trans _ _ _ Hs1 Hs2) as Hs3.
    destruct x as [u|e]; [by injection H as _ <-|]. apply bind_run in H as [(st' & w3 & H3 & H)|(e' & H3 & _)]; apply (loadLedger_run _ _ _ _ (sound_same _ _ _ Hs3 Hs)) in H3 as [Hs4 _]; pose proof (same_trans _ _ _ Hs3 Hs4) as Hs5; [|done].
    destruct (st_Current st') as [again|]; [|by injection H as _ <-]. case_bool_decide; [by injection H as _ <-|]. apply requirePinned_run in H as [Hs6 _]. by eapply same_trans.
Qed.

(** C35: The restart proof is exact: the generation ProtectsAll returns is one retained
    generation, current or pending, whose anchor is protected and whose heads are the given
    checkpoints, by name, root and manifest; nothing is changed. *)
Theorem resume_covered c w heads o w' : reachable c w -> NoDup (rh_Name <$> heads) -> ProtectsAll c heads w = (o, w') ->
  kv (fst w') = kv (fst w) /\ pinsOf w' = pinsOf w /\
  forall g, o = Ok g -> exists k r, ledger w = Ok k /\ (st_Current k = Some r \/ st_Pending k = Some r) /\ rt_Generation r = g /\
    headKey <$> heads ≡ₚ headKey <$> rg_Heads g /\ protectedBy c (pinsOf w) r.
Proof.
  intros Hr%reachable_sound Hn. unfold ProtectsAll. intros [(st & w1 & H1 & H)|(e & H1 & ->)]%bind_run; apply (loadLedger_run _ _ _ _ Hr) in H1 as [Hs H1]; [|by destruct Hs].
  destruct H1 as [Hl _]. apply firstRetained_run in H as [Hs' Hg]. destruct (same_trans _ _ _ Hs Hs') as [E1 E2]. split_and!; [done..|]. intros g (r & Hin & Hf & Hgen & Hp)%Hg. subst g.
  exists st, r. split_and!; [done| |done|by apply protectsAll_keys|by destruct Hs as [_ <-]]. unfold currentThenPending in Hin. rewrite elem_of_app in Hin.
  destruct Hin as [Hin|Hin]; [left; destruct (st_Current st)|right; destruct (st_Pending st)]; try (by apply elem_of_nil in Hin); by apply list_elem_of_singleton in Hin as ->.
Qed.
End Runs.

(** ** The two phases *)

(** Every other client leaves the current generation pinned. *)
Definition keeping : BorrowMode := true.

Section TwoPhase.
#[local] Existing Instance keeping.
Context `{MH : Multihash} `{CB : !DagCbor} `{CT : !CidText} `{CP : !CidParse} {K : Type} `{PB : !Pebble K} `{PO : !PebbleOk K} {B : Type} `{BK : !Backend B} `{BO : !BackendOk B}.

End TwoPhase.

(** C36: The ledger reads back: a state whose entries are in order and that is saved is the one
    that loads, and a save that fails leaves the ledger there was or the one it was given. *)
Theorem ledger_roundtrip `{MH : Multihash} `{CB : !DagCbor} `{CT : !CidText} `{CP : !CidParse} {K : Type} `{PB : !Pebble K} `{PO : !PebbleOk K} st (s : K) r s' :
  state_ok st -> saveControllerState st s = (r, s') ->
  (forall l s'', loadControllerState s' = (l, s'') -> l = Err EIO \/ (if is_ok r then l = Ok st else l = Ok st \/ l = ledgerOf (kv s))) /\
  forall key, key <> stateKey -> kv s' !! key = kv s !! key.
Proof.
  intros Hok H. apply save_run in H as [Hk H]; [|done]. split; [|done]. intros l s'' [_ [->| ->]]%load_run; [right|by left].
  destruct r as [[]|e]; cbn [is_ok]; [by destruct H|]. destruct H as [->|H]; auto.
Qed.

(** C37: The anchor names the generation: two generations that have anchors have the same one
    exactly if they are equal up to the order of heads and the fraction of the second. *)
Theorem anchor_identifies_generation `{MH : Multihash} `{CB : !DagCbor} (a b : RGeneration) da db ca cb :
  gen_fits a -> gen_fits b -> Block a = Ok (da, ca) -> Block b = Ok (db, cb) -> ca = cb <-> Equal a b = true.
Proof.
  intros Fa Fb Ba Bb. pose proof Ba as Ba'. pose proof Bb as Bb'. unfold Block in Ba', Bb'. apply rbind_ok in Ba' as (na & Na & Ha), Bb' as (nb & Nb & Hb). unfold Equal. rewrite Na, Nb, bool_decide_eq_true. split.
  - intros <-. by eapply (anchor_generation a b).
  - intros <-. rewrite Ha in Hb. by injection Hb.
Qed.
