(* ===== verification/Generations.v ===== *)
(** The writer's generations: server/generations.go, server/roots.go,
    server/manifests.go and server/publications.go.

    Four records per head or signer live in the node's key-value store: the current
    root, the manifest tip, the generation record of a mutable head and the revision
    counter of a signing key.  A generation is selected by a compare-and-set that
    writes root and record in one batch; a revision is burnt before it is used.  The
    locks of the stores are the sequencing of the monad. *)
From Stdlib Require Import Ascii.
From Stdlib Require String.
From S2P Require Import Prelude Cid Schema Core Engine Apply Ledger Json JsonDecode Publication PublicationJson.

(** ** Data *)

Definition prefixGeneration : byte := Byte.x67. (* 'g' *)
Definition prefixHeadRoot : byte := Byte.x68. (* 'h' *)
Definition prefixManifestTip : byte := Byte.x6d. (* 'm' *)
Definition prefixPublicationRevision : byte := Byte.x72. (* 'r' *)
Definition legacyGenerationStateVersion : Z := 1.
Definition generationStateVersion : Z := 2.

Record GenerationRow : Type := mkGRow { gr_Slot : Z; gr_VersionedHashes : list string }.

Record GenerationRequest : Type := mkGReq {
  rq_ExpectedGeneration : Z; rq_WindowStart : Z; rq_SyncedTo : Z; rq_Rows : list GenerationRow;
  rq_SourceHeadRoot : string; rq_SourceFinalizedSlot : Z; rq_SourceFinalizedRoot : string;
  rq_ObservedHandoffRoot : string; rq_ObservedHandoffSyncedTo : Z }.

Record GenerationResponse : Type := mkGResp {
  rp_Generation : Z; rp_WindowStart : Z; rp_SyncedTo : Z; rp_Root : string; rp_NoOp : bool }.

Record GenerationState : Type := mkGen {
  gs_V : Z; gs_Kind : HeadKind; gs_Generation : Z; gs_RequestDigest : string;
  gs_Root : string; gs_WindowStart : Z; gs_SyncedTo : Z; gs_SourceHeadRoot : string;
  gs_SourceHeadSlot : Z; gs_SourceFinalizedSlot : Z; gs_SourceFinalizedRoot : string; gs_ObservedHandoffRoot : string;
  gs_ObservedHandoffSyncedTo : Z; gs_HandoffHead : string; gs_HandoffRoot : string; gs_HandoffSyncedTo : Z }.

#[global] Instance GenerationState_eq_dec : EqDecision GenerationState.
Proof. solve_decision. Defined.

(** ** JSON of the record *)

Definition gset_V (v : Z) (st : GenerationState) : GenerationState :=
  mkGen v (gs_Kind st) (gs_Generation st) (gs_RequestDigest st) (gs_Root st) (gs_WindowStart st) (gs_SyncedTo st) (gs_SourceHeadRoot st) (gs_SourceHeadSlot st) (gs_SourceFinalizedSlot st) (gs_SourceFinalizedRoot st) (gs_ObservedHandoffRoot st) (gs_ObservedHandoffSyncedTo st) (gs_HandoffHead st) (gs_HandoffRoot st) (gs_HandoffSyncedTo st).
Definition gset_Kind (v : HeadKind) (st : GenerationState) : GenerationState :=
  mkGen (gs_V st) v (gs_Generation st) (gs_RequestDigest st) (gs_Root st) (gs_WindowStart st) (gs_SyncedTo st) (gs_SourceHeadRoot st) (gs_SourceHeadSlot st) (gs_SourceFinalizedSlot st) (gs_SourceFinalizedRoot st) (gs_ObservedHandoffRoot st) (gs_ObservedHandoffSyncedTo st) (gs_HandoffHead st) (gs_HandoffRoot st) (gs_HandoffSyncedTo st).
Definition gset_Generation (v : Z) (st : GenerationState) : GenerationState :=
  mkGen (gs_V st) (gs_Kind st) v (gs_RequestDigest st) (gs_Root st) (gs_WindowStart st) (gs_SyncedTo st) (gs_SourceHeadRoot st) (gs_SourceHeadSlot st) (gs_SourceFinalizedSlot st) (gs_SourceFinalizedRoot st) (gs_ObservedHandoffRoot st) (gs_ObservedHandoffSyncedTo st) (gs_HandoffHead st) (gs_HandoffRoot st) (gs_HandoffSyncedTo st).
Definition gset_RequestDigest (v : string) (st : GenerationState) : GenerationState :=
  mkGen (gs_V st) (gs_Kind st) (gs_Generation st) v (gs_Root st) (gs_WindowStart st) (gs_SyncedTo st) (gs_SourceHeadRoot st) (gs_SourceHeadSlot st) (gs_SourceFinalizedSlot st) (gs_SourceFinalizedRoot st) (gs_ObservedHandoffRoot st) (gs_ObservedHandoffSyncedTo st) (gs_HandoffHead st) (gs_HandoffRoot st) (gs_HandoffSyncedTo st).
Definition gset_Root (v : string) (st : GenerationState) : GenerationState :=
  mkGen (gs_V st) (gs_Kind st) (gs_Generation st) (gs_RequestDigest st) v (gs_WindowStart st) (gs_SyncedTo st) (gs_SourceHeadRoot st) (gs_SourceHeadSlot st) (gs_SourceFinalizedSlot st) (gs_SourceFinalizedRoot st) (gs_ObservedHandoffRoot st) (gs_ObservedHandoffSyncedTo st) (gs_HandoffHead st) (gs_HandoffRoot st) (gs_HandoffSyncedTo st).
Definition gset_WindowStart (v : Z) (st : GenerationState) : GenerationState :=
  mkGen (gs_V st) (gs_Kind st) (gs_Generation st) (gs_RequestDigest st) (gs_Root st) v (gs_SyncedTo st) (gs_SourceHeadRoot st) (gs_SourceHeadSlot st) (gs_SourceFinalizedSlot st) (gs_SourceFinalizedRoot st) (gs_ObservedHandoffRoot st) (gs_ObservedHandoffSyncedTo st) (gs_HandoffHead st) (gs_HandoffRoot st) (gs_HandoffSyncedTo st).
Definition gset_SyncedTo (v : Z) (st : GenerationState) : GenerationState :=
  mkGen (gs_V st) (gs_Kind st) (gs_Generation st) (gs_RequestDigest st) (gs_Root st) (gs_WindowStart st) v (gs_SourceHeadRoot st) (gs_SourceHeadSlot st) (gs_SourceFinalizedSlot st) (gs_SourceFinalizedRoot st) (gs_ObservedHandoffRoot st) (gs_ObservedHandoffSyncedTo st) (gs_HandoffHead st) (gs_HandoffRoot st) (gs_HandoffSyncedTo st).
Definition gset_SourceHeadRoot (v : string) (st : GenerationState) : GenerationState :=
  mkGen (gs_V st) (gs_Kind st) (gs_Generation st) (gs_RequestDigest st) (gs_Root st) (gs_WindowStart st) (gs_SyncedTo st) v (gs_SourceHeadSlot st) (gs_SourceFinalizedSlot st) (gs_SourceFinalizedRoot st) (gs_ObservedHandoffRoot st) (gs_ObservedHandoffSyncedTo st) (gs_HandoffHead st) (gs_HandoffRoot st) (gs_HandoffSyncedTo st).
Definition gset_SourceHeadSlot (v : Z) (st : GenerationState) : GenerationState :=
  mkGen (gs_V st) (gs_Kind st) (gs_Generation st) (gs_RequestDigest st) (gs_Root st) (gs_WindowStart st) (gs_SyncedTo st) (gs_SourceHeadRoot st) v (gs_SourceFinalizedSlot st) (gs_SourceFinalizedRoot st) (gs_ObservedHandoffRoot st) (gs_ObservedHandoffSyncedTo st) (gs_HandoffHead st) (gs_HandoffRoot st) (gs_HandoffSyncedTo st).
Definition gset_SourceFinalizedSlot (v : Z) (st : GenerationState) : GenerationState :=
  mkGen (gs_V st) (gs_Kind st) (gs_Generation st) (gs_RequestDigest st) (gs_Root st) (gs_WindowStart st) (gs_SyncedTo st) (gs_SourceHeadRoot st) (gs_SourceHeadSlot st) v (gs_SourceFinalizedRoot st) (gs_ObservedHandoffRoot st) (gs_ObservedHandoffSyncedTo st) (gs_HandoffHead st) (gs_HandoffRoot st) (gs_HandoffSyncedTo st).
Definition gset_SourceFinalizedRoot (v : string) (st : GenerationState) : GenerationState :=
  mkGen (gs_V st) (gs_Kind st) (gs_Generation st) (gs_RequestDigest st) (gs_Root st) (gs_WindowStart st) (gs_SyncedTo st) (gs_SourceHeadRoot st) (gs_SourceHeadSlot st) (gs_SourceFinalizedSlot st) v (gs_ObservedHandoffRoot st) (gs_ObservedHandoffSyncedTo st) (gs_HandoffHead st) (gs_HandoffRoot st) (gs_HandoffSyncedTo st).
Definition gset_ObservedHandoffRoot (v : string) (st : GenerationState) : GenerationState :=
  mkGen (gs_V st) (gs_Kind st) (gs_Generation st) (gs_RequestDigest st) (gs_Root st) (gs_WindowStart st) (gs_SyncedTo st) (gs_SourceHeadRoot st) (gs_SourceHeadSlot st) (gs_SourceFinalizedSlot st) (gs_SourceFinalizedRoot st) v (gs_ObservedHandoffSyncedTo st) (gs_HandoffHead st) (gs_HandoffRoot st) (gs_HandoffSyncedTo st).
Definition gset_ObservedHandoffSyncedTo (v : Z) (st : GenerationState) : GenerationState :=
  mkGen (gs_V st) (gs_Kind st) (gs_Generation st) (gs_RequestDigest st) (gs_Root st) (gs_WindowStart st) (gs_SyncedTo st) (gs_SourceHeadRoot st) (gs_SourceHeadSlot st) (gs_SourceFinalizedSlot st) (gs_SourceFinalizedRoot st) (gs_ObservedHandoffRoot st) v (gs_HandoffHead st) (gs_HandoffRoot st) (gs_HandoffSyncedTo st).
Definition gset_HandoffHead (v : string) (st : GenerationState) : GenerationState :=
  mkGen (gs_V st) (gs_Kind st) (gs_Generation st) (gs_RequestDigest st) (gs_Root st) (gs_WindowStart st) (gs_SyncedTo st) (gs_SourceHeadRoot st) (gs_SourceHeadSlot st) (gs_SourceFinalizedSlot st) (gs_SourceFinalizedRoot st) (gs_ObservedHandoffRoot st) (gs_ObservedHandoffSyncedTo st) v (gs_HandoffRoot st) (gs_HandoffSyncedTo st).
Definition gset_HandoffRoot (v : string) (st : GenerationState) : GenerationState :=
  mkGen (gs_V st) (gs_Kind st) (gs_Generation st) (gs_RequestDigest st) (gs_Root st) (gs_WindowStart st) (gs_SyncedTo st) (gs_SourceHeadRoot st) (gs_SourceHeadSlot st) (gs_SourceFinalizedSlot st) (gs_SourceFinalizedRoot st) (gs_ObservedHandoffRoot st) (gs_ObservedHandoffSyncedTo st) (gs_HandoffHead st) v (gs_HandoffSyncedTo st).
Definition gset_HandoffSyncedTo (v : Z) (st : GenerationState) : GenerationState :=
  mkGen (gs_V st) (gs_Kind st) (gs_Generation st) (gs_RequestDigest st) (gs_Root st) (gs_WindowStart st) (gs_SyncedTo st) (gs_SourceHeadRoot st) (gs_SourceHeadSlot st) (gs_SourceFinalizedSlot st) (gs_SourceFinalizedRoot st) (gs_ObservedHandoffRoot st) (gs_ObservedHandoffSyncedTo st) (gs_HandoffHead st) (gs_HandoffRoot st) v.

Definition genFields : list (string * (jtok -> GenerationState -> option GenerationState)) :=
  [("v", fun t st => v ← onInt t (gs_V st); Some (gset_V v st));
   ("kind", fun t st => v ← onString t (gs_Kind st); Some (gset_Kind v st));
   ("generation", fun t st => v ← onUint64 t (gs_Generation st); Some (gset_Generation v st));
   ("request_digest", fun t st => v ← onString t (gs_RequestDigest st); Some (gset_RequestDigest v st));
   ("root", fun t st => v ← onString t (gs_Root st); Some (gset_Root v st));
   ("window_start", fun t st => v ← onUint64 t (gs_WindowStart st); Some (gset_WindowStart v st));
   ("synced_to", fun t st => v ← onUint64 t (gs_SyncedTo st); Some (gset_SyncedTo v st));
   ("source_head_root", fun t st => v ← onString t (gs_SourceHeadRoot st); Some (gset_SourceHeadRoot v st));
   ("source_head_slot", fun t st => v ← onUint64 t (gs_SourceHeadSlot st); Some (gset_SourceHeadSlot v st));
   ("source_finalized_slot", fun t st => v ← onUint64 t (gs_SourceFinalizedSlot st); Some (gset_SourceFinalizedSlot v st));
   ("source_finalized_root", fun t st => v ← onString t (gs_SourceFinalizedRoot st); Some (gset_SourceFinalizedRoot v st));
   ("observed_handoff_root", fun t st => v ← onString t (gs_ObservedHandoffRoot st); Some (gset_ObservedHandoffRoot v st));
   ("observed_handoff_synced_to", fun t st => v ← onUint64 t (gs_ObservedHandoffSyncedTo st); Some (gset_ObservedHandoffSyncedTo v st));
   ("handoff_head", fun t st => v ← onString t (gs_HandoffHead st); Some (gset_HandoffHead v st));
   ("handoff_root", fun t st => v ← onString t (gs_HandoffRoot st); Some (gset_HandoffRoot v st));
   ("handoff_synced_to", fun t st => v ← onUint64 t (gs_HandoffSyncedTo st); Some (gset_HandoffSyncedTo v st))].

Definition genJson (st : GenerationState) : json :=
  JObj [("v", JNum (gs_V st));
        ("kind", JStr (gs_Kind st));
        ("generation", JNum (gs_Generation st));
        ("request_digest", JStr (gs_RequestDigest st));
        ("root", JStr (gs_Root st));
        ("window_start", JNum (gs_WindowStart st));
        ("synced_to", JNum (gs_SyncedTo st));
        ("source_head_root", JStr (gs_SourceHeadRoot st));
        ("source_head_slot", JNum (gs_SourceHeadSlot st));
        ("source_finalized_slot", JNum (gs_SourceFinalizedSlot st));
        ("source_finalized_root", JStr (gs_SourceFinalizedRoot st));
        ("observed_handoff_root", JStr (gs_ObservedHandoffRoot st));
        ("observed_handoff_synced_to", JNum (gs_ObservedHandoffSyncedTo st));
        ("handoff_head", JStr (gs_HandoffHead st));
        ("handoff_root", JStr (gs_HandoffRoot st));
        ("handoff_synced_to", JNum (gs_HandoffSyncedTo st))].

Definition zeroGen : GenerationState := mkGen 0 "" 0 "" "" 0 0 "" 0 0 "" "" 0 "" "" 0.
Definition marshalGen (st : GenerationState) : bytes := render (genJson st).

(** The fields a record of version 2 must state. *)
Definition requiredFields : list string :=
  ["request_digest"; "root"; "window_start"; "synced_to"; "source_head_root"; "source_head_slot"; "source_finalized_slot"; "source_finalized_root"; "observed_handoff_root"; "observed_handoff_synced_to"; "handoff_head"; "handoff_root"; "handoff_synced_to"].

(** A key of [map[string]json.RawMessage]: exact, the last one given. *)
Definition rawField (t : jtok) (k : string) : option jtok :=
  match t with
  | TObj ms => snd <$> List.find (fun m => bool_decide (fst m = k)) (reverse ms)
  | _ => None
  end.
Definition stated (t : jtok) (k : string) : bool := match rawField t k with None | Some TNull => false | Some _ => true end.

Section Generations.
Context `{MH : Multihash} `{CC : !CidBytes} `{CT : !CidText} {K : Type} `{PB : !Pebble K}.

(** ** Validation *)

Definition decodes (raw : string) : bool := negb (unset (cid_Decode raw)).

Definition validateGenerationState (st : GenerationState) : res unit :=
  refuse_if negb (gs_V st =? legacyGenerationStateVersion) && negb (gs_V st =? generationStateVersion) with EInvalid "generation state version" ;;
  refuse_if negb (bool_decide (gs_Kind st = FinalizedMonotonic)) && negb (bool_decide (gs_Kind st = UnfinalizedMutable)) with EInvalid "unknown kind" ;;
  if gs_Generation st =? 0 then Ok tt else
  refuse_if negb (bool_decide (gs_Kind st = UnfinalizedMutable)) with EInvalid "finalized head has a mutable generation" ;;
  refuse_if negb (String.length (gs_RequestDigest st) =? 64)%nat with EInvalid "invalid request digest" ;;
  refuse_if unset (DecodeString (gs_RequestDigest st)) with EInvalid "invalid request digest" ;;
  refuse_if negb (decodes (gs_Root st)) with EInvalid "invalid root" ;;
  refuse_if negb (decodes (gs_HandoffRoot st)) with EInvalid "invalid handoff_root" ;;
  _ <-? (if gs_V st =? generationStateVersion then
           refuse_if negb (decodes (gs_ObservedHandoffRoot st)) with EInvalid "invalid observed_handoff_root" ;;
           refuse_if gs_HandoffSyncedTo st <? gs_ObservedHandoffSyncedTo st with EInvalid "observed handoff above commit handoff" ;;
           refuse_if (gs_ObservedHandoffSyncedTo st =? gs_HandoffSyncedTo st)
                  && negb (bool_decide (gs_ObservedHandoffRoot st = gs_HandoffRoot st)) with EInvalid "handoff root changed in place" ;; Ok tt
         else Ok tt) ;;
  _ <-? parseBeaconRoot (gs_SourceHeadRoot st) ;;
  _ <-? parseBeaconRoot (gs_SourceFinalizedRoot st) ;;
  refuse_if gs_SyncedTo st <? gs_WindowStart st with EInvalid "ends before its window starts" ;;
  refuse_if negb (gs_SourceHeadSlot st =? gs_SyncedTo st) with EInvalid "source head slot differs from synced_to" ;;
  refuse_if gs_SourceHeadSlot st <? gs_SourceFinalizedSlot st with EInvalid "finalized source slot above head slot" ;;
  refuse_if emptyStr (gs_HandoffHead st) with EInvalid "no handoff head" ;;
  refuse_if (gs_V st =? generationStateVersion) && (gs_SourceFinalizedSlot st <? gs_HandoffSyncedTo st) with EInvalid "handoff above finalized slot" ;;
  refuse_if (gs_HandoffSyncedTo st <? gs_WindowStart st) && (1 <? sub64 (gs_WindowStart st) (gs_HandoffSyncedTo st))
    with EInvalid "window starts beyond handoff" ;;
  Ok tt.

(** What [Get] makes of the stored bytes. *)
Definition decodeGeneration (v : bytes) : res GenerationState :=
  match decodeAll v with
  | None => Err (EInvalid "decoding generation state")
  | Some t =>
    match decodeStruct genFields false t zeroGen with
    | None => Err (EInvalid "decoding generation state")
    | Some st =>
      refuse_if (gs_V st =? generationStateVersion) && (0 <? gs_Generation st) && negb (forallb (stated t) requiredFields)
        with EInvalid "missing or null required v2 field" ;;
      _ <-? validateGenerationState st ;; Ok st
    end
  end.

(** ** The stores *)

Definition generationKey (name : string) : bytes := prefixGeneration :: string_bytes name.
Definition rootKey (name : string) : bytes := prefixHeadRoot :: string_bytes name.
Definition tipKey (name : string) : bytes := prefixManifestTip :: string_bytes name.
Definition publicationRevisionKey (signer : bytes) : bytes := prefixPublicationRevision :: signer.

Definition Gen_Get (name : string) : M K (option GenerationState) :=
  kv_ctx ;;;
  fail_if emptyStr name with EInvalid "head name must not be empty" ;;
  v <-- kv_get (generationKey name) ;;
  match v with
  | None => ret None
  | Some v => st <-- lift (decodeGeneration v) ;; ret (Some st)
  end.

Definition baseline (kind : HeadKind) : GenerationState := mkGen generationStateVersion kind 0 "" "" 0 0 "" 0 0 "" "" 0 "" "" 0.

Definition EnsureKind (name : string) (kind : HeadKind) : M K GenerationState :=
  let kind := if decide (kind = EmptyString) then FinalizedMonotonic else kind in
  fail_if negb (bool_decide (kind = FinalizedMonotonic)) && negb (bool_decide (kind = UnfinalizedMutable)) with EInvalid "unknown head kind" ;;
  fail_if emptyStr name with EInvalid "head name must not be empty" ;;
  cur <-- Gen_Get name ;;
  match cur with
  | Some st => fail_if negb (bool_decide (gs_Kind st = kind)) with EConflict "kind mismatch" ;; ret st
  | None =>
    root <-- kv_get (rootKey name) ;;
    fail_if negb (unset root) && negb (bool_decide (kind = FinalizedMonotonic)) with EConflict "kind mismatch" ;;
    let st := baseline kind in
    kv_set (generationKey name) (marshalGen st) ;;; ret st
  end.

Definition Gen_Commit (name : string) (expected : Z) (root : Cid) (next : GenerationState) : M K unit :=
  kv_ctx ;;;
  match root with
  | None => fail (EInvalid "undefined generation root")
  | Some root =>
    cur <-- Gen_Get name ;;
    match cur with
    | None => fail (EInvalid "no durable kind baseline")
    | Some cur =>
      fail_if negb (gs_Generation cur =? expected) with EConflict "generation conflict" ;;
      fail_if expected =? 2 ^ 64 - 1 with EInvalid "mutable generation counter exhausted" ;;
      fail_if negb (gs_Generation next =? add64 expected 1) with EInternal "generation state" ;;
      fail_if negb (bool_decide (gs_Kind next = gs_Kind cur)) with EConflict "kind mismatch" ;;
      fail_if negb (bool_decide (gs_Root next = cid_String root)) with EInternal "generation root" ;;
      lift (validateGenerationState next) ;;;
      kv_commit [KSet (rootKey name) (cid_bytes root); KSet (generationKey name) (marshalGen next)]
    end
  end.

(** RootStore and ManifestStore: one CID per head under their own prefix. *)
Definition cid_Get (key : bytes) (name : string) : M K Cid :=
  kv_ctx ;;;
  fail_if emptyStr name with EInvalid "head name must not be empty" ;;
  v <-- kv_get key ;;
  match v with
  | None => ret Undef
  | Some v => match cid_cast v with None => fail (EInvalid "undecodable CID") | Some c => ret (Some c) end
  end.
Definition stageCid (b : list kvop) (key : bytes) (name : string) (c : Cid) : res (list kvop) :=
  refuse_if emptyStr name with EInvalid "head name must not be empty" ;;
  match c with
  | None => Err (EInvalid "undefined CID")
  | Some c => Ok (b ++ [KSet key (cid_bytes c)])
  end.
Definition stageDelete (b : list kvop) (key : bytes) (name : string) : res (list kvop) :=
  refuse_if emptyStr name with EInvalid "head name must not be empty" ;; Ok (b ++ [KDelete key]).

Definition Root_Get (name : string) : M K Cid := cid_Get (rootKey name) name.
Definition Root_Put (name : string) (root : Cid) : M K unit :=
  kv_ctx ;;;
  fail_if emptyStr name with EInvalid "head name must not be empty" ;;
  match root with None => fail (EInvalid "undefined root") | Some root => kv_set (rootKey name) (cid_bytes root) end.
Definition Root_StagePut (b : list kvop) (name : string) (root : Cid) : res (list kvop) := stageCid b (rootKey name) name root.
Definition Root_StageDelete (b : list kvop) (name : string) : res (list kvop) := stageDelete b (rootKey name) name.

Definition Tip_Get (name : string) : M K Cid := cid_Get (tipKey name) name.
Definition Tip_Put (name : string) (tip : Cid) : M K unit :=
  kv_ctx ;;;
  fail_if emptyStr name with EInvalid "head name must not be empty" ;;
  match tip with None => fail (EInvalid "undefined manifest tip") | Some tip => kv_set (tipKey name) (cid_bytes tip) end.
Definition Tip_Delete (name : string) : M K unit :=
  kv_ctx ;;;
  fail_if emptyStr name with EInvalid "head name must not be empty" ;; kv_delete (tipKey name).
Definition Tip_StagePut (b : list kvop) (name : string) (tip : Cid) : res (list kvop) := stageCid b (tipKey name) name tip.
Definition Tip_StageDelete (b : list kvop) (name : string) : res (list kvop) := stageDelete b (tipKey name) name.

(** ** Publication revisions *)

Definition currentLocked (signer : bytes) : M K (option Z) :=
  v <-- kv_get (publicationRevisionKey signer) ;;
  match v with
  | None => ret None
  | Some v =>
    fail_if negb (length v =? 8)%nat with EInvalid "publication revision is not 8 bytes" ;;
    fail_if Uint64 v =? 0 with EInvalid "publication revision floor is zero" ;;
    ret (Some (Uint64 v))
  end.
Definition Rev_Current (signer : bytes) : M K (option Z) :=
  kv_ctx ;;;
  fail_if negb (length signer =? 32)%nat with EInvalid "publication signer size" ;; currentLocked signer.
Definition Rev_Next (signer : bytes) : M K Z :=
  kv_ctx ;;;
  fail_if negb (length signer =? 32)%nat with EInvalid "publication signer size" ;;
  current <-- currentLocked signer ;;
  let current := default 0 current in
  fail_if current =? 2 ^ 64 - 1 with EInvalid "publication revision counter exhausted" ;;
  let next := add64 current 1 in
  kv_set (publicationRevisionKey signer) (PutUint64 next) ;;; ret next.

(** ** Normalized requests *)

Record normalizedGeneration : Type := mkNorm {
  ng_WindowStart : Z; ng_SyncedTo : Z; ng_Rows : list GenerationRow; ng_SourceHeadRoot : string; ng_SourceFinalizedSlot : Z;
  ng_SourceFinalizedRoot : string; ng_ObservedHandoffRoot : string; ng_ObservedHandoffSyncedTo : Z }.

Definition rowJson (r : GenerationRow) : json :=
  JObj [("slot", JNum (gr_Slot r)); ("versioned_hashes", JArr (map JStr (gr_VersionedHashes r)))].
Definition normJson (n : normalizedGeneration) : json :=
  JObj [("window_start", JNum (ng_WindowStart n)); ("synced_to", JNum (ng_SyncedTo n)); ("rows", JArr (map rowJson (ng_Rows n)));
        ("source_head_root", JStr (ng_SourceHeadRoot n)); ("source_finalized_slot", JNum (ng_SourceFinalizedSlot n));
        ("source_finalized_root", JStr (ng_SourceFinalizedRoot n)); ("observed_handoff_root", JStr (ng_ObservedHandoffRoot n));
        ("observed_handoff_synced_to", JNum (ng_ObservedHandoffSyncedTo n))].

(** "0x" and lowercase hex. *)
Definition hex0x (b : bytes) : string := bytes_string (Byte.x30 :: Byte.x78 :: hexEncode b).
Definition vhHex (vh : VersionedHash) : string := hex0x (vh_bytes vh).
Definition renderBeaconRoot (root : bytes) : string := hex0x root.

(** strings.TrimPrefix(s, "0x") *)
Definition trim0x (b : bytes) : bytes := match b with Byte.x30 :: Byte.x78 :: b' => b' | _ => b end.
Definition parseVH (s : string) : res VersionedHash :=
  let h := trim0x (string_bytes s) in
  refuse_if negb (length h =? 2 * VersionedHashSize)%nat with EInvalid "versioned hash size" ;;
  match hexDecode h with
  | None => Err (EInvalid "versioned hash is not hex")
  | Some b =>
    match Sumbool.sumbool_of_bool (Nat.eqb (length b) VersionedHashSize) with
    | left H => Ok (mkVH b H)
    | right _ => Err (EInternal "hex decodes two digits to a byte")
    end
  end.

Definition normalizeRow (r : GenerationRow) : res (RefRow * GenerationRow) :=
  vhs <-? rmap parseVH (gr_VersionedHashes r) ;;
  Ok (mkRefRow (gr_Slot r) vhs, mkGRow (gr_Slot r) (map vhHex vhs)).

Definition normalizeGeneration (req : GenerationRequest) : res (normalizedGeneration * list RefRow * Digest) :=
  headRoot <-? parseBeaconRoot (rq_SourceHeadRoot req) ;;
  finalizedRoot <-? parseBeaconRoot (rq_SourceFinalizedRoot req) ;;
  match cid_Decode (rq_ObservedHandoffRoot req) with
  | None => Err (EInvalid "observed_handoff_root")
  | Some handoffRoot =>
    rows <-? rmap normalizeRow (rq_Rows req) ;;
    let n := mkNorm (rq_WindowStart req) (rq_SyncedTo req) (map snd rows) (renderBeaconRoot headRoot) (rq_SourceFinalizedSlot req)
               (renderBeaconRoot finalizedRoot) (cid_String handoffRoot) (rq_ObservedHandoffSyncedTo req) in
    Ok (n, map fst rows, sha256 (render (normJson n)))
  end.
End Generations.
