(* ===== verification/GenerationsCorrect.v ===== *)
(** The writer's generations: the proofs about Generations.v.

    Proved: a record reads back, a commit is a compare-and-set that moves root and
    record together, no sequence of operations rolls a head's generation back or
    changes its kind, no revision is handed out twice to a signer, and the digest of
    a request identifies it. *)
From Stdlib Require Import Ascii.
From Stdlib Require String.
From S2P Require Import Prelude Cid Schema Core Engine Apply Ledger Wire Json JsonDecode Publication PublicationJson Generations.

(** What the Go types hold, in valid UTF-8. *)
Record gen_ok (st : GenerationState) : Prop := {
  go_strings : Forall (fun s => validString s = true)
    [gs_Kind st; gs_RequestDigest st; gs_Root st; gs_SourceHeadRoot st; gs_SourceFinalizedRoot st; gs_ObservedHandoffRoot st;
     gs_HandoffHead st; gs_HandoffRoot st];
  go_numbers : Forall is_u64 [gs_Generation st; gs_WindowStart st; gs_SyncedTo st; gs_SourceHeadSlot st; gs_SourceFinalizedSlot st;
     gs_ObservedHandoffSyncedTo st; gs_HandoffSyncedTo st];
  go_version : - 2 ^ 63 <= gs_V st < 2 ^ 63 }.

Lemma genJson_valid st : gen_ok st -> jsonValid (genJson st) = true.
Proof.
  intros [Hs _ _]. rewrite !Forall_cons in Hs. destruct Hs as (H1 & H2 & H3 & H4 & H5 & H6 & H7 & H8 & _).
  unfold genJson. cbn [jsonValid forallb]. by rewrite H1, H2, H3, H4, H5, H6, H7, H8.
Qed.
Lemma genJson_height st : jheight (genJson st) = 1.
Proof. apply flat_height. repeat (apply Forall_cons; split; [reflexivity|]). by apply Forall_nil. Qed.

Lemma decodeGen_members st : gen_ok st -> decodeStruct genFields false (emb (genJson st)) zeroGen = Some st.
Proof.
  intros [_ Hn Hv]. rewrite !Forall_cons in Hn. destruct Hn as (N1 & N2 & N3 & N4 & N5 & N6 & N7 & _).
  destruct st as [v k g rd rt w sy shr shs sfs sfr ohr ohs hh hr hs]. cbn in N1, N2, N3, N4, N5, N6, N7, Hv. unfold HeadKind in k.
  lazy -[parseUint64 parseInt64 decInt]. rewrite (parseInt64_dec v) by done. lazy -[parseUint64 decInt].
  rewrite (parseUint64_dec g) by done. lazy -[parseUint64 decInt]. rewrite (parseUint64_dec w) by done. lazy -[parseUint64 decInt].
  rewrite (parseUint64_dec sy) by done. lazy -[parseUint64 decInt]. rewrite (parseUint64_dec shs) by done. lazy -[parseUint64 decInt].
  rewrite (parseUint64_dec sfs) by done. lazy -[parseUint64 decInt]. rewrite (parseUint64_dec ohs) by done. lazy -[parseUint64 decInt].
  by rewrite (parseUint64_dec hs) by done.
Qed.

Lemma gen_stated st : forallb (stated (emb (genJson st))) requiredFields = true.
Proof. destruct st. reflexivity. Qed.

Section GenerationsCorrect.
Context `{MH : Multihash} `{CC : !CidBytes} `{CT : !CidText} {K : Type} `{PB : !Pebble K} `{PO : !PebbleOk K}.
Local Abbreviation KV := (gmap bytes bytes).

Lemma generation_reads st : gen_ok st -> validateGenerationState st = Ok tt -> decodeGeneration (marshalGen st) = Ok st.
Proof.
  intros Hs Hv. unfold decodeGeneration, marshalGen.
  rewrite decodeAll_render by (by apply genJson_valid || by rewrite genJson_height). rewrite decodeGen_members by done.
  rewrite gen_stated. cbn [negb]. rewrite andb_false_r. by rewrite Hv.
Qed.

(** ** What a store holds *)

Definition genOf (m : KV) (name : string) : option GenerationState :=
  v ← m !! generationKey name; match decodeGeneration v with Ok st => Some st | Err _ => None end.
Definition cidOf (m : KV) (key : bytes) : option CidV := v ← m !! key; cid_cast v.
Definition revOf (m : KV) (signer : bytes) : Z :=
  match m !! publicationRevisionKey signer with Some v => if (length v =? 8)%nat then Uint64 v else 0 | None => 0 end.

Lemma generationKey_inj a b : generationKey a = generationKey b -> a = b.
Proof. unfold generationKey. intros [= E]. by apply string_bytes_inj. Qed.

Lemma Gen_Get_run name (s : K) r s' : Gen_Get name s = (r, s') ->
  kv s' = kv s /\ match r with
                  | Ok (Some st) => genOf (kv s) name = Some st
                  | Ok None => kv s !! generationKey name = None
                  | Err _ => True
                  end.
Proof.
  unfold Gen_Get. intros [([] & s1 & H1 & H)|(e & H1 & ->)]%bind_run; apply kv_ctx_spec in H1 as [-> _]; [|done].
  destruct (emptyStr name); [by injection H as <- <-|].
  apply bind_run in H as [(v & s1 & Hv & H)|(e & Hv & ->)]; apply kv_get_spec in Hv as [Hk Hv]; [|done].
  destruct v as [v|]; [|injection H as <- <-; by split]. unfold bind, lift in H. unfold genOf. rewrite <- Hv. cbn.
  destruct (decodeGeneration v); by injection H as <- <-.
Qed.

(** ** No rollback *)

Definition advances (st st' : GenerationState) : Prop :=
  gs_Kind st' = gs_Kind st /\ (gs_Generation st < gs_Generation st' \/ st' = st).
Record no_rollback (m m' : KV) : Prop := {
  nb_gen : forall name st, genOf m name = Some st -> exists st', genOf m' name = Some st' /\ advances st st';
  nb_rev : forall signer, revOf m signer <= revOf m' signer }.

#[global] Instance no_rollback_preorder : PreOrder no_rollback.
Proof.
  split.
  - intros m. split; [|lia || done]. intros name st H. exists st. split; [done|]. split; [done|by right].
  - intros m1 m2 m3 [G1 R1] [G2 R2]. split.
    + intros name st Hst. apply G1 in Hst as (st1 & Hst1 & K1 & D1). apply G2 in Hst1 as (st2 & Hst2 & K2 & D2).
      exists st2. split; [done|]. split; [congruence|]. destruct D1 as [D1| ->], D2 as [D2| ->]; auto. left. lia.
    + intros signer. specialize (R1 signer). specialize (R2 signer). lia.
Qed.

(** A write outside the two record spaces. *)
Lemma other_write (m m' : KV) : (forall name, m' !! generationKey name = m !! generationKey name) ->
  (forall signer, m' !! publicationRevisionKey signer = m !! publicationRevisionKey signer) -> no_rollback m m'.
Proof.
  intros Hg Hr. split.
  - intros name st H. exists st. unfold genOf in *. rewrite Hg. split; [done|]. split; [done|by right].
  - intros signer. unfold revOf. rewrite Hr. lia.
Qed.

Lemma set_other (m : KV) k v : (forall name, k <> generationKey name) -> (forall signer, k <> publicationRevisionKey signer) ->
  no_rollback m (<[k := v]> m) /\ no_rollback m (delete k m).
Proof.
  intros Hg Hr. split; apply other_write; intros x; first [apply lookup_insert_ne|apply lookup_delete_ne]; auto.
Qed.
Lemma rootKey_other name : (forall n, rootKey name <> generationKey n) /\ (forall g, rootKey name <> publicationRevisionKey g).
Proof. split; intros x; discriminate. Qed.
Lemma tipKey_other name : (forall n, tipKey name <> generationKey n) /\ (forall g, tipKey name <> publicationRevisionKey g).
Proof. split; intros x; discriminate. Qed.

Lemma kv_set_both (P : KV -> Prop) k v (s : K) r s' : kv_set k v s = (r, s') -> P (kv s) -> P (<[k := v]> (kv s)) -> P (kv s').
Proof. intros H H0 H1. apply kv_set_spec in H. destruct r; [by rewrite H|]. destruct H as [_ [->| ->]]; done. Qed.

Lemma genOf_set (m : KV) name st n : gen_ok st -> validateGenerationState st = Ok tt ->
  genOf (<[generationKey name := marshalGen st]> m) n = if decide (n = name) then Some st else genOf m n.
Proof.
  intros Hs Hv. unfold genOf. destruct (decide (n = name)) as [->|Hn]; [rewrite lookup_insert_eq; cbn [mbind option_bind]; by rewrite generation_reads|].
  rewrite lookup_insert_ne by (by intros E%generationKey_inj). done.
Qed.
Lemma revOf_set_gen (m : KV) name v g : revOf (<[generationKey name := v]> m) g = revOf m g.
Proof. unfold revOf. by rewrite lookup_insert_ne by discriminate. Qed.

Lemma baseline_ok kind : kind = FinalizedMonotonic \/ kind = UnfinalizedMutable ->
  gen_ok (baseline kind) /\ validateGenerationState (baseline kind) = Ok tt.
Proof. intros [->| ->]; (split; [|reflexivity]); by split; [repeat constructor..|]. Qed.

(** ** The operations *)

Lemma EnsureKind_run name kind (s : K) r s' : EnsureKind name kind s = (r, s') ->
  no_rollback (kv s) (kv s') /\ match r with Ok st => genOf (kv s') name = Some st | Err _ => True end.
Proof.
  unfold EnsureKind. set (k := if decide _ then _ else _). cbv zeta. destruct (negb _ && negb _) eqn:Ek; [intros [= <- <-]; done|].
  assert (Hk : k = FinalizedMonotonic \/ k = UnfinalizedMutable).
  { apply andb_false_iff in Ek as [Ek%negb_false_iff%bool_decide_eq_true_1|Ek%negb_false_iff%bool_decide_eq_true_1]; auto. }
  destruct (emptyStr name); [intros [= <- <-]; done|].
  intros [(cur & s1 & H1 & H)|(e & H1 & ->)]%bind_run; apply Gen_Get_run in H1 as [E1 Hcur]; [|by rewrite E1].
  destruct cur as [st|].
  { destruct (bool_decide (gs_Kind st = k)); cbn [negb] in H; injection H as <- <-; rewrite E1; done. }
  apply bind_run in H as [(root & s2 & H2 & H)|(e & H2 & ->)]; apply kv_get_spec in H2 as [E2 _]; [|by rewrite E2, E1].
  destruct (negb (unset root) && negb (bool_decide (k = FinalizedMonotonic))); [injection H as <- <-; by rewrite E2, E1|].
  destruct (baseline_ok k Hk) as [Hb Hv].
  assert (Hno : forall m : KV, m !! generationKey name = None -> no_rollback m (<[generationKey name := marshalGen (baseline k)]> m)).
  { intros m Hm. split; [|intros g; rewrite revOf_set_gen; lia]. intros n st Hst. exists st. rewrite genOf_set by done.
    rewrite decide_False; [split; [done|]; split; [done|by right]|]. intros ->. unfold genOf in Hst. by rewrite Hm in Hst. }
  assert (Hc : kv s2 !! generationKey name = None) by (by rewrite E2, E1). rewrite <- E1, <- E2.
  apply bind_run in H as [([] & s3 & H3 & H)|(e & H3 & ->)].
  - injection H as <- <-. apply kv_set_spec in H3. rewrite H3. split; [by apply Hno|]. rewrite genOf_set by done. by rewrite decide_True.
  - split; [|done]. apply (kv_set_both _ _ _ _ _ _ H3); [done|by apply Hno].
Qed.

(** The writes of a commit. *)
Definition commitOps (name : string) (root : CidV) (next : GenerationState) : list kvop :=
  [KSet (rootKey name) (cid_bytes root); KSet (generationKey name) (marshalGen next)].

Lemma Gen_Commit_run name expected root next (s : K) r s' : Gen_Commit name expected root next s = (r, s') -> is_u64 expected ->
  (kv s' = kv s /\ exists e, r = Err e) \/
  exists c cur s1, root = Some c /\ genOf (kv s) name = Some cur /\ gs_Generation cur = expected /\ gs_Generation next = expected + 1 /\
    gs_Kind next = gs_Kind cur /\ gs_Root next = cid_String c /\ validateGenerationState next = Ok tt /\
    kv s1 = kv s /\ kv_commit (commitOps name c next) s1 = (r, s').
Proof.
  unfold Gen_Commit. intros H Hu. apply bind_run in H as [([] & s0 & H0 & H)|(e & H0 & ->)]; apply kv_ctx_spec in H0 as [-> _]; [|eauto].
  destruct root as [c|]; [|injection H as <- <-; eauto].
  apply bind_run in H as [(cur & s1 & H1 & H)|(e & H1 & ->)]; apply Gen_Get_run in H1 as [E1 Hcur]; [|left; split; [congruence|eauto]].
  destruct cur as [cur|]; [|injection H as <- <-; left; split; [congruence|eauto]].
  destruct (Z.eqb_spec (gs_Generation cur) expected) as [Eg|]; cbn [negb] in H; [|injection H as <- <-; left; split; [congruence|eauto]].
  destruct (Z.eqb_spec expected (2 ^ 64 - 1)) as [|Hmax]; [injection H as <- <-; left; split; [congruence|eauto]|].
  rewrite add64_small in H by (unfold is_u64 in *; lia).
  destruct (Z.eqb_spec (gs_Generation next) (expected + 1)) as [En|]; cbn [negb] in H; [|injection H as <- <-; left; split; [congruence|eauto]].
  destruct (bool_decide_reflect (gs_Kind next = gs_Kind cur)) as [Ek|]; cbn [negb] in H; [|injection H as <- <-; left; split; [congruence|eauto]].
  destruct (bool_decide_reflect (gs_Root next = cid_String c)) as [Er|]; cbn [negb] in H; [|injection H as <- <-; left; split; [congruence|eauto]].
  unfold bind, lift in H. destruct (validateGenerationState next) as [[]|e] eqn:Ev; [|injection H as <- <-; left; split; [congruence|eauto]].
  right. exists c, cur, s1. repeat split; congruence || done.
Qed.

Lemma commitOps_effect (m : KV) name c next : gen_ok next -> validateGenerationState next = Ok tt ->
  let m' := kv_applys (commitOps name c next) m in
  (forall n, genOf m' n = if decide (n = name) then Some next else genOf m n) /\ (forall g, revOf m' g = revOf m g) /\
  cidOf m' (rootKey name) = Some c /\ (forall k, k <> rootKey name -> k <> generationKey name -> m' !! k = m !! k).
Proof.
  intros Hs Hv. cbv zeta.
  change (kv_applys (commitOps name c next) m) with (<[generationKey name := marshalGen next]> (<[rootKey name := cid_bytes c]> m)).
  split; [|split; [|split]].
  - intros n. rewrite genOf_set by done. destruct (decide (n = name)); [done|]. unfold genOf. by rewrite lookup_insert_ne by discriminate.
  - intros g. rewrite revOf_set_gen. unfold revOf. by rewrite lookup_insert_ne by discriminate.
  - unfold cidOf. rewrite lookup_insert_ne by discriminate. rewrite lookup_insert_eq. cbn [mbind option_bind]. apply cast_bytes.
  - intros k H1 H2. by rewrite !lookup_insert_ne by done.
Qed.

Lemma commit_no_rollback (m : KV) name c cur next : gen_ok next -> validateGenerationState next = Ok tt ->
  genOf m name = Some cur -> gs_Kind next = gs_Kind cur -> gs_Generation cur < gs_Generation next ->
  no_rollback m (kv_applys (commitOps name c next) m).
Proof.
  intros Hs Hv Hc Hk Hg. destruct (commitOps_effect m name c next Hs Hv) as (Hgen & Hrev & _ & _). split.
  - intros n st Hst. rewrite Hgen. destruct (decide (n = name)) as [->|_].
    + exists next. rewrite Hc in Hst. injection Hst as <-. split; [done|]. split; [done|by left].
    + exists st. split; [done|]. split; [done|by right].
  - intros g. rewrite Hrev. lia.
Qed.

(** C33: Selecting a generation is an atomic compare-and-set: when it succeeds the head
    was at the expected generation, and now its record is the next one and its root
    the selected one, while every other key is untouched; when it fails nothing has
    changed, except that a failure of the commit itself may have taken effect whole. *)
Theorem generation_commit_atomic name expected root next (s : K) r s' : is_u64 expected -> gen_ok next ->
  Gen_Commit name expected root next s = (r, s') ->
  let selected := exists c cur, root = Some c /\ gs_Root next = cid_String c /\ genOf (kv s) name = Some cur /\
    gs_Generation cur = expected /\ gs_Generation next = expected + 1 /\ gs_Kind next = gs_Kind cur /\
    genOf (kv s') name = Some next /\ cidOf (kv s') (rootKey name) = Some c /\
    forall k, k <> rootKey name -> k <> generationKey name -> kv s' !! k = kv s !! k in
  match r with Ok _ => selected | Err e => kv s' = kv s \/ (e = EIO /\ selected) end.
Proof.
  intros Hu Hs H. cbv zeta. apply Gen_Commit_run in H as [[-> (e & ->)]|(c & cur & s1 & -> & Hcur & Eg & En & Ek & Er & Hv & E1 & H)]; [by left| |done].
  destruct (commitOps_effect (kv s) name c next Hs Hv) as (Hgen & _ & Hroot & Hoth).
  assert (Hsel : kv s' = kv_applys (commitOps name c next) (kv s) -> exists c0 cur0, Some c = Some c0 /\ gs_Root next = cid_String c0 /\
    genOf (kv s) name = Some cur0 /\ gs_Generation cur0 = expected /\ gs_Generation next = expected + 1 /\ gs_Kind next = gs_Kind cur0 /\
    genOf (kv s') name = Some next /\ cidOf (kv s') (rootKey name) = Some c0 /\
    forall k, k <> rootKey name -> k <> generationKey name -> kv s' !! k = kv s !! k).
  { intros ->. exists c, cur. rewrite Hgen, decide_True by done. repeat split; done. }
  apply kv_commit_spec in H. rewrite E1 in H. destruct r; [by apply Hsel|]. destruct H as [-> [->|H]]; auto.
Qed.

(** ** Sequences of operations *)

Inductive gop : Type :=
| GEnsure (name : string) (kind : HeadKind)
| GCommit (name : string) (expected : Z) (root : Cid) (next : GenerationState)
| GRoot (name : string) (root : Cid)
| GTip (name : string) (tip : Cid)
| GTipDelete (name : string)
| GNext (signer : bytes).

(** An operation, with the revision it allocated. *)
Definition runGop (o : gop) : M K (option Z) :=
  match o with
  | GEnsure name kind => EnsureKind name kind ;;; ret None
  | GCommit name expected root next => Gen_Commit name expected root next ;;; ret None
  | GRoot name root => Root_Put name root ;;; ret None
  | GTip name tip => Tip_Put name tip ;;; ret None
  | GTipDelete name => Tip_Delete name ;;; ret None
  | GNext signer => v <-- Rev_Next signer ;; ret (Some v)
  end.
Definition gop_ok (o : gop) : Prop := match o with GCommit _ expected _ next => is_u64 expected /\ gen_ok next | _ => True end.

Lemma then_none {A} (m : M K A) (s : K) r s' : (m ;;; ret (None : option Z)) s = (r, s') -> exists r0, m s = (r0, s') /\ forall v, r <> Ok (Some v).
Proof. intros [(a & s1 & H1 & [= <- <-])|(e & H1 & ->)]%bind_run; eexists; (split; [exact H1|done]). Qed.

Lemma cid_put_run key name (c : Cid) what (s : K) r s' :
  (kv_ctx ;;; fail_if emptyStr name with EInvalid "head name must not be empty" ;;
   match c with None => fail (EInvalid what) | Some c => kv_set key (cid_bytes c) end) s = (r, s') ->
  (forall n, key <> generationKey n) -> (forall g, key <> publicationRevisionKey g) -> no_rollback (kv s) (kv s').
Proof.
  intros H Hg Hr. apply bind_run in H as [([] & s0 & H0 & H)|(e & H0 & ->)]; apply kv_ctx_spec in H0 as [-> _]; [|done].
  destruct (emptyStr name); [by injection H as <- <-|]. destruct c as [c|]; [|by injection H as <- <-].
  apply (kv_set_both _ _ _ _ _ _ H); [done|by apply set_other].
Qed.

Lemma revOf_set (m : KV) g v g' : is_u64 v -> revOf (<[publicationRevisionKey g := PutUint64 v]> m) g' = if decide (g' = g) then v else revOf m g'.
Proof.
  intros Hv. unfold revOf. destruct (decide (g' = g)) as [->|Hn].
  - rewrite lookup_insert_eq, PutUint64_length. cbn [Nat.eqb]. by apply Uint64_PutUint64.
  - rewrite lookup_insert_ne; [done|]. unfold publicationRevisionKey. congruence.
Qed.

Lemma Rev_Next_run g (s : K) r s' : Rev_Next g s = (r, s') -> no_rollback (kv s) (kv s') /\
  match r with Ok v => revOf (kv s) g < v /\ revOf (kv s') g = v | Err _ => True end.
Proof.
  unfold Rev_Next. intros [([] & s0 & H0 & H)|(e & H0 & ->)]%bind_run; apply kv_ctx_spec in H0 as [-> _]; [|done].
  destruct (length g =? 32)%nat; cbn [negb] in H; [|by injection H as <- <-].
  assert (Hcur : forall (r0 : res (option Z)) s1, currentLocked g s = (r0, s1) -> kv s1 = kv s /\
    match r0 with Ok c => revOf (kv s) g = default 0 c /\ is_u64 (default 0 c) | Err _ => True end).
  { intros r0 s1. unfold currentLocked. intros [(v & s2 & Hv & Hc)|(e & Hv & ->)]%bind_run; apply kv_get_spec in Hv as [Ek Hv]; [|done].
    unfold revOf. rewrite <- Hv. destruct v as [v|]; [|by injection Hc as <- <-].
    destruct (length v =? 8)%nat eqn:El; cbn [negb] in Hc; [|by injection Hc as <- <-]. destruct (Uint64 v =? 0); [by injection Hc as <- <-|].
    injection Hc as <- <-. split; [done|]. split; [done|]. apply Nat.eqb_eq in El. pose proof (Uint64_range v) as Hr. rewrite El in Hr. exact Hr. }
  apply bind_run in H as [(c & s1 & H1 & H)|(e & H1 & ->)]; apply Hcur in H1 as [E1 Hc]; [|by rewrite E1]. destruct Hc as [Hc Hu]. cbv zeta in H.
  destruct (Z.eqb_spec (default 0 c) (2 ^ 64 - 1)) as [|Hmax]; [injection H as <- <-; by rewrite E1|].
  rewrite add64_small in H by (unfold is_u64 in *; lia). set (v := default 0 c + 1) in *.
  assert (Hv : is_u64 v) by (unfold is_u64, v in *; lia).
  assert (Hno : no_rollback (kv s) (<[publicationRevisionKey g := PutUint64 v]> (kv s))).
  { split; [intros name st Hst; exists st; unfold genOf in *; rewrite lookup_insert_ne by discriminate; split; [done|]; split; [done|by right]|].
    intros g'. rewrite revOf_set by done. destruct (decide (g' = g)) as [->|]; lia. }
  rewrite <- E1 in Hno |- *. apply bind_run in H as [([] & s2 & H2 & H)|(e & H2 & ->)].
  - injection H as <- <-. apply kv_set_spec in H2. rewrite H2. split; [done|]. rewrite revOf_set, decide_True by done. rewrite E1, Hc. unfold v. lia.
  - split; [|done]. by apply (kv_set_both _ _ _ _ _ _ H2).
Qed.

Lemma runGop_run o (s : K) r s' : gop_ok o -> runGop o s = (r, s') -> no_rollback (kv s) (kv s') /\
  match r with Ok (Some v) => exists g, o = GNext g /\ revOf (kv s) g < v /\ revOf (kv s') g = v | _ => True end.
Proof.
  intros Ho H. destruct o as [name kind|name expected root next|name root|name tip|name|g]; cbn in H.
  1-5: apply then_none in H as (r0 & H & Hr).
  1-5: assert (Hn : match r with Ok (Some v) => False | _ => True end) by (destruct r as [[v|]|]; [by eapply Hr|done|done]).
  1-5: split; [|by destruct r as [[v|]|]].
  - by apply EnsureKind_run in H as [H _].
  - destruct Ho as [Hu Hok]. apply Gen_Commit_run in H as [[-> _]|(c & cur & s1 & -> & Hcur & Eg & En & Ek & Er & Hv & E1 & H)]; [done| |done].
    rewrite <- E1. apply kv_commit_spec in H. assert (Hno := commit_no_rollback (kv s) name c cur next Hok Hv Hcur Ek ltac:(lia)).
    rewrite <- E1 in Hno. destruct r0; [by rewrite H|]. destruct H as [_ [->| ->]]; done.
  - eapply cid_put_run; [exact H| |]; apply rootKey_other.
  - eapply cid_put_run; [exact H| |]; apply tipKey_other.
  - unfold Tip_Delete in H. apply bind_run in H as [([] & s0 & H0 & H)|(e & H0 & ->)]; apply kv_ctx_spec in H0 as [-> _]; [|done].
    destruct (emptyStr name); [by injection H as <- <-|]. destruct (set_other (kv s) (tipKey name) []) as [_ Hd]; [apply tipKey_other..|].
    apply kv_delete_spec in H. destruct r0; [by rewrite H|]. destruct H as [_ [->| ->]]; done.
  - apply bind_run in H as [(v & s1 & H1 & [= <- <-])|(e & H1 & ->)]; apply Rev_Next_run in H1 as [H1 Hv]; [|done]. split; [done|]. eauto.
Qed.

(** The state after a sequence and the revisions handed out, in order. *)
Definition runGops (ops : list gop) (s : K) : K := foldl (fun s o => snd (runGop o s)) s ops.
Fixpoint allocated (ops : list gop) (s : K) : list (bytes * Z) :=
  match ops with
  | [] => []
  | o :: ops' =>
    let '(r, s') := runGop o s in
    match o, r with
    | GNext g, Ok (Some v) => (g, v) :: allocated ops' s'
    | _, _ => allocated ops' s'
    end
  end.

(** C34: No sequence of operations on the writer's records, whether they succeed or
    fail, rolls back a head: its kind never changes, its generation never falls, and
    at one generation its record stays the same. *)
Theorem generations_never_roll_back ops (s : K) : Forall gop_ok ops -> no_rollback (kv s) (kv (runGops ops s)).
Proof.
  revert s. induction ops as [|o ops IH]; intros s; [done|]. intros [Ho Hops]%Forall_cons. cbn [runGops foldl].
  transitivity (kv (snd (runGop o s))); [|by apply IH]. destruct (runGop o s) as [r s'] eqn:E. by apply runGop_run in E as [E _].
Qed.

Lemma allocated_above ops (s : K) g v : Forall gop_ok ops -> (g, v) ∈ allocated ops s -> revOf (kv s) g < v.
Proof.
  revert s. induction ops as [|o ops IH]; intros s; [intros _ H; by apply not_elem_of_nil in H|]. intros [Ho Hops]%Forall_cons. cbn [allocated].
  destruct (runGop o s) as [r s'] eqn:E. apply runGop_run in E as [[_ Hno] Hr]; [|done]. specialize (Hno g).
  assert (Hrest : (g, v) ∈ allocated ops s' -> revOf (kv s) g < v) by (intros H; specialize (IH s' Hops H); lia).
  destruct o; try exact Hrest. destruct r as [[u|]|]; try exact Hrest. intros [[= -> ->]|H]%elem_of_cons; [|by apply Hrest].
  destruct Hr as (g' & [= <-] & Hlt & _). done.
Qed.

(** No revision is handed out twice: among the revisions a signing key is given in
    any sequence of operations, later ones are strictly larger, also when some of the
    writes fail in between. *)
Theorem revisions_increase ops (s : K) : Forall gop_ok ops ->
  forall i j g v v', (i < j)%nat -> allocated ops s !! i = Some (g, v) -> allocated ops s !! j = Some (g, v') -> v < v'.
Proof.
  revert s. induction ops as [|o ops IH]; intros s; [done|]. intros [Ho Hops]%Forall_cons. cbn [allocated].
  destruct (runGop o s) as [r s'] eqn:E. apply runGop_run in E as [_ Hr]; [|done].
  destruct o as [| | | | |g0]; try exact (IH s' Hops). destruct r as [[u|]|]; try exact (IH s' Hops).
  intros i j g v v' Hij Hi Hj. destruct j as [|j]; [lia|]. cbn in Hj. destruct i as [|i].
  - injection Hi as <- <-. destruct Hr as (g' & [= <-] & _ & Hu). apply list_elem_of_lookup_2 in Hj. apply allocated_above in Hj; [lia|done].
  - cbn in Hi. by apply (IH s' Hops i j g v v'); [lia| |].
Qed.

(** ** The digest of a request *)

Lemma hex0x_inj a b : hex0x a = hex0x b -> a = b.
Proof.
  unfold hex0x. intros E. apply (f_equal string_bytes) in E. rewrite !string_bytes_string in E. injection E as E.
  apply hex_inj. unfold EncodeToString. by rewrite E.
Qed.
Lemma vhHex_inj a b : vhHex a = vhHex b -> a = b.
Proof. intros E%hex0x_inj. by apply vh_eq. Qed.

Lemma hex0x_valid b : validString (hex0x b) = true.
Proof.
  unfold validString, hex0x. rewrite string_bytes_string. pose proof (hex_valid b) as H. unfold validString, EncodeToString in H.
  rewrite string_bytes_string in H. exact H.
Qed.

Lemma normalizeRow_inv r x : normalizeRow r = Ok x -> snd x = mkGRow (rr_Slot (fst x)) (map vhHex (VHs (fst x))).
Proof. unfold normalizeRow. intros (vhs & _ & [= <-])%rbind_ok. done. Qed.

Lemma normalizeRows_inv rows xs : rmap normalizeRow rows = Ok xs -> map snd xs = map (fun r => mkGRow (rr_Slot r) (map vhHex (VHs r))) (map fst xs).
Proof.
  revert xs. induction rows as [|r rows IH]; intros xs H; cbn in H; [by injection H as <-|].
  apply rbind_ok in H as (x & Hx & (ys & Hys & [= <-])%rbind_ok). cbn. by rewrite (normalizeRow_inv _ _ Hx), (IH ys Hys).
Qed.

Lemma map_inj_in {A B} (f : A -> B) l l' : (forall x y, f x = f y -> x = y) -> map f l = map f l' -> l = l'.
Proof.
  intros Hf. revert l'. induction l as [|x l IH]; intros [|y l'] E; try discriminate E; [done|]. injection E as E1 E2. f_equal; auto.
Qed.
Lemma rowJson_inj a b : rowJson a = rowJson b -> a = b.
Proof.
  destruct a as [s l], b as [s' l']. unfold rowJson. cbn. intros [= -> E]. f_equal. apply (map_inj_in JStr); [by intros x y [= ->]|done].
Qed.
Lemma normJson_inj a b : normJson a = normJson b -> a = b.
Proof.
  destruct a, b. unfold normJson. cbn. intros E. injection E as -> -> E -> -> -> -> ->. f_equal. by apply (map_inj_in rowJson _ _ rowJson_inj).
Qed.

Lemma rowJson_shape (l : list RefRow) : let js := map rowJson (map (fun r => mkGRow (rr_Slot r) (map vhHex (VHs r))) l) in
  forallb jsonValid js = true /\ Forall (fun j => jheight j <= 2) js.
Proof.
  cbv zeta. rewrite !map_map. split.
  - apply forallb_forall. intros j (r & <- & _)%in_map_iff. cbn. rewrite andb_true_r. apply forallb_forall.
    intros x (y & <- & (v & <- & _)%in_map_iff)%in_map_iff. apply hex0x_valid.
  - apply Forall_forall. intros j Hj. apply list_elem_of_In, in_map_iff in Hj as (r & <- & _). apply (height_members _ 1); [|lia].
    repeat (apply Forall_cons; split); [cbn; lia| |by apply Forall_nil]. apply (height_list _ 0); [|lia].
    apply Forall_forall. intros x Hx. apply list_elem_of_In, in_map_iff in Hx as (y & <- & _). cbn. lia.
Qed.

Lemma normalize_inv req n rows d : (forall c, validString (cid_String c) = true) -> normalizeGeneration req = Ok (n, rows, d) ->
  jsonValid (normJson n) = true /\ jheight (normJson n) <= maxNestingDepth /\ d = sha256 (render (normJson n)) /\
  ng_Rows n = map (fun r => mkGRow (rr_Slot r) (map vhHex (VHs r))) rows.
Proof.
  intros Hcid. unfold normalizeGeneration. intros (hr & _ & (fr & _ & H)%rbind_ok)%rbind_ok. destruct (cid_Decode _) as [c|]; [|done].
  apply rbind_ok in H as (xs & Hxs & H). injection H as <- <- <-. apply normalizeRows_inv in Hxs. cbn [ng_Rows].
  destruct (rowJson_shape (map fst xs)) as [Hv Hh]. rewrite <- Hxs in Hv, Hh. split; [|split; [|done]].
  - unfold normJson. cbn [jsonValid forallb ng_WindowStart ng_SyncedTo ng_Rows ng_SourceHeadRoot ng_SourceFinalizedSlot ng_SourceFinalizedRoot
      ng_ObservedHandoffRoot ng_ObservedHandoffSyncedTo]. unfold renderBeaconRoot. rewrite Hv, !hex0x_valid, Hcid. reflexivity.
  - assert (jheight (normJson (mkNorm (rq_WindowStart req) (rq_SyncedTo req) (map snd xs) (renderBeaconRoot hr) (rq_SourceFinalizedSlot req)
      (renderBeaconRoot fr) (cid_String c) (rq_ObservedHandoffSyncedTo req))) <= 1 + 3); [|unfold maxNestingDepth; lia].
    apply height_members; [|lia]. repeat (apply Forall_cons; split); try (cbn; lia); [|by apply Forall_nil].
    apply (height_list _ 2); [done|lia].
Qed.

(** The digest of a request identifies what it asks for: two requests with one
    digest have the same normalized claim and name the same rows, so an exact retry
    is recognized as one and nothing else is. *)
Theorem request_digest_identifies req req' n n' rows rows' d : (forall c, validString (cid_String c) = true) ->
  normalizeGeneration req = Ok (n, rows, d) -> normalizeGeneration req' = Ok (n', rows', d) -> n = n' /\ rows = rows'.
Proof.
  intros Hcid (V & H & E & R)%normalize_inv (V' & H' & E' & R')%normalize_inv; [|done..].
  assert (n = n') as <-. { rewrite E in E'. apply sha256_inj in E'. apply normJson_inj. by apply render_inj. }
  split; [done|]. rewrite R in R'. apply (map_inj_in _ _ _) in R'; [done|]. intros [s l] [s' l'] [= -> El]. f_equal. by apply (map_inj_in vhHex _ _ vhHex_inj).
Qed.
End GenerationsCorrect.
