(* ===== verification/Snapshot.v ===== *)
(** The provisional snapshot of the optimistic chain: index/unfinalized/snapshot.go.

    A tracker reads the beacon chain from its head back through parent roots until it
    has met the finalized checkpoint and left the window it keeps.  The beacon node is
    an interface ([HeaderSource], as in the code); its law is that a root names one
    header and one list of commitments.  The map of locations is a list in which
    later entries shadow earlier ones.

    Proved: a snapshot holds exactly the ancestors of the head inside the window, in
    slot order, and the finalized checkpoint is an ancestor too; it is determined by
    the head's root and the window; and the walk ends. *)
From Stdlib Require Import Sorting.Sorted.
From S2P Require Import Prelude Cid Schema Store Ledger Apply Core Engine Policy Reconcile Staging Ingest Json Publication.

(** The Go type [32]byte. *)
Abbreviation root32 := ArchiveID.

(** upstream.BeaconHeader *)
Record BeaconHeader : Type := mkHeader { hd_Slot : Z; hd_Root : root32; hd_ParentRoot : root32; hd_Finalized : bool }.

Class HeaderSource (W : Type) : Type := {
  hs_ctx : M W unit;
  hs_Head : M W (option BeaconHeader);
  hs_FinalizedHeader : M W (option BeaconHeader);
  hs_HeaderByRoot : root32 -> M W BeaconHeader;
  hs_CommitmentsByRoot : root32 -> M W (list bytes)
}.

Record CanonicalBlock : Type := mkBlock { cb_Slot : Z; cb_Root : root32; cb_ParentRoot : root32; cb_VHs : list VersionedHash }.

(** archclient.Row *)
Record ClientRow : Type := mkClientRow { cr_Slot : Z; cr_VHs : list VersionedHash }.

Record Snapshot : Type := mkSnapshot {
  sn_WindowStart : Z; sn_SyncedTo : Z; sn_Head : BeaconHeader; sn_Finalized : BeaconHeader;
  sn_Blocks : list CanonicalBlock; sn_Rows : list ClientRow; sn_Locations : list (VersionedHash * Z) }.

Definition ErrHandoffBlocked : err := EConflict "unfinalized: finalized handoff is blocked".
Definition ErrSnapshotChanged : err := EConflict "unfinalized: optimistic snapshot changed".

Definition WindowStart (networkOrigin handoffSyncedTo overlap : Z) : Z :=
  let next := if handoffSyncedTo =? 2 ^ 64 - 1 then handoffSyncedTo else add64 handoffSyncedTo 1 in
  let low := if overlap <? next then sub64 next overlap else 0 in
  if low <? networkOrigin then networkOrigin else low.

Section Snapshot.
Context `{KZ : Kzg} {W : Type} `{HS : !HeaderSource W}.

Definition maxProofHeadersOf (maxWindowSlots : Z) : Z :=
  let m := mul64 maxWindowSlots 2 in if m <? maxWindowSlots then 2 ^ 64 - 1 else m.

(** The block a header and its commitments give. *)
Definition canonicalBlock (h : BeaconHeader) (commitments : list bytes) : CanonicalBlock :=
  mkBlock (hd_Slot h) (hd_Root h) (hd_ParentRoot h) (map VersionedHashFromCommitment commitments).

(** One pass of the loop up to the read of the parent. *)
Definition keepBlock (windowStart : Z) (cur : BeaconHeader) (rev : list CanonicalBlock) : M W (list CanonicalBlock) :=
  if windowStart <=? hd_Slot cur
  then commitments <-- hs_CommitmentsByRoot (hd_Root cur) ;; ret (rev ++ [canonicalBlock cur commitments])
  else ret rev.

Fixpoint walk (fuel : nat) (finalized : BeaconHeader) (windowStart maxProofHeaders : Z) (cur : BeaconHeader)
    (rev : list CanonicalBlock) (seen : list root32) (foundFinalized : bool) (proofHeaders : Z) : M W (list CanonicalBlock * bool) :=
  match fuel with
  | O => fail EDiverges
  | S fuel' =>
    hs_ctx ;;;
    fail_if bool_decide (hd_Root cur ∈ seen) with EInvalid "canonical ancestry loops" ;;
    let seen := hd_Root cur :: seen in
    let atAnchor := hd_Slot cur =? hd_Slot finalized in
    fail_if atAnchor && negb (bool_decide (hd_Root cur = hd_Root finalized)) with EInvalid "another root at the finalized slot" ;;
    let foundFinalized := foundFinalized || atAnchor in
    rev <-- keepBlock windowStart cur rev ;;
    if foundFinalized && (hd_Slot cur <=? windowStart) then ret (rev, foundFinalized) else
    fail_if negb foundFinalized && (hd_Slot cur <? hd_Slot finalized) with EInvalid "ancestry passed below the finalized slot" ;;
    let proofHeaders := add64 proofHeaders 1 in
    fail_if maxProofHeaders <? proofHeaders with EInvalid "finalized root not reached within the proof budget" ;;
    parent <-- hs_HeaderByRoot (hd_ParentRoot cur) ;;
    fail_if negb (bool_decide (hd_Root parent = hd_ParentRoot cur)) with EInvalid "parent lookup returned another root" ;;
    fail_if hd_Slot cur <=? hd_Slot parent with EInvalid "parent slot is not below child slot" ;;
    walk fuel' finalized windowStart maxProofHeaders parent rev seen foundFinalized proofHeaders
  end.

Definition hasVHs (b : CanonicalBlock) : bool := match cb_VHs b with [] => false | _ => true end.
Definition rowsOf (blocks : list CanonicalBlock) : list ClientRow :=
  map (fun b => mkClientRow (cb_Slot b) (cb_VHs b)) (List.filter hasVHs blocks).
Definition locationsOf (blocks : list CanonicalBlock) : list (VersionedHash * Z) :=
  foldl (fun m b => foldl (fun m vh => (vh, cb_Slot b) :: m) m (cb_VHs b)) [] blocks.
Definition locate (vh : VersionedHash) (m : list (VersionedHash * Z)) : option Z :=
  snd <$> List.find (fun '(v, _) => bool_decide (v = vh)) m.

Definition Build (windowStart maxWindowSlots : Z) : M W Snapshot :=
  fail_if maxWindowSlots =? 0 with EInvalid "max window slots must be positive" ;;
  finalized <-- hs_FinalizedHeader ;;
  match finalized with
  | None => fail (EInvalid "finalized header is not available yet")
  | Some finalized =>
    fail_if negb (hd_Finalized finalized) with EInvalid "finalized endpoint returned a non-finalized header" ;;
    head <-- hs_Head ;;
    match head with
    | None => fail (EInvalid "canonical head is not available yet")
    | Some head =>
      fail_if hd_Slot head <? hd_Slot finalized with EInvalid "finalized slot is above the canonical head" ;;
      fail_if hd_Slot head <? windowStart with EInvalid "window start is above the canonical head" ;;
      let width := add64 (sub64 (hd_Slot head) windowStart) 1 in
      fail_if maxWindowSlots <? width with ErrHandoffBlocked ;;
      let* (rev, foundFinalized) := walk (S (Z.to_nat (hd_Slot head))) finalized windowStart (maxProofHeadersOf maxWindowSlots)
                                     head [] [] false 0 in
      fail_if negb foundFinalized with EInvalid "ancestry did not contain the finalized root" ;;
      let blocks := reverse rev in
      ret (mkSnapshot windowStart (hd_Slot head) head finalized blocks (rowsOf blocks) (locationsOf blocks))
    end
  end.

Definition StableHead (want : root32) : M W unit :=
  head <-- hs_Head ;;
  match head with
  | None => fail ErrSnapshotChanged
  | Some head => fail_if negb (bool_decide (hd_Root head = want)) with ErrSnapshotChanged ;; ret tt
  end.

(** ** The chain behind a root *)

(** A root names one header, up to its finality, and one list of commitments. *)
Class HeaderSourceOk : Type := {
  link_of : root32 -> option (Z * root32);
  commits_of : root32 -> option (list bytes);
  link_u64 : forall r s p, link_of r = Some (s, p) -> is_u64 s;
  ByRoot_ok : forall r w h w', hs_HeaderByRoot r w = (Ok h, w') -> link_of (hd_Root h) = Some (hd_Slot h, hd_ParentRoot h);
  Head_ok : forall w h w', hs_Head w = (Ok (Some h), w') -> link_of (hd_Root h) = Some (hd_Slot h, hd_ParentRoot h);
  Finalized_ok : forall w h w', hs_FinalizedHeader w = (Ok (Some h), w') -> link_of (hd_Root h) = Some (hd_Slot h, hd_ParentRoot h);
  Commitments_ok : forall r w cs w', hs_CommitmentsByRoot r w = (Ok cs, w') -> commits_of r = Some cs
}.
Context {HO : HeaderSourceOk}.

(** [p] is the parent of [r], at an earlier slot. *)
Definition parent_of (r p : root32) : Prop :=
  exists s s' pp, link_of r = Some (s, p) /\ link_of p = Some (s', pp) /\ s' < s.
Definition ancestor : root32 -> root32 -> Prop := rtc parent_of.
Definition slot_of (r : root32) : option Z := fst <$> link_of r.

(** The block a root names. *)
Definition block_at (r : root32) (b : CanonicalBlock) : Prop :=
  cb_Root b = r /\ link_of r = Some (cb_Slot b, cb_ParentRoot b) /\
  exists cs, commits_of r = Some cs /\ cb_VHs b = map VersionedHashFromCommitment cs.

Lemma block_at_fun r b b' : block_at r b -> block_at r b' -> b = b'.
Proof.
  intros (R & L & cs & C & V) (R' & L' & cs' & C' & V'). rewrite L in L'. injection L' as ? ?. rewrite C in C'. injection C' as <-.
  destruct b, b'; cbn in *; congruence.
Qed.

Lemma ancestor_slot r r' s : link_of r = Some s -> ancestor r r' -> r' = r \/ exists s' p', link_of r' = Some (s', p') /\ s' < fst s.
Proof.
  intros Hs H. revert s Hs. induction H as [r|r p r' (s1 & s2 & pp & E1 & E2 & Hlt) H IH]; intros s Hs; [by left|]. right.
  destruct (IH _ E2) as [->|(s' & p' & E' & Hlt')]; rewrite E1 in Hs; injection Hs as <-; cbn in *; [by eauto|].
  exists s', p'. split; [done|lia].
Qed.

Lemma ancestor_total r a b : ancestor r a -> ancestor r b -> ancestor a b \/ ancestor b a.
Proof.
  intros Ha. revert b. induction Ha as [r|r p a Hp Ha IH]; intros b Hb; [by left|].
  inversion Hb as [|? p' ? Hp' Hb']; subst; [right; by eapply rtc_l|]. apply IH.
  destruct Hp as (? & ? & ? & E & _), Hp' as (? & ? & ? & E' & _). rewrite E in E'. injection E' as _ <-. done.
Qed.

(** ** The loop *)

(** What the blocks met so far are: ancestors of the head, newest first, above the
    current header; and no ancestor of the head inside the window has been skipped. *)
Record walked (hr : root32) (ws : Z) (cur : BeaconHeader) (rev : list CanonicalBlock) : Prop := {
  wk_cur : link_of (hd_Root cur) = Some (hd_Slot cur, hd_ParentRoot cur);
  wk_anc : ancestor hr (hd_Root cur);
  wk_blocks : forall b, b ∈ rev -> ancestor hr (cb_Root b) /\ block_at (cb_Root b) b /\ ws <= cb_Slot b /\ hd_Slot cur < cb_Slot b;
  wk_sorted : StronglySorted (fun a b => cb_Slot b < cb_Slot a) rev;
  wk_all : forall r, ancestor hr r -> ancestor (hd_Root cur) r \/ (exists b, b ∈ rev /\ cb_Root b = r) \/ exists s p, link_of r = Some (s, p) /\ s < ws }.

(** The state after the block of the current header has been kept. *)
Record kept (hr : root32) (ws : Z) (cur : BeaconHeader) (rev : list CanonicalBlock) : Prop := {
  kp_blocks : forall b, b ∈ rev -> ancestor hr (cb_Root b) /\ block_at (cb_Root b) b /\ ws <= cb_Slot b /\ hd_Slot cur <= cb_Slot b;
  kp_sorted : StronglySorted (fun a b => cb_Slot b < cb_Slot a) rev;
  kp_all : forall r, ancestor hr r -> (exists b, b ∈ rev /\ cb_Root b = r) \/ (exists s p, link_of r = Some (s, p) /\ s < ws) \/
            (r <> hd_Root cur /\ ancestor (hd_Root cur) r) }.

Lemma sorted_snoc {A} (R : A -> A -> Prop) l x : StronglySorted R l -> Forall (fun y => R y x) l -> StronglySorted R (l ++ [x]).
Proof.
  induction 1 as [|y l Hl IH Hy]; [repeat constructor|]. intros [Hyx Hlx]%Forall_cons. cbn. constructor; [by apply IH|].
  apply Forall_app. split; [done|]. by constructor.
Qed.

Lemma keepBlock_run hr ws cur rev (w : W) r w' : walked hr ws cur rev -> keepBlock ws cur rev w = (r, w') ->
  match r with Ok rev' => kept hr ws cur rev' | Err _ => True end.
Proof.
  intros [Hc Ha Hb Hs Hall]. unfold keepBlock. destruct (Z.leb_spec ws (hd_Slot cur)) as [Hle|Hlt].
  - intros [(cs & w1 & H1 & H)|(e & H1 & ->)]%bind_run; [|done]. injection H as <- <-. apply Commitments_ok in H1.
    set (x := canonicalBlock cur cs).
    assert (Hx : block_at (hd_Root cur) x) by (split; [done|]; split; [done|]; by exists cs). split.
    + intros b [Hin|Hin]%elem_of_app; [apply Hb in Hin as (? & ? & ? & ?); split; [done|]; split; [done|]; lia|].
      apply list_elem_of_singleton in Hin as ->. cbn. split; [done|]. split; [done|]. lia.
    + apply sorted_snoc; [done|]. apply Forall_forall. intros b Hin. by apply Hb in Hin as (_ & _ & _ & ?).
    + intros q Hq. destruct (decide (q = hd_Root cur)) as [->|Hn]; [left; exists x; split; [|done]; apply elem_of_app; right; by apply list_elem_of_singleton|].
      apply Hall in Hq as [Hq|[(b & Hin & <-)|Hq]]; [by right; right|left; exists b; split; [|done]; apply elem_of_app; by left|by right; left].
  - intros [= <- <-]. split; [|done|].
    + intros b Hin. apply Hb in Hin as (? & ? & ? & ?). split; [done|]. split; [done|]. lia.
    + intros q Hq. apply Hall in Hq as [Hq|[Hq|Hq]]; [|by left|by right; left].
      destruct (decide (q = hd_Root cur)) as [->|Hn]; [right; left; by eauto|by right; right].
Qed.

Lemma kept_step hr ws cur rev parent : ancestor hr (hd_Root cur) -> link_of (hd_Root cur) = Some (hd_Slot cur, hd_ParentRoot cur) ->
  link_of (hd_Root parent) = Some (hd_Slot parent, hd_ParentRoot parent) -> hd_Root parent = hd_ParentRoot cur -> hd_Slot parent < hd_Slot cur ->
  kept hr ws cur rev -> walked hr ws parent rev.
Proof.
  intros Ha Hc Hp E Hlt [Hb Hs Hall]. assert (Hstep : parent_of (hd_Root cur) (hd_Root parent)).
  { exists (hd_Slot cur), (hd_Slot parent), (hd_ParentRoot parent). by rewrite Hc, Hp, E. }
  split; [done|by eapply rtc_r| |done|].
  - intros b Hin. apply Hb in Hin as (? & ? & ? & ?). split; [done|]. split; [done|]. lia.
  - intros r Hr. destruct (Hall r Hr) as [Hin|[Hlow|[Hne Hcr]]]; [by right; left|by right; right|]. left.
    inversion Hcr as [|? p' ? Hp' Hr']; subst; [done|]. destruct Hp' as (? & ? & ? & E' & _). rewrite Hc in E'. injection E' as _ <-. by rewrite E.
Qed.

(** Where the loop ends: below or at the window's start, the checkpoint behind it. *)
Definition arrived (hr fin : root32) (ws : Z) (rev : list CanonicalBlock) : Prop :=
  exists cur, link_of (hd_Root cur) = Some (hd_Slot cur, hd_ParentRoot cur) /\ hd_Slot cur <= ws /\ kept hr ws cur rev /\ ancestor hr fin.

Lemma walk_run hr fuel finalized ws maxp cur rev seen (found : bool) ph (w : W) r w' :
  walk fuel finalized ws maxp cur rev seen found ph w = (r, w') -> walked hr ws cur rev ->
  (found = true -> ancestor hr (hd_Root finalized)) ->
  match r with Ok (rev', found') => found' = true /\ arrived hr (hd_Root finalized) ws rev' | Err _ => True end.
Proof.
  revert cur rev seen found ph w. induction fuel as [|fuel IH]; intros cur rev seen found ph w H Hw Hf; [by injection H as <- <-|].
  cbn [walk] in H. apply bind_run in H as [([] & w1 & _ & H)|(e & _ & ->)]; [|done].
  destruct (bool_decide _); [by injection H as <- <-|].
  destruct (Z.eqb_spec (hd_Slot cur) (hd_Slot finalized)) as [Es|Es]; cbn [andb orb] in H.
  all: [> destruct (bool_decide_reflect (hd_Root cur = hd_Root finalized)) as [Er|]; cbn [negb] in H; [|by injection H as <- <-] | ].
  all: apply bind_run in H as [(rev1 & w2 & H1 & H)|(e & _ & ->)]; [|done]; apply (keepBlock_run hr _ _ _ _ _ _ Hw) in H1.
  all: destruct Hw as [Hc Ha _ _ _].
  all: [> assert (Hf' : (found || true)%bool = true -> ancestor hr (hd_Root finalized)) by (intros _; by rewrite <- Er)
        | assert (Hf' : (found || false)%bool = true -> ancestor hr (hd_Root finalized)) by (rewrite orb_false_r; done) ].
  all: match type of H with context [andb ?g _] => set (found' := g) in * end.
  all: destruct (found' && (hd_Slot cur <=? ws)) eqn:Eend;
    [injection H as <- <-; apply andb_true_iff in Eend as [Ef Ele%Z.leb_le]; split; [done|]; exists cur; auto|].
  all: destruct (negb found' && _); [by injection H as <- <-|]; destruct (maxp <? _); [by injection H as <- <-|].
  all: apply bind_run in H as [(parent & w3 & H2 & H)|(e & _ & ->)]; [|done]; apply ByRoot_ok in H2.
  all: destruct (bool_decide_reflect (hd_Root parent = hd_ParentRoot cur)) as [Ep|]; cbn [negb] in H; [|by injection H as <- <-].
  all: destruct (Z.leb_spec (hd_Slot cur) (hd_Slot parent)) as [|Hlt]; [by injection H as <- <-|].
  all: eapply IH; [exact H| |exact Hf']; by eapply kept_step.
Qed.

(** ** Locations *)

Lemma locate_here vh s l m : locate vh (foldl (fun m v => (v, s) :: m) m l) = if decide (vh ∈ l) then Some s else locate vh m.
Proof.
  revert m. induction l as [|v l IH]; intros m; cbn [foldl]; [by rewrite decide_False by apply not_elem_of_nil|]. rewrite IH.
  destruct (decide (vh ∈ l)) as [Hin|Hn]; [rewrite decide_True by (by right); done|]. unfold locate at 1. cbn.
  case_bool_decide as E; [subst v; rewrite decide_True by left; done|].
  rewrite decide_False by (intros [->|?]%elem_of_cons; done). done.
Qed.

Lemma locate_newest vh blocks : StronglySorted (fun a b => cb_Slot a < cb_Slot b) blocks ->
  match locate vh (locationsOf blocks) with
  | Some s => (exists b, b ∈ blocks /\ vh ∈ cb_VHs b /\ cb_Slot b = s) /\ forall b, b ∈ blocks -> vh ∈ cb_VHs b -> cb_Slot b <= s
  | None => forall b, b ∈ blocks -> vh ∉ cb_VHs b
  end.
Proof.
  induction blocks as [|b blocks IH] using rev_ind; [intros _ b Hb; by apply not_elem_of_nil in Hb|]. intros Hs.
  assert (Hp : StronglySorted (fun a b => cb_Slot a < cb_Slot b) blocks /\ forall a, a ∈ blocks -> cb_Slot a < cb_Slot b).
  { clear IH. induction blocks as [|x blocks IH']; [by split; [constructor|intros a Ha; apply not_elem_of_nil in Ha]|].
    cbn in Hs. inversion Hs as [|? ? H1 H2]; subst. apply IH' in H1 as [H1 H3]. apply Forall_app in H2 as [H2 H4]. split; [by constructor|].
    intros a [->|Ha]%elem_of_cons; [by inversion H4|by apply H3]. }
  destruct Hp as [Hp Hlt]. specialize (IH Hp). unfold locationsOf. rewrite foldl_app. cbn [foldl]. rewrite locate_here.
  destruct (decide (vh ∈ cb_VHs b)) as [Hin|Hn].
  - split; [exists b; split; [apply elem_of_app; right; by apply list_elem_of_singleton|done]|].
    intros a [Ha|Ha]%elem_of_app Hv; [specialize (Hlt a Ha); lia|]. apply list_elem_of_singleton in Ha as ->. lia.
  - fold (locationsOf blocks). destruct (locate vh (locationsOf blocks)) as [s|].
    + destruct IH as [(a & Ha & Hv & Es) Hmax]. split; [exists a; split; [apply elem_of_app; by left|done]|].
      intros a' [Ha'|Ha']%elem_of_app Hv'; [by apply Hmax|]. apply list_elem_of_singleton in Ha' as ->. done.
    + intros a [Ha|Ha]%elem_of_app; [by apply IH|]. apply list_elem_of_singleton in Ha as ->. done.
Qed.

(** ** The snapshot *)

(** The complete claim of a snapshot about the chain behind its head. *)
Record canonical (sn : Snapshot) : Prop := {
  cn_blocks : forall b, b ∈ sn_Blocks sn <-> ancestor (hd_Root (sn_Head sn)) (cb_Root b) /\ block_at (cb_Root b) b /\ sn_WindowStart sn <= cb_Slot b;
  cn_complete : forall r s p, ancestor (hd_Root (sn_Head sn)) r -> link_of r = Some (s, p) -> sn_WindowStart sn <= s ->
    exists b, b ∈ sn_Blocks sn /\ cb_Root b = r;
  cn_sorted : StronglySorted (fun a b => cb_Slot a < cb_Slot b) (sn_Blocks sn);
  cn_head : link_of (hd_Root (sn_Head sn)) = Some (sn_SyncedTo sn, hd_ParentRoot (sn_Head sn)) /\ hd_Slot (sn_Head sn) = sn_SyncedTo sn;
  cn_window : sn_WindowStart sn <= sn_SyncedTo sn;
  cn_finalized : ancestor (hd_Root (sn_Head sn)) (hd_Root (sn_Finalized sn)) /\ hd_Finalized (sn_Finalized sn) = true /\
    hd_Slot (sn_Finalized sn) <= sn_SyncedTo sn /\
    link_of (hd_Root (sn_Finalized sn)) = Some (hd_Slot (sn_Finalized sn), hd_ParentRoot (sn_Finalized sn));
  cn_rows : sn_Rows sn = rowsOf (sn_Blocks sn);
  cn_locations : sn_Locations sn = locationsOf (sn_Blocks sn) }.

Lemma sorted_reverse {A} (R : A -> A -> Prop) l : StronglySorted (fun a b => R b a) l -> StronglySorted R (reverse l).
Proof.
  induction 1 as [|x l Hl IH Hx]; [constructor|]. rewrite reverse_cons. apply sorted_snoc; [done|].
  apply Forall_forall. intros y Hy. rewrite Forall_forall in Hx. apply Hx. by apply elem_of_reverse.
Qed.

Lemma arrived_canonical hr fin ws rev : arrived hr fin ws rev ->
  (forall b, b ∈ reverse rev <-> ancestor hr (cb_Root b) /\ block_at (cb_Root b) b /\ ws <= cb_Slot b) /\
  (forall r s p, ancestor hr r -> link_of r = Some (s, p) -> ws <= s -> exists b, b ∈ reverse rev /\ cb_Root b = r) /\
  StronglySorted (fun a b => cb_Slot a < cb_Slot b) (reverse rev).
Proof.
  intros (cur & Hc & Hle & [Hb Hs Hall] & _).
  assert (Hcomp : forall r s p, ancestor hr r -> link_of r = Some (s, p) -> ws <= s -> exists b, b ∈ reverse rev /\ cb_Root b = r).
  { intros r s p Hr Hl Hw. destruct (Hall r Hr) as [(b & Hin & <-)|[(s' & p' & Hl' & Hlt)|[Hne Hcr]]].
    - exists b. by rewrite elem_of_reverse.
    - rewrite Hl in Hl'. injection Hl' as <- <-. lia.
    - apply (ancestor_slot _ _ _ Hc) in Hcr as [->|(s' & p' & Hl' & Hlt)]; [done|]. rewrite Hl in Hl'. injection Hl' as <- <-. cbn in Hlt. lia. }
  split; [|split; [done|by apply sorted_reverse]]. intros b. rewrite elem_of_reverse. split.
  - intros Hin. apply Hb in Hin as (? & ? & ? & _). done.
  - intros (Ha & Hat & Hw). pose proof Hat as (_ & Hl & _). destruct (Hcomp _ _ _ Ha Hl Hw) as (b' & Hin & E).
    rewrite elem_of_reverse in Hin. destruct (Hb _ Hin) as (_ & Hat' & _). rewrite E in Hat'. by rewrite (block_at_fun _ _ _ Hat Hat').
Qed.

Lemma Build_run ws maxw (w : W) sn w' : Build ws maxw w = (Ok sn, w') -> canonical sn /\ sn_WindowStart sn = ws.
Proof.
  unfold Build. destruct (maxw =? 0); [done|]. intros (fin & w1 & H1 & H)%bind_run_ok. destruct fin as [fin|]; [|done].
  destruct (hd_Finalized fin) eqn:Ef; cbn [negb] in H; [|done]. apply bind_run_ok in H as (head & w2 & H2 & H). destruct head as [head|]; [|done].
  destruct (Z.ltb_spec (hd_Slot head) (hd_Slot fin)) as [|Hsf]; [done|]. destruct (Z.ltb_spec (hd_Slot head) ws) as [|Hsw]; [done|].
  destruct (maxw <? _); [done|]. apply bind_run_ok in H as ([rev found] & w3 & H3 & H). destruct found; cbn [negb] in H; [|done].
  injection H as <- <-. apply Finalized_ok in H1. apply Head_ok in H2. apply (walk_run (hd_Root head)) in H3 as [_ H3]; [| |done].
  2: { split; [done|by apply rtc_refl|intros b Hb; by apply not_elem_of_nil in Hb|constructor|by left]. }
  destruct (arrived_canonical _ _ _ _ H3) as (Hb & Hc & Hs). destruct H3 as (_ & _ & _ & _ & Hfin).
  split; [|done]. split; cbn [sn_Blocks sn_Head sn_Finalized sn_WindowStart sn_SyncedTo sn_Rows sn_Locations]; try done.
Qed.

(** C32: A snapshot is the complete claim about its window: its blocks are exactly the
    ancestors of the chain head from the window's start on, in slot order, its rows
    are those that carry blobs, every blob is located at the newest slot that names
    it, and the source's finalized checkpoint is an ancestor of the head. *)
Theorem snapshot_exact ws maxw (w : W) sn w' : Build ws maxw w = (Ok sn, w') ->
  canonical sn /\ sn_WindowStart sn = ws /\
  forall vh, match locate vh (sn_Locations sn) with
             | Some s => (exists b, b ∈ sn_Blocks sn /\ vh ∈ cb_VHs b /\ cb_Slot b = s) /\
                         forall b, b ∈ sn_Blocks sn -> vh ∈ cb_VHs b -> cb_Slot b <= s
             | None => forall b, b ∈ sn_Blocks sn -> vh ∉ cb_VHs b
             end.
Proof.
  intros H. apply Build_run in H as [Hc Hw]. split; [done|]. split; [done|]. intros vh. rewrite (cn_locations _ Hc).
  apply locate_newest, Hc.
Qed.

(** ** One chain, one snapshot *)

Lemma sorted_same {A} (f : A -> Z) l1 l2 : StronglySorted (fun a b => f a < f b) l1 -> StronglySorted (fun a b => f a < f b) l2 ->
  (forall x, x ∈ l1 <-> x ∈ l2) -> l1 = l2.
Proof.
  intros H1 H2 Hin. assert (Hnd : forall l, StronglySorted (fun a b => f a < f b) l -> NoDup l).
  { induction 1 as [|x l Hl IH Hx]; constructor; [|done]. intros Hx'. rewrite Forall_forall in Hx. specialize (Hx x Hx'). lia. }
  apply (StronglySorted_unique_strong (fun a b => f a < f b)); [|done|done|by apply NoDup_Permutation; auto].
  intros x y _ _ ? ?. lia.
Qed.

Lemma canonical_fun s1 s2 : canonical s1 -> canonical s2 -> hd_Root (sn_Head s1) = hd_Root (sn_Head s2) -> sn_WindowStart s1 = sn_WindowStart s2 ->
  sn_SyncedTo s1 = sn_SyncedTo s2 /\ sn_Blocks s1 = sn_Blocks s2 /\ sn_Rows s1 = sn_Rows s2 /\ sn_Locations s1 = sn_Locations s2.
Proof.
  intros H1 H2 Er Ew. assert (Eb : sn_Blocks s1 = sn_Blocks s2).
  { apply (sorted_same cb_Slot); [apply H1|apply H2|]. intros b. rewrite (cn_blocks _ H1), (cn_blocks _ H2), Er, Ew. done. }
  split; [|split; [done|]; by rewrite (cn_rows _ H1), (cn_rows _ H2), (cn_locations _ H1), (cn_locations _ H2), Eb].
  destruct (cn_head _ H1) as [E1 _], (cn_head _ H2) as [E2 _]. rewrite Er, E2 in E1. by injection E1.
Qed.

(** The root of the head and the start of the window determine the snapshot: two
    walks, at any two times and under any two bounds, that start from one head root
    with one window give the same blocks, rows and locations. *)
Theorem snapshot_determined ws max1 max2 (w1 w2 : W) s1 s2 w1' w2' :
  Build ws max1 w1 = (Ok s1, w1') -> Build ws max2 w2 = (Ok s2, w2') -> hd_Root (sn_Head s1) = hd_Root (sn_Head s2) ->
  sn_SyncedTo s1 = sn_SyncedTo s2 /\ sn_Blocks s1 = sn_Blocks s2 /\ sn_Rows s1 = sn_Rows s2 /\ sn_Locations s1 = sn_Locations s2.
Proof.
  intros [H1 E1]%Build_run [H2 E2]%Build_run Er. apply canonical_fun; congruence.
Qed.

(** ** The walk ends *)

Lemma bind_ext {A B} (m : M W A) (k k' : A -> M W B) w : (forall a w', m w = (Ok a, w') -> k a w' = k' a w') -> bind m k w = bind m k' w.
Proof. unfold bind. intros H. destruct (m w) as [[a|e] w']; [by apply H|done]. Qed.

(** The walk back through the parents ends: slots fall strictly, so one step per
    slot up to the head's is enough, and a larger allowance gives the same result,
    whatever the source answers. *)
Theorem walk_ends fuel k finalized ws maxp cur rev seen found ph (w : W) :
  link_of (hd_Root cur) = Some (hd_Slot cur, hd_ParentRoot cur) -> (Z.to_nat (hd_Slot cur) < fuel)%nat ->
  walk (fuel + k) finalized ws maxp cur rev seen found ph w = walk fuel finalized ws maxp cur rev seen found ph w.
Proof.
  revert cur rev seen found ph w. induction fuel as [|fuel IH]; intros cur rev seen found ph w Hc Hf; [lia|].
  cbn [walk Nat.add]. apply bind_ext. intros [] w1 _. destruct (bool_decide _); [done|]. destruct (_ && _); [done|].
  apply bind_ext. intros rev1 w2 _. destruct (_ && _); [done|]. destruct (_ && _); [done|]. destruct (maxp <? _); [done|].
  apply bind_ext. intros parent w3 Hp. apply ByRoot_ok in Hp. destruct (negb _); [done|].
  destruct (Z.leb_spec (hd_Slot cur) (hd_Slot parent)) as [|Hlt]; [done|]. apply IH; [done|].
  pose proof (link_u64 _ _ _ Hp) as [? _]. pose proof (link_u64 _ _ _ Hc) as [? _]. lia.
Qed.
End Snapshot.
