(* ===== verification/Tracker.v ===== *)
(** The tracker of the optimistic tip: index/unfinalized/tracker.go.

    A step reads the finalized head it hands over from, the current generation and
    the chain, and asks the archive to select the snapshot of the chain as the next
    generation, supplying the blobs the archive misses.  The archive's HTTP client
    and the blob sources are interfaces, as in the code; the state is their world and
    the last snapshot selected.  Metrics and logging are left out. *)
From S2P Require Import Prelude Cid Schema Store Ledger Apply Core Engine Policy Reconcile Staging Ingest Json JsonDecode Publication PublicationJson Generations Snapshot.

(** archclient.HeadInfo *)
Record HeadInfo : Type := mkHeadInfo { hi_Root : string; hi_OriginSlot : Z; hi_SyncedTo : option Z; hi_Kind : HeadKind }.

Record GenerationStatus : Type := mkStatus { st_State : GenerationState; st_Exposed : bool; st_Published : bool }.

(** The answer to a posted generation: selected, or the blobs the archive misses
    (archclient.MissingBlobsError with its current generation). *)
Inductive PostOutcome : Type :=
| Posted (response : GenerationResponse)
| MissingBlobs (vhs : list VersionedHash) (current : option Z).

(** upstream.Result: [StatusFound] or not, and the blobs. *)
Record BlobResult : Type := mkBlobResult { br_Found : bool; br_Blobs : list bytes }.

(** archclient.Client: a refused request is an [EConflict]. *)
Class Archive (W : Type) : Type := {
  ar_Head : string -> M W HeadInfo;
  ar_GenerationState : string -> M W GenerationStatus;
  ar_PostGeneration : string -> GenerationRequest -> M W PostOutcome;
  ar_PutBlobs : list bytes -> M W (list VersionedHash);
  IsUnavailable : err -> bool
}.

Record Config (W : Type) : Type := mkConfig {
  cf_Sources : list (Z -> M W BlobResult); cf_Head : string; cf_HandoffHead : string;
  cf_WindowSlots : Z; cf_OverlapSlots : Z; cf_MaxPutBlobs : Z; cf_PollInterval : Z }.
Arguments mkConfig {W} _ _ _ _ _ _ _.
Arguments cf_Sources {W} _.
Arguments cf_Head {W} _.
Arguments cf_HandoffHead {W} _.
Arguments cf_WindowSlots {W} _.
Arguments cf_OverlapSlots {W} _.
Arguments cf_MaxPutBlobs {W} _.
Arguments cf_PollInterval {W} _.

Definition defaultTrackerMaxPutBlobs : Z := 64.
Definition defaultTrackerPoll : Z := 12 * 10 ^ 9.

Definition ErrHandoffChanged : err := EConflict "unfinalized: finalized handoff changed during generation construction".
Definition ErrExecutionOptimistic : err := EConflict "upstream: execution_optimistic".

Record StepResult : Type := mkStepResult { sr_Updated : bool; sr_Generation : Z; sr_WindowStart : Z; sr_SyncedTo : Z; sr_Root : string }.

(** What the loop does after a step. *)
Inductive RunDecision : Type := RunStop (e : option err) | RunAgain | RunWait.

Section Tracker.
Context `{KZ : Kzg} {W : Type} `{HS : !HeaderSource W} `{AR : !Archive W}.

(** The tracker: the world it acts on and [t.previous]. *)
Record TState : Type := mkT { tw_world : W; tw_previous : option Snapshot }.
Definition onW {A} (m : M W A) : M TState A := fun t => let '(r, w') := m (tw_world t) in (r, mkT w' (tw_previous t)).

(** The required interfaces are arguments of the model, so they are never nil. *)
Definition New (cfg : Config W) : res (Config W) :=
  refuse_if emptyStr (cf_Head cfg) with EInvalid "Config.Head is required" ;;
  refuse_if emptyStr (cf_HandoffHead cfg) with EInvalid "Config.HandoffHead is required" ;;
  refuse_if bool_decide (cf_Head cfg = cf_HandoffHead cfg) with EInvalid "mutable head cannot authorize its own handoff" ;;
  refuse_if cf_WindowSlots cfg =? 0 with EInvalid "Config.WindowSlots must be positive" ;;
  refuse_if cf_WindowSlots cfg <? cf_OverlapSlots cfg with EInvalid "overlap exceeds window bound" ;;
  refuse_if (length (cf_Sources cfg) =? 0)%nat with EInvalid "Config.Sources needs at least one blob source" ;;
  refuse_if (2 <? length (cf_Sources cfg))%nat with EInvalid "Config.Sources takes at most two sources" ;;
  refuse_if cf_MaxPutBlobs cfg <? 0 with EInvalid "Config.MaxPutBlobs must be positive" ;;
  refuse_if cf_PollInterval cfg <? 0 with EInvalid "Config.PollInterval must be positive" ;;
  Ok (mkConfig (cf_Sources cfg) (cf_Head cfg) (cf_HandoffHead cfg) (cf_WindowSlots cfg) (cf_OverlapSlots cfg)
        (if cf_MaxPutBlobs cfg =? 0 then defaultTrackerMaxPutBlobs else cf_MaxPutBlobs cfg)
        (if cf_PollInterval cfg =? 0 then defaultTrackerPoll else cf_PollInterval cfg)).

(** ** Requests *)

Definition beaconRoot (root : root32) : string := hex0x (aid_bytes root).
Definition VHHex (vh : VersionedHash) : string := vhHex vh.

Definition generationRequest (generation : Z) (snapshot : Snapshot) (handoffRoot : string) (handoffSyncedTo : Z) : GenerationRequest :=
  mkGReq generation (sn_WindowStart snapshot) (sn_SyncedTo snapshot)
    (map (fun row => mkGRow (cr_Slot row) (map VHHex (cr_VHs row))) (sn_Rows snapshot))
    (beaconRoot (hd_Root (sn_Head snapshot))) (hd_Slot (sn_Finalized snapshot)) (beaconRoot (hd_Root (sn_Finalized snapshot)))
    handoffRoot handoffSyncedTo.

Definition setExpected (g : Z) (req : GenerationRequest) : GenerationRequest :=
  mkGReq g (rq_WindowStart req) (rq_SyncedTo req) (rq_Rows req) (rq_SourceHeadRoot req) (rq_SourceFinalizedSlot req)
    (rq_SourceFinalizedRoot req) (rq_ObservedHandoffRoot req) (rq_ObservedHandoffSyncedTo req).

Definition selectedGenerationMatches (state : GenerationState) (req : GenerationRequest) (handoffHead handoffRoot : string)
    (handoffSyncedTo : Z) : bool :=
  (0 <? gs_Generation state) && (gs_WindowStart state =? rq_WindowStart req) && (gs_SyncedTo state =? rq_SyncedTo req)
  && bool_decide (gs_SourceHeadRoot state = rq_SourceHeadRoot req) && (gs_SourceFinalizedSlot state =? rq_SourceFinalizedSlot req)
  && bool_decide (gs_SourceFinalizedRoot state = rq_SourceFinalizedRoot req) && bool_decide (gs_HandoffHead state = handoffHead)
  && bool_decide (gs_ObservedHandoffRoot state = rq_ObservedHandoffRoot req)
  && (gs_ObservedHandoffSyncedTo state =? rq_ObservedHandoffSyncedTo req)
  && bool_decide (handoffRoot = rq_ObservedHandoffRoot req) && (handoffSyncedTo =? rq_ObservedHandoffSyncedTo req).

Definition stepResult (response : GenerationResponse) : StepResult :=
  mkStepResult (negb (rp_NoOp response)) (rp_Generation response) (rp_WindowStart response) (rp_SyncedTo response) (rp_Root response).
Definition stateResult (state : GenerationState) : StepResult :=
  mkStepResult false (gs_Generation state) (gs_WindowStart state) (gs_SyncedTo state) (gs_Root state).

(** ** Reorganizations *)

Definition inBlocks (blocks : list CanonicalBlock) (root : root32) : bool := existsb (fun b => bool_decide (cb_Root b = root)) blocks.

(** Depth and whether a reorganization was observed. *)
Definition observedReorg (previous next : Snapshot) : Z * bool :=
  if bool_decide (hd_Root (sn_Head previous) = hd_Root (sn_Head next)) then (0, false) else
  if hd_Slot (sn_Head previous) <? sn_WindowStart next then (0, false) else
  if inBlocks (sn_Blocks next) (hd_Root (sn_Head previous)) then (0, false) else
  match List.find (fun b => inBlocks (sn_Blocks next) (cb_Root b)) (reverse (sn_Blocks previous)) with
  | Some block => (sub64 (hd_Slot (sn_Head previous)) (cb_Slot block), true)
  | None =>
    let overlapStart := if sn_WindowStart previous <? sn_WindowStart next then sn_WindowStart next else sn_WindowStart previous in
    (add64 (sub64 (hd_Slot (sn_Head previous)) overlapStart) 1, true)
  end.

Definition observeSelected (snapshot : Snapshot) (result : StepResult) : M TState StepResult :=
  fun t => (Ok result, mkT (tw_world t) (Some snapshot)).

(** ** Missing blobs *)

(** Every blob of an answer commits to its hash. *)
Fixpoint anchored (blobs : list bytes) (expected : list VersionedHash) : bool :=
  match blobs, expected with
  | [], [] => true
  | b :: blobs', vh :: expected' =>
    match blobVersionedHash b with Ok v => bool_decide (v = vh) | Err _ => false end && anchored blobs' expected'
  | _, _ => false
  end.

Fixpoint fetchSlot (sources : list (Z -> M W BlobResult)) (slot : Z) (expected : list VersionedHash) : M W (list bytes) :=
  match sources with
  | [] => fail (EInvalid "no source served the snapshot blobs anchored")
  | source :: sources' =>
    result <-- attempt (source slot) ;;
    match result with
    | Err _ => hs_ctx ;;; fetchSlot sources' slot expected
    | Ok result =>
      if br_Found result && anchored (br_Blobs result) expected then ret (br_Blobs result)
      else fetchSlot sources' slot expected
    end
  end.

Definition wanted (want : list VersionedHash) (vh : VersionedHash) : bool := bool_decide (vh ∈ want).
Definition byVH_get (vh : VersionedHash) (byVH : list (VersionedHash * bytes)) : bytes :=
  default [] (snd <$> List.find (fun '(v, _) => bool_decide (v = vh)) byVH).

Fixpoint fetchRows (sources : list (Z -> M W BlobResult)) (want : list VersionedHash) (rows : list ClientRow)
    (byVH : list (VersionedHash * bytes)) : M W (list (VersionedHash * bytes)) :=
  match rows with
  | [] => ret byVH
  | row :: rows' =>
    if existsb (wanted want) (cr_VHs row) then
      blobs <-- fetchSlot sources (cr_Slot row) (cr_VHs row) ;;
      fetchRows sources want rows' (reverse (List.filter (fun p => wanted want (fst p)) (zip (cr_VHs row) blobs)) ++ byVH)
    else fetchRows sources want rows' byVH
  end.

(** The wanted hashes in row order, each once. *)
Fixpoint firsts (seen l : list VersionedHash) : list VersionedHash :=
  match l with
  | [] => []
  | v :: l' => if bool_decide (v ∈ seen) then firsts seen l' else v :: firsts (v :: seen) l'
  end.
Definition orderedVHs (want : list VersionedHash) (rows : list ClientRow) : list VersionedHash :=
  firsts [] (List.filter (wanted want) (concat (map cr_VHs rows))).

Fixpoint putBatches (fuel : nat) (maxPut : nat) (byVH : list (VersionedHash * bytes)) (vhs : list VersionedHash) : M W unit :=
  match fuel with
  | O => fail EDiverges
  | S fuel' =>
    match vhs with
    | [] => ret tt
    | _ =>
      let batchVHs := take maxPut vhs in
      put <-- ar_PutBlobs (map (fun vh => byVH_get vh byVH) batchVHs) ;;
      fail_if negb (length put =? length batchVHs)%nat with EInvalid "archive acknowledged fewer blobs" ;;
      fail_if negb (bool_decide (put = batchVHs)) with EInvalid "archive stored a blob under another hash" ;;
      putBatches fuel' maxPut byVH (drop maxPut vhs)
    end
  end.

Definition supplyMissing (cfg : Config W) (snapshot : Snapshot) (missing : list VersionedHash) : M W unit :=
  fail_if (length missing =? 0)%nat with EInvalid "missing-blobs conflict with an empty list" ;;
  let want := remove_dups missing in
  fail_if negb (forallb (fun vh => negb (unset (locate vh (sn_Locations snapshot)))) want)
    with EInvalid "missing blob is absent from the candidate snapshot" ;;
  byVH <-- fetchRows (cf_Sources cfg) want (sn_Rows snapshot) [] ;;
  let ordered := orderedVHs want (sn_Rows snapshot) in
  fail_if negb (length ordered =? length want)%nat with EInvalid "unresolved missing versioned hashes" ;;
  putBatches (S (length ordered)) (Z.to_nat (cf_MaxPutBlobs cfg)) byVH ordered.

(** ** A step *)

Definition isConflict (e : err) : bool := match e with EConflict _ => true | _ => false end.

(** The error of a refused generation, after a second look at the handoff. *)
Definition classifyGenerationConflict (cfg : Config W) (req : GenerationRequest) (e : err) : M W err :=
  if isConflict e then
    current <-- attempt (ar_Head (cf_HandoffHead cfg)) ;;
    match current with
    | Err _ => ret e
    | Ok current =>
      ret (if bool_decide (hi_Root current = rq_ObservedHandoffRoot req)
              && bool_decide (hi_SyncedTo current = Some (rq_ObservedHandoffSyncedTo req)) then e else ErrHandoffChanged)
    end
  else ret e.

(** The cheap path: every witness still names the selected generation. *)
Definition sameSource (cfg : Config W) (previous : Snapshot) (state : GenerationState) (finalized head : BeaconHeader)
    (handoffRoot : string) (handoffSyncedTo windowStart : Z) : bool :=
  (sn_WindowStart previous =? windowStart) && bool_decide (hd_Root (sn_Head previous) = hd_Root head)
  && (hd_Slot (sn_Head previous) =? hd_Slot head) && bool_decide (hd_Root (sn_Finalized previous) = hd_Root finalized)
  && (hd_Slot (sn_Finalized previous) =? hd_Slot finalized)
  && negb (gs_Generation state =? 0) && (gs_WindowStart state =? windowStart) && (gs_SyncedTo state =? hd_Slot head)
  && (gs_SourceHeadSlot state =? hd_Slot head) && bool_decide (gs_SourceHeadRoot state = beaconRoot (hd_Root head))
  && (gs_SourceFinalizedSlot state =? hd_Slot finalized) && bool_decide (gs_SourceFinalizedRoot state = beaconRoot (hd_Root finalized))
  && bool_decide (gs_ObservedHandoffRoot state = handoffRoot) && (gs_ObservedHandoffSyncedTo state =? handoffSyncedTo)
  && bool_decide (gs_HandoffHead state = cf_HandoffHead cfg) && bool_decide (gs_HandoffRoot state = handoffRoot)
  && (gs_HandoffSyncedTo state =? handoffSyncedTo).

Definition unchangedSelectedSource (cfg : Config W) (status : GenerationStatus) (handoffRoot : string) (handoffSyncedTo windowStart : Z) :
    M TState (option StepResult) :=
  previous <-- gets tw_previous ;;
  match previous with
  | None => ret None
  | Some previous =>
    if negb (st_Exposed status) || negb (st_Published status) then ret None else
    finalized <-- attempt (onW hs_FinalizedHeader) ;;
    match finalized with
    | Ok (Some finalized) =>
      if negb (hd_Finalized finalized) then ret None else
      head <-- attempt (onW hs_Head) ;;
      match head with
      | Ok (Some head) =>
        if hd_Slot head <? hd_Slot finalized then ret None else
        ret (if sameSource cfg previous (st_State status) finalized head handoffRoot handoffSyncedTo windowStart
             then Some (stateResult (st_State status)) else None)
      | _ => ret None
      end
    | _ => ret None
    end
  end.

(** After the blobs have been supplied the same request is sent once more. *)
Definition resend (cfg : Config W) (snapshot : Snapshot) (req : GenerationRequest) : M TState StepResult :=
  onW (StableHead (hd_Root (sn_Head snapshot))) ;;;
  response <-- attempt (onW (ar_PostGeneration (cf_Head cfg) req)) ;;
  match response with
  | Ok (Posted response) => observeSelected snapshot (stepResult response)
  | Ok (MissingBlobs _ _) => e <-- onW (classifyGenerationConflict cfg req (EConflict "missing blobs")) ;; fail e
  | Err e => e <-- onW (classifyGenerationConflict cfg req e) ;; fail e
  end.

Definition select (cfg : Config W) (generation : Z) (snapshot : Snapshot) (req : GenerationRequest) : M TState StepResult :=
  response <-- attempt (onW (ar_PostGeneration (cf_Head cfg) req)) ;;
  match response with
  | Ok (Posted response) => observeSelected snapshot (stepResult response)
  | Err e => e <-- onW (classifyGenerationConflict cfg req e) ;; fail e
  | Ok (MissingBlobs vhs current) =>
    fail_if match current with Some g => negb (g =? generation) | None => false end with EConflict "generation moved" ;;
    onW (supplyMissing cfg snapshot vhs) ;;;
    resend cfg snapshot req
  end.

(** The full path of a step: rebuild the snapshot, and select it unless it is the
    generation already selected. *)
Definition fullStep (cfg : Config W) (status : GenerationStatus) (handoffRoot : string) (handoffSyncedTo windowStart : Z) : M TState StepResult :=
  let state := st_State status in
  snapshot <-- onW (Build windowStart (cf_WindowSlots cfg)) ;;
  fail_if hd_Slot (sn_Finalized snapshot) <? handoffSyncedTo with ErrHandoffBlocked ;;
  onW (StableHead (hd_Root (sn_Head snapshot))) ;;;
  let req := generationRequest (gs_Generation state) snapshot handoffRoot handoffSyncedTo in
  if selectedGenerationMatches state req (cf_HandoffHead cfg) handoffRoot handoffSyncedTo then
    if st_Exposed status && st_Published status then observeSelected snapshot (stateResult state)
    else select cfg (gs_Generation state) snapshot (setExpected (sub64 (gs_Generation state) 1) req)
  else select cfg (gs_Generation state) snapshot req.

Definition Step (cfg : Config W) : M TState StepResult :=
  handoff <-- onW (ar_Head (cf_HandoffHead cfg)) ;;
  fail_if negb (emptyStr (hi_Kind handoff)) && negb (bool_decide (hi_Kind handoff = FinalizedMonotonic)) with EInvalid "handoff head kind" ;;
  match hi_SyncedTo handoff with
  | None => fail ErrHandoffBlocked
  | Some handoffSyncedTo =>
    status <-- onW (ar_GenerationState (cf_Head cfg)) ;;
    let state := st_State status in
    fail_if negb (bool_decide (gs_Kind state = UnfinalizedMutable)) with EInvalid "archive reports another kind" ;;
    let windowStart := WindowStart (hi_OriginSlot handoff) handoffSyncedTo (cf_OverlapSlots cfg) in
    unchanged <-- unchangedSelectedSource cfg status (hi_Root handoff) handoffSyncedTo windowStart ;;
    match unchanged with
    | Some result => ret result
    | None => fullStep cfg status (hi_Root handoff) handoffSyncedTo windowStart
    end
  end.

(** ** The loop *)

Definition trackerRetryReason (e : err) : bool :=
  bool_decide (e = ErrExecutionOptimistic) || bool_decide (e = ErrHandoffChanged) || IsUnavailable e.

(** [cancelled] is [ctx.Err() != nil] after the step. *)
Definition Run_decision (cancelled : bool) (r : res StepResult) : RunDecision :=
  match r with
  | Err e =>
    if cancelled then RunStop None
    else if bool_decide (e = ErrHandoffBlocked) then RunWait
    else if bool_decide (e = ErrSnapshotChanged) then RunAgain
    else if trackerRetryReason e then RunWait
    else RunStop (Some e)
  | Ok result => if sr_Updated result then RunAgain else RunWait
  end.
End Tracker.
