(* ===== verification/TrackerCorrect.v ===== *)
(** The tracker of the optimistic tip: the proofs about Tracker.v.

    Proved: whatever a step meets, the only generations it asks for are complete
    snapshots of the chain that continue the finalized head without a gap; the full
    path agrees with the cheap one wherever it does not wait; exactly the missing blobs are supplied;
    and an observed reorganization is one, with its depth. *)
From Stdlib Require Import Sorting.Sorted.
From S2P Require Import Prelude Cid Schema Store Ledger Apply Core Engine Policy Reconcile Staging Ingest Json JsonDecode Publication PublicationJson Generations Snapshot Tracker.

Section TrackerCorrect.
Context `{KZ : Kzg} {W : Type} `{HS : !HeaderSource W} `{AR : !Archive W} {HO : HeaderSourceOk}.

(** ** The finalized line is continued *)

Lemma WindowStart_no_gap origin synced overlap : is_u64 synced -> 0 <= overlap < 2 ^ 64 ->
  WindowStart origin synced overlap <= Z.max origin (synced + 1) /\ origin <= WindowStart origin synced overlap.
Proof.
  intros [H1 H2] [H3 H4]. unfold WindowStart. cbv zeta. set (next := if _ =? _ then _ else _).
  assert (Hn : 0 <= next <= synced + 1 /\ next < 2 ^ 64).
  { unfold next. destruct (Z.eqb_spec synced (2 ^ 64 - 1)); [lia|]. rewrite add64_small; unfold is_u64; lia. }
  destruct (Z.ltb_spec overlap next); [rewrite sub64_small by (unfold is_u64; lia)|];
    match goal with |- context [if ?x <? ?y then _ else _] => destruct (Z.ltb_spec x y) end; lia.
Qed.

Lemma WindowStart_exact origin synced overlap : is_u64 synced -> is_u64 overlap ->
  WindowStart origin synced overlap = Z.max origin (Z.max 0 (Z.min (synced + 1) (2 ^ 64 - 1) - overlap)).
Proof.
  intros [H1 H2] [H3 H4]. unfold WindowStart. cbv zeta. set (next := if _ =? _ then _ else _).
  assert (Hn : next = Z.min (synced + 1) (2 ^ 64 - 1)).
  { unfold next. destruct (Z.eqb_spec synced (2 ^ 64 - 1)); [lia|]. rewrite add64_small; unfold is_u64; lia. }
  rewrite <- Hn. destruct (Z.ltb_spec overlap next); [rewrite sub64_small by (unfold is_u64; lia)|];
    match goal with |- context [if ?x <? ?y then _ else _] => destruct (Z.ltb_spec x y) end; lia.
Qed.

(** ** Reorganizations *)

Lemma inBlocks_spec l r : inBlocks l r = true <-> exists b, b ∈ l /\ cb_Root b = r.
Proof.
  unfold inBlocks. rewrite existsb_exists. split; intros (b & Hb & E); exists b; rewrite list_elem_of_In in *.
  - by apply bool_decide_eq_true_1 in E.
  - split; [done|]. by apply bool_decide_eq_true_2.
Qed.

Lemma find_first {A} (f : A -> bool) l x : List.find f l = Some x ->
  exists l1 l2, l = l1 ++ x :: l2 /\ f x = true /\ forall y, y ∈ l1 -> f y = false.
Proof.
  induction l as [|y l IH]; cbn; [done|]. destruct (f y) eqn:E; [intros [= <-]; exists [], l; split; [done|]; split; [done|]; intros z Hz; by apply not_elem_of_nil in Hz|].
  intros (l1 & l2 & -> & Hx & Hl)%IH. exists (y :: l1), l2. split; [done|]. split; [done|]. by intros z [->|Hz]%elem_of_cons; auto.
Qed.

(** The snapshot's tip is a block of it. *)
Lemma head_in_blocks sn : canonical sn -> exists b, b ∈ sn_Blocks sn /\ cb_Root b = hd_Root (sn_Head sn).
Proof. intros H. destruct (cn_head _ H) as [E _]. eapply cn_complete; [done|by apply rtc_refl|exact E|apply H]. Qed.

(** An ancestor of both heads inside both windows is a block of both snapshots. *)
Lemma common_in sn r s p : canonical sn -> ancestor (hd_Root (sn_Head sn)) r -> link_of r = Some (s, p) -> sn_WindowStart sn <= s ->
  inBlocks (sn_Blocks sn) r = true.
Proof. intros Hc Ha Hl Hw. apply inBlocks_spec. by eapply cn_complete. Qed.

Lemma sorted_reverse_le (l1 l2 : list CanonicalBlock) c b l : StronglySorted (fun a b => cb_Slot a < cb_Slot b) l -> reverse l = l1 ++ c :: l2 ->
  b ∈ l -> b ∈ l1 \/ cb_Slot b <= cb_Slot c.
Proof.
  intros Hs E Hb. assert (El : l = reverse l2 ++ c :: reverse l1).
  { rewrite <- (reverse_involutive l), E, reverse_app, reverse_cons, <- app_assoc. done. }
  rewrite El in Hb, Hs. apply elem_of_app in Hb as [Hb|[->|Hb]%elem_of_cons]; [|right; lia|left; by apply elem_of_reverse].
  right. clear -Hs Hb. induction (reverse l2) as [|x t IH]; [by apply not_elem_of_nil in Hb|]. cbn in Hs. inversion Hs as [|? ? Ht Hx]; subst.
  apply elem_of_cons in Hb as [->|Hb]; [|by apply IH]. rewrite Forall_forall in Hx. assert (cb_Slot x < cb_Slot c); [|lia].
  apply Hx. apply elem_of_app. right. by left.
Qed.

Lemma head_slot sn : canonical sn -> link_of (hd_Root (sn_Head sn)) = Some (hd_Slot (sn_Head sn), hd_ParentRoot (sn_Head sn)) /\
  is_u64 (hd_Slot (sn_Head sn)).
Proof. intros H. destruct (cn_head _ H) as [E1 E2]. rewrite E2. split; [done|]. by eapply link_u64. Qed.

(** Between two snapshots whose windows overlap, a reorganization is reported
    exactly when the old head is not an ancestor of the new one; its depth is then
    the distance from the old head to the newest common ancestor, or, when that lies
    below the windows, the part of the old chain above their start. *)
Theorem observedReorg_exact previous next : canonical previous -> canonical next -> 0 <= sn_WindowStart previous -> 0 <= sn_WindowStart next ->
  sn_WindowStart next <= hd_Slot (sn_Head previous) ->
  let '(depth, reorg) := observedReorg previous next in
  (reorg = true <-> ~ ancestor (hd_Root (sn_Head next)) (hd_Root (sn_Head previous))) /\
  (reorg = true ->
    (exists c s p, ancestor (hd_Root (sn_Head previous)) c /\ ancestor (hd_Root (sn_Head next)) c /\ link_of c = Some (s, p) /\
       depth = hd_Slot (sn_Head previous) - s /\
       forall c' s' p', ancestor (hd_Root (sn_Head previous)) c' -> ancestor (hd_Root (sn_Head next)) c' -> link_of c' = Some (s', p') -> s' <= s) \/
    (depth = u64 (hd_Slot (sn_Head previous) - Z.max (sn_WindowStart previous) (sn_WindowStart next) + 1) /\
       forall c' s' p', ancestor (hd_Root (sn_Head previous)) c' -> ancestor (hd_Root (sn_Head next)) c' -> link_of c' = Some (s', p') ->
         s' < Z.max (sn_WindowStart previous) (sn_WindowStart next))).
Proof.
  intros Hp Hn Hwp Hwn Hov. destruct (head_slot _ Hp) as [Hhp Hu]. pose proof (cn_window _ Hp) as Hwin. destruct (cn_head _ Hp) as [_ Es].
  rewrite <- Es in Hwin. unfold observedReorg.
  destruct (bool_decide_reflect (hd_Root (sn_Head previous) = hd_Root (sn_Head next))) as [E|Hne].
  { split; [|done]. split; [done|]. intros []. rewrite E. by apply rtc_refl. }
  rewrite (proj2 (Z.ltb_ge _ _)) by done. destruct (inBlocks (sn_Blocks next) (hd_Root (sn_Head previous))) eqn:Ein.
  { split; [|done]. split; [done|]. intros []. apply inBlocks_spec in Ein as (b & Hb & <-). by apply cn_blocks in Hb as (? & _). }
  assert (Hnot : ~ ancestor (hd_Root (sn_Head next)) (hd_Root (sn_Head previous))).
  { intros Ha. by rewrite (common_in next _ _ _ Hn Ha Hhp) in Ein. }
  destruct (List.find _ _) as [c|] eqn:Ef.
  - split; [done|]. intros _. left. apply find_first in Ef as (l1 & l2 & El & Hc & Hl1).
    assert (Hcp : c ∈ sn_Blocks previous) by (apply elem_of_reverse; rewrite El; apply elem_of_app; right; by left).
    pose proof (proj1 (cn_blocks _ Hp c) Hcp) as (Hac & (_ & Hlc & _) & Hwc).
    apply inBlocks_spec in Hc as (c' & Hc' & Er). apply cn_blocks in Hc' as (Han & (_ & Hln & _) & Hwn'); [|done].
    rewrite Er in Han, Hln. rewrite Hlc in Hln. injection Hln as Esn _.
    exists (cb_Root c), (cb_Slot c), (cb_ParentRoot c). split; [done|]. split; [done|]. split; [done|].
    assert (Hsc : cb_Slot c <= hd_Slot (sn_Head previous)).
    { destruct (ancestor_slot _ _ _ Hhp Hac) as [E|(s & p & E & Hlt)]; [rewrite E, Hhp in Hlc; injection Hlc as ->; lia|].
      rewrite Hlc in E. injection E as <- _. cbn in Hlt. lia. }
    split; [rewrite sub64_small by (unfold is_u64 in *; lia); done|].
    intros x s p Hxp Hxn Hx. destruct (Z.le_gt_cases s (cb_Slot c)) as [|Hgt]; [done|]. exfalso.
    assert (Hb := common_in previous x s p Hp Hxp Hx ltac:(lia)). apply inBlocks_spec in Hb as (b & Hb & Eb).
    pose proof (proj1 (cn_blocks _ Hp b) Hb) as (_ & (_ & Hlb & _) & _). rewrite Eb, Hx in Hlb. injection Hlb as Esb _.
    destruct (sorted_reverse_le l1 l2 c b _ (cn_sorted _ Hp) El Hb) as [Hb1|]; [|lia]. apply Hl1 in Hb1. rewrite Eb in Hb1.
    rewrite (common_in next x s p Hn Hxn Hx) in Hb1 by lia. done.
  - split; [done|]. intros _. right. set (w := if _ <? _ then _ else _).
    assert (Hw : w = Z.max (sn_WindowStart previous) (sn_WindowStart next)) by (unfold w; destruct (Z.ltb_spec (sn_WindowStart previous) (sn_WindowStart next)); lia).
    rewrite Hw. split.
    + by rewrite sub64_small by (unfold is_u64 in *; lia).
    + intros c s p Hcp Hcn Hc. destruct (Z.lt_ge_cases s (Z.max (sn_WindowStart previous) (sn_WindowStart next))) as [|Hge]; [done|]. exfalso.
      assert (Hb := common_in previous c s p Hp Hcp Hc ltac:(lia)). apply inBlocks_spec in Hb as (b & Hb & Eb).
      apply elem_of_reverse, list_elem_of_In in Hb. apply (find_none _ _ Ef) in Hb. rewrite Eb in Hb.
      by rewrite (common_in next c s p Hn Hcn Hc) in Hb by lia.
Qed.

(** ** The cheap path *)

Lemma unchanged_inv cfg status hr hs ws (t : TState) res t' : unchangedSelectedSource cfg status hr hs ws t = (Ok (Some res), t') ->
  exists prev fin head w1 w2, tw_previous t = Some prev /\ st_Exposed status && st_Published status = true /\
    hs_FinalizedHeader (tw_world t) = (Ok (Some fin), w1) /\ hs_Head w1 = (Ok (Some head), w2) /\
    sameSource cfg prev (st_State status) fin head hr hs ws = true /\ res = stateResult (st_State status) /\ t' = mkT w2 (Some prev).
Proof.
  unfold unchangedSelectedSource, bind, gets. destruct (tw_previous t) as [prev|] eqn:Ep; [|done].
  destruct (st_Exposed status); [|done]. destruct (st_Published status); [|done]. cbn [negb orb andb].
  unfold attempt, onW at 1. destruct (hs_FinalizedHeader (tw_world t)) as [rf w1] eqn:Ef. destruct rf as [[fin|]|]; [|done|done].
  destruct (hd_Finalized fin); cbn [negb]; [|done]. unfold onW. cbn [tw_world tw_previous].
  destruct (hs_Head w1) as [rh w2] eqn:Eh. destruct rh as [[head|]|]; [|done|done]. destruct (_ <? _); [done|].
  destruct (sameSource _ _ _ _ _ _ _ _) eqn:Es; [|done]. intros [= <- <-]. exists prev, fin, head, w1, w2. repeat split; try done. by rewrite Ep.
Qed.

(** A snapshot of the head and the checkpoint the witnesses name has the rows of the
    one kept, and its request is recognized as the selected generation. *)
Lemma same_source_matches (cfg : Config W) prev state fin head hr hs ws sn (w w1 w2 : W) : canonical prev -> is_u64 (gs_Generation state) ->
  hs_FinalizedHeader w = (Ok (Some fin), w1) -> hs_Head w1 = (Ok (Some head), w2) ->
  sameSource cfg prev state fin head hr hs ws = true -> canonical sn -> sn_WindowStart sn = ws ->
  hd_Root (sn_Head sn) = hd_Root head -> hd_Root (sn_Finalized sn) = hd_Root fin ->
  sn_Rows sn = sn_Rows prev /\ hd_Slot (sn_Finalized sn) = hd_Slot (sn_Finalized prev) /\
  forall g, selectedGenerationMatches state (generationRequest g sn hr hs) (cf_HandoffHead cfg) hr hs = true.
Proof.
  intros Hc [Hg _] Hf Hh Hs Hsn Hws Eh Efin. unfold sameSource in Hs. rewrite !andb_true_iff in Hs.
  destruct Hs as ((((((((((((((((S1 & S2) & S3) & S4) & S5) & S6) & S7) & S8) & S9) & S10) & S11) & S12) & S13) & S14) & S15) & S16) & S17).
  apply Z.eqb_eq in S1, S3, S5, S7, S8, S9, S11, S14, S17. apply bool_decide_eq_true_1 in S2, S4, S10, S12, S13, S15, S16. apply negb_true_iff, Z.eqb_neq in S6.
  assert (Hslot : sn_SyncedTo sn = hd_Slot head).
  { destruct (cn_head _ Hsn) as [E _]. apply Head_ok in Hh. rewrite Eh, Hh in E. by injection E as <- _. }
  assert (Hfs : hd_Slot (sn_Finalized sn) = hd_Slot fin).
  { destruct (cn_finalized _ Hsn) as (_ & _ & _ & E). apply Finalized_ok in Hf. rewrite Efin, Hf in E. by injection E as <- _. }
  split; [by apply (canonical_fun sn prev Hsn Hc); congruence|]. split; [congruence|]. intros g.
  unfold selectedGenerationMatches, generationRequest. cbn [rq_WindowStart rq_SyncedTo rq_SourceHeadRoot rq_SourceFinalizedSlot rq_SourceFinalizedRoot
    rq_ObservedHandoffRoot rq_ObservedHandoffSyncedTo]. rewrite !andb_true_iff.
  rewrite !Z.eqb_eq, !bool_decide_eq_true, Z.ltb_lt. repeat split; try congruence. lia.
Qed.

(** C38: The cheap path against the full one.  When every witness still names the
    selected generation, the cheap path returns that generation; and the full path,
    run at any time on a snapshot of the same head and checkpoint, is then
    determined: the snapshot has the rows of the one kept, the selected generation
    is recognized as its own, so nothing is posted to the archive, and the result is
    the one of the cheap path - unless the handoff is ahead of the checkpoint, where
    the full path waits with ErrHandoffBlocked, or the source's head moves before
    the last look at it, whose error it returns. *)
Theorem shortcut_sound cfg status hr hs ws (t : TState) prev res t' : tw_previous t = Some prev -> canonical prev ->
  is_u64 (gs_Generation (st_State status)) -> unchangedSelectedSource cfg status hr hs ws t = (Ok (Some res), t') ->
  res = stateResult (st_State status) /\ st_Exposed status && st_Published status = true /\
  exists fin head w1 w2, hs_FinalizedHeader (tw_world t) = (Ok (Some fin), w1) /\ hs_Head w1 = (Ok (Some head), w2) /\
    t' = mkT w2 (Some prev) /\
    forall t1 sn w3, Build ws (cf_WindowSlots cfg) (tw_world t1) = (Ok sn, w3) ->
      hd_Root (sn_Head sn) = hd_Root head -> hd_Root (sn_Finalized sn) = hd_Root fin ->
      sn_Rows sn = sn_Rows prev /\
      fullStep cfg status hr hs ws t1 =
        if hd_Slot (sn_Finalized prev) <? hs then (Err ErrHandoffBlocked, mkT w3 (tw_previous t1))
        else match StableHead (hd_Root head) w3 with
             | (Ok _, w4) => (Ok res, mkT w4 (Some sn))
             | (Err e, w4) => (Err e, mkT w4 (tw_previous t1))
             end.
Proof.
  intros Hprev Hc Hg (prev' & fin & head & w1 & w2 & Ep & Hex & Hf & Hh & Hs & -> & ->)%unchanged_inv.
  rewrite Hprev in Ep. injection Ep as <-. split; [done|]. split; [done|]. exists fin, head, w1, w2. do 3 (split; [done|]).
  intros t1 sn w3 HB Eh Efin. destruct (Build_run _ _ _ _ _ HB) as [Hsn Hws].
  destruct (same_source_matches cfg prev (st_State status) fin head hr hs ws sn (tw_world t) w1 w2 Hc Hg Hf Hh Hs Hsn Hws Eh Efin) as (Hrows & Hfs & Hm).
  split; [done|]. unfold fullStep. cbv zeta. unfold bind at 1, onW at 1. rewrite HB, Hfs. destruct (_ <? hs); [done|].
  unfold bind, onW. cbn [tw_world tw_previous]. rewrite Eh. destruct (StableHead (hd_Root head) w3) as [[[]|e] w4]; [|done].
  by rewrite Hm, Hex.
Qed.

(** ** What the archive does with the tracker's requests *)

Section Archive.
Variable cfg : Config W.

(** What the archive has selected and which blobs it has been given. *)
Class ArchiveView : Type := { chosen : W -> option GenerationRequest; delivered : W -> VersionedHash -> Prop }.
Context {AV : ArchiveView}.

(** The worlds agree on it. *)
Definition quiet (w w' : W) : Prop := chosen w' = chosen w /\ forall v, delivered w' v <-> delivered w v.
Definition quietly {A} (m : M W A) : Prop := forall w r w', m w = (r, w') -> quiet w w'.

(** A request is taken whole or not at all; only posts and puts change the view; the
    archive derives the hash of each blob it stores. *)
Class ArchiveOk : Type := {
  quiet_ctx : quietly hs_ctx;
  quiet_Head : quietly hs_Head;
  quiet_Finalized : quietly hs_FinalizedHeader;
  quiet_ByRoot : forall r, quietly (hs_HeaderByRoot r);
  quiet_Commitments : forall r, quietly (hs_CommitmentsByRoot r);
  quiet_ar_Head : forall name, quietly (ar_Head name);
  quiet_State : forall name, quietly (ar_GenerationState name);
  Head_u64 : forall name w h w' synced, ar_Head name w = (Ok h, w') -> hi_SyncedTo h = Some synced -> is_u64 synced;
  quiet_source : forall source slot, source ∈ cf_Sources cfg -> quietly (source slot);
  Post_ok : forall name req w r w', ar_PostGeneration name req w = (r, w') ->
    (forall v, delivered w' v <-> delivered w v) /\
    match r with
    | Ok (Posted _) => chosen w' = Some req
    | Ok (MissingBlobs _ _) => chosen w' = chosen w
    | Err _ => chosen w' = chosen w \/ chosen w' = Some req
    end;
  Put_ok : forall bs w r w', ar_PutBlobs bs w = (r, w') -> chosen w' = chosen w /\ (forall v, delivered w v -> delivered w' v) /\
    match r with
    | Ok put => Forall2 (fun b v => blobVersionedHash b = Ok v) bs put /\ forall v, delivered w' v <-> delivered w v \/ v ∈ put
    | Err _ => forall v, delivered w' v -> delivered w v \/ exists b, b ∈ bs /\ blobVersionedHash b = Ok v
    end
}.
Context {AO : ArchiveOk}.

#[local] Instance quiet_preorder : PreOrder quiet.
Proof.
  split; [done|]. intros a b c [E1 D1] [E2 D2]. split; [congruence|]. intros v. by rewrite D2, D1.
Qed.

Lemma quiet_ret {A} (a : A) : quietly (ret a).
Proof. by intros w r w' [= _ <-]. Qed.
Lemma quiet_fail {A} e : quietly (fail (A := A) e).
Proof. by intros w r w' [= _ <-]. Qed.
Lemma quiet_bind {A B} (m : M W A) (k : A -> M W B) : quietly m -> (forall a, quietly (k a)) -> quietly (bind m k).
Proof.
  intros Hm Hk w r w' [(a & w1 & H1 & H)|(e & H1 & ->)]%bind_run; [|by eapply Hm]. apply Hm in H1. apply Hk in H. by transitivity w1.
Qed.
Lemma quiet_attempt {A} (m : M W A) : quietly m -> quietly (attempt m).
Proof. intros Hm w r w'. unfold attempt. destruct (m w) as [r0 w0] eqn:E. intros [= <- <-]. by eapply Hm. Qed.
Lemma quiet_if {A} (b : bool) (m m' : M W A) : quietly m -> quietly m' -> quietly (if b then m else m').
Proof. by destruct b. Qed.

Create HintDb quiet.
#[local] Hint Resolve quiet_ret quiet_fail quiet_bind quiet_attempt quiet_if quiet_ctx quiet_Head quiet_Finalized quiet_ByRoot quiet_Commitments
  quiet_ar_Head quiet_State : quiet.

Lemma quiet_walk fuel fin ws maxp cur rev seen found ph : quietly (walk fuel fin ws maxp cur rev seen found ph).
Proof.
  revert cur rev seen found ph. induction fuel as [|fuel IH]; intros; cbn [walk]; cbv zeta; [auto with quiet|]. unfold keepBlock. auto 20 with quiet.
Qed.
Lemma quiet_Build ws maxw : quietly (Build ws maxw).
Proof.
  unfold Build. apply quiet_if; [auto with quiet|]. apply quiet_bind; [auto with quiet|]. intros [fin|]; [|auto with quiet].
  apply quiet_if; [auto with quiet|]. apply quiet_bind; [auto with quiet|]. intros [head|]; [|auto with quiet]. cbv zeta.
  repeat (apply quiet_if; [auto with quiet|]). apply quiet_bind; [apply quiet_walk|]. intros [rev found]. auto with quiet.
Qed.
Lemma quiet_StableHead want : quietly (StableHead want).
Proof. unfold StableHead. apply quiet_bind; [auto with quiet|]. intros [h|]; auto with quiet. Qed.
Lemma quiet_classify req e : quietly (classifyGenerationConflict cfg req e).
Proof.
  unfold classifyGenerationConflict. apply quiet_if; [|auto with quiet]. apply quiet_bind; [auto with quiet|]. intros [h|]; auto with quiet.
Qed.

(** ** Supplying blobs *)

Lemma anchored_Forall2 blobs vhs : anchored blobs vhs = true -> Forall2 (fun b v => blobVersionedHash b = Ok v) blobs vhs.
Proof.
  revert vhs. induction blobs as [|b blobs IH]; intros [|v vhs]; cbn; try done. intros [Hb H]%andb_true_iff. constructor; [|by apply IH].
  destruct (blobVersionedHash b); [|done]. apply bool_decide_eq_true_1 in Hb. by subst.
Qed.

Lemma fetchSlot_run sources slot vhs : (forall s, s ∈ sources -> quietly (s slot)) -> quietly (fetchSlot sources slot vhs) /\
  forall w blobs w', fetchSlot sources slot vhs w = (Ok blobs, w') -> Forall2 (fun b v => blobVersionedHash b = Ok v) blobs vhs.
Proof.
  induction sources as [|source sources IH]; intros Hs; cbn [fetchSlot]; [split; [auto with quiet|done]|].
  destruct IH as [IHq IHr]; [intros x Hx; apply Hs; by right|]. split.
  - apply quiet_bind; [apply quiet_attempt, Hs; by left|]. intros [x|e]; auto with quiet.
  - intros w blobs w' (x & w1 & _ & H)%bind_run_ok. destruct x as [x|e]; [|apply bind_run_ok in H as ([] & w2 & _ & H); by eapply IHr].
    destruct (br_Found x && anchored (br_Blobs x) vhs) eqn:E; [|by eapply IHr]. apply andb_true_iff in E as [_ E]. injection H as <- <-.
    by apply anchored_Forall2.
Qed.

(** Every blob kept commits to its hash, which was asked for. *)
Definition sound (want : list VersionedHash) (m : list (VersionedHash * bytes)) : Prop :=
  forall v b, (v, b) ∈ m -> v ∈ want /\ blobVersionedHash b = Ok v.

Lemma zip_anchored (l : list VersionedHash) blobs v b : Forall2 (fun b v => blobVersionedHash b = Ok v) blobs l -> (v, b) ∈ zip l blobs ->
  blobVersionedHash b = Ok v.
Proof.
  intros H. induction H as [|b' v' blobs l H _ IH]; cbn; [intros Hx; by apply not_elem_of_nil in Hx|]. by intros [[= -> ->]|Hx]%elem_of_cons; auto.
Qed.

Lemma fetchRows_run want rows m : sound want m -> quietly (fetchRows (cf_Sources cfg) want rows m) /\
  forall w m' w', fetchRows (cf_Sources cfg) want rows m w = (Ok m', w') -> sound want m'.
Proof.
  revert m. induction rows as [|row rows IH]; intros m Hm; cbn [fetchRows]; [split; [auto with quiet|by intros w m' w' [= <- <-]]|].
  destruct (existsb _ _); [|by apply IH].
  destruct (fetchSlot_run (cf_Sources cfg) (cr_Slot row) (cr_VHs row)) as [Hq Hr]; [intros s Hs; by apply quiet_source|].
  assert (Hstep : forall w blobs w', fetchSlot (cf_Sources cfg) (cr_Slot row) (cr_VHs row) w = (Ok blobs, w') ->
    sound want (reverse (List.filter (fun p => wanted want (fst p)) (zip (cr_VHs row) blobs)) ++ m)).
  { intros w blobs w' H%Hr v b [Hb|Hb]%elem_of_app; [|by apply Hm]. apply elem_of_reverse, list_elem_of_In, List.filter_In in Hb as [Hb Hw].
    apply bool_decide_eq_true_1 in Hw. split; [done|]. eapply zip_anchored; [exact H|]. by apply list_elem_of_In. }
  split.
  - intros w r w' [(blobs & w1 & H1 & H)|(e & H1 & ->)]%bind_run; [|by eapply Hq]. pose proof (Hstep _ _ _ H1) as Hs.
    apply Hq in H1. apply (IH _ Hs) in H. by transitivity w1.
  - intros w m' w' (blobs & w1 & H1 & H)%bind_run_ok. apply Hstep in H1. by apply (IH _ H1) in H.
Qed.

Lemma firsts_spec seen l : NoDup (firsts seen l) /\ (forall v, v ∈ firsts seen l <-> v ∈ l /\ v ∉ seen).
Proof.
  revert seen. induction l as [|x l IH]; intros seen; cbn [firsts]; [split; [constructor|]; intros v; split; [intros H|intros [H _]]; by apply not_elem_of_nil in H|].
  case_bool_decide as E.
  - destruct (IH seen) as [Hn Hm]. split; [done|]. intros v. rewrite Hm, elem_of_cons. split; [by intros [? ?]; auto|]. by intros [[->|?] ?].
  - destruct (IH (x :: seen)) as [Hn Hm]. split.
    + constructor; [|done]. rewrite Hm. intros [_ H]. apply H. by left.
    + intros v. rewrite elem_of_cons, Hm, !elem_of_cons. split; [intros [->|[Hv Hs]]; tauto|].
      intros [[->|Hv] Hs]; [by left|]. destruct (decide (v = x)) as [->|]; tauto.
Qed.

(** The wanted hashes of the rows, all of them when the count is right. *)
Lemma ordered_spec want rows : NoDup want -> (forall v, v ∈ orderedVHs want rows -> v ∈ want) /\
  (length (orderedVHs want rows) = length want -> forall v, v ∈ want -> v ∈ orderedVHs want rows).
Proof.
  intros Hw. unfold orderedVHs. set (l := List.filter _ _). destruct (firsts_spec [] l) as [Hn Hm].
  assert (Hin : forall v, v ∈ firsts [] l -> v ∈ want).
  { intros v Hv. apply Hm in Hv as [Hv _]. apply list_elem_of_In, List.filter_In in Hv as [_ Hv]. by apply bool_decide_eq_true_1 in Hv. }
  split; [done|]. intros Hlen v Hv.
  assert (Hp : firsts [] l ≡ₚ want) by (apply submseteq_length_Permutation; [apply NoDup_submseteq; [done|exact Hin]|lia]). by rewrite Hp.
Qed.

Lemma byVH_found want m v v' : sound want m -> blobVersionedHash (byVH_get v m) = Ok v' -> v' = v /\ v ∈ want.
Proof.
  intros Hs. unfold byVH_get. destruct (List.find _ m) as [[u b]|] eqn:E; [|done]. apply List.find_some in E as [Hin Hu].
  apply list_elem_of_In in Hin. apply bool_decide_eq_true_1 in Hu as ->. cbn. apply Hs in Hin as [Hw ->]. by intros [= <-].
Qed.

Lemma putBatches_run fuel maxPut want m vhs (w : W) r w' : sound want m -> putBatches fuel maxPut m vhs w = (r, w') ->
  chosen w' = chosen w /\ (forall v, delivered w v -> delivered w' v) /\ (forall v, delivered w' v -> delivered w v \/ v ∈ want) /\
  (r = Ok tt -> forall v, v ∈ vhs -> delivered w' v).
Proof.
  intros Hs. revert vhs w. induction fuel as [|fuel IH]; intros vhs w H; cbn [putBatches] in H; [injection H as <- <-; repeat split; auto; done|].
  destruct vhs as [|v0 vhs0] eqn:Ev; [injection H as <- <-; repeat split; auto; intros _ v Hv; by apply not_elem_of_nil in Hv|].
  rewrite <- Ev in *. clear Ev v0 vhs0. cbv zeta in H.
  assert (Hb : forall v, (exists b, b ∈ map (fun vh => byVH_get vh m) (take maxPut vhs) /\ blobVersionedHash b = Ok v) -> v ∈ want).
  { intros v (b & Hb & Hv). apply list_elem_of_In, in_map_iff in Hb as (u & <- & _). by apply (byVH_found want) in Hv as [-> ?]. }
  apply bind_run in H as [(put & w1 & H1 & H)|(e & H1 & ->)]; apply Put_ok in H1 as (Ec & Hd & Hput).
  2: { repeat split; auto; [|done]. intros v Hv. apply Hput in Hv as [?|?]; auto. }
  destruct Hput as [Hf Hdel]. assert (Hw1 : forall v, delivered w1 v -> delivered w v \/ v ∈ want).
  { intros v Hv. apply Hdel in Hv as [?|Hv]; [by left|]. right. apply Hb. apply list_elem_of_lookup in Hv as [i Hi].
    destruct (Forall2_lookup_r _ _ _ _ _ Hf Hi) as (b & Hbi & Hbv). exists b. split; [by eapply list_elem_of_lookup_2|done]. }
  destruct (length put =? length (take maxPut vhs))%nat; cbn [negb] in H; [|injection H as <- <-; repeat split; auto; done].
  destruct (bool_decide_reflect (put = take maxPut vhs)) as [->|]; cbn [negb] in H; [|injection H as <- <-; repeat split; auto; done].
  apply IH in H as (Ec' & Hd' & Hw' & Hall). split; [congruence|]. split; [auto|]. split.
  - intros v Hv. apply Hw' in Hv as [Hv|?]; [by apply Hw1|by right].
  - intros Hr v Hv. rewrite <- (take_drop maxPut vhs) in Hv. apply elem_of_app in Hv as [Hv|Hv]; [|by apply Hall].
    apply Hd', Hdel. by right.
Qed.

Lemma putBatches_ends fuel k maxPut m vhs (w : W) : (length vhs < fuel)%nat -> (0 < maxPut)%nat ->
  putBatches (fuel + k) maxPut m vhs w = putBatches fuel maxPut m vhs w.
Proof.
  intros Hf Hm. revert vhs w Hf. induction fuel as [|fuel IH]; intros vhs w Hf; [lia|]. cbn [putBatches Nat.add].
  destruct vhs as [|v vhs]; [done|]. apply bind_ext. intros put w1 _. destruct (negb _); [done|]. destruct (negb _); [done|].
  apply IH. rewrite length_drop. cbn [length] in *. lia.
Qed.

Lemma supplyMissing_run sn missing (w : W) r w' : supplyMissing cfg sn missing w = (r, w') ->
  chosen w' = chosen w /\ (forall v, delivered w v -> delivered w' v) /\ (forall v, delivered w' v -> delivered w v \/ v ∈ missing) /\
  (r = Ok tt -> forall v, v ∈ missing -> delivered w' v).
Proof.
  intros H.
  unfold supplyMissing in H. destruct (_ =? _)%nat; [injection H as <- <-; repeat split; auto; done|]. cbv zeta in H.
  set (want := remove_dups missing) in *. destruct (negb (forallb _ _)); [injection H as <- <-; repeat split; auto; done|].
  destruct (fetchRows_run want (sn_Rows sn) []) as [Hq Hr]; [intros v b Hx; by apply not_elem_of_nil in Hx|].
  apply bind_run in H as [(m & w1 & H1 & H)|(e & H1 & ->)]; pose proof (Hq _ _ _ H1) as [Ec Hd].
  2: { split; [done|]. split; [intros v; apply Hd|]. split; [intros v Hv; left; by apply Hd|done]. }
  apply Hr in H1. destruct (ordered_spec want (sn_Rows sn)) as [_ Hcover]; [apply NoDup_remove_dups|].
  destruct (Nat.eqb_spec (length (orderedVHs want (sn_Rows sn))) (length want)) as [El|]; cbn [negb] in H.
  2: { injection H as <- <-. split; [done|]. split; [intros v; apply Hd|]. split; [intros v Hv; left; by apply Hd|done]. }
  apply (putBatches_run _ _ want) in H as (Ec' & Hd' & Hw' & Hall); [|done]. split; [congruence|]. split; [intros v Hv; by apply Hd', Hd|]. split.
  - intros v Hv. apply Hw' in Hv as [Hv|Hv]; [left; by apply Hd|right; by apply elem_of_remove_dups].
  - intros Hok v Hv. apply Hall; [done|]. apply Hcover; [done|]. by apply elem_of_remove_dups.
Qed.
Lemma supplyMissing_frame sn missing (w : W) r w' : supplyMissing cfg sn missing w = (r, w') -> chosen w' = chosen w.
Proof. by intros (? & _)%supplyMissing_run. Qed.

(** Supplying missing blobs gives the archive exactly what it asked for: whatever
    happens, nothing is delivered but missing blobs, each under the hash it commits
    to; on success all of them are; and the loop over the batches ends within its
    allowance. *)
Theorem supplyMissing_exact sn missing (w : W) r w' : supplyMissing cfg sn missing w = (r, w') ->
  chosen w' = chosen w /\ (forall v, delivered w v -> delivered w' v) /\ (forall v, delivered w' v -> delivered w v \/ v ∈ missing) /\
  (r = Ok tt -> forall v, v ∈ missing -> delivered w' v) /\
  (0 < cf_MaxPutBlobs cfg -> forall k m vhs w0, putBatches (S (length vhs) + k) (Z.to_nat (cf_MaxPutBlobs cfg)) m vhs w0 =
     putBatches (S (length vhs)) (Z.to_nat (cf_MaxPutBlobs cfg)) m vhs w0).
Proof.
  intros H. assert (Hend : 0 < cf_MaxPutBlobs cfg -> forall k m vhs w0, putBatches (S (length vhs) + k) (Z.to_nat (cf_MaxPutBlobs cfg)) m vhs w0 =
     putBatches (S (length vhs)) (Z.to_nat (cf_MaxPutBlobs cfg)) m vhs w0) by (intros Hp k m vhs w0; apply putBatches_ends; lia).
  enough (Hall : chosen w' = chosen w /\ (forall v, delivered w v -> delivered w' v) /\ (forall v, delivered w' v -> delivered w v \/ v ∈ missing) /\
    (r = Ok tt -> forall v, v ∈ missing -> delivered w' v)) by (destruct Hall as (? & ? & ? & ?); auto).
  by apply supplyMissing_run in H.
Qed.

(** ** A step *)

Lemma onW_run {A} (m : M W A) (t : TState) r t' : onW m t = (r, t') -> exists w', m (tw_world t) = (r, w') /\ t' = mkT w' (tw_previous t).
Proof. unfold onW. destruct (m (tw_world t)) as [r0 w0]. intros [= <- <-]. eauto. Qed.
Lemma onW_attempt {A} (m : M W A) (t : TState) r t' : attempt (onW m) t = (r, t') ->
  exists r0 w', r = Ok r0 /\ m (tw_world t) = (r0, w') /\ t' = mkT w' (tw_previous t).
Proof. unfold attempt, onW. destruct (m (tw_world t)) as [r0 w0]. intros [= <- <-]. eauto. Qed.
Lemma onW_quiet {A} (m : M W A) (t : TState) r t' : quietly m -> onW m t = (r, t') ->
  tw_previous t' = tw_previous t /\ chosen (tw_world t') = chosen (tw_world t).
Proof. intros Hm (w' & H & ->)%onW_run. split; [done|]. by apply Hm in H as [H _]. Qed.

(** What sending one request may change. *)
Definition sends (sn : Snapshot) (req : GenerationRequest) (t t' : TState) (r : res StepResult) : Prop :=
  (tw_previous t' = tw_previous t \/ tw_previous t' = Some sn) /\
  (chosen (tw_world t') = chosen (tw_world t) \/ chosen (tw_world t') = Some req) /\
  (forall res, r = Ok res -> sr_Updated res = true -> chosen (tw_world t') = Some req).

Lemma sends_quiet sn req t t1 t' r : tw_previous t1 = tw_previous t -> chosen (tw_world t1) = chosen (tw_world t) -> sends sn req t1 t' r -> sends sn req t t' r.
Proof. intros E1 E2 (H1 & H2 & H3). unfold sends. rewrite <- E1, <- E2. done. Qed.
Lemma sends_err sn req t t' e : tw_previous t' = tw_previous t -> chosen (tw_world t') = chosen (tw_world t) \/ chosen (tw_world t') = Some req ->
  sends sn req t t' (Err e).
Proof. intros E1 E2. split; [by left|]. by split. Qed.

Lemma post_run sn req (t : TState) (k : res PostOutcome -> M TState StepResult) r t' :
  (x <-- attempt (onW (ar_PostGeneration (cf_Head cfg) req)) ;; k x) t = (r, t') ->
  (forall resp t1, chosen (tw_world t1) = Some req -> tw_previous t1 = tw_previous t -> k (Ok (Posted resp)) t1 = (r, t') -> sends sn req t t' r) ->
  (forall vhs cur t1, chosen (tw_world t1) = chosen (tw_world t) -> tw_previous t1 = tw_previous t -> k (Ok (MissingBlobs vhs cur)) t1 = (r, t') -> sends sn req t t' r) ->
  (forall e t1, chosen (tw_world t1) = chosen (tw_world t) \/ chosen (tw_world t1) = Some req -> tw_previous t1 = tw_previous t ->
     k (Err e) t1 = (r, t') -> sends sn req t t' r) -> sends sn req t t' r.
Proof.
  intros H Hp Hm He. apply bind_run in H as [(x & t1 & H1 & H)|(e & H1 & _)]; apply onW_attempt in H1 as (r0 & w' & E & H1 & ->); [|done].
  injection E as <-. apply Post_ok in H1 as [_ H1]. set (t1 := mkT w' (tw_previous t)) in H. destruct x as [[resp|vhs cur]|e].
  - by apply (Hp resp t1 H1 eq_refl H).
  - by apply (Hm vhs cur t1 H1 eq_refl H).
  - by apply (He e t1 H1 eq_refl H).
Qed.

Lemma reclassify_run sn req e0 (t t1 : TState) r t' : chosen (tw_world t1) = chosen (tw_world t) \/ chosen (tw_world t1) = Some req ->
  tw_previous t1 = tw_previous t -> (e <-- onW (classifyGenerationConflict cfg req e0) ;; fail e) t1 = (r, t') -> sends sn req t t' r.
Proof.
  intros Hc Hp H. apply bind_run in H as [(e & t2 & H1 & [= <- <-])|(e & H1 & ->)]; apply onW_quiet in H1 as [E1 E2]; try apply quiet_classify;
    (apply sends_err; [congruence|rewrite E2; done]).
Qed.

Lemma resend_run sn req (t : TState) r t' : resend cfg sn req t = (r, t') -> sends sn req t t' r.
Proof.
  unfold resend. intros [([] & t1 & H1 & H)|(e & H1 & ->)]%bind_run; apply onW_quiet in H1 as [E1 E2]; try apply quiet_StableHead.
  2: { apply sends_err; [done|by left]. }
  apply (sends_quiet _ _ _ _ _ _ E1 E2). apply (post_run sn req t1 _ r t' H).
  - intros resp t2 Hc Hp [= <- <-]. split; [by right|]. split; [by right|]. done.
  - intros vhs cur t2 Hc Hp Hk. eapply reclassify_run; [by left|exact Hp|exact Hk].
  - intros e t2 Hc Hp Hk. eapply reclassify_run; [exact Hc|exact Hp|exact Hk].
Qed.

Lemma send_run generation sn req (t : TState) r t' : select cfg generation sn req t = (r, t') -> sends sn req t t' r.
Proof.
  unfold select. intros H. apply (post_run sn req t _ r t' H).
  - intros resp t2 Hc Hp [= <- <-]. split; [by right|]. split; [by right|]. done.
  - intros vhs cur t2 Hc Hp Hk. destruct (match cur with Some _ => _ | None => _ end); [injection Hk as <- <-; apply sends_err; auto|].
    apply bind_run in Hk as [([] & t3 & H3 & Hk)|(e & H3 & ->)]; apply onW_run in H3 as (w3 & H3 & ->); apply supplyMissing_frame in H3.
    + apply resend_run in Hk. apply (sends_quiet _ _ t (mkT w3 (tw_previous t2))); cbn; [done|congruence|done].
    + apply sends_err; cbn; [done|left; congruence].
  - intros e t2 Hc Hp Hk. eapply reclassify_run; [exact Hc|exact Hp|exact Hk].
Qed.

(** A request for a complete snapshot that continues the handoff head [h], which
    covers the chain up to [synced]: it names that head's root and coverage, the
    source had finalized all the head covers, and the window starts [cf_OverlapSlots]
    slots before the first slot the head does not cover (not before the head's
    origin), so no later than that slot. *)
Definition proper (h : HeadInfo) (synced : Z) (req : GenerationRequest) : Prop := exists g sn,
  canonical sn /\ req = generationRequest g sn (hi_Root h) synced /\ synced <= hd_Slot (sn_Finalized sn) /\
  sn_WindowStart sn = Z.max (hi_OriginSlot h) (Z.max 0 (Z.min (synced + 1) (2 ^ 64 - 1) - cf_OverlapSlots cfg)) /\
  hi_OriginSlot h <= sn_WindowStart sn <= Z.max (hi_OriginSlot h) (synced + 1).

(** The archive's selection is such a request, for what the archive answered about
    the handoff head at the start of the step. *)
Definition selects (t t' : TState) : Prop := exists h w1 synced req,
  ar_Head (cf_HandoffHead cfg) (tw_world t) = (Ok h, w1) /\ hi_SyncedTo h = Some synced /\
  chosen (tw_world t') = Some req /\ proper h synced req.

Lemma unchanged_quiet status hr hs ws (t : TState) r t' : unchangedSelectedSource cfg status hr hs ws t = (r, t') ->
  tw_previous t' = tw_previous t /\ chosen (tw_world t') = chosen (tw_world t) /\
  forall res, r = Ok (Some res) -> sr_Updated res = false.
Proof.
  unfold unchangedSelectedSource, bind, gets. destruct (tw_previous t) as [prev|] eqn:Ep; [|by intros [= <- <-]].
  destruct (_ || _); [by intros [= <- <-]|]. destruct (attempt (onW hs_FinalizedHeader) t) as [rf t1] eqn:E1.
  apply onW_attempt in E1 as (r1 & w1 & -> & H1 & ->). apply quiet_Finalized in H1 as [H1 _]. cbn [tw_previous].
  destruct r1 as [[fin|]|]; [|by intros [= <- <-]..]. destruct (negb _); [by intros [= <- <-]|].
  destruct (attempt (onW hs_Head) (mkT w1 (tw_previous t))) as [rh t2] eqn:E2.
  apply onW_attempt in E2 as (r2 & w2 & -> & H2 & ->). apply quiet_Head in H2 as [H2 _]. cbn [tw_previous tw_world] in *.
  destruct r2 as [[head|]|]; [|intros [= <- <-]; (split; [done|split; [cbn; congruence|done]])..].
  destruct (_ <? _); intros [= <- <-]; (split; [done|split; [cbn; congruence|]]); [done|].
  intros res. destruct (sameSource _ _ _ _ _ _ _ _); [by intros [= <-]|done].
Qed.

(** What a step may do to the selection and to the kept snapshot. *)
Definition step_effect (t t' : TState) (r : res StepResult) : Prop :=
  (forall sn, tw_previous t' = Some sn -> canonical sn) /\
  (chosen (tw_world t') = chosen (tw_world t) \/ selects t t') /\
  (forall res, r = Ok res -> sr_Updated res = true -> selects t t').

Section Effect.
Context (t : @TState W) (Hprev : forall sn, tw_previous t = Some sn -> canonical sn).

(** Nothing was sent. *)
Lemma effect_quiet t1 (r1 : res StepResult) : tw_previous t1 = tw_previous t -> chosen (tw_world t1) = chosen (tw_world t) ->
  (forall res, r1 = Ok res -> sr_Updated res = false) -> step_effect t t1 r1.
Proof. intros Ep Ec Hr. split; [by rewrite Ep|]. split; [by left|]. intros res Hres. by rewrite (Hr res Hres). Qed.

Context (h : HeadInfo) (w1 : W) (synced : Z) (Hh : ar_Head (cf_HandoffHead cfg) (tw_world t) = (Ok h, w1)).
Context (Hsy : hi_SyncedTo h = Some synced) (Hov : is_u64 (cf_OverlapSlots cfg)).

Lemma fullStep_effect status (t3 : TState) r t' : tw_previous t3 = tw_previous t -> chosen (tw_world t3) = chosen (tw_world t) ->
  fullStep cfg status (hi_Root h) synced (WindowStart (hi_OriginSlot h) synced (cf_OverlapSlots cfg)) t3 = (r, t') -> step_effect t t' r.
Proof.
  intros P3 C3 H. assert (Hu : is_u64 synced) by (by eapply Head_u64). unfold fullStep in H. cbv zeta in H.
  apply bind_run in H as [(sn & t4 & H4 & H)|(e & H4 & ->)]; pose proof (onW_quiet _ _ _ _ (quiet_Build _ _) H4) as [P4 C4]; [|apply effect_quiet; congruence].
  apply onW_run in H4 as (w4 & H4 & _). apply Build_run in H4 as [Hsn Hws].
  destruct (Z.ltb_spec (hd_Slot (sn_Finalized sn)) synced) as [|Hfin]; [injection H as <- <-; apply effect_quiet; congruence|].
  apply bind_run in H as [([] & t5 & H5 & H)|(e & H5 & ->)]; pose proof (onW_quiet _ _ _ _ (quiet_StableHead _) H5) as [P5 C5]; [|apply effect_quiet; congruence].
  assert (Hsel : forall g, sends sn (generationRequest g sn (hi_Root h) synced) t5 t' r -> step_effect t t' r).
  { intros g (S1 & S2 & S3). assert (Hp : forall req, req = generationRequest g sn (hi_Root h) synced -> chosen (tw_world t') = Some req -> selects t t').
    { intros req -> Hc. eexists h, w1, synced, _. split; [done|]. split; [done|]. split; [exact Hc|]. exists g, sn. do 3 (split; [done|]).
      split; [rewrite Hws; by apply WindowStart_exact|]. rewrite Hws. by destruct (WindowStart_no_gap (hi_OriginSlot h) synced (cf_OverlapSlots cfg)). }
    split; [|split].
    - destruct S1 as [->| ->]; [intros x Hx; apply Hprev; congruence|by intros x [= <-]].
    - destruct S2 as [->|S2]; [left; congruence|right; eauto].
    - intros res Hr Hup. eauto. }
  destruct (selectedGenerationMatches _ _ _ _ _).
  - destruct (st_Exposed status && st_Published status).
    + injection H as <- <-. split; [by intros x [= <-]|]. split; [left; cbn; congruence|]. by intros res [= <-].
    + apply send_run in H. by apply (Hsel (sub64 (gs_Generation (st_State status)) 1)).
  - apply send_run in H. by apply (Hsel (gs_Generation (st_State status))).
Qed.
End Effect.

(** C31: Whatever a step meets and however it ends, the archive's selection is as it was
    or is a request for a complete snapshot of the chain that continues, without a
    gap, the finalized head as the archive reported it at the start of the step; a
    step that reports an update has selected such a request; and the snapshot the
    tracker keeps is a complete one. *)
Theorem step_asks_complete (t : TState) r t' : is_u64 (cf_OverlapSlots cfg) -> (forall sn, tw_previous t = Some sn -> canonical sn) ->
  Step cfg t = (r, t') ->
  (forall sn, tw_previous t' = Some sn -> canonical sn) /\
  (chosen (tw_world t') = chosen (tw_world t) \/ selects t t') /\
  (forall res, r = Ok res -> sr_Updated res = true -> selects t t').
Proof.
  intros Hov Hprev. change (Step cfg t = (r, t') -> step_effect t t' r). unfold Step.
  intros [(h & t1 & H1 & H)|(e & H1 & ->)]%bind_run; pose proof (onW_quiet _ _ _ _ (quiet_ar_Head _) H1) as [P1 C1]; [|by apply (effect_quiet t Hprev)].
  destruct (_ && _); [injection H as <- <-; by apply (effect_quiet t Hprev)|]. destruct (hi_SyncedTo h) as [synced|] eqn:Esy; [|injection H as <- <-; by apply (effect_quiet t Hprev)].
  apply onW_run in H1 as (w1 & H1 & _).
  apply bind_run in H as [(status & t2 & H2 & H)|(e & H2 & ->)]; pose proof (onW_quiet _ _ _ _ (quiet_State _) H2) as [P2 C2]; [|apply (effect_quiet t Hprev); congruence].
  cbv zeta in H. destruct (bool_decide (gs_Kind (st_State status) = UnfinalizedMutable)); cbn [negb] in H; [|injection H as <- <-; apply (effect_quiet t Hprev); congruence].
  apply bind_run in H as [(u & t3 & H3 & H)|(e & H3 & ->)]; apply unchanged_quiet in H3 as (P3 & C3 & U3); [|apply (effect_quiet t Hprev); congruence].
  destruct u as [res|]; [injection H as <- <-; apply (effect_quiet t Hprev); [congruence..|]; intros res' [= <-]; by apply U3|].
  eapply fullStep_effect; [done|exact H1|exact Esy|done| | |exact H]; congruence.
Qed.
End Archive.
End TrackerCorrect.
