(* ===== verification/Instances.v ===== *)
(** Concrete instances of the interfaces of the third-party code.

    They show that the laws the development assumes can hold together, and they
    make the definitions run: the witnesses of the theorems evaluate on them.
    The hash is the identity (injective by construction), the codec is a tagged
    serialization of the canonical node, the block store is an association list
    that validates what it serves, the LRU is a list with the most recently used
    item in front. *)
From Stdlib Require Import Ascii.
From Stdlib Require Strings.Byte.
From S2P Require Import Prelude Cid Schema Core.

(** ** Hashing *)

Definition id_sum (p : Prefix) (data : bytes) : option (CidOf bytes) :=
  if bool_decide (pVersion p = 1 /\ pMhType p = SHA2_256 /\ (pMhLength p = -1 \/ pMhLength p = 32))
  then Some (mkCid 1 (pCodec p) (mkMh SHA2_256 32 data)) else None.

#[global] Program Instance id_multihash : Multihash :=
  {| Digest := bytes; sha256 := fun d => d; prefix_sum := id_sum |}.
Next Obligation. done. Qed.
Next Obligation.
  intros p q a b c c'. unfold id_sum. do 2 case_bool_decide; try done. intros [= <-] [= <-]. cbn. congruence.
Qed.
Next Obligation.
  intros codec len data Hl. unfold id_sum. simpl. by rewrite bool_decide_eq_true_2.
Qed.

(** ** A serialization of nodes *)

Definition b0 : byte := Byte.x00.
Definition b1 : byte := Byte.x01.
Definition b2 : byte := Byte.x02.

(** A positive as its bits, least significant first, closed by [b2]. *)
Fixpoint ser_pos (p : positive) : bytes :=
  match p with
  | xH => [b2]
  | xO p => b0 :: ser_pos p
  | xI p => b1 :: ser_pos p
  end.
Fixpoint de_pos (b : bytes) : option (positive * bytes) :=
  match b with
  | Byte.x02 :: r => Some (xH, r)
  | Byte.x00 :: r => match de_pos r with Some (p, r') => Some (xO p, r') | None => None end
  | Byte.x01 :: r => match de_pos r with Some (p, r') => Some (xI p, r') | None => None end
  | _ => None
  end.

Definition ser_Z (z : Z) : bytes :=
  match z with Z0 => [b0] | Zpos p => b1 :: ser_pos p | Zneg p => b2 :: ser_pos p end.
Definition de_Z (b : bytes) : option (Z * bytes) :=
  match b with
  | Byte.x00 :: r => Some (0, r)
  | Byte.x01 :: r => match de_pos r with Some (p, r') => Some (Zpos p, r') | None => None end
  | Byte.x02 :: r => match de_pos r with Some (p, r') => Some (Zneg p, r') | None => None end
  | _ => None
  end.

Lemma de_ser_pos p r : de_pos (ser_pos p ++ r) = Some (p, r).
Proof. induction p as [p IH|p IH|]; simpl; rewrite ?IH; done. Qed.
Lemma de_ser_Z z r : de_Z (ser_Z z ++ r) = Some (z, r).
Proof. destruct z; simpl; rewrite ?de_ser_pos; done. Qed.

(** A list: every item preceded by [b1], closed by [b0]. *)
Definition ser_list {A} (ser : A -> bytes) (l : list A) : bytes :=
  concat (map (fun x => b1 :: ser x) l) ++ [b0].
Fixpoint de_list {A} (fuel : nat) (de : bytes -> option (A * bytes)) (b : bytes) : option (list A * bytes) :=
  match fuel with
  | O => None
  | S fuel' =>
    match b with
    | Byte.x00 :: r => Some ([], r)
    | Byte.x01 :: r =>
      match de r with
      | Some (x, r') => match de_list fuel' de r' with Some (l, r'') => Some (x :: l, r'') | None => None end
      | None => None
      end
    | _ => None
    end
  end.

Lemma ser_list_cons {A} (ser : A -> bytes) x l : ser_list ser (x :: l) = b1 :: ser x ++ ser_list ser l.
Proof. unfold ser_list. simpl. by rewrite app_assoc. Qed.

Lemma de_ser_list {A} fuel (ser : A -> bytes) (de : bytes -> option (A * bytes)) l r :
  Forall (fun x => forall r, de (ser x ++ r) = Some (x, r)) l -> (length l < fuel)%nat ->
  de_list fuel de (ser_list ser l ++ r) = Some (l, r).
Proof.
  intros Hf. revert fuel r. induction Hf as [|x l Hx Hf IH]; intros fuel r Hl;
    (destruct fuel as [|fuel]; [simpl in Hl; lia|]); [done|].
  rewrite ser_list_cons. simpl. rewrite <- app_assoc, Hx, IH by (simpl in Hl; lia). done.
Qed.

Definition ser_byte (b : byte) : bytes := [b].
Definition de_byte (b : bytes) : option (byte * bytes) := match b with x :: r => Some (x, r) | [] => None end.

Definition ser_bytes : bytes -> bytes := ser_list ser_byte.
Definition de_bytes (b : bytes) : option (bytes * bytes) := de_list (S (length b)) de_byte b.

Lemma ser_list_length {A} (ser : A -> bytes) l : (length l < length (ser_list ser l))%nat.
Proof. induction l as [|x l IH]; [simpl; lia|]. rewrite ser_list_cons. simpl. rewrite length_app. lia. Qed.

Lemma de_ser_bytes b r : de_bytes (ser_bytes b ++ r) = Some (b, r).
Proof.
  unfold de_bytes, ser_bytes. apply de_ser_list.
  - apply Forall_true. by intros x r'.
  - rewrite length_app. pose proof (ser_list_length ser_byte b). lia.
Qed.

Definition ser_string (s : string) : bytes := ser_bytes (String.list_byte_of_string s).
Definition de_string (b : bytes) : option (string * bytes) :=
  match de_bytes b with Some (l, r) => Some (String.string_of_list_byte l, r) | None => None end.

Lemma de_ser_string s r : de_string (ser_string s ++ r) = Some (s, r).
Proof. unfold de_string, ser_string. rewrite de_ser_bytes. by rewrite String.string_of_list_byte_of_string. Qed.

Definition ser_cid (c : CidOf bytes) : bytes :=
  ser_Z (cidVersion c) ++ ser_Z (cidCodec c) ++ ser_Z (mhType (cidHash c)) ++
  ser_Z (mhLength (cidHash c)) ++ ser_bytes (mhDigest (cidHash c)).
Definition de_cid (b : bytes) : option (CidOf bytes * bytes) :=
  match de_Z b with
  | Some (v, b) => match de_Z b with
    | Some (c, b) => match de_Z b with
      | Some (t, b) => match de_Z b with
        | Some (l, b) => match de_bytes b with
          | Some (d, b) => Some (mkCid v c (mkMh t l d), b)
          | None => None end
        | None => None end
      | None => None end
    | None => None end
  | None => None end.

Lemma de_ser_cid c r : de_cid (ser_cid c ++ r) = Some (c, r).
Proof.
  unfold de_cid, ser_cid. rewrite <- !app_assoc, !de_ser_Z, de_ser_bytes.
  by destruct c as [? ? []].
Qed.

Fixpoint ser_node (n : Node) : bytes :=
  match n with
  | NNull => [Byte.x00]
  | NBool b => [Byte.x01; if b then b1 else b0]
  | NInt z => Byte.x02 :: ser_Z z
  | NFloat z => Byte.x03 :: ser_Z z
  | NString s => Byte.x04 :: ser_string s
  | NBytes b => Byte.x05 :: ser_bytes b
  | NList l => Byte.x06 :: ser_list ser_node l
  | NMap l => Byte.x07 :: ser_list (fun '(k, v) => ser_string k ++ ser_node v) l
  | NLink c => Byte.x08 :: ser_cid c
  end.

Definition omap1 {A B} (f : A -> B) (o : option (A * bytes)) : option (B * bytes) :=
  match o with Some (a, r) => Some (f a, r) | None => None end.

Fixpoint de_node (fuel : nat) (b : bytes) : option (Node * bytes) :=
  match fuel with
  | O => None
  | S fuel' =>
    match b with
    | Byte.x00 :: r => Some (NNull, r)
    | Byte.x01 :: Byte.x01 :: r => Some (NBool true, r)
    | Byte.x01 :: Byte.x00 :: r => Some (NBool false, r)
    | Byte.x02 :: r => omap1 NInt (de_Z r)
    | Byte.x03 :: r => omap1 NFloat (de_Z r)
    | Byte.x04 :: r => omap1 NString (de_string r)
    | Byte.x05 :: r => omap1 NBytes (de_bytes r)
    | Byte.x06 :: r => omap1 NList (de_list (S (length r)) (de_node fuel') r)
    | Byte.x07 :: r => omap1 NMap (de_list (S (length r)) (fun b =>
        match de_string b with
        | Some (k, b) => omap1 (pair k) (de_node fuel' b)
        | None => None
        end) r)
    | Byte.x08 :: r => omap1 NLink (de_cid r)
    | _ => None
    end
  end.

(** Nesting depth, the fuel a node needs. *)
Fixpoint node_depth (n : Node) : nat :=
  match n with
  | NList l => S (fold_right (fun n d => Nat.max (node_depth n) d) 0%nat l)
  | NMap l => S (fold_right (fun '(_, n) d => Nat.max (node_depth n) d) 0%nat l)
  | _ => 1%nat
  end.

Lemma de_ser_node fuel n r : (node_depth n <= fuel)%nat -> de_node fuel (ser_node n ++ r) = Some (n, r).
Proof.
  revert n r. induction fuel as [|fuel IH]; intros n r Hd; [destruct n; simpl in Hd; lia|].
  destruct n as [|b|z|z|s|bs|l|l|c]; cbn [ser_node]; rewrite <- ?app_comm_cons; cbn [de_node].
  - done.
  - by destruct b.
  - by rewrite de_ser_Z.
  - by rewrite de_ser_Z.
  - by rewrite de_ser_string.
  - by rewrite de_ser_bytes.
  - rewrite de_ser_list; [done| |].
    + simpl in Hd. apply le_S_n in Hd. induction l as [|x l IHl]; [constructor|]. simpl in Hd.
      constructor; [intros r'; apply IH; lia|apply IHl; lia].
    + rewrite length_app. pose proof (ser_list_length ser_node l). lia.
  - rewrite de_ser_list; [done| |].
    + simpl in Hd. apply le_S_n in Hd. induction l as [|[k x] l IHl]; [constructor|]. simpl in Hd.
      constructor; [|apply IHl; lia]. intros r'. rewrite <- app_assoc, de_ser_string, IH by lia. done.
    + rewrite length_app. pose proof (ser_list_length (fun '(k, v) => ser_string k ++ ser_node v) l). lia.
  - by rewrite de_ser_cid.
Qed.

(** Nesting never exceeds the length of the serialization. *)
Lemma ser_list_max {A} (ser : A -> bytes) (d : A -> nat) l :
  Forall (fun x => (d x <= length (ser x))%nat) l ->
  (fold_right (fun x m => Nat.max (d x) m) 0 l <= length (ser_list ser l))%nat.
Proof.
  induction 1 as [|x l Hx _ IH]; [simpl; lia|]. rewrite ser_list_cons. simpl. rewrite length_app. lia.
Qed.

Lemma node_depth_le (n : Node) : (node_depth n <= length (ser_node n))%nat.
Proof.
  revert n. fix node_depth_le 1. intros n. destruct n as [|b|z|z|s|bs|l|l|c]; cbn [node_depth ser_node length]; try lia.
  - apply le_n_S, ser_list_max. induction l as [|x l IHl]; constructor; [apply node_depth_le|exact IHl].
  - apply le_n_S.
    assert (E : fold_right (fun '(_, n) d => Nat.max (node_depth n) d) 0%nat l
              = fold_right (fun x m => Nat.max (node_depth (snd x)) m) 0%nat l).
    { clear. induction l as [|[k x] l IHl]; simpl; congruence. }
    rewrite E. apply ser_list_max. clear E.
    induction l as [|[k x] l IHl]; constructor; [|exact IHl]. cbn [snd].
    rewrite length_app. pose proof (node_depth_le x). lia.
Qed.

Definition decode_all (b : bytes) : option Node :=
  match de_node (length b) b with Some (n, []) => Some n | _ => None end.

#[global] Program Instance id_cbor : DagCbor :=
  {| cbor_encode := fun n => Some (ser_node (node_canon n)); cbor_decode := decode_all |}.
Next Obligation.
  intros n Hn. eexists. split; [done|]. unfold decode_all.
  pose proof (de_ser_node (length (ser_node (node_canon n))) (node_canon n) [] (node_depth_le _)) as H.
  rewrite app_nil_r in H. by rewrite H.
Qed.

(** ** A validating block store *)

Definition Blocks : Type := list (CidOf bytes * bytes).

Fixpoint find_block (s : Blocks) (c : CidOf bytes) : option bytes :=
  match s with
  | [] => None
  | (c', d) :: s' => if decide (c' = c) then Some d else find_block s' c
  end.

Definition blocks_get (c : option (CidOf bytes)) : M Blocks bytes := fun s =>
  match c with
  | None => (Err ENotFound, s)
  | Some v =>
    match find_block s v with
    | None => (Err ENotFound, s)
    | Some d => (if decide (prefix_sum (cid_prefix v) d = Some v) then Ok d else Err ECorrupt, s)
    end
  end.

Definition blocks_put (c : CidOf bytes) (d : bytes) : M Blocks unit := fun s =>
  (Ok tt, (c, d) :: s).

#[global] Instance mem_blockstore : Blockstore Blocks :=
  {| bs_get := blocks_get; bs_put := blocks_put; bs_ctx := ret tt |}.

Definition blocks_has (s : Blocks) (c : CidOf bytes) (d : bytes) : Prop :=
  find_block s c = Some d /\ addresses c d.

(** Every stored block is what its CID names. *)
Definition blocks_sound (s : Blocks) : Prop := forall c d, find_block s c = Some d -> addresses c d.

Lemma id_addresses_inj c a b : addresses (MH := id_multihash) c a -> addresses c b -> a = b.
Proof.
  unfold addresses. cbn. unfold id_sum. case_bool_decide; [|done]. congruence.
Qed.

Lemma blocks_get_same c (s : Blocks) r s' : blocks_get c s = (r, s') -> s' = s.
Proof. unfold blocks_get. destruct c; [destruct (find_block s _)|]; by intros [= _ <-]. Qed.

Lemma blocks_put_has c x (s : Blocks) v d :
  addresses c x -> blocks_has s v d -> blocks_has ((c, x) :: s) v d.
Proof.
  intros Hx [Hf Ha]. split; [|done]. cbn. case_decide as E; [|done]. subst v. f_equal. by eapply id_addresses_inj.
Qed.

#[global] Program Instance mem_blockstore_ok : BlockstoreOk Blocks :=
  {| bs_has := blocks_has; bs_live := blocks_sound |}.
Next Obligation.
  intros c s d s' H. pose proof (blocks_get_same _ _ _ _ H) as ->. cbn in H. unfold blocks_get in H.
  destruct c as [v|]; [|done]. destruct (find_block s v) as [d'|] eqn:E; [|done].
  case_decide as Ha; [|done]. injection H as <-. exists v. done.
Qed.
Next Obligation. intros c s r s' H. by pose proof (blocks_get_same _ _ _ _ H) as ->. Qed.
Next Obligation.
  intros c x s r s' [= <- <-] Ha. split; [intros v d; by apply blocks_put_has|].
  intros Hs v d. cbn. case_decide; [|apply Hs]. intros [= <-]. by subst.
Qed.
Next Obligation. by intros s r s' [= <- <-]. Qed.
Next Obligation. intros c x s s' [= <-] Ha. split; [|done]. cbn. by rewrite decide_True. Qed.
Next Obligation.
  intros v d s Hl [Hf Ha]. cbn. unfold blocks_get. rewrite Hf. by rewrite decide_True.
Qed.
Next Obligation. done. Qed.
Next Obligation. done. Qed.
Next Obligation.
  intros c s e s' H. cbn in H. unfold blocks_get in H. destruct c as [v|]; [|injection H as <- <-; auto].
  destruct (find_block s v); [|injection H as <- <-; auto]. case_decide; simplify_eq. auto.
Qed.
Next Obligation. done. Qed.
Next Obligation. done. Qed.

(** ** A list LRU *)

Section ListLru.
Context {K V : Type} `{EqDecision K}.

(** The live items: the newest binding of every key. *)
Fixpoint llru_items (l : list (K * V)) : list (K * V) :=
  match l with
  | [] => []
  | e :: l' => e :: filter (fun x => fst x <> fst e) (llru_items l')
  end.

Definition llru_peek (k : K) (l : list (K * V)) : option V :=
  snd <$> (snd <$> list_find (fun e => fst e = k) (llru_items l)).

Definition llru_get (k : K) (l : list (K * V)) : option V * list (K * V) :=
  match llru_peek k l with
  | Some v => (Some v, (k, v) :: l)
  | None => (None, l)
  end.

Definition llru_removeOldest (l : list (K * V)) : option (K * V) * list (K * V) :=
  match last (llru_items l) with
  | None => (None, l)
  | Some e => (Some e, take (length (llru_items l) - 1) (llru_items l))
  end.

Lemma llru_nodup l : NoDup (fst <$> llru_items l).
Proof.
  induction l as [|e l IH]; simpl; constructor.
  - rewrite list_elem_of_fmap. intros (x & Hx & [Hn _]%list_elem_of_filter). congruence.
  - eapply (sublist_NoDup _ (fst <$> llru_items l)); [exact IH|]. apply fmap_sublist, sublist_filter.
Qed.

Lemma llru_items_id l : NoDup (fst <$> l) -> llru_items l = l.
Proof.
  induction l as [|e l IH]; [done|]. simpl. intros [Hn Hd]%NoDup_cons. rewrite IH by done. f_equal.
  apply filter_all. apply Forall_forall. intros x Hx E. apply Hn. rewrite <- E. by apply list_elem_of_fmap_2.
Qed.

Lemma llru_peek_elem k l v : llru_peek k l = Some v <-> (k, v) ∈ llru_items l.
Proof.
  unfold llru_peek. split.
  - intros ([k' v'] & ([i e] & (Hi & Hk & _)%list_find_Some & E)%fmap_Some & E2)%fmap_Some. simpl in *. subst e v k.
    by eapply list_elem_of_lookup_2.
  - intros Hin. destruct (list_find_elem_of (fun e => fst e = k) (llru_items l) (k, v)) as [[i [k' v']] E]; [done..|].
    rewrite E. apply list_find_Some in E as (Hi & Hk & _). simpl in *. subst k'. f_equal.
    apply list_elem_of_lookup_1 in Hin as [j Hj]. pose proof (llru_nodup l) as Hnd.
    assert (i = j) as ->.
    { eapply (NoDup_lookup (fst <$> llru_items l)); [done|by rewrite list_lookup_fmap, Hi|by rewrite list_lookup_fmap, Hj]. }
    congruence.
Qed.

Lemma take_last_perm {A} (l : list A) e : last l = Some e -> l ≡ₚ e :: take (length l - 1) l.
Proof.
  intros (l' & ->)%last_Some. rewrite length_app, Nat.add_sub, take_app_length. symmetry. apply Permutation_cons_append.
Qed.
End ListLru.

#[global] Program Instance list_lru {K V} `{EqDecision K} : Lru K V (list (K * V)) :=
  {| lru_items := llru_items; lru_get := llru_get; lru_peek := llru_peek;
     lru_add := fun k v l => (k, v) :: l; lru_removeOldest := llru_removeOldest;
     lru_purge := fun _ => []; lru_len := fun l => length (llru_items l) |}.
Next Obligation.
  intros K V EqK k l v l' H. unfold llru_get in H. destruct (llru_peek k l) as [x|] eqn:E; injection H as <- <-.
  2: { done. }
  apply llru_peek_elem in E as Hin. split; [|by intros ? [= <-]]. simpl.
  apply NoDup_Permutation.
  - apply (NoDup_fmap_1 fst). exact (llru_nodup ((k, x) :: l)).
  - apply (NoDup_fmap_1 fst), llru_nodup.
  - intros [k' y]. rewrite elem_of_cons, list_elem_of_filter. simpl. split.
    + intros [[= -> ->]|[_ ?]]; done.
    + intros Hy. destruct (decide (k' = k)) as [->|]; [|by right]. left.
      apply llru_peek_elem in Hy. congruence.
Qed.
Next Obligation. intros. apply llru_peek_elem. Qed.
Next Obligation. intros. simpl. rewrite elem_of_cons, list_elem_of_filter. tauto. Qed.
Next Obligation. intros. exact (llru_nodup ((k, v) :: l)). Qed.
Next Obligation.
  intros K V EqK l o l' H. unfold llru_removeOldest in H. destruct (last (llru_items l)) as [e|] eqn:E; injection H as <- <-.
  - rewrite (llru_items_id (take _ _)); [by apply take_last_perm|].
    rewrite fmap_take. eapply sublist_NoDup; [exact (llru_nodup l)|apply sublist_take].
  - by apply last_None in E.
Qed.
Next Obligation. done. Qed.
Next Obligation. done. Qed.
