(* ===== verification/StoreInstances.v ===== *)
(** Concrete instances of the storage interfaces: an in-memory block store keyed
    by multihash and an in-memory ordered key-value store.  They show that the
    laws of [BaseStoreOk], [CidBytes] and [PebbleOk] can hold and make the
    witnesses of the storage theorems run. *)
From Stdlib Require Strings.Byte.
From S2P Require Import Prelude Cid Schema Core Instances Store Ledger.

(** ** Blocks by multihash *)

Abbreviation MemBase := (gmap (MhDigest bytes) bytes).

Definition mem_get (c : CidOf bytes) : M MemBase bytes :=
  fun b => (match b !! cidHash c with Some d => Ok d | None => Err ENotFound end, b).
Definition mem_getSize (c : CidOf bytes) : M MemBase Z :=
  fun b => (match b !! cidHash c with Some d => Ok (len d) | None => Err ENotFound end, b).
Definition mem_putMany (l : list (CidOf bytes * bytes)) : M MemBase unit :=
  fun b => (Ok tt, foldl (fun b '(c, d) => <[cidHash c := d]> b) b l).

#[global] Instance mem_base : BaseStore MemBase := {|
  base_get := mem_get;
  base_has := fun c b => (Ok (bool_decide (is_Some (b !! cidHash c))), b);
  base_getSize := mem_getSize;
  base_put := fun c d b => (Ok tt, <[cidHash c := d]> b);
  base_putMany := mem_putMany;
  base_delete := fun c b => (Ok tt, delete (cidHash c) b);
  base_ctx := ret tt;
  key_bytes := fun k => mhDigest k |}.

Lemma putMany_lookup (l : list (CidOf bytes * bytes)) (b : MemBase) k :
  let b' := foldl (fun b '(c, d) => <[cidHash c := d]> b) b l in
  (k ∉ (cidHash ∘ fst) <$> l -> b' !! k = b !! k) /\
  (k ∈ (cidHash ∘ fst) <$> l -> exists c d, (c, d) ∈ l /\ cidHash c = k /\ b' !! k = Some d).
Proof.
  induction l as [|[c d] l IH] using rev_ind; [split; [done|by intros ?%not_elem_of_nil]|].
  cbn. rewrite foldl_snoc, fmap_app. cbn. destruct (decide (cidHash c = k)) as [<-|Hne].
  - split; [intros Hn; exfalso; apply Hn, elem_of_app; right; by left|]. intros _. exists c, d.
    split; [apply elem_of_app; right; by left|]. split; [done|apply lookup_insert_eq].
  - rewrite lookup_insert_ne by done. destruct IH as [IH1 IH2]. split.
    + intros Hn. apply IH1. intros Hin. apply Hn, elem_of_app. by left.
    + intros [Hin|Hin]%elem_of_app; [|by apply list_elem_of_singleton in Hin as ->].
      destruct (IH2 Hin) as (c' & d' & ? & ? & ?). exists c', d'. split; [apply elem_of_app; by left|done].
Qed.

#[global] Program Instance mem_base_ok : BaseStoreOk MemBase := {|
  stored := fun b k => b !! k; base_live := fun _ => True |}.
Next Obligation.
  intros c b r b' [= <- <-]. split; [done|]. case_match eqn:E; case_match eqn:E'; simplify_eq; [exact E'|].
  right. right. split; [done|exact E'].
Qed.
Next Obligation. by intros c b r b' [= <- <-]. Qed.
Next Obligation.
  intros c b r b' [= <- <-]. split; [done|]. case_match eqn:E; case_match eqn:E'; simplify_eq.
  - eexists. split; [exact E'|done].
  - right. right. split; [done|exact E'].
Qed.
Next Obligation.
  intros c d b r b' [= <- <-]. split; [intros; by apply lookup_insert_ne|apply lookup_insert_eq].
Qed.
Next Obligation.
  intros l b r b' [= <- <-]. split; [intros k Hk; by apply putMany_lookup|]. split; [|done].
  intros k Hk. left. by apply (putMany_lookup l b k).
Qed.
Next Obligation.
  intros c b r b' [= <- <-]. split; [intros; by apply lookup_delete_ne|apply lookup_delete_eq].
Qed.
Next Obligation. intros b r b' [= <- <-]. auto. Qed.
Next Obligation. intros c b d _ H. cbn in *. by rewrite H. Qed.
Next Obligation. done. Qed.
Next Obligation. done. Qed.
Next Obligation. done. Qed.
Next Obligation. done. Qed.

(** ** CIDs as bytes *)

Definition cast_cid (b : bytes) : option (CidOf bytes) :=
  match de_cid b with Some (c, []) => Some c | _ => None end.
Lemma cast_ser_cid c : cast_cid (ser_cid c) = Some c.
Proof. unfold cast_cid. pose proof (de_ser_cid c []) as H. rewrite app_nil_r in H. by rewrite H. Qed.

Lemma ser_cid_nonempty c : ser_cid c <> [].
Proof. intros E. pose proof (cast_ser_cid c) as H. rewrite E in H. discriminate H. Qed.

#[global] Instance ser_cidbytes : CidBytes :=
  {| cid_bytes := ser_cid; cid_cast := cast_cid; cast_bytes := cast_ser_cid; cid_bytes_nonempty := ser_cid_nonempty |}.

(** ** The ordered store *)

Abbreviation MemKV := (gmap bytes bytes).

Definition row_le (a b : bytes * bytes) : Prop := bytes_ltb (fst b) (fst a) = false.
#[global] Instance row_le_dec : RelDecision row_le.
Proof. intros a b. unfold row_le. apply _. Defined.
#[global] Instance row_le_total : Total row_le.
Proof.
  intros a b. unfold row_le. destruct (bytes_ltb (fst b) (fst a)) eqn:E; [right|by left].
  destruct (bytes_ltb (fst a) (fst b)) eqn:E2; [|done]. pose proof (bytes_ltb_trans _ _ _ E E2) as H.
  by rewrite bytes_ltb_irrefl in H.
Qed.
#[global] Instance row_le_trans : Transitive row_le.
Proof.
  intros a b c Hab Hbc. unfold row_le in *. destruct (bytes_ltb (fst c) (fst a)) eqn:E; [|done].
  destruct (bytes_ltb_total (fst b) (fst c)) as [H|[H|H]]; [|congruence..].
  rewrite (bytes_ltb_trans _ _ _ H E) in Hab. done.
Qed.

Definition mem_scan (lo : bytes) (hi : option bytes) (m : MemKV) : list (bytes * bytes) :=
  merge_sort row_le (filter (fun x => in_range lo hi (fst x) = true) (map_to_list m)).

#[global] Instance mem_pebble : Pebble MemKV := {|
  kv_get := fun k m => (Ok (m !! k), m);
  kv_set := fun k v m => (Ok tt, <[k := v]> m);
  kv_delete := fun k m => (Ok tt, delete k m);
  kv_deleteRange := fun lo hi m => (Ok tt, filter (fun x => in_range lo hi (fst x) = false) m);
  kv_commit := fun l m => (Ok tt, kv_applys l m);
  kv_scan := fun lo hi m => (Ok (mem_scan lo hi m, None), m);
  kv_ctx := ret tt |}.

Lemma mem_scan_elem lo hi m k v : (k, v) ∈ mem_scan lo hi m <-> m !! k = Some v /\ in_range lo hi k = true.
Proof.
  unfold mem_scan. rewrite merge_sort_Permutation, list_elem_of_filter, elem_of_map_to_list. simpl. tauto.
Qed.

Lemma sorted_strict (l : list (bytes * bytes)) :
  StronglySorted row_le l -> NoDup l.*1 -> StronglySorted bytes_lt l.*1.
Proof.
  induction 1 as [|x l _ IH Hall]; intros Hnd; [constructor|]. simpl in *. apply NoDup_cons in Hnd as [Hn Hnd].
  constructor; [by apply IH|]. apply Forall_fmap, Forall_forall. intros y Hy. rewrite Forall_forall in Hall.
  specialize (Hall y Hy). unfold row_le in Hall. simpl. unfold bytes_lt.
  destruct (bytes_ltb_total (fst x) (fst y)) as [H|[H|H]]; [done| |congruence].
  exfalso. apply Hn. rewrite H. by apply list_elem_of_fmap_2.
Qed.

Lemma mem_scan_sorted lo hi m : StronglySorted bytes_lt (mem_scan lo hi m).*1.
Proof.
  apply sorted_strict.
  - apply Sorted_StronglySorted; [apply _|]. apply Sorted_merge_sort. apply _.
  - unfold mem_scan. rewrite merge_sort_Permutation. eapply sublist_NoDup; [apply (NoDup_fst_map_to_list m)|].
    apply fmap_sublist, sublist_filter.
Qed.

#[global] Program Instance mem_pebble_ok : PebbleOk MemKV := {| kv := fun m => m; kv_live := fun _ => True |}.
Next Obligation. by intros k s r s' [= <- <-]. Qed.
Next Obligation. by intros k v s r s' [= <- <-]. Qed.
Next Obligation. by intros k s r s' [= <- <-]. Qed.
Next Obligation. by intros lo hi s r s' [= <- <-]. Qed.
Next Obligation. by intros l s r s' [= <- <-]. Qed.
Next Obligation.
  intros lo hi s r s' [= <- <-]. split; [done|]. split; [apply mem_scan_sorted|apply mem_scan_elem].
Qed.
Next Obligation. intros s r s' [= <- <-]. auto. Qed.
Next Obligation. intros s _. do 5 (split; [done|]). intros lo hi. by eexists _, _. Qed.
Next Obligation. done. Qed.
