(* ===== verification/Demo.v ===== *)
(** A small head on the concrete instances.

    Origin slot 5, two slots per window, two children per directory page; one
    batch up to slot 8 and a second up to slot 11, so that windows seal, the
    directory grows by a level, and the truncations cut inside and at the end of
    a window.  The witnesses of the theorems evaluate here. *)
From Stdlib Require Strings.Byte.
From S2P Require Import Prelude Arith Cid Schema Core Engine EngineWorld Dir HeadModel Lookup Apply ApplyCorrect Truncate Lifecycle Instances.

Abbreviation DemoLru := (list (CidV * (AnyNode * Z))).
Abbreviation DemoEngine := (@Engine id_multihash Blocks DemoLru).

Definition vhOf (b : byte) : VersionedHash := mkVH (repeat b 32) eq_refl.
Definition rawCid (d : bytes) : CidV := mkCid 1 cid_Raw (mkMh SHA2_256 32 d).
Definition demoBlob (b : byte) : Cid := Some (rawCid [b]).

Definition demoResolve (vh : VersionedHash) : res (Cid * bool) :=
  Ok (Some (rawCid (take 1 (vh_bytes vh))), true).
Definition demoCfg : @Config id_multihash Blocks := mkConfig (Some demoResolve) None.
Definition demoParams : Params := mkParams "all" "mainnet" 5 1 1.
Definition demoBlocks : Blocks := map (fun b => (rawCid [b], [b])) [Byte.x01; Byte.x02; Byte.x03].
Definition demoFresh : DemoEngine :=
  mkEngine demoBlocks (Some (NodeCache.mkCache [] 100000 0)) ∅ (emptyState demoParams) None stats0 None 0.

Definition demoRows1 : list RefRow :=
  [mkRefRow 5 [vhOf Byte.x01]; mkRefRow 7 [vhOf Byte.x02; vhOf Byte.x03]].
Definition demoRows2 : list RefRow := [mkRefRow 10 [vhOf Byte.x01]].

Definition demoRun1 : res unit * DemoEngine := (New demoParams ;;; applyAll demoCfg [(demoRows1, 8)]) demoFresh.
Definition demo1 : DemoEngine := snd demoRun1.
Definition demoRun2 : res ApplyResult * DemoEngine := ApplyRefs demoCfg demoRows2 11 demo1.
Definition demo2 : DemoEngine := snd demoRun2.

#[global] Strategy expand [demoRun1 demoRun2].

(** The row a batch row stands for under the demo resolver. *)
Definition demoRow (r : RefRow) : Row :=
  mkRow (rr_Slot r) ((fun vh => mkRef vh (Some (rawCid (take 1 (vh_bytes vh))))) <$> VHs r).
Definition demoModel1 : hmodel := mkModel demoParams (Some 8) (demoRow <$> demoRows1).
Definition demoModel2 : hmodel := extended demoModel1 (demoRow <$> demoRows2) 11.

Lemma demo_names rows : Forall2 (names demoResolve) rows (demoRow <$> rows).
Proof.
  induction rows as [|r rows IH]; simpl; constructor; [|exact IH]. split; [done|]. simpl.
  induction (VHs r) as [|vh vhs IHv]; simpl; constructor; [done|exact IHv].
Qed.

Lemma demo_resolver : resolver_ok demoCfg.
Proof. intros resolve vh e [= <-] [=]. Qed.

Lemma demo_fresh_inv : engine_inv demoFresh.
Proof. split; [|by intros c a n ?%not_elem_of_nil]. split; [done|constructor|constructor|done]. Qed.

Lemma demo_params_u64 : params_u64 demoParams.
Proof. split; [done|]. split; [done|]. by split. Qed.

Lemma demo_run1_ok : fst demoRun1 = Ok tt.
Proof. vm_compute. reflexivity. Qed.
Lemma demo_run1 : demoRun1 = (Ok tt, demo1).
Proof. rewrite <- demo_run1_ok. apply surjective_pairing. Qed.

Lemma demo_represents1 : represents demo1 demoModel1.
Proof.
  pose proof demo_run1 as E. unfold demoRun1 in E. generalize dependent demo1. intros h' E.
  apply bind_run_ok in E as ([] & h0 & Hn & H).
  apply New_run in Hn; [|apply demo_params_u64|apply demo_fresh_inv].
  apply (applyAll_run demoCfg demoResolve (empty_head demoParams)) in H as (new & Hf & Hrep);
    [|done|apply demo_resolver|done|done].
  assert (new = demoRow <$> demoRows1) as ->; [|done].
  eapply names_unique; [exact Hf|]. exact (demo_names demoRows1).
Qed.

Lemma demo_run2_ok : match fst demoRun2 with Ok a => negb (ar_NoOp a) | Err _ => false end = true.
Proof. vm_compute. reflexivity. Qed.
Lemma demo_run2 : exists a, demoRun2 = (Ok a, demo2) /\ ar_NoOp a = false.
Proof.
  pose proof demo_run2_ok as E. destruct (fst demoRun2) as [a|e] eqn:Ef; [|done].
  exists a. split; [rewrite <- Ef; apply surjective_pairing|]. by destruct (ar_NoOp a).
Qed.

Lemma demo_represents2 : represents demo2 demoModel2.
Proof.
  destruct demo_run2 as (a & Ha & Hno). unfold demoRun2 in Ha. generalize dependent demo2. intros h' Ha.
  apply (ApplyRefs_run demoCfg demoModel1) in Ha; [|apply demo_represents1|apply demo_resolver|done].
  destruct Ha as [(_ & _ & s & _ & _ & ->)|(resolve & new & [= <-] & _ & Hf & Hrep & _)]; [done|].
  assert (new = demoRow <$> demoRows2) as ->; [|done].
  eapply names_unique; [by eapply row_of_names|apply demo_names].
Qed.
