(* ===== verification/Witnesses.v ===== *)
(** The archive engine's theorems at work: each lemma applies a theorem of the
    development to the demo head, with its hypotheses discharged there. *)
From Stdlib Require Strings.Byte.
From S2P Require Import Prelude Arith Cid Schema Core Engine EngineWorld Dir HeadModel Lookup Apply ApplyCorrect Truncate Lifecycle Enumerate EnumerateCorrect Instances Demo.

(** Names the result and the final engine of a run in the goal. *)
Ltac name_run m r h' E := destruct m as [r h'] eqn:E; exists r, h'; split; [reflexivity|].

Definition ok_with {W A} (P : A -> bool) (x : res A * W) : bool :=
  match fst x with Ok a => P a | Err _ => false end.

Lemma ok_run {W A} (x : res A * W) P : ok_with P x = true -> exists a w, x = (Ok a, w) /\ P a = true.
Proof. destruct x as [[a|e] w]; [eauto|discriminate]. Qed.

Lemma ApplyRefs_refines_witness :
  exists r h', ApplyRefs demoCfg demoRows2 11 demo1 = (r, h') /\
    apply_spec demoCfg demoModel1 demoRows2 11 h' r.
Proof.
  name_run (ApplyRefs demoCfg demoRows2 11 demo1) r h' E.
  apply (ApplyRefs_refines demoCfg demoModel1 demoRows2 11 demo1);
    [apply demo_represents1|apply demo_resolver|reflexivity|exact E].
Defined.

Lemma demo_replay_ok : ok_with ar_NoOp (ApplyRefs demoCfg demoRows1 8 demo1) = true.
Proof. vm_compute. reflexivity. Qed.

Lemma demo_shape1 : shape_ok 5 8 demoRows1.
Proof.
  split; unfold demoRows1.
  - apply SSorted_cons; [apply SSorted_cons; [apply SSorted_nil|apply Forall_nil_2]|]. apply Forall_cons_2; [reflexivity|apply Forall_nil_2].
  - apply Forall_cons_2; [by vm_compute|]. apply Forall_cons_2; [by vm_compute|apply Forall_nil_2].
Qed.

(** The first batch again: a no-op that reports the published root. *)
Lemma ApplyRefs_replay_witness :
  exists a h', ApplyRefs demoCfg demoRows1 8 demo1 = (Ok a, h') /\
    represents h' demoModel1 /\ replays demoModel1 demoRows1 /\ ar_SyncedTo a = 8.
Proof.
  destruct (ok_run _ _ demo_replay_ok) as (a & h' & E & _). exists a, h'. split; [exact E|].
  assert (Hle : 5 <= 8 <= 8) by lia.
  destruct (ApplyRefs_replay demoCfg demoModel1 8 demoRows1 8 demo1 (Ok a) h' demo_represents1 eq_refl Hle demo_shape1 E)
    as (Hr & Hp & Ha).
  split; [exact Hr|]. split; [exact Hp|]. exact (f_equal ar_SyncedTo Ha).
Defined.

Lemma demo_extend_ok : ok_with (fun a => negb (ar_NoOp a)) (ApplyRefs demoCfg demoRows2 11 demo1) = true.
Proof. vm_compute. reflexivity. Qed.

(** The second batch twice: the second time it is a no-op with the same root. *)
Lemma ApplyRefs_idempotent_witness :
  exists a h1 r h2, ApplyRefs demoCfg demoRows2 11 demo1 = (Ok a, h1) /\
    ApplyRefs demoCfg demoRows2 11 h1 = (r, h2) /\ cur h2 = cur h1 /\
    match r with
    | Ok a2 => ar_NoOp a2 = true /\ ar_Root a2 = ar_Root a /\ ar_SyncedTo a2 = 11
    | Err e => store_err e
    end.
Proof.
  destruct (ok_run _ _ demo_extend_ok) as (a & h1 & E & Hno). apply negb_true_iff in Hno.
  destruct (ApplyRefs demoCfg demoRows2 11 h1) as [r h2] eqn:E2. exists a, h1, r, h2. split; [exact E|]. split; [exact E2|].
  assert (Hlt : 11 < maxUint64) by reflexivity.
  exact (ApplyRefs_idempotent demoCfg demoModel1 demoRows2 11 demo1 h1 h2 a r demo_represents1 demo_resolver Hlt E Hno E2).
Defined.

Lemma Lookup_correct_witness :
  r_Entries (spec_lookup demoModel2 7)
  = [mkRef (vhOf Byte.x02) (demoBlob Byte.x02); mkRef (vhOf Byte.x03) (demoBlob Byte.x03)] /\
  exists r h', Lookup 7 demo2 = (r, h') /\ represents h' demoModel2 /\
    match r with Ok res => res = spec_lookup demoModel2 7 | Err e => store_err e end.
Proof.
  split; [reflexivity|]. name_run (Lookup 7 demo2) r h' E.
  apply (Lookup_correct demoModel2 7 demo2 r h'); [apply demo_represents2|lia|exact E].
Defined.

Lemma LookupVHs_correct_witness :
  exists r h', LookupVHs 7 [vhOf Byte.x03; vhOf Byte.x01] demo2 = (r, h') /\ represents h' demoModel2 /\
    match r with Ok res => res = spec_lookupVHs demoModel2 7 [vhOf Byte.x03; vhOf Byte.x01] | Err e => store_err e end.
Proof.
  name_run (LookupVHs 7 [vhOf Byte.x03; vhOf Byte.x01] demo2) r h' E.
  assert (H7 : 0 <= 7) by lia. exact (LookupVHs_correct demoModel2 7 _ demo2 r h' demo_represents2 H7 E).
Defined.

(** A cut inside a sealed window. *)
Lemma Truncate_refines_witness :
  exists r h', Truncate 7 demo2 = (r, h') /\
  match r with
  | Ok c => represents h' (truncated demoModel2 7) /\ c = model_root (truncated demoModel2 7) /\
            exists s, m_synced demoModel2 = Some s /\ 5 <= 7 <= s
  | Err e => represents h' demoModel2 /\ external e
  end.
Proof.
  name_run (Truncate 7 demo2) r h' E. exact (Truncate_refines demoModel2 7 demo2 r h' demo_represents2 E).
Defined.

Lemma demo_retain_ok : ok_with (fun _ => true) (TruncateRetainingWindow 8 1 demo2) = true.
Proof. vm_compute. reflexivity. Qed.

Lemma TruncateRetainingWindow_touches_witness :
  exists c h', TruncateRetainingWindow 8 1 demo2 = (Ok c, h') /\ represents h' (truncated demoModel2 8) /\
    Forall (fun x => let w := ord (Slot x) 1 in
       (w = ord 8 1 -> row_touched false h' x) /\
       (retainedFrom (truncated demoModel2 8) 1 <= w < retainedFrom demoModel2 1 -> row_touched true h' x))
      (m_rows (truncated demoModel2 8)).
Proof.
  destruct (ok_run _ _ demo_retain_ok) as (c & h' & E & _). exists c, h'. split; [exact E|].
  assert (H1 : 0 <= 1) by lia. exact (TruncateRetainingWindow_touches demoModel2 8 1 demo2 c h' demo_represents2 H1 E).
Defined.

Lemma demo_build_ok : ok_with (fun _ => true) (BuildGeneration demoCfg demoParams (demoRows1 ++ demoRows2) 11 demoFresh) = true.
Proof. vm_compute. reflexivity. Qed.
Lemma demo_all_ok :
  ok_with (fun _ => true) ((New demoParams ;;; applyAll demoCfg ([(demoRows1, 8)] ++ [(demoRows2, 11)])) demoFresh) = true.
Proof. vm_compute. reflexivity. Qed.

Lemma demo_advancing : advancing 5 ([(demoRows1, 8)] ++ [(demoRows2, 11)]).
Proof. cbn [app advancing]. unfold maxUint64. lia. Qed.

(** Two batches and one build publish the same state. *)
Lemma incremental_equals_build_witness :
  exists h1' h2', (New demoParams ;;; applyAll demoCfg ([(demoRows1, 8)] ++ [(demoRows2, 11)])) demoFresh = (Ok tt, h1') /\
    BuildGeneration demoCfg demoParams (demoRows1 ++ demoRows2) 11 demoFresh = (Ok tt, h2') /\ cur h1' = cur h2'.
Proof.
  destruct (ok_run _ _ demo_all_ok) as ([] & h1' & E1 & _). destruct (ok_run _ _ demo_build_ok) as ([] & h2' & E2 & _).
  exists h1', h2'. split; [exact E1|]. split; [exact E2|].
  exact (incremental_equals_build demoCfg demoParams [(demoRows1, 8)] demoRows2 11 demoFresh demoFresh h1' h2'
           demo_params_u64 demo_resolver demo_fresh_inv demo_fresh_inv demo_advancing E1 E2).
Defined.

Lemma demo_cut_ok : ok_with (fun _ => true) (Truncate 8 demo2) = true.
Proof. vm_compute. reflexivity. Qed.
Lemma demo_build1_ok : ok_with (fun _ => true) (BuildGeneration demoCfg demoParams demoRows1 8 demoFresh) = true.
Proof. vm_compute. reflexivity. Qed.

(** Cutting the second batch off again gives the build of the first. *)
Lemma truncate_equals_build_witness :
  exists c h' h2', Truncate 8 demo2 = (Ok c, h') /\
    BuildGeneration demoCfg demoParams demoRows1 8 demoFresh = (Ok tt, h2') /\ c = Root h2' /\ cur h' = cur h2'.
Proof.
  destruct (ok_run _ _ demo_cut_ok) as (c & h' & E1 & _). destruct (ok_run _ _ demo_build1_ok) as ([] & h2' & E2 & _).
  exists c, h', h2'. split; [exact E1|]. split; [exact E2|].
  assert (Hn : Forall2 (names demoResolve) demoRows1 (cut 8 (m_rows demoModel2))) by exact (demo_names demoRows1).
  exact (truncate_equals_build demoCfg demoModel2 demoRows1 8 demo2 h' demoFresh h2' c demoResolve
           demo_represents2 demo_resolver demo_fresh_inv eq_refl Hn E1 E2).
Defined.

(** A fresh engine over the blocks of the demo head loads its root. *)
Definition demoReader : DemoEngine :=
  mkEngine (blocks demo2) (Some (NodeCache.mkCache [] 100000 0)) ∅ (emptyState demoParams) None stats0 None 0.
Lemma demo_reader_inv : engine_inv demoReader.
Proof. split; [|by intros c a n ?%not_elem_of_nil]. split; [done|constructor|constructor|done]. Qed.
Lemma demo_load_ok : ok_with (fun _ => true) (Load (Root demo2) demoReader) = true.
Proof. vm_compute. reflexivity. Qed.

Lemma Load_published_witness :
  exists h', Load (Root demo2) demoReader = (Ok tt, h') /\ represents h' demoModel2 /\ cur h' = cur demo2.
Proof.
  destruct (ok_run _ _ demo_load_ok) as ([] & h' & E & _). exists h'. split; [exact E|].
  exact (Load_published demoModel2 demo2 demoReader (Ok tt) h' demo_represents2 demo_reader_inv E).
Defined.

Lemma demo_empty_ok : ok_with (fun _ => true) (TruncateToEmpty demo2) = true.
Proof. vm_compute. reflexivity. Qed.
Lemma demo_new_ok : ok_with (fun _ => true) (New demoParams demoFresh) = true.
Proof. vm_compute. reflexivity. Qed.

Lemma TruncateToEmpty_is_New_witness :
  exists c h' h1', TruncateToEmpty demo2 = (Ok c, h') /\ New demoParams demoFresh = (Ok tt, h1') /\
    cur h' = cur h1' /\ c = Root h1'.
Proof.
  destruct (ok_run _ _ demo_empty_ok) as (c & h' & E1 & _). destruct (ok_run _ _ demo_new_ok) as ([] & h1' & E2 & _).
  exists c, h', h1'. split; [exact E1|]. split; [exact E2|].
  exact (TruncateToEmpty_is_New demoModel2 demo2 demoFresh h1' h' c demo_represents2 demo_fresh_inv E1 E2).
Defined.

(** Enumeration of the demo head by an engine without caches. *)
Definition demoWalker : DemoEngine := mkEngine (blocks demo2) None ∅ (cur demo2) None stats0 None 0.
Lemma demo_walker : represents demoWalker demoModel2.
Proof. destruct demo_represents2 as [Hc _ Hok]. split; [exact Hc|exact I|exact Hok]. Qed.
Lemma demo_walker_cache : cache_sound demoWalker.
Proof. intros c cp H. exfalso. change ((∅ : gmap CidV cachedSegmentProof) !! c = Some cp) in H. by rewrite lookup_empty in H. Qed.
Lemma demo_walker_live : cache_live (collectionGeneration demoCfg demoWalker) demoWalker.
Proof. intros c cp H. exfalso. change ((∅ : gmap CidV cachedSegmentProof) !! c = Some cp) in H. by rewrite lookup_empty in H. Qed.
Lemma demo_walker_state : state_ok (cur demoWalker).
Proof. exact (represents_state_ok demoWalker demoModel2 11 demo_walker eq_refl). Qed.
Lemma demo_enumerate_ok :
  ok_with (fun e => (len (en_Sealed e) =? 3) && (len (en_DirPages e) =? 3)) (Enumerate demoCfg demoWalker) = true.
Proof. vm_compute. reflexivity. Qed.

(** Three non-empty sealed windows (and an empty one) under three pages. *)
Lemma Enumerate_sound_witness :
  exists e h', Enumerate demoCfg demoWalker = (Ok e, h') /\
    (len (en_Sealed e) =? 3) && (len (en_DirPages e) =? 3) = true /\
    cache_sound h' /\ cur h' = cur demoWalker /\ keeps demoWalker h' /\
    en_Params e = params (cur demoWalker) /\ en_Root e = root (cur demoWalker) /\ en_Covered e = covered (cur demoWalker) /\
    en_SyncedTo e = syncedTo (cur demoWalker) /\
    if covered (cur demoWalker)
    then (exists es, listed (cur demoWalker) e es) /\ cache_live (collectionGeneration demoCfg h') h' /\ admitted (cur demoWalker) h' e
    else en_DirPages e = [] /\ en_Sealed e = [] /\ en_Open e = None.
Proof.
  destruct (ok_run _ _ demo_enumerate_ok) as (e & h' & E & Hn). exists e, h'. split; [exact E|]. split; [exact Hn|].
  exact (Enumerate_sound demoCfg demoWalker e h' demo_walker_state demo_walker_cache demo_walker_live E).
Defined.

Lemma Enumerate_canonical_witness :
  exists e h', Enumerate demoCfg demoWalker = (Ok e, h') /\
    en_Sealed e = sealed_of (cur demoWalker) 0 (canon_entries demoParams 11 (m_rows demoModel2)) /\
    en_Open e = seg_cid (segOf 1 (m_rows demoModel2) (openWin demoParams 11)) /\
    en_OpenOrd e = openWin demoParams 11 /\ en_SyncedTo e = 11.
Proof.
  destruct (ok_run _ _ demo_enumerate_ok) as (e & h' & E & _). exists e, h'. split; [exact E|].
  exact (Enumerate_canonical demoCfg demoModel2 11 demoWalker e h' demo_walker eq_refl demo_walker_cache E).
Defined.
