(* ===== verification/StoreWitnesses.v ===== *)
(** The storage and retention theorems at work: each lemma applies a theorem of
    the development to concrete blocks, pins and heads. *)
From Stdlib Require Strings.Byte.
From S2P Require Import Prelude Arith Cid Schema Core Engine EngineWorld Dir HeadModel Lookup Apply ApplyCorrect Truncate Lifecycle Enumerate EnumerateCorrect Store EpochConcurrency Ledger Policy Reconcile Instances StoreInstances Demo Witnesses.

Lemma run_ok {W} (x : res unit * W) : is_ok (fst x) = true -> x = (Ok tt, snd x).
Proof. by destruct x as [[[]|] w]. Qed.

(** ** The epoch coordinator *)

Abbreviation DemoEpochs := (@BlockstoreEpochs id_multihash MemBase).

Definition blobA : CidV := rawCid [Byte.x01].
Definition blobB : CidV := rawCid [Byte.x02].
Definition demoStore : DemoEpochs :=
  mkEpochs (<[cidHash blobA := [Byte.x01]]> (<[cidHash blobB := [Byte.x02]]> ∅)) ∅ None 0.
Lemma demo_store_inv : epochs_inv demoStore.
Proof. split; [done|apply map_Forall_empty]. Qed.

Definition demoEpochRun := Begin demoStore.
Definition demoEpoch : DemoEpochs := snd demoEpochRun.
Definition demoHandle : BlockstoreEpoch := mkEpoch 0 false 0.
Lemma demo_begin : Begin demoStore = (Ok demoHandle, demoEpoch).
Proof. reflexivity. Qed.
Lemma demo_epoch_inv : epochs_inv demoEpoch.
Proof. exact (do_act_inv ABegin demoStore demo_store_inv). Qed.

(** The collector offers both blobs, the application has read the first. *)
Definition demoActs : list (@act id_multihash) :=
  [ACandidate demoHandle blobB; ACandidate demoHandle blobA; AGet blobB; APut blobA [Byte.x01]].
Definition demoRead := app_Get blobA demoEpoch.
Lemma demo_read_ok : ok_with (fun d => bool_decide (d = [Byte.x01])) demoRead = true.
Proof. vm_compute. reflexivity. Qed.
Lemma demo_acts_allowed :
  Forall (fun x => writes_as (cidHash blobA) [Byte.x01] x /\ spares (cidHash blobA) x /\ stays 0%nat x) demoActs.
Proof. unfold demoActs. repeat (apply Forall_cons_2; [by split_and!|]). apply Forall_nil_2. Qed.

Lemma epoch_protects_touched_witness :
  exists s1, app_Get blobA demoEpoch = (Ok [Byte.x01], s1) /\
    stored (base (do_acts demoActs s1)) (cidHash blobA) = Some [Byte.x01] /\
    forall h c', eh_state h = 0%nat -> cidHash c' = cidHash blobA ->
      DeleteCandidate h c' (do_acts demoActs s1) = (Ok (false, true), do_acts demoActs s1).
Proof.
  destruct (ok_run _ _ demo_read_ok) as (d & s1 & E & Hd%bool_decide_eq_true). subst d. exists s1. split; [exact E|].
  exact (epoch_protects_touched demoEpoch s1 0%nat blobA [Byte.x01] demoActs demo_epoch_inv eq_refl (or_introl E) demo_acts_allowed).
Defined.

Lemma demo_acts_allowed' : Forall (fun x => writes_as (cidHash blobA) [Byte.x01] x /\ spares (cidHash blobA) x)
  (demoActs ++ [AEnd demoHandle; ACandidate demoHandle blobA]).
Proof. unfold demoActs. repeat (apply Forall_cons_2; [by split_and!|]). apply Forall_nil_2. Qed.
Lemma demo_generation s1 : app_Get blobA demoEpoch = (Ok [Byte.x01], s1) ->
  forall pre, pre `prefix_of` demoActs ++ [AEnd demoHandle; ACandidate demoHandle blobA] ->
    CollectionGeneration (do_acts pre s1) = CollectionGeneration s1.
Proof.
  intros E pre Hp. assert (Hs : s1 = snd (app_Get blobA demoEpoch)) by (by rewrite E). subst s1. clear E.
  repeat (destruct pre as [|x pre]; [reflexivity|apply prefix_cons_inv_1 in Hp as Hx; apply prefix_cons_inv_2 in Hp; subst x]).
  apply prefix_nil_inv in Hp as ->. reflexivity.
Qed.

(** The read outlives the epoch it was made in. *)
Lemma generation_presence_witness :
  exists s1, app_Get blobA demoEpoch = (Ok [Byte.x01], s1) /\
    stored (base (do_acts (demoActs ++ [AEnd demoHandle; ACandidate demoHandle blobA]) s1)) (cidHash blobA) = Some [Byte.x01].
Proof.
  destruct (ok_run _ _ demo_read_ok) as (d & s1 & E & Hd%bool_decide_eq_true). subst d. exists s1. split; [exact E|].
  exact (generation_presence demoEpoch s1 blobA [Byte.x01] _ demo_epoch_inv E demo_acts_allowed' (demo_generation s1 E)).
Defined.

Lemma Begin_End_witness :
  active demoStore = None /\ ActiveEpoch demoEpoch <> 0 /\ CollectionGeneration demoEpoch <> CollectionGeneration demoStore /\
  Begin demoEpoch = (Err (EEpochActive (ActiveEpoch demoEpoch)), demoEpoch) /\
  let '(n, h2, s2) := End_ demoHandle demoEpoch in
  active s2 = None /\ base s2 = base demoStore /\ End_ h2 s2 = (n, h2, s2).
Proof. exact (Begin_End demoStore demoHandle demoEpoch demo_begin). Defined.

(** ** Concurrency: a read inside an epoch, its shard still locked *)

Definition demoBlocksOf : gmap (MhDigest (@Digest id_multihash)) bytes := <[cidHash blobA := [Byte.x01]]> ∅.
Definition keyA : MhDigest (@Digest id_multihash) := cidHash blobA.
Definition demoOp : @op id_multihash := @OpRead id_multihash keyA.
Abbreviation CState := (@cstate id_multihash).
Definition st1 : CState := mkC demoBlocksOf (Some 0%nat) 1 ∅ ∅ ∅ ∅.
Definition st2 : CState := set_pc 7 (PEntered demoOp (Some 0%nat)) st1.
Definition st3 : CState := set_pc 7 (PLocking demoOp 0 [shardOf keyA] []) st2.
Definition st4 : CState :=
  set_pc 7 (PLocking demoOp 0 [] [(0%nat, shardOf keyA)]) (set_locks (<[(0%nat, shardOf keyA) := 7%nat]> (c_locks st3)) st3).
Definition st5 : CState := set_pc 7 (PTouch [keyA] 0 [(0%nat, shardOf keyA)]) (keep_all 0 [keyA] st4).

Lemma st5_reachable : reachable demoBlocksOf st5.
Proof.
  assert (H2 : cstep st1 st2) by (apply (C_enter 7 demoOp st1); apply lookup_empty).
  assert (H3 : cstep st2 st3).
  { apply (C_thread 7), (S_epoch 7 st2 demoOp 0); [apply lookup_insert_eq|discriminate]. }
  assert (H4 : cstep st3 st4).
  { apply (C_thread 7), (S_lock 7 st3 demoOp 0); [apply lookup_insert_eq|apply lookup_empty]. }
  assert (H5 : cstep st4 st5).
  { apply (C_thread 7), (S_read_ok 7 st4 keyA 0 [(0%nat, shardOf keyA)] [Byte.x01]); apply lookup_insert_eq. }
  assert (H1 : cstep (cinit demoBlocksOf) st1) by (by apply (@C_begin id_multihash MemBase mem_base (cinit demoBlocksOf))).
  eapply R_step; [|exact H5]. eapply R_step; [|exact H4]. eapply R_step; [|exact H3]. eapply R_step; [|exact H2].
  eapply R_step; [apply R_init|exact H1].
Qed.
Lemma st5_keeps : (0%nat, keyA) ∈ c_keep st5.
Proof. apply elem_keep_all. left. split; [done|by left]. Qed.
Lemma st5_inside : c_pcs st5 <> ∅.
Proof. apply insert_non_empty. Qed.

Lemma touched_never_collected_witness :
  is_Some (c_base st5 !! keyA) /\ forall t held, c_pcs st5 !! t <> Some (PDelete keyA 0 held).
Proof. exact (touched_never_collected demoBlocksOf st5 0%nat keyA st5_reachable eq_refl st5_keeps). Defined.

Lemma locks_no_deadlock_witness : exists t s', is_Some (c_pcs st5 !! t) /\ tstep t st5 s'.
Proof. exact (locks_no_deadlock demoBlocksOf st5 st5_reachable st5_inside). Defined.

Lemma threads_drain_witness :
  (forall n s', nsteps (fun x y => exists t, tstep t x y) n st5 s' -> (n <= inside st5)%nat) /\
  (exists s', rtc (fun x y => exists t, tstep t x y) st5 s' /\ c_pcs s' = ∅ /\ c_locks s' = ∅).
Proof. exact (threads_drain demoBlocksOf st5 st5_reachable). Defined.

(** ** The catalog and the ledger *)

Definition demoCatalog : MemKV := snd (Catalog_Put (vhOf Byte.x01) (Some blobA) (∅ : MemKV)).
Lemma demo_put : Catalog_Put (vhOf Byte.x01) (Some blobA) (∅ : MemKV) = (Ok tt, demoCatalog).
Proof. reflexivity. Qed.
Lemma demo_resolve_ok : ok_with (fun _ => true) (ResolveBlob (vhOf Byte.x01) demoCatalog) = true.
Proof. vm_compute. reflexivity. Qed.

Lemma catalog_put_resolve_witness :
  exists r s2, ResolveBlob (vhOf Byte.x01) demoCatalog = (Ok r, s2) /\ r = (Some blobA, true).
Proof.
  destruct (ok_run _ _ demo_resolve_ok) as (r & s2 & E & _). exists r, s2. split; [exact E|].
  exact (proj1 (catalog_put_resolve (vhOf Byte.x01) (vhOf Byte.x01) blobA ∅ demoCatalog r s2 demo_put E) eq_refl).
Defined.

Definition demoCleared : MemKV := snd (Catalog_Clear demoCatalog).
Lemma demo_clear : Catalog_Clear demoCatalog = (Ok tt, demoCleared).
Proof. reflexivity. Qed.
Lemma demo_cleared_ok : ok_with (fun _ => true) (ResolveBlob (vhOf Byte.x01) demoCleared) = true.
Proof. vm_compute. reflexivity. Qed.

Lemma catalog_clear_witness :
  exists r s2, ResolveBlob (vhOf Byte.x01) demoCleared = (Ok r, s2) /\ r = (Undef, false) /\
    forall h p c, pin_at (kv demoCleared) h p c = pin_at (kv demoCatalog) h p c.
Proof.
  destruct (ok_run _ _ demo_cleared_ok) as (r & s2 & E & _). exists r, s2. split; [exact E|].
  exact (catalog_clear demoCatalog demoCleared (vhOf Byte.x01) r s2 demo_clear E).
Defined.

Lemma empty_ledger_wf : ledger_wf (kv (∅ : MemKV)).
Proof. intros rest v H. change ((∅ : MemKV) !! (prefixLedger :: rest) = Some v) in H. by rewrite lookup_empty in H. Qed.
Lemma demo_time_ok : time_ok (1700000000 * 10 ^ 9).
Proof. by vm_compute. Qed.

Lemma pin_value_roundtrip_witness :
  decodePinValue (encodePinValue true (1700000000 * 10 ^ 9)) = Ok (true, storedTime (1700000000 * 10 ^ 9)).
Proof. exact (pin_value_roundtrip true _ demo_time_ok). Defined.

Definition ledgerRun1 := AddExpiring "all" "root" (Some blobA) true (1700000000 * 10 ^ 9) (∅ : MemKV).
Definition ledger1 : MemKV := snd ledgerRun1.
Definition ledger3 : MemKV := snd (Ledger_Remove "all" "root" (Some blobA) ledger1).
Lemma ledger1_run : AddExpiring "all" "root" (Some blobA) true (1700000000 * 10 ^ 9) (∅ : MemKV) = (Ok tt, ledger1).
Proof. exact (run_ok ledgerRun1 eq_refl). Qed.
Lemma ledger1_list : ok_with (fun l => len l =? 1) (ListAll "all" ledger1) = true.
Proof. vm_compute. reflexivity. Qed.
Lemma ledger3_list : ok_with (fun l => len l =? 0) (ListAll "all" ledger3) = true.
Proof. vm_compute. reflexivity. Qed.

Lemma listAll_state (h : string) (s s' : MemKV) out : ListAll h s = (Ok out, s') -> s' = s.
Proof.
  intros (u & s1 & E1 & (v & s2 & E2 & ([rows e] & s3 & E3 & H)%bind_run_ok)%bind_run_ok)%bind_run_ok.
  apply bind_run_ok in H as (w & s4 & E4 & H). destruct e; [discriminate|].
  injection E1 as _ <-. injection E2 as _ <-. injection E3 as _ <-. injection E4 as _ <-. by injection H as _ <-.
Qed.

Lemma ledger_add_remove_list_witness :
  exists out out', ListAll "all" ledger1 = (Ok out, ledger1) /\ ListAll "all" ledger3 = (Ok out', ledger3) /\
    mkPin "root" (Some blobA) true (1700000000 * 10 ^ 9) ∈ out /\
    (forall e, rowkey e = ("root"%string, Some blobA) -> e ∉ out').
Proof.
  destruct (ok_run _ _ ledger1_list) as (out & s2 & E2 & _). destruct (ok_run _ _ ledger3_list) as (out' & s4 & E4 & _).
  pose proof (listAll_state _ _ _ _ E2) as H2. pose proof (listAll_state _ _ _ _ E4) as H4. subst s2 s4.
  exists out, out'. split; [exact E2|]. split; [exact E4|].
  assert (E3 : Ledger_Remove "all" "root" (Some blobA) ledger1 = (Ok tt, ledger3)).
  { exact (run_ok (Ledger_Remove "all" "root" (Some blobA) ledger1) eq_refl). }
  destruct (ledger_add_remove_list "all" "root" blobA true (1700000000 * 10 ^ 9) (∅ : MemKV) ledger1 out ledger1 ledger3 out' ledger3
     empty_ledger_wf demo_time_ok ledger1_run E2 E3 E4) as (Ha & _ & Hr & _).
  split; [exact Ha|exact Hr].
Defined.

(** ** Policies: a window over two of three sealed Segments *)

Definition segCid (b : byte) : CidV := mkCid 1 cid_DagCBOR (mkMh SHA2_256 32 [b]).
Definition demoEnum : @Enumeration id_multihash :=
  mkEnum demoParams (Some (segCid Byte.x10)) 11 true [segCid Byte.x11]
    [mkSealed (segCid Byte.x12) 2 5 5; mkSealed (segCid Byte.x13) 3 6 7; mkSealed (segCid Byte.x14) 4 8 9]
    (Some (segCid Byte.x15)) 5.
Definition demoPolicy : Policy.Policy := Window (48 * 10 ^ 9) 12.
Definition demoPins : list Pin := match Desired demoPolicy (Some demoEnum) with Ok l => l | Err _ => [] end.
Lemma demo_pins : Desired demoPolicy (Some demoEnum) = Ok demoPins.
Proof. reflexivity. Qed.
Lemma demo_sealed_distinct : NoDup (ss_CID <$> en_Sealed demoEnum).
Proof. by apply (bool_decide_unpack _). Qed.
Lemma demo_pages_distinct : NoDup (en_DirPages demoEnum).
Proof. by apply (bool_decide_unpack _). Qed.
Lemma demo_sealed_slots s : s ∈ en_Sealed demoEnum -> 0 <= ss_LastSlot s.
Proof. intros H. repeat (apply elem_of_cons in H as [->|H]; [by vm_compute|]). by apply not_elem_of_nil in H. Qed.
Lemma demo_pages_sealed s : s ∈ en_Sealed demoEnum -> ss_CID s ∉ en_DirPages demoEnum.
Proof. intros H. repeat (apply elem_of_cons in H as [->|H]; [by apply (bool_decide_unpack _)|]). by apply not_elem_of_nil in H. Qed.

Lemma Desired_pins_index_witness :
  exists root, en_Root demoEnum = Some root /\ pinned demoPins root /\
  (pinned_rec demoPins root \/
   (forall c, c ∈ en_DirPages demoEnum -> pinned demoPins c) /\
    (forall s, s ∈ en_Sealed demoEnum -> pinned demoPins (ss_CID s)) /\
    (forall c, en_Open demoEnum = Some c -> pinned demoPins c)).
Proof. exact (Desired_pins_index demoPolicy demoEnum demoPins demo_pins). Defined.

(** Four slots before slot 11: the last two Segments and the open one. *)
Lemma Desired_window_witness :
  WindowSlots demoPolicy = 4 /\
  (mkPinReq PurposeWindow (Some (segCid Byte.x13)) true ∈ demoPins <-> 11 - 4 <= 7) /\
  (mkPinReq PurposeWindow (Some (segCid Byte.x12)) true ∈ demoPins <-> 11 - 4 <= 5).
Proof.
  split; [reflexivity|].
  destruct (Desired_window demoPolicy demoEnum demoPins eq_refl demo_pins demo_sealed_distinct demo_sealed_slots) as (H & _).
  split; [apply (H (mkSealed (segCid Byte.x13) 3 6 7))|apply (H (mkSealed (segCid Byte.x12) 2 5 5))].
  - right. left.
  - left.
Defined.

Lemma Desired_keys_witness : NoDup (pinKey <$> demoPins).
Proof. exact (Desired_keys demoPolicy demoEnum demoPins demo_pins demo_pages_distinct demo_sealed_distinct demo_pages_sealed). Defined.

(** ** Reconciliation of the demo head over a ledger with a stale pin *)

Abbreviation DemoRec := (@Reconciler id_multihash Blocks DemoLru MemKV).
Definition staleRun := Ledger_Add "all" "index" (Some blobB) false (∅ : MemKV).
Definition staleLedger : MemKV := snd staleRun.
Lemma stale_run : Ledger_Add "all" "index" (Some blobB) false (∅ : MemKV) = (Ok tt, staleLedger).
Proof. exact (run_ok staleRun eq_refl). Qed.
Lemma stale_ok : pl_ok staleLedger.
Proof. exact (proj1 (pl_Add_spec "all" "index" blobB false (∅ : MemKV) (Ok tt) staleLedger empty_ledger_wf stale_run)). Qed.

Definition demoEntry : @entry id_multihash Blocks DemoLru := mkEntry (Some demoWalker) NonePolicy None.
Definition demoRec : DemoRec := mkRec staleLedger {[ "all"%string := demoEntry ]} ["all"%string] ∅ 0.
Definition fresh_pins (l : list (@Pin id_multihash)) : bool := bool_decide (NoDup (pinKey <$> l)).
Lemma demo_desired_ok :
  ok_with (fun l => fresh_pins l && (len l =? 8)) (desiredOf demoCfg None "all" demoEntry demoRec) = true.
Proof. vm_compute. reflexivity. Qed.
Lemma demo_rec_ok : ok_with (fun d => (Added d =? 8) && (Removed d =? 1)) (reconcileHead demoCfg None Nat.eqb "all" demoRec) = true.
Proof. vm_compute. reflexivity. Qed.

Lemma reconcile_crash_safe_witness :
  exists desired r' d, reconcileHead demoCfg None Nat.eqb "all" demoRec = (Ok d, r') /\ Removed d = 1 /\
    pl_ok (rc_ledger r') /\ forall p c, pl_pin (rc_ledger r') "all" p c = want desired p c.
Proof.
  destruct (ok_run _ _ demo_desired_ok) as (desired & r1 & E1 & H1). destruct (ok_run _ _ demo_rec_ok) as (d & r' & E2 & H2).
  apply andb_true_iff in H1 as [H1 _]. apply bool_decide_eq_true in H1. apply andb_true_iff in H2 as [_ H2]. apply Z.eqb_eq in H2.
  destruct (reconcile_crash_safe demoCfg None Nat.eqb "all" demoEntry desired demoRec r1 (Ok d) r' stale_ok eq_refl E1 H1 E2)
    as (Hok & _ & _ & _ & Hall).
  exists desired, r', d. split; [exact E2|]. split; [exact H2|]. split; [exact Hok|]. exact (Hall d eq_refl).
Defined.

(** A second pass, over the pin a first one recorded for a new head. *)
Definition smallHead : DemoEngine :=
  let h := snd (New demoParams demoFresh) in
  mkEngine (blocks h) None ∅ (cur h) None stats0 None 0.
Definition smallEntry : @entry id_multihash Blocks DemoLru := mkEntry (Some smallHead) NonePolicy None.
Definition smallRec : DemoRec := mkRec ∅ {[ "all"%string := smallEntry ]} ["all"%string] ∅ 0.
Definition smallRec2 : DemoRec := snd (reconcileHead demoCfg None Nat.eqb "all" smallRec).
#[global] Strategy expand [smallHead smallRec2].
Definition smallEntry2 : @entry id_multihash Blocks DemoLru := default smallEntry (rc_heads smallRec2 !! "all"%string).
Definition pin_fields (p : @Pin id_multihash) := (pinKey p, pr_Recursive p).
#[global] Instance pin_fields_inj : Inj (=) (=) pin_fields.
Proof. intros [] [] [=]. simpl in *. congruence. Qed.
Definition same_pins (x y : res (list (@Pin id_multihash)) * DemoRec) : bool :=
  match fst x, fst y with
  | Ok l, Ok l' => bool_decide (pin_fields <$> l = pin_fields <$> l')
  | _, _ => false
  end.
Lemma small_entry : bool_decide (is_Some (rc_heads smallRec2 !! "all"%string)) = true.
Proof. vm_compute. reflexivity. Qed.
Lemma small_active : bool_decide (en_withdrawal smallEntry2 = None) = true.
Proof. vm_compute. reflexivity. Qed.
Lemma small_first : ok_with (fun d => Added d =? 1) (reconcileHead demoCfg None Nat.eqb "all" smallRec) = true.
Proof. vm_compute. reflexivity. Qed.
Lemma small_desired : ok_with fresh_pins (desiredOf demoCfg None "all" smallEntry smallRec) = true.
Proof. vm_compute. reflexivity. Qed.
Lemma small_same :
  same_pins (desiredOf demoCfg None "all" smallEntry smallRec) (desiredOf demoCfg None "all" smallEntry2 smallRec2) = true.
Proof. vm_compute. reflexivity. Qed.
Lemma small_second : ok_with (fun l => forallb (fun p => Cid.Defined (pr_CID p)) l)
    (desiredOf demoCfg None "all" smallEntry2 smallRec2) = true.
Proof. vm_compute. reflexivity. Qed.
Lemma small_again : ok_with (fun _ => true) (reconcileHead demoCfg None Nat.eqb "all" smallRec2) = true.
Proof. vm_compute. reflexivity. Qed.

Lemma small_start : pl_ok (rc_ledger smallRec).
Proof. exact empty_ledger_wf. Qed.
Lemma small_lookup : rc_heads smallRec2 !! "all"%string = Some smallEntry2.
Proof.
  pose proof (proj1 (bool_decide_eq_true _) small_entry) as [e He]. unfold smallEntry2.
  generalize dependent smallRec2. intros r He. by rewrite He.
Qed.
Lemma small_reconciled :
  exists desired r2, desiredOf demoCfg None "all" smallEntry2 smallRec2 = (Ok desired, r2) /\ NoDup (pinKey <$> desired) /\
    (forall p, p ∈ desired -> is_Some (pr_CID p)) /\ pl_ok (rc_ledger smallRec2) /\
    forall p c, pl_pin (rc_ledger smallRec2) "all" p c = want desired p c.
Proof.
  destruct (ok_run _ _ small_first) as (d & r' & E2 & _).
  assert (Hr : smallRec2 = r') by (unfold smallRec2; rewrite E2; reflexivity).
  pose proof small_same as Hs. pose proof small_second as Hd. generalize dependent smallEntry2. intros e2 Hs Hd.
  rewrite Hr in *. clear Hr.
  destruct (ok_run _ _ small_desired) as (desired & r1 & E1 & H1%bool_decide_eq_true).
  destruct (ok_run _ _ Hd) as (desired2 & r2 & E3 & H3). unfold same_pins in Hs. rewrite E1, E3 in Hs.
  apply bool_decide_eq_true, (inj (fmap pin_fields)) in Hs as <-.
  destruct (reconcileHead_run demoCfg None Nat.eqb "all" smallEntry desired smallRec r1 (Ok d) r' small_start eq_refl E1 H1 E2)
    as (Hok & _ & _ & _ & Hall).
  exists desired, r2. split; [exact E3|]. split; [exact H1|]. split; [|split; [exact Hok|exact (Hall d eq_refl)]].
  intros p Hp. rewrite forallb_forall in H3. specialize (H3 p). rewrite <- list_elem_of_In in H3. specialize (H3 Hp).
  by destruct (pr_CID p).
Qed.

Lemma reconcile_idempotent_witness :
  exists d r', reconcileHead demoCfg None Nat.eqb "all" smallRec2 = (Ok d, r') /\ Delta_empty d = true /\
    forall h p c, pl_row (rc_ledger r') h p c = pl_row (rc_ledger smallRec2) h p c.
Proof.
  destruct (ok_run _ _ small_again) as (d & r' & E & _). exists d, r'. split; [exact E|].
  destruct small_reconciled as (desired & r2 & E1 & Hnd & Hdef & Hok & Hall).
  exact (reconcile_idempotent demoCfg None Nat.eqb "all" smallEntry2 desired smallRec2 r2 d r' Hok small_lookup
           (proj1 (bool_decide_eq_true _) small_active) E1 Hnd Hdef Hall E).
Defined.

(** A head that was pinned whole is put under another policy. *)
Definition fullRun := Ledger_Add "all" "root" (Some (segCid Byte.x10)) true (∅ : MemKV).
Definition fullRec : DemoRec := mkRec (snd fullRun) ∅ [] ∅ 0.
Definition modePins : list (@Pin id_multihash) :=
  [mkPinReq PurposeRoot (Some (segCid Byte.x10)) false; mkPinReq PurposeIndex (Some (segCid Byte.x11)) false].
Definition fullHave : list (@PinEntry id_multihash) := [mkPin PurposeRoot (Some (segCid Byte.x10)) true zeroTime].
Lemma full_run : Ledger_Add "all" "root" (Some (segCid Byte.x10)) true (∅ : MemKV) = (Ok tt, snd fullRun).
Proof. exact (run_ok fullRun eq_refl). Qed.
Lemma full_ok : pl_ok (rc_ledger fullRec).
Proof. exact (proj1 (pl_Add_spec "all" "root" (segCid Byte.x10) true (∅ : MemKV) (Ok tt) _ empty_ledger_wf full_run)). Qed.
Lemma empty_pin h p c : pl_pin (∅ : MemKV) h p c = None.
Proof.
  change (fst <$> pin_at (∅ : MemKV) h p c = None). unfold pin_at. destruct (checkNames h p); [|done].
  by rewrite lookup_empty.
Qed.
Lemma full_pins p c' :
  pl_pin (rc_ledger fullRec) "all" p c' = if decide ((p, c') = (PurposeRoot, segCid Byte.x10)) then Some true else None.
Proof.
  assert (H0 : pl_ok (∅ : MemKV)) by exact empty_ledger_wf.
  destruct (pl_Add_spec "all" "root" (segCid Byte.x10) true (∅ : MemKV) (Ok tt) _ H0 full_run) as (_ & Ho & [Hs|[? _]]); [|done].
  case_decide as E; [by injection E as -> ->|]. etransitivity; [apply pl_row_pin, Ho; intros [= -> ->]; done|apply empty_pin].
Qed.
Lemma full_add_ok : ok_with (fun _ => true) (applyAdds "all" (take 1 (fst (plan modePins fullHave))) (mkDelta 0 0) fullRec) = true.
Proof. vm_compute. reflexivity. Qed.

Lemma mode_change_downgrades_first_witness :
  exists u r1, applyAdds "all" (take 1 (fst (plan modePins fullHave))) (mkDelta 0 0) fullRec = (Ok u, r1) /\
    want modePins PurposeIndex (segCid Byte.x11) = Some false /\
    forall p c', pl_pin (rc_ledger r1) "all" p c' = if decide ((p, c') = (PurposeRoot, segCid Byte.x10)) then Some false else None.
Proof.
  destruct (ok_run _ _ full_add_ok) as (u & r1 & E & _). exists u, r1. split; [exact E|].
  exact (mode_change_downgrades_first "all" (segCid Byte.x10) (segCid Byte.x11) zeroTime fullRec u r1 full_ok full_pins E).
Defined.
