(* ===== verification/GCWitnesses.v ===== *)
(** The theorems on staging and collection at work, on concrete stores. *)
From Stdlib Require Strings.Byte.
From S2P Require Import Prelude Arith Cid Schema Core Engine EngineWorld Dir HeadModel Lookup Apply ApplyCorrect Truncate Lifecycle Enumerate EnumerateCorrect Store Ledger Policy Reconcile Staging GC GCCorrect GCRun Instances StoreInstances Demo Witnesses StoreWitnesses.

(** ** Staging *)

Definition demoStaging : Staging := mkStaging (60 * 10 ^ 9).
Definition t0 : Time := 1700000000 * 10 ^ 9 + 5.
Definition stageRun := Staging_Pin demoStaging t0 [Some blobA] (∅ : MemKV).
Definition staged : MemKV := snd stageRun.
Lemma stage_run : Staging_Pin demoStaging t0 [Some blobA] (∅ : MemKV) = (Ok tt, staged).
Proof. exact (run_ok stageRun eq_refl). Qed.
Lemma t0_ok : time_ok (t0 + st_ttl demoStaging).
Proof. by vm_compute. Qed.
Lemma t0_zero : IsZero (storedTime (t0 + st_ttl demoStaging)) = false.
Proof. by vm_compute. Qed.
Lemma blobA_staged : Some blobA ∈ [Some blobA].
Proof. by left. Qed.
Lemma t0_early : t0 < storedTime (t0 + st_ttl demoStaging).
Proof. by vm_compute. Qed.

(** An expiry pass at the moment of staging leaves the pin. *)
Lemma staging_lifecycle_witness :
  exists x s2, DropExpired t0 staged = (x, s2) /\
    pin_at (kv staged) StagingHead PurposeStaging blobA = Some (false, storedTime (t0 + st_ttl demoStaging)) /\
    pin_at (kv s2) StagingHead PurposeStaging blobA = Some (false, storedTime (t0 + st_ttl demoStaging)).
Proof.
  destruct (DropExpired t0 staged) as [x s2] eqn:E. exists x, s2. split; [reflexivity|].
  destruct (staging_lifecycle demoStaging t0 [Some blobA] (∅ : MemKV) staged t0 x s2 empty_ledger_wf t0_ok t0_zero stage_run E)
    as (H1 & H2 & _).
  split; [exact (H1 blobA blobA_staged)|exact (H2 blobA blobA_staged t0_early)].
Defined.

Definition stagedCatalog : MemKV := snd (Catalog_Put (vhOf Byte.x01) (Some blobA) staged).
Definition dropRun := DropRefs [mkRefRow 5 [vhOf Byte.x01]] stagedCatalog.
Lemma drop_ok : is_ok (fst dropRun) = true.
Proof. vm_compute. reflexivity. Qed.
Lemma staged_wf : ledger_wf (kv stagedCatalog).
Proof.
  assert (Hs : ledger_wf (kv staged)).
  { apply (AddBatch_run StagingHead [stagingPin (t0 + st_ttl demoStaging) (Some blobA)] (∅ : MemKV) (Ok tt) staged);
      [exact empty_ledger_wf|by constructor; [exact t0_ok|constructor]|exact stage_run]. }
  intros rest v Hl. apply (Hs rest v). rewrite <- Hl. symmetry. by apply lookup_insert_ne.
Qed.
Lemma blobA_resolved : resolved (kv stagedCatalog) [mkRefRow 5 [vhOf Byte.x01]] blobA.
Proof.
  exists (mkRefRow 5 [vhOf Byte.x01]), (vhOf Byte.x01), (cid_bytes blobA). split; [by left|]. split; [by left|].
  split; [apply lookup_insert_eq|apply cast_bytes].
Qed.

Lemma DropRefs_exact_witness : pin_at (kv (snd dropRun)) StagingHead PurposeStaging blobA = None.
Proof.
  exact (proj1 (DropRefs_exact [mkRefRow 5 [vhOf Byte.x01]] stagedCatalog (snd dropRun) staged_wf (run_ok dropRun drop_ok)
                  StagingHead PurposeStaging blobA) (conj eq_refl blobA_resolved)).
Defined.

(** ** Marking a node with one link *)

Abbreviation DemoGCW := (@GCW id_multihash MemBase Blocks DemoLru MemKV).
Definition nodeBytes : bytes := match cbor_encode (NList [NLink blobA]) with Some b => b | None => [] end.
Definition nodeCid : CidV := mkCid 1 cid_DagCBOR (mkMh SHA2_256 32 nodeBytes).
Definition gcBase : MemBase :=
  <[cidHash nodeCid := nodeBytes]> (<[cidHash blobA := [Byte.x01]]> (<[cidHash blobB := [Byte.x02]]> ∅)).
Definition emptyRec : DemoRec := mkRec ∅ ∅ [] ∅ 0.
Definition gcWorld (base : MemBase) : DemoGCW := mkGCW (mkEpochs base ∅ None 0) emptyRec 0 0 0 0 0 [[AGet blobB]].
Definition gcCfg : @GCConfig id_multihash MemBase := mkGCConfig false (Some demoStaging) None.
Definition gcGroups : list (@headMark id_multihash MemBase) :=
  [mkHeadMark "all" None [mkPin "root" (Some nodeCid) true zeroTime]].

Lemma gc_groups_ok Keep Q T : groups_ok (MH := id_multihash) (B := MemBase) Keep Q T gcGroups.
Proof. constructor; [|constructor]. by intros f. Qed.
Lemma gc_sched_ok base Q : sched_ok Q none (gcWorld base).
Proof. constructor; [|constructor]. constructor; [by intros []|constructor]. Qed.

Lemma node_addressed : addresses nodeCid nodeBytes.
Proof. unfold addresses. vm_compute. reflexivity. Qed.
Lemma node_links : cbor_decode nodeBytes = Some (NList [NLink blobA]).
Proof. vm_compute. reflexivity. Qed.
Lemma node_edge : edge nodeCid blobA.
Proof.
  split; [reflexivity|]. exists nodeBytes, (NList [NLink blobA]). split; [exact node_addressed|]. split; [exact node_links|].
  apply list_elem_of_singleton. reflexivity.
Qed.
Lemma blobA_live : live gcGroups blobA.
Proof.
  eexists. split; [by left|]. right. exists (mkPin "root" (Some nodeCid) true zeroTime), nodeCid.
  split; [by left|]. split; [reflexivity|]. split; [reflexivity|]. eapply rtc_l; [exact node_edge|apply rtc_refl].
Qed.

Lemma demo_mark_ok :
  ok_with (fun m => bool_decide (markKey blobA ∈ m) && negb (bool_decide (markKey blobB ∈ m))) (mark gcCfg 10 gcGroups (gcWorld gcBase)) = true.
Proof. vm_compute. reflexivity. Qed.

Lemma mark_exact_witness :
  exists marked w', mark gcCfg 10 gcGroups (gcWorld gcBase) = (Ok marked, w') /\
    (forall k, k ∈ marked <-> exists c, live gcGroups c /\ cidHash c = k) /\
    (forall k, k ∈ marked -> is_Some (stored (base (gw_store w')) k)).
Proof.
  destruct (ok_run _ _ demo_mark_ok) as (marked & w' & E & _). exists marked, w'. split; [exact E|].
  destruct (mark_exact gcCfg 10 gcGroups (gcWorld gcBase) marked w' (gc_groups_ok every none none) (gc_sched_ok gcBase none) E) as (H1 & H2 & _).
  split; [exact H1|exact H2].
Defined.

Definition demoUniverse : gset (@CidOf (@Digest id_multihash)) := {[ nodeCid; blobA ]}.
Lemma demo_universe : universe demoUniverse 1.
Proof.
  intros c d n Hc Hd Ha Hn. assert (c = nodeCid) as ->.
  { apply elem_of_union in Hc as [->%elem_of_singleton| ->%elem_of_singleton]; [reflexivity|discriminate Hd]. }
  rewrite (addresses_unique nodeCid d nodeBytes Ha node_addressed), node_links in Hn. injection Hn as <-.
  split; [|simpl; lia]. constructor; [|constructor]. apply elem_of_union. right. by apply elem_of_singleton.
Qed.
Lemma demo_universe_size : size demoUniverse = 2%nat.
Proof. unfold demoUniverse. rewrite size_union, !size_singleton; [reflexivity|]. apply disjoint_singleton_l. by intros [=]%elem_of_singleton. Qed.
Lemma demo_groups_universe : Forall (fun grp => (length (hm_pins grp) <= 1)%nat /\
  forall p c, p ∈ hm_pins grp -> pin_CID p = Some c -> Recursive p = true -> c ∈ demoUniverse) gcGroups.
Proof.
  constructor; [|constructor]. split; [simpl; lia|]. intros p c ->%list_elem_of_singleton [= <-] _.
  apply elem_of_union. left. by apply elem_of_singleton.
Qed.

Lemma mark_terminates_witness : fst (mark gcCfg 3 gcGroups (gcWorld gcBase)) <> Err EDiverges.
Proof.
  destruct (mark gcCfg 3 gcGroups (gcWorld gcBase)) as [r w'] eqn:E.
  assert (Hf : (1 + 1 * size demoUniverse <= 3)%nat) by (rewrite demo_universe_size; lia).
  exact (mark_terminates gcCfg demoUniverse 1 1 3 gcGroups (gcWorld gcBase) r w' (gc_groups_ok every none none)
           (gc_sched_ok gcBase none) demo_universe demo_groups_universe Hf E).
Defined.

(** The store without the linked blob. *)
Definition lostBase : MemBase := delete (cidHash blobA) gcBase.
Lemma written_miss_fails_witness : is_ok (fst (mark gcCfg 10 (gcGroups ++ []) (gcWorld lostBase))) = false.
Proof.
  assert (Hw : Forall (fun grp => hm_fetch grp = None) gcGroups) by (constructor; [reflexivity|constructor]).
  assert (Hn : stored (base (gw_store (gcWorld lostBase))) (cidHash blobA) = None) by apply lookup_delete_eq.
  exact (written_miss_fails gcCfg 10 gcGroups [] (gcWorld lostBase) blobA Hw blobA_live Hn (gc_sched_ok lostBase _)).
Defined.

(** ** Whole runs: a new head pinned whole, three loose blobs of which one is read *)

Definition headEntry : @entry id_multihash Blocks DemoLru := mkEntry (Some smallHead) Full None.
Definition headRec : DemoRec := mkRec ∅ {[ "all"%string := headEntry ]} ["all"%string] ∅ 0.
Definition headBase : MemBase := foldr (fun '(c, d) m => <[cidHash c := d]> m) ∅ (blocks smallHead).
Definition headWorld : DemoGCW := mkGCW (mkEpochs headBase ∅ None 0) headRec 0 0 0 0 0 [[AGet blobA]].
Definition headEvents : list (@ScanEvent id_multihash) := [SKey (cidHash blobB); SKey (cidHash blobA)].
Definition headRun := runOnline gcCfg demoCfg None Nat.eqb 10 t0 (Ok headEvents) headWorld.
Definition headCut := prepare gcCfg demoCfg None Nat.eqb t0 headWorld.
#[global] Strategy expand [headRun headCut].

Definition run_clean (x : GCStats * option err * DemoGCW) : bool :=
  let '(st, e, _) := x in match e with None => (gs_Swept st =? 1) && (gs_ProtectedSkips st =? 1) | Some _ => false end.
Lemma head_run_ok : run_clean headRun = true.
Proof. vm_compute. reflexivity. Qed.
Lemma head_cut_ok : match fst (fst headCut) with Ok _ => true | Err _ => false end = true.
Proof. vm_compute. reflexivity. Qed.
Lemma head_run : exists stats w', headRun = (stats, None, w').
Proof.
  pose proof head_run_ok as H. destruct headRun as [[st e] w']. exists st, w'. destruct e; [discriminate H|reflexivity].
Qed.
Lemma head_cut : exists groups np sg expired w1, headCut = (Ok (groups, np, sg), expired, w1).
Proof.
  pose proof head_cut_ok as H. destruct headCut as [[[[[groups np] sg]|e] expired] w1]; [|discriminate H].
  by exists groups, np, sg, expired, w1.
Qed.

Lemma head_sched Q T : ~ T (cidHash blobA) -> sched_ok Q T headWorld.
Proof. intros H. constructor; [|constructor]. constructor; [exact H|constructor]. Qed.
Lemma not_none k : ~ none (MH := id_multihash) k.
Proof. intros []. Qed.
Lemma head_inv : epochs_inv (gw_store headWorld).
Proof. split; [done|apply map_Forall_empty]. Qed.
Lemma head_wf : ledger_wf (kvOf headWorld).
Proof. exact empty_ledger_wf. Qed.
Lemma head_reg : reg_ok (gw_rec headWorld).
Proof. unfold reg_ok, sortedNames. cbn [gw_rec headWorld headRec rc_names rc_heads]. rewrite dom_singleton_L. reflexivity. Qed.
Lemma no_fetchers Keep Q T : fetchers_ok gcCfg Keep Q T.
Proof. intros F name f H. discriminate H. Qed.

Lemma gc_online_retains_witness :
  exists groups np sg expired w1 stats w', headCut = (Ok (groups, np, sg), expired, w1) /\ headRun = (stats, None, w') /\
    active (gw_store w') = None /\ forall c, live groups c -> is_Some (stored (base (gw_store w')) (cidHash c)).
Proof.
  destruct head_cut as (groups & np & sg & expired & w1 & Ec). destruct head_run as (stats & w' & Er).
  exists groups, np, sg, expired, w1, stats, w'. split; [exact Ec|]. split; [exact Er|].
  destruct (gc_online_retains gcCfg demoCfg None Nat.eqb 10 t0 (Ok headEvents) headWorld _ expired w1 stats None w'
    (head_sched none none (not_none _)) head_inv eq_refl head_wf head_reg (no_fetchers every none none) Ec Er) as (Ha & _ & Hl).
  split; [exact Ha|exact (Hl eq_refl)].
Defined.

Lemma gc_keeps_policy_witness :
  exists desired stats w', fst (desiredOf demoCfg None "all" headEntry headRec) = Ok desired /\ headRun = (stats, None, w') /\
    forall p c, p ∈ desired -> pr_CID p = Some c ->
      is_Some (stored (base (gw_store w')) (cidHash c)) /\
      (pr_Recursive p = true -> forall c', rtc edge c c' -> is_Some (stored (base (gw_store w')) (cidHash c'))).
Proof.
  assert (Hd : ok_with fresh_pins (desiredOf demoCfg None "all" headEntry headRec) = true) by (vm_compute; reflexivity).
  destruct (ok_run _ _ Hd) as (desired & r1 & E & Hk%bool_decide_eq_true). destruct head_run as (stats & w' & Er).
  assert (Ef : fst (desiredOf demoCfg None "all" headEntry headRec) = Ok desired) by (rewrite E; reflexivity).
  exists desired, stats, w'. split; [exact Ef|]. split; [exact Er|].
  assert (Hs : "all"%string <> StagingHead) by discriminate.
  exact (gc_keeps_policy gcCfg demoCfg None Nat.eqb 10 t0 (Ok headEvents) headWorld stats w' "all" headEntry desired
    (head_sched none none (not_none _)) head_inv eq_refl head_wf head_reg (no_fetchers every none none) Er eq_refl eq_refl Hs Ef Hk).
Defined.

Definition headGroups : list (@headMark id_multihash MemBase) :=
  match fst (fst headCut) with Ok (groups, _, _) => groups | Err _ => [] end.
#[global] Strategy expand [headGroups].
Lemma head_mark_ok :
  ok_with (fun m => negb (bool_decide (cidHash blobB ∈ m))) (mark gcCfg 10 headGroups headWorld) = true.
Proof. vm_compute. reflexivity. Qed.
Lemma head_groups_ok Keep Q T : groups_ok (MH := id_multihash) Keep Q T headGroups.
Proof.
  destruct headCut as [[r expired] w1] eqn:E. unfold headGroups. rewrite E. simpl. destruct r as [[[groups np] sg]|e]; [|constructor].
  destruct (prepare_run gcCfg demoCfg None Nat.eqb t0 headWorld _ expired w1 head_wf head_reg E) as [_ Hok].
  exact (cg_fetch _ _ _ _ (co_groups _ _ _ _ _ _ _ (Hok groups np sg eq_refl)) Keep Q T (no_fetchers Keep Q T)).
Qed.
Lemma blobB_dead c : live headGroups c -> cidHash c <> cidHash blobB.
Proof.
  intros Hl Hk. destruct (ok_run _ _ head_mark_ok) as (marked & w' & E & Hn).
  apply (mark_run every none none) in E as [_ Hr]; [|apply head_groups_ok|apply head_sched, not_none].
  destruct (Hr marked eq_refl) as [Hm _]. apply negb_true_iff, bool_decide_eq_false in Hn. apply Hn, Hm. by exists c.
Qed.
Lemma head_cut_groups : exists np sg expired w1, headCut = (Ok (headGroups, np, sg), expired, w1).
Proof.
  pose proof head_cut_ok as H. unfold headGroups. destruct headCut as [[[[[groups np] sg]|e] expired] w1]; [|discriminate H].
  by exists np, sg, expired, w1.
Qed.


Definition scrubRun := Scrub (Ok [SKey (cidHash blobA)]) (gcWorld gcBase).
#[global] Strategy expand [scrubRun].
Lemma scrub_run_ok : match snd (fst scrubRun) with None => true | Some _ => false end = true.
Proof. vm_compute. reflexivity. Qed.
Lemma scrub_validates_witness :
  exists st w', scrubRun = (st, None, w') /\ sb_Scanned st = 1 /\
    exists d, stored (base (gw_store w')) (cidHash blobA) = Some d /\ addresses (keyCid (cidHash blobA)) d.
Proof.
  pose proof scrub_run_ok as H. destruct scrubRun as [[st e] w'] eqn:E. destruct e; [discriminate H|]. exists st, w'. split; [reflexivity|].
  destruct (scrub_validates (Ok [SKey (cidHash blobA)]) (gcWorld gcBase) st w' (gc_sched_ok gcBase none) E) as (ev & Hev & Hn & Hall & _).
  injection Hev as <-. split; [exact Hn|]. destruct (Hall (SKey (cidHash blobA)) (list_elem_of_here _ _)) as (k & d & Hk & Hd & Ha).
  injection Hk as <-. exists d. split; [exact Hd|exact Ha].
Defined.
