(* ===== verification/IngestWitnesses.v ===== *)
(** The intake theorems at work: one blob into empty stores, a collection after
    it, a rebuild of the catalog, and two workers on one blob. *)
From Stdlib Require Strings.Byte.
From S2P Require Import Prelude Arith Cid Schema Core Engine Store Ledger Policy Reconcile Staging Ingest GC GCCorrect GCRun IngestCorrect IngestLife Instances StoreInstances Demo Witnesses StoreWitnesses GCWitnesses.

(** A commitment scheme: a blob that starts with 0xff is not canonical. *)
#[global] Instance demo_kzg : Kzg := {|
  BlobToCommitment := fun d => match d with [] => None | x :: _ => if Byte.eqb x Byte.xff then None else Some [x] end;
  CalcBlobHashV1 := fun c => vhOf (hd Byte.x00 c) |}.

Definition oneBlob (b : byte) : bytes := b :: repeat b (Z.to_nat (BlobSize - 1)).
Lemma oneBlob_len b : len (oneBlob b) = BlobSize.
Proof. unfold oneBlob, len. cbn [length]. rewrite repeat_length, Nat2Z.inj_succ, Z2Nat.id; [reflexivity|discriminate]. Qed.
Lemma oneBlob_whole b : len (oneBlob b) mod BlobSize = 0.
Proof. rewrite oneBlob_len. by apply Z_mod_same. Qed.
Lemma oneBlob_count b : blobs_in (oneBlob b) = 1%nat.
Proof. unfold blobs_in. by rewrite oneBlob_len, Z_div_same. Qed.
Lemma oneBlob_at b : blobAt (oneBlob b) 0 = oneBlob b.
Proof.
  unfold blobAt. rewrite Nat.mul_0_l. apply take_ge. pose proof (oneBlob_len b) as H. unfold len in H. lia.
Qed.
Lemma oneBlob_hash : blobVersionedHash (oneBlob Byte.x01) = Ok (vhOf Byte.x01).
Proof. unfold blobVersionedHash. by rewrite oneBlob_len. Qed.
Lemma oneBlob_bad : is_ok (blobVersionedHash (oneBlob Byte.xff)) = false.
Proof. unfold blobVersionedHash. by rewrite oneBlob_len. Qed.
Lemma oneBlob_valid k : (k < blobs_in (oneBlob Byte.x01))%nat -> is_ok (blobVersionedHash (blobAt (oneBlob Byte.x01) k)) = true.
Proof. rewrite oneBlob_count. intros Hk. assert (k = 0%nat) as -> by lia. by rewrite oneBlob_at, oneBlob_hash. Qed.

Abbreviation DemoIW := (@IW id_multihash MemBase MemKV).
Definition emptyWorld : DemoIW := mkIW (mkEpochs ∅ ∅ None 0) ∅.
Lemma empty_live : live_world emptyWorld.
Proof. split; exact I. Qed.
Lemma demo_ttl : ttl_ok (Some demoStaging) t0.
Proof. intros st [= <-]. exact t0_ok. Qed.

Lemma PutBlobs_refuses_witness :
  exists why, PutBlobs (Some demoStaging) t0 (oneBlob Byte.xff) emptyWorld = (Err (EValidation 0 why), emptyWorld).
Proof.
  assert (Hk : (0 < blobs_in (oneBlob Byte.xff))%nat) by (rewrite oneBlob_count; lia).
  assert (Hbad : is_ok (blobVersionedHash (blobAt (oneBlob Byte.xff) 0)) = false) by (rewrite oneBlob_at; exact oneBlob_bad).
  assert (Hpre : forall j, (j < 0)%nat -> is_ok (blobVersionedHash (blobAt (oneBlob Byte.xff) j)) = true) by (intros; lia).
  exact (proj2 (PutBlobs_refuses (Some demoStaging) t0 (oneBlob Byte.xff) emptyWorld) (oneBlob_whole _) 0%nat Hk Hbad Hpre).
Defined.

Lemma PutBlobs_stores_witness :
  exists out w', PutBlobs (Some demoStaging) t0 (oneBlob Byte.x01) emptyWorld = (Ok out, w') /\
    put_done (Some demoStaging) t0 (oneBlob Byte.x01) out emptyWorld w'.
Proof.
  destruct (PutBlobs (Some demoStaging) t0 (oneBlob Byte.x01) emptyWorld) as [x w'] eqn:E.
  destruct (PutBlobs_stores (Some demoStaging) t0 (oneBlob Byte.x01) emptyWorld x w' empty_ledger_wf demo_ttl E) as [Hok Hdone].
  specialize (Hok empty_live (oneBlob_whole _) oneBlob_valid). destruct x as [out|e]; [|discriminate Hok].
  exists out, w'. split; [reflexivity|exact (Hdone out eq_refl)].
Defined.

(** ** A collection right after *)

Lemma demo_body_put : exists out w', PutBlobs (Some demoStaging) t0 (oneBlob Byte.x01) emptyWorld = (Ok out, w').
Proof. destruct PutBlobs_stores_witness as (out & w' & E & _). eauto. Qed.
Definition afterPut (w : DemoIW) : DemoGCW := mkGCW (iw_store w) (mkRec (iw_kv w) ∅ [] ∅ 0) 0 0 0 0 0 [[AGet blobB]].

Lemma after_sched w : sched_ok none none (afterPut w).
Proof. constructor; [|constructor]. constructor; [by intros []|constructor]. Qed.
Lemma after_reg w : reg_ok (gw_rec (afterPut w)).
Proof. reflexivity. Qed.
Lemma gcCfg_fetchers : fetchers_ok gcCfg every none none.
Proof. intros F name f [=]. Qed.
Lemma gcCfg_staging : is_Some (g_staging gcCfg).
Proof. by eexists. Qed.
Lemma empty_epochs : epochs_inv (iw_store emptyWorld).
Proof. split; [by intros a [=]|]. apply map_Forall_empty. Qed.

(** The application reads a block and a collection runs. *)
Definition afterGet (w : DemoIW) : DemoIW := mkIW (do_acts [AGet blobB] (iw_store w)) (iw_kv w).
Definition afterGC (w : DemoIW) : DemoGCW := snd (runOnline gcCfg demoCfg None Nat.eqb 10 t0 (Ok []) (afterPut (afterGet w))).
Definition collected (w : DemoIW) : DemoIW := mkIW (gw_store (afterGC w)) (rc_ledger (gw_rec (afterGC w))).
Lemma demo_get_honest : Forall (honest none none) [AGet blobB].
Proof. constructor; [by intros []|constructor]. Qed.

Lemma demo_history mine iw : active (iw_store iw) = None ->
  rtc (meanwhile (L := DemoLru) gcCfg demoCfg None Nat.eqb mine (storedTime (t0 + st_ttl demoStaging))) iw (collected iw).
Proof.
  intros Ha. eapply rtc_l; [exact (mw_app _ _ _ _ _ _ [AGet blobB] iw demo_get_honest)|].
  eapply rtc_l; [|apply rtc_refl]. unfold collected, afterGC.
  destruct (runOnline gcCfg demoCfg None Nat.eqb 10 t0 (Ok []) (afterPut (afterGet iw))) as [[stats e] w'] eqn:Er.
  refine (mw_collect gcCfg demoCfg None Nat.eqb _ _ 10 t0 (Ok []) (afterPut (afterGet iw)) stats e w' (afterGet iw)
    eq_refl eq_refl t0_early eq_refl (after_reg _) _ (after_sched _) Er).
  etransitivity; [exact (ev_active _ _ _ _ _ (honest_acts every none none [AGet blobB] (iw_store iw) demo_get_honest))|exact Ha].
Qed.


(** ** A rebuild *)

Definition blobCidOf (b : byte) : CidV := rawCid (oneBlob b).
Definition blobWorld : DemoIW := mkIW (mkEpochs {[ cidHash (blobCidOf Byte.x01) := oneBlob Byte.x01 ]} ∅ None 0) ∅.
Lemma blobWorld_stored : stored (base (iw_store blobWorld)) (cidHash (blobCidOf Byte.x01)) = Some (oneBlob Byte.x01).
Proof. exact (lookup_singleton_eq (M := gmap (MhDigest bytes)) _ _). Qed.
Lemma blobWorld_found vh c : found [blobCidOf Byte.x01] (base (iw_store blobWorld)) vh c ->
  vh = vhOf Byte.x01 /\ BlobCID (oneBlob Byte.x01) = Ok (Some c).
Proof.
  intros (key & d & ->%list_elem_of_singleton & Hd & Hv & Hc). rewrite blobWorld_stored in Hd. injection Hd as <-.
  rewrite oneBlob_hash in Hv. injection Hv as <-. by split.
Qed.
Lemma blobWorld_injective vh c c' : found [blobCidOf Byte.x01] (base (iw_store blobWorld)) vh c ->
  found [blobCidOf Byte.x01] (base (iw_store blobWorld)) vh c' -> c = c'.
Proof. intros [_ H1]%blobWorld_found [_ H2]%blobWorld_found. congruence. Qed.

Lemma oneBlob_sum b : prefix_sum (cid_prefix (blobCidOf b)) (oneBlob b) = Some (blobCidOf b).
Proof. reflexivity. Qed.
Lemma blobWorld_get : app_Get (blobCidOf Byte.x01) (iw_store blobWorld) = (Ok (oneBlob Byte.x01), iw_store blobWorld).
Proof.
  unfold app_Get, withKey, onBase, vGet, bind.
  assert (Hg : base_get (blobCidOf Byte.x01) (base (iw_store blobWorld)) = (Ok (oneBlob Byte.x01), base (iw_store blobWorld))).
  { change (base_get (blobCidOf Byte.x01) (base (iw_store blobWorld))) with
      (match stored (base (iw_store blobWorld)) (cidHash (blobCidOf Byte.x01)) with
       | Some d => @Ok err bytes d | None => Err ENotFound end, base (iw_store blobWorld)).
    by rewrite blobWorld_stored. }
  rewrite Hg, oneBlob_sum, bool_decide_eq_true_2 by reflexivity. reflexivity.
Qed.
Lemma blobWorld_cid : BlobCID (oneBlob Byte.x01) = Ok (Some (blobCidOf Byte.x01)).
Proof. unfold BlobCID. rewrite oneBlob_len. reflexivity. Qed.
Lemma blobWorld_rebuild : exists st w', Rebuild (Ok [blobCidOf Byte.x01]) blobWorld = (st, None, w').
Proof.
  cbn [Rebuild rebuildLoop]. change (checkCtx blobWorld) with (@Ok err unit tt, blobWorld). cbv beta iota zeta.
  unfold onBlocks at 1. rewrite blobWorld_get. cbv beta iota zeta.
  rewrite oneBlob_len, Z.eqb_refl. cbn [negb]. rewrite oneBlob_hash, blobWorld_cid. cbv beta iota zeta.
  change (onCatalog (ResolveBlob (vhOf Byte.x01)) (mkIW (iw_store blobWorld) (iw_kv blobWorld))) with
    (@Ok err (Cid * bool) (Undef, false), blobWorld). cbv beta iota zeta. cbn [andb app len length Z.of_nat].
  eexists _, _. reflexivity.
Qed.

Lemma Rebuild_recovers_witness :
  exists st w', Rebuild (Ok [blobCidOf Byte.x01]) blobWorld = (st, None, w') /\
    resolves (kv (iw_kv w')) (vhOf Byte.x01) (blobCidOf Byte.x01) /\ rb_Scanned st = 1.
Proof.
  destruct blobWorld_rebuild as (st & w' & E). exists st, w'. split; [exact E|].
  destruct (Rebuild_recovers [blobCidOf Byte.x01] blobWorld st w' blobWorld_injective E) as (H1 & _ & _ & _ & H2 & _).
  split; [|exact H2]. apply H1. exists (blobCidOf Byte.x01), (oneBlob Byte.x01). split; [by left|].
  split; [exact blobWorld_stored|]. split; [exact oneBlob_hash|exact blobWorld_cid].
Defined.

(** ** Two workers, one blob *)

Definition fanned : fanout :=
  mkFanout 3 [Returned; Returned] [errOf (verifyBlob (oneBlob Byte.x01) 0)] [outOf (verifyBlob (oneBlob Byte.x01) 0)].
Lemma fanned_reached : rtc (fstep (oneBlob Byte.x01) 1) (fanout0 2 1) fanned.
Proof.
  eapply rtc_l; [eapply (f_claim _ _ 1); [reflexivity|simpl; lia]|].
  eapply rtc_l; [eapply (f_return _ _ 0); [reflexivity|simpl; lia]|].
  eapply rtc_l; [eapply (f_verify _ _ 1); reflexivity|].
  eapply rtc_l; [eapply (f_return _ _ 1); [reflexivity|simpl; lia]|]. apply rtc_refl.
Qed.
Lemma two_workers : (0 < 2)%nat.
Proof. lia. Qed.
Lemma fanned_returned : Forall (eq Returned) (fo_workers fanned).
Proof. repeat constructor. Qed.

Lemma verify_fanout_serial_witness :
  firstError (fo_errs fanned) = errOf (verify (oneBlob Byte.x01) 1) /\
  forall rs, verify (oneBlob Byte.x01) 1 = Ok rs -> fo_out fanned = Some <$> rs.
Proof.
  exact (proj2 (proj2 (verify_fanout_serial (oneBlob Byte.x01) 1 2 fanned two_workers fanned_reached)) fanned_returned).
Defined.
