(* ===== verification/ManifestWitnesses.v ===== *)
(** The manifest theorems at a concrete chain: a genesis manifest with an
    inbox-events source and its successor, which closes that source and adds an
    open-ended blob-txs one. *)
From Stdlib Require Strings.Byte.
From S2P Require Import Prelude Cid Schema Manifest Instances Demo.

Local Open Scope string_scope.
Local Open Scope Z_scope.
Local Open Scope list_scope.

Definition demoInbox (until : Z) (open : bool) : Source :=
  mkSource SourceInboxEvents (repeat Byte.x01 20) (repeat Byte.x02 32) [] 10 until open.
Definition demoTxs : Source := mkSource SourceBlobTxs (repeat Byte.x01 20) [] [repeat Byte.x03 20] 20 7 true.
Definition demoGenesis (until : Z) : Manifest := mkManifest 1 "base" [demoInbox until true] None.
Definition demoSuccessor : Manifest := mkManifest 1 "base" [demoInbox 19 false; demoTxs] (Some (rawCid [Byte.x09])).

Definition encoded (m : Manifest) : bytes * Cid :=
  match EncodeManifest m with Ok x => x | Err _ => ([], None) end.

Lemma demoGenesis_encoded until : EncodeManifest (demoGenesis until) = Ok (encoded (demoGenesis until)).
Proof. unfold encoded. reflexivity. Qed.
Lemma demoSuccessor_encoded : EncodeManifest demoSuccessor = Ok (encoded demoSuccessor).
Proof. reflexivity. Qed.
Lemma demoGenesis_u64 until : 0 <= until -> manifest_u64 (demoGenesis until).
Proof. repeat constructor; simpl; lia. Qed.
Lemma demoSuccessor_u64 : manifest_u64 demoSuccessor.
Proof. repeat constructor; simpl; lia. Qed.
Lemma encoded_pair m : EncodeManifest m = Ok (encoded m) -> EncodeManifest m = Ok (fst (encoded m), snd (encoded m)).
Proof. by rewrite <- surjective_pairing. Qed.

Lemma manifest_roundtrip_witness :
  DecodeManifest (fst (encoded demoSuccessor)) = Ok (manifest_norm demoSuccessor).
Proof.
  exact (proj1 (manifest_roundtrip _ _ _ demoSuccessor_u64 (encoded_pair _ demoSuccessor_encoded))).
Defined.

(** The bound of the open-ended source does not count, the prev link does. *)
Lemma manifest_cid_exact_witness :
  snd (encoded (demoGenesis 0)) = snd (encoded (demoGenesis 99)) /\
  snd (encoded (demoGenesis 0)) <> snd (encoded demoSuccessor).
Proof.
  assert (H0 : 0 <= 0) by lia. assert (H9 : 0 <= 99) by lia. split.
  - apply (manifest_cid_exact _ _ _ _ _ _ (demoGenesis_u64 0 H0) (demoGenesis_u64 99 H9)
             (encoded_pair _ (demoGenesis_encoded 0)) (encoded_pair _ (demoGenesis_encoded 99))). reflexivity.
  - intros E. apply (manifest_cid_exact _ _ _ _ _ _ (demoGenesis_u64 0 H0) demoSuccessor_u64
             (encoded_pair _ (demoGenesis_encoded 0)) (encoded_pair _ demoSuccessor_encoded)) in E. discriminate E.
Defined.

Lemma demoSuccessor_node_ok : node_ok (node_canon (manifest_node demoSuccessor)).
Proof.
  cbn. repeat (apply conj || (apply (bool_decide_unpack _); vm_compute; exact I)); lia.
Qed.
Lemma demoSuccessor_decodes :
  decodeNode (fst (encoded demoSuccessor)) = Ok (node_canon (manifest_node demoSuccessor)).
Proof. vm_compute. reflexivity. Qed.
Lemma demoSuccessor_decoded : DecodeManifest (fst (encoded demoSuccessor)) = Ok (manifest_norm demoSuccessor).
Proof. vm_compute. reflexivity. Qed.

Lemma manifest_one_spelling_witness : Manifest_Validate (manifest_norm demoSuccessor) = Ok tt.
Proof.
  exact (proj1 (manifest_one_spelling _ _ _ demoSuccessor_decodes demoSuccessor_node_ok demoSuccessor_decoded)).
Defined.
