(* ===== verification/FollowWitnesses.v ===== *)
(** Claims and arbitration at work: two writers publish the demo head at two points
    of its life; the store holds the blocks of both. *)
From Stdlib Require Strings.Byte.
From Stdlib Require String Ascii.
From S2P Require Import Prelude Arith Cid Schema Core Engine EngineWorld Dir HeadModel Lookup Apply ApplyCorrect Truncate Lifecycle Enumerate EnumerateCorrect Ledger Merkle Json Publication Claims ClaimsCorrect Arbitration ArbitrationCorrect Instances StoreInstances Demo Witnesses.

(** ** Instances *)

Definition text_String (c : CidOf bytes) : string := String.String (Ascii.ascii_of_nat 98) (EncodeToString (ser_cid c)).
Definition text_Decode (s : string) : option (CidOf bytes) :=
  match s with String.String _ s' => DecodeString s' ≫= cast_cid | String.EmptyString => None end.

#[global] Program Instance hex_cidtext : CidText (H := id_multihash) :=
  {| cid_Decode := text_Decode; cid_String := text_String |}.
Next Obligation. intros c. unfold text_Decode, text_String. rewrite DecodeString_Encode. simpl. apply cast_ser_cid. Qed.
Next Obligation. done. Qed.

(** A signature that is the message. *)
#[global] Program Instance plain_ed25519 : Ed25519 :=
  {| PrivateKey := byte; ed_Public := fun k => repeat k 32; ed_Sign := fun k msg => k :: msg;
     ed_Verify := fun pub msg sig => bool_decide (sig = default Byte.x00 (head pub) :: msg) |}.
Next Obligation. done. Qed.
Next Obligation. done. Qed.
Next Obligation. intros k msg. by apply bool_decide_eq_true_2. Qed.

#[global] Instance mem_scratch : ScratchStore Blocks := {| newScratch := [] |}.
#[global] Instance mem_scratch_ok : ScratchOk Blocks.
Proof.
  split; [done|]. intros v s Hs. cbn. unfold blocks_get. destruct (find_block s v) as [d|] eqn:E; [left; exists d; split; [done|by apply Hs]|by right].
Qed.

(** ** Two documents *)

Definition demoArchive : ArchiveID := mkArchiveID (repeat Byte.x07 32) eq_refl.
Definition demoUnsigned (h : DemoEngine) : Unsigned :=
  mkUnsigned 3 "mainnet" (Some demoArchive) "2026-01-01T00:00:00Z" [] (Some [headEntry (InfoOf h) None]) (Some 1).
Definition demoDoc (k : byte) (h : DemoEngine) : Doc :=
  match sign (Some k) (demoUnsigned h) with Ok d => d | Err _ => mkDoc (demoUnsigned h) "" "" 0 end.
Definition docA : Doc := demoDoc Byte.x41 demo1.
Definition docB : Doc := demoDoc Byte.x42 demo2.
Definition demoStore : Blocks := blocks demo2.

Lemma demoDoc_heads k h : Heads (d_Unsigned (demoDoc k h)) = [headEntry (InfoOf h) None].
Proof. unfold demoDoc. destruct (sign _ _) as [d|] eqn:E; [|done]. apply signed_unsigned in E. by rewrite E. Qed.

Lemma demo_publishes k h m : represents h m -> publishes (demoDoc k h) "all" m.
Proof.
  intros Hrep. split; [apply (rep_ok _ _ Hrep)|]. intros e He _. rewrite demoDoc_heads in He.
  apply list_elem_of_singleton in He as ->. unfold headEntry. cbn [he_Root].
  destruct (head_root_defined m) as [c Hc]; [apply (rep_ok _ _ Hrep)|].
  rewrite (represents_info h m Hrep). unfold info_of. cbn [i_Root]. rewrite Hc. apply Decode_String.
Qed.

Lemma docA_publishes : publishes docA "all" demoModel1.
Proof. apply demo_publishes, demo_represents1. Qed.
Lemma docB_publishes : publishes docB "all" demoModel2.
Proof. apply demo_publishes, demo_represents2. Qed.

Lemma root_determines_head_witness :
  represents demo1 demoModel1 /\ represents demo2 demoModel2 /\ (Root demo1 = Root demo2 <-> demoModel1 = demoModel2).
Proof.
  pose proof demo_represents1 as H1. pose proof demo_represents2 as H2.
  split; [exact H1|]. split; [exact H2|]. exact (root_determines_head demo1 demo2 demoModel1 demoModel2 H1 H2).
Defined.

Lemma docA_signed : is_ok (sign (Some Byte.x41) (demoUnsigned demo1)) = true.
Proof. vm_compute. reflexivity. Qed.

Lemma signed_verifies_witness :
  exists d, sign (ED := plain_ed25519) (Some Byte.x41) (demoUnsigned demo1) = Ok d /\ Verify d = Ok tt /\ d_Unsigned d = demoUnsigned demo1.
Proof.
  pose proof docA_signed as E. destruct (sign (ED := plain_ed25519) (Some Byte.x41) (demoUnsigned demo1)) as [d|] eqn:Ed; [|discriminate E].
  exists d. split; [reflexivity|]. exact (signed_verifies (ED := plain_ed25519) Byte.x41 (demoUnsigned demo1) d Ed).
Defined.

(** ** A document with an unfinalized head *)

Definition beaconRoot : string := bytes_string (Byte.x30 :: Byte.x78 :: hexEncode (repeat Byte.x05 32)).
Definition finalEntry : HeadEntry := headEntry (InfoOf demo1) None.
Definition tipEntry : HeadEntry :=
  mkEntry "tip" (cidString (Root demo2)) 9 (Some 12) 1 1 0 "" UnfinalizedMutable (Some 9)
    beaconRoot (Some 10) beaconRoot "all" (cidString (Root demo1)) (Some 8).
Definition tipDoc : Doc :=
  mkDoc (mkUnsigned 2 "mainnet" None "2026-01-01T00:00:00Z" [] (Some [finalEntry; tipEntry]) (Some 4)) "aa" "bb" 0.

Lemma tipDoc_valid : is_ok (ValidateContract tipDoc) = true.
Proof. vm_compute. reflexivity. Qed.
Lemma final_u64 e : he_OriginSlot e = 5 -> he_SyncedTo e = Some 8 -> he_HandoffSyncedTo e = None -> entry_u64 e.
Proof. intros H1 H2 H3. unfold entry_u64. rewrite H1, H2, H3. split; [done|]. split; [by intros x [= <-]|done]. Qed.
Lemma final_origin : he_OriginSlot finalEntry = 5.
Proof. vm_compute. reflexivity. Qed.
Lemma final_synced : he_SyncedTo finalEntry = Some 8.
Proof. vm_compute. reflexivity. Qed.
Lemma tipDoc_heads : Heads (d_Unsigned tipDoc) = [finalEntry; tipEntry].
Proof. reflexivity. Qed.
Lemma tipDoc_u64 : Forall entry_u64 (Heads (d_Unsigned tipDoc)).
Proof.
  rewrite tipDoc_heads. constructor; [exact (final_u64 _ final_origin final_synced eq_refl)|]. constructor; [|constructor].
  split; [done|]. split; by intros x [= <-].
Qed.

Lemma contract_no_gap_witness :
  ValidateContract tipDoc = Ok tt /\ tipEntry ∈ Heads (d_Unsigned tipDoc) /\
  exists f hs st, f ∈ Heads (d_Unsigned tipDoc) /\ he_SyncedTo f = Some hs /\ he_SyncedTo tipEntry = Some st /\
    forall x, x <= st -> x <= hs \/ he_OriginSlot tipEntry <= x <= st.
Proof.
  assert (E : ValidateContract tipDoc = Ok tt).
  { pose proof tipDoc_valid as E. destruct (ValidateContract tipDoc) as [[]|]; [reflexivity|discriminate E]. }
  assert (Hin : tipEntry ∈ Heads (d_Unsigned tipDoc)) by (rewrite tipDoc_heads; right; left).
  split; [exact E|]. split; [exact Hin|].
  destruct (contract_no_gap tipDoc tipEntry E tipDoc_u64 Hin eq_refl) as (_ & f & hs & st & H1 & _ & _ & _ & H2 & H3 & _ & H4).
  exists f, hs, st. split; [exact H1|]. split; [exact H2|]. split; [exact H3|]. exact H4.
Defined.

(** ** The later head includes the earlier one *)

Abbreviation demoClassify := (ClassifyFinalizedClaims (Scr := Blocks) (L := DemoLru) "all" docA docB demoStore).

Lemma demo_classified : ok_with (fun v => match v with Ok RightClaimDominates => true | _ => false end) demoClassify = true.
Proof. vm_compute. reflexivity. Qed.

Lemma demo_classified_run : exists s', demoClassify = (Ok (Ok RightClaimDominates), s').
Proof.
  destruct (ok_run _ _ demo_classified) as (v & s' & E & Hv). exists s'. rewrite E.
  destruct v as [[]|]; (reflexivity || discriminate Hv).
Qed.

Lemma demo_models_differ : demoModel1 <> demoModel2.
Proof. intros Heq. discriminate (f_equal m_synced Heq). Qed.

Lemma classification_exact_witness : included demoModel1 demoModel2 /\ demoModel1 <> demoModel2.
Proof.
  destruct demo_classified_run as [s' E].
  destruct (classification_exact (Scr := Blocks) (L := DemoLru) "all" docA docB demoModel1 demoModel2 demoStore _ s'
    docA_publishes docB_publishes eq_refl E) as (v & Ev & [(l & r & _ & _ & Hv)|[(e & _ & Hx)|(l & e & _ & _ & Hx)]]);
    injection Ev as <-; [|discriminate Hx..]. destruct Hv as (_ & [Hi _] & _).
  split; [exact Hi|exact demo_models_differ].
Defined.

Lemma classification_only_reads_witness :
  exists v s', demoClassify = (v, s') /\ rtc read_step demoStore s'.
Proof.
  destruct demoClassify as [v s'] eqn:E. exists v, s'. split; [reflexivity|].
  exact (classification_only_reads (Scr := Blocks) (L := DemoLru) "all" docA docB demoStore v s' E).
Defined.

(** ** Arbitration between the two writers *)

Definition candA : FinalizedClaimCandidate := mkCandidate "writer-a" docA.
Definition candB : FinalizedClaimCandidate := mkCandidate "writer-b" docB.
Definition demoHead (c : FinalizedClaimCandidate) : hmodel :=
  if decide (SourceID c = "writer-b"%string) then demoModel2 else demoModel1.
Abbreviation demoSelect cs := (SelectFinalizedClaim (Scr := Blocks) (L := DemoLru) demoCfg "all" cs demoStore).

Lemma demo_selected : ok_with (fun o => match o with Selected r _ [] => String.eqb (SourceID r) "writer-b" | _ => false end)
  (demoSelect [candA; candB]) = true.
Proof. vm_compute. reflexivity. Qed.

Lemma cands_publish : Forall (fun c => publishes (Document c) "all" (demoHead c)) [candA; candB].
Proof. constructor; [exact docA_publishes|]. constructor; [exact docB_publishes|constructor]. Qed.

(** The writer that is behind is included in the selected head. *)
Lemma selection_is_maximum_witness : exists rep eqs s',
  demoSelect [candA; candB] = (Ok (Selected rep eqs []), s') /\ rep ∈ [candA; candB] /\ included demoModel1 (demoHead rep).
Proof.
  destruct (ok_run _ _ demo_selected) as (o & s' & E & Ho). destruct o as [rep eqs [|f unav]| | |]; try discriminate Ho.
  exists rep, eqs, s'. split; [exact E|].
  destruct (selection_is_maximum (Scr := Blocks) (L := DemoLru) demoCfg "all" [candA; candB] demoHead demoStore _ s' cands_publish E)
    as (H1 & _ & _ & H2).
  split; [exact H1|]. destruct (H2 candA ltac:(left)) as [[Hi _]|(f & Hf & _)]; [exact Hi|].
  exfalso. exact (not_elem_of_nil f Hf).
Defined.

Lemma selection_order_independent_witness :
  demoSelect [candA; candB] = demoSelect [candB; candA] \/
  exists m m', demoSelect [candA; candB] = (Err (EInvalid m), demoStore) /\ demoSelect [candB; candA] = (Err (EInvalid m'), demoStore).
Proof.
  exact (selection_order_independent (Scr := Blocks) (L := DemoLru) demoCfg "all" [candA; candB] [candB; candA] demoStore
    (Permutation_swap candB candA [])).
Defined.

(** A claim of another archive is incomparable. *)
Definition otherArchive : ArchiveID := mkArchiveID (repeat Byte.x08 32) eq_refl.
Definition otherUnsigned : Unsigned :=
  mkUnsigned 3 "mainnet" (Some otherArchive) "2026-01-01T00:00:00Z" [] (Some [headEntry (InfoOf demo1) None]) (Some 1).
Definition docC : Doc :=
  match sign (ED := plain_ed25519) (Some Byte.x43) otherUnsigned with Ok d => d | Err _ => mkDoc otherUnsigned "" "" 0 end.
Definition candC : FinalizedClaimCandidate := mkCandidate "writer-c" docC.

Lemma docC_publishes : publishes docC "all" demoModel1.
Proof.
  assert (Hh : Heads (d_Unsigned docC) = Heads (d_Unsigned docA)).
  { unfold docC, docA. rewrite demoDoc_heads. destruct (sign _ otherUnsigned) as [d|] eqn:E; [|done]. apply signed_unsigned in E. by rewrite E. }
  split; [apply docA_publishes|]. intros e. rewrite Hh. apply docA_publishes.
Qed.

Lemma docA_tip : docTip "all" candA = None.
Proof. vm_compute. reflexivity. Qed.
Lemma docC_tip : docTip "all" candC = None.
Proof. vm_compute. reflexivity. Qed.

Lemma demo_incomparable : ok_with (fun o => match o with IncomparableError _ => true | _ => false end)
  (demoSelect [candA; candC]) = true.
Proof. vm_compute. reflexivity. Qed.

Lemma selection_decides_witness : exists ps s',
  demoSelect [candA; candC] = (Ok (IncomparableError ps), s') /\ ps <> [].
Proof.
  destruct (ok_run _ _ demo_incomparable) as (o & s' & E & Ho). destruct o as [| |ps|]; try discriminate Ho.
  exists ps, s'. split; [exact E|].
  assert (Hp : Forall (fun c => publishes (Document c) "all" (demoHead c)) [candA; candC]).
  { constructor; [exact docA_publishes|]. constructor; [exact docC_publishes|constructor]. }
  assert (Ht : forall a, a ∈ [candA; candC] -> docTip "all" a = None).
  { intros a [->|[->|Ha%not_elem_of_nil]%elem_of_cons]%elem_of_cons; [exact docA_tip|exact docC_tip|destruct Ha]. }
  assert (Hac : forall a b, a ∈ [candA; candC] -> b ∈ [candA; candC] -> manifest_le (docTip "all" a) (docTip "all" b) ->
    manifest_le (docTip "all" b) (docTip "all" a) -> docTip "all" a = docTip "all" b).
  { intros a b Ha Hb _ _. rewrite (Ht a Ha), (Ht b Hb). reflexivity. }
  exact (proj1 (selection_decides (Scr := Blocks) (L := DemoLru) demoCfg "all" [candA; candC] demoHead demoStore _ s' Hp Hac E)).
Defined.
