(* ===== verification/StateWitnesses.v ===== *)
(** The follower's durable memory at work: a checkpoint of the unfinalized demo head
    with its finalized line, an admission of it and the floors it leaves. *)
From Stdlib Require Strings.Byte.
From Stdlib Require String Ascii.
From S2P Require Import Prelude Arith Cid Schema Core Engine EngineWorld Ledger Wire Json JsonDecode Publication PublicationJson Claims Arbitration Checkpoint CheckpointCorrect FollowState FollowStateCorrect Instances StoreInstances Demo FollowWitnesses.

(** Names with a leading letter. *)
#[global] Program Instance demo_names : IpnsNames :=
  {| IName := string; iname_String := fun s => String.String (Ascii.ascii_of_nat 107) s;
     NameFromString := fun s => match s with String.String _ s' => Some s' | String.EmptyString => None end |}.
Next Obligation. done. Qed.
Next Obligation. done. Qed.

Definition u64b (z : Z) : bool := (0 <=? z) && (z <? 2 ^ 64).
Lemma u64b_ok z : u64b z = true -> is_u64 z.
Proof. intros [?%Z.leb_le ?%Z.ltb_lt]%andb_true_iff. by split. Qed.
Definition entry_okb (e : HeadEntry) : bool :=
  forallb validString
    [he_Name e; he_Root e; he_Manifest e; he_Kind e; he_SourceHeadRoot e; he_SourceFinalizedRoot e; he_HandoffHead e; he_HandoffRoot e]
  && forallb u64b [he_OriginSlot e; he_SegBits e; he_FanoutBits e; he_DirDepth e]
  && forallb (fun o => match o with Some v => u64b v | None => true end)
       [he_SyncedTo e; he_WindowStart e; he_SourceFinalizedSlot e; he_HandoffSyncedTo e].
Lemma entry_okb_ok e : entry_okb e = true -> entry_ok e.
Proof.
  intros [[H1 H2]%andb_true_iff H3]%andb_true_iff. split.
  - apply Forall_forall. intros s Hs. eapply forallb_forall in H1; [done|]. by apply list_elem_of_In.
  - apply Forall_forall. intros z Hz. apply u64b_ok. eapply forallb_forall in H2; [done|]. by apply list_elem_of_In.
  - apply Forall_forall. intros o Ho v ->. apply u64b_ok. eapply forallb_forall in H3; [|by apply list_elem_of_In]. done.
Qed.

Lemma final_ok : entry_ok finalEntry.
Proof. apply entry_okb_ok. vm_compute. reflexivity. Qed.
Lemma tip_ok : entry_ok tipEntry.
Proof. apply entry_okb_ok. vm_compute. reflexivity. Qed.
Lemma tipDoc_ok : unsigned_ok (d_Unsigned tipDoc).
Proof.
  split; [repeat constructor|]. rewrite tipDoc_heads. constructor; [exact final_ok|]. constructor; [exact tip_ok|constructor].
Qed.

Lemma digest_identifies_document_witness :
  exists d, CanonicalDigest (MH := id_multihash) (d_Unsigned tipDoc) = Ok d /\ d_Unsigned tipDoc = d_Unsigned tipDoc.
Proof.
  assert (E : is_ok (CanonicalDigest (MH := id_multihash) (d_Unsigned tipDoc)) = true) by (vm_compute; reflexivity).
  destruct (CanonicalDigest (MH := id_multihash) (d_Unsigned tipDoc)) as [d|] eqn:Ed; [|discriminate E].
  exists d. split; [reflexivity|]. exact (digest_identifies_document (d_Unsigned tipDoc) (d_Unsigned tipDoc) d tipDoc_ok tipDoc_ok Ed Ed).
Defined.

(** ** Checkpoints *)

Definition publisher : array32 := mkArchiveID (repeat Byte.x41 32) eq_refl.
Definition demoFloor (revision : Z) : authorityFloor := mkFloor publisher revision (mkArchiveID (repeat Byte.x09 32) eq_refl).
Definition demoTime : Time := 1767225600 * 10 ^ 9.
Definition demoMade : res checkpoint :=
  makeCheckpointV4 "mainnet" demoArchive "source-a" true (Some tipEntry) (Some finalEntry) (Some finalEntry) demoTime (demoFloor 4).
Definition demoCp : checkpoint :=
  match demoMade with
  | Ok cp => cp
  | Err _ => mkCheckpoint None 0 None 0 EmptyString publisher 0 publisher 0 0 false "" publisher "" None None None
  end.
Lemma demoMade_ok : is_ok demoMade = true.
Proof. vm_compute. reflexivity. Qed.

Definition fitsb (cp : checkpoint) : bool :=
  u64b (cp_syncedTo cp) && u64b (cp_revision cp) && u64b (cp_windowStart cp) && (0 <=? Unix (cp_updatedAt cp))
  && (Unix (cp_updatedAt cp) <? 2 ^ 63) && (len (Checkpoint.rawCid (cp_root cp)) <? 65536)
  && forallb (fun o => match o with Some e => entry_okb e | None => true end) [cp_published cp; cp_handoff cp; cp_overlay cp].
Lemma fitsb_ok cp : fitsb cp = true -> checkpoint_fits cp.
Proof.
  unfold fitsb. rewrite !andb_true_iff. intros ((((((H1 & H2) & H3) & H4) & H5) & H6) & H7).
  apply Z.leb_le in H4. apply Z.ltb_lt in H5, H6. split; [by apply u64b_ok..|lia|done|].
  intros e He. apply entry_okb_ok. cbn in H7. rewrite !andb_true_iff in H7. destruct H7 as (G1 & G2 & G3 & _).
  destruct He as [E|[E|E]]; rewrite E in *; done.
Qed.
Lemma demoCp_fits : checkpoint_fits demoCp.
Proof. apply fitsb_ok. vm_compute. reflexivity. Qed.
Lemma demoCp_encodes : is_ok (encodeCheckpoint demoCp) = true.
Proof. vm_compute. reflexivity. Qed.

Lemma checkpoint_roundtrip_witness : exists b, encodeCheckpoint demoCp = Ok b /\ decodeCheckpoint b = stored demoCp.
Proof.
  pose proof demoCp_encodes as E. destruct (encodeCheckpoint demoCp) as [b|] eqn:Eb; [|discriminate E].
  exists b. split; [reflexivity|]. exact (proj1 (checkpoint_roundtrip demoCp b demoCp_fits Eb)).
Defined.

Definition demoRead : res checkpoint := b <-? encodeCheckpoint demoCp ;; decodeCheckpoint b.
Lemma demoRead_version : match demoRead with Ok cp => cp_version cp =? 4 | Err _ => false end = true.
Proof. vm_compute. reflexivity. Qed.

Lemma checkpoint_one_spelling_witness : exists b cp, decodeCheckpoint b = Ok cp /\ cp_version cp = 4 /\ encodeCheckpoint cp = Ok b.
Proof.
  pose proof demoRead_version as E. unfold demoRead in E. destruct (encodeCheckpoint demoCp) as [b|] eqn:Eb; [|discriminate E].
  cbn in E. destruct (decodeCheckpoint b) as [cp|] eqn:Ec; [|discriminate E]. apply Z.eqb_eq in E. exists b, cp.
  split; [exact Ec|]. split; [exact E|]. exact (checkpoint_one_spelling b cp Ec (or_intror E)).
Defined.

(** ** Admission and floors *)

Definition demoPlans : list adoptPlan := [mkPlan "tip" demoCp true; mkPlan "all" demoCp false].
Definition demoDelegation : delegation := mkDelegation "name" (repeat Byte.x41 32).
Definition demoAdmission : res unit * MemKV := commitAdmission demoPlans demoTime (Some demoDelegation) (Some (demoFloor 4)) (∅ : MemKV).
Lemma demoAdmission_ok : is_ok (fst demoAdmission) = true.
Proof. vm_compute. reflexivity. Qed.
Lemma demoFloor_u64 : forall f, Some (demoFloor 4) = Some f -> is_u64 (fl_revision f).
Proof. by intros f [= <-]. Qed.
Lemma demoTime_ok : time_ok demoTime.
Proof. by unfold time_ok. Qed.
Lemma demoPlans_distinct : NoDup (pl_name <$> filter writes demoPlans).
Proof. change (NoDup ["tip"]). constructor; [by intros ?%elem_of_nil|constructor]. Qed.
Lemma demoPlans_fit : Forall (fun p => writes p -> checkpoint_fits (pl_cp p)) demoPlans.
Proof. apply Forall_cons; split; [intros _; exact demoCp_fits|]. apply Forall_cons; split; [intros _; exact demoCp_fits|by apply Forall_nil]. Qed.

Lemma admission_atomic_witness :
  exists m : MemKV, commitAdmission demoPlans demoTime (Some demoDelegation) (Some (demoFloor 4)) (∅ : MemKV) = (Ok tt, m) /\
    admitted (kv (∅ : MemKV)) (kv m) demoPlans demoTime (Some demoDelegation) (Some (demoFloor 4)).
Proof.
  pose proof demoAdmission_ok as E. unfold demoAdmission in E.
  destruct (commitAdmission demoPlans demoTime (Some demoDelegation) (Some (demoFloor 4)) (∅ : MemKV)) as [r m] eqn:Er.
  destruct r as [[]|e]; [|discriminate E]. exists m. split; [reflexivity|].
  exact (admission_atomic demoPlans demoTime (Some demoDelegation) (Some (demoFloor 4)) (∅ : MemKV) (Ok tt) m
    demoTime_ok demoFloor_u64 demoPlans_distinct demoPlans_fit Er).
Defined.

Definition demoOps : list fop :=
  [FAdmit demoPlans demoTime (Some demoDelegation) (Some (demoFloor 4)); FSeq "name" 7 true;
   FAdmit [] demoTime None (Some (demoFloor 3)); FRetire "tip"].
Lemma demoOps_ok : Forall op_ok demoOps.
Proof.
  apply Forall_cons; split; [exact (conj demoTime_ok demoFloor_u64)|]. apply Forall_cons; split; [by split|].
  apply Forall_cons; split; [split; [exact demoTime_ok|by intros f [= <-]]|]. apply Forall_cons; split; [exact I|by apply Forall_nil].
Qed.

Lemma floors_never_regress_witness : no_regress (kv (∅ : MemKV)) (kv (runOps demoOps (∅ : MemKV))).
Proof. exact (floors_never_regress demoOps (∅ : MemKV) demoOps_ok). Defined.

(** The refused document of revision 3 left the floor at 4. *)
Lemma demoOps_floor : fl_revision <$> floorOf (kv (runOps demoOps (∅ : MemKV))) publisher = Some 4.
Proof. vm_compute. reflexivity. Qed.

Definition demoName : IName := "name"%string.
Lemma no_floors_yet : ipnsFloorsOf (kv (∅ : MemKV)) = Some [].
Proof. reflexivity. Qed.
Lemma ipns_floors_kept_witness : exists (m : MemKV) fl, setIPNSSeq demoName 7 true (∅ : MemKV) = (Ok tt, m) /\
  ipnsFloorsOf (kv m) = Some fl /\ floors_kept (kv (∅ : MemKV)) demoName [] fl.
Proof.
  assert (E : is_ok (fst (setIPNSSeq demoName 7 true (∅ : MemKV))) = true) by (vm_compute; reflexivity).
  destruct (setIPNSSeq demoName 7 true (∅ : MemKV)) as [r m] eqn:Er. destruct r as [[]|e]; [|discriminate E].
  destruct (ipns_floors_kept demoName 7 true (∅ : MemKV) (Ok tt) m [] (conj (Zle_bool_imp_le 0 7 eq_refl) eq_refl) no_floors_yet (NoDup_nil_2) Er)
    as (fl & Hfl & Hk & _).
  exists m, fl. split; [reflexivity|]. split; [exact Hfl|exact Hk].
Defined.
