(* ===== verification/SourceWitnesses.v ===== *)
(** The source set and the conflict latch at work: a roster of two sources over a
    migrated single-source memory, contradicting claims that are latched and cleared. *)
From Stdlib Require Strings.Byte.
From Stdlib Require String Ascii.
From S2P Require Import Prelude Arith Cid Schema Core Engine EngineWorld Ledger Wire Json JsonDecode Publication PublicationJson Claims Arbitration Checkpoint CheckpointCorrect FollowState FollowStateCorrect SourceState SourceStateCorrect SourceSteps SourceMigration ConflictState ConflictCodec ConflictInv ConflictLatch ConflictRuntime ConflictSteps ConflictRestart Instances StoreInstances Demo FollowWitnesses StateWitnesses.

(** A checksum in place of the digest. *)
Definition checksum (d : bytes) : Z := foldl (fun acc b => (acc * 257 + byte_Z b + 1) mod (2 ^ 64)) 7 d.
#[global] Instance demo_digests : DigestBytes (H := id_multihash) := {| digest_array := fun d => arr32 (Byte.x45 :: PutUint64 (checksum d) ++ repeat Byte.x00 23) |}.

Definition filled (b : byte) : array32 := mkArchiveID (repeat b 32) eq_refl.

(** ** A roster of two sources *)

Definition rosterMarker (revision : Z) (digest : array32) : sourceSetMarker := mkMarker demoArchive revision digest 0.
Definition roster : list sourceBinding := [mkBinding "beta" (filled Byte.x42); mkBinding "alpha" publisher].
Definition demoActivation : sourceSetActivation := mkActivation (rosterMarker 1 (filled Byte.x51)) roster None.
(** A rollback, and a roster that gives the key of one source to another. *)
Definition rolledBack : sourceSetActivation := mkActivation (rosterMarker 1 (filled Byte.x52)) roster None.
Definition rebound : sourceSetActivation := mkActivation (rosterMarker 2 (filled Byte.x52)) [mkBinding "gamma" publisher] None.
Definition raised : sourceSetActivation := mkActivation (rosterMarker 2 (filled Byte.x52)) [mkBinding "alpha" publisher; mkBinding "gamma" (filled Byte.x43)] None.

Definition demoRef (i : string) : sourceRef := mkRef demoArchive i.
Definition demoSourceAdmission (i : string) (revision : Z) : sourceDocumentAdmission :=
  mkSourceAdmission (demoRef i) demoTime (mkSourceFloor revision (filled Byte.x61)) None.
Definition demoAdmissions : gmap string sourceDocumentAdmission :=
  <["alpha" := demoSourceAdmission "alpha" 4]> (<["beta" := demoSourceAdmission "beta" 5]> ∅).

(** ** Contradicting claims *)

Definition summary (i : string) (revision : Z) (root : bytes) : ConflictCandidateSummary :=
  mkSummary ConflictCandidateSource 0 i revision (filled Byte.x61) (match NodeCID root with Ok c => c | Err _ => None end) 31 true None.
Definition demoRequest : ConflictLatchInput :=
  mkLatchInput demoArchive "all" ConflictReasonEqualCoverageRootMismatch 1 (filled Byte.x51) 1 (summary "alpha" 4 [Byte.x01]) (summary "beta" 5 [Byte.x02]).
Definition demoPending : list pendingLatch := [mkPending demoRequest []].
Definition demoLatch : cop := CPersist demoArchive ["alpha"; "beta"] demoAdmissions demoPending.

Definition setup : list cop := [CSource (SActivate demoActivation); CSource (SActivate rolledBack); demoLatch; CSource (SActivate rebound)].
Definition latched : MemKV := runConflicts setup (∅ : MemKV).
Definition demoRecord : option ConflictRecord := activeOf (kv latched) demoArchive "all".
Definition demoEvidence : array32 := match demoRecord with Some r => cr_EvidenceID r | None => publisher end.
Definition demoClear (evidence : array32) : ConflictClearRequest := mkClearRequest demoArchive "all" evidence demoTime "operator" "checked".

Lemma u64_ok z : u64b z = true -> is_u64 z.
Proof. exact (u64b_ok z). Qed.
Lemma demoRequest_fits : input_fits demoRequest.
Proof. split_and!; vm_compute; done. Qed.
Lemma demoPending_fit : pending_fit demoPending.
Proof. split; [constructor; [exact demoRequest_fits|constructor]|]. constructor; [by intros ?%elem_of_nil|constructor]. Qed.
Lemma demoAdmissions_fit : admissions_fit demoAdmissions.
Proof. apply map_Forall_insert_2; [done|]. by apply map_Forall_insert_2; [|apply map_Forall_empty]. Qed.

Definition later : list cop := [CClear (demoClear publisher); CSource (SActivate raised); demoLatch].
Lemma setup_ok : Forall cop_ok setup.
Proof. repeat (apply Forall_cons; split; [first [by apply u64_ok|exact (conj demoAdmissions_fit demoPending_fit)]|]). by apply Forall_nil. Qed.
Lemma later_ok : Forall cop_ok later.
Proof. repeat (apply Forall_cons; split; [first [by apply u64_ok|exact (conj demoAdmissions_fit demoPending_fit)|done]|]). by apply Forall_nil. Qed.

(** The rollback and the rebound key were refused, the contradicting claims latched. *)
Lemma latched_marker : (fun mk => (sm_revision mk, sm_features mk)) <$> markerOf latched = Some (1, 1).
Proof. vm_compute. reflexivity. Qed.
Lemma latched_record : (fun r => (cr_Sequence r, cs_SourceID (cr_Left r))) <$> demoRecord = Some (1, "beta"%string).
Proof. vm_compute. reflexivity. Qed.

Lemma latch_cleared_only_by_evidence_witness : exists r, activeOf (kv latched) demoArchive "all" = Some r /\
  (activeOf (kv (runConflicts later latched)) demoArchive "all" = Some r \/
   exists q, CClear q ∈ later /\ cq_ArchiveID q = demoArchive /\ cq_Head q = "all"%string /\ cq_EvidenceID q = cr_EvidenceID r).
Proof.
  pose proof latched_record as E. unfold demoRecord in E. destruct (activeOf (kv latched) demoArchive "all") as [r|] eqn:Er; [|discriminate E].
  exists r. split; [reflexivity|]. exact (proj1 (latch_cleared_only_by_evidence later latched later_ok) demoArchive "all"%string r Er).
Defined.
(** The clear that names other evidence left the latch. *)
Lemma later_record : cr_Sequence <$> activeOf (kv (runConflicts later latched)) demoArchive "all" = Some 1.
Proof. vm_compute. reflexivity. Qed.

Lemma source_set_never_undone_witness : exists b, bindingOf (kv latched) (demoRef "alpha") = Some b /\ bindingOf (kv (runConflicts later latched)) (demoRef "alpha") = Some b.
Proof.
  assert (E : sb_sourceID <$> bindingOf (kv latched) (demoRef "alpha") = Some "alpha"%string) by (vm_compute; reflexivity).
  destruct (bindingOf (kv latched) (demoRef "alpha")) as [b|] eqn:Eb; [|discriminate E]. exists b. split; [reflexivity|].
  exact (proj1 (source_set_never_undone later latched later_ok) (demoRef "alpha") b Eb).
Defined.

(** ** The cut of a poll, a clear and a restart *)

Definition rostered : MemKV := runConflicts [CSource (SActivate demoActivation)] (∅ : MemKV).
Lemma demoCut_ok : (length <$> match fst (persistLatches demoArchive ["alpha"; "beta"] demoAdmissions demoPending rostered) with Ok l => Some l | Err _ => None end) = Some 1%nat.
Proof. vm_compute. reflexivity. Qed.

Lemma persisted_latches_active_witness : exists staged (m : MemKV), persistLatches demoArchive ["alpha"; "beta"] demoAdmissions demoPending rostered = (Ok staged, m) /\ length staged = 1%nat /\
  Forall2 (fun p x => NewConflictLatchRequest (pd_request p) = Ok (recordInput x.1) /\ activeOf (kv m) (cr_ArchiveID x.1) (cr_Head x.1) = Some x.1) demoPending staged.
Proof.
  pose proof demoCut_ok as E. destruct (persistLatches demoArchive ["alpha"; "beta"] demoAdmissions demoPending rostered) as [r m] eqn:Er.
  destruct r as [staged|e]; [|discriminate E]. exists staged, m. split; [reflexivity|]. split; [by injection E|].
  exact (proj2 (persisted_latches_active demoArchive ["alpha"; "beta"] demoAdmissions demoPending rostered (Ok staged) m demoAdmissions_fit demoPending_fit Er) staged eq_refl).
Defined.

Lemma demoClear_ok : is_ok (fst (ClearConflictLatch (demoClear demoEvidence) latched)) = true.
Proof. vm_compute. reflexivity. Qed.
Lemma clear_time : Unix (cq_ClearedAt (demoClear demoEvidence)) < 2 ^ 63.
Proof. done. Qed.
Lemma clear_ends_occurrence_witness : exists rc (m : MemKV), ClearConflictLatch (demoClear demoEvidence) latched = (Ok rc, m) /\ activeOf (kv m) demoArchive "all" = None.
Proof.
  pose proof demoClear_ok as E. destruct (ClearConflictLatch (demoClear demoEvidence) latched) as [r m] eqn:Er. destruct r as [rc|e]; [|discriminate E].
  exists rc, m. split; [reflexivity|].
  destruct (clear_ends_occurrence (demoClear demoEvidence) latched (Ok rc) m clear_time Er) as [[_ H]|(act & rc' & l & H)]; [discriminate H|].
  exact (proj1 (proj2 (proj2 H))).
Defined.

(** A head that was cleared is latched again as its second occurrence. *)
Lemma relatched : cr_Sequence <$> activeOf (kv (runConflicts [CClear (demoClear demoEvidence); demoLatch] latched)) demoArchive "all" = Some 2.
Proof. vm_compute. reflexivity. Qed.

Definition followed : gset string := {["all"; "other"]}.
Lemma latched_archive : ofArchive (kv latched) demoArchive.
Proof.
  intros mk H. assert (E : bool_decide (sm_archiveID <$> markerOf (kv latched) = Some demoArchive) = true) by (vm_compute; reflexivity).
  apply bool_decide_eq_true_1 in E. rewrite H in E. by injection E.
Qed.
Lemma latched_finalized : latches_finalized (kv latched) demoArchive followed ∅.
Proof. intros h r _ _. unfold expectedKind. by rewrite lookup_empty. Qed.
Lemma empty_rows : noSourceRows (kv (∅ : MemKV)).
Proof. by intros k _. Qed.
Lemma demoLoad_ok : is_ok (fst (loadConflictLatches demoArchive followed ∅ latched)) = true.
Proof. vm_compute. reflexivity. Qed.
Lemma demoArchive_set : ArchiveID_IsZero demoArchive = false.
Proof. vm_compute. reflexivity. Qed.
Lemma restart_loads_latches_witness : exists cs (m : MemKV), loadConflictLatches demoArchive followed ∅ latched = (Ok cs, m) /\
  forall h, cs !! h = if decide (h ∈ followed) then activeOf (kv latched) demoArchive h else None.
Proof.
  pose proof demoLoad_ok as E. destruct (loadConflictLatches demoArchive followed ∅ latched) as [r m] eqn:Er. destruct r as [cs|e]; [|discriminate E].
  exists cs, m. split; [reflexivity|].
  destruct (restart_loads_latches setup (∅ : MemKV) demoArchive followed ∅ (Ok cs) m empty_rows setup_ok demoArchive_set latched_archive latched_finalized Er) as [H|(cs' & H1 & H2)]; [discriminate H|].
  injection H1 as ->. exact H2.
Defined.

Lemma conflict_record_roundtrip_witness : exists i r b, NewConflictLatchRequest demoRequest = Ok i /\ encodeConflictRecord r = Ok b /\ decodeConflictRecord b = Ok r /\ recordInput r = i /\ cr_Sequence r = 3.
Proof.
  assert (E : is_ok (NewConflictLatchRequest demoRequest) = true) by (vm_compute; reflexivity). destruct (NewConflictLatchRequest demoRequest) as [i|] eqn:Ei; [|discriminate E].
  destruct (proj1 conflict_record_roundtrip demoRequest i 3 demoRequest_fits (conj eq_refl eq_refl) Ei) as (r & b & _ & H1 & H2 & H3 & H4). exists i, r, b. auto.
Defined.

(** ** Migration *)

Definition single : MemKV := snd (commitAdmission demoPlans demoTime (Some demoDelegation) (Some (demoFloor 4)) (∅ : MemKV)).
Definition migration : sourceLegacyMigration := mkMigration "alpha" None.
Definition migrating : sourceSetActivation := mkActivation (rosterMarker 1 (filled Byte.x51)) roster (Some migration).
Lemma migrating_ok : is_ok (fst (activateSourceSet migrating single)) = true.
Proof. vm_compute. reflexivity. Qed.
Lemma single_floor : fl_revision <$> floorOf (kv single) publisher = Some 4.
Proof. vm_compute. reflexivity. Qed.
Lemma single_unmarked : markerOf (kv single) = None.
Proof. vm_compute. reflexivity. Qed.
Lemma migration_copies_witness : exists f (m : MemKV), activateSourceSet migrating single = (Ok tt, m) /\ floorOf (kv single) publisher = Some f /\ fl_revision f = 4 /\
  sourceFloorOf (kv m) (demoRef "alpha") = Some (mkSourceFloor (fl_revision f) (fl_digest f)).
Proof.
  pose proof migrating_ok as E. destruct (activateSourceSet migrating single) as [r m] eqn:Er. destruct r as [[]|e]; [|discriminate E].
  pose proof single_floor as Ef. destruct (floorOf (kv single) publisher) as [f|] eqn:Eq; [|discriminate Ef]. exists f, m. split; [reflexivity|]. split; [reflexivity|]. split; [by injection Ef|].
  exact (proj2 (proj1 (proj2 (migration_copies migrating migration single m (u64_ok 1 eq_refl) Er single_unmarked eq_refl)) publisher f Eq)).
Defined.
