(* ===== verification/TrackerWitnesses.v ===== *)
(** The writer's records and the tracker at work: a chain of four blocks with a fork,
    an archive that misses one blob, and a generation record committed over it. *)
From Stdlib Require Strings.Byte.
From Stdlib Require String Ascii.
From S2P Require Import Prelude Arith Cid Schema Core Engine EngineWorld Store Ledger Policy Reconcile Staging Apply Ingest Json JsonDecode Publication PublicationJson Claims Arbitration Generations GenerationsCorrect Snapshot Tracker TrackerCorrect Instances StoreInstances Demo Witnesses StoreWitnesses GCWitnesses IngestWitnesses FollowWitnesses StateWitnesses.

(** ** Generations *)

Definition gen1 (root : CidOf bytes) : GenerationState :=
  mkGen 2 UnfinalizedMutable 1 (EncodeToString (repeat Byte.x09 32)) (text_String root) 9 12 beaconRoot 12 10 beaconRoot
    (text_String root) 8 "all" (text_String root) 8.
Definition gen_okb (st : GenerationState) : bool :=
  forallb validString [gs_Kind st; gs_RequestDigest st; gs_Root st; gs_SourceHeadRoot st; gs_SourceFinalizedRoot st; gs_ObservedHandoffRoot st;
    gs_HandoffHead st; gs_HandoffRoot st]
  && forallb u64b [gs_Generation st; gs_WindowStart st; gs_SyncedTo st; gs_SourceHeadSlot st; gs_SourceFinalizedSlot st;
    gs_ObservedHandoffSyncedTo st; gs_HandoffSyncedTo st] && (gs_V st =? 2).
Lemma gen_okb_ok st : gen_okb st = true -> gen_ok st.
Proof.
  intros [[H1 H2]%andb_true_iff H3%Z.eqb_eq]%andb_true_iff. split; [| |rewrite H3; lia].
  - apply Forall_forall. intros s Hs. eapply forallb_forall in H1; [done|]. by apply list_elem_of_In.
  - apply Forall_forall. intros z Hz. apply u64b_ok. eapply forallb_forall in H2; [done|]. by apply list_elem_of_In.
Qed.
Lemma gen1_ok : gen_ok (gen1 blobA).
Proof. apply gen_okb_ok. vm_compute. reflexivity. Qed.

Definition baselined : MemKV := snd (EnsureKind "tip" UnfinalizedMutable (∅ : MemKV)).
Lemma zero_u64 : is_u64 0.
Proof. by split. Qed.

Lemma generation_commit_atomic_witness : exists m : MemKV, Gen_Commit "tip" 0 (Some blobA) (gen1 blobA) baselined = (Ok tt, m) /\
  genOf (kv m) "tip" = Some (gen1 blobA).
Proof.
  assert (E : is_ok (fst (Gen_Commit "tip" 0 (Some blobA) (gen1 blobA) baselined)) = true) by (vm_compute; reflexivity).
  destruct (Gen_Commit "tip" 0 (Some blobA) (gen1 blobA) baselined) as [r m] eqn:Er. destruct r as [[]|e]; [|discriminate E].
  exists m. split; [reflexivity|].
  destruct (generation_commit_atomic "tip" 0 (Some blobA) (gen1 blobA) baselined (Ok tt) m zero_u64 gen1_ok Er)
    as (c & cur & _ & _ & _ & _ & _ & _ & H & _).
  exact H.
Defined.

Definition demoGops : list gop :=
  [GEnsure "tip" UnfinalizedMutable; GCommit "tip" 0 (Some blobA) (gen1 blobA); GCommit "tip" 0 (Some blobA) (gen1 blobA);
   GNext (repeat Byte.x41 32); GNext (repeat Byte.x42 32); GNext (repeat Byte.x41 32); GEnsure "tip" FinalizedMonotonic].
Lemma demoGops_ok : Forall gop_ok demoGops.
Proof. repeat (apply Forall_cons; split; [first [exact I|exact (conj zero_u64 gen1_ok)]|]). by apply Forall_nil. Qed.

Lemma generations_never_roll_back_witness : no_rollback (kv (∅ : MemKV)) (kv (runGops demoGops (∅ : MemKV))).
Proof. exact (generations_never_roll_back demoGops (∅ : MemKV) demoGops_ok). Defined.

Lemma revisions_increase_witness : exists v v', allocated demoGops (∅ : MemKV) !! 0%nat = Some (repeat Byte.x41 32, v) /\
  allocated demoGops (∅ : MemKV) !! 2%nat = Some (repeat Byte.x41 32, v') /\ v < v'.
Proof.
  assert (E1 : allocated demoGops (∅ : MemKV) !! 0%nat = Some (repeat Byte.x41 32, 1)) by (vm_compute; reflexivity).
  assert (E2 : allocated demoGops (∅ : MemKV) !! 2%nat = Some (repeat Byte.x41 32, 2)) by (vm_compute; reflexivity).
  exists 1, 2. split; [exact E1|]. split; [exact E2|].
  exact (revisions_increase demoGops (∅ : MemKV) demoGops_ok 0%nat 2%nat (repeat Byte.x41 32) 1 2 ltac:(lia) E1 E2).
Defined.

(** ** A chain and an archive *)

Definition rt (b : byte) : root32 := mkArchiveID (repeat b 32) eq_refl.
(** Slots 9, 10 (finalized), 12 and the fork 11, 13 above 10. *)
Definition demoLinks : list (byte * (Z * byte)) :=
  [(Byte.x01, (9, Byte.x00)); (Byte.x02, (10, Byte.x01)); (Byte.x03, (12, Byte.x02)); (Byte.x04, (11, Byte.x02)); (Byte.x05, (13, Byte.x04))].
Definition demoLink (r : root32) : option (Z * root32) :=
  '(_, (s, p)) ← List.find (fun x => bool_decide (rt (fst x) = r)) demoLinks; Some (s, rt p).
Definition demoCommits (r : root32) : list bytes := if decide (r = rt Byte.x03) then [[Byte.x01]] else [].
Definition demoHeader (r : root32) : option BeaconHeader := '(s, p) ← demoLink r; Some (mkHeader s r p true).

(** The head the source selects, the request the archive took and the blobs it has. *)
Record DW : Type := mkDW { dw_tip : root32; dw_chosen : option GenerationRequest; dw_blobs : list VersionedHash }.

#[global] Instance demo_headers : HeaderSource DW := {|
  hs_ctx := ret tt;
  hs_Head := fun w => (Ok (demoHeader (dw_tip w)), w);
  hs_FinalizedHeader := fun w => (Ok (demoHeader (rt Byte.x02)), w);
  hs_HeaderByRoot := fun r w => (match demoHeader r with Some h => Ok h | None => Err ENotFound end, w);
  hs_CommitmentsByRoot := fun r w => (Ok (demoCommits r), w) |}.

Lemma demoHeader_link r h : demoHeader r = Some h -> hd_Root h = r /\ demoLink r = Some (hd_Slot h, hd_ParentRoot h).
Proof. unfold demoHeader. destruct (demoLink r) as [[s p]|]; [|done]. by intros [= <-]. Qed.

#[global] Program Instance demo_headers_ok : HeaderSourceOk (HS := demo_headers) :=
  {| link_of := demoLink; commits_of := fun r => Some (demoCommits r) |}.
Next Obligation.
  intros r s p. unfold demoLink. destruct (List.find _ _) as [[b [s' p']]|] eqn:E; [|done]. apply List.find_some in E as [E _].
  intros [= <- _]. destruct E as [E|[E|[E|[E|[E|[]]]]]]; injection E as <- <- <-; unfold is_u64; lia.
Qed.
Next Obligation. intros r w h w' H. unfold hs_HeaderByRoot, demo_headers in H. destruct (demoHeader r) as [x|] eqn:E; [|done]. injection H as <- <-. apply demoHeader_link in E as [-> E]. done. Qed.
Next Obligation. intros w h w' H. injection H as H <-. by apply demoHeader_link in H as [-> H]. Qed.
Next Obligation. intros w h w' H. injection H as H <-. by subst h. Qed.
Next Obligation. by intros r w cs w' [= <- <-]. Qed.

(** Refuses a candidate whose blob it does not have. *)
#[global] Instance demo_archive : Archive DW := {|
  ar_Head := fun _ w => (Ok (mkHeadInfo (text_String blobA) 5 (Some 10) FinalizedMonotonic), w);
  ar_GenerationState := fun _ w => (Ok (mkStatus (baseline UnfinalizedMutable) false false), w);
  ar_PostGeneration := fun _ req w =>
    if decide (vhOf Byte.x01 ∈ dw_blobs w)
    then (Ok (Posted (mkGResp 1 (rq_WindowStart req) (rq_SyncedTo req) (text_String blobA) false)), mkDW (dw_tip w) (Some req) (dw_blobs w))
    else (Ok (MissingBlobs [vhOf Byte.x01] None), w);
  ar_PutBlobs := fun bs w =>
    match rmap blobVersionedHash bs with
    | Ok vhs => (Ok vhs, mkDW (dw_tip w) (dw_chosen w) (vhs ++ dw_blobs w))
    | Err e => (Err e, w)
    end;
  IsUnavailable := fun e => bool_decide (e = EIO) |}.

Definition demoCfg : Config DW := mkConfig [fun _ w => (Ok (mkBlobResult true [oneBlob Byte.x01]), w)] "tip" "all" 8 2 64 1.
#[global] Instance demo_view : ArchiveView (W := DW) := {| chosen := dw_chosen; delivered := fun w v => v ∈ dw_blobs w |}.
Lemma hashes_Forall2 {A B} (f : A -> res B) l l' : rmap f l = Ok l' -> Forall2 (fun x y => f x = Ok y) l l'.
Proof.
  revert l'. induction l as [|x l IH]; intros l' H; cbn in H; [injection H as <-; constructor|].
  apply rbind_ok in H as (y & Hy & (ys & Hys & [= <-])%rbind_ok). constructor; [done|by apply IH].
Qed.
#[global] Program Instance demo_archive_ok : ArchiveOk demoCfg := {| quiet_ctx := _ |}.
Next Obligation. by intros w r w' [= _ <-]. Qed.
Next Obligation. by intros w r w' [= _ <-]. Qed.
Next Obligation. by intros w r w' [= _ <-]. Qed.
Next Obligation. by intros x w r w' [= _ <-]. Qed.
Next Obligation. by intros x w r w' [= _ <-]. Qed.
Next Obligation. by intros x w r w' [= _ <-]. Qed.
Next Obligation. by intros x w r w' [= _ <-]. Qed.
Next Obligation. intros name w h w' synced [= <- <-] [= <-]. by split. Qed.
Next Obligation. intros source slot Hs w r w' H. apply list_elem_of_singleton in Hs as ->. by injection H as _ <-. Qed.
Next Obligation. intros name req w r w' H. cbn in H. destruct (decide _); injection H as <- <-; done. Qed.
Next Obligation.
  intros bs w r w' H. cbn in H. destruct (rmap blobVersionedHash bs) as [vhs|e] eqn:E; injection H as <- <-.
  - split; [done|]. cbn. split; [intros v Hv; apply elem_of_app; by right|]. split; [by apply hashes_Forall2|]. intros v. rewrite elem_of_app. tauto.
  - split; [done|]. split; [done|]. intros v Hv. by left.
Qed.

(** ** Snapshots *)

Definition w3 : DW := mkDW (rt Byte.x03) None [].
Definition w5 : DW := mkDW (rt Byte.x05) None [].
Definition snapAt (w : DW) : Snapshot :=
  match fst (Build (W := DW) 9 8 w) with
  | Ok sn => sn
  | Err _ => mkSnapshot 0 0 (mkHeader 0 (rt Byte.x00) (rt Byte.x00) false) (mkHeader 0 (rt Byte.x00) (rt Byte.x00) false) [] [] []
  end.
Lemma snap3 : Build (W := DW) 9 8 w3 = (Ok (snapAt w3), w3).
Proof. vm_compute. reflexivity. Qed.
Lemma snap5 : Build (W := DW) 9 8 w5 = (Ok (snapAt w5), w5).
Proof. vm_compute. reflexivity. Qed.
Lemma snap3_slots : map cb_Slot (sn_Blocks (snapAt w3)) = [9; 10; 12].
Proof. vm_compute. reflexivity. Qed.

Lemma snapshot_exact_witness : Build (W := DW) 9 8 w3 = (Ok (snapAt w3), w3) /\ canonical (snapAt w3).
Proof. split; [exact snap3|]. exact (proj1 (snapshot_exact 9 8 w3 (snapAt w3) w3 snap3)). Defined.
Lemma snap5_canonical : canonical (snapAt w5).
Proof. exact (proj1 (Build_run 9 8 w5 (snapAt w5) w5 snap5)). Qed.
Lemma snap3_canonical : canonical (snapAt w3).
Proof. exact (proj1 (Build_run 9 8 w3 (snapAt w3) w3 snap3)). Qed.

Definition head3 : BeaconHeader := mkHeader 12 (rt Byte.x03) (rt Byte.x02) true.
Lemma head3_link : link_of (HS := demo_headers) (hd_Root head3) = Some (hd_Slot head3, hd_ParentRoot head3).
Proof. reflexivity. Qed.
Lemma walk_ends_witness :
  walk (W := DW) (13 + 100) (mkHeader 10 (rt Byte.x02) (rt Byte.x01) true) 9 16 head3 [] [] false 0 w3 =
  walk (W := DW) 13 (mkHeader 10 (rt Byte.x02) (rt Byte.x01) true) 9 16 head3 [] [] false 0 w3.
Proof.
  exact (walk_ends 13 100 (mkHeader 10 (rt Byte.x02) (rt Byte.x01) true) 9 16 head3 [] [] false 0 w3 head3_link ltac:(cbn; lia)).
Defined.

(** The new head leaves the old one at slot 12 aside; slot 10 is common. *)
Lemma reorg3 : observedReorg (snapAt w3) (snapAt w5) = (2, true).
Proof. vm_compute. reflexivity. Qed.
Lemma observedReorg_exact_witness : observedReorg (snapAt w3) (snapAt w5) = (2, true) /\
  ~ ancestor (HS := demo_headers) (hd_Root (sn_Head (snapAt w5))) (hd_Root (sn_Head (snapAt w3))).
Proof.
  split; [exact reorg3|].
  assert (H0 : 0 <= sn_WindowStart (snapAt w3)) by (vm_compute; discriminate).
  assert (H1 : 0 <= sn_WindowStart (snapAt w5)) by (vm_compute; discriminate).
  assert (H2 : sn_WindowStart (snapAt w5) <= hd_Slot (sn_Head (snapAt w3))) by (vm_compute; discriminate).
  pose proof (observedReorg_exact (snapAt w3) (snapAt w5) snap3_canonical snap5_canonical H0 H1 H2) as H. rewrite reorg3 in H.
  exact (proj1 (proj1 H) eq_refl).
Defined.

(** ** A step *)

Definition selectedStatus : GenerationStatus :=
  mkStatus (mkGen 2 UnfinalizedMutable 1 "" "" 9 12 (Tracker.beaconRoot (rt Byte.x03)) 12 10 (Tracker.beaconRoot (rt Byte.x02))
    (text_String blobA) 10 "all" (text_String blobA) 10) true true.
Definition kept3 : TState (W := DW) := mkT w3 (Some (snapAt w3)).
Lemma shortcut3 : unchangedSelectedSource demoCfg selectedStatus (text_String blobA) 10 9 kept3 = (Ok (Some (stateResult (st_State selectedStatus))), kept3).
Proof. vm_compute. reflexivity. Qed.

Lemma one_u64 : is_u64 (gs_Generation (st_State selectedStatus)).
Proof. by split. Qed.
Lemma snap3_window : Build (W := DW) 9 (cf_WindowSlots demoCfg) (tw_world (mkT w3 None)) = (Ok (snapAt w3), w3).
Proof. vm_compute. reflexivity. Qed.
Lemma shortcut_sound_witness :
  fullStep demoCfg selectedStatus (text_String blobA) 10 9 (mkT w3 None) = (Ok (stateResult (st_State selectedStatus)), mkT w3 (Some (snapAt w3))).
Proof.
  destruct (shortcut_sound demoCfg selectedStatus (text_String blobA) 10 9 kept3 (snapAt w3) (stateResult (st_State selectedStatus)) kept3
    eq_refl snap3_canonical one_u64 shortcut3) as (_ & _ & fin & head & w1 & w2 & Hf & Hh & _ & H).
  injection Hf as <- <-. vm_compute in Hh. injection Hh as <- <-.
  exact (proj2 (H (mkT w3 None) (snapAt w3) w3 snap3_window ltac:(vm_compute; reflexivity) ltac:(vm_compute; reflexivity))).
Defined.

Lemma supplyMissing_exact_witness : exists w', supplyMissing demoCfg (snapAt w3) [vhOf Byte.x01] w3 = (Ok tt, w') /\
  delivered w' (vhOf Byte.x01).
Proof.
  assert (E : is_ok (fst (supplyMissing demoCfg (snapAt w3) [vhOf Byte.x01] w3)) = true) by (vm_compute; reflexivity).
  destruct (supplyMissing demoCfg (snapAt w3) [vhOf Byte.x01] w3) as [r w'] eqn:Er. destruct r as [[]|e]; [|discriminate E].
  exists w'. split; [reflexivity|].
  destruct (supplyMissing_exact demoCfg (snapAt w3) [vhOf Byte.x01] w3 (Ok tt) w' Er) as (_ & _ & _ & H & _).
  exact (H eq_refl (vhOf Byte.x01) (proj2 (list_elem_of_singleton _ _) eq_refl)).
Defined.

Lemma two_u64 : is_u64 (cf_OverlapSlots demoCfg).
Proof. by split. Qed.
Lemma no_previous : forall sn, tw_previous (mkT w3 None) = Some sn -> canonical sn.
Proof. done. Qed.
Lemma step_asks_complete_witness : exists res t', Step demoCfg (mkT w3 None) = (Ok res, t') /\ sr_Updated res = true /\
  selects demoCfg (mkT w3 None) t'.
Proof.
  assert (E : match fst (Step demoCfg (mkT w3 None)) with Ok res => sr_Updated res | Err _ => false end = true) by (vm_compute; reflexivity).
  destruct (Step demoCfg (mkT w3 None)) as [r t'] eqn:Er. destruct r as [res|e]; [|discriminate E].
  exists res, t'. split; [reflexivity|]. split; [exact E|].
  exact (proj2 (proj2 (step_asks_complete demoCfg (mkT w3 None) (Ok res) t' two_u64 no_previous Er)) res eq_refl E).
Defined.
