(* ===== verification/ReplicaWitnesses.v ===== *)
(** The replica controller at work over a node in memory whose first removals fail. *)
From Stdlib Require Strings.Byte.
From Stdlib Require String Ascii.
From S2P Require Import Prelude Arith Cid Schema Core Engine Ledger Json JsonDecode Publication PublicationJson Replica ReplicaCodec ReplicaCorrect ReplicaSafety ReplicaSteps ReplicaRuns Instances StoreInstances FollowWitnesses.

(** ** Instances *)

#[global] Program Instance hex_cidparse : CidParse (MH := id_multihash) (CT := hex_cidtext) := {| cid_Parse := text_Decode |}.
Next Obligation. exact (@Decode_String id_multihash hex_cidtext). Qed.
Next Obligation.
  intros c. cbn. unfold text_String. pose proof (hex_valid (ser_cid c)) as H. exact H.
Qed.

(** The pins, and how many removals fail before one succeeds. *)
Record MemKubo : Type := mkKubo { mk_pins : gmap CidV PinStatus; mk_failures : nat }.
Definition onPins (f : gmap CidV PinStatus -> gmap CidV PinStatus) (s : MemKubo) : MemKubo := mkKubo (f (mk_pins s)) (mk_failures s).
Definition named (n : string) (s : MemKubo) : list CidV :=
  fst <$> filter (fun x => snd x = mkPinStatus true n) (map_to_list (mk_pins s)).

#[global] Instance mem_kubo : Backend (MH := id_multihash) MemKubo := {|
  bk_PutBlock := fun _ _ => ret tt;
  bk_PinStatus := fun x s => (Ok (mk_pins s !! x), s);
  bk_NamedRecursivePins := fun n s => (Ok (named n s), s);
  bk_PinAddRecursive := fun x n s => (Ok tt, onPins <[x := mkPinStatus true n]> s);
  bk_PinUpdateRecursive := fun old next s => (Ok tt, onPins <[next := mkPinStatus true (default EmptyString (ps_Name <$> mk_pins s !! old))]> s);
  bk_PinRemoveRecursive := fun x s => match mk_failures s with O => (Ok tt, onPins (delete x) s) | S n => (Err EIO, mkKubo (mk_pins s) n) end |}.
#[global] Program Instance mem_kubo_ok : BackendOk (MH := id_multihash) MemKubo := {| pins := mk_pins |}.
Next Obligation. by intros d c s r s' [= <- <-]. Qed.
Next Obligation. intros c s r s' [= <- <-]. split; [done|]. by intros o [= <-]. Qed.
Next Obligation.
  intros n s r s' [= <- <-]. split; [done|]. intros l [= <-] c. unfold named. rewrite list_elem_of_fmap. split.
  - intros ([c' st] & -> & [E Hin%elem_of_map_to_list]%list_elem_of_filter). cbn in *. by subst.
  - intros H. exists (c, mkPinStatus true n). split; [done|]. apply list_elem_of_filter. split; [done|]. by apply elem_of_map_to_list.
Qed.
Next Obligation. by intros c n s r s' [= <- <-]. Qed.
Next Obligation. by intros old next s r s' [= <- <-]. Qed.
Next Obligation. intros c s r s'. cbn. destruct (mk_failures s); intros [= <- <-]; auto. Qed.

(** ** Generations *)

Definition demoReplica : Controller := mkController "replica-1" "bloar-replica/v1/replica-1".
Definition demoRoot (b : byte) : Cid := match NodeCID [b] with Ok c => c | Err _ => None end.
Definition demoGen (t : Z) (b : byte) : RGeneration :=
  mkRGeneration "" (time_Unix t) [mkRHead "tip" (demoRoot b) None 40; mkRHead "all" (demoRoot Byte.x01) (demoRoot Byte.x02) 31].
Definition gen1 : RGeneration := demoGen 100 Byte.x11.
Definition gen2 : RGeneration := demoGen 200 Byte.x12.
Definition gen3 : RGeneration := demoGen 300 Byte.x13.
Definition demoNow : Time := time_Unix 1000.

Definition world : Type := MemKV * MemKubo.
(** A node with a pin of another client. *)
Definition foreign : CidV := mkCid 1 cid_DagCBOR (mkMh SHA2_256 32 [Byte.x77]).
Definition fresh (failures : nat) : world := (∅, mkKubo {[ foreign := mkPinStatus true "operator" ]} failures).
Fixpoint runs (l : list rcall) (w : world) : world := match l with [] => w | q :: l' => runs l' (snd (runCall demoReplica q w)) end.

Definition twoPhases : list rcall := [RPrepare demoNow gen1; RCommit demoNow gen1; RPrepare demoNow gen2].
Definition served : world := runs twoPhases (fresh 1).
Definition summaryOf (w : world) : option (option Z * option Z * nat * nat) :=
  match ledger w with
  | Ok k => Some ((fun r => Unix (rg_UpdatedAt (rt_Generation r))) <$> st_Current k, (fun r => Unix (rg_UpdatedAt (rt_Generation r))) <$> st_Pending k, length (st_Cleanup k), size (pinsOf w))
  | Err _ => None
  end.
Lemma served_summary : summaryOf served = Some (Some 100, Some 200, 0%nat, 3%nat).
Proof. vm_compute. reflexivity. Qed.

Lemma demoGen_fits t b : Unix (time_Unix t) < 2 ^ 63 -> gen_fits (demoGen t b).
Proof. intros H. split; [exact H|]. repeat constructor; done. Qed.
Lemma demoNow_fits : time_fits demoNow.
Proof. vm_compute. reflexivity. Qed.
Lemma twoPhases_ok : Forall rcall_ok twoPhases.
Proof. repeat (apply Forall_cons; split; [split; [by apply demoGen_fits|exact demoNow_fits]|]). by apply Forall_nil. Qed.

Lemma runs_reachable {MD : BorrowMode} l w : reachable demoReplica w -> Forall rcall_ok l -> reachable demoReplica (runs l w).
Proof.
  revert w. induction l as [|q l IH]; intros w Hw Hl; [done|]. apply Forall_cons in Hl as [Hq Hl]. cbn [runs]. apply IH; [|done].
  destruct (runCall demoReplica q w) as [o w'] eqn:E. by eapply reach_call.
Qed.
Lemma fresh_reachable {MD : BorrowMode} n : reachable demoReplica (fresh n).
Proof.
  apply reach_start; [done|]. intros x H. unfold pinsOf in H. cbn in H. apply lookup_singleton_Some in H as [_ H]. discriminate H.
Qed.
Lemma served_reachable {MD : BorrowMode} : reachable demoReplica served.
Proof. apply runs_reachable; [apply fresh_reachable|exact twoPhases_ok]. Qed.

(** ** The theorems at work *)

Definition at1 (g : RGeneration) : RGeneration := mkRGeneration "replica-1" (rg_UpdatedAt g) (rg_Heads g).
Definition blockOf (g : RGeneration) : bytes * CidV := match Block (at1 g) with Ok b => b | Err _ => ([], foreign) end.

(** Other clients do as they like with their own pins. *)
Definition roaming : BorrowMode := false.
(** The operator has pinned the anchor of the first generation; it is borrowed, and then the
    operator removes the pin. *)
Definition lent : world := runs [RPrepare demoNow gen1; RCommit demoNow gen1] (∅, mkKubo {[ snd (blockOf gen1) := mkPinStatus true "operator" ]} 0).
Definition lost : world := (fst lent, mkKubo ∅ 0).
Lemma lent_pins : pinsOf lent = {[ snd (blockOf gen1) := mkPinStatus true "operator" ]}.
Proof. apply (bool_decide_unpack _). vm_compute. exact I. Qed.
Lemma lone_pin (a x : CidV) n : ({[ a := mkPinStatus true "operator" ]} : gmap CidV PinStatus) !! x = Some (mkPinStatus true n) -> n = "operator"%string.
Proof. intros [_ H]%lookup_singleton_Some. by injection H as <-. Qed.
Lemma lent_reachable : reachable (MD := roaming) demoReplica lent.
Proof.
  apply runs_reachable; [|exact (proj1 (proj1 (Forall_app _ [RPrepare demoNow gen1; RCommit demoNow gen1] _) twoPhases_ok))].
  apply reach_start; [done|]. intros x H. apply lone_pin in H. discriminate H.
Qed.
Lemma unpinned_others (w : world) (a : CidV) : pinsOf w = {[ a := mkPinStatus true "operator" ]} -> others (MD := roaming) demoReplica w (mkKubo ∅ 0).
Proof.
  intros E. unfold others. rewrite E. split; [|intros H; discriminate H]. intros x. split; intros H; exfalso.
  - change ((∅ : gmap CidV PinStatus) !! x = Some (reserved demoReplica)) in H. rewrite lookup_empty in H. discriminate H.
  - apply lone_pin in H. discriminate H.
Qed.
Lemma lost_reachable : reachable (MD := roaming) demoReplica lost.
Proof. exact (reach_others (MD := roaming) demoReplica lent (mkKubo ∅ 0) lent_reachable (unpinned_others lent _ lent_pins)). Qed.
Lemma lost_summary : summaryOf lost = Some (Some 100, None, 0%nat, 0%nat).
Proof. vm_compute. reflexivity. Qed.

Lemma replica_safe_witness : is_ok (fst (Recover demoReplica lost)) = false /\
  exists k, ledger served = Ok k /\ exists cur, st_Current k = Some cur /\ protectedBy demoReplica (pinsOf served) cur.
Proof.
  split.
  - destruct (replica_safe (MD := roaming) demoReplica lost lost_reachable) as (k & Hk & _ & _ & _ & Hc).
    pose proof lost_summary as E. unfold summaryOf in E. rewrite Hk in E. destruct (st_Current k) as [cur|] eqn:Ec; [|discriminate E].
    apply (Hc cur eq_refl). intros [H _]. change (pinsOf lost) with (∅ : gmap CidV PinStatus) in H. rewrite lookup_empty in H. discriminate H.
  - destruct (replica_safe (MD := keeping) demoReplica served served_reachable) as (k & Hk & _ & Hc & _). exists k. split; [exact Hk|].
    pose proof served_summary as E. unfold summaryOf in E. rewrite Hk in E. destruct (st_Current k) as [cur|] eqn:Ec; [|discriminate E]. exists cur.
    split; [reflexivity|]. apply Hc; [reflexivity|left; reflexivity].
Defined.

(** The pin of the other client stays, whatever the call does. *)
Lemma calls_touch_only_own_witness : pinsOf (snd (runCall demoReplica (RPrepare demoNow gen3) served)) !! foreign = Some (mkPinStatus true "operator").
Proof.
  assert (E : pinsOf served !! foreign = Some (mkPinStatus true "operator")) by (vm_compute; reflexivity).
  destruct (calls_touch_only_own (MD := roaming) demoReplica served (RPrepare demoNow gen3) (fst (runCall demoReplica (RPrepare demoNow gen3) served)) (snd (runCall demoReplica (RPrepare demoNow gen3) served))
    served_reachable (conj (demoGen_fits 300 Byte.x13 eq_refl) demoNow_fits) (surjective_pairing _) foreign) as [H|[(H & _)|(_ & H & _)]].
  - rewrite H. exact E.
  - rewrite E in H. discriminate H.
  - rewrite E in H. discriminate H.
Defined.

Definition servedState : controllerState := match ledger served with Ok k => k | Err _ => mkState None None [] end.
Lemma served_ledger : ledger served = Ok servedState.
Proof. pose proof served_summary as E. unfold servedState, summaryOf in *. by destruct (ledger served). Qed.
Definition committed : world := snd (Commit demoReplica demoNow gen2 served).
(** The old anchor stays as debt: its removal failed. *)
Lemma committed_summary : summaryOf committed = Some (Some 200, None, 1%nat, 3%nat).
Proof. vm_compute. reflexivity. Qed.

(** The floors of a checkpoint may be repaired upward. *)
Definition checkpoints : list RHead := [mkRHead "all" (demoRoot Byte.x01) (demoRoot Byte.x02) 35; mkRHead "tip" (demoRoot Byte.x11) None 44].
Definition proof1 : res RGeneration := fst (ProtectsAll demoReplica checkpoints served).
Lemma proof1_time : (fun g => Unix (rg_UpdatedAt g)) <$> match proof1 with Ok g => Some g | Err _ => None end = Some 100.
Proof. vm_compute. reflexivity. Qed.
Lemma resume_covered_witness : exists g k r, proof1 = Ok g /\ ledger served = Ok k /\ (st_Current k = Some r \/ st_Pending k = Some r) /\ rt_Generation r = g /\ protectedBy demoReplica (pinsOf served) r.
Proof.
  pose proof proof1_time as E. destruct proof1 as [g|] eqn:Eg; [|discriminate E]. exists g.
  assert (Hn : NoDup (rh_Name <$> checkpoints)) by (apply (bool_decide_unpack _); vm_compute; exact I).
  destruct (proj2 (proj2 (resume_covered (MD := roaming) demoReplica served checkpoints proof1 (snd (ProtectsAll demoReplica checkpoints served)) served_reachable Hn (surjective_pairing _))) g Eg) as (k & r & H1 & H2 & H3 & _ & H4).
  exists k, r. split; [reflexivity|]. split; [exact H1|]. split; [exact H2|]. split; [exact H3|exact H4].
Defined.

Lemma servedState_ok : state_ok servedState.
Proof.
  destruct (reachable_sound (MD := keeping) _ _ served_reachable) as (k & Hk & [He _ _] & _). rewrite served_ledger in Hk.
  apply (f_equal (fun o => match o with Ok x => x | Err _ => k end)) in Hk. cbv beta iota in Hk. subst k. eapply Forall_impl; [exact He|]. by intros r [? _].
Qed.
Definition saved : res unit * MemKV := saveControllerState servedState (∅ : MemKV).
Lemma saved_ok : is_ok (fst saved) = true.
Proof. vm_compute. reflexivity. Qed.
Lemma ledger_roundtrip_witness : fst (loadControllerState (snd saved)) = Ok servedState.
Proof.
  pose proof (proj1 (ledger_roundtrip servedState (∅ : MemKV) (fst saved) (snd saved) servedState_ok (surjective_pairing _)) (fst (loadControllerState (snd saved))) (snd (loadControllerState (snd saved))) (surjective_pairing _)) as H.
  rewrite saved_ok in H. destruct H as [H|H]; [|exact H]. exfalso. assert (E : is_ok (fst (loadControllerState (snd saved))) = true) by (vm_compute; reflexivity). rewrite H in E. discriminate E.
Defined.

(** The same heads in another order, a fraction of a second later. *)
Definition gen1' : RGeneration := mkRGeneration "" (time_Unix 100 + 5) (rev (rg_Heads gen1)).
Lemma anchor_identifies_generation_witness : snd (blockOf gen1) = snd (blockOf gen1') /\ snd (blockOf gen1) <> snd (blockOf gen2).
Proof.
  assert (B1 : Block (at1 gen1) = Ok (fst (blockOf gen1), snd (blockOf gen1))) by (vm_compute; reflexivity).
  assert (B2 : Block (at1 gen1') = Ok (fst (blockOf gen1'), snd (blockOf gen1'))) by (vm_compute; reflexivity).
  assert (B3 : Block (at1 gen2) = Ok (fst (blockOf gen2), snd (blockOf gen2))) by (vm_compute; reflexivity).
  assert (F1 : gen_fits (at1 gen1)) by exact (demoGen_fits 100 Byte.x11 eq_refl). assert (F3 : gen_fits (at1 gen2)) by exact (demoGen_fits 200 Byte.x12 eq_refl).
  assert (F2 : gen_fits (at1 gen1')) by (split; [reflexivity|repeat constructor; done]). split.
  - apply (proj2 (anchor_identifies_generation (at1 gen1) (at1 gen1') _ _ _ _ F1 F2 B1 B2)). vm_compute. reflexivity.
  - intros E. apply (proj1 (anchor_identifies_generation (at1 gen1) (at1 gen2) _ _ _ _ F1 F3 B1 B3)) in E. vm_compute in E. discriminate E.
Defined.

(** ** What the source's order of steps leaves *)

(** A candidate that is still in the debt, with another generation pending, is unpinned by its
    own Prepare, which then fails; a second Prepare pins it again. *)
Definition swapped : world := runs [RPrepare demoNow gen3] served.
Definition back : res (list err) * world := Prepare demoReplica demoNow gen2 swapped.
Theorem prepare_unpins_candidate : summaryOf swapped = Some (Some 100, Some 300, 1%nat, 4%nat) /\ fst back = Err ErrGenerationUnprotected /\
  summaryOf (snd back) = Some (Some 100, Some 200, 0%nat, 2%nat) /\ summaryOf (snd (Prepare demoReplica demoNow gen2 (snd back))) = Some (Some 100, Some 200, 0%nat, 3%nat).
Proof. split_and!; vm_compute; reflexivity. Qed.
